(* ===== verification/_CoqProject ===== *)
-Q . S2P
Prelude.v
Mutation.v
Floats.v
Foreign.v
Truth.v
BigMagnitude.v
Text.v
BTree.v
Types.v
Values.v
Sums.v
Fingerprint.v
Model.v
Row.v
Expr.v
Semantic.v
ExprValidate.v
ExprNormalize.v
ExprTruth.v
ExprPrepare.v
Plan.v
Placement.v
DataSet.v
Executor.v
Optimize.v
ExecutorSpec.v
Windows.v
Stream.v
Writes.v
MemoryStore.v
WriteSpec.v
Integrity.v
MemoryEngine.v
Pipeline.v
PipelineCompile.v
PipelineGraph.v
PipelineTyping.v
PipelineSound.v
Wire.v
WireEncode.v
WireDecode.v
WireCodec.v
WireTypes.v
WireDatums.v
WireText.v
WireCanon.v
WireModels.v
Catalog.v
Migration.v
CatalogSpec.v
CatalogMaps.v
MigrateSpec.v
MigrateProtocol.v
PushDown.v
PgSql.v
PgExpr.v
PgCompile.v
PgCodec.v
PgSemantics.v
PgSound.v
PgRows.v
PgRefines.v
PgSafety.v
PgRuntime.v
PgProtocol.v
PgStream.v
JsonlDecode.v
JsonlRows.v
JsonlEngine.v
JsonlChain.v
JsonlRefines.v
JsonlReach.v
JsonlContract.v
MgCodec.v
MgCompile.v
MgSemantics.v
MgSound.v
MgRefines.v
MlVector.v
MlInference.v
