(* ===== verification/Prelude.v ===== *)
(** * DOL: a verification library for the Data Operating Language

    DOL is a typed, backend-independent language of data operations: semantic
    types and models, expressions with a three-valued logic, pipelines that
    compile to logical plans, first-class writes, and engines that execute
    both.  This library models the core language ([crates/dol-core]), the
    engine contracts ([crates/dol-engine]), the in-memory reference engine
    ([engines/memory]), which the other engines are tested against, the wire
    format ([crates/dol-wire]), schema migrations ([crates/dol-migrate]), the
    PostgreSQL, MongoDB and JSON-lines engines ([engines/postgres],
    [engines/mongodb], [engines/jsonl]) and the machine learning support
    ([crates/dol-ml]), and proves them correct.  Paths are relative to [src/].

    ** How the parts interact

    A type definition is canonicalised and validated; a model freezes fields
    with types into an indexed definition; a row holds one datum per field.
    An expression is checked against limits, validated, normalised, bound to
    models and compiled into a flat node array, which the evaluator runs in
    the rows of its scopes.  A pipeline is authored as a shared graph of nodes
    and compiled, subqueries included, to a logical plan: a list of operations
    that refer to earlier ones, optimised by rewriting; an engine places its
    nodes, executes them stage by stage, and returns a stream that clients pull
    and collect under limits.  A write is authored, prepared against its model
    into a logical write and applied atomically to the engine's tables, which
    must satisfy local and cross-model constraints before and after.  Types,
    typed datums and models travel as canonical byte frames, decoded under
    limits.  A backend's catalog of entities is migrated by diffing two
    snapshots under declared renames, planning the operations with their risks,
    authorising the plan by a policy, and applying it under the backend's lock.
    The PostgreSQL engine compiles a plan to one statement over mapped tables
    whose values travel as binds, and decodes the rows that come back.  The
    MongoDB engine compiles it to an aggregation pipeline of one collection,
    with a second pipeline that looks for a document outside the model before
    anything else runs, and pulls and decodes the cursor's documents.  The
    JSON-lines engine binds models to files and runs a plan as a chain of
    operators that every line of the file passes through when a batch is
    pulled.

    ** Files (each requires those it uses; in the order of [_CoqProject])

    - [Prelude]: diagnostics, the error monad [Result], machine integers, and
      the lemmas, hints and comparison laws the components share.  [Mutation]:
      computations behind [&mut self] whose state changes survive errors.
    - [Floats]: IEEE-754 values as bit patterns.  [Foreign]: the class of the
      third-party operations (decimals, identifiers, calendar, digest, Unicode
      tables) with the documented laws the theorems use, and an instance.
    - [Truth], [BigMagnitude], [Sums]: [dol-core/src/semantics/mod.rs]; Kleene
      truth, unbounded magnitudes in 64-bit limbs, and exact sums.
    - [Text]: UTF-8 strings and the numbers printed into and parsed from them.
      [BTree]: [BTreeMap], stable sorting, and the bounded explicit-stack
      traversal that several validators share.
    - [Types]: [types/def.rs], [types/validate.rs], [limits].  [Values]:
      [value/logical.rs], [datum.rs], [validate.rs].  [Fingerprint]:
      [fingerprint/mod.rs].  [Model]: [model/].  [Row]: [runtime/row.rs].
    - [Expr], [Semantic], [ExprValidate], [ExprNormalize], [ExprTruth],
      [ExprPrepare]: the files of [expr/]: trees, operator semantics, typing,
      normal forms, conjunction balancing, preparation and evaluation.
    - [Plan]: [plan/mod.rs], [identity.rs], [optimize.rs].  [Optimize]: the
      refinement proof of the optimiser.
    - [Placement]: [dol-engine/src]: capabilities, placement, explanations,
      cache admission.  [Stream]: the pull-stream contract (a class), its
      collection, and the memory stream as an instance.
    - [Executor]: [engines/memory/src/executor.rs], [executor/] and the plan
      limits of [dol-engine/src/execute].  [ExecutorSpec], [Windows]: what its
      stages compute.
    - [DataSet]: [data/validate.rs].  [Writes]: [ops/], [data/write.rs].
      [MemoryStore]: [engines/memory/src/store.rs], [write.rs].  [WriteSpec]:
      the local semantics of writes against the stored one.  [Integrity]: what
      the validation of all tables decides.  [MemoryEngine]:
      [engines/memory/src/lib.rs], [transaction.rs].
    - [Pipeline], [PipelineCompile]: [dol-core/src/pipeline], [analytics]:
      authored graphs and their compilation to plans.  [PipelineGraph]: what
      traversals visit and what the public operations build.
      [PipelineTyping]: typed plans, and that compilation returns them.
      [PipelineSound]: typed plans execute to rows of their output; the
      engine's entry points for pipelines.
    - [Wire], [WireEncode], [WireDecode]: [dol-wire/src]: frames and limits,
      the encoder, the decoder with its lowering and canonicality check.
      [WireCodec], [WireTypes], [WireDatums]: what the codecs of
      each part read back.  [WireText]: numbers and dates as text.
      [WireCanon], [WireModels]: the round trips of typed datums and models.
    - [Catalog], [Migration]: the files of
      [dol-migrate/src]: snapshots, diffs, plans and policies, the applier
      over any backend and the in-memory backend of its tests.
      [CatalogSpec]: what a diff is.  [CatalogMaps]: operations as updates of
      finite maps.  [MigrateSpec]: applications to the in-memory backend.
      [MigrateProtocol]: the calls a backend receives, and authorisation.
    - [PushDown]: what the engines that compile plans share: typed values and
      their comparisons, the scopes of an expression, evaluated operands.
    - [PgSql], [PgExpr], [PgCompile], [PgCodec]: the files
      [mapping.rs], [sql.rs], [compiler/expression.rs], [compiler.rs] and
      [codec.rs] of [engines/postgres/src]; a statement is a tree that
      [render_query] prints as the code formats it.  [PgSemantics]: what
      PostgreSQL is assumed to do with the expressions and selects that are
      compiled, as classes [PostgresLaws] and [QueryLaws], and an executable
      instance of each.  [PgSound]: compiled expressions.  [PgRows]: compiled
      relations.  [PgRefines]: compiled plans against the memory executor.
      [PgSafety]: what is sent.
    - [PgRuntime]: [runtime.rs], [inspect.rs] and [lib.rs] of
      [engines/postgres/src]; a stream is the state of the client, the worker
      and the channels between them, [worker_turn] and [client_turn] are what
      each thread does between two points where it may block, [start_call] is
      a call of the program.  [PgProtocol]: interleavings of the two.
      [PgStream]: what streams return and what is checked before they do.
    - [JsonlDecode], [JsonlEngine]: [decode.rs], and [source.rs], [stream.rs]
      and [lib.rs], of [engines/jsonl/src].  [JsonlRows]: which lines decode.
      [JsonlChain], [JsonlRefines]: the lines a reader returns, the chain of
      operators against the stages of the memory executor, and what pulling
      returns.  [JsonlReach]: progress and bounds of streams, reachable
      engines.  [JsonlContract]: the theorems about the engine.
    - [MgCodec], [MgCompile]: [mapping.rs], [compiled.rs], [codec.rs], and
      [compiler.rs], [runtime.rs], [lib.rs], of [engines/mongodb/src]; what is
      sent is a list of BSON documents, as the code builds them.
      [MgSemantics]: what MongoDB is assumed to do with the stages and
      expressions that are compiled, as the class [MongoLaws], and an
      executable instance.  [MgSound]: compiled expressions.  [MgRefines]: the
      preflight, the stages and the engine against the memory executor.
    - [MlVector], [MlInference]: [dol-ml/src]; vectors, searches and where
      they run ([limits], [vector], [capability]), and features, inference and
      evaluation ([feature], [inference], [evaluation]).

    Within a file, a definition carries the name of the function, method or
    type it translates, prefixed by its receiver where names clash
    ([row_set_field] is [DynRow::set_field], [plan_push] is
    [PlanBuilder::push]); [Err] carries the stable diagnostic code, not the
    message.  State is explicit: builders and contexts are records passed and
    returned; [&mut] receivers are [Mut] computations; [BTreeMap]s are sorted
    association lists; machine integers are [Z] with their wrap, saturation or
    overflow check written out, and lengths of collections are [nat].

    ** What is proved

    - Types and values: validation accepts exactly the well-formed types and
      conforming datums; encodings are uniquely decodable, equal datums have
      equal fingerprints; equality and the execution order have their laws;
      exact sums are the mathematical sums.
    - Models, rows, data: freezing ignores declaration order and indexes
      correctly; model sets have no dangling reference; every row operation
      keeps rows valid; data validation decides conformance and uniqueness.
    - Expressions: validation is the typing judgement, operators and built-in
      functions are type sound, normalisation and rebalancing preserve
      meaning, and the prepared form evaluates like the tree.
    - Plans and execution: the optimiser preserves the outcome of every
      execution, errors included; joins, grouping, aggregates, windows, sorts
      and set operations meet declarative specifications, which describe join
      kinds, orders and frames apart from the code; placement assigns
      to an engine exactly what it can run; collection terminates within its
      limits.
    - Pipelines: traversals visit exactly the nodes below their root, inputs
      first; the plan and identity of a pipeline never change; compiled plans
      are typed and well formed; typed plans execute to rows of their declared
      output; and, end to end, a pipeline authored by the public operations
      and run on a reachable engine returns such rows or an error of its
      compilation, of the tables or of its execution.
    - Writes and the memory engine: failed writes change nothing; successful
      ones have exactly their declared effect, the same as the local eager
      semantics; every reachable engine marked valid is valid; transactions
      are isolated and serializable.
    - Wire format: types, typed datums and frozen models decode to what was
      encoded (a datum to its canonical form, unless the time crate does not
      read back the timestamp of one of its instants, which is an error); only
      canonical frames decode.
    - Migrations: a diff exists exactly for the declared renames, and its
      operations turn the source into the target; steps refine map updates; an
      application commits exactly the target or nothing; the lock is taken
      only for an authorised plan and, once taken, finished exactly once.
    - PostgreSQL: a stream returns the rows of the memory executor, up to their
      order, in every interleaving of its two threads; no call blocks and no
      worker is left behind, even when the worker panics; the
      statement is bound on the connection on which encoding and tables were
      checked before; the statement does not
      depend on the values of literals and parameters; every bind can be sent
      with the type its placeholder casts from; quoted names read back.
    - MongoDB: a stream returns the rows of the memory executor, in order, slices
      included; the preflight finds nothing exactly when every document reads
      as a valid row, for the types it tests in full.  Examples show where
      support and preflight promise more than the compiler and the codec keep.
    - JSON lines: a stream returns the rows of the memory executor, in order,
      however the file is read; it reads the file that was bound, within the
      root, holds a bounded amount and comes to an end; exactly the supported
      plans are accepted, and exactly the well-formed lines decode.
    - Machine learning: an exhaustive search returns the candidates of
      smallest distance or largest inner product, whatever their order; a provider is given exactly the requests that
      capabilities, privacy policy and budget allow, and a response is returned
      exactly when it has the shape asked for.

    ** Bounds and fuel

    The traversals of section [Walk] run with the number of nodes as fuel and the
    evaluator of flat expressions with one more than the number of nodes
    (children have smaller indices); the closure of a plan with [2 n + 2]
    steps (each node is expanded once and pushed at most twice); the collection
    of a pipeline's nodes with [3 n + 1] steps; its compilation nests
    subqueries at most once per node below the root, since a subquery comes
    before the node that tests it; existential
    nesting has the code's own bound of 256; collecting a stream takes one
    pull per row and a last one; decoding nests one level
    more than the depth limit; reading a line takes one turn per read and two
    more, looking for rows one turn per byte or read left and a last one.  Each bound is proved to be enough in the
    file that uses it, as part of an exact or a termination theorem.

    ** Not modelled

    - Typed authoring in the host language ([expr/author.rs], [expr/api],
      [binding.rs], [value/traits.rs], [value/convert.rs], the derive macros):
      constructors whose only effect is to build the modelled structures from
      host types.  Expressions see the pipelines they test through the class
      [Subqueries], which [Pipeline] implements.
    - Clocks: executions and streams run without a timeout, except those of
      PostgreSQL, whose timeout is an argument ([timeout]) next to the limits
      and whose clock is a parameter; so are the two readings of an inference;
      a write sees an arbitrary sequence of
      clock readings.  Calls to the file system and to drivers are made at
      increasing times, between which files and servers may change.
    - Summaries of migration steps, which are messages.
    - Slices in the PostgreSQL refinement (they are modelled and compiled):
      without an order, the statement may return any of the rows.  The typed
      laws of [PostgresLaws] and [QueryLaws] say what the server is trusted
      for, and [PgServerLaws] what a portal is.  TLS, the driver and the texts
      of its errors are outside.
    - The driver of MongoDB: whether a client connects, and the documents and
      failures of a cursor, are arbitrary functions of the time; the
      refinement assumes that cursors return what [MongoLaws] says of the
      stored documents.  Slices with limit 0 are outside it, since the server
      refuses them, and so are typed collections that a writer changes between
      the preflight and the aggregation.
    - Providers of machine learning: a parameter.  That the metric of finite
      vectors is never NaN is not proved: the order of results is total anyway.
    - Tools and conformance suites: clients of the parts above.
    - Third-party crates: see [Foreign]. *)
From Stdlib Require Import ZArith Lia.
From stdpp Require Export base list strings sorting sets.

(** ** Diagnostics and fallible computations

    [Diagnostic::error(code, message)]: the stable [code] is what callers
    branch on; the human-readable message is not modelled. *)
Record Diagnostic := mkDiagnostic { code : string }.

Inductive Result (A : Type) :=
| Ok (a : A)
| Err (d : Diagnostic).
Arguments Ok {A} a.
Arguments Err {A} d.

Definition error {A} (c : string) : Result A := Err (mkDiagnostic c).

Definition rbind {A B} (m : Result A) (f : A -> Result B) : Result B :=
  match m with Ok a => f a | Err d => Err d end.

Definition rmap {A B} (f : A -> B) (m : Result A) : Result B :=
  match m with Ok a => Ok (f a) | Err d => Err d end.

(** [Option::ok_or_else(|| Diagnostic::error(..))] *)
Definition ok_or {A} (o : option A) (c : string) : Result A :=
  match o with Some a => Ok a | None => error c end.

(** [Result::map_err(|_| Diagnostic::error(..))] *)
Definition map_err {A} (m : Result A) (c : string) : Result A :=
  match m with Ok a => Ok a | Err _ => error c end.

Declare Scope dol_scope.
Delimit Scope dol_scope with dol.
Notation "'let?' x ':=' m 'in' k" := (rbind m (fun x => k))
  (at level 10, x pattern, m at level 100, k at level 200) : dol_scope.
Notation "m ';;?' k" := (rbind m (fun _ => k))
  (at level 100, k at level 200, right associativity) : dol_scope.
Open Scope dol_scope.

(** [guard b c]: the early return [if !b { return Err(c) }]. *)
Definition guard (b : bool) (c : string) : Result unit := if b then Ok tt else error c.

Arguments error {A} c%_stdpp_scope.
Arguments ok_or {A} o c%_stdpp_scope.
Arguments map_err {A} m c%_stdpp_scope.
Arguments guard b c%_stdpp_scope.

Definition is_ok {A} (m : Result A) : bool := match m with Ok _ => true | Err _ => false end.

(** Iteration over a slice in order, with the first error returned; the fixes
    are inside the definitions so that they can be used on nested data. *)
Definition mapR {A B} (f : A -> Result B) : list A -> Result (list B) :=
  fix go l := match l with
              | [] => Ok []
              | x :: l' => let? y := f x in let? ys := go l' in Ok (y :: ys)
              end.

Definition forR {A} (f : A -> Result unit) : list A -> Result unit :=
  fix go l := match l with
              | [] => Ok tt
              | x :: l' => f x ;;? go l'
              end.

Definition foldR {A S} (f : S -> A -> Result S) : list A -> S -> Result S :=
  fix go l s := match l with
                | [] => Ok s
                | x :: l' => let? s' := f s x in go l' s'
                end.

(** [iter().map(f).collect::<Result<Vec<_>>>()] where [f] also threads a state. *)
Definition mapS {A B S} (f : A -> S -> Result (B * S)) : list A -> S -> Result (list B * S) :=
  fix go l s := match l with
                | [] => Ok ([], s)
                | x :: l' => let? r := f x s in let? rs := go l' (snd r) in Ok (fst r :: fst rs, snd rs)
                end.

(** ** Machine integers *)
Definition u32_max : Z := 4294967295.
Definition u64_max : Z := 18446744073709551615.
Definition u128_max : Z := 340282366920938463463374607431768211455.
Definition i128_min : Z := -170141183460469231731687303715884105728.
Definition i128_max : Z := 170141183460469231731687303715884105727.

Definition in_i128 (z : Z) : bool := (i128_min <=? z)%Z && (z <=? i128_max)%Z.
Definition in_u128 (z : Z) : bool := (0 <=? z)%Z && (z <=? u128_max)%Z.
Definition in_u64 (z : Z) : bool := (0 <=? z)%Z && (z <=? u64_max)%Z.

(** [u64::saturating_add] (and [usize] on the 64-bit targets). *)
Definition sat_add (a b : Z) : Z := Z.min u64_max (a + b).

Definition zlen {A} (l : list A) : Z := Z.of_nat (length l).
Definition zstrlen (s : string) : Z := Z.of_nat (String.length s).

(** [Option<Ordering>] helpers. *)
Definition reverse_ordering (c : comparison) : comparison := CompOpp c.
Definition comparison_eqb (a b : comparison) : bool :=
  match a, b with Eq, Eq | Lt, Lt | Gt, Gt => true | _, _ => false end.

(** Lexicographic comparison, [Iterator::cmp] and [Ord for [T]]. *)
Fixpoint list_cmp {A} (cmp : A -> A -> comparison) (l1 l2 : list A) : comparison :=
  match l1, l2 with
  | [], [] => Eq
  | [], _ :: _ => Lt
  | _ :: _, [] => Gt
  | x :: l1', y :: l2' =>
      match cmp x y with Eq => list_cmp cmp l1' l2' | c => c end
  end.

Definition bool_cmp (a b : bool) : comparison :=
  match a, b with false, true => Lt | true, false => Gt | _, _ => Eq end.

Create HintDb dol.

(** A boolean equality that is a decidable equivalence, and a comparison that
    is a total preorder. *)
Record EqbLaws {A} (eqb : A -> A -> bool) : Prop := {
  eqb_refl : forall a, eqb a a = true;
  eqb_sym : forall a b, eqb a b = true -> eqb b a = true;
  eqb_trans : forall a b c, eqb a b = true -> eqb b c = true -> eqb a c = true
}.

Record CmpLaws {A} (cmp : A -> A -> comparison) : Prop := {
  cmp_refl : forall a, cmp a a = Eq;
  cmp_antisym : forall a b, cmp b a = CompOpp (cmp a b);
  cmp_trans : forall a b c, cmp a b <> Gt -> cmp b c <> Gt -> cmp a c <> Gt
}.

Lemma cmp_gt_lt {A} (cmp : A -> A -> comparison) a b : CmpLaws cmp -> cmp a b = Gt -> cmp b a = Lt.
Proof. intros L E. by rewrite (cmp_antisym _ L a b), E. Qed.

Lemma CmpLaws_trans_eq {A} (cmp : A -> A -> comparison) a b c :
  CmpLaws cmp -> cmp a b = Eq -> cmp b c = Eq -> cmp a c = Eq.
Proof.
  intros L E1 E2. destruct (cmp a c) eqn:E; [done| |].
  - exfalso. apply (cmp_trans _ L c b a); [rewrite (cmp_antisym _ L b c), E2; done
      |rewrite (cmp_antisym _ L a b), E1; done|]. by rewrite (cmp_antisym _ L a c), E.
  - exfalso. apply (cmp_trans _ L a b c); [by rewrite E1|by rewrite E2|done].
Qed.

Lemma list_cmp_laws {A} (cmp : A -> A -> comparison) : CmpLaws cmp -> CmpLaws (list_cmp cmp).
Proof.
  intros C. split.
  - intros a. induction a as [|x a IH]; simpl; [done|]. by rewrite (cmp_refl _ C).
  - intros a. induction a as [|x a IH]; intros [|y b]; simpl; try done.
    rewrite (cmp_antisym _ C x y), IH. by destruct (cmp x y).
  - intros a. induction a as [|x a IH]; intros [|y b] [|z c]; simpl; try done.
    intros H1 H2. pose proof (cmp_trans _ C x y z) as T. pose proof (cmp_antisym _ C) as S.
    destruct (cmp x y) eqn:E1; [| |done]; destruct (cmp y z) eqn:E2; try done.
    + rewrite (CmpLaws_trans_eq _ _ _ _ C E1 E2). by eapply IH.
    + destruct (cmp x z) eqn:E3; [|done|by apply T].
      pose proof (cmp_trans _ C z x y) as T'. rewrite (S y z), E2, (S x z), E3, E1 in T'.
      exfalso. by apply T'.
    + destruct (cmp x z) eqn:E3; [|done|by apply T].
      pose proof (cmp_trans _ C y z x) as T'. rewrite (S x z), E3, E2, (S x y), E1 in T'.
      exfalso. by apply T'.
    + destruct (cmp x z) eqn:E3; [|done|by apply T].
      pose proof (cmp_trans _ C y z x) as T'. rewrite (S x z), E3, E2, (S x y), E1 in T'.
      exfalso. by apply T'.
Qed.

(** ** Inversion of the error monad *)
Lemma rbind_ok {A B} (m : Result A) (f : A -> Result B) b :
  rbind m f = Ok b <-> exists a, m = Ok a /\ f a = Ok b.
Proof. destruct m; simpl; split; [eauto|intros (? & [= <-] & ?); done|done|by intros (? & ? & ?)]. Qed.

Lemma rmap_ok {A B} (f : A -> B) m b : rmap f m = Ok b <-> exists a, m = Ok a /\ b = f a.
Proof. destruct m; simpl; split; [intros [= <-]; eauto|intros (? & [= <-] & ->); done|done|by intros (? & ? & ?)]. Qed.

Lemma guard_ok b c u : guard b c = Ok u <-> b = true.
Proof. destruct b; simpl; destruct u; split; done. Qed.

Lemma ok_or_ok {A} (o : option A) c a : ok_or o c = Ok a <-> o = Some a.
Proof. destruct o; simpl; split; naive_solver. Qed.

Lemma map_err_ok {A} (m : Result A) c a : map_err m c = Ok a <-> m = Ok a.
Proof. destruct m; simpl; split; naive_solver. Qed.

(** Turns every [_ = Ok _] hypothesis about a bind, map, guard or option
    conversion into the equations of its parts. *)
Ltac rinv :=
  repeat match goal with
  | H : rbind _ _ = Ok _ |- _ => apply rbind_ok in H; destruct H as (? & ? & ?)
  | H : rmap _ _ = Ok _ |- _ => apply rmap_ok in H; destruct H as (? & ? & ?)
  | H : guard _ _ = Ok _ |- _ => apply guard_ok in H
  | H : ok_or _ _ = Ok _ |- _ => apply ok_or_ok in H
  | H : map_err _ _ = Ok _ |- _ => apply map_err_ok in H
  | H : Ok _ = Ok _ |- _ => injection H; clear H; intros; subst
  | H : Some _ = Some _ |- _ => injection H; clear H; intros; subst
  | H : error _ = Ok _ |- _ => discriminate H
  | H : Err _ = Ok _ |- _ => discriminate H
  | x : unit |- _ => destruct x
  end.

Lemma mapR_ok {A B} (f : A -> Result B) l l' :
  mapR f l = Ok l' <-> Forall2 (fun x y => f x = Ok y) l l'.
Proof.
  revert l'; induction l as [|x l IH]; intros l'; simpl.
  - split; [intros [= <-]; constructor|inversion 1; done].
  - rewrite rbind_ok. split.
    + intros (y & Hy & H). rinv. constructor; [done|]. by apply IH.
    + inversion 1; subst. eexists; split; [done|]. erewrite (proj2 (IH _)); done.
Qed.

Lemma mapR_length {A B} (f : A -> Result B) l l' : mapR f l = Ok l' -> length l' = length l.
Proof. intros H%mapR_ok. by apply Forall2_length in H. Qed.

Lemma mapR_ext {A B} (f g : A -> Result B) l :
  (forall x, x ∈ l -> f x = g x) -> mapR f l = mapR g l.
Proof.
  induction l as [|x l IH]; intros H; simpl; [done|].
  rewrite H by left. rewrite IH; [done|]. intros y Hy. apply H. by right.
Qed.

Lemma mapR_app {A B} (f : A -> Result B) l1 l2 :
  mapR f (l1 ++ l2) = let? a := mapR f l1 in let? b := mapR f l2 in Ok (a ++ b).
Proof.
  induction l1 as [|x l1 IH]; simpl; [by destruct (mapR f l2)|].
  destruct (f x); simpl; [|done]. rewrite IH.
  destruct (mapR f l1); simpl; [|done]. by destruct (mapR f l2).
Qed.

Lemma forR_ok {A} (f : A -> Result unit) l : forR f l = Ok tt <-> Forall (fun x => f x = Ok tt) l.
Proof.
  induction l as [|x l IH]; simpl; [split; [constructor|done]|].
  rewrite rbind_ok, Forall_cons, <- IH. split.
  - by intros ([] & ? & ?).
  - intros [? ?]. by exists tt.
Qed.

Lemma foldR_app {A S} (f : S -> A -> Result S) l1 l2 s :
  foldR f (l1 ++ l2) s = let? s' := foldR f l1 s in foldR f l2 s'.
Proof.
  revert s. induction l1 as [|x l1 IH]; intros s; simpl; [done|].
  destruct (f s x); simpl; [apply IH|done].
Qed.

Lemma foldR_ext {A S} (f g : S -> A -> Result S) l s :
  (forall x s, x ∈ l -> f s x = g s x) -> foldR f l s = foldR g l s.
Proof.
  revert s. induction l as [|x l IH]; intros s H; simpl; [done|].
  rewrite H by left. destruct (g s x); simpl; [|done]. apply IH. intros; apply H; by right.
Qed.

(** A fold whose step folds over a sublist is one fold over the whole list. *)
Lemma foldR_flat_map {A B S} (f : S -> B -> Result S) (g : A -> list B) l s :
  foldR (fun s x => foldR f (g x) s) l s = foldR f (flat_map g l) s.
Proof.
  revert s. induction l as [|x l IH]; intros s; simpl; [done|].
  rewrite foldR_app. destruct (foldR f (g x) s); simpl; [apply IH|done].
Qed.

Lemma foldR_map {A B S} (f : S -> B -> Result S) (g : A -> B) l s :
  foldR f (map g l) s = foldR (fun s x => f s (g x)) l s.
Proof. revert s. induction l as [|x l IH]; intros s; simpl; [done|]. by destruct (f s (g x)); simpl. Qed.

(** What every iteration keeps, the loop keeps. *)
Lemma foldR_keeps {A S} (I : S -> Prop) (f : S -> A -> Result S) l s s' :
  (forall x s s', x ∈ l -> I s -> f s x = Ok s' -> I s') -> I s -> foldR f l s = Ok s' -> I s'.
Proof.
  revert s. induction l as [|x l IH]; intros s H Hs; cbn [foldR]; [by intros [= <-]|].
  intros (s1 & H1 & H2)%rbind_ok. apply (IH s1); [intros y t t' Hy; apply H; by right| |done].
  eapply H; [left|done|done].
Qed.

(** A successful check followed by more work. *)
Lemma check_then {A} (m : Result unit) (k : Result A) a :
  (m ;;? k) = Ok a <-> m = Ok tt /\ k = Ok a.
Proof. rewrite rbind_ok. split; [by intros ([] & ? & ?)|intros [? ?]; by exists tt]. Qed.

Lemma check_ok b c : guard b c = Ok tt <-> b = true.
Proof. apply guard_ok. Qed.

#[export] Hint Rewrite @check_then check_ok @forR_ok : dol.

Lemma Forall_iff_in {A} (P Q : A -> Prop) l :
  Forall (fun x => P x <-> Q x) l -> Forall P l <-> Forall Q l.
Proof. induction 1; rewrite ?Forall_nil, ?Forall_cons; tauto. Qed.

Lemma lookup_map {A B} (f : A -> B) l (i : nat) : map f l !! i = f <$> (l !! i).
Proof. apply list_lookup_fmap. Qed.

Lemma elem_of_map {A B} (f : A -> B) l y : y ∈ map f l <-> exists x, y = f x /\ x ∈ l.
Proof. apply list_elem_of_fmap. Qed.

Lemma elem_of_flat_map {A B} (f : A -> list B) l y : y ∈ flat_map f l <-> exists x, x ∈ l /\ y ∈ f x.
Proof. rewrite list_elem_of_In, in_flat_map. by setoid_rewrite list_elem_of_In. Qed.

(** A fold whose steps succeed under a condition and then fold over a part is
    the conditions and one fold over all parts. *)
Lemma foldR_split {A B S} (f : S -> A -> Result S) (g : S -> B -> Result S) (h : A -> list B)
  (P : A -> Prop) l s s' :
  Forall (fun x => forall s s', f s x = Ok s' <-> P x /\ foldR g (h x) s = Ok s') l ->
  foldR f l s = Ok s' <-> Forall P l /\ foldR g (flat_map h l) s = Ok s'.
Proof.
  intros H. revert s. induction H as [|x l Hx _ IH]; intros s; simpl.
  { split; [intros E; split; [constructor|done]|by intros [_ ?]]. }
  rewrite rbind_ok, foldR_app, rbind_ok, Forall_cons. split.
  - intros (s1 & [Px H1]%Hx & [Pl H2]%IH). eauto.
  - intros ([Px Pl] & s1 & H1 & H2). exists s1. split; [by apply Hx|by apply IH].
Qed.

Lemma foldR_check {A S} (check : A -> Result unit) (g : S -> A -> Result S) l s s' :
  foldR (fun s x => check x ;;? g s x) l s = Ok s' <->
  Forall (fun x => check x = Ok tt) l /\ foldR g l s = Ok s'.
Proof.
  revert s. induction l as [|x l IH]; intros s; simpl.
  { split; [intros E; split; [constructor|done]|by intros [_ ?]]. }
  rewrite !rbind_ok, Forall_cons. setoid_rewrite check_then. setoid_rewrite IH.
  split; [intros (s1 & [H1 H2] & H3 & H4); eauto|intros ([H1 H2] & s1 & H3 & H4); eauto 6].
Qed.
