(* ===== verification/Mutation.v ===== *)
(** * Mutation through a borrow

    Code behind [&mut self] that returns a [Result] may have changed its target
    before it fails: the new state comes with the outcome, errors included. *)
From S2P Require Import Prelude.

Definition Mut (St A : Type) : Type := St -> Result A * St.

Section Mut.
Context {St : Type}.

Definition mret {A} (a : A) : Mut St A := fun s => (Ok a, s).
Definition mlift {A} (r : Result A) : Mut St A := fun s => (r, s).
Definition mbind {A B} (m : Mut St A) (k : A -> Mut St B) : Mut St B := fun s =>
  let '(r, s') := m s in
  match r with Ok a => k a s' | Err d => (Err d, s') end.
Definition mget : Mut St St := fun s => (Ok s, s).
Definition mput (s' : St) : Mut St unit := fun _ => (Ok tt, s').

(** A fallible step that mutates only when it succeeds. *)
Definition mtry (f : St -> Result St) : Mut St unit := fun s =>
  match f s with Ok s' => (Ok tt, s') | Err d => (Err d, s) end.
End Mut.

Notation "'let!' x ':=' m 'in' k" := (mbind m (fun x => k))
  (at level 10, x pattern, m at level 100, k at level 200) : dol_scope.
Notation "m ';;!' k" := (mbind m (fun _ => k))
  (at level 100, k at level 200, right associativity) : dol_scope.

(** [for element in &mut list { .. }], with an accumulator; a failing element
    ends the loop and the elements before it stay changed. *)
Fixpoint iter_mut {M A} (f : A -> Mut M A) (acc : A) (l : list M) : Result A * list M :=
  match l with
  | [] => (Ok acc, [])
  | x :: rest =>
      let '(r, x') := f acc x in
      match r with
      | Err d => (Err d, x' :: rest)
      | Ok acc' => let '(r', rest') := iter_mut f acc' rest in (r', x' :: rest')
      end
  end.

(** [for x in list { step(target, x)?; }] *)
Fixpoint for_mut {X St} (step : X -> Mut St unit) (l : list X) : Mut St unit :=
  match l with
  | [] => mret tt
  | x :: rest => step x ;;! for_mut step rest
  end.

(** ** What a computation does to its state *)
Lemma mbind_ok {St A B} (m : Mut St A) (k : A -> Mut St B) s b s' :
  (let! a := m in k a) s = (Ok b, s') <-> exists a s1, m s = (Ok a, s1) /\ k a s1 = (Ok b, s').
Proof.
  unfold mbind. destruct (m s) as [[a|d] s1]; [split; [by eauto|by intros (? & ? & [= <- <-] & ?)]|].
  split; [done|]. by intros (? & ? & [= ] & _).
Qed.

(** A property of the state that every step keeps is kept, whatever the outcome. *)
Definition keeps {St A} (I : St -> Prop) (m : Mut St A) : Prop := forall s, I s -> I (snd (m s)).

Lemma keeps_mret {St A} (I : St -> Prop) (a : A) : keeps I (mret a).
Proof. by intros s H. Qed.

Lemma keeps_mlift {St A} (I : St -> Prop) (r : Result A) : keeps I (mlift r).
Proof. by intros s H. Qed.

Lemma keeps_mbind {St A B} (I : St -> Prop) (m : Mut St A) (k : A -> Mut St B) :
  keeps I m -> (forall a, keeps I (k a)) -> keeps I (let! a := m in k a).
Proof.
  intros Hm Hk s H. unfold mbind. specialize (Hm s H). destruct (m s) as [[a|d] s1]; [|done]. by apply Hk.
Qed.

Lemma keeps_mget {St} (I : St -> Prop) : keeps I mget.
Proof. by intros s H. Qed.

#[export] Hint Resolve keeps_mret keeps_mlift keeps_mget : dol.

Lemma iter_mut_ok {M A} (f : A -> Mut M A) l : forall acc acc' l',
  iter_mut f acc l = (Ok acc', l') <->
  match l with
  | [] => acc' = acc /\ l' = []
  | x :: rest => exists acc1 x' rest', f acc x = (Ok acc1, x') /\ iter_mut f acc1 rest = (Ok acc', rest') /\ l' = x' :: rest'
  end.
Proof.
  destruct l as [|x rest]; intros acc acc' l'; cbn [iter_mut]; [split; [by intros [= -> ->]|by intros [-> ->]]|].
  destruct (f acc x) as [[acc1|d] x'].
  - destruct (iter_mut f acc1 rest) as [[acc2|d] rest'] eqn:E.
    + split; [intros [= -> <-]; eauto 10|]. intros (? & ? & ? & [= <- <-] & E' & ->). rewrite E in E'. by injection E' as -> ->.
    + split; [done|]. intros (? & ? & ? & [= <- <-] & E' & ->). by rewrite E in E'.
  - split; [done|]. by intros (? & ? & ? & [= ] & _).
Qed.

Lemma mlift_ok {St A} (r : Result A) (s s' : St) a : mlift r s = (Ok a, s') <-> r = Ok a /\ s' = s.
Proof. unfold mlift. split; [by intros [= -> ->]|by intros [-> ->]]. Qed.

Lemma mret_ok {St A} (a b : A) (s s' : St) : mret a s = (Ok b, s') <-> b = a /\ s' = s.
Proof. unfold mret. split; [by intros [= -> ->]|by intros [-> ->]]. Qed.

(** Steps that read or replace the state, or only check. *)
Lemma mget_then {St A} (k : St -> Mut St A) s : (let! x := mget in k x) s = k s s.
Proof. done. Qed.

Lemma mput_then {St A} (x : St) (k : Mut St A) s : (mput x ;;! k) s = k x.
Proof. done. Qed.

Lemma mlift_then {St A B} (r : Result A) (k : A -> Mut St B) (s s' : St) b :
  (let! a := mlift r in k a) s = (Ok b, s') <-> exists a, r = Ok a /\ k a s = (Ok b, s').
Proof.
  rewrite mbind_ok. setoid_rewrite mlift_ok. split.
  - intros (a & s1 & [-> ->] & H). eauto.
  - intros (a & -> & H). eauto.
Qed.

Lemma check_lift_then {St B} (r : Result unit) (k : Mut St B) (s s' : St) b :
  (mlift r ;;! k) s = (Ok b, s') <-> r = Ok tt /\ k s = (Ok b, s').
Proof. rewrite mlift_then. split; [by intros ([] & ? & ?)|by intros [? ?]; exists tt]. Qed.
