(* ===== verification/Floats.v ===== *)
(** * IEEE-754 primitives

    Rust's [f32] and [f64] as their bit patterns ([to_bits]): a [Z] of [w]
    bits with [mw] fraction bits.  Equality, [partial_cmp], [total_cmp],
    [is_nan], [abs] and negation are computed on the bits; the four arithmetic
    operations go through the standard library's [SpecFloat] (round to nearest
    even).  The bits of a NaN result are left unspecified by Rust, so they are
    a parameter of the arithmetic. *)
From Stdlib Require Import ZArith Lia SpecFloat.
From stdpp Require Import base list.
From S2P Require Import Prelude.

Local Open Scope Z_scope.

(** Format: total width, fraction width. *)
Record FloatFormat := mkFloatFormat { width : Z; fraction : Z }.
Definition binary32 := mkFloatFormat 32 23.
Definition binary64 := mkFloatFormat 64 52.

Section Bits.
Context (fmt : FloatFormat).
Let w := width fmt.
Let mw := fraction fmt.

Definition exp_width : Z := w - 1 - mw.
Definition prec : Z := mw + 1.
Definition emax : Z := 2 ^ (exp_width - 1).
Definition emin : Z := 3 - emax - prec.

Definition float_sign (b : Z) : bool := Z.testbit b (w - 1).
Definition float_magnitude (b : Z) : Z := b mod 2 ^ (w - 1).
Definition float_inf : Z := (2 ^ exp_width - 1) * 2 ^ mw.

Definition is_nan (b : Z) : bool := float_inf <? float_magnitude b.
Definition is_zero (b : Z) : bool := float_magnitude b =? 0.

(** The integer whose order is the numerical order of non-NaN patterns. *)
Definition float_key (b : Z) : Z :=
  if float_sign b then - float_magnitude b else float_magnitude b.

(** [PartialOrd::partial_cmp] and [PartialEq::eq]. *)
Definition float_partial_cmp (a b : Z) : option comparison :=
  if is_nan a || is_nan b then None else Some (float_key a ?= float_key b).

Definition float_eqb (a b : Z) : bool :=
  match float_partial_cmp a b with Some Eq => true | _ => false end.

(** [total_cmp]: the sign-magnitude pattern folded into a signed integer. *)
Definition total_key (b : Z) : Z :=
  if float_sign b then - float_magnitude b - 1 else float_magnitude b.
Definition float_total_cmp (a b : Z) : comparison := total_key a ?= total_key b.

(** [abs] clears the sign bit, unary minus flips it. *)
Definition float_abs (b : Z) : Z := float_magnitude b.
Definition float_neg (b : Z) : Z :=
  if float_sign b then float_magnitude b else float_magnitude b + 2 ^ (w - 1).

Definition to_spec (b : Z) : spec_float :=
  let s := float_sign b in
  let e := float_magnitude b / 2 ^ mw in
  let m := b mod 2 ^ mw in
  if e =? 0 then
    match m with Zpos p => S754_finite s p emin | _ => S754_zero s end
  else if e =? 2 ^ exp_width - 1 then
    if m =? 0 then S754_infinity s else S754_nan
  else
    match m + 2 ^ mw with Zpos p => S754_finite s p (e - 1 + emin) | _ => S754_nan end.

Definition sign_bit (s : bool) : Z := if s then 2 ^ (w - 1) else 0.

Definition of_spec (nan : Z) (f : spec_float) : Z :=
  match f with
  | S754_zero s => sign_bit s
  | S754_infinity s => sign_bit s + float_inf
  | S754_nan => nan
  | S754_finite s m e =>
      if Zpos m <? 2 ^ mw then sign_bit s + Zpos m
      else sign_bit s + (e - emin + 1) * 2 ^ mw + (Zpos m - 2 ^ mw)
  end.

Definition float_add (nan a b : Z) : Z := of_spec nan (SFadd prec emax (to_spec a) (to_spec b)).
Definition float_sub (nan a b : Z) : Z := of_spec nan (SFsub prec emax (to_spec a) (to_spec b)).
Definition float_mul (nan a b : Z) : Z := of_spec nan (SFmul prec emax (to_spec a) (to_spec b)).
Definition float_div (nan a b : Z) : Z := of_spec nan (SFdiv prec emax (to_spec a) (to_spec b)).
End Bits.

(** [f64::from(f32)]: exact on every value. *)
Definition f64_of_f32 (nan b : Z) : Z :=
  match to_spec binary32 b with
  | S754_finite s m e =>
      let '(m', e') := shl_align m e (e - (52 - Z.log2 (Zpos m))) in
      if e' <? emin binary64 then of_spec binary64 nan (S754_finite s m e)
      else of_spec binary64 nan (S754_finite s m' e')
  | f => of_spec binary64 nan f
  end.

Example f32_one_plus_one : float_add binary32 0 0x3f800000 0x3f800000 = 0x40000000.
Proof. vm_compute. reflexivity. Qed.
Example f32_third : float_div binary32 0 0x3f800000 0x40400000 = 0x3eaaaaab.
Proof. vm_compute. reflexivity. Qed.
Example f64_tenth_sum :
  float_add binary64 0 0x3fb999999999999a 0x3fc999999999999a = 0x3fd3333333333334.
Proof. vm_compute. reflexivity. Qed.
Example f32_widen_subnormal : f64_of_f32 0 1 = 0x36a0000000000000.
Proof. vm_compute. reflexivity. Qed.
Example f32_widen : f64_of_f32 0 0x3dcccccd = 0x3fb99999a0000000.
Proof. vm_compute. reflexivity. Qed.

(** ** Order laws *)
Section Laws.
Context (fmt : FloatFormat).

Lemma float_eqb_sym a b : float_eqb fmt a b = float_eqb fmt b a.
Proof.
  unfold float_eqb, float_partial_cmp. rewrite orb_comm.
  destruct (_ || _); [done|]. rewrite Z.compare_antisym. by destruct (_ ?= _).
Qed.

Lemma float_eqb_trans a b c :
  float_eqb fmt a b = true -> float_eqb fmt b c = true -> float_eqb fmt a c = true.
Proof.
  unfold float_eqb, float_partial_cmp.
  destruct (is_nan fmt a), (is_nan fmt b), (is_nan fmt c); simpl; try done.
  destruct (Z.compare_spec (float_key fmt a) (float_key fmt b)) as [->| |]; try done.
Qed.

Lemma float_eqb_refl a : is_nan fmt a = false -> float_eqb fmt a a = true.
Proof. unfold float_eqb, float_partial_cmp. intros ->. simpl. by rewrite Z.compare_refl. Qed.

Lemma float_eqb_not_nan a b : float_eqb fmt a b = true -> is_nan fmt a = false /\ is_nan fmt b = false.
Proof. unfold float_eqb, float_partial_cmp. by destruct (is_nan fmt a), (is_nan fmt b). Qed.

Lemma float_total_cmp_refl a : float_total_cmp fmt a a = Eq.
Proof. apply Z.compare_refl. Qed.

Lemma float_total_cmp_sym a b : float_total_cmp fmt a b = CompOpp (float_total_cmp fmt b a).
Proof. apply Z.compare_antisym. Qed.

Lemma float_magnitude_nonneg a : 0 < width fmt -> 0 <= float_magnitude fmt a.
Proof. intros H. unfold float_magnitude. apply Z.mod_pos_bound. apply Z.pow_pos_nonneg; lia. Qed.

Lemma float_eqb_key a b :
  float_eqb fmt a b = true -> float_key fmt a = float_key fmt b.
Proof.
  unfold float_eqb, float_partial_cmp.
  destruct (_ || _); [done|]. destruct (Z.compare_spec (float_key fmt a) (float_key fmt b)); done.
Qed.
End Laws.
