(* ===== verification/Foreign.v ===== *)
(** * Interface of the third-party crates

    [rust_decimal], [uuid], [time], [blake3] and the Unicode tables of the
    Rust release are not part of the repository.  [Foreign] names the
    operations of them the core calls; [ForeignLaws] states the documented
    behaviour the theorems rely on.  [sample_foreign] is a small concrete
    instance (with its laws) used to evaluate the model. *)
From Stdlib Require Import ZArith Lia.
From stdpp Require Import base list strings.
From S2P Require Import Prelude.

Local Open Scope Z_scope.

Class Foreign := {
  (** [rust_decimal::Decimal] *)
  Decimal : Type;
  dec_eqb : Decimal -> Decimal -> bool;
  dec_cmp : Decimal -> Decimal -> comparison;
  dec_mantissa : Decimal -> Z;
  dec_scale : Decimal -> Z;
  dec_normalize : Decimal -> Decimal;
  dec_try_from_i128_with_scale : Z -> Z -> option Decimal;
  dec_checked_add : Decimal -> Decimal -> option Decimal;
  dec_checked_sub : Decimal -> Decimal -> option Decimal;
  dec_checked_mul : Decimal -> Decimal -> option Decimal;
  dec_checked_div : Decimal -> Decimal -> option Decimal;
  dec_abs : Decimal -> Decimal;
  dec_neg : Decimal -> Decimal;
  (** [uuid::Uuid] *)
  Uuid : Type;
  uuid_eqb : Uuid -> Uuid -> bool;
  uuid_cmp : Uuid -> Uuid -> comparison;
  uuid_bytes : Uuid -> list Z;
  (** [time::Date] *)
  Date : Type;
  date_eqb : Date -> Date -> bool;
  date_cmp : Date -> Date -> comparison;
  date_julian_day : Date -> Z;
  date_year : Date -> Z;
  date_month : Date -> Z;
  date_day : Date -> Z;
  date_ordinal : Date -> Z;
  date_weekday : Date -> Z;
  (** [time::Time] *)
  TimeOfDay : Type;
  time_eqb : TimeOfDay -> TimeOfDay -> bool;
  time_cmp : TimeOfDay -> TimeOfDay -> comparison;
  time_hour : TimeOfDay -> Z;
  time_minute : TimeOfDay -> Z;
  time_second : TimeOfDay -> Z;
  time_nanosecond : TimeOfDay -> Z;
  (** [time::PrimitiveDateTime] *)
  LocalDateTime : Type;
  ldt_eqb : LocalDateTime -> LocalDateTime -> bool;
  ldt_cmp : LocalDateTime -> LocalDateTime -> comparison;
  ldt_date : LocalDateTime -> Date;
  ldt_time : LocalDateTime -> TimeOfDay;
  (** [time::OffsetDateTime] *)
  Instant : Type;
  instant_eqb : Instant -> Instant -> bool;
  instant_cmp : Instant -> Instant -> comparison;
  instant_nanos : Instant -> Z;
  instant_seconds : Instant -> Z;
  (** [time::Duration] *)
  Duration : Type;
  duration_eqb : Duration -> Duration -> bool;
  duration_cmp : Duration -> Duration -> comparison;
  duration_nanos : Duration -> Z;
  duration_seconds : Duration -> Z;
  (** [blake3]: the digest of a byte stream *)
  blake3 : list Z -> list Z;
  (** Unicode case tables behind [str::to_lowercase] and [to_uppercase] *)
  str_to_lowercase : string -> string;
  str_to_uppercase : string -> string;
  unicode_version : string;
  (** Bits of a NaN produced by an arithmetic operation or a widening *)
  f32_nan : Z -> Z -> Z;
  f64_nan : Z -> Z -> Z;
  widen_nan : Z -> Z
}.

Class ForeignLaws (F : Foreign) : Prop := {
  decimal_eq : EqbLaws dec_eqb;
  uuid_eq : EqbLaws uuid_eqb;
  date_eq : EqbLaws date_eqb;
  time_eq : EqbLaws time_eqb;
  ldt_eq : EqbLaws ldt_eqb;
  instant_eq : EqbLaws instant_eqb;
  duration_eq : EqbLaws duration_eqb;
  decimal_ord : CmpLaws dec_cmp;
  uuid_ord : CmpLaws uuid_cmp;
  date_ord : CmpLaws date_cmp;
  time_ord : CmpLaws time_cmp;
  ldt_ord : CmpLaws ldt_cmp;
  instant_ord : CmpLaws instant_cmp;
  duration_ord : CmpLaws duration_cmp;
  (** numerically equal decimals have one normal form *)
  normalize_eq : forall a b, dec_eqb a b = true ->
    dec_mantissa (dec_normalize a) = dec_mantissa (dec_normalize b) /\
    dec_scale (dec_normalize a) = dec_scale (dec_normalize b);
  (** equal values expose equal components *)
  uuid_bytes_eq : forall a b, uuid_eqb a b = true -> uuid_bytes a = uuid_bytes b;
  date_julian_eq : forall a b, date_eqb a b = true -> date_julian_day a = date_julian_day b;
  time_parts_eq : forall a b, time_eqb a b = true ->
    time_hour a = time_hour b /\ time_minute a = time_minute b /\
    time_second a = time_second b /\ time_nanosecond a = time_nanosecond b;
  ldt_parts_eq : forall a b, ldt_eqb a b = true ->
    date_eqb (ldt_date a) (ldt_date b) = true /\ time_eqb (ldt_time a) (ldt_time b) = true;
  instant_nanos_eq : forall a b, instant_eqb a b = true -> instant_nanos a = instant_nanos b;
  duration_nanos_eq : forall a b, duration_eqb a b = true -> duration_nanos a = duration_nanos b;
  (** components are within the ranges of their Rust integer types *)
  date_year_range : forall d, - 2 ^ 31 <= date_year d < 2 ^ 31;
  date_month_range : forall d, 1 <= date_month d <= 12;
  date_day_range : forall d, 1 <= date_day d <= 31;
  date_ordinal_range : forall d, 1 <= date_ordinal d <= 366;
  date_weekday_range : forall d, 1 <= date_weekday d <= 7;
  instant_seconds_range : forall i, - 2 ^ 63 <= instant_seconds i < 2 ^ 63;
  duration_seconds_range : forall d, - 2 ^ 63 <= duration_seconds d < 2 ^ 63
}.

(** ** A concrete instance

    Decimals are [mantissa * 10^-scale] with scale at most 28 and a 96-bit
    mantissa; the temporal types are plain counters; the digest is the
    identity (collision free by construction). *)
Module Sample.
Definition strip_zero (fuel : nat) (m s : Z) : Z * Z :=
  (fix go fuel m s :=
     match fuel with
     | O => (m, s)
     | S fuel' => if (0 <? s) && (m mod 10 =? 0) then go fuel' (m / 10) (s - 1) else (m, s)
     end) fuel m s.

Record dec := mkDec { d_num : Z; d_scale : Z }.
Definition scaled (d : dec) (s : Z) : Z := d_num d * 10 ^ (s - d_scale d).
Definition common (a b : dec) : Z := Z.max (d_scale a) (d_scale b).
Definition eqb_on {A} (f : A -> Z) (a b : A) : bool := f a =? f b.
Definition cmp_on {A} (f : A -> Z) (a b : A) : comparison := f a ?= f b.
Definition dec96 (m s : Z) : option dec :=
  if (0 <=? s) && (s <=? 28) && (Z.abs m <? 2 ^ 96) then Some (mkDec m s) else None.
(** Canonical key: the numerator at the fixed scale 28. *)
Definition dec_key (d : dec) : Z := d_num d * 10 ^ (28 - d_scale d).

Lemma eqb_on_laws {A} (f : A -> Z) : EqbLaws (eqb_on f).
Proof. split; unfold eqb_on; intros; rewrite ?Z.eqb_eq in *; lia. Qed.

Lemma cmp_on_laws {A} (f : A -> Z) : CmpLaws (cmp_on f).
Proof.
  split; unfold cmp_on; intros.
  - apply Z.compare_refl.
  - apply Z.compare_antisym.
  - destruct (Z.compare_spec (f a) (f b)), (Z.compare_spec (f b) (f c)),
      (Z.compare_spec (f a) (f c)); try done; lia.
Qed.
End Sample.

Definition sample_foreign : Foreign := {|
  Decimal := Sample.dec;
  dec_eqb := Sample.eqb_on Sample.dec_key;
  dec_cmp := Sample.cmp_on Sample.dec_key;
  dec_mantissa := Sample.d_num;
  dec_scale := Sample.d_scale;
  dec_normalize := fun d => Sample.mkDec (Sample.dec_key d) 28;
  dec_try_from_i128_with_scale := Sample.dec96;
  dec_checked_add := fun a b =>
    let s := Sample.common a b in Sample.dec96 (Sample.scaled a s + Sample.scaled b s) s;
  dec_checked_sub := fun a b =>
    let s := Sample.common a b in Sample.dec96 (Sample.scaled a s - Sample.scaled b s) s;
  dec_checked_mul := fun a b =>
    Sample.dec96 (Sample.d_num a * Sample.d_num b) (Sample.d_scale a + Sample.d_scale b);
  dec_checked_div := fun a b =>
    if Sample.d_num b =? 0 then None
    else Sample.dec96 (Sample.dec_key a / Sample.dec_key b) 0;
  dec_abs := fun d => Sample.mkDec (Z.abs (Sample.d_num d)) (Sample.d_scale d);
  dec_neg := fun d => Sample.mkDec (- Sample.d_num d) (Sample.d_scale d);
  Uuid := list Z; uuid_eqb := fun a b => bool_decide (a = b); uuid_cmp := list_cmp Z.compare; uuid_bytes := fun u => u;
  Date := Z; date_eqb := Z.eqb; date_cmp := Z.compare; date_julian_day := fun d => d;
  date_year := fun d => (d / 366) mod 10000; date_month := fun d => 1 + (d mod 366) / 31;
  date_day := fun d => 1 + (d mod 366) mod 31; date_ordinal := fun d => 1 + d mod 366;
  date_weekday := fun d => 1 + d mod 7;
  TimeOfDay := Z; time_eqb := Z.eqb; time_cmp := Z.compare;
  time_hour := fun t => t / 3600000000000; time_minute := fun t => (t / 60000000000) mod 60;
  time_second := fun t => (t / 1000000000) mod 60; time_nanosecond := fun t => t mod 1000000000;
  LocalDateTime := Z * Z;
  ldt_eqb := fun a b => Z.eqb (fst a) (fst b) && Z.eqb (snd a) (snd b);
  ldt_cmp := fun a b => match fst a ?= fst b with Eq => snd a ?= snd b | c => c end;
  ldt_date := fst; ldt_time := snd;
  Instant := Z; instant_eqb := Z.eqb; instant_cmp := Z.compare; instant_nanos := fun i => i;
  instant_seconds := fun i => (i / 1000000000) mod 2 ^ 62;
  Duration := Z; duration_eqb := Z.eqb; duration_cmp := Z.compare; duration_nanos := fun d => d;
  duration_seconds := fun d => (d / 1000000000) mod 2 ^ 62;
  blake3 := fun bytes => bytes;
  str_to_lowercase := fun s => s; str_to_uppercase := fun s => s;
  unicode_version := "16.0.0";
  f32_nan := fun _ _ => 0x7fc00000; f64_nan := fun _ _ => 0x7ff8000000000000;
  widen_nan := fun _ => 0x7ff8000000000000
|}.

#[export] Instance sample_laws : ForeignLaws sample_foreign.
Proof.
  assert (E : EqbLaws Z.eqb) by (split; intros; rewrite ?Z.eqb_eq in *; congruence).
  assert (C : CmpLaws Z.compare) by apply (Sample.cmp_on_laws (fun z : Z => z)).
  split; simpl; try done.
  - apply Sample.eqb_on_laws.
  - split; intros; rewrite ?bool_decide_eq_true in *; congruence.
  - split; intros; rewrite ?andb_true_iff, ?Z.eqb_eq in *; intuition congruence.
  - apply Sample.cmp_on_laws.
  - apply list_cmp_laws, C.
  - split; intros *; simpl.
    + by rewrite !Z.compare_refl.
    + rewrite (Z.compare_antisym (fst a) (fst b)), (Z.compare_antisym (snd a) (snd b)).
      by destruct (fst a ?= fst b).
    + destruct (Z.compare_spec (fst a) (fst b)), (Z.compare_spec (fst b) (fst c)),
        (Z.compare_spec (fst a) (fst c)), (Z.compare_spec (snd a) (snd b)),
        (Z.compare_spec (snd b) (snd c)), (Z.compare_spec (snd a) (snd c)); try done; lia.
  - intros a b H%Z.eqb_eq. done.
  - intros a b H%bool_decide_eq_true. done.
  - intros a b H%Z.eqb_eq. done.
  - intros a b ->%Z.eqb_eq. done.
  - intros a b. by rewrite andb_true_iff.
  - intros a b H%Z.eqb_eq. done.
  - intros a b H%Z.eqb_eq. done.
  - intros d. pose proof (Z.mod_pos_bound (d / 366) 10000 ltac:(lia)). lia.
  - intros d. pose proof (Z.mod_pos_bound d 366 ltac:(lia)).
    pose proof (Z.div_pos (d mod 366) 31 ltac:(lia) ltac:(lia)).
    assert (d mod 366 / 31 <= 11); [|lia]. apply Z.lt_succ_r, Z.div_lt_upper_bound; lia.
  - intros d. pose proof (Z.mod_pos_bound (d mod 366) 31 ltac:(lia)). lia.
  - intros d. pose proof (Z.mod_pos_bound d 366 ltac:(lia)). lia.
  - intros d. pose proof (Z.mod_pos_bound d 7 ltac:(lia)). lia.
  - intros i. pose proof (Z.mod_pos_bound (i / 1000000000) (2 ^ 62) ltac:(lia)). lia.
  - intros i. pose proof (Z.mod_pos_bound (i / 1000000000) (2 ^ 62) ltac:(lia)). lia.
Qed.
