(* ===== verification/Truth.v ===== *)
(** * Three-valued truth ([crates/dol-core/src/semantics/mod.rs], [Truth]) *)
From stdpp Require Import base list.
From S2P Require Import Prelude.

Inductive Truth := TTrue | TFalse | TUnknown.

#[export] Instance Truth_eq_dec : EqDecision Truth.
Proof. solve_decision. Defined.

Module Truth.
Definition retains_row (t : Truth) : bool := match t with TTrue => true | _ => false end.

Definition and (a b : Truth) : Truth :=
  match a, b with
  | TFalse, _ | _, TFalse => TFalse
  | TTrue, TTrue => TTrue
  | _, _ => TUnknown
  end.

Definition or (a b : Truth) : Truth :=
  match a, b with
  | TTrue, _ | _, TTrue => TTrue
  | TFalse, TFalse => TFalse
  | _, _ => TUnknown
  end.

Definition negate (a : Truth) : Truth :=
  match a with TTrue => TFalse | TFalse => TTrue | TUnknown => TUnknown end.

(** [#[derive(PartialOrd, Ord)]]: declaration order. *)
Definition rank (t : Truth) : nat := match t with TTrue => 0 | TFalse => 1 | TUnknown => 2 end.
Definition cmp (a b : Truth) : comparison := Nat.compare (rank a) (rank b).
Definition eqb (a b : Truth) : bool := bool_decide (a = b).

(** ** Kleene's strong logic *)

(** The information order: [TUnknown] is below both definite values. *)
Definition refines (a b : Truth) : Prop := a = TUnknown \/ a = b.

Lemma and_comm a b : and a b = and b a.
Proof. by destruct a, b. Qed.
Lemma and_assoc a b c : and a (and b c) = and (and a b) c.
Proof. by destruct a, b, c. Qed.
Lemma or_de_morgan a b : negate (and a b) = or (negate a) (negate b).
Proof. by destruct a, b. Qed.
Lemma negate_involutive a : negate (negate a) = a.
Proof. by destruct a. Qed.

Lemma and_monotone a a' b b' : refines a a' -> refines b b' -> refines (and a b) (and a' b').
Proof. intros [->| ->] [->| ->]; unfold refines; destruct a', b'; auto. Qed.
Lemma or_monotone a a' b b' : refines a a' -> refines b b' -> refines (or a b) (or a' b').
Proof. intros [->| ->] [->| ->]; unfold refines; destruct a', b'; auto. Qed.
Lemma negate_monotone a a' : refines a a' -> refines (negate a) (negate a').
Proof. intros [->| ->]; [by left|by right]. Qed.

(** A row kept by a conjunction is kept by both filters: adjacent filters are
    one conjunction. *)
Lemma retains_and a b : retains_row (and a b) = retains_row a && retains_row b.
Proof. by destruct a, b. Qed.

Lemma eqb_eq a b : eqb a b = true <-> a = b.
Proof. unfold eqb. apply bool_decide_eq_true. Qed.
End Truth.
