(* ===== verification/BigMagnitude.v ===== *)
(** * Unbounded magnitudes ([crates/dol-core/src/semantics/mod.rs], [BigMagnitude])

    Little-endian 64-bit limbs; the additions and products of two limbs are
    carried out in [u128], which they never overflow ([add_total_u128],
    [mul_total_u128]), so the model computes them in [Z]. *)
From Stdlib Require Import ZArith Lia.
From stdpp Require Import base list.
From S2P Require Import Prelude.

Local Open Scope Z_scope.

Definition limb_base : Z := 2 ^ 64.
(** [value as u64] *)
Definition as_u64 (z : Z) : Z := z mod limb_base.

Module BigMagnitude.
Definition t := list Z.

Fixpoint normalize (limbs : t) : t :=
  match limbs with
  | [] => []
  | x :: l => match normalize l with
              | [] => if x =? 0 then [] else [x]
              | l' => x :: l'
              end
  end.

Definition from_u128 (value : Z) : t :=
  let low := as_u64 value in
  let high := as_u64 (value / limb_base) in
  normalize (if high =? 0 then [low] else [low; high]).

(** The body of the [for index in 0..width] loop, [other.get(index)] read
    as [0] past its end. *)
Fixpoint add_loop (left other : t) (carry : Z) : t * Z :=
  match left with
  | [] => ([], carry)
  | x :: left' =>
      let total := x + hd 0 other + carry in
      let '(out, c) := add_loop left' (tl other) (total / limb_base) in
      (as_u64 total :: out, c)
  end.

Definition resize (l : t) (n : nat) : t := l ++ replicate (n - length l) 0.

Definition add_assign (self other : t) : t :=
  let width := Nat.max (length self) (length other) in
  let '(out, carry) := add_loop (resize self width) other 0 in
  if carry =? 0 then out else out ++ [as_u64 carry].

Definition is_zero (self : t) : bool := match self with [] => true | _ => false end.

Fixpoint mul_loop (l : t) (factor carry : Z) : t * Z :=
  match l with
  | [] => ([], carry)
  | x :: l' =>
      let total := x * factor + carry in
      let '(out, c) := mul_loop l' factor (total / limb_base) in
      (as_u64 total :: out, c)
  end.

Definition mul_small (self : t) (factor : Z) : t :=
  if (factor =? 0) || is_zero self then []
  else
    let '(out, carry) := mul_loop self factor 0 in
    if carry =? 0 then out else out ++ [as_u64 carry].

(** [Ord::cmp]: length first, then the limbs from the most significant. *)
Definition cmp (a b : t) : comparison :=
  match Nat.compare (length a) (length b) with
  | Eq => list_cmp Z.compare (rev a) (rev b)
  | c => c
  end.

Fixpoint sub_loop (left other : t) (borrow : Z) : t :=
  match left with
  | [] => []
  | x :: left' =>
      let r := hd 0 other + borrow in
      if r <=? x then as_u64 (x - r) :: sub_loop left' (tl other) 0
      else as_u64 (limb_base + x - r) :: sub_loop left' (tl other) 1
  end.

Definition sub (self other : t) : Result t :=
  match cmp self other with
  | Lt => error "EXPR-EVAL-003"
  | _ => Ok (normalize (sub_loop self other 0))
  end.

Definition to_u128 (self : t) : option Z :=
  match self with
  | [] => Some 0
  | [low] => Some low
  | [low; high] => Some (Z.lor low (Z.shiftl high 64))
  | _ => None
  end.

(** ** Representation: limbs in range, no leading zero limb *)
Definition limb (x : Z) : Prop := 0 <= x < limb_base.

Fixpoint value (l : t) : Z := match l with [] => 0 | x :: l' => x + limb_base * value l' end.

(** The most significant limb is not zero. *)
Definition normal (l : t) : Prop := last l <> Some 0.
Definition wf (l : t) : Prop := Forall limb l /\ normal l.

Lemma limb_base_pos : 0 < limb_base.
Proof. reflexivity. Qed.

Lemma as_u64_limb z : limb (as_u64 z).
Proof. apply Z.mod_pos_bound, limb_base_pos. Qed.

Lemma as_u64_id z : limb z -> as_u64 z = z.
Proof. apply Z.mod_small. Qed.
Hint Resolve as_u64_limb : dol.

Lemma value_app l1 l2 : value (l1 ++ l2) = value l1 + limb_base ^ zlen l1 * value l2.
Proof.
  unfold zlen. induction l1 as [|x l1 IH]; [simpl; lia|].
  cbn [app value length]. rewrite Nat2Z.inj_succ, Z.pow_succ_r, IH by lia. lia.
Qed.

Lemma value_bound l : Forall limb l -> 0 <= value l < limb_base ^ zlen l.
Proof.
  unfold zlen, limb. pose proof limb_base_pos.
  induction 1 as [|x l Hx _ IH]; cbn [value length]; [simpl; lia|].
  rewrite Nat2Z.inj_succ, Z.pow_succ_r by lia. nia.
Qed.

Lemma value_replicate n : value (replicate n 0) = 0.
Proof. induction n; simpl; lia. Qed.

Lemma value_lower l : Forall limb l -> normal l -> l <> [] -> limb_base ^ (zlen l - 1) <= value l.
Proof.
  intros Hl Hn Hne. destruct (exists_last Hne) as (l' & x & ->).
  unfold normal in Hn. rewrite last_snoc in Hn.
  apply Forall_app in Hl as [Hl' Hx]. inversion_clear Hx. unfold limb in *.
  rewrite value_app. unfold zlen. rewrite length_app. simpl value. simpl length.
  replace (Z.of_nat (length l' + 1) - 1) with (Z.of_nat (length l')) by lia.
  pose proof (value_bound _ Hl'). unfold zlen in *.
  assert (x <> 0) by congruence.
  assert (0 < limb_base ^ Z.of_nat (length l')) by (apply Z.pow_pos_nonneg; [apply limb_base_pos|lia]).
  nia.
Qed.

Lemma normalize_value l : value (normalize l) = value l.
Proof.
  induction l as [|x l IH]; simpl; [done|].
  destruct (normalize l) eqn:E; simpl in *; [|lia].
  destruct (Z.eqb_spec x 0); simpl; lia.
Qed.

Lemma normalize_wf l : Forall limb l -> wf (normalize l).
Proof.
  unfold wf, normal. induction 1 as [|x l Hx _ [IH1 IH2]]; simpl; [done|].
  destruct (normalize l) eqn:E.
  - destruct (Z.eqb_spec x 0); simpl; [done|]. split; [by constructor|]. congruence.
  - split; [by constructor|]. exact IH2.
Qed.

Lemma wf_nil : wf [].
Proof. done. Qed.

(** A normal representation is canonical: its length is determined by its value. *)
Lemma wf_len_lt a b : wf a -> wf b -> (length a < length b)%nat -> value a < value b.
Proof.
  intros [Ha Na] [Hb Nb] Hlt.
  pose proof (value_bound _ Ha). assert (Hne : b <> []) by (destruct b; simpl in Hlt; [lia|done]).
  pose proof (value_lower _ Hb Nb Hne). unfold zlen in *.
  assert (limb_base ^ Z.of_nat (length a) <= limb_base ^ (Z.of_nat (length b) - 1)).
  { apply Z.pow_le_mono_r; [apply limb_base_pos|lia]. }
  lia.
Qed.

Lemma normal_of_lower l : Forall limb l -> limb_base ^ (zlen l - 1) <= value l -> normal l.
Proof.
  intros Hl Hv. unfold normal. destruct (decide (l = [])) as [->|Hne]; [done|].
  destruct (exists_last Hne) as (l' & x & ->). rewrite last_snoc. intros [= ->].
  apply Forall_app in Hl as [Hl' _]. pose proof (value_bound _ Hl').
  rewrite value_app in Hv. unfold zlen in *. rewrite length_app in Hv. simpl in Hv.
  replace (Z.of_nat (length l' + 1) - 1) with (Z.of_nat (length l')) in Hv by lia. lia.
Qed.

(** ** Construction *)
Lemma as_u64_split z : 0 <= z <= u128_max -> as_u64 z + limb_base * as_u64 (z / limb_base) = z.
Proof.
  intros H. unfold as_u64. rewrite (Z.mod_small (z / limb_base)).
  - rewrite (Z.div_mod z limb_base) at 3 by (pose proof limb_base_pos; lia). lia.
  - split; [apply Z.div_pos; [lia|apply limb_base_pos]|].
    apply Z.div_lt_upper_bound; [apply limb_base_pos|]. unfold u128_max, limb_base in *. lia.
Qed.

Lemma from_u128_wf v : wf (from_u128 v).
Proof. apply normalize_wf. destruct (_ =? 0); repeat constructor; apply as_u64_limb. Qed.

Lemma from_u128_value v : 0 <= v <= u128_max -> value (from_u128 v) = v.
Proof.
  intros H. pose proof (as_u64_split _ H). unfold from_u128. rewrite normalize_value.
  destruct (Z.eqb_spec (as_u64 (v / limb_base)) 0); cbn [value]; lia.
Qed.

(** ** Addition *)
Lemma div_mod_base z : as_u64 z + limb_base * (z / limb_base) = z.
Proof. unfold as_u64. rewrite (Z.div_mod z limb_base) at 3 by (pose proof limb_base_pos; lia). lia. Qed.

Lemma hd_limb l : Forall limb l -> limb (hd 0 l).
Proof. unfold limb. pose proof limb_base_pos. intros [|]; simpl; [lia|done]. Qed.

Lemma tl_limb l : Forall limb l -> Forall limb (tl l).
Proof. by intros [|]. Qed.

Lemma value_hd_tl l : value l = hd 0 l + limb_base * value (tl l).
Proof. destruct l; simpl; lia. Qed.

(** The [u128] sum of two limbs and a carry does not overflow. *)
Lemma add_total_u128 x y c : limb x -> limb y -> 0 <= c <= 1 -> 0 <= x + y + c <= u128_max.
Proof. unfold limb, limb_base, u128_max. lia. Qed.

Lemma mul_total_u128 x f c : limb x -> 0 <= f < 2 ^ 32 -> limb c -> 0 <= x * f + c <= u128_max.
Proof. unfold limb, limb_base, u128_max. intros. nia. Qed.

Lemma add_loop_spec left other carry out c :
  Forall limb left -> Forall limb other -> (length other <= length left)%nat -> 0 <= carry <= 1 ->
  add_loop left other carry = (out, c) ->
  Forall limb out /\ length out = length left /\ 0 <= c <= 1 /\
  value out + limb_base ^ zlen left * c = value left + value other + carry.
Proof.
  intros Hl. revert other carry out c.
  induction Hl as [|x l Hx Hl IH]; intros other carry out c Ho Hlen Hc H; simpl in H.
  - destruct other; simpl in Hlen; [|lia]. injection H as <- <-. split_and!; [by apply Forall_nil|done|lia|lia|unfold zlen; simpl; lia].
  - destruct (add_loop l (tl other) ((x + hd 0 other + carry) / limb_base)) as [out' c'] eqn:E.
    injection H as <- <-. pose proof (hd_limb _ Ho) as Hh. pose proof limb_base_pos.
    pose proof (div_mod_base (x + hd 0 other + carry)).
    assert (0 <= (x + hd 0 other + carry) / limb_base <= 1).
    { unfold limb in *. split; [apply Z.div_pos; lia|].
      apply Z.lt_succ_r, Z.div_lt_upper_bound; lia. }
    apply IH in E as (Hout & Hlo & Hc' & Hv); [|by apply tl_limb|destruct other; simpl in *; lia|lia].
    split_and!; [constructor; [apply as_u64_limb|done]|simpl; lia|lia|lia|].
    rewrite (value_hd_tl other). cbn [value]. unfold zlen in *. cbn [length].
    rewrite Nat2Z.inj_succ, Z.pow_succ_r by lia. nia.
Qed.

Lemma resize_limbs l n : Forall limb l -> Forall limb (resize l n).
Proof.
  intros H. apply Forall_app. split; [done|]. apply Forall_replicate.
  pose proof limb_base_pos. unfold limb. lia.
Qed.

Lemma resize_value l n : value (resize l n) = value l.
Proof. unfold resize. rewrite value_app, value_replicate. lia. Qed.

Lemma resize_length l n : (length l <= n)%nat -> length (resize l n) = n.
Proof. intros. unfold resize. rewrite length_app, length_replicate. lia. Qed.

(** The highest limb position of a non-zero normal magnitude bounds every
    magnitude at least as large. *)
Lemma wf_lower a n v : wf a -> length a = n -> value a <= v -> 0 <= v ->
  (n = 0%nat \/ limb_base ^ (Z.of_nat n - 1) <= v).
Proof.
  intros [Ha Na] <- Hv ?. destruct (decide (a = [])) as [->|Hne]; [by left|].
  right. pose proof (value_lower _ Ha Na Hne). unfold zlen in *. lia.
Qed.

Lemma carry_wf out c : Forall limb out -> limb c -> c <> 0 -> wf (out ++ [c]).
Proof.
  intros. split; [apply Forall_app; split; [done|by apply Forall_singleton]|].
  unfold normal. rewrite last_snoc. congruence.
Qed.

Lemma add_assign_spec a b : wf a -> wf b ->
  wf (add_assign a b) /\ value (add_assign a b) = value a + value b.
Proof.
  intros Ha Hb. unfold add_assign. set (n := Nat.max _ _).
  destruct (add_loop (resize a n) b 0) as [out c] eqn:E.
  destruct Ha as [La Na], Hb as [Lb Nb].
  assert (Hlen : length (resize a n) = n) by (apply resize_length; lia).
  apply add_loop_spec in E as (Ho & Hlo & Hc & Hv); [|by apply resize_limbs|done|lia|lia].
  rewrite resize_value in Hv. unfold zlen in Hv. rewrite Hlen in *.
  destruct (Z.eqb_spec c 0) as [->|Hc0].
  - split; [|lia]. split; [done|]. apply normal_of_lower; [done|]. unfold zlen. rewrite Hlo.
    pose proof (value_bound _ La). pose proof (value_bound _ Lb).
    destruct (decide (length a = n)) as [En|En].
    + destruct (wf_lower a n (value out)) as [E0|]; [done|done|lia|lia| |done].
      rewrite E0 in *. destruct out; [|simpl in Hlo; lia]. simpl. lia.
    + destruct (wf_lower b n (value out)) as [E0|]; [done|lia|lia|lia| |done]. lia.
  - assert (c = 1) as -> by lia. rewrite as_u64_id by (unfold limb, limb_base; lia).
    split; [apply carry_wf; [done|unfold limb, limb_base; lia|lia]|].
    rewrite value_app. unfold zlen. rewrite Hlo. cbn [value]. lia.
Qed.

(** ** Multiplication by a [u32] *)
Lemma mul_loop_spec l factor carry out c :
  Forall limb l -> 0 <= factor < 2 ^ 32 -> 0 <= carry < 2 ^ 32 ->
  mul_loop l factor carry = (out, c) ->
  Forall limb out /\ length out = length l /\ 0 <= c < 2 ^ 32 /\
  value out + limb_base ^ zlen l * c = value l * factor + carry.
Proof.
  intros Hl Hf. revert carry out c.
  induction Hl as [|x l Hx Hl IH]; intros carry out c Hc H; simpl in H.
  - injection H as <- <-. split_and!; [by apply Forall_nil|done|lia|lia|unfold zlen; simpl; lia].
  - destruct (mul_loop l factor ((x * factor + carry) / limb_base)) as [out' c'] eqn:E.
    injection H as <- <-. pose proof (div_mod_base (x * factor + carry)).
    assert (0 <= (x * factor + carry) / limb_base < 2 ^ 32).
    { unfold limb in Hx. pose proof limb_base_pos. split; [apply Z.div_pos; nia|].
      apply Z.div_lt_upper_bound; [done|]. unfold limb_base in *. nia. }
    apply IH in E as (Hout & Hlo & Hc' & Hv); [|done].
    split_and!; [constructor; [apply as_u64_limb|done]|simpl; lia|lia|lia|].
    unfold zlen in *. cbn [value length]. rewrite Nat2Z.inj_succ, Z.pow_succ_r by lia. nia.
Qed.

Lemma mul_small_spec a f : wf a -> 0 <= f < 2 ^ 32 ->
  wf (mul_small a f) /\ value (mul_small a f) = value a * f.
Proof.
  intros Ha Hf. unfold mul_small. destruct (Z.eqb_spec f 0) as [->|Hf0]; simpl.
  { split; [apply wf_nil|lia]. }
  destruct (is_zero a) eqn:Ez. { destruct a; [|done]. simpl. split; [apply wf_nil|lia]. }
  destruct (mul_loop a f 0) as [out c] eqn:E. destruct Ha as [La Na].
  apply mul_loop_spec in E as (Ho & Hlo & Hc & Hv); [|done|lia|lia].
  assert (Hne : a <> []) by (by intros ->). pose proof (value_lower _ La Na Hne) as Hlow.
  destruct (Z.eqb_spec c 0) as [->|Hc0].
  - split; [|lia]. split; [done|]. apply normal_of_lower; [done|]. unfold zlen in *. rewrite Hlo.
    assert (0 < limb_base ^ (Z.of_nat (length a) - 1)).
    { destruct a; [done|]. apply Z.pow_pos_nonneg; [apply limb_base_pos|]. simpl. lia. }
    nia.
  - rewrite as_u64_id by (unfold limb, limb_base; lia).
    split; [apply carry_wf; [done|unfold limb, limb_base; lia|done]|].
    rewrite value_app. unfold zlen in *. rewrite Hlo. cbn [value]. lia.
Qed.

(** ** Comparison and subtraction *)
Lemma list_cmp_rev a b : Forall limb a -> Forall limb b -> length a = length b ->
  list_cmp Z.compare (rev a) (rev b) = (value a ?= value b).
Proof.
  revert b. induction a as [|x a IH] using rev_ind; intros b Ha Hb Hlen.
  { destruct b; [done|]. simpl in Hlen. lia. }
  destruct b as [|y b _] using rev_ind. { rewrite length_app in Hlen. simpl in Hlen. lia. }
  rewrite !length_app in Hlen. simpl in Hlen.
  apply Forall_app in Ha as [Ha Hx], Hb as [Hb Hy]. inversion_clear Hx. inversion_clear Hy.
  rewrite !rev_app_distr. cbn [rev app list_cmp]. rewrite IH by (done || lia).
  rewrite !value_app. cbn [value]. unfold zlen. replace (length b) with (length a) by lia.
  pose proof (value_bound _ Ha) as Ba. pose proof (value_bound _ Hb) as Bb. unfold zlen in *.
  replace (length b) with (length a) in Bb by lia.
  destruct (Z.compare_spec x y) as [->|Hlt|Hlt].
  - destruct (Z.compare_spec (value a) (value b)); symmetry;
      [apply Z.compare_eq_iff|apply Z.compare_lt_iff|apply Z.compare_gt_iff]; lia.
  - symmetry. apply Z.compare_lt_iff. nia.
  - symmetry. apply Z.compare_gt_iff. nia.
Qed.

Lemma cmp_spec a b : wf a -> wf b -> cmp a b = (value a ?= value b).
Proof.
  intros Ha Hb. unfold cmp. destruct (Nat.compare_spec (length a) (length b)) as [E|E|E].
  - apply list_cmp_rev; [apply Ha|apply Hb|done].
  - symmetry. apply Z.compare_lt_iff. by apply wf_len_lt.
  - symmetry. apply Z.compare_gt_iff. by apply wf_len_lt.
Qed.

Lemma sub_loop_spec left other borrow :
  Forall limb left -> Forall limb other -> (length other <= length left)%nat -> 0 <= borrow <= 1 ->
  Forall limb (sub_loop left other borrow) /\
  exists b', 0 <= b' <= 1 /\
    value (sub_loop left other borrow) - limb_base ^ zlen left * b' = value left - value other - borrow.
Proof.
  intros Hl. revert other borrow.
  induction Hl as [|x l Hx Hl IH]; intros other borrow Ho Hlen Hb; simpl.
  - destruct other; simpl in Hlen; [|lia]. split; [constructor|]. exists borrow. unfold zlen. simpl. lia.
  - pose proof (hd_limb _ Ho) as Hh. pose proof (tl_limb _ Ho) as Ht. unfold limb in Hh, Hx.
    assert (length (tl other) <= length l)%nat by (destruct other; simpl in *; lia).
    rewrite (value_hd_tl other). unfold zlen. cbn [length]. rewrite Nat2Z.inj_succ, Z.pow_succ_r by lia.
    fold (zlen l).
    destruct (Z.leb_spec (hd 0 other + borrow) x).
    + destruct (IH (tl other) 0) as (Hout & b' & Hb' & Hv); [done|done|lia|].
      split; [constructor; [apply as_u64_limb|done]|]. exists b'. split; [done|].
      rewrite as_u64_id by (unfold limb; lia). cbn [value]. nia.
    + destruct (IH (tl other) 1) as (Hout & b' & Hb' & Hv); [done|done|lia|].
      split; [constructor; [apply as_u64_limb|done]|]. exists b'. split; [done|].
      rewrite as_u64_id by (unfold limb; lia). cbn [value]. nia.
Qed.

Lemma sub_spec a b : wf a -> wf b ->
  if value a <? value b then sub a b = error "EXPR-EVAL-003"
  else exists d, sub a b = Ok d /\ wf d /\ value d = value a - value b.
Proof.
  intros Ha Hb. unfold sub. rewrite (cmp_spec _ _ Ha Hb). unfold Z.ltb.
  assert (Hge : value a ?= value b <> Lt -> exists d,
    Ok (normalize (sub_loop a b 0)) = Ok d /\ wf d /\ value d = value a - value b).
  { intros Hc. eexists. split; [done|].
    assert (value b <= value a) by (destruct (Z.compare_spec (value a) (value b)); congruence || lia).
    assert (Hlen : (length b <= length a)%nat).
    { destruct (decide (length a < length b)%nat) as [E|E]; [|lia].
      pose proof (wf_len_lt _ _ Ha Hb E). lia. }
    destruct Ha as [La Na], Hb as [Lb Nb].
    destruct (sub_loop_spec a b 0) as (Hout & b' & Hb' & Hv); [done|done|done|lia|].
    split; [by apply normalize_wf|]. rewrite normalize_value.
    pose proof (value_bound _ Hout) as Bo. pose proof (value_bound _ Lb). pose proof (value_bound _ La).
    assert (b' = 0 \/ b' = 1) as [->| ->] by lia; [lia|].
    assert (Hl : length (sub_loop a b 0) = length a).
    { clear. generalize 0 at 1. revert b. induction a as [|x a IH]; intros b z; simpl; [done|].
      destruct (_ <=? _); simpl; by rewrite IH. }
    unfold zlen in *. rewrite Hl in Bo. lia. }
  destruct (value a ?= value b) eqn:E; [by apply Hge|done|by apply Hge].
Qed.

(** ** Back to [u128] *)
Lemma lor_shift_add low high : limb low -> 0 <= high ->
  Z.lor low (Z.shiftl high 64) = low + limb_base * high.
Proof.
  intros [? Hl] ?. rewrite <- Z.add_nocarry_lor.
  - rewrite Z.shiftl_mul_pow2 by lia. unfold limb_base. lia.
  - apply Z.bits_inj'. intros n Hn. rewrite Z.land_spec, Z.bits_0.
    destruct (Z.ltb_spec n 64).
    + rewrite Z.shiftl_spec_low by lia. apply andb_false_r.
    + rewrite (Z.bits_above_log2 low n); [done|done|].
      destruct (decide (low = 0)) as [->|]; [simpl; lia|].
      apply Z.log2_lt_pow2; [lia|]. unfold limb_base in Hl.
      eapply Z.lt_le_trans; [exact Hl|]. apply Z.pow_le_mono_r; lia.
Qed.

Lemma to_u128_spec a : wf a ->
  to_u128 a = if value a <=? u128_max then Some (value a) else None.
Proof.
  intros Ha. pose proof limb_base_pos as Hp.
  assert (Hb : forall k, (length a <= k)%nat -> value a < limb_base ^ Z.of_nat k).
  { intros k Hk. destruct Ha as [La _]. pose proof (value_bound _ La). unfold zlen in *.
    eapply Z.lt_le_trans; [apply H|]. apply Z.pow_le_mono_r; lia. }
  pose proof (Hb 2%nat) as Hb2. change (limb_base ^ Z.of_nat 2) with (u128_max + 1) in Hb2.
  destruct a as [|x [|y [|z l]]].
  - done.
  - simpl length in Hb2. specialize (Hb2 ltac:(lia)).
    rewrite (proj2 (Z.leb_le _ _)) by lia. simpl. f_equal. lia.
  - simpl length in Hb2. specialize (Hb2 ltac:(lia)).
    rewrite (proj2 (Z.leb_le _ _)) by lia.
    destruct Ha as [La _]. inversion_clear La as [|? ? Hx Hr]. inversion_clear Hr as [|? ? Hy _].
    simpl. f_equal. rewrite lor_shift_add; [lia|done|apply Hy].
  - destruct Ha as [La Na]. pose proof (value_lower _ La Na ltac:(done)) as Hlow.
    rewrite (proj2 (Z.leb_gt _ _)); [done|].
    eapply Z.lt_le_trans; [|exact Hlow].
    apply Z.lt_le_trans with (limb_base ^ 2); [reflexivity|].
    unfold zlen. cbn [length]. apply Z.pow_le_mono_r; lia.
Qed.
End BigMagnitude.
