(* ===== verification/Text.v ===== *)
(** * Text

    Rust strings as UTF-8 byte strings, and the parsing of integers and floats
    from text ([str::parse]). *)
From Stdlib Require Import ZArith Lia DecimalString DecimalZ DecimalPos SpecFloat.
From stdpp Require Import list.
From S2P Require Import Prelude Floats.

Local Open Scope Z_scope.

Definition byte_of (a : Ascii.ascii) : Z := Z.of_N (Ascii.N_of_ascii a).

Fixpoint bytes_of (s : string) : list Z :=
  match s with EmptyString => [] | String a s' => byte_of a :: bytes_of s' end.

(** First scalar value and the rest; continuation bytes carry six bits. *)
Definition split_char (s : string) : option (Z * string * string) :=
  match s with
  | EmptyString => None
  | String a s1 =>
      let b := byte_of a in
      if b <? 128 then Some (b, String a EmptyString, s1) else
      match s1 with
      | String a1 s2 =>
          let c1 := Z.land (byte_of a1) 63 in
          if b <? 224 then Some (Z.land b 31 * 64 + c1, String a (String a1 EmptyString), s2) else
          match s2 with
          | String a2 s3 =>
              let c2 := Z.land (byte_of a2) 63 in
              if b <? 240 then
                Some (Z.land b 15 * 4096 + c1 * 64 + c2, String a (String a1 (String a2 EmptyString)), s3)
              else
              match s3 with
              | String a3 s4 =>
                  Some (Z.land b 7 * 262144 + c1 * 4096 + c2 * 64 + Z.land (byte_of a3) 63,
                        String a (String a1 (String a2 (String a3 EmptyString))), s4)
              | _ => None
              end
          | _ => None
          end
      | _ => None
      end
  end.

(** The scalar values with the bytes that encode each; one byte of fuel per
    character suffices. *)
Fixpoint char_pieces (fuel : nat) (s : string) : list (Z * string) :=
  match fuel with
  | O => []
  | S fuel' => match split_char s with
               | Some (c, piece, rest) => (c, piece) :: char_pieces fuel' rest
               | None => []
               end
  end.

Definition pieces (s : string) : list (Z * string) := char_pieces (String.length s) s.
Definition chars (s : string) : list Z := map fst (pieces s).
Definition concat_pieces (l : list (Z * string)) : string :=
  fold_right (fun p s => String.append (snd p) s) EmptyString l.

Definition is_control (c : Z) : bool := (c <? 32) || ((127 <=? c) && (c <? 160)).

(** Unicode [White_Space]. *)
Definition is_whitespace (c : Z) : bool :=
  ((9 <=? c) && (c <=? 13)) || (c =? 32) || (c =? 133) || (c =? 160) || (c =? 5760) ||
  ((8192 <=? c) && (c <=? 8202)) || (c =? 8232) || (c =? 8233) || (c =? 8239) ||
  (c =? 8287) || (c =? 12288).

Fixpoint drop_while {A} (p : A -> bool) (l : list A) : list A :=
  match l with [] => [] | x :: l' => if p x then drop_while p l' else l end.

Definition white (p : Z * string) : bool := is_whitespace (fst p).
Definition str_trim_start (s : string) : string := concat_pieces (drop_while white (pieces s)).
Definition str_trim_end (s : string) : string :=
  concat_pieces (rev (drop_while white (rev (pieces s)))).
Definition str_trim (s : string) : string :=
  concat_pieces (rev (drop_while white (rev (drop_while white (pieces s))))).

Definition str_starts_with (s p : string) : bool := String.prefix p s.
Fixpoint str_contains (s p : string) : bool :=
  String.prefix p s || match s with EmptyString => false | String _ s' => str_contains s' p end.
Fixpoint str_ends_with (s p : string) : bool :=
  String.eqb s p || match s with EmptyString => false | String _ s' => str_ends_with s' p end.

(** [str::split(sep)] on a one-byte separator. *)
Fixpoint str_split (sep : Ascii.ascii) (s : string) : list string :=
  match s with
  | EmptyString => [EmptyString]
  | String a s' =>
      if Ascii.eqb a sep then EmptyString :: str_split sep s'
      else match str_split sep s' with
           | w :: ws => String a w :: ws
           | [] => [String a EmptyString]
           end
  end.

Notation ascii_nat := Ascii.ascii_of_nat.
Definition slash : Ascii.ascii := ascii_nat 47.

Definition is_empty_str (s : string) : bool := match s with EmptyString => true | _ => false end.

Lemma bytes_of_inj s1 s2 : bytes_of s1 = bytes_of s2 -> s1 = s2.
Proof.
  revert s2. induction s1 as [|a s1 IH]; intros [|b s2]; simpl; try done.
  intros [= Hab Hs]. f_equal; [|auto]. unfold byte_of in Hab.
  apply N2Z.inj in Hab. by rewrite <- (Ascii.ascii_N_embedding a), Hab, Ascii.ascii_N_embedding.
Qed.

Lemma bytes_of_length s : length (bytes_of s) = String.length s.
Proof. induction s; simpl; congruence. Qed.

Lemma prefix_contains s p : str_starts_with s p = true -> str_contains s p = true.
Proof. unfold str_starts_with. destruct s; simpl; intros ->; done. Qed.

Example chars_euro : chars (String (ascii_nat 226) (String (ascii_nat 130) (String (ascii_nat 172) "a"))) = [8364; 97].
Proof. vm_compute. reflexivity. Qed.
Example trim_both : str_trim "  a b  " = "a b"%stdpp.
Proof. vm_compute. reflexivity. Qed.
Example split_path : str_split slash "dol/text/trim" = ["dol"; "text"; "trim"]%stdpp.
Proof. vm_compute. reflexivity. Qed.

(** ** Integers *)
Definition plus_char : Ascii.ascii := ascii_nat 43.
Definition minus_char : Ascii.ascii := ascii_nat 45.
Definition parse_digits (s : string) : option Z := Z.of_uint <$> NilZero.uint_of_string s.
Definition checked_in (in_range : Z -> bool) (o : option Z) : option Z := z ← o; if in_range z then Some z else None.

(** [iN::from_str] *)
Definition parse_signed (in_range : Z -> bool) (s : string) : option Z :=
  checked_in in_range
    match s with
    | String c s' =>
        if Ascii.eqb c minus_char then Z.opp <$> parse_digits s'
        else if Ascii.eqb c plus_char then parse_digits s' else parse_digits s
    | EmptyString => None
    end.

(** [uN::from_str]: no minus sign, a plus sign is accepted. *)
Definition parse_unsigned (in_range : Z -> bool) (s : string) : option Z :=
  checked_in in_range
    match s with
    | String c s' => if Ascii.eqb c plus_char then parse_digits s' else parse_digits s
    | EmptyString => None
    end.

Definition parse_i128 : string -> option Z := parse_signed in_i128.
Definition parse_u128 : string -> option Z := parse_unsigned in_u128.
Definition parse_i32 : string -> option Z := parse_signed (fun z => (- 2 ^ 31 <=? z) && (z <? 2 ^ 31)).
Definition parse_u32 : string -> option Z := parse_unsigned (fun z => (0 <=? z) && (z <? 2 ^ 32)).
Definition parse_u8 : string -> option Z := parse_unsigned (fun z => (0 <=? z) && (z <? 2 ^ 8)).

(** ** Floats *)
Definition digit_char (c : Ascii.ascii) : bool := let b := byte_of c in (48 <=? b) && (b <=? 57).
Definition digit_number (c : Ascii.ascii) : Z := byte_of c - 48.

(** A run of digits, read into [f]'s accumulator: the result, how many digits
    there were, and the rest. *)
Fixpoint scan_digits (f : Z -> Z -> Z) (acc : Z) (count : Z) (s : string) : Z * Z * string :=
  match s with
  | String c s' => if digit_char c then scan_digits f (f acc (digit_number c)) (count + 1) s' else (acc, count, s)
  | EmptyString => (acc, count, EmptyString)
  end.
Definition append_digit (acc d : Z) : Z := 10 * acc + d.
(** The exponent stops growing once it is beyond every float. *)
Definition append_exponent (acc d : Z) : Z := if acc <? 65536 then 10 * acc + d else acc.

Definition is_char (n : nat) (c : Ascii.ascii) : bool := Ascii.eqb c (ascii_nat n).

Definition parse_sign (s : string) : bool * string :=
  match s with
  | String c s' => if Ascii.eqb c minus_char then (true, s') else if Ascii.eqb c plus_char then (false, s') else (false, s)
  | EmptyString => (false, EmptyString)
  end.

(** [e], a sign and digits, up to the end of the text. *)
Definition parse_exponent (s : string) : option Z :=
  match s with
  | EmptyString => Some 0
  | String c s' =>
      if is_char 101 c || is_char 69 c then
        let '(negative, s'') := parse_sign s' in
        let '(e, count, rest) := scan_digits append_exponent 0 0 s'' in
        if (0 <? count) && String.eqb rest EmptyString then Some (if negative then - e else e) else None
      else None
  end.

(** Digits with an optional point: mantissa and decimal exponent. *)
Definition parse_decimal (s : string) : option (Z * Z) :=
  let '(whole, n, rest) := scan_digits append_digit 0 0 s in
  let '(mantissa, k, rest) :=
    match rest with
    | String c rest' => if is_char 46 c then scan_digits append_digit whole 0 rest' else (whole, 0, rest)
    | EmptyString => (whole, 0, rest)
    end in
  if n + k =? 0 then None else e ← parse_exponent rest; Some (mantissa, e - k).

Section Round.
Context (fmt : FloatFormat).

Definition float_of_Z (z : Z) : Z := of_spec fmt 0 (binary_normalize (prec fmt) (emax fmt) z 0 false).

(** [mantissa * 10^exponent] with a sign. *)
Definition round_decimal (negative : bool) (mantissa exponent : Z) : Z :=
  match mantissa with
  | Zpos m =>
      if 0 <=? exponent then
        of_spec fmt 0 (binary_normalize (prec fmt) (emax fmt) ((if negative then -1 else 1) * (Zpos m * 10 ^ exponent)) 0 negative)
      else
        match 10 ^ (- exponent) with
        | Zpos d => of_spec fmt 0 (SFdiv (prec fmt) (emax fmt) (S754_finite negative m 0) (S754_finite false d 0))
        | _ => 0
        end
  | _ => sign_bit fmt negative
  end.

Definition lower_char (c : Ascii.ascii) : Ascii.ascii :=
  let b := byte_of c in if (65 <=? b) && (b <=? 90) then Ascii.ascii_of_N (Z.to_N (b + 32)) else c.
Fixpoint lower_ascii (s : string) : string :=
  match s with EmptyString => EmptyString | String c s' => String (lower_char c) (lower_ascii s') end.

(** The constant [NAN]. *)
Definition quiet_nan : Z := float_inf fmt + 2 ^ (fraction fmt - 1).

Definition parse_special (s : string) : option Z :=
  let s := lower_ascii s in
  if String.eqb s "inf" || String.eqb s "infinity" then Some (float_inf fmt)
  else if String.eqb s "nan" then Some quiet_nan else None.

(** [f32::from_str] and [f64::from_str] *)
Definition parse_float (s : string) : option Z :=
  let '(negative, s') := parse_sign s in
  match s' with
  | EmptyString => None
  | _ =>
      match parse_decimal s' with
      | Some (mantissa, exponent) => Some (round_decimal negative mantissa exponent)
      | None => (fun b => sign_bit fmt negative + b) <$> parse_special s'
      end
  end.
End Round.

Example parse_tenth : parse_float binary64 "0.1" = Some 0x3fb999999999999a.
Proof. vm_compute. reflexivity. Qed.
Example parse_scientific : parse_float binary32 "-1.5E+3" = Some 0xc4bb8000.
Proof. vm_compute. reflexivity. Qed.
Example parse_smallest : parse_float binary64 "5e-324" = Some 1.
Proof. vm_compute. reflexivity. Qed.
Example parse_overflow : parse_float binary32 "1e39" = Some 0x7f800000.
Proof. vm_compute. reflexivity. Qed.
Example parse_infinity : parse_float binary64 "-Infinity" = Some 0xfff0000000000000.
Proof. vm_compute. reflexivity. Qed.
Example parse_point_alone : parse_float binary64 "." = None /\ parse_float binary64 "1e" = None /\ parse_float binary64 "+" = None.
Proof. vm_compute. done. Qed.
Example round_ties_to_even : float_of_Z binary64 9007199254740993 = 0x4340000000000000.
Proof. vm_compute. reflexivity. Qed.

(** ** Text of integers and characters *)
Definition cat (l : list string) : string := fold_right String.append EmptyString l.
(** [to_string] of an integer. *)
Definition int_text (n : Z) : string := NilZero.string_of_int (Z.to_int n).

(** [char::to_string]: UTF-8. *)
Definition byte_char (b : Z) : Ascii.ascii := Ascii.ascii_of_N (Z.to_N b).
Definition text_of_bytes (l : list Z) : string := fold_right (fun b s => String (byte_char b) s) EmptyString l.
Definition char_text (c : Z) : string :=
  text_of_bytes
    (if c <? 128 then [c]
     else if c <? 2048 then [192 + c / 64; 128 + c mod 64]
     else if c <? 65536 then [224 + c / 4096; 128 + c / 64 mod 64; 128 + c mod 64]
     else [240 + c / 262144; 128 + c / 4096 mod 64; 128 + c / 64 mod 64; 128 + c mod 64]).

Lemma int_text_injective n m : int_text n = int_text m -> n = m.
Proof.
  intros E. apply DecimalZ.to_int_inj.
  assert (G : forall k, NilZero.int_of_string (int_text k) = Some (Z.to_int k)).
  { intros k. apply NilZero.isi; destruct k; intros H; try discriminate H; injection H as H; by apply DecimalPos.Unsigned.to_uint_nonnil in H. }
  pose proof (G n) as Gn. rewrite E, G in Gn. congruence.
Qed.

Definition underscore : Ascii.ascii := ascii_nat 95.
Fixpoint no_underscore (s : string) : bool :=
  match s with String c s' => negb (Ascii.eqb c underscore) && no_underscore s' | EmptyString => true end.

Lemma digits_no_underscore u : no_underscore (NilEmpty.string_of_uint u) = true.
Proof. induction u; cbn; done. Qed.

Lemma int_text_no_underscore n : no_underscore (int_text n) = true.
Proof. unfold int_text. destruct (Z.to_int n) as [d|d]; cbn; destruct d; try done; apply digits_no_underscore. Qed.

Lemma underscore_split a b x y : no_underscore a = true -> no_underscore b = true ->
  String.append a (String underscore x) = String.append b (String underscore y) -> a = b /\ x = y.
Proof.
  revert b. induction a as [|c a IH]; intros [|d b] Ha Hb E.
  - change (String underscore x = String underscore y) in E. split; [done|congruence].
  - change (String underscore x = String d (String.append b (String underscore y))) in E. injection E as <- _. by cbn in Hb.
  - change (String c (String.append a (String underscore x)) = String underscore y) in E. injection E as -> _. by cbn in Ha.
  - change (String c (String.append a (String underscore x)) = String d (String.append b (String underscore y))) in E. injection E as <- E.
    apply andb_true_iff in Ha as [_ Ha]. apply andb_true_iff in Hb as [_ Hb]. destruct (IH b Ha Hb E) as [-> ->]. done.
Qed.

Lemma numbered_distinct prefix i j x y :
  cat [prefix; int_text i; String underscore x] = cat [prefix; int_text j; String underscore y] -> i = j /\ x = y.
Proof.
  unfold cat. cbn [fold_right]. intros E.
  assert (G : String.append (int_text i) (String underscore (String.append x EmptyString)) = String.append (int_text j) (String underscore (String.append y EmptyString))).
  { clear -E. revert E. induction prefix as [|c prefix IH]; [done|]. intros E. apply IH.
    change (String c (String.append prefix (String.append (int_text i) (String.append (String underscore x) EmptyString))) =
            String c (String.append prefix (String.append (int_text j) (String.append (String underscore y) EmptyString)))) in E. by injection E. }
  apply underscore_split in G as [Hi%int_text_injective Hx]; [|apply int_text_no_underscore..]. split; [done|]. revert Hx. clear.
  revert y. induction x as [|c x IH]; intros [|d y]; try done.
  change (String c (String.append x EmptyString) = String d (String.append y EmptyString) -> String c x = String d y).
  intros [= <- E%IH]. by subst.
Qed.

Lemma digits_of_positive p : NilZero.uint_of_string (NilZero.string_of_uint (Pos.to_uint p)) = Some (Pos.to_uint p).
Proof. apply NilZero.usu, Unsigned.to_uint_nonnil. Qed.

Definition is_sign (c : Ascii.ascii) : bool := Ascii.eqb c minus_char || Ascii.eqb c plus_char.

Lemma unsigned_text_start u : exists c s, NilZero.string_of_uint u = String c s /\ is_sign c = false.
Proof. destruct u; cbn; eauto. Qed.

Lemma parse_digits_positive p : parse_digits (NilZero.string_of_uint (Pos.to_uint p)) = Some (Z.pos p).
Proof. unfold parse_digits. rewrite digits_of_positive. cbn. unfold Z.of_uint. by rewrite Unsigned.of_to. Qed.

Lemma parse_u128_text n : in_u128 n = true -> parse_u128 (int_text n) = Some n.
Proof.
  intros H. unfold in_u128 in H. destruct n as [|p|p]; [reflexivity| |discriminate]. unfold parse_u128, parse_unsigned, int_text. cbn [Z.to_int NilZero.string_of_int].
  destruct (unsigned_text_start (Pos.to_uint p)) as (c & s & E & Hc). pose proof (parse_digits_positive p) as Hp. rewrite E in *.
  apply orb_false_iff in Hc as [_ Hc]. rewrite Hc, Hp. unfold checked_in. cbn [mbind option_bind]. unfold in_u128. by rewrite H.
Qed.

Lemma parse_i128_text n : in_i128 n = true -> parse_i128 (int_text n) = Some n.
Proof.
  intros H. destruct n as [|p|p]; [reflexivity| |]; unfold parse_i128, parse_signed, int_text; cbn [Z.to_int NilZero.string_of_int].
  - destruct (unsigned_text_start (Pos.to_uint p)) as (c & s & E & Hc). pose proof (parse_digits_positive p) as Hp. rewrite E in *.
    apply orb_false_iff in Hc as [Hm Hc]. rewrite Hm, Hc, Hp. unfold checked_in. cbn [mbind option_bind]. by rewrite H.
  - cbn -[in_i128 parse_digits checked_in NilZero.string_of_uint Pos.to_uint Z.opp]. rewrite parse_digits_positive.
    change (checked_in in_i128 (Some (Z.neg p)) = Some (Z.neg p)). unfold checked_in. cbn [mbind option_bind]. by rewrite H.
Qed.

Lemma byte_of_char b : 0 <= b < 256 -> byte_of (byte_char b) = b.
Proof. intros H. unfold byte_of, byte_char. rewrite Ascii.N_ascii_embedding by lia. lia. Qed.

Lemma low_bits x n m : 0 <= n -> m = 2 ^ n -> 0 <= x < m -> forall base, base mod m = 0 -> Z.land (base + x) (m - 1) = x.
Proof.
  intros Hn -> Hx base Hb. replace (2 ^ n - 1) with (Z.ones n) by (rewrite Z.ones_equiv; lia). rewrite Z.land_ones by done.
  pose proof (Z.pow_pos_nonneg 2 n ltac:(lia) Hn). rewrite Z.add_mod, Hb, Z.add_0_l, Z.mod_mod by lia. by apply Z.mod_small.
Qed.

(** The scalar value of a character's bytes. *)
Lemma chars_of_char c : 0 < c < 1114112 -> chars (char_text c) = [c].
Proof.
  intros H. unfold char_text.
  pose proof (Z.mod_pos_bound c 64 ltac:(lia)). pose proof (Z.mod_pos_bound (c / 64) 64 ltac:(lia)). pose proof (Z.mod_pos_bound (c / 4096) 64 ltac:(lia)).
  pose proof (Z.div_mod c 64 ltac:(lia)) as E1. pose proof (Z.div_mod (c / 64) 64 ltac:(lia)) as E2. pose proof (Z.div_mod (c / 4096) 64 ltac:(lia)) as E3.
  rewrite Z.div_div in E2 by lia. rewrite Z.div_div in E3 by lia. change (64 * 64) with 4096 in E2. change (4096 * 64) with 262144 in E3.
  unfold chars, pieces.
  destruct (Z.ltb_spec c 128).
  { cbn -[byte_char byte_of]. rewrite byte_of_char by lia. by rewrite (proj2 (Z.ltb_lt c 128)) by lia. }
  destruct (Z.ltb_spec c 2048).
  { cbn -[byte_char byte_of Z.add Z.div Z.modulo Z.land Z.mul Z.ltb]. rewrite !byte_of_char by lia.
    rewrite (proj2 (Z.ltb_ge _ 128)), (proj2 (Z.ltb_lt _ 224)) by lia. cbn [char_pieces split_char map fst].
    rewrite (low_bits (c / 64) 5 32 ltac:(lia) eq_refl ltac:(lia) 192 eq_refl : Z.land _ 31 = _).
    rewrite (low_bits (c mod 64) 6 64 ltac:(lia) eq_refl ltac:(lia) 128 eq_refl : Z.land _ 63 = _). f_equal. lia. }
  destruct (Z.ltb_spec c 65536).
  { cbn -[byte_char byte_of Z.add Z.div Z.modulo Z.land Z.mul Z.ltb]. rewrite !byte_of_char by lia.
    rewrite (proj2 (Z.ltb_ge _ 128)), (proj2 (Z.ltb_ge _ 224)), (proj2 (Z.ltb_lt _ 240)) by lia. cbn [char_pieces split_char map fst].
    rewrite (low_bits (c / 4096) 4 16 ltac:(lia) eq_refl ltac:(lia) 224 eq_refl : Z.land _ 15 = _).
    rewrite (low_bits ((c / 64) mod 64) 6 64 ltac:(lia) eq_refl ltac:(lia) 128 eq_refl : Z.land _ 63 = _).
    rewrite (low_bits (c mod 64) 6 64 ltac:(lia) eq_refl ltac:(lia) 128 eq_refl : Z.land _ 63 = _). f_equal. lia. }
  cbn -[byte_char byte_of Z.add Z.div Z.modulo Z.land Z.mul Z.ltb]. rewrite !byte_of_char by lia.
  rewrite (proj2 (Z.ltb_ge _ 128)), (proj2 (Z.ltb_ge _ 224)), (proj2 (Z.ltb_ge _ 240)) by lia. cbn [char_pieces split_char map fst].
  rewrite (low_bits (c / 262144) 3 8 ltac:(lia) eq_refl ltac:(lia) 240 eq_refl : Z.land _ 7 = _).
  rewrite (low_bits ((c / 4096) mod 64) 6 64 ltac:(lia) eq_refl ltac:(lia) 128 eq_refl : Z.land _ 63 = _).
  rewrite (low_bits ((c / 64) mod 64) 6 64 ltac:(lia) eq_refl ltac:(lia) 128 eq_refl : Z.land _ 63 = _).
  rewrite (low_bits (c mod 64) 6 64 ltac:(lia) eq_refl ltac:(lia) 128 eq_refl : Z.land _ 63 = _). f_equal. lia.
Qed.
