(* ===== verification/BTree.v ===== *)
(** * Ordered maps, stable sorting and bounded traversals

    [std::collections::BTreeMap] as an association list kept strictly sorted
    by key, so that iteration order is the key order the code observes;
    [slice::sort_by] and [sort_by_key]; the explicit-stack walk of a tree that
    the validators share. *)
From Stdlib Require Import ZArith Lia.
From stdpp Require Import list.
From S2P Require Import Prelude.

(** [Ord for K] with its laws. *)
Class KeyOrder (K : Type) := {
  kcmp : K -> K -> comparison;
  kcmp_eq : forall a b, kcmp a b = Eq <-> a = b;
  kcmp_antisym : forall a b, kcmp b a = CompOpp (kcmp a b);
  kcmp_trans : forall a b c, kcmp a b = Lt -> kcmp b c = Lt -> kcmp a c = Lt
}.

Lemma ascii_compare_refl a : Ascii.compare a a = Eq.
Proof. apply N.compare_refl. Qed.

Lemma string_compare_trans a b c :
  String.compare a b = Lt -> String.compare b c = Lt -> String.compare a c = Lt.
Proof.
  revert b c. induction a as [|x a IH]; intros [|y b] [|z c]; simpl; try done.
  unfold Ascii.compare.
  destruct (N.compare_spec (Ascii.N_of_ascii x) (Ascii.N_of_ascii y)),
    (N.compare_spec (Ascii.N_of_ascii y) (Ascii.N_of_ascii z)),
    (N.compare_spec (Ascii.N_of_ascii x) (Ascii.N_of_ascii z)); try done; try lia; apply IH.
Qed.

#[export] Instance string_order : KeyOrder string.
Proof.
  refine {| kcmp := String.compare |}.
  - intros a b. split; [apply String.compare_eq_iff|]. intros ->.
    induction b as [|x b IH]; simpl; [done|]. by rewrite ascii_compare_refl.
  - intros. apply String.compare_antisym.
  - apply string_compare_trans.
Defined.

#[export] Instance Z_order : KeyOrder Z.
Proof.
  refine {| kcmp := Z.compare |}.
  - apply Z.compare_eq_iff.
  - intros. apply Z.compare_antisym.
  - intros *. rewrite !Z.compare_lt_iff. lia.
Defined.

Definition pair_cmp {A B} `{KeyOrder A} `{KeyOrder B} (x y : A * B) : comparison :=
  match kcmp (fst x) (fst y) with Eq => kcmp (snd x) (snd y) | c => c end.

#[export] Instance pair_order {A B} `{KeyOrder A} `{KeyOrder B} : KeyOrder (A * B).
Proof.
  refine {| kcmp := pair_cmp |}; unfold pair_cmp.
  - intros [a b] [c d]; simpl. destruct (kcmp a c) eqn:E.
    + apply kcmp_eq in E as ->. rewrite kcmp_eq. split; congruence.
    + split; [done|]. intros [= -> ->]. by rewrite (proj2 (kcmp_eq c c)) in E.
    + split; [done|]. intros [= -> ->]. by rewrite (proj2 (kcmp_eq c c)) in E.
  - intros [a b] [c d]; simpl. rewrite (kcmp_antisym a c), (kcmp_antisym b d).
    by destruct (kcmp a c).
  - intros [a b] [c d] [e f]; simpl.
    destruct (kcmp a c) eqn:E1; [|destruct (kcmp c e) eqn:E2|done].
    + apply kcmp_eq in E1 as ->. destruct (kcmp c e); [apply kcmp_trans|done|done].
    + apply kcmp_eq in E2 as ->. by rewrite E1.
    + by rewrite (kcmp_trans _ _ _ E1 E2).
    + done.
Defined.

Section Map.
Context {K V : Type} `{KeyOrder K}.

Definition key_eqb (a b : K) : bool := match kcmp a b with Eq => true | _ => false end.

Definition btree := list (K * V).

Fixpoint bt_get (k : K) (m : btree) : option V :=
  match m with
  | [] => None
  | (k', v) :: m' => match kcmp k k' with Eq => Some v | Lt => None | Gt => bt_get k m' end
  end.

(** [BTreeMap::insert]: the new entry replaces one with an equal key. *)
Fixpoint bt_insert (k : K) (v : V) (m : btree) : btree :=
  match m with
  | [] => [(k, v)]
  | (k', v') :: m' =>
      match kcmp k k' with
      | Lt => (k, v) :: m
      | Eq => (k, v) :: m'
      | Gt => (k', v') :: bt_insert k v m'
      end
  end.

Definition bt_remove (k : K) (m : btree) : btree :=
  List.filter (fun e => negb (key_eqb k (fst e))) m.

(** [iter().collect::<BTreeMap<_, _>>()]: a later entry wins. *)
Definition bt_collect (l : list (K * V)) : btree :=
  fold_left (fun m e => bt_insert (fst e) (snd e) m) l [].

(** Strictly increasing keys. *)
Fixpoint bt_sorted (m : btree) : bool :=
  match m with
  | (k1, _) :: ((k2, _) :: _) as m' =>
      match kcmp k1 k2 with Lt => bt_sorted m' | _ => false end
  | _ => true
  end.

Lemma kcmp_refl k : kcmp k k = Eq.
Proof. by apply kcmp_eq. Qed.

Lemma key_eqb_eq a b : key_eqb a b = true <-> a = b.
Proof. unfold key_eqb. rewrite <- kcmp_eq. by destruct (kcmp a b). Qed.

Lemma kcmp_gt_lt a b : kcmp a b = Gt -> kcmp b a = Lt.
Proof. intros E. by rewrite kcmp_antisym, E. Qed.

Lemma bt_get_insert_eq k v m : bt_get k (bt_insert k v m) = Some v.
Proof.
  induction m as [|[k' v'] m IH]; simpl; [by rewrite kcmp_refl|].
  destruct (kcmp k k') eqn:E; simpl; rewrite ?kcmp_refl, ?E; done.
Qed.

Lemma bt_sorted_tail k v m : bt_sorted ((k, v) :: m) = true -> bt_sorted m = true.
Proof. destruct m as [|[k' v'] m]; simpl; [done|]. by destruct (kcmp k k'). Qed.

Lemma bt_sorted_insert k v m : bt_sorted m = true -> bt_sorted (bt_insert k v m) = true.
Proof.
  induction m as [|[k' v'] m IH]; [done|]. intros Hs. cbn [bt_insert].
  destruct (kcmp k k') eqn:E.
  - apply kcmp_eq in E as ->. by destruct m as [|[??] ?].
  - cbn [bt_sorted]. rewrite E. done.
  - specialize (IH (bt_sorted_tail _ _ _ Hs)). destruct m as [|[k2 v2] m].
    + simpl. by rewrite (kcmp_gt_lt _ _ E).
    + cbn [bt_insert] in *. cbn [bt_sorted] in Hs. destruct (kcmp k' k2) eqn:E2; try done.
      destruct (kcmp k k2) eqn:E3; cbn [bt_sorted] in *.
      * by rewrite (kcmp_gt_lt _ _ E), IH.
      * by rewrite (kcmp_gt_lt _ _ E), E3.
      * by rewrite E2.
Qed.

Lemma bt_sorted_collect l : bt_sorted (bt_collect l) = true.
Proof.
  unfold bt_collect. assert (G : bt_sorted (@nil (K * V)) = true) by done. revert G.
  generalize (@nil (K * V)) as m. induction l as [|[k v] l IH]; intros m Hm; simpl; [done|].
  apply IH. by apply bt_sorted_insert.
Qed.

Lemma bt_get_insert_ne k k' v m : k <> k' -> bt_get k (bt_insert k' v m) = bt_get k m.
Proof.
  intros Hne. induction m as [|[k2 v2] m IH]; simpl.
  - destruct (kcmp k k') eqn:E; [by apply kcmp_eq in E|done|done].
  - destruct (kcmp k' k2) eqn:E2; simpl.
    + apply kcmp_eq in E2 as ->. destruct (kcmp k k2) eqn:E; [by apply kcmp_eq in E|done|done].
    + destruct (kcmp k k') eqn:E; [by apply kcmp_eq in E| |done].
      by rewrite (kcmp_trans _ _ _ E E2).
    + destruct (kcmp k k2); [done|done|apply IH].
Qed.

Lemma bt_get_elem k v m : bt_get k m = Some v -> (k, v) ∈ m.
Proof.
  induction m as [|[k' v'] m IH]; simpl; [done|].
  destruct (kcmp k k') eqn:E; [|done|].
  - apply kcmp_eq in E as ->. intros [= ->]. left.
  - intros ?. right. auto.
Qed.

(** Every key after the head is larger. *)
Lemma bt_sorted_head k v m : bt_sorted ((k, v) :: m) = true ->
  forall e, e ∈ m -> kcmp k (fst e) = Lt.
Proof.
  revert k v. induction m as [|[k' v'] m IH]; intros k v Hs e He; [by apply elem_of_nil in He|].
  cbn [bt_sorted] in Hs. destruct (kcmp k k') eqn:E; try done.
  apply elem_of_cons in He as [->|He]; [done|].
  apply (kcmp_trans _ k'); [done|]. by apply (IH k' v').
Qed.

Lemma bt_elem_get k v m : bt_sorted m = true -> (k, v) ∈ m -> bt_get k m = Some v.
Proof.
  induction m as [|[k' v'] m IH]; intros Hs He; [by apply elem_of_nil in He|].
  apply elem_of_cons in He as [[= -> ->]|He]; simpl; [by rewrite kcmp_refl|].
  pose proof (bt_sorted_head _ _ _ Hs _ He) as Hlt. simpl in Hlt.
  rewrite (kcmp_antisym k' k), Hlt. simpl. apply IH; [|done]. by eapply bt_sorted_tail.
Qed.

(** Sorted maps are determined by their lookups. *)
Lemma bt_ext m1 m2 : bt_sorted m1 = true -> bt_sorted m2 = true ->
  (forall k, bt_get k m1 = bt_get k m2) -> m1 = m2.
Proof.
  revert m2. induction m1 as [|[k1 v1] m1 IH]; intros [|[k2 v2] m2] H1 H2 Hx.
  - done.
  - specialize (Hx k2). simpl in Hx. by rewrite kcmp_refl in Hx.
  - specialize (Hx k1). simpl in Hx. by rewrite kcmp_refl in Hx.
  - assert (Hlt : forall k v k' v' m m', bt_sorted ((k, v) :: m) = true -> bt_sorted ((k', v') :: m') = true ->
      (forall x, bt_get x ((k, v) :: m) = bt_get x ((k', v') :: m')) -> kcmp k k' <> Lt).
    { intros k v k' v' m m' _ _ Hxx E. specialize (Hxx k). simpl in Hxx. by rewrite kcmp_refl, E in Hxx. }
    destruct (kcmp k1 k2) eqn:E.
    + apply kcmp_eq in E as ->. pose proof (Hx k2) as Hv. simpl in Hv. rewrite kcmp_refl in Hv.
      injection Hv as ->. f_equal.
      apply IH; [by eapply bt_sorted_tail|by eapply bt_sorted_tail|]. intros k. specialize (Hx k). simpl in Hx.
      destruct (kcmp k k2) eqn:Ek; [|clear Hx|done].
      * apply kcmp_eq in Ek as ->.
        destruct (bt_get k2 m1) eqn:G1; [apply bt_get_elem, (bt_sorted_head _ _ _ H1) in G1; simpl in G1;
          by rewrite kcmp_refl in G1|].
        destruct (bt_get k2 m2) eqn:G2; [apply bt_get_elem, (bt_sorted_head _ _ _ H2) in G2; simpl in G2;
          by rewrite kcmp_refl in G2|]. done.
      * assert (N : forall v m, bt_sorted ((k2, v) :: m) = true -> bt_get k m = None).
        { intros v m Hs. destruct (bt_get k m) eqn:G; [|done].
          apply bt_get_elem, (bt_sorted_head _ _ _ Hs) in G. simpl in G.
          pose proof (kcmp_trans _ _ _ G Ek) as Hc. by rewrite kcmp_refl in Hc. }
        by rewrite (N _ _ H1), (N _ _ H2).
    + by apply (Hlt _ _ _ _ _ _ H1 H2 Hx) in E.
    + apply kcmp_gt_lt in E. by apply (Hlt _ _ _ _ _ _ H2 H1 (fun x => eq_sym (Hx x))) in E.
Qed.

Lemma bt_sorted_cons k v m : bt_sorted m = true -> (forall e, e ∈ m -> kcmp k (fst e) = Lt) ->
  bt_sorted ((k, v) :: m) = true.
Proof. intros Hs Hk. destruct m as [|[k' v'] m]; [done|]. cbn [bt_sorted]. specialize (Hk (k', v') ltac:(left)). simpl in Hk. by rewrite Hk. Qed.

Lemma bt_sorted_remove k m : bt_sorted m = true -> bt_sorted (bt_remove k m) = true.
Proof.
  induction m as [|[k' v'] m IH]; intros Hs; [done|]. pose proof (bt_sorted_head _ _ _ Hs) as Hh.
  specialize (IH (bt_sorted_tail _ _ _ Hs)). unfold bt_remove in *. cbn [List.filter fst].
  destruct (key_eqb k k'); cbn [negb]; [done|]. apply bt_sorted_cons; [done|].
  intros e [He _]%list_elem_of_In%filter_In. by apply Hh, list_elem_of_In.
Qed.

Lemma bt_get_remove_eq k m : bt_get k (bt_remove k m) = None.
Proof.
  destruct (bt_get k (bt_remove k m)) as [v|] eqn:E; [|done].
  apply bt_get_elem, list_elem_of_In, filter_In in E as [_ E]. simpl in E.
  by rewrite (proj2 (key_eqb_eq k k) eq_refl) in E.
Qed.

Lemma bt_get_remove_ne k k' m : bt_sorted m = true -> k <> k' -> bt_get k (bt_remove k' m) = bt_get k m.
Proof.
  intros Hs Hne. pose proof (bt_sorted_remove k' m Hs) as Hr.
  assert (Hiff : forall v, bt_get k (bt_remove k' m) = Some v <-> bt_get k m = Some v).
  { intros v. split.
    - intros E. apply bt_get_elem, list_elem_of_In, filter_In in E as [E _]. by apply bt_elem_get, list_elem_of_In.
    - intros E. apply bt_elem_get; [done|]. apply list_elem_of_In, filter_In. split.
      + by apply list_elem_of_In, bt_get_elem.
      + simpl. rewrite negb_true_iff. apply not_true_iff_false. rewrite key_eqb_eq. congruence. }
  destruct (bt_get k m) as [v|] eqn:E; [by apply Hiff|].
  destruct (bt_get k (bt_remove k' m)) as [v|]; [symmetry; by apply Hiff|done].
Qed.

(** The maps that agree except possibly at one key. *)
Definition agree_except (k : K) (m m' : btree) : Prop :=
  bt_sorted m' = true /\ forall k', k' <> k -> bt_get k' m' = bt_get k' m.

Lemma agree_except_insert k v m m' : agree_except k m m' -> agree_except k m (bt_insert k v m').
Proof.
  intros [Hs Hg]. split; [by apply bt_sorted_insert|]. intros k' Hk. rewrite bt_get_insert_ne by done. by apply Hg.
Qed.

(** Putting back what was at the key restores the map. *)
Lemma agree_except_restore k m m' : bt_sorted m = true -> agree_except k m m' ->
  match bt_get k m with Some v => bt_insert k v m' | None => bt_remove k m' end = m.
Proof.
  intros Hs [Hs' Hg].
  destruct (bt_get k m) as [v|] eqn:E; apply bt_ext; auto using bt_sorted_insert, bt_sorted_remove;
    intros k'; destruct (key_eqb k' k) eqn:Ek.
  - apply key_eqb_eq in Ek as ->. by rewrite bt_get_insert_eq.
  - assert (k' <> k) by (intros ->; by rewrite (proj2 (key_eqb_eq k k) eq_refl) in Ek).
    rewrite bt_get_insert_ne by done. by apply Hg.
  - apply key_eqb_eq in Ek as ->. by rewrite bt_get_remove_eq.
  - assert (k' <> k) by (intros ->; by rewrite (proj2 (key_eqb_eq k k) eq_refl) in Ek).
    rewrite bt_get_remove_ne by done. by apply Hg.
Qed.

Lemma bt_insert_insert k v w m : bt_insert k v (bt_insert k w m) = bt_insert k v m.
Proof.
  induction m as [|[k' v'] m IH]; cbn [bt_insert]; [by rewrite kcmp_refl|].
  destruct (kcmp k k') eqn:E; cbn [bt_insert]; rewrite ?kcmp_refl, ?E; [done..|]. by rewrite IH.
Qed.

Lemma bt_collect_snoc l k v : bt_collect (l ++ [(k, v)]) = bt_insert k v (bt_collect l).
Proof. unfold bt_collect. by rewrite fold_left_app. Qed.

(** Collecting entries with distinct keys keeps exactly those entries. *)
Lemma bt_get_collect l k v : NoDup (map fst l) -> bt_get k (bt_collect l) = Some v <-> (k, v) ∈ l.
Proof.
  induction l as [|[k' v'] l IH] using rev_ind.
  { intros _. simpl. split; [done|by intros ?%not_elem_of_nil]. }
  rewrite map_app, NoDup_app, bt_collect_snoc, elem_of_app, list_elem_of_singleton.
  intros (Hd & Hx & _). specialize (IH Hd). destruct (kcmp k k') eqn:E.
  - apply kcmp_eq in E as ->. rewrite bt_get_insert_eq. split; [intros [= ->]; by right|].
    intros [Hin|[= ->]]; [|done]. exfalso. apply (Hx k'); [|simpl; left].
    apply list_elem_of_In. apply list_elem_of_In in Hin. by apply (in_map fst _ _ Hin).
  - assert (k <> k') by (intros ->; by rewrite kcmp_refl in E).
    rewrite bt_get_insert_ne by done. rewrite IH. split; [auto|]. intros [?|[= -> ->]]; done.
  - assert (k <> k') by (intros ->; by rewrite kcmp_refl in E).
    rewrite bt_get_insert_ne by done. rewrite IH. split; [auto|]. intros [?|[= -> ->]]; done.
Qed.

Lemma bt_sorted_nodup m : bt_sorted m = true -> NoDup (map fst m).
Proof.
  induction m as [|[k v] m IH]; intros Hs; [constructor|]. cbn [map fst]. constructor.
  - intros Hin. apply list_elem_of_In, in_map_iff in Hin as (e & He & Hin%list_elem_of_In).
    pose proof (bt_sorted_head _ _ _ Hs _ Hin) as Hlt. by rewrite He, kcmp_refl in Hlt.
  - apply IH. by eapply bt_sorted_tail.
Qed.

(** A map collected from its own entries is the same map. *)
Lemma bt_collect_sorted m : bt_sorted m = true -> bt_collect m = m.
Proof.
  intros Hs. apply bt_ext; [apply bt_sorted_collect|done|]. intros k. apply option_eq. intros v.
  rewrite bt_get_collect by (by apply bt_sorted_nodup). split; [by apply bt_elem_get|by apply bt_get_elem].
Qed.
End Map.
Arguments btree K V : clear implicits.

(** Comparing by a key is a total preorder. *)
Lemma kcmp_laws {K} `{KeyOrder K} : CmpLaws (kcmp (K:=K)).
Proof.
  split; [apply kcmp_refl|apply kcmp_antisym|]. intros a b c H1 H2.
  destruct (kcmp a b) eqn:E1; [|destruct (kcmp b c) eqn:E2|done].
  - apply kcmp_eq in E1 as ->. done.
  - apply kcmp_eq in E2 as ->. by rewrite E1.
  - by rewrite (kcmp_trans _ _ _ E1 E2).
  - done.
Qed.

Lemma key_cmp_laws {A K} `{KeyOrder K} (f : A -> K) : CmpLaws (fun a b => kcmp (f a) (f b)).
Proof.
  destruct (kcmp_laws (K:=K)) as [H1 H2 H3].
  split; [intros; apply H1|intros; apply H2|intros a b c; apply H3].
Qed.

#[export] Hint Resolve kcmp_laws key_cmp_laws : dol.

Lemma list_cmp_kcmp_eq {K} `{KeyOrder K} (a b : list K) : list_cmp kcmp a b = Eq -> a = b.
Proof.
  revert b. induction a as [|x a IH]; intros [|y b]; simpl; try done.
  destruct (kcmp x y) eqn:E; try done. apply kcmp_eq in E as ->. by intros ->%IH.
Qed.

(** Lists compare lexicographically. *)
#[export] Instance list_order {K} `{KeyOrder K} : KeyOrder (list K).
Proof.
  refine {| kcmp := list_cmp kcmp |}.
  - intros a b. split; [apply list_cmp_kcmp_eq|]. intros ->. by apply (cmp_refl _ (list_cmp_laws _ kcmp_laws)).
  - intros a b. by apply (cmp_antisym _ (list_cmp_laws _ kcmp_laws)).
  - intros a b c H1 H2. pose proof (list_cmp_laws _ (kcmp_laws (K:=K))) as LL.
    assert (H3 : list_cmp kcmp a c <> Gt) by (apply (cmp_trans _ LL a b c); by rewrite ?H1, ?H2).
    destruct (list_cmp kcmp a c) eqn:E; [|done|done]. apply list_cmp_kcmp_eq in E as ->.
    by rewrite (cmp_antisym _ LL c b), H1 in H2.
Defined.

(** ** Registries

    A table that keeps the first definition of every identity and rejects a
    different later one. *)
Section Registry.
Context {A K V : Type} `{KeyOrder K} (id : A -> K) (repr : A -> V) (canon : V -> V) (same : V -> A -> bool) (c : string).
Hypothesis same_spec : forall v a, same v a = true <-> canon v = repr a.
Hypothesis canon_repr : forall a, canon (repr a) = repr a.

Definition register (t : list (K * V)) (a : A) : Result (list (K * V)) :=
  match bt_get (id a) t with
  | Some existing => guard (same existing a) c ;;? Ok t
  | None => Ok (bt_insert (id a) (repr a) t)
  end.

Definition consistent (l : list A) : Prop :=
  forall a b, a ∈ l -> b ∈ l -> id a = id b -> repr a = repr b.

Lemma register_all l t :
  (exists t', foldR register l t = Ok t') <->
  consistent l /\ forall a v, a ∈ l -> bt_get (id a) t = Some v -> canon v = repr a.
Proof.
  revert t. induction l as [|x l IH]; intros t; simpl.
  { split; [|by eauto]. intros _. split; [intros a b Ha|intros a v Ha]; by apply not_elem_of_nil in Ha. }
  unfold register at 1. destruct (bt_get (id x) t) as [v|] eqn:G.
  - destruct (same v x) eqn:S; simpl.
    + apply same_spec in S. rewrite IH. split; intros [Hc Hk].
      * split.
        -- intros a b Ha Hb E. apply elem_of_cons in Ha as [->|Ha], Hb as [->|Hb]; auto.
           ++ by rewrite <- S, (Hk b v) by (done || congruence).
           ++ by rewrite <- S, (Hk a v) by (done || congruence).
        -- intros a v' Ha Hg. apply elem_of_cons in Ha as [->|Ha]; [congruence|eauto].
      * split; [intros a b Ha Hb|intros a v' Ha]; [apply Hc|apply Hk]; by right.
    + split; [by intros (? & ?)|]. intros [_ Hk]. exfalso.
      assert (same v x = true); [|congruence]. apply same_spec, Hk; [left|done].
  - simpl. rewrite IH. split; intros [Hc Hk].
    + assert (Ht : forall a, a ∈ l -> id a = id x -> repr a = repr x).
      { intros a Ha E. rewrite <- (Hk a (repr x) Ha); [apply canon_repr|]. rewrite E. apply bt_get_insert_eq. }
      split.
      * intros a b Ha Hb E. apply elem_of_cons in Ha as [->|Ha], Hb as [->|Hb]; auto. symmetry. auto.
      * intros a v Ha Hg. apply elem_of_cons in Ha as [->|Ha]; [congruence|].
        destruct (key_eqb (id a) (id x)) eqn:E.
        -- apply key_eqb_eq in E. congruence.
        -- apply (Hk a v Ha). rewrite bt_get_insert_ne; [done|]. intros E'. apply key_eqb_eq in E'. congruence.
    + split; [intros a b Ha Hb; apply Hc; by right|]. intros a v Ha.
      destruct (key_eqb (id a) (id x)) eqn:E.
      * apply key_eqb_eq in E. rewrite E, bt_get_insert_eq. intros [= <-]. rewrite canon_repr.
        symmetry. apply Hc; [by right|left|done].
      * rewrite bt_get_insert_ne; [apply Hk; by right|]. intros E'. apply key_eqb_eq in E'. congruence.
Qed.

(** From the empty table. *)
Lemma register_all_empty l : (exists t', foldR register l [] = Ok t') <-> consistent l.
Proof. rewrite register_all. split; [by intros []|]. intros Hc. split; [done|]. by intros a v _. Qed.
End Registry.

Section Sort.
Context {A : Type} (cmp : A -> A -> comparison).

(** An element goes before the first one that is not smaller, so elements
    that compare equal keep their order. *)
Fixpoint insert_by (x : A) (l : list A) : list A :=
  match l with
  | [] => [x]
  | y :: l' => match cmp x y with Gt => y :: insert_by x l' | _ => x :: l end
  end.

Definition sort_by (l : list A) : list A := foldr insert_by [] l.

Definition le_by (a b : A) : Prop := cmp a b <> Gt.

Lemma insert_by_perm x l : insert_by x l ≡ₚ x :: l.
Proof.
  induction l as [|y l IH]; simpl; [done|]. destruct (cmp x y); [done|done|].
  rewrite IH. constructor.
Qed.

Lemma sort_by_perm l : sort_by l ≡ₚ l.
Proof. induction l as [|x l IH]; simpl; [done|]. by rewrite insert_by_perm, IH. Qed.

Lemma sort_by_elem l x : x ∈ sort_by l <-> x ∈ l.
Proof. by rewrite sort_by_perm. Qed.

Lemma sort_by_length l : length (sort_by l) = length l.
Proof. by rewrite sort_by_perm. Qed.

Context (laws : CmpLaws cmp).

Lemma insert_by_sorted x l : StronglySorted le_by l -> StronglySorted le_by (insert_by x l).
Proof.
  induction 1 as [|y l Hs IH Hy]; simpl; [repeat constructor|].
  assert (Hle : cmp x y <> Gt -> StronglySorted le_by (x :: y :: l)).
  { intros Hxy. constructor; [by constructor|]. constructor; [done|].
    eapply Forall_impl; [done|]. intros z Hz. by eapply (cmp_trans _ laws). }
  destruct (cmp x y) eqn:E; [by apply Hle|by apply Hle|].
  constructor; [done|]. rewrite insert_by_perm. constructor; [|done].
  unfold le_by. by rewrite (cmp_gt_lt _ _ _ laws E).
Qed.

Lemma sort_by_sorted l : StronglySorted le_by (sort_by l).
Proof. induction l; simpl; [constructor|]. by apply insert_by_sorted. Qed.

(** A sorted list is unchanged. *)
Lemma sort_by_id l : StronglySorted le_by l -> sort_by l = l.
Proof.
  induction 1 as [|x l _ IH Hx]; simpl; [done|]. rewrite IH.
  destruct Hx as [|y l Hxy _]; simpl; [done|]. unfold le_by in Hxy. by destruct (cmp x y).
Qed.

Lemma sort_by_idemp l : sort_by (sort_by l) = sort_by l.
Proof. apply sort_by_id, sort_by_sorted. Qed.

(** Stability: the elements that compare equal to [x] keep their order. *)
Definition same_key (x y : A) : bool := match cmp x y with Eq => true | _ => false end.

Lemma insert_by_stable x y l :
  StronglySorted le_by l ->
  List.filter (same_key x) (insert_by y l) = List.filter (same_key x) (y :: l).
Proof.
  induction 1 as [|z l _ IH Hz]; simpl; [done|].
  destruct (cmp y z) eqn:E; [done|done|]. simpl. rewrite IH. simpl.
  unfold same_key. destruct (cmp x z) eqn:E1, (cmp x y) eqn:E2; try done.
  exfalso. assert (cmp y z = Eq); [|congruence].
  eapply (CmpLaws_trans_eq _ _ x); [done| |done]. by rewrite (cmp_antisym _ laws x y), E2.
Qed.

Lemma sort_by_stable x l : List.filter (same_key x) (sort_by l) = List.filter (same_key x) l.
Proof.
  induction l as [|y l IH]; simpl; [done|].
  rewrite insert_by_stable by apply sort_by_sorted. simpl. by rewrite IH.
Qed.

(** Two sorted permutations whose equal keys are equal elements coincide. *)
Lemma sorted_unique l1 l2 :
  StronglySorted le_by l1 -> StronglySorted le_by l2 -> l1 ≡ₚ l2 ->
  (forall a b, a ∈ l1 -> b ∈ l1 -> cmp a b = Eq -> a = b) -> l1 = l2.
Proof.
  revert l2. induction l1 as [|x l1 IH]; intros l2 H1 H2 Hp Hk.
  { by apply Permutation_nil_l in Hp. }
  destruct l2 as [|y l2]; [by apply Permutation_nil_r in Hp|].
  inversion_clear H1 as [|? ? S1 F1]. inversion_clear H2 as [|? ? S2 F2].
  assert (x = y) as ->.
  { assert (Hy : y ∈ x :: l1) by (rewrite Hp; left).
    assert (Hx : x ∈ y :: l2) by (rewrite <- Hp; left).
    apply elem_of_cons in Hx as [->|Hx]; [done|]. pose proof Hy as Hy'.
    apply elem_of_cons in Hy as [->|Hy]; [done|].
    apply Hk; [left|done|].
    rewrite Forall_forall in F1, F2. specialize (F1 _ Hy). specialize (F2 _ Hx).
    unfold le_by in *. rewrite (cmp_antisym _ laws x y) in F2. by destruct (cmp x y). }
  f_equal. apply IH; [done|done|by apply Permutation_cons_inv in Hp|].
  intros a b Ha Hb. apply Hk; by right.
Qed.

Lemma sort_by_unique l1 l2 :
  l1 ≡ₚ l2 -> (forall a b, a ∈ l1 -> b ∈ l1 -> cmp a b = Eq -> a = b) -> sort_by l1 = sort_by l2.
Proof.
  intros Hp Hk. apply sorted_unique; [apply sort_by_sorted..| |].
  - by rewrite !sort_by_perm.
  - intros a b. rewrite !sort_by_elem. apply Hk.
Qed.
End Sort.

(** Sorting elements among which the comparison is a total preorder. *)
Section SortOn.
Context {A : Type} (cmp : A -> A -> comparison) (P : A -> Prop).
Hypothesis antisym : forall a b, P a -> P b -> cmp b a = CompOpp (cmp a b).
Hypothesis trans : forall a b c, P a -> P b -> P c -> cmp a b <> Gt -> cmp b c <> Gt -> cmp a c <> Gt.

Lemma insert_by_sorted_on x l : P x -> Forall P l -> StronglySorted (le_by cmp) l -> StronglySorted (le_by cmp) (insert_by cmp x l).
Proof.
  intros Px Pl. induction 1 as [|y l Hs IH Hy]; simpl; [repeat constructor|]. apply Forall_cons in Pl as [Py Pl].
  assert (Hle : cmp x y <> Gt -> StronglySorted (le_by cmp) (x :: y :: l)).
  { intros Hxy. constructor; [by constructor|]. constructor; [done|].
    rewrite Forall_forall in Hy, Pl |- *. intros z Hz. eapply (trans x y z); auto. by apply Hy. }
  destruct (cmp x y) eqn:E; [by apply Hle|by apply Hle|].
  constructor; [auto|]. rewrite insert_by_perm. constructor; [|done].
  unfold le_by. by rewrite (antisym x y Px Py), E.
Qed.

Lemma sort_by_sorted_on l : Forall P l -> StronglySorted (le_by cmp) (sort_by cmp l).
Proof.
  induction 1 as [|x l Px Pl IH]; simpl; [constructor|]. apply insert_by_sorted_on; [done| |done].
  by rewrite sort_by_perm.
Qed.
End SortOn.

(** Sorting and mapping commute when the map preserves the comparison. *)
Lemma sort_by_map {A B} (f : A -> B) cmpA cmpB l :
  (forall a b, a ∈ l -> b ∈ l -> cmpA a b = cmpB (f a) (f b)) ->
  map f (sort_by cmpA l) = sort_by cmpB (map f l).
Proof.
  assert (Hi : forall x l, (forall b, b ∈ l -> cmpA x b = cmpB (f x) (f b)) ->
    map f (insert_by cmpA x l) = insert_by cmpB (f x) (map f l)).
  { clear. intros x l. induction l as [|y l IH]; intros H; simpl; [done|].
    rewrite <- (H y) by left. destruct (cmpA x y); simpl; [done|done|].
    rewrite IH; [done|]. intros; apply H; by right. }
  induction l as [|x l IH]; intros H; simpl; [done|].
  rewrite Hi, IH; [done| |].
  - intros a b Ha Hb. apply H; by right.
  - intros b. rewrite sort_by_elem. intros Hb. apply H; [left|by right].
Qed.

#[export] Hint Resolve sort_by_perm sort_by_sorted : dol.

Local Open Scope Z_scope.

Section Walk.
Context {A : Type} (children : A -> list A).

(** [visit nodes depth]: the limit checks of one iteration, [nodes] already
    counting the popped node. *)
Fixpoint walk (visit : Z -> Z -> Result unit) (fuel : nat) (stack : list (A * Z)) (nodes : Z)
  : Result Z :=
  match fuel with
  | O => Ok nodes
  | S fuel' =>
      match stack with
      | [] => Ok nodes
      | (x, depth) :: rest =>
          let nodes' := sat_add nodes 1 in
          visit nodes' depth ;;?
          walk visit fuel' (map (fun c => (c, sat_add depth 1)) (children x) ++ rest) nodes'
      end
  end.

Context (size : A -> nat) (height : A -> Z).
Hypothesis size_eq : forall x, size x = S (list_sum (map size (children x))).
Hypothesis height_eq : forall x,
  height x = foldr (fun c h => Z.max (1 + height c) h) 0 (children x).

Definition stack_size (s : list (A * Z)) : nat := list_sum (map (fun e => size (fst e)) s).

Lemma stack_size_push l d rest :
  stack_size (map (fun c => (c, d)) l ++ rest) = (list_sum (map size l) + stack_size rest)%nat.
Proof. unfold stack_size. rewrite map_app, map_map, list_sum_app. done. Qed.

Lemma height_children x d D :
  d <= D -> (d + height x <= D <-> Forall (fun c => d + 1 + height c <= D) (children x)).
Proof.
  intros Hd. rewrite height_eq. induction (children x) as [|c l IH]; simpl.
  - split; [constructor|lia].
  - rewrite Forall_cons, <- IH. lia.
Qed.

Lemma height_nonneg x : 0 <= height x.
Proof. rewrite height_eq. induction (children x); simpl; lia. Qed.

Context (visit : Z -> Z -> Result unit) (N D : Z).
Hypothesis visit_ok : forall n d, visit n d = Ok tt <-> n <= N /\ d <= D.
Hypothesis D_portable : D < u64_max.

(** With as much fuel as the stack has nodes, the loop succeeds exactly when
    the total node count and every depth are within the limits. *)
Lemma walk_spec fuel stack nodes m :
  (stack_size stack <= fuel)%nat ->
  nodes + Z.of_nat (stack_size stack) <= u64_max ->
  (walk visit fuel stack nodes = Ok m <->
   m = nodes + Z.of_nat (stack_size stack) /\
   (stack = [] \/ nodes + Z.of_nat (stack_size stack) <= N) /\
   Forall (fun e => snd e + height (fst e) <= D) stack).
Proof.
  revert stack nodes. induction fuel as [|fuel IH]; intros stack nodes Hf Hn.
  { destruct stack as [|[x d] rest].
    - simpl. split; [intros [= <-]; split_and!; [lia|auto|constructor]|intros (-> & _); f_equal; lia].
    - unfold stack_size in Hf. simpl in Hf. rewrite size_eq in Hf. lia. }
  destruct stack as [|[x d] rest]; simpl.
  { unfold stack_size. simpl. split; [intros [= <-]; split_and!; [lia|auto|constructor]|intros (-> & _); f_equal; lia]. }
  assert (Hs : stack_size ((x, d) :: rest) =
    S (stack_size (map (fun c => (c, sat_add d 1)) (children x) ++ rest))).
  { rewrite stack_size_push. unfold stack_size. simpl. rewrite size_eq. lia. }
  rewrite Hs in *. rewrite Nat2Z.inj_succ in *.
  assert (Hsat : sat_add nodes 1 = nodes + 1) by (unfold sat_add; lia). rewrite Hsat.
  rewrite rbind_ok. split.
  - intros ([] & Hv & Hw). apply visit_ok in Hv as [Hv1 Hv2].
    apply IH in Hw as (-> & Hor & Hall); [|lia|lia].
    assert (Hsd : sat_add d 1 = d + 1) by (unfold sat_add; lia). rewrite Hsd in Hall.
    apply Forall_app in Hall as [Hc Hr]. rewrite Forall_map in Hc.
    split_and!; [lia| |].
    + right. destruct Hor as [E|]; [|lia]. rewrite E. unfold stack_size. simpl. lia.
    + constructor; [|done]. simpl. apply height_children; [done|]. exact Hc.
  - intros (-> & [|Hle] & Hall); [done|].
    inversion_clear Hall as [|? ? Hx Hr]. simpl in Hx. pose proof (height_nonneg x).
    exists tt. split; [apply visit_ok; lia|].
    assert (Hsd : sat_add d 1 = d + 1) by (unfold sat_add; lia).
    apply IH; [lia|lia|]. split_and!; [lia|right; lia|].
    apply Forall_app. split; [|done]. rewrite Forall_map, Hsd.
    apply height_children; [lia|done].
Qed.
End Walk.

(** A walk with no limit counts the nodes. *)
Lemma walk_count {A} (children : A -> list A) (size : A -> nat) fuel stack nodes :
  (forall x, size x = S (list_sum (map size (children x)))) ->
  (stack_size size stack <= fuel)%nat -> nodes + Z.of_nat (stack_size size stack) <= u64_max ->
  walk children (fun _ _ => Ok tt) fuel stack nodes = Ok (nodes + Z.of_nat (stack_size size stack)).
Proof.
  intros size_eq. revert stack nodes. induction fuel as [|fuel IH]; intros stack nodes Hf Hn.
  - destruct stack as [|[x d] rest]; simpl; [f_equal; unfold stack_size; simpl; lia|].
    unfold stack_size in Hf. simpl in Hf. rewrite size_eq in Hf. lia.
  - destruct stack as [|[x d] rest]; simpl; [f_equal; unfold stack_size; simpl; lia|].
    assert (Hs : stack_size size ((x, d) :: rest) =
      S (stack_size size (map (fun c => (c, sat_add d 1)) (children x) ++ rest))).
    { rewrite stack_size_push. unfold stack_size. simpl. rewrite size_eq. lia. }
    rewrite Hs in *. rewrite Nat2Z.inj_succ in *.
    assert (Hsat : sat_add nodes 1 = nodes + 1) by (unfold sat_add; lia). rewrite Hsat.
    rewrite IH by lia. f_equal. lia.
Qed.
