(* ===== verification/Types.v ===== *)
(** * Semantic types ([crates/dol-core/src/types/def.rs], [types/validate.rs])

    The open type system: type definitions, their inferred properties, the
    canonical form, and the validators with their resource limits. *)
From Stdlib Require Import ZArith Lia.
From S2P Require Import Prelude BTree Text.

Local Open Scope Z_scope.

(** ** Data *)
Inductive TypeParameter :=
| TPBool (b : bool)
| TPInt (i : Z)
| TPUInt (u : Z)
| TPString (s : string).

Inductive Nullability := NonNull | Nullable.
Inductive Presence := Required | Optional.

Record TypeProperties := mkTypeProperties {
  equality : bool;
  ordering : bool;
  keyable : bool;
  numeric : bool;
  integral : bool;
  exact_numeric : bool;
  temporal : bool;
  collection : bool
}.

Inductive ScalarRepr :=
| RBool | RTruth | RInt (bits : Z) | RUInt (bits : Z) | RFloat32 | RFloat64 | RDecimal
| RChar | RString | RBytes | RUuid | RDate | RTime | RLocalDateTime | RInstant | RDuration.

Inductive TypeDef :=
| mkTypeDef (key : string) (version : Z) (shape : TypeShape) (nullability : Nullability)
    (properties : TypeProperties) (parameters : list (string * TypeParameter))
with TypeShape :=
| ShScalar (repr : ScalarRepr)
| ShList (element : TypeDef)
| ShMap (key value : TypeDef)
| ShTuple (elements : list TypeDef)
| ShRecord (fields : list RecordField)
with RecordField :=
| mkRecordField (name : string) (ty : TypeDef) (presence : Presence).

#[export] Instance TypeParameter_eq_dec : EqDecision TypeParameter.
Proof. solve_decision. Defined.
#[export] Instance Nullability_eq_dec : EqDecision Nullability.
Proof. solve_decision. Defined.
#[export] Instance Presence_eq_dec : EqDecision Presence.
Proof. solve_decision. Defined.
#[export] Instance TypeProperties_eq_dec : EqDecision TypeProperties.
Proof. solve_decision. Defined.
#[export] Instance ScalarRepr_eq_dec : EqDecision ScalarRepr.
Proof. solve_decision. Defined.

Definition ty_key (t : TypeDef) := let '(mkTypeDef k _ _ _ _ _) := t in k.
Definition ty_version (t : TypeDef) := let '(mkTypeDef _ v _ _ _ _) := t in v.
Definition ty_shape (t : TypeDef) := let '(mkTypeDef _ _ s _ _ _) := t in s.
Definition ty_nullability (t : TypeDef) := let '(mkTypeDef _ _ _ n _ _) := t in n.
Definition ty_properties (t : TypeDef) := let '(mkTypeDef _ _ _ _ p _) := t in p.
Definition ty_parameters (t : TypeDef) := let '(mkTypeDef _ _ _ _ _ ps) := t in ps.
Definition field_name (f : RecordField) := let '(mkRecordField n _ _) := f in n.
Definition field_ty (f : RecordField) := let '(mkRecordField _ t _) := f in t.
Definition field_presence (f : RecordField) := let '(mkRecordField _ _ p) := f in p.

Definition record_required (name : string) (ty : TypeDef) := mkRecordField name ty Required.
Definition record_optional (name : string) (ty : TypeDef) := mkRecordField name ty Optional.

(** ** Induction over the nested definition *)
Definition shape_children (s : TypeShape) : list TypeDef :=
  match s with
  | ShScalar _ => []
  | ShList e => [e]
  | ShMap k v => [k; v]
  | ShTuple es => es
  | ShRecord fs => map field_ty fs
  end.

Fixpoint type_ind' (P : TypeDef -> Prop)
  (H : forall k v s n p ps, Forall P (shape_children s) -> P (mkTypeDef k v s n p ps))
  (t : TypeDef) {struct t} : P t :=
  match t with
  | mkTypeDef k v s n p ps =>
      H k v s n p ps
        (match s return Forall P (shape_children s) with
         | ShScalar _ => Forall_nil_2 _
         | ShList e => Forall_cons_2 _ _ _ (type_ind' P H e) (Forall_nil_2 _)
         | ShMap a b => Forall_cons_2 _ _ _ (type_ind' P H a)
             (Forall_cons_2 _ _ _ (type_ind' P H b) (Forall_nil_2 _))
         | ShTuple es =>
             (fix go l : Forall P l := match l with
              | [] => Forall_nil_2 _
              | e :: l' => Forall_cons_2 _ _ _ (type_ind' P H e) (go l') end) es
         | ShRecord fs =>
             (fix go l : Forall P (map field_ty l) := match l with
              | [] => Forall_nil_2 _
              | mkRecordField _ e _ :: l' => Forall_cons_2 P e _ (type_ind' P H e) (go l') end) fs
         end)
  end.

(** ** Structural equality, [#[derive(PartialEq)]] *)
Definition forallb2 {A B} (f : A -> B -> bool) : list A -> list B -> bool :=
  fix go l1 l2 := match l1, l2 with
                  | [], [] => true
                  | x :: l1', y :: l2' => f x y && go l1' l2'
                  | _, _ => false
                  end.

Fixpoint type_eqb (a b : TypeDef) {struct a} : bool :=
  let '(mkTypeDef k1 v1 s1 n1 p1 ps1) := a in
  let '(mkTypeDef k2 v2 s2 n2 p2 ps2) := b in
  String.eqb k1 k2 && (v1 =? v2) && shape_eqb s1 s2 && bool_decide (n1 = n2) &&
  bool_decide (p1 = p2) && bool_decide (ps1 = ps2)
with shape_eqb (a b : TypeShape) {struct a} : bool :=
  match a, b with
  | ShScalar r1, ShScalar r2 => bool_decide (r1 = r2)
  | ShList e1, ShList e2 => type_eqb e1 e2
  | ShMap a1 b1, ShMap a2 b2 => type_eqb a1 a2 && type_eqb b1 b2
  | ShTuple l1, ShTuple l2 => forallb2 type_eqb l1 l2
  | ShRecord l1, ShRecord l2 => forallb2 field_eqb l1 l2
  | _, _ => false
  end
with field_eqb (a b : RecordField) {struct a} : bool :=
  let '(mkRecordField n1 t1 p1) := a in
  let '(mkRecordField n2 t2 p2) := b in
  String.eqb n1 n2 && type_eqb t1 t2 && bool_decide (p1 = p2).

(** ** Constructors and inferred properties *)
Definition properties_none : TypeProperties :=
  mkTypeProperties false false false false false false false false.

Definition scalar_properties (r : ScalarRepr) : TypeProperties :=
  match r with
  | RInt _ | RUInt _ => mkTypeProperties true true true true true true false false
  | RFloat32 | RFloat64 => mkTypeProperties true true false true false false false false
  | RDecimal => mkTypeProperties true true true true false true false false
  | RTruth => mkTypeProperties true false true false false false false false
  | RDate | RTime | RLocalDateTime | RInstant | RDuration =>
      mkTypeProperties true true true false false false true false
  | RBool | RChar | RString | RBytes | RUuid =>
      mkTypeProperties true true true false false false false false
  end.

Definition collection_properties (eq key : bool) : TypeProperties :=
  mkTypeProperties eq false key false false false false true.

Definition shape_properties (s : TypeShape) : TypeProperties :=
  match s with
  | ShScalar r => scalar_properties r
  | ShList e => collection_properties (equality (ty_properties e)) false
  | ShMap k v =>
      collection_properties (equality (ty_properties k) && equality (ty_properties v)) false
  | ShTuple es =>
      collection_properties (forallb (fun e => equality (ty_properties e)) es)
        (forallb (fun e => keyable (ty_properties e)) es)
  | ShRecord fs =>
      collection_properties (forallb (fun f => equality (ty_properties (field_ty f))) fs)
        (forallb (fun f => keyable (ty_properties (field_ty f))) fs)
  end.

Definition scalar (key : string) (version : Z) (r : ScalarRepr) : TypeDef :=
  mkTypeDef key version (ShScalar r) NonNull (scalar_properties r) [].

Definition field_cmp (a b : RecordField) : comparison := String.compare (field_name a) (field_name b).

(** [TypeDef::canonicalize]: record fields sorted by name, recursively. *)
Fixpoint canonicalize (t : TypeDef) : TypeDef :=
  let '(mkTypeDef k v s n p ps) := t in mkTypeDef k v (canonicalize_shape s) n p ps
with canonicalize_shape (s : TypeShape) : TypeShape :=
  match s with
  | ShScalar r => ShScalar r
  | ShList e => ShList (canonicalize e)
  | ShMap a b => ShMap (canonicalize a) (canonicalize b)
  | ShTuple es => ShTuple (map canonicalize es)
  | ShRecord fs => ShRecord (sort_by field_cmp (map canonicalize_field fs))
  end
with canonicalize_field (f : RecordField) : RecordField :=
  let '(mkRecordField n t p) := f in mkRecordField n (canonicalize t) p.

Definition shaped (key : string) (version : Z) (s : TypeShape) : TypeDef :=
  canonicalize (mkTypeDef key version s NonNull (shape_properties s) []).

Definition with_properties (t : TypeDef) (p : TypeProperties) : TypeDef :=
  let '(mkTypeDef k v s n _ ps) := t in mkTypeDef k v s n p ps.
Definition parameter (t : TypeDef) (name : string) (value : TypeParameter) : TypeDef :=
  let '(mkTypeDef k v s n p ps) := t in mkTypeDef k v s n p (bt_insert name value ps).
Definition with_nullability (t : TypeDef) (n : Nullability) : TypeDef :=
  let '(mkTypeDef k v s _ p ps) := t in mkTypeDef k v s n p ps.
Definition nullable (t : TypeDef) : TypeDef := with_nullability t Nullable.
Definition non_null (t : TypeDef) : TypeDef := with_nullability t NonNull.

Definition is_nullable (t : TypeDef) : bool :=
  match ty_nullability t with Nullable => true | NonNull => false end.

(** Everything but the nullability of the two root types. *)
Definition same_value_type (a b : TypeDef) : bool :=
  String.eqb (ty_key a) (ty_key b) && (ty_version a =? ty_version b) &&
  shape_eqb (ty_shape a) (ty_shape b) && bool_decide (ty_properties a = ty_properties b) &&
  bool_decide (ty_parameters a = ty_parameters b).

(** ** Limits ([crates/dol-core/src/limits/mod.rs]) *)
Record DefinitionLimits := mkDefinitionLimits {
  max_fields : Z;
  max_relations : Z;
  max_constraints : Z;
  max_type_depth : Z;
  max_type_nodes : Z;
  max_name_bytes : Z
}.

Definition default_definition_limits : DefinitionLimits :=
  mkDefinitionLimits 4096 4096 4096 64 16384 1024.

(** ** Validation *)
Fixpoint type_size (t : TypeDef) : nat :=
  let '(mkTypeDef _ _ s _ _ _) := t in
  S match s with
    | ShScalar _ => 0
    | ShList e => type_size e + 0
    | ShMap a b => type_size a + (type_size b + 0)
    | ShTuple es => list_sum (map type_size es)
    | ShRecord fs => list_sum (map (fun f => let '(mkRecordField _ e _) := f in type_size e) fs)
    end.

(** The one explicit-stack loop: the depth check, then the node count. *)
Definition structure_visit (limits : DefinitionLimits) (nodes depth : Z) : Result unit :=
  guard (negb (max_type_depth limits <? depth)) "TYPE-001" ;;?
  guard (negb (max_type_nodes limits <? nodes)) "TYPE-010".

Definition type_children (t : TypeDef) : list TypeDef := shape_children (ty_shape t).

Definition validate_structure_limits (root : TypeDef) (limits : DefinitionLimits) : Result unit :=
  walk type_children (structure_visit limits) (type_size root) [(root, 0)] 0 ;;? Ok tt.

(** [type_node_count] extends its stack in declaration order, so the last
    element is popped first. *)
Definition count_children (t : TypeDef) : list TypeDef :=
  match ty_shape t with
  | ShScalar _ => []
  | ShList e => [e]
  | ShMap k v => [k; v]
  | ShTuple es => rev es
  | ShRecord fs => rev (map field_ty fs)
  end.

Definition type_node_count (root : TypeDef) : Result Z :=
  walk count_children (fun _ _ => Ok tt) (type_size root) [(root, 0)] 0.

Definition validate_name (c value : string) (limits : DefinitionLimits) : Result unit :=
  guard (negb (is_empty_str value)) c ;;?
  guard (zstrlen value <=? max_name_bytes limits) c.

Definition slash_str : string := String slash EmptyString.

Definition type_key_form (value : string) : bool :=
  negb (str_starts_with value slash_str || str_ends_with value slash_str ||
        str_contains value (String slash slash_str) || negb (str_contains value slash_str) ||
        existsb is_control (chars value) || existsb is_whitespace (chars value)).

Definition validate_type_key (value : string) (limits : DefinitionLimits) : Result unit :=
  validate_name "TYPE-002" value limits ;;? guard (type_key_form value) "TYPE-013".

Definition validate_parameter (limits : DefinitionLimits) (p : string * TypeParameter) : Result unit :=
  validate_name "TYPE-011" (fst p) limits ;;?
  match snd p with
  | TPString value => guard (zstrlen value <=? max_name_bytes limits) "TYPE-012"
  | _ => Ok tt
  end.

Definition integer_width (bits : Z) : bool :=
  (bits =? 8) || (bits =? 16) || (bits =? 32) || (bits =? 64) || (bits =? 128).

Definition map_key_capable (key : TypeDef) : bool :=
  negb (is_nullable key || negb (equality (ty_properties key)) || negb (keyable (ty_properties key))).

Definition str_mem (s : string) (l : list string) : bool := existsb (String.eqb s) l.

Fixpoint validate_type_at_depth (t : TypeDef) (depth : Z) (limits : DefinitionLimits) : Result unit :=
  let '(mkTypeDef key version shape _ _ parameters) := t in
  guard (negb (max_type_depth limits <? depth)) "TYPE-001" ;;?
  validate_type_key key limits ;;?
  guard (negb (version =? 0)) "TYPE-007" ;;?
  forR (validate_parameter limits) parameters ;;?
  match shape with
  | ShScalar (RInt bits) | ShScalar (RUInt bits) => guard (integer_width bits) "TYPE-008"
  | ShScalar _ => Ok tt
  | ShList e => validate_type_at_depth e (depth + 1) limits
  | ShMap k v =>
      validate_type_at_depth k (depth + 1) limits ;;?
      validate_type_at_depth v (depth + 1) limits ;;?
      guard (map_key_capable k) "TYPE-009"
  | ShTuple es =>
      guard (zlen es <=? max_fields limits) "TYPE-003" ;;?
      forR (fun e => validate_type_at_depth e (depth + 1) limits) es
  | ShRecord fs =>
      guard (zlen fs <=? max_fields limits) "TYPE-004" ;;?
      foldR (fun names f =>
        let '(mkRecordField n e _) := f in
        validate_name "TYPE-005" n limits ;;?
        guard (negb (str_mem n names)) "TYPE-006" ;;?
        validate_type_at_depth e (depth + 1) limits ;;?
        Ok (n :: names)) fs [] ;;? Ok tt
  end.

Definition validate_type (t : TypeDef) (limits : DefinitionLimits) : Result unit :=
  validate_structure_limits t limits ;;? validate_type_at_depth t 0 limits.

(** ** The universe of named types *)
Definition known_types := list ((string * Z) * TypeDef).

Definition register_one (known : known_types) (t : TypeDef) : Result known_types :=
  let key := (ty_key t, ty_version t) in
  match bt_get key known with
  | Some existing => guard (same_value_type existing t) "TYPE-101" ;;? Ok known
  | None => Ok (bt_insert key (non_null t) known)
  end.

Fixpoint register_type_identity (t : TypeDef) (known : known_types) : Result known_types :=
  let? known := register_one known t in
  let '(mkTypeDef _ _ shape _ _ _) := t in
  match shape with
  | ShScalar _ => Ok known
  | ShList e => register_type_identity e known
  | ShMap k v => let? known := register_type_identity k known in register_type_identity v known
  | ShTuple es => foldR (fun known e => register_type_identity e known) es known
  | ShRecord fs =>
      foldR (fun known f => let '(mkRecordField _ e _) := f in register_type_identity e known) fs known
  end.

Definition validate_type_universe (types : list TypeDef) : Result unit :=
  foldR (fun known t => register_type_identity t known) types [] ;;? Ok tt.

(** ** Structural equality is equality *)
Lemma forallb2_eq {A} (f : A -> A -> bool) l1 l2 :
  Forall (fun x => forall y, f x y = true <-> x = y) l1 -> forallb2 f l1 l2 = true <-> l1 = l2.
Proof.
  intros H. revert l2. induction H as [|x l Hx _ IH]; intros [|y l2]; simpl; try done.
  rewrite andb_true_iff, (Hx _), IH. split; [by intros [-> ->]|by intros [= -> ->]].
Qed.

Lemma type_shape_eqb_eq s s' :
  Forall (fun a => forall b, type_eqb a b = true <-> a = b) (shape_children s) ->
  shape_eqb s s' = true <-> s = s'.
Proof.
  intros H. destruct s, s'; simpl in *; try (split; done).
  - rewrite bool_decide_eq_true. naive_solver.
  - rewrite Forall_singleton in H. rewrite (H _). naive_solver.
  - apply Forall_cons in H as [H1 H]. rewrite Forall_singleton in H.
    rewrite andb_true_iff, (H1 _), (H _). naive_solver.
  - rewrite forallb2_eq by done. naive_solver.
  - rewrite forallb2_eq; [naive_solver|]. rewrite Forall_map in H.
    eapply Forall_impl; [exact H|]. intros [n t0 pr] Ht [n' t' pr']; simpl in *.
    rewrite !andb_true_iff, String.eqb_eq, (Ht _), bool_decide_eq_true. naive_solver.
Qed.

Lemma type_eqb_eq a b : type_eqb a b = true <-> a = b.
Proof.
  revert b. induction a as [k v s n p ps IH] using type_ind'. intros [k' v' s' n' p' ps']; simpl.
  rewrite !andb_true_iff, String.eqb_eq, Z.eqb_eq, !bool_decide_eq_true.
  rewrite type_shape_eqb_eq by done.
  split; [by intros [[[[[-> ->] ->] ->] ->] ->]|by intros [= -> -> -> -> -> ->]].
Qed.

Lemma shape_eqb_eq s s' : shape_eqb s s' = true <-> s = s'.
Proof.
  apply type_shape_eqb_eq, Forall_forall. intros a _ b. apply type_eqb_eq.
Qed.

#[export] Instance TypeDef_eq_dec : EqDecision TypeDef.
Proof.
  intros a b. destruct (type_eqb a b) eqn:E.
  - left. by apply type_eqb_eq.
  - right. intros H%type_eqb_eq. congruence.
Defined.

Lemma same_value_type_eq a b : same_value_type a b = true <-> non_null a = non_null b.
Proof.
  destruct a, b. unfold same_value_type. simpl.
  rewrite !andb_true_iff, String.eqb_eq, Z.eqb_eq, !bool_decide_eq_true, shape_eqb_eq.
  split; [by intros [[[[-> ->] ->] ->] ->]|by intros [= -> -> -> -> ->]].
Qed.

(** ** Sizes and traversals *)
Fixpoint type_height (t : TypeDef) : Z :=
  let '(mkTypeDef _ _ s _ _ _) := t in
  match s with
  | ShScalar _ => 0
  | ShList e => Z.max (1 + type_height e) 0
  | ShMap a b => Z.max (1 + type_height a) (Z.max (1 + type_height b) 0)
  | ShTuple es => foldr (fun e h => Z.max (1 + type_height e) h) 0 es
  | ShRecord fs => foldr (fun f h => let '(mkRecordField _ e _) := f in Z.max (1 + type_height e) h) 0 fs
  end.

Lemma type_size_eq t : type_size t = S (list_sum (map type_size (type_children t))).
Proof.
  destruct t as [k v s n p ps]. unfold type_children. simpl. f_equal. destruct s; simpl; try lia.
  rewrite map_map. f_equal. apply map_ext. by intros [].
Qed.

Lemma type_height_eq t :
  type_height t = foldr (fun c h => Z.max (1 + type_height c) h) 0 (type_children t).
Proof.
  destruct t as [k v s n p ps]. unfold type_children. simpl. destruct s; simpl; try done.
  induction fields as [|[] l IH]; simpl; [done|]. by rewrite IH.
Qed.

Lemma list_sum_rev l : list_sum (rev l) = list_sum l.
Proof. induction l as [|x l IH]; simpl; [done|]. rewrite list_sum_app. simpl. lia. Qed.

Lemma type_size_count t : type_size t = S (list_sum (map type_size (count_children t))).
Proof.
  rewrite type_size_eq. unfold type_children, count_children. f_equal.
  destruct (ty_shape t); simpl; try done; by rewrite map_rev, list_sum_rev.
Qed.

Lemma structure_visit_ok limits n d :
  structure_visit limits n d = Ok tt <-> n <= max_type_nodes limits /\ d <= max_type_depth limits.
Proof.
  unfold structure_visit, guard.
  destruct (Z.ltb_spec (max_type_depth limits) d), (Z.ltb_spec (max_type_nodes limits) n); simpl;
    split; try done; lia.
Qed.

Lemma validate_structure_limits_ok t limits :
  max_type_depth limits < u64_max -> Z.of_nat (type_size t) <= u64_max ->
  (validate_structure_limits t limits = Ok tt <->
   Z.of_nat (type_size t) <= max_type_nodes limits /\ type_height t <= max_type_depth limits).
Proof.
  intros HD HN. unfold validate_structure_limits.
  assert (Hs : stack_size type_size [(t, 0)] = type_size t) by (unfold stack_size; simpl; lia).
  pose proof (fun m => walk_spec type_children type_size type_height type_size_eq type_height_eq
    (structure_visit limits) (max_type_nodes limits) (max_type_depth limits)
    (structure_visit_ok limits) HD (type_size t) [(t, 0)] 0 m) as W.
  rewrite Hs in W. split.
  - intros (m & Hw & _)%rbind_ok. apply W in Hw as (_ & [|H] & Hf); [done| |lia|lia].
    rewrite Forall_singleton in Hf. simpl in Hf. lia.
  - intros [H1 H2]. rewrite (proj2 (W (Z.of_nat (type_size t)) ltac:(lia) ltac:(lia))); [done|].
    split_and!; [lia|right; lia|]. rewrite Forall_singleton. simpl. lia.
Qed.

(** ** The canonical form *)
Lemma field_cmp_laws : CmpLaws field_cmp.
Proof. exact (key_cmp_laws (K:=string) field_name). Qed.

#[export] Hint Resolve field_cmp_laws : dol.

Lemma canonicalize_field_name f : field_name (canonicalize_field f) = field_name f.
Proof. by destruct f. Qed.

(** ** Subterms *)
Fixpoint subtypes (t : TypeDef) : list TypeDef :=
  let '(mkTypeDef _ _ s _ _ _) := t in
  t :: match s with
       | ShScalar _ => []
       | ShList e => subtypes e
       | ShMap a b => subtypes a ++ subtypes b
       | ShTuple es => flat_map subtypes es
       | ShRecord fs => flat_map (fun f => let '(mkRecordField _ e _) := f in subtypes e) fs
       end.

Lemma subtypes_eq t : subtypes t = t :: flat_map subtypes (type_children t).
Proof.
  destruct t as [k v s n p ps]. unfold type_children. simpl. f_equal. destruct s; simpl.
  - done.
  - by rewrite app_nil_r.
  - by rewrite app_nil_r.
  - done.
  - induction fields as [|[] l IH]; simpl; [done|]. by rewrite IH.
Qed.

(** ** What a valid type definition is *)
Definition name_ok (limits : DefinitionLimits) (s : string) : Prop :=
  s <> ""%stdpp /\ zstrlen s <= max_name_bytes limits.

Definition parameter_ok (limits : DefinitionLimits) (p : string * TypeParameter) : Prop :=
  name_ok limits (fst p) /\
  match snd p with TPString v => zstrlen v <= max_name_bytes limits | _ => True end.

Definition shape_ok (limits : DefinitionLimits) (s : TypeShape) : Prop :=
  match s with
  | ShScalar (RInt bits) | ShScalar (RUInt bits) => bits ∈ [8; 16; 32; 64; 128]
  | ShScalar _ | ShList _ => True
  | ShMap k _ =>
      ty_nullability k = NonNull /\ equality (ty_properties k) = true /\ keyable (ty_properties k) = true
  | ShTuple es => zlen es <= max_fields limits
  | ShRecord fs =>
      zlen fs <= max_fields limits /\ NoDup (map field_name fs) /\
      Forall (name_ok limits) (map field_name fs)
  end.

Definition node_ok (limits : DefinitionLimits) (t : TypeDef) : Prop :=
  name_ok limits (ty_key t) /\ type_key_form (ty_key t) = true /\ ty_version t <> 0 /\
  Forall (parameter_ok limits) (ty_parameters t) /\ shape_ok limits (ty_shape t).

Lemma validate_name_ok c s limits : validate_name c s limits = Ok tt <-> name_ok limits s.
Proof.
  unfold validate_name, name_ok. autorewrite with dol. rewrite Z.leb_le, negb_true_iff.
  destruct s; simpl; naive_solver.
Qed.

Lemma validate_parameter_ok limits p : validate_parameter limits p = Ok tt <-> parameter_ok limits p.
Proof.
  unfold validate_parameter, parameter_ok. autorewrite with dol. rewrite validate_name_ok.
  destruct (snd p); autorewrite with dol; rewrite ?Z.leb_le; naive_solver.
Qed.

Lemma integer_width_ok bits : integer_width bits = true <-> bits ∈ [8; 16; 32; 64; 128].
Proof.
  unfold integer_width. rewrite !orb_true_iff, !Z.eqb_eq, !elem_of_cons, elem_of_nil. naive_solver.
Qed.

Lemma map_key_capable_ok k :
  map_key_capable k = true <->
  ty_nullability k = NonNull /\ equality (ty_properties k) = true /\ keyable (ty_properties k) = true.
Proof.
  unfold map_key_capable, is_nullable. destruct (ty_nullability k), (equality _), (keyable _); naive_solver.
Qed.

Lemma str_mem_elem s l : str_mem s l = true <-> s ∈ l.
Proof.
  unfold str_mem. rewrite existsb_exists. setoid_rewrite String.eqb_eq.
  rewrite list_elem_of_In. naive_solver.
Qed.

Lemma validate_field_ok (checked : Result unit) limits n names s :
  (validate_name "TYPE-005" n limits ;;?
   guard (negb (str_mem n names)) "TYPE-006" ;;? checked ;;? Ok (n :: names)) = Ok s <->
  name_ok limits n /\ n ∉ names /\ checked = Ok tt /\ s = n :: names.
Proof.
  rewrite check_then, validate_name_ok, check_then, check_ok, check_then, negb_true_iff.
  rewrite <- str_mem_elem. destruct (str_mem n names); naive_solver.
Qed.

(** The record case: the names seen so far grow by one per field. *)
Lemma validate_fields_ok (check : TypeDef -> Result unit) limits fs seen r :
  foldR (fun names f =>
    let '(mkRecordField n e _) := f in
    validate_name "TYPE-005" n limits ;;?
    guard (negb (str_mem n names)) "TYPE-006" ;;?
    check e ;;? Ok (n :: names)) fs seen = Ok r <->
  r = rev (map field_name fs) ++ seen /\ NoDup (map field_name fs) /\
  Forall (fun n => n ∉ seen) (map field_name fs) /\
  Forall (name_ok limits) (map field_name fs) /\ Forall (fun f => check (field_ty f) = Ok tt) fs.
Proof.
  revert seen. induction fs as [|[n e p] fs IH]; intros seen; simpl.
  { split; [intros [= <-]; split_and!; auto; constructor|by intros (-> & _)]. }
  rewrite rbind_ok. setoid_rewrite validate_field_ok. split.
  - intros (s & (Hn & Hs & Hc & ->) & (-> & Hd & Hf & Ho & Hk)%IH).
    rewrite !Forall_cons, NoDup_cons, <- app_assoc. simpl.
    rewrite Forall_forall in Hf. split_and!; try done.
    + intros Hin. apply (Hf _ Hin). left.
    + apply Forall_forall. intros m Hin Hse. apply (Hf _ Hin). by right.
  - rewrite !Forall_cons, NoDup_cons. intros (-> & [Hnd Hd] & [Hs Hf] & [Hn Ho] & Hc & Hk).
    exists (n :: seen). split_and!; try done. apply IH. rewrite <- app_assoc. simpl.
    split_and!; try done. rewrite Forall_forall in Hf |- *. intros m Hin.
    rewrite elem_of_cons. intros [->|?]; [done|]. by apply (Hf m).
Qed.

Lemma Forall_flat_map {A B} (P : B -> Prop) (f : A -> list B) l :
  Forall P (flat_map f l) <-> Forall (fun x => Forall P (f x)) l.
Proof. induction l; simpl; [split; constructor|]. by rewrite Forall_app, Forall_cons, IHl. Qed.

(** The children's checks as one statement about the children. *)
Definition checked_below (limits : DefinitionLimits) (d : Z) (t : TypeDef) : Prop :=
  Forall (node_ok limits) (subtypes t) /\ d + type_height t <= max_type_depth limits.

Lemma checked_below_eq limits d t : 
  checked_below limits d t <->
  d <= max_type_depth limits /\ node_ok limits t /\
  Forall (checked_below limits (d + 1)) (type_children t).
Proof.
  unfold checked_below at 1. rewrite subtypes_eq, Forall_cons, Forall_flat_map.
  pose proof (height_nonneg type_children type_height type_height_eq t).
  pose proof (height_children type_children type_height type_height_eq t d (max_type_depth limits)).
  unfold checked_below. rewrite Forall_and. split; [|naive_solver].
  intros [[? ?] Hh]. assert (d <= max_type_depth limits) by lia. naive_solver.
Qed.

Lemma validate_shape_ok limits d (shape : TypeShape) :
  Forall (fun c => validate_type_at_depth c (d + 1) limits = Ok tt <->
                   checked_below limits (d + 1) c) (shape_children shape) ->
  (match shape with
  | ShScalar (RInt bits) | ShScalar (RUInt bits) => guard (integer_width bits) "TYPE-008"
  | ShScalar _ => Ok tt
  | ShList e => validate_type_at_depth e (d + 1) limits
  | ShMap k v =>
      validate_type_at_depth k (d + 1) limits ;;?
      validate_type_at_depth v (d + 1) limits ;;?
      guard (map_key_capable k) "TYPE-009"
  | ShTuple es =>
      guard (zlen es <=? max_fields limits) "TYPE-003" ;;?
      forR (fun e => validate_type_at_depth e (d + 1) limits) es
  | ShRecord fs =>
      guard (zlen fs <=? max_fields limits) "TYPE-004" ;;?
      foldR (fun names f =>
        let '(mkRecordField n e _) := f in
        validate_name "TYPE-005" n limits ;;?
        guard (negb (str_mem n names)) "TYPE-006" ;;?
        validate_type_at_depth e (d + 1) limits ;;?
        Ok (n :: names)) fs [] ;;? Ok tt
  end) = Ok tt <-> shape_ok limits shape /\ Forall (checked_below limits (d + 1)) (shape_children shape).
Proof.
  intros H. destruct shape as [r|e|k v|es|fs]; simpl in *.
  - destruct r; rewrite ?check_ok, ?integer_width_ok;
      (split; [intros ?; split; [done|constructor]|by intros []]).
  - rewrite Forall_singleton in *. tauto.
  - rewrite Forall_cons, Forall_singleton in *. destruct H as [H1 H2].
    rewrite !check_then, H1, H2, check_ok, map_key_capable_ok. tauto.
  - rewrite check_then, check_ok, forR_ok, Z.leb_le. apply and_iff_compat_l.
    by apply Forall_iff_in.
  - rewrite check_then, check_ok, Z.leb_le. 
    assert (E : Forall (fun f => validate_type_at_depth (field_ty f) (d + 1) limits = Ok tt) fs <->
      Forall (checked_below limits (d + 1)) (map field_ty fs))
      by (rewrite Forall_map in H |- *; by apply Forall_iff_in).
    rewrite <- E. split.
    + intros [Hl (r & Hf & _)%rbind_ok].
      by apply (validate_fields_ok (fun e => validate_type_at_depth e (d + 1) limits)) in Hf
        as (_ & Hd & _ & Ho & Hc).
    + intros [(Hl & Hd & Ho) Hc]. split; [done|]. apply rbind_ok. eexists. split; [|done].
      apply (validate_fields_ok (fun e => validate_type_at_depth e (d + 1) limits)).
      split_and!; try done. apply Forall_forall. intros ? _. apply not_elem_of_nil.
Qed.

Lemma validate_type_at_depth_ok limits t d :
  validate_type_at_depth t d limits = Ok tt <-> checked_below limits d t.
Proof.
  revert d. induction t as [k v s n p ps IH] using type_ind'. intros d.
  rewrite checked_below_eq. unfold type_children, node_ok. cbn [validate_type_at_depth ty_shape ty_key
    ty_version ty_parameters].
  rewrite check_then, check_ok, check_then. unfold validate_type_key at 1.
  rewrite check_then, validate_name_ok, check_ok, check_then, check_ok, check_then, forR_ok.
  rewrite validate_shape_ok by (eapply Forall_impl; [exact IH|]; auto).
  rewrite !negb_true_iff, Z.ltb_ge, Z.eqb_neq.
  assert (Forall (fun x => validate_parameter limits x = Ok tt) ps <-> Forall (parameter_ok limits) ps) as ->
    by (rewrite !Forall_forall; setoid_rewrite validate_parameter_ok; done).
  tauto.
Qed.

(** ** The canonical form is a normal form *)
Lemma map_id_in {A} (f : A -> A) l : Forall (fun x => f x = x) l -> map f l = l.
Proof. induction 1; simpl; congruence. Qed.

Lemma canonicalize_fields_idem fs :
  Forall (fun t => canonicalize (canonicalize t) = canonicalize t) (map field_ty fs) ->
  map canonicalize_field (map canonicalize_field fs) = map canonicalize_field fs.
Proof.
  rewrite Forall_map. induction 1 as [|[n t p] fs Ht _ IH]; simpl; [done|].
  simpl in Ht. by rewrite Ht, IH.
Qed.

Lemma canonicalize_fields_sort fs :
  map canonicalize_field (sort_by field_cmp fs) = sort_by field_cmp (map canonicalize_field fs).
Proof.
  apply sort_by_map. intros a b _ _. unfold field_cmp. by rewrite !canonicalize_field_name.
Qed.

Lemma canonicalize_idem_aux t : canonicalize (canonicalize t) = canonicalize t.
Proof.
  induction t as [k v s n p ps IH] using type_ind'. simpl. f_equal.
  destruct s; simpl in *; [done| | | |].
  - rewrite Forall_singleton in IH. by rewrite IH.
  - rewrite Forall_cons, Forall_singleton in IH. by destruct IH as [-> ->].
  - f_equal. rewrite map_map. apply map_ext_in. intros x Hx.
    rewrite Forall_forall in IH. apply IH. by apply list_elem_of_In.
  - f_equal. rewrite canonicalize_fields_sort, canonicalize_fields_idem by done.
    apply sort_by_idemp, field_cmp_laws.
Qed.

Lemma field_names_canonical fs :
  map field_name (map canonicalize_field fs) = map field_name fs.
Proof. rewrite map_map. apply map_ext, canonicalize_field_name. Qed.

Lemma NoDup_map_inj {A B} (f : A -> B) l a b :
  NoDup (map f l) -> a ∈ l -> b ∈ l -> f a = f b -> a = b.
Proof.
  intros Hd Ha Hb E. induction l as [|x l IH]; [by apply not_elem_of_nil in Ha|].
  simpl in Hd. apply NoDup_cons in Hd as [Hx Hd].
  assert (Hin : forall y, y ∈ l -> f y ∈ map f l)
    by (intros; apply (list_elem_of_fmap_2 f); done).
  apply elem_of_cons in Ha as [->|Ha]; apply elem_of_cons in Hb as [->|Hb]; auto.
  - exfalso. apply Hx. rewrite E. auto.
  - exfalso. apply Hx. rewrite <- E. auto.
Qed.

(** ** The universe of named types *)
Lemma register_type_identity_eq t known :
  register_type_identity t known = foldR register_one (subtypes t) known.
Proof.
  revert known. induction t as [k v s n p ps IH] using type_ind'. intros known.
  rewrite subtypes_eq. unfold type_children. cbn [register_type_identity foldR ty_shape].
  destruct (register_one known _) as [known'|]; simpl; [|done]. clear known.
  destruct s; simpl in *.
  - done.
  - rewrite Forall_singleton in IH. by rewrite app_nil_r.
  - rewrite Forall_cons, Forall_singleton in IH. destruct IH as [IH1 IH2].
    rewrite app_nil_r, foldR_app, IH1. destruct (foldR _ (subtypes key) known'); simpl; auto.
  - rewrite <- (foldR_flat_map register_one subtypes). apply foldR_ext.
    rewrite Forall_forall in IH. auto.
  - rewrite <- (foldR_flat_map register_one subtypes), foldR_map. apply foldR_ext.
    rewrite Forall_map, Forall_forall in IH. intros [n0 e0 p0] s0 Hin. exact (IH _ Hin s0).
Qed.

Definition identity (t : TypeDef) : string * Z := (ty_key t, ty_version t).

(** Two occurrences of one identity agree on everything but nullability. *)
Definition coherent (l : list TypeDef) : Prop := consistent identity non_null l.

Lemma non_null_idem t : non_null (non_null t) = non_null t.
Proof. by destruct t. Qed.

Lemma validate_type_universe_coherent types :
  validate_type_universe types = Ok tt <-> coherent (flat_map subtypes types).
Proof.
  unfold validate_type_universe.
  rewrite (foldR_ext _ (fun s x => foldR register_one (subtypes x) s))
    by (intros; apply register_type_identity_eq).
  rewrite foldR_flat_map. rewrite (foldR_ext _ (register identity non_null same_value_type "TYPE-101")) by done.
  unfold coherent. rewrite <- (register_all_empty identity non_null non_null same_value_type "TYPE-101"
    same_value_type_eq non_null_idem).
  split; [intros (k & Hk & _)%rbind_ok; eauto|intros (k & ->); done].
Qed.

(** ** Properties *)

(** [validate_type] accepts a definition exactly when its node count and
    its nesting depth are within the limits and every node of it is well
    formed: key, version, parameters, integer width, map key capability,
    width limits, and distinct valid field names. *)
Theorem validate_type_exact t limits :
  max_type_depth limits < u64_max -> Z.of_nat (type_size t) <= u64_max ->
  (validate_type t limits = Ok tt <->
   Z.of_nat (type_size t) <= max_type_nodes limits /\ type_height t <= max_type_depth limits /\
   Forall (node_ok limits) (subtypes t)).
Proof.
  intros HD HN. unfold validate_type.
  rewrite check_then, validate_structure_limits_ok, validate_type_at_depth_ok by done.
  unfold checked_below. rewrite Z.add_0_l. tauto.
Qed.

Definition sample_record : TypeDef :=
  shaped "app/user" 1 (ShRecord
    [record_required "name" (scalar "dol/string" 1 RString);
     record_optional "age" (nullable (scalar "dol/int32" 1 (RInt 32)))]).

Lemma validate_type_exact_witness :
  validate_type sample_record default_definition_limits = Ok tt /\
  Forall (node_ok default_definition_limits) (subtypes sample_record).
Proof.
  assert (H : validate_type sample_record default_definition_limits = Ok tt)
    by (vm_compute; reflexivity).
  split; [exact H|].
  apply (validate_type_exact sample_record default_definition_limits) in H;
    [exact (proj2 (proj2 H))|vm_compute; reflexivity|vm_compute; discriminate].
Defined.

(** Canonicalisation is idempotent: a canonical definition is its own
    canonical form. *)
Theorem canonicalize_idempotent t : canonicalize (canonicalize t) = canonicalize t.
Proof. apply canonicalize_idem_aux. Qed.

(** The declaration order of record fields is not semantic: two
    declarations of the same distinctly named fields give the same type. *)
Theorem record_order_insensitive key version fs fs' :
  NoDup (map field_name fs) -> fs ≡ₚ fs' ->
  shaped key version (ShRecord fs) = shaped key version (ShRecord fs').
Proof.
  intros Hd Hp. unfold shaped. simpl. f_equal.
  - f_equal. apply sort_by_unique; [apply field_cmp_laws|by apply Permutation_map|].
    intros a b Ha Hb E. eapply (NoDup_map_inj field_name); [|done|done|].
    + by rewrite field_names_canonical.
    + by apply (kcmp_eq (K:=string)).
  - assert (Hall : forall p, forallb p fs = forallb p fs').
    { intros p. apply eq_true_iff_eq. rewrite !forallb_forall. setoid_rewrite <- list_elem_of_In.
      by setoid_rewrite Hp. }
    by rewrite !Hall.
Qed.

Lemma record_order_insensitive_witness :
  shaped "app/p" 1 (ShRecord [record_required "x" (scalar "dol/bool" 1 RBool);
                              record_optional "y" (scalar "dol/char" 1 RChar)]) =
  shaped "app/p" 1 (ShRecord [record_optional "y" (scalar "dol/char" 1 RChar);
                              record_required "x" (scalar "dol/bool" 1 RBool)]).
Proof.
  apply record_order_insensitive; [|apply Permutation_swap].
  apply (bool_decide_unpack _). vm_compute. exact I.
Defined.

(** [validate_type_universe] accepts a set of definitions exactly when any
    two occurrences of one (key, version), at any depth, agree on everything
    but nullability. *)
Theorem validate_type_universe_exact types :
  validate_type_universe types = Ok tt <->
  (forall a b, a ∈ flat_map subtypes types -> b ∈ flat_map subtypes types ->
     ty_key a = ty_key b -> ty_version a = ty_version b -> non_null a = non_null b).
Proof.
  rewrite validate_type_universe_coherent. unfold coherent, consistent, identity. split.
  - intros H a b Ha Hb E1 E2. apply H; congruence.
  - intros H a b Ha Hb [= E1 E2]. by apply H.
Qed.

(** [type_node_count] counts every node of the definition. *)
Theorem type_node_count_exact t :
  Z.of_nat (type_size t) <= u64_max -> type_node_count t = Ok (zlen (subtypes t)).
Proof.
  intros H. assert (E : length (subtypes t) = type_size t).
  { clear H. induction t as [k v s n p ps IH] using type_ind'.
    rewrite subtypes_eq, type_size_eq. simpl. f_equal. unfold type_children. simpl.
    induction IH as [|c l Hc _ IH]; simpl; [done|]. rewrite length_app, Hc, IH. done. }
  assert (Hs : stack_size type_size [(t, 0)] = type_size t) by (unfold stack_size; simpl; lia).
  unfold type_node_count. rewrite (walk_count _ type_size);
    rewrite ?Hs; [unfold zlen; by rewrite E|apply type_size_count|done|lia].
Qed.

Lemma type_node_count_exact_witness : type_node_count sample_record = Ok 3.
Proof. apply (type_node_count_exact sample_record). vm_compute. discriminate. Defined.
