(* ===== verification/Values.v ===== *)
(** * Logical values and datums ([crates/dol-core/src/value])

    Owned values, their IEEE- and set-flavoured equality, the deterministic
    execution order, payload sizes and validation against a semantic type. *)
From Stdlib Require Import ZArith Lia.
From S2P Require Import Prelude Floats Foreign Truth BTree Types.

Local Open Scope Z_scope.

Section Data.
Context {F : Foreign}.

Inductive Value :=
| VBool (b : bool) | VTruth (t : Truth) | VInt (i : Z) | VUInt (u : Z)
| VFloat32 (bits : Z) | VFloat64 (bits : Z) | VDecimal (d : Decimal)
| VChar (c : Z) | VString (s : string) | VBytes (b : list Z) | VUuid (u : Uuid)
| VDate (d : Date) | VTime (t : TimeOfDay) | VLocalDateTime (l : LocalDateTime)
| VInstant (i : Instant) | VDuration (d : Duration)
| VList (l : list Datum) | VMap (l : list (Datum * Datum)) | VTuple (l : list Datum)
| VRecord (m : list (string * Datum))
with Datum := Missing | Null | DValue (v : Value).

(** ** Induction over nested values *)
Definition value_children (v : Value) : list Datum :=
  match v with
  | VList l | VTuple l => l
  | VMap l => flat_map (fun e => [fst e; snd e]) l
  | VRecord m => map snd m
  | _ => []
  end.

Definition on_datum (P : Value -> Prop) (d : Datum) : Prop :=
  match d with DValue v => P v | _ => True end.

Fixpoint value_ind' (P : Value -> Prop)
  (H : forall v, Forall (on_datum P) (value_children v) -> P v) (v : Value) {struct v} : P v :=
  let on d : on_datum P d := match d with DValue w => value_ind' P H w | _ => I end in
  let fix go l : Forall (on_datum P) l :=
    match l with
    | [] => Forall_nil_2 _
    | d :: l' => Forall_cons_2 _ d l' (on d) (go l')
    end in
  H v (match v return Forall (on_datum P) (value_children v) with
       | VList l => go l
       | VTuple l => go l
       | VMap l =>
           (fix gom l : Forall (on_datum P) (flat_map (fun e => [fst e; snd e]) l) :=
              match l with
              | [] => Forall_nil_2 _
              | (a, b) :: l' => Forall_cons_2 _ a _ (on a) (Forall_cons_2 _ b _ (on b) (gom l'))
              end) l
       | VRecord m =>
           (fix gor l : Forall (on_datum P) (map snd l) :=
              match l with
              | [] => Forall_nil_2 _
              | (_, b) :: l' => Forall_cons_2 _ b _ (on b) (gor l')
              end) m
       | _ => Forall_nil_2 _
       end).

(** ** Equality ([impl PartialEq for Value], [#[derive(PartialEq)] Datum]) *)
Definition bytes_eqb (a b : list Z) : bool := forallb2 Z.eqb a b.

Fixpoint value_eqb (a b : Value) {struct a} : bool :=
  match a, b with
  | VBool x, VBool y => Bool.eqb x y
  | VTruth x, VTruth y => Truth.eqb x y
  | VInt x, VInt y | VUInt x, VUInt y => x =? y
  | VFloat32 x, VFloat32 y => float_eqb binary32 x y
  | VFloat64 x, VFloat64 y => float_eqb binary64 x y
  | VDecimal x, VDecimal y => dec_eqb x y
  | VChar x, VChar y => x =? y
  | VString x, VString y => String.eqb x y
  | VBytes x, VBytes y => bytes_eqb x y
  | VUuid x, VUuid y => uuid_eqb x y
  | VDate x, VDate y => date_eqb x y
  | VTime x, VTime y => time_eqb x y
  | VLocalDateTime x, VLocalDateTime y => ldt_eqb x y
  | VInstant x, VInstant y => instant_eqb x y
  | VDuration x, VDuration y => duration_eqb x y
  | VList x, VList y | VTuple x, VTuple y => forallb2 datum_eqb x y
  | VMap l, VMap r =>
      (* maps_equal *)
      Nat.eqb (length l) (length r) &&
      forallb (fun le => let '(lk, lv) := le in
        existsb (fun re => let '(rk, rv) := re in datum_eqb lk rk && datum_eqb lv rv) r) l
  | VRecord x, VRecord y =>
      forallb2 (fun l r => let '(ln, ld) := l in let '(rn, rd) := r in
                           String.eqb ln rn && datum_eqb ld rd) x y
  | _, _ => false
  end
with datum_eqb (a b : Datum) {struct a} : bool :=
  match a, b with
  | Missing, Missing | Null, Null => true
  | DValue x, DValue y => value_eqb x y
  | _, _ => false
  end.

Definition entry_eqb (l r : Datum * Datum) : bool :=
  datum_eqb (fst l) (fst r) && datum_eqb (snd l) (snd r).

Definition maps_equal (l r : list (Datum * Datum)) : bool :=
  Nat.eqb (length l) (length r) &&
  forallb (fun le => existsb (fun re => entry_eqb le re) r) l.

(** ** Execution order ([semantics/mod.rs], [compare_datums], [compare_values]) *)
Definition compare_values (a b : Value) : option comparison :=
  match a, b with
  | VBool x, VBool y => Some (bool_cmp x y)
  | VTruth x, VTruth y => Some (Truth.cmp x y)
  | VInt x, VInt y | VUInt x, VUInt y => Some (x ?= y)
  | VFloat32 x, VFloat32 y => Some (float_total_cmp binary32 x y)
  | VFloat64 x, VFloat64 y => Some (float_total_cmp binary64 x y)
  | VDecimal x, VDecimal y => Some (dec_cmp x y)
  | VChar x, VChar y => Some (x ?= y)
  | VString x, VString y => Some (String.compare x y)
  | VBytes x, VBytes y => Some (list_cmp Z.compare x y)
  | VUuid x, VUuid y => Some (uuid_cmp x y)
  | VDate x, VDate y => Some (date_cmp x y)
  | VTime x, VTime y => Some (time_cmp x y)
  | VLocalDateTime x, VLocalDateTime y => Some (ldt_cmp x y)
  | VInstant x, VInstant y => Some (instant_cmp x y)
  | VDuration x, VDuration y => Some (duration_cmp x y)
  | _, _ => None
  end.

Definition compare_datums (a b : Datum) : option comparison :=
  match a, b with
  | Missing, Missing | Null, Null => Some Eq
  | Missing, _ => Some Lt
  | _, Missing => Some Gt
  | Null, _ => Some Lt
  | _, Null => Some Gt
  | DValue x, DValue y => compare_values x y
  end.

(** ** Payload size *)
Fixpoint value_logical_bytes (v : Value) : Z :=
  match v with
  | VBool _ | VTruth _ => 1
  | VInt _ | VUInt _ | VDecimal _ => 16
  | VFloat32 _ | VChar _ | VDate _ => 4
  | VFloat64 _ | VTime _ => 8
  | VUuid _ => 16
  | VLocalDateTime _ | VInstant _ | VDuration _ => 16
  | VString s => sat_add 8 (zstrlen s)
  | VBytes b => sat_add 8 (zlen b)
  | VList l | VTuple l => fold_left (fun size d => sat_add size (datum_logical_bytes d)) l 8
  | VMap l =>
      fold_left (fun size e => let '(k, d) := e in
        sat_add (sat_add size (datum_logical_bytes k)) (datum_logical_bytes d)) l 8
  | VRecord m =>
      fold_left (fun size f => let '(n, d) := f in
        sat_add (sat_add size (zstrlen n)) (datum_logical_bytes d)) m 8
  end
with datum_logical_bytes (d : Datum) : Z :=
  match d with
  | Missing | Null => 1
  | DValue v => sat_add 1 (value_logical_bytes v)
  end.

(** ** Validation ([value/validate.rs]) *)
Definition signed_fits (bits value : Z) : bool :=
  let fits n := (- 2 ^ (n - 1) <=? value) && (value <? 2 ^ (n - 1)) in
  if bits =? 8 then fits 8 else if bits =? 16 then fits 16 else if bits =? 32 then fits 32
  else if bits =? 64 then fits 64 else bits =? 128.

Definition unsigned_fits (bits value : Z) : bool :=
  let fits n := (0 <=? value) && (value <? 2 ^ n) in
  if bits =? 8 then fits 8 else if bits =? 16 then fits 16 else if bits =? 32 then fits 32
  else if bits =? 64 then fits 64 else bits =? 128.

Definition scalar_matches (r : ScalarRepr) (v : Value) : bool :=
  match r, v with
  | RInt bits, VInt n => signed_fits bits n
  | RUInt bits, VUInt n => unsigned_fits bits n
  | RBool, VBool _ | RTruth, VTruth _ | RFloat32, VFloat32 _ | RFloat64, VFloat64 _
  | RDecimal, VDecimal _ | RChar, VChar _ | RString, VString _ | RBytes, VBytes _
  | RUuid, VUuid _ | RDate, VDate _ | RTime, VTime _ | RLocalDateTime, VLocalDateTime _
  | RInstant, VInstant _ | RDuration, VDuration _ => true
  | _, _ => false
  end.

(** [validate_nested], over the value validator of the same type. *)
Definition validate_nested_with (check : Value -> Result unit) (ty : TypeDef) (d : Datum) : Result unit :=
  match d with
  | Missing => error "RUNTIME-006"
  | Null => guard (is_nullable ty) "RUNTIME-003"
  | DValue v => check v
  end.

(** [for (element, datum) in elements.iter().zip(values)]. *)
Definition zipR {A B} (f : A -> B -> Result unit) : list A -> list B -> Result unit :=
  fix go l1 l2 := match l1, l2 with
                  | x :: l1', y :: l2' => f x y ;;? go l1' l2'
                  | _, _ => Ok tt
                  end.

Definition known_field (fields : list RecordField) (name : string) : bool :=
  existsb (fun f => String.eqb (field_name f) name) fields.

Fixpoint validate_value (ty : TypeDef) (v : Value) {struct ty} : Result unit :=
  let '(mkTypeDef _ _ shape _ _ _) := ty in
  match shape, v with
  | ShScalar r, _ => guard (scalar_matches r v) "RUNTIME-004"
  | ShList e, VList l => forR (validate_nested_with (validate_value e) e) l
  | ShMap kt vt, VMap entries =>
      foldR (fun seen entry =>
        let '(k, d) := entry in
        validate_nested_with (validate_value kt) kt k ;;?
        validate_nested_with (validate_value vt) vt d ;;?
        guard (negb (existsb (fun existing => datum_eqb existing k) seen)) "RUNTIME-007" ;;?
        Ok (seen ++ [k])) entries [] ;;? Ok tt
  | ShTuple es, VTuple l =>
      if Nat.eqb (length l) (length es) then
        zipR (fun e d => validate_nested_with (validate_value e) e d) es l
      else error "RUNTIME-004"
  | ShRecord fs, VRecord m =>
      (* validate_record_value *)
      if negb (forallb (fun entry => known_field fs (fst entry)) m) then error "RUNTIME-004"
      else
        forR (fun f =>
          let '(mkRecordField n e p) := f in
          match bt_get n m with
          | Some d => validate_nested_with (validate_value e) e d
          | None => match p with Optional => Ok tt | Required => error "RUNTIME-005" end
          end) fs
  | _, _ => error "RUNTIME-004"
  end.

Definition validate_nested (ty : TypeDef) (d : Datum) : Result unit :=
  validate_nested_with (validate_value ty) ty d.

Definition validate_datum (ty : TypeDef) (presence : Presence) (d : Datum) : Result unit :=
  match d with
  | Missing => match presence with Required => error "RUNTIME-002" | Optional => Ok tt end
  | Null => guard (is_nullable ty) "RUNTIME-003"
  | DValue v => validate_value ty v
  end.
(** [matches!(datum, Datum::Missing | Datum::Null)]. *)
Definition is_absent (d : Datum) : bool := match d with Missing | Null => true | DValue _ => false end.
End Data.

(** ** Equality is an equivalence where the maps have unique keys *)
Lemma forallb2_trans {A} (f : A -> A -> bool) l1 l2 l3 :
  Forall (fun x => forall y z, f x y = true -> f y z = true -> f x z = true) l1 ->
  forallb2 f l1 l2 = true -> forallb2 f l2 l3 = true -> forallb2 f l1 l3 = true.
Proof.
  intros H. revert l2 l3. induction H as [|x l1 Hx _ IH]; intros [|y l2] [|z l3]; simpl; try done.
  rewrite !andb_true_iff. intros [H1 H2] [H3 H4]. split; eauto.
Qed.

Lemma forallb2_sym {A} (f : A -> A -> bool) l1 l2 :
  Forall (fun x => Forall (fun y => f x y = true -> f y x = true) l2) l1 ->
  forallb2 f l1 l2 = true -> forallb2 f l2 l1 = true.
Proof.
  intros H. revert l2 H. induction l1 as [|x l1 IH]; intros [|y l2]; simpl; try done.
  rewrite Forall_cons. intros [[Hx _]%Forall_cons H]. rewrite !andb_true_iff. intros [H1 H2].
  split; [auto|]. apply IH; [|done]. eapply Forall_impl; [exact H|]. by intros z [_ Hz]%Forall_cons.
Qed.

Lemma forallb2_refl {A} (f : A -> A -> bool) l : Forall (fun x => f x x = true) l -> forallb2 f l l = true.
Proof. induction 1; simpl; [done|]. by rewrite H, IHForall. Qed.

(** [n] entries that match [n] others injectively match all of them. *)
Lemma matching_perm {A B} (R : A -> B -> Prop) (l : list A) (r : list B) :
  length l = length r -> Forall (fun x => Exists (R x) r) l ->
  ForallOrdPairs (fun x x' => forall y, y ∈ r -> R x y -> R x' y -> False) l ->
  exists r', r' ≡ₚ r /\ Forall2 R l r'.
Proof.
  revert r. induction l as [|x l IH]; intros r Hl Hm Hu.
  { destruct r; [by exists []|done]. }
  apply Forall_cons in Hm as [Hx Hm]. inversion_clear Hu as [|? ? Hxl Hl'].
  apply Exists_exists in Hx as (y & Hy & HR). apply list_elem_of_split in Hy as (r1 & r2 & ->).
  rewrite Forall_forall in Hxl. destruct (IH (r1 ++ r2)) as (r' & Hp & Hf).
  - rewrite length_app in *. simpl in *. lia.
  - rewrite Forall_forall in Hm |- *. intros x' Hx'. specialize (Hm x' Hx').
    rewrite Exists_app, Exists_cons in Hm. rewrite Exists_app.
    destruct Hm as [?|[Hc|?]]; auto. exfalso. apply (Hxl x' Hx' y); [set_unfold; auto|done|done].
  - clear -Hl'. induction Hl' as [|a l Ha Hl IH]; constructor; [|done].
    eapply Forall_impl; [exact Ha|]. intros b Hb z Hz. apply Hb. set_unfold. tauto.
  - exists (y :: r'). split; [by rewrite Hp, Permutation_middle|by constructor].
Qed.

Lemma matching_onto {A B} (R : A -> B -> Prop) (l : list A) (r : list B) :
  (exists r', r' ≡ₚ r /\ Forall2 R l r') -> Forall (fun y => Exists (fun x => R x y) l) r.
Proof.
  intros (r' & <- & H). clear r. induction H as [|x y l r Hxy _ IH]; constructor; [by constructor|].
  eapply Forall_impl; [exact IH|]. intros z Hz. by constructor.
Qed.

Section Equality.
Context {F : Foreign} {L : ForeignLaws F}.

Lemma value_eqb_map l r : value_eqb (VMap l) (VMap r) = maps_equal l r.
Proof.
  unfold maps_equal. simpl. f_equal. induction l as [|[k v] l IH]; simpl; [done|].
  rewrite IH. f_equal. clear. induction r as [|[k' v'] r IHr]; simpl; [done|]. by rewrite IHr.
Qed.

Definition field_datum_eqb (l r : string * Datum) : bool :=
  String.eqb (fst l) (fst r) && datum_eqb (snd l) (snd r).

Lemma value_eqb_record x y : value_eqb (VRecord x) (VRecord y) = forallb2 field_datum_eqb x y.
Proof.
  simpl. revert y. induction x as [|[n d] x IH]; intros [|[n' d'] y]; simpl; try done. by f_equal.
Qed.

Lemma maps_equal_spec l r :
  maps_equal l r = true <->
  length l = length r /\ Forall (fun x => Exists (fun y => entry_eqb x y = true) r) l.
Proof.
  unfold maps_equal. rewrite andb_true_iff, Nat.eqb_eq, forallb_forall, Forall_forall.
  setoid_rewrite existsb_exists. setoid_rewrite Exists_exists.
  setoid_rewrite list_elem_of_In. done.
Qed.

Lemma bytes_eqb_eq a b : bytes_eqb a b = true <-> a = b.
Proof. apply forallb2_eq, Forall_forall. intros x _ y. apply Z.eqb_eq. Qed.

Definition trans_at (a : Value) : Prop :=
  forall b c, value_eqb a b = true -> value_eqb b c = true -> value_eqb a c = true.

Lemma datum_trans a b c : on_datum trans_at a ->
  datum_eqb a b = true -> datum_eqb b c = true -> datum_eqb a c = true.
Proof. destruct a, b, c; simpl; try done. intros H. apply H. Qed.

Lemma entries_children l : Forall (on_datum trans_at) (flat_map (fun e : Datum * Datum => [fst e; snd e]) l) ->
  Forall (fun e => on_datum trans_at (fst e) /\ on_datum trans_at (snd e)) l.
Proof. rewrite Forall_flat_map. intros H. eapply Forall_impl; [exact H|]. by intros [a b] [? [? _]%Forall_cons]%Forall_cons. Qed.

Lemma value_eqb_trans a : trans_at a.
Proof.
  induction a as [a IH] using value_ind'. intros b c.
  assert (Hl : forall l1 l2 l3, Forall (on_datum trans_at) l1 -> forallb2 datum_eqb l1 l2 = true ->
    forallb2 datum_eqb l2 l3 = true -> forallb2 datum_eqb l1 l3 = true).
  { intros l1 l2 l3 H. apply forallb2_trans. eapply Forall_impl; [exact H|].
    intros d Hd d2 d3. by apply datum_trans. }
  destruct a, b; try done; destruct c; try done; simpl in IH; try (simpl; by eauto).
  - simpl. rewrite !Bool.eqb_true_iff. congruence.
  - simpl. rewrite !Truth.eqb_eq. congruence.
  - simpl. rewrite !Z.eqb_eq. congruence.
  - simpl. rewrite !Z.eqb_eq. congruence.
  - apply float_eqb_trans.
  - apply float_eqb_trans.
  - apply decimal_eq.
  - simpl. rewrite !Z.eqb_eq. congruence.
  - simpl. rewrite !String.eqb_eq. congruence.
  - simpl. rewrite !bytes_eqb_eq. congruence.
  - apply uuid_eq.
  - apply date_eq.
  - apply time_eq.
  - apply ldt_eq.
  - apply instant_eq.
  - apply duration_eq.
  - apply entries_children in IH. rewrite !value_eqb_map, !maps_equal_spec.
    intros [E1 H1] [E2 H2]. split; [congruence|].
    rewrite Forall_forall in IH, H1, H2 |- *. intros x Hx.
    specialize (H1 x Hx). apply Exists_exists in H1 as (y & Hy & Hxy). specialize (H2 y Hy).
    apply Exists_exists in H2 as (z & Hz & Hyz). apply Exists_exists. exists z. split; [done|].
    destruct (IH x Hx) as [? ?]. unfold entry_eqb in *. rewrite andb_true_iff in *.
    destruct Hxy, Hyz. split; eapply datum_trans; eauto.
  - rewrite !value_eqb_record. apply forallb2_trans.
    rewrite Forall_map in IH. eapply Forall_impl; [exact IH|].
    intros [n d] Hd [n2 d2] [n3 d3]. unfold field_datum_eqb. simpl in *.
    rewrite !andb_true_iff, !String.eqb_eq. intros [-> H1] [-> H2]. split; [done|]. by eapply datum_trans.
Qed.

(** A recursive predicate on values from one on the root. *)
Fixpoint everywhere (p : Value -> bool) (v : Value) : bool :=
  let on d := match d with DValue w => everywhere p w | _ => true end in
  p v && match v with
         | VList l | VTuple l => forallb on l
         | VMap l => forallb (fun e => let '(a, b) := e in on a && on b) l
         | VRecord m => forallb (fun f => let '(_, d) := f in on d) m
         | _ => true
         end.

Definition holds_at (p : Value -> bool) (d : Datum) : Prop :=
  on_datum (fun v => everywhere p v = true) d.

Lemma everywhere_eq p v :
  everywhere p v = true <-> p v = true /\ Forall (holds_at p) (value_children v).
Proof.
  assert (Hon : forall d, (match d with DValue w => everywhere p w | _ => true end) = true <-> holds_at p d)
    by (intros []; simpl; tauto).
  assert (Hl : forall l, forallb (fun d => match d with DValue w => everywhere p w | _ => true end) l = true
                         <-> Forall (holds_at p) l).
  { intros l. rewrite forallb_forall, Forall_forall. setoid_rewrite Hon. by setoid_rewrite list_elem_of_In. }
  destruct v; simpl; rewrite andb_true_iff; apply and_iff_compat_l; try (split; constructor);
    [apply Hl| |apply Hl|].
  - induction l as [|[a b] l IH]; simpl; [split; constructor|].
    rewrite !andb_true_iff, !Forall_cons, IH, !Hon. tauto.
  - induction m as [|[a b] l IH]; simpl; [split; constructor|].
    rewrite !andb_true_iff, !Forall_cons, IH, !Hon. tauto.
Qed.

(** Map keys are pairwise different. *)
Fixpoint distinct_keys (l : list (Datum * Datum)) : bool :=
  match l with
  | [] => true
  | (k, _) :: l' => forallb (fun e => negb (datum_eqb k (fst e))) l' && distinct_keys l'
  end.

Definition map_distinct (v : Value) : bool := match v with VMap l => distinct_keys l | _ => true end.
Definition keys_unique (v : Value) : bool := everywhere map_distinct v.

Lemma distinct_keys_pairs l :
  distinct_keys l = true <-> ForallOrdPairs (fun e e' => datum_eqb (fst e) (fst e') = false) l.
Proof.
  induction l as [|[k v] l IH]; simpl; [split; [constructor|done]|].
  rewrite andb_true_iff, IH, forallb_forall. setoid_rewrite negb_true_iff.
  setoid_rewrite <- list_elem_of_In. rewrite <- Forall_forall. split.
  - intros [H1 H2]. by constructor.
  - by inversion 1.
Qed.

Definition sym_at (a : Value) : Prop :=
  keys_unique a = true -> forall b, value_eqb a b = true -> value_eqb b a = true.

Definition datum_sym_at (a : Datum) : Prop := forall b, datum_eqb a b = true -> datum_eqb b a = true.

Lemma children_sym l : Forall (on_datum sym_at) l -> Forall (holds_at map_distinct) l -> Forall datum_sym_at l.
Proof.
  rewrite !Forall_forall. intros H1 H2 d Hd b. specialize (H1 d Hd). specialize (H2 d Hd).
  destruct d, b; simpl; try done. by apply H1.
Qed.

Lemma entries_sym l : Forall datum_sym_at (flat_map (fun e : Datum * Datum => [fst e; snd e]) l) ->
  Forall (fun e => datum_sym_at (fst e) /\ datum_sym_at (snd e)) l.
Proof. rewrite Forall_flat_map. intros H. eapply Forall_impl; [exact H|]. by intros [a b] [? [? _]%Forall_cons]%Forall_cons. Qed.

Lemma datum_eqb_trans a b c : datum_eqb a b = true -> datum_eqb b c = true -> datum_eqb a c = true.
Proof. apply datum_trans. destruct a; [done..|]. apply value_eqb_trans. Qed.

(** Matched entries pair up one to one. *)
Lemma maps_equal_perm l r :
  Forall (fun e => datum_sym_at (fst e)) l -> distinct_keys l = true -> maps_equal l r = true ->
  exists r', r' ≡ₚ r /\ Forall2 (fun x y => entry_eqb x y = true) l r'.
Proof.
  intros Hs Hd%distinct_keys_pairs. rewrite maps_equal_spec. intros [Hl Hm].
  apply matching_perm; [done|done|]. clear Hm Hl.
  induction Hd as [|[k v] l Hk Hd IH]; constructor.
  - apply Forall_cons in Hs as [_ Hs]. rewrite Forall_forall in Hk, Hs |- *.
    intros [k' v'] Hin [k2 v2] _. unfold entry_eqb. rewrite !andb_true_iff. simpl.
    intros [H1 _] [H2 _]. specialize (Hk _ Hin). simpl in Hk.
    apply (Hs _ Hin) in H2. assert (datum_eqb k k' = true) by (by eapply datum_eqb_trans). congruence.
  - apply IH. by apply Forall_cons in Hs as [_ ?].
Qed.

Lemma maps_equal_sym l r :
  Forall (fun e => datum_sym_at (fst e) /\ datum_sym_at (snd e)) l ->
  distinct_keys l = true -> maps_equal l r = true -> maps_equal r l = true.
Proof.
  intros Hs Hd Hm. apply Forall_and in Hs as Hs'. destruct Hs' as [Hs1 _].
  pose proof (matching_onto _ _ _ (maps_equal_perm l r Hs1 Hd Hm)) as Ho.
  rewrite maps_equal_spec in *. destruct Hm as [Hl _]. split; [done|].
  eapply Forall_impl; [exact Ho|]. intros y Hy. rewrite Exists_exists in *.
  destruct Hy as (x & Hx & Hxy). exists x. split; [done|].
  rewrite Forall_forall in Hs. destruct (Hs x Hx) as [H1 H2]. unfold entry_eqb in *.
  rewrite andb_true_iff in *. destruct Hxy. split; auto.
Qed.

Lemma value_eqb_sym a : sym_at a.
Proof.
  induction a as [a IH] using value_ind'. intros [Hp Hc]%everywhere_eq b.
  pose proof (children_sym _ IH Hc) as S. clear IH Hc.
  assert (Hl : forall l1 l2, Forall datum_sym_at l1 ->
    forallb2 datum_eqb l1 l2 = true -> forallb2 datum_eqb l2 l1 = true).
  { intros l1 l2 H. apply forallb2_sym. eapply Forall_impl; [exact H|].
    intros d Hd. apply Forall_forall. intros d' _. apply Hd. }
  destruct a, b; try done; simpl in S; try (simpl; by auto).
  - simpl. rewrite !Bool.eqb_true_iff. congruence.
  - simpl. rewrite !Truth.eqb_eq. congruence.
  - simpl. rewrite !Z.eqb_eq. congruence.
  - simpl. rewrite !Z.eqb_eq. congruence.
  - simpl. by rewrite float_eqb_sym.
  - simpl. by rewrite float_eqb_sym.
  - apply decimal_eq.
  - simpl. rewrite !Z.eqb_eq. congruence.
  - simpl. rewrite !String.eqb_eq. congruence.
  - simpl. rewrite !bytes_eqb_eq. congruence.
  - apply uuid_eq.
  - apply date_eq.
  - apply time_eq.
  - apply ldt_eq.
  - apply instant_eq.
  - apply duration_eq.
  - rewrite !value_eqb_map. apply maps_equal_sym; [by apply entries_sym|done].
  - rewrite !value_eqb_record. apply forallb2_sym. rewrite Forall_map in S.
    eapply Forall_impl; [exact S|]. intros [n d] Hd. apply Forall_forall. intros [n2 d2] _.
    unfold field_datum_eqb. simpl in *. rewrite !andb_true_iff, !String.eqb_eq. intros [-> H]. auto.
Qed.

(** ** Reflexivity is the absence of NaN *)
Definition not_nan (v : Value) : bool :=
  match v with
  | VFloat32 b => negb (is_nan binary32 b)
  | VFloat64 b => negb (is_nan binary64 b)
  | _ => true
  end.
Definition nan_free (v : Value) : bool := everywhere not_nan v.

Lemma forallb2_left {A} (f : A -> A -> bool) (P : A -> Prop) l1 l2 :
  Forall (fun x => forall y, f x y = true -> P x) l1 -> forallb2 f l1 l2 = true -> Forall P l1.
Proof.
  intros H. revert l2. induction H as [|x l1 Hx _ IH]; intros [|y l2]; simpl; try done.
  rewrite andb_true_iff. intros [H1 H2]. constructor; eauto.
Qed.

Lemma value_eqb_nan_free a b : value_eqb a b = true -> nan_free a = true.
Proof.
  revert b. induction a as [a IH] using value_ind'. intros b Hab. apply everywhere_eq.
  assert (Hd : forall d d', on_datum (fun a => forall b, value_eqb a b = true -> nan_free a = true) d ->
    datum_eqb d d' = true -> holds_at not_nan d) by (intros [] []; simpl; try done; eauto).
  assert (Hl : forall l1 l2, Forall (on_datum (fun a => forall b, value_eqb a b = true -> nan_free a = true)) l1 ->
    forallb2 datum_eqb l1 l2 = true -> Forall (holds_at not_nan) l1).
  { intros l1 l2 H. apply forallb2_left. eapply Forall_impl; [exact H|]. eauto. }
  destruct a, b; try done; simpl in IH; (split; [try done|try constructor]); try (simpl; eauto; fail).
  - simpl in *. by destruct (float_eqb_not_nan _ _ _ Hab) as [-> _].
  - simpl in *. by destruct (float_eqb_not_nan _ _ _ Hab) as [-> _].
  - rewrite value_eqb_map, maps_equal_spec in Hab. destruct Hab as [_ Hm]. simpl.
    rewrite Forall_flat_map, Forall_forall in *. intros e He. specialize (IH e He). specialize (Hm e He).
    rewrite !Forall_cons in *. apply Exists_exists in Hm as (y & _ & Hy). unfold entry_eqb in Hy.
    apply andb_true_iff in Hy as [H1 H2]. destruct IH as (I1 & I2 & _). split_and!; eauto.
  - rewrite value_eqb_record in Hab. simpl. rewrite Forall_map in *.
    eapply forallb2_left; [|exact Hab]. eapply Forall_impl; [exact IH|].
    intros [n d] Hi [n' d'] [_ H]%andb_true_iff. simpl in *. eauto.
Qed.

Lemma nan_free_refl a : nan_free a = true -> value_eqb a a = true.
Proof.
  induction a as [a IH] using value_ind'. intros [Hp Hc]%everywhere_eq.
  assert (Hr : Forall (fun d => datum_eqb d d = true) (value_children a)).
  { rewrite !Forall_forall in *. intros d Hd. specialize (IH d Hd). specialize (Hc d Hd).
    destruct d; [done..|]. by apply IH. }
  clear IH Hc.
  destruct a; simpl in *; try (by apply forallb2_refl).
  - apply Bool.eqb_true_iff. done.
  - by apply Truth.eqb_eq.
  - apply Z.eqb_refl.
  - apply Z.eqb_refl.
  - apply float_eqb_refl. by apply negb_true_iff.
  - apply float_eqb_refl. by apply negb_true_iff.
  - apply decimal_eq.
  - apply Z.eqb_refl.
  - apply String.eqb_refl.
  - by apply bytes_eqb_eq.
  - apply uuid_eq.
  - apply date_eq.
  - apply time_eq.
  - apply ldt_eq.
  - apply instant_eq.
  - apply duration_eq.
  - change (value_eqb (VMap l) (VMap l) = true). rewrite value_eqb_map. apply maps_equal_spec. split; [done|].
    rewrite Forall_flat_map, Forall_forall in *. intros e He. specialize (Hr e He).
    rewrite !Forall_cons in Hr. destruct Hr as (H1 & H2 & _). apply Exists_exists. exists e. split; [done|].
    unfold entry_eqb. by rewrite H1, H2.
  - change (value_eqb (VRecord m) (VRecord m) = true). rewrite value_eqb_record. apply forallb2_refl.
    rewrite Forall_map in Hr. eapply Forall_impl; [exact Hr|]. intros [n d] H. unfold field_datum_eqb.
    simpl in *. by rewrite String.eqb_refl, H.
Qed.
End Equality.

(** ** Conformance: what validation decides *)
Section Conformance.
Context {F : Foreign}.

Inductive conforms : TypeDef -> Value -> Prop :=
| conforms_scalar ty r v :
    ty_shape ty = ShScalar r -> scalar_matches r v = true -> conforms ty v
| conforms_list ty e l :
    ty_shape ty = ShList e -> Forall (nested_conforms e) l -> conforms ty (VList l)
| conforms_map ty kt vt l :
    ty_shape ty = ShMap kt vt ->
    Forall (fun e => nested_conforms kt (fst e) /\ nested_conforms vt (snd e)) l ->
    ForallOrdPairs (fun e e' => datum_eqb (fst e) (fst e') = false) l -> conforms ty (VMap l)
| conforms_tuple ty es l :
    ty_shape ty = ShTuple es -> Forall2 nested_conforms es l -> conforms ty (VTuple l)
| conforms_record ty fs m :
    ty_shape ty = ShRecord fs ->
    Forall (fun name => name ∈ map field_name fs) (map fst m) ->
    Forall (fun f => (exists d, bt_get (field_name f) m = Some d /\ nested_conforms (field_ty f) d) \/
                     bt_get (field_name f) m = None /\ field_presence f = Optional) fs ->
    conforms ty (VRecord m)
with nested_conforms : TypeDef -> Datum -> Prop :=
| nested_null ty : ty_nullability ty = Nullable -> nested_conforms ty Null
| nested_value ty v : conforms ty v -> nested_conforms ty (DValue v).

Lemma is_nullable_true ty : is_nullable ty = true <-> ty_nullability ty = Nullable.
Proof. unfold is_nullable. by destruct (ty_nullability ty). Qed.

Definition validates_at (ty : TypeDef) : Prop :=
  forall v, validate_value ty v = Ok tt <-> conforms ty v.

Lemma validate_nested_at ty d : validates_at ty ->
  validate_nested_with (validate_value ty) ty d = Ok tt <-> nested_conforms ty d.
Proof.
  intros H. destruct d; simpl.
  - split; [done|by inversion 1].
  - rewrite check_ok, is_nullable_true. split; [by constructor|by inversion 1].
  - rewrite (H v). split; [by constructor|by inversion 1].
Qed.

Lemma zipR_ok {A B} (f : A -> B -> Result unit) l1 l2 : length l1 = length l2 ->
  zipR f l1 l2 = Ok tt <-> Forall2 (fun x y => f x y = Ok tt) l1 l2.
Proof.
  revert l2. induction l1 as [|x l1 IH]; intros [|y l2]; simpl; try done.
  intros [= H]. by rewrite check_then, Forall2_cons, IH.
Qed.

Lemma Forall2_iff_in {A B} (P Q : A -> B -> Prop) l1 l2 :
  Forall (fun x => forall y, P x y <-> Q x y) l1 -> Forall2 P l1 l2 <-> Forall2 Q l1 l2.
Proof.
  intros H. revert l2. induction H as [|x l1 Hx _ IH]; intros [|y l2]; rewrite ?Forall2_cons.
  - split; intros _; constructor.
  - split; by inversion 1.
  - split; by inversion 1.
  - by rewrite (Hx y), IH.
Qed.

Lemma fresh_key_ok k seen :
  existsb (fun existing => datum_eqb existing k) seen = false <->
  Forall (fun e => datum_eqb e k = false) seen.
Proof.
  induction seen as [|s seen IH]; simpl; [split; constructor|].
  by rewrite orb_false_iff, Forall_cons, IH.
Qed.

(** The map loop: the prior keys are compared with the new one. *)
Lemma validate_entries_ok (ck cv : Datum -> Result unit) entries seen r :
  foldR (fun seen entry =>
    let '(k, d) := entry in
    ck k ;;? cv d ;;? guard (negb (existsb (fun existing => datum_eqb existing k) seen)) "RUNTIME-007" ;;?
    Ok (seen ++ [k])) entries seen = Ok r <->
  r = seen ++ map fst entries /\
  Forall (fun e => ck (fst e) = Ok tt /\ cv (snd e) = Ok tt) entries /\
  Forall (fun e => Forall (fun s => datum_eqb s (fst e) = false) seen) entries /\
  ForallOrdPairs (fun e e' => datum_eqb (fst e) (fst e') = false) entries.
Proof.
  revert seen. induction entries as [|[k d] l IH]; intros seen; simpl.
  { rewrite app_nil_r. split; [intros [= <-]; split_and!; constructor|by intros (-> & _)]. }
  rewrite rbind_ok. setoid_rewrite check_then.
  assert (E : forall s, (ck k = Ok tt /\ (cv d ;;?
      guard (negb (existsb (fun existing => datum_eqb existing k) seen)) "RUNTIME-007" ;;?
      Ok (seen ++ [k])) = Ok s) <->
    ck k = Ok tt /\ cv d = Ok tt /\ Forall (fun e => datum_eqb e k = false) seen /\ s = seen ++ [k]).
  { intros s. rewrite check_then, check_then, check_ok, negb_true_iff, fresh_key_ok. naive_solver. }
  setoid_rewrite E. split.
  - intros (s & (Hk & Hv & Hs & ->) & (-> & Hc & Hf & Hp)%IH).
    assert (Forall (fun e => Forall (fun s => datum_eqb s (fst e) = false) seen /\
      datum_eqb k (fst e) = false) l) as H%Forall_and.
    { eapply Forall_impl; [exact Hf|]. intros e. by rewrite Forall_app, Forall_singleton. }
    destruct H. rewrite <- app_assoc, !Forall_cons. split_and!; try done. by constructor.
  - rewrite !Forall_cons. intros (-> & [[? ?] Hc] & [? Hf] & Hp).
    inversion_clear Hp. eexists. split_and!; [done..|]. apply IH. rewrite <- app_assoc.
    split_and!; try done. rewrite Forall_forall in *. intros e He. apply Forall_app. split; [auto|].
    rewrite Forall_singleton. auto.
Qed.

Lemma known_field_ok fs name : known_field fs name = true <-> name ∈ map field_name fs.
Proof.
  unfold known_field. rewrite existsb_exists, list_elem_of_In, in_map_iff.
  setoid_rewrite String.eqb_eq. naive_solver.
Qed.

Lemma known_fields_ok fs (m : list (string * Datum)) :
  negb (forallb (fun entry => known_field fs (fst entry)) m) = false <->
  Forall (fun name => name ∈ map field_name fs) (map fst m).
Proof.
  rewrite negb_false_iff, forallb_forall, Forall_map, Forall_forall.
  setoid_rewrite known_field_ok. by setoid_rewrite list_elem_of_In.
Qed.

Lemma field_outcome (o : option Datum) (p : Presence) (check : Datum -> Result unit) (Q : Datum -> Prop) :
  (forall d, check d = Ok tt <-> Q d) ->
  match o with
  | Some d => check d
  | None => match p with Optional => Ok tt | Required => error "RUNTIME-005" end
  end = Ok tt <-> (exists d, o = Some d /\ Q d) \/ o = None /\ p = Optional.
Proof. intros H. destruct o as [d|]; [rewrite H|destruct p]; naive_solver. Qed.

Lemma validate_value_conforms ty : validates_at ty.
Proof.
  induction ty as [k v s n p ps IH] using type_ind'. intros w.
  assert (IH' : Forall (fun t => forall d, validate_nested_with (validate_value t) t d = Ok tt <->
                                     nested_conforms t d) (shape_children s)).
  { eapply Forall_impl; [exact IH|]. intros t Ht d. by apply validate_nested_at. }
  clear IH. destruct s as [r|e|kt vt|es|fs]; simpl in IH'.
  - simpl. rewrite check_ok. split; [by apply conforms_scalar|]. by inversion 1; simplify_eq/=.
  - rewrite Forall_singleton in IH'. destruct w; try (split; [done|by inversion 1; simplify_eq/=]).
    simpl. rewrite forR_ok.
    transitivity (Forall (nested_conforms e) l); [apply Forall_iff_in, Forall_forall; auto|].
    split; [by apply conforms_list|by inversion 1; simplify_eq/=].
  - rewrite Forall_cons, Forall_singleton in IH'. destruct IH' as [Hk Hv].
    destruct w; try (split; [done|by inversion 1; simplify_eq/=]). simpl.
    pose proof (validate_entries_ok (validate_nested_with (validate_value kt) kt)
      (validate_nested_with (validate_value vt) vt) l []) as R.
    setoid_rewrite Hk in R. setoid_rewrite Hv in R. split.
    + intros (r & (_ & Hc & _ & Hp)%R & _)%rbind_ok. by eapply conforms_map.
    + inversion 1; simplify_eq/=. apply rbind_ok. eexists. split; [|done]. apply R. split_and!; try done.
      apply Forall_forall. constructor.
  - destruct w; try (split; [done|by inversion 1; simplify_eq/=]). simpl.
    destruct (Nat.eqb_spec (length l) (length es)) as [E|E].
    + rewrite zipR_ok by done.
      transitivity (Forall2 nested_conforms es l); [by apply Forall2_iff_in|].
      split; [by apply conforms_tuple|by inversion 1; simplify_eq/=].
    + split; [done|]. inversion 1; simplify_eq/=. exfalso. apply E. symmetry. by eapply Forall2_length.
  - destruct w; try (split; [done|by inversion 1; simplify_eq/=]). simpl.
    pose proof (known_fields_ok fs m) as K.
    transitivity (Forall (fun name => name ∈ map field_name fs) (map fst m) /\
      Forall (fun f => (exists d, bt_get (field_name f) m = Some d /\ nested_conforms (field_ty f) d) \/
                       bt_get (field_name f) m = None /\ field_presence f = Optional) fs).
    + destruct (negb _); [split; [done|]; intros [?%K _]; done|]. rewrite forR_ok.
      assert (Forall (fun name => name ∈ map field_name fs) (map fst m)) by (by apply K).
      match goal with |- ?A <-> _ /\ ?B => enough (A <-> B) by tauto end.
      apply Forall_iff_in. rewrite Forall_map in IH'. eapply Forall_impl; [exact IH'|].
      intros [n0 e0 p0] He; simpl in *. by apply field_outcome.
    + split; [intros []; by eapply conforms_record|by inversion 1; simplify_eq/=].
Qed.

(** The invariant of the Rust representation: machine widths, valid scalar
    values, and strictly sorted record maps. *)
Definition rust_node (v : Value) : bool :=
  match v with
  | VInt i => in_i128 i
  | VUInt u => in_u128 u
  | VFloat32 b => (0 <=? b) && (b <? 2 ^ 32)
  | VFloat64 b => (0 <=? b) && (b <? 2 ^ 64)
  | VChar c => (0 <=? c) && (c <=? 1114111) && negb ((55296 <=? c) && (c <=? 57343))
  | VBytes b => forallb (fun x => (0 <=? x) && (x <? 256)) b
  | VRecord m => bt_sorted m
  | _ => true
  end.
Definition rust_value (v : Value) : bool := everywhere rust_node v.

Definition keys_unique_at (ty : TypeDef) : Prop :=
  forall v, conforms ty v -> rust_value v = true -> keys_unique v = true.

Lemma nested_keys_unique ty d :
  keys_unique_at ty -> nested_conforms ty d -> holds_at rust_node d -> holds_at map_distinct d.
Proof. intros H. inversion 1; simpl; [done|]. by apply H. Qed.

Lemma Forall2_nested es l : Forall keys_unique_at es -> Forall2 nested_conforms es l ->
  Forall (holds_at rust_node) l -> Forall (holds_at map_distinct) l.
Proof.
  intros He H. induction H as [|e d es l Hed _ IH]; [constructor|].
  rewrite !Forall_cons in *. intros [Hd Hl]. destruct He. split; [by eapply nested_keys_unique|auto].
Qed.

Lemma conforms_keys_unique ty : keys_unique_at ty.
Proof.
  induction ty as [k v s n p ps IH] using type_ind'. intros w Hw [Hr Hc]%everywhere_eq.
  apply everywhere_eq. inversion Hw as [? r|? e l E H|? kt vt l E H Hd|? es l E H|? fs m E H Hf]; simplify_eq/=.
  - assert (value_children w = []) as -> by (destruct r, w; done). split; [by destruct r, w|constructor].
  - split; [done|]. rewrite Forall_singleton in IH. rewrite Forall_forall in *. intros d Hin.
    eapply nested_keys_unique; eauto.
  - split; [by apply distinct_keys_pairs|]. rewrite Forall_cons, Forall_singleton in IH. destruct IH.
    rewrite Forall_flat_map, Forall_forall in *. intros e He. specialize (H e He) as [? ?].
    specialize (Hc e He). rewrite !Forall_cons in *. destruct Hc as (? & ? & _).
    split_and!; [by eapply (nested_keys_unique kt)|by eapply (nested_keys_unique vt)|constructor].
  - split; [done|]. by eapply Forall2_nested.
  - split; [done|]. rewrite Forall_map, Forall_forall in *. intros [name d] Hin. simpl.
    pose proof (H _ Hin) as Hn. simpl in Hn.
    rewrite Forall_forall in Hf, IH.
    apply list_elem_of_In, in_map_iff in Hn as (f & <- & Hf').
    apply list_elem_of_In in Hf'. specialize (Hf f Hf').
    apply (bt_elem_get _ _ _ Hr) in Hin as Hg. rewrite Hg in Hf.
    destruct Hf as [(d' & [= <-] & Hd)|[? _]]; [|done].
    apply (nested_keys_unique (field_ty f)); [|done|by apply (Hc (_, d) Hin)].
    by apply IH.
Qed.
End Conformance.

(** ** The execution order is a total preorder on each scalar family *)
Section Order.
Context {F : Foreign} {L : ForeignLaws F}.

Definition in_family (r : ScalarRepr) (d : Datum) : Prop :=
  match d with DValue v => scalar_matches r v = true | _ => True end.

Lemma Z_cmp_laws {A} (f : A -> Z) : CmpLaws (fun a b => f a ?= f b).
Proof. exact (key_cmp_laws (K:=Z) f). Qed.

Lemma bool_cmp_laws : CmpLaws bool_cmp.
Proof. split; intros; repeat match goal with b : bool |- _ => destruct b end; done. Qed.

(** Laws of a partial order restricted to a predicate. *)
Definition family_laws {A} (P : A -> Prop) (cmp : A -> A -> option comparison) : Prop :=
  (forall a, P a -> cmp a a = Some Eq) /\
  (forall a b, P a -> P b -> exists c, cmp a b = Some c /\ cmp b a = Some (CompOpp c)) /\
  (forall a b c, P a -> P b -> P c -> cmp a b <> Some Gt -> cmp b c <> Some Gt -> cmp a c <> Some Gt).

Lemma family_of {A B} (P : A -> Prop) (f : B -> A) (cmpB : B -> B -> comparison)
  (cmp : A -> A -> option comparison) :
  CmpLaws cmpB -> (forall a, P a -> exists b, a = f b) ->
  (forall a b, cmp (f a) (f b) = Some (cmpB a b)) -> family_laws P cmp.
Proof.
  intros C Hf Hc. split_and!.
  - intros a (x & ->)%Hf. by rewrite Hc, (cmp_refl _ C).
  - intros a b (x & ->)%Hf (y & ->)%Hf. rewrite !Hc, (cmp_antisym _ C x y). eauto.
  - intros a b c (x & ->)%Hf (y & ->)%Hf (z & ->)%Hf. rewrite !Hc. intros H1 H2 H3.
    apply (cmp_trans _ C x y z); congruence.
Qed.

Lemma compare_values_family r :
  family_laws (fun v => scalar_matches r v = true) compare_values.
Proof.
  assert (ZC : CmpLaws Z.compare) by apply (Z_cmp_laws (fun z => z)).
  destruct r;
    [ apply (family_of _ VBool bool_cmp) | apply (family_of _ VTruth Truth.cmp)
    | apply (family_of _ VInt Z.compare) | apply (family_of _ VUInt Z.compare)
    | apply (family_of _ VFloat32 (float_total_cmp binary32))
    | apply (family_of _ VFloat64 (float_total_cmp binary64))
    | apply (family_of _ VDecimal dec_cmp) | apply (family_of _ VChar Z.compare)
    | apply (family_of _ VString String.compare) | apply (family_of _ VBytes (list_cmp Z.compare))
    | apply (family_of _ VUuid uuid_cmp) | apply (family_of _ VDate date_cmp)
    | apply (family_of _ VTime time_cmp) | apply (family_of _ VLocalDateTime ldt_cmp)
    | apply (family_of _ VInstant instant_cmp) | apply (family_of _ VDuration duration_cmp) ];
    try (intros [] Hm; try discriminate Hm; eexists; reflexivity); try (intros; reflexivity);
    try exact ZC.
  - apply bool_cmp_laws.
  - split; intros; repeat match goal with b : Truth |- _ => destruct b end; done.
  - apply (Z_cmp_laws (total_key binary32)).
  - apply (Z_cmp_laws (total_key binary64)).
  - apply decimal_ord.
  - exact (kcmp_laws (K:=string)).
  - by apply list_cmp_laws.
  - apply uuid_ord.
  - apply date_ord.
  - apply time_ord.
  - apply ldt_ord.
  - apply instant_ord.
  - apply duration_ord.
Qed.

Lemma compare_datums_family r : family_laws (in_family r) compare_datums.
Proof.
  destruct (compare_values_family r) as (H1 & H2 & H3). split_and!.
  - intros [] Ha; simpl; auto.
  - intros [| |a] [| |b] Ha Hb; simpl; eauto.
  - intros [| |a] [| |b] [| |c] Ha Hb Hc; simpl; try done. by apply H3.
Qed.
End Order.

(** ** Properties *)
Section Claims.
Context {F : Foreign} {L : ForeignLaws F}.

(** C15: [validate_datum] decides conformance: a datum is accepted exactly when
    it is missing and the field optional, null and the type nullable, or a
    value that conforms to the type's shape at every level (scalar widths,
    nested nullability, distinct map keys, tuple arity, known and required
    record fields). *)
Theorem validate_datum_exact ty presence (d : Datum) :
  validate_datum ty presence d = Ok tt <->
  match d with
  | Missing => presence = Optional
  | Null => ty_nullability ty = Nullable
  | DValue v => conforms ty v
  end.
Proof.
  destruct d; simpl.
  - by destruct presence.
  - rewrite check_ok. apply is_nullable_true.
  - apply validate_value_conforms.
Qed.

(** Equality of validated values is symmetric and transitive, maps
    compared as sets of entries included, and is reflexive exactly on the
    values without NaN. *)
Theorem validated_equality ty (a b c : Value) :
  validate_value ty a = Ok tt -> rust_value a = true ->
  (value_eqb a b = true -> value_eqb b a = true) /\
  (value_eqb a b = true -> value_eqb b c = true -> value_eqb a c = true) /\
  (value_eqb a a = true <-> nan_free a = true).
Proof.
  intros Ha%validate_value_conforms Hr. split_and!.
  - apply value_eqb_sym. by eapply conforms_keys_unique.
  - apply value_eqb_trans.
  - split; [apply value_eqb_nan_free|apply nan_free_refl].
Qed.

(** Within one scalar representation the execution order of datums is
    total and a preorder: defined, reversed when the arguments are swapped,
    transitive, with missing and null first. *)
Theorem compare_datums_total_order r (a b c : Datum) :
  in_family r a -> in_family r b -> in_family r c ->
  compare_datums a a = Some Eq /\
  (exists o, compare_datums a b = Some o /\ compare_datums b a = Some (CompOpp o)) /\
  (compare_datums a b <> Some Gt -> compare_datums b c <> Some Gt -> compare_datums a c <> Some Gt).
Proof.
  intros Ha Hb Hc. destruct (compare_datums_family r) as (H1 & H2 & H3).
  split_and!; [by apply H1|by apply H2|by apply (H3 a b c)].
Qed.
End Claims.

Definition sample_map : @Value sample_foreign :=
  VMap [(DValue (VInt 1), DValue (VString "a")); (DValue (VInt 2), Null)].
Definition sample_map_type : TypeDef :=
  shaped "app/m" 1 (ShMap (scalar "dol/int8" 1 (RInt 8)) (nullable (scalar "dol/string" 1 RString))).

Lemma validated_equality_witness :
  value_eqb (VMap [(DValue (VInt 2), Null); (DValue (VInt 1), DValue (VString "a"))]) sample_map = true.
Proof.
  apply (validated_equality sample_map_type sample_map
    (VMap [(DValue (VInt 2), Null); (DValue (VInt 1), DValue (VString "a"))]) sample_map);
    by vm_compute.
Defined.

Lemma compare_datums_total_order_witness :
  compare_datums (F:=sample_foreign) (DValue (VInt 3)) (DValue (VInt 3)) = Some Eq.
Proof.
  apply (compare_datums_total_order (RInt 8) (DValue (VInt 3)) Null Missing); by vm_compute.
Defined.

(** On unvalidated maps with a repeated key the entry-wise comparison is
    not symmetric, although [PartialEq] requires it: every entry of the left
    map occurs in the right one, but not conversely. *)
Theorem maps_equal_asymmetric :
  let one : Datum (F:=sample_foreign) := DValue (VInt 1) in
  let two := DValue (VInt 2) in
  value_eqb (VMap [(one, one); (one, one)]) (VMap [(one, one); (two, two)]) = true /\
  value_eqb (VMap [(one, one); (two, two)]) (VMap [(one, one); (one, one)]) = false.
Proof. split; vm_compute; reflexivity. Qed.
