(* ===== verification/Sums.v ===== *)
(** * Exact sums ([crates/dol-core/src/semantics/mod.rs], [sum_exact_values])

    Order-independent sums of exact numeric values: terms are accumulated in
    unbounded magnitudes and the representation is checked once, at the end. *)
From Stdlib Require Import ZArith Lia.
From S2P Require Import Prelude Foreign BigMagnitude Types Values.

Local Open Scope Z_scope.

Section Sums.
Context {F : Foreign}.

Definition sum_unsigned_integers (values : list Value) : Result Z :=
  let? total := foldR (fun total v =>
      match v with
      | VUInt u => Ok (BigMagnitude.add_assign total (BigMagnitude.from_u128 u))
      | _ => error "EXPR-EVAL-002"
      end) values [] in
  ok_or (BigMagnitude.to_u128 total) "EXPR-EVAL-003".

Definition add_signed (acc : BigMagnitude.t * BigMagnitude.t) (negative : bool) (m : BigMagnitude.t)
  : BigMagnitude.t * BigMagnitude.t :=
  let '(pos, neg) := acc in
  if negative then (pos, BigMagnitude.add_assign neg m) else (BigMagnitude.add_assign pos m, neg).

Definition signed_magnitudes (values : list Value) (extract : Value -> option Z)
  : Result (BigMagnitude.t * BigMagnitude.t) :=
  foldR (fun acc v =>
    let? z := ok_or (extract v) "EXPR-EVAL-002" in
    Ok (add_signed acc (z <? 0) (BigMagnitude.from_u128 (Z.abs z)))) values ([], []).

(** [i128::try_from(u128)]. *)
Definition i128_of_u128 (m : Z) : option Z := if m <=? i128_max then Some m else None.

Definition signed_i128_result (pos neg : BigMagnitude.t) : Result Z :=
  match BigMagnitude.cmp pos neg with
  | Lt =>
      let? d := BigMagnitude.sub neg pos in
      let? m := ok_or (BigMagnitude.to_u128 d) "EXPR-EVAL-003" in
      if m =? Z.shiftl 1 127 then Ok i128_min
      else rmap Z.opp (ok_or (i128_of_u128 m) "EXPR-EVAL-003")
  | _ =>
      let? d := BigMagnitude.sub pos neg in
      let? m := ok_or (BigMagnitude.to_u128 d) "EXPR-EVAL-003" in
      ok_or (i128_of_u128 m) "EXPR-EVAL-003"
  end.

Definition sum_signed_integers (values : list Value) : Result Z :=
  let? m := signed_magnitudes values (fun v => match v with VInt i => Some i | _ => None end) in
  let '(pos, neg) := m in signed_i128_result pos neg.

(** [for _ in value.scale()..scale { magnitude.mul_small(10) }] *)
Fixpoint mul_tens (n : nat) (m : BigMagnitude.t) : BigMagnitude.t :=
  match n with O => m | S n' => mul_tens n' (BigMagnitude.mul_small m 10) end.

(** The scales, or the error of the first value that is not a decimal. *)
Definition decimal_scales (values : list Value) : Result (list Z) :=
  mapR (fun v => match v with VDecimal d => Ok (dec_scale d) | _ => error "EXPR-EVAL-002" end) values.

Definition add_decimal (scale : Z) (acc : BigMagnitude.t * BigMagnitude.t) (v : Value)
  : Result (BigMagnitude.t * BigMagnitude.t) :=
  match v with
  | VDecimal d =>
      let mantissa := dec_mantissa d in
      let magnitude := mul_tens (Z.to_nat (scale - dec_scale d)) (BigMagnitude.from_u128 (Z.abs mantissa)) in
      Ok (add_signed acc (mantissa <? 0) magnitude)
  | _ => error "EXPR-EVAL-002"
  end.

Definition sum_decimals (values : list Value) : Result Decimal :=
  let? scales := decimal_scales values in
  let scale := foldr Z.max 0 scales in
  let? m := foldR (add_decimal scale) values ([], []) in
  let '(pos, neg) := m in
  let? signed := signed_i128_result pos neg in
  ok_or (dec_try_from_i128_with_scale signed scale) "EXPR-EVAL-003".

Definition sum_exact_values (values : list Value) : Result (option Value) :=
  match values with
  | [] => Ok None
  | VInt _ :: _ => rmap (fun z => Some (VInt z)) (sum_signed_integers values)
  | VUInt _ :: _ => rmap (fun u => Some (VUInt u)) (sum_unsigned_integers values)
  | VDecimal _ :: _ => rmap (fun d => Some (VDecimal d)) (sum_decimals values)
  | _ => error "EXPR-EVAL-002"
  end.

(** ** The mathematical sum *)
Definition zsum (l : list Z) : Z := foldr Z.add 0 l.

Definition bounded_i128 (s : Z) : Result Z := if in_i128 s then Ok s else error "EXPR-EVAL-003".

Import BigMagnitude.

Definition difference (acc : t * t) : Z := value (fst acc) - value (snd acc).
Definition wf_pair (acc : t * t) : Prop := wf (fst acc) /\ wf (snd acc).

Lemma add_signed_spec acc negative m : wf_pair acc -> wf m ->
  wf_pair (add_signed acc negative m) /\
  difference (add_signed acc negative m) = difference acc + if negative then - value m else value m.
Proof.
  destruct acc as [p n]. intros [Hp Hn] Hm. unfold wf_pair, difference in *. simpl in *.
  destruct (add_assign_spec p m Hp Hm), (add_assign_spec n m Hn Hm).
  destruct negative; simpl; split; try split; auto; lia.
Qed.

Lemma abs_term z : in_i128 z = true ->
  wf (from_u128 (Z.abs z)) /\ value (from_u128 (Z.abs z)) = Z.abs z.
Proof.
  unfold in_i128, i128_min, i128_max. intros H. split; [apply from_u128_wf|].
  apply from_u128_value. unfold u128_max. lia.
Qed.

Lemma signed_magnitudes_spec zs acc :
  Forall (fun z => in_i128 z = true) zs -> wf_pair acc ->
  exists acc', foldR (fun acc v =>
      let? z := ok_or (match v with VInt i => Some i | _ => None end) "EXPR-EVAL-002" in
      Ok (add_signed acc (z <? 0) (from_u128 (Z.abs z)))) (map VInt zs) acc = Ok acc' /\
    wf_pair acc' /\ difference acc' = difference acc + zsum zs.
Proof.
  intros H. revert acc. induction H as [|z zs Hz _ IH]; intros acc Hacc; simpl.
  { exists acc. split_and!; [done|done|lia]. }
  destruct (abs_term z Hz) as [Hw Hv].
  destruct (add_signed_spec acc (z <? 0) _ Hacc Hw) as [Hw' Hd].
  destruct (IH _ Hw') as (acc' & E & Hacc' & Hd'). exists acc'. split_and!; [done|done|].
  rewrite Hd', Hd, Hv. destruct (Z.ltb_spec z 0); lia.
Qed.

Lemma signed_i128_result_spec p n : wf p -> wf n ->
  signed_i128_result p n = bounded_i128 (value p - value n).
Proof.
  intros Hp Hn. unfold signed_i128_result, bounded_i128, in_i128, i128_of_u128. rewrite (cmp_spec _ _ Hp Hn).
  pose proof (sub_spec p n Hp Hn) as S1. pose proof (sub_spec n p Hn Hp) as S2.
  assert (E127 : Z.shiftl 1 127 = 170141183460469231731687303715884105728) by reflexivity.
  rewrite E127. unfold i128_min, i128_max.
  destruct (Z.compare_spec (value p) (value n)) as [E|E|E].
  - rewrite (proj2 (Z.ltb_ge _ _)) in S1 by lia. destruct S1 as (d & -> & Hd & Hv). simpl.
    rewrite (to_u128_spec _ Hd), Hv. rewrite E, Z.sub_diag. reflexivity.
  - rewrite (proj2 (Z.ltb_ge _ _)) in S2 by lia. destruct S2 as (d & -> & Hd & Hv). simpl.
    rewrite (to_u128_spec _ Hd), Hv. unfold u128_max.
    repeat match goal with
    | |- context [?a <=? ?b] => destruct (Z.leb_spec a b); simpl
    | |- context [?a =? ?b] => destruct (Z.eqb_spec a b); simpl
    end; try lia; try done; f_equal; lia.
  - rewrite (proj2 (Z.ltb_ge _ _)) in S1 by lia. destruct S1 as (d & -> & Hd & Hv). simpl.
    rewrite (to_u128_spec _ Hd), Hv. unfold u128_max.
    repeat match goal with
    | |- context [?a <=? ?b] => destruct (Z.leb_spec a b); simpl
    end; try lia; done.
Qed.

Lemma mul_tens_spec n m : wf m -> wf (mul_tens n m) /\ value (mul_tens n m) = value m * 10 ^ Z.of_nat n.
Proof.
  revert m. induction n as [|n IH]; intros m Hm; simpl mul_tens; [split; [done|simpl; lia]|].
  destruct (mul_small_spec m 10 Hm ltac:(lia)) as [Hw Hv]. destruct (IH _ Hw) as [? ->].
  split; [done|]. rewrite Hv, Nat2Z.inj_succ, Z.pow_succ_r by lia. lia.
Qed.

Lemma sum_unsigned_spec us : Forall (fun u => in_u128 u = true) us ->
  sum_unsigned_integers (map VUInt us) = if in_u128 (zsum us) then Ok (zsum us) else error "EXPR-EVAL-003".
Proof.
  intros H. unfold sum_unsigned_integers.
  assert (G : forall acc, wf acc -> exists acc', foldR (fun total v =>
      match v with
      | VUInt u => Ok (add_assign total (from_u128 u))
      | _ => error "EXPR-EVAL-002"
      end) (map VUInt us) acc = Ok acc' /\ wf acc' /\ value acc' = value acc + zsum us).
  { clear -H. induction H as [|u us Hu _ IH]; intros acc Hacc; simpl.
    { exists acc. split_and!; [done|done|lia]. }
    unfold in_u128, u128_max in Hu.
    destruct (add_assign_spec acc (from_u128 u) Hacc (from_u128_wf u)) as [Hw Hv].
    destruct (IH _ Hw) as (acc' & E & Hw' & Hv'). exists acc'. split_and!; [done|done|].
    rewrite Hv', Hv, from_u128_value; unfold u128_max; lia. }
  destruct (G [] wf_nil) as (acc & -> & Hw & Hv). simpl. rewrite (to_u128_spec _ Hw), Hv. simpl.
  assert (Hpos : 0 <= zsum us).
  { clear -H. induction H as [|u us Hu]; simpl; [lia|]. unfold in_u128 in Hu. lia. }
  rewrite Z.add_0_l. unfold in_u128. rewrite (proj2 (Z.leb_le 0 _)) by done. simpl. by destruct (_ <=? _).
Qed.

(** The common scale and the mantissas aligned to it. *)
Definition common_scale (ds : list Decimal) : Z := foldr Z.max 0 (map dec_scale ds).
Definition aligned (scale : Z) (d : Decimal) : Z := dec_mantissa d * 10 ^ (scale - dec_scale d).
Definition machine_decimal (d : Decimal) : Prop :=
  in_i128 (dec_mantissa d) = true /\ 0 <= dec_scale d.

Lemma common_scale_ge ds d : d ∈ ds -> dec_scale d <= common_scale ds.
Proof.
  unfold common_scale. induction ds as [|x ds IH]; simpl; [by intros ?%not_elem_of_nil|].
  intros [->|H]%elem_of_cons; [lia|]. specialize (IH H). lia.
Qed.

Lemma sum_decimals_spec ds : Forall machine_decimal ds ->
  sum_decimals (map VDecimal ds) =
  let scale := common_scale ds in
  let? s := bounded_i128 (zsum (map (aligned scale) ds)) in
  ok_or (dec_try_from_i128_with_scale s scale) "EXPR-EVAL-003".
Proof.
  intros H. unfold sum_decimals.
  assert (decimal_scales (map VDecimal ds) = Ok (map dec_scale ds)) as ->.
  { clear. unfold decimal_scales. induction ds as [|d ds IH]; simpl; [done|]. by rewrite IH. }
  cbn [rbind]. fold (common_scale ds). set (scale := common_scale ds).
  assert (Hs : Forall (fun d => machine_decimal d /\ dec_scale d <= scale) ds).
  { rewrite Forall_forall in *. intros d Hd. split; [auto|by apply common_scale_ge]. }
  assert (G : forall acc, wf_pair acc -> exists acc', foldR (add_decimal scale) (map VDecimal ds) acc = Ok acc' /\ wf_pair acc' /\
      difference acc' = difference acc + zsum (map (aligned scale) ds)).
  { clear H. clearbody scale. induction Hs as [|d ds [[Hi H0] Hle] _ IH]; intros acc Hacc; simpl.
    { exists acc. split_and!; [done|done|lia]. }
    destruct (abs_term _ Hi) as [Hw Hv].
    destruct (mul_tens_spec (Z.to_nat (scale - dec_scale d)) _ Hw) as [Hw2 Hv2].
    destruct (add_signed_spec acc (dec_mantissa d <? 0) _ Hacc Hw2) as [Hw3 Hd].
    destruct (IH _ Hw3) as (acc' & E & Hw' & Hv'). exists acc'. split_and!; [done|done|].
    rewrite Hv', Hd, Hv2, Hv, Z2Nat.id by lia. unfold aligned.
    destruct (Z.ltb_spec (dec_mantissa d) 0); [rewrite (Z.abs_neq (dec_mantissa d))|rewrite (Z.abs_eq (dec_mantissa d))]; lia. }
  destruct (G ([], []) (conj wf_nil wf_nil)) as ([p n] & -> & [Hp Hn] & Hd). simpl in Hp, Hn |- *.
  rewrite signed_i128_result_spec by done. unfold difference in Hd. simpl in Hd. by rewrite Hd.
Qed.

Lemma zsum_perm l1 l2 : l1 ≡ₚ l2 -> zsum l1 = zsum l2.
Proof. induction 1; simpl; lia. Qed.

Lemma common_scale_perm l1 l2 : l1 ≡ₚ l2 -> common_scale l1 = common_scale l2.
Proof. unfold common_scale. induction 1; simpl; lia. Qed.

(** ** Properties *)

(** What a non-empty homogeneous input sums to. *)
Inductive exact_input : list Value -> Result (option Value) -> Prop :=
| exact_ints zs : zs <> [] -> Forall (fun z => in_i128 z = true) zs ->
    exact_input (map VInt zs)
      (if in_i128 (zsum zs) then Ok (Some (VInt (zsum zs))) else error "EXPR-EVAL-003")
| exact_uints us : us <> [] -> Forall (fun u => in_u128 u = true) us ->
    exact_input (map VUInt us)
      (if in_u128 (zsum us) then Ok (Some (VUInt (zsum us))) else error "EXPR-EVAL-003")
| exact_decimals ds : ds <> [] -> Forall machine_decimal ds ->
    exact_input (map VDecimal ds)
      (let scale := common_scale ds in
       let s := zsum (map (aligned scale) ds) in
       if in_i128 s then
         match dec_try_from_i128_with_scale s scale with
         | Some d => Ok (Some (VDecimal d))
         | None => error "EXPR-EVAL-003"
         end
       else error "EXPR-EVAL-003").

Lemma sum_exact_input values result :
  exact_input values result -> sum_exact_values values = result.
Proof.
  destruct 1 as [zs Hne H|us Hne H|ds Hne H].
  - assert (sum_exact_values (map VInt zs) = rmap (fun z => Some (VInt z)) (sum_signed_integers (map VInt zs))) as ->
      by (destruct zs; done).
    unfold sum_signed_integers, signed_magnitudes.
    destruct (signed_magnitudes_spec zs ([], []) H (conj wf_nil wf_nil)) as ([p n] & -> & [Hp Hn] & Hd).
    simpl in *. rewrite signed_i128_result_spec by done. unfold difference in Hd. simpl in Hd.
    rewrite Hd. unfold bounded_i128. by destruct (in_i128 _).
  - assert (sum_exact_values (map VUInt us) = rmap (fun z => Some (VUInt z)) (sum_unsigned_integers (map VUInt us))) as ->
      by (destruct us; done).
    rewrite sum_unsigned_spec by done. by destruct (in_u128 _).
  - assert (sum_exact_values (map VDecimal ds) = rmap (fun z => Some (VDecimal z)) (sum_decimals (map VDecimal ds))) as ->
      by (destruct ds; done).
    rewrite sum_decimals_spec by done. simpl. unfold bounded_i128.
    destruct (in_i128 _); simpl; [|done]. by destruct (dec_try_from_i128_with_scale _ _).
Qed.

(** C23: [sum_exact_values] is the mathematical sum: no intermediate overflow
    is observable, the result is reported exactly when the final total fits
    the 128-bit representation (for decimals, the total of the mantissas
    aligned to the largest scale), and is an error otherwise. *)
Theorem sum_exact_values_spec values result :
  exact_input values result -> sum_exact_values values = result.
Proof. apply sum_exact_input. Qed.

(** The sum does not depend on the order of the rows, in value or in
    error. *)
Theorem sum_exact_values_order values values' result :
  exact_input values result -> values ≡ₚ values' -> sum_exact_values values' = sum_exact_values values.
Proof.
  intros H Hp.
  assert (G : exists result', exact_input values' result' /\ result' = result).
  { destruct H as [zs Hne H|us Hne H|ds Hne H]; symmetry in Hp;
      apply Permutation_map_inv in Hp as (l & -> & Hl); eexists.
    - split; [apply exact_ints; [by intros ->; apply Permutation_nil_r in Hl|by rewrite <- Hl]|].
      by rewrite (zsum_perm _ _ Hl).
    - split; [apply exact_uints; [by intros ->; apply Permutation_nil_r in Hl|by rewrite <- Hl]|].
      by rewrite (zsum_perm _ _ Hl).
    - split; [apply exact_decimals; [by intros ->; apply Permutation_nil_r in Hl|by rewrite <- Hl]|].
      cbv zeta. rewrite (common_scale_perm _ _ Hl).
      by rewrite (zsum_perm _ _ (Permutation_map (aligned (common_scale l)) Hl)). }
  destruct G as (r & G & ->). by rewrite (sum_exact_input _ _ G), (sum_exact_input _ _ H).
Qed.
End Sums.

Definition sample_terms : list (@Value sample_foreign) := map VInt [i128_max; 1; -1].

Lemma sum_exact_values_spec_witness : sum_exact_values sample_terms = Ok (Some (VInt i128_max)).
Proof.
  apply (sum_exact_values_spec sample_terms). unfold sample_terms.
  apply (exact_ints [i128_max; 1; -1]); [discriminate|].
  repeat (apply Forall_cons_2; [vm_compute; reflexivity|]). apply Forall_nil_2.
Defined.

Lemma sum_exact_values_order_witness :
  sum_exact_values (map VInt [1; i128_max; -1]) = sum_exact_values sample_terms.
Proof.
  apply (sum_exact_values_order sample_terms _ (Ok (Some (VInt i128_max)))).
  - apply (exact_ints [i128_max; 1; -1]); [discriminate|].
    repeat (apply Forall_cons_2; [vm_compute; reflexivity|]). apply Forall_nil_2.
  - apply Permutation_swap.
Defined.
