(* ===== verification/Fingerprint.v ===== *)
(** * Canonical fingerprints ([crates/dol-core/src/fingerprint/mod.rs])

    The byte streams fed to the digest.  [CanonicalHasher] only appends, so
    its state is the list of bytes written so far; [finish] digests it. *)
From Stdlib Require Import ZArith Lia.
From S2P Require Import Prelude Floats Foreign Truth BTree Text Types Values.

Local Open Scope Z_scope.

(** ** Byte layout *)
(** [to_le_bytes] of a machine integer of [n] bytes (two's complement). *)
Fixpoint le_bytes (n : nat) (z : Z) : list Z :=
  match n with O => [] | S n' => z mod 256 :: le_bytes n' (z / 256) end.

Definition h_u8 (z : Z) : list Z := [z].
Definition h_u32 (z : Z) : list Z := le_bytes 4 z.
Definition h_u64 (z : Z) : list Z := le_bytes 8 z.
Definition h_bytes (b : list Z) : list Z := h_u64 (zlen b) ++ b.
Definition h_str (s : string) : list Z := h_bytes (bytes_of s).
Definition h_bool (b : bool) : list Z := h_u8 (if b then 1 else 0).

(** [CanonicalHasher::new(domain)]: ["DOL\0"] and the length-prefixed domain. *)
Definition hasher_new (domain : string) : list Z := [68; 79; 76; 0] ++ h_str domain.

(** ** Types *)
Definition hash_properties (p : TypeProperties) : list Z :=
  h_bool (equality p) ++ h_bool (ordering p) ++ h_bool (keyable p) ++ h_bool (numeric p) ++
  h_bool (integral p) ++ h_bool (exact_numeric p) ++ h_bool (temporal p) ++ h_bool (collection p).

Definition hash_parameter (p : string * TypeParameter) : list Z :=
  h_str (fst p) ++
  match snd p with
  | TPBool b => h_u8 0 ++ h_bool b
  | TPInt i => h_u8 1 ++ h_bytes (le_bytes 8 i)
  | TPUInt u => h_u8 2 ++ h_u64 u
  | TPString s => h_u8 3 ++ h_str s
  end.

Definition hash_repr (r : ScalarRepr) : list Z :=
  match r with
  | RBool => [0] | RInt bits => [1; bits] | RUInt bits => [2; bits]
  | RFloat32 => [3] | RFloat64 => [4] | RDecimal => [5] | RChar => [6] | RString => [7]
  | RBytes => [8] | RUuid => [9] | RDate => [10] | RTime => [11] | RLocalDateTime => [12]
  | RInstant => [13] | RDuration => [14] | RTruth => [15]
  end.

Definition hash_nullability (n : Nullability) : list Z :=
  h_u8 (match n with NonNull => 0 | Nullable => 1 end).
Definition hash_presence (p : Presence) : list Z :=
  h_u8 (match p with Required => 0 | Optional => 1 end).

Fixpoint hash_type_def (t : TypeDef) : list Z :=
  let '(mkTypeDef key version shape nullability properties parameters) := t in
  h_str key ++ h_u32 version ++ hash_nullability nullability ++ hash_properties properties ++
  h_u64 (zlen parameters) ++ flat_map hash_parameter parameters ++
  match shape with
  | ShScalar r => h_u8 0 ++ hash_repr r
  | ShList e => h_u8 1 ++ hash_type_def e
  | ShMap k v => h_u8 2 ++ hash_type_def k ++ hash_type_def v
  | ShTuple es => h_u8 3 ++ h_u64 (zlen es) ++ flat_map hash_type_def es
  | ShRecord fs =>
      h_u8 4 ++ h_u64 (zlen fs) ++
      flat_map (fun f => let '(mkRecordField n e p) := f in
                         h_str n ++ hash_presence p ++ hash_type_def e) fs
  end.

Section Digest.
Context {F : Foreign}.

Definition Fingerprint := list Z.
Definition finish (stream : list Z) : Fingerprint := blake3 stream.

Definition fingerprint_type_def (t : TypeDef) : Fingerprint :=
  finish (hasher_new "type/v1" ++ hash_type_def t).

(** [Ord for Fingerprint]: lexicographic on the digest bytes. *)
Definition fingerprint_cmp : Fingerprint -> Fingerprint -> comparison := list_cmp Z.compare.

Definition hex_digit (d : Z) : Ascii.ascii :=
  Ascii.ascii_of_nat (Z.to_nat (if d <? 10 then 48 + d else 87 + d)).

Fixpoint hex (bytes : list Z) : string :=
  match bytes with
  | [] => EmptyString
  | b :: bytes' =>
      String (hex_digit (Z.shiftr b 4)) (String (hex_digit (Z.land b 15)) (hex bytes'))
  end.

(** [TypeDef::tuple]: the lineage is addressed by the element definitions. *)
Definition tuple (elements : list TypeDef) : TypeDef :=
  let fingerprint := finish (hasher_new "type/tuple-lineage/v1" ++ h_u64 (zlen elements) ++
    flat_map (fun e => h_bytes (fingerprint_type_def e)) elements) in
  shaped (String.append "dol/tuple/" (hex fingerprint)) 1 (ShTuple elements).

(** ** Values *)
Definition canonical_f32_bits (b : Z) : Z :=
  if is_nan binary32 b then 0x7fc00000 else if is_zero binary32 b then 0 else b.
Definition canonical_f64_bits (b : Z) : Z :=
  if is_nan binary64 b then 0x7ff8000000000000 else if is_zero binary64 b then 0 else b.

Definition hash_time (t : TimeOfDay) : list Z :=
  h_u8 (time_hour t) ++ h_u8 (time_minute t) ++ h_u8 (time_second t) ++ h_u32 (time_nanosecond t).

Definition map_entry_fingerprint (key value : list Z) : Fingerprint :=
  finish (hasher_new "datum/map-entry/v1" ++ key ++ value).

Fixpoint hash_value (v : Value) : list Z :=
  match v with
  | VBool b => h_u8 0 ++ h_bool b
  | VTruth t => h_u8 1 ++ h_u8 (Z.of_nat (Truth.rank t))
  | VInt i => h_u8 2 ++ h_bytes (le_bytes 16 i)
  | VUInt u => h_u8 3 ++ h_bytes (le_bytes 16 u)
  | VFloat32 b => h_u8 4 ++ h_u32 (canonical_f32_bits b)
  | VFloat64 b => h_u8 5 ++ h_u64 (canonical_f64_bits b)
  | VDecimal d =>
      let n := dec_normalize d in
      h_u8 6 ++ h_bytes (le_bytes 16 (dec_mantissa n)) ++ h_u32 (dec_scale n)
  | VChar c => h_u8 7 ++ h_u32 c
  | VString s => h_u8 8 ++ h_str s
  | VBytes b => h_u8 9 ++ h_bytes b
  | VUuid u => h_u8 10 ++ h_bytes (uuid_bytes u)
  | VDate d => h_u8 11 ++ h_bytes (le_bytes 4 (date_julian_day d))
  | VTime t => h_u8 12 ++ hash_time t
  | VLocalDateTime l =>
      h_u8 13 ++ h_bytes (le_bytes 4 (date_julian_day (ldt_date l))) ++ hash_time (ldt_time l)
  | VInstant i => h_u8 14 ++ h_bytes (le_bytes 16 (instant_nanos i))
  | VDuration d => h_u8 15 ++ h_bytes (le_bytes 16 (duration_nanos d))
  | VList l => h_u8 16 ++ h_u64 (zlen l) ++ flat_map hash_datum l
  | VMap l =>
      (* hash_map: the entries' fingerprints in sorted order *)
      let fingerprints := map (fun e => let '(k, d) := e in
                                map_entry_fingerprint (hash_datum k) (hash_datum d)) l in
      h_u8 17 ++ h_u64 (zlen fingerprints) ++
      flat_map h_bytes (sort_by fingerprint_cmp fingerprints)
  | VTuple l => h_u8 18 ++ h_u64 (zlen l) ++ flat_map hash_datum l
  | VRecord m =>
      h_u8 19 ++ h_u64 (zlen m) ++
      flat_map (fun f => let '(n, d) := f in h_str n ++ hash_datum d) m
  end
with hash_datum (d : Datum) : list Z :=
  match d with
  | Missing => h_u8 0
  | Null => h_u8 1
  | DValue v => h_u8 2 ++ hash_value v
  end.

Definition fingerprint_datum (ty : TypeDef) (d : Datum) : Result Fingerprint :=
  validate_datum ty Optional d ;;?
  Ok (finish (hasher_new "datum/v1" ++ hash_type_def ty ++ hash_datum d)).
End Digest.

(** ** Prefix-free encodings *)
Definition prefix_free {A} (P : A -> Prop) (enc : A -> list Z) : Prop :=
  forall a b r s, P a -> P b -> enc a ++ r = enc b ++ s -> a = b /\ r = s.

Lemma le_bytes_length n z : length (le_bytes n z) = n.
Proof. revert z. induction n; simpl; auto. Qed.

Lemma le_bytes_mod n z z' : le_bytes n z = le_bytes n z' -> z mod 256 ^ Z.of_nat n = z' mod 256 ^ Z.of_nat n.
Proof.
  revert z z'. induction n as [|n IH]; intros z z' H; [by rewrite !Z.mod_1_r|].
  simpl in H. injection H as H1 H2%IH. rewrite Nat2Z.inj_succ, Z.pow_succ_r by lia.
  rewrite !Z.rem_mul_r; [by rewrite H1, H2|lia|apply Z.pow_pos_nonneg; lia|lia|apply Z.pow_pos_nonneg; lia].
Qed.

Lemma prefix_fixed {A} (P : A -> Prop) (enc : A -> list Z) n :
  (forall a, P a -> length (enc a) = n) ->
  (forall a b, P a -> P b -> enc a = enc b -> a = b) -> prefix_free P enc.
Proof.
  intros Hl Hi a b r s Ha Hb H. apply app_inj_1 in H as [H ->]; [auto|].
  by rewrite (Hl a Ha), (Hl b Hb).
Qed.

Lemma le_unsigned_free n : prefix_free (fun z => 0 <= z < 256 ^ Z.of_nat n) (le_bytes n).
Proof.
  apply (prefix_fixed _ _ n); [intros; apply le_bytes_length|].
  intros a b Ha Hb H%le_bytes_mod. by rewrite !Z.mod_small in H.
Qed.

Lemma h_u64_free : prefix_free (fun z => 0 <= z < 2 ^ 64) h_u64.
Proof. exact (le_unsigned_free 8). Qed.
Lemma h_u32_free : prefix_free (fun z => 0 <= z < 2 ^ 32) h_u32.
Proof. exact (le_unsigned_free 4). Qed.

Lemma zlen_nonneg {A} (l : list A) : 0 <= zlen l.
Proof. unfold zlen. lia. Qed.

Lemma h_u8_free : prefix_free (fun _ => True) h_u8.
Proof. intros a b r s _ _ [= -> ->]. done. Qed.

Lemma h_bytes_free : prefix_free (fun b => zlen b < 2 ^ 64) h_bytes.
Proof.
  intros a b r s Ha Hb. unfold h_bytes. rewrite <- !app_assoc. intros H.
  pose proof (zlen_nonneg a). pose proof (zlen_nonneg b).
  apply h_u64_free in H as [Hl H]; [|lia..].
  apply app_inj_1 in H; [done|]. unfold zlen in Hl. lia.
Qed.

Lemma h_str_free : prefix_free (fun s => zstrlen s < 2 ^ 64) h_str.
Proof.
  intros a b r s Ha Hb H. unfold h_str in H. apply h_bytes_free in H as [H ->].
  - split; [by apply bytes_of_inj|done].
  - unfold zlen. by rewrite bytes_of_length.
  - unfold zlen. by rewrite bytes_of_length.
Qed.

(** Sequential composition: the tail is decoded knowing the head. *)
Lemma prefix_pair {A B} (P : A -> Prop) (Q : B -> Prop) (f : A -> list Z) (g : B -> list Z) :
  prefix_free P f -> prefix_free Q g ->
  prefix_free (fun x : A * B => P (fst x) /\ Q (snd x)) (fun x => f (fst x) ++ g (snd x)).
Proof.
  intros Hf Hg [a b] [c d] r s [Pa Qb] [Pc Qd]. simpl in *. rewrite <- !app_assoc.
  intros [<- H]%Hf; [|done|done]. apply Hg in H as [<- ->]; done.
Qed.

(** A counted sequence of encodings. *)
Lemma prefix_seq {A} (f : A -> list Z) (l1 l2 : list A) r s :
  Forall (fun a => forall b r s, b ∈ l2 -> f a ++ r = f b ++ s -> a = b /\ r = s) l1 ->
  length l1 = length l2 -> flat_map f l1 ++ r = flat_map f l2 ++ s -> l1 = l2 /\ r = s.
Proof.
  revert l2. induction l1 as [|a l1 IH]; intros [|b l2] H Hl; simpl; try done.
  rewrite <- !app_assoc. apply Forall_cons in H as [Ha H]. intros [<- E]%Ha; [|by left].
  apply IH in E as [<- ->]; [done| |simpl in Hl; lia].
  eapply Forall_impl; [exact H|]. intros x Hx y r' s' Hy. apply Hx. by right.
Qed.

Lemma prefix_counted {A} (f : A -> list Z) (l1 l2 : list A) r s :
  zlen l1 < 2 ^ 64 -> zlen l2 < 2 ^ 64 ->
  Forall (fun a => forall b r s, b ∈ l2 -> f a ++ r = f b ++ s -> a = b /\ r = s) l1 ->
  h_u64 (zlen l1) ++ flat_map f l1 ++ r = h_u64 (zlen l2) ++ flat_map f l2 ++ s -> l1 = l2 /\ r = s.
Proof.
  intros H1 H2 Hf H. pose proof (zlen_nonneg l1). pose proof (zlen_nonneg l2).
  apply h_u64_free in H as [Hl H]; [|lia..].
  apply prefix_seq in H; [done|done|unfold zlen in Hl; lia].
Qed.

(** ** Type definitions are uniquely decodable *)
Definition machine_parameter (p : string * TypeParameter) : Prop :=
  zstrlen (fst p) < 2 ^ 64 /\
  match snd p with
  | TPBool _ => True
  | TPInt i => - 2 ^ 63 <= i < 2 ^ 63
  | TPUInt u => 0 <= u < 2 ^ 64
  | TPString s => zstrlen s < 2 ^ 64
  end.

Definition machine_shape (s : TypeShape) : Prop :=
  match s with
  | ShTuple es => zlen es < 2 ^ 64
  | ShRecord fs => zlen fs < 2 ^ 64 /\ Forall (fun f => zstrlen (field_name f) < 2 ^ 64) fs
  | _ => True
  end.

(** Machine widths of one node: the version is a [u32], lengths are [u64]. *)
Definition machine_node (t : TypeDef) : Prop :=
  zstrlen (ty_key t) < 2 ^ 64 /\ 0 <= ty_version t < 2 ^ 32 /\
  zlen (ty_parameters t) < 2 ^ 64 /\ Forall machine_parameter (ty_parameters t) /\
  machine_shape (ty_shape t).

Definition machine_type (t : TypeDef) : Prop := Forall machine_node (subtypes t).

Lemma machine_type_eq t : machine_type t <-> machine_node t /\ Forall machine_type (type_children t).
Proof. unfold machine_type. by rewrite subtypes_eq, Forall_cons, Forall_flat_map. Qed.

Lemma h_bool_free : prefix_free (fun _ => True) h_bool.
Proof. intros [] [] r s _ _ [=]; auto. Qed.
Lemma hash_nullability_free : prefix_free (fun _ => True) hash_nullability.
Proof. intros [] [] r s _ _ [=]; auto. Qed.
Lemma hash_presence_free : prefix_free (fun _ => True) hash_presence.
Proof. intros [] [] r s _ _ [=]; auto. Qed.
Lemma hash_repr_free : prefix_free (fun _ => True) hash_repr.
Proof. intros [] [] r s _ _ [=]; subst; auto. Qed.

Lemma hash_properties_free : prefix_free (fun _ => True) hash_properties.
Proof.
  intros [] [] r s _ _. unfold hash_properties. simpl. intros [=]; subst.
  repeat match goal with
  | H : (if ?a then 1 else 0) = (if ?b then 1 else 0) |- _ =>
      assert (a = b) by (by destruct a, b); clear H; subst
  end. done.
Qed.

Lemma mod_inj m lo a b :
  lo <= a < lo + m -> lo <= b < lo + m -> a mod m = b mod m -> a = b.
Proof.
  intros Ha Hb E. pose proof (Z.div_mod a m ltac:(lia)). pose proof (Z.div_mod b m ltac:(lia)).
  rewrite E in H. set (r := b mod m) in *. clearbody r. assert (a / m = b / m) by nia. nia.
Qed.

Lemma hash_parameter_free : prefix_free machine_parameter hash_parameter.
Proof.
  intros [n a] [m b] r s [Hn Ha] [Hm Hb] H. simpl in Hn, Ha, Hm, Hb.
  unfold hash_parameter in H. cbn [fst snd] in H. rewrite <- !app_assoc in H. apply h_str_free in H as [<- H]; [|done..].
  destruct a, b; rewrite <- ?app_assoc in H; apply h_u8_free in H as [E H]; try done.
  - by apply h_bool_free in H as [<- ->].
  - apply h_bytes_free in H as [Hz ->]; [|unfold zlen; rewrite le_bytes_length; done..].
    apply le_bytes_mod in Hz. split; [|done]. do 2 f_equal.
    by apply (mod_inj (2 ^ 64) (- 2 ^ 63)).
  - by apply h_u64_free in H as [-> ->].
  - by apply h_str_free in H as [-> ->].
Qed.

Lemma parameters_free (l1 l2 : list (string * TypeParameter)) r s :
  zlen l1 < 2 ^ 64 -> zlen l2 < 2 ^ 64 -> Forall machine_parameter l1 -> Forall machine_parameter l2 ->
  h_u64 (zlen l1) ++ flat_map hash_parameter l1 ++ r = h_u64 (zlen l2) ++ flat_map hash_parameter l2 ++ s ->
  l1 = l2 /\ r = s.
Proof.
  intros H1 H2 F1 F2. apply prefix_counted; [done|done|].
  rewrite Forall_forall in *. intros a Ha b r' s' Hb. apply hash_parameter_free; auto.
Qed.

Definition injective_at (a : TypeDef) : Prop :=
  machine_type a -> forall b r s, machine_type b ->
  hash_type_def a ++ r = hash_type_def b ++ s -> a = b /\ r = s.

Lemma fields_injective fs1 fs2 r s :
  Forall (fun f => injective_at (field_ty f) /\ machine_type (field_ty f) /\ zstrlen (field_name f) < 2 ^ 64) fs1 ->
  Forall (fun f => machine_type (field_ty f) /\ zstrlen (field_name f) < 2 ^ 64) fs2 ->
  zlen fs1 < 2 ^ 64 -> zlen fs2 < 2 ^ 64 ->
  let enc f := let '(mkRecordField n e p) := f in h_str n ++ hash_presence p ++ hash_type_def e in
  h_u64 (zlen fs1) ++ flat_map enc fs1 ++ r = h_u64 (zlen fs2) ++ flat_map enc fs2 ++ s ->
  fs1 = fs2 /\ r = s.
Proof.
  intros F1 F2 H1 H2 enc. apply prefix_counted; [done|done|].
  rewrite Forall_forall in *. intros [n e p] Ha [m e' p'] r' s' Hb. simpl.
  destruct (F1 _ Ha) as (Hi & Hm & Hl), (F2 _ Hb) as (Hm' & Hl'). simpl in *.
  rewrite <- !app_assoc. intros [<- H]%h_str_free; [|done..].
  apply hash_presence_free in H as [<- H]; [|done..]. by apply Hi in H as [<- ->].
Qed.

Lemma tuple_injective es1 es2 r s :
  Forall injective_at es1 -> Forall machine_type es1 -> Forall machine_type es2 ->
  zlen es1 < 2 ^ 64 -> zlen es2 < 2 ^ 64 ->
  h_u64 (zlen es1) ++ flat_map hash_type_def es1 ++ r = h_u64 (zlen es2) ++ flat_map hash_type_def es2 ++ s ->
  es1 = es2 /\ r = s.
Proof.
  intros Hi F1 F2 H1 H2. apply prefix_counted; [done|done|].
  rewrite Forall_forall in *. intros a Ha b r' s' Hb. by apply Hi; auto.
Qed.

Lemma hash_type_def_injective a : injective_at a.
Proof.
  induction a as [k v sh n p ps IH] using type_ind'. intros [Ma Ca]%machine_type_eq [k' v' sh' n' p' ps'] r s
    [Mb Cb]%machine_type_eq.
  destruct Ma as (Mk & Mv & Mp & Mps & Msh), Mb as (Mk' & Mv' & Mp' & Mps' & Msh').
  unfold type_children in *. simpl in * |-. cbn [hash_type_def]. rewrite <- !app_assoc. intros H.
  apply h_str_free in H as [<- H]; [|done..].
  apply h_u32_free in H as [<- H]; [|done..].
  apply hash_nullability_free in H as [<- H]; [|done..].
  apply hash_properties_free in H as [<- H]; [|done..].
  apply parameters_free in H as [<- H]; [|done..].
  enough (sh = sh' /\ r = s) as [<- <-] by done.
  destruct sh as [x|e|x y|es|fs], sh' as [x'|e'|x' y'|es'|fs']; try (simpl in H; discriminate H);
    rewrite <- !app_assoc in H; apply h_u8_free in H as [_ H]; try done; simpl in IH, Ca, Cb.
  - by apply hash_repr_free in H as [<- ->].
  - rewrite Forall_singleton in *. by apply IH in H as [<- ->].
  - rewrite Forall_cons, Forall_singleton in *. destruct IH as [I1 I2], Ca, Cb.
    apply I1 in H as [<- H]; [|done..]. by apply I2 in H as [<- ->].
  - by apply tuple_injective in H as [<- ->].
  - destruct Msh as [Hl Hn], Msh' as [Hl' Hn'].
    rewrite Forall_map in *. apply fields_injective in H as [<- ->]; [done| | |done|done].
    + rewrite Forall_forall in *. intros f Hf. split_and!; auto.
    + rewrite Forall_forall in *. intros f Hf. split_and!; auto.
Qed.

(** ** Equal values have equal streams *)
Lemma float_bits fmt b : 0 < width fmt -> 0 <= b < 2 ^ width fmt ->
  b = float_magnitude fmt b + if float_sign fmt b then 2 ^ (width fmt - 1) else 0.
Proof.
  intros Hw Hb. unfold float_magnitude, float_sign. set (n := width fmt - 1) in *.
  assert (Hp : 0 < 2 ^ n) by (apply Z.pow_pos_nonneg; lia).
  replace (width fmt) with (Z.succ n) in Hb by lia. rewrite Z.pow_succ_r in Hb by lia.
  rewrite Z.testbit_odd, Z.shiftr_div_pow2 by lia.
  pose proof (Z.div_mod b (2 ^ n) ltac:(lia)) as E. pose proof (Z.mod_pos_bound b (2 ^ n) Hp).
  assert (b / 2 ^ n = 0 \/ b / 2 ^ n = 1) as [Hq|Hq] by nia; rewrite Hq in E |- *; simpl; lia.
Qed.

Lemma float_eqb_bits fmt a b : 0 < width fmt -> 0 <= a < 2 ^ width fmt -> 0 <= b < 2 ^ width fmt ->
  float_eqb fmt a b = true -> is_zero fmt a = is_zero fmt b /\ (is_zero fmt a = false -> a = b).
Proof.
  intros Hw Ha Hb H%float_eqb_key. unfold float_key in H.
  pose proof (float_bits fmt a Hw Ha) as Ea. pose proof (float_bits fmt b Hw Hb) as Eb.
  pose proof (float_magnitude_nonneg fmt a Hw). pose proof (float_magnitude_nonneg fmt b Hw).
  unfold is_zero. destruct (float_sign fmt a), (float_sign fmt b);
    destruct (Z.eqb_spec (float_magnitude fmt a) 0), (Z.eqb_spec (float_magnitude fmt b) 0);
    split; try done; try lia.
Qed.

Lemma list_cmp_eq (a b : list Z) : list_cmp Z.compare a b = Eq -> a = b.
Proof.
  revert b. induction a as [|x a IH]; intros [|y b]; simpl; try done.
  destruct (Z.compare_spec x y) as [->| |]; try done. by intros ->%IH.
Qed.

Section Hashing.
Context {F : Foreign} {L : ForeignLaws F}.

Definition hash_eq_at (a : Value) : Prop :=
  keys_unique a = true -> rust_value a = true ->
  forall b, rust_value b = true -> value_eqb a b = true -> hash_value a = hash_value b.

Definition datum_hash_eq_at (a : Datum) : Prop :=
  forall b, holds_at rust_node b -> datum_eqb a b = true -> hash_datum a = hash_datum b.

Lemma children_hash_eq l : Forall (on_datum hash_eq_at) l -> Forall (holds_at map_distinct) l ->
  Forall (holds_at rust_node) l -> Forall datum_hash_eq_at l.
Proof.
  rewrite !Forall_forall. intros H1 H2 H3 d Hd b Hb. specialize (H1 d Hd). specialize (H2 d Hd).
  specialize (H3 d Hd). destruct d, b; simpl; try done. intros E. f_equal. by apply H1.
Qed.

Lemma hash_datums_eq l1 l2 : Forall datum_hash_eq_at l1 -> Forall (holds_at rust_node) l2 ->
  forallb2 datum_eqb l1 l2 = true -> zlen l1 = zlen l2 /\ flat_map hash_datum l1 = flat_map hash_datum l2.
Proof.
  intros H. revert l2. induction H as [|d l1 Hd _ IH]; intros [|d' l2]; simpl; try done.
  intros [H1 H2]%Forall_cons. rewrite andb_true_iff. intros [E1 E2].
  destruct (IH l2 H2 E2) as [El Ef]. rewrite (Hd d' H1 E1), Ef. unfold zlen in *. simpl. split; [lia|done].
Qed.

Lemma hash_fields_eq l1 l2 : Forall datum_hash_eq_at (map snd l1) -> Forall (holds_at rust_node) (map snd l2) ->
  forallb2 field_datum_eqb l1 l2 = true ->
  let enc (f : string * Datum) := let '(n, d) := f in h_str n ++ hash_datum d in
  zlen l1 = zlen l2 /\ flat_map enc l1 = flat_map enc l2.
Proof.
  intros H H2 E enc. revert l2 H2 E. induction l1 as [|[n d] l1 IH]; intros [|[n' d'] l2]; simpl; try done.
  simpl in H. apply Forall_cons in H as [Hd H]. intros [H1 H2]%Forall_cons.
  unfold field_datum_eqb at 1. simpl. rewrite !andb_true_iff, String.eqb_eq. intros [[-> E1] E2].
  destruct (IH H l2 H2 E2) as [El Ef]. rewrite (Hd d' H1 E1), Ef. unfold zlen in *. simpl. split; [lia|done].
Qed.

Definition entry_fingerprint (e : Datum * Datum) : Fingerprint :=
  map_entry_fingerprint (hash_datum (fst e)) (hash_datum (snd e)).

Lemma map_fingerprints l :
  map (fun e => let '(k, d) := e in map_entry_fingerprint (hash_datum k) (hash_datum d)) l =
  map entry_fingerprint l.
Proof. apply map_ext. by intros []. Qed.

Lemma hash_map_eq l r :
  Forall (fun e => datum_hash_eq_at (fst e) /\ datum_hash_eq_at (snd e)) l ->
  Forall (fun e => holds_at rust_node (fst e) /\ holds_at rust_node (snd e)) r ->
  (exists r', r' ≡ₚ r /\ Forall2 (fun x y => entry_eqb x y = true) l r') ->
  map entry_fingerprint l ≡ₚ map entry_fingerprint r.
Proof.
  intros Hl Hr (r' & Hp & Hf). rewrite <- Hp. rewrite <- Hp in Hr. clear Hp r.
  assert (E : map entry_fingerprint l = map entry_fingerprint r'); [|by rewrite E].
  induction Hf as [|x y l r' Hxy _ IH]; simpl; [done|].
  apply Forall_cons in Hl as [[? ?] ?], Hr as [[? ?] ?]. unfold entry_eqb in Hxy.
  apply andb_true_iff in Hxy as [E1 E2]. f_equal; [|by apply IH].
  unfold entry_fingerprint. f_equal; auto.
Qed.

Lemma pairs_forall (P : Datum -> Prop) (l : list (Datum * Datum)) :
  Forall P (flat_map (fun e => [fst e; snd e]) l) <-> Forall (fun e => P (fst e) /\ P (snd e)) l.
Proof.
  rewrite Forall_flat_map. apply Forall_iff_in, Forall_forall. intros [a b] _.
  rewrite !Forall_cons. simpl. pose proof (Forall_nil_2 P). tauto.
Qed.

Lemma value_eqb_hash a : hash_eq_at a.
Proof.
  induction a as [a IH] using value_ind'. intros Hu Hr b Hb E.
  pose proof Hu as [Hu1 Hu2]%everywhere_eq. pose proof Hr as [Hr1 Hr2]%everywhere_eq.
  apply everywhere_eq in Hb as [Hb1 Hb2].
  pose proof (children_hash_eq _ IH Hu2 Hr2) as S. clear IH.
  destruct a, b; try discriminate E; simpl in Hr1, Hb1, S, Hb2, Hu2; cbn [hash_value].
  - simpl in E. by apply Bool.eqb_true_iff in E as ->.
  - simpl in E. by apply Truth.eqb_eq in E as ->.
  - simpl in E. by apply Z.eqb_eq in E as ->.
  - simpl in E. by apply Z.eqb_eq in E as ->.
  - do 2 f_equal. pose proof (float_eqb_not_nan _ _ _ E) as [N1 N2].
    destruct (float_eqb_bits binary32 bits bits0) as [Z1 Z2]; [done|simpl; lia..|done|].
    unfold canonical_f32_bits. rewrite N1, N2, Z1. rewrite Z1 in Z2. clear Z1. destruct (is_zero _ bits0); auto.
  - do 2 f_equal. pose proof (float_eqb_not_nan _ _ _ E) as [N1 N2].
    destruct (float_eqb_bits binary64 bits bits0) as [Z1 Z2]; [done|simpl; lia..|done|].
    unfold canonical_f64_bits. rewrite N1, N2, Z1. rewrite Z1 in Z2. clear Z1. destruct (is_zero _ bits0); auto.
  - apply normalize_eq in E as [E1 E2]. cbv zeta. by rewrite E1, E2.
  - simpl in E. by apply Z.eqb_eq in E as ->.
  - simpl in E. by apply String.eqb_eq in E as ->.
  - simpl in E. by apply bytes_eqb_eq in E as ->.
  - by rewrite (uuid_bytes_eq _ _ E).
  - by rewrite (date_julian_eq _ _ E).
  - unfold hash_time. by destruct (time_parts_eq _ _ E) as (-> & -> & -> & ->).
  - destruct (ldt_parts_eq _ _ E) as [E1 E2]. unfold hash_time. rewrite (date_julian_eq _ _ E1).
    by destruct (time_parts_eq _ _ E2) as (-> & -> & -> & ->).
  - by rewrite (instant_nanos_eq _ _ E).
  - by rewrite (duration_nanos_eq _ _ E).
  - destruct (hash_datums_eq l l0 S Hb2 E) as [-> ->]. done.
  - rewrite value_eqb_map in E. rewrite !map_fingerprints.
    assert (Hp : map entry_fingerprint l ≡ₚ map entry_fingerprint l0).
    { apply hash_map_eq; [by apply pairs_forall|by apply pairs_forall|].
      apply maps_equal_perm; [|done|done].
      assert (Forall datum_sym_at (flat_map (fun e : Datum * Datum => [fst e; snd e]) l)) as Hs.
      { apply children_sym; [|done]. apply Forall_forall. intros d _. destruct d; [done..|]. apply value_eqb_sym. }
      apply pairs_forall in Hs. eapply Forall_impl; [exact Hs|]. by intros e []. }
    assert (zlen (map entry_fingerprint l) = zlen (map entry_fingerprint l0)) as ->
      by (unfold zlen; by rewrite Hp).
    do 3 f_equal. apply sort_by_unique; [|done|].
    + apply list_cmp_laws, (Z_cmp_laws (fun z => z)).
    + intros x y _ _. apply list_cmp_eq.
  - destruct (hash_datums_eq l l0 S Hb2 E) as [-> ->]. done.
  - rewrite value_eqb_record in E. destruct (hash_fields_eq m m0 S Hb2 E) as [-> ->]. done.
Qed.
End Hashing.

(** ** Properties *)

(** The byte stream hashed for a type definition is uniquely decodable:
    two definitions of machine-representable size with the same stream, or
    with one a prefix of the other, are equal, so distinct types never share
    a digest input. *)
Theorem type_encoding_injective a b r s :
  machine_type a -> machine_type b -> hash_type_def a ++ r = hash_type_def b ++ s -> a = b /\ r = s.
Proof. intros Ha Hb. by apply hash_type_def_injective. Qed.

Definition sample_bool : TypeDef := scalar "dol/bool" 1 RBool.
Definition sample_list : TypeDef := shaped "app/flags" 1 (ShList sample_bool).

Lemma sample_node (t : TypeDef) : zstrlen (ty_key t) <= 100 -> ty_version t = 1 -> ty_parameters t = [] ->
  machine_shape (ty_shape t) -> machine_node t.
Proof. intros Hk Hv Hp Hs. unfold machine_node. rewrite Hv, Hp. unfold zlen. simpl. split_and!; auto; lia. Qed.

Lemma sample_list_machine : machine_type sample_list.
Proof.
  apply machine_type_eq. split; [apply sample_node; [by vm_compute|done..]|].
  apply Forall_singleton, machine_type_eq. split; [apply sample_node; [by vm_compute|done..]|constructor].
Qed.

Lemma type_encoding_injective_witness : canonicalize sample_list = sample_list /\ [7] = [7].
Proof.
  apply type_encoding_injective; [exact sample_list_machine|exact sample_list_machine|].
  vm_compute. reflexivity.
Defined.

Section Claims.
Context {F : Foreign} {L : ForeignLaws F}.

Lemma fingerprint_datum_congr ty (a b : Datum) fa fb :
  fingerprint_datum ty a = Ok fa -> fingerprint_datum ty b = Ok fb ->
  holds_at rust_node a -> holds_at rust_node b -> datum_eqb a b = true -> fa = fb.
Proof.
  unfold fingerprint_datum. rewrite !check_then. intros [Va [= <-]] [_ [= <-]] Ra Rb E.
  enough (hash_datum a = hash_datum b) as -> by done.
  destruct a as [| |a], b as [| |b]; try done. simpl in *. f_equal.
  apply value_eqb_hash; [|done..]. apply validate_value_conforms in Va. by eapply conforms_keys_unique.
Qed.

(** Equal datums of one type have equal fingerprints: signed zeros,
    numerically equal decimals and the entry order of maps do not show. *)
Theorem equal_datums_equal_fingerprints ty (a b : Datum) fa fb :
  fingerprint_datum ty a = Ok fa -> fingerprint_datum ty b = Ok fb ->
  holds_at rust_node a -> holds_at rust_node b -> datum_eqb a b = true -> fa = fb.
Proof. apply fingerprint_datum_congr. Qed.
End Claims.

Lemma equal_datums_equal_fingerprints_witness :
  let m1 : Datum (F:=sample_foreign) := DValue sample_map in
  let m2 : Datum (F:=sample_foreign) := DValue (VMap [(DValue (VInt 2), Null); (DValue (VInt 1), DValue (VString "a"))]) in
  exists f, fingerprint_datum (F:=sample_foreign) sample_map_type m1 = Ok f /\ fingerprint_datum (F:=sample_foreign) sample_map_type m2 = Ok f.
Proof.
  intros m1 m2.
  destruct (fingerprint_datum (F:=sample_foreign) sample_map_type m1) as [f1|] eqn:E1; [|vm_compute in E1; discriminate E1].
  destruct (fingerprint_datum (F:=sample_foreign) sample_map_type m2) as [f2|] eqn:E2; [|vm_compute in E2; discriminate E2].
  exists f1. split; [reflexivity|]. f_equal. symmetry.
  apply (equal_datums_equal_fingerprints sample_map_type m1 m2); try assumption; by vm_compute.
Defined.
