(* ===== verification/Model.v ===== *)
(** * Models ([crates/dol-core/src/model])

    The model builder with its validation and canonicalisation, the frozen
    definition with its lookup indexes and fingerprint, and sets of mutually
    resolvable models. *)
From Stdlib Require Import ZArith Lia.
From S2P Require Import Prelude Foreign BTree Text Types Values Fingerprint.

Local Open Scope Z_scope.

(** ** Constraints and relations ([constraint.rs], [relation.rs]) *)
Definition str_cmp : string -> string -> comparison := String.compare.
Definition keys_cmp : list string -> list string -> comparison := list_cmp str_cmp.
Definition sort_keys (l : list string) : list string := sort_by str_cmp l.

Inductive Cardinality := COne | COptionalOne | CMany.

(** [RelationField] pairs, source first. *)
Record RelationDef := mkRelationDef {
  rel_key : string;
  rel_name : string;
  rel_target_model : string;
  rel_cardinality : Cardinality;
  rel_fields : list (string * string)
}.

Definition key_pair_cmp (a b : string * string) : comparison :=
  match str_cmp (fst a) (fst b) with Eq => str_cmp (snd a) (snd b) | c => c end.

Definition relation_new (key name target : string) (c : Cardinality) (fields : list (string * string)) : RelationDef :=
  mkRelationDef key name target c (sort_by key_pair_cmp fields).

Record ReferenceDef := mkReferenceDef {
  ref_source_fields : list string;
  ref_target_model : string;
  ref_target_fields : list string
}.

Definition reference_new (source : list string) (target : string) (fields : list string) : ReferenceDef :=
  if Nat.eqb (length source) (length fields) then
    let pairs := sort_by (fun a b => str_cmp (fst a) (fst b)) (combine source fields) in
    mkReferenceDef (map fst pairs) target (map snd pairs)
  else mkReferenceDef source target fields.

#[export] Instance Cardinality_eq_dec : EqDecision Cardinality.
Proof. solve_decision. Defined.
#[export] Instance RelationDef_eq_dec : EqDecision RelationDef.
Proof. solve_decision. Defined.
#[export] Instance ReferenceDef_eq_dec : EqDecision ReferenceDef.
Proof. solve_decision. Defined.

(** [IdentityDef::new] and [UniqueDef::new] keep the sorted field keys. *)
Definition identity_new (fields : list string) : list string := sort_keys fields.
Definition unique_new (fields : list string) : list string := sort_keys fields.

(** ** The builder ([builder.rs]) *)
Record FieldSpec := mkFieldSpec {
  fs_key : string;
  fs_name : string;
  fs_ty : TypeDef;
  fs_presence : Presence
}.

Record ModelBuilder := mkModelBuilder {
  mb_key : string;
  mb_name : string;
  mb_fields : list FieldSpec;
  mb_identity : option (list string);
  mb_identity_redeclared : bool;
  mb_unique : list (list string);
  mb_relations : list RelationDef;
  mb_references : list ReferenceDef;
  mb_limits : DefinitionLimits
}.

Definition builder_with_key (key name : string) : ModelBuilder :=
  mkModelBuilder key name [] None false [] [] [] default_definition_limits.
Definition builder_new (name : string) : ModelBuilder := builder_with_key name name.

Definition builder_limits (b : ModelBuilder) (limits : DefinitionLimits) : ModelBuilder :=
  mkModelBuilder (mb_key b) (mb_name b) (mb_fields b) (mb_identity b) (mb_identity_redeclared b)
    (mb_unique b) (mb_relations b) (mb_references b) limits.

Definition builder_field_def (b : ModelBuilder) (key name : string) (ty : TypeDef) (p : Presence) : ModelBuilder :=
  mkModelBuilder (mb_key b) (mb_name b) (mb_fields b ++ [mkFieldSpec key name (canonicalize ty) p])
    (mb_identity b) (mb_identity_redeclared b) (mb_unique b) (mb_relations b) (mb_references b) (mb_limits b).

Definition builder_identity (b : ModelBuilder) (fields : list string) : ModelBuilder :=
  mkModelBuilder (mb_key b) (mb_name b) (mb_fields b) (Some fields)
    (match mb_identity b with Some _ => true | None => mb_identity_redeclared b end)
    (mb_unique b) (mb_relations b) (mb_references b) (mb_limits b).

Definition builder_unique (b : ModelBuilder) (fields : list string) : ModelBuilder :=
  mkModelBuilder (mb_key b) (mb_name b) (mb_fields b) (mb_identity b) (mb_identity_redeclared b)
    (mb_unique b ++ [fields]) (mb_relations b) (mb_references b) (mb_limits b).

Definition builder_relation (b : ModelBuilder) (r : RelationDef) : ModelBuilder :=
  mkModelBuilder (mb_key b) (mb_name b) (mb_fields b) (mb_identity b) (mb_identity_redeclared b)
    (mb_unique b) (mb_relations b ++ [r]) (mb_references b) (mb_limits b).

Definition builder_reference (b : ModelBuilder) (source : list string) (target : string) (fields : list string)
  : ModelBuilder :=
  mkModelBuilder (mb_key b) (mb_name b) (mb_fields b) (mb_identity b) (mb_identity_redeclared b)
    (mb_unique b) (mb_relations b) (mb_references b ++ [reference_new source target fields]) (mb_limits b).

(** [BTreeSet::insert]: fails on an element already present. *)
Definition insert_new (s : string) (seen : list string) (c : string) : Result (list string) :=
  guard (negb (str_mem s seen)) c ;;? Ok (s :: seen).

Definition validate_fields (b : ModelBuilder) : Result unit :=
  foldR (fun '(keys, names) f =>
    validate_name "FIELD-001" (fs_key f) (mb_limits b) ;;?
    validate_name "FIELD-002" (fs_name f) (mb_limits b) ;;?
    let? keys' := insert_new (fs_key f) keys "FIELD-003" in
    let? names' := insert_new (fs_name f) names "FIELD-004" in
    validate_type (fs_ty f) (mb_limits b) ;;?
    Ok (keys', names')) (mb_fields b) ([], []) ;;?
  validate_type_universe (map fs_ty (mb_fields b)).

Definition FieldIndex := list (string * FieldSpec).
Definition builder_by_key (b : ModelBuilder) : FieldIndex :=
  bt_collect (map (fun f => (fs_key f, f)) (mb_fields b)).

Definition validate_field_tuple (c : string) (fields : list string) (known : FieldIndex) : Result unit :=
  guard (negb (match fields with [] => true | _ => false end)) c ;;?
  foldR (fun seen field =>
    guard (match bt_get field known with Some _ => true | None => false end) c ;;?
    insert_new field seen c) fields [] ;;? Ok tt.

(** [by_key[key]] panics on an unknown key; the tuple was just validated. *)
Definition known_spec (by_key : FieldIndex) (key : string) (k : FieldSpec -> Result unit) : Result unit :=
  match bt_get key by_key with Some f => k f | None => error "panic: unknown key" end.

Definition keyable_field (f : FieldSpec) : bool :=
  negb (negb (equality (ty_properties (fs_ty f))) || negb (keyable (ty_properties (fs_ty f)))).

Definition validate_constraints (b : ModelBuilder) (by_key : FieldIndex) : Result unit :=
  match mb_identity b with
  | None => Ok tt
  | Some identity =>
      validate_field_tuple "CONSTRAINT-001" identity by_key ;;?
      forR (fun key => known_spec by_key key (fun f =>
        guard (negb (negb (bool_decide (fs_presence f = Required)) ||
                     negb (bool_decide (ty_nullability (fs_ty f) = NonNull)))) "CONSTRAINT-002" ;;?
        guard (keyable_field f) "CONSTRAINT-006")) identity
  end ;;?
  forR (fun fields =>
    validate_field_tuple "CONSTRAINT-003" fields by_key ;;?
    forR (fun key => known_spec by_key key (fun f => guard (keyable_field f) "CONSTRAINT-007")) fields)
    (mb_unique b).

Definition validate_relation (b : ModelBuilder) (by_key : FieldIndex) (seen : list string * list string)
  (r : RelationDef) : Result (list string * list string) :=
  let '(relation_keys, relation_names) := seen in
  validate_name "RELATION-003" (rel_key r) (mb_limits b) ;;?
  validate_name "RELATION-004" (rel_name r) (mb_limits b) ;;?
  let? relation_keys' := insert_new (rel_key r) relation_keys "RELATION-005" in
  let? relation_names' := insert_new (rel_name r) relation_names "RELATION-006" in
  validate_name "RELATION-008" (rel_target_model r) (mb_limits b) ;;?
  guard (negb (match rel_fields r with [] => true | _ => false end)) "RELATION-001" ;;?
  foldR (fun '(sources, targets) pair =>
    validate_name "RELATION-009" (snd pair) (mb_limits b) ;;?
    guard (match bt_get (fst pair) by_key with Some _ => true | None => false end) "RELATION-002" ;;?
    let? sources' := insert_new (fst pair) sources "RELATION-007" in
    let? targets' := insert_new (snd pair) targets "RELATION-007" in
    Ok (sources', targets')) (rel_fields r) ([], []) ;;?
  Ok (relation_keys', relation_names').

Definition validate_relations (b : ModelBuilder) (by_key : FieldIndex) : Result unit :=
  foldR (validate_relation b by_key) (mb_relations b) ([], []) ;;? Ok tt.

Definition validate_references (b : ModelBuilder) (by_key : FieldIndex) : Result unit :=
  forR (fun r =>
    validate_name "CONSTRAINT-010" (ref_target_model r) (mb_limits b) ;;?
    guard (negb (negb (Nat.eqb (length (ref_source_fields r)) (length (ref_target_fields r))) ||
                 match ref_source_fields r with [] => true | _ => false end)) "CONSTRAINT-004" ;;?
    validate_field_tuple "CONSTRAINT-005" (ref_source_fields r) by_key ;;?
    foldR (fun seen field =>
      validate_name "CONSTRAINT-011" field (mb_limits b) ;;?
      insert_new field seen "CONSTRAINT-009") (ref_target_fields r) [] ;;? Ok tt) (mb_references b).

(** [Vec::dedup]. *)
Fixpoint dedup {A} (eqb : A -> A -> bool) (l : list A) : list A :=
  match l with
  | x :: ((y :: _) as l') => if eqb x y then dedup eqb l' else x :: dedup eqb l'
  | _ => l
  end.

Definition spec_cmp (a b : FieldSpec) : comparison := str_cmp (fs_key a) (fs_key b).
Definition relation_cmp (a b : RelationDef) : comparison := str_cmp (rel_key a) (rel_key b).
Definition reference_cmp (a b : ReferenceDef) : comparison :=
  match str_cmp (ref_target_model a) (ref_target_model b) with
  | Eq => match keys_cmp (ref_source_fields a) (ref_source_fields b) with
          | Eq => keys_cmp (ref_target_fields a) (ref_target_fields b)
          | c => c
          end
  | c => c
  end.

Definition builder_canonicalize (b : ModelBuilder) : ModelBuilder :=
  mkModelBuilder (mb_key b) (mb_name b)
    (sort_by spec_cmp (mb_fields b))
    (mb_identity b) (mb_identity_redeclared b)
    (dedup (fun a b => bool_decide (a = b)) (sort_by keys_cmp (map sort_keys (mb_unique b))))
    (sort_by relation_cmp (mb_relations b))
    (dedup (fun a b => bool_decide (a = b)) (sort_by reference_cmp (mb_references b)))
    (mb_limits b).

(** ** Frozen models ([def.rs], [field.rs]) *)
Record FieldDef := mkFieldDef {
  fd_key : string;
  fd_name : string;
  fd_slot : nat;
  fd_ty : TypeDef;
  fd_presence : Presence
}.

Record ModelParts := mkModelParts {
  mp_key : string;
  mp_name : string;
  mp_fields : list FieldDef;
  mp_identity : option (list string);
  mp_unique : list (list string);
  mp_relations : list RelationDef;
  mp_references : list ReferenceDef
}.

Record ModelDef := mkModelDef {
  md_key : string;
  md_name : string;
  md_fields : list FieldDef;
  md_fields_by_key : list (string * nat);
  md_fields_by_name : list (string * nat);
  md_identity : option (list string);
  md_unique : list (list string);
  md_relations : list RelationDef;
  md_references : list ReferenceDef;
  md_fingerprint : list Z
}.

Definition hash_field_keys (fields : list string) : list Z :=
  h_u64 (zlen fields) ++ flat_map h_str fields.

Definition hash_cardinality (c : Cardinality) : list Z :=
  h_u8 (match c with COne => 0 | COptionalOne => 1 | CMany => 2 end).

Definition hash_model (m : ModelParts) : list Z :=
  h_str (mp_key m) ++ h_str (mp_name m) ++ h_u64 (zlen (mp_fields m)) ++
  flat_map (fun f => h_str (fd_key f) ++ h_str (fd_name f) ++ hash_type_def (fd_ty f) ++
                     hash_presence (fd_presence f)) (mp_fields m) ++
  match mp_identity m with None => h_u8 0 | Some fields => h_u8 1 ++ hash_field_keys fields end ++
  h_u64 (zlen (mp_unique m)) ++ flat_map hash_field_keys (mp_unique m) ++
  h_u64 (zlen (mp_relations m)) ++
  flat_map (fun r => h_str (rel_key r) ++ h_str (rel_name r) ++ h_str (rel_target_model r) ++
                     hash_cardinality (rel_cardinality r) ++ h_u64 (zlen (rel_fields r)) ++
                     flat_map (fun p => h_str (fst p) ++ h_str (snd p)) (rel_fields r)) (mp_relations m) ++
  h_u64 (zlen (mp_references m)) ++
  flat_map (fun r => hash_field_keys (ref_source_fields r) ++ h_str (ref_target_model r) ++
                     hash_field_keys (ref_target_fields r)) (mp_references m).

Section Freeze.
Context {F : Foreign}.

Definition fingerprint_model (m : ModelParts) : Fingerprint := finish (hasher_new "model/v1" ++ hash_model m).

Definition index_by (f : FieldDef -> string) (fields : list FieldDef) : list (string * nat) :=
  bt_collect (imap (fun i d => (f d, i)) fields).

Definition from_parts (m : ModelParts) : ModelDef :=
  mkModelDef (mp_key m) (mp_name m) (mp_fields m) (index_by fd_key (mp_fields m))
    (index_by fd_name (mp_fields m)) (mp_identity m) (mp_unique m) (mp_relations m) (mp_references m)
    (fingerprint_model m).

(** One slot per field, in canonical order; slots are [u32]. *)
Definition assign_slot (e : nat * FieldSpec) : Result FieldDef :=
  let '(i, f) := e in
  guard (Z.of_nat i <? 2 ^ 32) "LIMIT-004" ;;?
  Ok (mkFieldDef (fs_key f) (fs_name f) i (fs_ty f) (fs_presence f)).

Definition into_model_def (b : ModelBuilder) : Result ModelDef :=
  let? fields := mapR assign_slot (imap (fun i f => (i, f)) (mb_fields b)) in
  Ok (from_parts (mkModelParts (mb_key b) (mb_name b) fields (option_map identity_new (mb_identity b))
        (map unique_new (mb_unique b)) (mb_relations b) (mb_references b))).

Definition freeze (b : ModelBuilder) : Result ModelDef :=
  validate_name "MODEL-001" (mb_key b) (mb_limits b) ;;?
  validate_name "MODEL-002" (mb_name b) (mb_limits b) ;;?
  guard (zlen (mb_fields b) <=? max_fields (mb_limits b)) "LIMIT-001" ;;?
  guard (zlen (mb_relations b) <=? max_relations (mb_limits b)) "LIMIT-002" ;;?
  let identity_count := match mb_identity b with Some _ => 1 | None => 0 end in
  guard (zlen (mb_unique b) + zlen (mb_references b) + identity_count <=? max_constraints (mb_limits b))
    "LIMIT-003" ;;?
  let? type_nodes := foldR (fun total f => let? n := type_node_count (fs_ty f) in Ok (sat_add total n))
    (mb_fields b) 0 in
  guard (type_nodes <=? max_type_nodes (mb_limits b)) "LIMIT-005" ;;?
  guard (negb (mb_identity_redeclared b)) "CONSTRAINT-008" ;;?
  validate_fields b ;;?
  let by_key := builder_by_key b in
  validate_constraints b by_key ;;?
  validate_relations b by_key ;;?
  validate_references b by_key ;;?
  into_model_def (builder_canonicalize b).
End Freeze.

(** [ModelDef::field] and [field_named]: the index, then the slot. *)
Definition model_field (m : ModelDef) (key : string) : option FieldDef :=
  match bt_get key (md_fields_by_key m) with Some i => md_fields m !! i | None => None end.
Definition model_field_named (m : ModelDef) (name : string) : option FieldDef :=
  match bt_get name (md_fields_by_name m) with Some i => md_fields m !! i | None => None end.

(** ** Model sets ([set.rs]) *)
Definition ModelSet := list (string * ModelDef).

(** [BTreeSet] equality of two key collections. *)
Definition same_keys (a b : list string) : bool :=
  forallb (fun k => str_mem k b) a && forallb (fun k => str_mem k a) b.

Definition is_unique (m : ModelDef) (fields : list string) : bool :=
  match md_identity m with Some identity => same_keys identity fields | None => false end ||
  existsb (fun unique => same_keys unique fields) (md_unique m).

Definition set_validate_relations (set : ModelSet) (source : ModelDef) : Result unit :=
  forR (fun r =>
    let? target := ok_or (bt_get (rel_target_model r) set) "RELATION-101" in
    forR (fun pair =>
      let? lf := ok_or (model_field source (fst pair)) "RELATION-102" in
      let? rf := ok_or (model_field target (snd pair)) "RELATION-103" in
      guard (same_value_type (fd_ty lf) (fd_ty rf)) "RELATION-104") (rel_fields r) ;;?
    match rel_cardinality r with
    | COne | COptionalOne => guard (is_unique target (map snd (rel_fields r))) "RELATION-105"
    | CMany => Ok tt
    end) (md_relations source).

Definition set_validate_references (set : ModelSet) (source : ModelDef) : Result unit :=
  forR (fun r =>
    let? target := ok_or (bt_get (ref_target_model r) set) "CONSTRAINT-101" in
    forR (fun '(source_key, target_key) =>
      let? lf := ok_or (model_field source source_key) "CONSTRAINT-102" in
      let? rf := ok_or (model_field target target_key) "CONSTRAINT-103" in
      guard (same_value_type (fd_ty lf) (fd_ty rf)) "CONSTRAINT-104")
      (combine (ref_source_fields r) (ref_target_fields r)) ;;?
    guard (is_unique target (ref_target_fields r)) "CONSTRAINT-105") (md_references source).

Definition model_set_new (models : list ModelDef) : Result ModelSet :=
  let? set := foldR (fun map m =>
      guard (match bt_get (md_key m) map with Some _ => false | None => true end) "MODELSET-001" ;;?
      Ok (bt_insert (md_key m) m map)) models [] in
  validate_type_universe (flat_map (fun e => map fd_ty (md_fields (snd e))) set) ;;?
  forR (fun e => set_validate_relations set (snd e) ;;? set_validate_references set (snd e)) set ;;?
  Ok set.

(** ** Frozen models are indexed by their keys *)
Lemma insert_new_ok s seen c r : insert_new s seen c = Ok r <-> s ∉ seen /\ r = s :: seen.
Proof.
  unfold insert_new. rewrite check_then, check_ok, negb_true_iff, <- str_mem_elem.
  destruct (str_mem s seen); naive_solver.
Qed.

Lemma insert_all_ok c l seen r :
  foldR (fun seen s => insert_new s seen c) l seen = Ok r ->
  NoDup l /\ (forall s, s ∈ l -> s ∉ seen) /\ (forall s, s ∈ r <-> s ∈ l \/ s ∈ seen).
Proof.
  revert seen. induction l as [|x l IH]; intros seen; simpl.
  { intros [= <-]. split_and!; [constructor|by intros s ?%not_elem_of_nil|]. intros s.
    split; [by right|]. by intros [?%not_elem_of_nil|?]. }
  intros (s' & (Hx & ->)%insert_new_ok & (Hd & Hs & Hr)%IH)%rbind_ok. split_and!.
  - apply NoDup_cons. split; [|done]. intros Hin. apply (Hs _ Hin). left.
  - intros s [->|Hin]%elem_of_cons; [done|]. intros Hse. apply (Hs _ Hin). by right.
  - intros s. rewrite Hr, !elem_of_cons. tauto.
Qed.

Definition field_checks (limits : DefinitionLimits) (f : FieldSpec) : Prop :=
  name_ok limits (fs_key f) /\ name_ok limits (fs_name f) /\ validate_type (fs_ty f) limits = Ok tt.

Lemma validate_fields_loop limits fs keys names r :
  foldR (fun '(keys, names) f =>
    validate_name "FIELD-001" (fs_key f) limits ;;?
    validate_name "FIELD-002" (fs_name f) limits ;;?
    let? keys' := insert_new (fs_key f) keys "FIELD-003" in
    let? names' := insert_new (fs_name f) names "FIELD-004" in
    validate_type (fs_ty f) limits ;;?
    Ok (keys', names')) fs (keys, names) = Ok r ->
  NoDup (map fs_key fs) /\ NoDup (map fs_name fs) /\ Forall (field_checks limits) fs /\
  (forall s, s ∈ map fs_key fs -> s ∉ keys) /\ (forall s, s ∈ map fs_name fs -> s ∉ names).
Proof.
  revert keys names. induction fs as [|f fs IH]; intros keys names; simpl.
  { intros _. split_and!; try constructor; by intros s ?%not_elem_of_nil. }
  intros ([keys2 names2] & H & Hr)%rbind_ok.
  apply check_then in H as [Hk H]. apply check_then in H as [Hn H].
  apply rbind_ok in H as (k' & (Hk1 & ->)%insert_new_ok & H).
  apply rbind_ok in H as (n' & (Hn1 & ->)%insert_new_ok & H).
  apply check_then in H as [Ht [= <- <-]].
  apply IH in Hr as (Dk & Dn & Hf & Sk & Sn). rewrite !NoDup_cons, Forall_cons.
  apply validate_name_ok in Hk, Hn. split_and!; try done.
  - intros Hin. apply (Sk _ Hin). left.
  - intros Hin. apply (Sn _ Hin). left.
  - intros s [->|Hin]%elem_of_cons; [done|]. intros Hs. apply (Sk _ Hin). by right.
  - intros s [->|Hin]%elem_of_cons; [done|]. intros Hs. apply (Sn _ Hin). by right.
Qed.

Lemma validate_fields_spec b : validate_fields b = Ok tt ->
  NoDup (map fs_key (mb_fields b)) /\ NoDup (map fs_name (mb_fields b)) /\
  Forall (field_checks (mb_limits b)) (mb_fields b).
Proof.
  unfold validate_fields. intros (r & H & _)%rbind_ok.
  apply validate_fields_loop in H as (? & ? & ? & _). done.
Qed.

Section Frozen.
Context {F : Foreign}.

Definition frozen_field (i : nat) (f : FieldSpec) : FieldDef :=
  mkFieldDef (fs_key f) (fs_name f) i (fs_ty f) (fs_presence f).

(** The parts a successful [freeze] assembles. *)
Definition frozen_parts (b : ModelBuilder) : ModelParts :=
  let c := builder_canonicalize b in
  mkModelParts (mb_key b) (mb_name b) (imap frozen_field (mb_fields c))
    (option_map identity_new (mb_identity b)) (map unique_new (mb_unique c)) (mb_relations c) (mb_references c).

Lemma into_model_def_ok b m : into_model_def (builder_canonicalize b) = Ok m -> m = from_parts (frozen_parts b).
Proof.
  unfold into_model_def. intros (fields & H%mapR_ok & [= <-])%rbind_ok. f_equal.
  unfold frozen_parts. f_equal. generalize dependent fields.
  generalize (mb_fields (builder_canonicalize b)) as fs. intros fs.
  assert (G : forall k fields, Forall2 (fun e y => assign_slot e = Ok y)
      (imap (fun i f => (k + i, f)%nat) fs) fields -> fields = imap (fun i => frozen_field (k + i)) fs).
  { induction fs as [|f fs IH]; intros k fields; simpl.
    - by intros ->%Forall2_nil_inv_l.
    - intros (d & fields' & Hd & Hf & ->)%Forall2_cons_inv_l. apply check_then in Hd as [_ [= <-]].
      rewrite (Nat.add_0_r k). f_equal.
      transitivity (imap (fun i => frozen_field (S k + i)) fs).
      + apply IH. erewrite imap_ext; [exact Hf|]. intros i x _. simpl. f_equal. lia.
      + apply imap_ext. intros i x _. simpl. f_equal. lia. }
  intros fields H. apply (G 0%nat). erewrite imap_ext; [exact H|]. done.
Qed.

Lemma freeze_ok b m : freeze b = Ok m ->
  m = from_parts (frozen_parts b) /\ validate_fields b = Ok tt /\
  validate_constraints b (builder_by_key b) = Ok tt /\
  validate_relations b (builder_by_key b) = Ok tt /\ validate_references b (builder_by_key b) = Ok tt.
Proof.
  unfold freeze. intros H. do 5 (apply check_then in H as [_ H]).
  apply rbind_ok in H as (n & _ & H). do 2 (apply check_then in H as [_ H]).
  apply check_then in H as [Hf H]. apply check_then in H as [Hc H].
  apply check_then in H as [Hr H]. apply check_then in H as [He H].
  split_and!; [by apply into_model_def_ok|done..].
Qed.

Lemma map_imap_frozen {A} (g : FieldDef -> A) (h : FieldSpec -> A) fs :
  (forall i f, g (frozen_field i f) = h f) -> map g (imap frozen_field fs) = map h fs.
Proof.
  intros E. apply list_eq. intros i.
  rewrite !lookup_map, list_lookup_imap. destruct (fs !! i); simpl; [by rewrite E|done].
Qed.
End Frozen.

Lemma index_lookup (g : FieldDef -> string) fields k f :
  NoDup (map g fields) ->
  match bt_get k (index_by g fields) with Some i => fields !! i | None => None end = Some f <->
  f ∈ fields /\ g f = k.
Proof.
  intros Hd. unfold index_by.
  assert (Hd' : NoDup (map fst (imap (fun i d => (g d, i)) fields))).
  { assert (map fst (imap (fun i d => (g d, i)) fields) = map g fields) as ->; [|done].
    apply list_eq. intros i. rewrite !lookup_map, list_lookup_imap. by destruct (fields !! i). }
  assert (Hi : forall i, bt_get k (bt_collect (imap (fun i d => (g d, i)) fields)) = Some i <->
                         exists d, fields !! i = Some d /\ g d = k).
  { intros i. rewrite bt_get_collect by done. rewrite elem_of_lookup_imap. naive_solver. }
  split.
  - destruct (bt_get k _) as [i|] eqn:E; [|done]. destruct (proj1 (Hi i) eq_refl) as (d & Hd1 & <-).
    intros Hf. assert (d = f) as -> by congruence. split; [by eapply list_elem_of_lookup_2|done].
  - intros [[i Hf]%list_elem_of_lookup_1 <-]. assert (E : exists d, fields !! i = Some d /\ g d = g f) by eauto.
    apply Hi in E as ->. done.
Qed.

Lemma validate_relations_keys b seen r :
  foldR (validate_relation b (builder_by_key b)) (mb_relations b) seen = Ok r ->
  NoDup (map rel_key (mb_relations b)).
Proof.
  generalize (builder_by_key b) as by_key. generalize (mb_relations b) as l. intros l by_key.
  assert (G : forall seen, foldR (validate_relation b by_key) l seen = Ok r ->
    NoDup (map rel_key l) /\ forall s, s ∈ map rel_key l -> s ∉ fst seen); [|by intros H; apply (G seen)].
  clear seen. induction l as [|x l IH]; intros [ks ns]; simpl.
  { intros _. split; [constructor|by intros s ?%not_elem_of_nil]. }
  intros ([ks' ns'] & H & [Hd Hs]%IH)%rbind_ok. do 2 apply check_then in H as [_ H].
  apply rbind_ok in H as (k' & (Hk & ->)%insert_new_ok & H).
  apply rbind_ok in H as (n' & _ & H). do 2 apply check_then in H as [_ H].
  apply rbind_ok in H as (p & _ & [= <- <-]). simpl in *. split.
  - apply NoDup_cons. split; [|done]. intros Hin. apply (Hs _ Hin). left.
  - intros s [->|Hin]%elem_of_cons; [done|]. intros ?. apply (Hs _ Hin). by right.
Qed.

Lemma str_cmp_laws : CmpLaws str_cmp.
Proof. exact (kcmp_laws (K:=string)). Qed.

Lemma keys_cmp_laws : CmpLaws keys_cmp.
Proof. apply list_cmp_laws, str_cmp_laws. Qed.

Lemma str_cmp_eq a b : str_cmp a b = Eq -> a = b.
Proof. exact (proj1 (kcmp_eq (K:=string) a b)). Qed.

Lemma keys_cmp_eq a b : keys_cmp a b = Eq -> a = b.
Proof. exact (list_cmp_kcmp_eq (K:=string) a b). Qed.

(** References compare as the triple of their parts. *)
Lemma lex_laws {A} (c1 c2 : A -> A -> comparison) : CmpLaws c1 -> CmpLaws c2 ->
  CmpLaws (fun a b => match c1 a b with Eq => c2 a b | c => c end).
Proof.
  intros L1 L2. split.
  - intros a. by rewrite (cmp_refl _ L1), (cmp_refl _ L2).
  - intros a b. rewrite (cmp_antisym _ L1 a b), (cmp_antisym _ L2 a b). by destruct (c1 a b).
  - intros a b c. pose proof (cmp_trans _ L1 a b c) as T. pose proof (cmp_antisym _ L1) as S.
    destruct (c1 a b) eqn:E1; [| |done]; (destruct (c1 b c) eqn:E2; [| |done]).
    + rewrite (CmpLaws_trans_eq _ _ _ _ L1 E1 E2). apply (cmp_trans _ L2).
    + intros _ _. destruct (c1 a c) eqn:E3; [|done|by apply T].
      exfalso. apply (cmp_trans _ L1 c a b); [rewrite (S a c), E3; done|by rewrite E1|].
      by rewrite (S b c), E2.
    + intros _ _. destruct (c1 a c) eqn:E3; [|done|by apply T].
      exfalso. apply (cmp_trans _ L1 b c a); [by rewrite E2|rewrite (S a c), E3; done|].
      by rewrite (S a b), E1.
    + intros _ _. destruct (c1 a c) eqn:E3; [|done|by apply T].
      exfalso. apply (cmp_trans _ L1 b c a); [by rewrite E2|rewrite (S a c), E3; done|].
      by rewrite (S a b), E1.
Qed.

Lemma on_laws {A B} (f : A -> B) cmp : CmpLaws cmp -> CmpLaws (fun a b => cmp (f a) (f b)).
Proof. intros [H1 H2 H3]. split; [intros; apply H1|intros; apply H2|intros a b c; apply H3]. Qed.

Lemma reference_cmp_laws : CmpLaws reference_cmp.
Proof.
  apply (lex_laws (fun a b => str_cmp (ref_target_model a) (ref_target_model b))
    (fun a b => match keys_cmp (ref_source_fields a) (ref_source_fields b) with
                | Eq => keys_cmp (ref_target_fields a) (ref_target_fields b) | c => c end)).
  - apply on_laws, str_cmp_laws.
  - apply (lex_laws (fun a b => keys_cmp (ref_source_fields a) (ref_source_fields b))
      (fun a b => keys_cmp (ref_target_fields a) (ref_target_fields b))); apply on_laws, keys_cmp_laws.
Qed.

Lemma reference_cmp_eq a b : reference_cmp a b = Eq -> a = b.
Proof.
  destruct a as [s t f], b as [s' t' f']. unfold reference_cmp. simpl.
  destruct (str_cmp t t') eqn:E1; [|done..]. destruct (keys_cmp s s') eqn:E2; [|done..].
  intros E3. apply str_cmp_eq in E1 as ->. by apply keys_cmp_eq in E2 as ->, E3 as ->.
Qed.

(** Builders that declare the same things in any order. *)
Definition same_declaration (a b : ModelBuilder) : Prop :=
  mb_key a = mb_key b /\ mb_name a = mb_name b /\ mb_fields a ≡ₚ mb_fields b /\
  option_map sort_keys (mb_identity a) = option_map sort_keys (mb_identity b) /\
  map sort_keys (mb_unique a) ≡ₚ map sort_keys (mb_unique b) /\
  mb_relations a ≡ₚ mb_relations b /\ mb_references a ≡ₚ mb_references b.

Lemma spec_cmp_laws : CmpLaws spec_cmp.
Proof. exact (on_laws fs_key str_cmp str_cmp_laws). Qed.
Lemma relation_cmp_laws : CmpLaws relation_cmp.
Proof. exact (on_laws rel_key str_cmp str_cmp_laws). Qed.
#[export] Hint Resolve str_cmp_laws keys_cmp_laws reference_cmp_laws spec_cmp_laws relation_cmp_laws : dol.

(** Slots are the dense positions of the fields. *)
Definition dense (m : ModelDef) : Prop := forall i f, md_fields m !! i = Some f -> fd_slot f = i.

Lemma frozen_dense {F : Foreign} b m : freeze b = Ok m -> dense m.
Proof.
  intros (-> & _)%freeze_ok i f. simpl. rewrite list_lookup_imap.
  destruct (_ !! i); simpl; [by intros [= <-]|done].
Qed.

Section Known.
Context {F : Foreign}.

(** A key (or a name) looks up exactly the declared field with it. *)
Lemma frozen_lookups b m : freeze b = Ok m ->
  (forall k f, model_field m k = Some f <-> f ∈ md_fields m /\ fd_key f = k) /\
  (forall n f, model_field_named m n = Some f <-> f ∈ md_fields m /\ fd_name f = n) /\
  map fd_key (md_fields m) ≡ₚ map fs_key (mb_fields b).
Proof.
  intros (-> & (Dk & Dn & _)%validate_fields_spec & _)%freeze_ok.
  set (fields := imap frozen_field (mb_fields (builder_canonicalize b))).
  assert (Hp : mb_fields (builder_canonicalize b) ≡ₚ mb_fields b) by apply sort_by_perm.
  assert (Ek : map fd_key fields = map fs_key (mb_fields (builder_canonicalize b))) by (by apply map_imap_frozen).
  assert (En : map fd_name fields = map fs_name (mb_fields (builder_canonicalize b))) by (by apply map_imap_frozen).
  split_and!.
  - intros k f. apply index_lookup. change (NoDup (map fd_key fields)). by rewrite Ek, Hp.
  - intros n f. apply index_lookup. change (NoDup (map fd_name fields)). by rewrite En, Hp.
  - change (map fd_key fields ≡ₚ map fs_key (mb_fields b)). by rewrite Ek, Hp.
Qed.

Lemma field_tuple_known c fields by_key : validate_field_tuple c fields by_key = Ok tt ->
  forall k, k ∈ fields -> exists f, bt_get k by_key = Some f.
Proof.
  intros [_ (seen & H & _)%rbind_ok]%check_then. revert H. generalize (@nil string) as start.
  induction fields as [|x fields IH]; intros start; cbn [foldR]; [by intros _ k ?%not_elem_of_nil|].
  intros (s1 & [Hx%guard_ok _]%check_then & H)%rbind_ok k [->|Hk]%elem_of_cons; [|by apply (IH s1 H)].
  destruct (bt_get x by_key); [eauto|done].
Qed.

Lemma by_key_declared b k f : bt_get k (builder_by_key b) = Some f -> k ∈ map fs_key (mb_fields b).
Proof.
  unfold builder_by_key. assert (G : forall l m, bt_get k (fold_left (fun m e => bt_insert (fst e) (snd e) m) l m) = Some f ->
    k ∈ map fst l \/ bt_get k m = Some f).
  { induction l as [|[k' v] l IH]; intros m; cbn [fold_left]; [by right|]. intros [H|H]%IH; [left; by right|].
    destruct (decide (k = k')) as [->|Hne]; [left; left|]. right. by rewrite bt_get_insert_ne in H. }
  intros [H|H]%(G _ []); [|done]. by rewrite map_map in H.
Qed.

(** Every identity and unique field is a field of the model. *)
Definition constraints_known (m : ModelDef) : Prop :=
  (forall fields, md_identity m = Some fields -> forall k, k ∈ fields -> exists f, model_field m k = Some f) /\
  (forall fields, fields ∈ md_unique m -> forall k, k ∈ fields -> exists f, model_field m k = Some f).

Lemma dedup_incl {A} (eqb : A -> A -> bool) l x : x ∈ dedup eqb l -> x ∈ l.
Proof.
  induction l as [|y l IH]; [done|]. destruct l as [|z l]; [done|]. cbn [dedup].
  destruct (eqb y z); [intros H; right; by apply IH|].
  intros [->|H]%elem_of_cons; [left|right; by apply IH].
Qed.

Lemma frozen_constraints_known b m : freeze b = Ok m -> constraints_known m.
Proof.
  intros Hf. destruct (frozen_lookups b m Hf) as (Hk & _ & Hp).
  apply freeze_ok in Hf as (-> & _ & Hc & _). unfold validate_constraints in Hc. apply check_then in Hc as [Hi Hu].
  assert (Hfield : forall k f, bt_get k (builder_by_key b) = Some f -> exists d, model_field (from_parts (frozen_parts b)) k = Some d).
  { intros k f H%by_key_declared. rewrite <- Hp in H. apply list_elem_of_fmap_1 in H as (d & -> & Hd).
    exists d. by apply Hk. }
  split.
  - intros fields E k Hin. simpl in E. destruct (mb_identity b) as [identity|]; [|done]. injection E as <-.
    apply check_then in Hi as [Hi _]. unfold identity_new, sort_keys in Hin. rewrite sort_by_elem in Hin.
    destruct (field_tuple_known _ _ _ Hi k Hin) as [f Hg]. by eapply Hfield.
  - intros fields Hin k Hk'. simpl in Hin. apply list_elem_of_fmap_1 in Hin as (u & -> & Hu').
    apply dedup_incl in Hu'. rewrite sort_by_elem in Hu'. apply list_elem_of_fmap_1 in Hu' as (u0 & -> & Hu0).
    unfold unique_new, sort_keys in Hk'. rewrite !sort_by_elem in Hk'.
    rewrite forR_ok, Forall_forall in Hu. specialize (Hu u0 Hu0). apply check_then in Hu as [Hu _].
    destruct (field_tuple_known _ _ _ Hu k Hk') as [f Hg]. by eapply Hfield.
Qed.

(** Every source field of a reference is a field of the model. *)
Definition references_known (m : ModelDef) : Prop :=
  forall r, r ∈ md_references m -> forall k, k ∈ ref_source_fields r -> exists f, model_field m k = Some f.

Lemma frozen_references_known b m : freeze b = Ok m -> references_known m.
Proof.
  intros Hf r Hr k Hk. destruct (frozen_lookups b m Hf) as (Hlook & _ & Hp).
  apply freeze_ok in Hf as (-> & _ & _ & _ & He). unfold validate_references in He. rewrite forR_ok, Forall_forall in He.
  simpl in Hr. apply dedup_incl in Hr. rewrite sort_by_elem in Hr. specialize (He r Hr).
  apply check_then in He as [_ [_ [He _]%check_then]%check_then].
  destruct (field_tuple_known _ _ _ He k Hk) as [f Hg%by_key_declared].
  rewrite <- Hp in Hg. apply list_elem_of_fmap_1 in Hg as (d & -> & Hd). exists d. by apply Hlook.
Qed.

(** The models of a set are found under their keys. *)
Lemma model_set_entries models set m : model_set_new models = Ok set -> m ∈ models -> bt_get (md_key m) set = Some m.
Proof.
  unfold model_set_new. intros (s & H & Hc)%rbind_ok Hm. do 2 apply check_then in Hc as [_ Hc]. injection Hc as ->.
  revert H. enough (G : forall l s0, foldR (fun map m =>
      guard (match bt_get (md_key m) map with Some _ => false | None => true end) "MODELSET-001" ;;?
      Ok (bt_insert (md_key m) m map)) l s0 = Ok set ->
    (m ∈ l \/ bt_get (md_key m) s0 = Some m) -> bt_get (md_key m) set = Some m) by (intros H; apply (G models []); [done|by left]).
  induction l as [|x l IH]; intros s0; cbn [foldR]; [intros [= ->]; by intros [?%not_elem_of_nil|]|].
  intros (s1 & [Hg%guard_ok [= <-]]%check_then & H)%rbind_ok Hin. apply (IH _ H).
  destruct Hin as [[->|Hin]%elem_of_cons|Hin]; [right; apply bt_get_insert_eq|by left|right].
  rewrite bt_get_insert_ne; [done|]. intros E. rewrite <- E, Hin in Hg. done.
Qed.

Lemma model_set_references models set : model_set_new models = Ok set ->
  forall key m, (key, m) ∈ set ->
  Forall (fun r => exists target, bt_get (ref_target_model r) set = Some target /\
    Forall (fun p => exists lf rf, model_field m (fst p) = Some lf /\ model_field target (snd p) = Some rf /\
                                   non_null (fd_ty lf) = non_null (fd_ty rf))
      (combine (ref_source_fields r) (ref_target_fields r)) /\
    is_unique target (ref_target_fields r) = true) (md_references m).
Proof.
  unfold model_set_new. intros (s & _ & H)%rbind_ok. apply check_then in H as [_ H].
  apply check_then in H as [H [= ->]]. rewrite forR_ok, Forall_forall in H.
  intros key m Hin. specialize (H _ Hin). simpl in H. apply check_then in H as [_ He].
  unfold set_validate_references in He. apply forR_ok in He.
  eapply Forall_impl; [exact He|]. intros r (target & Ht%ok_or_ok & H)%rbind_ok.
  apply check_then in H as [Hp Hc%guard_ok]. exists target. split_and!; [done| |done].
  rewrite forR_ok in Hp. eapply Forall_impl; [exact Hp|].
  intros [x y] (lf & Hl%ok_or_ok & (rf & Hr'%ok_or_ok & Hs%guard_ok%same_value_type_eq)%rbind_ok)%rbind_ok. eauto.
Qed.

(** Fields that are an identity or a unique tuple of a model are its fields. *)
Lemma is_unique_known m fields : constraints_known m -> is_unique m fields = true ->
  forall k, k ∈ fields -> exists f, model_field m k = Some f.
Proof.
  intros [Ki Ku] H k Hk.
  assert (G : forall l, same_keys l fields = true -> k ∈ l).
  { intros l [_ Hs]%andb_true_iff. rewrite forallb_forall in Hs. apply str_mem_elem, Hs. by apply list_elem_of_In. }
  unfold is_unique in H. apply orb_true_iff in H as [H|H].
  - destruct (md_identity m) as [identity|] eqn:E; [|done]. by apply (Ki identity eq_refl), G.
  - apply existsb_exists in H as (u & Hu%list_elem_of_In & Hs). by apply (Ku u Hu), G.
Qed.
End Known.

Section ModelClaims.
Context {F : Foreign}.

(** A frozen model is indexed by its keys and names: slots are the dense
    positions, and looking a key (or a name) up returns exactly the declared
    field with it. *)
Theorem frozen_model_lookup b m : freeze b = Ok m ->
  (forall i f, md_fields m !! i = Some f -> fd_slot f = i) /\
  (forall k f, model_field m k = Some f <-> f ∈ md_fields m /\ fd_key f = k) /\
  (forall n f, model_field_named m n = Some f <-> f ∈ md_fields m /\ fd_name f = n) /\
  StronglySorted (fun f g => str_cmp (fd_key f) (fd_key g) <> Gt) (md_fields m) /\
  map fd_key (md_fields m) ≡ₚ map fs_key (mb_fields b).
Proof.
  intros Hf. pose proof (frozen_dense b m Hf) as Hd. destruct (frozen_lookups b m Hf) as (Hk & Hn & Hp).
  apply freeze_ok in Hf as (-> & _). split_and!; [exact Hd|exact Hk|exact Hn| |exact Hp].
  set (fields := imap frozen_field (mb_fields (builder_canonicalize b))).
  - change (StronglySorted (fun f g => str_cmp (fd_key f) (fd_key g) <> Gt) fields).
    pose proof (sort_by_sorted spec_cmp spec_cmp_laws (mb_fields b)) as S. unfold fields. simpl.
    generalize 0%nat as k. unfold frozen_field.
    assert (G : forall l, StronglySorted (le_by spec_cmp) l -> forall (h : nat -> FieldSpec -> FieldDef),
      (forall i f, fd_key (h i f) = fs_key f) ->
      StronglySorted (fun f g => str_cmp (fd_key f) (fd_key g) <> Gt) (imap h l)).
    { induction 1 as [|x l _ IH Hx]; intros h Hh; simpl; constructor.
      - apply IH. intros; apply Hh.
      - apply Forall_forall. intros g (i & y & -> & Hy)%elem_of_lookup_imap.
        rewrite Forall_forall in Hx. unfold compose. rewrite !Hh. apply (Hx y). by eapply list_elem_of_lookup_2. }
    intros _. by apply G.
Qed.

(** The order of declarations is not semantic: two builders declaring the
    same fields, constraints, relations and references in any order freeze to
    the same model, fingerprint included. *)
Theorem freeze_order_insensitive a b ma mb :
  same_declaration a b -> freeze a = Ok ma -> freeze b = Ok mb -> ma = mb.
Proof.
  intros (Hk & Hn & Hf & Hi & Hu & Hr & He) (-> & (Dk & _)%validate_fields_spec & _ & Hrel & _)%freeze_ok
    (-> & _)%freeze_ok. f_equal. unfold frozen_parts. simpl.
  unfold validate_relations in Hrel. apply rbind_ok in Hrel as (r & Hrel%validate_relations_keys & _).
  f_equal; [done|done| | | | |].
  - f_equal. apply sort_by_unique; [apply spec_cmp_laws|done|].
    intros x y Hx Hy E%str_cmp_eq. by apply (NoDup_map_inj fs_key (mb_fields a)).
  - exact Hi.
  - f_equal. f_equal. apply sort_by_unique; [apply keys_cmp_laws|done|]. intros x y _ _. apply keys_cmp_eq.
  - apply sort_by_unique; [apply relation_cmp_laws|done|].
    intros x y Hx Hy E%str_cmp_eq. by apply (NoDup_map_inj rel_key (mb_relations a)).
  - f_equal. apply sort_by_unique; [apply reference_cmp_laws|done|]. intros x y _ _. apply reference_cmp_eq.
Qed.

(** A model set has no dangling relation or reference: every target model
    and field exists, mapped fields share their value type, and a to-one
    relation (and every reference) targets an identity or a unique tuple. *)
Theorem model_set_closed models set : model_set_new models = Ok set ->
  forall key m, (key, m) ∈ set ->
  Forall (fun r => exists target, bt_get (rel_target_model r) set = Some target /\
    Forall (fun p => exists lf rf, model_field m (fst p) = Some lf /\ model_field target (snd p) = Some rf /\
                                   non_null (fd_ty lf) = non_null (fd_ty rf)) (rel_fields r) /\
    (rel_cardinality r <> CMany -> is_unique target (map snd (rel_fields r)) = true)) (md_relations m) /\
  Forall (fun r => exists target, bt_get (ref_target_model r) set = Some target /\
    Forall (fun p => exists lf rf, model_field m (fst p) = Some lf /\ model_field target (snd p) = Some rf /\
                                   non_null (fd_ty lf) = non_null (fd_ty rf))
      (combine (ref_source_fields r) (ref_target_fields r)) /\
    is_unique target (ref_target_fields r) = true) (md_references m).
Proof.
  intros Hset key m Hin. split; [|by apply (model_set_references models set Hset key)].
  unfold model_set_new in Hset. apply rbind_ok in Hset as (s & _ & H). apply check_then in H as [_ H].
  apply check_then in H as [H [= ->]]. rewrite forR_ok, Forall_forall in H.
  specialize (H _ Hin). simpl in H. apply check_then in H as [Hr _].
  unfold set_validate_relations in Hr. apply forR_ok in Hr.
  eapply Forall_impl; [exact Hr|]. intros r (target & Ht%ok_or_ok & H)%rbind_ok.
    apply check_then in H as [Hp Hc]. exists target. split_and!; [done| |].
  - rewrite forR_ok in Hp. eapply Forall_impl; [exact Hp|].
    intros p (lf & Hl%ok_or_ok & (rf & Hr'%ok_or_ok & Hs%guard_ok%same_value_type_eq)%rbind_ok)%rbind_ok. eauto.
  - intros Hne. destruct (rel_cardinality r); try done; by apply guard_ok in Hc.
Qed.
End ModelClaims.

Definition sample_builder : ModelBuilder :=
  builder_identity (builder_field_def (builder_field_def (builder_new "user")
    "id" "id" (scalar "dol/int64" 1 (RInt 64)) Required)
    "email" "mail" (nullable (scalar "dol/string" 1 RString)) Optional) ["id"].

Definition sample_builder' : ModelBuilder :=
  builder_field_def (builder_field_def (builder_identity (builder_new "user") ["id"])
    "email" "mail" (nullable (scalar "dol/string" 1 RString)) Optional)
    "id" "id" (scalar "dol/int64" 1 (RInt 64)) Required.

Definition sample_model : ModelDef := from_parts (F:=sample_foreign) (frozen_parts sample_builder).

Lemma sample_freeze : freeze (F:=sample_foreign) sample_builder = Ok sample_model.
Proof. vm_compute. reflexivity. Qed.

Lemma frozen_model_lookup_witness :
  freeze (F:=sample_foreign) sample_builder = Ok sample_model /\
  (forall i f, md_fields sample_model !! i = Some f -> fd_slot f = i).
Proof.
  split; [exact sample_freeze|]. apply (frozen_model_lookup (F:=sample_foreign) sample_builder sample_model sample_freeze).
Defined.

Lemma freeze_order_insensitive_witness : freeze (F:=sample_foreign) sample_builder' = Ok sample_model.
Proof.
  destruct (freeze (F:=sample_foreign) sample_builder') as [m|d] eqn:E; [|vm_compute in E; discriminate E].
  f_equal. symmetry. apply (freeze_order_insensitive (F:=sample_foreign) sample_builder sample_builder' sample_model m);
    [|exact sample_freeze|exact E].
  unfold same_declaration. split_and!; try reflexivity. apply Permutation_swap.
Defined.

Definition sample_owner : ModelBuilder :=
  builder_relation (builder_field_def (builder_new "post")
    "author" "author" (scalar "dol/int64" 1 (RInt 64)) Required)
    (relation_new "author" "author" "user" COne [("author", "id")]).

Definition sample_owner_model : ModelDef := from_parts (F:=sample_foreign) (frozen_parts sample_owner).
Definition sample_set : ModelSet := [("post"%stdpp, sample_owner_model); ("user"%stdpp, sample_model)].

Lemma model_set_closed_witness :
  model_set_new [sample_model; sample_owner_model] = Ok sample_set /\
  exists target, bt_get "user"%stdpp sample_set = Some target.
Proof.
  assert (H : model_set_new [sample_model; sample_owner_model] = Ok sample_set) by (vm_compute; reflexivity).
  split; [exact H|].
  destruct (model_set_closed _ _ H "post"%stdpp sample_owner_model) as [Hr _]; [left|].
  inversion_clear Hr as [|r l (target & Ht & _) _]. exists target. exact Ht.
Defined.
