(* ===== verification/Row.v ===== *)
(** * Runtime rows ([crates/dol-core/src/runtime/row.rs], [model/traits.rs])

    Records as the executors see them ([RecordView]) and the dense dynamic row
    with its builder. *)
From Stdlib Require Import ZArith Lia.
From S2P Require Import Prelude Foreign Types Values Fingerprint Model.

Local Open Scope Z_scope.

Section Row.
Context {F : Foreign}.

(** [trait RecordView]: a model and the datum of each exposed slot. *)
Record RecordView := mkRecordView {
  rv_model : Result ModelDef;
  rv_field : nat -> Result (option Datum)
}.

Record DynRow := mkDynRow { row_model : ModelDef; row_values : list Datum }.

(** [PartialEq for DynRow]. *)
Definition row_eqb (a b : DynRow) : bool :=
  bool_decide (md_fingerprint (row_model a) = md_fingerprint (row_model b)) &&
  Nat.eqb (length (row_values a)) (length (row_values b)) &&
  forallb (fun p => datum_eqb (fst p) (snd p)) (combine (row_values a) (row_values b)).

Definition row_get (r : DynRow) (slot : nat) : option Datum := row_values r !! slot.

Definition row_view (r : DynRow) : RecordView := mkRecordView (Ok (row_model r)) (fun slot => Ok (row_get r slot)).

Definition row_logical_bytes (r : DynRow) : Z :=
  fold_left (fun size d => sat_add size (datum_logical_bytes d)) (row_values r) 32.

Definition row_from_record (record : RecordView) : Result DynRow :=
  let? model := rv_model record in
  let? values := mapR (fun f =>
    let? datum := rv_field record (fd_slot f) in
    let? datum := ok_or datum "RUNTIME-009" in
    validate_datum (fd_ty f) (fd_presence f) datum ;;? Ok datum) (md_fields model) in
  Ok (mkDynRow model values).

Definition row_from_dense (model : ModelDef) (values : list Datum) : Result DynRow :=
  guard (Nat.eqb (length values) (length (md_fields model))) "RUNTIME-010" ;;?
  forR (fun f =>
    let? datum := ok_or (values !! fd_slot f) "RUNTIME-010" in
    validate_datum (fd_ty f) (fd_presence f) datum) (md_fields model) ;;?
  Ok (mkDynRow model values).

(** [RecordMut::set_field]. *)
Definition row_set_field (r : DynRow) (slot : nat) (datum : Datum) : Result DynRow :=
  let? f := ok_or (md_fields (row_model r) !! slot) "RUNTIME-008" in
  validate_datum (fd_ty f) (fd_presence f) datum ;;?
  let? _ := ok_or (row_values r !! slot) "RUNTIME-008" in
  Ok (mkDynRow (row_model r) (<[slot := datum]> (row_values r))).

(** ** The builder.  Indexing outside the values panics in the code; the
    builder's values have one entry per field of a dense model, so it never
    does ([builder_in_range]). *)
Definition panic {A} : Result A := error "panic".

Record DynRowBuilder := mkRowBuilder { rb_model : ModelDef; rb_values : list Datum }.

Definition row_builder (m : ModelDef) : DynRowBuilder :=
  mkRowBuilder m (replicate (length (md_fields m)) Missing).

Definition row_assign (b : DynRowBuilder) (f : FieldDef) (datum : Datum) : Result DynRowBuilder :=
  validate_datum (fd_ty f) (fd_presence f) datum ;;?
  match rb_values b !! fd_slot f with
  | Some _ => Ok (mkRowBuilder (rb_model b) (<[fd_slot f := datum]> (rb_values b)))
  | None => panic
  end.

Definition row_set (b : DynRowBuilder) (key : string) (datum : Datum) : Result DynRowBuilder :=
  let? f := ok_or (model_field (rb_model b) key) "RUNTIME-001" in row_assign b f datum.

Definition row_set_named (b : DynRowBuilder) (name : string) (datum : Datum) : Result DynRowBuilder :=
  let? f := ok_or (model_field_named (rb_model b) name) "RUNTIME-001" in row_assign b f datum.

Definition row_freeze (b : DynRowBuilder) : Result DynRow :=
  forR (fun f => match rb_values b !! fd_slot f with
                 | Some datum => validate_datum (fd_ty f) (fd_presence f) datum
                 | None => panic
                 end) (md_fields (rb_model b)) ;;?
  Ok (mkDynRow (rb_model b) (rb_values b)).

(** ** Valid rows: one value per field, each valid for its field. *)
Definition field_accepts (f : FieldDef) (d : Datum) : Prop := validate_datum (fd_ty f) (fd_presence f) d = Ok tt.

Definition row_valid (r : DynRow) : Prop := Forall2 field_accepts (md_fields (row_model r)) (row_values r).

Lemma Forall2_slots {A B} (P : A -> B -> Prop) (l : list A) (l' : list B) :
  length l' = length l -> (forall i x, l !! i = Some x -> exists y, l' !! i = Some y /\ P x y) -> Forall2 P l l'.
Proof.
  intros Hl H. apply Forall2_same_length_lookup. split; [done|].
  intros i x y Hx Hy. destruct (H i x Hx) as (y' & Hy' & HP). congruence.
Qed.

Lemma dense_values m (values : list Datum) :
  dense m -> length values = length (md_fields m) ->
  (forall f, f ∈ md_fields m -> exists d, values !! fd_slot f = Some d /\ field_accepts f d) <->
  Forall2 field_accepts (md_fields m) values.
Proof.
  intros Hd Hl. split.
  - intros H. apply Forall2_slots; [done|]. intros i f Hf. rewrite <- (Hd i f Hf). apply H.
    by eapply list_elem_of_lookup_2.
  - intros H f (i & Hf)%list_elem_of_lookup_1. rewrite (Hd i f Hf).
    by apply (Forall2_lookup_l _ _ _ _ _ H).
Qed.

Lemma row_from_dense_ok m values r : dense m ->
  row_from_dense m values = Ok r <-> r = mkDynRow m values /\ Forall2 field_accepts (md_fields m) values.
Proof.
  intros Hd. unfold row_from_dense. rewrite !check_then, check_ok, forR_ok, Nat.eqb_eq, Forall_forall.
  split.
  - intros (Hl & H & [= <-]). split; [done|]. apply dense_values; [done..|].
    intros f Hf. specialize (H f Hf). apply rbind_ok in H as (d & H1%ok_or_ok & H2). eauto.
  - intros [-> H]. pose proof (Forall2_length _ _ _ H) as Hl. split_and!; [done| |done].
    intros f Hf. destruct (proj2 (dense_values m values Hd ltac:(done)) H f Hf) as (d & -> & Ha). done.
Qed.

Lemma row_set_field_ok r slot d r' :
  row_valid r ->
  row_set_field r slot d = Ok r' <->
  exists f, md_fields (row_model r) !! slot = Some f /\ field_accepts f d /\
            r' = mkDynRow (row_model r) (<[slot := d]> (row_values r)).
Proof.
  intros Hv. unfold row_set_field. rewrite rbind_ok. setoid_rewrite ok_or_ok. split.
  - intros (f & Hf & [Ha H]%check_then). apply rbind_ok in H as (_ & _ & [= <-]). eauto.
  - intros (f & Hf & Ha & ->). exists f. split; [done|]. apply check_then. split; [done|].
    destruct (Forall2_lookup_l _ _ _ _ _ Hv Hf) as (d0 & -> & _). done.
Qed.

Lemma row_set_field_valid r slot d r' : row_valid r -> row_set_field r slot d = Ok r' -> row_valid r'.
Proof.
  intros Hv (f & Hf & Ha & ->)%row_set_field_ok; [|done]. unfold row_valid. simpl.
  rewrite <- (list_insert_id _ _ _ Hf). by apply Forall2_insert.
Qed.

Lemma builder_in_range b f datum b' :
  row_assign b f datum = Ok b' -> length (rb_values b') = length (rb_values b) /\ rb_model b' = rb_model b.
Proof.
  unfold row_assign. intros [_ H]%check_then. destruct (rb_values b !! fd_slot f); [|done].
  injection H as <-. simpl. by rewrite length_insert.
Qed.
End Row.

Section RowClaims.
Context {F : Foreign}.

(** The builder calls a caller can chain. *)
Inductive built : DynRowBuilder -> Prop :=
| built_new m : dense m -> built (row_builder m)
| built_set b key d b' : built b -> row_set b key d = Ok b' -> built b'
| built_named b name d b' : built b -> row_set_named b name d = Ok b' -> built b'.

Lemma built_length b : built b -> dense (rb_model b) /\ length (rb_values b) = length (md_fields (rb_model b)).
Proof.
  induction 1 as [m Hm|b key d b' _ [Hd IH] H|b name d b' _ [Hd IH] H]; [split; [done|]; apply length_replicate| |];
    apply rbind_ok in H as (f & _ & [Hl Hm]%builder_in_range); by rewrite Hl, Hm.
Qed.

(** However a row is made (from dense values, from a record, by the
    builder, by field assignment), it has exactly one value per field and each
    is valid for its field's type and presence. *)
Theorem rows_valid :
  (forall m values r, dense m -> row_from_dense m values = Ok r -> row_valid r) /\
  (forall record r, row_from_record record = Ok r -> row_valid r) /\
  (forall b r, built b -> row_freeze b = Ok r -> row_valid r) /\
  (forall r slot d r', row_valid r -> row_set_field r slot d = Ok r' -> row_valid r').
Proof.
  split_and!.
  - intros m values r Hd [-> H]%row_from_dense_ok; done.
  - intros record r (m & _ & (values & Hv%mapR_ok & [= <-])%rbind_ok)%rbind_ok.
    unfold row_valid. simpl. eapply Forall2_impl; [exact Hv|]. intros f d Hf.
    apply rbind_ok in Hf as (o & _ & (d' & _ & [Ha [= <-]]%check_then)%rbind_ok). done.
  - intros b r [Hd Hl]%built_length [Hf [= <-]]%check_then. rewrite forR_ok, Forall_forall in Hf.
    apply (dense_values (rb_model b) (rb_values b)); [done..|]. intros f Hin. specialize (Hf f Hin). simpl in Hf.
    destruct (rb_values b !! fd_slot f) as [d|]; [eauto|done].
  - intros r slot d r'. apply row_set_field_valid.
Qed.

(** Field assignment succeeds exactly when the slot is a field accepting
    the datum, and changes that field only. *)
Theorem row_set_field_exact r slot d r' : row_valid r ->
  (row_set_field r slot d = Ok r' <->
   row_model r' = row_model r /\ row_get r' slot = Some d /\
   (forall other, other <> slot -> row_get r' other = row_get r other) /\
   exists f, md_fields (row_model r) !! slot = Some f /\ field_accepts f d).
Proof.
  intros Hv. rewrite (row_set_field_ok r slot d r' Hv). unfold row_get. split.
  - intros (f & Hf & Ha & ->). simpl. destruct (Forall2_lookup_l _ _ _ _ _ Hv Hf) as (d0 & Hd0 & _).
    split_and!; [done| | |eauto].
    + apply list_lookup_insert_eq. by eapply lookup_lt_Some.
    + intros other Hne. by apply list_lookup_insert_ne.
  - intros (Hm & Hs & Ho & f & Hf & Ha). exists f. split_and!; [done..|]. destruct r' as [m vs]. simpl in *. subst m.
    f_equal. apply list_eq. intros i. destruct (decide (i = slot)) as [->|Hne].
    + destruct (Forall2_lookup_l _ _ _ _ _ Hv Hf) as (d0 & Hd0 & _).
      rewrite list_lookup_insert_eq; [done|by eapply lookup_lt_Some].
    + rewrite list_lookup_insert_ne by done. by apply Ho.
Qed.
End RowClaims.

Definition sample_row : DynRow (F:=sample_foreign) :=
  mkDynRow sample_model [Null; DValue (VInt 7)].

Lemma sample_row_valid : row_valid sample_row.
Proof. repeat constructor. Qed.

Lemma row_set_field_exact_witness :
  row_set_field sample_row 1 (DValue (VInt 8)) = Ok (mkDynRow sample_model [Null; DValue (VInt 8)]).
Proof.
  apply (row_set_field_exact sample_row 1 _ (mkDynRow sample_model [Null; DValue (VInt 8)]) sample_row_valid).
  split; [reflexivity|]. split; [reflexivity|]. split.
  - intros [|[|?]] H; [reflexivity|done|reflexivity].
  - eexists. split; reflexivity.
Defined.
