(* ===== verification/Expr.v ===== *)
(** * Expression trees ([crates/dol-core/src/expr]: [node.rs], [function.rs],
    [fingerprint.rs], [existential.rs], the limits of [prepare.rs])

    The authoring representation of expressions, semantic functions, the
    canonical fingerprint, the resource limits, and the balanced form of
    conjunctions.  The pipelines behind existential expressions are an
    interface: an expression only fingerprints and resolves them. *)
From Stdlib Require Import ZArith Lia.
From S2P Require Import Prelude Foreign Truth BTree Text Types Values Fingerprint.

Local Open Scope Z_scope.

(** ** Semantic functions ([function.rs]) *)
Inductive FunctionDeterminism := Deterministic | Contextual | Volatile.

Record FunctionDef := mkFunctionDef {
  fn_key : string;
  fn_version : Z;
  fn_determinism : FunctionDeterminism;
  fn_dependencies : list (string * string)
}.

#[export] Instance FunctionDeterminism_eq_dec : EqDecision FunctionDeterminism.
Proof. solve_decision. Defined.
#[export] Instance FunctionDef_eq_dec : EqDecision FunctionDef.
Proof. solve_decision. Defined.

Definition function_new (key : string) (version : Z) (d : FunctionDeterminism) : FunctionDef :=
  mkFunctionDef key version d [].

Definition with_dependency (f : FunctionDef) (name version : string) : FunctionDef :=
  mkFunctionDef (fn_key f) (fn_version f) (fn_determinism f) (bt_insert name version (fn_dependencies f)).

Definition validate_function_def (f : FunctionDef) : Result unit :=
  let key := fn_key f in
  let segments := str_split slash key in
  guard (negb (is_empty_str key) && negb (str_starts_with key slash_str) &&
         negb (str_ends_with key slash_str) && (2 <=? zlen segments) &&
         forallb (fun s => negb (is_empty_str s)) segments) "EXPR-FUNC-001" ;;?
  guard (negb (fn_version f =? 0)) "EXPR-FUNC-002" ;;?
  forR (fun d => guard (negb (is_empty_str (fst d) || is_empty_str (snd d))) "EXPR-FUNC-003") (fn_dependencies f).

Definition hash_determinism (d : FunctionDeterminism) : list Z :=
  h_u8 (match d with Deterministic => 0 | Contextual => 1 | Volatile => 2 end).

Definition hash_function_def (f : FunctionDef) : list Z :=
  h_str (fn_key f) ++ h_u32 (fn_version f) ++ hash_determinism (fn_determinism f) ++
  h_u64 (zlen (fn_dependencies f)) ++ flat_map (fun d => h_str (fst d) ++ h_str (snd d)) (fn_dependencies f).

(** ** Operators ([node.rs]) *)
Inductive UnaryOp := Not | IsNull | IsMissing | IsPresent | NullableLift | LosslessCast | Negate | Abs.
Inductive BinaryOp :=
| OpEq | OpNe | OpLt | OpLe | OpGt | OpGe | OpAnd | OpOr | OpAdd | OpSub | OpMul | OpDiv | OpRem
| IsDistinctFrom | IsNotDistinctFrom | Coalesce.

#[export] Instance UnaryOp_eq_dec : EqDecision UnaryOp.
Proof. solve_decision. Defined.
#[export] Instance BinaryOp_eq_dec : EqDecision BinaryOp.
Proof. solve_decision. Defined.

Record FieldRef := mkFieldRef {
  f_model : string;
  f_key : string;
  f_name : string;
  f_scope : option string
}.

(** The pipelines of existential expressions. *)
Class Subqueries := {
  Subquery : Type;
  subquery_fingerprint : Subquery -> Result (list Z)
}.

Section Nodes.
Context {F : Foreign} {Q : Subqueries}.

(** A portable definition with its local validator and evaluator. *)
Record FunctionRef := mkFunctionRef {
  fr_definition : FunctionDef;
  fr_validate : FunctionDef -> list TypeDef -> TypeDef -> Result unit;
  fr_evaluate : FunctionDef -> list Datum -> TypeDef -> Result Datum
}.

Definition function_validate (f : FunctionRef) (arguments : list TypeDef) (result : TypeDef) : Result unit :=
  validate_function_def (fr_definition f) ;;? fr_validate f (fr_definition f) arguments result.

Definition function_evaluate (f : FunctionRef) (arguments : list Datum) (result : TypeDef) : Result Datum :=
  fr_evaluate f (fr_definition f) arguments result.

(** [trait SemanticFunction]. *)
Record SemanticFunction := mkSemanticFunction {
  sf_definition : FunctionDef;
  sf_validate : list TypeDef -> TypeDef -> Result unit;
  sf_evaluate : list Datum -> TypeDef -> Result Datum
}.

Definition validate_semantic_function (sf : SemanticFunction) (d : FunctionDef) (arguments : list TypeDef)
  (result : TypeDef) : Result unit :=
  guard (negb (str_starts_with (fn_key d) "dol/")) "EXPR-FUNC-005" ;;?
  guard (bool_decide (fn_determinism d = Deterministic)) "EXPR-FUNC-006" ;;?
  sf_validate sf arguments result.

Definition evaluate_semantic_function (sf : SemanticFunction) (_ : FunctionDef) (arguments : list Datum)
  (result : TypeDef) : Result Datum := sf_evaluate sf arguments result.

Definition function_semantic (sf : SemanticFunction) : FunctionRef :=
  mkFunctionRef (sf_definition sf) (validate_semantic_function sf) (evaluate_semantic_function sf).

Inductive ExprNode := mkExpr (kind : ExprKind) (ty : TypeDef)
with ExprKind :=
| EField (f : FieldRef)
| ELiteral (d : Datum)
| EParameter (name : string)
| EUnary (op : UnaryOp) (input : ExprNode)
| EBinary (op : BinaryOp) (l r : ExprNode)
| EMembership (input : ExprNode) (candidates : list ExprNode) (negate : bool)
| EConditional (condition when_true when_false : ExprNode)
| ECall (f : FunctionRef) (arguments : list ExprNode)
| EExists (subquery : Subquery).

Definition e_kind (n : ExprNode) := let '(mkExpr k _) := n in k.
Definition e_ty (n : ExprNode) := let '(mkExpr _ t) := n in t.

(** Children in the order the traversals visit them. *)
Definition kind_children (k : ExprKind) : list ExprNode :=
  match k with
  | EField _ | ELiteral _ | EParameter _ | EExists _ => []
  | EUnary _ a => [a]
  | EBinary _ a b => [a; b]
  | EMembership a l _ => a :: l
  | EConditional a b c => [a; b; c]
  | ECall _ l => l
  end.
Definition expr_children (n : ExprNode) : list ExprNode := kind_children (e_kind n).

Fixpoint expr_ind' (P : ExprNode -> Prop)
  (H : forall k t, Forall P (kind_children k) -> P (mkExpr k t)) (n : ExprNode) {struct n} : P n :=
  let fix go l : Forall P l :=
    match l with [] => Forall_nil_2 _ | x :: l' => Forall_cons_2 _ x l' (expr_ind' P H x) (go l') end in
  match n with
  | mkExpr k t =>
      H k t (match k return Forall P (kind_children k) with
             | EUnary _ a => go [a]
             | EBinary _ a b => Forall_cons_2 _ a _ (expr_ind' P H a) (go [b])
             | EMembership a l _ => Forall_cons_2 _ a _ (expr_ind' P H a) (go l)
             | EConditional a b c =>
                 Forall_cons_2 _ a _ (expr_ind' P H a) (Forall_cons_2 _ b _ (expr_ind' P H b) (go [c]))
             | ECall _ l => go l
             | _ => Forall_nil_2 _
             end)
  end.

(** ** Fingerprints ([fingerprint.rs]) *)
Definition unary_tag (op : UnaryOp) : Z :=
  match op with
  | Not => 0 | IsNull => 1 | IsMissing => 2 | IsPresent => 3
  | NullableLift => 4 | LosslessCast => 5 | Negate => 6 | Abs => 7
  end.

Definition binary_tag (op : BinaryOp) : Z :=
  match op with
  | OpEq => 0 | OpNe => 1 | OpLt => 2 | OpLe => 3 | OpGt => 4 | OpGe => 5 | OpAnd => 6 | OpOr => 7
  | OpAdd => 8 | OpSub => 9 | OpMul => 10 | OpDiv => 11 | OpRem => 12
  | IsDistinctFrom => 13 | IsNotDistinctFrom => 14 | Coalesce => 15
  end.

Fixpoint hash_node (n : ExprNode) : Result (list Z) :=
  let '(mkExpr kind ty) := n in
  rmap (fun tail => hash_type_def ty ++ tail)
  match kind with
  | EField f => Ok (h_u8 0 ++ h_str (f_model f) ++ h_str (f_key f))
  | ELiteral d => Ok (h_u8 1 ++ hash_datum d)
  | EParameter name => Ok (h_u8 2 ++ h_str name)
  | EUnary op a => let? ha := hash_node a in Ok (h_u8 3 ++ h_u8 (unary_tag op) ++ ha)
  | EBinary op a b =>
      let? ha := hash_node a in let? hb := hash_node b in
      Ok (h_u8 4 ++ h_u8 (binary_tag op) ++ ha ++ hb)
  | EMembership a l negate =>
      let? ha := hash_node a in let? hl := mapR hash_node l in
      Ok (h_u8 5 ++ h_bool negate ++ ha ++ h_u64 (zlen l) ++ concat hl)
  | EConditional a b c =>
      let? ha := hash_node a in let? hb := hash_node b in let? hc := hash_node c in
      Ok (h_u8 6 ++ ha ++ hb ++ hc)
  | ECall f l =>
      let? hl := mapR hash_node l in
      Ok (h_u8 7 ++ hash_function_def (fr_definition f) ++ h_u64 (zlen l) ++ concat hl)
  | EExists q => let? fp := subquery_fingerprint q in Ok (h_u8 8 ++ h_bytes fp)
  end.

Definition fingerprint_node (n : ExprNode) : Result Fingerprint :=
  rmap (fun bytes => finish (hasher_new "expression/v4" ++ bytes)) (hash_node n).

(** ** Limits ([prepare.rs], [check_expression_limits]) *)
Record ExpressionLimits := mkExpressionLimits {
  max_nodes : Z;
  max_depth : Z;
  max_parameter_name_bytes : Z
}.

Definition default_expression_limits : ExpressionLimits := mkExpressionLimits 65536 256 1024.

Fixpoint expr_size (n : ExprNode) : nat :=
  let '(mkExpr k _) := n in
  S match k with
    | EField _ | ELiteral _ | EParameter _ | EExists _ => 0
    | EUnary _ a => expr_size a + 0
    | EBinary _ a b => expr_size a + (expr_size b + 0)
    | EMembership a l _ => expr_size a + list_sum (map expr_size l)
    | EConditional a b c => expr_size a + (expr_size b + (expr_size c + 0))
    | ECall _ l => list_sum (map expr_size l)
    end.

Definition limit_visit (limits : ExpressionLimits) (nodes depth : Z) : Result unit :=
  guard (negb (max_nodes limits <? nodes)) "EXPR-LIMIT-001" ;;?
  guard (negb (max_depth limits <? depth)) "EXPR-LIMIT-002".

Definition check_expression_limits (n : ExprNode) (limits : ExpressionLimits) : Result Z :=
  walk expr_children (limit_visit limits) (expr_size n) [(n, 1)] 0.

(** ** Balanced conjunctions ([existential.rs], [ExpressionSpec]) *)
Record ExpressionSpec := mkExpressionSpec { spec_node : ExprNode; spec_ty : TypeDef }.

Definition truth_type : TypeDef := scalar "dol/truth" 1 RTruth.
Definition and_node (l r : ExprNode) : ExprNode := mkExpr (EBinary OpAnd l r) truth_type.

(** The leaves of the maximal [And] tree at the root, left to right: the
    stack loop, with as much fuel as the expression has nodes. *)
Fixpoint collect_leaves (fuel : nat) (stack leaves : list ExprNode) : list ExprNode :=
  match fuel with
  | O => leaves
  | S fuel' =>
      match stack with
      | [] => leaves
      | n :: rest =>
          match e_kind n with
          | EBinary OpAnd l r => collect_leaves fuel' (l :: r :: rest) leaves
          | _ => collect_leaves fuel' rest (leaves ++ [n])
          end
      end
  end.

(** One round of [while leaves.len() > 1]: neighbours are conjoined. *)
Fixpoint pair_up (leaves : list ExprNode) : list ExprNode :=
  match leaves with
  | a :: b :: rest => and_node a b :: pair_up rest
  | rest => rest
  end.

Fixpoint balance (fuel : nat) (leaves : list ExprNode) : list ExprNode :=
  match fuel with
  | O => leaves
  | S fuel' => match leaves with
               | _ :: _ :: _ => balance fuel' (pair_up leaves)
               | _ => leaves
               end
  end.

Definition canonical_truth (s : ExpressionSpec) : ExpressionSpec :=
  let leaves := collect_leaves (expr_size (spec_node s)) [spec_node s] [] in
  mkExpressionSpec (default (spec_node s) (last (balance (length leaves) leaves))) truth_type.

Definition and_truth (a b : ExpressionSpec) : ExpressionSpec :=
  canonical_truth (mkExpressionSpec (and_node (spec_node a) (spec_node b)) truth_type).
End Nodes.

(** ** Sizes *)
Section Sizes.
Context {F : Foreign} {Q : Subqueries}.

Fixpoint expr_height (n : ExprNode) : Z :=
  let '(mkExpr k _) := n in
  match k with
  | EField _ | ELiteral _ | EParameter _ | EExists _ => 0
  | EUnary _ a => Z.max (1 + expr_height a) 0
  | EBinary _ a b => Z.max (1 + expr_height a) (Z.max (1 + expr_height b) 0)
  | EMembership a l _ => Z.max (1 + expr_height a) (foldr (fun c h => Z.max (1 + expr_height c) h) 0 l)
  | EConditional a b c =>
      Z.max (1 + expr_height a) (Z.max (1 + expr_height b) (Z.max (1 + expr_height c) 0))
  | ECall _ l => foldr (fun c h => Z.max (1 + expr_height c) h) 0 l
  end.

Lemma expr_size_eq n : expr_size n = S (list_sum (map expr_size (expr_children n))).
Proof. destruct n as [k t]. by destruct k. Qed.

Lemma expr_height_eq n : expr_height n = foldr (fun c h => Z.max (1 + expr_height c) h) 0 (expr_children n).
Proof. destruct n as [k t]. by destruct k. Qed.

Lemma limit_visit_ok limits n d :
  limit_visit limits n d = Ok tt <-> n <= max_nodes limits /\ d <= max_depth limits.
Proof.
  unfold limit_visit, guard. destruct (Z.ltb_spec (max_nodes limits) n), (Z.ltb_spec (max_depth limits) d);
    simpl; split; try done; lia.
Qed.

(** [check_expression_limits] returns the node count exactly when the
    count and the depth of the deepest node (the root being at depth one) are
    within the limits. *)
Theorem check_expression_limits_exact n limits m :
  max_depth limits < u64_max -> Z.of_nat (expr_size n) <= u64_max ->
  (check_expression_limits n limits = Ok m <->
   m = Z.of_nat (expr_size n) /\ Z.of_nat (expr_size n) <= max_nodes limits /\
   1 + expr_height n <= max_depth limits).
Proof.
  intros HD HN. unfold check_expression_limits.
  assert (Hs : stack_size expr_size [(n, 1)] = expr_size n) by (unfold stack_size; simpl; lia).
  pose proof (walk_spec expr_children expr_size expr_height expr_size_eq expr_height_eq
    (limit_visit limits) (max_nodes limits) (max_depth limits) (limit_visit_ok limits) HD
    (expr_size n) [(n, 1)] 0 m) as W.
  rewrite Hs in W. rewrite W by lia. rewrite Forall_singleton. simpl. rewrite Z.add_0_l.
  split; [intros (-> & [|H] & Hh); [done|]; auto|intros (-> & H & Hh); auto].
Qed.
End Sizes.

#[export] Instance no_subqueries : Subqueries := {|
  Subquery := Empty_set;
  subquery_fingerprint := fun q => match q with end
|}.

Definition sample_expr : ExprNode (F:=sample_foreign) (Q:=no_subqueries) :=
  mkExpr (EUnary Not (mkExpr (EField (mkFieldRef "user" "ok" "ok" None)) truth_type)) truth_type.

Lemma check_expression_limits_exact_witness :
  check_expression_limits sample_expr default_expression_limits = Ok 2.
Proof.
  apply (check_expression_limits_exact sample_expr default_expression_limits 2);
    [reflexivity|vm_compute; discriminate|].
  split; [reflexivity|]. split; vm_compute; discriminate.
Defined.
