(* ===== verification/Semantic.v ===== *)
(** * Operator semantics ([crates/dol-core/src/expr/semantic.rs])

    The normative meaning of every operator and built-in function on owned
    datums: Kleene logic, null-propagating arithmetic with checked 128-bit
    integers, membership, lossless casts, text and calendar functions. *)
From Stdlib Require Import ZArith Lia.
From S2P Require Import Prelude Floats Foreign Truth BTree Text Types Values Fingerprint Expr.

Local Open Scope Z_scope.

Section Semantic.
Context {F : Foreign} {Q : Subqueries}.

Definition truth (b : bool) : Datum := DValue (VTruth (if b then TTrue else TFalse)).
Definition unknown : Datum := DValue (VTruth TUnknown).

Definition as_truth (d : Datum) : Result Truth :=
  match d with DValue (VTruth t) => Ok t | _ => error "EXPR-EVAL-001" end.

Definition truth_unary (input : Datum) (op : Truth -> Truth) : Result Datum :=
  let? t := as_truth input in Ok (DValue (VTruth (op t))).

Definition truth_binary (l r : Datum) (op : Truth -> Truth -> Truth) : Result Datum :=
  let? a := as_truth l in let? b := as_truth r in Ok (DValue (VTruth (op a b))).

(** ** Comparisons *)
Definition compare_equality (l r : Datum) (negate : bool) : Result Datum :=
  match l, r with
  | Missing, _ | Null, _ | _, Missing | _, Null => Ok unknown
  | DValue a, DValue b => let equal := value_eqb a b in Ok (truth (if negate then negb equal else equal))
  end.

Definition distinct_equality (l r : Datum) (distinct : bool) : Result Datum :=
  let equal :=
    match l, r with
    | Missing, Missing | Null, Null => true
    | Missing, _ | _, Missing | Null, _ | _, Null => false
    | DValue a, DValue b => value_eqb a b
    end in
  Ok (truth (if distinct then negb equal else equal)).

Definition value_partial_cmp (a b : Value) : option comparison :=
  match a, b with
  | VBool x, VBool y => Some (bool_cmp x y)
  | VTruth x, VTruth y => Some (Truth.cmp x y)
  | VInt x, VInt y | VUInt x, VUInt y => Some (x ?= y)
  | VFloat32 x, VFloat32 y => float_partial_cmp binary32 x y
  | VFloat64 x, VFloat64 y => float_partial_cmp binary64 x y
  | VDecimal x, VDecimal y => Some (dec_cmp x y)
  | VChar x, VChar y => Some (x ?= y)
  | VString x, VString y => Some (String.compare x y)
  | VBytes x, VBytes y => Some (list_cmp Z.compare x y)
  | VUuid x, VUuid y => Some (uuid_cmp x y)
  | VDate x, VDate y => Some (date_cmp x y)
  | VTime x, VTime y => Some (time_cmp x y)
  | VLocalDateTime x, VLocalDateTime y => Some (ldt_cmp x y)
  | VInstant x, VInstant y => Some (instant_cmp x y)
  | VDuration x, VDuration y => Some (duration_cmp x y)
  | _, _ => None
  end.

Definition order_holds (op : BinaryOp) (o : comparison) : bool :=
  match op with
  | OpLt => comparison_eqb o Lt
  | OpLe => negb (comparison_eqb o Gt)
  | OpGt => comparison_eqb o Gt
  | OpGe => negb (comparison_eqb o Lt)
  | _ => false
  end.

Definition compare_order (op : BinaryOp) (l r : Datum) : Result Datum :=
  match l, r with
  | DValue a, DValue b =>
      match value_partial_cmp a b with
      | None => Ok (truth false)
      | Some o => Ok (truth (order_holds op o))
      end
  | _, _ => Ok unknown
  end.

(** ** Arithmetic *)
Definition checked (in_range : Z -> bool) (z : Z) : option Z := if in_range z then Some z else None.

Definition checked_signed (op : BinaryOp) (l r : Z) : Result Z :=
  match op with
  | OpAdd => ok_or (checked in_i128 (l + r)) "EXPR-EVAL-003"
  | OpSub => ok_or (checked in_i128 (l - r)) "EXPR-EVAL-003"
  | OpMul => ok_or (checked in_i128 (l * r)) "EXPR-EVAL-003"
  | OpDiv => ok_or (if r =? 0 then None else checked in_i128 (Z.quot l r)) "EXPR-EVAL-003"
  | OpRem =>
      (* checked_rem also rejects i128::MIN % -1, whose quotient overflows *)
      ok_or (if (r =? 0) || ((l =? i128_min) && (r =? -1)) then None else Some (Z.rem l r)) "EXPR-EVAL-003"
  | _ => error "EXPR-EVAL-004"
  end.

Definition checked_unsigned (op : BinaryOp) (l r : Z) : Result Z :=
  match op with
  | OpAdd => ok_or (checked in_u128 (l + r)) "EXPR-EVAL-003"
  | OpSub => ok_or (checked in_u128 (l - r)) "EXPR-EVAL-003"
  | OpMul => ok_or (checked in_u128 (l * r)) "EXPR-EVAL-003"
  | OpDiv => ok_or (if r =? 0 then None else Some (l / r)) "EXPR-EVAL-003"
  | OpRem => ok_or (if r =? 0 then None else Some (l mod r)) "EXPR-EVAL-003"
  | _ => error "EXPR-EVAL-004"
  end.

Definition arithmetic_values (op : BinaryOp) (l r : Value) : Result Value :=
  match l, r with
  | VInt a, VInt b => rmap VInt (checked_signed op a b)
  | VUInt a, VUInt b => rmap VUInt (checked_unsigned op a b)
  | VFloat32 a, VFloat32 b =>
      let nan := f32_nan a b in
      match op with
      | OpAdd => Ok (VFloat32 (float_add binary32 nan a b))
      | OpSub => Ok (VFloat32 (float_sub binary32 nan a b))
      | OpMul => Ok (VFloat32 (float_mul binary32 nan a b))
      | OpDiv => Ok (VFloat32 (float_div binary32 nan a b))
      | _ => error "EXPR-EVAL-004"
      end
  | VFloat64 a, VFloat64 b =>
      let nan := f64_nan a b in
      match op with
      | OpAdd => Ok (VFloat64 (float_add binary64 nan a b))
      | OpSub => Ok (VFloat64 (float_sub binary64 nan a b))
      | OpMul => Ok (VFloat64 (float_mul binary64 nan a b))
      | OpDiv => Ok (VFloat64 (float_div binary64 nan a b))
      | _ => error "EXPR-EVAL-004"
      end
  | VDecimal a, VDecimal b =>
      match op with
      | OpAdd => rmap VDecimal (ok_or (dec_checked_add a b) "EXPR-EVAL-003")
      | OpSub => rmap VDecimal (ok_or (dec_checked_sub a b) "EXPR-EVAL-003")
      | OpMul => rmap VDecimal (ok_or (dec_checked_mul a b) "EXPR-EVAL-003")
      | OpDiv => rmap VDecimal (ok_or (dec_checked_div a b) "EXPR-EVAL-003")
      | _ => error "EXPR-EVAL-004"
      end
  | _, _ => error "EXPR-EVAL-002"
  end.

Definition arithmetic (op : BinaryOp) (l r : Datum) : Result Datum :=
  match l, r with
  | Missing, _ | _, Missing => Ok Missing
  | Null, _ | _, Null => Ok Null
  | DValue a, DValue b => rmap DValue (arithmetic_values op a b)
  end.

Definition numeric_abs (d : Datum) : Result Datum :=
  match d with
  | Missing => Ok Missing
  | Null => Ok Null
  | DValue (VInt i) => rmap (fun z => DValue (VInt z)) (ok_or (checked in_i128 (Z.abs i)) "EXPR-EVAL-003")
  | DValue (VFloat32 b) => Ok (DValue (VFloat32 (float_abs binary32 b)))
  | DValue (VFloat64 b) => Ok (DValue (VFloat64 (float_abs binary64 b)))
  | DValue (VDecimal d) => Ok (DValue (VDecimal (dec_abs d)))
  | DValue _ => error "EXPR-EVAL-002"
  end.

Definition numeric_negate (d : Datum) : Result Datum :=
  match d with
  | Missing => Ok Missing
  | Null => Ok Null
  | DValue (VInt i) => rmap (fun z => DValue (VInt z)) (ok_or (checked in_i128 (- i)) "EXPR-EVAL-003")
  | DValue (VFloat32 b) => Ok (DValue (VFloat32 (float_neg binary32 b)))
  | DValue (VFloat64 b) => Ok (DValue (VFloat64 (float_neg binary64 b)))
  | DValue (VDecimal d) => Ok (DValue (VDecimal (dec_neg d)))
  | DValue _ => error "EXPR-EVAL-002"
  end.

Definition coalesce (l r : Datum) : Datum := match l with Missing | Null => r | _ => l end.

(** ** Lossless casts *)
Definition lossless_scalar_cast (source target : ScalarRepr) : bool :=
  match source, target with
  | RInt s, RInt t => s <=? t
  | RUInt s, RUInt t => s <=? t
  | RUInt s, RInt t => s <? t
  | RFloat32, RFloat32 | RFloat32, RFloat64 | RFloat64, RFloat64 | RDecimal, RDecimal => true
  | _, _ => false
  end.

Definition validate_lossless_cast (source target : TypeDef) : Result unit :=
  guard (bool_decide (ty_nullability source = ty_nullability target)) "EXPR-CAST-001" ;;?
  match ty_shape (non_null source), ty_shape (non_null target) with
  | ShScalar s, ShScalar t => guard (lossless_scalar_cast s t) "EXPR-CAST-003"
  | _, _ => error "EXPR-CAST-002"
  end.

Definition cast_value_lossless (v : Value) (target : TypeDef) : Result Value :=
  match ty_shape target with
  | ShScalar t =>
      match v, t with
      | VInt i, RInt _ => Ok (VInt i)
      | VUInt u, RUInt _ => Ok (VUInt u)
      | VUInt u, RInt _ => rmap VInt (ok_or (checked in_i128 u) "EXPR-CAST-005")
      | VFloat32 b, RFloat32 => Ok (VFloat32 b)
      | VFloat32 b, RFloat64 => Ok (VFloat64 (f64_of_f32 (widen_nan b) b))
      | VFloat64 b, RFloat64 => Ok (VFloat64 b)
      | VDecimal d, RDecimal => Ok (VDecimal d)
      | _, _ => error "EXPR-CAST-006"
      end
  | _ => error "EXPR-CAST-002"
  end.

Definition cast_lossless (d : Datum) (target : TypeDef) : Result Datum :=
  match d with
  | Missing => Ok Missing
  | Null => if is_nullable target then Ok Null else error "EXPR-CAST-004"
  | DValue v => rmap DValue (cast_value_lossless v target)
  end.

(** ** Operators *)
Definition eval_unary (op : UnaryOp) (input : Datum) (output : TypeDef) : Result Datum :=
  match op with
  | Not => truth_unary input Truth.negate
  | IsNull => Ok (truth (match input with Null => true | _ => false end))
  | IsMissing => Ok (truth (match input with Missing => true | _ => false end))
  | IsPresent => Ok (truth (negb (match input with Missing => true | _ => false end)))
  | NullableLift => Ok input
  | LosslessCast => cast_lossless input output
  | Negate => numeric_negate input
  | Abs => numeric_abs input
  end.

Definition eval_binary (op : BinaryOp) (l r : Datum) : Result Datum :=
  match op with
  | OpEq => compare_equality l r false
  | OpNe => compare_equality l r true
  | OpLt | OpLe | OpGt | OpGe => compare_order op l r
  | OpAnd => truth_binary l r Truth.and
  | OpOr => truth_binary l r Truth.or
  | OpAdd | OpSub | OpMul | OpDiv | OpRem => arithmetic op l r
  | IsDistinctFrom => distinct_equality l r true
  | IsNotDistinctFrom => distinct_equality l r false
  | Coalesce => Ok (coalesce l r)
  end.

Fixpoint membership_loop (input : Datum) (candidates : list Datum) (negate saw_unknown : bool) : Result Datum :=
  match candidates with
  | [] => Ok (if saw_unknown then unknown else truth negate)
  | c :: rest =>
      let? comparison := compare_equality input c false in
      let? t := as_truth comparison in
      match t with
      | TTrue => Ok (truth (negb negate))
      | TFalse => membership_loop input rest negate saw_unknown
      | TUnknown => membership_loop input rest negate true
      end
  end.

Definition eval_membership (input : Datum) (candidates : list Datum) (negate : bool) : Result Datum :=
  membership_loop input candidates negate false.

Definition eval_conditional (condition when_true when_false : Datum) : Result Datum :=
  let? t := as_truth condition in
  match t with TTrue => Ok when_true | TFalse | TUnknown => Ok when_false end.

(** ** Built-in functions *)
Definition unary_value (arguments : list Datum) (operation : Value -> Result Value) : Result Datum :=
  match arguments with
  | [Missing] => Ok Missing
  | [Null] => Ok Null
  | [DValue v] => rmap DValue (operation v)
  | _ => error "EXPR-EVAL-006"
  end.

Definition function_value_error {A} : Result A := error "EXPR-EVAL-006".

Definition text_unary (arguments : list Datum) (operation : string -> string) : Result Datum :=
  unary_value arguments (fun v => match v with VString s => Ok (VString (operation s)) | _ => function_value_error end).

Definition text_predicate (function : string) (arguments : list Datum) : Result Datum :=
  match arguments with
  | [Missing; _] | [Null; _] | [_; Missing] | [_; Null] => Ok unknown
  | [DValue (VString l); DValue (VString r)] =>
      if String.eqb function "dol/text/contains" then Ok (truth (str_contains l r))
      else if String.eqb function "dol/text/starts-with" then Ok (truth (str_starts_with l r))
      else if String.eqb function "dol/text/ends-with" then Ok (truth (str_ends_with l r))
      else error "EXPR-EVAL-006"
  | _ => error "EXPR-EVAL-006"
  end.

Definition on_date (f : Date -> Value) (v : Value) : Result Value :=
  match v with VDate d => Ok (f d) | _ => function_value_error end.
Definition on_local (f : LocalDateTime -> Value) (v : Value) : Result Value :=
  match v with VLocalDateTime d => Ok (f d) | _ => function_value_error end.
Definition on_string_length (f : string -> Z) (v : Value) : Result Value :=
  match v with
  | VString s => rmap VUInt (ok_or (checked in_u64 (f s)) "EXPR-EVAL-006")
  | _ => function_value_error
  end.

Definition eval_builtin_function (f : FunctionDef) (arguments : list Datum) (_ : TypeDef) : Result Datum :=
  let named k := String.eqb (fn_key f) k in
  if named "dol/text/to-lowercase" then text_unary arguments str_to_lowercase
  else if named "dol/text/to-uppercase" then text_unary arguments str_to_uppercase
  else if named "dol/text/trim" then text_unary arguments str_trim
  else if named "dol/text/trim-start" then text_unary arguments str_trim_start
  else if named "dol/text/trim-end" then text_unary arguments str_trim_end
  else if named "dol/text/contains" || named "dol/text/starts-with" || named "dol/text/ends-with" then
    text_predicate (fn_key f) arguments
  else if named "dol/text/byte-length" then unary_value arguments (on_string_length zstrlen)
  else if named "dol/text/scalar-length" then unary_value arguments (on_string_length (fun s => zlen (chars s)))
  else if named "dol/date/year" then unary_value arguments (on_date (fun d => VInt (date_year d)))
  else if named "dol/date/month" then unary_value arguments (on_date (fun d => VUInt (date_month d)))
  else if named "dol/date/day" then unary_value arguments (on_date (fun d => VUInt (date_day d)))
  else if named "dol/date/ordinal" then unary_value arguments (on_date (fun d => VUInt (date_ordinal d)))
  else if named "dol/date/weekday" then unary_value arguments (on_date (fun d => VUInt (date_weekday d)))
  else if named "dol/local-datetime/date" then unary_value arguments (on_local (fun d => VDate (ldt_date d)))
  else if named "dol/local-datetime/time" then unary_value arguments (on_local (fun d => VTime (ldt_time d)))
  else if named "dol/instant/unix-timestamp" then
    unary_value arguments (fun v => match v with VInstant i => Ok (VInt (instant_seconds i)) | _ => function_value_error end)
  else if named "dol/duration/whole-seconds" then
    unary_value arguments (fun v => match v with VDuration d => Ok (VInt (duration_seconds d)) | _ => function_value_error end)
  else error "EXPR-EVAL-006".
End Semantic.

(** ** Membership is a Kleene disjunction *)
Section Membership.
Context {F : Foreign} {Q : Subqueries}.

(** The truth of [input = candidate]. *)
Definition eq_truth (a b : Datum) : Truth :=
  match a, b with
  | DValue x, DValue y => if value_eqb x y then TTrue else TFalse
  | _, _ => TUnknown
  end.

Lemma compare_equality_eq a b : compare_equality a b false = Ok (DValue (VTruth (eq_truth a b))).
Proof. by destruct a, b. Qed.

Definition any_truth (l : list Truth) : Truth := foldr Truth.or TFalse l.

Lemma any_truth_true l : TTrue ∈ l -> any_truth l = TTrue.
Proof.
  induction l as [|t l IH]; [by intros ?%not_elem_of_nil|].
  intros [<-|H]%elem_of_cons; simpl; [done|]. rewrite (IH H). by destruct t.
Qed.

Lemma any_truth_perm l1 l2 : l1 ≡ₚ l2 -> any_truth l1 = any_truth l2.
Proof.
  induction 1; simpl; try congruence. by destruct x, y, (any_truth l).
Qed.

Definition negate_if (negate : bool) (t : Truth) : Truth := if negate then Truth.negate t else t.

Lemma membership_loop_eq input cs negate saw :
  membership_loop input cs negate saw =
  Ok (DValue (VTruth (negate_if negate
        (Truth.or (if saw then TUnknown else TFalse) (any_truth (map (eq_truth input) cs)))))).
Proof.
  revert saw. induction cs as [|c cs IH]; intros saw; simpl.
  - by destruct saw, negate.
  - rewrite compare_equality_eq. simpl. destruct (eq_truth input c) eqn:E; simpl.
    + by destruct saw, negate.
    + rewrite IH. by destruct saw, (any_truth _).
    + rewrite IH. by destruct saw, (any_truth _).
Qed.

Lemma eval_membership_eq input cs negate :
  eval_membership input cs negate =
  Ok (DValue (VTruth (negate_if negate (any_truth (map (eq_truth input) cs))))).
Proof. unfold eval_membership. rewrite membership_loop_eq. simpl. by destruct (any_truth _). Qed.

Lemma eval_membership_perm input cs cs' negate :
  cs ≡ₚ cs' -> eval_membership input cs negate = eval_membership input cs' negate.
Proof. intros H. rewrite !eval_membership_eq. by rewrite (any_truth_perm _ _ (Permutation_map (eq_truth input) H)). Qed.

(** [IN] is the Kleene disjunction of the equalities with the candidates
    (and [NOT IN] its Kleene negation): the early return on a match and the
    [saw_unknown] flag of the loop change nothing, and neither does the order
    of the candidates. *)
Theorem membership_is_disjunction input candidates negate :
  eval_membership input candidates negate =
    Ok (DValue (VTruth (negate_if negate (any_truth (map (eq_truth input) candidates))))) /\
  forall candidates', candidates ≡ₚ candidates' ->
    eval_membership input candidates' negate = eval_membership input candidates negate.
Proof.
  split; [apply eval_membership_eq|]. intros cs' H. symmetry. by apply eval_membership_perm.
Qed.
End Membership.

(** ** Checked integer arithmetic *)
Definition arithmetic_op (op : BinaryOp) : Prop := op ∈ [OpAdd; OpSub; OpMul; OpDiv; OpRem].

Lemma arithmetic_cases op : arithmetic_op op -> op = OpAdd \/ op = OpSub \/ op = OpMul \/ op = OpDiv \/ op = OpRem.
Proof. unfold arithmetic_op. rewrite !elem_of_cons, elem_of_nil. tauto. Qed.

(** The mathematical result: truncated division, undefined for a zero divisor. *)
Definition math_result (op : BinaryOp) (l r : Z) : option Z :=
  match op with
  | OpAdd => Some (l + r)
  | OpSub => Some (l - r)
  | OpMul => Some (l * r)
  | OpDiv => if r =? 0 then None else Some (Z.quot l r)
  | OpRem => if r =? 0 then None else Some (Z.rem l r)
  | _ => None
  end.

Lemma rem_in_i128 l r : in_i128 l = true -> r <> 0 -> in_i128 (Z.rem l r) = true.
Proof.
  unfold in_i128, i128_min, i128_max. intros Hl Hr.
  assert (Z.abs (Z.rem l r) <= Z.abs l) by (rewrite <- Z.rem_abs by done; apply Z.rem_le; lia).
  assert (0 <= l -> 0 <= Z.rem l r) by (intros; apply Z.rem_nonneg; lia).
  assert (l <= 0 -> Z.rem l r <= 0) by (intros; apply Z.rem_nonpos; lia).
  generalize dependent (Z.rem l r). intros. lia.
Qed.

Lemma div_in_u128 l r : in_u128 l = true -> in_u128 r = true -> r <> 0 ->
  in_u128 (l / r) = true /\ in_u128 (l mod r) = true.
Proof.
  unfold in_u128, u128_max. intros Hl Hr Hz.
  assert (0 <= l / r <= l) by (split; [apply Z.div_pos; lia|apply Z.div_le_upper_bound; nia]).
  pose proof (Z.mod_pos_bound l r ltac:(lia)).
  generalize dependent (l / r). generalize dependent (l mod r). intros. lia.
Qed.

(** 128-bit signed arithmetic is exact or an overflow error: a result is
    produced exactly when it is mathematically defined and representable (the
    remainder of the minimum by -1 being rejected with its quotient), and it
    is then the mathematical one and in range. *)
Theorem checked_signed_exact op l r :
  arithmetic_op op -> in_i128 l = true -> in_i128 r = true ->
  match checked_signed op l r with
  | Ok z => math_result op l r = Some z /\ in_i128 z = true
  | Err d => code d = "EXPR-EVAL-003"%stdpp /\
      (math_result op l r = None \/ (exists z, math_result op l r = Some z /\ in_i128 z = false) \/
       op = OpRem /\ l = i128_min /\ r = -1)
  end.
Proof.
  intros Hop%arithmetic_cases Hl Hr.
  destruct Hop as [->|[->|[->|[->| ->]]]]; simpl; unfold checked.
  - destruct (in_i128 (l + r)) eqn:E; simpl; eauto 6.
  - destruct (in_i128 (l - r)) eqn:E; simpl; eauto 6.
  - destruct (in_i128 (l * r)) eqn:E; simpl; eauto 6.
  - destruct (Z.eqb_spec r 0); simpl; [auto|]. destruct (in_i128 (Z.quot l r)) eqn:E; simpl; eauto 6.
  - destruct (Z.eqb_spec r 0); simpl; [auto|]. destruct (Z.eqb_spec l i128_min), (Z.eqb_spec r (-1));
      simpl; eauto 6 using rem_in_i128.
Qed.

(** 128-bit unsigned arithmetic likewise: results are exact and in range,
    and the only failures are overflow, underflow and division by zero. *)
Theorem checked_unsigned_exact op l r :
  arithmetic_op op -> in_u128 l = true -> in_u128 r = true ->
  match checked_unsigned op l r with
  | Ok z => math_result op l r = Some z /\ in_u128 z = true
  | Err d => code d = "EXPR-EVAL-003"%stdpp /\
      (math_result op l r = None \/ exists z, math_result op l r = Some z /\ in_u128 z = false)
  end.
Proof.
  intros Hop%arithmetic_cases Hl Hr.
  assert (0 <= l /\ 0 <= r) as [Hl0 Hr0] by (unfold in_u128 in *; lia).
  destruct Hop as [->|[->|[->|[->| ->]]]]; simpl; unfold checked.
  - destruct (in_u128 (l + r)) eqn:E; simpl; eauto 6.
  - destruct (in_u128 (l - r)) eqn:E; simpl; eauto 6.
  - destruct (in_u128 (l * r)) eqn:E; simpl; eauto 6.
  - destruct (Z.eqb_spec r 0); simpl; [auto|]. rewrite Z.quot_div_nonneg by lia.
    split; [done|]. by apply div_in_u128.
  - destruct (Z.eqb_spec r 0); simpl; [auto|]. rewrite Z.rem_mod_nonneg by lia.
    split; [done|]. by apply div_in_u128.
Qed.

Lemma checked_signed_exact_witness :
  math_result OpRem (-7) 2 = Some (-1) /\ checked_signed OpRem (-7) 2 = Ok (-1).
Proof.
  split; [|reflexivity].
  assert (H : arithmetic_op OpRem) by (unfold arithmetic_op; do 4 right; left).
  exact (proj1 (checked_signed_exact OpRem (-7) 2 H eq_refl eq_refl)).
Defined.

Lemma checked_unsigned_exact_witness : math_result OpAdd 2 3 = Some 5.
Proof.
  assert (H : arithmetic_op OpAdd) by (unfold arithmetic_op; left).
  exact (proj1 (checked_unsigned_exact OpAdd 2 3 H eq_refl eq_refl)).
Defined.

(** ** Lossless casts preserve values *)
Section Casts.
Context {F : Foreign}.

(** The number a numeric value denotes, floats and decimals by identity or
    by the exact widening. *)
Inductive same_number : Value -> Value -> Prop :=
| same_int i : same_number (VInt i) (VInt i)
| same_uint u : same_number (VUInt u) (VUInt u)
| same_signed u : same_number (VUInt u) (VInt u)
| same_f32 b : same_number (VFloat32 b) (VFloat32 b)
| same_f64 b : same_number (VFloat64 b) (VFloat64 b)
| same_widened b : same_number (VFloat32 b) (VFloat64 (f64_of_f32 (widen_nan b) b))
| same_decimal d : same_number (VDecimal d) (VDecimal d).

Lemma width_cases b : integer_width b = true -> b = 8 \/ b = 16 \/ b = 32 \/ b = 64 \/ b = 128.
Proof. unfold integer_width. rewrite !orb_true_iff, !Z.eqb_eq. tauto. Qed.

Lemma signed_fits_mono s t i : integer_width s = true -> integer_width t = true ->
  s <= t -> signed_fits s i = true -> signed_fits t i = true.
Proof.
  intros Hs%width_cases Ht%width_cases Hle.
  destruct Hs as [->|[->|[->|[->| ->]]]], Ht as [->|[->|[->|[->| ->]]]]; try lia;
    unfold signed_fits; simpl; lia.
Qed.

Lemma unsigned_fits_mono s t i : integer_width s = true -> integer_width t = true ->
  s <= t -> unsigned_fits s i = true -> unsigned_fits t i = true.
Proof.
  intros Hs%width_cases Ht%width_cases Hle.
  destruct Hs as [->|[->|[->|[->| ->]]]], Ht as [->|[->|[->|[->| ->]]]]; try lia;
    unfold unsigned_fits; simpl; lia.
Qed.

Lemma unsigned_fits_signed s t u : integer_width s = true -> integer_width t = true ->
  s < t -> in_u128 u = true -> unsigned_fits s u = true -> in_i128 u = true /\ signed_fits t u = true.
Proof.
  intros Hs%width_cases Ht%width_cases Hle Hu.
  destruct Hs as [->|[->|[->|[->| ->]]]], Ht as [->|[->|[->|[->| ->]]]]; try lia;
    unfold unsigned_fits, signed_fits, in_i128, i128_min, i128_max; simpl; lia.
Qed.

(** A validated cast never fails at run time and never changes the
    number: every value of the source type becomes a value of the target
    type that denotes the same number. *)
Theorem lossless_cast_total source target s t v :
  ty_shape source = ShScalar s -> ty_shape target = ShScalar t ->
  shape_ok default_definition_limits (ShScalar s) -> shape_ok default_definition_limits (ShScalar t) ->
  validate_lossless_cast source target = Ok tt ->
  conforms source v -> rust_value v = true ->
  exists v', cast_value_lossless v target = Ok v' /\ conforms target v' /\ same_number v v'.
Proof.
  intros Es Et Hs Ht Hv Hc Hr. unfold validate_lossless_cast in Hv. apply check_then in Hv as [_ Hv].
  destruct source as [? ? ss ? ? ?], target as [? ? st ? ? ?]. simpl in Es, Et, Hv. subst ss st.
  apply guard_ok in Hv.
  assert (Hm : scalar_matches s v = true) by (inversion Hc; simplify_eq/=; done). clear Hc.
  apply everywhere_eq in Hr as [Hr _].
  assert (W : forall bits, bits ∈ [8; 16; 32; 64; 128] -> integer_width bits = true) by (intros; by apply integer_width_ok).
  destruct s, t; try discriminate Hv; destruct v; try done; simpl in Hm, Hv, Hr, Hs, Ht;
    unfold cast_value_lossless; cbn [ty_shape].
  - eexists. split_and!; [done| |constructor]. eapply conforms_scalar; [done|]. simpl.
    apply (signed_fits_mono bits); auto; lia.
  - destruct (unsigned_fits_signed bits bits0 u) as [Hi Hf]; auto; try lia.
    eexists. unfold checked. rewrite Hi. split_and!; [done| |constructor].
    by eapply conforms_scalar.
  - eexists. split_and!; [done| |constructor]. eapply conforms_scalar; [done|]. simpl.
    apply (unsigned_fits_mono bits); auto; lia.
  - eexists. split_and!; [done| |constructor]. by eapply conforms_scalar.
  - eexists. split_and!; [done| |constructor]. by eapply conforms_scalar.
  - eexists. split_and!; [done| |constructor]. by eapply conforms_scalar.
  - eexists. split_and!; [done| |constructor]. by eapply conforms_scalar.
Qed.
End Casts.

Lemma lossless_cast_total_witness :
  exists v', cast_value_lossless (F:=sample_foreign) (VUInt 200) (scalar "dol/int16" 1 (RInt 16)) = Ok v' /\
    conforms (scalar "dol/int16" 1 (RInt 16)) v' /\ same_number (VUInt 200) v'.
Proof.
  apply (lossless_cast_total (F:=sample_foreign) (scalar "dol/uint8" 1 (RUInt 8)) (scalar "dol/int16" 1 (RInt 16))
    (RUInt 8) (RInt 16)); try reflexivity.
  - left.
  - right. left.
  - by eapply conforms_scalar.
Defined.
