(* ===== verification/ExprValidate.v ===== *)
(** * Expression validation ([crates/dol-core/src/expr/validate.rs])

    The typing rules of operators and built-in functions, literal and
    parameter checks, and the structural pass over types and function
    definitions. *)
From Stdlib Require Import ZArith Lia.
From S2P Require Import Prelude Floats Foreign Truth BTree Text Types Values Fingerprint Expr Semantic.

Local Open Scope Z_scope.

(** ** Built-in types ([types/traits.rs]) *)
Definition bool_type : TypeDef := scalar "dol/bool" 1 RBool.
Definition int32_type : TypeDef := scalar "dol/int32" 1 (RInt 32).
Definition int64_type : TypeDef := scalar "dol/int64" 1 (RInt 64).
Definition uint8_type : TypeDef := scalar "dol/uint8" 1 (RUInt 8).
Definition uint16_type : TypeDef := scalar "dol/uint16" 1 (RUInt 16).
Definition uint64_type : TypeDef := scalar "dol/uint64" 1 (RUInt 64).
Definition string_type : TypeDef := scalar "dol/string" 1 RString.
Definition date_type : TypeDef := scalar "dol/date" 1 RDate.
Definition time_type : TypeDef := scalar "dol/time" 1 RTime.
Definition local_datetime_type : TypeDef := scalar "dol/local-datetime" 1 RLocalDateTime.
Definition instant_type : TypeDef := scalar "dol/instant" 1 RInstant.
Definition duration_type : TypeDef := scalar "dol/duration" 1 RDuration.
Definition month_type : TypeDef := scalar "dol/month" 1 (RUInt 8).
Definition weekday_type : TypeDef := scalar "dol/weekday" 1 (RUInt 8).

(** ** Requirements *)
Definition require_exact_type (actual expected : TypeDef) : Result unit :=
  guard (type_eqb actual expected) "EXPR-TYPE-008".
Definition require_truth (t : TypeDef) : Result unit := require_exact_type t truth_type.
Definition require_same_input_types (l r : TypeDef) : Result unit := guard (type_eqb l r) "EXPR-TYPE-006".

Definition require_string (t : TypeDef) : Result unit :=
  guard (match ty_shape t with ShScalar RString => true | _ => false end &&
         String.eqb (ty_key t) (ty_key string_type)) "EXPR-TYPE-007".

Definition require_numeric_representation (t : TypeDef) : Result unit :=
  guard (match ty_shape t with
         | ShScalar (RInt _) | ShScalar (RUInt _) | ShScalar RFloat32 | ShScalar RFloat64 | ShScalar RDecimal => true
         | _ => false
         end) "EXPR-TYPE-009".

Definition require_integral_representation (t : TypeDef) : Result unit :=
  guard (match ty_shape t with ShScalar (RInt _) | ShScalar (RUInt _) => true | _ => false end) "EXPR-TYPE-012".

Definition require_negatable (t : TypeDef) : Result unit :=
  guard (match ty_shape t with
         | ShScalar (RInt _) | ShScalar RFloat32 | ShScalar RFloat64 | ShScalar RDecimal => true
         | _ => false
         end && numeric (ty_properties t)) "EXPR-TYPE-013".

(** ** Operators, by the types of their operands and result *)
Definition validate_unary (op : UnaryOp) (input output : TypeDef) : Result unit :=
  match op with
  | Not => require_truth input
  | IsNull | IsMissing | IsPresent => Ok tt
  | NullableLift => guard (negb (is_nullable input)) "EXPR-TYPE-015"
  | LosslessCast => validate_lossless_cast input output
  | Negate | Abs => require_negatable input
  end ;;?
  require_exact_type output
    (match op with
     | Not | IsNull | IsMissing | IsPresent => truth_type
     | NullableLift => nullable input
     | LosslessCast => output
     | Negate | Abs => input
     end).

Definition validate_coalesce (l r output : TypeDef) : Result unit :=
  if type_eqb l r then require_exact_type output l
  else if is_nullable l && type_eqb (non_null l) r then require_exact_type output r
  else error "EXPR-TYPE-014".

Definition validate_binary (op : BinaryOp) (l r output : TypeDef) : Result unit :=
  match op with
  | OpEq | OpNe =>
      require_same_input_types l r ;;?
      guard (equality (ty_properties l)) "EXPR-TYPE-003" ;;?
      require_truth output
  | OpLt | OpLe | OpGt | OpGe =>
      require_same_input_types l r ;;?
      guard (ordering (ty_properties l)) "EXPR-TYPE-004" ;;?
      require_truth output
  | OpAnd | OpOr => require_truth l ;;? require_truth r ;;? require_truth output
  | OpAdd | OpSub | OpMul | OpDiv =>
      require_same_input_types l r ;;?
      guard (numeric (ty_properties l)) "EXPR-TYPE-005" ;;?
      require_numeric_representation l ;;?
      require_exact_type output l
  | OpRem =>
      require_same_input_types l r ;;?
      guard (integral (ty_properties l)) "EXPR-TYPE-011" ;;?
      require_integral_representation l ;;?
      require_exact_type output l
  | IsDistinctFrom | IsNotDistinctFrom =>
      require_same_input_types l r ;;?
      guard (equality (ty_properties l)) "EXPR-TYPE-003" ;;?
      require_truth output
  | Coalesce => validate_coalesce l r output
  end.

(** ** Built-in functions *)
Definition unary_type_argument (arguments : list TypeDef) : Result TypeDef :=
  match arguments with [t] => Ok t | _ => error "EXPR-FUNCTION-001" end.

Definition binary_type_arguments (arguments : list TypeDef) : Result (TypeDef * TypeDef) :=
  match arguments with [l; r] => Ok (l, r) | _ => error "EXPR-FUNCTION-001" end.

Definition preserve_nullability (t input : TypeDef) : TypeDef := if is_nullable input then nullable t else t.

Definition require_builtin (actual expected : TypeDef) : Result unit :=
  guard (type_eqb (non_null actual) expected) "EXPR-FUNCTION-002".

(** A function of one built-in type returning another, nullability preserved. *)
Definition unary_builtin (arguments : list TypeDef) (input_type result : TypeDef) (output : TypeDef) : Result unit :=
  let? input := unary_type_argument arguments in
  require_builtin input input_type ;;?
  require_exact_type output (preserve_nullability result input).

Definition validate_builtin_function (f : FunctionDef) (arguments : list TypeDef) (output : TypeDef) : Result unit :=
  let named k := String.eqb (fn_key f) k in
  if named "dol/text/to-lowercase" || named "dol/text/to-uppercase" || named "dol/text/trim" ||
     named "dol/text/trim-start" || named "dol/text/trim-end" then
    let? input := unary_type_argument arguments in
    require_string input ;;? require_exact_type output input
  else if named "dol/text/contains" || named "dol/text/starts-with" || named "dol/text/ends-with" then
    let? lr := binary_type_arguments arguments in
    require_exact_type (fst lr) (snd lr) ;;? require_string (fst lr) ;;? require_truth output
  else if named "dol/text/byte-length" || named "dol/text/scalar-length" then
    let? input := unary_type_argument arguments in
    require_string input ;;? require_exact_type output (preserve_nullability uint64_type input)
  else if named "dol/date/year" then unary_builtin arguments date_type int32_type output
  else if named "dol/date/month" then unary_builtin arguments date_type month_type output
  else if named "dol/date/day" then unary_builtin arguments date_type uint8_type output
  else if named "dol/date/ordinal" then unary_builtin arguments date_type uint16_type output
  else if named "dol/date/weekday" then unary_builtin arguments date_type weekday_type output
  else if named "dol/local-datetime/date" then unary_builtin arguments local_datetime_type date_type output
  else if named "dol/local-datetime/time" then unary_builtin arguments local_datetime_type time_type output
  else if named "dol/instant/unix-timestamp" then unary_builtin arguments instant_type int64_type output
  else if named "dol/duration/whole-seconds" then unary_builtin arguments duration_type int64_type output
  else error "EXPR-FUNCTION-003".

Section Validate.
Context {F : Foreign} {Q : Subqueries}.

Definition unicode_function (key : string) : FunctionDef :=
  with_dependency (function_new key 1 Deterministic) "unicode" unicode_version.

Definition builtin_ref (d : FunctionDef) : FunctionRef :=
  mkFunctionRef d validate_builtin_function eval_builtin_function.

(** ** Nodes *)
Definition validate_parameter_node (name : string) (ty : TypeDef) (limits : ExpressionLimits)
  (parameters : list (string * TypeDef)) : Result (list (string * TypeDef)) :=
  guard (negb (is_empty_str name)) "EXPR-PARAM-001" ;;?
  guard (zstrlen name <=? max_parameter_name_bytes limits) "EXPR-PARAM-002" ;;?
  match bt_get name parameters with
  | Some existing => guard (type_eqb existing ty) "EXPR-PARAM-003" ;;? Ok parameters
  | None => Ok (bt_insert name ty parameters)
  end.

Fixpoint validate_node (n : ExprNode) (limits : ExpressionLimits) (parameters : list (string * TypeDef))
  : Result (list (string * TypeDef)) :=
  let '(mkExpr kind ty) := n in
  match kind with
  | EField _ => Ok parameters
  | ELiteral d => map_err (validate_datum ty Required d) "EXPR-LITERAL-001" ;;? Ok parameters
  | EParameter name => validate_parameter_node name ty limits parameters
  | EUnary op input =>
      let? parameters := validate_node input limits parameters in
      validate_unary op (e_ty input) ty ;;? Ok parameters
  | EBinary op l r =>
      let? parameters := validate_node l limits parameters in
      let? parameters := validate_node r limits parameters in
      validate_binary op (e_ty l) (e_ty r) ty ;;? Ok parameters
  | EMembership input candidates _ =>
      let? parameters := validate_node input limits parameters in
      let? parameters := foldR (fun parameters c =>
          let? parameters := validate_node c limits parameters in
          require_exact_type (e_ty c) (e_ty input) ;;? Ok parameters) candidates parameters in
      guard (equality (ty_properties (e_ty input))) "EXPR-TYPE-010" ;;?
      require_truth ty ;;? Ok parameters
  | EConditional c t f =>
      let? parameters := validate_node c limits parameters in
      let? parameters := validate_node t limits parameters in
      let? parameters := validate_node f limits parameters in
      require_truth (e_ty c) ;;?
      require_exact_type (e_ty t) (e_ty f) ;;?
      require_exact_type ty (e_ty t) ;;? Ok parameters
  | ECall f arguments =>
      let? parameters := foldR (fun parameters a => validate_node a limits parameters) arguments parameters in
      function_validate f (map e_ty arguments) ty ;;? Ok parameters
  | EExists _ => require_truth ty ;;? Ok parameters
  end.

(** One function definition per (key, version). *)
Definition register_function (f : FunctionRef) (functions : list ((string * Z) * FunctionDef))
  : Result (list ((string * Z) * FunctionDef)) :=
  let d := fr_definition f in
  validate_function_def d ;;?
  let identity := (fn_key d, fn_version d) in
  match bt_get identity functions with
  | Some existing => guard (bool_decide (existing = d)) "EXPR-FUNC-004" ;;? Ok functions
  | None => Ok (bt_insert identity d functions)
  end.

(** The explicit-stack pass; one unit of fuel per node suffices. *)
Fixpoint structure_loop (fuel : nat) (stack : list ExprNode) (types : list TypeDef)
  (functions : list ((string * Z) * FunctionDef)) : Result (list TypeDef) :=
  match fuel with
  | O => Ok types
  | S fuel' =>
      match stack with
      | [] => Ok types
      | n :: rest =>
          validate_type (e_ty n) default_definition_limits ;;?
          let? functions := match e_kind n with
                            | ECall f _ => register_function f functions
                            | _ => Ok functions
                            end in
          structure_loop fuel' (expr_children n ++ rest) (types ++ [e_ty n]) functions
      end
  end.

Definition validate_expression_node (n : ExprNode) (limits : ExpressionLimits) : Result unit :=
  let? types := structure_loop (expr_size n) [n] [] [] in
  validate_type_universe types ;;?
  validate_node n limits [] ;;? Ok tt.
End Validate.

(** ** What validation decides *)
Section Rules.
Context {F : Foreign} {Q : Subqueries}.

Fixpoint subexprs (n : ExprNode) : list ExprNode :=
  let '(mkExpr k _) := n in
  n :: match k with
       | EField _ | ELiteral _ | EParameter _ | EExists _ => []
       | EUnary _ a => subexprs a
       | EBinary _ a b => subexprs a ++ subexprs b
       | EMembership a l _ => subexprs a ++ flat_map subexprs l
       | EConditional a b c => subexprs a ++ subexprs b ++ subexprs c
       | ECall _ l => flat_map subexprs l
       end.

Lemma subexprs_eq n : subexprs n = n :: flat_map subexprs (expr_children n).
Proof. destruct n as [k t]. simpl. f_equal. destruct k; simpl; by rewrite ?app_nil_r. Qed.

(** The typing rule of one node. *)
Definition node_rule (n : ExprNode) : Prop :=
  let '(mkExpr kind ty) := n in
  match kind with
  | EField _ | EParameter _ => True
  | ELiteral d => validate_datum ty Required d = Ok tt
  | EUnary op a => validate_unary op (e_ty a) ty = Ok tt
  | EBinary op a b => validate_binary op (e_ty a) (e_ty b) ty = Ok tt
  | EMembership a l _ =>
      Forall (fun c => e_ty c = e_ty a) l /\ equality (ty_properties (e_ty a)) = true /\ ty = truth_type
  | EConditional c a b => e_ty c = truth_type /\ e_ty a = e_ty b /\ ty = e_ty a
  | ECall f l => function_validate f (map e_ty l) ty = Ok tt
  | EExists _ => ty = truth_type
  end.

Definition parameter_use (n : ExprNode) : list (string * TypeDef) :=
  match e_kind n with EParameter name => [(name, e_ty n)] | _ => [] end.
Definition parameter_uses (n : ExprNode) : list (string * TypeDef) := flat_map parameter_use (subexprs n).

Definition use_parameter (limits : ExpressionLimits) (ps : list (string * TypeDef)) (u : string * TypeDef) :=
  validate_parameter_node (fst u) (snd u) limits ps.

Lemma require_exact_ok a b : require_exact_type a b = Ok tt <-> a = b.
Proof. unfold require_exact_type. rewrite check_ok. apply type_eqb_eq. Qed.

Lemma require_truth_ok a : require_truth a = Ok tt <-> a = truth_type.
Proof. apply require_exact_ok. Qed.

Lemma flat_map_flat {A B C} (f : A -> list B) (g : B -> list C) l :
  flat_map g (flat_map f l) = flat_map (fun x => flat_map g (f x)) l.
Proof. induction l; simpl; [done|]. by rewrite flat_map_app, IHl. Qed.

Lemma parameter_uses_eq n : parameter_uses n = parameter_use n ++ flat_map parameter_uses (expr_children n).
Proof.
  unfold parameter_uses at 1. rewrite subexprs_eq. simpl. f_equal. rewrite flat_map_flat. done.
Qed.

Definition rules_at (limits : ExpressionLimits) (n : ExprNode) : Prop :=
  forall ps ps', validate_node n limits ps = Ok ps' <->
  Forall node_rule (subexprs n) /\ foldR (use_parameter limits) (parameter_uses n) ps = Ok ps'.

(** Sequencing two nodes sequences their rules and parameters. *)
Lemma rules_seq limits n (k : list (string * TypeDef) -> Result (list (string * TypeDef))) (P : Prop) uses ps ps' :
  rules_at limits n ->
  (forall ps, k ps = Ok ps' <-> P /\ foldR (use_parameter limits) uses ps = Ok ps') ->
  (let? ps := validate_node n limits ps in k ps) = Ok ps' <->
  (Forall node_rule (subexprs n) /\ P) /\ foldR (use_parameter limits) (parameter_uses n ++ uses) ps = Ok ps'.
Proof.
  intros Hn Hk. rewrite rbind_ok, foldR_app, rbind_ok. split.
  - intros (q & [Hr Hf]%Hn & [HP Hu]%Hk). eauto.
  - intros ([Hr HP] & q & Hf & Hu). exists q. split; [by apply Hn|by apply Hk].
Qed.

Lemma rules_end limits (m : Result unit) (P : Prop) ps ps' :
  (m = Ok tt <-> P) -> (m ;;? Ok ps) = Ok ps' <-> P /\ foldR (use_parameter limits) [] ps = Ok ps'.
Proof. intros H. rewrite check_then, H. simpl. tauto. Qed.

Lemma validate_node_rules limits n : rules_at limits n.
Proof.
  induction n as [k t IH] using expr_ind'. intros ps ps'.
  rewrite subexprs_eq, parameter_uses_eq, Forall_cons. unfold expr_children, parameter_use. cbn [e_kind e_ty].
  destruct k as [f|d|name|op a|op a b|a l negate|a b c|f l|q]; cbn [kind_children] in *; cbn [flat_map validate_node node_rule];
    rewrite ?app_nil_r.
  - split; [intros [= <-]; split; [split; constructor|done]|by intros [_ ?]].
  - rewrite check_then, map_err_ok. simpl. pose proof (Forall_nil_2 node_rule). tauto.
  - cbn [foldR app]. unfold use_parameter. cbn [fst snd]. rewrite rbind_ok. pose proof (Forall_nil_2 node_rule).
    split; [intros E; split; [split; [exact I|done]|eauto]|intros (_ & q & E & [= <-]); done].
  - rewrite Forall_singleton in IH. pose proof (rules_seq limits a
      (fun ps => validate_unary op (e_ty a) t ;;? Ok ps) _ [] ps ps' IH
      (fun ps => rules_end limits _ _ ps ps' (iff_refl _))) as R. rewrite app_nil_r in R. rewrite R. simpl. tauto.
  - rewrite Forall_cons, Forall_singleton in IH. destruct IH as [Ia Ib].
    pose proof (fun ps => rules_seq limits b
      (fun ps => validate_binary op (e_ty a) (e_ty b) t ;;? Ok ps) _ [] ps ps' Ib
      (fun ps => rules_end limits _ _ ps ps' (iff_refl _))) as Rb. 
    rewrite (rules_seq limits a _ _ _ ps ps' Ia Rb), Forall_app, app_nil_r. simpl. tauto.
  - apply Forall_cons in IH as [Ia Il].
    set (tail := fun ps : list (string * TypeDef) =>
      guard (equality (ty_properties (e_ty a))) "EXPR-TYPE-010" ;;? require_truth t ;;? Ok ps).
    assert (Rl : forall ps, (let? ps := foldR (fun ps c => let? ps := validate_node c limits ps in
        require_exact_type (e_ty c) (e_ty a) ;;? Ok ps) l ps in tail ps) = Ok ps' <->
      (Forall (fun c => Forall node_rule (subexprs c) /\ e_ty c = e_ty a) l /\
       equality (ty_properties (e_ty a)) = true /\ t = truth_type) /\
      foldR (use_parameter limits) (flat_map parameter_uses l) ps = Ok ps').
    { intros q. rewrite rbind_ok. unfold tail. setoid_rewrite check_then. setoid_rewrite check_ok.
      setoid_rewrite check_then. setoid_rewrite require_truth_ok.
      setoid_rewrite (foldR_split _ (use_parameter limits) parameter_uses
        (fun c => Forall node_rule (subexprs c) /\ e_ty c = e_ty a)).
      - naive_solver.
      - eapply Forall_impl; [exact Il|]. intros c Hc s s'. rewrite <- (app_nil_r (parameter_uses c)).
        apply rules_seq; [done|]. intros s2. apply rules_end, require_exact_ok. }
    rewrite (rules_seq limits a _ _ _ ps ps' Ia Rl), Forall_app, Forall_and, Forall_flat_map. tauto.
  - rewrite !Forall_cons in IH. destruct IH as (Ia & Ib & Ic & _).
    assert (Re : forall ps, (require_truth (e_ty a) ;;? require_exact_type (e_ty b) (e_ty c) ;;?
        require_exact_type t (e_ty b) ;;? Ok ps) = Ok ps' <->
      (e_ty a = truth_type /\ e_ty b = e_ty c /\ t = e_ty b) /\ foldR (use_parameter limits) [] ps = Ok ps').
    { intros q. rewrite check_then, require_truth_ok, check_then, require_exact_ok, check_then, require_exact_ok.
      simpl. tauto. }
    pose proof (fun ps => rules_seq limits c _ _ [] ps ps' Ic Re) as Rc.
    pose proof (fun ps => rules_seq limits b _ _ _ ps ps' Ib Rc) as Rb.
    rewrite (rules_seq limits a _ _ _ ps ps' Ia Rb), !Forall_app, !app_nil_r. tauto.
  - rewrite rbind_ok. setoid_rewrite (foldR_split _ (use_parameter limits) parameter_uses
        (fun c => Forall node_rule (subexprs c))); [|exact IH].
    rewrite Forall_flat_map. setoid_rewrite check_then. split.
    + intros (q & [H1 H2] & H3%check_then & [= <-]). done.
    + intros ([H1%check_then H2] & H3). exists ps'. done.
  - rewrite check_then, require_truth_ok. simpl. pose proof (Forall_nil_2 node_rule). tauto.
Qed.
End Rules.

(** ** The structural pass *)
Section Structure.
Context {F : Foreign} {Q : Subqueries}.

Notation function_table := (list ((string * Z) * FunctionDef)).

Definition visit_structure (acc : list TypeDef * function_table) (n : ExprNode)
  : Result (list TypeDef * function_table) :=
  let '(types, functions) := acc in
  validate_type (e_ty n) default_definition_limits ;;?
  let? functions' := match e_kind n with ECall f _ => register_function f functions | _ => Ok functions end in
  Ok (types ++ [e_ty n], functions').

Lemma structure_loop_eq fuel stack types functions :
  (list_sum (map expr_size stack) <= fuel)%nat ->
  structure_loop fuel stack types functions =
  rmap fst (foldR visit_structure (flat_map subexprs stack) (types, functions)).
Proof.
  revert stack types functions. induction fuel as [|fuel IH]; intros stack types functions Hf.
  { destruct stack as [|n stack]; [done|]. simpl in Hf. rewrite expr_size_eq in Hf. lia. }
  destruct stack as [|n stack]; [done|]. cbn [structure_loop flat_map]. rewrite subexprs_eq.
  cbn [app foldR visit_structure].
  destruct (validate_type (e_ty n) default_definition_limits) as [[]|]; simpl; [|done].
  destruct (match e_kind n with ECall f _ => register_function f functions | _ => Ok functions end); simpl; [|done].
  rewrite IH; [by rewrite flat_map_app|].
  simpl in Hf. rewrite expr_size_eq in Hf. rewrite map_app, list_sum_app. lia.
Qed.

Definition call_definition (n : ExprNode) : list FunctionDef :=
  match e_kind n with ECall f _ => [fr_definition f] | _ => [] end.

Definition function_identity (d : FunctionDef) : string * Z := (fn_key d, fn_version d).

Definition register_definition (t : function_table) (d : FunctionDef) : Result function_table :=
  validate_function_def d ;;?
  match bt_get (function_identity d) t with
  | Some existing => guard (bool_decide (existing = d)) "EXPR-FUNC-004" ;;? Ok t
  | None => Ok (bt_insert (function_identity d) d t)
  end.

Lemma visit_all l types functions r :
  foldR visit_structure l (types, functions) = Ok r <->
  Forall (fun n => validate_type (e_ty n) default_definition_limits = Ok tt) l /\
  fst r = types ++ map e_ty l /\
  foldR register_definition (flat_map call_definition l) functions = Ok (snd r).
Proof.
  revert types functions. induction l as [|n l IH]; intros types functions.
  { simpl. rewrite app_nil_r. split; [intros [= <-]; split_and!; [constructor|done|done]|].
    destruct r as [a b]. simpl. by intros (_ & -> & [= ->]). }
  cbn [foldR flat_map map visit_structure]. rewrite foldR_app, Forall_cons.
  assert (E : (match e_kind n with ECall f _ => register_function f functions | _ => Ok functions end) =
              foldR register_definition (call_definition n) functions).
  { unfold call_definition. destruct (e_kind n); try done.
    change (register_function f functions) with (register_definition functions (fr_definition f)).
    simpl. by destruct (register_definition functions (fr_definition f)). }
  rewrite E. clear E. destruct (validate_type (e_ty n) default_definition_limits) as [[]|]; simpl; [|naive_solver].
  destruct (foldR register_definition (call_definition n) functions) as [fs|]; simpl; [|naive_solver].
  rewrite IH, <- app_assoc. simpl. tauto.
Qed.
End Structure.

Section ValidateClaims.
Context {F : Foreign} {Q : Subqueries}.

Definition parameter_name_ok (limits : ExpressionLimits) (u : string * TypeDef) : Prop :=
  fst u <> ""%stdpp /\ zstrlen (fst u) <= max_parameter_name_bytes limits.

Lemma use_parameters_ok limits uses :
  (exists ps, foldR (use_parameter limits) uses [] = Ok ps) <->
  Forall (parameter_name_ok limits) uses /\ consistent fst snd uses.
Proof.
  rewrite <- (register_all_empty fst snd (fun t => t) (fun e u => type_eqb e (snd u)) "EXPR-PARAM-003"
    (fun v a => type_eqb_eq v (snd a)) (fun a => eq_refl)).
  assert (E : forall ps, foldR (use_parameter limits) uses [] = Ok ps <->
    Forall (parameter_name_ok limits) uses /\
    foldR (register fst snd (fun e u => type_eqb e (snd u)) "EXPR-PARAM-003") uses [] = Ok ps).
  { intros ps. rewrite <- (Forall_iff_in (fun u => (guard (negb (is_empty_str (fst u))) "EXPR-PARAM-001" ;;?
        guard (zstrlen (fst u) <=? max_parameter_name_bytes limits) "EXPR-PARAM-002") = Ok tt)).
    - rewrite <- foldR_check. erewrite foldR_ext; [done|]. intros [n t] s _. simpl.
      unfold use_parameter, validate_parameter_node, register. simpl.
      destruct (negb (is_empty_str n)); simpl; [|done]. by destruct (_ <=? _).
    - apply Forall_forall. intros [n t] _. unfold parameter_name_ok. simpl.
      rewrite check_then, !check_ok, Z.leb_le. destruct n; simpl; naive_solver. }
  setoid_rewrite E. naive_solver.
Qed.

Lemma register_definitions_ok defs :
  (exists t, foldR register_definition defs [] = Ok t) <->
  Forall (fun d => validate_function_def d = Ok tt) defs /\ consistent function_identity (fun d => d) defs.
Proof.
  rewrite <- (register_all_empty function_identity (fun d => d) (fun d => d)
    (fun e d => bool_decide (e = d)) "EXPR-FUNC-004"
    (fun v a => bool_decide_eq_true (v = a)) (fun a => eq_refl)).
  setoid_rewrite (foldR_check validate_function_def
    (register function_identity (fun d => d) (fun e d => bool_decide (e = d)) "EXPR-FUNC-004")).
  naive_solver.
Qed.

Definition call_definitions (n : ExprNode) : list FunctionDef := flat_map call_definition (subexprs n).

Lemma validate_expression_node_ok n limits :
  validate_expression_node n limits = Ok tt <->
  Forall (fun m => validate_type (e_ty m) default_definition_limits = Ok tt) (subexprs n) /\
  coherent (flat_map subtypes (map e_ty (subexprs n))) /\
  Forall (fun d => validate_function_def d = Ok tt) (call_definitions n) /\
  consistent function_identity (fun d => d) (call_definitions n) /\
  Forall node_rule (subexprs n) /\
  Forall (parameter_name_ok limits) (parameter_uses n) /\ consistent fst snd (parameter_uses n).
Proof.
  unfold validate_expression_node. rewrite structure_loop_eq by (simpl; lia).
  cbn [flat_map]. rewrite app_nil_r. rewrite rbind_ok. split.
  - intros (types & (r & Hr & ->)%rmap_ok & H). apply visit_all in Hr as (Ht & Er & Hd). simpl in Er.
    rewrite Er in H. apply check_then in H as [Hu (ps & H & _)%rbind_ok].
    apply validate_type_universe_coherent in Hu. apply (validate_node_rules limits n) in H as [Hn Hp].
    assert (exists t, foldR register_definition (call_definitions n) [] = Ok t) as Hd' by eauto.
    apply register_definitions_ok in Hd' as [? ?].
    assert (exists ps, foldR (use_parameter limits) (parameter_uses n) [] = Ok ps) as Hp' by eauto.
    apply use_parameters_ok in Hp' as [? ?]. done.
  - intros (Ht & Hu & Hd1 & Hd2 & Hn & Hp1 & Hp2).
    destruct (proj2 (register_definitions_ok (call_definitions n)) (conj Hd1 Hd2)) as (t & Hd).
    destruct (proj2 (use_parameters_ok limits (parameter_uses n)) (conj Hp1 Hp2)) as (ps & Hp).
    exists (map e_ty (subexprs n)). split.
    + apply rmap_ok. exists (map e_ty (subexprs n), t). split; [|done]. apply visit_all. done.
    + apply check_then. split; [by apply validate_type_universe_coherent|].
      apply rbind_ok. exists ps. split; [by apply validate_node_rules|done].
Qed.

(** C40: [validate_expression_node] accepts an expression exactly when every
    node's type is a valid definition, the types of one identity agree, every
    called function is well formed and has one definition per (key, version),
    every node obeys its typing rule, and every parameter has a valid name and
    one type. *)
Theorem validate_expression_exact n limits :
  validate_expression_node n limits = Ok tt <->
  Forall (fun m => validate_type (e_ty m) default_definition_limits = Ok tt) (subexprs n) /\
  coherent (flat_map subtypes (map e_ty (subexprs n))) /\
  Forall (fun d => validate_function_def d = Ok tt) (call_definitions n) /\
  consistent function_identity (fun d => d) (call_definitions n) /\
  Forall node_rule (subexprs n) /\
  Forall (parameter_name_ok limits) (parameter_uses n) /\ consistent fst snd (parameter_uses n).
Proof. apply validate_expression_node_ok. Qed.

(** ** Operators on operands of their types *)
Lemma truth_value (d : Datum) : nested_conforms truth_type d -> exists t, d = DValue (VTruth t).
Proof.
  inversion 1 as [? E|? v Hv]; subst; [done|]. inversion Hv; simplify_eq/=. destruct v; try done. eauto.
Qed.

Lemma nested_truth t : nested_conforms truth_type (DValue (VTruth t)).
Proof. constructor. by apply (conforms_scalar _ RTruth). Qed.

Lemma nested_bool b : nested_conforms truth_type (truth b).
Proof. apply nested_truth. Qed.

(** Two values of one numeric representation have one constructor. *)
Lemma arithmetic_values_total op r a b :
  (match r with RInt _ | RUInt _ => arithmetic_op op | RFloat32 | RFloat64 | RDecimal => arithmetic_op op /\ op <> OpRem | _ => False end) ->
  scalar_matches r a = true -> scalar_matches r b = true ->
  (exists v, arithmetic_values op a b = Ok v) \/ arithmetic_values op a b = error "EXPR-EVAL-003".
Proof.
  intros Hop Ha Hb.
  assert (G : forall {A} (o : option A), (exists v, ok_or o "EXPR-EVAL-003" = Ok v) \/ ok_or o "EXPR-EVAL-003" = error "EXPR-EVAL-003")
    by (intros A []; simpl; eauto).
  destruct r; try done; destruct a; try discriminate Ha; destruct b; try discriminate Hb.
  - simpl. apply arithmetic_cases in Hop.
    assert (H : (exists z, checked_signed op i i0 = Ok z) \/ checked_signed op i i0 = error "EXPR-EVAL-003")
      by (destruct Hop as [->|[->|[->|[->| ->]]]]; apply G).
    destruct H as [(z & ->)| ->]; simpl; eauto.
  - simpl. apply arithmetic_cases in Hop.
    assert (H : (exists z, checked_unsigned op u u0 = Ok z) \/ checked_unsigned op u u0 = error "EXPR-EVAL-003")
      by (destruct Hop as [->|[->|[->|[->| ->]]]]; apply G).
    destruct H as [(z & ->)| ->]; simpl; eauto.
  - destruct Hop as [[->|[->|[->|[->| ->]]]]%arithmetic_cases Hne]; simpl; eauto. done.
  - destruct Hop as [[->|[->|[->|[->| ->]]]]%arithmetic_cases Hne]; simpl; eauto. done.
  - destruct Hop as [[->|[->|[->|[->| ->]]]]%arithmetic_cases Hne]; simpl; try done;
      match goal with |- context [ok_or ?o _] => destruct o; simpl; eauto end.
Qed.
End ValidateClaims.

Section Soundness.
Context {F : Foreign} {Q : Subqueries} {L : ForeignLaws F}.

Lemma conforms_same_shape a b v : ty_shape a = ty_shape b -> conforms a v -> conforms b v.
Proof.
  intros E H. inversion H; subst; rewrite E in *; [by eapply conforms_scalar|by eapply conforms_list|
    by eapply conforms_map|by eapply conforms_tuple|by eapply conforms_record].
Qed.

Lemma same_types_ok l r : require_same_input_types l r = Ok tt <-> l = r.
Proof. unfold require_same_input_types. rewrite check_ok. apply type_eqb_eq. Qed.

Lemma conforms_scalar_inv ty r v : ty_shape ty = ShScalar r -> conforms ty v -> scalar_matches r v = true.
Proof. intros E H. inversion H; simplify_eq/=; by rewrite E in *; simplify_eq. Qed.

Lemma arithmetic_sound op t l r :
  arithmetic_op op ->
  (match ty_shape t with
   | ShScalar (RInt _) | ShScalar (RUInt _) => True
   | ShScalar RFloat32 | ShScalar RFloat64 | ShScalar RDecimal => op <> OpRem
   | _ => False
   end) ->
  nested_conforms t l -> nested_conforms t r ->
  (exists d, arithmetic op l r = Ok d) \/ arithmetic op l r = error "EXPR-EVAL-003".
Proof.
  intros Hop Ht Hl Hr. inversion Hl as [|? a Ha]; subst; [inversion Hr; simpl; eauto|].
  inversion Hr as [|? b Hb]; subst; [simpl; eauto|]. simpl.
  destruct (ty_shape t) as [r| | | |] eqn:E; try done.
  pose proof (conforms_scalar_inv _ _ _ E Ha) as Ma. pose proof (conforms_scalar_inv _ _ _ E Hb) as Mb.
  destruct (arithmetic_values_total op r a b) as [(v & ->)| ->]; simpl; eauto.
  destruct r; done.
Qed.

(** Comparisons always produce a truth value. *)
Definition comparison_op (op : BinaryOp) : Prop :=
  match op with
  | OpEq | OpNe | OpLt | OpLe | OpGt | OpGe | IsDistinctFrom | IsNotDistinctFrom => True
  | _ => False
  end.

Lemma comparison_truth op (l r : Datum) : comparison_op op -> exists t, eval_binary op l r = Ok (DValue (VTruth t)).
Proof.
  assert (G : forall b, exists t, Ok (truth b) = Ok (DValue (F:=F) (VTruth t))) by (unfold truth; eauto).
  destruct op; try done; intros _; simpl; unfold compare_order, distinct_equality; try apply G;
    destruct l, r; simpl; unfold unknown; eauto; try apply G; destruct (value_partial_cmp v v0); apply G.
Qed.

Lemma coalesce_sound lt rt out (l r : Datum) :
  validate_coalesce lt rt out = Ok tt -> nested_conforms lt l -> nested_conforms rt r ->
  nested_conforms out (coalesce l r).
Proof.
  unfold validate_coalesce. destruct (type_eqb lt rt) eqn:E1.
  - apply type_eqb_eq in E1 as ->. intros ->%require_exact_ok Hl Hr. by destruct l.
  - destruct (is_nullable lt && type_eqb (non_null lt) rt) eqn:E2; [|done].
    apply andb_true_iff in E2 as [_ E2%type_eqb_eq]. intros ->%require_exact_ok Hl Hr.
    destruct l; simpl; try done. inversion Hl; subst. constructor.
    eapply conforms_same_shape; [|done]. by destruct lt.
Qed.

(** The two shapes of the soundness conclusion. *)
Definition sound_result (op : BinaryOp) (out : TypeDef) (l r : Datum) : Prop :=
  (exists d, eval_binary op l r = Ok d /\ (~ arithmetic_op op -> nested_conforms out d)) \/
  (eval_binary op l r = error "EXPR-EVAL-003" /\ arithmetic_op op).

Lemma sound_truth op out l r : out = truth_type -> (exists t, eval_binary op l r = Ok (DValue (VTruth t))) ->
  sound_result op out l r.
Proof. intros -> (t & E). left. exists (DValue (VTruth t)). split; [done|]. intros _. apply nested_truth. Qed.

Lemma sound_arithmetic op t out (l r : Datum) :
  arithmetic_op op -> eval_binary op l r = arithmetic op l r ->
  (match ty_shape t with
   | ShScalar (RInt _) | ShScalar (RUInt _) => True
   | ShScalar RFloat32 | ShScalar RFloat64 | ShScalar RDecimal => op <> OpRem
   | _ => False
   end) ->
  nested_conforms t l -> nested_conforms t r -> sound_result op out l r.
Proof.
  intros Hop E Hs Hl Hr. unfold sound_result. rewrite E.
  destruct (arithmetic_sound op t l r Hop Hs Hl Hr) as [(d & ->)| ->]; [|auto].
  left. exists d. split; [done|]. intros []. done.
Qed.

Lemma comparison_sound op lt rt out (l r : Datum) c p :
  comparison_op op ->
  (require_same_input_types lt rt ;;? guard p c ;;? require_truth out) = Ok tt -> sound_result op out l r.
Proof.
  intros Hop [_ [_ Hv%require_truth_ok]%check_then]%check_then. apply sound_truth; [done|]. by apply comparison_truth.
Qed.

Lemma logic_sound op lt rt out (l r : Datum) :
  op = OpAnd \/ op = OpOr -> (require_truth lt ;;? require_truth rt ;;? require_truth out) = Ok tt ->
  nested_conforms lt l -> nested_conforms rt r -> sound_result op out l r.
Proof.
  intros Hop [->%require_truth_ok [->%require_truth_ok Hv%require_truth_ok]%check_then]%check_then Hl Hr.
  apply truth_value in Hl as (a & ->), Hr as (b & ->). apply sound_truth; [done|].
  destruct Hop as [-> | ->]; simpl; eauto.
Qed.

Lemma numeric_sound op lt rt out (l r : Datum) :
  arithmetic_op op -> op <> OpRem -> eval_binary op l r = arithmetic op l r ->
  (require_same_input_types lt rt ;;? guard (numeric (ty_properties lt)) "EXPR-TYPE-005" ;;?
   require_numeric_representation lt ;;? require_exact_type out lt) = Ok tt ->
  nested_conforms lt l -> nested_conforms rt r -> sound_result op out l r.
Proof.
  intros Hop Hne E [<-%same_types_ok [_ [Ht%guard_ok _]%check_then]%check_then]%check_then Hl Hr.
  apply (sound_arithmetic op lt); try done. by destruct (ty_shape lt) as [[]| | | |].
Qed.

(** Operators never fail on operands of their validated types, except for
    arithmetic overflow (or division by zero): no type error reaches run
    time, and comparisons, logic, null-safe equality and coalescing produce a
    datum of the declared result type. *)
Theorem binary_operator_sound op lt rt out (l r : Datum) :
  validate_binary op lt rt out = Ok tt -> nested_conforms lt l -> nested_conforms rt r ->
  (exists d, eval_binary op l r = Ok d /\ (~ arithmetic_op op -> nested_conforms out d)) \/
  (eval_binary op l r = error "EXPR-EVAL-003" /\ arithmetic_op op).
Proof.
  intros Hv Hl Hr. change (sound_result op out l r). unfold validate_binary in Hv.
  destruct op; try (by eapply comparison_sound); try (by eapply logic_sound; eauto);
    try (by eapply numeric_sound; eauto; unfold arithmetic_op; set_solver).
  - apply check_then in Hv as [<-%same_types_ok Hv]. apply check_then in Hv as [_ Hv].
    apply check_then in Hv as [Ht%guard_ok _].
    apply (sound_arithmetic OpRem lt); try done; [unfold arithmetic_op; set_solver|].
    by destruct (ty_shape lt) as [[]| | | |].
  - left. exists (coalesce l r). split; [done|]. intros _. by eapply coalesce_sound.
Qed.
(** ** Built-in functions *)
Lemma unary_value_sound (it rt input out : TypeDef) args (operation : Value -> Result Value) :
  out = preserve_nullability rt input -> ty_shape input = ty_shape it ->
  (forall v, conforms it v -> (exists v', operation v = Ok v' /\ conforms rt v')) ->
  Forall2 nested_conforms [input] args ->
  exists d, unary_value args operation = Ok d /\ nested_conforms out d.
Proof.
  intros -> Es Hop (d & args' & Hd & ->%Forall2_nil_inv_l & ->)%Forall2_cons_inv_l.
  inversion Hd as [? Hn|? v Hv]; subst; simpl.
  - exists Null. split; [done|]. constructor. unfold preserve_nullability, is_nullable. rewrite Hn. by destruct rt.
  - destruct (Hop v) as (v' & -> & Hv'); [by eapply conforms_same_shape|]. simpl.
    exists (DValue v'). split; [done|]. constructor. eapply conforms_same_shape; [|exact Hv'].
    unfold preserve_nullability. destruct (is_nullable input); [|done]. by destruct rt.
Qed.

Lemma unary_builtin_sound tys it rt out args (operation : Value -> Result Value) :
  unary_builtin tys it rt out = Ok tt ->
  (forall v, conforms it v -> (exists v', operation v = Ok v' /\ conforms rt v')) ->
  Forall2 nested_conforms tys args ->
  exists d, unary_value args operation = Ok d /\ nested_conforms out d.
Proof.
  intros (input & Hu & H)%rbind_ok Hop Ha. apply check_then in H as [Hb%guard_ok He%require_exact_ok].
  apply type_eqb_eq in Hb. destruct tys as [|t [|]]; try discriminate Hu. injection Hu as ->.
  eapply unary_value_sound; [done| |done|done]. rewrite <- Hb. by destruct input.
Qed.

Lemma require_string_shape t : require_string t = Ok tt -> ty_shape t = ShScalar RString.
Proof. intros [H _]%guard_ok%andb_true_iff. by destruct (ty_shape t) as [[]| | | |]. Qed.

Lemma conforms_as t r v : ty_shape t = ShScalar r -> scalar_matches r v = true -> conforms t v.
Proof. intros. by eapply conforms_scalar. Qed.

(** Strings fit in memory, so their lengths are machine integers. *)
Definition machine_string (d : Datum) : Prop :=
  match d with DValue (VString s) => zstrlen s <= u64_max | _ => True end.

Lemma chars_length s : zlen (chars s) <= zstrlen s.
Proof.
  unfold zlen, zstrlen, chars, pieces. rewrite length_map. apply inj_le.
  generalize (String.length s) as n. intros n. revert s.
  induction n as [|n IH]; intros s; simpl; [lia|]. destruct (split_char s) as [[[c p] rest]|]; simpl; [|lia].
  specialize (IH rest). lia.
Qed.

Lemma text_unary_sound t out args (operation : string -> string) :
  require_string t = Ok tt -> out = t -> Forall2 nested_conforms [t] args ->
  exists d, text_unary args operation = Ok d /\ nested_conforms out d.
Proof.
  intros Hs%require_string_shape -> Ha. apply (unary_value_sound t t t t); try done.
  - unfold preserve_nullability. destruct (is_nullable t) eqn:E; [|done].
    destruct t as [? ? ? n ? ?]. unfold is_nullable in E. simpl in *. by destruct n.
  - intros v Hv. pose proof (conforms_scalar_inv _ _ _ Hs Hv) as Hm. destruct v; try done.
    eexists. split; [done|]. by eapply conforms_as.
Qed.

Lemma text_length_sound t out args (len : string -> Z) :
  (forall s, 0 <= len s <= zstrlen s) -> Forall machine_string args ->
  require_string t = Ok tt -> out = preserve_nullability uint64_type t -> Forall2 nested_conforms [t] args ->
  exists d, unary_value args (on_string_length len) = Ok d /\ nested_conforms out d.
Proof.
  intros Hlen Hm Hs%require_string_shape -> Ha.
  pose proof Ha as (d & args' & Hd & ->%Forall2_nil_inv_l & ->)%Forall2_cons_inv_l.
  rewrite Forall_singleton in Hm. inversion Hd as [? Hn|? v Hv]; subst; simpl.
  - exists Null. split; [done|]. constructor. unfold preserve_nullability, is_nullable. by rewrite Hn.
  - pose proof (conforms_scalar_inv _ _ _ Hs Hv) as Hc. destruct v; try done. simpl in *.
    assert (Hr : in_u64 (len s) = true) by (specialize (Hlen s); unfold in_u64; lia).
    unfold checked. rewrite Hr. simpl. eexists. split; [done|]. constructor.
    apply (conforms_as _ (RUInt 64)); [unfold preserve_nullability; by destruct (is_nullable t)|].
    simpl. unfold unsigned_fits. simpl. unfold in_u64, u64_max in Hr. lia.
Qed.

Lemma text_predicate_sound name t out args :
  name = "dol/text/contains"%stdpp \/ name = "dol/text/starts-with"%stdpp \/ name = "dol/text/ends-with"%stdpp ->
  require_string t = Ok tt -> out = truth_type -> Forall2 nested_conforms [t; t] args ->
  exists d, text_predicate name args = Ok d /\ nested_conforms out d.
Proof.
  intros Hn Hs%require_string_shape -> (a & args' & Ha & (b & args2 & Hb & ->%Forall2_nil_inv_l & ->)%Forall2_cons_inv_l & ->)%Forall2_cons_inv_l.
  assert (U : exists d, Ok unknown = Ok d /\ nested_conforms truth_type d) by (eexists; split; [done|apply nested_truth]).
  inversion Ha as [? Hna|? v Hv]; subst; [destruct b; exact U|].
  pose proof (conforms_scalar_inv _ _ _ Hs Hv) as Hc. destruct v; try done.
  inversion Hb as [? Hnb|? w Hw]; subst; [exact U|].
  pose proof (conforms_scalar_inv _ _ _ Hs Hw) as Hcw. destruct w; try done.
  destruct Hn as [->|[->| ->]]; eexists; (split; [reflexivity|apply nested_bool]).
Qed.

Lemma one_argument tys t : unary_type_argument tys = Ok t -> tys = [t].
Proof. destruct tys as [|? [|]]; simpl; by intros [= ->]. Qed.

Lemma two_arguments tys lr : binary_type_arguments tys = Ok lr -> tys = [fst lr; snd lr].
Proof. destruct tys as [|? [|? [|]]]; simpl; by intros [= <-]. Qed.

(** The built-in accessors of dates, date-times, instants and durations. *)
Lemma on_date_sound (f : Date -> Value) rt r v :
  ty_shape rt = ShScalar r -> (forall d, scalar_matches r (f d) = true) -> conforms date_type v ->
  exists v', on_date f v = Ok v' /\ conforms rt v'.
Proof.
  intros Hr Hf Hv. pose proof (conforms_scalar_inv date_type RDate v eq_refl Hv) as Hc. destruct v; try done.
  eexists. split; [done|]. by eapply conforms_as.
Qed.

Lemma on_local_sound (f : LocalDateTime -> Value) rt r v :
  ty_shape rt = ShScalar r -> (forall d, scalar_matches r (f d) = true) -> conforms local_datetime_type v ->
  exists v', on_local f v = Ok v' /\ conforms rt v'.
Proof.
  intros Hr Hf Hv. pose proof (conforms_scalar_inv local_datetime_type RLocalDateTime v eq_refl Hv) as Hc.
  destruct v; try done. eexists. split; [done|]. by eapply conforms_as.
Qed.

Lemma signed_range bits z : integer_width bits = true -> - 2 ^ (bits - 1) <= z < 2 ^ (bits - 1) -> signed_fits bits z = true.
Proof.
  rewrite integer_width_ok. rewrite !elem_of_cons, elem_of_nil. unfold signed_fits.
  intros [->|[->|[->|[->|[->|[]]]]]] H; cbn in H |- *; try done; apply andb_true_iff; lia.
Qed.

Lemma unsigned_range bits z : integer_width bits = true -> 0 <= z < 2 ^ bits -> unsigned_fits bits z = true.
Proof.
  rewrite integer_width_ok. rewrite !elem_of_cons, elem_of_nil. unfold unsigned_fits.
  intros [->|[->|[->|[->|[->|[]]]]]] H; cbn in H |- *; try done; apply andb_true_iff; lia.
Qed.

Ltac date_case range := eapply unary_builtin_sound; [eassumption| |eassumption]; let v := fresh "v" in intros v;
  eapply on_date_sound; [reflexivity|]; let d := fresh "d" in intros d; pose proof (range d);
  first [apply signed_range|apply unsigned_range]; [reflexivity|]; cbn; lia.

Ltac pick k := match goal with H : context [String.eqb ?key k] |- _ =>
  destruct (String.eqb_spec key k) as [->|_]; [cbn [String.eqb Ascii.eqb Bool.eqb orb] in H |- *|cbn [orb] in H |- *] end.
Ltac text_case := match goal with Hv : rbind _ _ = Ok tt |- _ =>
  let t := fresh "t" in let Hs := fresh "Hs" in let He := fresh "He" in
  apply rbind_ok in Hv as (t & ->%one_argument & Hv);
  apply check_then in Hv as [Hs He%require_exact_ok]; by apply (text_unary_sound t) end.
Ltac predicate_case := match goal with Hv : rbind _ _ = Ok tt |- _ =>
  let lr := fresh "lr" in let E := fresh "E" in let Hs := fresh "Hs" in let Ho := fresh "Ho" in
  apply rbind_ok in Hv as (lr & ->%two_arguments & Hv);
  apply check_then in Hv as [E%require_exact_ok Hv]; apply check_then in Hv as [Hs Ho%require_truth_ok];
  rewrite <- E in *; apply (text_predicate_sound _ (fst lr)); auto end.
Ltac length_case := match goal with Hv : rbind _ _ = Ok tt |- _ =>
  let t := fresh "t" in let Hs := fresh "Hs" in let He := fresh "He" in
  apply rbind_ok in Hv as (t & ->%one_argument & Hv);
  apply check_then in Hv as [Hs He%require_exact_ok]; by apply (text_length_sound t) end.

(** A validated call of a built-in function succeeds on arguments of its
    declared types and returns a datum of its declared result type, null in,
    null out. *)
Theorem builtin_function_sound f tys out args :
  validate_builtin_function f tys out = Ok tt ->
  Forall2 nested_conforms tys args -> Forall machine_string args ->
  exists d, eval_builtin_function f args out = Ok d /\ nested_conforms out d.
Proof.
  destruct f as [key ver det deps]. unfold validate_builtin_function, eval_builtin_function. cbn [fn_key].
  intros Hv Ha Hm.
  assert (Hrange : forall s, 0 <= zstrlen s <= zstrlen s) by (unfold zstrlen; lia).
  assert (Hchars : forall s, 0 <= zlen (chars s) <= zstrlen s)
    by (intros s; split; [apply zlen_nonneg|apply chars_length]).
  pick "dol/text/to-lowercase"%stdpp; [text_case|].
  pick "dol/text/to-uppercase"%stdpp; [text_case|].
  pick "dol/text/trim"%stdpp; [text_case|].
  pick "dol/text/trim-start"%stdpp; [text_case|].
  pick "dol/text/trim-end"%stdpp; [text_case|].
  pick "dol/text/contains"%stdpp; [predicate_case|].
  pick "dol/text/starts-with"%stdpp; [predicate_case|].
  pick "dol/text/ends-with"%stdpp; [predicate_case|].
  pick "dol/text/byte-length"%stdpp; [length_case|].
  pick "dol/text/scalar-length"%stdpp; [length_case|].
  pick "dol/date/year"%stdpp; [date_case (date_year_range (F:=F))|].
  pick "dol/date/month"%stdpp; [date_case (date_month_range (F:=F))|].
  pick "dol/date/day"%stdpp; [date_case (date_day_range (F:=F))|].
  pick "dol/date/ordinal"%stdpp; [date_case (date_ordinal_range (F:=F))|].
  pick "dol/date/weekday"%stdpp; [date_case (date_weekday_range (F:=F))|].
  pick "dol/local-datetime/date"%stdpp.
  { eapply unary_builtin_sound; [done| |done]. intros v. by apply (on_local_sound _ _ RDate). }
  pick "dol/local-datetime/time"%stdpp.
  { eapply unary_builtin_sound; [done| |done]. intros v. by apply (on_local_sound _ _ RTime). }
  pick "dol/instant/unix-timestamp"%stdpp.
  { eapply unary_builtin_sound; [done| |done]. intros v Hc.
    pose proof (conforms_scalar_inv instant_type RInstant v eq_refl Hc) as Hs. destruct v; try done.
    eexists. split; [done|]. apply (conforms_as _ (RInt 64)); [done|]. simpl. apply signed_range; [done|].
    apply instant_seconds_range. }
  pick "dol/duration/whole-seconds"%stdpp; [|done].
  eapply unary_builtin_sound; [done| |done]. intros v Hc.
  pose proof (conforms_scalar_inv duration_type RDuration v eq_refl Hc) as Hs. destruct v; try done.
  eexists. split; [done|]. apply (conforms_as _ (RInt 64)); [done|]. simpl. apply signed_range; [done|].
  apply duration_seconds_range.
Qed.
End Soundness.

Section Witnesses.
Existing Instance no_subqueries.
Existing Instance sample_foreign.

Lemma binary_operator_sound_witness :
  validate_binary OpAdd int64_type int64_type int64_type = Ok tt /\
  ((exists d, eval_binary OpAdd (DValue (VInt 2)) (DValue (VInt 3)) = Ok d /\
              (~ arithmetic_op OpAdd -> nested_conforms int64_type d)) \/
   (eval_binary OpAdd (DValue (VInt 2)) (DValue (VInt 3)) = error "EXPR-EVAL-003" /\ arithmetic_op OpAdd)).
Proof.
  split; [by vm_compute|]. apply (binary_operator_sound (F:=sample_foreign) OpAdd int64_type int64_type int64_type).
  - by vm_compute.
  - constructor. by eapply conforms_as.
  - constructor. by eapply conforms_as.
Defined.

Lemma builtin_function_sound_witness :
  exists d, eval_builtin_function (function_new "dol/text/byte-length" 1 Deterministic) [DValue (VString "abc")] uint64_type = Ok d /\
            nested_conforms uint64_type d.
Proof.
  apply (builtin_function_sound (F:=sample_foreign) (function_new "dol/text/byte-length" 1 Deterministic) [string_type]).
  - by vm_compute.
  - constructor; [|constructor]. constructor. by eapply conforms_as.
  - constructor; [|constructor]. by vm_compute.
Defined.
End Witnesses.
