(* ===== verification/ExprNormalize.v ===== *)
(** * Expression normalization ([crates/dol-core/src/expr/normalize.rs])

    Literal folding, double-negation elimination and canonical candidate
    order, against a reference evaluator on trees. *)
From Stdlib Require Import ZArith Lia.
From S2P Require Import Prelude Floats Foreign Truth BTree Text Types Values Fingerprint Expr Semantic ExprValidate.

Local Open Scope Z_scope.

Section Normalize.
Context {F : Foreign} {Q : Subqueries}.

Definition literal_value (n : ExprNode) : option Datum :=
  match e_kind n with ELiteral d => Some d | _ => None end.

Definition is_literal (n : ExprNode) : bool := match literal_value n with Some _ => true | None => false end.

(** [candidates.sort_by_key(|(fingerprint, _)| *fingerprint)]. *)
Definition by_fingerprint (a b : Fingerprint * ExprNode) : comparison := list_cmp Z.compare (fst a) (fst b).

Definition sort_candidates (candidates : list ExprNode) : Result (list ExprNode) :=
  let? keyed := mapR (fun c => rmap (fun fp => (fp, c)) (fingerprint_node c)) candidates in
  Ok (map snd (sort_by by_fingerprint keyed)).

Definition fold_binary (op : BinaryOp) (l r : ExprNode) (ty : TypeDef) : Result ExprNode :=
  match literal_value l, literal_value r with
  | Some a, Some b => let? folded := eval_binary op a b in Ok (mkExpr (ELiteral folded) ty)
  | _, _ => Ok (mkExpr (EBinary op l r) ty)
  end.

Fixpoint normalize_node (n : ExprNode) : Result ExprNode :=
  let '(mkExpr kind ty) := n in
  match kind with
  | EField _ | ELiteral _ | EParameter _ => Ok n
  | EUnary op input =>
      let? input := normalize_node input in
      match op, e_kind input with
      | Not, EUnary Not nested => Ok nested
      | _, ELiteral value => let? folded := eval_unary op value ty in Ok (mkExpr (ELiteral folded) ty)
      | _, _ => Ok (mkExpr (EUnary op input) ty)
      end
  | EBinary op l r =>
      let? l := normalize_node l in
      match op, literal_value l with
      | Coalesce, Some (DValue v) => Ok (mkExpr (ELiteral (DValue v)) ty)
      | Coalesce, Some _ => normalize_node r
      | _, _ =>
          let? r := normalize_node r in fold_binary op l r ty
      end
  | EMembership input candidates negate =>
      let? input := normalize_node input in
      let? candidates := mapR normalize_node candidates in
      let? candidates := sort_candidates candidates in
      match literal_value input with
      | Some value =>
          if forallb is_literal candidates then
            let? folded := eval_membership value (omap literal_value candidates) negate in
            Ok (mkExpr (ELiteral folded) ty)
          else Ok (mkExpr (EMembership input candidates negate) ty)
      | None => Ok (mkExpr (EMembership input candidates negate) ty)
      end
  | EConditional c t f =>
      let? c := normalize_node c in
      match literal_value c with
      | Some (DValue (VTruth TTrue)) => normalize_node t
      | Some (DValue (VTruth _)) => normalize_node f
      | _ => let? t := normalize_node t in let? f := normalize_node f in Ok (mkExpr (EConditional c t f) ty)
      end
  | ECall f arguments =>
      let? arguments := mapR normalize_node arguments in
      if bool_decide (fn_determinism (fr_definition f) = Deterministic) && forallb is_literal arguments then
        let? folded := function_evaluate f (omap literal_value arguments) ty in
        Ok (mkExpr (ELiteral folded) ty)
      else Ok (mkExpr (ECall f arguments) ty)
  | EExists q => Ok (mkExpr (EExists q) ty)
  end.

(** ** The reference evaluator

    What an expression denotes in an environment of fields, parameters and
    subquery truths: children first, left to right, [Coalesce] and conditionals
    lazily, and every value checked against its node's type.  [lift] says that
    the parent is a [NullableLift], which may read a null-extended field. *)
Record ExprEnv := mkExprEnv {
  env_field : bool -> FieldRef -> TypeDef -> Result Datum;
  env_parameter : string -> TypeDef -> Result Datum;
  env_exists : Subquery -> Result Truth
}.

Definition checked_datum (ty : TypeDef) (d : Datum) : Result Datum :=
  map_err (validate_datum ty Optional d) "EXPR-EVAL-110" ;;? Ok d.


Fixpoint eval_tree (env : ExprEnv) (lift : bool) (n : ExprNode) : Result Datum :=
  let '(mkExpr kind ty) := n in
  match kind with
  | EField f => env_field env lift f ty
  | ELiteral d => checked_datum ty d
  | EParameter name => let? d := env_parameter env name ty in checked_datum ty d
  | EUnary op input =>
      let? a := eval_tree env (match op with NullableLift => true | _ => false end) input in
      let? d := eval_unary op a ty in checked_datum ty d
  | EBinary op l r =>
      let? a := eval_tree env false l in
      let? d := (match op with
                 | Coalesce => if is_absent a then let? b := eval_tree env false r in eval_binary op a b else Ok a
                 | _ => let? b := eval_tree env false r in eval_binary op a b
                 end) in
      checked_datum ty d
  | EMembership input candidates negate =>
      let? a := eval_tree env false input in
      let? l := mapR (eval_tree env false) candidates in
      let? d := eval_membership a l negate in checked_datum ty d
  | EConditional c t f =>
      let? a := eval_tree env false c in
      let? d := (match a with
                 | DValue (VTruth TTrue) => eval_tree env false t
                 | DValue (VTruth _) => eval_tree env false f
                 | other => eval_conditional other Missing Missing
                 end) in
      checked_datum ty d
  | ECall f arguments =>
      let? l := mapR (eval_tree env false) arguments in
      let? d := function_evaluate f l ty in checked_datum ty d
  | EExists q => let? t := env_exists env q in checked_datum ty (DValue (VTruth t))
  end.

(** A lifted read accepts whatever a plain read accepts. *)
Definition env_mono (env : ExprEnv) : Prop :=
  forall f ty d, env_field env false f ty = Ok d -> env_field env true f ty = Ok d.
End Normalize.

Section Preservation.
Context {F : Foreign} {Q : Subqueries}.

Lemma checked_ok ty (d d' : Datum) : checked_datum ty d = Ok d' <-> d' = d /\ validate_datum ty Optional d = Ok tt.
Proof.
  unfold checked_datum. rewrite check_then, map_err_ok. split; [intros [? [= <-]]; done|by intros [-> ?]].
Qed.

Lemma literal_value_eq n d : literal_value n = Some d -> n = mkExpr (ELiteral d) (e_ty n).
Proof. destruct n as [[] ?]; simpl; by intros [= ->]. Qed.

Context (env : ExprEnv) (mono : env_mono env).

Lemma eval_lift n d lift : eval_tree env false n = Ok d -> eval_tree env lift n = Ok d.
Proof. destruct lift; [|done]. destruct n as [[] ty]; try done. apply mono. Qed.

(** A literal that evaluates, evaluates to itself. *)
Lemma eval_literal n v d lift : literal_value n = Some v -> eval_tree env lift n = Ok d -> d = v.
Proof. intros ->%literal_value_eq. simpl. by intros [-> _]%checked_ok. Qed.

Lemma eval_literals l ds :
  Forall2 (fun n d => eval_tree env false n = Ok d) l ds -> forallb is_literal l = true -> omap literal_value l = ds.
Proof.
  induction 1 as [|n d l ds Hn _ IH]; [done|]. cbn [forallb]. intros [H1 H2]%andb_true_iff.
  cbn [omap list_omap]. unfold is_literal in H1. destruct (literal_value n) eqn:E; [|done].
  rewrite (eval_literal _ _ _ _ E Hn), IH; done.
Qed.

Definition preserved (n : ExprNode) : Prop := forall n' lift d,
  normalize_node n = Ok n' -> eval_tree env lift n = Ok d -> eval_tree env lift n' = Ok d.

Lemma preserved_all l l' ds :
  Forall preserved l -> mapR normalize_node l = Ok l' -> mapR (eval_tree env false) l = Ok ds ->
  mapR (eval_tree env false) l' = Ok ds.
Proof.
  intros HP Hl Hd. apply mapR_ok in Hl. apply mapR_ok in Hd. apply mapR_ok.
  revert l' ds Hl Hd. induction HP as [|n l Hn _ IH]; intros l' ds Hl Hd.
  - inversion Hl; inversion Hd; subst. constructor.
  - inversion Hl as [|? ? ? ? H1 H2]; inversion Hd; subst. constructor; eauto.
Qed.

(** Sorting the candidates permutes their values. *)
Lemma sort_candidates_perm (l l' : list ExprNode) : sort_candidates l = Ok l' -> l' ≡ₚ l.
Proof.
  intros (keyed & Hk & [= <-])%rbind_ok. apply mapR_ok in Hk.
  assert (E : map snd keyed = l).
  { induction Hk as [|c k l keyed (fp & _ & ->)%rmap_ok _ IH]; simpl; [done|]. by rewrite IH. }
  transitivity (map snd keyed); [|by rewrite E]. apply Permutation_map, sort_by_perm.
Qed.

Lemma eval_perm l l' ds : l' ≡ₚ l -> mapR (eval_tree env false) l = Ok ds ->
  exists ds', mapR (eval_tree env false) l' = Ok ds' /\ ds' ≡ₚ ds.
Proof.
  intros Hp H%mapR_ok. destruct (Permutation_Forall2 (Permutation_sym Hp) H) as (ds' & Hp' & H').
  exists ds'. split; [by apply mapR_ok|done].
Qed.

Lemma preserved_unary op a ty : preserved a -> preserved (mkExpr (EUnary op a) ty).
Proof.
  intros Ia n' lift d (a' & Ha & Hn)%rbind_ok (v & Hv & (r & Hr & [-> Ht]%checked_ok)%rbind_ok)%rbind_ok.
  specialize (Ia _ _ _ Ha Hv).
  assert (G : forall op', op' = op -> eval_tree env lift (mkExpr (EUnary op' a') ty) = Ok r).
  { intros ? ->. simpl. rewrite Ia. simpl. rewrite Hr. by apply checked_ok. }
  assert (Lit : forall v', e_kind a' = ELiteral v' ->
    (let? folded := eval_unary op v' ty in Ok (mkExpr (ELiteral folded) ty)) = Ok n' -> eval_tree env lift n' = Ok r).
  { intros v' E (folded & Hf & [= <-])%rbind_ok. assert (Ev : literal_value a' = Some v') by (unfold literal_value; by rewrite E).
    pose proof (eval_literal _ _ _ _ Ev Ia) as ->. rewrite Hr in Hf. injection Hf as <-. by apply checked_ok. }
  destruct op; destruct (e_kind a') eqn:E; try (injection Hn as <-; by apply G); try (by eapply Lit; eauto).
  destruct op; try (injection Hn as <-; by apply G).
  injection Hn as <-. destruct a' as [k' ty']. simpl in E. subst k'. simpl in Ia, Hr.
  apply rbind_ok in Ia as (w & Hw & (u & Hu & [-> _]%checked_ok)%rbind_ok). apply eval_lift.
  destruct w as [| |[]]; simpl in Hu; try done. injection Hu as <-. injection Hr as <-.
  by rewrite Hw, Truth.negate_involutive.
Qed.

(** What a binary node computes from its left value. *)
Definition eval_right (op : BinaryOp) (a : Datum) (r : ExprNode) : Result Datum :=
  match op with
  | Coalesce => if is_absent a then let? b := eval_tree env false r in eval_binary op a b else Ok a
  | _ => let? b := eval_tree env false r in eval_binary op a b
  end.

Lemma eval_right_strict op a r d :
  op <> Coalesce \/ is_absent a = true ->
  eval_right op a r = Ok d <-> exists b, eval_tree env false r = Ok b /\ eval_binary op a b = Ok d.
Proof. intros H. unfold eval_right. destruct op, (is_absent a); rewrite ?rbind_ok; naive_solver. Qed.

Lemma eval_binary_tree lift op a b ty d :
  eval_tree env lift (mkExpr (EBinary op a b) ty) = Ok d <->
  exists v, eval_tree env false a = Ok v /\ eval_right op v b = Ok d /\ validate_datum ty Optional d = Ok tt.
Proof.
  change (eval_tree env lift (mkExpr (EBinary op a b) ty)) with
    (let? v := eval_tree env false a in let? d := eval_right op v b in checked_datum ty d).
  rewrite rbind_ok. setoid_rewrite rbind_ok. setoid_rewrite checked_ok. naive_solver.
Qed.

Lemma fold_binary_preserved op a b ty n' lift v d :
  (op <> Coalesce \/ is_absent v = true \/ literal_value a = None) ->
  eval_tree env false a = Ok v -> eval_right op v b = Ok d -> validate_datum ty Optional d = Ok tt ->
  fold_binary op a b ty = Ok n' -> eval_tree env lift n' = Ok d.
Proof.
  intros Hop Ha Hb Ht. unfold fold_binary.
  assert (G : eval_tree env lift (mkExpr (EBinary op a b) ty) = Ok d) by (apply eval_binary_tree; eauto).
  destruct (literal_value a) as [x|] eqn:Ea; [|by intros [= <-]].
  destruct (literal_value b) as [y|] eqn:Eb; [|by intros [= <-]].
  intros (folded & Hf & [= <-])%rbind_ok.
  apply eval_right_strict in Hb as (w & Hw & Hd); [|naive_solver].
  rewrite (eval_literal _ _ _ _ Ea Ha), (eval_literal _ _ _ _ Eb Hw) in Hd. rewrite Hf in Hd. injection Hd as ->.
  by apply checked_ok.
Qed.

Lemma preserved_binary op a b ty : preserved a -> preserved b -> preserved (mkExpr (EBinary op a b) ty).
Proof.
  intros Ia Ib n' lift d (a' & Ha & Hn)%rbind_ok (v & Hv & Hr & Ht)%eval_binary_tree. specialize (Ia _ _ _ Ha Hv).
  assert (Rb : forall b', normalize_node b = Ok b' -> eval_right op v b' = Ok d).
  { intros b' Hb. destruct (decide (op = Coalesce /\ is_absent v = false)) as [[-> E]|E].
    - unfold eval_right in *. by rewrite E in *.
    - apply eval_right_strict in Hr as (w & Hw & Hd); [|destruct (is_absent v); naive_solver].
      apply eval_right_strict; [destruct (is_absent v); naive_solver|]. exists w. split; [by apply (Ib b')|done]. }
  assert (Tail : op <> Coalesce \/ literal_value a' = None ->
    (let? b' := normalize_node b in fold_binary op a' b' ty) = Ok n' -> eval_tree env lift n' = Ok d).
  { intros Hop (b' & Hb & Hf)%rbind_ok. apply (fold_binary_preserved op a' b' ty n' lift v d); try done; [naive_solver|by apply Rb]. }
  destruct (decide (op = Coalesce)) as [->|Hop]; [|apply Tail; [by left|by destruct op]].
  destruct (literal_value a') as [x|] eqn:Ea; [|by apply Tail; auto].
  pose proof (eval_literal _ _ _ _ Ea Ia) as ->.
  destruct x as [| |x].
  - apply eval_right_strict in Hr as (w & Hw & [= <-]); [|by auto]. by eapply Ib, eval_lift.
  - apply eval_right_strict in Hr as (w & Hw & [= <-]); [|by auto]. by eapply Ib, eval_lift.
  - injection Hn as <-. injection Hr as <-. by apply checked_ok.
Qed.

Lemma preserved_membership a l negate ty :
  preserved a -> Forall preserved l -> preserved (mkExpr (EMembership a l negate) ty).
Proof.
  intros Ia Il n' lift d (a' & Ha & (l' & Hl & (s & Hs & Hn)%rbind_ok)%rbind_ok)%rbind_ok
    (v & Hv & (ds & Hd & (r & Hr & [-> Ht]%checked_ok)%rbind_ok)%rbind_ok)%rbind_ok.
  specialize (Ia _ _ _ Ha Hv). pose proof (preserved_all _ _ _ Il Hl Hd) as Hl'.
  destruct (eval_perm _ _ _ (sort_candidates_perm _ _ Hs) Hl') as (ds' & Hds & Hp).
  rewrite <- (eval_membership_perm v _ _ negate Hp) in Hr.
  assert (G : eval_tree env lift (mkExpr (EMembership a' s negate) ty) = Ok r).
  { simpl. rewrite Ia, Hds. simpl. rewrite Hr. by apply checked_ok. }
  destruct (literal_value a') as [x|] eqn:Ea; [|by injection Hn as <-].
  destruct (forallb is_literal s) eqn:El; [|by injection Hn as <-].
  apply rbind_ok in Hn as (folded & Hf & [= <-]).
  apply mapR_ok in Hds. rewrite (eval_literals _ _ Hds El) in Hf.
  rewrite <- (eval_literal _ _ _ _ Ea Ia), Hr in Hf. injection Hf as <-. by apply checked_ok.
Qed.

Lemma preserved_conditional c a b ty :
  preserved c -> preserved a -> preserved b -> preserved (mkExpr (EConditional c a b) ty).
Proof.
  intros Ic Ia Ib n' lift d (c' & Hc & Hn)%rbind_ok (v & Hv & (r & Hr & [-> Ht]%checked_ok)%rbind_ok)%rbind_ok.
  specialize (Ic _ _ _ Hc Hv).
  assert (G : (let? a := normalize_node a in let? b := normalize_node b in
               Ok (mkExpr (EConditional c' a b) ty)) = Ok n' -> eval_tree env lift n' = Ok r).
  { intros (a' & Ha & (b' & Hb & [= <-])%rbind_ok)%rbind_ok. simpl. rewrite Ic. simpl.
    apply rbind_ok. exists r. split; [|by apply checked_ok].
    destruct v as [| |w]; try done. destruct w as [|t| | | | | | | | | | | | | | | | | |]; try done. destruct t; eauto. }
  destruct (literal_value c') as [x|] eqn:Ec; [|by apply G].
  pose proof (eval_literal _ _ _ _ Ec Ic) as ->.
  destruct x as [| |w]; try (by apply G). destruct w as [|t| | | | | | | | | | | | | | | | | |]; try (by apply G).
  destruct t; eapply eval_lift; eauto.
Qed.

Lemma preserved_call f l ty : Forall preserved l -> preserved (mkExpr (ECall f l) ty).
Proof.
  intros Il n' lift d (l' & Hl & Hn)%rbind_ok (ds & Hd & (r & Hr & [-> Ht]%checked_ok)%rbind_ok)%rbind_ok.
  pose proof (preserved_all _ _ _ Il Hl Hd) as Hl'.
  destruct (bool_decide _ && forallb is_literal l') eqn:E.
  - apply rbind_ok in Hn as (folded & Hf & [= <-]). apply andb_true_iff in E as [_ E].
    apply mapR_ok in Hl'. rewrite (eval_literals _ _ Hl' E), Hr in Hf. injection Hf as <-. by apply checked_ok.
  - injection Hn as <-. simpl. rewrite Hl'. simpl. rewrite Hr. by apply checked_ok.
Qed.

Lemma normalize_preserved n : preserved n.
Proof.
  induction n as [k ty IH] using expr_ind'.
  destruct k; simpl in IH; rewrite ?Forall_cons in IH; try (by intros ? ? ? [= <-]).
  - apply preserved_unary; tauto.
  - apply preserved_binary; tauto.
  - apply preserved_membership; tauto.
  - apply preserved_conditional; tauto.
  - by apply preserved_call.
Qed.
End Preservation.

(** ** Normal forms keep types and rules *)
Section Typing.
Context {F : Foreign} {Q : Subqueries}.

(** Folded literals are rechecked after normalization, every other node keeps
    its rule. *)
Definition typed_node (n : ExprNode) : Prop := is_literal n = true \/ node_rule n.

(** Everything validation registers about a node comes from a node of [n]. *)
Definition derives (n m : ExprNode) : Prop :=
  exists m0, m0 ∈ subexprs n /\ e_ty m = e_ty m0 /\
    call_definition m ⊆ call_definition m0 /\ parameter_use m ⊆ parameter_use m0.

Definition normal_of (n n' : ExprNode) : Prop :=
  e_ty n' = e_ty n /\ Forall (fun m => typed_node m /\ derives n m) (subexprs n').

Lemma derives_self n : derives n n.
Proof. exists n. rewrite subexprs_eq. split_and!; [left|done..]. Qed.

Lemma derives_child n c m : c ∈ expr_children n -> derives c m -> derives n m.
Proof.
  intros Hc (m0 & Hm & H). exists m0. split; [|done]. rewrite subexprs_eq. right.
  apply elem_of_flat_map. eauto.
Qed.

Lemma normal_child n c c' : c ∈ expr_children n -> e_ty c = e_ty n -> normal_of c c' -> normal_of n c'.
Proof.
  intros Hc Et [Ht Hn]. split; [congruence|]. eapply Forall_impl; [exact Hn|]. intros m [? ?].
  split; [done|]. by eapply derives_child.
Qed.

Lemma normal_literal n d : normal_of n (mkExpr (ELiteral d) (e_ty n)).
Proof.
  split; [done|]. constructor; [|constructor]. split; [by left|]. exists n. rewrite subexprs_eq.
  split_and!; [left|done|set_solver|set_solver].
Qed.

(** A rebuilt node whose children are normal forms of the node's children. *)
Lemma normal_rebuilt n n' :
  e_ty n' = e_ty n -> node_rule n' -> call_definition n' = call_definition n -> parameter_use n' = parameter_use n ->
  Forall (fun c' => exists c, c ∈ expr_children n /\ normal_of c c') (expr_children n') ->
  normal_of n n'.
Proof.
  intros Et Hr Hc Hp H. split; [done|]. rewrite subexprs_eq. constructor.
  - split; [by right|]. exists n. rewrite subexprs_eq. split_and!; [left|done|by rewrite Hc|by rewrite Hp].
  - apply Forall_flat_map. eapply Forall_impl; [exact H|]. intros c' (c & Hin & _ & Hn).
    eapply Forall_impl; [exact Hn|]. intros m [? ?]. split; [done|]. by eapply derives_child.
Qed.

Definition normalizes (n : ExprNode) : Prop := forall n',
  Forall node_rule (subexprs n) -> normalize_node n = Ok n' -> normal_of n n'.

Lemma node_rules_at n : Forall node_rule (subexprs n) <->
  node_rule n /\ Forall (fun c => Forall node_rule (subexprs c)) (expr_children n).
Proof. by rewrite subexprs_eq, Forall_cons, Forall_flat_map. Qed.

Lemma normalizes_all l l' :
  Forall normalizes l -> Forall (fun c => Forall node_rule (subexprs c)) l -> mapR normalize_node l = Ok l' ->
  Forall2 normal_of l l'.
Proof.
  intros HP HR Hl%mapR_ok. revert HP HR. induction Hl as [|c c' l l' Hc _ IH]; [constructor|].
  rewrite !Forall_cons. intros [Pc Pl] [Rc Rl]. constructor; auto.
Qed.

Lemma normal_types l l' : Forall2 normal_of l l' -> map e_ty l' = map e_ty l.
Proof. induction 1 as [|c c' l l' [E _] _ IH]; simpl; congruence. Qed.

Lemma normal_from (n : ExprNode) l l' : (forall c, c ∈ l -> c ∈ expr_children n) -> Forall2 normal_of l l' ->
  Forall (fun c' => exists c, c ∈ expr_children n /\ normal_of c c') l'.
Proof.
  intros Hin H. induction H as [|c c' l l' Hc _ IH]; [constructor|]. constructor.
  - exists c. split; [apply Hin; left|done].
  - apply IH. intros; apply Hin; by right.
Qed.

Lemma normalizes_unary op a ty : normalizes a -> normalizes (mkExpr (EUnary op a) ty).
Proof.
  intros Ia n' [Hr Hc]%node_rules_at (a' & Ha & Hn)%rbind_ok. apply Forall_cons_1 in Hc as [Hc _].
  specialize (Ia _ Hc Ha). set (n := mkExpr (EUnary op a) ty) in *.
  assert (Hin : a ∈ expr_children n) by (cbn; left). simpl in Hr.
  assert (G : normal_of n (mkExpr (EUnary op a') ty)).
  { apply normal_rebuilt; [done| |done|done|].
    - simpl. by rewrite (proj1 Ia).
    - constructor; [eauto|constructor]. }
  assert (Lit : forall v, (let? folded := eval_unary op v ty in Ok (mkExpr (ELiteral folded) ty)) = Ok n' -> normal_of n n').
  { intros v (folded & _ & [= <-])%rbind_ok. apply (normal_literal n). }
  destruct op; destruct (e_kind a') eqn:E; try (injection Hn as <-; exact G); try (by eapply Lit; eauto).
  destruct op; try (injection Hn as <-; exact G). injection Hn as <-.
  apply check_then in Hr as [Hi%require_truth_ok Ho%require_exact_ok].
  destruct Ia as [Et Hs]. destruct a' as [k' ty']. simpl in E, Et. subst k'. cbn in Hs.
  apply Forall_cons in Hs as [[[?|Hra] _] Hs]; [done|]. simpl in Hra.
  apply check_then in Hra as [Hi2%require_truth_ok _].
  split; [simpl; congruence|]. eapply Forall_impl; [exact Hs|]. intros m [? ?]. split; [done|]. by eapply derives_child.
Qed.

Lemma normalizes_binary op a b ty : normalizes a -> normalizes b -> normalizes (mkExpr (EBinary op a b) ty).
Proof.
  intros Ia Ib n' [Hr Hc]%node_rules_at (a' & Ha & Hn)%rbind_ok.
  cbn [expr_children e_kind kind_children] in Hc. rewrite Forall_cons, Forall_singleton in Hc.
  destruct Hc as [Ca Cb]. specialize (Ia _ Ca Ha). set (n := mkExpr (EBinary op a b) ty) in *. simpl in Hr.
  assert (Ina : a ∈ expr_children n) by (cbn; left). assert (Inb : b ∈ expr_children n) by (cbn; right; left).
  assert (Tail : (let? b' := normalize_node b in fold_binary op a' b' ty) = Ok n' -> normal_of n n').
  { intros (b' & Hb & Hf)%rbind_ok. specialize (Ib _ Cb Hb).
    assert (G : normal_of n (mkExpr (EBinary op a' b') ty)).
    { apply normal_rebuilt; [done| |done|done|].
      - simpl. by rewrite (proj1 Ia), (proj1 Ib).
      - repeat constructor; eauto. }
    unfold fold_binary in Hf. destruct (literal_value a'); [|by injection Hf as <-].
    destruct (literal_value b'); [|by injection Hf as <-].
    apply rbind_ok in Hf as (folded & _ & [= <-]). apply (normal_literal n). }
  destruct (decide (op = Coalesce)) as [->|Hop]; [|apply Tail; by destruct op].
  destruct (literal_value a') as [x|]; [|by apply Tail].
  assert (Right : normalize_node b = Ok n' -> normal_of n n').
  { intros Hb. eapply normal_child; [exact Inb| |by apply Ib]. simpl. unfold validate_binary, validate_coalesce in Hr.
    destruct (type_eqb (e_ty a) (e_ty b)) eqn:E.
    - apply type_eqb_eq in E as <-. by apply require_exact_ok in Hr.
    - destruct (is_nullable (e_ty a) && _); [|done]. by apply require_exact_ok in Hr. }
  destruct x as [| |v]; auto. injection Hn as <-. apply (normal_literal n).
Qed.

Lemma normalizes_membership a l negate ty :
  normalizes a -> Forall normalizes l -> normalizes (mkExpr (EMembership a l negate) ty).
Proof.
  intros Ia Il n' [Hr Hc]%node_rules_at (a' & Ha & (l' & Hl & (s & Hs & Hn)%rbind_ok)%rbind_ok)%rbind_ok.
  cbn [expr_children e_kind kind_children] in Hc. apply Forall_cons in Hc as [Ca Cl].
  specialize (Ia _ Ca Ha). pose proof (normalizes_all _ _ Il Cl Hl) as Nl.
  set (n := mkExpr (EMembership a l negate) ty) in *. destruct Hr as (Hr & He & Ht).
  assert (G : normal_of n (mkExpr (EMembership a' s negate) ty)).
  { apply normal_rebuilt; [done| |done|done|].
    - simpl. rewrite (proj1 Ia), (sort_candidates_perm _ _ Hs). split_and!; [|done|done].
      clear -Hr Nl. induction Nl as [|c c' l l' [E _] _ IH]; [constructor|].
      apply Forall_cons in Hr as [? ?]. constructor; [congruence|auto].
    - cbn. constructor; [exists a; split; [left|done]|]. rewrite (sort_candidates_perm _ _ Hs).
      apply (normal_from n l); [|exact Nl]. intros c ?. by right. }
  destruct (literal_value a'); [|by injection Hn as <-].
  destruct (forallb is_literal s); [|by injection Hn as <-].
  apply rbind_ok in Hn as (folded & _ & [= <-]). apply (normal_literal n).
Qed.

Lemma normalizes_conditional c a b ty :
  normalizes c -> normalizes a -> normalizes b -> normalizes (mkExpr (EConditional c a b) ty).
Proof.
  intros Ic Ia Ib n' [Hr Hc]%node_rules_at (c' & Hc' & Hn)%rbind_ok.
  cbn [expr_children e_kind kind_children] in Hc. rewrite !Forall_cons in Hc. destruct Hc as (Cc & Ca & Cb & _).
  specialize (Ic _ Cc Hc'). set (n := mkExpr (EConditional c a b) ty) in *. destruct Hr as (H1 & H2 & H3).
  assert (G : (let? a := normalize_node a in let? b := normalize_node b in
               Ok (mkExpr (EConditional c' a b) ty)) = Ok n' -> normal_of n n').
  { intros (a' & Ha & (b' & Hb & [= <-])%rbind_ok)%rbind_ok. specialize (Ia _ Ca Ha). specialize (Ib _ Cb Hb).
    apply normal_rebuilt; [done| |done|done|].
    - simpl. rewrite (proj1 Ia), (proj1 Ib), (proj1 Ic). done.
    - repeat constructor; eexists; (split; [|eassumption]); cbn; set_solver. }
  assert (A : normalize_node a = Ok n' -> normal_of n n').
  { intros Ha. apply (normal_child n a); [cbn; set_solver|simpl; congruence|by apply Ia]. }
  assert (B : normalize_node b = Ok n' -> normal_of n n').
  { intros Hb. apply (normal_child n b); [cbn; set_solver|simpl; congruence|by apply Ib]. }
  destruct (literal_value c') as [x|]; [|by apply G].
  destruct x as [| |w]; try (by apply G). destruct w as [|t| | | | | | | | | | | | | | | | | |]; try (by apply G).
  destruct t; auto.
Qed.

Lemma normalizes_call f l ty : Forall normalizes l -> normalizes (mkExpr (ECall f l) ty).
Proof.
  intros Il n' [Hr Hc]%node_rules_at (l' & Hl & Hn)%rbind_ok.
  pose proof (normalizes_all _ _ Il Hc Hl) as Nl. set (n := mkExpr (ECall f l) ty) in *.
  destruct (bool_decide _ && _).
  - apply rbind_ok in Hn as (folded & _ & [= <-]). apply (normal_literal n).
  - injection Hn as <-. apply normal_rebuilt; [done| |done|done|by apply (normal_from n l)].
    simpl. by rewrite (normal_types _ _ Nl).
Qed.

Lemma normalize_normal n : normalizes n.
Proof.
  induction n as [k ty IH] using expr_ind'. destruct k; simpl in IH; rewrite ?Forall_cons in IH.
  1-3: intros n' Hr [= <-]; split; [done|]; constructor; [|constructor];
       (split; [first [by left|right; by apply Forall_cons in Hr as [? _]]|apply derives_self]).
  - apply normalizes_unary; tauto.
  - apply normalizes_binary; tauto.
  - apply normalizes_membership; tauto.
  - apply normalizes_conditional; tauto.
  - by apply normalizes_call.
  - intros n' Hr [= <-]. apply normal_rebuilt; try done. by apply Forall_cons in Hr as [? _].
Qed.
End Typing.

(** ** Claims *)
Section Claims.
Context {F : Foreign} {Q : Subqueries}.

(** C17: normalization does not change what an expression evaluates to: if the
    expression evaluates to a datum in an environment, so does its normal
    form, in the same position. *)
Theorem normalize_preserves_evaluation env n n' lift d :
  env_mono env -> normalize_node n = Ok n' -> eval_tree env lift n = Ok d -> eval_tree env lift n' = Ok d.
Proof. intros mono. by apply normalize_preserved. Qed.

Definition literal_rule (n : ExprNode) : Prop := is_literal n = true -> node_rule n.

Lemma consistent_subset {A I R} (id : A -> I) (repr : A -> R) l l' :
  (forall a, a ∈ l' -> a ∈ l) -> consistent id repr l -> consistent id repr l'.
Proof. intros Hs H a b Ha Hb. apply H; auto. Qed.

(** Normalizing a validated expression keeps its type, and the normal form
    passes validation again unless a folded literal does not fit its type: the
    second validation can only reject an overflowing constant. *)
Theorem normalize_revalidates n n' limits :
  validate_expression_node n limits = Ok tt -> normalize_node n = Ok n' ->
  e_ty n' = e_ty n /\
  (validate_expression_node n' limits = Ok tt <-> Forall literal_rule (subexprs n')).
Proof.
  rewrite !validate_expression_node_ok. intros (H1 & H2 & H3 & H4 & H5 & H6 & H7) Hn.
  destruct (normalize_normal n n' H5 Hn) as [Et Hall]. split; [done|].
  assert (Hd : forall m, m ∈ subexprs n' -> derives n m) by (rewrite Forall_forall in Hall; intros m Hm; by apply Hall).
  assert (Sty : forall t, t ∈ map e_ty (subexprs n') -> t ∈ map e_ty (subexprs n)).
  { intros t (m & -> & (m0 & Hm0 & E & _)%Hd)%elem_of_map. apply elem_of_map. exists m0. by rewrite E. }
  assert (Sfn : forall d, d ∈ call_definitions n' -> d ∈ call_definitions n).
  { intros d (m & (m0 & Hm0 & _ & Hc & _)%Hd & Hd')%elem_of_flat_map. apply elem_of_flat_map. exists m0. auto. }
  assert (Spa : forall u, u ∈ parameter_uses n' -> u ∈ parameter_uses n).
  { intros u (m & (m0 & Hm0 & _ & _ & Hp)%Hd & Hu)%elem_of_flat_map. apply elem_of_flat_map. exists m0. auto. }
  rewrite Forall_forall in H1. rewrite Forall_forall in H3. rewrite Forall_forall in H6. split.
  - intros (_ & _ & _ & _ & Hr & _). eapply Forall_impl; [exact Hr|]. by intros m ? ?.
  - intros Hl. split_and!.
    + apply Forall_forall. intros m (m0 & Hm0 & -> & _)%Hd. auto.
    + eapply consistent_subset; [|exact H2]. intros t (t0 & Ht0 & Ht)%elem_of_flat_map.
      apply elem_of_flat_map. exists t0. auto.
    + apply Forall_forall. auto.
    + by eapply consistent_subset.
    + rewrite Forall_forall in Hl. rewrite Forall_forall in Hall. apply Forall_forall. intros m Hm.
      destruct (Hall m Hm) as [[?|?] _]; [by apply Hl|done].
    + apply Forall_forall. auto.
    + by eapply consistent_subset.
Qed.
End Claims.

(** [not (not p)] at a true [p]. *)
Definition sample_env : ExprEnv (F:=sample_foreign) (Q:=no_subqueries) :=
  mkExprEnv (fun _ _ _ => Ok (DValue (VTruth TTrue))) (fun _ _ => error "EXPR-EVAL-103") (fun _ => error "EXPR-EVAL-112").

Definition sample_field : ExprNode (F:=sample_foreign) (Q:=no_subqueries) :=
  mkExpr (EField (mkFieldRef "user" "ok" "ok" None)) truth_type.
Definition sample_double_negation : ExprNode (F:=sample_foreign) (Q:=no_subqueries) :=
  mkExpr (EUnary Not (mkExpr (EUnary Not sample_field) truth_type)) truth_type.

Lemma normalize_preserves_evaluation_witness :
  normalize_node sample_double_negation = Ok sample_field /\
  eval_tree sample_env false sample_field = Ok (DValue (VTruth TTrue)).
Proof.
  split; [reflexivity|].
  apply (normalize_preserves_evaluation sample_env sample_double_negation sample_field false); [by intros ???|reflexivity..].
Defined.

Lemma normalize_revalidates_witness :
  validate_expression_node sample_double_negation default_expression_limits = Ok tt /\
  e_ty sample_field = e_ty sample_double_negation.
Proof.
  split; [reflexivity|].
  apply (normalize_revalidates sample_double_negation sample_field default_expression_limits); reflexivity.
Defined.
