(* ===== verification/ExprTruth.v ===== *)
(** * Balanced conjunctions ([crates/dol-core/src/expr/existential.rs], [canonical_truth])

    Filters are conjoined over and over, so [canonical_truth] rebuilds every
    conjunction as a balanced tree.  The rebuilt condition has the same leaves
    in the same order, logarithmic depth, and the same truth. *)
From Stdlib Require Import ZArith Lia.
From S2P Require Import Prelude Foreign Truth Types Values Expr Semantic ExprValidate ExprNormalize.

Local Open Scope Z_scope.

Section Balanced.
Context {F : Foreign} {Q : Subqueries}.

(** The leaves of the maximal conjunction at the root. *)
Fixpoint and_leaves (n : ExprNode) : list ExprNode :=
  let '(mkExpr k _) := n in
  match k with
  | EBinary OpAnd l r => and_leaves l ++ and_leaves r
  | _ => [n]
  end.

Lemma and_leaves_length n : (1 <= length (and_leaves n))%nat.
Proof.
  induction n as [k t IH] using expr_ind'. destruct k; simpl; try lia. destruct op; simpl; try lia.
  simpl in IH. rewrite !Forall_cons in IH. rewrite length_app. lia.
Qed.

Lemma collect_leaves_eq fuel stack leaves :
  (list_sum (map expr_size stack) <= fuel)%nat ->
  collect_leaves fuel stack leaves = leaves ++ flat_map and_leaves stack.
Proof.
  revert stack leaves. induction fuel as [|fuel IH]; intros stack leaves Hf.
  { destruct stack as [|[k t] stack]; simpl in *; [by rewrite app_nil_r|lia]. }
  destruct stack as [|[k t] stack]; cbn [collect_leaves flat_map]; [by rewrite app_nil_r|].
  simpl in Hf. cbn [e_kind].
  assert (G : and_leaves (mkExpr k t) = [mkExpr k t] ->
    collect_leaves fuel stack (leaves ++ [mkExpr k t]) = leaves ++ and_leaves (mkExpr k t) ++ flat_map and_leaves stack).
  { intros ->. rewrite IH by lia. by rewrite <- app_assoc. }
  destruct k; try (by apply G). destruct op; try (by apply G).
  rewrite IH by (simpl; lia). simpl. by rewrite <- app_assoc.
Qed.

Lemma pair_up_leaves l : flat_map and_leaves (pair_up l) = flat_map and_leaves l.
Proof.
  induction l as [l IH] using (induction_ltof1 _ length); unfold ltof in IH.
  destruct l as [|a [|b l]]; [done|done|]. simpl. rewrite IH by (simpl; lia). by rewrite app_assoc.
Qed.

Lemma pair_up_length l : (length (pair_up l) = Nat.div2 (S (length l)))%nat.
Proof.
  induction l as [l IH] using (induction_ltof1 _ length); unfold ltof in IH.
  destruct l as [|a [|b l]]; [done|done|]. simpl. rewrite IH by (simpl; lia). done.
Qed.

Lemma balance_leaves fuel l : flat_map and_leaves (balance fuel l) = flat_map and_leaves l.
Proof.
  revert l. induction fuel as [|fuel IH]; intros l; [done|]. destruct l as [|a [|b l]]; [done|done|].
  cbn [balance]. by rewrite IH, pair_up_leaves.
Qed.

Lemma and_leaves_idem n : flat_map and_leaves (and_leaves n) = and_leaves n.
Proof.
  induction n as [k t IH] using expr_ind'. destruct k; try done. destruct op; try done.
  simpl in *. rewrite !Forall_cons in IH. destruct IH as (Il & Ir & _). by rewrite flat_map_app, Il, Ir.
Qed.

Lemma half_bounds n : (2 * Nat.div2 (S n) <= S n <= 2 * Nat.div2 (S n) + 1)%nat.
Proof. pose proof (Nat.div2_odd (S n)) as H. destruct (Nat.odd (S n)); simpl Nat.b2n in H; lia. Qed.

(** As many rounds as leaves are enough. *)
Lemma balance_single fuel l : (length l <= fuel)%nat -> l <> [] -> exists n, balance fuel l = [n].
Proof.
  revert l. induction fuel as [|fuel IH]; intros l Hf Hl; [destruct l; simpl in Hf; [done|lia]|].
  destruct l as [|a [|b l]]; [done|by exists a|]. cbn [balance]. apply IH; [|done].
  rewrite pair_up_length. pose proof (half_bounds (length (a :: b :: l))). cbn [length] in *. lia.
Qed.

Lemma balance_height fuel l k H :
  Z.of_nat (length l) <= 2 ^ k -> 0 <= k -> 0 <= H -> Forall (fun n => expr_height n <= H) l ->
  Forall (fun n => expr_height n <= H + k) (balance fuel l).
Proof.
  intros Hl Hk. revert l H fuel Hl. pattern k. apply natlike_ind; [| |done]; clear k Hk.
  - intros l H fuel Hl HH Hall. replace (H + 0) with H by lia. change (2 ^ 0) with 1 in Hl.
    destruct l as [|a [|b l]]; [by destruct fuel..|]. simpl in Hl. lia.
  - intros k Hk IH l H fuel Hl HH Hall. rewrite Z.pow_succ_r in Hl by done.
    destruct fuel as [|fuel]; [eapply Forall_impl; [exact Hall|]; simpl; lia|].
    destruct l as [|a [|b l]]; [done|eapply Forall_impl; [exact Hall|]; simpl; lia|].
    cbn [balance]. replace (H + Z.succ k) with (H + 1 + k) by lia. apply IH; [|lia|].
    + rewrite pair_up_length. pose proof (half_bounds (length (a :: b :: l))). lia.
    + clear -Hall HH. induction (a :: b :: l) as [l' IH] using (induction_ltof1 _ length); unfold ltof in IH.
      destruct l' as [|x [|y l']]; [done| |].
      * eapply Forall_impl; [exact Hall|]. simpl. lia.
      * rewrite !Forall_cons in Hall. destruct Hall as (Hx & Hy & Hr). constructor.
        -- simpl. lia.
        -- apply IH; [simpl; lia|done].
Qed.

Lemma canonical_balance s : exists n,
  spec_node (canonical_truth s) = n /\ balance (length (and_leaves (spec_node s))) (and_leaves (spec_node s)) = [n].
Proof.
  unfold canonical_truth. rewrite collect_leaves_eq by (simpl; lia). simpl. rewrite app_nil_r.
  pose proof (and_leaves_length (spec_node s)) as Hl.
  destruct (balance_single (length (and_leaves (spec_node s))) (and_leaves (spec_node s))) as (n & E).
  - done.
  - intros E. rewrite E in Hl. simpl in Hl. lia.
  - exists n. by rewrite E.
Qed.

(** [canonical_truth] keeps the conjoined conditions and their order, and
    conjoining [m] conditions adds at most [log2 m] (rounded up) levels. *)
Theorem canonical_truth_balanced s k H :
  Z.of_nat (length (and_leaves (spec_node s))) <= 2 ^ k -> 0 <= k -> 0 <= H ->
  Forall (fun n => expr_height n <= H) (and_leaves (spec_node s)) ->
  and_leaves (spec_node (canonical_truth s)) = and_leaves (spec_node s) /\
  expr_height (spec_node (canonical_truth s)) <= H + k.
Proof.
  intros Hl Hk HH Hall. destruct (canonical_balance s) as (n & -> & E). split.
  - transitivity (flat_map and_leaves (balance (length (and_leaves (spec_node s))) (and_leaves (spec_node s)))).
    + rewrite E. simpl. by rewrite app_nil_r.
    + by rewrite balance_leaves, and_leaves_idem.
  - pose proof (balance_height (length (and_leaves (spec_node s))) _ k H Hl Hk HH Hall) as B.
    rewrite E in B. by apply Forall_cons_1 in B as [? _].
Qed.

(** ** The same truth *)
Context (env : ExprEnv).

Definition holds (n : ExprNode) (t : Truth) : Prop := eval_tree env false n = Ok (DValue (VTruth t)).

(** Conjunctions have type truth, as validation requires. *)
Definition truth_typed (n : ExprNode) : Prop :=
  match e_kind n with EBinary OpAnd _ _ => e_ty n = truth_type | _ => True end.

Definition conj (ts : list Truth) : Truth := foldr Truth.and TTrue ts.

Lemma and_true_r t : Truth.and t TTrue = t.
Proof. by destruct t. Qed.

Lemma conj_app a b : conj (a ++ b) = Truth.and (conj a) (conj b).
Proof.
  unfold conj. induction a as [|t a IH]; simpl; [by destruct (foldr Truth.and TTrue b)|].
  by rewrite IH, Truth.and_assoc.
Qed.

Lemma holds_and l r ty t : ty = truth_type ->
  holds (mkExpr (EBinary OpAnd l r) ty) t <-> exists a b, holds l a /\ holds r b /\ t = Truth.and a b.
Proof.
  intros ->. unfold holds. split.
  - intros (x & Hx & (d & (y & Hy & Hd)%rbind_ok & [<- _]%checked_ok)%rbind_ok)%rbind_ok.
    apply rbind_ok in Hd as (a & Ha & (b & Hb & [= <-])%rbind_ok).
    destruct x as [| |[]]; simpl in Ha; try done. destruct y as [| |[]]; simpl in Hb; try done.
    injection Ha as <-. injection Hb as <-. eauto.
  - intros (a & b & Ha & Hb & ->). cbn [eval_tree]. rewrite Ha. cbn [rbind]. rewrite Hb. cbn [rbind].
    by apply checked_ok.
Qed.

(** A conjunction is true, false or unknown as its leaves in Kleene's logic. *)
Lemma holds_leaves n t : Forall truth_typed (subexprs n) ->
  holds n t <-> exists ts, Forall2 holds (and_leaves n) ts /\ t = conj ts.
Proof.
  revert t. induction n as [k ty IH] using expr_ind'. intros t Ht.
  assert (G : holds (mkExpr k ty) t <-> exists ts, Forall2 holds [mkExpr k ty] ts /\ t = conj ts).
  { split.
    - intros H. exists [t]. split; [by repeat constructor|]. unfold conj. simpl. by rewrite and_true_r.
    - intros (ts & (t' & ? & H & ->%Forall2_nil_inv_l & ->)%Forall2_cons_inv_l & ->).
      unfold conj. simpl. by rewrite and_true_r. }
  destruct k; try done. destruct op; try done. clear G.
  rewrite subexprs_eq in Ht. simpl in Ht. rewrite Forall_cons, !Forall_app in Ht. destruct Ht as (Ety & Hl & Hr & _).
  simpl in IH. rewrite !Forall_cons in IH. destruct IH as (Il & Ir & _).
  rewrite holds_and by done. cbn [and_leaves]. split.
  - intros (a & b & (ta & Ha & ->)%Il & (tb & Hb & ->)%Ir & ->); [|done..].
    exists (ta ++ tb). split; [by apply Forall2_app|]. by rewrite conj_app.
  - intros (ts & (ta & tb & Ha & Hb & ->)%Forall2_app_inv_l & ->).
    exists (conj ta), (conj tb). rewrite Il, Ir by done. rewrite conj_app. eauto 10.
Qed.

Lemma pair_up_typed l : Forall (fun n => Forall truth_typed (subexprs n)) l ->
  Forall (fun n => Forall truth_typed (subexprs n)) (pair_up l).
Proof.
  induction l as [l IH] using (induction_ltof1 _ length); unfold ltof in IH.
  destruct l as [|a [|b l]]; [done|done|]. rewrite !Forall_cons. intros (Ha & Hb & Hl). cbn [pair_up].
  constructor; [|apply IH; [simpl; lia|done]].
  rewrite subexprs_eq. simpl. rewrite Forall_cons, !Forall_app. done.
Qed.

Lemma balance_typed fuel l : Forall (fun n => Forall truth_typed (subexprs n)) l ->
  Forall (fun n => Forall truth_typed (subexprs n)) (balance fuel l).
Proof.
  revert l. induction fuel as [|fuel IH]; intros l H; [done|]. destruct l as [|a [|b l]]; [done|done|].
  cbn [balance]. by apply IH, pair_up_typed.
Qed.

Lemma and_leaves_typed n : Forall truth_typed (subexprs n) ->
  Forall (fun n => Forall truth_typed (subexprs n)) (and_leaves n).
Proof.
  induction n as [k ty IH] using expr_ind'. intros Ht.
  assert (G : Forall (fun n => Forall truth_typed (subexprs n)) [mkExpr k ty]) by (by constructor).
  destruct k; try done. destruct op; try done. clear G.
  rewrite subexprs_eq in Ht. simpl in Ht. rewrite Forall_cons, !Forall_app in Ht. destruct Ht as (_ & Hl & Hr & _).
  simpl in IH. rewrite !Forall_cons in IH. destruct IH as (Il & Ir & _). simpl. apply Forall_app. auto.
Qed.

Lemma rule_truth_typed n : node_rule n -> truth_typed n.
Proof.
  destruct n as [k ty]. unfold truth_typed. destruct k; try done. destruct op; try done. simpl.
  by intros [_ [_ H%require_truth_ok]%check_then]%check_then.
Qed.

(** Rebalancing a validated condition does not change the rows it keeps:
    it evaluates to a truth value exactly when the authored conjunction does. *)
Theorem canonical_truth_equivalent s t :
  Forall node_rule (subexprs (spec_node s)) ->
  (holds (spec_node (canonical_truth s)) t <-> holds (spec_node s) t).
Proof.
  intros Hr. assert (Ht : Forall truth_typed (subexprs (spec_node s)))
    by (eapply Forall_impl; [exact Hr|]; apply rule_truth_typed).
  destruct (canonical_balance s) as (n & -> & E).
  assert (Hn : Forall truth_typed (subexprs n)).
  { pose proof (balance_typed (length (and_leaves (spec_node s))) _ (and_leaves_typed _ Ht)) as B.
    rewrite E in B. by apply Forall_cons_1 in B as [? _]. }
  rewrite (holds_leaves n), (holds_leaves (spec_node s)) by done.
  assert (El : and_leaves n = and_leaves (spec_node s)).
  { transitivity (flat_map and_leaves [n]); [simpl; by rewrite app_nil_r|].
    by rewrite <- E, balance_leaves, and_leaves_idem. }
  by rewrite El.
Qed.
End Balanced.

Definition sample_conjunction : ExpressionSpec (F:=sample_foreign) (Q:=no_subqueries) :=
  mkExpressionSpec (and_node (and_node (and_node sample_field sample_field) sample_field) sample_field) truth_type.

Lemma canonical_truth_balanced_witness :
  expr_height (spec_node (canonical_truth sample_conjunction)) <= 2.
Proof.
  apply (canonical_truth_balanced sample_conjunction 2 0); [reflexivity || (vm_compute; discriminate)|lia|lia|].
  repeat constructor; simpl; lia.
Defined.

Lemma canonical_truth_equivalent_witness :
  holds sample_env (spec_node (canonical_truth sample_conjunction)) TTrue.
Proof.
  apply (canonical_truth_equivalent sample_env sample_conjunction TTrue); [|reflexivity].
  repeat constructor.
Defined.
