(* ===== verification/ExprPrepare.v ===== *)
(** * Prepared expressions ([crates/dol-core/src/expr/prepare.rs], [eval.rs])

    Binding of an expression to models, compilation to a flat node array, and
    the normative evaluator of the array, proved equal to the reference
    evaluator on trees. *)
From Stdlib Require Import ZArith Lia.
From S2P Require Import Prelude Floats Foreign Truth BTree Text Types Values Fingerprint Model Expr Semantic ExprValidate ExprNormalize Row.

Local Open Scope Z_scope.

Section Prepare.
Context {F : Foreign} {Q : Subqueries}.

(** ** Identifiers: u32 indices *)
Definition expr_id (index : nat) : Result nat := guard (Z.of_nat index <=? u32_max) "EXPR-LIMIT-003" ;;? Ok index.
Definition scope_id (index : nat) : Result nat := guard (Z.of_nat index <=? u32_max) "EXPR-SCOPE-004" ;;? Ok index.

(** ** Binding contexts *)
Record BindContext := mkBindContext {
  bc_models : list ModelDef;
  bc_aliases : list (option string);
  bc_nullable : list bool
}.

Definition bind_new : BindContext := mkBindContext [] [] [].
Definition bind_push (c : BindContext) (alias : option string) (nullable : bool) (m : ModelDef) : BindContext :=
  mkBindContext (bc_models c ++ [m]) (bc_aliases c ++ [alias]) (bc_nullable c ++ [nullable]).
Definition bind_single (m : ModelDef) : BindContext := mkBindContext [m] [None] [false].
Definition with_model (c : BindContext) (m : ModelDef) := bind_push c None false m.
Definition with_nullable_model (c : BindContext) (m : ModelDef) := bind_push c None true m.
Definition with_alias (c : BindContext) (alias : string) (m : ModelDef) := bind_push c (Some alias) false m.
Definition with_nullable_alias (c : BindContext) (alias : string) (m : ModelDef) := bind_push c (Some alias) true m.

Definition scope_matches (c : BindContext) (f : FieldRef) (index : nat) (m : ModelDef) : bool :=
  String.eqb (md_key m) (f_model f) &&
  match f_scope f with
  | None => true
  | Some required => match bc_aliases c !! index with
                     | Some (Some alias) => String.eqb alias required
                     | _ => false
                     end
  end.

Definition resolve_step (c : BindContext) (f : FieldRef) (found : option (nat * ModelDef * bool))
  (entry : nat * ModelDef) : Result (option (nat * ModelDef * bool)) :=
  let '(index, m) := entry in
  if negb (scope_matches c f index m) then Ok found
  else
    guard (match found with Some _ => false | None => true end) "EXPR-SCOPE-002" ;;?
    let? scope := scope_id index in
    Ok (Some (scope, m, default false (bc_nullable c !! index))).

Definition resolve_field (c : BindContext) (f : FieldRef) : Result (nat * ModelDef * bool) :=
  let? found := foldR (resolve_step c f) (imap (fun i m => (i, m)) (bc_models c)) None in
  ok_or found (match f_scope f with Some _ => "EXPR-SCOPE-005" | None => "EXPR-SCOPE-001" end).

(** ** Flat nodes *)
Inductive PreparedKind :=
| PField (scope slot : nat) (allow_null_extension : bool)
| PLiteral (d : Datum)
| PParameter (name : string)
| PUnary (op : UnaryOp) (input : nat)
| PBinary (op : BinaryOp) (l r : nat)
| PMembership (input : nat) (candidates : list nat) (negate : bool)
| PConditional (condition when_true when_false : nat)
| PCall (f : FunctionRef) (arguments : list nat)
| PExists (subquery : nat) (fingerprint : Fingerprint).

Record PreparedNode := mkPreparedNode { pn_kind : PreparedKind; pn_ty : TypeDef }.

Record PreparedExpression := mkPreparedExpression {
  pe_nodes : list PreparedNode;
  pe_root : nat;
  pe_ty : TypeDef;
  pe_expression_fingerprint : Fingerprint;
  pe_bound_fingerprint : Fingerprint;
  pe_scopes : list string;
  pe_outer_scope_count : nat
}.

(** ** Compilation.  [resolve_existential] is the pipeline compiler's callback;
    [St] is the state it changes. *)
Context {St : Type} (resolve_existential : Subquery -> St -> Result ((nat * Fingerprint) * St)).
Context (context : BindContext).

Notation cstate := (list PreparedNode * St)%type.

Definition compile_field (f : FieldRef) (ty : TypeDef) (allow_nullable_field : bool) : Result PreparedKind :=
  let? found := resolve_field context f in
  let '(scope, model, nullable_scope) := found in
  let? definition := ok_or (model_field model (f_key f)) "EXPR-SCOPE-003" in
  guard (type_eqb (fd_ty definition) ty) "EXPR-TYPE-002" ;;?
  guard (negb (nullable_scope && negb (is_nullable (fd_ty definition)) && negb allow_nullable_field)) "EXPR-SCOPE-006" ;;?
  Ok (PField scope (fd_slot definition)
    (nullable_scope && negb (is_nullable (fd_ty definition)) && allow_nullable_field)).

Definition emit (kind : PreparedKind) (ty : TypeDef) (s : cstate) : Result (nat * cstate) :=
  let? id := expr_id (length (fst s)) in
  Ok (id, (fst s ++ [mkPreparedNode kind ty], snd s)).

Definition lifts (op : UnaryOp) : bool := match op with NullableLift => true | _ => false end.

Fixpoint compile_node_mode (n : ExprNode) (allow : bool) (s : cstate) : Result (nat * cstate) :=
  let '(mkExpr kind ty) := n in
  let? r :=
    match kind with
    | EField f => let? k := compile_field f ty allow in Ok (k, s)
    | ELiteral d => Ok (PLiteral d, s)
    | EParameter name => Ok (PParameter name, s)
    | EUnary op a => let? r := compile_node_mode a (lifts op) s in Ok (PUnary op (fst r), snd r)
    | EBinary op a b =>
        let? ra := compile_node_mode a false s in
        let? rb := compile_node_mode b false (snd ra) in
        Ok (PBinary op (fst ra) (fst rb), snd rb)
    | EMembership a l negate =>
        let? ra := compile_node_mode a false s in
        let? rl := mapS (fun c => compile_node_mode c false) l (snd ra) in
        Ok (PMembership (fst ra) (fst rl) negate, snd rl)
    | EConditional c a b =>
        let? rc := compile_node_mode c false s in
        let? ra := compile_node_mode a false (snd rc) in
        let? rb := compile_node_mode b false (snd ra) in
        Ok (PConditional (fst rc) (fst ra) (fst rb), snd rb)
    | ECall f l =>
        let? rl := mapS (fun c => compile_node_mode c false) l s in
        Ok (PCall f (fst rl), snd rl)
    | EExists q =>
        let? r := resolve_existential q (snd s) in
        Ok (PExists (fst (fst r)) (snd (fst r)), (fst s, snd r))
    end in
  emit (fst r) ty (snd r).

Definition compile_node (n : ExprNode) (s : cstate) := compile_node_mode n false s.

Definition bound_field (n : PreparedNode) : list Z :=
  match pn_kind n with
  | PField scope _ allow => h_u64 (Z.of_nat scope) ++ h_u8 (if allow then 1 else 0)
  | _ => []
  end.
Definition bound_exists (n : PreparedNode) : list Z :=
  match pn_kind n with PExists _ fp => h_bytes fp | _ => [] end.
Definition is_field_node (n : PreparedNode) : bool := match pn_kind n with PField _ _ _ => true | _ => false end.
Definition is_exists_node (n : PreparedNode) : bool := match pn_kind n with PExists _ _ => true | _ => false end.

Definition fingerprint_bound_expression (expression : Fingerprint) (nodes : list PreparedNode)
  (outer_scope_count : nat) : Fingerprint :=
  finish (hasher_new "expression/binding/v3" ++ h_bytes expression ++ h_u64 (Z.of_nat outer_scope_count) ++
    h_u64 (zlen (List.filter is_field_node nodes)) ++ flat_map bound_field nodes ++
    h_u64 (zlen (List.filter is_exists_node nodes)) ++ flat_map bound_exists nodes).

Definition prepare_expression_with_existentials (spec : ExpressionSpec) (limits : ExpressionLimits)
  (outer_scope_count : nat) (st : St) : Result (PreparedExpression * St) :=
  guard (Nat.leb outer_scope_count (length (bc_models context))) "EXPR-SCOPE-007" ;;?
  let? _ := check_expression_limits (spec_node spec) limits in
  validate_expression_node (spec_node spec) limits ;;?
  let? normalized := normalize_node (spec_node spec) in
  validate_expression_node normalized limits ;;?
  guard (type_eqb (e_ty normalized) (spec_ty spec)) "EXPR-TYPE-001" ;;?
  let? fingerprint := fingerprint_node normalized in
  let? r := compile_node normalized ([], st) in
  let prepared := fst (snd r) in
  Ok (mkPreparedExpression prepared (fst r) (e_ty normalized) fingerprint
        (fingerprint_bound_expression fingerprint prepared outer_scope_count)
        (map md_key (bc_models context)) outer_scope_count, snd (snd r)).
End Prepare.

(** ** Parameters and evaluation contexts *)
Section Eval.
Context {F : Foreign} {Q : Subqueries}.

Record BoundParameter := mkBoundParameter { bp_ty : TypeDef; bp_datum : Datum }.
Definition Parameters := list (string * BoundParameter).

Definition parameters_new : Parameters := [].
Definition parameters_insert (ps : Parameters) (name : string) (ty : TypeDef) (datum : Datum) : Parameters :=
  bt_insert name (mkBoundParameter ty datum) ps.
Definition parameters_get (ps : Parameters) (name : string) : option BoundParameter := bt_get name ps.

Record EvalContext := mkEvalContext {
  ec_records : list RecordView;
  ec_null_extended : list bool;
  ec_parameters : Parameters
}.

Definition eval_context_new : EvalContext := mkEvalContext [] [] parameters_new.
Definition eval_context_single (r : RecordView) : EvalContext := mkEvalContext [r] [false] parameters_new.
Definition with_record (c : EvalContext) (r : RecordView) : EvalContext :=
  mkEvalContext (ec_records c ++ [r]) (ec_null_extended c ++ [false]) (ec_parameters c).
Definition with_null_extended_record (c : EvalContext) (r : RecordView) : EvalContext :=
  mkEvalContext (ec_records c ++ [r]) (ec_null_extended c ++ [true]) (ec_parameters c).
Definition with_parameters (c : EvalContext) (ps : Parameters) : EvalContext :=
  mkEvalContext (ec_records c) (ec_null_extended c) ps.
Definition with_parameter (c : EvalContext) (name : string) (ty : TypeDef) (datum : Datum) : EvalContext :=
  with_parameters c (parameters_insert (ec_parameters c) name ty datum).

(** ** Evaluation ([eval.rs]) *)
Context (resolve_exists : nat -> Result Truth) (nodes : list PreparedNode) (context : EvalContext).

Definition read_field (scope slot : nat) : Result Datum :=
  let? record := ok_or (ec_records context !! scope) "EXPR-EVAL-101" in
  let? datum := rv_field record slot in
  ok_or datum "EXPR-EVAL-102".

Definition read_parameter (name : string) (ty : TypeDef) : Result Datum :=
  let? p := ok_or (parameters_get (ec_parameters context) name) "EXPR-EVAL-103" in
  guard (type_eqb (bp_ty p) ty) "EXPR-EVAL-111" ;;? Ok (bp_datum p).

Definition null_extended_field (kind : PreparedKind) (value : Datum) : bool :=
  match kind, value with
  | PField scope _ true, Null => default false (ec_null_extended context !! scope)
  | _, _ => false
  end.

(** One node, over the evaluator of its children. *)
Definition evaluate_kind (eval : nat -> Result Datum) (kind : PreparedKind) (ty : TypeDef) : Result Datum :=
  match kind with
  | PField scope slot _ => read_field scope slot
  | PLiteral d => Ok d
  | PParameter name => read_parameter name ty
  | PUnary op input => let? a := eval input in eval_unary op a ty
  | PBinary op l r =>
      let? a := eval l in
      if bool_decide (op = Coalesce) && negb (is_absent a) then Ok a
      else let? b := eval r in eval_binary op a b
  | PMembership input candidates negate =>
      let? a := eval input in
      let? l := mapR eval candidates in
      eval_membership a l negate
  | PConditional c t f =>
      let? a := eval c in
      match a with
      | DValue (VTruth TTrue) => eval t
      | DValue (VTruth _) => eval f
      | other => eval_conditional other Missing Missing
      end
  | PCall f arguments => let? l := mapR eval arguments in function_evaluate f l ty
  | PExists subquery _ => let? t := resolve_exists subquery in Ok (DValue (VTruth t))
  end.

Definition checked_kind (kind : PreparedKind) (ty : TypeDef) (value : Datum) : Result Datum :=
  if null_extended_field kind value then Ok value else checked_datum ty value.

(** Children have smaller identifiers, so an identifier bounds the recursion. *)
Fixpoint evaluate_node (fuel id : nat) : Result Datum :=
  match fuel with
  | O => error "EXPR-EVAL-107"
  | S fuel' =>
      let? node := ok_or (nodes !! id) "EXPR-EVAL-107" in
      let? value := evaluate_kind (evaluate_node fuel') (pn_kind node) (pn_ty node) in
      checked_kind (pn_kind node) (pn_ty node) value
  end.
End Eval.

Section Evaluate.
Context {F : Foreign} {Q : Subqueries}.

Definition validate_evaluation_scopes (p : PreparedExpression) (c : EvalContext) : Result unit :=
  guard (Nat.eqb (length (ec_records c)) (length (pe_scopes p)) &&
         Nat.eqb (length (ec_null_extended c)) (length (ec_records c))) "EXPR-EVAL-109" ;;?
  forR (fun entry =>
    let '(index, expected) := entry in
    let? record := ok_or (ec_records c !! index) "EXPR-EVAL-109" in
    let? actual := rv_model record in
    guard (String.eqb (md_key actual) expected) "EXPR-EVAL-109") (imap (fun i k => (i, k)) (pe_scopes p)).

Definition evaluate_datum_with_exists (resolve_exists : nat -> Result Truth) (p : PreparedExpression)
  (c : EvalContext) : Result Datum :=
  validate_evaluation_scopes p c ;;?
  evaluate_node resolve_exists (pe_nodes p) c (S (length (pe_nodes p))) (pe_root p).

Definition evaluate_datum (p : PreparedExpression) (c : EvalContext) : Result Datum :=
  evaluate_datum_with_exists (fun _ => error "EXPR-EVAL-112") p c.

Definition evaluate_truth (p : PreparedExpression) (c : EvalContext) : Result Truth :=
  let? d := evaluate_datum p c in
  match d with DValue (VTruth t) => Ok t | _ => error "EXPR-EVAL-108" end.

Definition reject_existential (_ : Subquery) (st : unit) : Result ((nat * Fingerprint) * unit) := error "EXPR-EXISTS-001".

Definition prepare_expression (spec : ExpressionSpec) (context : BindContext) (limits : ExpressionLimits)
  : Result PreparedExpression :=
  rmap fst (prepare_expression_with_existentials reject_existential context spec limits 0 tt).

(** [Expr::evaluate_datum]: prepare for the record's own model and evaluate. *)
Definition expr_evaluate_datum (spec : ExpressionSpec) (record : RecordView) : Result Datum :=
  let? model := rv_model record in
  let? prepared := prepare_expression spec (bind_single model) default_expression_limits in
  evaluate_datum prepared (eval_context_single record).
End Evaluate.

(** ** Compilation is correct *)
Section Correct.
Context {F : Foreign} {Q : Subqueries}.
Context {St : Type} (resolve_existential : Subquery -> St -> Result ((nat * Fingerprint) * St)).
Context (bc : BindContext) (resolve_exists : nat -> Result Truth) (ec : EvalContext).
Context (subquery_truth : Subquery -> Result Truth).

(** The environment that a binding and an evaluation context present to an
    expression. *)
Definition bound_env : ExprEnv :=
  mkExprEnv
    (fun lift f ty => let? k := compile_field bc f ty lift in
                      let? v := evaluate_kind resolve_exists ec (fun _ => error "EXPR-EVAL-107") k ty in
                      checked_kind ec k ty v)
    (read_parameter ec) subquery_truth.

(** The plan a subquery was given answers like the subquery. *)
Definition subqueries_resolved : Prop := forall q st id fp st',
  resolve_existential q st = Ok ((id, fp), st') -> resolve_exists id = subquery_truth q.

Lemma compile_field_kind f ty lift k : compile_field bc f ty lift = Ok k -> exists scope slot ext, k = PField scope slot ext.
Proof.
  intros (((scope & model) & nullable) & _ & (d & _ & [_ [_ [= <-]]%check_then]%check_then)%rbind_ok)%rbind_ok. eauto.
Qed.

Lemma compile_field_lift f ty k : compile_field bc f ty false = Ok k -> compile_field bc f ty true = Ok k.
Proof.
  intros (((scope & model) & nullable) & Hr & (d & Hd & [Ht [Hn%guard_ok [= <-]]%check_then]%check_then)%rbind_ok)%rbind_ok.
  unfold compile_field. rewrite Hr. simpl. rewrite Hd. simpl. rewrite Ht. simpl.
  destruct nullable, (is_nullable (fd_ty d)); done.
Qed.

Lemma bound_env_mono : env_mono bound_env.
Proof.
  intros f ty d (k & Hk & H)%rbind_ok. apply rbind_ok. exists k. split; [by apply compile_field_lift|done].
Qed.

(** Identifier [id] evaluates like [n], with more fuel than [id]. *)
Definition evaluates (nodes : list PreparedNode) (id : nat) (lift : bool) (n : ExprNode) : Prop :=
  forall tail fuel, (id < fuel)%nat ->
    evaluate_node resolve_exists (nodes ++ tail) ec fuel id = eval_tree bound_env lift n.

Lemma evaluates_more nodes more id lift n : evaluates nodes id lift n -> evaluates (nodes ++ more) id lift n.
Proof. intros H tail fuel Hf. rewrite <- app_assoc. by apply H. Qed.

Definition extends (l l' : list PreparedNode) : Prop := exists more, l' = l ++ more.

Lemma extends_trans a b c : extends a b -> extends b c -> extends a c.
Proof. intros [x ->] [y ->]. exists (x ++ y). by rewrite app_assoc. Qed.

Lemma extends_evaluates l l' id lift n : extends l l' -> evaluates l id lift n -> evaluates l' id lift n.
Proof. intros [x ->]. apply evaluates_more. Qed.

Lemma extends_length l l' : extends l l' -> (length l <= length l')%nat.
Proof. intros [x ->]. rewrite length_app. lia. Qed.

Definition compiled (n : ExprNode) : Prop := forall lift s r,
  compile_node_mode resolve_existential bc n lift s = Ok r ->
  extends (fst s) (fst (snd r)) /\ S (fst r) = length (fst (snd r)) /\
  evaluates (fst (snd r)) (fst r) lift n.

(** A pushed node evaluates by its kind over the earlier nodes. *)
Lemma emit_evaluates kind ty (s : list PreparedNode * St) r lift n :
  emit kind ty s = Ok r ->
  (forall tail fuel, (length (fst s) <= fuel)%nat ->
    (let? v := evaluate_kind resolve_exists ec (evaluate_node resolve_exists (fst s ++ tail) ec fuel) kind ty in
     checked_kind ec kind ty v) = eval_tree bound_env lift n) ->
  extends (fst s) (fst (snd r)) /\ S (fst r) = length (fst (snd r)) /\ evaluates (fst (snd r)) (fst r) lift n.
Proof.
  intros (id & [_ [= <-]]%check_then & [= <-])%rbind_ok H. simpl. split_and!.
  - by exists [mkPreparedNode kind ty].
  - rewrite length_app. simpl. lia.
  - intros tail [|fuel] Hf; [lia|]. simpl. rewrite <- app_assoc. cbn [app].
    rewrite list_lookup_middle by done. simpl.
    apply (H (mkPreparedNode kind ty :: tail) fuel). lia.
Qed.

Lemma compiled_children l s r :
  Forall compiled l -> mapS (fun c => compile_node_mode resolve_existential bc c false) l s = Ok r ->
  extends (fst s) (fst (snd r)) /\
  Forall2 (fun id c => (id < length (fst (snd r)))%nat /\ evaluates (fst (snd r)) id false c) (fst r) l.
Proof.
  intros H. revert s r. induction H as [|c l Hc _ IH]; intros s r.
  { intros [= <-]. split; [by exists []; rewrite app_nil_r|constructor]. }
  intros (rc & H1 & (rl & H2 & [= <-])%rbind_ok)%rbind_ok. simpl.
  destruct (Hc _ _ _ H1) as (E1 & L1 & V1). destruct (IH _ _ H2) as [E2 V2].
  split; [by eapply extends_trans|]. constructor; [|done].
  split; [|by eapply extends_evaluates]. apply extends_length in E2. lia.
Qed.

Lemma mapR_evaluates nodes ids l tail fuel :
  (length nodes <= fuel)%nat ->
  Forall2 (fun id c => (id < length nodes)%nat /\ evaluates nodes id false c) ids l ->
  mapR (evaluate_node resolve_exists (nodes ++ tail) ec fuel) ids = mapR (eval_tree bound_env false) l.
Proof.
  intros Hf. induction 1 as [|id c ids l [Hi He] _ IH]; simpl; [done|]. by rewrite He, IH by lia.
Qed.

Context (resolved : subqueries_resolved).

Lemma compiled_unary op a ty : compiled a -> compiled (mkExpr (EUnary op a) ty).
Proof.
  intros Ca lift s r (k & (ra & Ha & [= <-])%rbind_ok & He)%rbind_ok. simpl in He.
  destruct (Ca _ _ _ Ha) as (E1 & L1 & V1).
  assert (G := emit_evaluates _ _ _ _ lift (mkExpr (EUnary op a) ty) He). destruct G as (E2 & L2 & V2).
  - intros tail fuel Hf. simpl. rewrite V1 by lia. fold (lifts op). 
    by destruct (eval_tree bound_env (lifts op) a).
  - split_and!; [by eapply extends_trans|done..].
Qed.

Lemma compiled_binary op a b ty : compiled a -> compiled b -> compiled (mkExpr (EBinary op a b) ty).
Proof.
  intros Ca Cb lift s r (k & (ra & Ha & (rb & Hb & [= <-])%rbind_ok)%rbind_ok & He)%rbind_ok. simpl in He.
  destruct (Ca _ _ _ Ha) as (E1 & L1 & V1). destruct (Cb _ _ _ Hb) as (E2 & L2 & V2).
  pose proof (extends_evaluates _ _ _ _ _ E2 V1) as V1'. apply extends_length in E2 as Hl.
  assert (G := emit_evaluates _ _ _ _ lift (mkExpr (EBinary op a b) ty) He). destruct G as (E3 & L3 & V3).
  - intros tail fuel Hf. simpl. rewrite V1' by lia. destruct (eval_tree bound_env false a) as [v|]; simpl; [|done].
    rewrite V2 by lia. destruct op; simpl; try (by destruct (eval_tree bound_env false b)).
    by destruct v; simpl; destruct (eval_tree bound_env false b).
  - split_and!; [eapply extends_trans; [done|by eapply extends_trans]|done..].
Qed.

Lemma compiled_membership a l negate ty : compiled a -> Forall compiled l -> compiled (mkExpr (EMembership a l negate) ty).
Proof.
  intros Ca Cl lift s r (k & (ra & Ha & (rl & Hl & [= <-])%rbind_ok)%rbind_ok & He)%rbind_ok. simpl in He.
  destruct (Ca _ _ _ Ha) as (E1 & L1 & V1). destruct (compiled_children _ _ _ Cl Hl) as [E2 V2].
  pose proof (extends_evaluates _ _ _ _ _ E2 V1) as V1'. apply extends_length in E2 as Hlen.
  assert (G := emit_evaluates _ _ _ _ lift (mkExpr (EMembership a l negate) ty) He). destruct G as (E3 & L3 & V3).
  - intros tail fuel Hf. simpl. rewrite V1' by lia. destruct (eval_tree bound_env false a) as [v|]; simpl; [|done].
    rewrite (mapR_evaluates _ _ _ tail fuel Hf V2). by destruct (mapR (eval_tree bound_env false) l).
  - split_and!; [eapply extends_trans; [done|by eapply extends_trans]|done..].
Qed.

Lemma compiled_conditional c a b ty :
  compiled c -> compiled a -> compiled b -> compiled (mkExpr (EConditional c a b) ty).
Proof.
  intros Cc Ca Cb lift s r
    (k & (rc & Hc & (ra & Ha & (rb & Hb & [= <-])%rbind_ok)%rbind_ok)%rbind_ok & He)%rbind_ok. simpl in He.
  destruct (Cc _ _ _ Hc) as (E0 & L0 & V0).
  destruct (Ca _ _ _ Ha) as (E1 & L1 & V1). destruct (Cb _ _ _ Hb) as (E2 & L2 & V2).
  pose proof (extends_evaluates _ _ _ _ _ E2 V1) as V1'.
  pose proof (extends_evaluates _ _ _ _ _ (extends_trans _ _ _ E1 E2) V0) as V0'.
  apply extends_length in E2 as Hl2. apply extends_length in E1 as Hl1.
  assert (G := emit_evaluates _ _ _ _ lift (mkExpr (EConditional c a b) ty) He). destruct G as (E3 & L3 & V3).
  - intros tail fuel Hf. simpl. rewrite V0' by lia. destruct (eval_tree bound_env false c) as [v|]; simpl; [|done].
    rewrite V1', V2 by lia. done.
  - split_and!; [eapply extends_trans; [done|eapply extends_trans; [done|by eapply extends_trans]]|done..].
Qed.

Lemma compiled_call f l ty : Forall compiled l -> compiled (mkExpr (ECall f l) ty).
Proof.
  intros Cl lift s r (k & (rl & Hl & [= <-])%rbind_ok & He)%rbind_ok. simpl in He.
  destruct (compiled_children _ _ _ Cl Hl) as [E2 V2].
  assert (G := emit_evaluates _ _ _ _ lift (mkExpr (ECall f l) ty) He). destruct G as (E3 & L3 & V3).
  - intros tail fuel Hf. simpl. rewrite (mapR_evaluates _ _ _ tail fuel Hf V2).
    by destruct (mapR (eval_tree bound_env false) l).
  - split_and!; [by eapply extends_trans|done..].
Qed.

Lemma compile_correct n : compiled n.
Proof.
  induction n as [k ty IH] using expr_ind'. destruct k; simpl in IH; rewrite ?Forall_cons in IH.
  - intros lift s r (k & (k' & Hk & [= <-])%rbind_ok & He)%rbind_ok.
    apply (emit_evaluates _ _ _ _ lift (mkExpr (EField f) ty) He). intros tail fuel _. simpl. rewrite Hk. simpl.
    apply compile_field_kind in Hk as (scope & slot & ext & ->). done.
  - intros lift s r He. by apply (emit_evaluates (PLiteral d) ty s r lift (mkExpr (ELiteral d) ty) He).
  - intros lift s r He. by apply (emit_evaluates (PParameter name) ty s r lift (mkExpr (EParameter name) ty) He).
  - apply compiled_unary; tauto.
  - apply compiled_binary; tauto.
  - apply compiled_membership; tauto.
  - apply compiled_conditional; tauto.
  - by apply compiled_call.
  - intros lift s r (k & (rq & Hq & [= <-])%rbind_ok & He)%rbind_ok. destruct rq as [[id fp] st'].
    apply (emit_evaluates _ _ _ _ lift (mkExpr (EExists subquery) ty) He). intros tail fuel _. simpl.
    rewrite (resolved _ _ _ _ _ Hq). by destruct (subquery_truth subquery).
Qed.
End Correct.

(** ** Field resolution *)
Section Resolve.
Context {F : Foreign}.

(** The sources a field reference can mean: those of its model and, when it
    names an alias, with that alias. *)
Definition matching_scopes (c : BindContext) (f : FieldRef) : list (nat * ModelDef) :=
  List.filter (fun e => scope_matches c f (fst e) (snd e)) (imap (fun i m => (i, m)) (bc_models c)).

Lemma resolve_steps c f l q :
  foldR (resolve_step c f) l (Some q) =
  match List.filter (fun e => scope_matches c f (fst e) (snd e)) l with
  | [] => Ok (Some q)
  | _ => error "EXPR-SCOPE-002"
  end.
Proof.
  induction l as [|[i m] l IH]; cbn [foldR List.filter fst snd]; [done|].
  unfold resolve_step at 1. destruct (scope_matches c f i m); cbn [negb rbind guard]; done.
Qed.

(** A field reference binds to the only source it can mean; no source and
    several sources are distinct errors, never a silent choice. *)
Theorem resolve_field_exact c f :
  resolve_field c f =
  match matching_scopes c f with
  | [] => error (match f_scope f with Some _ => "EXPR-SCOPE-005" | None => "EXPR-SCOPE-001" end)
  | [(i, m)] => let? scope := scope_id i in Ok (scope, m, default false (bc_nullable c !! i))
  | (i, _) :: _ :: _ => let? _ := scope_id i in error "EXPR-SCOPE-002"
  end.
Proof.
  unfold resolve_field, matching_scopes. generalize (imap (fun i m => (i, m)) (bc_models c)) as l.
  induction l as [|[i m] l IH]; cbn [foldR List.filter fst snd]; [done|].
  unfold resolve_step at 1. destruct (scope_matches c f i m) eqn:E; cbn [negb]; [|exact IH].
  cbn [guard rbind]. destruct (scope_id i) as [s|] eqn:Es; cbn [rbind].
  - rewrite resolve_steps. by destruct (List.filter _ l).
  - by destruct (List.filter _ l).
Qed.
End Resolve.

(** ** Claims *)
Section PrepareClaims.
Context {F : Foreign} {Q : Subqueries}.

Lemma compile_field_unlifted bc f ty k : compile_field bc f ty false = Ok k -> exists scope slot, k = PField scope slot false.
Proof.
  intros (((scope & model) & nullable) & _ & (d & _ & [_ [_ [= <-]]%check_then]%check_then)%rbind_ok)%rbind_ok.
  exists scope, (fd_slot d). by rewrite andb_false_r.
Qed.

(** Every checked node yields a datum of its type; an unlifted field is
    never exempted. *)
Lemma eval_tree_typed bc resolve_exists ec truth_of n d :
  eval_tree (bound_env bc resolve_exists ec truth_of) false n = Ok d -> validate_datum (e_ty n) Optional d = Ok tt.
Proof.
  destruct n as [k ty]. cbn [e_ty].
  destruct k; cbn [eval_tree bound_env env_field env_parameter env_exists]; intros H;
    repeat match type of H with rbind _ _ = Ok _ => let E := fresh "E" in apply rbind_ok in H as (? & E & H) end;
    try (by apply checked_ok in H as [-> ?]).
  apply compile_field_unlifted in E as (scope & slot & ->). by apply checked_ok in H as [-> ?].
Qed.

Lemma prepare_ok {St : Type} (resolve_existential : Subquery -> St -> Result ((nat * Fingerprint) * St))
  bc spec limits outer st p st' :
  prepare_expression_with_existentials resolve_existential bc spec limits outer st = Ok (p, st') ->
  exists n', validate_expression_node (spec_node spec) limits = Ok tt /\ normalize_node (spec_node spec) = Ok n' /\
    e_ty n' = spec_ty spec /\ pe_ty p = spec_ty spec /\
    compile_node resolve_existential bc n' ([], st) = Ok (pe_root p, (pe_nodes p, st')).
Proof.
  unfold prepare_expression_with_existentials.
  intros [_ (size & _ & [Hv (n' & Hn & H)%rbind_ok]%check_then)%rbind_ok]%check_then.
  apply check_then in H as [_ H]. apply check_then in H as [Ht%guard_ok%type_eqb_eq H].
  apply rbind_ok in H as (fp & _ & (r & Hc & [= <- <-])%rbind_ok). exists n'. simpl.
  split_and!; [done..|]. by destruct r as [id [nodes s]].
Qed.

Lemma prepared_evaluates {St : Type} (resolve_existential : Subquery -> St -> Result ((nat * Fingerprint) * St))
  bc spec limits outer st p st' resolve_exists truth_of ec :
  prepare_expression_with_existentials resolve_existential bc spec limits outer st = Ok (p, st') ->
  subqueries_resolved resolve_existential resolve_exists truth_of ->
  exists n', normalize_node (spec_node spec) = Ok n' /\ e_ty n' = spec_ty spec /\
    evaluate_datum_with_exists resolve_exists p ec =
      (validate_evaluation_scopes p ec ;;? eval_tree (bound_env bc resolve_exists ec truth_of) false n').
Proof.
  intros (n' & _ & Hn & Ht & _ & Hc)%prepare_ok Hs. exists n'. split_and!; [done..|].
  unfold evaluate_datum_with_exists. destruct (validate_evaluation_scopes p ec); simpl; [|done].
  destruct (compile_correct _ bc resolve_exists ec truth_of Hs n' false _ _ Hc) as (_ & Hl & He). simpl in *.
  rewrite <- (He []) with (fuel := S (length (pe_nodes p))) by lia. by rewrite app_nil_r.
Qed.

(** A prepared expression evaluates exactly like the normal form of the
    expression it was prepared from, whatever the records and parameters: the
    flat array is never indexed out of bounds and the recursion ends. *)
Theorem prepared_evaluation {St : Type} (resolve_existential : Subquery -> St -> Result ((nat * Fingerprint) * St))
  bc spec limits outer st p st' resolve_exists truth_of ec :
  prepare_expression_with_existentials resolve_existential bc spec limits outer st = Ok (p, st') ->
  subqueries_resolved resolve_existential resolve_exists truth_of ->
  exists n', normalize_node (spec_node spec) = Ok n' /\
    evaluate_datum_with_exists resolve_exists p ec =
      (validate_evaluation_scopes p ec ;;? eval_tree (bound_env bc resolve_exists ec truth_of) false n').
Proof. intros Hp Hs. destruct (prepared_evaluates _ _ _ _ _ _ _ _ _ _ ec Hp Hs) as (n' & ? & _ & ?). eauto. Qed.

(** C2: preparation preserves meaning and types: whatever the authored
    expression evaluates to, its prepared form evaluates to, and every datum a
    prepared expression yields is valid for the declared result type. *)
Theorem preparation_sound {St : Type} (resolve_existential : Subquery -> St -> Result ((nat * Fingerprint) * St))
  bc spec limits outer st p st' resolve_exists truth_of ec :
  prepare_expression_with_existentials resolve_existential bc spec limits outer st = Ok (p, st') ->
  subqueries_resolved resolve_existential resolve_exists truth_of ->
  (forall d, validate_evaluation_scopes p ec = Ok tt ->
     eval_tree (bound_env bc resolve_exists ec truth_of) false (spec_node spec) = Ok d ->
     evaluate_datum_with_exists resolve_exists p ec = Ok d) /\
  (forall d, evaluate_datum_with_exists resolve_exists p ec = Ok d ->
     validate_datum (spec_ty spec) Optional d = Ok tt).
Proof.
  intros Hp Hs. destruct (prepared_evaluates _ _ _ _ _ _ _ _ _ _ ec Hp Hs) as (n' & Hn & Ht & ->). split.
  - intros d -> He. simpl. eapply normalize_preserved; [apply bound_env_mono|done..].
  - intros d [_ He]%check_then. rewrite <- Ht. by eapply eval_tree_typed.
Qed.
End PrepareClaims.

(** ** A concrete preparation: [email is null] on the sample model *)
Definition sample_spec : ExpressionSpec (F:=sample_foreign) (Q:=no_subqueries) :=
  mkExpressionSpec
    (mkExpr (EUnary IsNull (mkExpr (EField (mkFieldRef "user" "email" "mail" None)) (nullable string_type))) truth_type)
    truth_type.

Definition sample_prepared : PreparedExpression (F:=sample_foreign) :=
  match prepare_expression sample_spec (bind_single sample_model) default_expression_limits with
  | Ok p => p
  | Err _ => mkPreparedExpression [] 0 truth_type [] [] [] 0
  end.

Definition sample_context : EvalContext (F:=sample_foreign) := eval_context_single (row_view sample_row).

Lemma sample_prepares :
  prepare_expression_with_existentials (F:=sample_foreign) (Q:=no_subqueries) reject_existential (bind_single sample_model)
    sample_spec default_expression_limits 0 tt = Ok (sample_prepared, tt).
Proof. reflexivity. Qed.

Lemma no_existentials resolve truth_of :
  subqueries_resolved (Q:=no_subqueries) reject_existential resolve truth_of.
Proof. by intros []. Qed.

Lemma prepared_evaluation_witness :
  exists n', normalize_node (spec_node sample_spec) = Ok n' /\
    evaluate_datum_with_exists (fun _ => error "EXPR-EVAL-112") sample_prepared sample_context =
    (validate_evaluation_scopes sample_prepared sample_context ;;?
     eval_tree (bound_env (bind_single sample_model) (fun _ => error "EXPR-EVAL-112") sample_context
                 (fun _ => error "EXPR-EVAL-112")) false n').
Proof.
  apply (prepared_evaluation (F:=sample_foreign) (Q:=no_subqueries) reject_existential (bind_single sample_model)
    sample_spec default_expression_limits 0 tt sample_prepared tt _ _ sample_context).
  - exact sample_prepares.
  - apply no_existentials.
Defined.

Lemma preparation_sound_witness :
  evaluate_datum_with_exists (fun _ => error "EXPR-EVAL-112") sample_prepared sample_context = Ok (truth true) /\
  validate_datum truth_type Optional (truth (F:=sample_foreign) true) = Ok tt.
Proof.
  pose proof (preparation_sound (F:=sample_foreign) (Q:=no_subqueries) reject_existential (bind_single sample_model)
    sample_spec default_expression_limits 0 tt sample_prepared tt (fun _ => error "EXPR-EVAL-112") _ sample_context
    sample_prepares (no_existentials _ (fun _ => error "EXPR-EVAL-112"))) as [Hsame Htyped].
  assert (E : evaluate_datum_with_exists (fun _ => error "EXPR-EVAL-112") sample_prepared sample_context = Ok (truth true))
    by (apply Hsame; reflexivity).
  split; [exact E|exact (Htyped _ E)].
Defined.
