(* ===== verification/Plan.v ===== *)
(** * Logical plans ([crates/dol-core/src/plan/mod.rs], [identity.rs])

    The backend-independent operations that pipelines compile to, the builder
    that numbers them, and their canonical fingerprints. *)
From Stdlib Require Import ZArith Lia.
From S2P Require Import Prelude Foreign Truth BTree Types Values Fingerprint Model Expr Row ExprPrepare.

Local Open Scope Z_scope.

(** ** Vocabulary *)
Inductive ProjectionKind := ProjectValue | ProjectTuple | ProjectRecord.
Inductive AggregateKind := CountRows | CountPresent | AggSum | AggMin | AggMax.
Inductive AggregateSelectionKind := SelectValue | SelectTuple.
Inductive SortDirection := Ascending | Descending.
Inductive JoinKind := JInner | JLeft | JRight | JFull | JCross.
Inductive SetOperator := SUnion | SUnionAll | SIntersect | SExcept.
Inductive WindowFunctionKind := RowNumber | Rank | DenseRank | WindowSum.

#[export] Instance ProjectionKind_eq_dec : EqDecision ProjectionKind.
Proof. solve_decision. Defined.
#[export] Instance JoinKind_eq_dec : EqDecision JoinKind.
Proof. solve_decision. Defined.

Definition requires_equality (o : SetOperator) : bool := match o with SUnionAll => false | _ => true end.

(** ** Row frames *)
Inductive WindowFrameBound :=
| UnboundedPreceding | Preceding (n : Z) | CurrentRow | Following (n : Z) | UnboundedFollowing.

Record RowsFrame := mkRowsFrame { rf_start : WindowFrameBound; rf_end : WindowFrameBound }.

Definition canonical_frame_bound (b : WindowFrameBound) : WindowFrameBound :=
  match b with Preceding 0 | Following 0 => CurrentRow | _ => b end.

Definition rows_frame_new (start stop : WindowFrameBound) : RowsFrame :=
  mkRowsFrame (canonical_frame_bound start) (canonical_frame_bound stop).
Definition rows_frame_all : RowsFrame := rows_frame_new UnboundedPreceding UnboundedFollowing.
Definition rows_frame_to_current : RowsFrame := rows_frame_new UnboundedPreceding CurrentRow.
Definition rows_frame_around (radius : Z) : RowsFrame := rows_frame_new (Preceding radius) (Following radius).

(** ** Plan identifiers: u32 indices *)
Definition plan_id (index : nat) : Result nat := guard (Z.of_nat index <=? u32_max) "PIPELINE-LIMIT-001" ;;? Ok index.

Section Plan.
Context {F : Foreign} {Q : Subqueries}.

(** [LogicalExpr] wraps a prepared expression. *)
Definition LogicalExpr := PreparedExpression.

Definition node_existential (n : PreparedNode) : list nat :=
  match pn_kind n with PExists subquery _ => [subquery] | _ => [] end.
Definition existential_dependencies (e : LogicalExpr) : list nat := flat_map node_existential (pe_nodes e).

Definition remap_prepared_node (remap : list nat) (n : PreparedNode) : Result PreparedNode :=
  match pn_kind n with
  | PExists subquery fp =>
      let? subquery := ok_or (remap !! subquery) "PIPELINE-OPT-001" in
      Ok (mkPreparedNode (PExists subquery fp) (pn_ty n))
  | _ => Ok n
  end.

Definition remap_plan_ids (e : LogicalExpr) (remap : list nat) : Result LogicalExpr :=
  let? nodes := mapR (remap_prepared_node remap) (pe_nodes e) in
  Ok (mkPreparedExpression nodes (pe_root e) (pe_ty e) (pe_expression_fingerprint e) (pe_bound_fingerprint e)
        (pe_scopes e) (pe_outer_scope_count e)).

Definition direct_field (e : LogicalExpr) : option (nat * nat) :=
  match pe_nodes e !! pe_root e with
  | Some n => match pn_kind n with PField scope slot _ => Some (scope, slot) | _ => None end
  | None => None
  end.

Record LogicalProjection := mkProjection {
  lp_kind : ProjectionKind;
  lp_expressions : list LogicalExpr;
  lp_names : list string;
  lp_ty : TypeDef
}.

Record LogicalAggregate := mkAggregate { la_kind : AggregateKind; la_input : option LogicalExpr; la_ty : TypeDef }.

Record LogicalAggregateSelection := mkSelection {
  ls_kind : AggregateSelectionKind;
  ls_aggregates : list LogicalAggregate;
  ls_ty : TypeDef
}.

Record SortExpr := mkSortExpr { se_expression : LogicalExpr; se_direction : SortDirection }.

Record LogicalWindow := mkWindow {
  lw_kind : WindowFunctionKind;
  lw_input : option LogicalExpr;
  lw_partition : option LogicalProjection;
  lw_order : list SortExpr;
  lw_frame : option RowsFrame;
  lw_ty : TypeDef
}.

Inductive PlanOutput :=
| OutModel (m : ModelDef)
| OutValue (ty : TypeDef)
| OutProduct (outputs : list PlanOutput)
| OutNullable (output : PlanOutput).

Inductive LogicalNode :=
| NSource (m : ModelDef) (alias : option string)
| NFilter (input : nat) (condition : LogicalExpr)
| NProject (input : nat) (projection : LogicalProjection)
| NAggregate (input : nat) (groups : option LogicalProjection) (aggregates : LogicalAggregateSelection)
| NUnnest (input : nat) (element : TypeDef)
| NWindow (input : nat) (window : LogicalWindow)
| NSort (input : nat) (keys : list SortExpr)
| NDistinct (input : nat)
| NSlice (input : nat) (offset : Z) (limit : option Z)
| NJoin (l r : nat) (kind : JoinKind) (condition : option LogicalExpr)
| NSet (l r : nat) (operator : SetOperator).

(** Structural inputs, in the order the executor visits them. *)
Definition node_inputs (n : LogicalNode) : list nat :=
  match n with
  | NSource _ _ => []
  | NFilter i _ | NProject i _ | NAggregate i _ _ | NUnnest i _ | NWindow i _ | NSort i _ | NDistinct i
  | NSlice i _ _ => [i]
  | NJoin l r _ _ | NSet l r _ => [l; r]
  end.

(** ** Fingerprints ([identity.rs]) *)
Definition fingerprint_source (m : ModelDef) : Fingerprint :=
  finish (hasher_new "pipeline/source/v1" ++ h_str (md_key m) ++ h_bytes (md_fingerprint m)).

Definition fingerprint_unary_stage (domain : string) (input : Fingerprint) : Fingerprint :=
  finish (hasher_new domain ++ h_bytes input).

Definition fingerprint_expression_stage (domain : string) (input : Fingerprint) (e : LogicalExpr) : Fingerprint :=
  finish (hasher_new domain ++ h_bytes input ++ h_bytes (pe_bound_fingerprint e)).

Definition projection_tag (k : ProjectionKind) : Z :=
  match k with ProjectValue => 0 | ProjectTuple => 1 | ProjectRecord => 2 end.

Definition hash_projection_expression (p : LogicalProjection) (index : nat) (e : LogicalExpr) : list Z :=
  (if bool_decide (lp_kind p = ProjectRecord)
   then match lp_names p !! index with Some name => h_str name | None => [] end
   else []) ++ h_bytes (pe_bound_fingerprint e).

Definition hash_projection (p : LogicalProjection) : list Z :=
  h_u8 (projection_tag (lp_kind p)) ++ h_u64 (zlen (lp_expressions p)) ++
  concat (imap (hash_projection_expression p) (lp_expressions p)) ++ hash_type_def (lp_ty p).

Definition hash_option {A} (f : A -> list Z) (o : option A) : list Z :=
  match o with Some a => h_u8 1 ++ f a | None => h_u8 0 end.

Definition fingerprint_projection_stage (input : Fingerprint) (p : LogicalProjection) : Fingerprint :=
  finish (hasher_new "pipeline/project/v3" ++ h_bytes input ++ hash_projection p).

Definition aggregate_tag (k : AggregateKind) : Z :=
  match k with CountRows => 0 | CountPresent => 1 | AggSum => 2 | AggMin => 3 | AggMax => 4 end.

Definition hash_bound (e : LogicalExpr) : list Z := h_bytes (pe_bound_fingerprint e).

Definition hash_aggregate (a : LogicalAggregate) : list Z :=
  h_u8 (aggregate_tag (la_kind a)) ++ hash_option hash_bound (la_input a) ++ hash_type_def (la_ty a).

Definition fingerprint_aggregate_stage (input : Fingerprint) (groups : option LogicalProjection)
  (selection : LogicalAggregateSelection) : Fingerprint :=
  finish (hasher_new "pipeline/aggregate/v1" ++ h_bytes input ++ hash_option hash_projection groups ++
    h_u8 (match ls_kind selection with SelectValue => 0 | SelectTuple => 1 end) ++
    h_u64 (zlen (ls_aggregates selection)) ++ flat_map hash_aggregate (ls_aggregates selection) ++
    hash_type_def (ls_ty selection)).

Definition hash_sort_key (k : SortExpr) : list Z :=
  h_u8 (match se_direction k with Ascending => 0 | Descending => 1 end) ++ hash_bound (se_expression k).

Definition fingerprint_sort_stage (input : Fingerprint) (keys : list SortExpr) : Fingerprint :=
  finish (hasher_new "pipeline/sort/v2" ++ h_bytes input ++ h_u64 (zlen keys) ++ flat_map hash_sort_key keys).

Definition fingerprint_unnest_stage (input : Fingerprint) (element : TypeDef) : Fingerprint :=
  finish (hasher_new "pipeline/unnest/v1" ++ h_bytes input ++ hash_type_def element).

Definition window_tag (k : WindowFunctionKind) : Z :=
  match k with RowNumber => 0 | Rank => 1 | DenseRank => 2 | WindowSum => 3 end.

Definition hash_window_bound (b : WindowFrameBound) : list Z :=
  match b with
  | UnboundedPreceding => h_u8 0
  | Preceding n => h_u8 1 ++ h_u64 n
  | CurrentRow => h_u8 2
  | Following n => h_u8 3 ++ h_u64 n
  | UnboundedFollowing => h_u8 4
  end.

Definition fingerprint_window_stage (input : Fingerprint) (w : LogicalWindow) : Fingerprint :=
  finish (hasher_new "pipeline/window/v1" ++ h_bytes input ++ h_u8 (window_tag (lw_kind w)) ++
    hash_option hash_bound (lw_input w) ++ hash_option hash_projection (lw_partition w) ++
    h_u64 (zlen (lw_order w)) ++ flat_map hash_sort_key (lw_order w) ++
    hash_option (fun f => hash_window_bound (rf_start f) ++ hash_window_bound (rf_end f)) (lw_frame w) ++
    hash_type_def (lw_ty w)).

Definition fingerprint_slice_stage (input : Fingerprint) (offset : Z) (limit : option Z) : Fingerprint :=
  finish (hasher_new "pipeline/slice/v1" ++ h_bytes input ++ h_u64 offset ++ hash_option h_u64 limit).

Definition fingerprint_join_stage (l r : Fingerprint) (kind : JoinKind) (condition : option LogicalExpr) : Fingerprint :=
  finish (hasher_new "pipeline/join/v1" ++ h_bytes l ++ h_bytes r ++
    h_u8 (match kind with JInner => 0 | JCross => 1 | JLeft => 2 | JRight => 3 | JFull => 4 end) ++
    hash_option hash_bound condition).

Definition fingerprint_set_stage (l r : Fingerprint) (operator : SetOperator) : Fingerprint :=
  let '(l, r) :=
    if match operator with SExcept => true | _ => negb (comparison_eqb (fingerprint_cmp l r) Gt) end
    then (l, r) else (r, l) in
  finish (hasher_new "pipeline/set/v1" ++ h_bytes l ++ h_bytes r ++
    h_u8 (match operator with SUnion => 0 | SUnionAll => 1 | SIntersect => 2 | SExcept => 3 end)).

Fixpoint hash_plan_output (o : PlanOutput) : list Z :=
  match o with
  | OutModel m => h_u8 0 ++ h_str (md_key m) ++ h_bytes (md_fingerprint m)
  | OutValue ty => h_u8 1 ++ hash_type_def ty
  | OutProduct outputs => h_u8 2 ++ h_u64 (zlen outputs) ++ flat_map hash_plan_output outputs
  | OutNullable output => h_u8 3 ++ hash_plan_output output
  end.

Definition fingerprint_plan (root : Fingerprint) (output : PlanOutput) : Fingerprint :=
  finish (hasher_new "pipeline/plan/v2" ++ h_bytes root ++ hash_plan_output output).

(** ** Plans *)
Record LogicalPlan := mkLogicalPlan {
  plan_nodes : list LogicalNode;
  plan_root : nat;
  plan_output : PlanOutput;
  plan_fingerprint : Fingerprint
}.

Definition logical_plan_new (nodes : list LogicalNode) (root : nat) (output : PlanOutput)
  (root_fingerprint : Fingerprint) : LogicalPlan :=
  mkLogicalPlan nodes root output (fingerprint_plan root_fingerprint output).

Record PlanBuilder := mkPlanBuilder { pb_nodes : list LogicalNode; pb_fingerprints : list Fingerprint }.

Definition plan_builder_new : PlanBuilder := mkPlanBuilder [] [].

Definition plan_push (b : PlanBuilder) (n : LogicalNode) (fp : Fingerprint) : Result (nat * PlanBuilder) :=
  let? id := plan_id (length (pb_nodes b)) in
  Ok (id, mkPlanBuilder (pb_nodes b ++ [n]) (pb_fingerprints b ++ [fp])).

Definition builder_fingerprint (b : PlanBuilder) (id : nat) : Result Fingerprint :=
  ok_or (pb_fingerprints b !! id) "PIPELINE-PLAN-001".

Definition plan_finish (b : PlanBuilder) (root : nat) (output : PlanOutput) : Result LogicalPlan :=
  let? root_fingerprint := builder_fingerprint b root in
  Ok (logical_plan_new (pb_nodes b) root output root_fingerprint).

(** ** Rewriting ([optimize.rs]) *)
Definition mapped (id : nat) (remap : list nat) : Result nat := ok_or (remap !! id) "PIPELINE-OPT-001".

Definition redundant_target (n : LogicalNode) (nodes : list LogicalNode) : option nat :=
  match n with
  | NSlice input offset None => if offset =? 0 then Some input else None
  | NDistinct input =>
      match nodes !! input with
      | Some (NDistinct _) => Some input
      | _ => None
      end
  | _ => None
  end.

Definition remap_node (n : LogicalNode) (remap : list nat) : Result LogicalNode :=
  match n with
  | NSource m alias => Ok (NSource m alias)
  | NFilter input condition =>
      let? condition := remap_plan_ids condition remap in
      let? input := mapped input remap in Ok (NFilter input condition)
  | NProject input p => let? input := mapped input remap in Ok (NProject input p)
  | NAggregate input g a => let? input := mapped input remap in Ok (NAggregate input g a)
  | NUnnest input e => let? input := mapped input remap in Ok (NUnnest input e)
  | NWindow input w => let? input := mapped input remap in Ok (NWindow input w)
  | NSort input k => let? input := mapped input remap in Ok (NSort input k)
  | NDistinct input => let? input := mapped input remap in Ok (NDistinct input)
  | NSlice input o l => let? input := mapped input remap in Ok (NSlice input o l)
  | NJoin l r k c =>
      let? l := mapped l remap in let? r := mapped r remap in Ok (NJoin l r k c)
  | NSet l r o => let? l := mapped l remap in let? r := mapped r remap in Ok (NSet l r o)
  end.

(** One iteration: the optimized nodes so far, and where each node went. *)
Definition optimize_step (s : list LogicalNode * list nat) (n : LogicalNode)
  : Result (list LogicalNode * list nat) :=
  let '(nodes, remap) := s in
  let? n := remap_node n remap in
  match redundant_target n nodes with
  | Some existing => Ok (nodes, remap ++ [existing])
  | None => let? id := plan_id (length nodes) in Ok (nodes ++ [n], remap ++ [id])
  end.

Definition optimize (p : LogicalPlan) : Result LogicalPlan :=
  let? s := foldR optimize_step (plan_nodes p) ([], []) in
  let? root := mapped (plan_root p) (snd s) in
  Ok (mkLogicalPlan (fst s) root (plan_output p) (plan_fingerprint p)).
End Plan.
