(* ===== verification/Placement.v ===== *)
(** * Engine capabilities and placement ([crates/dol-engine/src])

    What an engine claims to reproduce exactly ([capability]), where the
    nodes of a plan run ([placement]), how a placement is explained
    ([explain]) and which compiled artifacts may be cached ([cache.rs]). *)
From Stdlib Require Import ZArith Lia.
From S2P Require Import Prelude Foreign BTree Types Values Fingerprint Model Expr Row ExprPrepare Plan.

Local Open Scope Z_scope.

(** ** Capabilities ([capability/mod.rs]) *)
Inductive Support := ExactNative | ExactEmulated | Unsupported (reason : string).

Definition is_supported (s : Support) : bool := match s with ExactNative | ExactEmulated => true | Unsupported _ => false end.
Definition is_native (s : Support) : bool := match s with ExactNative => true | _ => false end.
Definition support_reason (s : Support) : option string := match s with Unsupported reason => Some reason | _ => None end.

Record PipelineCapabilities := mkPipelineCapabilities {
  pc_source : Support; pc_filter : Support; pc_project : Support; pc_aggregate : Support;
  pc_unnest : Support; pc_window : Support; pc_sort : Support; pc_distinct : Support;
  pc_slice : Support; pc_join : Support; pc_set : Support; pc_exists : Support
}.

Record WriteCapabilities := mkWriteCapabilities {
  wc_insert : Support; wc_insert_many : Support; wc_update : Support; wc_delete : Support
}.

Record TransactionCapabilities := mkTransactionCapabilities {
  tc_transactions : Support; tc_atomic_writes : Support; tc_referential_integrity : Support
}.

Record Capabilities := mkCapabilities {
  cap_pipeline : PipelineCapabilities;
  cap_writes : WriteCapabilities;
  cap_transaction : TransactionCapabilities
}.

Definition pipeline_capabilities_default : PipelineCapabilities :=
  let unsupported := Unsupported "pipeline capability is not implemented" in
  mkPipelineCapabilities unsupported unsupported unsupported unsupported unsupported unsupported
    unsupported unsupported unsupported unsupported unsupported unsupported.
Definition write_capabilities_default : WriteCapabilities :=
  let unsupported := Unsupported "write capability is not implemented" in
  mkWriteCapabilities unsupported unsupported unsupported unsupported.
Definition transaction_capabilities_default : TransactionCapabilities :=
  let unsupported := Unsupported "transaction capability is not implemented" in
  mkTransactionCapabilities unsupported unsupported unsupported.
Definition capabilities_default : Capabilities :=
  mkCapabilities pipeline_capabilities_default write_capabilities_default transaction_capabilities_default.

(** ** Policies ([placement/mod.rs]) *)
Record TransferBudget := mkTransferBudget { tb_max_rows : Z; tb_max_bytes : Z; tb_max_batches : option Z }.

Definition transfer_validate (b : TransferBudget) : Result unit :=
  guard (negb ((tb_max_rows b =? 0) || (tb_max_bytes b =? 0) || bool_decide (tb_max_batches b = Some 0)))
    "ENGINE-PLACEMENT-003".

Inductive PlacementPolicy := RemoteOnly | Hybrid (transfer : TransferBudget).
Inductive PlacementSite := SiteEngine | LocalResidual.

Definition site_is_engine (s : PlacementSite) : bool := match s with SiteEngine => true | LocalResidual => false end.
Definition site_is_local (s : PlacementSite) : bool := match s with SiteEngine => false | LocalResidual => true end.

Record NodePlacement := mkNodePlacement { np_id : nat; np_site : PlacementSite; np_support : Support }.
Record PlacementPlan := mkPlacementPlan { pp_nodes : list NodePlacement; pp_transfer : option TransferBudget }.

Definition is_fully_engine (p : PlacementPlan) : bool := forallb (fun n => site_is_engine (np_site n)) (pp_nodes p).

Definition combine_support (l r : Support) : Support :=
  match l, r with
  | Unsupported reason, _ | _, Unsupported reason => Unsupported reason
  | ExactNative, ExactNative => ExactNative
  | (ExactNative | ExactEmulated), ExactEmulated | ExactEmulated, ExactNative => ExactEmulated
  end.

Section Placement.
Context {F : Foreign} {Q : Subqueries}.

(** The expressions of a node, in the order the code visits them. *)
Definition node_expressions (n : LogicalNode) : list LogicalExpr :=
  match n with
  | NFilter _ condition => [condition]
  | NProject _ projection => lp_expressions projection
  | NAggregate _ groups aggregates =>
      match groups with Some groups => lp_expressions groups | None => [] end ++
      omap la_input (ls_aggregates aggregates)
  | NWindow _ window =>
      option_list (lw_input window) ++
      match lw_partition window with Some partition => lp_expressions partition | None => [] end ++
      map se_expression (lw_order window)
  | NSort _ keys => map se_expression keys
  | NJoin _ _ _ (Some condition) => [condition]
  | NJoin _ _ _ None | NSource _ _ | NUnnest _ _ | NDistinct _ | NSlice _ _ _ | NSet _ _ _ => []
  end.

(** [sort_unstable_by_key] on plan identifiers, then [dedup]. *)
Definition node_existential_dependencies (n : LogicalNode) : list nat :=
  dedup Nat.eqb (sort_by Nat.compare (flat_map existential_dependencies (node_expressions n))).

Definition expression_requires (e : LogicalExpr) : bool :=
  negb (Nat.eqb (pe_outer_scope_count e) 0) || match existential_dependencies e with [] => false | _ => true end.

Definition node_requires_existential_support (n : LogicalNode) : bool :=
  existsb expression_requires (node_expressions n).

Definition capability_support_for_node (n : LogicalNode) (c : Capabilities) : Support :=
  let p := cap_pipeline c in
  let base :=
    match n with
    | NSource _ _ => pc_source p
    | NFilter _ _ => pc_filter p
    | NProject _ _ => pc_project p
    | NAggregate _ _ _ => pc_aggregate p
    | NUnnest _ _ => pc_unnest p
    | NWindow _ _ => pc_window p
    | NSort _ _ => pc_sort p
    | NDistinct _ => pc_distinct p
    | NSlice _ _ _ => pc_slice p
    | NJoin _ _ _ _ => pc_join p
    | NSet _ _ _ => pc_set p
    end in
  if node_requires_existential_support n then combine_support base (pc_exists p) else base.

(** ** The engine interface ([execute/mod.rs])

    [Engine::support_for_node] has a default body, [capability_support_for_node]
    of the engine's capabilities, which an adapter may refine. *)
Record EngineInfo := mkEngineInfo { ei_kind : string; ei_version : string }.

Class Engine (E : Type) := {
  engine_info : E -> EngineInfo;
  capabilities : E -> Capabilities;
  support_for_node : E -> LogicalNode -> Support
}.

Definition default_support_for_node {E} (caps : E -> Capabilities) (e : E) (n : LogicalNode) : Support :=
  capability_support_for_node n (caps e).

(** ** Placement *)
Definition is_local (placements : list NodePlacement) (id : nat) : Result bool :=
  let? p := ok_or (placements !! id) "ENGINE-PLACEMENT-004" in Ok (site_is_local (np_site p)).

Fixpoint any_local (placements : list NodePlacement) (ids : list nat) : Result bool :=
  match ids with
  | [] => Ok false
  | id :: rest =>
      let? local := is_local placements id in
      if local then Ok true else any_local placements rest
  end.

Definition has_local_dependency (n : LogicalNode) (placements : list NodePlacement) : Result bool :=
  let? structural_local :=
    match n with
    | NSource _ _ => Ok false
    | NFilter input _ | NProject input _ | NAggregate input _ _ | NUnnest input _ | NWindow input _
    | NSort input _ | NDistinct input | NSlice input _ _ => is_local placements input
    | NJoin l r _ _ | NSet l r _ =>
        let? left_local := is_local placements l in
        if left_local then Ok true else is_local placements r
    end in
  if structural_local then Ok true else any_local placements (node_existential_dependencies n).

Definition place_node (policy : PlacementPolicy) (support_for : LogicalNode -> Support)
  (placements : list NodePlacement) (n : LogicalNode) : Result (list NodePlacement) :=
  let index := length placements in
  let support := support_for n in
  let? upstream_local := has_local_dependency n placements in
  let? site :=
    if is_supported support && negb upstream_local then Ok SiteEngine
    else match policy with
         | RemoteOnly => error "ENGINE-PLACEMENT-001"
         | Hybrid _ => Ok LocalResidual
         end in
  let? id := plan_id index in
  Ok (placements ++ [mkNodePlacement id site support]).

Definition analyze_placement_with (plan : LogicalPlan) (policy : PlacementPolicy)
  (support_for : LogicalNode -> Support) : Result PlacementPlan :=
  let? transfer :=
    match policy with
    | RemoteOnly => Ok None
    | Hybrid transfer => transfer_validate transfer ;;? Ok (Some transfer)
    end in
  let? placements := foldR (place_node policy support_for) (plan_nodes plan) [] in
  Ok (mkPlacementPlan placements transfer).

Definition analyze_placement (plan : LogicalPlan) (c : Capabilities) (policy : PlacementPolicy) : Result PlacementPlan :=
  analyze_placement_with plan policy (fun n => capability_support_for_node n c).

Definition analyze_engine_placement `{Engine E} (plan : LogicalPlan) (engine : E) (policy : PlacementPolicy)
  : Result PlacementPlan :=
  analyze_placement_with plan policy (support_for_node engine).

(** ** Explanations ([explain/mod.rs]) *)
Record ExplainStep := mkExplainStep { ex_node : nat; ex_operation : string; ex_site : PlacementSite; ex_detail : string }.

Record ExplainPlan := mkExplainPlan {
  ep_engine_kind : string; ep_engine_version : string; ep_fingerprint : Fingerprint; ep_steps : list ExplainStep
}.

Definition operation_name (n : LogicalNode) : string :=
  match n with
  | NSource _ _ => "source" | NFilter _ _ => "filter" | NProject _ _ => "project" | NAggregate _ _ _ => "aggregate"
  | NUnnest _ _ => "unnest" | NWindow _ _ => "window" | NSort _ _ => "sort" | NDistinct _ => "distinct"
  | NSlice _ _ _ => "slice" | NJoin _ _ _ _ => "join" | NSet _ _ _ => "set"
  end.

Definition explain_detail (p : NodePlacement) : string :=
  if site_is_local (np_site p) && is_supported (np_support p)
  then "local residual because an upstream input already requires local execution"
  else match np_support p with
       | ExactNative => "exact native"
       | ExactEmulated => "exact emulated"
       | Unsupported reason => reason
       end.

Definition explain_step (n : LogicalNode) (p : NodePlacement) : ExplainStep :=
  mkExplainStep (np_id p) (operation_name n) (np_site p) (explain_detail p).

Definition explain_plan_new (engine : EngineInfo) (plan : LogicalPlan) (placement : PlacementPlan) : ExplainPlan :=
  mkExplainPlan (ei_kind engine) (ei_version engine) (plan_fingerprint plan)
    (zip_with explain_step (plan_nodes plan) (pp_nodes placement)).
End Placement.

(** ** Cache admission ([cache.rs]) *)
Inductive ArtifactCacheability := CacheNever | RequestScoped | PlanReusable.
Inductive CacheLifetime := LifetimeRequest | LifetimeShared.

Record CachePolicy := mkCachePolicy {
  cache_logical_plans : bool; cache_compiled_artifacts : bool;
  cache_max_entries : Z; cache_max_bytes : Z; cache_max_entry_bytes : Z
}.

Definition cache_policy_validate (p : CachePolicy) : Result unit :=
  guard (negb ((cache_logical_plans p || cache_compiled_artifacts p) &&
               ((cache_max_entries p =? 0) || (cache_max_bytes p =? 0) || (cache_max_entry_bytes p =? 0))))
    "ENGINE-CACHE-001" ;;?
  guard (cache_max_entry_bytes p <=? cache_max_bytes p) "ENGINE-CACHE-002".

Definition admits_size (p : CachePolicy) (entry_bytes : Z) : bool :=
  (entry_bytes <=? cache_max_entry_bytes p) && (entry_bytes <=? cache_max_bytes p).

Definition logical_plan_lifetime (p : CachePolicy) (entry_bytes : Z) : option CacheLifetime :=
  if cache_logical_plans p && admits_size p entry_bytes then Some LifetimeShared else None.

Definition artifact_lifetime (p : CachePolicy) (c : ArtifactCacheability) (entry_bytes : Z) : option CacheLifetime :=
  if negb (cache_compiled_artifacts p) || negb (admits_size p entry_bytes) then None
  else match c with
       | CacheNever => None
       | RequestScoped => Some LifetimeRequest
       | PlanReusable => Some LifetimeShared
       end.

Definition cache_policy_default : CachePolicy := mkCachePolicy true false 1024 (64 * 1024 * 1024) (4 * 1024 * 1024).

(** ** Properties *)
Section PlacementProperties.
Context {F : Foreign} {Q : Subqueries}.

(** Everything a node refers to: its inputs and its existential subplans. *)
Definition node_dependencies (n : LogicalNode) : list nat := node_inputs n ++ node_existential_dependencies n.

(** Every reference is to an earlier node, as in any plan a builder numbers. *)
Definition backward (nodes : list LogicalNode) : Prop :=
  forall i n j, nodes !! i = Some n -> j ∈ node_dependencies n -> (j < i)%nat.

(** A node must run locally when it, or a node it depends on directly or
    through others, is beyond the engine. *)
Inductive requires_local (support_for : LogicalNode -> Support) (nodes : list LogicalNode) : nat -> Prop :=
| requires_unsupported i n :
    nodes !! i = Some n -> is_supported (support_for n) = false -> requires_local support_for nodes i
| requires_dependency i n j :
    nodes !! i = Some n -> j ∈ node_dependencies n -> requires_local support_for nodes j ->
    requires_local support_for nodes i.

Definition placed_local (placements : list NodePlacement) (id : nat) : Prop :=
  exists p, placements !! id = Some p /\ np_site p = LocalResidual.

Lemma is_local_spec placements id : (id < length placements)%nat ->
  exists b, is_local placements id = Ok b /\ (b = true <-> placed_local placements id).
Proof.
  intros [p Hp]%lookup_lt_is_Some_2. exists (site_is_local (np_site p)). unfold is_local, placed_local. rewrite Hp.
  split; [done|]. split.
  - intros H. exists p. split; [done|]. by destruct (np_site p).
  - intros (p' & [= <-] & ->). done.
Qed.

Lemma any_local_spec placements ids : Forall (fun id => id < length placements)%nat ids ->
  exists b, any_local placements ids = Ok b /\ (b = true <-> exists id, id ∈ ids /\ placed_local placements id).
Proof.
  induction 1 as [|id ids Hid _ (b & Hb & Hbs)]; cbn [any_local].
  { exists false. split; [done|]. split; [done|]. by intros (? & ?%not_elem_of_nil & _). }
  destruct (is_local_spec placements id Hid) as (c & -> & Hc). cbn [rbind].
  destruct c.
  - exists true. split; [done|]. split; [|done]. intros _. exists id. split; [left|by apply Hc].
  - exists b. split; [done|]. rewrite Hbs. split.
    + intros (j & ? & ?). exists j. split; [by right|done].
    + intros (j & [->|Hj]%elem_of_cons & Hl); [by apply Hc in Hl|by exists j].
Qed.

Lemma any_local_inputs n placements :
  has_local_dependency n placements =
  let? structural_local := any_local placements (node_inputs n) in
  if structural_local then Ok true else any_local placements (node_existential_dependencies n).
Proof.
  unfold has_local_dependency.
  destruct n; cbn [node_inputs any_local]; try done;
    repeat (match goal with |- context [is_local ?p ?i] => destruct (is_local p i) as [[]|]; cbn [rbind]; try done end).
Qed.

Lemma has_local_dependency_spec n placements :
  Forall (fun id => id < length placements)%nat (node_dependencies n) ->
  exists b, has_local_dependency n placements = Ok b /\
    (b = true <-> exists id, id ∈ node_dependencies n /\ placed_local placements id).
Proof.
  intros [H1 H2]%Forall_app. rewrite any_local_inputs. unfold node_dependencies. setoid_rewrite elem_of_app.
  destruct (any_local_spec _ _ H1) as ([] & -> & E1); cbn [rbind].
  { exists true. split; [done|]. split; [|done]. intros _. destruct (proj1 E1 eq_refl) as (id & ? & ?). eauto. }
  destruct (any_local_spec _ _ H2) as (b & -> & E2). exists b. split; [done|]. rewrite E2. split.
  - intros (id & ? & ?). eauto.
  - intros (id & [Hi|Hi] & Hl); [|by exists id]. assert (false = true) by (apply E1; by exists id). done.
Qed.

(** What is recorded of a placed node. *)
Definition placed (support_for : LogicalNode -> Support) (nodes : list LogicalNode) (placements : list NodePlacement) : Prop :=
  forall i n p, nodes !! i = Some n -> placements !! i = Some p ->
  np_id p = i /\ np_support p = support_for n /\ (np_site p = LocalResidual <-> requires_local support_for nodes i).

Section Loop.
Context (support_for : LogicalNode -> Support) (policy : PlacementPolicy) (nodes : list LogicalNode).
Hypothesis B : backward nodes.
Hypothesis L : Z.of_nat (length nodes) <= u32_max + 1.

Lemma requires_local_lt i : requires_local support_for nodes i -> (i < length nodes)%nat.
Proof. destruct 1; by eapply lookup_lt_Some. Qed.

Lemma placed_at j (placements : list NodePlacement) :
  (j < length placements)%nat -> (length placements <= length nodes)%nat ->
  exists m p, nodes !! j = Some m /\ placements !! j = Some p.
Proof.
  intros Hj Hl. destruct (lookup_lt_is_Some_2 nodes j) as [m Hm]; [lia|].
  apply lookup_lt_is_Some_2 in Hj as [p Hp]. eauto.
Qed.

Lemma plan_id_ok index : Z.of_nat index <= u32_max -> plan_id index = Ok index.
Proof. intros H. unfold plan_id. by rewrite (proj2 (guard_ok _ _ tt) (proj2 (Z.leb_le _ _) H)). Qed.

Lemma supported_everywhere : Forall (fun n => is_supported (support_for n) = true) nodes ->
  forall i, ~ requires_local support_for nodes i.
Proof.
  intros Hs i. rewrite Forall_lookup in Hs. induction 1 as [i n Hn Hu|i n j _ _ _ IH]; [|done].
  apply Hs in Hn. congruence.
Qed.

Lemma place_node_spec l1 n l2 placements :
  nodes = l1 ++ n :: l2 -> length placements = length l1 -> placed support_for nodes placements ->
  (requires_local support_for nodes (length l1) /\ policy = RemoteOnly /\
   place_node policy support_for placements n = error "ENGINE-PLACEMENT-001") \/
  ((policy = RemoteOnly -> ~ requires_local support_for nodes (length l1)) /\
   exists p, place_node policy support_for placements n = Ok (placements ++ [p]) /\
     placed support_for nodes (placements ++ [p])).
Proof.
  intros E Hl Hp.
  assert (Hn : nodes !! length l1 = Some n) by (rewrite E; by apply list_lookup_middle).
  apply lookup_lt_Some in Hn as Hlt.
  assert (Hb : Forall (fun id => id < length placements)%nat (node_dependencies n)).
  { apply Forall_forall. intros j Hj. rewrite Hl. by apply (B _ n). }
  destruct (has_local_dependency_spec n placements Hb) as (b & Hlocal & Eb).
  assert (R : requires_local support_for nodes (length l1) <-> is_supported (support_for n) && negb b = false).
  { rewrite andb_false_iff, negb_false_iff, Eb. split.
    - inversion 1 as [i m Hm Hs|i m j Hm Hj Hr]; subst i; rewrite Hn in Hm; injection Hm as <-; [by left|right].
      destruct (placed_at j placements) as (m & p & Hm & Hpj); [rewrite Forall_forall in Hb; by apply Hb|lia|].
      exists j. split; [done|]. exists p. split; [done|]. by apply (Hp j m p Hm Hpj).
    - intros [Hs|(j & Hj & p & Hpj & Hs)]; [by eapply requires_unsupported|].
      destruct (placed_at j placements) as (m & p' & Hm & Hpj'); [by apply lookup_lt_Some in Hpj|lia|].
      eapply requires_dependency; [done..|]. by apply (Hp j m p Hm Hpj). }
  assert (Hgrow : forall site, (site = LocalResidual <-> requires_local support_for nodes (length l1)) ->
    placed support_for nodes (placements ++ [mkNodePlacement (length placements) site (support_for n)])).
  { intros site Hsite i m p Hm [Hi|[Hi Hi']]%lookup_app_Some; [by apply Hp|].
    apply list_lookup_singleton_Some in Hi' as [Hi' <-]. assert (i = length l1) as -> by lia.
    rewrite Hn in Hm. injection Hm as <-. by rewrite Hl. }
  unfold place_node. rewrite Hlocal, plan_id_ok by lia. cbn [rbind].
  destruct (is_supported (support_for n) && negb b) eqn:Es; cbn [rbind].
  - right. split; [by intros _ ?%R|]. eexists. split; [done|]. apply Hgrow. split; [done|by intros ?%R].
  - destruct policy; [left; split_and!; [by apply R|done..]|]. right. split; [done|]. cbn [rbind].
    eexists. split; [done|]. apply Hgrow. split; [intros _; by apply R|done].
Qed.

Lemma placement_loop l2 : forall l1 placements, nodes = l1 ++ l2 -> length placements = length l1 ->
  placed support_for nodes placements ->
  (policy = RemoteOnly /\ (exists i, requires_local support_for nodes i) /\
   foldR (place_node policy support_for) l2 placements = error "ENGINE-PLACEMENT-001") \/
  ((policy = RemoteOnly -> forall i, (length l1 <= i)%nat -> ~ requires_local support_for nodes i) /\
   exists result, foldR (place_node policy support_for) l2 placements = Ok result /\
     length result = length nodes /\ placed support_for nodes result).
Proof.
  induction l2 as [|n l2 IH]; intros l1 placements Hn Hl Hp; cbn [foldR].
  { rewrite app_nil_r in Hn. right. rewrite <- Hn in *. split; [|by exists placements].
    intros _ i Hi Hr%requires_local_lt. lia. }
  destruct (place_node_spec l1 n l2 placements Hn Hl Hp) as [(Hr & Hy & ->)|(Hy & p & -> & Hp')];
    [left; eauto|]. cbn [rbind].
  destruct (IH (l1 ++ [n]) (placements ++ [p])) as [Herr|[Hz Hok]];
    [by rewrite <- app_assoc|by rewrite !length_app, Hl|done|by left|right].
  split; [|done]. intros E i Hi. destruct (decide (i = length l1)) as [->|Hne]; [by apply Hy|].
  apply Hz; [done|]. rewrite length_app. simpl. lia.
Qed.
End Loop.

Lemma placed_nothing support_for nodes : placed support_for nodes [].
Proof. intros i n p _ H. by rewrite lookup_nil in H. Qed.

Definition policy_valid (policy : PlacementPolicy) : Prop :=
  match policy with RemoteOnly => True | Hybrid transfer => transfer_validate transfer = Ok tt end.

(** An engine that supports every node runs the whole plan, under any policy. *)
Lemma supported_placement plan policy support_for :
  backward (plan_nodes plan) -> Z.of_nat (length (plan_nodes plan)) <= u32_max + 1 ->
  Forall (fun n => is_supported (support_for n) = true) (plan_nodes plan) -> policy_valid policy ->
  exists placement, analyze_placement_with plan policy support_for = Ok placement /\
    length (pp_nodes placement) = length (plan_nodes plan) /\ is_fully_engine placement = true.
Proof.
  intros B L Hs Hy. unfold analyze_placement_with.
  assert (Hnone : forall i, ~ requires_local support_for (plan_nodes plan) i) by by apply supported_everywhere.
  assert (exists transfer, match policy with
    | RemoteOnly => Ok None | Hybrid transfer => transfer_validate transfer ;;? Ok (Some transfer) end = Ok transfer)
    as [transfer ->] by (destruct policy; [by exists None|]; exists (Some transfer); cbn in Hy |- *; by rewrite Hy).
  cbn [rbind].
  destruct (placement_loop support_for policy _ B L (plan_nodes plan) [] [] eq_refl eq_refl (placed_nothing _ _))
    as [(_ & (i & Hi) & _)|(_ & nodes & -> & Hl & Hp)]; [by apply Hnone in Hi|].
  eexists. split; [done|]. split; [done|]. apply forallb_forall. intros p Hp'%list_elem_of_In.
  apply list_elem_of_lookup in Hp' as [i Hi]. cbn [pp_nodes] in Hi. apply lookup_lt_Some in Hi as Hlt. rewrite Hl in Hlt.
  apply lookup_lt_is_Some in Hlt as [n Hn]. destruct (Hp i n p Hn Hi) as (_ & _ & Hlocal).
  destruct (np_site p); [done|]. by destruct (Hnone i); apply Hlocal.
Qed.

(** C21: placement is exact. Under a hybrid policy every node is placed, on
    the engine unless it, or some node it depends on directly or through
    others, is unsupported; under the remote-only policy a plan is placed,
    entirely on the engine, when every node is supported, and is refused
    otherwise. *)
Theorem placement_exact plan support_for :
  backward (plan_nodes plan) -> Z.of_nat (length (plan_nodes plan)) <= u32_max + 1 ->
  (forall transfer, transfer_validate transfer = Ok tt ->
   exists nodes, analyze_placement_with plan (Hybrid transfer) support_for = Ok (mkPlacementPlan nodes (Some transfer)) /\
     length nodes = length (plan_nodes plan) /\ placed support_for (plan_nodes plan) nodes) /\
  (Forall (fun n => is_supported (support_for n) = true) (plan_nodes plan) ->
   exists placement, analyze_placement_with plan RemoteOnly support_for = Ok placement /\
     length (pp_nodes placement) = length (plan_nodes plan) /\ is_fully_engine placement = true) /\
  (Exists (fun n => is_supported (support_for n) = false) (plan_nodes plan) ->
   analyze_placement_with plan RemoteOnly support_for = error "ENGINE-PLACEMENT-001").
Proof.
  intros B L. split; [|split].
  - intros transfer Ht. unfold analyze_placement_with. rewrite Ht. cbn [rbind].
    destruct (placement_loop support_for (Hybrid transfer) _ B L (plan_nodes plan) [] [] eq_refl eq_refl (placed_nothing _ _))
      as [(? & _)|(_ & nodes & -> & Hl & Hp)]; [done|]. by exists nodes.
  - intros Hs. by apply supported_placement.
  - intros (n & Hn & Hu)%Exists_exists. apply list_elem_of_lookup in Hn as [i Hi]. unfold analyze_placement_with. cbn [rbind].
    destruct (placement_loop support_for RemoteOnly _ B L (plan_nodes plan) [] [] eq_refl eq_refl (placed_nothing _ _))
      as [(_ & _ & ->)|(Hz & _)]; [done|].
    destruct (Hz eq_refl i); [simpl; lia|]. by eapply requires_unsupported.
Qed.
End PlacementProperties.

(** ** A filter above a distinct the engine cannot run *)
Definition no_distinct : PipelineCapabilities :=
  mkPipelineCapabilities ExactNative ExactNative ExactNative ExactNative ExactNative ExactNative ExactNative
    (Unsupported "no distinct") ExactEmulated ExactNative ExactNative ExactNative.
Definition placement_sample : LogicalPlan (F:=sample_foreign) :=
  mkLogicalPlan [NSource sample_model None; NDistinct 0; NSlice 1 0 None; NSlice 0 1 None] 2 (OutModel sample_model) [].
Definition placement_budget : TransferBudget := mkTransferBudget 1 1 None.
Definition placement_capabilities : Capabilities :=
  mkCapabilities no_distinct write_capabilities_default transaction_capabilities_default.

Example placement_sites :
  rmap (fun p => map np_site (pp_nodes p)) (analyze_placement placement_sample placement_capabilities (Hybrid placement_budget)) =
  Ok [SiteEngine; LocalResidual; LocalResidual; SiteEngine].
Proof. reflexivity. Qed.

Lemma placement_exact_witness :
  analyze_placement placement_sample placement_capabilities RemoteOnly = error "ENGINE-PLACEMENT-001" /\
  (exists nodes, analyze_placement placement_sample placement_capabilities (Hybrid placement_budget) =
     Ok (mkPlacementPlan nodes (Some placement_budget)) /\ length nodes = 4%nat).
Proof.
  destruct (placement_exact placement_sample (fun n => capability_support_for_node n placement_capabilities))
    as (Hhybrid & _ & Hremote).
  - intros [|[|[|[|i]]]] n j H Hj; try discriminate H; injection H as <-;
      repeat (apply elem_of_cons in Hj as [->|Hj]); try lia; by apply not_elem_of_nil in Hj.
  - vm_compute. discriminate.
  - split; [apply Hremote; right; by left|].
    destruct (Hhybrid placement_budget eq_refl) as (nodes & H & Hl & _). by exists nodes.
Defined.
