(* ===== verification/DataSet.v ===== *)
(** * Materialized data ([crates/dol-core/src/data/validate.rs])

    Record validation against a model, and identity and unique constraints
    decided with fingerprint buckets. *)
From Stdlib Require Import ZArith Lia.
From S2P Require Import Prelude Foreign BTree Types Values Fingerprint Model Row.

Local Open Scope Z_scope.

Section Data.
Context {F : Foreign}.

Definition validate_record_against (expected : ModelDef) (record : RecordView) : Result unit :=
  let? actual := rv_model record in
  guard (negb (negb (bool_decide (md_key actual = md_key expected)) ||
               negb (bool_decide (md_fingerprint actual = md_fingerprint expected)))) "DATASET-RECORD-001" ;;?
  forR (fun f =>
    let? datum := rv_field record (fd_slot f) in
    let? datum := ok_or datum "DATASET-RECORD-002" in
    validate_datum (fd_ty f) (fd_presence f) datum) (md_fields expected).

(** The fields' datums; nothing when one is absent and absence is skipped.  The
    memory store has the same function under other codes. *)
Fixpoint tuple_values_with (unknown unexposed : string) (record : RecordView) (model : ModelDef)
  (fields : list string) (skip_absent : bool) : Result (option (list Datum)) :=
  match fields with
  | [] => Ok (Some [])
  | key :: rest =>
      let? f := ok_or (model_field model key) unknown in
      let? datum := rv_field record (fd_slot f) in
      let? datum := ok_or datum unexposed in
      if skip_absent && is_absent datum then Ok None
      else
        let? values := tuple_values_with unknown unexposed record model rest skip_absent in
        Ok (option_map (cons datum) values)
  end.

Definition tuple_values := tuple_values_with "DATASET-CONSTRAINT-001" "DATASET-RECORD-002".

(** What one field of a tuple contributes to its fingerprint. *)
Definition tuple_part (model : ModelDef) (e : string * Datum) : Result (list Z) :=
  let? f := ok_or (model_field model (fst e)) "DATASET-CONSTRAINT-001" in
  let? fingerprint := fingerprint_datum (fd_ty f) (snd e) in
  Ok (h_str (fd_key f) ++ h_bytes fingerprint).

Definition tuple_fingerprint (model : ModelDef) (fields : list string) (values : list Datum) : Result Fingerprint :=
  let? parts := mapR (tuple_part model) (combine fields values) in
  Ok (finish (hasher_new "constraint/tuple/v1" ++ h_bytes (md_fingerprint model) ++ concat parts)).

Record UniqueTupleSpec := mkUniqueTupleSpec { ut_fields : list string; ut_skip_absent : bool; ut_code : string }.

(** [Vec<Datum>: PartialEq]. *)
Definition tuple_eqb : list Datum -> list Datum -> bool := forallb2 datum_eqb.

(** The tuples seen so far, in buckets by fingerprint. *)
Definition Seen := btree Fingerprint (list (list Datum)).

Definition unique_step (model : ModelDef) (spec : UniqueTupleSpec) (seen : Seen) (record : RecordView) : Result Seen :=
  let? values := tuple_values record model (ut_fields spec) (ut_skip_absent spec) in
  match values with
  | None => Ok seen
  | Some values =>
      let? fingerprint := tuple_fingerprint model (ut_fields spec) values in
      let bucket := default [] (bt_get fingerprint seen) in
      guard (negb (existsb (fun existing => tuple_eqb existing values) bucket)) (ut_code spec) ;;?
      Ok (bt_insert fingerprint (bucket ++ [values]) seen)
  end.

Definition validate_unique_tuple (records : list RecordView) (model : ModelDef) (spec : UniqueTupleSpec) : Result unit :=
  foldR (unique_step model spec) records [] ;;? Ok tt.

Definition identity_spec (fields : list string) : UniqueTupleSpec := mkUniqueTupleSpec fields false "DATASET-IDENTITY-001".
Definition unique_spec (fields : list string) : UniqueTupleSpec := mkUniqueTupleSpec fields true "DATASET-UNIQUE-001".

Definition validate_dataset (model : ModelDef) (records : list RecordView) : Result unit :=
  forR (validate_record_against model) records ;;?
  match md_identity model with
  | Some fields => validate_unique_tuple records model (identity_spec fields)
  | None => Ok tt
  end ;;?
  forR (fun fields => validate_unique_tuple records model (unique_spec fields)) (md_unique model).

Definition validate_dynamic_dataset (model : ModelDef) (rows : list DynRow) : Result unit :=
  validate_dataset model (map row_view rows).

Definition fingerprint_record (model : ModelDef) (record : RecordView) : Result Fingerprint :=
  validate_record_against model record ;;?
  let? parts := mapR (fun f =>
    let? datum := rv_field record (fd_slot f) in
    let? datum := ok_or datum "DATASET-RECORD-002" in
    let? fingerprint := fingerprint_datum (fd_ty f) datum in
    Ok (h_str (fd_key f) ++ h_bytes fingerprint)) (md_fields model) in
  Ok (finish (hasher_new "record/v1" ++ h_bytes (md_fingerprint model) ++ concat parts)).
End Data.

(** ** Buckets by fingerprint decide pairwise difference *)
Section Buckets.
Context {A T K : Type} `{KeyOrder K} (tuple : A -> option T) (fp : T -> K) (eqb : T -> T -> bool) (c : string).

Definition bucket_step (seen : btree K (list T)) (x : A) : Result (btree K (list T)) :=
  match tuple x with
  | None => Ok seen
  | Some t =>
      let bucket := default [] (bt_get (fp t) seen) in
      guard (negb (existsb (fun existing => eqb existing t) bucket)) c ;;?
      Ok (bt_insert (fp t) (bucket ++ [t]) seen)
  end.

(** The buckets hold exactly the tuples [ts], each under its fingerprint. *)
Definition buckets (ts : list T) (seen : btree K (list T)) : Prop :=
  forall k t, t ∈ default [] (bt_get k seen) <-> t ∈ ts /\ fp t = k.

Lemma buckets_insert ts seen t : buckets ts seen ->
  buckets (ts ++ [t]) (bt_insert (fp t) (default [] (bt_get (fp t) seen) ++ [t]) seen).
Proof.
  unfold buckets. intros Hb k x. destruct (key_eqb k (fp t)) eqn:Ek; [apply key_eqb_eq in Ek as ->|].
  - rewrite bt_get_insert_eq.
    change (x ∈ default [] (bt_get (fp t) seen) ++ [t] <-> x ∈ ts ++ [t] /\ fp x = fp t).
    rewrite !elem_of_app, Hb, !list_elem_of_singleton.
    split; [intros [[? ?]| ->]; auto|]. intros [[?| ->] ?]; auto.
  - assert (Hne : k <> fp t) by (intros E; apply key_eqb_eq in E; congruence).
    rewrite bt_get_insert_ne, Hb by done. rewrite elem_of_app, list_elem_of_singleton.
    split; [tauto|]. intros [[?| ->] ?]; [done|congruence].
Qed.

Lemma bucket_loop l ts seen : buckets ts seen ->
  (forall a b, a ∈ ts ++ omap tuple l -> b ∈ omap tuple l -> eqb a b = true -> fp a = fp b) ->
  (exists r, foldR bucket_step l seen = Ok r) <->
  Forall (fun b => forall a, a ∈ ts -> eqb a b = false) (omap tuple l) /\
  ForallOrdPairs (fun a b => eqb a b = false) (omap tuple l).
Proof.
  revert ts seen. induction l as [|x l IH]; intros ts seen Hb Hc; cbn [foldR].
  { split; [intros _; split; constructor|eauto]. }
  unfold bucket_step at 1. simpl in Hc |- *. destruct (tuple x) as [t|]; cbn [rbind]; [|by apply IH].
  set (bucket := default [] (bt_get (fp t) seen)).
  assert (Hbucket : existsb (fun existing => eqb existing t) bucket = false <-> forall a, a ∈ ts -> eqb a t = false).
  { split.
    - intros E a Ha. apply not_true_is_false. intros Ht. apply not_true_iff_false in E. apply E.
      apply existsb_exists. exists a. split; [|done]. apply list_elem_of_In, Hb. split; [done|].
      apply Hc; [apply elem_of_app; by left|left|done].
    - intros E. apply not_true_is_false. intros (a & Ha & Ht)%existsb_exists.
      apply list_elem_of_In, Hb in Ha as [Ha _]. by rewrite (E a Ha) in Ht. }
  destruct (existsb _ bucket) eqn:E; simpl.
  - split; [by intros [? ?]|]. intros [[Ha _]%Forall_cons _]. by apply Hbucket in Ha.
  - rewrite (IH (ts ++ [t])); [|by apply buckets_insert|].
    + rewrite Forall_cons. assert (Hpairs : ForallOrdPairs (fun a b => eqb a b = false) (t :: omap tuple l) <->
        Forall (fun b => eqb t b = false) (omap tuple l) /\ ForallOrdPairs (fun a b => eqb a b = false) (omap tuple l)).
      { split; [by inversion_clear 1|]. intros []. by constructor. }
      rewrite Hpairs, !Forall_forall. setoid_rewrite elem_of_app. setoid_rewrite list_elem_of_singleton.
      split.
      * intros [H1 H2]. split_and!; [by apply Hbucket|..|done]; intros b Hin; [intros a Ha|]; apply H1; auto.
      * intros ((_ & H1) & H2 & H3). split; [|done]. intros b Hin a [Ha| ->]; auto.
    + intros a b Ha Hin. apply Hc; [|by right]. rewrite <- app_assoc in Ha. exact Ha.
Qed.

Lemma bucket_loop_empty l :
  (forall a b, a ∈ omap tuple l -> b ∈ omap tuple l -> eqb a b = true -> fp a = fp b) ->
  (exists r, foldR bucket_step l [] = Ok r) <-> ForallOrdPairs (fun a b => eqb a b = false) (omap tuple l).
Proof.
  intros Hc. rewrite (bucket_loop l [] []); [|by intros k t; split; [intros ?%not_elem_of_nil|intros [?%not_elem_of_nil _]]|done].
  split; [tauto|]. intros Hp. split; [|done]. apply Forall_forall. by intros b _ a ?%not_elem_of_nil.
Qed.
End Buckets.

(** ** What validation decides *)
Section DataSpec.
Context {F : Foreign} {L : ForeignLaws F}.

Definition record_conforms (m : ModelDef) (r : RecordView) : Prop :=
  (exists actual, rv_model r = Ok actual /\ md_key actual = md_key m /\ md_fingerprint actual = md_fingerprint m) /\
  Forall (fun f => exists d, rv_field r (fd_slot f) = Ok (Some d) /\ field_accepts f d) (md_fields m).

Lemma validate_record_against_ok m r : validate_record_against m r = Ok tt <-> record_conforms m r.
Proof.
  unfold validate_record_against, record_conforms. rewrite rbind_ok. split.
  - intros (actual & Ha & [Hg%guard_ok Hf]%check_then). split.
    + exists actual. split; [done|]. by destruct (bool_decide_reflect (md_key actual = md_key m)),
        (bool_decide_reflect (md_fingerprint actual = md_fingerprint m)).
    + rewrite forR_ok in Hf. eapply Forall_impl; [exact Hf|].
      intros f (o & Ho & (d & ->%ok_or_ok & Hd)%rbind_ok)%rbind_ok. eauto.
  - intros ((actual & Ha & Hk & Hp) & Hf). exists actual. split; [done|]. apply check_then. split.
    + by rewrite !bool_decide_eq_true_2.
    + rewrite forR_ok. eapply Forall_impl; [exact Hf|]. intros f (d & -> & Hd). exact Hd.
Qed.

(** The datum of a record at a field of the model. *)
Definition tuple_entry (m : ModelDef) (r : RecordView) (key : string) (d : Datum) : Prop :=
  exists f, model_field m key = Some f /\ rv_field r (fd_slot f) = Ok (Some d) /\ field_accepts f d.

Lemma model_field_elem m key f : model_field m key = Some f -> f ∈ md_fields m.
Proof. unfold model_field. destruct (bt_get key _); [|done]. apply list_elem_of_lookup_2. Qed.

Lemma tuple_values_ok unknown unexposed m fields skip r : record_conforms m r ->
  (forall k, k ∈ fields -> exists f, model_field m k = Some f) ->
  exists ds, Forall2 (tuple_entry m r) fields ds /\
    tuple_values_with unknown unexposed r m fields skip = Ok (if skip && existsb is_absent ds then None else Some ds).
Proof.
  intros [_ Hr] Hk. induction fields as [|key fields IH]; [exists []; by rewrite andb_false_r|].
  destruct (Hk key) as [f Hf]; [left|]. pose proof Hf as Hin%model_field_elem. rewrite Forall_forall in Hr.
  destruct (Hr f Hin) as (d & Hd & Ha).
  destruct IH as (ds & Hds & E); [intros; apply Hk; by right|]. exists (d :: ds).
  split; [constructor; [by exists f|done]|]. cbn [tuple_values_with]. rewrite Hf. cbn [ok_or rbind]. rewrite Hd.
  cbn [ok_or rbind existsb]. rewrite E. destruct skip; cbn [andb]; [|done]. destruct (is_absent d); cbn [orb]; [done|].
  by destruct (existsb is_absent ds).
Qed.

(** The tuple of a record, unless absence is skipped and one of its datums is
    absent. *)
Definition present_tuple (m : ModelDef) (fields : list string) (skip : bool) (r : RecordView) : option (list Datum) :=
  match tuple_values r m fields skip with Ok o => o | Err _ => None end.

(** No two records with tuples have equal tuples. *)
Definition tuples_distinct (m : ModelDef) (fields : list string) (skip : bool) (records : list RecordView) : Prop :=
  ForallOrdPairs (fun a b => tuple_eqb a b = false) (omap (present_tuple m fields skip) records).

(** Records expose values the host language can represent. *)
Definition rust_record (r : RecordView) : Prop :=
  forall slot d, rv_field r slot = Ok (Some d) -> holds_at rust_node d.

Lemma accepts_fingerprint f d : field_accepts f d -> exists fp, fingerprint_datum (fd_ty f) d = Ok fp.
Proof.
  unfold field_accepts, fingerprint_datum. intros H. eexists. apply check_then. split; [|done].
  destruct d; [done|exact H|exact H].
Qed.

(** A tuple taken from some conforming record. *)
Definition tuple_of (m : ModelDef) (fields : list string) (t : list Datum) : Prop :=
  exists r, rust_record r /\ Forall2 (tuple_entry m r) fields t.

Definition tuple_digest (m : ModelDef) (fields : list string) (t : list Datum) : Fingerprint :=
  match tuple_fingerprint m fields t with Ok fp => fp | Err _ => [] end.

Lemma tuple_part_ok m r key d : tuple_entry m r key d -> exists part, tuple_part m (key, d) = Ok part.
Proof.
  intros (f & Hf & _ & Ha). unfold tuple_part. cbn [fst snd]. rewrite Hf. cbn [ok_or rbind].
  destruct (accepts_fingerprint f d Ha) as [fp ->]. cbn [rbind]. eauto.
Qed.

Lemma tuple_fingerprint_ok m fields t : tuple_of m fields t -> tuple_fingerprint m fields t = Ok (tuple_digest m fields t).
Proof.
  intros (r & _ & H). unfold tuple_digest. enough (exists fp, tuple_fingerprint m fields t = Ok fp) as [fp ->] by done.
  unfold tuple_fingerprint.
  enough (exists parts, mapR (tuple_part m) (combine fields t) = Ok parts) as [parts ->] by (cbn [rbind]; eauto).
  induction H as [|key d fields t Hd _ [parts E%mapR_ok]]; [by exists []|].
  destruct (tuple_part_ok _ _ _ _ Hd) as [part Hp]. exists (part :: parts). apply mapR_ok. by constructor.
Qed.

Lemma tuple_part_congr m ra rb key d e : rust_record ra -> rust_record rb ->
  tuple_entry m ra key d -> tuple_entry m rb key e -> datum_eqb d e = true ->
  tuple_part m (key, d) = tuple_part m (key, e).
Proof.
  intros Ra Rb (f & Hf & Hd & Ad) (g & Hg & He & Ae) E. assert (g = f) as -> by congruence.
  unfold tuple_part. cbn [fst snd]. rewrite Hf. cbn [ok_or rbind].
  destruct (accepts_fingerprint f d Ad) as [fd Fd], (accepts_fingerprint f e Ae) as [fe Fe]. rewrite Fd, Fe. cbn [rbind].
  by rewrite (fingerprint_datum_congr (fd_ty f) d e fd fe Fd Fe (Ra _ _ Hd) (Rb _ _ He) E).
Qed.

Lemma tuple_digest_congr m fields a b : tuple_of m fields a -> tuple_of m fields b ->
  tuple_eqb a b = true -> tuple_digest m fields a = tuple_digest m fields b.
Proof.
  intros (ra & Ra & Ha) (rb & Rb & Hb) E. unfold tuple_digest, tuple_fingerprint.
  enough (mapR (tuple_part m) (combine fields a) = mapR (tuple_part m) (combine fields b)) as -> by done.
  revert b Hb E. induction Ha as [|key d fields a Hd _ IH]; intros [|e b] Hb E; try done.
  apply Forall2_cons in Hb as [He Hb]. cbn [tuple_eqb forallb2] in E. apply andb_true_iff in E as [Ed Eb].
  cbn [combine mapR]. rewrite (tuple_part_congr m ra rb key d e) by done. fold (mapR (tuple_part m)).
  by rewrite (IH b Hb Eb).
Qed.

(** On conforming records the loop compares tuples in buckets. *)
Lemma unique_step_bucket m spec seen r : record_conforms m r -> rust_record r ->
  (forall k, k ∈ ut_fields spec -> exists f, model_field m k = Some f) ->
  unique_step m spec seen r =
  bucket_step (present_tuple m (ut_fields spec) (ut_skip_absent spec)) (tuple_digest m (ut_fields spec)) tuple_eqb
    (ut_code spec) seen r.
Proof.
  intros Hr Hrust Hk. unfold unique_step, bucket_step, present_tuple.
  destruct (tuple_values_ok "DATASET-CONSTRAINT-001" "DATASET-RECORD-002" m _ (ut_skip_absent spec) r Hr Hk)
    as (ds & Hds & E). unfold tuple_values. rewrite E. cbn [rbind].
  destruct (ut_skip_absent spec && existsb is_absent ds); [done|].
  rewrite tuple_fingerprint_ok by (by exists r). done.
Qed.

Lemma foldR_ext_in {A St} (f g : St -> A -> Result St) l s :
  (forall s x, x ∈ l -> f s x = g s x) -> foldR f l s = foldR g l s.
Proof.
  revert s. induction l as [|x l IH]; intros s H; cbn [foldR]; [done|]. rewrite H by left.
  destruct (g s x); cbn [rbind]; [|done]. apply IH. intros; apply H; by right.
Qed.

Lemma present_tuple_of m fields skip r t : record_conforms m r -> rust_record r ->
  (forall k, k ∈ fields -> exists f, model_field m k = Some f) ->
  present_tuple m fields skip r = Some t -> tuple_of m fields t.
Proof.
  intros Hr Hrust Hk. unfold present_tuple, tuple_values.
  destruct (tuple_values_ok "DATASET-CONSTRAINT-001" "DATASET-RECORD-002" m _ skip r Hr Hk) as (ds & Hds & ->).
  destruct (skip && existsb is_absent ds); [done|]. intros [= <-]. by exists r.
Qed.

Lemma validate_unique_tuple_ok m spec records : Forall (record_conforms m) records -> Forall rust_record records ->
  (forall k, k ∈ ut_fields spec -> exists f, model_field m k = Some f) ->
  validate_unique_tuple records m spec = Ok tt <-> tuples_distinct m (ut_fields spec) (ut_skip_absent spec) records.
Proof.
  intros Hr Hrust Hk. rewrite Forall_forall in Hr. rewrite Forall_forall in Hrust.
  unfold validate_unique_tuple, tuples_distinct.
  rewrite (foldR_ext_in _ (bucket_step (present_tuple m (ut_fields spec) (ut_skip_absent spec))
    (tuple_digest m (ut_fields spec)) tuple_eqb (ut_code spec)))
    by (intros s x Hx; apply unique_step_bucket; auto).
  rewrite <- (bucket_loop_empty (K:=Fingerprint) (present_tuple m (ut_fields spec) (ut_skip_absent spec))
    (tuple_digest m (ut_fields spec)) tuple_eqb (ut_code spec) records).
  - rewrite rbind_ok. split; [by intros (r & H & _); exists r|]. intros [r H]. by exists r.
  - intros a b (ra & Hra & Ea)%list_elem_of_omap (rb & Hrb & Eb)%list_elem_of_omap.
    apply tuple_digest_congr; eapply present_tuple_of; try done; auto.
Qed.

Lemma validate_dataset_ok m records : constraints_known m -> Forall rust_record records ->
  validate_dataset m records = Ok tt <->
  Forall (record_conforms m) records /\
  (forall fields, md_identity m = Some fields -> tuples_distinct m fields false records) /\
  (forall fields, fields ∈ md_unique m -> tuples_distinct m fields true records).
Proof.
  intros [Ki Ku] Hrust. unfold validate_dataset. rewrite !check_then, !forR_ok.
  assert (E : Forall (fun r => validate_record_against m r = Ok tt) records <-> Forall (record_conforms m) records)
    by (apply Forall_iff; intros r; apply validate_record_against_ok).
  rewrite E. split.
  - intros (Hr & Hi & Hu). rewrite Forall_forall in Hu. split_and!; [done| |].
    + intros fields Ef. rewrite Ef in Hi.
      exact (proj1 (validate_unique_tuple_ok m (identity_spec fields) records Hr Hrust (Ki fields Ef)) Hi).
    + intros fields Hin.
      exact (proj1 (validate_unique_tuple_ok m (unique_spec fields) records Hr Hrust (Ku fields Hin)) (Hu fields Hin)).
  - intros (Hr & Hi & Hu). split_and!; [done| |].
    + destruct (md_identity m) as [fields|] eqn:Ef; [|done].
      exact (proj2 (validate_unique_tuple_ok m (identity_spec fields) records Hr Hrust (Ki fields eq_refl)) (Hi fields eq_refl)).
    + apply Forall_forall. intros fields Hin.
      exact (proj2 (validate_unique_tuple_ok m (unique_spec fields) records Hr Hrust (Ku fields Hin)) (Hu fields Hin)).
Qed.

(** C16: validation of materialized data under a frozen model accepts exactly
    the data whose records conform to the model and in which no two records
    have equal identity tuples, or equal unique tuples without absent datums:
    comparing within fingerprint buckets only misses no duplicate. *)
Theorem validate_dataset_exact b m records : freeze b = Ok m -> Forall rust_record records ->
  validate_dataset m records = Ok tt <->
  Forall (record_conforms m) records /\
  (forall fields, md_identity m = Some fields -> tuples_distinct m fields false records) /\
  (forall fields, fields ∈ md_unique m -> tuples_distinct m fields true records).
Proof. intros Hf%frozen_constraints_known. by apply validate_dataset_ok. Qed.
End DataSpec.

(** ** Examples *)
Definition sample_other_row : DynRow (F:=sample_foreign) := mkDynRow sample_model [Null; DValue (VInt 8)].

Lemma validate_dataset_exact_witness :
  validate_dataset (F:=sample_foreign) sample_model [row_view sample_row; row_view sample_other_row] = Ok tt /\
  tuples_distinct sample_model ["id"%stdpp] false [row_view sample_row; row_view sample_other_row].
Proof.
  assert (H : validate_dataset (F:=sample_foreign) sample_model [row_view sample_row; row_view sample_other_row] = Ok tt)
    by reflexivity.
  split; [exact H|].
  apply (validate_dataset_exact sample_builder sample_model [row_view sample_row; row_view sample_other_row]).
  - exact sample_freeze.
  - repeat constructor; intros [|[|slot]] d E; simpl in E; inversion E; reflexivity.
  - exact H.
  - reflexivity.
Defined.
