(* ===== verification/Executor.v ===== *)
(** * The in-memory executor ([engines/memory/src/executor.rs], [executor/])

    Every logical operation on materialized rows, the row and byte limits, and
    the plan loop.  A plan runs under no timeout (the clock is not modelled):
    [check_timeout] always passes. *)
From Stdlib Require Import ZArith Lia.
From S2P Require Import Prelude Foreign Truth BTree Types Values Sums Fingerprint Model Expr Row ExprPrepare Plan.

Local Open Scope Z_scope.

Section Rows.
Context {F : Foreign}.

(** ** Rows ([crates/dol-engine/src/stream], [executor/row.rs]) *)
Inductive ExecutionRow :=
| RModel (r : DynRow)
| RValue (d : Datum)
| RProduct (rows : list ExecutionRow)
| RNullable (row : option ExecutionRow).

(** [#[derive(PartialEq)]]. *)
Fixpoint execution_row_eqb (a b : ExecutionRow) : bool :=
  match a, b with
  | RModel x, RModel y => row_eqb x y
  | RValue x, RValue y => datum_eqb x y
  | RProduct xs, RProduct ys =>
      (fix go xs ys := match xs, ys with
                       | [], [] => true
                       | x :: xs', y :: ys' => execution_row_eqb x y && go xs' ys'
                       | _, _ => false
                       end) xs ys
  | RNullable None, RNullable None => true
  | RNullable (Some x), RNullable (Some y) => execution_row_eqb x y
  | _, _ => false
  end.

Fixpoint execution_row_bytes (r : ExecutionRow) : Z :=
  match r with
  | RModel row => row_logical_bytes row
  | RValue d => datum_logical_bytes d
  | RProduct rows => fold_left (fun size v => sat_add size (execution_row_bytes v)) rows 8
  | RNullable None => 1
  | RNullable (Some v) => sat_add 1 (execution_row_bytes v)
  end.

Inductive ScopeRecord := ScopePresent (r : DynRow) | ScopeNull (m : ModelDef).

Definition is_null_extended (s : ScopeRecord) : bool := match s with ScopeNull _ => true | _ => false end.

(** [RecordView for ScopeRecord]. *)
Definition scope_view (s : ScopeRecord) : RecordView :=
  match s with
  | ScopePresent r => row_view r
  | ScopeNull m => mkRecordView (Ok m) (fun slot => Ok (option_map (fun _ => Null) (md_fields m !! slot)))
  end.

Record WorkingRow := mkWorkingRow { wr_output : ExecutionRow; wr_scopes : list ScopeRecord }.

Definition same_output (a b : WorkingRow) : bool := execution_row_eqb (wr_output a) (wr_output b).

Definition bind_scope (c : EvalContext) (s : ScopeRecord) : EvalContext :=
  if is_null_extended s then with_null_extended_record c (scope_view s) else with_record c (scope_view s).

Definition evaluation_context (outer : list ScopeRecord) (row : WorkingRow) (outer_scope_count : nat)
  (ps : Parameters) : EvalContext :=
  fold_left bind_scope (wr_scopes row)
    (fold_left bind_scope (take outer_scope_count outer) (with_parameters eval_context_new ps)).

Definition combined_scopes (outer : list ScopeRecord) (row : WorkingRow) : list ScopeRecord := outer ++ wr_scopes row.

(** ** Limits *)
Record ExecutionLimits := mkExecutionLimits {
  max_materialized_rows : option Z;
  max_materialized_bytes : option Z;
  max_plan_nodes : nat;
  max_expression_nodes : nat;
  max_concurrency : nat
}.

Definition enforce_row_limit (limits : ExecutionLimits) (rows : nat) : Result unit :=
  match max_materialized_rows limits with
  | Some max => guard (negb (max <? Z.of_nat rows)) "ENGINE-LIMIT-004"
  | None => Ok tt
  end.

Definition enforce_bytes {A} (limits : ExecutionLimits) (size : A -> Z) (rows : list A) : Result unit :=
  match max_materialized_bytes limits with
  | Some max => guard (negb (max <? fold_left (fun total r => sat_add total (size r)) rows 0)) "ENGINE-LIMIT-005"
  | None => Ok tt
  end.
Definition enforce_dyn_row_byte_limit limits (rows : list DynRow) := enforce_bytes limits row_logical_bytes rows.
Definition enforce_working_byte_limit limits (rows : list WorkingRow) :=
  enforce_bytes limits (fun r => execution_row_bytes (wr_output r)) rows.
Definition enforce_byte_limit limits (rows : list ExecutionRow) := enforce_bytes limits execution_row_bytes rows.

(** A stage's output so far and its logical bytes. *)
Definition StageRows := (list WorkingRow * Z)%type.
Definition no_rows : StageRows := ([], 0).

Definition push_stage_row (limits : ExecutionLimits) (s : StageRows) (row : WorkingRow) : Result StageRows :=
  enforce_row_limit limits (S (length (fst s))) ;;?
  let next := sat_add (snd s) (execution_row_bytes (wr_output row)) in
  guard (negb (match max_materialized_bytes limits with Some max => max <? next | None => false end)) "ENGINE-LIMIT-005" ;;?
  Ok (fst s ++ [row], next).

Definition preflight_product (limits : ExecutionLimits) (l r : nat) : Result unit :=
  guard (Z.of_nat l * Z.of_nat r <=? u64_max) "ENGINE-LIMIT-004" ;;?
  enforce_row_limit limits (l * r).

Definition value_row (d : Datum) : WorkingRow := mkWorkingRow (RValue d) [].
End Rows.

(** The values a window function has assigned so far, by input row. *)
Notation WindowValues := (list (option Datum)).

(** ** Stages.  [eval] evaluates an expression of the node on a row, under the
    node's enclosing scopes. *)
Section Stages.
Context {F : Foreign}.
Context (limits : ExecutionLimits) (eval : LogicalExpr -> WorkingRow -> Result Datum).

Notation push := (push_stage_row limits).

Definition execute_filter (input : list WorkingRow) (condition : LogicalExpr) : Result (list WorkingRow) :=
  rmap fst (foldR (fun s row =>
    let? d := eval condition row in
    match d with
    | DValue (VTruth TTrue) => push s row
    | DValue (VTruth _) => Ok s
    | _ => error "MEMORY-FILTER-001"
    end) input no_rows).

Definition evaluate_projection (p : LogicalProjection) (row : WorkingRow) : Result Datum :=
  let? values := mapR (fun e => eval e row) (lp_expressions p) in
  let? datum :=
    match lp_kind p with
    | ProjectValue => ok_or (head values) "MEMORY-PROJECT-001"
    | ProjectTuple => Ok (DValue (VTuple values))
    | ProjectRecord =>
        guard (Nat.eqb (length (lp_names p)) (length values)) "MEMORY-PROJECT-002" ;;?
        Ok (DValue (VRecord (bt_collect (combine (lp_names p) values))))
    end in
  validate_datum (lp_ty p) Required datum ;;? Ok datum.

Definition execute_project (input : list WorkingRow) (p : LogicalProjection) : Result (list WorkingRow) :=
  rmap fst (foldR (fun s row => let? d := evaluate_projection p row in push s (value_row d)) input no_rows).

Definition execute_unnest (input : list WorkingRow) (element : TypeDef) : Result (list WorkingRow) :=
  rmap fst (foldR (fun s row =>
    match wr_output row with
    | RValue Missing | RValue Null => Ok s
    | RValue (DValue (VList values)) =>
        foldR (fun s v => validate_datum element Required v ;;? push s (value_row v)) values s
    | RValue (DValue _) => error "MEMORY-UNNEST-002"
    | _ => error "MEMORY-UNNEST-001"
    end) input no_rows).

Definition execute_slice (input : list WorkingRow) (offset : Z) (limit : option Z) : list WorkingRow :=
  let rest := drop (Z.to_nat offset) input in
  match limit with Some n => take (Z.to_nat n) rest | None => rest end.

(** ** Sorting and duplicates ([executor/ops.rs]) *)
Record KeyedRow := mkKeyedRow { kr_position : nat; kr_values : list Datum; kr_row : WorkingRow }.

Definition direction_ordering (d : SortDirection) (o : comparison) : comparison :=
  match d with Ascending => o | Descending => reverse_ordering o end.

(** The first key that distinguishes two rows. *)
Fixpoint compare_key_lists (l r : list Datum) (keys : list SortExpr) : comparison :=
  match l, r, keys with
  | a :: l', b :: r', k :: keys' =>
      match direction_ordering (se_direction k) (default Eq (compare_datums a b)) with
      | Eq => compare_key_lists l' r' keys'
      | o => o
      end
  | _, _, _ => Eq
  end.

Definition compare_keys (keys : list SortExpr) (l r : KeyedRow) : comparison :=
  match compare_key_lists (kr_values l) (kr_values r) keys with
  | Eq => Nat.compare (kr_position l) (kr_position r)
  | o => o
  end.

Definition evaluate_keys (c : string) (keys : list SortExpr) (row : WorkingRow) : Result (list Datum) :=
  let? values := mapR (fun k => eval (se_expression k) row) keys in
  forR (fun v => match compare_datums v v with Some _ => Ok tt | None => error c end) values ;;?
  Ok values.

Definition execute_sort (input : list WorkingRow) (keys : list SortExpr) : Result (list WorkingRow) :=
  let? keyed := mapR (fun e =>
    let? values := evaluate_keys "MEMORY-SORT-001" keys (snd e) in
    Ok (mkKeyedRow (fst e) values (snd e))) (imap (fun i row => (i, row)) input) in
  Ok (map kr_row (sort_by (compare_keys keys) keyed)).

Definition push_unique (s : StageRows) (candidate : WorkingRow) : Result StageRows :=
  if existsb (fun existing => same_output existing candidate) (fst s) then Ok s else push s candidate.

Definition execute_distinct (input : list WorkingRow) : Result (list WorkingRow) :=
  rmap fst (foldR push_unique input no_rows).

Definition execute_set (l r : list WorkingRow) (operator : SetOperator) : Result (list WorkingRow) :=
  let in_right row := existsb (fun candidate => same_output candidate row) r in
  rmap fst
    match operator with
    | SUnionAll => foldR push (l ++ r) no_rows
    | SUnion => foldR push_unique (l ++ r) no_rows
    | SIntersect => foldR (fun s row => if in_right row then push_unique s row else Ok s) l no_rows
    | SExcept => foldR (fun s row => if negb (in_right row) then push_unique s row else Ok s) l no_rows
    end.

(** ** Joins *)
Definition left_nullable (k : JoinKind) : bool := match k with JRight | JFull => true | _ => false end.
Definition right_nullable (k : JoinKind) : bool := match k with JLeft | JFull => true | _ => false end.

Definition wrap_present (output : ExecutionRow) (nullable : bool) : ExecutionRow :=
  if nullable then RNullable (Some output) else output.

Definition combined_row (l r : WorkingRow) (k : JoinKind) : WorkingRow :=
  mkWorkingRow (RProduct [wrap_present (wr_output l) (left_nullable k); wrap_present (wr_output r) (right_nullable k)])
    (wr_scopes l ++ wr_scopes r).

Definition unmatched_left (l : WorkingRow) (right_shape : list ModelDef) (k : JoinKind) : WorkingRow :=
  mkWorkingRow (RProduct [wrap_present (wr_output l) (left_nullable k); RNullable None])
    (wr_scopes l ++ map ScopeNull right_shape).

Definition unmatched_right (r : WorkingRow) (left_shape : list ModelDef) (k : JoinKind) : WorkingRow :=
  mkWorkingRow (RProduct [RNullable None; wrap_present (wr_output r) (right_nullable k)])
    (map ScopeNull left_shape ++ wr_scopes r).

Definition pair_matches (k : JoinKind) (condition : option LogicalExpr) (l r : WorkingRow) : Result bool :=
  match k with
  | JCross => Ok true
  | _ =>
      let? condition := ok_or condition "MEMORY-JOIN-002" in
      let? d := eval condition (combined_row l r JInner) in
      match d with
      | DValue (VTruth TTrue) => Ok true
      | DValue (VTruth _) => Ok false
      | _ => error "MEMORY-JOIN-003"
      end
  end.

Definition is_some {A} (o : option A) : bool := match o with Some _ => true | None => false end.

(** One left row against every right row: the output, whether the left row
    matched, and which right rows have matched so far. *)
Definition join_pair (k : JoinKind) (condition : option LogicalExpr) (l : WorkingRow)
  (s : StageRows * bool * list bool) (e : nat * WorkingRow) : Result (StageRows * bool * list bool) :=
  let '(out, left_matched, right_matched) := s in
  let? matches := pair_matches k condition l (snd e) in
  if matches then
    let? out := push out (combined_row l (snd e) k) in
    Ok (out, true, <[fst e := true]> right_matched)
  else Ok s.

Definition join_left (k : JoinKind) (condition : option LogicalExpr) (right : list WorkingRow)
  (right_shape : list ModelDef) (s : StageRows * list bool) (l : WorkingRow) : Result (StageRows * list bool) :=
  let? r := foldR (join_pair k condition l) (imap (fun i row => (i, row)) right) (fst s, false, snd s) in
  let '(out, left_matched, right_matched) := r in
  if negb left_matched && right_nullable k then
    let? out := push out (unmatched_left l right_shape k) in Ok (out, right_matched)
  else Ok (out, right_matched).

Definition execute_join (left right : list WorkingRow) (left_shape right_shape : list ModelDef) (k : JoinKind)
  (condition : option LogicalExpr) : Result (list WorkingRow) :=
  let cross := bool_decide (k = JCross) in
  guard (negb (cross && is_some condition)) "MEMORY-JOIN-001" ;;?
  guard (negb (negb cross && negb (is_some condition))) "MEMORY-JOIN-002" ;;?
  (if cross then preflight_product limits (length left) (length right) else Ok tt) ;;?
  let? s := foldR (join_left k condition right right_shape) left (no_rows, replicate (length right) false) in
  let '(out, right_matched) := s in
  rmap fst
    (if left_nullable k then
       foldR (fun out e =>
         if negb (default false (right_matched !! fst e))
         then push out (unmatched_right (snd e) left_shape k) else Ok out)
         (imap (fun i row => (i, row)) right) out
     else Ok out).

(** ** Aggregation ([executor/aggregate.rs]) *)
Definition required_input (a : LogicalAggregate) : Result LogicalExpr := ok_or (la_input a) "MEMORY-AGG-004".

Definition evaluate_sum_for_rows (rows : list WorkingRow) (input : LogicalExpr) : Result Datum :=
  let? concrete := foldR (fun concrete row =>
    let? d := eval input row in
    match d with DValue v => Ok (concrete ++ [v]) | _ => Ok concrete end) rows [] in
  match concrete with
  | [] => Ok Null
  | _ =>
      let? sum := sum_exact_values concrete in
      match sum with
      | None => Ok Null
      | Some v => validate_datum (pe_ty input) Optional (DValue v) ;;? Ok (DValue v)
      end
  end.

Definition extreme_step (input : LogicalExpr) (maximum : bool) (selected : option Datum) (row : WorkingRow)
  : Result (option Datum) :=
  let? candidate := eval input row in
  match candidate with
  | DValue _ =>
      let? replace :=
        match selected with
        | None => Ok true
        | Some current =>
            let? o := ok_or (compare_datums candidate current) "MEMORY-AGG-003" in
            Ok (if maximum then comparison_eqb o Gt else comparison_eqb o Lt)
        end in
      Ok (if replace then Some candidate else selected)
  | _ => Ok selected
  end.

Definition evaluate_extreme (rows : list WorkingRow) (input : LogicalExpr) (maximum : bool) : Result Datum :=
  let? selected := foldR (extreme_step input maximum) rows None in
  Ok (default Null selected).

Definition evaluate_one (rows : list WorkingRow) (a : LogicalAggregate) : Result Datum :=
  let? datum :=
    match la_kind a with
    | CountRows => Ok (DValue (VUInt (zlen rows)))
    | CountPresent =>
        let? input := required_input a in
        let? count := foldR (fun count row =>
          let? d := eval input row in
          match d with
          | DValue _ => guard (count + 1 <=? u128_max) "MEMORY-AGG-002" ;;? Ok (count + 1)
          | _ => Ok count
          end) rows 0 in
        Ok (DValue (VUInt count))
    | AggSum => let? input := required_input a in evaluate_sum_for_rows rows input
    | AggMin => let? input := required_input a in evaluate_extreme rows input false
    | AggMax => let? input := required_input a in evaluate_extreme rows input true
    end in
  validate_datum (la_ty a) Required datum ;;? Ok datum.

Definition evaluate_selection (rows : list WorkingRow) (s : LogicalAggregateSelection) : Result Datum :=
  let? values := mapR (evaluate_one rows) (ls_aggregates s) in
  let? datum := match ls_kind s with
                | SelectValue => ok_or (head values) "MEMORY-AGG-001"
                | SelectTuple => Ok (DValue (VTuple values))
                end in
  validate_datum (ls_ty s) Required datum ;;? Ok datum.

(** Rows grouped by key in order of first appearance. *)
Fixpoint add_to_group {A} (key : Datum) (x : A) (groups : list (Datum * list A)) : list (Datum * list A) :=
  match groups with
  | [] => [(key, [x])]
  | (k, xs) :: rest => if datum_eqb k key then (k, xs ++ [x]) :: rest else (k, xs) :: add_to_group key x rest
  end.

Definition group_rows {A} (row_of : A -> WorkingRow) (p : LogicalProjection) (input : list A)
  : Result (list (Datum * list A)) :=
  foldR (fun groups x => let? key := evaluate_projection p (row_of x) in Ok (add_to_group key x groups)) input [].

Definition build_groups (input : list WorkingRow) (groups : option LogicalProjection)
  : Result (list (option Datum * list WorkingRow)) :=
  match groups with
  | None => Ok [(None, input)]
  | Some p => rmap (map (fun g => (Some (fst g), snd g))) (group_rows (fun row => row) p input)
  end.

Definition execute_aggregate (input : list WorkingRow) (groups : option LogicalProjection)
  (selection : LogicalAggregateSelection) : Result (list WorkingRow) :=
  let? grouped := build_groups input groups in
  rmap fst (foldR (fun s g =>
    let? aggregate := evaluate_selection (snd g) selection in
    push s (value_row (match fst g with
                       | Some key => DValue (VTuple [key; aggregate])
                       | None => aggregate
                       end))) grouped no_rows).

(** ** Windows ([executor/window.rs]) *)
Record OrderedRow := mkOrderedRow { or_input_index : nat; or_position : nat; or_keys : list Datum }.

Definition compare_ordered_rows (order : list SortExpr) (l r : OrderedRow) : comparison :=
  match compare_key_lists (or_keys l) (or_keys r) order with
  | Eq => Nat.compare (or_position l) (or_position r)
  | o => o
  end.

Definition build_partitions (input : list WorkingRow) (partition : option LogicalProjection) : Result (list (list nat)) :=
  match partition with
  | None => Ok [seq 0 (length input)]
  | Some p => rmap (map (fun g => map fst (snd g))) (group_rows snd p (imap (fun i row => (i, row)) input))
  end.

Definition order_partition (input : list WorkingRow) (partition : list nat) (order : list SortExpr)
  : Result (list OrderedRow) :=
  let? rows := mapR (fun e =>
    let? row := ok_or (input !! snd e) "MEMORY-WINDOW-002" in
    let? keys := evaluate_keys "MEMORY-WINDOW-003" order row in
    Ok (mkOrderedRow (snd e) (fst e) keys)) (imap (fun i index => (i, index)) partition) in
  Ok (match order with [] => rows | _ => sort_by (compare_ordered_rows order) rows end).

Definition store_value (output : WindowValues) (index : nat) (d : Datum) : Result WindowValues :=
  let? _ := ok_or (output !! index) "MEMORY-WINDOW-006" in Ok (<[index := Some d]> output).

Definition store_rank (output : WindowValues) (index rank : nat) : Result WindowValues :=
  guard (Z.of_nat rank <=? u64_max) "MEMORY-WINDOW-005" ;;? store_value output index (DValue (VUInt (Z.of_nat rank))).

Definition assign_row_number (ordered : list OrderedRow) (output : WindowValues) : Result WindowValues :=
  foldR (fun output e => store_rank output (or_input_index (snd e)) (S (fst e))) (imap (fun i row => (i, row)) ordered) output.

Definition datums_eqb (a b : list Datum) : bool :=
  Nat.eqb (length a) (length b) && forallb (fun p => datum_eqb (fst p) (snd p)) (combine a b).

(** The running rank and dense rank, one row after the other. *)
Definition rank_step (ordered : list OrderedRow) (dense : bool) (s : nat * nat * WindowValues) (e : nat * OrderedRow)
  : Result (nat * nat * WindowValues) :=
  let '(rank, dense_rank, output) := s in
  let '(position, row) := e in
  let? ranks :=
    match position with
    | O => Ok (rank, dense_rank)
    | S previous_position =>
        let? previous := ok_or (ordered !! previous_position) "MEMORY-WINDOW-004" in
        if negb (datums_eqb (or_keys previous) (or_keys row)) then Ok (S position, S dense_rank) else Ok (rank, dense_rank)
    end in
  let? output := store_rank output (or_input_index row) (if dense then snd ranks else fst ranks) in
  Ok (fst ranks, snd ranks, output).

Definition assign_rank (ordered : list OrderedRow) (output : WindowValues) (dense : bool) : Result WindowValues :=
  rmap snd (foldR (rank_step ordered dense) (imap (fun i row => (i, row)) ordered) (1%nat, 1%nat, output)).

Definition frame_start (b : WindowFrameBound) (position len : Z) : Z :=
  match b with
  | UnboundedPreceding => 0
  | Preceding distance => Z.max 0 (position - distance)
  | CurrentRow => Z.min position len
  | Following distance => Z.min (sat_add position distance) len
  | UnboundedFollowing => len
  end.

Definition frame_end_exclusive (b : WindowFrameBound) (position len : Z) : Z :=
  match b with
  | UnboundedPreceding => 0
  | Preceding distance =>
      if position <? distance then 0 else Z.min (sat_add (Z.max 0 (position - distance)) 1) len
  | CurrentRow => Z.min (sat_add position 1) len
  | Following distance => Z.min (sat_add (sat_add position distance) 1) len
  | UnboundedFollowing => len
  end.

Definition frame_range (f : RowsFrame) (position len : Z) : Z * Z :=
  let start := frame_start (rf_start f) position len in
  let stop := frame_end_exclusive (rf_end f) position len in
  (Z.min start stop, stop).

Definition frame_indices (f : RowsFrame) (position len : nat) : list nat :=
  let '(start, stop) := frame_range f (Z.of_nat position) (Z.of_nat len) in
  seq (Z.to_nat start) (Z.to_nat (stop - start)).

Definition assign_sum (input : list WorkingRow) (ordered : list OrderedRow) (w : LogicalWindow) (output : WindowValues)
  : Result WindowValues :=
  let? expression := ok_or (lw_input w) "MEMORY-WINDOW-007" in
  let? frame := ok_or (lw_frame w) "MEMORY-WINDOW-008" in
  foldR (fun output e =>
    let? frame_rows := mapR (fun i =>
      let? row := ok_or (ordered !! i) "MEMORY-WINDOW-009" in
      ok_or (input !! or_input_index row) "MEMORY-WINDOW-010") (frame_indices frame (fst e) (length ordered)) in
    let? datum := evaluate_sum_for_rows frame_rows expression in
    store_value output (or_input_index (snd e)) datum) (imap (fun i row => (i, row)) ordered) output.

Definition assign_partition (input : list WorkingRow) (w : LogicalWindow) (output : WindowValues) (partition : list nat)
  : Result WindowValues :=
  let? ordered := order_partition input partition (lw_order w) in
  match lw_kind w with
  | RowNumber => assign_row_number ordered output
  | Rank => assign_rank ordered output false
  | DenseRank => assign_rank ordered output true
  | WindowSum => assign_sum input ordered w output
  end.

Definition execute_window (input : list WorkingRow) (w : LogicalWindow) : Result (list WorkingRow) :=
  let? partitions := build_partitions input (lw_partition w) in
  let? values := foldR (assign_partition input w) partitions (replicate (length input) None) in
  rmap fst (foldR (fun s e =>
    let? datum := ok_or (default None (values !! fst e)) "MEMORY-WINDOW-001" in
    validate_datum (lw_ty w) Required datum ;;?
    push s (mkWorkingRow (RProduct [wr_output (snd e); RValue datum]) (wr_scopes (snd e))))
    (imap (fun i row => (i, row)) input) no_rows).
End Stages.

(** ** Sessions *)

(** The rows of the stages executed so far, by plan index. *)
Notation StageResults := (list (option (list WorkingRow))).

Section Session.
Context {F : Foreign}.

Record MemoryTable := mkMemoryTable { mt_model : ModelDef; mt_rows : list DynRow }.
Definition Tables := list (string * MemoryTable).

Context (tables : Tables) (plan : LogicalPlan) (parameters : Parameters) (limits : ExecutionLimits).

Definition execute_source (m : ModelDef) : Result (list WorkingRow) :=
  let? table := ok_or (bt_get (md_key m) tables) "MEMORY-SOURCE-001" in
  guard (bool_decide (md_fingerprint (mt_model table) = md_fingerprint m)) "MEMORY-SOURCE-002" ;;?
  enforce_row_limit limits (length (mt_rows table)) ;;?
  enforce_dyn_row_byte_limit limits (mt_rows table) ;;?
  Ok (map (fun r => mkWorkingRow (RModel r) [ScopePresent r]) (mt_rows table)).

(** Evaluating in a row's scopes, below those of the enclosing rows; [exists_in]
    runs a subplan in given outer scopes. *)
Definition evaluate_expr (exists_in : nat -> list ScopeRecord -> Result Truth) (outer : list ScopeRecord)
  (e : LogicalExpr) (row : WorkingRow) : Result Datum :=
  let context := evaluation_context outer row (pe_outer_scope_count e) parameters in
  let existential_outer := combined_scopes (take (pe_outer_scope_count e) outer) row in
  evaluate_datum_with_exists (fun subquery => exists_in subquery existential_outer) e context.

Definition input_rows (results : StageResults) (id : nat) : Result (list WorkingRow) :=
  ok_or (default None (results !! id)) "MEMORY-EXEC-003".

Definition shape_for (shapes : list (list ModelDef)) (id : nat) : Result (list ModelDef) :=
  ok_or (shapes !! id) "MEMORY-EXEC-005".

Definition shape_step (shapes : list (list ModelDef)) (n : LogicalNode) : Result (list (list ModelDef)) :=
  let? shape :=
    match n with
    | NSource m _ => Ok [m]
    | NFilter i _ | NWindow i _ | NSort i _ | NDistinct i | NSlice i _ _ => shape_for shapes i
    | NProject _ _ | NAggregate _ _ _ | NUnnest _ _ => Ok []
    | NJoin l r _ _ => let? l := shape_for shapes l in let? r := shape_for shapes r in Ok (l ++ r)
    | NSet l _ _ => shape_for shapes l
    end in
  Ok (shapes ++ [shape]).

Definition scope_shapes : Result (list (list ModelDef)) := foldR shape_step (plan_nodes plan) [].

Definition execute_stage (shapes : list (list ModelDef)) (exists_in : nat -> list ScopeRecord -> Result Truth)
  (results : StageResults) (outer : list ScopeRecord) (n : LogicalNode) : Result (list WorkingRow) :=
  let eval := evaluate_expr exists_in outer in
  match n with
  | NSource m _ => execute_source m
  | NFilter i condition => let? input := input_rows results i in execute_filter limits eval input condition
  | NProject i p => let? input := input_rows results i in execute_project limits eval input p
  | NAggregate i g a => let? input := input_rows results i in execute_aggregate limits eval input g a
  | NUnnest i element => let? input := input_rows results i in execute_unnest limits input element
  | NWindow i w => let? input := input_rows results i in execute_window limits eval input w
  | NSort i keys => let? input := input_rows results i in execute_sort eval input keys
  | NDistinct i => let? input := input_rows results i in execute_distinct limits input
  | NSlice i offset limit => let? input := input_rows results i in Ok (execute_slice input offset limit)
  | NJoin l r k c =>
      let? left_rows := input_rows results l in
      let? right_rows := input_rows results r in
      let? left_shape := ok_or (shapes !! l) "MEMORY-EXEC-007" in
      let? right_shape := ok_or (shapes !! r) "MEMORY-EXEC-007" in
      execute_join limits eval left_rows right_rows left_shape right_shape k c
  | NSet l r o =>
      let? left_rows := input_rows results l in
      let? right_rows := input_rows results r in
      execute_set limits left_rows right_rows o
  end.

(** The nodes [root] needs: a stack search. *)
Fixpoint closure_loop (fuel : nat) (stack : list nat) (needed : list bool) : Result (list bool) :=
  match fuel with
  | O => Ok needed
  | S fuel' =>
      match stack with
      | [] => Ok needed
      | id :: rest =>
          match needed !! id with
          | None => error "MEMORY-EXEC-005"
          | Some true => closure_loop fuel' rest needed
          | Some false =>
              let? node := ok_or (plan_nodes plan !! id) "MEMORY-EXEC-004" in
              closure_loop fuel' (rev (node_inputs node) ++ rest) (<[id := true]> needed)
          end
      end
  end.

Definition structural_closure (root : nat) : Result (list bool) :=
  let n := length (plan_nodes plan) in closure_loop (2 * n + 2) [root] (replicate n false).

(** One index of the plan loop. *)
Definition run_index (shapes : list (list ModelDef)) (exists_in : nat -> list ScopeRecord -> Result Truth)
  (needed : list bool) (outer : list ScopeRecord) (results : StageResults) (index : nat) : Result StageResults :=
  if default false (needed !! index) then
    let? node := ok_or (plan_nodes plan !! index) "MEMORY-EXEC-004" in
    let? rows := execute_stage shapes exists_in results outer node in
    enforce_row_limit limits (length rows) ;;?
    enforce_working_byte_limit limits rows ;;?
    let? _ := ok_or (results !! index) "MEMORY-EXEC-004" in
    Ok (<[index := Some rows]> results)
  else Ok results.

Definition run_subplan (shapes : list (list ModelDef)) (exists_in : nat -> list ScopeRecord -> Result Truth)
  (root : nat) (outer : list ScopeRecord) : Result (list WorkingRow) :=
  let? needed := structural_closure root in
  let? results := foldR (run_index shapes exists_in needed outer) (seq 0 (S root))
                    (replicate (length (plan_nodes plan)) None) in
  ok_or (default None (results !! root)) "MEMORY-EXEC-002".

Definition rows_exist (rows : list WorkingRow) : Truth := match rows with [] => TFalse | _ => TTrue end.

(** [depth] nested existential evaluations are still allowed. *)
Fixpoint execute_subplan (shapes : list (list ModelDef)) (depth : nat) (root : nat) (outer : list ScopeRecord)
  : Result (list WorkingRow) :=
  match depth with
  | O => run_subplan shapes (fun _ _ => error "MEMORY-EXISTS-001") root outer
  | S depth' =>
      run_subplan shapes (fun subquery outer => rmap rows_exist (execute_subplan shapes depth' subquery outer)) root outer
  end.

Definition max_existential_depth : nat := 256.

(** [ExecutionLimits::validate_plan]. *)
Definition node_count (e : LogicalExpr) : nat := length (pe_nodes e).
Definition projection_count (p : LogicalProjection) : nat := list_sum (map node_count (lp_expressions p)).
Definition option_count {A} (f : A -> nat) (o : option A) : nat := match o with Some a => f a | None => 0 end.

Definition logical_node_expression_count (n : LogicalNode) : nat :=
  match n with
  | NSource _ _ | NUnnest _ _ | NDistinct _ | NSlice _ _ _ | NSet _ _ _ => 0
  | NFilter _ c => node_count c
  | NProject _ p => projection_count p
  | NAggregate _ g a =>
      option_count projection_count g + list_sum (map node_count (omap la_input (ls_aggregates a)))
  | NWindow _ w =>
      option_count node_count (lw_input w) + option_count projection_count (lw_partition w) +
      list_sum (map (fun k => node_count (se_expression k)) (lw_order w))
  | NSort _ keys => list_sum (map (fun k => node_count (se_expression k)) keys)
  | NJoin _ _ _ c => option_count node_count c
  end.

Definition validate_plan : Result unit :=
  guard (Nat.leb (length (plan_nodes plan)) (max_plan_nodes limits)) "ENGINE-LIMIT-001" ;;?
  guard (Nat.leb (list_sum (map logical_node_expression_count (plan_nodes plan))) (max_expression_nodes limits))
    "ENGINE-LIMIT-002" ;;?
  guard (negb (Nat.eqb (max_concurrency limits) 0)) "ENGINE-LIMIT-003".
End Session.

(** ** Results are pulled in batches ([MemoryStream]) *)
Section Stream.
Context {F : Foreign}.

Record MemoryStream := mkMemoryStream {
  ms_output : PlanOutput;
  ms_rows : list ExecutionRow;
  ms_batch_rows : nat;
  ms_cancelled : bool
}.

Definition execute (tables : Tables) (plan : LogicalPlan) (parameters : Parameters) (limits : ExecutionLimits)
  (batch_rows : nat) : Result MemoryStream :=
  validate_plan plan limits ;;?
  guard (negb (Nat.eqb batch_rows 0)) "MEMORY-EXEC-001" ;;?
  let? shapes := scope_shapes plan in
  let? root := execute_subplan tables plan parameters limits shapes max_existential_depth (plan_root plan) [] in
  let rows := map wr_output root in
  enforce_byte_limit limits rows ;;?
  Ok (mkMemoryStream (plan_output plan) rows batch_rows false).

Record ExecutionBatch := mkExecutionBatch { eb_output : PlanOutput; eb_rows : list ExecutionRow }.

Definition next_batch (s : MemoryStream) : option ExecutionBatch * MemoryStream :=
  if ms_cancelled s || match ms_rows s with [] => true | _ => false end then (None, s)
  else
    let count := Nat.min (ms_batch_rows s) (length (ms_rows s)) in
    (Some (mkExecutionBatch (ms_output s) (take count (ms_rows s))),
     mkMemoryStream (ms_output s) (drop count (ms_rows s)) (ms_batch_rows s) (ms_cancelled s)).

Definition cancel (s : MemoryStream) : MemoryStream := mkMemoryStream (ms_output s) [] (ms_batch_rows s) true.
End Stream.
