(* ===== verification/Optimize.v ===== *)
(** * The optimizer preserves execution ([crates/dol-core/src/plan/optimize.rs])

    A refinement proof: the plan loop on the optimized plan simulates the plan
    loop on the original, whatever the tables, parameters, limits and nesting
    of existential subplans, errors included. *)
From Stdlib Require Import ZArith Lia.
From S2P Require Import Prelude Foreign Truth BTree Types Values Sums Fingerprint Model Expr Row ExprPrepare Plan Executor.

Local Open Scope Z_scope.

(** ** The structural closure is reachability *)
Section Closure.
Context {F : Foreign}.
Context (nodes : list LogicalNode).

(** Inputs come before the nodes that use them. *)
Definition topological : Prop := forall i n, nodes !! i = Some n -> Forall (fun x => (x < i)%nat) (node_inputs n).

Inductive reach (root : nat) : nat -> Prop :=
| reach_root : reach root root
| reach_step i n x : reach root i -> nodes !! i = Some n -> x ∈ node_inputs n -> reach root x.

Lemma reach_trans a b c : reach a b -> reach b c -> reach a c.
Proof. intros Hab. induction 1 as [|i n x _ IH Hn Hx]; [done|]. by eapply reach_step. Qed.

Lemma reach_below root i : topological -> reach root i -> (i <= root)%nat.
Proof.
  intros T. induction 1 as [|i n x _ IH Hn Hx]; [done|].
  specialize (T _ _ Hn). rewrite Forall_forall in T. specialize (T _ Hx). lia.
Qed.

Definition unmarked (l : list bool) : nat := length (List.filter negb l).

Lemma unmarked_insert l (i : nat) : l !! i = Some false -> S (unmarked (<[i := true]> l)) = unmarked l.
Proof.
  unfold unmarked. revert i. induction l as [|b l IH]; intros [|i]; simpl; try done.
  - by intros [= ->].
  - intros H. specialize (IH _ H). destruct b; simpl; lia.
Qed.

Definition marked (l : list bool) (i : nat) : Prop := l !! i = Some true.

Lemma marked_insert l i j : (i < length l)%nat -> marked (<[i := true]> l) j <-> j = i \/ marked l j.
Proof.
  intros Hi. unfold marked. destruct (decide (j = i)) as [->|Hne].
  - rewrite list_lookup_insert_eq by done. tauto.
  - rewrite list_lookup_insert_ne by done. naive_solver.
Qed.

(** Everything a marked node needs is marked or still on the stack. *)
Definition pending (l : list bool) (stack : list nat) : Prop :=
  forall i n x, marked l i -> nodes !! i = Some n -> x ∈ node_inputs n -> marked l x \/ x ∈ stack.

Lemma node_inputs_short n : (length (node_inputs n) <= 2)%nat.
Proof. destruct n; simpl; lia. Qed.
End Closure.

Section ClosureLoop.
Context {F : Foreign}.
Context (plan : LogicalPlan).
Notation nodes := (plan_nodes plan).

Lemma closure_loop_spec fuel stack needed :
  topological nodes -> length needed = length nodes -> Forall (fun x => (x < length nodes)%nat) stack ->
  pending nodes needed stack -> (length stack + 2 * unmarked needed <= fuel)%nat ->
  exists needed', closure_loop plan fuel stack needed = Ok needed' /\ length needed' = length nodes /\
    (forall i, marked needed i \/ i ∈ stack -> marked needed' i) /\ pending nodes needed' [] /\
    (forall i, marked needed' i -> marked needed i \/ exists s, s ∈ stack /\ reach nodes s i).
Proof.
  intros T. revert stack needed. induction fuel as [|fuel IH]; intros stack needed Hl Hs Hp Hf.
  { destruct stack; [|simpl in Hf; lia]. exists needed. split_and!; [done|done| |done|auto].
    intros i [?|H]; [done|by apply not_elem_of_nil in H]. }
  destruct stack as [|id rest]; cbn [closure_loop].
  { exists needed. split_and!; [done|done| |done|auto]. intros i [?|H]; [done|by apply not_elem_of_nil in H]. }
  apply Forall_cons in Hs as [Hid Hs].
  destruct (needed !! id) as [b|] eqn:Eb; [|apply lookup_ge_None in Eb; lia].
  destruct b.
  - destruct (IH rest needed) as (needed' & E & L & M & P & R); [done|done| |simpl in Hf; lia|].
    { intros i n x Hi Hn Hx. destruct (Hp i n x Hi Hn Hx) as [?|[->|?]%elem_of_cons]; auto. }
    exists needed'. split_and!; [done|done| |done|].
    + intros i [?|[->|?]%elem_of_cons]; apply M; auto.
    + intros i [?|(s & ? & ?)]%R; [auto|]. right. exists s. split; [by right|done].
  - destruct (nodes !! id) as [n|] eqn:En; [|apply lookup_ge_None in En; lia]. simpl.
    pose proof (unmarked_insert _ _ Eb) as Hu. pose proof (node_inputs_short n) as Hn2.
    assert (Him : forall j, marked (<[id := true]> needed) j <-> j = id \/ marked needed j)
      by (intros j; apply marked_insert; lia).
    assert (Hin : forall x, x ∈ rev (node_inputs n) ++ rest <-> x ∈ node_inputs n \/ x ∈ rest).
    { intros x. by rewrite elem_of_app, rev_alt, <- rev_alt, list_elem_of_In, <- in_rev, <- list_elem_of_In. }
    destruct (IH (rev (node_inputs n) ++ rest) (<[id := true]> needed)) as (needed' & E & L & M & P & R).
    + by rewrite length_insert.
    + apply Forall_app. split; [|done]. apply Forall_rev. eapply Forall_impl; [apply (T _ _ En)|]. simpl. lia.
    + intros i m x [->|Hi]%Him Hm Hx.
      * rewrite En in Hm. injection Hm as <-. right. apply Hin. auto.
      * rewrite Him. destruct (Hp i m x Hi Hm Hx) as [?|[->|?]%elem_of_cons]; auto.
        right. apply Hin. auto.
    + rewrite length_app, length_rev. simpl in Hf. lia.
    + exists needed'. split_and!; [done|done| |done|].
      * intros i [?|[->|?]%elem_of_cons]; apply M; rewrite ?Him, ?Hin; auto.
      * intros i [[->|?]%Him|(s & [Hs'|Hs']%Hin & Hr)]%R; [|auto| |].
        -- right. exists id. split; [left|constructor].
        -- right. exists id. split; [left|]. eapply reach_trans; [|exact Hr]. eapply reach_step; [constructor|done..].
        -- right. exists s. split; [by right|done].
Qed.

Lemma structural_closure_spec root :
  topological nodes -> (root < length nodes)%nat ->
  exists needed, structural_closure plan root = Ok needed /\ length needed = length nodes /\
    forall i, marked needed i <-> reach nodes root i.
Proof.
  intros T Hr. unfold structural_closure.
  assert (U : forall n, unmarked (replicate n false) = n) by (induction n; unfold unmarked in *; simpl; auto).
  assert (N : forall i, ~ marked (replicate (length nodes) false) i).
  { intros i. unfold marked. intros [? _]%lookup_replicate. done. }
  destruct (closure_loop_spec (2 * length nodes + 2) [root] (replicate (length nodes) false))
    as (needed & E & L & M & P & R).
  - done.
  - apply length_replicate.
  - by constructor.
  - intros i n x Hi. by apply N in Hi.
  - rewrite U. simpl. lia.
  - exists needed. split_and!; [done|done|]. intros i. split.
    + intros [?|(s & Hs & ?)]%R; [by apply N in H|]. by apply list_elem_of_singleton in Hs as ->.
    + induction 1 as [|i n x _ IH Hn Hx]; [apply M; right; left|].
      destruct (P i n x IH Hn Hx) as [?|H]; [done|by apply not_elem_of_nil in H].
Qed.
End ClosureLoop.

(** ** Expressions that resolve their subplans alike evaluate alike *)
Section Expressions.
Context {F : Foreign}.
Context (r1 r2 : nat -> Result Truth).

Definition prepared_sim (a b : PreparedNode) : Prop :=
  pn_ty a = pn_ty b /\
  match pn_kind a, pn_kind b with
  | PExists q fp, PExists q' fp' => r1 q = r2 q'
  | ka, kb => ka = kb
  end.

Lemma evaluate_kind_sim a b ec (ev1 ev2 : nat -> Result Datum) :
  prepared_sim a b -> (forall id, ev1 id = ev2 id) ->
  evaluate_kind r1 ec ev1 (pn_kind a) (pn_ty a) = evaluate_kind r2 ec ev2 (pn_kind b) (pn_ty b).
Proof.
  intros [Et Hk] He. rewrite <- Et. clear Et.
  destruct (pn_kind a), (pn_kind b); simplify_eq; simpl; try done.
  - by rewrite He.
  - rewrite He. destruct (ev2 _); simpl; [|done]. by rewrite He.
  - rewrite He. destruct (ev2 _); simpl; [|done]. by rewrite (mapR_ext ev1 ev2) by auto.
  - rewrite He. destruct (ev2 _) as [v|]; simpl; [|done]. by rewrite !He.
  - by rewrite (mapR_ext ev1 ev2) by auto.
  - by rewrite Hk.
Qed.

Lemma checked_kind_sim a b ec v : prepared_sim a b ->
  checked_kind ec (pn_kind a) (pn_ty a) v = checked_kind ec (pn_kind b) (pn_ty b) v.
Proof.
  intros [<- Hk]. unfold checked_kind.
  assert (E : null_extended_field ec (pn_kind a) v = null_extended_field ec (pn_kind b) v); [|by rewrite E].
  by destruct (pn_kind a), (pn_kind b); simplify_eq.
Qed.

Lemma evaluate_node_sim nodes1 nodes2 ec fuel id :
  Forall2 prepared_sim nodes1 nodes2 ->
  evaluate_node r1 nodes1 ec fuel id = evaluate_node r2 nodes2 ec fuel id.
Proof.
  intros H. revert id. induction fuel as [|fuel IH]; intros id; simpl; [done|].
  destruct (nodes1 !! id) as [a|] eqn:Ea.
  - destruct (Forall2_lookup_l _ _ _ _ _ H Ea) as (b & -> & Hs). simpl.
    rewrite (evaluate_kind_sim a b ec _ _ Hs IH). destruct (evaluate_kind r2 _ _ _ _); simpl; [|done].
    by apply checked_kind_sim.
  - apply lookup_ge_None in Ea. rewrite (Forall2_length _ _ _ H) in Ea. by apply lookup_ge_None in Ea as ->.
Qed.
End Expressions.

Section ExprSim.
Context {F : Foreign}.
Context (ps : Parameters) (E1 E2 : nat -> list ScopeRecord -> Result Truth) (outer : list ScopeRecord).

Lemma evaluate_expr_remap e e' remap row :
  remap_plan_ids e remap = Ok e' ->
  (forall q q' scopes, q ∈ existential_dependencies e -> remap !! q = Some q' -> E1 q scopes = E2 q' scopes) ->
  evaluate_expr ps E1 outer e row = evaluate_expr ps E2 outer e' row.
Proof.
  intros (nodes & Hn%mapR_ok & [= <-])%rbind_ok H. unfold evaluate_expr, evaluate_datum_with_exists.
  cbn [pe_nodes pe_root pe_outer_scope_count].
  change (validate_evaluation_scopes (mkPreparedExpression nodes (pe_root e) (pe_ty e) (pe_expression_fingerprint e)
    (pe_bound_fingerprint e) (pe_scopes e) (pe_outer_scope_count e))) with (validate_evaluation_scopes e).
  rewrite (Forall2_length _ _ _ Hn).
  destruct (validate_evaluation_scopes e _); cbn [rbind]; [|done]. apply evaluate_node_sim.
  unfold existential_dependencies in H. revert H. induction Hn as [|n n' ns ns' Hn _ IH]; intros H; constructor.
  - unfold prepared_sim. unfold remap_prepared_node in Hn.
    destruct (pn_kind n) as [| | | | | | | |q fp] eqn:Ek; try (by injection Hn as <-; rewrite Ek).
    apply rbind_ok in Hn as (q' & Hq%ok_or_ok & [= <-]). simpl. split; [done|]. apply H; [|done].
    simpl. unfold node_existential at 1. rewrite Ek. left.
  - apply IH. intros q q' scopes Hq. apply H. simpl. apply elem_of_app. by right.
Qed.

Lemma evaluate_expr_free e row : existential_dependencies e = [] ->
  evaluate_expr ps E1 outer e row = evaluate_expr ps E2 outer e row.
Proof.
  intros H. unfold evaluate_expr, evaluate_datum_with_exists.
  destruct (validate_evaluation_scopes e _); cbn [rbind]; [|done]. apply evaluate_node_sim.
  unfold existential_dependencies in H. induction (pe_nodes e) as [|n ns IH]; constructor.
  - split; [done|]. simpl in H. apply app_nil in H as [H _]. unfold node_existential in H. by destruct (pn_kind n).
  - apply IH. simpl in H. by apply app_nil in H as [_ H].
Qed.
End ExprSim.

(** ** Stages depend on their own expressions only *)
Definition option_list {A} (o : option A) : list A := match o with Some a => [a] | None => [] end.

Section StageExt.
Context {F : Foreign}.
Context (limits : ExecutionLimits) (ev1 ev2 : LogicalExpr -> WorkingRow -> Result Datum).

Definition agree (e : LogicalExpr) : Prop := forall row, ev1 e row = ev2 e row.

Definition node_expressions (n : LogicalNode) : list LogicalExpr :=
  match n with
  | NFilter _ c => [c]
  | NProject _ p => lp_expressions p
  | NAggregate _ g a => flat_map lp_expressions (option_list g) ++ flat_map (fun x => option_list (la_input x)) (ls_aggregates a)
  | NWindow _ w =>
      option_list (lw_input w) ++ flat_map lp_expressions (option_list (lw_partition w)) ++ map se_expression (lw_order w)
  | NSort _ keys => map se_expression keys
  | NJoin _ _ _ c => option_list c
  | _ => []
  end.

Lemma filter_ext input c c' : (forall row, ev1 c row = ev2 c' row) ->
  execute_filter limits ev1 input c = execute_filter limits ev2 input c'.
Proof. intros H. unfold execute_filter. f_equal. apply foldR_ext. intros row s _. by rewrite H. Qed.

Lemma projection_ext p row : Forall agree (lp_expressions p) ->
  evaluate_projection ev1 p row = evaluate_projection ev2 p row.
Proof.
  intros H. unfold evaluate_projection. rewrite (mapR_ext _ (fun e => ev2 e row)); [done|].
  intros e He. rewrite Forall_forall in H. by apply H.
Qed.

Lemma keys_ext c keys row : Forall agree (map se_expression keys) ->
  evaluate_keys ev1 c keys row = evaluate_keys ev2 c keys row.
Proof.
  rewrite Forall_map, Forall_forall. intros H. unfold evaluate_keys.
  rewrite (mapR_ext _ (fun k => ev2 (se_expression k) row)); [done|]. intros k Hk. by apply H.
Qed.

Lemma sum_ext rows input : agree input -> evaluate_sum_for_rows ev1 rows input = evaluate_sum_for_rows ev2 rows input.
Proof.
  intros H. unfold evaluate_sum_for_rows. erewrite foldR_ext; [done|]. intros row s _. simpl. by rewrite H.
Qed.

Lemma extreme_ext rows input m : agree input -> evaluate_extreme ev1 rows input m = evaluate_extreme ev2 rows input m.
Proof.
  intros H. unfold evaluate_extreme. erewrite foldR_ext; [done|]. intros row s _. unfold extreme_step. by rewrite H.
Qed.

Lemma one_ext rows a : Forall agree (option_list (la_input a)) -> evaluate_one ev1 rows a = evaluate_one ev2 rows a.
Proof.
  intros H. unfold evaluate_one, required_input. f_equal. destruct (la_kind a); [done| | | |];
    (destruct (la_input a) as [input|]; simpl; [|done]); apply Forall_cons in H as [H _].
  - erewrite foldR_ext; [done|]. intros row s _. simpl. by rewrite H.
  - by apply sum_ext.
  - by apply extreme_ext.
  - by apply extreme_ext.
Qed.

Lemma group_ext {A} (row_of : A -> WorkingRow) p input : Forall agree (lp_expressions p) ->
  group_rows ev1 row_of p input = group_rows ev2 row_of p input.
Proof. intros H. apply foldR_ext. intros x s _. by rewrite projection_ext. Qed.

Lemma aggregate_ext input g a :
  Forall agree (node_expressions (NAggregate 0 g a)) ->
  execute_aggregate limits ev1 input g a = execute_aggregate limits ev2 input g a.
Proof.
  intros [Hg Ha]%Forall_app. unfold execute_aggregate.
  assert (Eg : build_groups ev1 input g = build_groups ev2 input g).
  { unfold build_groups. destruct g as [p|]; [|done]. f_equal. apply group_ext.
    simpl in Hg. by rewrite app_nil_r in Hg. }
  rewrite Eg. destruct (build_groups ev2 input g); simpl; [|done]. f_equal. apply foldR_ext. intros x s _.
  unfold evaluate_selection. rewrite (mapR_ext _ (evaluate_one ev2 (snd x))); [done|].
  intros y Hy. apply one_ext. apply Forall_flat_map in Ha. rewrite Forall_forall in Ha. by apply Ha.
Qed.

Lemma sort_ext input keys : Forall agree (map se_expression keys) ->
  execute_sort ev1 input keys = execute_sort ev2 input keys.
Proof.
  intros H. unfold execute_sort. erewrite mapR_ext; [done|]. intros [i row] _. simpl. by rewrite (keys_ext _ _ _ H).
Qed.

Lemma order_partition_ext input l order : Forall agree (map se_expression order) ->
  order_partition ev1 input l order = order_partition ev2 input l order.
Proof.
  intros H. unfold order_partition. erewrite mapR_ext; [done|]. intros [i index] _. simpl.
  destruct (ok_or (input !! index) _); simpl; [|done]. by rewrite (keys_ext _ _ _ H).
Qed.

Lemma window_ext input w : Forall agree (node_expressions (NWindow 0 w)) ->
  execute_window limits ev1 input w = execute_window limits ev2 input w.
Proof.
  intros [Hi [Hp Ho]%Forall_app]%Forall_app. unfold execute_window.
  assert (Ep : build_partitions ev1 input (lw_partition w) = build_partitions ev2 input (lw_partition w)).
  { unfold build_partitions. destruct (lw_partition w) as [p|]; [|done]. f_equal. apply group_ext.
    simpl in Hp. by rewrite app_nil_r in Hp. }
  rewrite Ep. destruct (build_partitions ev2 input _); simpl; [|done].
  erewrite foldR_ext; [done|]. intros l output _. unfold assign_partition. rewrite order_partition_ext by done.
  destruct (order_partition ev2 input l (lw_order w)); simpl; [|done]. destruct (lw_kind w); try done.
  unfold assign_sum. destruct (lw_input w) as [input'|]; simpl; [|done]. destruct (lw_frame w); simpl; [|done].
  apply Forall_cons in Hi as [Hi _]. apply foldR_ext. intros x s _.
  destruct (mapR _ (frame_indices _ _ _)); simpl; [|done]. by rewrite sum_ext.
Qed.

Lemma join_ext l r ls rs k c : Forall agree (option_list c) ->
  execute_join limits ev1 l r ls rs k c = execute_join limits ev2 l r ls rs k c.
Proof.
  intros H. assert (Ep : forall a b, pair_matches ev1 k c a b = pair_matches ev2 k c a b).
  { intros a b. unfold pair_matches. destruct c as [e|]; [|done]. apply Forall_cons in H as [H _].
    simpl. by rewrite H. }
  unfold execute_join. erewrite (foldR_ext (join_left limits ev1 k c r rs)); [done|].
  intros x s _. unfold join_left. erewrite (foldR_ext (join_pair limits ev1 k c x)); [done|].
  intros e [[out lm] rm] _. unfold join_pair. by rewrite Ep.
Qed.
End StageExt.

(** ** Removing duplicates twice is removing them once *)
Section Distinct.
Context {F : Foreign}.
Context (limits : ExecutionLimits).

Lemma push_stage_row_ok s row s' : push_stage_row limits s row = Ok s' -> fst s' = fst s ++ [row].
Proof. intros [_ [_ [= <-]]%check_then]%check_then. done. Qed.

Lemma push_unique_replay input s s' :
  foldR (push_unique limits) input s = Ok s' ->
  exists kept, fst s' = fst s ++ kept /\ foldR (push_unique limits) kept s = Ok s'.
Proof.
  revert s. induction input as [|row input IH]; intros s; cbn [foldR].
  { intros [= <-]. exists []. by rewrite app_nil_r. }
  intros (s1 & H1 & H2)%rbind_ok. destruct (IH _ H2) as (kept & Hk & Hr). unfold push_unique in H1.
  destruct (existsb _ (fst s)) eqn:E.
  - injection H1 as <-. eauto.
  - exists (row :: kept). apply push_stage_row_ok in H1 as Hf. rewrite Hf, <- app_assoc in Hk. split; [done|].
    cbn [foldR]. unfold push_unique at 1. rewrite E. by rewrite H1.
Qed.

Lemma execute_distinct_idem input rows :
  execute_distinct limits input = Ok rows -> execute_distinct limits rows = Ok rows.
Proof.
  intros (s & H & ->)%rmap_ok. apply push_unique_replay in H as (kept & Hk & Hr). simpl in Hk.
  unfold execute_distinct. rewrite Hk, Hr. simpl. by rewrite Hk.
Qed.
End Distinct.

(** ** The rewriting as a relation *)
Section Rewriting.
Context {F : Foreign}.

Inductive optimized : list LogicalNode -> list LogicalNode -> list nat -> Prop :=
| opt_nil : optimized [] [] []
| opt_drop nodes nodes' remap n n' j :
    optimized nodes nodes' remap -> remap_node n remap = Ok n' -> redundant_target n' nodes' = Some j ->
    optimized (nodes ++ [n]) nodes' (remap ++ [j])
| opt_keep nodes nodes' remap n n' :
    optimized nodes nodes' remap -> remap_node n remap = Ok n' -> redundant_target n' nodes' = None ->
    optimized (nodes ++ [n]) (nodes' ++ [n']) (remap ++ [length nodes']).

Lemma optimize_steps nodes nodes' remap :
  foldR optimize_step nodes ([], []) = Ok (nodes', remap) -> optimized nodes nodes' remap.
Proof.
  revert nodes' remap. induction nodes as [|n nodes IH] using rev_ind; intros nodes' remap.
  { intros [= <- <-]. constructor. }
  rewrite foldR_app. intros ([ns rm] & H1%IH & H2)%rbind_ok. cbn [foldR] in H2.
  apply rbind_ok in H2 as (s & H2 & [= ->]). apply rbind_ok in H2 as (n' & Hn & H2).
  destruct (redundant_target n' ns) as [j|] eqn:Et.
  - injection H2 as <- <-. by eapply opt_drop.
  - apply rbind_ok in H2 as (id & [_ [= <-]]%check_then & [= <- <-]). by apply opt_keep.
Qed.

Lemma optimized_length nodes nodes' remap : optimized nodes nodes' remap -> length remap = length nodes.
Proof. induction 1; rewrite ?length_app; simpl; lia. Qed.

(** What remapping does to a node's inputs. *)
Lemma remap_node_inputs n n' remap : remap_node n remap = Ok n' ->
  Forall2 (fun x y => remap !! x = Some y) (node_inputs n) (node_inputs n').
Proof.
  destruct n; cbn [remap_node node_inputs]; intros H;
    repeat match type of H with
    | rbind (mapped _ _) _ = Ok _ => let E := fresh "E" in apply rbind_ok in H as (? & E%ok_or_ok & H)
    | rbind _ _ = Ok _ => apply rbind_ok in H as (? & _ & H)
    end; injection H as <-; by repeat constructor.
Qed.

Lemma redundant_input n nodes j : redundant_target n nodes = Some j -> node_inputs n = [j].
Proof.
  destruct n; simpl; try done.
  - destruct (nodes !! input) as [[]|]; try done. by intros [= ->].
  - destruct limit; [done|]. destruct (_ =? _); [|done]. by intros [= ->].
Qed.

Lemma optimized_range nodes nodes' remap i j :
  optimized nodes nodes' remap -> remap !! i = Some j -> (j < length nodes')%nat.
Proof.
  intros H. revert i j. induction H as [|nodes nodes' remap n n' j H IH Hn Ht|nodes nodes' remap n n' H IH Hn Ht]; intros i k Hk.
  - done.
  - apply lookup_snoc_Some in Hk as [[_ Hk]|[_ <-]]; [by eapply IH|].
    apply remap_node_inputs in Hn. rewrite (redundant_input _ _ _ Ht) in Hn.
    apply Forall2_cons_inv_r in Hn as (x & ? & Hx & _ & _). by eapply IH.
  - rewrite length_app. simpl. apply lookup_snoc_Some in Hk as [[_ Hk]|[_ <-]]; [|lia].
    apply IH in Hk. lia.
Qed.

(** Every optimized node comes from one node that was kept; a node that was not
    kept stands for its only input. *)
Definition kept (nodes nodes' : list LogicalNode) (remap : list nat) (i : nat) : Prop :=
  exists n n' j, nodes !! i = Some n /\ remap !! i = Some j /\ nodes' !! j = Some n' /\
    Forall2 (fun x y => remap !! x = Some y) (node_inputs n) (node_inputs n') /\
    (forall i0, (i0 < i)%nat -> remap !! i0 <> Some j).

Definition stands_for (nodes : list LogicalNode) (remap : list nat) (i : nat) : Prop :=
  exists n x, nodes !! i = Some n /\ node_inputs n = [x] /\ remap !! i = remap !! x.

Lemma Forall2_lookup_app (l : list nat) more xs ys :
  Forall2 (fun x y => l !! x = Some y) xs ys -> Forall2 (fun x y => (l ++ more) !! x = Some y) xs ys.
Proof. intros H. eapply Forall2_impl; [exact H|]. intros x y Hx. by apply lookup_app_l_Some. Qed.

Lemma optimized_cases nodes nodes' remap i :
  optimized nodes nodes' remap -> (i < length nodes)%nat ->
  kept nodes nodes' remap i \/ stands_for nodes remap i.
Proof.
  intros H. revert i.
  induction H as [|nodes nodes' remap n n' j H IH Hn Ht|nodes nodes' remap n n' H IH Hn Ht]; intros i Hi.
  - simpl in Hi. lia.
  - pose proof (optimized_length _ _ _ H) as Hl. rewrite length_app in Hi. simpl in Hi.
    destruct (decide (i = length nodes)) as [->|Hne].
    + right. apply remap_node_inputs in Hn. rewrite (redundant_input _ _ _ Ht) in Hn.
      apply Forall2_cons_inv_r in Hn as (x & l & Hx & Hnil%Forall2_nil_inv_r & Heq). subst l.
      exists n, x. split_and!; [by apply list_lookup_middle|done|].
      rewrite <- Hl at 1. rewrite list_lookup_middle by done. symmetry. by apply lookup_app_l_Some.
    + destruct (IH i ltac:(lia)) as [(m & m' & k & H1 & H2 & H3 & H4 & H5)|(m & x & H1 & H2 & H3)].
      * left. exists m, m', k. split_and!; [by apply lookup_app_l_Some|by apply lookup_app_l_Some|done| |].
        -- by apply Forall2_lookup_app.
        -- intros i0 Hi0. rewrite lookup_app_l by lia. auto.
      * right. destruct (lookup_lt_is_Some_2 remap i ltac:(lia)) as (k & Hk).
        exists m, x. split_and!; [by apply lookup_app_l_Some|done|].
        rewrite (lookup_app_l_Some _ _ _ _ Hk). rewrite Hk in H3. symmetry. by apply lookup_app_l_Some.
  - pose proof (optimized_length _ _ _ H) as Hl. rewrite length_app in Hi. simpl in Hi.
    destruct (decide (i = length nodes)) as [->|Hne].
    + left. exists n, n', (length nodes'). split_and!; [by apply list_lookup_middle| |by apply list_lookup_middle| |].
      * rewrite <- Hl. by apply list_lookup_middle.
      * by apply Forall2_lookup_app, remap_node_inputs.
      * intros i0 Hi0. rewrite lookup_app_l by lia. intros Hr. apply (optimized_range _ _ _ _ _ H) in Hr. lia.
    + destruct (IH i ltac:(lia)) as [(m & m' & k & H1 & H2 & H3 & H4 & H5)|(m & x & H1 & H2 & H3)].
      * left. exists m, m', k. split_and!; [by apply lookup_app_l_Some|by apply lookup_app_l_Some|by apply lookup_app_l_Some| |].
        -- by apply Forall2_lookup_app.
        -- intros i0 Hi0. rewrite lookup_app_l by lia. auto.
      * right. destruct (lookup_lt_is_Some_2 remap i ltac:(lia)) as (k & Hk).
        exists m, x. split_and!; [by apply lookup_app_l_Some|done|].
        rewrite (lookup_app_l_Some _ _ _ _ Hk). rewrite Hk in H3. symmetry. by apply lookup_app_l_Some.
Qed.
End Rewriting.

(** ** One stage on both plans *)
Section StageSim.
Context {F : Foreign}.
Context (tables : Tables) (ps : Parameters) (limits : ExecutionLimits).

Definition well_scoped (i : nat) (n : LogicalNode) : Prop :=
  match n with
  | NFilter _ c => Forall (fun q => (q < i)%nat) (existential_dependencies c)
  | _ => Forall (fun e => existential_dependencies e = []) (node_expressions n)
  end.

(** Both result arrays hold the same rows for a node and its image. *)
Definition same_rows (R R' : StageResults) (x y : nat) : Prop :=
  exists rows, R !! x = Some (Some rows) /\ R' !! y = Some (Some rows).

Lemma same_rows_input R R' x y : same_rows R R' x y -> input_rows R x = input_rows R' y.
Proof. intros (rows & H1 & H2). unfold input_rows. by rewrite H1, H2. Qed.

Lemma stage_sim shapes shapes' E E' R R' outer i n n' remap :
  remap_node n remap = Ok n' -> well_scoped i n ->
  (forall x y, x ∈ node_inputs n -> remap !! x = Some y -> same_rows R R' x y /\ shapes !! x = shapes' !! y) ->
  (forall q q' scopes, (q < i)%nat -> remap !! q = Some q' -> E q scopes = E' q' scopes) ->
  execute_stage tables ps limits shapes E R outer n = execute_stage tables ps limits shapes' E' R' outer n'.
Proof.
  intros Hn Hw Hx HE.
  assert (Hag : forall e, existential_dependencies e = [] ->
    agree (evaluate_expr ps E outer) (evaluate_expr ps E' outer) e) by (intros e He row; by apply evaluate_expr_free).
  assert (Hall : forall l, Forall (fun e => existential_dependencies e = []) l ->
    Forall (agree (evaluate_expr ps E outer) (evaluate_expr ps E' outer)) l)
    by (intros l Hl; eapply Forall_impl; [exact Hl|exact Hag]).
  assert (In : forall x y, x ∈ node_inputs n -> remap !! x = Some y -> input_rows R x = input_rows R' y)
    by (intros x y H1 H2; apply same_rows_input; by apply Hx).
  destruct n; cbn [remap_node] in Hn;
    repeat match type of Hn with
    | rbind (mapped _ _) _ = Ok _ => let M := fresh "M" in apply rbind_ok in Hn as (? & M%ok_or_ok & Hn)
    | rbind _ _ = Ok _ => let C := fresh "C" in apply rbind_ok in Hn as (? & C & Hn)
    end; injection Hn as <-; cbn [execute_stage]; cbn [node_inputs] in In, Hx;
    try match type of M with _ !! ?x = Some ?y => rewrite (In x y ltac:(left) M) end;
    try match goal with |- rbind (input_rows R' ?x) _ = _ => destruct (input_rows R' x) eqn:?; cbn [rbind]; [|done] end;
    try done.
  - apply filter_ext. intros row. apply (evaluate_expr_remap _ _ _ _ _ _ _ _ C). intros q q' s Hq Hq'.
    apply HE; [|done]. cbn [well_scoped] in Hw. rewrite Forall_forall in Hw. by apply Hw.
  - unfold execute_project. f_equal. apply foldR_ext. intros row s _. by rewrite (projection_ext _ _ _ _ (Hall _ Hw)).
  - by apply aggregate_ext, Hall.
  - by apply window_ext, Hall.
  - by apply sort_ext, Hall.
  - rewrite (In r x0 ltac:(right; left) M0). destruct (input_rows R' x0); cbn [rbind]; [|done].
    rewrite (proj2 (Hx l x ltac:(left) M)), (proj2 (Hx r x0 ltac:(right; left) M0)).
    destruct (ok_or (shapes' !! x) _); cbn [rbind]; [|done]. destruct (ok_or (shapes' !! x0) _); cbn [rbind]; [|done].
    by apply join_ext, Hall.
  - by rewrite (In r x0 ltac:(right; left) M0).
Qed.
End StageSim.

(** ** The plan loop on both plans *)
Section RunSim.
Context {F : Foreign}.
Context (tables : Tables) (ps : Parameters) (limits : ExecutionLimits).

(** [run_index], given the node at the index. *)
Definition run_entry (shapes : list (list ModelDef)) (E : nat -> list ScopeRecord -> Result Truth)
  (needed : list bool) (outer : list ScopeRecord) (results : StageResults) (e : nat * LogicalNode) : Result StageResults :=
  if default false (needed !! fst e) then
    let? rows := execute_stage tables ps limits shapes E results outer (snd e) in
    enforce_row_limit limits (length rows) ;;?
    enforce_working_byte_limit limits rows ;;?
    let? _ := ok_or (results !! fst e) "MEMORY-EXEC-004" in
    Ok (<[fst e := Some rows]> results)
  else Ok results.

Definition entries (nodes : list LogicalNode) : list (nat * LogicalNode) := imap (fun i n => (i, n)) nodes.

Lemma entries_snoc nodes n : entries (nodes ++ [n]) = entries nodes ++ [(length nodes, n)].
Proof. unfold entries. rewrite imap_app. simpl. by rewrite Nat.add_0_r. Qed.

Lemma run_entries plan shapes E needed outer R :
  foldR (run_index tables plan ps limits shapes E needed outer) (seq 0 (length (plan_nodes plan))) R =
  foldR (run_entry shapes E needed outer) (entries (plan_nodes plan)) R.
Proof.
  assert (Es : map fst (entries (plan_nodes plan)) = seq 0 (length (plan_nodes plan))).
  { induction (plan_nodes plan) as [|n l IH] using rev_ind; [done|].
    rewrite entries_snoc, map_app, IH, length_app, seq_app. done. }
  rewrite <- Es, foldR_map. apply foldR_ext. intros [i n] s H.
  apply elem_of_lookup_imap in H as (k & m & [= -> ->] & Hk). unfold run_index, run_entry. simpl. by rewrite Hk.
Qed.

Context (nodes nodes' : list LogicalNode) (remap : list nat).
Context (shapes shapes' : list (list ModelDef)) (E E' : nat -> list ScopeRecord -> Result Truth).
Context (needed needed' : list bool) (outer : list ScopeRecord).

Notation need i := (default false (needed !! i)).
Notation need' j := (default false (needed' !! j)).

Hypothesis inputs_needed : forall i n x, nodes !! i = Some n -> need i = true -> x ∈ node_inputs n -> need x = true.
Hypothesis scoped : forall i n, nodes !! i = Some n -> well_scoped i n.
Hypothesis shapes_agree : forall x y, remap !! x = Some y -> shapes !! x = shapes' !! y.
Hypothesis resolvers_agree : forall q q' scopes, (q < length nodes)%nat -> remap !! q = Some q' -> E q scopes = E' q' scopes.
Hypothesis kept_needed : forall i j, kept nodes nodes' remap i -> remap !! i = Some j -> need i = need' j.

(** The rows of every needed node so far are in both arrays, within the
    limits, and free of duplicates where a [Distinct] produced them. *)
Definition sim (rm : list nat) (ns' : list LogicalNode) (R R' : StageResults) : Prop :=
  length R = length nodes /\ length R' = length nodes' /\
  forall i j, rm !! i = Some j -> need i = true ->
    exists rows, R !! i = Some (Some rows) /\ R' !! j = Some (Some rows) /\
      enforce_row_limit limits (length rows) = Ok tt /\ enforce_working_byte_limit limits rows = Ok tt /\
      (forall x, ns' !! j = Some (NDistinct x) -> execute_distinct limits rows = Ok rows).

Definition sim_result (rm : list nat) (ns' : list LogicalNode) (m m' : Result StageResults) : Prop :=
  match m, m' with
  | Ok R, Ok R' => sim rm ns' R R'
  | Err d, Err d' => d = d'
  | _, _ => False
  end.

Lemma sim_same_rows rm ns' R R' x y : sim rm ns' R R' -> rm !! x = Some y -> need x = true -> same_rows R R' x y.
Proof. intros (_ & _ & H) Hx Hn. destruct (H x y Hx Hn) as (rows & ? & ? & _). by exists rows. Qed.

(** A dropped node reproduces the rows it stands for. *)
Lemma dropped_stage rm ns' R R' n n' x j :
  remap_node n rm = Ok n' -> redundant_target n' ns' = Some j -> node_inputs n = [x] -> rm !! x = Some j ->
  sim rm ns' R R' -> need x = true ->
  exists rows, execute_stage tables ps limits shapes E R outer n = Ok rows /\
    R !! x = Some (Some rows) /\ R' !! j = Some (Some rows) /\
    enforce_row_limit limits (length rows) = Ok tt /\ enforce_working_byte_limit limits rows = Ok tt /\
    (forall y, ns' !! j = Some (NDistinct y) -> execute_distinct limits rows = Ok rows).
Proof.
  intros Hn Ht Hi Hx (_ & _ & HS) Hneed. destruct (HS x j Hx Hneed) as (rows & HR & HR' & Hl & Hb & Hd).
  exists rows. split_and!; try done.
  assert (Hin : input_rows R x = Ok rows) by (unfold input_rows; by rewrite HR).
  destruct n; simpl in Hi; try done; cbn [remap_node] in Hn;
    repeat match type of Hn with rbind _ _ = Ok _ => apply rbind_ok in Hn as (? & ?%ok_or_ok & Hn) end;
    try (by injection Hn as <-).
  - apply rbind_ok in Hn as (? & _ & (? & _ & Hn)%rbind_ok). by injection Hn as <-.
  - injection Hn as <-. injection Hi as ->. cbn [execute_stage]. rewrite Hin. cbn [rbind].
    simpl in Ht. destruct (ns' !! x0) as [[]|] eqn:E0; try done. injection Ht as ->. by eapply Hd.
  - injection Hn as <-. injection Hi as ->. cbn [execute_stage]. rewrite Hin. cbn [rbind].
    simpl in Ht. destruct limit; [done|]. by destruct (Z.eqb_spec offset 0) as [->|].
Qed.

Lemma sim_insert_left rm ns' R R' i j rows :
  sim rm ns' R R' -> length rm = i -> (i < length nodes)%nat ->
  R' !! j = Some (Some rows) ->
  enforce_row_limit limits (length rows) = Ok tt -> enforce_working_byte_limit limits rows = Ok tt ->
  (forall x, ns' !! j = Some (NDistinct x) -> execute_distinct limits rows = Ok rows) ->
  sim (rm ++ [j]) ns' (<[i := Some rows]> R) R'.
Proof.
  intros (L1 & L2 & HS) Hi Hlt HR' Hl Hb Hd. split_and!; [by rewrite length_insert|done|].
  intros i' j' [[Hlen Hrm]|[-> <-]]%lookup_snoc_Some Hneed.
  - rewrite list_lookup_insert_ne by lia. by apply HS.
  - exists rows. rewrite Hi. split_and!; [apply list_lookup_insert_eq; lia|done..].
Qed.

Lemma sim_skip rm ns' R R' j : sim rm ns' R R' -> need (length rm) = false -> sim (rm ++ [j]) ns' R R'.
Proof.
  intros (L1 & L2 & HS) Hn. split_and!; [done..|].
  intros i' j' [[Hlen Hrm]|[-> <-]]%lookup_snoc_Some Hneed; [by apply HS|]. by rewrite Hn in Hneed.
Qed.

Lemma sim_grow rm ns' n' R R' :
  (forall i j, rm !! i = Some j -> (j < length ns')%nat) -> sim rm ns' R R' -> sim rm (ns' ++ [n']) R R'.
Proof.
  intros Hr (L1 & L2 & HS). split_and!; [done..|]. intros i j Hrm Hneed.
  destruct (HS i j Hrm Hneed) as (rows & ? & ? & ? & ? & Hd). exists rows. split_and!; try done.
  intros x Hx. specialize (Hr i j Hrm). rewrite lookup_app_l in Hx by done. by eapply Hd.
Qed.

Lemma sim_insert_both rm ns' n' R R' rows :
  sim rm ns' R R' -> (length rm < length nodes)%nat -> (length ns' < length nodes')%nat ->
  (forall i j, rm !! i = Some j -> (j < length ns')%nat) ->
  enforce_row_limit limits (length rows) = Ok tt -> enforce_working_byte_limit limits rows = Ok tt ->
  (forall x, n' = NDistinct x -> execute_distinct limits rows = Ok rows) ->
  sim (rm ++ [length ns']) (ns' ++ [n']) (<[length rm := Some rows]> R) (<[length ns' := Some rows]> R').
Proof.
  intros HS Hi Hj Hr Hl Hb Hd. apply sim_insert_left; try done.
  - apply (sim_grow rm ns' n') in HS as (L1 & L2 & HS); [|done]. split_and!; [done|by rewrite length_insert|].
    intros i j Hrm Hneed. destruct (HS i j Hrm Hneed) as (rows' & ? & ? & ? & ? & ?). exists rows'.
    split_and!; try done. specialize (Hr i j Hrm). by rewrite list_lookup_insert_ne by lia.
  - destruct HS as (_ & L2 & _). apply list_lookup_insert_eq. lia.
  - intros x Hx. rewrite list_lookup_middle in Hx by done. injection Hx as ->. by eapply Hd.
Qed.

Lemma needed_inputs rm ns' R R' i n n' :
  nodes !! i = Some n -> need i = true -> remap_node n rm = Ok n' -> rm `prefix_of` remap -> sim rm ns' R R' ->
  forall x y, x ∈ node_inputs n -> rm !! x = Some y -> same_rows R R' x y /\ shapes !! x = shapes' !! y.
Proof.
  intros Hi Hneed Hn Hp HS x y Hx Hy. split.
  - eapply sim_same_rows; [exact HS|exact Hy|]. by eapply inputs_needed.
  - apply shapes_agree. exact (prefix_lookup_Some _ _ _ _ Hy Hp).
Qed.

(** The outcome of a needed, kept node is the same in both loops. *)
Lemma kept_entry rm ns ns' n n' R R' :
  optimized ns ns' rm -> remap_node n rm = Ok n' -> redundant_target n' ns' = None ->
  (ns ++ [n]) `prefix_of` nodes -> (ns' ++ [n']) `prefix_of` nodes' -> (rm ++ [length ns']) `prefix_of` remap ->
  sim rm ns' R R' ->
  sim_result (rm ++ [length ns']) (ns' ++ [n'])
    (run_entry shapes E needed outer R (length ns, n)) (run_entry shapes' E' needed' outer R' (length ns', n')).
Proof.
  intros Ho Hn Ht Pn Pn' Pr HS. pose proof (optimized_length _ _ _ Ho) as Hlen.
  assert (Hi : nodes !! length ns = Some n) by (eapply prefix_lookup_Some; [|exact Pn]; by apply list_lookup_middle).
  assert (Hj : nodes' !! length ns' = Some n') by (eapply prefix_lookup_Some; [|exact Pn']; by apply list_lookup_middle).
  assert (Hr : remap !! length ns = Some (length ns'))
    by (eapply prefix_lookup_Some; [|exact Pr]; rewrite <- Hlen; by apply list_lookup_middle).
  assert (Pr0 : rm `prefix_of` remap) by exact (prefix_app_l _ _ _ Pr).
  assert (K : kept nodes nodes' remap (length ns)).
  { exists n, n', (length ns'). split_and!; try done.
    - eapply Forall2_impl; [by apply remap_node_inputs|]. intros x y Hx. exact (prefix_lookup_Some _ _ _ _ Hx Pr0).
    - intros i0 Hi0 Hr0. destruct (lookup_lt_is_Some_2 rm i0 ltac:(lia)) as (j0 & Hj0).
      rewrite (prefix_lookup_Some _ _ _ _ Hj0 Pr0) in Hr0. injection Hr0 as ->.
      apply (optimized_range _ _ _ _ _ Ho) in Hj0. lia. }
  pose proof (kept_needed _ _ K Hr) as Hneed. unfold run_entry. cbn [fst snd]. rewrite <- Hneed.
  assert (Hrange : forall i j, rm !! i = Some j -> (j < length ns')%nat) by (intros i j; by apply (optimized_range _ _ _ _ _ Ho)).
  destruct (need (length ns)) eqn:Eneed.
  - assert (Hstage : execute_stage tables ps limits shapes E R outer n = execute_stage tables ps limits shapes' E' R' outer n').
    { apply (stage_sim tables ps limits shapes shapes' E E' R R' outer (length ns) n n' rm Hn (scoped _ _ Hi)).
      - by eapply needed_inputs.
      - intros q q' scopes Hq Hq'. apply resolvers_agree; [|exact (prefix_lookup_Some _ _ _ _ Hq' Pr0)].
        apply lookup_lt_Some in Hi. lia. }
    rewrite <- Hstage. destruct (execute_stage tables ps limits shapes E R outer n) as [rows|] eqn:Es; cbn [rbind]; [|done].
    destruct (enforce_row_limit limits (length rows)) as [[]|] eqn:El; cbn [rbind]; [|done].
    destruct (enforce_working_byte_limit limits rows) as [[]|] eqn:Eb; cbn [rbind]; [|done].
    pose proof HS as (L1 & L2 & _). apply lookup_lt_Some in Hi as Li, Hj as Lj.
    destruct (lookup_lt_is_Some_2 R (length ns) ltac:(lia)) as (? & ->).
    destruct (lookup_lt_is_Some_2 R' (length ns') ltac:(lia)) as (? & ->). cbn [ok_or rbind sim_result].
    rewrite <- Hlen. apply sim_insert_both; try done; [lia|].
    intros z ->. destruct n; cbn [remap_node] in Hn;
      repeat match type of Hn with rbind _ _ = Ok _ => apply rbind_ok in Hn as (? & ? & Hn) end; try done.
    injection Hn as <-. cbn [execute_stage] in Es. apply rbind_ok in Es as (input' & _ & Es). by eapply execute_distinct_idem.
  - cbn [sim_result]. rewrite <- Hlen in Eneed. apply sim_skip; [|done]. by apply sim_grow.
Qed.

Lemma dropped_entry rm ns ns' n n' j R R' :
  optimized ns ns' rm -> remap_node n rm = Ok n' -> redundant_target n' ns' = Some j ->
  (ns ++ [n]) `prefix_of` nodes -> (rm ++ [j]) `prefix_of` remap -> sim rm ns' R R' ->
  exists R1, run_entry shapes E needed outer R (length ns, n) = Ok R1 /\ sim (rm ++ [j]) ns' R1 R'.
Proof.
  intros Ho Hn Ht Pn Pr HS. pose proof (optimized_length _ _ _ Ho) as Hlen.
  assert (Hi : nodes !! length ns = Some n) by (eapply prefix_lookup_Some; [|exact Pn]; by apply list_lookup_middle).
  unfold run_entry. cbn [fst snd]. destruct (need (length ns)) eqn:Eneed.
  - apply remap_node_inputs in Hn as Hin. rewrite (redundant_input _ _ _ Ht) in Hin.
    apply Forall2_cons_inv_r in Hin as (x & l & Hx & Hnil%Forall2_nil_inv_r & Heq). subst l.
    assert (Hxn : need x = true) by (eapply inputs_needed; [exact Hi|done|rewrite Heq; left]).
    destruct (dropped_stage rm ns' R R' n n' x j Hn Ht Heq Hx HS Hxn) as (rows & -> & HR & HR' & Hl & Hb & Hd).
    cbn [rbind]. rewrite Hl. cbn [rbind]. rewrite Hb. cbn [rbind].
    pose proof HS as (L1 & _ & _). apply lookup_lt_Some in Hi as Li.
    destruct (lookup_lt_is_Some_2 R (length ns) ltac:(lia)) as (? & ->). cbn [ok_or rbind].
    eexists. split; [done|]. rewrite <- Hlen. apply sim_insert_left; try done. lia.
  - eexists. split; [done|]. rewrite <- Hlen in Eneed. by apply sim_skip.
Qed.

Lemma run_sim ns ns' rm :
  optimized ns ns' rm -> ns `prefix_of` nodes -> ns' `prefix_of` nodes' -> rm `prefix_of` remap ->
  sim_result rm ns' (foldR (run_entry shapes E needed outer) (entries ns) (replicate (length nodes) None))
    (foldR (run_entry shapes' E' needed' outer) (entries ns') (replicate (length nodes') None)).
Proof.
  induction 1 as [|ns ns' rm n n' j Ho IH Hn Ht|ns ns' rm n n' Ho IH Hn Ht]; intros Pn Pn' Pr.
  - simpl. split_and!; [apply length_replicate|apply length_replicate|done].
  - rewrite entries_snoc, foldR_app.
    assert (IH' := IH (prefix_app_l _ _ _ Pn) Pn'
      (prefix_app_l _ _ _ Pr)). clear IH.
    destruct (foldR _ (entries ns) _) as [R|], (foldR _ (entries ns') _) as [R'|]; try done.
    cbn [rbind foldR]. simpl in IH'.
    destruct (dropped_entry rm ns ns' n n' j R R' Ho Hn Ht Pn Pr IH') as (R1 & -> & HS). done.
  - rewrite !entries_snoc, !foldR_app.
    assert (IH' := IH (prefix_app_l _ _ _ Pn)
      (prefix_app_l _ _ _ Pn')
      (prefix_app_l _ _ _ Pr)). clear IH.
    destruct (foldR _ (entries ns) _) as [R|], (foldR _ (entries ns') _) as [R'|]; try done.
    cbn [rbind foldR]. simpl in IH'.
    pose proof (kept_entry rm ns ns' n n' R R' Ho Hn Ht Pn Pn' Pr IH') as K.
    destruct (run_entry shapes E needed outer R _), (run_entry shapes' E' needed' outer R' _); done.
Qed.
End RunSim.

(** ** Reachability is preserved both ways *)
Section ReachSim.
Context {F : Foreign}.
Context (nodes nodes' : list LogicalNode) (remap : list nat).
Hypothesis Ho : optimized nodes nodes' remap.
Hypothesis T : topological nodes.

Lemma optimized_topological : topological nodes'.
Proof.
  induction Ho as [|ns ns' rm n n' j H IH Hn Ht|ns ns' rm n n' H IH Hn Ht]; intros i m Hi; [done| |].
  - revert i m Hi. apply IH; [done|]. intros i m Hi. apply T. by apply lookup_app_l_Some.
  - assert (Tns : topological ns) by (intros k m0 Hk; apply T; by apply lookup_app_l_Some).
    apply lookup_snoc_Some in Hi as [[_ Hi]|[-> <-]]; [by eapply (IH H Tns)|].
    apply remap_node_inputs in Hn. apply Forall_forall. intros y Hy.
    apply list_elem_of_lookup_1 in Hy as (k & Hk). destruct (Forall2_lookup_r _ _ _ _ _ Hn Hk) as (x & _ & Hx).
    by apply (optimized_range _ _ _ _ _ H) in Hx.
Qed.

Lemma reach_lt r i : (r < length nodes)%nat -> reach nodes r i -> (i < length nodes)%nat.
Proof. intros Hr Hi. apply reach_below in Hi; [lia|done]. Qed.

Lemma reach_forward r r' i : (r < length nodes)%nat -> remap !! r = Some r' -> reach nodes r i ->
  exists i', remap !! i = Some i' /\ reach nodes' r' i'.
Proof.
  intros Hr Hr'. induction 1 as [|i n x Hi IH Hn Hx]; [exists r'; split; [done|constructor]|].
  destruct IH as (i' & Hi' & Hreach). apply (reach_lt _ _ Hr) in Hi as Hlt.
  destruct (optimized_cases _ _ _ i Ho Hlt) as [(m & m' & j & H1 & H2 & H3 & H4 & _)|(m & y & H1 & H2 & H3)];
    rewrite Hn in H1; injection H1 as <-.
  - rewrite Hi' in H2. injection H2 as <-. apply list_elem_of_lookup_1 in Hx as (k & Hk).
    destruct (Forall2_lookup_l _ _ _ _ _ H4 Hk) as (y & Hy & Hm). exists y. split; [done|].
    eapply reach_step; [exact Hreach|exact H3|by eapply list_elem_of_lookup_2].
  - rewrite H2 in Hx. apply list_elem_of_singleton in Hx as ->. exists i'. split; [congruence|done].
Qed.

Lemma kept_of i : (i < length nodes)%nat -> exists k, kept nodes nodes' remap k /\ remap !! k = remap !! i /\ reach nodes i k.
Proof.
  induction i as [i IH] using lt_wf_ind. intros Hi.
  destruct (optimized_cases _ _ _ i Ho Hi) as [?|(n & x & Hn & Hin & Heq)]; [exists i; split_and!; [done|done|constructor]|].
  assert (Hx : (x < i)%nat) by (specialize (T _ _ Hn); rewrite Hin in T; by apply Forall_cons_1 in T as [? _]).
  destruct (IH x Hx ltac:(lia)) as (k & Hk & Hr & Hreach). exists k. split_and!; [done|congruence|].
  eapply reach_trans; [|exact Hreach]. eapply reach_step; [constructor|exact Hn|rewrite Hin; left].
Qed.

Lemma reach_backward r r' j : (r < length nodes)%nat -> remap !! r = Some r' -> reach nodes' r' j ->
  exists i, kept nodes nodes' remap i /\ remap !! i = Some j /\ reach nodes r i.
Proof.
  intros Hr Hr'. induction 1 as [|j n' y Hj IH Hn Hy].
  - destruct (kept_of r Hr) as (k & ? & ? & ?). exists k. split_and!; [done|congruence|done].
  - destruct IH as (i & (n & m' & j' & H1 & H2 & H3 & H4 & _) & Hi & Hreach).
    rewrite Hi in H2. injection H2 as <-. rewrite Hn in H3. injection H3 as <-.
    apply list_elem_of_lookup_1 in Hy as (k & Hk). destruct (Forall2_lookup_r _ _ _ _ _ H4 Hk) as (x & Hx & Hm).
    assert (Hxr : reach nodes r x) by (eapply reach_step; [exact Hreach|exact H1|by eapply list_elem_of_lookup_2]).
    destruct (kept_of x (reach_lt _ _ Hr Hxr)) as (k' & ? & ? & ?). exists k'.
    split_and!; [done|congruence|by eapply reach_trans].
Qed.

Lemma kept_unique i i0 j : kept nodes nodes' remap i -> kept nodes nodes' remap i0 ->
  remap !! i = Some j -> remap !! i0 = Some j -> i = i0.
Proof.
  intros (n & n' & j1 & _ & H2 & _ & _ & H5) (m & m' & j2 & _ & H2' & _ & _ & H5') Hi Hi0.
  simplify_eq. destruct (lt_eq_lt_dec i i0) as [[Hlt|?]|Hlt]; [|done|].
  - by destruct (H5' i Hlt).
  - by destruct (H5 i0 Hlt).
Qed.
End ReachSim.

(** ** Whole plans *)
Section ExecuteSim.
Context {F : Foreign}.
Context (tables : Tables) (ps : Parameters) (limits : ExecutionLimits).

Definition well_formed (p : LogicalPlan) : Prop :=
  topological (plan_nodes p) /\ (plan_root p < length (plan_nodes p))%nat /\
  (forall i n, plan_nodes p !! i = Some n -> well_scoped i n).

Lemma shapes_sim ns ns' rm : optimized ns ns' rm ->
  exists S S', foldR shape_step ns [] = Ok S /\ foldR shape_step ns' [] = Ok S' /\
    length S = length ns /\ length S' = length ns' /\ forall i j, rm !! i = Some j -> S !! i = S' !! j.
Proof.
  induction 1 as [|ns ns' rm n n' j Ho IH Hn Ht|ns ns' rm n n' Ho IH Hn Ht]; [by exists [], []| |];
    destruct IH as (S & S' & H1 & H2 & L1 & L2 & HS); pose proof (optimized_length _ _ _ Ho) as Hl;
    apply remap_node_inputs in Hn as Hin;
    assert (Hsh : forall x y, rm !! x = Some y -> exists s, shape_for S x = Ok s /\ shape_for S' y = Ok s)
      by (intros x y Hx; apply lookup_lt_Some in Hx as Hlt; destruct (lookup_lt_is_Some_2 S x ltac:(lia)) as (s & Es);
          exists s; unfold shape_for; rewrite <- (HS _ _ Hx), Es; done).
  - rewrite (redundant_input _ _ _ Ht) in Hin.
    apply Forall2_cons_inv_r in Hin as (x & l & Hx & Hnil%Forall2_nil_inv_r & Heq). subst l.
    destruct (Hsh x j Hx) as (s & Hs & Hs').
    exists (S ++ [s]), S'. rewrite foldR_app, H1. cbn [rbind foldR]. split_and!; [|done|by rewrite !length_app, L1|done|].
    + destruct n; simpl in Heq; try done; cbn [remap_node] in Hn;
        repeat match type of Hn with rbind _ _ = Ok _ => apply rbind_ok in Hn as (? & ? & Hn) end;
        try (by injection Hn as <-); injection Heq as ->; unfold shape_step; rewrite Hs; done.
    + intros i j' [[Hlt Hrm]|[-> <-]]%lookup_snoc_Some.
      * rewrite lookup_app_l by lia. by apply HS.
      * rewrite Hl, <- L1, list_lookup_middle by done. unfold shape_for in Hs'. apply ok_or_ok in Hs'. done.
  - assert (Hstep : exists s, shape_step S n = Ok (S ++ [s]) /\ shape_step S' n' = Ok (S' ++ [s])).
    { destruct n; cbn [remap_node] in Hn;
        repeat match type of Hn with
        | rbind (mapped _ _) _ = Ok _ => let M := fresh "M" in apply rbind_ok in Hn as (? & M%ok_or_ok & Hn);
            apply Hsh in M as (? & ? & ?)
        | rbind _ _ = Ok _ => apply rbind_ok in Hn as (? & _ & Hn)
        end; injection Hn as <-; unfold shape_step;
        repeat match goal with H : shape_for _ _ = Ok _ |- _ => rewrite H; clear H end; eauto. }
    destruct Hstep as (s & E1 & E2). exists (S ++ [s]), (S' ++ [s]).
    rewrite !foldR_app, H1, H2. cbn [rbind foldR]. rewrite E1, E2. cbn [rbind].
    split_and!; [done|done|by rewrite !length_app, L1|by rewrite !length_app, L2|].
    intros i j' [[Hlt Hrm]|[-> <-]]%lookup_snoc_Some.
    + apply (optimized_range _ _ _ _ _ Ho) in Hrm as Hj. rewrite !lookup_app_l by lia. by apply HS.
    + rewrite Hl, <- L1, <- L2. by rewrite !list_lookup_middle.
Qed.

(** Nodes after the root are not needed, so the loop may run over all. *)
Lemma run_all p shapes E needed outer root R :
  (root < length (plan_nodes p))%nat -> (forall i, (root < i)%nat -> default false (needed !! i) = false) ->
  foldR (run_index tables p ps limits shapes E needed outer) (seq 0 (S root)) R =
  foldR (run_index tables p ps limits shapes E needed outer) (seq 0 (length (plan_nodes p))) R.
Proof.
  intros Hr Hn. replace (length (plan_nodes p)) with (S root + (length (plan_nodes p) - S root))%nat by lia.
  rewrite seq_app, foldR_app. destruct (foldR _ (seq 0 (S root)) R) as [R1|]; cbn [rbind]; [|done].
  symmetry. generalize (length (plan_nodes p) - S root)%nat as k. intros k.
  assert (G : forall a, (root < a)%nat -> foldR (run_index tables p ps limits shapes E needed outer) (seq a k) R1 = Ok R1).
  { induction k as [|k IH]; intros a Ha; [done|]. cbn [seq foldR]. unfold run_index at 1. rewrite Hn by done.
    cbn [rbind]. apply IH. lia. }
  apply G. lia.
Qed.

Context (p p' : LogicalPlan) (remap : list nat).
Hypothesis Ho : optimized (plan_nodes p) (plan_nodes p') remap.
Hypothesis T : topological (plan_nodes p).
Hypothesis scoped : forall i n, plan_nodes p !! i = Some n -> well_scoped i n.
Context (shapes shapes' : list (list ModelDef)).
Hypothesis shapes_agree : forall x y, remap !! x = Some y -> shapes !! x = shapes' !! y.

Lemma subplan_sim E E' q q' outer :
  (forall q q' scopes, (q < length (plan_nodes p))%nat -> remap !! q = Some q' -> E q scopes = E' q' scopes) ->
  remap !! q = Some q' ->
  run_subplan tables p ps limits shapes E q outer = run_subplan tables p' ps limits shapes' E' q' outer.
Proof.
  intros HE Hq. apply lookup_lt_Some in Hq as Hlt. rewrite (optimized_length _ _ _ Ho) in Hlt.
  apply (optimized_range _ _ _ _ _ Ho) in Hq as Hlt'. pose proof (optimized_topological _ _ _ Ho T) as T'.
  unfold run_subplan.
  destruct (structural_closure_spec p q T Hlt) as (needed & -> & Ln & Hm).
  destruct (structural_closure_spec p' q' T' Hlt') as (needed' & -> & Ln' & Hm'). cbn [rbind].
  assert (Hneed : forall l i, default false (l !! i) = true <-> marked l i)
    by (intros l i; unfold marked; destruct (l !! i) as [[]|]; simpl; split; congruence).
  assert (Hafter : forall pl root nd, topological (plan_nodes pl) -> (forall i, marked nd i <-> reach (plan_nodes pl) root i) ->
    forall i, (root < i)%nat -> default false (nd !! i) = false).
  { intros pl root nd Tp Hnd i Hi. apply not_true_is_false. rewrite Hneed, Hnd. intros H.
    apply reach_below in H; [lia|done]. }
  rewrite (run_all p _ _ _ _ _ _ Hlt (Hafter p q needed T Hm)), (run_all p' _ _ _ _ _ _ Hlt' (Hafter p' q' needed' T' Hm')).
  rewrite !run_entries.
  assert (HS := run_sim tables ps limits (plan_nodes p) (plan_nodes p') remap shapes shapes' E E' needed needed' outer).
  specialize (HS ltac:(intros i n x Hn Hi Hx; apply Hneed, Hm; apply Hneed, Hm in Hi; by eapply reach_step)).
  specialize (HS scoped shapes_agree HE).
  assert (HK : forall i j, kept (plan_nodes p) (plan_nodes p') remap i -> remap !! i = Some j ->
    default false (needed !! i) = default false (needed' !! j)).
  { intros i j Hk Hij. apply eq_true_iff_eq. rewrite !Hneed, Hm, Hm'. split.
    - intros Hi. destruct (reach_forward _ _ _ Ho T q q' i Hlt Hq Hi) as (j' & Hj' & ?). congruence.
    - intros Hj. destruct (reach_backward _ _ _ Ho T q q' j Hlt Hq Hj) as (i0 & Hk0 & Hi0 & Hr).
      by rewrite (kept_unique _ _ _ i i0 j Hk Hk0 Hij Hi0). }
  specialize (HS HK _ _ _ Ho (reflexivity _) (reflexivity _) (reflexivity _)).
  destruct (foldR _ (entries (plan_nodes p)) _) as [R|], (foldR _ (entries (plan_nodes p')) _) as [R'|]; try done;
    cbn [rbind]; [|simpl in HS; by subst].
  destruct HS as (_ & _ & HS). destruct (HS q q' Hq) as (rows & -> & -> & _); [|done].
  apply Hneed, Hm. constructor.
Qed.

Lemma execute_subplan_sim depth q q' outer : remap !! q = Some q' ->
  execute_subplan tables p ps limits shapes depth q outer = execute_subplan tables p' ps limits shapes' depth q' outer.
Proof.
  revert q q' outer. induction depth as [|depth IH]; intros q q' outer Hq; cbn [execute_subplan].
  - by apply subplan_sim.
  - apply subplan_sim; [|done]. intros k k' scopes _ Hk. by rewrite (IH k k' scopes Hk).
Qed.
End ExecuteSim.

(** ** Claim *)
Section OptimizeClaims.
Context {F : Foreign}.

Lemma expression_count_sim ns ns' rm : optimized ns ns' rm ->
  (length ns' <= length ns)%nat /\
  (list_sum (map logical_node_expression_count ns') <= list_sum (map logical_node_expression_count ns))%nat.
Proof.
  induction 1 as [|ns ns' rm n n' j _ [IH1 IH2] _ _|ns ns' rm n n' _ [IH1 IH2] Hn _]; [done| |];
    rewrite !length_app, !map_app, !list_sum_app; simpl.
  - lia.
  - assert (E : logical_node_expression_count n' = logical_node_expression_count n); [|rewrite E; lia].
    destruct n; cbn [remap_node] in Hn;
      repeat match type of Hn with rbind _ _ = Ok _ => let M := fresh "M" in apply rbind_ok in Hn as (? & M & Hn) end;
      injection Hn as <-; try done.
    simpl. unfold node_count. apply rbind_ok in M as (nodes & Hm & [= <-]). simpl. by apply mapR_length in Hm.
Qed.

Lemma optimize_execute_eq tables ps limits batch_rows p p' :
  well_formed p -> optimize p = Ok p' -> validate_plan p limits = Ok tt ->
  execute tables p' ps limits batch_rows = execute tables p ps limits batch_rows.
Proof.
  intros (T & Hroot & Hscoped) ([nodes' remap] & Hs & (root & Hr%ok_or_ok & [= <-])%rbind_ok)%rbind_ok Hv.
  simpl in *. apply optimize_steps in Hs as Ho. unfold execute. rewrite Hv.
  destruct (expression_count_sim _ _ _ Ho) as [Hc1 Hc2].
  assert (Hv' : validate_plan (mkLogicalPlan nodes' root (plan_output p) (plan_fingerprint p)) limits = Ok tt).
  { unfold validate_plan in *. apply check_then in Hv as [Hv1%guard_ok%Nat.leb_le [Hv2%guard_ok%Nat.leb_le Hv3]%check_then].
    apply check_then. split; [apply guard_ok, Nat.leb_le; simpl; lia|].
    apply check_then. split; [apply guard_ok, Nat.leb_le; simpl; lia|done]. }
  rewrite Hv'. cbn [rbind]. destruct (guard _ "MEMORY-EXEC-001"); cbn [rbind]; [|done].
  destruct (shapes_sim _ _ _ Ho) as (S & S' & E1 & E2 & _ & _ & HS).
  unfold scope_shapes. rewrite E1. cbn [plan_nodes]. rewrite E2. cbn [rbind].
  set (p' := mkLogicalPlan nodes' root (plan_output p) (plan_fingerprint p)).
  change (plan_root p') with root. change (plan_output p') with (plan_output p).
  by rewrite <- (execute_subplan_sim tables ps limits p p' remap Ho T Hscoped S S' HS max_existential_depth _ _ [] Hr).
Qed.

(** C1: optimization does not change what a plan does: on any tables,
    parameters and limits, a well-formed plan and its optimized form run to
    the same stream of rows or fail with the same diagnostic. *)
Theorem optimize_preserves_execution tables ps limits batch_rows p p' :
  well_formed p -> optimize p = Ok p' -> validate_plan p limits = Ok tt ->
  execute tables p' ps limits batch_rows = execute tables p ps limits batch_rows.
Proof. apply optimize_execute_eq. Qed.
End OptimizeClaims.

(** ** A concrete plan: two nested [Distinct]s under a slice of everything *)
Definition sample_plan : LogicalPlan (F:=sample_foreign) :=
  mkLogicalPlan [NSource sample_model None; NDistinct 0; NDistinct 1; NSlice 2 0 None] 3 (OutModel sample_model) [].
Definition sample_optimized : LogicalPlan (F:=sample_foreign) :=
  mkLogicalPlan [NSource sample_model None; NDistinct 0] 1 (OutModel sample_model) [].
Definition sample_tables : Tables (F:=sample_foreign) :=
  [("user"%stdpp, mkMemoryTable sample_model [sample_row; sample_row])].
Definition sample_limits : ExecutionLimits := mkExecutionLimits (Some 10) None 16 16 1.

Lemma optimize_preserves_execution_witness :
  optimize sample_plan = Ok sample_optimized /\
  execute sample_tables sample_optimized parameters_new sample_limits 8 =
    Ok (mkMemoryStream (OutModel sample_model) [RModel sample_row] 8 false).
Proof.
  split; [reflexivity|].
  rewrite (optimize_preserves_execution (F:=sample_foreign) sample_tables parameters_new sample_limits 8
             sample_plan sample_optimized); [reflexivity| |reflexivity|reflexivity].
  split; [|split; [simpl; lia|]].
  - intros [|[|[|[|i]]]] n H; try discriminate H; injection H as <-; repeat constructor.
  - intros [|[|[|[|i]]]] n H; try discriminate H; injection H as <-; constructor.
Defined.
