(* ===== verification/ExecutorSpec.v ===== *)
(** * What the executor's stages compute ([engines/memory/src/executor/])

    Declarative descriptions of duplicate removal, joins, sorting, grouping,
    row frames and batching, and proofs that the loops of [Executor] meet
    them. *)
From Stdlib Require Import ZArith Lia.
From S2P Require Import Prelude Foreign Truth BTree Types Values Sums Fingerprint Model Expr Row Semantic ExprPrepare Plan Executor.

Local Open Scope Z_scope.

(** ** Pushing rows *)
Section Push.
Context {F : Foreign}.
Context (limits : ExecutionLimits).

Lemma push_ok s row s' : push_stage_row limits s row = Ok s' -> fst s' = fst s ++ [row].
Proof. intros [_ [_ [= <-]]%check_then]%check_then. done. Qed.

(** A loop whose iterations emit rows emits them all, in order. *)
Lemma foldR_emits {A S} (out : S -> list WorkingRow) (f : S -> A -> Result S) (g : A -> list WorkingRow) l s s' :
  (forall x s s', x ∈ l -> f s x = Ok s' -> out s' = out s ++ g x) ->
  foldR f l s = Ok s' -> out s' = out s ++ flat_map g l.
Proof.
  revert s. induction l as [|x l IH]; intros s H; cbn [foldR flat_map].
  { intros [= <-]. by rewrite app_nil_r. }
  intros (s1 & H1 & H2)%rbind_ok. rewrite (IH s1) by (done || (intros; eapply H; [by right|done])).
  rewrite (H x s s1) by (done || left). by rewrite app_assoc.
Qed.

(** A loop whose iterations emit one row each. *)
Lemma foldR_emits_each {A S} (out : S -> list WorkingRow) (f : S -> A -> Result S) (R : A -> WorkingRow -> Prop) l s s' :
  (forall x s s', x ∈ l -> f s x = Ok s' -> exists row, out s' = out s ++ [row] /\ R x row) ->
  foldR f l s = Ok s' -> exists rows, out s' = out s ++ rows /\ Forall2 R l rows.
Proof.
  revert s. induction l as [|x l IH]; intros s H; cbn [foldR].
  { intros [= <-]. exists []. by rewrite app_nil_r. }
  intros (s1 & H1 & H2)%rbind_ok. destruct (H x s s1) as (row & E1 & Hr); [left|done|].
  destruct (IH s1) as (rows & E2 & Hrs); [intros; eapply H; [by right|done]|done|].
  exists (row :: rows). rewrite E2, E1, <- app_assoc. split; [done|by constructor].
Qed.
End Push.

(** ** Distinct *)
Section DistinctSpec.
Context {F : Foreign}.

Lemma push_unique_cases limits s row s' : push_unique limits s row = Ok s' ->
  (s' = s /\ exists y, y ∈ fst s /\ same_output y row = true) \/
  (fst s' = fst s ++ [row] /\ forall y, y ∈ fst s -> same_output y row = false).
Proof.
  unfold push_unique. destruct (existsb _ (fst s)) eqn:E.
  - intros [= <-]. left. split; [done|]. apply existsb_exists in E as (y & Hy & E).
    exists y. by rewrite list_elem_of_In.
  - intros H%push_ok. right. split; [done|]. intros y Hy. apply not_true_is_false. intros Hs.
    rewrite <- not_true_iff_false, existsb_exists in E. apply E. exists y. by rewrite <- list_elem_of_In.
Qed.

(** No row follows one with an equal output. *)
Definition duplicate_free (rows : list WorkingRow) : Prop :=
  forall i j a b, (i < j)%nat -> rows !! i = Some a -> rows !! j = Some b -> same_output a b = false.

Lemma distinct_loop limits input s s' : duplicate_free (fst s) ->
  foldR (push_unique limits) input s = Ok s' ->
  duplicate_free (fst s') /\
  (exists more, fst s' = fst s ++ more /\ more `sublist_of` input) /\
  (forall x, x ∈ input -> exists y, y ∈ fst s' /\ (y = x \/ same_output y x = true)).
Proof.
  revert s. induction input as [|x input IH]; intros s Hd; cbn [foldR].
  { intros [= <-]. split_and!; [done| |by intros ? ?%not_elem_of_nil]. exists []. by rewrite app_nil_r. }
  intros (s1 & H1 & H2)%rbind_ok.
  destruct (push_unique_cases _ _ _ _ H1) as [(-> & y & Hy & Hs)|(Hf & Hne)].
  - destruct (IH s Hd H2) as (D & (more & E & Hsub) & C). split_and!; [done| |].
    + exists more. split; [done|by constructor].
    + intros z [->|Hz]%elem_of_cons; [|by apply C]. exists y. split; [|by right].
      rewrite E. apply elem_of_app. by left.
  - assert (Hd1 : duplicate_free (fst s1)).
    { rewrite Hf. intros i j a b Hij Ha [[_ Hb]|[Hj <-]]%lookup_snoc_Some.
      - rewrite lookup_app_l in Ha by (apply lookup_lt_Some in Hb; lia). by eapply (Hd i j).
      - rewrite lookup_app_l in Ha by lia. apply Hne. by eapply list_elem_of_lookup_2. }
    destruct (IH s1 Hd1 H2) as (D & (more & E & Hsub) & C). split_and!; [done| |].
    + exists (x :: more). rewrite E, Hf, <- app_assoc. split; [done|by constructor].
    + intros z [->|Hz]%elem_of_cons; [|by apply C]. exists x. split; [|by left].
      rewrite E, Hf. apply elem_of_app. left. apply elem_of_app. right. left.
Qed.

(** A subsequence of the rows in which no output repeats, each row kept or equal
    to a kept one. *)
Definition distinct_of (input rows : list WorkingRow) : Prop :=
  rows `sublist_of` input /\ duplicate_free rows /\
  (forall x, x ∈ input -> exists y, y ∈ rows /\ (y = x \/ same_output y x = true)).

Lemma distinct_rows limits input s :
  foldR (push_unique limits) input no_rows = Ok s -> distinct_of input (fst s).
Proof.
  intros H. apply distinct_loop in H as (D & (more & E & Hsub) & C); [|by intros ????? ?].
  simpl in E. by rewrite <- E in Hsub.
Qed.

Lemma foldR_filter {A S} (f : S -> A -> Result S) (keep : A -> bool) l s :
  foldR (fun s x => if keep x then f s x else Ok s) l s = foldR f (List.filter keep l) s.
Proof.
  revert s. induction l as [|x l IH]; intros s; cbn [foldR List.filter]; [done|].
  destruct (keep x); cbn [rbind foldR]; [|apply IH]. by destruct (f s x); cbn [rbind].
Qed.

(** Duplicate removal keeps a subsequence of the input in which no output
    repeats, and every input row is kept or equal to a kept one. *)
Theorem execute_distinct_spec limits input rows :
  execute_distinct limits input = Ok rows -> distinct_of input rows.
Proof. intros (s & H & ->)%rmap_ok. by eapply distinct_rows. Qed.

(** The set operators: a bag union is the concatenation, the others the
    distinct rows of the concatenation, of the left rows equal to a right one,
    or of the left rows equal to none. *)
Theorem execute_set_spec limits l r operator rows :
  execute_set limits l r operator = Ok rows ->
  let in_right row := existsb (fun candidate => same_output candidate row) r in
  match operator with
  | SUnionAll => rows = l ++ r
  | SUnion => distinct_of (l ++ r) rows
  | SIntersect => distinct_of (List.filter in_right l) rows
  | SExcept => distinct_of (List.filter (fun row => negb (in_right row)) l) rows
  end.
Proof.
  intros (s & H & ->)%rmap_ok in_right. destruct operator.
  - by eapply distinct_rows.
  - apply (foldR_emits fst _ (fun x => [x])) in H; [|by intros x s0 s1 _ ?%push_ok].
    rewrite H. simpl. clear. induction (l ++ r) as [|x rows IH]; simpl; congruence.
  - rewrite foldR_filter in H. by eapply distinct_rows.
  - rewrite (foldR_filter (push_unique limits) (fun row => negb (in_right row))) in H. by eapply distinct_rows.
Qed.
End DistinctSpec.

(** ** Joins *)
Section JoinSpec.
Context {F : Foreign}.
Context (limits : ExecutionLimits) (eval : LogicalExpr -> WorkingRow -> Result Datum).
Context (k : JoinKind) (condition : option LogicalExpr).

(** Whether the condition holds of a pair of rows, where it evaluates. *)
Definition matched (l r : WorkingRow) : bool :=
  match pair_matches eval k condition l r with Ok b => b | Err _ => false end.
Definition pair_evaluates (l r : WorkingRow) : Prop := pair_matches eval k condition l r = Ok (matched l r).

(** The join as nested selections: each left row with its matches, or alone
    when the right side is nullable; then the right rows nothing matched. *)
Definition left_rows (right : list WorkingRow) (right_shape : list ModelDef) (l : WorkingRow) : list WorkingRow :=
  map (fun r => combined_row l r k) (List.filter (matched l) right) ++
  (if negb (existsb (matched l) right) && right_nullable k then [unmatched_left l right_shape k] else []).

Definition join_spec (left right : list WorkingRow) (left_shape right_shape : list ModelDef) : list WorkingRow :=
  flat_map (left_rows right right_shape) left ++
  (if left_nullable k
   then map (fun r => unmatched_right r left_shape k) (List.filter (fun r => negb (existsb (fun l => matched l r) left)) right)
   else []).

Lemma imap_shift {A} (pre : list A) r suf :
  imap (fun i row => ((length pre + i)%nat, row)) (r :: suf) =
  (length pre, r) :: imap (fun i row => ((length (pre ++ [r]) + i)%nat, row)) suf.
Proof.
  simpl. f_equal; [by rewrite Nat.add_0_r|]. apply imap_ext. intros i x _. simpl.
  rewrite length_app. simpl. f_equal. lia.
Qed.

Lemma join_pair_loop l (old : WorkingRow -> bool) pre suf out lm s' :
  foldR (join_pair limits eval k condition l) (imap (fun i row => ((length pre + i)%nat, row)) suf)
    (out, lm, map (fun r => matched l r || old r) pre ++ map old suf) = Ok s' ->
  Forall (pair_evaluates l) suf /\
  exists out', s' = (out', lm || existsb (matched l) suf, map (fun r => matched l r || old r) (pre ++ suf)) /\
    fst out' = fst out ++ map (fun r => combined_row l r k) (List.filter (matched l) suf).
Proof.
  revert pre out lm. induction suf as [|r suf IH]; intros pre out lm.
  { intros [= <-]. split; [constructor|]. exists out. rewrite !app_nil_r, orb_false_r. done. }
  rewrite imap_shift. cbn [foldR join_pair snd fst].
  change (map old (r :: suf)) with (old r :: map old suf).
  intros (s1 & (b & Eb & H1)%rbind_ok & H)%rbind_ok.
  assert (Er : matched l r = b) by (unfold matched; by rewrite Eb).
  assert (Ev : pair_evaluates l r) by (unfold pair_evaluates; congruence).
  assert (Hnext : forall out lm, s1 = (out, lm, map (fun r => matched l r || old r) pre ++ (b || old r) :: map old suf) ->
    foldR (join_pair limits eval k condition l) (imap (fun i row => ((length (pre ++ [r]) + i)%nat, row)) suf)
      (out, lm, map (fun r => matched l r || old r) (pre ++ [r]) ++ map old suf) = Ok s').
  { intros out1 lm1 ->. rewrite map_app, <- app_assoc. simpl. by rewrite Er. }
  cbn [List.filter existsb]. rewrite Er. destruct b.
  - apply rbind_ok in H1 as (out1 & Hp%push_ok & [= E1]).
    rewrite insert_app_r_alt in E1 by (rewrite length_map; lia). rewrite length_map, Nat.sub_diag in E1.
    destruct (IH _ _ _ (Hnext _ _ (eq_sym E1))) as (Hev & out' & -> & Hout). split; [by constructor|]. exists out'.
    rewrite <- app_assoc. split; [by rewrite orb_true_r|]. by rewrite Hout, Hp, <- app_assoc.
  - injection H1 as E1. destruct (IH _ _ _ (Hnext _ _ (eq_sym E1))) as (Hev & out' & -> & Hout).
    split; [by constructor|]. exists out'. by rewrite <- app_assoc.
Qed.

Lemma join_left_step right right_shape l (old : WorkingRow -> bool) out s' :
  join_left limits eval k condition right right_shape (out, map old right) l = Ok s' ->
  Forall (pair_evaluates l) right /\
  fst (fst s') = fst out ++ left_rows right right_shape l /\ snd s' = map (fun r => matched l r || old r) right.
Proof.
  intros (s1 & H & H2)%rbind_ok. apply (join_pair_loop l old []) in H as (Hev & out1 & -> & E).
  split; [done|]. simpl in H2. unfold left_rows. destruct (negb (existsb (matched l) right) && right_nullable k).
  - apply rbind_ok in H2 as (out2 & Hp%push_ok & [= <-]). simpl. by rewrite Hp, E, <- app_assoc.
  - injection H2 as <-. simpl. by rewrite E, app_nil_r.
Qed.

Lemma join_left_loop right right_shape left (old : WorkingRow -> bool) out s' :
  foldR (join_left limits eval k condition right right_shape) left (out, map old right) = Ok s' ->
  Forall (fun l => Forall (pair_evaluates l) right) left /\
  fst (fst s') = fst out ++ flat_map (left_rows right right_shape) left /\
  snd s' = map (fun r => existsb (fun l => matched l r) left || old r) right.
Proof.
  revert old out. induction left as [|l left IH]; intros old out; cbn [foldR].
  { intros [= <-]. simpl. by rewrite app_nil_r. }
  intros (s1 & H1 & H2)%rbind_ok. destruct s1 as [out1 rm1].
  apply join_left_step in H1 as (Hev & E1 & E2). simpl in E1, E2. subst rm1.
  destruct (IH _ _ H2) as (Hevs & E3 & E4). split_and!; [by constructor| |].
  - rewrite E3, E1. cbn [flat_map]. by rewrite app_assoc.
  - rewrite E4. apply map_ext. intros r. simpl. by rewrite orb_assoc, (orb_comm (existsb _ left)).
Qed.

Lemma join_right_loop right left_shape left out s' :
  foldR (fun out e =>
      if negb (default false (map (fun r => existsb (fun l => matched l r) left || false) right !! fst e))
      then push_stage_row limits out (unmatched_right (snd e) left_shape k) else Ok out)
    (imap (fun i row => (i, row)) right) out = Ok s' ->
  fst s' = fst out ++
    map (fun r => unmatched_right r left_shape k) (List.filter (fun r => negb (existsb (fun l => matched l r) left)) right).
Proof.
  intros H. apply (foldR_emits (fun s => fst s) _ (fun e => if existsb (fun l => matched l (snd e)) left then []
    else [unmatched_right (snd e) left_shape k])) in H.
  - rewrite H. f_equal. clear H.
    assert (G : forall (f : nat -> WorkingRow -> nat * WorkingRow) l, (forall i x, snd (f i x) = x) ->
      flat_map (fun e => if existsb (fun l => matched l (snd e)) left then [] else [unmatched_right (snd e) left_shape k]) (imap f l) =
      map (fun r => unmatched_right r left_shape k) (List.filter (fun r => negb (existsb (fun l => matched l r) left)) l)).
    { intros f l. revert f. induction l as [|r l IH]; intros f Hf; [done|]. cbn [imap flat_map List.filter].
      rewrite Hf, IH by (intros; apply Hf). by destruct (existsb _ left). }
    by apply G.
  - intros [i r] s0 s1 Hin. apply elem_of_lookup_imap in Hin as (j & r' & [= -> ->] & Hj). cbn [fst snd].
    rewrite list_lookup_fmap, Hj. simpl. rewrite orb_false_r.
    destruct (existsb _ left); simpl; [intros [= <-]; by rewrite app_nil_r|]. by intros ?%push_ok.
Qed.

Lemma execute_join_rows left right left_shape right_shape out :
  execute_join limits eval left right left_shape right_shape k condition = Ok out ->
  (condition = None <-> k = JCross) /\
  Forall (fun l => Forall (pair_evaluates l) right) left /\ out = join_spec left right left_shape right_shape.
Proof.
  intros [G1 [G2 [_ H]%check_then]%check_then]%check_then. split.
  { destruct k, condition; simpl in G1, G2; split; intros; done. }
  apply rbind_ok in H as ([out1 rm] & H1 & (s & H2 & ->)%rmap_ok).
  assert (E0 : replicate (length right) false = map (fun _ : WorkingRow => false) right)
    by (clear; induction right; simpl; congruence).
  rewrite E0 in H1. apply join_left_loop in H1 as (Hev & E1 & E2). simpl in E1, E2. split; [done|].
  unfold join_spec. rewrite <- E1. subst rm.
  destruct (left_nullable k); [by apply join_right_loop in H2|]. injection H2 as <-. by rewrite app_nil_r.
Qed.

(** The join described by its kind: the condition is evaluated on the two
    outputs side by side, over both sides' scopes. *)
Definition side_by_side (l r : WorkingRow) : WorkingRow :=
  mkWorkingRow (RProduct [wr_output l; wr_output r]) (wr_scopes l ++ wr_scopes r).

(** Unconditional for a cross join, otherwise where the condition is true. *)
Definition joins (l r : WorkingRow) : bool :=
  match k, condition with
  | JCross, _ => true
  | _, None => false
  | _, Some c => match eval c (side_by_side l r) with Ok (DValue (VTruth TTrue)) => true | _ => false end
  end.

(** The row of a joined pair: a side that may be missing is wrapped. *)
Definition joined_row (l r : WorkingRow) : WorkingRow :=
  mkWorkingRow (RProduct
    match k with
    | JInner | JCross => [wr_output l; wr_output r]
    | JLeft => [wr_output l; RNullable (Some (wr_output r))]
    | JRight => [RNullable (Some (wr_output l)); wr_output r]
    | JFull => [RNullable (Some (wr_output l)); RNullable (Some (wr_output r))]
    end) (wr_scopes l ++ wr_scopes r).

(** A left row that joined nothing is kept by the left and the full join. *)
Definition left_alone (right_shape : list ModelDef) (l : WorkingRow) : list WorkingRow :=
  match k with
  | JLeft => [mkWorkingRow (RProduct [wr_output l; RNullable None]) (wr_scopes l ++ map ScopeNull right_shape)]
  | JFull => [mkWorkingRow (RProduct [RNullable (Some (wr_output l)); RNullable None]) (wr_scopes l ++ map ScopeNull right_shape)]
  | JInner | JRight | JCross => []
  end.

(** A right row that joined nothing is kept by the right and the full join. *)
Definition right_alone (left_shape : list ModelDef) (r : WorkingRow) : list WorkingRow :=
  match k with
  | JRight => [mkWorkingRow (RProduct [RNullable None; wr_output r]) (map ScopeNull left_shape ++ wr_scopes r)]
  | JFull => [mkWorkingRow (RProduct [RNullable None; RNullable (Some (wr_output r))]) (map ScopeNull left_shape ++ wr_scopes r)]
  | JInner | JLeft | JCross => []
  end.

Definition join_output (left right : list WorkingRow) (left_shape right_shape : list ModelDef) : list WorkingRow :=
  flat_map (fun l => if existsb (joins l) right then map (joined_row l) (List.filter (joins l) right)
                     else left_alone right_shape l) left ++
  flat_map (fun r => if existsb (fun l => joins l r) left then [] else right_alone left_shape r) right.

Lemma matched_joins l r : matched l r = joins l r.
Proof.
  unfold matched, joins, pair_matches, error. change (combined_row l r JInner) with (side_by_side l r).
  destruct k, condition; cbn [ok_or rbind]; try done; destruct (eval _ _) as [[| |[|[]| | | | | | | | | | | | | | | | | |]]|]; done.
Qed.

Lemma pair_evaluates_value l r : (condition = None <-> k = JCross) -> pair_evaluates l r ->
  k = JCross /\ joins l r = true \/
  exists c t, condition = Some c /\ eval c (side_by_side l r) = Ok (DValue (VTruth t)) /\ joins l r = bool_decide (t = TTrue).
Proof.
  intros Hc. unfold pair_evaluates, pair_matches, joins, error. change (combined_row l r JInner) with (side_by_side l r).
  destruct (decide (k = JCross)) as [->|Hk]; [by left|].
  destruct condition as [c|]; [|by destruct Hk; apply Hc]. intros Hp. right. exists c.
  destruct k; try done; cbn [ok_or rbind] in Hp;
    destruct (eval c _) as [[| |[|[]| | | | | | | | | | | | | | | | | |]]|]; try done; eexists; split_and!; reflexivity.
Qed.

Lemma existsb_pointwise {A} (p q : A -> bool) l : (forall x, p x = q x) -> existsb p l = existsb q l.
Proof. intros E. induction l as [|x l IH]; [done|]. cbn [existsb]. by rewrite E, IH. Qed.

Lemma filter_unless {A} (p : A -> bool) l : existsb p l = false -> List.filter p l = [].
Proof. induction l as [|x l IH]; [done|]. cbn [existsb List.filter]. by intros [-> ?%IH]%orb_false_iff. Qed.

Lemma flat_map_unless {A B} (p : A -> bool) (f : A -> B) l :
  map f (List.filter (fun x => negb (p x)) l) = flat_map (fun x => if p x then [] else [f x]) l.
Proof. induction l as [|x l IH]; [done|]. cbn [List.filter flat_map]. destruct (p x); simpl; by rewrite IH. Qed.

Lemma left_rows_kept right right_shape l : left_rows right right_shape l =
  if existsb (joins l) right then map (joined_row l) (List.filter (joins l) right) else left_alone right_shape l.
Proof.
  unfold left_rows. rewrite (existsb_pointwise _ (joins l)), (List.filter_ext _ (joins l)) by apply matched_joins.
  destruct (existsb (joins l) right) eqn:E.
  - rewrite app_nil_r. apply map_ext. intros r. unfold joined_row, combined_row. by destruct k.
  - rewrite filter_unless by done. unfold left_alone, unmatched_left. by destruct k.
Qed.

Lemma join_spec_output left right left_shape right_shape :
  join_spec left right left_shape right_shape = join_output left right left_shape right_shape.
Proof.
  unfold join_spec, join_output. f_equal; [apply flat_map_ext; intros l; apply left_rows_kept|].
  transitivity (if left_nullable k then flat_map (fun r => if existsb (fun l => joins l r) left then []
    else [unmatched_right r left_shape k]) right else []).
  - destruct (left_nullable k); [|done]. rewrite (flat_map_unless (fun r => existsb (fun l => matched l r) left)).
    apply flat_map_ext. intros r. by rewrite (existsb_pointwise _ (fun l => joins l r)) by (intros; apply matched_joins).
  - unfold unmatched_right, right_alone. assert (E : flat_map (fun r => if existsb (fun l => joins l r) left then [] else []) right = [] :> list WorkingRow).
    { induction right as [|r right IH]; [done|]. cbn [flat_map]. rewrite IH. by destruct (existsb _ left). }
    destruct k; done.
Qed.

(** C18: a join succeeds only when a cross join has no condition and any other
    has one whose value on every pair is a truth, and its output is then the
    rows its kind promises: each left row with every right row it joins, in
    order; a left row that joins none once, with nulls for the right side, in a
    left or full join only; then, in a right or full join only, each right row
    that joins none, with nulls for the left side. *)
Theorem execute_join_spec left right left_shape right_shape out :
  execute_join limits eval left right left_shape right_shape k condition = Ok out ->
  (condition = None <-> k = JCross) /\
  (forall l r c, l ∈ left -> r ∈ right -> condition = Some c -> exists t, eval c (side_by_side l r) = Ok (DValue (VTruth t))) /\
  out = join_output left right left_shape right_shape.
Proof.
  intros (Hc & Hev & ->)%execute_join_rows. split_and!; [done| |apply join_spec_output].
  intros l r c Hl Hr E. rewrite Forall_forall in Hev. specialize (Hev l Hl). rewrite Forall_forall in Hev.
  destruct (pair_evaluates_value l r Hc (Hev r Hr)) as [[Hk _]|(c' & t & E' & He & _)]; [|exists t; congruence].
  apply Hc in Hk. congruence.
Qed.
End JoinSpec.

(** ** Groups and aggregates *)
Section GroupSpec.
Context {F : Foreign}.
Context (limits : ExecutionLimits) (eval : LogicalExpr -> WorkingRow -> Result Datum).

(** The rows of a key: all evaluate the key projection to it, or to a datum the
    key equals. *)
Definition group_of {A} (row_of : A -> WorkingRow) (p : LogicalProjection) (input : list A)
  (g : Datum * list A) : Prop :=
  snd g <> [] /\ snd g `sublist_of` input /\
  forall x, x ∈ snd g -> exists key, evaluate_projection eval p (row_of x) = Ok key /\
    (key = fst g \/ datum_eqb (fst g) key = true).

(** A partition of the input by key. *)
Definition grouping {A} (row_of : A -> WorkingRow) (p : LogicalProjection) (input : list A)
  (groups : list (Datum * list A)) : Prop :=
  concat (map snd groups) ≡ₚ input /\
  (forall i j a b, (i < j)%nat -> groups !! i = Some a -> groups !! j = Some b -> datum_eqb (fst a) (fst b) = false) /\
  Forall (group_of row_of p input) groups.

Lemma add_to_group_cases {A} key (x : A) groups :
  (exists l k xs r, groups = l ++ (k, xs) :: r /\ datum_eqb k key = true /\
     add_to_group key x groups = l ++ (k, xs ++ [x]) :: r) \/
  ((forall g, g ∈ groups -> datum_eqb (fst g) key = false) /\ add_to_group key x groups = groups ++ [(key, [x])]).
Proof.
  induction groups as [|[k xs] rest IH]; [right; by split; [intros g ?%not_elem_of_nil|]|]. cbn [add_to_group].
  destruct (datum_eqb k key) eqn:E; [left; by exists [], k, xs, rest|].
  destruct IH as [(l & k' & xs' & r & -> & E' & ->)|[H ->]].
  - left. by exists ((k, xs) :: l), k', xs', r.
  - right. split; [|done]. intros g [->|Hg]%elem_of_cons; [done|by apply H].
Qed.

Lemma group_of_grow {A} (row_of : A -> WorkingRow) p input x g :
  group_of row_of p input g -> group_of row_of p (input ++ [x]) g.
Proof. intros (H1 & H2 & H3). split_and!; [done| |done]. by apply sublist_inserts_r. Qed.

Lemma grouping_add {A} (row_of : A -> WorkingRow) p input groups x key :
  grouping row_of p input groups -> evaluate_projection eval p (row_of x) = Ok key ->
  grouping row_of p (input ++ [x]) (add_to_group key x groups).
Proof.
  intros (Hp & Hk & Hg) Hx. destruct (add_to_group_cases key x groups) as [(l & k & xs & r & -> & E & ->)|[Hne ->]].
  - split_and!.
    + rewrite map_app, concat_app in Hp |- *. simpl in Hp |- *. rewrite <- Hp. solve_Permutation.
    + intros i j a b Hij Ha Hb.
      assert (G : forall n g, (l ++ (k, xs ++ [x]) :: r) !! n = Some g ->
        exists g', (l ++ (k, xs) :: r) !! n = Some g' /\ fst g' = fst g).
      { intros n g. rewrite !lookup_app. destruct (l !! n); [eauto|]. destruct (n - length l)%nat; simpl; [|eauto].
        intros [= <-]. eauto. }
      destruct (G i a Ha) as (a' & Ha' & <-), (G j b Hb) as (b' & Hb' & <-). by apply (Hk i j).
    + apply Forall_app in Hg as [Hl Hr]. apply Forall_cons_1 in Hr as [Hm Hr]. apply Forall_app. split; [|constructor].
      * by eapply Forall_impl; [|apply group_of_grow].
      * destruct Hm as (_ & Hs & He). split_and!; simpl in *; [by destruct xs| |].
        { by apply sublist_app. }
        intros y [Hy| ->%list_elem_of_singleton]%elem_of_app; [by apply He|]. eauto.
      * by eapply Forall_impl; [|apply group_of_grow].
  - split_and!.
    + rewrite map_app, concat_app. simpl. by rewrite Hp.
    + intros i j a b Hij Ha [[_ Hb]|[-> <-]]%lookup_snoc_Some.
      * rewrite lookup_app_l in Ha by (apply lookup_lt_Some in Hb; lia). by apply (Hk i j).
      * rewrite lookup_app_l in Ha by done. apply Hne. by eapply list_elem_of_lookup_2.
    + apply Forall_app. split; [by eapply Forall_impl; [|apply group_of_grow]|]. constructor; [|constructor].
      split_and!; simpl; [done|by apply sublist_inserts_l|]. intros y ->%list_elem_of_singleton. eauto.
Qed.

Lemma group_rows_loop {A} (row_of : A -> WorkingRow) p seen input groups result :
  grouping row_of p seen groups ->
  foldR (fun groups x => let? key := evaluate_projection eval p (row_of x) in Ok (add_to_group key x groups)) input groups
    = Ok result ->
  grouping row_of p (seen ++ input) result.
Proof.
  revert seen groups. induction input as [|x input IH]; intros seen groups Hg; cbn [foldR].
  { intros [= <-]. by rewrite app_nil_r. }
  intros (g1 & (key & Hkey & [= <-])%rbind_ok & H)%rbind_ok.
  rewrite cons_middle, app_assoc. eapply IH; [|done]. by apply grouping_add.
Qed.

Lemma group_rows_grouping {A} (row_of : A -> WorkingRow) p input groups :
  group_rows eval row_of p input = Ok groups -> grouping row_of p input groups.
Proof.
  apply (group_rows_loop row_of p []). split_and!; [done| |constructor].
  intros i j a b _ Ha. by rewrite lookup_nil in Ha.
Qed.

(** C19: a grouped aggregation partitions the rows by pairwise unequal keys and
    returns one row per group, in order of first appearance: the key with the
    aggregates of the group's rows.  Without keys all rows are one group. *)
Theorem execute_aggregate_spec input groups selection out :
  execute_aggregate limits eval input groups selection = Ok out ->
  match groups with
  | None => exists d, evaluate_selection eval input selection = Ok d /\ out = [value_row d]
  | Some p => exists gs, grouping (fun row => row) p input gs /\
      Forall2 (fun g row => exists d, evaluate_selection eval (snd g) selection = Ok d /\
        row = value_row (DValue (VTuple [fst g; d]))) gs out
  end.
Proof.
  intros (grouped & Hg & (s & Hs & ->)%rmap_ok)%rbind_ok.
  assert (G : Forall2 (fun g row => exists d, evaluate_selection eval (snd g) selection = Ok d /\
    row = value_row (match fst g with Some key => DValue (VTuple [key; d]) | None => d end)) grouped (fst s)).
  { eapply (foldR_emits_each fst) in Hs as (rows & E & H); [rewrite E; exact H|].
    intros g s0 s1 _ (d & Hd & Hp%push_ok)%rbind_ok. eauto. }
  destruct groups as [p|].
  - apply rmap_ok in Hg as (gs & Hg%group_rows_grouping & ->). exists gs. split; [done|].
    apply Forall2_fmap_l in G. exact G.
  - injection Hg as <-. apply Forall2_cons_inv_l in G as (row & rest & (d & Hd & ->) & ->%Forall2_nil_inv_l & ->). eauto.
Qed.
End GroupSpec.

(** ** Aggregate values *)
Section AggregateSpec.
Context {F : Foreign} {L : ForeignLaws F}.
Context (eval : LogicalExpr -> WorkingRow -> Result Datum).

(** The evaluations that are neither missing nor null. *)
Definition concrete_of (d : Datum) : option Value := match d with DValue v => Some v | _ => None end.

(** A least (greatest) element: no other one comes before (after) it. *)
Definition extreme (maximum : bool) (d : Datum) (ds : list Value) : Prop :=
  forall v, v ∈ ds -> compare_datums (DValue v) d <> Some (if maximum then Gt else Lt).

Lemma foldR_evaluations {S} (e : LogicalExpr) (f : S -> Datum -> Result S) rows s s' :
  foldR (fun s row => let? d := eval e row in f s d) rows s = Ok s' <->
  exists ds, mapR (eval e) rows = Ok ds /\ foldR f ds s = Ok s'.
Proof.
  revert s. induction rows as [|row rows IH]; intros s; cbn [foldR].
  { split; [intros [= <-]; by exists []|]. intros (ds & [= <-] & H). done. }
  split.
  - cbn [foldR]. intros (s1 & (d & Hd & H1)%rbind_ok & (ds & Hds & H2)%IH)%rbind_ok. exists (d :: ds).
    split; [apply mapR_ok; constructor; [done|by apply mapR_ok]|]. cbn [foldR]. by rewrite H1.
  - intros (ds & (d & ds' & Hd & Hds & ->)%mapR_ok%Forall2_cons_inv_l & H).
    cbn [foldR] in H |- *. apply rbind_ok in H as (s1 & H1 & H2). rewrite Hd. cbn [rbind]. rewrite H1.
    apply IH. exists ds'. by rewrite mapR_ok.
Qed.

Lemma count_loop ds count result :
  foldR (fun count d => match d with
    | DValue _ => guard (count + 1 <=? u128_max) "MEMORY-AGG-002" ;;? Ok (count + 1)
    | _ => Ok count end) ds count = Ok result ->
  result = count + zlen (omap concrete_of ds).
Proof.
  revert count. induction ds as [|d ds IH]; intros count; cbn [foldR].
  { intros [= <-]. unfold zlen. simpl. lia. }
  intros (c1 & H1 & ->%IH)%rbind_ok. destruct d; cbn [omap list_omap concrete_of]; unfold zlen; cbn [length]; rewrite ?Nat2Z.inj_succ.
  - injection H1 as <-. lia.
  - injection H1 as <-. lia.
  - apply check_then in H1 as [_ [= <-]]. lia.
Qed.

Lemma concrete_loop ds acc result :
  foldR (fun concrete d => match d with DValue v => Ok (concrete ++ [v]) | _ => Ok concrete end) ds acc = Ok result ->
  result = acc ++ omap concrete_of ds.
Proof.
  revert acc. induction ds as [|d ds IH]; intros acc; cbn [foldR].
  { intros [= <-]. by rewrite app_nil_r. }
  intros (c1 & H1 & ->%IH)%rbind_ok. destruct d; injection H1 as <-; simpl; [done|done|by rewrite <- app_assoc].
Qed.

(** The candidate kept so far is a concrete one, and extreme among them. *)
Definition selected_extreme (maximum : bool) (ds : list Datum) (selected : option Datum) : Prop :=
  match selected with
  | None => omap concrete_of ds = []
  | Some d => (exists v, d = DValue v /\ v ∈ omap concrete_of ds) /\ extreme maximum d (omap concrete_of ds)
  end.

Lemma family_flip r a b : in_family r a -> in_family r b ->
  (compare_datums a b <> Some Lt <-> compare_datums b a <> Some Gt).
Proof.
  intros Ha Hb. destruct (compare_datums_family r) as (_ & H & _).
  destruct (H a b Ha Hb) as (c & -> & ->). by destruct c.
Qed.

(** The better of a new candidate and the one kept is extreme among all. *)
Lemma extreme_replace r maximum d c ds : in_family r d -> in_family r c ->
  Forall (fun v => in_family r (DValue v)) ds -> extreme maximum d ds ->
  compare_datums c d = Some (if maximum then Gt else Lt) -> extreme maximum c ds.
Proof.
  intros Hd Hc Hds He E v Hv. rewrite Forall_forall in Hds. specialize (Hds v Hv). specialize (He v Hv).
  destruct (compare_datums_family r) as (_ & _ & T). destruct maximum.
  - apply (T _ d); [done..|]. apply (family_flip r); [done..|]. by rewrite E.
  - apply (family_flip r); [done..|]. apply (T _ d); [done..|by rewrite E|]. by apply (family_flip r).
Qed.

Lemma omap_snoc (seen : list Datum) d :
  omap concrete_of (seen ++ [d]) = omap concrete_of seen ++ omap concrete_of [d].
Proof. apply omap_app. Qed.

Lemma extreme_snoc r maximum d (ds : list Value) v : in_family r d -> in_family r (DValue v) ->
  extreme maximum d ds -> compare_datums (DValue v) d <> Some (if maximum then Gt else Lt) ->
  extreme maximum d (ds ++ [v]).
Proof. intros Hd Hv He E x [Hx| ->%list_elem_of_singleton]%elem_of_app; [by apply He|done]. Qed.

Definition select_step (maximum : bool) (selected : option Datum) (candidate : Datum) : Result (option Datum) :=
  match candidate with
  | DValue _ =>
      let? replace :=
        match selected with
        | None => Ok true
        | Some current =>
            let? o := ok_or (compare_datums candidate current) "MEMORY-AGG-003" in
            Ok (if maximum then comparison_eqb o Gt else comparison_eqb o Lt)
        end in
      Ok (if replace then Some candidate else selected)
  | _ => Ok selected
  end.

Lemma select_step_extreme r maximum seen d selected next :
  Forall (in_family r) (seen ++ [d]) -> selected_extreme maximum seen selected ->
  select_step maximum selected d = Ok next -> selected_extreme maximum (seen ++ [d]) next.
Proof.
  intros [Hs Hd]%Forall_app Hsel H. apply Forall_cons_1 in Hd as [Hd _]. unfold selected_extreme.
  assert (Hv : Forall (fun v => in_family r (DValue v)) (omap concrete_of seen)).
  { apply Forall_forall. intros v Hv. apply list_elem_of_omap in Hv as ([| |w] & Hw & [= <-]).
    rewrite Forall_forall in Hs. by apply Hs. }
  rewrite omap_snoc. destruct d as [| |v]; simpl; rewrite ?app_nil_r; [by injection H as <-..|].
  destruct selected as [d|]; simpl in Hsel.
  - destruct Hsel as [(w & -> & Hw) He]. unfold select_step in H.
    apply rbind_ok in H as (b & (o & Ho%ok_or_ok & [= <-])%rbind_ok & [= <-]).
    assert (Hw' : in_family r (DValue w)) by (rewrite Forall_forall in Hv; by apply Hv).
    destruct (if maximum then comparison_eqb o Gt else comparison_eqb o Lt) eqn:E.
    + assert (Ho' : compare_datums (DValue v) (DValue w) = Some (if maximum then Gt else Lt))
        by (rewrite Ho; by destruct maximum, o).
      split; [exists v; split; [done|apply elem_of_app; right; left]|].
      apply (extreme_snoc r); [done..|by apply (extreme_replace r maximum (DValue w))|].
      destruct (compare_datums_family r) as (R & _ & _). rewrite (R _ Hd). by destruct maximum.
    + split; [exists w; split; [done|apply elem_of_app; by left]|]. apply (extreme_snoc r); [done..|].
      rewrite Ho. by destruct maximum, o.
  - injection H as <-. rewrite Hsel. split; [exists v; split; [done|left]|].
    intros x ->%list_elem_of_singleton. destruct (compare_datums_family r) as (R & _ & _). rewrite (R _ Hd).
    by destruct maximum.
Qed.

Lemma select_loop r maximum seen ds selected result :
  Forall (in_family r) (seen ++ ds) -> selected_extreme maximum seen selected ->
  foldR (select_step maximum) ds selected = Ok result -> selected_extreme maximum (seen ++ ds) result.
Proof.
  revert seen selected. induction ds as [|d ds IH]; intros seen selected Hf Hs; cbn [foldR].
  { intros [= <-]. by rewrite app_nil_r. }
  rewrite cons_middle, app_assoc in Hf |- *. intros (s1 & H1 & H2)%rbind_ok. apply (IH _ s1); [done| |done].
  apply (select_step_extreme r _ _ _ selected); [|done..]. by apply Forall_app in Hf as [Hf _].
Qed.

(** What an aggregate of rows is, given the evaluations [ds] of its input. *)
Definition aggregate_of (r : ScalarRepr) (kind : AggregateKind) (ds : list Datum) (d : Datum) : Prop :=
  let concrete := omap concrete_of ds in
  match kind with
  | CountRows => d = DValue (VUInt (zlen ds))
  | CountPresent => d = DValue (VUInt (zlen concrete))
  | AggSum =>
      match concrete with
      | [] => d = Null
      | _ => exists sum, sum_exact_values concrete = Ok sum /\ d = from_option DValue Null sum
      end
  | AggMin => Forall (in_family r) ds -> exists selected, d = default Null selected /\ selected_extreme false ds selected
  | AggMax => Forall (in_family r) ds -> exists selected, d = default Null selected /\ selected_extreme true ds selected
  end.

Lemma evaluate_extreme_spec r rows e maximum d : evaluate_extreme eval rows e maximum = Ok d ->
  exists ds, mapR (eval e) rows = Ok ds /\
    (Forall (in_family r) ds -> exists selected, d = default Null selected /\ selected_extreme maximum ds selected).
Proof.
  intros (selected & H & [= <-])%rbind_ok.
  apply (foldR_evaluations e (select_step maximum)) in H as (ds & Hds & H). exists ds. split; [done|].
  intros Hf. exists selected. split; [done|]. by apply (select_loop r maximum [] ds None).
Qed.

Lemma evaluate_sum_spec rows e d : evaluate_sum_for_rows eval rows e = Ok d ->
  exists ds, mapR (eval e) rows = Ok ds /\ aggregate_of RBool AggSum ds d.
Proof.
  intros (concrete & H & H2)%rbind_ok.
  apply (foldR_evaluations e (fun concrete d => match d with DValue v => Ok (concrete ++ [v]) | _ => Ok concrete end))
    in H as (ds & Hds & ->%concrete_loop). exists ds. split; [done|]. unfold aggregate_of. simpl in H2.
  destruct (omap concrete_of ds); [by injection H2 as <-|].
  apply rbind_ok in H2 as (sum & Hs & H2). exists sum. split; [done|].
  destruct sum; [by apply check_then in H2 as [_ [= <-]]|by injection H2 as <-].
Qed.

(** An aggregate counts the rows or the values that are neither missing nor
    null, or is their exact sum, or a least or greatest one of them under the
    order of values (null when there is none), and has its declared type. *)
Theorem evaluate_one_spec r rows a d :
  evaluate_one eval rows a = Ok d ->
  validate_datum (la_ty a) Required d = Ok tt /\
  ((la_kind a = CountRows /\ d = DValue (VUInt (zlen rows))) \/
   exists e ds, la_input a = Some e /\ mapR (eval e) rows = Ok ds /\ aggregate_of r (la_kind a) ds d).
Proof.
  intros (d' & H & [Hv [= <-]]%check_then)%rbind_ok. split; [done|].
  destruct (la_kind a); [left; by injection H as <-|right..];
    apply rbind_ok in H as (e & He%ok_or_ok & H); exists e.
  - apply rbind_ok in H as (n & H & [= <-]). apply (foldR_evaluations e (fun count d => match d with
      | DValue _ => guard (count + 1 <=? u128_max) "MEMORY-AGG-002" ;;? Ok (count + 1)
      | _ => Ok count end)) in H as (ds & Hds & ->%count_loop). by exists ds.
  - by apply evaluate_sum_spec in H as (ds & Hds & H); exists ds.
  - by apply (evaluate_extreme_spec r) in H as (ds & Hds & H); exists ds.
  - by apply (evaluate_extreme_spec r) in H as (ds & Hds & H); exists ds.
Qed.
End AggregateSpec.

(** ** Examples *)
Definition int_row (z : Z) : WorkingRow (F:=sample_foreign) := value_row (DValue (VInt z)).
Definition spec_limits : ExecutionLimits := mkExecutionLimits (Some 10) None 16 16 1.

Lemma execute_distinct_spec_witness :
  distinct_of [int_row 1; int_row 2; int_row 1] [int_row 1; int_row 2].
Proof. apply (execute_distinct_spec spec_limits). reflexivity. Defined.

Lemma execute_set_spec_witness :
  distinct_of (List.filter (fun x => negb (existsb (fun c => same_output c x) [int_row 2])) [int_row 1; int_row 2; int_row 1])
    [int_row 1].
Proof. apply (execute_set_spec spec_limits [int_row 1; int_row 2; int_row 1] [int_row 2] SExcept). reflexivity. Defined.

(** A full join on equality of the two sides' integers. *)
Definition equal_sides (_ : LogicalExpr (F:=sample_foreign)) (row : WorkingRow (F:=sample_foreign)) : Result (Datum (F:=sample_foreign)) :=
  match wr_output row with
  | RProduct [RValue (DValue (VInt a)); RValue (DValue (VInt b))] => Ok (truth (a =? b))
  | _ => error "EXPR-EVAL-000"
  end.

Lemma execute_join_spec_witness :
  [mkWorkingRow (RProduct [wr_output (int_row 1); RNullable None]) [ScopeNull sample_model];
   mkWorkingRow (RProduct [wr_output (int_row 2); RNullable (Some (wr_output (int_row 2)))]) []] =
  join_output equal_sides JLeft (Some sample_prepared) [int_row 1; int_row 2] [int_row 2; int_row 3] [] [sample_model] /\
  [mkWorkingRow (RProduct [RNullable (Some (wr_output (int_row 2))); RNullable (Some (wr_output (int_row 2)))]) [];
   mkWorkingRow (RProduct [RNullable None; RNullable (Some (wr_output (int_row 3)))]) []] =
  join_output equal_sides JFull (Some sample_prepared) [int_row 2] [int_row 2; int_row 3] [] [sample_model].
Proof.
  split.
  - apply (execute_join_spec spec_limits equal_sides JLeft (Some sample_prepared) [int_row 1; int_row 2]
      [int_row 2; int_row 3] [] [sample_model]).
    reflexivity.
  - apply (execute_join_spec spec_limits equal_sides JFull (Some sample_prepared) [int_row 2]
      [int_row 2; int_row 3] [] [sample_model]).
    reflexivity.
Defined.

(** Values grouped by themselves, and their least one. *)
Definition row_value (_ : LogicalExpr (F:=sample_foreign)) (row : WorkingRow (F:=sample_foreign)) : Result (Datum (F:=sample_foreign)) :=
  match wr_output row with RValue d => Ok d | _ => error "EXPR-EVAL-000" end.
Definition i64_type : TypeDef := scalar "dol/i64" 1 (RInt 64).
Definition sample_key : LogicalProjection (F:=sample_foreign) := mkProjection ProjectValue [sample_prepared] [] i64_type.
Definition sample_least : LogicalAggregate (F:=sample_foreign) := mkAggregate AggMin (Some sample_prepared) i64_type.
Definition sample_selection : LogicalAggregateSelection (F:=sample_foreign) := mkSelection SelectValue [sample_least] i64_type.

Lemma execute_aggregate_spec_witness :
  exists gs, grouping row_value (fun row => row) sample_key [int_row 1; int_row 2; int_row 1] gs /\
    Forall2 (fun g row => exists d, evaluate_selection row_value (snd g) sample_selection = Ok d /\
      row = value_row (DValue (VTuple [fst g; d]))) gs
      [value_row (DValue (VTuple [DValue (VInt 1); DValue (VInt 1)]));
       value_row (DValue (VTuple [DValue (VInt 2); DValue (VInt 2)]))].
Proof.
  apply (execute_aggregate_spec spec_limits row_value [int_row 1; int_row 2; int_row 1] (Some sample_key) sample_selection).
  reflexivity.
Defined.

Lemma evaluate_one_spec_witness :
  validate_datum i64_type Required (DValue (VInt 1) : Datum (F:=sample_foreign)) = Ok tt.
Proof. apply (evaluate_one_spec row_value (RInt 64) [int_row 2; int_row 1] sample_least). reflexivity. Defined.
