(* ===== verification/Windows.v ===== *)
(** * Order, row frames and ranks ([executor/ops.rs], [executor/window.rs])

    Sorting is stable and by the keys in turn; a row frame holds exactly the
    rows its two bounds allow; ranks count the rows before a peer group. *)
From Stdlib Require Import ZArith Lia Sorted.
From S2P Require Import Prelude Foreign Truth BTree Types Values Sums Fingerprint Model Expr Row Semantic ExprPrepare Plan Executor ExecutorSpec.

Local Open Scope Z_scope.

(** ** Comparisons lawful on a predicate *)
Definition laws_on {A} (P : A -> Prop) (cmp : A -> A -> comparison) : Prop :=
  (forall a b, P a -> P b -> cmp b a = CompOpp (cmp a b)) /\
  (forall a b c, P a -> P b -> P c -> cmp a b <> Gt -> cmp b c <> Gt -> cmp a c <> Gt).

Definition lex (c k : comparison) : comparison := match c with Eq => k | o => o end.

Lemma laws_on_ext {A} (P : A -> Prop) cmp cmp' :
  (forall a b, P a -> P b -> cmp a b = cmp' a b) -> laws_on P cmp -> laws_on P cmp'.
Proof.
  intros E [H1 H2]. split.
  - intros a b Ha Hb. rewrite <- !E by done. auto.
  - intros a b c Ha Hb Hc. rewrite <- !E by done. eauto.
Qed.

Lemma laws_on_map {A B} (f : A -> B) (P : A -> Prop) (Q : B -> Prop) cmp :
  (forall a, P a -> Q (f a)) -> laws_on Q cmp -> laws_on P (fun a b => cmp (f a) (f b)).
Proof. intros Hf [H1 H2]. split; eauto. Qed.

Lemma laws_on_eq {A} (P : A -> Prop) cmp a b c : laws_on P cmp -> P a -> P b -> P c ->
  cmp a b <> Gt -> cmp b c <> Gt -> cmp a c = Eq -> cmp a b = Eq /\ cmp b c = Eq.
Proof.
  intros [H1 H2] Ha Hb Hc Hab Hbc Hac. assert (Hca : cmp c a <> Gt) by (rewrite (H1 a c), Hac by done; done).
  assert (Hba : cmp b a <> Gt) by (apply (H2 b c a); done).
  assert (Hcb : cmp c b <> Gt) by (apply (H2 c a b); done).
  rewrite (H1 a b) in Hba by done. rewrite (H1 b c) in Hcb by done. by destruct (cmp a b), (cmp b c).
Qed.

Lemma lex_laws_on {A} (P : A -> Prop) c1 c2 :
  laws_on P c1 -> laws_on P c2 -> laws_on P (fun a b => lex (c1 a b) (c2 a b)).
Proof.
  intros L1 L2. split.
  - intros a b Ha Hb. rewrite (proj1 L1 a b), (proj1 L2 a b) by done. by destruct (c1 a b).
  - intros a b c Ha Hb Hc H1 H2.
    assert (G1 : c1 a b <> Gt) by (by destruct (c1 a b)). assert (G2 : c1 b c <> Gt) by (by destruct (c1 b c)).
    pose proof (proj2 L1 a b c Ha Hb Hc G1 G2) as G3. destruct (c1 a c) eqn:E; [|done|done].
    destruct (laws_on_eq P c1 a b c L1 Ha Hb Hc G1 G2 E) as [E1 E2]. rewrite E1 in H1. rewrite E2 in H2.
    simpl in *. by apply (proj2 L2 a b c).
Qed.

Lemma nat_laws_on {A} (f : A -> nat) (P : A -> Prop) : laws_on P (fun a b => Nat.compare (f a) (f b)).
Proof.
  split; intros.
  - apply Nat.compare_antisym.
  - rewrite !Nat.compare_le_iff in *. lia.
Qed.

(** ** Sorting *)
Section SortSpec.
Context {F : Foreign} {L : ForeignLaws F}.

(** Each key column holds null values and values of one scalar type. *)
Definition keys_typed (reprs : list ScalarRepr) (r : KeyedRow) : Prop := Forall2 in_family reprs (kr_values r).

Lemma column_laws r d :
  laws_on (in_family r) (fun a b => direction_ordering d (default Eq (compare_datums a b))).
Proof.
  destruct (compare_datums_family r) as (_ & H1 & H2). split.
  - intros a b Ha Hb. destruct (H1 a b Ha Hb) as (c & -> & ->). by destruct d, c.
  - intros a b c Ha Hb Hc. specialize (H2 a b c Ha Hb Hc) as H3. specialize (H2 c b a Hc Hb Ha) as H4. revert H3 H4.
    destruct (H1 a b Ha Hb) as (o1 & -> & ->), (H1 b c Hb Hc) as (o2 & -> & ->), (H1 a c Ha Hc) as (o3 & -> & ->).
    destruct d, o1, o2, o3; simpl; intros H3 H4 G1 G2; (discriminate || (exfalso; by apply H3) || (exfalso; by apply H4) || idtac); congruence.
Qed.

Lemma compare_key_lists_laws reprs keys :
  laws_on (Forall2 in_family reprs) (fun a b => compare_key_lists a b keys).
Proof.
  revert keys. induction reprs as [|r reprs IH]; intros keys.
  { split.
    - by intros a b ->%Forall2_nil_inv_l ->%Forall2_nil_inv_l.
    - by intros a b c ->%Forall2_nil_inv_l ->%Forall2_nil_inv_l. }
  destruct keys as [|k keys].
  { split.
    - intros a b (a1 & a2 & _ & _ & ->)%Forall2_cons_inv_l (b1 & b2 & _ & _ & ->)%Forall2_cons_inv_l. done.
    - intros a b c (a1 & a2 & _ & _ & ->)%Forall2_cons_inv_l (b1 & b2 & _ & _ & ->)%Forall2_cons_inv_l
        (c1 & c2 & _ & _ & ->)%Forall2_cons_inv_l. done. }
  apply (laws_on_ext _ (fun a b => lex (direction_ordering (se_direction k) (default Eq (compare_datums (hd Missing a) (hd Missing b))))
    (compare_key_lists (tl a) (tl b) keys))).
  - intros a b (a1 & a2 & _ & _ & ->)%Forall2_cons_inv_l (b1 & b2 & _ & _ & ->)%Forall2_cons_inv_l. cbn. by destruct (direction_ordering _ _).
  - apply lex_laws_on.
    + refine (laws_on_map (hd Missing) _ _ _ _ (column_laws r (se_direction k))). intros a H. by inversion_clear H.
    + refine (laws_on_map (@tl Datum) _ _ _ _ (IH keys)). intros a H. by inversion_clear H.
Qed.

Lemma compare_keys_laws reprs keys : laws_on (keys_typed reprs) (compare_keys keys).
Proof.
  apply (laws_on_ext _ (fun a b => lex (compare_key_lists (kr_values a) (kr_values b) keys)
    (Nat.compare (kr_position a) (kr_position b)))).
  - intros a b _ _. unfold compare_keys. by destruct (compare_key_lists _ _ _).
  - apply lex_laws_on; [|apply nat_laws_on].
    by refine (laws_on_map kr_values _ _ _ _ (compare_key_lists_laws reprs keys)).
Qed.

Lemma evaluate_keys_ok eval c keys row values :
  evaluate_keys eval c keys row = Ok values -> mapR (fun k => eval (se_expression k) row) keys = Ok values.
Proof. intros (vs & H & [_ [= <-]]%check_then)%rbind_ok. done. Qed.

(** The rows with their positions and keys, as [execute_sort] prepares them. *)
Definition keyed_rows (eval : LogicalExpr -> WorkingRow -> Result Datum) (keys : list SortExpr)
  (input : list WorkingRow) (keyed : list KeyedRow) : Prop :=
  length keyed = length input /\
  forall i r, keyed !! i = Some r ->
    kr_position r = i /\ input !! i = Some (kr_row r) /\
    mapR (fun k => eval (se_expression k) (kr_row r)) keys = Ok (kr_values r).

Lemma keyed_rows_ok eval keys input keyed :
  mapR (fun e => let? values := evaluate_keys eval "MEMORY-SORT-001" keys (snd e) in
                 Ok (mkKeyedRow (fst e) values (snd e))) (imap (fun i row => (i, row)) input) = Ok keyed ->
  keyed_rows eval keys input keyed /\ map kr_row keyed = input.
Proof.
  intros H%mapR_ok. assert (Hl : length keyed = length input) by (by rewrite <- (Forall2_length _ _ _ H), length_imap).
  assert (G : forall i r, keyed !! i = Some r ->
    kr_position r = i /\ input !! i = Some (kr_row r) /\
    mapR (fun k => eval (se_expression k) (kr_row r)) keys = Ok (kr_values r)).
  { intros i r Hr. destruct (Forall2_lookup_r _ _ _ _ _ H Hr) as ([j row] & Hj & E).
    rewrite list_lookup_imap in Hj. apply fmap_Some in Hj as (row' & Hrow & [= -> ->]).
    apply rbind_ok in E as (values & Hv%evaluate_keys_ok & [= <-]). done. }
  split; [done|]. apply list_eq. intros i. change (map kr_row keyed) with (kr_row <$> keyed).
  rewrite list_lookup_fmap. destruct (keyed !! i) as [r|] eqn:E; simpl.
  - by destruct (G i r E) as (_ & -> & _).
  - symmetry. apply lookup_ge_None. rewrite <- Hl. by apply lookup_ge_None.
Qed.

Lemma keyed_positions eval keys input keyed : keyed_rows eval keys input keyed -> NoDup (map kr_position keyed).
Proof.
  intros [_ H]. change (map kr_position keyed) with (kr_position <$> keyed). apply NoDup_alt.
  intros i j x. rewrite !list_lookup_fmap.
  intros (a & Ha & ->)%fmap_Some (b & Hb & E)%fmap_Some. destruct (H i a Ha) as [<- _], (H j b Hb) as [<- _]. done.
Qed.

Lemma sorted_strictly {A} (cmp : A -> A -> comparison) (position : A -> nat) l :
  (forall a b, cmp a b = Eq -> position a = position b) ->
  StronglySorted (le_by cmp) l -> NoDup (map position l) -> StronglySorted (fun a b => cmp a b = Lt) l.
Proof.
  intros He. induction 1 as [|x l Hs IH Hx]; [constructor|]. intros [Hn Hd]%NoDup_cons. constructor; [by apply IH|].
  rewrite Forall_forall in Hx |- *. intros y Hy. specialize (Hx y Hy). unfold le_by in Hx.
  destruct (cmp x y) eqn:E; [|done|done]. exfalso. apply Hn. rewrite (He x y E). by apply list_elem_of_fmap_2.
Qed.

Lemma compare_keys_eq keys a b : compare_keys keys a b = Eq -> kr_position a = kr_position b.
Proof. unfold compare_keys. destruct (compare_key_lists _ _ _); [|done|done]. by intros ?%Nat.compare_eq. Qed.

(** Sorting permutes the rows; when each key column is of one type they
    come in strictly ascending order of their keys in turn (reversed for a
    descending key) and, among equal keys, of their input positions. *)
Theorem execute_sort_spec eval input keys out reprs :
  execute_sort eval input keys = Ok out ->
  exists keyed sorted, keyed_rows eval keys input keyed /\ sorted ≡ₚ keyed /\ out = map kr_row sorted /\
    map kr_row keyed = input /\
    (Forall (keys_typed reprs) keyed ->
     StronglySorted (fun a b => compare_keys keys a b = Lt) sorted).
Proof.
  intros (keyed & H & [= <-])%rbind_ok. exists keyed, (sort_by (compare_keys keys) keyed).
  apply keyed_rows_ok in H as [Hk Hm]. split_and!; [done|apply sort_by_perm|done|done|]. intros Ht.
  apply (sorted_strictly _ kr_position _ (compare_keys_eq keys)).
  - apply (sort_by_sorted_on _ (keys_typed reprs)); [apply compare_keys_laws..|done].
  - rewrite sort_by_perm. by apply (keyed_positions eval keys input).
Qed.
End SortSpec.

(** ** Row frames *)
Section FrameSpec.
Context {F : Foreign}.

(** Whether row [i] of a partition is at or after (before) a bound of a frame
    around row [p]. *)
Definition after_start (b : WindowFrameBound) (p i : Z) : Prop :=
  match b with
  | UnboundedPreceding => True
  | Preceding d => p - d <= i
  | CurrentRow => p <= i
  | Following d => p + d <= i
  | UnboundedFollowing => False
  end.
Definition before_end (b : WindowFrameBound) (p i : Z) : Prop :=
  match b with
  | UnboundedPreceding => False
  | Preceding d => i <= p - d
  | CurrentRow => i <= p
  | Following d => i <= p + d
  | UnboundedFollowing => True
  end.

(** A [u64] distance. *)
Definition machine_bound (b : WindowFrameBound) : Prop :=
  match b with Preceding d | Following d => 0 <= d <= u64_max | _ => True end.

Lemma frame_start_exact b p len i : machine_bound b -> 0 <= p < len -> len <= u64_max -> 0 <= i < len ->
  (frame_start b p len <= i <-> after_start b p i).
Proof. destruct b; simpl; unfold sat_add; lia. Qed.

Lemma frame_end_exact b p len i : machine_bound b -> 0 <= p < len -> len <= u64_max -> 0 <= i < len ->
  (i < frame_end_exclusive b p len <-> before_end b p i).
Proof.
  destruct b as [|d| |d|]; simpl; unfold sat_add; intros; try lia. destruct (p <? d) eqn:E; lia.
Qed.

Lemma frame_end_range b p len : machine_bound b -> 0 <= p < len -> 0 <= frame_end_exclusive b p len <= len.
Proof.
  destruct b as [|d| |d|]; simpl; unfold sat_add, u64_max; intros; try lia.
  destruct (p <? d) eqn:E; lia.
Qed.

Lemma frame_start_nonneg b p len : machine_bound b -> 0 <= p < len -> 0 <= frame_start b p len.
Proof. destruct b as [|d| |d|]; simpl; unfold sat_add, u64_max; intros; lia. Qed.

(** A row frame holds exactly the rows of the partition between its two
    bounds, in order; saturating arithmetic never moves a bound. *)
Lemma frame_indices_exact f (position len i : nat) :
  machine_bound (rf_start f) -> machine_bound (rf_end f) ->
  (position < len)%nat -> Z.of_nat len <= u64_max ->
  (exists s n, frame_indices f position len = seq s n) /\
  (i ∈ frame_indices f position len <->
   (i < len)%nat /\ after_start (rf_start f) (Z.of_nat position) (Z.of_nat i) /\
   before_end (rf_end f) (Z.of_nat position) (Z.of_nat i)).
Proof.
  intros Hs He Hp Hl. unfold frame_indices, frame_range. split; [eauto|].
  set (p := Z.of_nat position). set (n := Z.of_nat len).
  pose proof (frame_end_range (rf_end f) p n He ltac:(lia)) as Hr.
  pose proof (frame_start_nonneg (rf_start f) p n Hs ltac:(lia)) as Hn.
  rewrite elem_of_seq. split.
  - intros [H1 H2]. assert (Hi : (i < len)%nat) by lia. split; [done|].
    rewrite <- (frame_start_exact _ p n), <- (frame_end_exact _ p n) by (done || lia). lia.
  - intros (Hi & H1 & H2).
    apply (frame_start_exact _ p n) in H1; [|done || lia..].
    apply (frame_end_exact _ p n) in H2; [|done || lia..]. lia.
Qed.
End FrameSpec.

Lemma frame_indices_exact_witness :
  frame_indices (mkRowsFrame (Preceding 1) (Following 1)) 2 6 = [1; 2; 3]%nat /\
  3%nat ∈ frame_indices (mkRowsFrame (Preceding 1) (Following 1)) 2 6.
Proof.
  split; [reflexivity|].
  apply (frame_indices_exact (mkRowsFrame (Preceding 1) (Following 1)) 2 6 3); vm_compute; intuition (lia || discriminate).
Defined.

(** ** Ranks *)
Section RankSpec.
Context {F : Foreign}.

Lemma datums_eqb_pairwise a b : datums_eqb a b = forallb2 datum_eqb a b.
Proof.
  revert b. induction a as [|x a IH]; intros [|y b]; try done. specialize (IH b). unfold datums_eqb in *. cbn in *.
  destruct (Nat.eqb (length a) (length b)); rewrite <- IH; cbn; [done|by rewrite andb_false_r].
Qed.

(** Row [p] has the keys of its predecessor. *)
Definition same_as_previous (ordered : list OrderedRow) (p : nat) : bool :=
  match p with
  | O => false
  | S q => match ordered !! q, ordered !! p with
           | Some a, Some b => forallb2 datum_eqb (or_keys a) (or_keys b)
           | _, _ => false
           end
  end.

(** The first row of the run of equal keys row [p] is in. *)
Definition peer_start (ordered : list OrderedRow) (s p : nat) : Prop :=
  (s <= p)%nat /\ same_as_previous ordered s = false /\
  forall q, (s < q <= p)%nat -> same_as_previous ordered q = true.

(** The runs begun up to row [p]. *)
Definition runs (ordered : list OrderedRow) (p : nat) : nat :=
  length (List.filter (fun q => negb (same_as_previous ordered q)) (seq 0 (S p))).

(** A row's number, its rank (one more than the rows before its run) or its
    dense rank (the number of its run). *)
Definition rank_value (k : WindowFunctionKind) (ordered : list OrderedRow) (p n : nat) : Prop :=
  match k with
  | RowNumber => n = S p
  | Rank => exists s, peer_start ordered s p /\ n = S s
  | DenseRank => n = runs ordered p
  | WindowSum => False
  end.

Lemma foldR_positions {A St} (inv : nat -> St -> Prop) (f : St -> nat * A -> Result St) l s s' :
  inv 0%nat s ->
  (forall i x s s', l !! i = Some x -> inv i s -> f s (i, x) = Ok s' -> inv (S i) s') ->
  foldR f (imap (fun i x => (i, x)) l) s = Ok s' -> inv (length l) s'.
Proof.
  intros H0 Hstep. assert (G : forall k rest s, (forall i x, rest !! i = Some x -> l !! (k + i)%nat = Some x) -> inv k s ->
    foldR f (imap (fun i x => ((k + i)%nat, x)) rest) s = Ok s' -> inv (k + length rest)%nat s').
  { intros k rest. revert k. induction rest as [|x rest IH]; intros k s1 Hl Hk.
    { intros [= <-]. by rewrite Nat.add_0_r. }
    cbn [imap foldR]. rewrite Nat.add_0_r. intros (s2 & H1 & H2)%rbind_ok. simpl. rewrite Nat.add_succ_r.
    apply (IH (S k) s2).
    - intros i y Hy. replace (S k + i)%nat with (k + S i)%nat by lia. by apply Hl.
    - eapply Hstep; [|done|done]. specialize (Hl 0%nat x eq_refl). by rewrite Nat.add_0_r in Hl.
    - rewrite <- H2. f_equal. apply imap_ext. intros i y _. simpl. f_equal. lia. }
  by apply (G 0%nat l s).
Qed.

(** The slots of the first [n] ordered rows hold their value, the others are
    untouched. *)
Definition stored (ordered : list OrderedRow) (value : nat -> Datum -> Prop) (before : WindowValues) (n : nat)
  (after : WindowValues) : Prop :=
  length after = length before /\
  (forall p row, (p < n)%nat -> ordered !! p = Some row ->
     exists d, after !! or_input_index row = Some (Some d) /\ value p d) /\
  (forall i, (forall p row, (p < n)%nat -> ordered !! p = Some row -> or_input_index row <> i) -> after !! i = before !! i).

Lemma stored_zero ordered value before : stored ordered value before 0 before.
Proof. split_and!; [done| |done]. intros; lia. Qed.

Lemma stored_next ordered value before n row out d out' :
  NoDup (map or_input_index ordered) -> ordered !! n = Some row -> stored ordered value before n out ->
  store_value out (or_input_index row) d = Ok out' -> value n d -> stored ordered value before (S n) out'.
Proof.
  intros Hd Hrow (Hl & Hv & Hu) (slot & Hslot%ok_or_ok & [= <-])%rbind_ok Hn.
  assert (Hlt : (or_input_index row < length out)%nat) by by eapply lookup_lt_Some.
  split_and!.
  - by rewrite length_insert.
  - intros p row' Hp Hrow'. destruct (decide (p = n)) as [->|Hne].
    + assert (row' = row) as -> by congruence. exists d. by rewrite list_lookup_insert_eq.
    + destruct (Hv p row') as (d' & Hd' & ?); [lia|done|]. exists d'. rewrite list_lookup_insert_ne; [done|].
      intros E. apply Hne. apply (NoDup_lookup (or_input_index <$> ordered) p n (or_input_index row)); [done| |].
      * by rewrite list_lookup_fmap, Hrow', E.
      * by rewrite list_lookup_fmap, Hrow.
  - intros i Hi. rewrite list_lookup_insert_ne by (apply (Hi n); [lia|done]).
    apply Hu. intros p row' Hp. apply Hi. lia.
Qed.

Lemma store_rank_ok out i n out' : store_rank out i n = Ok out' ->
  store_value out i (DValue (VUInt (Z.of_nat n))) = Ok out'.
Proof. by intros [_ H]%check_then. Qed.

Definition rank_datum (k : WindowFunctionKind) (ordered : list OrderedRow) (p : nat) (d : Datum) : Prop :=
  exists n, rank_value k ordered p n /\ d = DValue (VUInt (Z.of_nat n)).

Lemma row_numbers ordered out out' : NoDup (map or_input_index ordered) ->
  assign_row_number ordered out = Ok out' -> stored ordered (rank_datum RowNumber ordered) out (length ordered) out'.
Proof.
  intros Hd. apply (foldR_positions (fun n s => stored ordered (rank_datum RowNumber ordered) out n s)).
  { apply stored_zero. }
  intros i row s s' Hrow Hs H%store_rank_ok. eapply stored_next; [done|done|done|exact H|]. by exists (S i).
Qed.

(** Before row [n], the loop holds the rank and dense rank of row [n - 1]. *)
Definition rank_inv (dense : bool) ordered before n (s : nat * nat * WindowValues) : Prop :=
  let k := if dense then DenseRank else Rank in
  stored ordered (rank_datum k ordered) before n (snd s) /\
  match n with
  | O => fst (fst s) = 1%nat /\ snd (fst s) = 1%nat
  | S q => rank_value Rank ordered q (fst (fst s)) /\ rank_value DenseRank ordered q (snd (fst s))
  end.

Lemma runs_S ordered p : runs ordered (S p) = (runs ordered p + if same_as_previous ordered (S p) then 0 else 1)%nat.
Proof.
  unfold runs. rewrite seq_S, List.filter_app, length_app. f_equal. cbn [List.filter Nat.add].
  by destruct (same_as_previous ordered (S p)).
Qed.

Lemma rank_step_inv dense ordered before i row s s' : NoDup (map or_input_index ordered) ->
  ordered !! i = Some row -> rank_inv dense ordered before i s ->
  rank_step ordered dense s (i, row) = Ok s' -> rank_inv dense ordered before (S i) s'.
Proof.
  intros Hd Hrow [Hst Hr] H. destruct s as [[rank dense_rank] out]. cbn [fst snd] in *.
  apply rbind_ok in H as ([r d] & Hranks & (out' & Hstore%store_rank_ok & [= <-])%rbind_ok).
  assert (G : rank_value Rank ordered i r /\ rank_value DenseRank ordered i d).
  { destruct i as [|q].
    - injection Hranks as <- <-. destruct Hr as [-> ->]. split; [|done]. exists 0%nat. split; [|done].
      split_and!; [lia|done|]. intros; lia.
    - apply rbind_ok in Hranks as (previous & Hq%ok_or_ok & Hranks). destruct Hr as [(s & (H1 & H2 & H3) & ->) Hdense].
      assert (E : same_as_previous ordered (S q) = datums_eqb (or_keys previous) (or_keys row))
        by (simpl; by rewrite Hq, Hrow, datums_eqb_pairwise).
      simpl in Hdense |- *. rewrite runs_S, E. subst dense_rank.
      destruct (datums_eqb _ _) eqn:E'; injection Hranks as <- <-; (split; [|lia]).
      + exists s. split; [|done]. split_and!; [lia|done|]. intros j Hj.
        destruct (decide (j = S q)) as [->|]; [by rewrite E|]. apply H3. lia.
      + exists (S q). split; [|done]. split_and!; [lia|by rewrite E|]. intros; lia. }
  split; [|done]. cbn [snd]. eapply stored_next; [done|done|done|exact Hstore|].
  destruct G as [G1 G2]. destruct dense; eexists; (split; [|done]); done.
Qed.

Lemma ranks ordered out out' dense : NoDup (map or_input_index ordered) ->
  assign_rank ordered out dense = Ok out' ->
  stored ordered (rank_datum (if dense then DenseRank else Rank) ordered) out (length ordered) out'.
Proof.
  intros Hd (s & H & ->)%rmap_ok.
  apply (foldR_positions (rank_inv dense ordered out)) in H; [by destruct H|split; [apply stored_zero|done]|].
  intros i row s0 s1. by apply rank_step_inv.
Qed.
End RankSpec.

(** ** The window stage *)
Lemma StronglySorted_lookups {A} (R : A -> A -> Prop) l :
  StronglySorted R l <-> forall i j a b, (i < j)%nat -> l !! i = Some a -> l !! j = Some b -> R a b.
Proof.
  split.
  - induction 1 as [|x l Hs IH Hx]; intros [|i] [|j] a b Hij Ha Hb; try (done || lia); simpl in Ha, Hb.
    + injection Ha as <-. rewrite Forall_forall in Hx. apply Hx. by eapply list_elem_of_lookup_2.
    + apply (IH i j); [lia|done..].
  - induction l as [|x l IH]; intros H; constructor.
    + apply IH. intros i j a b Hij. apply (H (S i) (S j)). lia.
    + apply Forall_forall. intros y Hy. apply list_elem_of_lookup_1 in Hy as (k & Hk). apply (H 0%nat (S k)); [lia|done..].
Qed.

Section WindowSpec.
Context {F : Foreign} {L : ForeignLaws F}.
Context (limits : ExecutionLimits) (eval : LogicalExpr -> WorkingRow -> Result Datum).

(** *** Partitions *)

(** All rows, or the rows of each group of equal partition keys, by their
    places in the input. *)
Definition partitioned (input : list WorkingRow) (partition : option LogicalProjection) (partitions : list (list nat)) : Prop :=
  match partition with
  | None => partitions = [seq 0 (length input)]
  | Some p => exists groups, grouping eval snd p (imap (fun i row => (i, row)) input) groups /\
      partitions = map (fun g => map fst (snd g)) groups
  end.

(** *** Order *)

(** The first keys that differ put the left row first in their direction. *)
Inductive keys_before : list SortExpr -> list Datum -> list Datum -> Prop :=
| before_ascending k keys a l b r :
    se_direction k = Ascending -> compare_datums a b = Some Lt -> keys_before (k :: keys) (a :: l) (b :: r)
| before_descending k keys a l b r :
    se_direction k = Descending -> compare_datums a b = Some Gt -> keys_before (k :: keys) (a :: l) (b :: r)
| before_later k keys a l b r :
    compare_datums a b = Some Eq -> keys_before keys l r -> keys_before (k :: keys) (a :: l) (b :: r).

Definition keys_tied : list Datum -> list Datum -> Prop := Forall2 (fun a b => compare_datums a b = Some Eq).

(** A row comes before another by its keys, or by its place in the input when
    they tie. *)
Definition row_before (order : list SortExpr) (a b : OrderedRow) : Prop :=
  keys_before order (or_keys a) (or_keys b) \/
  keys_tied (or_keys a) (or_keys b) /\ (or_input_index a < or_input_index b)%nat.

(** The rows of a partition with the values of their keys, in order when each
    key column holds values of one type. *)
Definition ordered_rows (input : list WorkingRow) (order : list SortExpr) (partition : list nat) (ordered : list OrderedRow) : Prop :=
  map or_input_index ordered ≡ₚ partition /\
  (forall o, o ∈ ordered -> exists row, input !! or_input_index o = Some row /\
     Forall2 (fun k d => eval (se_expression k) row = Ok d) order (or_keys o)) /\
  (forall reprs, Forall (fun o => Forall2 in_family reprs (or_keys o)) ordered -> StronglySorted (row_before order) ordered).

(** *** Values *)

(** The rows of a frame around row [p] of [len]: those between its bounds. *)
Definition frame_rows (f : RowsFrame) (p len : nat) (frame : list nat) : Prop :=
  StronglySorted lt frame /\
  forall i, i ∈ frame <->
    (i < len)%nat /\ after_start (rf_start f) (Z.of_nat p) (Z.of_nat i) /\ before_end (rf_end f) (Z.of_nat p) (Z.of_nat i).

(** The value of row [p] of an ordered partition: its number or rank, or the
    exact sum, over the rows of its frame, of the inputs that are neither
    missing nor null (null when there are none). *)
Definition window_value (input : list WorkingRow) (w : LogicalWindow) (ordered : list OrderedRow) (p : nat) (d : Datum) : Prop :=
  match lw_kind w with
  | WindowSum => exists e f frame rows ds, lw_input w = Some e /\ lw_frame w = Some f /\
      frame_rows f p (length ordered) frame /\
      Forall2 (fun i row => exists o, ordered !! i = Some o /\ input !! or_input_index o = Some row) frame rows /\
      Forall2 (fun row d => eval e row = Ok d) rows ds /\
      match omap concrete_of ds with
      | [] => d = Null
      | values => exists sum, sum_exact_values values = Ok sum /\ d = from_option DValue Null sum
      end
  | k => rank_datum k ordered p d
  end.

Lemma map_fst_imap {A} (l : list A) : map fst (imap (fun i x => (i, x)) l) = seq 0 (length l).
Proof.
  apply list_eq. intros i. change (map fst) with (fmap (M:=list) (@fst nat A)). rewrite list_lookup_fmap, list_lookup_imap.
  destruct (l !! i) eqn:E; simpl.
  - symmetry. apply lookup_seq. split; [lia|]. by eapply lookup_lt_Some.
  - symmetry. apply lookup_seq_ge. by apply lookup_ge_None in E.
Qed.

Lemma build_partitions_ok input p partitions : build_partitions eval input p = Ok partitions ->
  partitioned input p partitions.
Proof.
  destruct p as [p|]; [|by intros [= <-]]. intros (gs & H%group_rows_grouping & ->)%rmap_ok. by exists gs.
Qed.

Lemma partitioned_perm input p partitions : partitioned input p partitions -> concat partitions ≡ₚ seq 0 (length input).
Proof.
  destruct p as [p|]; [|intros ->; simpl; by rewrite app_nil_r].
  intros (gs & (Hp & _) & ->). rewrite <- map_fst_imap, <- Hp, concat_map, map_map. done.
Qed.

Lemma seq_ascending s n : StronglySorted lt (seq s n).
Proof. apply StronglySorted_lookups. intros i j a b Hij [-> _]%lookup_seq [-> _]%lookup_seq. lia. Qed.

Lemma sublist_sorted {A} (R : A -> A -> Prop) l l' : l `sublist_of` l' -> StronglySorted R l' -> StronglySorted R l.
Proof.
  induction 1 as [|x l l' H IH|x l l' H IH]; [done| |]; intros [Hs Hx]%StronglySorted_inv; [|by apply IH].
  constructor; [by apply IH|]. rewrite Forall_forall in Hx |- *. intros y Hy. apply Hx. by eapply elem_of_submseteq, sublist_submseteq.
Qed.

Lemma partition_ascending input p partitions partition :
  partitioned input p partitions -> partition ∈ partitions -> StronglySorted lt partition.
Proof.
  destruct p as [p|]; cbn [partitioned].
  - intros (gs & (_ & _ & Hg) & ->) (g & -> & Hin)%list_elem_of_fmap_1. rewrite Forall_forall in Hg.
    destruct (Hg g Hin) as (_ & Hsub & _). eapply sublist_sorted; [|apply (seq_ascending 0 (length input))].
    rewrite <- map_fst_imap. by apply (fmap_sublist fst).
  - intros -> ->%list_elem_of_singleton. apply seq_ascending.
Qed.

Lemma compare_ordered_eq order a b : compare_ordered_rows order a b = Eq -> or_position a = or_position b.
Proof. unfold compare_ordered_rows. destruct (compare_key_lists _ _ _); [|done|done]. by intros ?%Nat.compare_eq. Qed.

Lemma compare_ordered_laws reprs order :
  laws_on (fun o => Forall2 in_family reprs (or_keys o)) (compare_ordered_rows order).
Proof.
  apply (laws_on_ext _ (fun a b => lex (compare_key_lists (or_keys a) (or_keys b) order)
    (Nat.compare (or_position a) (or_position b)))).
  - intros a b _ _. unfold compare_ordered_rows. by destruct (compare_key_lists _ _ _).
  - apply lex_laws_on; [|apply nat_laws_on].
    by refine (laws_on_map or_keys _ _ _ _ (compare_key_lists_laws reprs order)).
Qed.

(** The code's comparison of keys is the order of the keys. *)
Lemma compare_key_lists_before reprs order a b : length order = length a ->
  Forall2 in_family reprs a -> Forall2 in_family reprs b ->
  match compare_key_lists a b order with Lt => keys_before order a b | Eq => keys_tied a b | Gt => True end.
Proof.
  intros Hl Ha. revert order b Hl. induction Ha as [|r x reprs a Hx Ha IH]; intros order b Hl Hb.
  { apply Forall2_nil_inv_l in Hb as ->. destruct order; [constructor|done]. }
  apply Forall2_cons_inv_l in Hb as (y & b' & Hy & Hb & ->). destruct order as [|k order]; [done|]. injection Hl as Hl.
  cbn [compare_key_lists]. destruct (compare_datums_family r) as (_ & H & _). destruct (H x y Hx Hy) as (o & E & _).
  rewrite E. cbn [default]. specialize (IH order b' Hl Hb).
  destruct (se_direction k) eqn:D, o; cbn; try done.
  2, 4: by constructor. all: destruct (compare_key_lists a b' order); try done; by constructor.
Qed.

Lemma order_partition_ok input partition order ordered : StronglySorted lt partition ->
  order_partition eval input partition order = Ok ordered -> ordered_rows input order partition ordered.
Proof.
  intros Hasc (rows & H%mapR_ok & [= <-])%rbind_ok.
  assert (G : forall i o, rows !! i = Some o -> or_position o = i /\ partition !! i = Some (or_input_index o) /\
    exists row, input !! or_input_index o = Some row /\ Forall2 (fun k d => eval (se_expression k) row = Ok d) order (or_keys o)).
  { intros i o Ho. destruct (Forall2_lookup_r _ _ _ _ _ H Ho) as ([j index] & Hj & E).
    rewrite list_lookup_imap in Hj. apply fmap_Some in Hj as (index' & Hi & [= -> ->]).
    apply rbind_ok in E as (row & Hrow%ok_or_ok & (keys & Hk%evaluate_keys_ok%mapR_ok & [= <-])%rbind_ok). cbn. eauto. }
  assert (Hlen : length rows = length partition) by (by rewrite <- (Forall2_length _ _ _ H), length_imap).
  assert (E : map or_input_index rows = partition).
  { apply list_eq. intros i. change (map or_input_index) with (fmap (M:=list) or_input_index). rewrite list_lookup_fmap.
    destruct (rows !! i) as [o|] eqn:Eo; [by destruct (G i o Eo) as (_ & -> & _)|].
    symmetry. apply lookup_ge_None. rewrite <- Hlen. by apply lookup_ge_None. }
  assert (P : (match order with [] => rows | _ => sort_by (compare_ordered_rows order) rows end) ≡ₚ rows)
    by (destruct order; [done|apply sort_by_perm]).
  split_and!.
  - by rewrite P, E.
  - intros o Ho. rewrite P in Ho. apply list_elem_of_lookup_1 in Ho as (i & Hi). by apply (G i).
  - intros reprs Ht. rewrite P in Ht.
    assert (Hkeys : forall a b, a ∈ rows -> b ∈ rows -> compare_ordered_rows order a b = Lt -> row_before order a b).
    { intros a b Ha Hb Hc. rewrite Forall_forall in Ht. pose proof (Ht a Ha) as Ta. pose proof (Ht b Hb) as Tb.
      apply list_elem_of_lookup_1 in Ha as (i & Ha), Hb as (j & Hb).
      destruct (G i a Ha) as (Pa & Ia & row & _ & Ka), (G j b Hb) as (Pb & Ib & _).
      pose proof (compare_key_lists_before reprs order _ _ (Forall2_length _ _ _ Ka) Ta Tb) as K.
      unfold compare_ordered_rows in Hc. destruct (compare_key_lists _ _ _); [right|by left|done].
      split; [done|]. apply Nat.compare_lt_iff in Hc. rewrite Pa, Pb in Hc.
      by apply (proj1 (StronglySorted_lookups _ _) Hasc i j). }
    assert (Hs : StronglySorted (fun a b => compare_ordered_rows order a b = Lt)
      (match order with [] => rows | _ => sort_by (compare_ordered_rows order) rows end)).
    { destruct order as [|k order].
      - apply StronglySorted_lookups. intros i j a b Hij Ha Hb. destruct (G i a Ha) as (Pa & _), (G j b Hb) as (Pb & _).
        unfold compare_ordered_rows. destruct (or_keys a), (or_keys b); cbn; apply Nat.compare_lt_iff; lia.
      - apply (sorted_strictly _ or_position _ (compare_ordered_eq _)).
        + apply (sort_by_sorted_on _ (fun o => Forall2 in_family reprs (or_keys o))); [apply compare_ordered_laws..|done].
        + rewrite sort_by_perm. apply NoDup_alt. intros i j x.
          change (map or_position rows) with (or_position <$> rows). rewrite !list_lookup_fmap.
          intros (a & Ha & ->)%fmap_Some (b & Hb & Eb)%fmap_Some. destruct (G i a Ha) as [<- _], (G j b Hb) as [<- _]. done. }
    apply StronglySorted_lookups. intros i j a b Hij Ha Hb. apply Hkeys.
    + rewrite <- P. by eapply list_elem_of_lookup_2.
    + rewrite <- P. by eapply list_elem_of_lookup_2.
    + by apply (proj1 (StronglySorted_lookups _ _) Hs i j).
Qed.

(** The bounds of a frame are [u64] distances. *)
Definition machine_frame (w : LogicalWindow) : Prop :=
  forall f, lw_frame w = Some f -> machine_bound (rf_start f) /\ machine_bound (rf_end f).

Lemma frame_indices_rows f p len : machine_bound (rf_start f) -> machine_bound (rf_end f) ->
  (p < len)%nat -> Z.of_nat len <= u64_max -> frame_rows f p len (frame_indices f p len).
Proof.
  intros Hs He Hp Hl. split.
  - destruct (proj1 (frame_indices_exact f p len 0 Hs He Hp Hl)) as (s & n & ->). apply seq_ascending.
  - intros i. by apply frame_indices_exact.
Qed.

Lemma assign_partition_ok input w out partition out' :
  machine_frame w -> Z.of_nat (length partition) <= u64_max -> StronglySorted lt partition ->
  assign_partition eval input w out partition = Ok out' ->
  exists ordered, ordered_rows input (lw_order w) partition ordered /\
    stored ordered (window_value input w ordered) out (length ordered) out'.
Proof.
  intros Hf Hmax Hasc (ordered & Ho%order_partition_ok & H)%rbind_ok; [|done]. exists ordered. split; [done|].
  assert (Hn : NoDup (map or_input_index ordered)).
  { rewrite (proj1 Ho). apply NoDup_alt. intros i j x Hi Hj. destruct (Nat.lt_trichotomy i j) as [Hij|[?|Hij]]; [|done|].
    - apply (proj1 (StronglySorted_lookups _ _) Hasc i j x x) in Hij; [lia|done..].
    - apply (proj1 (StronglySorted_lookups _ _) Hasc j i x x) in Hij; [lia|done..]. }
  assert (Hlen : length ordered = length partition) by (by rewrite <- (proj1 Ho), length_map).
  unfold window_value. destruct (lw_kind w).
  - by apply row_numbers.
  - by apply (ranks ordered out out' false).
  - by apply (ranks ordered out out' true).
  - apply rbind_ok in H as (e & He%ok_or_ok & (f & Ef%ok_or_ok & H)%rbind_ok). revert H.
    apply (foldR_positions (fun n s => stored ordered _ out n s)); [apply stored_zero|].
    intros i row s s' Hrow Hs (rows & Hrows%mapR_ok & (d & Hsum%evaluate_sum_spec & Hstore)%rbind_ok)%rbind_ok.
    destruct Hsum as (ds & Hds%mapR_ok & Hsum). destruct (Hf f Ef) as [Hfs Hfe].
    eapply stored_next; [done|done|done|exact Hstore|]. exists e, f, (frame_indices f i (length ordered)), rows, ds.
    split_and!; [done|done| | |done|].
    + apply frame_indices_rows; [done..|by eapply lookup_lt_Some|lia].
    + eapply Forall2_impl; [exact Hrows|]. intros j r (o & Hj%ok_or_ok & Hr%ok_or_ok)%rbind_ok. eauto.
    + cbn [aggregate_of] in Hsum. by destruct (omap concrete_of ds).
Qed.

Lemma partitions_ok input w partitions out out' : NoDup (concat partitions) -> machine_frame w ->
  Forall (fun partition => Z.of_nat (length partition) <= u64_max /\ StronglySorted lt partition) partitions ->
  foldR (assign_partition eval input w) partitions out = Ok out' ->
  length out' = length out /\
  (forall i, i ∉ concat partitions -> out' !! i = out !! i) /\
  (forall partition, partition ∈ partitions -> exists ordered,
     ordered_rows input (lw_order w) partition ordered /\
     forall p row, ordered !! p = Some row ->
       exists d, out' !! or_input_index row = Some (Some d) /\ window_value input w ordered p d).
Proof.
  intros Hd Hf. revert out Hd. induction partitions as [|partition rest IH]; intros out; cbn [concat foldR].
  { intros _ _ [= <-]. split_and!; [done|done|]. by intros ? ?%not_elem_of_nil. }
  intros (Hp & Hdisj & Hr)%NoDup_app [[Hmax Hasc] Hrest]%Forall_cons (out1 & H1 & H2)%rbind_ok.
  destruct (assign_partition_ok _ _ _ _ _ Hf Hmax Hasc H1) as (ordered & Ho & (L1 & V1 & U1)).
  destruct (IH out1 Hr Hrest H2) as (L2 & U2 & V2). pose proof (proj1 Ho) as Hperm.
  assert (Hin : forall p row, ordered !! p = Some row -> or_input_index row ∈ partition).
  { intros p row Hrow. rewrite <- Hperm. apply list_elem_of_fmap_2. by eapply list_elem_of_lookup_2. }
  split_and!; [congruence| |].
  - intros i Hi. rewrite not_elem_of_app in Hi. destruct Hi as [Hi1 Hi2]. rewrite U2 by done. apply U1.
    intros p row _ Hrow <-. by apply Hi1, (Hin p row).
  - intros q [->|Hq]%elem_of_cons; [|by apply V2]. exists ordered. split; [done|]. intros p row Hrow.
    destruct (V1 p row) as (d & Hd1 & Hv); [by eapply lookup_lt_Some|done|]. exists d. split; [|done].
    rewrite U2; [done|]. by apply Hdisj, (Hin p row).
Qed.

Lemma partition_length input p partitions partition :
  partitioned input p partitions -> partition ∈ partitions -> (length partition <= length input)%nat.
Proof.
  intros Hp (l & r & ->)%list_elem_of_split. apply partitioned_perm in Hp as E.
  apply Permutation_length in E. rewrite concat_app, length_app, length_seq in E. cbn [concat] in E. rewrite length_app in E. lia.
Qed.

(** C20: a window keeps the rows in order and appends to each the value of its
    place among the rows of its partition: its row number, its rank (one more
    than the rows before its run of equal keys), its dense rank (the number of
    its run) or the sum over the rows between the bounds of its frame.  The
    partitions are the groups of equal partition keys, or all rows; the rows of
    one are ordered by the keys, each in its direction, and by their place in
    the input where keys tie, when each key column is of one type. *)
Theorem execute_window_spec input w out :
  machine_frame w -> Z.of_nat (length input) <= u64_max ->
  execute_window limits eval input w = Ok out ->
  exists partitions, partitioned input (lw_partition w) partitions /\ length out = length input /\
    forall i row, input !! i = Some row ->
      exists d partition ordered p o,
        out !! i = Some (mkWorkingRow (RProduct [wr_output row; RValue d]) (wr_scopes row)) /\
        validate_datum (lw_ty w) Required d = Ok tt /\ partition ∈ partitions /\
        ordered_rows input (lw_order w) partition ordered /\
        ordered !! p = Some o /\ or_input_index o = i /\ window_value input w ordered p d.
Proof.
  intros Hf Hmax (partitions & Hb%build_partitions_ok & (values & Hv & (s & Hs & ->)%rmap_ok)%rbind_ok)%rbind_ok.
  pose proof (partitioned_perm _ _ _ Hb) as Hperm. exists partitions. split; [done|].
  destruct (partitions_ok input w partitions _ _ ltac:(rewrite Hperm; apply NoDup_seq) Hf
    ltac:(apply Forall_forall; intros q Hq; split; [pose proof (partition_length _ _ _ _ Hb Hq); lia|by apply (partition_ascending _ _ _ _ Hb)]) Hv)
    as (_ & _ & V).
  apply (foldR_emits_each fst _ (fun e row => exists d, values !! fst e = Some (Some d) /\
    validate_datum (lw_ty w) Required d = Ok tt /\
    row = mkWorkingRow (RProduct [wr_output (snd e); RValue d]) (wr_scopes (snd e)))) in Hs as (rows & -> & Hrows).
  2: { intros e s0 s1 _ (d & Hd%ok_or_ok & [Hval Hpush%push_ok]%check_then)%rbind_ok.
       eexists. split; [exact Hpush|]. exists d. split; [|done]. by destruct (values !! fst e) as [[]|]; simpl in Hd; [congruence|..]. }
  cbn [fst no_rows app]. split; [by rewrite <- (Forall2_length _ _ _ Hrows), length_imap|]. intros i row Hrow.
  destruct (Forall2_lookup_l _ _ _ i (i, row) Hrows) as (r & Hr & d & Hd & Hval & ->); [by rewrite list_lookup_imap, Hrow|].
  assert (Hi : i ∈ concat partitions).
  { rewrite Hperm, elem_of_seq. apply lookup_lt_Some in Hrow. lia. }
  apply list_elem_of_In, in_concat in Hi as (partition & Hp & Hi). apply list_elem_of_In in Hp, Hi.
  destruct (V partition Hp) as (ordered & Ho & Hw). pose proof (proj1 Ho) as Hperm'.
  rewrite <- Hperm' in Hi. apply list_elem_of_fmap_1 in Hi as (o & -> & Hoin).
  apply list_elem_of_lookup_1 in Hoin as (p & Hpo). destruct (Hw p o Hpo) as (d' & Hd' & Hv').
  assert (d' = d) as -> by (simpl in Hd; congruence).
  exists d, partition, ordered, p, o. done.
Qed.
End WindowSpec.

(** ** Examples *)
Definition sample_sort_key : SortExpr (F:=sample_foreign) := mkSortExpr sample_prepared Descending.

Lemma execute_sort_spec_witness :
  exists keyed sorted, keyed_rows row_value [sample_sort_key] [int_row 1; int_row 3; int_row 2] keyed /\
    sorted ≡ₚ keyed /\ [int_row 3; int_row 2; int_row 1] = map kr_row sorted /\
    map kr_row keyed = [int_row 1; int_row 3; int_row 2] /\
    (Forall (keys_typed [RInt 64]) keyed ->
     StronglySorted (fun a b => compare_keys [sample_sort_key] a b = Lt) sorted).
Proof. apply (execute_sort_spec row_value [int_row 1; int_row 3; int_row 2]). reflexivity. Defined.

(** Sums over a row and its predecessor, by the first column and in descending
    order of the second. *)
Definition column (n : nat) : LogicalExpr (F:=sample_foreign) := mkPreparedExpression [] n i64_type [] [] [] 0.
Definition column_value (e : LogicalExpr (F:=sample_foreign)) (row : WorkingRow (F:=sample_foreign)) : Result (Datum (F:=sample_foreign)) :=
  match wr_output row with RValue (DValue (VTuple ds)) => ok_or (ds !! pe_root e) "EXPR-EVAL-000" | _ => error "EXPR-EVAL-000" end.
Definition pair_row (a b : Z) : WorkingRow (F:=sample_foreign) := value_row (DValue (VTuple [DValue (VInt a); DValue (VInt b)])).
Definition summed_row (a b sum : Z) : WorkingRow (F:=sample_foreign) :=
  mkWorkingRow (RProduct [wr_output (pair_row a b); RValue (DValue (VInt sum))]) [].
Definition sample_sum : LogicalWindow (F:=sample_foreign) :=
  mkWindow WindowSum (Some (column 1)) (Some (mkProjection ProjectValue [column 0] [] i64_type))
    [mkSortExpr (column 1) Descending] (Some (mkRowsFrame (Preceding 1) CurrentRow)) i64_type.
Definition window_rows : list WorkingRow := [pair_row 1 5; pair_row 2 7; pair_row 1 6; pair_row 1 5].
Definition window_output : list WorkingRow := [summed_row 1 5 11; summed_row 2 7 7; summed_row 1 6 6; summed_row 1 5 10].

Lemma execute_window_spec_witness :
  execute_window spec_limits column_value window_rows sample_sum = Ok window_output /\
  exists partitions, partitioned column_value window_rows (lw_partition sample_sum) partitions /\
    exists d partition ordered p o,
      window_output !! 3%nat = Some (mkWorkingRow (RProduct [wr_output (pair_row 1 5); RValue d]) []) /\
      partition ∈ partitions /\ ordered_rows column_value window_rows (lw_order sample_sum) partition ordered /\
      ordered !! p = Some o /\ or_input_index o = 3%nat /\ window_value column_value window_rows sample_sum ordered p d.
Proof.
  assert (H : execute_window spec_limits column_value window_rows sample_sum = Ok window_output) by reflexivity.
  split; [exact H|].
  destruct (execute_window_spec spec_limits column_value window_rows sample_sum window_output
    ltac:(intros f [= <-]; vm_compute; intuition discriminate) ltac:(vm_compute; discriminate) H) as (partitions & Hp & _ & G).
  exists partitions. split; [exact Hp|].
  destruct (G 3%nat _ eq_refl) as (d & partition & ordered & p & o & Hd & _ & Hin & Ho & Hlook & Hi & Hv).
  exists d, partition, ordered, p, o. split_and!; assumption.
Defined.
