(* ===== verification/Stream.v ===== *)
(** * Pull streams ([crates/dol-engine/src/stream])

    The [DataStream] contract, eager collection under limits against that
    contract, and the memory engine's stream as an implementation of it. *)
From Stdlib Require Import ZArith Lia.
From S2P Require Import Prelude Foreign Truth BTree Types Values Sums Fingerprint Model Expr Row Semantic ExprPrepare Plan Executor.

Local Open Scope Z_scope.

(** ** The contract *)
Class DataStream {F : Foreign} (S : Type) := {
  ds_next_batch : S -> Result (option ExecutionBatch) * S;
  ds_cancel : S -> S
}.

(** The batches a stream yields before it is exhausted. *)
Inductive pulls {F : Foreign} {S} {D : DataStream S} : S -> list (list ExecutionRow) -> Prop :=
| pulls_end s s' : ds_next_batch s = (Ok None, s') -> pulls s []
| pulls_batch s b s' bs : ds_next_batch s = (Ok (Some b), s') -> pulls s' bs -> pulls s (eb_rows b :: bs).

(** "Further pulls must not produce new rows." *)
Class DataStreamLaws {F : Foreign} S {D : DataStream S} : Prop := {
  cancel_stops : forall s : S, pulls (ds_cancel s) []
}.

Record CollectLimits := mkCollectLimits { max_rows : Z; max_bytes : Z }.
Definition default_collect_limits : CollectLimits := mkCollectLimits 100000 (64 * 1024 * 1024).

(** Limits are [u64]. *)
Definition machine_limits (l : CollectLimits) : Prop := 0 <= max_rows l <= u64_max /\ 0 <= max_bytes l <= u64_max.

(** ** Collection *)
Section Collect.
Context {F : Foreign} {S : Type} {D : DataStream S}.
Context (limits : CollectLimits).

(** The bytes after a batch, unless a row exceeds the limit. *)
Fixpoint count_bytes (bytes : Z) (rows : list ExecutionRow) : option Z :=
  match rows with
  | [] => Some bytes
  | row :: rest =>
      let next := sat_add bytes (execution_row_bytes row) in
      if max_bytes limits <? next then None else count_bytes next rest
  end.

(** [None]: more batches than [fuel]. *)
Fixpoint collect_loop (fuel : nat) (rows : list ExecutionRow) (row_count bytes : Z) (s : S)
  : option (Result (list ExecutionRow) * S) :=
  match fuel with
  | O => None
  | Datatypes.S fuel' =>
      match ds_next_batch s with
      | (Err e, s') => Some (Err e, s')
      | (Ok None, s') => Some (Ok rows, s')
      | (Ok (Some batch), s') =>
          let batch := eb_rows batch in
          let next := row_count + zlen batch in
          if u64_max <? next then Some (error "ENGINE-COLLECT-001", s')
          else if max_rows limits <? next then Some (error "ENGINE-COLLECT-001", ds_cancel s')
          else
            match count_bytes bytes batch with
            | None => Some (error "ENGINE-COLLECT-002", ds_cancel s')
            | Some bytes' => collect_loop fuel' (rows ++ batch) next bytes' s'
            end
      end
  end.

Definition collect_stream_with_limits (fuel : nat) (s : S) : option (Result (list ExecutionRow) * S) :=
  collect_loop fuel [] 0 0 s.

(** ** What collection returns *)
Definition rows_bytes (bytes : Z) (rows : list ExecutionRow) : Z :=
  fold_left (fun total r => sat_add total (execution_row_bytes r)) rows bytes.

Lemma rows_bytes_grow bytes rows : Forall (fun r => 0 <= execution_row_bytes r) rows -> bytes <= u64_max -> 0 <= bytes ->
  bytes <= rows_bytes bytes rows <= u64_max.
Proof.
  intros H. revert bytes. induction H as [|r rows Hr Hrs IH]; intros bytes H1 H2; cbn [rows_bytes fold_left]; [lia|].
  specialize (IH (sat_add bytes (execution_row_bytes r))). unfold rows_bytes, sat_add in *. lia.
Qed.

Lemma count_bytes_exact bytes rows : Forall (fun r => 0 <= execution_row_bytes r) rows ->
  0 <= bytes <= max_bytes limits -> max_bytes limits <= u64_max ->
  count_bytes bytes rows =
    if rows_bytes bytes rows <=? max_bytes limits then Some (rows_bytes bytes rows) else None.
Proof.
  intros H. revert bytes. induction H as [|r rows Hr Hrs IH]; intros bytes H1 H2; cbn [count_bytes].
  { cbn. by rewrite (proj2 (Z.leb_le _ _)) by lia. }
  unfold rows_bytes. cbn [fold_left]. fold (rows_bytes (sat_add bytes (execution_row_bytes r)) rows).
  pose proof (rows_bytes_grow (sat_add bytes (execution_row_bytes r)) rows Hrs) as G.
  destruct (max_bytes limits <? _) eqn:E.
  - rewrite (proj2 (Z.leb_gt _ _)); [done|]. unfold sat_add in *. lia.
  - apply IH; [|done]. unfold sat_add in *. lia.
Qed.

Definition within (row_count bytes : Z) (rows : list ExecutionRow) : Prop :=
  row_count + zlen rows <= max_rows limits /\ rows_bytes bytes rows <= max_bytes limits.

Definition sized (rows : list ExecutionRow) : Prop := Forall (fun r => 0 <= execution_row_bytes r) rows.

Lemma rows_bytes_app bytes a b : rows_bytes bytes (a ++ b) = rows_bytes (rows_bytes bytes a) b.
Proof. apply fold_left_app. Qed.

Lemma within_app row_count bytes a b : sized (a ++ b) -> 0 <= bytes <= u64_max ->
  (within row_count bytes (a ++ b) <->
   within row_count bytes a /\ within (row_count + zlen a) (rows_bytes bytes a) b).
Proof.
  intros [Ha Hb]%Forall_app H. pose proof (rows_bytes_grow bytes a Ha ltac:(lia) ltac:(lia)).
  pose proof (rows_bytes_grow (rows_bytes bytes a) b Hb ltac:(lia) ltac:(lia)).
  unfold within. rewrite rows_bytes_app. unfold zlen. rewrite length_app. lia.
Qed.

(** The outcome of collecting the batches [bs] after [rows]. *)
Definition collected (rows : list ExecutionRow) row_count bytes (bs : list (list ExecutionRow))
  (outcome : Result (list ExecutionRow)) : Prop :=
  (within row_count bytes (concat bs) -> outcome = Ok (rows ++ concat bs)) /\
  (~ within row_count bytes (concat bs) ->
   outcome = error "ENGINE-COLLECT-001" \/ outcome = error "ENGINE-COLLECT-002").

Lemma collect_loop_pulls s bs : pulls s bs -> machine_limits limits -> sized (concat bs) ->
  forall rows row_count bytes, 0 <= row_count <= max_rows limits -> 0 <= bytes <= max_bytes limits ->
  exists outcome s', collect_loop (Datatypes.S (length bs)) rows row_count bytes s = Some (outcome, s') /\
    collected rows row_count bytes bs outcome.
Proof.
  intros Hp [Hmr Hmb]. induction Hp as [s s' E|s b s' bs E Hp IH]; intros Hs rows row_count bytes Hr Hb.
  { cbn [length collect_loop]. rewrite E. eexists _, _. split; [done|]. split; cbn [concat]; [by rewrite app_nil_r|].
    intros []. split; cbn [rows_bytes fold_left]; unfold zlen; simpl; lia. }
  cbn [concat] in *. pose proof (within_app row_count bytes _ _ Hs ltac:(lia)) as Happ.
  apply Forall_app in Hs as [Hsb Hs]. cbn [length]. remember (Datatypes.S (length bs)) as fuel. cbn [collect_loop].
  rewrite E. pose proof (Nat2Z.is_nonneg (length (eb_rows b))) as Hpos. fold (zlen (eb_rows b)) in Hpos.
  assert (Hstop : forall c (st : S), (c = "ENGINE-COLLECT-001" \/ c = "ENGINE-COLLECT-002")%stdpp ->
    ~ within row_count bytes (eb_rows b) -> exists outcome s'0, Some (error c : Result (list ExecutionRow), st) = Some (outcome, s'0) /\
    collected rows row_count bytes (eb_rows b :: bs) outcome).
  { intros c st Hc Hn. eexists _, _. split; [done|]. split; cbn [concat]; [rewrite Happ; tauto|]. intros _.
    destruct Hc as [-> | ->]; [by left|by right]. }
  destruct (u64_max <? _) eqn:E1; [apply Hstop; [by left|]; unfold within; lia|].
  destruct (max_rows limits <? _) eqn:E2; [apply Hstop; [by left|]; unfold within; lia|].
  rewrite count_bytes_exact by (done || lia).
  destruct (_ <=? _) eqn:E3; [|apply Hstop; [by right|]; unfold within; lia].
  destruct (IH Hs (rows ++ eb_rows b) (row_count + zlen (eb_rows b)) (rows_bytes bytes (eb_rows b)))
    as (outcome & st & Ho & H1 & H2); [lia| |].
  { pose proof (rows_bytes_grow bytes (eb_rows b) Hsb ltac:(lia) ltac:(lia)). lia. }
  assert (HA : within row_count bytes (eb_rows b)) by (unfold within; lia).
  exists outcome, st. split; [done|]. split; cbn [concat]; rewrite Happ; [|tauto].
  intros [_ H]. rewrite (H1 H). by rewrite app_assoc.
Qed.

Lemma collect_loop_more fuel fuel' rows row_count bytes s r :
  (fuel <= fuel')%nat -> collect_loop fuel rows row_count bytes s = Some r ->
  collect_loop fuel' rows row_count bytes s = Some r.
Proof.
  revert fuel' rows row_count bytes s. induction fuel as [|fuel IH]; intros [|fuel'] rows row_count bytes s Hf; try done; [lia|].
  cbn [collect_loop]. destruct (ds_next_batch s) as [[[batch|]|e] s']; try done.
  destruct (u64_max <? _); [done|]. destruct (max_rows limits <? _); [done|].
  destruct (count_bytes bytes _); [|done]. apply IH. lia.
Qed.
End Collect.

(** ** Logical sizes *)
Section Sizes.
Context {F : Foreign}.

Lemma fold_sizes_nonneg {A} (size : A -> Z) l n : Forall (fun x => 0 <= size x) l -> 0 <= n ->
  0 <= fold_left (fun total x => sat_add total (size x)) l n.
Proof.
  intros H. revert n. induction H as [|x l Hx Hl IH]; intros n Hn; cbn [fold_left]; [done|].
  apply IH. unfold sat_add, u64_max. lia.
Qed.

Lemma fold_pairs_nonneg {A B} (f : A -> Z) (g : B -> Z) (l : list (A * B)) n :
  Forall (fun e => 0 <= f (fst e) /\ 0 <= g (snd e)) l -> 0 <= n ->
  0 <= fold_left (fun size e => let '(k, d) := e in sat_add (sat_add size (f k)) (g d)) l n.
Proof.
  intros H. revert n. induction H as [|[k d] l [Hk Hd] Hl IH]; intros n Hn; cbn [fold_left]; [done|].
  apply IH. unfold sat_add, u64_max in *. simpl in *. lia.
Qed.

Lemma datum_bytes_of v : 0 <= value_logical_bytes v -> 0 <= datum_logical_bytes (DValue v).
Proof. simpl. unfold sat_add, u64_max. lia. Qed.

Lemma on_datum_bytes d : on_datum (fun v => 0 <= value_logical_bytes v) d -> 0 <= datum_logical_bytes d.
Proof. destruct d; [done..|apply datum_bytes_of]. Qed.

Lemma value_bytes_nonneg v : 0 <= value_logical_bytes v.
Proof.
  induction v as [v IH] using value_ind'.
  assert (Hl : Forall (fun d => 0 <= datum_logical_bytes d) (value_children v))
    by (eapply Forall_impl; [exact IH|apply on_datum_bytes]). clear IH.
  destruct v as [| | | | | | | | | | | | | | | |l|l|l|m]; cbn [value_logical_bytes value_children] in *;
    try (unfold sat_add, u64_max, zlen, zstrlen; lia); try (by apply fold_sizes_nonneg; [|lia]).
  - apply (fold_pairs_nonneg datum_logical_bytes datum_logical_bytes); [|lia].
    induction l as [|[k d] es IH]; [constructor|]. cbn in Hl.
    apply Forall_cons_1 in Hl as [H1 Hl]. apply Forall_cons_1 in Hl as [H2 Hl]. constructor; [done|by apply IH].
  - apply (fold_pairs_nonneg zstrlen datum_logical_bytes); [|lia].
    induction m as [|[n d] m IH]; constructor; inversion_clear Hl as [|? ? Hd Hm]; [|by apply IH].
    split; [unfold zstrlen; simpl; lia|done].
Qed.

Lemma datum_bytes_nonneg d : 0 <= datum_logical_bytes d.
Proof. apply on_datum_bytes. destruct d; simpl; [done..|apply value_bytes_nonneg]. Qed.

Lemma execution_row_bytes_nonneg : forall r, 0 <= execution_row_bytes r.
Proof.
  fix IH 1. intros [row|d|rows|[r|]]; cbn [execution_row_bytes].
  - apply fold_sizes_nonneg; [|lia]. apply Forall_forall. intros d _. apply datum_bytes_nonneg.
  - apply datum_bytes_nonneg.
  - apply fold_sizes_nonneg; [|lia]. induction rows as [|r rows IHr]; constructor; [apply IH|exact IHr].
  - pose proof (IH r). unfold sat_add, u64_max. lia.
  - lia.
Qed.

Lemma all_sized (rows : list ExecutionRow) : sized rows.
Proof. apply Forall_forall. intros r _. apply execution_row_bytes_nonneg. Qed.
End Sizes.

(** ** The memory engine's stream *)
Section Memory.
Context {F : Foreign}.

#[export] Instance memory_data_stream : DataStream MemoryStream := {
  ds_next_batch s := let '(b, s') := next_batch s in (Ok b, s');
  ds_cancel := cancel
}.

Lemma memory_exhausted s : ms_cancelled s = true \/ ms_rows s = [] -> pulls s [].
Proof.
  intros H. apply (pulls_end s s). simpl. unfold next_batch.
  destruct H as [-> | ->]; [done|]. by rewrite orb_true_r.
Qed.

#[export] Instance memory_stream_laws : DataStreamLaws MemoryStream.
Proof. split. intros s. apply memory_exhausted. by left. Qed.

(** Chunks of at most [n] rows: all but the last are full. *)
Inductive chunks (n : nat) : list ExecutionRow -> list (list ExecutionRow) -> Prop :=
| chunks_none : chunks n [] []
| chunks_last rows : rows <> [] -> (length rows <= n)%nat -> chunks n rows [rows]
| chunks_full batch rows bs : length batch = n -> rows <> [] -> chunks n rows bs -> chunks n (batch ++ rows) (batch :: bs).

Lemma memory_pulls s : ms_cancelled s = false -> (0 < ms_batch_rows s)%nat ->
  exists bs, pulls s bs /\ chunks (ms_batch_rows s) (ms_rows s) bs /\ (length bs <= length (ms_rows s))%nat.
Proof.
  intros Hc Hb. remember (length (ms_rows s)) as n eqn:Hn. revert s Hc Hb Hn.
  induction n as [n IH] using lt_wf_ind. intros s Hc Hb Hn.
  destruct (ms_rows s) as [|r rows] eqn:E.
  { exists []. split_and!; [by apply memory_exhausted; right|constructor|simpl; lia]. }
  set (count := Nat.min (ms_batch_rows s) (length (ms_rows s))).
  set (s' := mkMemoryStream (ms_output s) (drop count (ms_rows s)) (ms_batch_rows s) (ms_cancelled s)).
  assert (Hstep : ds_next_batch s = (Ok (Some (mkExecutionBatch (ms_output s) (take count (ms_rows s)))), s'))
    by (simpl; unfold next_batch, s', count; by rewrite Hc, E).
  assert (Hpos : (0 < count)%nat) by (unfold count; rewrite E; simpl; lia).
  destruct (IH (length (ms_rows s')) ltac:(simpl; rewrite length_drop, E; simpl in *; lia) s' Hc Hb eq_refl)
    as (bs & Hp & Hch & Hl).
  exists (take count (ms_rows s) :: bs). split_and!.
  - apply (pulls_batch s _ s' bs Hstep Hp).
  - rewrite <- E. simpl in Hch.
    destruct (decide (length (ms_rows s) <= ms_batch_rows s)%nat) as [Hle|Hgt].
    + assert (count = length (ms_rows s)) as -> by (unfold count; lia). rewrite drop_all in Hch.
      assert (bs = []) as -> by (by inversion Hch; subst; [|done|by destruct batch, rows0]).
      rewrite take_ge by done. constructor; [by rewrite E|done].
    + rewrite <- (take_drop count (ms_rows s)) at 1. constructor; [rewrite length_take; lia| |].
      * intros Hnil. apply (f_equal length) in Hnil. rewrite length_drop in Hnil. simpl in Hnil. lia.
      * done.
  - simpl in Hl |- *. rewrite length_drop, E in Hl. simpl in *. lia.
Qed.

Lemma chunks_concat n rows bs : chunks n rows bs -> concat bs = rows.
Proof. induction 1; simpl; [done|by rewrite app_nil_r|congruence]. Qed.

(** Pulling the memory stream yields its rows in order in full batches, a
    shorter one last, and then nothing more. *)
Theorem memory_stream_batches s : ms_cancelled s = false -> (0 < ms_batch_rows s)%nat ->
  exists bs, pulls s bs /\ chunks (ms_batch_rows s) (ms_rows s) bs /\ concat bs = ms_rows s.
Proof.
  intros Hc Hb. destruct (memory_pulls s Hc Hb) as (bs & Hp & Hch & _). exists bs.
  split_and!; [done|done|by eapply chunks_concat].
Qed.

(** C22: collecting a memory stream terminates, with all its rows when they are
    within the row and byte limits and with an error otherwise; the saturating
    byte count hides no excess. *)
Theorem collect_memory_stream limits s : machine_limits limits -> ms_cancelled s = false ->
  (0 < ms_batch_rows s)%nat ->
  exists outcome s', collect_stream_with_limits limits (S (length (ms_rows s))) s = Some (outcome, s') /\
    (zlen (ms_rows s) <= max_rows limits /\ rows_bytes 0 (ms_rows s) <= max_bytes limits -> outcome = Ok (ms_rows s)) /\
    (~ (zlen (ms_rows s) <= max_rows limits /\ rows_bytes 0 (ms_rows s) <= max_bytes limits) ->
     outcome = error "ENGINE-COLLECT-001" \/ outcome = error "ENGINE-COLLECT-002").
Proof.
  intros Hm Hc Hb. destruct (memory_pulls s Hc Hb) as (bs & Hp & <-%chunks_concat & Hl).
  destruct (collect_loop_pulls limits s bs Hp Hm (all_sized _) [] 0 0) as (outcome & s' & Ho & Hw);
    [destruct Hm; lia..|].
  exists outcome, s'. split; [|exact Hw].
  unfold collect_stream_with_limits. by apply (collect_loop_more limits (S (length bs))); [lia|].
Qed.
End Memory.

(** ** Examples *)
Definition sample_stream : MemoryStream (F:=sample_foreign) :=
  mkMemoryStream (OutValue truth_type) [RValue Null; RValue Missing; RValue Null] 2 false.

Lemma memory_stream_batches_witness :
  exists bs, pulls sample_stream bs /\
    chunks 2 [RValue Null; RValue Missing; RValue Null] bs /\
    concat bs = [RValue Null; RValue Missing; RValue Null].
Proof. apply (memory_stream_batches sample_stream); [reflexivity|simpl; lia]. Defined.

Lemma collect_memory_stream_witness :
  exists outcome s', collect_stream_with_limits (mkCollectLimits 2 100) 4 sample_stream = Some (outcome, s') /\
    (outcome = error "ENGINE-COLLECT-001" \/ outcome = error "ENGINE-COLLECT-002").
Proof.
  destruct (collect_memory_stream (mkCollectLimits 2 100) sample_stream) as (outcome & s' & H & _ & Hn);
    [vm_compute; intuition discriminate|reflexivity|simpl; lia|].
  exists outcome, s'. split; [exact H|]. apply Hn. intros [Hr _]. vm_compute in Hr. by apply Hr.
Defined.
