(* ===== verification/Writes.v ===== *)
(** * Write operations ([crates/dol-core/src/ops], [data/mod.rs], [data/write.rs])

    Inserts, updates and deletes as authored, their preparation against a
    model, the logical form engines receive, and the normative eager semantics
    on materialized data. *)
From Stdlib Require Import ZArith Lia.
From S2P Require Import Prelude Mutation Foreign Truth BTree Types Values Fingerprint Model Row Expr ExprPrepare Plan DataSet.

Local Open Scope Z_scope.

(** ** Records with mutable fields ([trait RecordMut]) *)
Class RecordMut {F : Foreign} (M : Type) := {
  record_view : M -> RecordView;
  set_field : nat -> Datum -> Mut M unit
}.

#[export] Instance dyn_row_mut {F : Foreign} : RecordMut DynRow := {|
  record_view := row_view;
  set_field slot datum := mtry (fun r => row_set_field r slot datum)
|}.

Section Writes.
Context {F : Foreign} {Q : Subqueries}.

(** ** Authored operations ([ops/mod.rs]) *)

(** The scope markers, which index the destructive operations. *)
Inductive ScopeState := Unscoped | Scoped | AllAcknowledged.

Record InsertMany (M : Type) := mkInsertMany { im_values : list M; im_batch_rows : option nat }.
Arguments mkInsertMany {M}.
Arguments im_values {M}.
Arguments im_batch_rows {M}.

Definition insert_many_new {M} (values : list M) : InsertMany M := mkInsertMany values None.
Definition insert_many_batch_rows {M} (i : InsertMany M) (n : nat) : InsertMany M := mkInsertMany (im_values i) (Some n).

Record Assignment := mkAssignment { as_model : string; as_field : string; as_ty : TypeDef; as_value : ExpressionSpec }.

Record Update (s : ScopeState) := mkUpdate { up_assignments : list Assignment; up_condition : option ExpressionSpec }.
Record Delete (s : ScopeState) := mkDelete { de_condition : option ExpressionSpec }.
Arguments mkUpdate {s}.
Arguments up_assignments {s}.
Arguments up_condition {s}.
Arguments mkDelete {s}.
Arguments de_condition {s}.

Definition update_new : Update Unscoped := mkUpdate [] None.
Definition update_filter (u : Update Unscoped) (condition : ExpressionSpec) : Update Scoped :=
  mkUpdate (up_assignments u) (Some (canonical_truth condition)).
Definition update_all (u : Update Unscoped) : Update AllAcknowledged := mkUpdate (up_assignments u) None.

(** A further filter on a scoped operation is a conjunction. *)
Definition conjoin (current : option ExpressionSpec) (condition : ExpressionSpec) : option ExpressionSpec :=
  let condition := canonical_truth condition in
  Some (match current with Some current => and_truth current condition | None => condition end).

Definition update_filter_again (u : Update Scoped) (condition : ExpressionSpec) : Update Scoped :=
  mkUpdate (up_assignments u) (conjoin (up_condition u) condition).
Definition update_set {s} (u : Update s) (a : Assignment) : Update s :=
  mkUpdate (up_assignments u ++ [a]) (up_condition u).

Definition delete_new : Delete Unscoped := mkDelete None.
Definition delete_filter (_ : Delete Unscoped) (condition : ExpressionSpec) : Delete Scoped :=
  mkDelete (Some (canonical_truth condition)).
Definition delete_all (_ : Delete Unscoped) : Delete AllAcknowledged := mkDelete None.
Definition delete_filter_again (d : Delete Scoped) (condition : ExpressionSpec) : Delete Scoped :=
  mkDelete (conjoin (de_condition d) condition).

(** ** Preparation ([ops/prepare.rs]) *)
Record PreparedAssignment := mkPreparedAssignment { pa_field : nat; pa_key : string; pa_expression : PreparedExpression }.
Record PreparedUpdate := mkPreparedUpdate {
  pu_assignments : list PreparedAssignment;
  pu_condition : option PreparedExpression
}.
Record PreparedDelete := mkPreparedDelete { pd_condition : option PreparedExpression }.

Definition validate_batch_size (batch_size : option nat) : Result unit :=
  guard (negb (bool_decide (batch_size = Some 0%nat))) "WRITE-BATCH-001".

Definition assignment_cmp (l r : Assignment) : comparison := str_cmp (as_field l) (as_field r).

(** One assignment of the sorted list, after [previous]. *)
Definition prepare_assignment (model : ModelDef) (s : list PreparedAssignment * option string) (a : Assignment)
  : Result (list PreparedAssignment * option string) :=
  let '(prepared, previous) := s in
  guard (negb (bool_decide (previous = Some (as_field a)))) "WRITE-UPDATE-002" ;;?
  guard (String.eqb (as_model a) (md_key model)) "WRITE-UPDATE-003" ;;?
  let? field := ok_or (model_field model (as_field a)) "WRITE-UPDATE-004" in
  guard (type_eqb (fd_ty field) (as_ty a)) "WRITE-UPDATE-005" ;;?
  let? expression := prepare_expression (as_value a) (bind_single model) default_expression_limits in
  guard (type_eqb (pe_ty expression) (as_ty a)) "WRITE-UPDATE-005" ;;?
  Ok (prepared ++ [mkPreparedAssignment (fd_slot field) (fd_key field) expression], Some (as_field a)).

Definition prepare_condition (condition : option ExpressionSpec) (context : BindContext) (all : bool)
  : Result (option PreparedExpression) :=
  match condition, all with
  | Some _, true => error "WRITE-SCOPE-001"
  | None, false => error "WRITE-SCOPE-002"
  | Some condition, false => rmap Some (prepare_expression condition context default_expression_limits)
  | None, true => Ok None
  end.

(** [M::model_def()] of the generic code is [definition]. *)
Definition prepare_update {s} (definition : Result ModelDef) (u : Update s) (all : bool) : Result PreparedUpdate :=
  guard (match up_assignments u with [] => false | _ => true end) "WRITE-UPDATE-001" ;;?
  let? model := definition in
  let? prepared := foldR (prepare_assignment model) (sort_by assignment_cmp (up_assignments u)) ([], None) in
  let? condition := prepare_condition (up_condition u) (bind_single model) all in
  Ok (mkPreparedUpdate (fst prepared) condition).

Definition prepare_delete {s} (definition : Result ModelDef) (d : Delete s) (all : bool) : Result PreparedDelete :=
  let? model := definition in
  let? condition := prepare_condition (de_condition d) (bind_single model) all in
  Ok (mkPreparedDelete condition).

(** [Update<M, Scoped>::prepare] and [Update<M, AllAcknowledged>::prepare]
    exist; an unscoped operation has no [prepare]. *)
Definition acknowledged (s : ScopeState) : bool := match s with AllAcknowledged => true | _ => false end.
Definition update_prepare {s} (definition : Result ModelDef) (u : Update s) : Result PreparedUpdate :=
  prepare_update definition u (acknowledged s).
Definition delete_prepare {s} (definition : Result ModelDef) (d : Delete s) : Result PreparedDelete :=
  prepare_delete definition d (acknowledged s).

Definition write_hasher (definition : Result ModelDef) (kind : Z) : Result (list Z) :=
  let? model := definition in Ok (hasher_new "write/v1" ++ h_u8 kind ++ h_bytes (md_fingerprint model)).

Definition hash_scope (condition : option PreparedExpression) (all : bool) : list Z :=
  h_u8 (if all then 1 else 0) ++
  match condition with Some condition => h_bytes (pe_bound_fingerprint condition) | None => [] end.

Definition fingerprint_update {s} (definition : Result ModelDef) (u : Update s) : Result Fingerprint :=
  let? prepared := update_prepare definition u in
  let? hasher := write_hasher definition 2 in
  Ok (finish (hasher ++ hash_scope (pu_condition prepared) (acknowledged s) ++ h_u64 (zlen (pu_assignments prepared)) ++
    flat_map (fun a => h_str (pa_key a) ++ h_bytes (pe_bound_fingerprint (pa_expression a))) (pu_assignments prepared))).

Definition fingerprint_delete {s} (definition : Result ModelDef) (d : Delete s) : Result Fingerprint :=
  let? prepared := delete_prepare definition d in
  let? hasher := write_hasher definition 3 in
  Ok (finish (hasher ++ hash_scope (pd_condition prepared) (acknowledged s))).

Section Typed.
Context {M : Type} `{RM : !RecordMut M} (definition : Result ModelDef).

Definition validate_record (value : M) : Result unit :=
  let? model := definition in validate_record_against model (record_view value).
Definition validate_values (values : list M) : Result unit :=
  let? model := definition in validate_dataset model (map record_view values).
Definition fingerprint_value (value : M) : Result Fingerprint :=
  let? model := definition in fingerprint_record model (record_view value).

Definition fingerprint_insert (value : M) : Result Fingerprint :=
  validate_record value ;;?
  let? hasher := write_hasher definition 0 in
  let? record := fingerprint_value value in
  Ok (finish (hasher ++ h_bytes record)).

Definition fingerprint_insert_many (i : InsertMany M) : Result Fingerprint :=
  validate_batch_size (im_batch_rows i) ;;?
  validate_values (im_values i) ;;?
  let? hasher := write_hasher definition 1 in
  let? records := mapR fingerprint_value (im_values i) in
  Ok (finish (hasher ++ h_u64 (zlen (im_values i)) ++ flat_map h_bytes records)).
End Typed.

(** ** Logical writes ([ops/logical.rs]) *)
Inductive WriteKind := KInsert | KInsertMany | KUpdate | KDelete.
Inductive WriteScope := ScopeFiltered | ScopeAll.

Record LogicalAssignment := mkLogicalAssignment { lg_field : nat; lg_key : string; lg_expression : LogicalExpr }.

Inductive LogicalWrite :=
| LInsert (model : ModelDef) (row : DynRow) (fingerprint : Fingerprint)
| LInsertMany (model : ModelDef) (rows : list DynRow) (batch_rows : option nat) (fingerprint : Fingerprint)
| LUpdate (model : ModelDef) (assignments : list LogicalAssignment) (condition : option LogicalExpr)
    (scope : WriteScope) (fingerprint : Fingerprint)
| LDelete (model : ModelDef) (condition : option LogicalExpr) (scope : WriteScope) (fingerprint : Fingerprint).

Definition write_kind (w : LogicalWrite) : WriteKind :=
  match w with
  | LInsert _ _ _ => KInsert | LInsertMany _ _ _ _ => KInsertMany
  | LUpdate _ _ _ _ _ => KUpdate | LDelete _ _ _ _ => KDelete
  end.

Definition write_model (w : LogicalWrite) : ModelDef :=
  match w with LInsert m _ _ | LInsertMany m _ _ _ | LUpdate m _ _ _ _ | LDelete m _ _ _ => m end.

Definition write_fingerprint (w : LogicalWrite) : Fingerprint :=
  match w with LInsert _ _ fp | LInsertMany _ _ _ fp | LUpdate _ _ _ _ fp | LDelete _ _ _ fp => fp end.

Definition write_scope (s : ScopeState) : WriteScope := if acknowledged s then ScopeAll else ScopeFiltered.

Definition logical_assignment (a : PreparedAssignment) : LogicalAssignment :=
  mkLogicalAssignment (pa_field a) (pa_key a) (pa_expression a).

Definition logical_update {s} (definition : Result ModelDef) (u : Update s) : Result LogicalWrite :=
  let? prepared := update_prepare definition u in
  let? model := definition in
  let? fingerprint := fingerprint_update definition u in
  Ok (LUpdate model (map logical_assignment (pu_assignments prepared)) (pu_condition prepared) (write_scope s) fingerprint).

Definition logical_delete {s} (definition : Result ModelDef) (d : Delete s) : Result LogicalWrite :=
  let? prepared := delete_prepare definition d in
  let? model := definition in
  let? fingerprint := fingerprint_delete definition d in
  Ok (LDelete model (pd_condition prepared) (write_scope s) fingerprint).

Section Typed.
Context {M : Type} `{RM : !RecordMut M} (definition : Result ModelDef).

Definition logical_insert (value : M) : Result LogicalWrite :=
  let? model := definition in
  let? row := row_from_record (record_view value) in
  let? fingerprint := fingerprint_insert definition value in
  Ok (LInsert model row fingerprint).

Definition logical_insert_many (i : InsertMany M) : Result LogicalWrite :=
  let? rows := mapR (fun value => row_from_record (record_view value)) (im_values i) in
  let? model := definition in
  let? fingerprint := fingerprint_insert_many definition i in
  Ok (LInsertMany model rows (im_batch_rows i) fingerprint).

(** ** Materialized data ([data/mod.rs], [data/write.rs]) *)

(** A data set is its values. *)
Definition data_try_new (values : list M) : Result (list M) := validate_values definition values ;;? Ok values.

(** What a filter's datum means for a row. *)
Definition filter_outcome (c : string) (d : Datum) : Result bool :=
  match d with
  | DValue (VTruth TTrue) => Ok true
  | DValue (VTruth (TFalse | TUnknown)) => Ok false
  | _ => error c
  end.

Definition selected (condition : option PreparedExpression) (row : M) : Result bool :=
  match condition with
  | None => Ok true
  | Some condition =>
      let? d := evaluate_datum condition (eval_context_single (record_view row)) in
      filter_outcome "WRITE-FILTER-001" d
  end.

(** Retaining the rows for which the condition is true. *)
Definition data_filter (values : list M) (condition : ExpressionSpec) : Result (list M) :=
  validate_values definition values ;;?
  let? model := definition in
  let? prepared := prepare_expression condition (bind_single model) default_expression_limits in
  foldR (fun retained row =>
    let? d := evaluate_datum prepared (eval_context_single (record_view row)) in
    Ok (match d with DValue (VTruth TTrue) => retained ++ [row] | _ => retained end)) values [].

Definition assign_fields (values : list (nat * Datum)) : Mut M unit :=
  for_mut (fun entry => set_field (fst entry) (snd entry)) values.

(** The body of the update loop: whether the row was selected. *)
Definition update_row (prepared : PreparedUpdate) (affected : nat) : Mut M nat :=
  let! row := mget in
  let! chosen := mlift (selected (pu_condition prepared) row) in
  if chosen then
    let! values := mlift (mapR (fun a => evaluate_datum (pa_expression a) (eval_context_single (record_view row)))
                               (pu_assignments prepared)) in
    assign_fields (combine (map pa_field (pu_assignments prepared)) values) ;;!
    mret (S affected)
  else mret affected.

Definition apply_update (prepared : PreparedUpdate) : Mut (list M) nat :=
  let! values := mget in
  mlift (forR (validate_record definition) values) ;;!
  let '(outcome, candidate) := iter_mut (update_row prepared) 0%nat values in
  let! affected := mlift outcome in
  mlift (validate_values definition candidate) ;;!
  mput candidate ;;!
  mret affected.

(** [retain] with one flag per row. *)
Definition retained (rows : list M) (flags : list bool) : list M :=
  map fst (List.filter (fun e => negb (snd e)) (combine rows flags)).
Definition selected_count (flags : list bool) : nat := length (List.filter (fun b => b) flags).

Definition apply_delete (prepared : PreparedDelete) : Mut (list M) nat :=
  let! values := mget in
  mlift (forR (validate_record definition) values) ;;!
  let! selected_rows := mlift (mapR (selected (pd_condition prepared)) values) in
  mput (retained values selected_rows) ;;!
  mret (selected_count selected_rows).

(** [values.pop()] and [values.truncate(..)] after a failed validation. *)
Definition apply_insert (value : M) : Mut (list M) nat :=
  mlift (validate_record definition value) ;;!
  let! values := mget in
  mput (values ++ [value]) ;;!
  match validate_values definition (values ++ [value]) with
  | Err d => mput (take (length (values ++ [value]) - 1) (values ++ [value])) ;;! mlift (Err d)
  | Ok _ => mret 1%nat
  end.

Definition apply_insert_many (i : InsertMany M) : Mut (list M) nat :=
  mlift (validate_batch_size (im_batch_rows i)) ;;!
  mlift (validate_values definition (im_values i)) ;;!
  let! values := mget in
  mput (values ++ im_values i) ;;!
  match validate_values definition (values ++ im_values i) with
  | Err d => mput (take (length values) (values ++ im_values i)) ;;! mlift (Err d)
  | Ok _ => mret (length (im_values i))
  end.

Definition apply_update_write {s} (u : Update s) : Mut (list M) nat :=
  let! prepared := mlift (update_prepare definition u) in apply_update prepared.
Definition apply_delete_write {s} (d : Delete s) : Mut (list M) nat :=
  let! prepared := mlift (delete_prepare definition d) in apply_delete prepared.
End Typed.
End Writes.
Arguments mkInsertMany {M}.
Arguments im_values {M}.
Arguments im_batch_rows {M}.
Arguments mkUpdate {F Q s}.
Arguments up_assignments {F Q s}.
Arguments up_condition {F Q s}.
Arguments mkDelete {F Q s}.
Arguments de_condition {F Q s}.
