(* ===== verification/MemoryStore.v ===== *)
(** * The memory store ([engines/memory/src/store.rs], [write.rs])

    Registered models with their rows, validation across tables, and the
    application of logical writes with restoration of the written table. *)
From Stdlib Require Import ZArith Lia.
From S2P Require Import Prelude Mutation Foreign Truth BTree Types Values Fingerprint Model Row Expr ExprPrepare Plan DataSet Executor Writes.

Local Open Scope Z_scope.

(** [WriteLimits]; a timeout is a number of nanoseconds. *)
Record WriteLimits := mkWriteLimits {
  wl_max_affected_rows : option Z;
  wl_max_concurrency : nat;
  wl_timeout : option Z
}.

Definition write_limits_validate (l : WriteLimits) : Result unit :=
  guard (negb (Nat.eqb (wl_max_concurrency l) 0)) "ENGINE-LIMIT-003".
Definition write_limits_default : WriteLimits := mkWriteLimits (Some 100000) 8 None.

Section Store.
Context {F : Foreign}.

Definition same_semantics (a b : ModelDef) : bool := bool_decide (md_fingerprint a = md_fingerprint b).

(** ** Registration *)
Definition register_definition (model : ModelDef) : Mut Tables unit := fun tables =>
  match bt_get (md_key model) tables with
  | Some existing =>
      if same_semantics (mt_model existing) model then (Ok tt, tables) else (error "MEMORY-STORE-002", tables)
  | None => (Ok tt, bt_insert (md_key model) (mkMemoryTable model []) tables)
  end.

Definition register_model (definition : Result ModelDef) : Mut Tables unit :=
  let! model := mlift definition in register_definition model.

Definition load_dynamic (model : ModelDef) (rows : list DynRow) : Mut Tables unit :=
  mlift (validate_dynamic_dataset model rows) ;;!
  let! tables := mget in
  match bt_get (md_key model) tables with
  | Some _ => mlift (error "MEMORY-STORE-001")
  | None => mput (bt_insert (md_key model) (mkMemoryTable model rows) tables)
  end.

Definition load_dataset {M} `{RM : !RecordMut M} (definition : Result ModelDef) (data : list M) : Mut Tables unit :=
  mlift (validate_values definition data) ;;!
  let! model := mlift definition in
  let! rows := mlift (mapR (fun row => row_from_record (record_view row)) data) in
  mlift (validate_dynamic_dataset model rows) ;;!
  let! tables := mget in
  match bt_get (md_key model) tables with
  | Some _ => mlift (error "MEMORY-STORE-001")
  | None => mput (bt_insert (md_key model) (mkMemoryTable model rows) tables)
  end.

(** ** Validation *)
Definition reference_values := tuple_values_with "MEMORY-REFERENCE-003" "MEMORY-REFERENCE-004".

(** The inner loop: the first target row with equal values. *)
Fixpoint find_target (source_values : list Datum) (target : MemoryTable) (fields : list string) (rows : list DynRow)
  : Result bool :=
  match rows with
  | [] => Ok false
  | row :: rest =>
      let? target_values := reference_values (row_view row) (mt_model target) fields false in
      match target_values with
      | None => find_target source_values target fields rest
      | Some target_values =>
          if tuple_eqb source_values target_values then Ok true else find_target source_values target fields rest
      end
  end.

Definition validate_reference_row (source target : MemoryTable) (r : ReferenceDef) (row : DynRow) : Result unit :=
  let? source_values := reference_values (row_view row) (mt_model source) (ref_source_fields r) true in
  match source_values with
  | None => Ok tt
  | Some source_values =>
      let? found := find_target source_values target (ref_target_fields r) (mt_rows target) in
      guard found "MEMORY-REFERENCE-002"
  end.

Definition validate_references (tables : Tables) : Result unit :=
  forR (fun e =>
    let source := snd e in
    forR (fun r =>
      let? target := ok_or (bt_get (ref_target_model r) tables) "MEMORY-REFERENCE-001" in
      forR (validate_reference_row source target r) (mt_rows source))
      (md_references (mt_model source))) tables.

Definition validate_tables (tables : Tables) : Result unit :=
  let? _ := model_set_new (map (fun e => mt_model (snd e)) tables) in
  forR (fun e => validate_dynamic_dataset (mt_model (snd e)) (mt_rows (snd e))) tables ;;?
  validate_references tables.

(** ** Writing one table *)

(** [table_mut(..)?] and the block that borrows its rows. *)
Definition with_table {A} (model : ModelDef) (body : ModelDef -> Mut (list DynRow) A) : Mut Tables A := fun tables =>
  match bt_get (md_key model) tables with
  | None => (error "MEMORY-WRITE-001", tables)
  | Some table =>
      if same_semantics (mt_model table) model then
        let '(outcome, rows) := body (mt_model table) (mt_rows table) in
        (outcome, bt_insert (md_key model) (mkMemoryTable (mt_model table) rows) tables)
      else (error "MEMORY-WRITE-002", tables)
  end.

Definition is_nil {A} (l : list A) : bool := match l with [] => true | _ => false end.

Definition row_context (row : DynRow) (parameters : Parameters) : EvalContext :=
  with_parameters (eval_context_single (row_view row)) parameters.

Definition table_selected (parameters : Parameters) (condition : option LogicalExpr) (row : DynRow) : Result bool :=
  match condition with
  | None => Ok true
  | Some condition =>
      guard (negb (negb (is_nil (existential_dependencies condition)) || negb (Nat.eqb (pe_outer_scope_count condition) 0)))
        "MEMORY-WRITE-003" ;;?
      let? d := evaluate_datum condition (row_context row parameters) in
      filter_outcome "MEMORY-WRITE-004" d
  end.

(** Row counts of a [Vec] fit [u64]. *)
Definition enforce_affected_limit (limits : WriteLimits) (affected : nat) : Result unit :=
  match wl_max_affected_rows limits with
  | Some max_rows => guard (Z.of_nat affected <=? max_rows) "ENGINE-LIMIT-004"
  | None => Ok tt
  end.

Section Apply.
(** [started.elapsed()] at the [k]-th check of a write. *)
Context (elapsed : nat -> Z) (limits : WriteLimits) (parameters : Parameters).

Definition check_timeout (k : nat) : Result unit :=
  match wl_timeout limits with
  | Some timeout => guard (elapsed k <=? timeout) "ENGINE-LIMIT-006"
  | None => Ok tt
  end.

(** What ends every branch: the table is validated, and the time checked. *)
Definition finish_write (k : nat) (model : ModelDef) : Mut (list DynRow) unit :=
  let! rows := mget in
  mlift (validate_dynamic_dataset model rows) ;;!
  mlift (check_timeout k).

Definition insert_rows (rows : list DynRow) (model : ModelDef) : Mut (list DynRow) nat :=
  let! existing := mget in
  mput (existing ++ rows) ;;!
  finish_write 1 model ;;!
  mret (length rows).

(** The update loop's body; the accumulator counts the affected rows and the
    timeout checks. *)
Definition update_table_row (assignments : list LogicalAssignment) (condition : option LogicalExpr)
  (acc : nat * nat) : Mut DynRow (nat * nat) :=
  let '(affected, k) := acc in
  let! row := mget in
  mlift (check_timeout k) ;;!
  let! chosen := mlift (table_selected parameters condition row) in
  if chosen then
    mlift (enforce_affected_limit limits (S affected)) ;;!
    let! values := mlift (mapR (fun a => evaluate_datum (lg_expression a) (row_context row parameters)) assignments) in
    assign_fields (combine (map lg_field assignments) values) ;;!
    mret (S affected, S k)
  else mret (affected, S k).

Definition update_rows (assignments : list LogicalAssignment) (condition : option LogicalExpr) (model : ModelDef)
  : Mut (list DynRow) nat :=
  let! acc := iter_mut (update_table_row assignments condition) (0, 1)%nat in
  finish_write (snd acc) model ;;!
  mret (fst acc).

Definition delete_rows (condition : option LogicalExpr) (model : ModelDef) : Mut (list DynRow) nat :=
  let! rows := mget in
  let! selected_rows :=
    mlift (mapR (fun e => check_timeout (fst e) ;;? table_selected parameters condition (snd e))
                (imap (fun i row => (S i, row)) rows)) in
  mlift (enforce_affected_limit limits (selected_count selected_rows)) ;;!
  mput (retained rows selected_rows) ;;!
  finish_write (S (length rows)) model ;;!
  mret (selected_count selected_rows).

Definition apply_write (write : LogicalWrite) : Mut Tables nat :=
  mlift (check_timeout 0) ;;!
  match write with
  | LInsert model row _ =>
      mlift (enforce_affected_limit limits 1) ;;!
      register_definition model ;;!
      with_table model (insert_rows [row])
  | LInsertMany model rows _ _ =>
      mlift (enforce_affected_limit limits (length rows)) ;;!
      register_definition model ;;!
      with_table model (insert_rows rows)
  | LUpdate model assignments condition _ _ => with_table model (update_rows assignments condition)
  | LDelete model condition _ _ => with_table model (delete_rows condition)
  end.

Definition restore_table (key : string) (previous : option MemoryTable) (tables : Tables) : Tables :=
  match previous with
  | Some table => bt_insert key table tables
  | None => bt_remove key tables
  end.

Definition apply_atomic_write (write : LogicalWrite) (validate : Tables -> Result unit) : Mut Tables nat := fun tables =>
  let key := md_key (write_model write) in
  let previous := bt_get key tables in
  let '(outcome, tables') := apply_write write tables in
  match outcome with
  | Err d => (Err d, restore_table key previous tables')
  | Ok affected =>
      match validate tables' with
      | Err d => (Err d, restore_table key previous tables')
      | Ok _ => (Ok affected, tables')
      end
  end.
End Apply.
End Store.

(** ** Writes are atomic *)
Section Atomicity.
Context {F : Foreign} (elapsed : nat -> Z) (limits : WriteLimits) (parameters : Parameters).

Lemma register_agrees model tables :
  keeps (agree_except (md_key model) tables) (register_definition model).
Proof.
  intros t H. unfold register_definition. destruct (bt_get (md_key model) t) as [existing|].
  - by destruct (same_semantics (mt_model existing) model).
  - by apply agree_except_insert.
Qed.

Lemma with_table_agrees {A} model (body : ModelDef -> Mut (list DynRow) A) tables :
  keeps (agree_except (md_key model) tables) (with_table model body).
Proof.
  intros t H. unfold with_table. destruct (bt_get (md_key model) t) as [table|]; [|done].
  destruct (same_semantics (mt_model table) model); [|done].
  destruct (body (mt_model table) (mt_rows table)) as [outcome rows]. by apply agree_except_insert.
Qed.

(** A write changes nothing but the table of its model. *)
Lemma apply_write_agrees write tables :
  keeps (agree_except (md_key (write_model write)) tables) (apply_write elapsed limits parameters write).
Proof.
  unfold apply_write. apply keeps_mbind; [apply keeps_mlift|intros _].
  destruct write; cbn [write_model];
    repeat (apply keeps_mbind; [try apply keeps_mlift; try apply register_agrees|intros _]); apply with_table_agrees.
Qed.

Lemma atomic_write_restores write validate tables d tables' : bt_sorted tables = true ->
  apply_atomic_write elapsed limits parameters write validate tables = (Err d, tables') -> tables' = tables.
Proof.
  intros Hs. unfold apply_atomic_write.
  pose proof (apply_write_agrees write tables tables (conj Hs (fun _ _ => eq_refl))) as Ha.
  destruct (apply_write elapsed limits parameters write tables) as [outcome tables1]. cbn [snd] in Ha.
  assert (E : restore_table (md_key (write_model write)) (bt_get (md_key (write_model write)) tables) tables1 = tables)
    by by apply agree_except_restore.
  destruct outcome as [affected|d1]; [destruct (validate tables1); [done|]|]; intros [= _ <-]; exact E.
Qed.

Lemma atomic_write_ok write validate tables n tables' :
  apply_atomic_write elapsed limits parameters write validate tables = (Ok n, tables') <->
  apply_write elapsed limits parameters write tables = (Ok n, tables') /\ validate tables' = Ok tt.
Proof.
  unfold apply_atomic_write. destruct (apply_write elapsed limits parameters write tables) as [[affected|d] tables1].
  - destruct (validate tables1) as [[]|d] eqn:E; split.
    + intros [= <- <-]. done.
    + by intros [[= -> ->] _].
    + done.
    + intros [[= -> ->] ?]. congruence.
  - split; [done|]. by intros [[= ] _].
Qed.

Lemma atomic_write_sorted write validate tables : bt_sorted tables = true ->
  bt_sorted (snd (apply_atomic_write elapsed limits parameters write validate tables)) = true.
Proof.
  intros Hs. destruct (apply_atomic_write elapsed limits parameters write validate tables) as [[n|d] tables'] eqn:E.
  - apply atomic_write_ok in E as [E _]. pose proof (apply_write_agrees write tables tables (conj Hs (fun _ _ => eq_refl))) as H.
    rewrite E in H. apply H.
  - by rewrite (atomic_write_restores _ _ _ _ _ Hs E).
Qed.
End Atomicity.

(** ** What a successful write did *)
Section Effects.
Context {F : Foreign} (elapsed : nat -> Z) (limits : WriteLimits) (parameters : Parameters).

(** Every right-hand side is evaluated in the row as it was. *)
Definition row_assigned (assignments : list LogicalAssignment) (row row' : DynRow) : Prop :=
  exists values,
    mapR (fun a => evaluate_datum (lg_expression a) (row_context row parameters)) assignments = Ok values /\
    assign_fields (combine (map lg_field assignments) values) row = (Ok tt, row').

Definition row_updated (assignments : list LogicalAssignment) (condition : option LogicalExpr)
  (row : DynRow) (flag : bool) (row' : DynRow) : Prop :=
  table_selected parameters condition row = Ok flag /\
  if flag then row_assigned assignments row row' else row' = row.

Inductive write_effect : LogicalWrite -> list DynRow -> list DynRow -> nat -> Prop :=
| effect_insert m row fp rows : write_effect (LInsert m row fp) rows (rows ++ [row]) 1
| effect_insert_many m new batch fp rows : write_effect (LInsertMany m new batch fp) rows (rows ++ new) (length new)
| effect_update m assignments condition scope fp rows flags rows' :
    Forall3 (row_updated assignments condition) rows flags rows' ->
    write_effect (LUpdate m assignments condition scope fp) rows rows' (selected_count flags)
| effect_delete m condition scope fp rows flags :
    Forall2 (fun row flag => table_selected parameters condition row = Ok flag) rows flags ->
    write_effect (LDelete m condition scope fp) rows (retained rows flags) (selected_count flags).

(** The table a write is for: inserts register their model when it is new. *)
Definition write_target (write : LogicalWrite) (tables : Tables) : option MemoryTable :=
  match bt_get (md_key (write_model write)) tables with
  | Some table => if same_semantics (mt_model table) (write_model write) then Some table else None
  | None =>
      match write with
      | LInsert m _ _ | LInsertMany m _ _ _ => Some (mkMemoryTable m [])
      | LUpdate _ _ _ _ _ | LDelete _ _ _ _ => None
      end
  end.

(** The number of times a write looks at the clock. *)
Definition write_checks (write : LogicalWrite) (rows : list DynRow) : nat :=
  match write with
  | LInsert _ _ _ | LInsertMany _ _ _ _ => 2
  | LUpdate _ _ _ _ _ | LDelete _ _ _ _ => length rows + 2
  end.

Definition in_time (checks : nat) : Prop := forall k, (k < checks)%nat -> check_timeout elapsed limits k = Ok tt.
Definition affects (n : nat) : Prop := enforce_affected_limit limits n = Ok tt.
Definition machine_write_limits : Prop := match wl_max_affected_rows limits with Some max_rows => 0 <= max_rows | None => True end.

Lemma affects_le n n' : (n <= n')%nat -> affects n' -> affects n.
Proof.
  unfold affects, enforce_affected_limit. destruct (wl_max_affected_rows limits); [|done].
  rewrite !guard_ok, !Z.leb_le. lia.
Qed.

Lemma affects_zero : machine_write_limits -> affects 0.
Proof.
  unfold machine_write_limits, affects, enforce_affected_limit. destruct (wl_max_affected_rows limits); [|done].
  rewrite guard_ok, Z.leb_le. lia.
Qed.

Lemma finish_write_ok k model rows rows' :
  finish_write elapsed limits k model rows = (Ok tt, rows') <->
  validate_dynamic_dataset model rows = Ok tt /\ check_timeout elapsed limits k = Ok tt /\ rows' = rows.
Proof. unfold finish_write. by rewrite mget_then, check_lift_then, mlift_ok. Qed.

Lemma finish_then k model rows (n n' : nat) rows' :
  (finish_write elapsed limits k model ;;! mret n) rows = (Ok n', rows') <->
  validate_dynamic_dataset model rows = Ok tt /\ check_timeout elapsed limits k = Ok tt /\ n' = n /\ rows' = rows.
Proof.
  rewrite mbind_ok. setoid_rewrite mret_ok. split.
  - intros ([] & r1 & (H1 & H2 & ->)%finish_write_ok & -> & ->). done.
  - intros (H1 & H2 & -> & ->). exists tt, rows. split; [by apply finish_write_ok|done].
Qed.

Lemma insert_rows_ok new model rows rows' n :
  insert_rows elapsed limits new model rows = (Ok n, rows') <->
  n = length new /\ rows' = rows ++ new /\ validate_dynamic_dataset model rows' = Ok tt /\
  check_timeout elapsed limits 1 = Ok tt.
Proof. unfold insert_rows. rewrite mget_then, mput_then, finish_then. split; [by intros (? & ? & -> & ->)|by intros (-> & -> & ? & ?)]. Qed.

Lemma update_table_row_ok assignments condition affected k acc row row' :
  update_table_row elapsed limits parameters assignments condition (affected, k) row = (Ok acc, row') <->
  check_timeout elapsed limits k = Ok tt /\
  exists flag, row_updated assignments condition row flag row' /\ (flag = true -> affects (S affected)) /\
    acc = ((if flag then S affected else affected), S k).
Proof.
  unfold update_table_row. rewrite mget_then, check_lift_then, mlift_then. apply and_iff_compat_l.
  split; intros (flag & H); exists flag; unfold row_updated, row_assigned.
  - destruct H as [-> H]. destruct flag; [|by apply mret_ok in H as [-> ->]].
    apply check_lift_then in H as [Ha (values & Hv & ([] & r1 & H & [-> ->]%mret_ok)%mbind_ok)%mlift_then]. eauto 10.
  - destruct H as ([-> H] & Ha & ->). split; [done|]. destruct flag; [|by rewrite mret_ok].
    destruct H as (values & Hv & H). apply check_lift_then. split; [by apply Ha|]. apply mlift_then. exists values.
    split; [done|]. apply mbind_ok. exists tt, row'. by rewrite mret_ok.
Qed.

Lemma selected_count_cons b flags :
  selected_count (b :: flags) = ((if b then 1 else 0) + selected_count flags)%nat.
Proof. unfold selected_count. by destruct b. Qed.

Lemma update_loop assignments condition rows : forall affected k affected' k' rows',
  iter_mut (update_table_row elapsed limits parameters assignments condition) (affected, k) rows = (Ok (affected', k'), rows') <->
  exists flags, Forall3 (row_updated assignments condition) rows flags rows' /\
    affected' = (affected + selected_count flags)%nat /\ k' = (k + length rows)%nat /\
    (selected_count flags = 0%nat \/ affects affected') /\
    (forall i, (i < length rows)%nat -> check_timeout elapsed limits (k + i) = Ok tt).
Proof.
  induction rows as [|row rows IH]; intros affected k affected' k' rows'; rewrite iter_mut_ok.
  { split.
    - intros [[= -> ->] ->]. exists []. cbn. split_and!; [constructor|lia|lia|by left|lia].
    - intros (flags & H & -> & -> & _). inversion H; subst. cbn. split; [f_equal; lia|done]. }
  split.
  - intros ([a1 k1] & row' & rest' & (Hc & flag & Hr & Ha & [= -> ->])%update_table_row_ok & (flags & Hf & -> & -> & Hl & Ht)%IH & ->).
    exists (flag :: flags). rewrite selected_count_cons. cbn [length].
    assert (E : ((if flag then S affected else affected) + selected_count flags =
                 affected + ((if flag then 1 else 0) + selected_count flags))%nat) by (destruct flag; lia).
    split_and!; [by constructor|done|lia| |].
    + destruct flag; [right|by destruct Hl; [left|right]]. destruct Hl as [Hl|Hl]; [|done].
      rewrite Hl, Nat.add_0_r. by apply Ha.
    + intros [|i] Hi; [by rewrite Nat.add_0_r|]. replace (k + S i)%nat with (S k + i)%nat by lia. apply Ht. lia.
  - intros (flags & Hf & -> & -> & Hl & Ht). inversion Hf as [|? flag row' ? flags1 rest' Hr Hf1]; subst.
    rewrite selected_count_cons in *. cbn [length] in *.
    exists ((if flag then S affected else affected), S k), row', rest'.
    assert (E : ((if flag then S affected else affected) + selected_count flags1 =
                 affected + ((if flag then 1 else 0) + selected_count flags1))%nat) by (destruct flag; lia).
    split_and!; [| |done].
    + apply update_table_row_ok. split; [specialize (Ht 0%nat ltac:(lia)); by rewrite Nat.add_0_r in Ht|].
      exists flag. split_and!; [done| |done]. intros ->. destruct Hl as [Hl|Hl]; [lia|].
      eapply affects_le; [|exact Hl]. lia.
    + apply IH. exists flags1. split_and!; [done|done|lia| |].
      * destruct Hl as [Hl|Hl]; [left; lia|by right].
      * intros i Hi. specialize (Ht (S i) ltac:(lia)). by replace (S k + i)%nat with (k + S i)%nat by lia.
Qed.

Lemma in_time_split (rows : list DynRow) :
  in_time (length rows + 2) <->
  check_timeout elapsed limits 0 = Ok tt /\
  (forall i, (i < length rows)%nat -> check_timeout elapsed limits (1 + i) = Ok tt) /\
  check_timeout elapsed limits (1 + length rows) = Ok tt.
Proof.
  unfold in_time. split.
  - intros H. split_and!; [apply H; lia|intros i Hi; apply H; lia|apply H; lia].
  - intros (H0 & Hi & Hn) [|k] Hk; [done|]. destruct (decide (k = length rows)) as [->|]; [done|]. apply Hi. lia.
Qed.

Lemma update_rows_ok assignments condition model rows rows' n : machine_write_limits ->
  update_rows elapsed limits parameters assignments condition model rows = (Ok n, rows') /\
    check_timeout elapsed limits 0 = Ok tt <->
  (exists flags, Forall3 (row_updated assignments condition) rows flags rows' /\ n = selected_count flags) /\
  affects n /\ validate_dynamic_dataset model rows' = Ok tt /\ in_time (length rows + 2).
Proof.
  intros Hm. unfold update_rows. rewrite in_time_split. split.
  - intros [([a k] & rows1 & (flags & Hf & -> & -> & Hl & Ht)%update_loop & (Hv & Hc & -> & ->)%finish_then)%mbind_ok H0].
    cbn [fst snd] in *. split_and!; eauto. destruct Hl as [->|Hl]; [by apply affects_zero|done].
  - intros ((flags & Hf & ->) & Ha & Hv & H0 & Ht & Hc). split; [|done]. apply mbind_ok.
    exists (selected_count flags, (1 + length rows)%nat), rows'. split; [|by apply finish_then].
    apply update_loop. exists flags. split_and!; [done|lia|lia|by right|done].
Qed.

Lemma delete_flags condition rows : forall k flags,
  mapR (fun e => check_timeout elapsed limits (fst e) ;;? table_selected parameters condition (snd e))
    (imap (fun i row => (k + i, row)%nat) rows) = Ok flags <->
  Forall2 (fun row flag => table_selected parameters condition row = Ok flag) rows flags /\
  (forall i, (i < length rows)%nat -> check_timeout elapsed limits (k + i) = Ok tt).
Proof.
  induction rows as [|row rows IH]; intros k flags; rewrite mapR_ok.
  { cbn. split.
    - intros H. inversion H. split; [constructor|]. intros i Hi. lia.
    - intros [H _]. inversion H. constructor. }
  cbn [imap fst snd]. rewrite Nat.add_0_r.
  assert (E : imap ((fun i row => (k + i, row)%nat) ∘ S) rows = imap (fun i row => (S k + i, row)%nat) rows)
    by (apply imap_ext; intros i r _; cbn; f_equal; lia).
  rewrite E. split.
  - intros H. inversion H as [|? flag ? flags' [Hc Hs]%check_then Hr]; subst. cbn [fst snd] in *.
    apply mapR_ok, (IH (S k)) in Hr as [Hr Ht].
    split; [by constructor|]. intros [|i] Hi; [by rewrite Nat.add_0_r|]. cbn [length] in Hi.
    replace (k + S i)%nat with (S k + i)%nat by lia. apply Ht. lia.
  - intros [H Ht]. inversion H as [|? flag ? flags' Hs Hr]; subst. cbn [length] in Ht. constructor.
    + apply check_then. split; [|done]. specialize (Ht 0%nat ltac:(lia)). by rewrite Nat.add_0_r in Ht.
    + apply mapR_ok, (IH (S k)). split; [done|]. intros i Hi. specialize (Ht (S i) ltac:(lia)).
      by replace (S k + i)%nat with (k + S i)%nat by lia.
Qed.

Lemma delete_rows_ok condition model rows rows' n :
  delete_rows elapsed limits parameters condition model rows = (Ok n, rows') /\
    check_timeout elapsed limits 0 = Ok tt <->
  (exists flags, Forall2 (fun row flag => table_selected parameters condition row = Ok flag) rows flags /\
     rows' = retained rows flags /\ n = selected_count flags) /\
  affects n /\ validate_dynamic_dataset model rows' = Ok tt /\ in_time (length rows + 2).
Proof.
  unfold delete_rows. rewrite mget_then, mlift_then, in_time_split. setoid_rewrite (delete_flags condition rows 1).
  setoid_rewrite check_lift_then. setoid_rewrite mput_then. setoid_rewrite finish_then. split.
  - intros [(flags & [Hf Ht] & Ha & Hv & Hc & -> & ->) H0]. split_and!; eauto.
  - intros ((flags & Hf & -> & ->) & Ha & Hv & H0 & Ht & Hc). split; [|done]. exists flags. done.
Qed.

Lemma with_table_ok {A} model (body : ModelDef -> Mut (list DynRow) A) tables a tables' :
  with_table model body tables = (Ok a, tables') <->
  exists table rows', bt_get (md_key model) tables = Some table /\ same_semantics (mt_model table) model = true /\
    body (mt_model table) (mt_rows table) = (Ok a, rows') /\
    tables' = bt_insert (md_key model) (mkMemoryTable (mt_model table) rows') tables.
Proof.
  unfold with_table. destruct (bt_get (md_key model) tables) as [table|]; [|split; [done|by intros (? & ? & [= ] & _)]].
  destruct (same_semantics (mt_model table) model) eqn:E.
  - destruct (body (mt_model table) (mt_rows table)) as [outcome rows] eqn:Eb. split.
    + intros [= -> <-]. exists table, rows. done.
    + intros (t & rows' & [= <-] & _ & H & ->). rewrite Eb in H. by injection H as -> ->.
  - split; [done|]. intros (t & rows' & [= <-] & H & _). congruence.
Qed.

Lemma register_then_table {A} model (body : ModelDef -> Mut (list DynRow) A) tables a tables' :
  (register_definition model ;;! with_table model body) tables = (Ok a, tables') <->
  exists table rows',
    match bt_get (md_key model) tables with
    | Some table => if same_semantics (mt_model table) model then Some table else None
    | None => Some (mkMemoryTable model [])
    end = Some table /\
    body (mt_model table) (mt_rows table) = (Ok a, rows') /\
    tables' = bt_insert (md_key model) (mkMemoryTable (mt_model table) rows') tables.
Proof.
  unfold mbind, register_definition. destruct (bt_get (md_key model) tables) as [table|] eqn:Eg.
  - destruct (same_semantics (mt_model table) model) eqn:Es; [|split; [done|by intros (? & ? & [= ] & _)]].
    rewrite with_table_ok, Eg. split.
    + intros (t & rows' & [= <-] & _ & H). by exists table, rows'.
    + intros (t & rows' & [= <-] & H). by exists table, rows'.
  - rewrite with_table_ok, bt_get_insert_eq. split.
    + intros (t & rows' & [= <-] & _ & H & ->). exists (mkMemoryTable model []), rows'. by rewrite bt_insert_insert.
    + intros (t & rows' & [= <-] & H & ->). exists (mkMemoryTable model []), rows'.
      rewrite bt_insert_insert. split_and!; [done| |done..]. by apply bool_decide_eq_true_2.
Qed.

Lemma in_time_two : in_time 2 <-> check_timeout elapsed limits 0 = Ok tt /\ check_timeout elapsed limits 1 = Ok tt.
Proof.
  unfold in_time. split; [intros H; split; apply H; lia|]. intros [H0 H1] [|[|k]] Hk; [done|done|lia].
Qed.

(** A target with rows as the body of the write computes them. *)
Definition written (write : LogicalWrite) (tables : Tables) (n : nat) (tables' : Tables) : Prop :=
  exists table rows',
    write_target write tables = Some table /\ write_effect write (mt_rows table) rows' n /\ affects n /\
    validate_dynamic_dataset (mt_model table) rows' = Ok tt /\ in_time (write_checks write (mt_rows table)) /\
    tables' = bt_insert (md_key (write_model write)) (mkMemoryTable (mt_model table) rows') tables.

Lemma written_insert write model new tables n tables' :
  (exists fp row, write = LInsert model row fp /\ new = [row]) \/
  (exists fp batch, write = LInsertMany model new batch fp) ->
  check_timeout elapsed limits 0 = Ok tt /\ affects (length new) /\
    (register_definition model ;;! with_table model (insert_rows elapsed limits new)) tables = (Ok n, tables') <->
  written write tables n tables'.
Proof.
  intros Hw. rewrite register_then_table. setoid_rewrite insert_rows_ok. unfold written, write_target.
  assert (E : write_model write = model /\
    match write with LInsert m _ _ | LInsertMany m _ _ _ => Some (mkMemoryTable m []) | _ => None end = Some (mkMemoryTable model []) /\
    (forall rows, write_checks write rows = 2%nat) /\
    forall rows rows', write_effect write rows rows' n <-> n = length new /\ rows' = rows ++ new).
  { destruct Hw as [(fp & row & -> & ->)|(fp & batch & ->)]; split_and!; try done; intros rows rows';
      (split; [by inversion 1|intros [-> ->]; constructor]). }
  destruct E as (-> & -> & Hc & He). split.
  - intros (H0 & Ha & table & rows' & Ht & (-> & -> & Hv & H1) & ->). exists table, (mt_rows table ++ new).
    split_and!; [done|by apply He|done|done| |done]. rewrite Hc. by apply in_time_two.
  - intros (table & rows' & Ht & [-> ->]%He & Ha & Hv & Hi & ->). rewrite Hc in Hi. apply in_time_two in Hi as [H0 H1].
    split_and!; [done..|]. by exists table, (mt_rows table ++ new).
Qed.

Lemma written_in_place write tables n tables' (body : ModelDef -> Mut (list DynRow) nat) :
  (forall m, write_target write tables = Some m <->
     bt_get (md_key (write_model write)) tables = Some m /\ same_semantics (mt_model m) (write_model write) = true) ->
  (forall rows, write_checks write rows = length rows + 2)%nat ->
  (forall model rows rows', body model rows = (Ok n, rows') /\ check_timeout elapsed limits 0 = Ok tt <->
     write_effect write rows rows' n /\ affects n /\ validate_dynamic_dataset model rows' = Ok tt /\
     in_time (length rows + 2)) ->
  check_timeout elapsed limits 0 = Ok tt /\ with_table (write_model write) body tables = (Ok n, tables') <->
  written write tables n tables'.
Proof.
  intros Ht Hc Hb. rewrite with_table_ok. unfold written. split.
  - intros (H0 & table & rows' & Hg & Hs & H & ->). exists table, rows'. rewrite Hc.
    destruct (proj1 (Hb _ _ _) (conj H H0)) as (He & Ha & Hv & Hi). split_and!; try done. by apply Ht.
  - intros (table & rows' & [Hg Hs]%Ht & He & Ha & Hv & Hi & ->). rewrite Hc in Hi.
    destruct (proj2 (Hb (mt_model table) (mt_rows table) rows')) as [H H0]; [done|]. split; [done|]. by exists table, rows'.
Qed.

Lemma target_in_place write tables m :
  match write with LUpdate _ _ _ _ _ | LDelete _ _ _ _ => True | _ => False end ->
  write_target write tables = Some m <->
  bt_get (md_key (write_model write)) tables = Some m /\ same_semantics (mt_model m) (write_model write) = true.
Proof.
  unfold write_target. destruct (bt_get (md_key (write_model write)) tables) as [t|].
  - destruct (same_semantics (mt_model t) (write_model write)) eqn:E; intros _; [split; [by intros [= <-]|by intros [[= <-] _]]|split; [done|intros [[= <-] E']; congruence]].
  - destruct write; intros []; (split; [done|by intros [? _]]).
Qed.

Lemma apply_write_ok write tables n tables' : machine_write_limits ->
  apply_write elapsed limits parameters write tables = (Ok n, tables') <-> written write tables n tables'.
Proof.
  intros Hm. unfold apply_write. rewrite check_lift_then. destruct write as [m row fp|m rows b fp|m a c s fp|m c s fp].
  - rewrite check_lift_then. apply (written_insert _ m [row]). left. by exists fp, row.
  - rewrite check_lift_then. apply (written_insert _ m rows). right. by exists fp, b.
  - apply (written_in_place (LUpdate m a c s fp)); [by intros; apply target_in_place|done|].
    intros model rows rows'. rewrite update_rows_ok by done. apply and_iff_compat_r. split.
    + intros (flags & H & ->). by constructor.
    + inversion 1; subst. eauto.
  - apply (written_in_place (LDelete m c s fp)); [by intros; apply target_in_place|done|].
    intros model rows rows'. rewrite delete_rows_ok. apply and_iff_compat_r. split.
    + intros (flags & H & -> & ->). by constructor.
    + inversion 1; subst. eauto.
Qed.

(** ** Assignments are simultaneous *)

(** With distinct slots, a row is assigned exactly the given datums and keeps
    its others. *)
Lemma assign_fields_ok entries : forall row row', NoDup (map fst entries) ->
  assign_fields entries row = (Ok tt, row') ->
  row_model row' = row_model row /\ length (row_values row') = length (row_values row) /\
  (forall slot d, (slot, d) ∈ entries -> row_values row' !! slot = Some d) /\
  (forall slot, slot ∉ map fst entries -> row_values row' !! slot = row_values row !! slot).
Proof.
  unfold assign_fields. induction entries as [|[slot d] entries IH]; intros row row' Hd H; cbn [for_mut] in H.
  { apply mret_ok in H as [_ ->]. split_and!; [done|done|by intros ? ? ?%not_elem_of_nil|done]. }
  apply mbind_ok in H as ([] & r1 & H1 & H). cbn [map fst] in Hd. apply NoDup_cons in Hd as [Hn Hd].
  destruct (IH r1 row' Hd H) as (Em & El & Ein & Eout). cbn [fst snd set_field dyn_row_mut] in H1.
  unfold mtry in H1. destruct (row_set_field row slot d) as [r2|] eqn:E; [|done]. injection H1 as ->.
  unfold row_set_field in E. apply rbind_ok in E as (f & _ & [_ (d0 & Hd0%ok_or_ok & [= <-])%rbind_ok]%check_then).
  cbn [row_model row_values] in *. rewrite length_insert in El.
  split_and!; [done|done| |].
  - intros s x [[= -> ->]|Hin]%elem_of_cons; [|by apply Ein]. rewrite Eout by done.
    apply list_lookup_insert_eq. by apply lookup_lt_Some in Hd0.
  - intros s [Hne Hs]%not_elem_of_cons. rewrite Eout by done. by apply list_lookup_insert_ne.
Qed.
End Effects.
