(* ===== verification/WriteSpec.v ===== *)
(** * Local and stored writes agree

    The normative eager semantics of writes on materialized data
    ([crates/dol-core/src/data/write.rs]) against the memory engine's
    application of the same writes in their logical form. *)
From Stdlib Require Import ZArith Lia.
From S2P Require Import Prelude Mutation Foreign Truth BTree Types Values Fingerprint Model Row Expr ExprValidate ExprPrepare Plan DataSet Executor Writes MemoryStore.

Local Open Scope Z_scope.

(** ** Prepared writes are closed *)
Section Closed.
Context {F : Foreign} {Q : Subqueries}.

Definition no_subplans (nodes : list PreparedNode) : Prop := flat_map node_existential nodes = [].

Lemma emit_no_subplans (kind : PreparedKind) ty (s : list PreparedNode * unit) r :
  emit kind ty s = Ok r -> match kind with PExists _ _ => False | _ => True end ->
  no_subplans (fst s) -> no_subplans (fst (snd r)).
Proof.
  intros (id & _ & [= <-])%rbind_ok Hk H. unfold no_subplans in *. cbn [fst snd].
  rewrite flat_map_app, H. by destruct kind.
Qed.

Lemma mapS_keeps {A B S} (f : A -> S -> Result (B * S)) (P : S -> Prop) l : 
  Forall (fun x => forall s r, f x s = Ok r -> P s -> P (snd r)) l ->
  forall s r, mapS f l s = Ok r -> P s -> P (snd r).
Proof.
  induction 1 as [|x l Hx _ IH]; intros s r; cbn [mapS]; [by intros [= <-]|].
  intros (r1 & H1 & (rs & H2 & [= <-])%rbind_ok)%rbind_ok Hs. cbn [snd]. apply (IH _ _ H2). by apply (Hx _ _ H1).
Qed.

(** Without an existential callback no subplan is referred to. *)
Lemma compile_no_subplans bc n : forall allow s r,
  compile_node_mode reject_existential bc n allow s = Ok r -> no_subplans (fst s) -> no_subplans (fst (snd r)).
Proof.
  assert (Hl : forall l, Forall (fun n => forall allow s r, compile_node_mode reject_existential bc n allow s = Ok r ->
      no_subplans (fst s) -> no_subplans (fst (snd r))) l ->
    forall s r, mapS (fun c => compile_node_mode reject_existential bc c false) l s = Ok r ->
      no_subplans (fst s) -> no_subplans (fst (snd r))).
  { intros l H. apply (mapS_keeps _ (fun s => no_subplans (fst s))). eapply Forall_impl; [exact H|]. eauto. }
  induction n as [k ty IH] using expr_ind'. intros allow s r (k' & Hk & He)%rbind_ok Hs.
  apply (emit_no_subplans _ _ _ _ He); clear He; destruct k; simpl in IH; rewrite ?Forall_cons in IH;
    repeat (match type of Hk with rbind _ _ = Ok _ => let M := fresh "M" in apply rbind_ok in Hk as (? & M & Hk) end);
    try injection Hk as <-; cbn [fst snd]; try done.
  - by apply compile_field_kind in M as (? & ? & ? & ->).
  - destruct IH as [IHa _]. by eapply IHa.
  - destruct IH as (IHa & IHb & _). eapply IHb; [done|]. by eapply IHa.
  - destruct IH as [IHa IHl]. eapply Hl; [done|done|]. by eapply IHa.
  - destruct IH as (IHa & IHb & IHc & _). eapply IHc; [done|]. eapply IHb; [done|]. by eapply IHa.
  - by eapply Hl.
Qed.

(** An expression prepared for a write refers to no subplan and no outer row. *)
Definition closed (p : PreparedExpression) : Prop := existential_dependencies p = [] /\ pe_outer_scope_count p = 0%nat.

Lemma prepare_closed spec bc limits p : prepare_expression spec bc limits = Ok p -> closed p.
Proof.
  unfold prepare_expression, prepare_expression_with_existentials.
  destruct (guard _ _ ;;? _) as [[p' st]|] eqn:E; [|done]. intros [= ->].
  apply check_then in E as [_ (? & _ & E)%rbind_ok]. apply check_then in E as [_ (n & _ & E)%rbind_ok].
  apply check_then in E as [_ E]. apply check_then in E as [_ (fp & _ & (r & Hr & [= <- _])%rbind_ok)%rbind_ok].
  split; [|done]. by apply (compile_no_subplans _ _ _ _ _ Hr).
Qed.
End Closed.

(** ** What a local write does *)
Section Local.
Context {F : Foreign} {M : Type} {RM : RecordMut M} (definition : Result ModelDef).

Definition locally_updated (prepared : PreparedUpdate) (row : M) (flag : bool) (row' : M) : Prop :=
  selected (pu_condition prepared) row = Ok flag /\
  if flag then
    exists values,
      mapR (fun a => evaluate_datum (pa_expression a) (eval_context_single (record_view row))) (pu_assignments prepared) = Ok values /\
      assign_fields (combine (map pa_field (pu_assignments prepared)) values) row = (Ok tt, row')
  else row' = row.

Lemma update_row_ok prepared affected affected' row row' :
  update_row prepared affected row = (Ok affected', row') <->
  exists flag, locally_updated prepared row flag row' /\ affected' = (if flag then S affected else affected).
Proof.
  unfold update_row. rewrite mget_then, mlift_then.
  split; intros (flag & H); exists flag; unfold locally_updated.
  - destruct H as [-> H]. destruct flag; [|by apply mret_ok in H as [-> ->]].
    apply mlift_then in H as (values & Hv & ([] & r1 & H & [-> ->]%mret_ok)%mbind_ok). eauto 10.
  - destruct H as ([-> H] & ->). split; [done|]. destruct flag; [|by rewrite mret_ok].
    destruct H as (values & Hv & H). apply mlift_then. exists values.
    split; [done|]. apply mbind_ok. exists tt, row'. by rewrite mret_ok.
Qed.

Lemma local_update_loop prepared rows : forall affected affected' rows',
  iter_mut (update_row prepared) affected rows = (Ok affected', rows') <->
  exists flags, Forall3 (locally_updated prepared) rows flags rows' /\ affected' = (affected + selected_count flags)%nat.
Proof.
  induction rows as [|row rows IH]; intros affected affected' rows'; rewrite iter_mut_ok.
  { split.
    - intros [-> ->]. exists []. split; [constructor|cbn; lia].
    - intros (flags & H & ->). inversion H; subst. split; [cbn; lia|done]. }
  split.
  - intros (a1 & row' & rest' & (flag & Hr & ->)%update_row_ok & (flags & Hf & ->)%IH & ->).
    exists (flag :: flags). rewrite selected_count_cons. split; [by constructor|]. destruct flag; lia.
  - intros (flags & Hf & ->). inversion Hf as [|? flag row' ? flags1 rest' Hr Hf1]; subst.
    rewrite selected_count_cons. eexists _, row', rest'. split_and!; [apply update_row_ok; by exists flag| |done].
    apply IH. exists flags1. split; [done|]. destruct flag; lia.
Qed.

Lemma apply_update_ok prepared rows n rows' :
  apply_update definition prepared rows = (Ok n, rows') <->
  forR (validate_record definition) rows = Ok tt /\
  (exists flags, Forall3 (locally_updated prepared) rows flags rows' /\ n = selected_count flags) /\
  validate_values definition rows' = Ok tt.
Proof.
  unfold apply_update. rewrite mget_then, check_lift_then. apply and_iff_compat_l.
  destruct (iter_mut (update_row prepared) 0%nat rows) as [[a|d] candidate] eqn:E.
  - rewrite mlift_then. split.
    + intros (a1 & [= <-] & [Hv H]%check_lift_then). rewrite mput_then in H. apply mret_ok in H as [-> ->].
      split; [|done]. apply local_update_loop in E as (flags & Hf & ->). by exists flags.
    + intros [(flags & Hf & ->) Hv]. pose proof (proj2 (local_update_loop prepared rows 0%nat _ rows')
        (ex_intro _ flags (conj Hf eq_refl))) as E'. rewrite E in E'. injection E' as -> ->.
      eexists. split; [done|]. rewrite check_lift_then, mput_then, mret_ok. done.
  - rewrite mlift_then. split; [by intros (? & [=] & _)|]. intros [(flags & Hf & ->) _].
    pose proof (proj2 (local_update_loop prepared rows 0%nat _ rows') (ex_intro _ flags (conj Hf eq_refl))) as E'.
    rewrite E in E'. done.
Qed.

Lemma apply_delete_ok prepared rows n rows' :
  apply_delete definition prepared rows = (Ok n, rows') <->
  forR (validate_record definition) rows = Ok tt /\
  exists flags, Forall2 (fun row flag => selected (pd_condition prepared) row = Ok flag) rows flags /\
    rows' = retained rows flags /\ n = selected_count flags.
Proof.
  unfold apply_delete. rewrite mget_then, check_lift_then, mlift_then. apply and_iff_compat_l.
  setoid_rewrite mapR_ok. setoid_rewrite mput_then. setoid_rewrite mret_ok.
  split; intros (flags & Hf & H); exists flags; (split; [done|]); tauto.
Qed.

Lemma apply_insert_ok value rows n rows' :
  apply_insert definition value rows = (Ok n, rows') <->
  validate_record definition value = Ok tt /\ validate_values definition (rows ++ [value]) = Ok tt /\
  n = 1%nat /\ rows' = rows ++ [value].
Proof.
  unfold apply_insert. rewrite check_lift_then, mget_then, mput_then. apply and_iff_compat_l.
  destruct (validate_values definition (rows ++ [value])) as [[]|d].
  - rewrite mret_ok. tauto.
  - rewrite mput_then, mlift_ok. split; [by intros [[=] _]|by intros [[=] _]].
Qed.

Lemma apply_insert_many_ok i rows n rows' :
  apply_insert_many definition i rows = (Ok n, rows') <->
  validate_batch_size (im_batch_rows i) = Ok tt /\ validate_values definition (im_values i) = Ok tt /\
  validate_values definition (rows ++ im_values i) = Ok tt /\ n = length (im_values i) /\ rows' = rows ++ im_values i.
Proof.
  unfold apply_insert_many. rewrite !check_lift_then, mget_then, mput_then. do 2 apply and_iff_compat_l.
  destruct (validate_values definition (rows ++ im_values i)) as [[]|d].
  - rewrite mret_ok. tauto.
  - rewrite mput_then, mlift_ok. split; [by intros [[=] _]|by intros [[=] _]].
Qed.

(** A failed local write leaves the data as it was. *)
Lemma apply_update_err prepared rows d rows' :
  apply_update definition prepared rows = (Err d, rows') -> rows' = rows.
Proof.
  unfold apply_update. rewrite mget_then. unfold mbind at 1, mlift at 1.
  destruct (forR (validate_record definition) rows) as [[]|]; [|by intros [= _ <-]].
  destruct (iter_mut (update_row prepared) 0%nat rows) as [[a|d'] candidate]; [|by intros [= _ <-]].
  unfold mbind, mlift, mput, mret. destruct (validate_values definition candidate); [done|by intros [= _ <-]].
Qed.

Lemma apply_delete_err prepared rows d rows' :
  apply_delete definition prepared rows = (Err d, rows') -> rows' = rows.
Proof.
  unfold apply_delete. rewrite mget_then. unfold mbind, mlift, mput, mret.
  destruct (forR (validate_record definition) rows) as [[]|]; [|by intros [= _ <-]].
  destruct (mapR (selected (pd_condition prepared)) rows); [done|by intros [= _ <-]].
Qed.

Lemma apply_insert_err value rows d rows' :
  apply_insert definition value rows = (Err d, rows') -> rows' = rows.
Proof.
  unfold apply_insert, mbind, mlift, mget, mput, mret. destruct (validate_record definition value) as [[]|]; [|by intros [= _ <-]].
  destruct (validate_values definition (rows ++ [value])); [done|]. intros [= _ <-].
  rewrite length_app, Nat.add_sub. by rewrite take_app_length.
Qed.

Lemma apply_insert_many_err i rows d rows' :
  apply_insert_many definition i rows = (Err d, rows') -> rows' = rows.
Proof.
  unfold apply_insert_many, mbind, mlift, mget, mput, mret.
  destruct (validate_batch_size (im_batch_rows i)) as [[]|]; [|by intros [= _ <-]].
  destruct (validate_values definition (im_values i)) as [[]|]; [|by intros [= _ <-]].
  destruct (validate_values definition (rows ++ im_values i)); [done|]. intros [= _ <-]. by rewrite take_app_length.
Qed.
End Local.

(** ** Refinement *)
Section Refinement.
Context {F : Foreign} {L : ForeignLaws F} {Q : Subqueries}.

(** The operations with both an eager and a logical meaning
    ([trait DataSetWrite], [trait WriteSource]). *)
Inductive AuthoredWrite :=
| AuInsert (value : DynRow)
| AuInsertMany (i : InsertMany DynRow)
| AuUpdate (s : ScopeState) (u : Update s)
| AuDelete (s : ScopeState) (d : Delete s).

Definition local_apply (definition : Result ModelDef) (w : AuthoredWrite) : Mut (list DynRow) nat :=
  match w with
  | AuInsert value => apply_insert definition value
  | AuInsertMany i => apply_insert_many definition i
  | AuUpdate _ u => apply_update_write definition u
  | AuDelete _ d => apply_delete_write definition d
  end.

Definition logical_write (definition : Result ModelDef) (w : AuthoredWrite) : Result LogicalWrite :=
  match w with
  | AuInsert value => logical_insert definition value
  | AuInsertMany i => logical_insert_many definition i
  | AuUpdate _ u => logical_update definition u
  | AuDelete _ d => logical_delete definition d
  end.

(** Rows made by the builders of frozen models. *)
Definition row_ok (r : DynRow) : Prop := row_valid r /\ dense (row_model r).

Definition authored_rows (w : AuthoredWrite) : list DynRow :=
  match w with AuInsert value => [value] | AuInsertMany i => im_values i | _ => [] end.

Lemma slots_read {B} (fields : list FieldDef) (values : list B) (f : FieldDef -> Result B) k :
  (forall i x v, fields !! i = Some x -> values !! i = Some v -> fd_slot x = (k + i)%nat -> f x = Ok v) ->
  (forall i x, fields !! i = Some x -> fd_slot x = (k + i)%nat) -> length values = length fields ->
  mapR f fields = Ok values.
Proof.
  revert values k. induction fields as [|x fields IH]; intros [|v values] k Hf Hd Hl; try done.
  cbn [mapR]. rewrite (Hf 0%nat x v eq_refl eq_refl (Hd 0%nat x eq_refl)). cbn [rbind].
  fold (mapR f). rewrite (IH values (S k)); [done| | |by injection Hl].
  - intros i y w Hy Hw Hs. apply (Hf (S i) y w Hy Hw). lia.
  - intros i y Hy. rewrite (Hd (S i) y Hy). lia.
Qed.

(** A valid row read as a record is itself. *)
Lemma row_from_view r : row_ok r -> row_from_record (row_view r) = Ok r.
Proof.
  intros [Hv Hd]. unfold row_from_record. cbn [rv_model rv_field row_view rbind].
  rewrite (slots_read (md_fields (row_model r)) (row_values r) _ 0%nat).
  - by destruct r.
  - intros i f v Hf Hval Hs. unfold row_get. rewrite Hs. cbn [Nat.add rbind]. rewrite Hval. cbn [ok_or rbind].
    unfold row_valid in Hv. pose proof (Forall2_lookup_lr _ _ _ _ _ _ Hv Hf Hval) as Ha. unfold field_accepts in Ha.
    by rewrite Ha.
  - intros i f Hf. by apply Hd.
  - symmetry. by apply Forall2_length in Hv.
Qed.

Lemma rows_from_views rows : Forall row_ok rows -> mapR (fun r => row_from_record (row_view r)) rows = Ok rows.
Proof.
  intros H. apply mapR_ok. induction H as [|r rows Hr _ IH]; constructor; [by apply row_from_view|done].
Qed.

Lemma selected_agree condition row flag : (forall c, condition = Some c -> closed c) ->
  table_selected parameters_new condition row = Ok flag <-> selected condition row = Ok flag.
Proof.
  intros Hc. destruct condition as [c|]; [|done]. destruct (Hc c eq_refl) as [He Ho].
  unfold table_selected, selected. rewrite He, Ho. cbn [is_nil Nat.eqb negb orb guard rbind].
  change (row_context row parameters_new) with (eval_context_single (row_view row)).
  cbn [record_view dyn_row_mut]. destruct (evaluate_datum c _) as [d|]; [|done].
  cbn [rbind]. by destruct d as [| |[]]; try destruct t.
Qed.

Lemma updated_agree prepared row flag row' : (forall c, pu_condition prepared = Some c -> closed c) ->
  row_updated parameters_new (map logical_assignment (pu_assignments prepared)) (pu_condition prepared) row flag row' <->
  locally_updated prepared row flag row'.
Proof.
  intros Hc. unfold row_updated, locally_updated. rewrite selected_agree by done. apply and_iff_compat_l.
  destruct flag; [|done]. unfold row_assigned.
  assert (E : mapR (fun a => evaluate_datum (lg_expression a) (row_context row parameters_new))
                (map logical_assignment (pu_assignments prepared)) =
              mapR (fun a => evaluate_datum (pa_expression a) (eval_context_single (record_view row))) (pu_assignments prepared)).
  { induction (pu_assignments prepared) as [|a l IH]; [done|]. cbn [map mapR]. fold (mapR (A:=LogicalAssignment) (B:=Datum)).
    by rewrite IH. }
  rewrite E, map_map. done.
Qed.

Lemma Forall3_impl_iff {A B C} (P Q' : A -> B -> C -> Prop) la lb lc :
  (forall a b c, P a b c <-> Q' a b c) -> Forall3 P la lb lc <-> Forall3 Q' la lb lc.
Proof. intros H. split; (induction 1; constructor; [by apply H|done]). Qed.

Lemma prepare_condition_closed condition bc all c :
  prepare_condition condition bc all = Ok (Some c) -> closed c.
Proof.
  destruct condition as [spec|], all; try done. cbn [prepare_condition].
  destruct (prepare_expression spec bc default_expression_limits) as [p|] eqn:E; [|done].
  intros [= <-]. by eapply prepare_closed.
Qed.

Lemma update_closed {s} definition (u : Update s) p : update_prepare definition u = Ok p ->
  forall c, pu_condition p = Some c -> closed c.
Proof.
  intros [_ (m & _ & (l & _ & (o & Ho & [= <-])%rbind_ok)%rbind_ok)%rbind_ok]%check_then c E. simpl in E. subst o.
  by eapply prepare_condition_closed.
Qed.

Lemma delete_closed {s} definition (d : Delete s) p : delete_prepare definition d = Ok p ->
  forall c, pd_condition p = Some c -> closed c.
Proof.
  intros (m & _ & (o & Ho & [= <-])%rbind_ok)%rbind_ok c E. simpl in E. subst o. by eapply prepare_condition_closed.
Qed.

(** ** Deleting rows of valid data leaves valid data *)
Lemma retained_elem {A} (rows : list A) flags x : x ∈ retained rows flags -> x ∈ rows.
Proof.
  unfold retained. intros ([y b] & -> & Hin)%elem_of_map. apply list_elem_of_In, filter_In in Hin as [Hin _].
  apply in_combine_l in Hin. by apply list_elem_of_In.
Qed.

Lemma retained_pairs {A B} (R : B -> B -> Prop) (f : A -> option B) (rows : list A) : forall flags,
  ForallOrdPairs R (omap f rows) -> ForallOrdPairs R (omap f (retained rows flags)).
Proof.
  induction rows as [|x rows IH]; intros [|b flags] H; try constructor. cbn in H.
  assert (Hr : ForallOrdPairs R (omap f (retained rows flags)))
    by (apply IH; destruct (f x); [by inversion H|done]).
  unfold retained. cbn [combine List.filter snd]. destruct b; cbn [negb]; [exact Hr|]. cbn [map fst].
  change (map fst (List.filter (fun e => negb (snd e)) (combine rows flags))) with (retained rows flags).
  cbn. destruct (f x) as [y|]; [|done]. inversion H as [|? ? Hy _]; subst. constructor; [|done].
  rewrite Forall_forall in Hy |- *. intros z (x' & Hx'%retained_elem & Hz)%list_elem_of_omap.
  apply Hy, list_elem_of_omap. by exists x'.
Qed.

Lemma retained_map {A B} (g : A -> B) rows : forall flags, map g (retained rows flags) = retained (map g rows) flags.
Proof.
  unfold retained. induction rows as [|x rows IH]; intros [|b flags]; cbn; try done.
  destruct b; cbn; [apply IH|]. by rewrite IH.
Qed.

Lemma retained_valid m rows flags : constraints_known m -> Forall rust_record (map row_view rows) ->
  validate_dynamic_dataset m rows = Ok tt -> validate_dynamic_dataset m (retained rows flags) = Ok tt.
Proof.
  intros Hk Hrust. unfold validate_dynamic_dataset. rewrite retained_map. set (records := map row_view rows) in *.
  assert (Hsub : forall P : RecordView -> Prop, Forall P records -> Forall P (retained records flags)).
  { intros P H. rewrite Forall_forall in H. apply Forall_forall. intros x Hx%retained_elem. by apply H. }
  intros (Hc & Hi & Hu)%(validate_dataset_ok m records Hk Hrust).
  apply validate_dataset_ok; [done|by apply Hsub|]. split_and!; [by apply Hsub| |].
  - intros fields E. by apply retained_pairs, Hi.
  - intros fields E. by apply retained_pairs, Hu.
Qed.

(** ** The claim *)
Section Claim.
Context (elapsed : nat -> Z) (limits : WriteLimits) (model : ModelDef) (tables : Tables) (table : MemoryTable).
Hypothesis unlimited : wl_max_affected_rows limits = None /\ wl_timeout limits = None.
Hypothesis stored_table : bt_get (md_key model) tables = Some table /\ mt_model table = model.

(** Without limits, a write of this model succeeds when its effect is defined
    and leaves valid rows. *)
Lemma unlimited_write lw n rows' : write_model lw = model ->
  apply_write elapsed limits parameters_new lw tables = (Ok n, bt_insert (md_key model) (mkMemoryTable model rows') tables) <->
  write_effect parameters_new lw (mt_rows table) rows' n /\ validate_dynamic_dataset model rows' = Ok tt.
Proof.
  destruct unlimited as [Hn Ht], stored_table as [Hg Hm]. intros Hw.
  assert (Hml : machine_write_limits limits) by (unfold machine_write_limits; by rewrite Hn).
  assert (Hs : same_semantics model model = true) by by apply bool_decide_eq_true_2.
  rewrite apply_write_ok by done. unfold written, write_target. rewrite Hw, Hg, Hm, Hs. split.
  - intros (t & rows1 & [= <-] & He & _ & Hv & _ & E). rewrite Hm in E, Hv.
    assert (rows1 = rows') as ->; [|done].
    pose proof (bt_get_insert_eq (md_key model) (mkMemoryTable model rows') tables) as G. rewrite E, bt_get_insert_eq in G.
    by injection G.
  - intros [He Hv]. exists table, rows'. rewrite Hm. split_and!; [done|done| |done| |done].
    + unfold affects, enforce_affected_limit. by rewrite Hn.
    + intros k _. unfold check_timeout. by rewrite Ht.
Qed.

Lemma validate_all rows : validate_dynamic_dataset model rows = Ok tt -> forR (validate_record (Ok model)) rows = Ok tt.
Proof.
  intros [H _]%check_then. rewrite forR_ok in H. apply forR_ok. by rewrite Forall_map in H.
Qed.

(** C14: without limits, and for the authored operations of any frozen model,
    the memory engine implements the normative eager semantics of writes: on
    valid rows, an insert, bulk insert, update or delete changes a data set
    to some rows, affecting some number of them, exactly when its logical
    form changes the engine's table to the same rows with the same count. *)
Theorem engine_refines_local b w lw n rows' : freeze b = Ok model ->
  validate_dynamic_dataset model (mt_rows table) = Ok tt ->
  Forall rust_record (map row_view (mt_rows table)) -> Forall row_ok (authored_rows w) ->
  logical_write (Ok model) w = Ok lw ->
  local_apply (Ok model) w (mt_rows table) = (Ok n, rows') <->
  apply_write elapsed limits parameters_new lw tables =
    (Ok n, bt_insert (md_key model) (mkMemoryTable model rows') tables).
Proof.
  intros Hf Hvalid Hrust Hrows Hw.
  pose proof (frozen_constraints_known b model Hf) as Hk. pose proof (validate_all _ Hvalid) as Hrec.
  destruct w as [v|i|s u|s d]; cbn [logical_write local_apply authored_rows] in *.
  - unfold logical_insert in Hw. cbn [rbind] in Hw. apply rbind_ok in Hw as (row & Hr & (fp & Hfp & [= <-])%rbind_ok).
    cbn [record_view dyn_row_mut] in Hr. rewrite row_from_view in Hr by by apply Forall_cons_1 in Hrows as [? _]. injection Hr as <-.
    apply check_then in Hfp as [Hv _].
    rewrite unlimited_write, apply_insert_ok by done. split.
    + intros (_ & Hd & -> & ->). split; [constructor|exact Hd].
    + intros [He Hd]. inversion He; subst. done.
  - unfold logical_insert_many in Hw. cbn [rbind] in Hw. apply rbind_ok in Hw as (rows & Hr & (fp & Hfp & [= <-])%rbind_ok).
    cbn [record_view dyn_row_mut] in Hr. rewrite rows_from_views in Hr by done. injection Hr as <-.
    apply check_then in Hfp as [Hb [Hv _]%check_then].
    rewrite unlimited_write, apply_insert_many_ok by done. split.
    + intros (_ & _ & Hd & -> & ->). split; [constructor|exact Hd].
    + intros [He Hd]. inversion He; subst. done.
  - unfold logical_update in Hw. cbn [rbind] in Hw. apply rbind_ok in Hw as (p & Hp & (fp & _ & [= <-])%rbind_ok).
    unfold apply_update_write. rewrite unlimited_write, mlift_then by done. split.
    + intros (p' & Hp' & (_ & (flags & Hfl & ->) & Hd)%apply_update_ok). rewrite Hp in Hp'. injection Hp' as <-.
      split; [|exact Hd]. constructor. eapply Forall3_impl_iff; [|exact Hfl].
      intros. apply updated_agree. by eapply update_closed.
    + intros [He Hd]. exists p. split; [done|]. apply apply_update_ok. split; [done|]. split; [|exact Hd].
      inversion He; subst. exists flags. split; [|done]. eapply Forall3_impl_iff; [|eassumption].
      intros. symmetry. apply updated_agree. by eapply update_closed.
  - unfold logical_delete in Hw. cbn [rbind] in Hw. apply rbind_ok in Hw as (p & Hp & (fp & _ & [= <-])%rbind_ok).
    assert (Hsel : forall rows flags,
      Forall2 (fun row flag => table_selected parameters_new (pd_condition p) row = Ok flag) rows flags <->
      Forall2 (fun row flag => selected (pd_condition p) row = Ok flag) rows flags).
    { intros rows flags. split; (intros H; eapply Forall2_impl; [exact H|]; intros row flag; apply selected_agree;
        by eapply delete_closed). }
    unfold apply_delete_write. rewrite unlimited_write, mlift_then by done. split.
    + intros (p' & Hp' & (_ & (flags & Hfl & -> & ->))%apply_delete_ok). rewrite Hp in Hp'. injection Hp' as <-.
      apply Hsel in Hfl. split; [by constructor|]. by apply retained_valid.
    + intros [He Hd]. exists p. split; [done|]. apply apply_delete_ok. split; [done|].
      inversion He; subst. exists flags. split_and!; [by apply Hsel|done..].
Qed.
End Claim.
End Refinement.

(** ** The order of assignments has no meaning *)
Section Order.
Context {F : Foreign} {Q : Subqueries}.

Lemma assignment_cmp_laws : CmpLaws assignment_cmp.
Proof. exact (on_laws as_field str_cmp str_cmp_laws). Qed.

(** A sorted list passes the check for neighbours only without duplicates. *)
Lemma prepared_distinct model l : forall prepared previous r,
  StronglySorted (le_by assignment_cmp) l -> foldR (prepare_assignment model) l (prepared, previous) = Ok r ->
  NoDup (map as_field l) /\
  forall x, previous = Some x -> Forall (fun a => str_cmp x (as_field a) <> Gt) l -> x ∉ map as_field l.
Proof.
  induction l as [|a l IH]; intros prepared previous r Hs H.
  { split; [constructor|]. intros x _ _. apply not_elem_of_nil. }
  inversion Hs as [|? ? Hs' Ha]; subst. cbn [foldR] in H. apply rbind_ok in H as ([prepared' previous'] & H1 & H).
  unfold prepare_assignment in H1. apply check_then in H1 as [Hg%guard_ok H1].
  do 1 (apply check_then in H1 as [_ H1]). apply rbind_ok in H1 as (f & _ & H1). apply check_then in H1 as [_ H1].
  apply rbind_ok in H1 as (e & _ & H1). apply check_then in H1 as [_ [= _ <-]].
  destruct (IH _ _ _ Hs' H) as [Hd Hn]. specialize (Hn (as_field a) eq_refl Ha). split; [by apply NoDup_cons|].
  intros x -> Hx. apply Forall_cons_1 in Hx as [Hxa _]. intros [E|E]%elem_of_cons.
  - subst x. by rewrite bool_decide_eq_true_2 in Hg.
  - apply elem_of_map in E as (c & -> & Hc). rewrite Forall_forall in Ha. specialize (Ha c Hc).
    unfold le_by, assignment_cmp in Ha.
    destruct (str_cmp (as_field c) (as_field a)) eqn:E.
    + apply str_cmp_eq in E. rewrite E in Hg. by rewrite bool_decide_eq_true_2 in Hg.
    + rewrite (cmp_antisym _ str_cmp_laws (as_field c)), E in Ha. by apply Ha.
    + done.
Qed.

(** The order in which assignments are authored has no meaning: updates
    with the same condition and the same assignments in any order prepare to
    the same update. *)
Theorem update_order_insensitive s (u u' : Update s) definition p :
  up_assignments u ≡ₚ up_assignments u' -> up_condition u = up_condition u' ->
  update_prepare definition u = Ok p -> update_prepare definition u' = Ok p.
Proof.
  intros Hp Hc H. unfold update_prepare, prepare_update in *. apply check_then in H as [Hne H].
  apply rbind_ok in H as (model & Hm & H). rewrite Hm. apply check_then. split.
  { apply guard_ok in Hne. apply guard_ok. destruct (up_assignments u'); [|done].
    apply Permutation_nil_r in Hp. by rewrite Hp in Hne. }
  cbn [rbind]. rewrite <- Hc.
  assert (E : sort_by assignment_cmp (up_assignments u') = sort_by assignment_cmp (up_assignments u)); [|by rewrite E].
  symmetry. apply sort_by_unique; [apply assignment_cmp_laws|done|].
  apply rbind_ok in H as (r & H & _). apply prepared_distinct in H as [Hd _]; [|apply sort_by_sorted, assignment_cmp_laws].
  assert (Hd' : NoDup (map as_field (up_assignments u))).
  { assert (Hperm : map as_field (sort_by assignment_cmp (up_assignments u)) ≡ₚ map as_field (up_assignments u))
      by (apply Permutation_map, sort_by_perm). by rewrite Hperm in Hd. }
  intros a b Ha Hb E%str_cmp_eq. by apply (NoDup_map_inj as_field (up_assignments u)).
Qed.
End Order.

(** ** Examples *)
Definition email_field : ExprNode (F:=sample_foreign) (Q:=no_subqueries) :=
  mkExpr (EField (mkFieldRef "user" "email" "mail" None)) (nullable string_type).
Definition id_literal (z : Z) : ExpressionSpec (F:=sample_foreign) (Q:=no_subqueries) :=
  mkExpressionSpec (mkExpr (ELiteral (DValue (VInt z))) (scalar "dol/int64" 1 (RInt 64)))
    (scalar "dol/int64" 1 (RInt 64)).
Definition assign_id (z : Z) : Assignment (F:=sample_foreign) (Q:=no_subqueries) :=
  mkAssignment "user" "id" (scalar "dol/int64" 1 (RInt 64)) (id_literal z).
Definition assign_email : Assignment (F:=sample_foreign) (Q:=no_subqueries) :=
  mkAssignment "user" "email" (nullable string_type) (mkExpressionSpec email_field (nullable string_type)).
Definition sample_update : Update (F:=sample_foreign) (Q:=no_subqueries) Scoped :=
  update_set (update_filter update_new sample_spec) (assign_id 8).

Lemma update_order_insensitive_witness :
  update_prepare (Ok sample_model) (update_set sample_update assign_email) =
  update_prepare (Ok sample_model) (update_set (update_set (update_filter update_new sample_spec) assign_email) (assign_id 8)).
Proof.
  destruct (update_prepare (Ok sample_model) (update_set sample_update assign_email)) as [p|d] eqn:E; [|discriminate E].
  symmetry. eapply (update_order_insensitive (F:=sample_foreign) (Q:=no_subqueries) Scoped (update_set sample_update assign_email));
    [|reflexivity|exact E]. apply Permutation_swap.
Defined.

Lemma engine_refines_local_witness :
  exists lw, logical_write (Ok sample_model) (AuUpdate Scoped sample_update) = Ok lw /\
  apply_write (fun _ => 0) (mkWriteLimits None 1 None) parameters_new lw [("user"%stdpp, mkMemoryTable sample_model [sample_row])] =
    (Ok 1%nat, bt_insert "user"%stdpp (mkMemoryTable sample_model [mkDynRow sample_model [Null; DValue (VInt 8)]])
       [("user"%stdpp, mkMemoryTable sample_model [sample_row])]).
Proof.
  destruct (logical_write (Ok sample_model) (AuUpdate Scoped sample_update)) as [lw|d] eqn:E; [|discriminate E].
  exists lw. split; [reflexivity|].
  apply (engine_refines_local (F:=sample_foreign) (Q:=no_subqueries) (fun _ => 0) (mkWriteLimits None 1 None) sample_model
    [("user"%stdpp, mkMemoryTable sample_model [sample_row])] (mkMemoryTable sample_model [sample_row])
    (conj eq_refl eq_refl) (conj eq_refl eq_refl) sample_builder (AuUpdate Scoped sample_update) lw).
  - exact sample_freeze.
  - reflexivity.
  - repeat constructor. intros [|[|slot]] d E'; simpl in E'; inversion E'; reflexivity.
  - constructor.
  - exact E.
  - reflexivity.
Defined.
