(* ===== verification/Integrity.v ===== *)
(** * Integrity of the memory store

    What the validation of all tables decides: a closed model set, conforming
    rows with distinct identity and unique tuples, and no dangling reference. *)
From Stdlib Require Import ZArith Lia.
From S2P Require Import Prelude Mutation Foreign BTree Types Values Fingerprint Model Row DataSet Executor Writes MemoryStore.

Local Open Scope Z_scope.

Section Integrity.
Context {F : Foreign} {L : ForeignLaws F}.

(** The datums of a record at some fields. *)
Definition entries (m : ModelDef) (fields : list string) (row : DynRow) : list Datum -> Prop :=
  Forall2 (tuple_entry m (row_view row)) fields.

(** Every row of the source whose referring fields are all present has a row
    of the target with equal referred fields. *)
Definition reference_holds (source target : MemoryTable) (r : ReferenceDef) : Prop :=
  forall row ds, row ∈ mt_rows source -> entries (mt_model source) (ref_source_fields r) row ds ->
  existsb is_absent ds = false ->
  exists row' ds', row' ∈ mt_rows target /\ entries (mt_model target) (ref_target_fields r) row' ds' /\
    tuple_eqb ds ds' = true.

(** A table whose rows satisfy its own model. *)
Definition table_conforms (t : MemoryTable) : Prop :=
  let records := map row_view (mt_rows t) in
  Forall (record_conforms (mt_model t)) records /\
  (forall fields, md_identity (mt_model t) = Some fields -> tuples_distinct (mt_model t) fields false records) /\
  (forall fields, fields ∈ md_unique (mt_model t) -> tuples_distinct (mt_model t) fields true records).

(** Tables as the engine holds them: in key order, under their models' keys,
    of frozen models and representable values. *)
Definition stored (tables : Tables) : Prop :=
  bt_sorted tables = true /\
  forall key t, (key, t) ∈ tables ->
    md_key (mt_model t) = key /\ (exists b, freeze b = Ok (mt_model t)) /\
    Forall rust_record (map row_view (mt_rows t)).

Lemma entries_functional m fields row ds ds' : entries m fields row ds -> entries m fields row ds' -> ds = ds'.
Proof.
  intros H. revert ds'. induction H as [|k d fields ds (f & Hf & Hd & _) _ IH]; intros ds1 H'; inversion H' as [|? d' ? ds2 (g & Hg & Hd' & _) Hr]; subst;
    [done|]. f_equal; [congruence|by apply IH].
Qed.

Lemma reference_values_ok m fields skip row : record_conforms m (row_view row) ->
  (forall k, k ∈ fields -> exists f, model_field m k = Some f) ->
  exists ds, entries m fields row ds /\
    reference_values (row_view row) m fields skip = Ok (if skip && existsb is_absent ds then None else Some ds).
Proof. apply tuple_values_ok. Qed.

Lemma find_target_ok sv target fields rows :
  Forall (fun row => record_conforms (mt_model target) (row_view row)) rows ->
  (forall k, k ∈ fields -> exists f, model_field (mt_model target) k = Some f) ->
  exists b, find_target sv target fields rows = Ok b /\
    (b = true <-> exists row' ds', row' ∈ rows /\ entries (mt_model target) fields row' ds' /\ tuple_eqb sv ds' = true).
Proof.
  intros Hr Hk. induction Hr as [|row rows Hrow _ (b & Hb & Eb)]; cbn [find_target].
  { exists false. split; [done|]. split; [done|]. by intros (? & ? & ?%not_elem_of_nil & _). }
  destruct (reference_values_ok _ fields false row Hrow Hk) as (ds & Hds & ->). cbn [rbind andb].
  destruct (tuple_eqb sv ds) eqn:E.
  - exists true. split; [done|]. split; [|done]. intros _. exists row, ds. split_and!; [left|done|done].
  - exists b. split; [done|]. rewrite Eb. split.
    + intros (row' & ds' & ? & ? & ?). exists row', ds'. split_and!; [by right|done|done].
    + intros (row' & ds' & [->|Hin]%elem_of_cons & Hd & Ht); [|by exists row', ds'].
      rewrite (entries_functional _ _ _ _ _ Hd Hds) in Ht. congruence.
Qed.

Lemma reference_rows_ok source target r : table_conforms source -> table_conforms target ->
  (forall k, k ∈ ref_source_fields r -> exists f, model_field (mt_model source) k = Some f) ->
  (forall k, k ∈ ref_target_fields r -> exists f, model_field (mt_model target) k = Some f) ->
  forR (validate_reference_row source target r) (mt_rows source) = Ok tt <-> reference_holds source target r.
Proof.
  intros [Hs _] [Ht _] Ks Kt. rewrite forR_ok, Forall_forall. rewrite Forall_map in Hs, Ht.
  rewrite Forall_forall in Hs. unfold reference_holds, validate_reference_row. split.
  - intros H row ds Hrow Hds Ha. specialize (H row Hrow).
    destruct (reference_values_ok _ _ true row (Hs row Hrow) Ks) as (ds' & Hds' & E). rewrite E in H. cbn [rbind] in H.
    rewrite <- (entries_functional _ _ _ _ _ Hds Hds'), Ha in H. cbn [andb] in H.
    apply rbind_ok in H as (b & Hb & ->%guard_ok).
    destruct (find_target_ok ds target (ref_target_fields r) (mt_rows target) Ht Kt) as (b' & Hb' & Eb).
    rewrite Hb in Hb'. injection Hb' as <-. by apply Eb.
  - intros H row Hrow. destruct (reference_values_ok _ _ true row (Hs row Hrow) Ks) as (ds & Hds & ->). cbn [rbind].
    destruct (existsb is_absent ds) eqn:Ha; cbn [andb]; [done|].
    destruct (find_target_ok ds target (ref_target_fields r) (mt_rows target) Ht Kt) as (b & -> & Eb). cbn [rbind].
    apply guard_ok, Eb. by apply (H row).
Qed.

Definition references_hold (tables : Tables) : Prop :=
  forall key source r, (key, source) ∈ tables -> r ∈ md_references (mt_model source) ->
  exists target, bt_get (ref_target_model r) tables = Some target /\ reference_holds source target r.

Lemma validate_references_ok tables set : stored tables ->
  model_set_new (map (fun e => mt_model (snd e)) tables) = Ok set ->
  Forall (fun e => table_conforms (snd e)) tables ->
  validate_references tables = Ok tt <-> references_hold tables.
Proof.
  intros [Hs Hst] Hset Hc. unfold validate_references, references_hold. rewrite forR_ok, Forall_forall.
  rewrite Forall_forall in Hc.
  assert (Htarget : forall key source r target, (key, source) ∈ tables -> r ∈ md_references (mt_model source) ->
    bt_get (ref_target_model r) tables = Some target ->
    forR (validate_reference_row source target r) (mt_rows source) = Ok tt <-> reference_holds source target r).
  { intros key source r target Hin Hr Ht. apply bt_get_elem in Ht.
    destruct (Hst _ _ Hin) as (Ek & [b Hb] & _). destruct (Hst _ _ Ht) as (Et & [bt Hbt] & _).
    apply reference_rows_ok; [by apply (Hc _ Hin)|by apply (Hc _ Ht)| |].
    - by apply (frozen_references_known b).
    - assert (Hm : forall e, e ∈ tables -> bt_get (md_key (mt_model (snd e))) set = Some (mt_model (snd e))).
      { intros e He. eapply model_set_entries; [exact Hset|]. apply list_elem_of_fmap. by exists e. }
      pose proof (Hm _ Hin) as Hsrc%bt_get_elem. pose proof (Hm _ Ht) as Htgt. cbn [snd] in *.
      pose proof (model_set_references _ _ Hset _ _ Hsrc) as Hrefs. rewrite Forall_forall in Hrefs.
      destruct (Hrefs r Hr) as (m & Hg & _ & Hu). rewrite Et, Hg in Htgt. injection Htgt as ->.
      apply is_unique_known; [|done]. by apply (frozen_constraints_known bt). }
  split.
  - intros H key source r Hin Hr. specialize (H _ Hin). cbn [snd] in H. rewrite forR_ok, Forall_forall in H.
    specialize (H r Hr). apply rbind_ok in H as (target & Ht%ok_or_ok & H). exists target. split; [done|].
    by apply (Htarget key source r target).
  - intros H [key source] Hin. cbn [snd]. apply forR_ok, Forall_forall. intros r Hr.
    destruct (H key source r Hin Hr) as (target & Ht & Hh). rewrite Ht. cbn [ok_or rbind].
    by apply (Htarget key source r target).
Qed.

(** C13: the store's validation accepts exactly the stored tables whose models
    form a closed set, whose rows conform to their models without duplicate
    identities or unique tuples, and in which every present reference has a
    target row: nested scans with early exits miss nothing. *)
Theorem validate_tables_exact tables : stored tables ->
  validate_tables tables = Ok tt <->
  (exists set, model_set_new (map (fun e => mt_model (snd e)) tables) = Ok set) /\
  Forall (fun e => table_conforms (snd e)) tables /\ references_hold tables.
Proof.
  intros H. assert (Hdata : forall e, e ∈ tables ->
    validate_dynamic_dataset (mt_model (snd e)) (mt_rows (snd e)) = Ok tt <-> table_conforms (snd e)).
  { intros [key t] Hin. destruct H as [_ H]. destruct (H _ _ Hin) as (_ & [b Hb%frozen_constraints_known] & Hr).
    by apply validate_dataset_ok. }
  unfold validate_tables. rewrite rbind_ok. setoid_rewrite check_then.
  split.
  - intros (set & Hset & Hd & Hr). rewrite forR_ok, Forall_forall in Hd.
    assert (Hc : Forall (fun e => table_conforms (snd e)) tables) by (apply Forall_forall; intros e He; exact (proj1 (Hdata e He) (Hd e He))).
    split_and!; [by exists set|done|]. exact (proj1 (validate_references_ok tables set H Hset Hc) Hr).
  - intros ([set Hset] & Hc & Hr). exists set. split_and!; [done|apply forR_ok|exact (proj2 (validate_references_ok tables set H Hset Hc) Hr)].
    rewrite Forall_forall in Hc. apply Forall_forall. intros e He. exact (proj2 (Hdata e He) (Hc e He)).
Qed.
End Integrity.

(** ** Posts that refer to their authors *)
Definition post_builder : ModelBuilder :=
  builder_reference (builder_field_def (builder_new "post")
    "author" "author" (nullable (scalar "dol/int64" 1 (RInt 64))) Required) ["author"] "user" ["id"].
Definition post_model : ModelDef := from_parts (F:=sample_foreign) (frozen_parts post_builder).

Definition post_tables (author : Datum (F:=sample_foreign)) : Tables (F:=sample_foreign) :=
  [("post"%stdpp, mkMemoryTable post_model [mkDynRow post_model [author]]);
   ("user"%stdpp, mkMemoryTable sample_model [mkDynRow sample_model [Null; DValue (VInt 7)]])].

Example reference_present : validate_tables (post_tables (DValue (VInt 7))) = Ok tt.
Proof. reflexivity. Qed.
Example reference_absent : validate_tables (post_tables Null) = Ok tt.
Proof. reflexivity. Qed.
Example reference_dangling : validate_tables (post_tables (DValue (VInt 8))) = error "MEMORY-REFERENCE-002".
Proof. reflexivity. Qed.

Lemma validate_tables_exact_witness :
  references_hold (post_tables (DValue (VInt 7))) /\
  ~ (Forall (fun e => table_conforms (snd e)) (post_tables (DValue (VInt 8))) /\ references_hold (post_tables (DValue (VInt 8)))).
Proof.
  assert (Hstored : forall author, holds_at rust_node (DValue author) -> stored (post_tables (DValue author))).
  { intros author Ha. split; [reflexivity|].
    intros key t [[= -> ->]|[[= -> ->]|H%not_elem_of_nil]%elem_of_cons]%elem_of_cons; [| |done];
      (split; [reflexivity|split]).
    - exists post_builder. reflexivity.
    - repeat constructor. intros [|slot] d E; simpl in E; inversion E. exact Ha.
    - exists sample_builder. exact sample_freeze.
    - repeat constructor; intros [|[|slot]] d E; simpl in E; inversion E; reflexivity. }
  split.
  - apply (validate_tables_exact (post_tables (DValue (VInt 7)))); [apply Hstored; reflexivity|exact reference_present].
  - intros [Hc Hr]. pose proof (proj2 (validate_tables_exact (post_tables (DValue (VInt 8))) ltac:(apply Hstored; reflexivity))) as H.
    rewrite reference_dangling in H. discriminate H. split; [|by split]. eexists. reflexivity.
Defined.
