(* ===== verification/MemoryEngine.v ===== *)
(** * The memory engine ([engines/memory/src/lib.rs], [transaction.rs])

    The engine's state and entry points, and serializable transactions over a
    private snapshot. *)
From Stdlib Require Import ZArith Lia.
From stdpp Require Import relations.
From S2P Require Import Prelude Mutation Foreign Truth BTree Types Values Fingerprint Model Row Expr ExprPrepare Plan Placement DataSet Executor Writes MemoryStore.

Local Open Scope Z_scope.

Inductive IsolationLevel := Serializable.

Record TransactionLimits := mkTransactionLimits {
  tl_max_snapshot_rows : Z; tl_max_snapshot_bytes : Z; tl_max_writes : nat
}.
Definition transaction_limits_default : TransactionLimits := mkTransactionLimits 100000 (64 * 1024 * 1024) 1024.

Definition memory_capabilities : Capabilities :=
  mkCapabilities
    (mkPipelineCapabilities ExactNative ExactNative ExactNative ExactNative ExactNative ExactNative ExactNative
       ExactNative ExactNative ExactNative ExactNative ExactNative)
    (mkWriteCapabilities ExactNative ExactNative ExactNative ExactNative)
    (mkTransactionCapabilities ExactNative ExactNative ExactNative).

Section Memory.
Context {F : Foreign} (version : string).

Record MemoryEngine := mkMemoryEngine {
  me_info : EngineInfo;
  me_capabilities : Capabilities;
  me_tables : Tables;
  me_validated : bool
}.

#[export] Instance memory_engine : Engine MemoryEngine := {|
  engine_info := me_info;
  capabilities := me_capabilities;
  support_for_node := default_support_for_node me_capabilities
|}.

Definition set_tables (e : MemoryEngine) (tables : Tables) (validated : bool) : MemoryEngine :=
  mkMemoryEngine (me_info e) (me_capabilities e) tables validated.

Definition memory_new : MemoryEngine := mkMemoryEngine (mkEngineInfo "memory" version) memory_capabilities [] true.

Definition memory_clear (e : MemoryEngine) : MemoryEngine := set_tables e [] true.

(** [store_operation(&mut self.tables)?; self.invalidate();] *)
Definition invalidating (operation : Mut Tables unit) : Mut MemoryEngine unit := fun e =>
  let '(outcome, tables) := operation (me_tables e) in
  match outcome with
  | Ok _ => (Ok tt, set_tables e tables false)
  | Err d => (Err d, set_tables e tables (me_validated e))
  end.

Definition memory_register (definition : Result ModelDef) : Mut MemoryEngine unit := invalidating (register_model definition).
Definition memory_load {M} `{RM : !RecordMut M} (definition : Result ModelDef) (data : list M) : Mut MemoryEngine unit :=
  invalidating (load_dataset definition data).
Definition memory_load_dynamic (model : ModelDef) (rows : list DynRow) : Mut MemoryEngine unit :=
  invalidating (load_dynamic model rows).

Definition mark_validated (e : MemoryEngine) : MemoryEngine := set_tables e (me_tables e) true.

Definition memory_validate : Mut MemoryEngine unit := fun e =>
  if me_validated e then (Ok tt, e)
  else match validate_tables (me_tables e) with
       | Ok _ => (Ok tt, mark_validated e)
       | Err d => (Err d, e)
       end.

Definition memory_rows (definition : Result ModelDef) (e : MemoryEngine) : Result (list DynRow) :=
  let? model := definition in
  let? table := ok_or (bt_get (md_key model) (me_tables e)) "MEMORY-STORE-003" in
  guard (same_semantics (mt_model table) model) "MEMORY-STORE-004" ;;?
  Ok (mt_rows table).

(** ** Executing plans *)
Record ExecutionOptions := mkExecutionOptions {
  eo_limits : ExecutionLimits; eo_placement : PlacementPolicy; eo_batch_rows : nat
}.

Definition memory_execute_plan (plan : LogicalPlan) (parameters : Parameters) (options : ExecutionOptions)
  : Mut MemoryEngine MemoryStream :=
  memory_validate ;;!
  let! e := mget in
  let! placement := mlift (analyze_engine_placement plan e (eo_placement options)) in
  mlift (guard (is_fully_engine placement) "MEMORY-PLACEMENT-001") ;;!
  mlift (execute (me_tables e) plan parameters (eo_limits options) (eo_batch_rows options)).

(** ** Executing writes *)

(** A request, with the clock readings its execution will see. *)
Record WriteRequest := mkWriteRequest {
  wr_write : LogicalWrite; wr_parameters : Parameters; wr_limits : WriteLimits; wr_elapsed : nat -> Z
}.

Definition write_support (c : Capabilities) (k : WriteKind) : Support :=
  match k with
  | KInsert => wc_insert (cap_writes c)
  | KInsertMany => wc_insert_many (cap_writes c)
  | KUpdate => wc_update (cap_writes c)
  | KDelete => wc_delete (cap_writes c)
  end.

Definition validate_write_request (c : Capabilities) (r : WriteRequest) : Result unit :=
  write_limits_validate (wr_limits r) ;;?
  guard (is_supported (write_support c (write_kind (wr_write r)))) "MEMORY-WRITE-006".

Definition request_write (r : WriteRequest) (validate : Tables -> Result unit) : Mut Tables nat :=
  apply_atomic_write (wr_elapsed r) (wr_limits r) (wr_parameters r) (wr_write r) validate.

Definition memory_execute_write (r : WriteRequest) : Mut MemoryEngine nat :=
  let! e := mget in
  mlift (validate_write_request (me_capabilities e) r) ;;!
  memory_validate ;;!
  let! e := mget in
  let '(outcome, tables) := request_write r validate_tables (me_tables e) in
  mput (set_tables e tables (me_validated e)) ;;!
  let! affected := mlift outcome in
  let! e := mget in
  mput (mark_validated e) ;;!
  mret affected.

(** ** Transactions ([transaction.rs]) *)

(** [validate_snapshot_limits]: saturating totals over the tables. *)
Definition snapshot_bytes_step (limits : TransactionLimits) (bytes : Z) (row : DynRow) : Result Z :=
  let bytes := sat_add bytes (row_logical_bytes row) in
  guard (bytes <=? tl_max_snapshot_bytes limits) "MEMORY-TX-004" ;;? Ok bytes.

Definition snapshot_step (limits : TransactionLimits) (totals : Z * Z) (e : string * MemoryTable) : Result (Z * Z) :=
  let rows := sat_add (fst totals) (zlen (mt_rows (snd e))) in
  guard (rows <=? tl_max_snapshot_rows limits) "MEMORY-TX-003" ;;?
  let? bytes := foldR (snapshot_bytes_step limits) (mt_rows (snd e)) (snd totals) in
  Ok (rows, bytes).

Definition validate_snapshot_limits (limits : TransactionLimits) (tables : Tables) : Result unit :=
  foldR (snapshot_step limits) tables (0, 0) ;;? Ok tt.

(** The transaction borrows the engine until it is committed, rolled back or
    dropped. *)
Record MemoryTransaction := mkMemoryTransaction {
  tx_engine : MemoryEngine; tx_working : Tables; tx_limits : TransactionLimits; tx_writes : nat
}.

Definition transaction_new (e : MemoryEngine) (limits : TransactionLimits) : Result MemoryTransaction :=
  validate_snapshot_limits limits (me_tables e) ;;?
  Ok (mkMemoryTransaction e (me_tables e) limits 0).

Definition begin_transaction_with_limits (isolation : IsolationLevel) (limits : TransactionLimits)
  : Mut MemoryEngine MemoryTransaction :=
  mlift (guard (match isolation with Serializable => true end) "MEMORY-TX-001") ;;!
  memory_validate ;;!
  mlift (guard (negb ((tl_max_snapshot_rows limits =? 0) || (tl_max_snapshot_bytes limits =? 0) ||
                      Nat.eqb (tl_max_writes limits) 0)) "MEMORY-TX-002") ;;!
  let! e := mget in
  mlift (transaction_new e limits).

Definition begin_transaction (isolation : IsolationLevel) : Mut MemoryEngine MemoryTransaction :=
  begin_transaction_with_limits isolation transaction_limits_default.

Definition set_working (t : MemoryTransaction) (working : Tables) (writes : nat) : MemoryTransaction :=
  mkMemoryTransaction (tx_engine t) working (tx_limits t) writes.

Definition tx_execute_write (r : WriteRequest) : Mut MemoryTransaction nat := fun t =>
  match guard (Nat.ltb (tx_writes t) (tl_max_writes (tx_limits t))) "MEMORY-TX-002" ;;?
        validate_write_request (me_capabilities (tx_engine t)) r with
  | Err d => (Err d, t)
  | Ok _ =>
      let '(outcome, working) := request_write r (validate_snapshot_limits (tx_limits t)) (tx_working t) in
      match outcome with
      | Err d => (Err d, set_working t working (tx_writes t))
      | Ok affected => (Ok affected, set_working t working (S (tx_writes t)))
      end
  end.

(** Both consume the transaction and leave the engine. *)
Definition tx_commit (t : MemoryTransaction) : Result unit * MemoryEngine :=
  match validate_snapshot_limits (tx_limits t) (tx_working t) ;;? validate_tables (tx_working t) with
  | Err d => (Err d, tx_engine t)
  | Ok _ => (Ok tt, mark_validated (set_tables (tx_engine t) (tx_working t) (me_validated (tx_engine t))))
  end.

Definition tx_rollback (t : MemoryTransaction) : Result unit * MemoryEngine := (Ok tt, tx_engine t).
End Memory.

(** ** Reachable engines *)
Section Reachable.
Context {F : Foreign} (version : string).

(** Tables are stored in order under the keys of their models. *)
Definition tables_ok (tables : Tables) : Prop :=
  bt_sorted tables = true /\ forall key table, bt_get key tables = Some table -> md_key (mt_model table) = key.

Definition engine_ok (e : MemoryEngine) : Prop :=
  tables_ok (me_tables e) /\ (me_validated e = true -> validate_tables (me_tables e) = Ok tt) /\
  me_capabilities e = memory_capabilities.

Inductive tx_step : MemoryTransaction -> MemoryTransaction -> Prop :=
| tx_step_write r t : tx_step t (snd (tx_execute_write r t)).

(** The public operations; a transaction occupies the engine from its opening
    to its commit or its abandonment. *)
Inductive engine_step : MemoryEngine -> MemoryEngine -> Prop :=
| step_clear e : engine_step e (memory_clear e)
| step_register definition e : engine_step e (snd (memory_register definition e))
| step_load (M : Type) (RM : RecordMut M) definition (data : list M) e : engine_step e (snd (memory_load definition data e))
| step_load_dynamic model rows e : engine_step e (snd (memory_load_dynamic model rows e))
| step_validate e : engine_step e (snd (memory_validate e))
| step_execute_plan plan parameters options e : engine_step e (snd (memory_execute_plan plan parameters options e))
| step_execute_write r e : engine_step e (snd (memory_execute_write r e))
| step_begin isolation limits e : engine_step e (snd (begin_transaction_with_limits isolation limits e))
| step_commit isolation limits e e1 t t' :
    begin_transaction_with_limits isolation limits e = (Ok t, e1) -> rtc tx_step t t' -> engine_step e (snd (tx_commit t'))
| step_rollback isolation limits e e1 t t' :
    begin_transaction_with_limits isolation limits e = (Ok t, e1) -> rtc tx_step t t' -> engine_step e (snd (tx_rollback t')).

Definition reachable (e : MemoryEngine) : Prop := rtc engine_step (memory_new version) e.

Lemma tables_ok_insert key table tables : tables_ok tables -> md_key (mt_model table) = key ->
  tables_ok (bt_insert key table tables).
Proof.
  intros [Hs Hk] E. split; [by apply bt_sorted_insert|]. intros key' table'. destruct (decide (key' = key)) as [->|Hne].
  - rewrite bt_get_insert_eq. by intros [= <-].
  - rewrite bt_get_insert_ne by done. apply Hk.
Qed.

Lemma tables_ok_register model : keeps tables_ok (register_definition model).
Proof.
  intros t H. unfold register_definition. destruct (bt_get (md_key model) t) as [existing|].
  - by destruct (same_semantics (mt_model existing) model).
  - by apply tables_ok_insert.
Qed.

Lemma tables_ok_add model rows c : keeps tables_ok (fun tables =>
  match bt_get (md_key model) tables with
  | Some _ => mlift (error c)
  | None => mput (bt_insert (md_key model) (mkMemoryTable model rows) tables)
  end tables).
Proof. intros t H. destruct (bt_get (md_key model) t); [done|]. by apply tables_ok_insert. Qed.

Lemma tables_ok_with_table {A} model (body : ModelDef -> Mut (list DynRow) A) : keeps tables_ok (with_table model body).
Proof.
  intros t H. unfold with_table. destruct (bt_get (md_key model) t) as [table|] eqn:E; [|done].
  destruct (same_semantics (mt_model table) model); [|done].
  destruct (body (mt_model table) (mt_rows table)) as [outcome rows]. apply tables_ok_insert; [done|].
  by apply (proj2 H) in E.
Qed.

Lemma tables_ok_write r validate : keeps tables_ok (request_write r validate).
Proof.
  intros t H. unfold request_write.
  destruct (apply_atomic_write (wr_elapsed r) (wr_limits r) (wr_parameters r) (wr_write r) validate t) as [[n|d] t'] eqn:E.
  - apply atomic_write_ok in E as [E _]. cbn [snd].
    enough (keeps tables_ok (apply_write (wr_elapsed r) (wr_limits r) (wr_parameters r) (wr_write r))) as K
      by (specialize (K t H); by rewrite E in K).
    unfold apply_write. apply keeps_mbind; [apply keeps_mlift|intros _].
    destruct (wr_write r);
      repeat (apply keeps_mbind; [try apply keeps_mlift; try apply tables_ok_register|intros _]); apply tables_ok_with_table.
  - by rewrite (atomic_write_restores _ _ _ _ _ _ _ _ (proj1 H) E).
Qed.

(** Loading and registering: a change invalidates, a failure changes nothing. *)
Lemma invalidating_ok operation : keeps tables_ok operation ->
  (forall tables d tables', operation tables = (Err d, tables') -> tables' = tables) ->
  keeps engine_ok (invalidating operation).
Proof.
  intros K Herr e (Ht & Hv & Hc). unfold invalidating. specialize (K (me_tables e) Ht).
  destruct (operation (me_tables e)) as [[[]|d] tables] eqn:E; cbn [snd] in *.
  - split_and!; done.
  - apply Herr in E as ->. by destruct e.
Qed.

Lemma mbind_lift_err {St A B} (r : Result A) (k : A -> Mut St B) s d s' :
  (forall a, k a s = (Err d, s') -> s' = s) -> (let! a := mlift r in k a) s = (Err d, s') -> s' = s.
Proof. intros Hk. unfold mbind, mlift. destruct r; [apply Hk|by intros [= _ <-]]. Qed.


Lemma register_ok definition : keeps engine_ok (memory_register definition).
Proof.
  apply invalidating_ok.
  - apply keeps_mbind; [apply keeps_mlift|apply tables_ok_register].
  - intros tables d tables'. apply mbind_lift_err. intros model. unfold register_definition.
    destruct (bt_get (md_key model) tables) as [t|]; [|done].
    destruct (same_semantics (mt_model t) model); [done|by intros [= _ <-]].
Qed.

Lemma load_dynamic_ok model rows : keeps engine_ok (memory_load_dynamic model rows).
Proof.
  apply invalidating_ok.
  - apply keeps_mbind; [apply keeps_mlift|intros _]. apply (tables_ok_add model rows).
  - intros tables d tables'. apply mbind_lift_err. intros _. rewrite mget_then.
    destruct (bt_get (md_key model) tables); [by intros [= _ <-]|done].
Qed.

Lemma load_ok {M} (RM : RecordMut M) definition (data : list M) : keeps engine_ok (memory_load definition data).
Proof.
  apply invalidating_ok.
  - repeat (apply keeps_mbind; [apply keeps_mlift|intros ?]). apply (tables_ok_add _ _ "MEMORY-STORE-001").
  - intros tables d tables'. do 4 (apply mbind_lift_err; intros ?). rewrite mget_then.
    destruct (bt_get _ tables); [by intros [= _ <-]|done].
Qed.

Lemma validate_ok : keeps engine_ok memory_validate.
Proof.
  intros e H. unfold memory_validate. destruct (me_validated e); [done|]. pose proof H as (Ht & _ & Hc).
  destruct (validate_tables (me_tables e)) as [[]|] eqn:E; [|done]. split_and!; done.
Qed.

(** A successful validation leaves the engine marked; a failed one as it was. *)
Lemma validate_outcome e : engine_ok e ->
  memory_validate e =
  match validate_tables (me_tables e) with Ok _ => (Ok tt, mark_validated e) | Err d => (Err d, e) end.
Proof.
  intros (_ & Hv & _). unfold memory_validate. destruct e as [i c t []]; cbn [me_validated me_tables] in *; [|done].
  by rewrite Hv.
Qed.

Lemma execute_plan_ok plan parameters options : keeps engine_ok (memory_execute_plan plan parameters options).
Proof.
  unfold memory_execute_plan. apply keeps_mbind; [apply validate_ok|intros _].
  apply keeps_mbind; [apply keeps_mget|intros e]. repeat (apply keeps_mbind; [apply keeps_mlift|intros ?]). apply keeps_mlift.
Qed.

(** The tail of [execute_write], after the validations. *)
Lemma execute_write_tail r e : engine_ok e -> me_validated e = true ->
  forall outcome tables, request_write r validate_tables (me_tables e) = (outcome, tables) ->
  (match outcome with Ok _ => validate_tables tables = Ok tt | Err _ => tables = me_tables e end) /\
  engine_ok (set_tables e tables true).
Proof.
  intros (Ht & Hv & Hc) Hval outcome tables E.
  assert (K : tables_ok tables) by (pose proof (tables_ok_write r validate_tables _ Ht) as K; by rewrite E in K).
  destruct outcome as [n|d].
  - apply atomic_write_ok in E as [_ E]. split; [done|]. by split_and!.
  - apply atomic_write_restores in E as ->; [|by apply Ht]. split; [done|]. split_and!; [done| |done]. intros _. by apply Hv.
Qed.

Lemma execute_write_outcome r e : engine_ok e ->
  memory_execute_write r e =
  match validate_write_request memory_capabilities r ;;? validate_tables (me_tables e) with
  | Err d => (Err d, e)
  | Ok _ => let '(outcome, tables) := request_write r validate_tables (me_tables e) in (outcome, set_tables e tables true)
  end.
Proof.
  intros H. pose proof H as (_ & _ & Hc). unfold memory_execute_write. rewrite mget_then, Hc.
  unfold mbind at 1, mlift at 1. destruct (validate_write_request memory_capabilities r) as [[]|d]; cbn [rbind]; [|done].
  unfold mbind at 1. rewrite validate_outcome by done.
  destruct (validate_tables (me_tables e)) as [[]|d]; [|done]. rewrite mget_then. cbn [mark_validated set_tables me_tables].
  destruct (request_write r validate_tables (me_tables e)) as [[n|d] tables]; done.
Qed.

Lemma execute_write_ok r : keeps engine_ok (memory_execute_write r).
Proof.
  intros e H. rewrite execute_write_outcome by done.
  destruct (validate_write_request memory_capabilities r) as [[]|d]; cbn [rbind]; [|done].
  destruct (validate_tables (me_tables e)) as [[]|d] eqn:Ev; [|done].
  destruct (request_write r validate_tables (me_tables e)) as [outcome tables] eqn:E. cbn [snd].
  assert (Hm : engine_ok (mark_validated e)) by (destruct H as (? & ? & ?); by split_and!).
  apply (execute_write_tail r (mark_validated e) Hm eq_refl outcome tables E).
Qed.

(** ** Transactions *)
Lemma begin_outcome isolation limits e : engine_ok e ->
  begin_transaction_with_limits isolation limits e =
  match validate_tables (me_tables e) with
  | Err d => (Err d, e)
  | Ok _ =>
      (guard (negb ((tl_max_snapshot_rows limits =? 0) || (tl_max_snapshot_bytes limits =? 0) ||
                    Nat.eqb (tl_max_writes limits) 0)) "MEMORY-TX-002" ;;? transaction_new (mark_validated e) limits,
       mark_validated e)
  end.
Proof.
  intros H. unfold begin_transaction_with_limits. destruct isolation. unfold mbind at 1, mlift at 1. cbn [guard].
  unfold mbind at 1. rewrite validate_outcome by done. destruct (validate_tables (me_tables e)) as [[]|d]; [|done].
  unfold mbind at 1, mlift at 1. destruct (guard _ _) as [[]|d]; cbn [rbind]; [|done]. by rewrite mget_then.
Qed.

Lemma mark_ok e : engine_ok e -> validate_tables (me_tables e) = Ok tt -> engine_ok (mark_validated e).
Proof. intros (? & ? & ?) E. by split_and!. Qed.

Lemma begin_ok isolation limits : keeps engine_ok (begin_transaction_with_limits isolation limits).
Proof.
  intros e H. rewrite begin_outcome by done. destruct (validate_tables (me_tables e)) as [[]|] eqn:E; [|done].
  by apply mark_ok.
Qed.

Definition tx_ok (t : MemoryTransaction) : Prop := engine_ok (tx_engine t) /\ tables_ok (tx_working t).

Lemma begin_tx isolation limits e t e1 : engine_ok e ->
  begin_transaction_with_limits isolation limits e = (Ok t, e1) ->
  validate_tables (me_tables e) = Ok tt /\ e1 = mark_validated e /\ t = mkMemoryTransaction e1 (me_tables e) limits 0 /\
  validate_snapshot_limits limits (me_tables e) = Ok tt /\ tx_ok t /\ (0 < tl_max_writes limits)%nat.
Proof.
  intros H. rewrite begin_outcome by done. destruct (validate_tables (me_tables e)) as [[]|] eqn:E; [|done].
  intros [= [Hg [Hs [= <-]]%check_then]%check_then <-]. split; [done|]. split; [done|]. split; [done|]. split; [done|].
  split; [split; [by apply mark_ok|apply H]|].
  apply guard_ok, negb_true_iff in Hg. apply orb_false_iff in Hg as [_ Hg]. apply Nat.eqb_neq in Hg. lia.
Qed.

Lemma tx_execute_outcome r t : tx_ok t ->
  tx_execute_write r t =
  match guard (Nat.ltb (tx_writes t) (tl_max_writes (tx_limits t))) "MEMORY-TX-002" ;;?
        validate_write_request memory_capabilities r with
  | Err d => (Err d, t)
  | Ok _ =>
      match request_write r (validate_snapshot_limits (tx_limits t)) (tx_working t) with
      | (Ok n, working) => (Ok n, set_working t working (S (tx_writes t)))
      | (Err d, _) => (Err d, t)
      end
  end.
Proof.
  intros [(_ & _ & Hc) [Hs _]]. unfold tx_execute_write. rewrite Hc.
  destruct (guard _ _ ;;? validate_write_request memory_capabilities r) as [[]|d]; [|done].
  destruct (request_write r _ (tx_working t)) as [[n|d] working] eqn:E; [done|].
  apply atomic_write_restores in E as ->; [|done]. by destruct t.
Qed.

Lemma tx_execute_ok r : keeps tx_ok (tx_execute_write r).
Proof.
  intros t H. rewrite tx_execute_outcome by done. destruct (guard _ _ ;;? _) as [[]|]; [|done].
  pose proof (tables_ok_write r (validate_snapshot_limits (tx_limits t)) _ (proj2 H)) as K.
  destruct (request_write r _ (tx_working t)) as [[n|d] working]; [|done]. split; [apply H|exact K].
Qed.

Lemma tx_steps_ok t t' : rtc tx_step t t' -> tx_ok t -> tx_ok t' /\ tx_engine t' = tx_engine t.
Proof.
  induction 1 as [|t t1 t' [r t0] _ IH]; [done|]. intros H.
  destruct (IH (tx_execute_ok r t0 H)) as [H' ->]. split; [done|].
  rewrite tx_execute_outcome by done. destruct (guard _ _ ;;? _) as [[]|]; [|done].
  by destruct (request_write r _ (tx_working t0)) as [[n|d] working].
Qed.

Lemma commit_outcome t :
  tx_commit t =
  match validate_snapshot_limits (tx_limits t) (tx_working t) ;;? validate_tables (tx_working t) with
  | Err d => (Err d, tx_engine t)
  | Ok _ => (Ok tt, set_tables (tx_engine t) (tx_working t) true)
  end.
Proof. done. Qed.

Lemma commit_ok t : tx_ok t -> engine_ok (snd (tx_commit t)).
Proof.
  intros [(Ht & Hv & Hc) Hw]. rewrite commit_outcome.
  destruct (validate_snapshot_limits (tx_limits t) (tx_working t) ;;? validate_tables (tx_working t)) as [[]|d] eqn:E;
    [|by split_and!]. apply check_then in E as [_ E]. by split_and!.
Qed.

Lemma new_ok : engine_ok (memory_new version).
Proof. split_and!; [split; [done|by intros ? ? ?]|done|done]. Qed.

Lemma engine_step_ok e e' : engine_step e e' -> engine_ok e -> engine_ok e'.
Proof.
  destruct 1 as [e|def e|M RM def data e|m rows e|e|plan ps options e|r e|i l e|i l e e1 t t' Hb Ht|i l e e1 t t' Hb Ht];
    intros H.
  - destruct H as (_ & _ & Hc). split_and!; [split; [done|by intros ? ? ?]|done|done].
  - by apply register_ok.
  - by apply load_ok.
  - by apply load_dynamic_ok.
  - by apply validate_ok.
  - by apply execute_plan_ok.
  - by apply execute_write_ok.
  - by apply begin_ok.
  - apply begin_tx in Hb as (_ & _ & _ & _ & Hb & _); [|done]. by apply commit_ok, (tx_steps_ok t t').
  - apply begin_tx in Hb as (_ & _ & _ & _ & Hb & _); [|done]. by apply (tx_steps_ok t t').
Qed.

Lemma reachable_ok e : reachable e -> engine_ok e.
Proof.
  unfold reachable. intros H. pose proof new_ok as Hn. revert Hn. generalize (memory_new version), H. clear H.
  induction 1 as [|e0 e1 e Hs _ IH]; [done|]. intros H. apply IH. by eapply engine_step_ok.
Qed.

(** In every engine reachable through the public operations, transactions
    included, tables are stored under the keys of their models, and an engine
    marked validated holds tables that satisfy every local and cross-model
    constraint, so skipping a repeated validation is sound. *)
Theorem reachable_engines_validated e : reachable e ->
  tables_ok (me_tables e) /\ (me_validated e = true -> validate_tables (me_tables e) = Ok tt).
Proof. intros (Ht & Hv & _)%reachable_ok. done. Qed.

(** C11: one write on a reachable engine. It succeeds exactly when the request
    is acceptable, the stored tables are valid, the write's own effect is
    defined and within its limits, and the resulting tables are valid; then
    those are the engine's tables. When it fails, at whatever point, the
    tables are as they were. *)
Theorem execute_write_exact r e : reachable e -> machine_write_limits (wr_limits r) ->
  (forall n e', memory_execute_write r e = (Ok n, e') <->
     validate_write_request memory_capabilities r = Ok tt /\ validate_tables (me_tables e) = Ok tt /\
     exists tables',
       written (wr_elapsed r) (wr_limits r) (wr_parameters r) (wr_write r) (me_tables e) n tables' /\
       validate_tables tables' = Ok tt /\ e' = set_tables e tables' true) /\
  (forall d e', memory_execute_write r e = (Err d, e') -> me_tables e' = me_tables e).
Proof.
  intros H%reachable_ok Hm. pose proof H as ((Hs & _) & _ & _). rewrite execute_write_outcome by done. split.
  - intros n e'. destruct (validate_write_request memory_capabilities r) as [[]|d]; cbn [rbind];
      [|split; [done|by intros ([=] & _)]].
    destruct (validate_tables (me_tables e)) as [[]|d]; [|split; [done|by intros (_ & [=] & _)]].
    pose proof (fun n tables' => apply_write_ok (wr_elapsed r) (wr_limits r) (wr_parameters r) (wr_write r) (me_tables e) n tables' Hm) as Hw.
    pose proof (fun n tables' => atomic_write_ok (wr_elapsed r) (wr_limits r) (wr_parameters r) (wr_write r) validate_tables (me_tables e) n tables') as Ha.
    fold (request_write r validate_tables) in Ha.
    destruct (request_write r validate_tables (me_tables e)) as [outcome tables]. split.
    + intros [= -> <-]. destruct (proj1 (Ha n tables) eq_refl) as [H1%Hw H2]. split_and!; [done..|]. by exists tables.
    + intros (_ & _ & tables' & H1%Hw & H2 & ->). by injection (proj2 (Ha n tables') (conj H1 H2)) as -> ->.
  - intros d e'. destruct (validate_write_request memory_capabilities r ;;? validate_tables (me_tables e)) as [[]|d'];
      [|by intros [= _ <-]].
    destruct (request_write r validate_tables (me_tables e)) as [outcome tables] eqn:E. intros [= -> <-].
    by apply atomic_write_restores in E as ->.
Qed.

(** The successful requests of a run inside a transaction, in order. *)
Inductive tx_run : MemoryTransaction -> list WriteRequest -> MemoryTransaction -> Prop :=
| run_done t : tx_run t [] t
| run_ok r n t t1 rs t2 : tx_execute_write r t = (Ok n, t1) -> tx_run t1 rs t2 -> tx_run t (r :: rs) t2
| run_failed r d t t1 rs t2 : tx_execute_write r t = (Err d, t1) -> tx_run t1 rs t2 -> tx_run t rs t2.

(** Requests applied one after another. *)
Inductive serial : Tables -> list WriteRequest -> Tables -> Prop :=
| serial_nil tables : serial tables [] tables
| serial_cons r n tables tables1 rs tables2 :
    written (wr_elapsed r) (wr_limits r) (wr_parameters r) (wr_write r) tables n tables1 ->
    serial tables1 rs tables2 -> serial tables (r :: rs) tables2.

(** What an open transaction keeps besides [tx_ok]. *)
Definition tx_bounded (t : MemoryTransaction) : Prop :=
  (tx_writes t <= tl_max_writes (tx_limits t))%nat /\ validate_snapshot_limits (tx_limits t) (tx_working t) = Ok tt.

Lemma tx_run_serial t rs t' : tx_run t rs t' -> tx_ok t -> tx_bounded t ->
  Forall (fun r => machine_write_limits (wr_limits r)) rs ->
  tx_engine t' = tx_engine t /\ tx_limits t' = tx_limits t /\ tx_writes t' = (tx_writes t + length rs)%nat /\
  tx_bounded t' /\ serial (tx_working t) rs (tx_working t').
Proof.
  induction 1 as [t|r n t t1 rs t' E _ IH|r d t t1 rs t' E _ IH]; intros Hok Hb Hm.
  { split_and!; [done|done|simpl; lia|done|constructor]. }
  all: pose proof (tx_execute_ok r t Hok) as Hok1; rewrite E in Hok1; cbn [snd] in Hok1;
    rewrite tx_execute_outcome in E by done.
  - apply Forall_cons_1 in Hm as [Hm Hms].
    destruct (guard _ _ ;;? _) as [[]|] eqn:Hg; [|done]. apply check_then in Hg as [Hg%guard_ok%Nat.ltb_lt _].
    destruct (request_write r _ (tx_working t)) as [[m|] working] eqn:Ew; [|done]. injection E as -> <-.
    apply atomic_write_ok in Ew as [Ew%apply_write_ok Hs]; [|done].
    destruct IH as (-> & -> & -> & Hb' & Hser); [done| |done|].
    { split; [simpl; lia|done]. }
    split_and!; [done|done|simpl; lia|done|]. by eapply serial_cons.
  - assert (t1 = t) as ->; [|by apply IH]. destruct (guard _ _ ;;? _) as [[]|]; [|by injection E as _ <-].
    destruct (request_write r _ (tx_working t)) as [[m|] working]; [done|]. by injection E as _ <-.
Qed.

(** C12: a transaction works on a private copy and is serializable: whatever
    requests succeed or fail inside it, the engine keeps its tables until the
    commit; the working tables are the successful requests applied one after
    another to the tables the engine had, at most as many as allowed; the
    commit publishes them exactly when they satisfy every constraint, and
    otherwise, like a rollback, leaves the engine as it was. *)
Theorem transaction_serializable isolation limits e e1 t rs t' : reachable e ->
  begin_transaction_with_limits isolation limits e = (Ok t, e1) -> tx_run t rs t' ->
  Forall (fun r => machine_write_limits (wr_limits r)) rs ->
  me_tables e1 = me_tables e /\ tx_engine t' = e1 /\ (length rs <= tl_max_writes limits)%nat /\
  serial (me_tables e) rs (tx_working t') /\
  (validate_tables (tx_working t') = Ok tt -> tx_commit t' = (Ok tt, set_tables e1 (tx_working t') true)) /\
  (forall d, validate_tables (tx_working t') = Err d -> tx_commit t' = (Err d, e1)) /\
  tx_rollback t' = (Ok tt, e1).
Proof.
  intros H%reachable_ok (_ & -> & -> & Hs & Hok & Hpos)%begin_tx Hrun Hm; [|done].
  apply tx_run_serial in Hrun as (Ee & El & Ew & [Hw Hb] & Hser); [|done|split; [simpl; lia|done]|done].
  cbn [tx_engine tx_limits tx_writes tx_working] in *. rewrite El in *. rewrite Ew in Hw.
  split_and!; [done|done|lia|done| | |].
  - intros Hv. by rewrite commit_outcome, El, Hb, Hv, Ee.
  - intros d Hv. by rewrite commit_outcome, El, Hb, Hv, Ee.
  - unfold tx_rollback. by rewrite Ee.
Qed.

(** ** Plans *)
Lemma memory_support e n : me_capabilities e = memory_capabilities -> support_for_node e n = ExactNative.
Proof.
  intros Hc. cbn [support_for_node memory_engine]. unfold default_support_for_node, capability_support_for_node. rewrite Hc.
  by destruct (node_requires_existential_support n), n.
Qed.

Lemma execute_plan_outcome plan parameters options e : reachable e ->
  backward (plan_nodes plan) -> Z.of_nat (length (plan_nodes plan)) <= u32_max + 1 ->
  policy_valid (eo_placement options) ->
  memory_execute_plan plan parameters options e =
  match validate_tables (me_tables e) with
  | Ok _ => (execute (me_tables e) plan parameters (eo_limits options) (eo_batch_rows options), mark_validated e)
  | Err d => (Err d, e)
  end.
Proof.
  intros H%reachable_ok B L Hy. unfold memory_execute_plan. unfold mbind at 1. rewrite validate_outcome by done.
  destruct (validate_tables (me_tables e)) as [[]|d]; [|done]. rewrite mget_then.
  destruct (supported_placement plan (eo_placement options) (support_for_node (mark_validated e)) B L) as (p & Hp & _ & Hf).
  - apply Forall_forall. intros n _. rewrite memory_support; [done|]. apply H.
  - done.
  - unfold mbind at 1, mlift at 1. unfold analyze_engine_placement. rewrite Hp. unfold mbind, mlift. by rewrite Hf.
Qed.
(** A reachable engine executes any plan whose references point backward
    entirely by itself, under every valid placement policy: when its tables
    are valid the outcome is the executor's on those tables, and otherwise
    the validation's; executing never changes the tables. *)
Theorem memory_execute_plan_exact plan parameters options e : reachable e ->
  backward (plan_nodes plan) -> Z.of_nat (length (plan_nodes plan)) <= u32_max + 1 ->
  policy_valid (eo_placement options) ->
  memory_execute_plan plan parameters options e =
  match validate_tables (me_tables e) with
  | Ok _ => (execute (me_tables e) plan parameters (eo_limits options) (eo_batch_rows options), mark_validated e)
  | Err d => (Err d, e)
  end.
Proof. apply execute_plan_outcome. Qed.
End Reachable.

(** ** An engine with one table *)
Definition sample_engine : MemoryEngine (F:=sample_foreign) :=
  snd (memory_register (Ok sample_model) (memory_new "0.1.0")).
Definition sample_insert (id : Z) : WriteRequest (F:=sample_foreign) :=
  mkWriteRequest (LInsert sample_model (mkDynRow sample_model [Null; DValue (VInt id)]) []) parameters_new
    write_limits_default (fun _ => 0).
Definition sample_filled : MemoryEngine (F:=sample_foreign) := snd (memory_execute_write (sample_insert 7) sample_engine).

Example sample_insert_ok : fst (memory_execute_write (sample_insert 7) sample_engine) = Ok 1%nat.
Proof. vm_compute. reflexivity. Qed.

(** The identity is taken: the second insert fails. *)
Example sample_insert_again :
  fst (memory_execute_write (sample_insert 7) sample_filled) = error "DATASET-IDENTITY-001".
Proof. vm_compute. reflexivity. Qed.

Lemma outcome_of {St A} (m : Mut St A) s r : fst (m s) = r -> m s = (r, snd (m s)).
Proof. intros <-. apply surjective_pairing. Qed.

Lemma sample_engine_reachable : reachable "0.1.0" sample_engine.
Proof. apply rtc_once, step_register. Qed.

Lemma sample_filled_reachable : reachable "0.1.0" sample_filled.
Proof. eapply rtc_r; [apply sample_engine_reachable|apply step_execute_write]. Qed.

Lemma reachable_engines_validated_witness :
  me_validated sample_filled = true /\ validate_tables (me_tables sample_filled) = Ok tt.
Proof.
  assert (H : me_validated sample_filled = true) by (vm_compute; reflexivity). split; [exact H|].
  apply (reachable_engines_validated "0.1.0" sample_filled sample_filled_reachable). exact H.
Defined.

Lemma execute_write_exact_witness :
  (exists tables', written (fun _ => 0) write_limits_default parameters_new (wr_write (sample_insert 7))
     (me_tables sample_engine) 1 tables') /\
  me_tables (snd (memory_execute_write (sample_insert 7) sample_filled)) = me_tables sample_filled.
Proof.
  split.
  - destruct (execute_write_exact "0.1.0" (sample_insert 7) sample_engine sample_engine_reachable) as [H _]; [vm_compute; discriminate|].
    pose proof (outcome_of _ _ _ sample_insert_ok) as E. apply H in E as (_ & _ & tables' & Hw & _). exists tables'. exact Hw.
  - destruct (execute_write_exact "0.1.0" (sample_insert 7) sample_filled sample_filled_reachable) as [_ H]; [vm_compute; discriminate|].
    exact (H _ _ (outcome_of _ _ _ sample_insert_again)).
Defined.

(** The transaction opened on the filled engine. *)
Definition sample_begin := begin_transaction_with_limits (F:=sample_foreign) Serializable transaction_limits_default sample_filled.
Definition sample_transaction : MemoryTransaction (F:=sample_foreign) :=
  match fst sample_begin with Ok t => t | Err _ => mkMemoryTransaction sample_filled [] transaction_limits_default 0 end.

Lemma sample_begin_ok : sample_begin = (Ok sample_transaction, snd sample_begin).
Proof.
  assert (H : is_ok (fst sample_begin) = true) by (vm_compute; reflexivity).
  unfold sample_transaction. destruct sample_begin as [[t|d] e1]; [reflexivity|discriminate H].
Qed.

Definition sample_transaction_after (id : Z) (t : MemoryTransaction (F:=sample_foreign)) :=
  snd (tx_execute_write (sample_insert id) t).

Lemma transaction_serializable_witness :
  tx_rollback (sample_transaction_after 7 (sample_transaction_after 8 sample_transaction)) =
    (Ok tt, snd sample_begin) /\
  exists tables', serial (me_tables sample_filled) [sample_insert 8] tables' /\
    validate_tables tables' = Ok tt.
Proof.
  assert (Hrun : tx_run sample_transaction [sample_insert 8] (sample_transaction_after 7 (sample_transaction_after 8 sample_transaction))).
  { eapply (run_ok _ 1%nat); [apply outcome_of; vm_compute; reflexivity|].
    eapply (run_failed (sample_insert 7) (mkDiagnostic "DATASET-IDENTITY-001")); [apply outcome_of; vm_compute; reflexivity|].
    apply run_done. }
  destruct (transaction_serializable "0.1.0" Serializable transaction_limits_default sample_filled
    (snd sample_begin) sample_transaction [sample_insert 8] _ sample_filled_reachable sample_begin_ok Hrun)
    as (_ & _ & _ & Hs & _ & _ & Hr).
  - constructor; [vm_compute; discriminate|constructor].
  - split; [exact Hr|]. eexists. split; [exact Hs|]. vm_compute. reflexivity.
Defined.

Definition sample_options : ExecutionOptions := mkExecutionOptions (mkExecutionLimits (Some 10) None 16 16 1) RemoteOnly 8.

Lemma memory_execute_plan_exact_witness :
  fst (memory_execute_plan placement_sample parameters_new sample_options sample_filled) =
  Ok (mkMemoryStream (OutModel sample_model) [RModel (mkDynRow sample_model [Null; DValue (VInt 7)])] 8 false).
Proof.
  rewrite (memory_execute_plan_exact "0.1.0" placement_sample parameters_new sample_options sample_filled sample_filled_reachable).
  - reflexivity.
  - intros [|[|[|[|i]]]] n j H Hj; try discriminate H; injection H as <-;
      repeat (apply elem_of_cons in Hj as [->|Hj]); try lia; by apply not_elem_of_nil in Hj.
  - vm_compute. discriminate.
  - exact I.
Defined.
