(* ===== verification/Pipeline.v ===== *)
(** * Pipelines as authored ([crates/dol-core/src/pipeline], [analytics])

    The directed acyclic graph of pipeline nodes, the operations that build
    it, its traversals, and the binding-independent identity of a pipeline.
    The graph is an arena: an [Arc<PipelineNode>] is the index of its node, so
    that sharing, and the pointer-keyed tables of the code, are visible. *)
From Stdlib Require Import ZArith Lia.
From stdpp Require Import gmap.
From S2P Require Import Prelude Mutation Foreign Truth BTree Types Values Fingerprint Model Expr ExprValidate ExprNormalize ExprPrepare Plan.

Local Open Scope Z_scope.

(** The subquery of an existential expression: a pipeline node with its
    authoring identity.  Nodes are immutable, so the identity computed when
    the expression is made is the one computed on any later demand. *)
#[export] Instance pipeline_subqueries : Subqueries := {|
  Subquery := nat * Result Fingerprint;
  subquery_fingerprint := snd
|}.

(** [u64::type_def()] *)
Definition uint64_type : TypeDef := scalar "dol/uint64" 1 (RUInt 64).

Inductive AggregateInputMode := AggregateNonNull | AggregatePresent.
Inductive WindowInputMode := WindowNonNull | WindowPresent.

Section Authoring.
Context {F : Foreign}.

(** ** Projections ([projection.rs]) *)
Record ProjectionSpec := mkProjectionSpec {
  ps_kind : ProjectionKind;
  ps_expressions : list ExpressionSpec;
  ps_names : list string;
  ps_ty : TypeDef
}.

Definition projection_value (e : ExpressionSpec) : ProjectionSpec := mkProjectionSpec ProjectValue [e] [] (spec_ty e).
Definition projection_tuple (es : list ExpressionSpec) : ProjectionSpec :=
  mkProjectionSpec ProjectTuple es [] (tuple (map spec_ty es)).

(** [RecordProjection::new], with the fields and the type of the record. *)
Definition record_projection (fields : list RecordField) (ty : TypeDef) (es : list ExpressionSpec) : ProjectionSpec :=
  mkProjectionSpec ProjectRecord es (map field_name fields) ty.

(** ** Aggregates ([analytics/mod.rs]).  [Expr::type_def] is the type of the
    expression's node. *)
Record AggregateSpec := mkAggregateSpec {
  ag_kind : AggregateKind;
  ag_input : option ExpressionSpec;
  ag_input_mode : AggregateInputMode;
  ag_ty : TypeDef
}.

Record AggregateSelectionSpec := mkAggregateSelectionSpec {
  as_kind : AggregateSelectionKind;
  as_aggregates : list AggregateSpec;
  as_ty : TypeDef
}.

Definition value_aggregate (kind : AggregateKind) (mode : AggregateInputMode) (e : ExpressionSpec) : AggregateSpec :=
  mkAggregateSpec kind (Some e) mode (nullable (e_ty (spec_node e))).

Definition agg_count : AggregateSpec := mkAggregateSpec CountRows None AggregateNonNull uint64_type.
Definition agg_count_present (e : ExpressionSpec) : AggregateSpec :=
  mkAggregateSpec CountPresent (Some e) AggregatePresent uint64_type.
Definition present_value_aggregate (e : ExpressionSpec) (kind : AggregateKind) : AggregateSpec :=
  value_aggregate kind AggregatePresent e.
Definition agg_sum := value_aggregate AggSum AggregateNonNull.
Definition agg_min := value_aggregate AggMin AggregateNonNull.
Definition agg_max := value_aggregate AggMax AggregateNonNull.
Definition agg_sum_present (e : ExpressionSpec) := present_value_aggregate e AggSum.
Definition agg_min_present (e : ExpressionSpec) := present_value_aggregate e AggMin.
Definition agg_max_present (e : ExpressionSpec) := present_value_aggregate e AggMax.

Definition aggregate_one (a : AggregateSpec) : AggregateSelectionSpec :=
  mkAggregateSelectionSpec SelectValue [a] (ag_ty a).
Definition aggregate_tuple (l : list AggregateSpec) : AggregateSelectionSpec :=
  mkAggregateSelectionSpec SelectTuple l (tuple (map ag_ty l)).

(** ** Windows ([window.rs]) *)
Record WindowOrderSpec := mkWindowOrderSpec { wo_expression : ExpressionSpec; wo_direction : SortDirection }.

Record WindowSpec := mkWindowSpec {
  ws_kind : WindowFunctionKind;
  ws_input : option ExpressionSpec;
  ws_input_mode : WindowInputMode;
  ws_partition : option ProjectionSpec;
  ws_order : list WindowOrderSpec;
  ws_frame : option RowsFrame;
  ws_ty : TypeDef
}.

Definition partition_by (w : WindowSpec) (keys : ProjectionSpec) : WindowSpec :=
  mkWindowSpec (ws_kind w) (ws_input w) (ws_input_mode w) (Some keys) (ws_order w) (ws_frame w) (ws_ty w).
Definition window_order (w : WindowSpec) (e : ExpressionSpec) (d : SortDirection) : WindowSpec :=
  mkWindowSpec (ws_kind w) (ws_input w) (ws_input_mode w) (ws_partition w)
    (ws_order w ++ [mkWindowOrderSpec e d]) (ws_frame w) (ws_ty w).
Definition window_rows (w : WindowSpec) (frame : RowsFrame) : WindowSpec :=
  mkWindowSpec (ws_kind w) (ws_input w) (ws_input_mode w) (ws_partition w) (ws_order w) (Some frame) (ws_ty w).

Definition ranking (kind : WindowFunctionKind) : WindowSpec :=
  mkWindowSpec kind None WindowNonNull None [] None uint64_type.
Definition window_sum_with (mode : WindowInputMode) (e : ExpressionSpec) : WindowSpec :=
  mkWindowSpec WindowSum (Some e) mode None [] None (nullable (e_ty (spec_node e))).
Definition window_sum := window_sum_with WindowNonNull.
Definition window_sum_present := window_sum_with WindowPresent.

(** ** Nodes ([mod.rs]) *)
Record ModelSource := mkModelSource { src_resolve : Result ModelDef; src_alias : option string }.

Inductive PipelineKind :=
| KSource (source : ModelSource)
| KFilter (input : nat) (condition : ExpressionSpec)
| KProject (input : nat) (projection : ProjectionSpec)
| KAggregate (input : nat) (groups : option ProjectionSpec) (aggregates : AggregateSelectionSpec)
| KUnnest (input : nat)
| KWindow (input : nat) (window : WindowSpec)
| KSort (input : nat) (expression : ExpressionSpec) (direction : SortDirection)
| KDistinct (input : nat)
| KSlice (input : nat) (offset : Z) (limit : option Z)
| KJoin (l r : nat) (kind : JoinKind) (condition : option ExpressionSpec)
| KSet (l r : nat) (operator : SetOperator).

Definition push_structural_inputs (k : PipelineKind) : list nat :=
  match k with
  | KSource _ => []
  | KFilter i _ | KProject i _ | KAggregate i _ _ | KUnnest i | KWindow i _ | KSort i _ _ | KDistinct i
  | KSlice i _ _ => [i]
  | KJoin l r _ _ | KSet l r _ => [r; l]
  end.

(** [push_pipeline_inputs] ([expr/existential.rs]): the subqueries of an
    expression from left to right, by a stack loop over its nodes. *)
Fixpoint subquery_loop (fuel : nat) (stack : list ExprNode) (output : list Subquery) : list Subquery :=
  match fuel with
  | O => output
  | S fuel' =>
      match stack with
      | [] => output
      | n :: rest =>
          match e_kind n with
          | EExists q => subquery_loop fuel' rest (output ++ [q])
          | _ => subquery_loop fuel' (expr_children n ++ rest) output
          end
      end
  end.

Definition spec_subqueries (e : ExpressionSpec) : list Subquery :=
  subquery_loop (expr_size (spec_node e)) [spec_node e] [].
Definition push_pipeline_inputs (e : ExpressionSpec) : list nat := map fst (spec_subqueries e).

Definition push_all_inputs (k : PipelineKind) : list nat :=
  push_structural_inputs k ++ match k with KFilter _ condition => push_pipeline_inputs condition | _ => [] end.

(** A node and its [OnceLock] for the plan under default limits. *)
Record PipelineNode := mkPipelineNode { nd_kind : PipelineKind; nd_default_plan : option LogicalPlan }.
Notation Pool := (list PipelineNode).

Definition kinds (p : Pool) : list PipelineKind := map nd_kind p.

(** [PipelineNode::new] *)
Definition node_new (p : Pool) (k : PipelineKind) : nat * Pool := (length p, p ++ [mkPipelineNode k None]).

(** ** Traversals.  A handle is always in range; what the graph functions do
    on others is immaterial. *)
Definition structural_inputs (ks : list PipelineKind) (node : nat) : list nat :=
  match ks !! node with Some k => push_structural_inputs k | None => [] end.
Definition all_inputs (ks : list PipelineKind) (node : nat) : list nat :=
  match ks !! node with Some k => push_all_inputs k | None => [] end.

Fixpoint stage_loop (ks : list PipelineKind) (fuel : nat) (stack : list nat) (seen : gset nat) : gset nat :=
  match fuel with
  | O => seen
  | S fuel' =>
      match stack with
      | [] => seen
      | node :: rest =>
          if decide (node ∈ seen) then stage_loop ks fuel' rest seen
          else stage_loop ks fuel' (rev (all_inputs ks node) ++ rest) ({[node]} ∪ seen)
      end
  end.

(** Every node is expanded once, and every input is pushed by its user. *)
Definition stage_fuel (ks : list PipelineKind) : nat := S (list_sum (map (fun k => S (length (push_all_inputs k))) ks)).
Definition stage_count (ks : list PipelineKind) (root : nat) : nat := size (stage_loop ks (stage_fuel ks) [root] ∅).

(** The nodes below a root, inputs first; a stack entry says whether its
    inputs have been pushed. *)
Fixpoint collect_loop (ks : list PipelineKind) (max_nodes fuel : nat) (stack : list (nat * bool)) (seen : gset nat)
  (order : list nat) : Result (list nat) :=
  match fuel with
  | O => Ok order
  | S fuel' =>
      match stack with
      | [] => Ok order
      | (node, true) :: rest => collect_loop ks max_nodes fuel' rest seen (order ++ [node])
      | (node, false) :: rest =>
          if decide (node ∈ seen) then collect_loop ks max_nodes fuel' rest seen order
          else
            let seen := {[node]} ∪ seen in
            guard (Nat.leb (size seen) max_nodes) "PIPELINE-LIMIT-002" ;;?
            collect_loop ks max_nodes fuel'
              (map (fun i => (i, false)) (rev (structural_inputs ks node)) ++ (node, true) :: rest) seen order
      end
  end.

(** Each node is popped at most three times: as an input of one or two users
    and once expanded. *)
Definition collect_nodes (ks : list PipelineKind) (root max_nodes : nat) : Result (list nat) :=
  collect_loop ks max_nodes (S (3 * length ks)) [(root, false)] ∅ [].

(** ** Authoring identity ([authoring_identity.rs]) *)

(** [fingerprint_expression_spec] ([expr/mod.rs]), without its memo. *)
Definition fingerprint_expression_spec (e : ExpressionSpec) : Result Fingerprint :=
  let limits := default_expression_limits in
  let? _ := check_expression_limits (spec_node e) limits in
  validate_expression_node (spec_node e) limits ;;?
  let? normalized := normalize_node (spec_node e) in
  validate_expression_node normalized limits ;;?
  guard (type_eqb (e_ty normalized) (spec_ty e)) "EXPR-TYPE-001" ;;?
  fingerprint_node normalized.

Definition require_fingerprint (fingerprints : gmap nat Fingerprint) (input : nat) : Result Fingerprint :=
  ok_or (fingerprints !! input) "PIPELINE-FINGERPRINT-002".

Definition hash_input (fingerprints : gmap nat Fingerprint) (input : nat) : Result (list Z) :=
  rmap h_bytes (require_fingerprint fingerprints input).

Definition hash_expression (e : ExpressionSpec) : Result (list Z) := rmap h_bytes (fingerprint_expression_spec e).

Definition hash_optional {A} (f : A -> Result (list Z)) (o : option A) : Result (list Z) :=
  match o with Some a => rmap (fun bytes => h_u8 1 ++ bytes) (f a) | None => Ok (h_u8 0) end.

Definition named_cmp {A} (a b : string * A) : comparison := String.compare (fst a) (fst b).

Definition hash_projection_spec (p : ProjectionSpec) : Result (list Z) :=
  let? body :=
    match ps_kind p with
    | ProjectRecord =>
        let? fields := mapR (fun e => rmap (fun fp => (fst e, fp)) (fingerprint_expression_spec (snd e)))
                         (combine (ps_names p) (ps_expressions p)) in
        let fields := sort_by named_cmp fields in
        Ok (h_u64 (zlen fields) ++ flat_map (fun f => h_str (fst f) ++ h_bytes (snd f)) fields)
    | _ =>
        let? hashes := mapR hash_expression (ps_expressions p) in
        Ok (h_u64 (zlen (ps_expressions p)) ++ concat hashes)
    end in
  Ok (h_u8 (projection_tag (ps_kind p)) ++ body ++ hash_type_def (ps_ty p)).

Definition hash_aggregate_spec (a : AggregateSpec) : Result (list Z) :=
  let? input := hash_optional hash_expression (ag_input a) in
  Ok (h_u8 (aggregate_tag (ag_kind a)) ++ input ++ hash_type_def (ag_ty a)).

Definition direction_tag (d : SortDirection) : Z := match d with Ascending => 0 | Descending => 1 end.

Definition hash_window_spec (w : WindowSpec) : Result (list Z) :=
  let? input := hash_optional hash_expression (ws_input w) in
  let? partition := hash_optional hash_projection_spec (ws_partition w) in
  let? order := mapR (fun k => rmap (fun e => h_u8 (direction_tag (wo_direction k)) ++ e) (hash_expression (wo_expression k)))
                  (ws_order w) in
  Ok (h_u8 (window_tag (ws_kind w)) ++ input ++ partition ++ h_u64 (zlen (ws_order w)) ++ concat order ++
      hash_option (fun f => hash_window_bound (rf_start f) ++ hash_window_bound (rf_end f)) (ws_frame w) ++
      hash_type_def (ws_ty w)).

Definition join_tag (k : JoinKind) : Z :=
  match k with JInner => 0 | JCross => 1 | JLeft => 2 | JRight => 3 | JFull => 4 end.
Definition set_tag (o : SetOperator) : Z := match o with SUnion => 0 | SUnionAll => 1 | SIntersect => 2 | SExcept => 3 end.

Definition pipeline_node_bytes (fingerprints : gmap nat Fingerprint) (k : PipelineKind) : Result (list Z) :=
  let with_input tag input rest :=
    let? i := hash_input fingerprints input in let? r := rest in Ok (h_u8 tag ++ i ++ r) in
  match k with
  | KSource source =>
      let? model := src_resolve source in Ok (h_u8 0 ++ h_str (md_key model) ++ h_bytes (md_fingerprint model))
  | KFilter input condition => with_input 1 input (hash_expression condition)
  | KProject input projection => with_input 2 input (hash_projection_spec projection)
  | KAggregate input groups aggregates =>
      with_input 3 input (
        let? groups := hash_optional hash_projection_spec groups in
        let? hashes := mapR hash_aggregate_spec (as_aggregates aggregates) in
        Ok (groups ++ h_u8 (match as_kind aggregates with SelectValue => 0 | SelectTuple => 1 end) ++
            h_u64 (zlen (as_aggregates aggregates)) ++ concat hashes ++ hash_type_def (as_ty aggregates)))
  | KUnnest input => with_input 4 input (Ok [])
  | KWindow input window => with_input 5 input (hash_window_spec window)
  | KSort input expression direction =>
      with_input 6 input (rmap (fun e => h_u8 (direction_tag direction) ++ e) (hash_expression expression))
  | KDistinct input => with_input 7 input (Ok [])
  | KSlice input offset limit => with_input 8 input (Ok (h_u64 offset ++ hash_option h_u64 limit))
  | KJoin l r kind condition =>
      let? l := hash_input fingerprints l in
      let? r := hash_input fingerprints r in
      let? c := hash_optional hash_expression condition in
      Ok (h_u8 9 ++ l ++ r ++ h_u8 (join_tag kind) ++ c)
  | KSet l r operator =>
      let? l := require_fingerprint fingerprints l in
      let? r := require_fingerprint fingerprints r in
      let '(l, r) :=
        if match operator with SExcept => true | _ => negb (comparison_eqb (fingerprint_cmp l r) Gt) end
        then (l, r) else (r, l) in
      Ok (h_u8 10 ++ h_bytes l ++ h_bytes r ++ h_u8 (set_tag operator))
  end.

Definition fingerprint_pipeline_node (fingerprints : gmap nat Fingerprint) (k : PipelineKind) : Result Fingerprint :=
  rmap (fun bytes => finish (hasher_new "pipeline/authoring/v1" ++ bytes)) (pipeline_node_bytes fingerprints k).

Definition default_max_nodes : nat := 16384.

(** The kind behind a handle. *)
Definition kind_of (ks : list PipelineKind) (node : nat) : Result PipelineKind := ok_or (ks !! node) "handle out of range".

Definition fingerprint_step (ks : list PipelineKind) (fingerprints : gmap nat Fingerprint) (node : nat)
  : Result (gmap nat Fingerprint) :=
  let? k := kind_of ks node in
  let? value := fingerprint_pipeline_node fingerprints k in
  Ok (<[node := value]> fingerprints).

Definition fingerprint_authoring_node (ks : list PipelineKind) (root : nat) : Result Fingerprint :=
  let? nodes := collect_nodes ks root default_max_nodes in
  let? fingerprints := foldR (fingerprint_step ks) nodes ∅ in
  ok_or (fingerprints !! root) "PIPELINE-FINGERPRINT-001".

(** ** The public operations: each adds a node *)
Definition from_source_alias (p : Pool) (definition : Result ModelDef) (alias : option string) : nat * Pool :=
  node_new p (KSource (mkModelSource definition alias)).
Definition from_model p definition := from_source_alias p definition None.
Definition from_model_as p definition alias := from_source_alias p definition (Some alias).

Definition pipeline_filter (p : Pool) (node : nat) (condition : ExpressionSpec) : nat * Pool :=
  let condition := canonical_truth condition in
  match nd_kind <$> p !! node with
  | Some (KFilter input existing) => node_new p (KFilter input (and_truth existing condition))
  | _ => node_new p (KFilter node condition)
  end.

Definition pipeline_select p node (projection : ProjectionSpec) := node_new p (KProject node projection).
Definition pipeline_aggregate p node (aggregates : AggregateSelectionSpec) := node_new p (KAggregate node None aggregates).
Definition pipeline_aggregate_by p node (keys : ProjectionSpec) (aggregates : AggregateSelectionSpec) :=
  node_new p (KAggregate node (Some keys) aggregates).
Definition pipeline_sort p node (e : ExpressionSpec) (d : SortDirection) := node_new p (KSort node e d).
Definition pipeline_order_by p node e := pipeline_sort p node e Ascending.
Definition pipeline_order_by_desc p node e := pipeline_sort p node e Descending.
Definition pipeline_distinct p node := node_new p (KDistinct node).
Definition pipeline_offset p node (offset : Z) := node_new p (KSlice node offset None).
Definition pipeline_limit p node (limit : Z) := node_new p (KSlice node 0 (Some limit)).
Definition pipeline_slice p node (offset limit : Z) := node_new p (KSlice node offset (Some limit)).
Definition pipeline_join p node other (condition : ExpressionSpec) := node_new p (KJoin node other JInner (Some condition)).
Definition pipeline_left_join p node other (condition : ExpressionSpec) := node_new p (KJoin node other JLeft (Some condition)).
Definition pipeline_right_join p node other (condition : ExpressionSpec) := node_new p (KJoin node other JRight (Some condition)).
Definition pipeline_full_join p node other (condition : ExpressionSpec) := node_new p (KJoin node other JFull (Some condition)).
Definition pipeline_cross_join p node other := node_new p (KJoin node other JCross None).
Definition pipeline_window p node (window : WindowSpec) := node_new p (KWindow node window).
Definition pipeline_set p node other (operator : SetOperator) := node_new p (KSet node other operator).
Definition pipeline_union p node other := pipeline_set p node other SUnion.
Definition pipeline_union_all p node other := pipeline_set p node other SUnionAll.
Definition pipeline_intersect p node other := pipeline_set p node other SIntersect.
Definition pipeline_except p node other := pipeline_set p node other SExcept.
Definition pipeline_unnest p node := node_new p (KUnnest node).

(** [exists] and [not_exists] make an expression, not a node. *)
Definition existential (p : Pool) (node : nat) : ExprNode :=
  mkExpr (EExists (node, fingerprint_authoring_node (kinds p) node)) truth_type.
Definition pipeline_exists (p : Pool) (node : nat) : ExpressionSpec := mkExpressionSpec (existential p node) truth_type.
Definition pipeline_not_exists (p : Pool) (node : nat) : ExpressionSpec :=
  mkExpressionSpec (mkExpr (EUnary Not (existential p node)) truth_type) truth_type.
End Authoring.

Notation Pool := (list PipelineNode).
