(* ===== verification/PipelineCompile.v ===== *)
(** * Lowering pipelines to plans ([crates/dol-core/src/pipeline/compile.rs],
    [compile/aggregate.rs], [compile/advanced.rs])

    Every node is compiled after its inputs; existential conditions compile
    their pipelines into the same plan. *)
From Stdlib Require Import ZArith Lia.
From stdpp Require Import gmap.
From S2P Require Import Prelude Mutation Foreign Truth BTree Text Types Values Fingerprint Model Expr ExprPrepare Plan Pipeline.

Local Open Scope Z_scope.

Record PipelineLimits := mkPipelineLimits { pl_max_nodes : nat; pl_expression : ExpressionLimits }.
Definition default_pipeline_limits : PipelineLimits := mkPipelineLimits default_max_nodes default_expression_limits.

(** [Option::map(f).transpose()] *)
Definition transpose {A B} (f : A -> Result B) (o : option A) : Result (option B) :=
  match o with Some a => rmap Some (f a) | None => Ok None end.

(** ** Scopes and outputs *)
Record Scope := mkScope {
  sc_model : ModelDef;
  sc_alias : option string;
  sc_nullable : bool;
  sc_identity_unique : bool
}.

Inductive Output :=
| OModel (m : ModelDef)
| OValue (ty : TypeDef)
| OProduct (outputs : list Output)
| ONullable (output : Output).

Fixpoint plan_output_of (o : Output) : PlanOutput :=
  match o with
  | OModel m => OutModel m
  | OValue ty => OutValue ty
  | OProduct outputs => OutProduct (map plan_output_of outputs)
  | ONullable output => OutNullable (plan_output_of output)
  end.

Fixpoint validate_equality (o : Output) : Result unit :=
  match o with
  | OModel m => guard (forallb (fun f => equality (ty_properties (fd_ty f))) (md_fields m)) "PIPELINE-TYPE-002"
  | OValue ty => guard (equality (ty_properties ty)) "PIPELINE-TYPE-002"
  | OProduct outputs => forR validate_equality outputs
  | ONullable output => validate_equality output
  end.

Fixpoint semantically_matches (a b : Output) : bool :=
  match a, b with
  | OModel l, OModel r => bool_decide (md_fingerprint l = md_fingerprint r)
  | OValue l, OValue r => type_eqb l r
  | OProduct l, OProduct r => forallb2 semantically_matches l r
  | ONullable l, ONullable r => semantically_matches l r
  | _, _ => false
  end.

Definition output_nullable (o : Output) : Output :=
  match o with ONullable _ => o | _ => ONullable o end.

Record Compiled := mkCompiled { cp_id : nat; cp_scopes : list Scope; cp_output : Output }.

(** ** Scopes *)
Definition alias_step (seen : list string) (s : Scope) : Result (list string) :=
  match sc_alias s with Some alias => insert_new alias seen "PIPELINE-SCOPE-002" | None => Ok seen end.

Definition duplicate_model (scopes : list Scope) (index : nat) (s : Scope) : bool :=
  existsb (fun e => negb (Nat.eqb index (fst e)) && String.eqb (md_key (sc_model (snd e))) (md_key (sc_model s)))
    (imap (fun i o => (i, o)) scopes).

Definition combine_scopes (l r : list Scope) : Result (list Scope) :=
  let scopes := l ++ r in
  let? _ := foldR alias_step scopes [] in
  forR (fun e => guard (negb (duplicate_model scopes (fst e) (snd e) && match sc_alias (snd e) with None => true | _ => false end))
                   "PIPELINE-SCOPE-001") (imap (fun i s => (i, s)) scopes) ;;?
  Ok scopes.

Definition not_unique (s : Scope) : Scope := mkScope (sc_model s) (sc_alias s) (sc_nullable s) false.
Definition scope_nullable (s : Scope) : Scope := mkScope (sc_model s) (sc_alias s) true (sc_identity_unique s).

Definition lift_join_scopes (scopes : list Scope) (left_count : nat) (k : JoinKind) : list Scope :=
  let scopes := map not_unique scopes in
  match k with
  | JInner | JCross => scopes
  | JLeft => take left_count scopes ++ map scope_nullable (drop left_count scopes)
  | JRight => map scope_nullable (take left_count scopes) ++ drop left_count scopes
  | JFull => map scope_nullable scopes
  end.

Definition compatible_set_scopes (l r : list Scope) (operator : SetOperator) : list Scope :=
  match l, r with
  | [l], [r] =>
      if bool_decide (md_fingerprint (sc_model l) = md_fingerprint (sc_model r)) then
        [mkScope (sc_model l) None (sc_nullable l || sc_nullable r)
           match operator with
           | SIntersect => sc_identity_unique l || sc_identity_unique r
           | SExcept => sc_identity_unique l
           | SUnion | SUnionAll => false
           end]
      else []
  | _, _ => []
  end.

Definition is_ascii_alphabetic (c : Z) : bool := ((65 <=? c) && (c <=? 90)) || ((97 <=? c) && (c <=? 122)).
Definition is_ascii_alphanumeric (c : Z) : bool := is_ascii_alphabetic c || ((48 <=? c) && (c <=? 57)).
Definition underscore : Z := 95.

Definition validate_alias (alias : string) : Result unit :=
  guard (negb (is_empty_str alias || (64 <? zstrlen alias))) "PIPELINE-SCOPE-003" ;;?
  match chars alias with
  | [] => Ok tt
  | first :: rest =>
      guard ((is_ascii_alphabetic first || (first =? underscore)) &&
             forallb (fun c => is_ascii_alphanumeric c || (c =? underscore)) rest) "PIPELINE-SCOPE-003"
  end.

Definition bind_scope_model (context : BindContext) (s : Scope) : BindContext :=
  match sc_alias s, sc_nullable s with
  | Some alias, true => with_nullable_alias context alias (sc_model s)
  | Some alias, false => with_alias context alias (sc_model s)
  | None, true => with_nullable_model context (sc_model s)
  | None, false => with_model context (sc_model s)
  end.
Definition bind_context (scopes : list Scope) : BindContext := fold_left bind_scope_model scopes bind_new.

Section Compile.
Context {F : Foreign}.

(** ** Projections *)
Definition option_str_cmp (a b : option string) : comparison :=
  match a, b with
  | None, None => Eq
  | None, Some _ => Lt
  | Some _, None => Gt
  | Some a, Some b => String.compare a b
  end.
Definition component_cmp (a b : option string * ExpressionSpec) : comparison := option_str_cmp (fst a) (fst b).

(** [windows(2).any(|pair| pair[0].0 == pair[1].0)] *)
Fixpoint neighbours_equal (l : list (option string * ExpressionSpec)) : bool :=
  match l with
  | a :: (b :: _) as rest => bool_decide (fst a = fst b) || neighbours_equal rest
  | _ => false
  end.

Definition projection_components (p : ProjectionSpec) : Result (list (option string * ExpressionSpec)) :=
  let components := imap (fun i e => (ps_names p !! i, e)) (ps_expressions p) in
  match ps_kind p with
  | ProjectRecord =>
      guard (Nat.eqb (length (ps_names p)) (length (ps_expressions p))) "PIPELINE-PROJECT-001" ;;?
      let components := sort_by component_cmp components in
      guard (negb (neighbours_equal components)) "PIPELINE-PROJECT-002" ;;?
      Ok components
  | _ => guard (Nat.eqb (length (ps_names p)) 0) "PIPELINE-PROJECT-003" ;;? Ok components
  end.

Definition projection_matches (kind : ProjectionKind) (ty : TypeDef) (names : list string) (expressions : list LogicalExpr)
  : Result unit :=
  match kind with
  | ProjectValue =>
      guard (match expressions with [e] => type_eqb (pe_ty e) ty | _ => false end) "PIPELINE-PROJECT-004"
  | ProjectTuple =>
      guard (match ty_shape ty with
             | ShTuple elements => forallb2 (fun expected e => type_eqb expected (pe_ty e)) elements expressions
             | _ => false
             end) "PIPELINE-PROJECT-005"
  | ProjectRecord =>
      guard (match ty_shape ty with
             | ShRecord fields =>
                 Nat.eqb (length fields) (length expressions) &&
                 forallb (fun c => String.eqb (field_name (fst c)) (fst (snd c)) &&
                                   type_eqb (field_ty (fst c)) (pe_ty (snd (snd c))))
                   (combine fields (combine names expressions))
             | _ => false
             end) "PIPELINE-PROJECT-006"
  end.

Definition compile_projection (p : ProjectionSpec) (context : BindContext) (limits : PipelineLimits) : Result LogicalProjection :=
  validate_type (ps_ty p) default_definition_limits ;;?
  validate_type_universe [ps_ty p] ;;?
  let? components := projection_components p in
  let names := omap fst components in
  let? expressions := mapR (fun c => prepare_expression (snd c) context (pl_expression limits)) components in
  projection_matches (ps_kind p) (ps_ty p) names expressions ;;?
  Ok (mkProjection (ps_kind p) expressions names (ps_ty p)).

(** ** Aggregates ([aggregate.rs]) *)
Definition validate_group_projection (groups : LogicalProjection) : Result unit :=
  let properties := ty_properties (lp_ty groups) in
  guard (equality properties && keyable properties) "PIPELINE-GROUP-001".

Definition require_aggregate_input (input : option LogicalExpr) : Result LogicalExpr := ok_or input "PIPELINE-AGG-003".

Definition reject_implicit_nullable_aggregate (mode : AggregateInputMode) (input : LogicalExpr) : Result unit :=
  guard (negb (match mode with AggregateNonNull => is_nullable (pe_ty input) | AggregatePresent => false end)) "PIPELINE-AGG-006".

Definition validate_nullable_aggregate_output (input : LogicalExpr) (output : TypeDef) : Result unit :=
  guard (type_eqb output (nullable (pe_ty input))) "PIPELINE-AGG-007".

Definition validate_extreme (mode : AggregateInputMode) (input : option LogicalExpr) (output : TypeDef) : Result unit :=
  let? input := require_aggregate_input input in
  reject_implicit_nullable_aggregate mode input ;;?
  let properties := ty_properties (pe_ty input) in
  guard (ordering properties && keyable properties) "PIPELINE-AGG-005" ;;?
  validate_nullable_aggregate_output input output.

Definition validate_aggregate (kind : AggregateKind) (mode : AggregateInputMode) (input : option LogicalExpr) (output : TypeDef)
  : Result unit :=
  match kind with
  | CountRows => guard (match input with None => type_eqb output uint64_type | Some _ => false end) "PIPELINE-AGG-003"
  | CountPresent => guard (match input with Some _ => type_eqb output uint64_type | None => false end) "PIPELINE-AGG-003"
  | AggSum =>
      let? input := require_aggregate_input input in
      reject_implicit_nullable_aggregate mode input ;;?
      guard (exact_numeric (ty_properties (pe_ty input))) "PIPELINE-AGG-004" ;;?
      validate_nullable_aggregate_output input output
  | AggMin | AggMax => validate_extreme mode input output
  end.

Definition compile_aggregate (context : BindContext) (limits : PipelineLimits) (a : AggregateSpec) : Result LogicalAggregate :=
  let? input := transpose (fun e => prepare_expression e context (pl_expression limits)) (ag_input a) in
  validate_aggregate (ag_kind a) (ag_input_mode a) input (ag_ty a) ;;?
  Ok (mkAggregate (ag_kind a) input (ag_ty a)).

Definition selection_matches (kind : AggregateSelectionKind) (ty : TypeDef) (aggregates : list LogicalAggregate) : Result unit :=
  match kind with
  | SelectValue => guard (match aggregates with [a] => type_eqb (la_ty a) ty | _ => false end) "PIPELINE-AGG-001"
  | SelectTuple =>
      guard (match ty_shape ty with
             | ShTuple elements => forallb2 (fun expected a => type_eqb expected (la_ty a)) elements aggregates
             | _ => false
             end) "PIPELINE-AGG-002"
  end.

Definition compile_aggregate_selection (s : AggregateSelectionSpec) (context : BindContext) (limits : PipelineLimits)
  : Result LogicalAggregateSelection :=
  let? aggregates := mapR (compile_aggregate context limits) (as_aggregates s) in
  selection_matches (as_kind s) (as_ty s) aggregates ;;?
  Ok (mkSelection (as_kind s) aggregates (as_ty s)).

(** ** Windows ([advanced.rs]) *)
Definition validate_ranking_shape (spec : WindowSpec) (input : option LogicalExpr) (order : list SortExpr) : Result unit :=
  guard (match input with None => type_eqb (ws_ty spec) uint64_type | Some _ => false end) "PIPELINE-WINDOW-004" ;;?
  guard (negb (Nat.eqb (length order) 0)) "PIPELINE-WINDOW-005" ;;?
  guard (match ws_frame spec with None => true | Some _ => false end) "PIPELINE-WINDOW-006".

(** Distances are [u64], so the negation cannot overflow. *)
Definition bound_position (b : WindowFrameBound) : Z :=
  match b with
  | UnboundedPreceding => i128_min
  | Preceding distance => - distance
  | CurrentRow => 0
  | Following distance => distance
  | UnboundedFollowing => i128_max
  end.

Definition validate_frame (f : RowsFrame) : Result unit :=
  guard (negb (match rf_start f with UnboundedFollowing => true | _ => false end ||
               match rf_end f with UnboundedPreceding => true | _ => false end ||
               (bound_position (rf_end f) <? bound_position (rf_start f)))) "PIPELINE-WINDOW-013".

(** Some ordering key is the plain field in the slot. *)
Definition orders_slot (order : list SortExpr) (slot : nat) : bool :=
  existsb (fun k => match direct_field (se_expression k) with
                    | Some (scope_index, slot_index) => Nat.eqb scope_index 0 && Nat.eqb slot_index slot
                    | None => false
                    end) order.

Definition require_total_model_order (scopes : list Scope) (order : list SortExpr) : Result unit :=
  match scopes with
  | [scope] =>
      let? identity := ok_or (md_identity (sc_model scope)) "PIPELINE-WINDOW-015" in
      guard (sc_identity_unique scope) "PIPELINE-WINDOW-018" ;;?
      forR (fun key =>
        let? slot := ok_or (model_field (sc_model scope) key) "PIPELINE-WINDOW-016" in
        guard (orders_slot order (fd_slot slot)) "PIPELINE-WINDOW-017") identity
  | _ => error "PIPELINE-WINDOW-014"
  end.

Definition bound_eqb (a b : WindowFrameBound) : bool :=
  match a, b with
  | UnboundedPreceding, UnboundedPreceding | CurrentRow, CurrentRow | UnboundedFollowing, UnboundedFollowing => true
  | Preceding n, Preceding m | Following n, Following m => n =? m
  | _, _ => false
  end.
Definition frame_eqb (a b : RowsFrame) : bool := bound_eqb (rf_start a) (rf_start b) && bound_eqb (rf_end a) (rf_end b).

Definition validate_window_sum (spec : WindowSpec) (input : option LogicalExpr) (order : list SortExpr) (scopes : list Scope)
  : Result unit :=
  let? input := ok_or input "PIPELINE-WINDOW-007" in
  guard (negb (match ws_input_mode spec with WindowNonNull => is_nullable (pe_ty input) | WindowPresent => false end))
    "PIPELINE-WINDOW-008" ;;?
  guard (exact_numeric (ty_properties (pe_ty input))) "PIPELINE-WINDOW-009" ;;?
  guard (type_eqb (ws_ty spec) (nullable (pe_ty input))) "PIPELINE-WINDOW-010" ;;?
  let? frame := ok_or (ws_frame spec) "PIPELINE-WINDOW-011" in
  validate_frame frame ;;?
  if negb (frame_eqb frame rows_frame_all) then
    guard (negb (Nat.eqb (length order) 0)) "PIPELINE-WINDOW-012" ;;?
    require_total_model_order scopes order
  else Ok tt.

Definition validate_window (spec : WindowSpec) (input : option LogicalExpr) (order : list SortExpr) (scopes : list Scope)
  : Result unit :=
  match ws_kind spec with
  | RowNumber => validate_ranking_shape spec input order ;;? require_total_model_order scopes order
  | Rank | DenseRank => validate_ranking_shape spec input order
  | WindowSum => validate_window_sum spec input order scopes
  end.

Definition validate_partition (partition : LogicalProjection) : Result unit :=
  let properties := ty_properties (lp_ty partition) in
  guard (equality properties && keyable properties) "PIPELINE-WINDOW-002".

Definition compile_order_key (context : BindContext) (limits : PipelineLimits) (k : WindowOrderSpec) : Result SortExpr :=
  let? e := prepare_expression (wo_expression k) context (pl_expression limits) in
  let properties := ty_properties (pe_ty e) in
  guard (ordering properties && equality properties && keyable properties) "PIPELINE-WINDOW-003" ;;?
  Ok (mkSortExpr e (wo_direction k)).

Definition compile_window_spec (scopes : list Scope) (limits : PipelineLimits) (spec : WindowSpec) : Result LogicalWindow :=
  guard (negb (Nat.eqb (length scopes) 0)) "PIPELINE-WINDOW-001" ;;?
  let context := bind_context scopes in
  let? partition := transpose (fun p => compile_projection p context limits) (ws_partition spec) in
  let? _ := transpose validate_partition partition in
  let? order := mapR (compile_order_key context limits) (ws_order spec) in
  let? value_input := transpose (fun e => prepare_expression e context (pl_expression limits)) (ws_input spec) in
  validate_window spec value_input order scopes ;;?
  Ok (mkWindow (ws_kind spec) value_input partition order (ws_frame spec) (ws_ty spec)).

(** ** Nodes *)
Definition CompiledNodes := gmap nat Compiled.

Definition require_compiled (compiled : CompiledNodes) (input : nat) : Result Compiled :=
  ok_or (compiled !! input) "PIPELINE-PLAN-004".

(** [builder.push(..)?], and what is known of the new node. *)
Definition push_compiled (b : PlanBuilder) (n : LogicalNode) (fp : Fingerprint) (scopes : list Scope) (output : Output)
  : Result (Compiled * PlanBuilder) :=
  let? r := plan_push b n fp in Ok (mkCompiled (fst r) scopes output, snd r).

Definition compile_source (source : ModelSource) (b : PlanBuilder) : Result (Compiled * PlanBuilder) :=
  let? model := src_resolve source in
  match src_alias source with Some alias => validate_alias alias | None => Ok tt end ;;?
  push_compiled b (NSource model (src_alias source)) (fingerprint_source model)
    [mkScope model (src_alias source) false true] (OModel model).

Definition compile_project (compiled : CompiledNodes) (b : PlanBuilder) (limits : PipelineLimits) (input : nat)
  (projection : ProjectionSpec) : Result (Compiled * PlanBuilder) :=
  let? input := require_compiled compiled input in
  let? projection := compile_projection projection (bind_context (cp_scopes input)) limits in
  let? fp := builder_fingerprint b (cp_id input) in
  push_compiled b (NProject (cp_id input) projection) (fingerprint_projection_stage fp projection) [] (OValue (lp_ty projection)).

Definition compile_aggregate_node (compiled : CompiledNodes) (b : PlanBuilder) (limits : PipelineLimits) (input : nat)
  (groups : option ProjectionSpec) (aggregates : AggregateSelectionSpec) : Result (Compiled * PlanBuilder) :=
  let? input := require_compiled compiled input in
  let context := bind_context (cp_scopes input) in
  let? groups := transpose (fun p => compile_projection p context limits) groups in
  let? _ := transpose validate_group_projection groups in
  let? aggregates := compile_aggregate_selection aggregates context limits in
  let output_ty := match groups with Some groups => tuple [lp_ty groups; ls_ty aggregates] | None => ls_ty aggregates end in
  let? fp := builder_fingerprint b (cp_id input) in
  push_compiled b (NAggregate (cp_id input) groups aggregates) (fingerprint_aggregate_stage fp groups aggregates)
    [] (OValue output_ty).

Definition compile_unnest (compiled : CompiledNodes) (b : PlanBuilder) (input : nat) : Result (Compiled * PlanBuilder) :=
  let? input := require_compiled compiled input in
  let? element := ok_or (match cp_output input with
                         | OValue ty => match ty_shape ty with ShList element => Some element | _ => None end
                         | _ => None
                         end) "PIPELINE-UNNEST-001" in
  let? fp := builder_fingerprint b (cp_id input) in
  push_compiled b (NUnnest (cp_id input) element) (fingerprint_unnest_stage fp element) [] (OValue element).

Definition compile_window (compiled : CompiledNodes) (b : PlanBuilder) (limits : PipelineLimits) (input : nat) (spec : WindowSpec)
  : Result (Compiled * PlanBuilder) :=
  let? input := require_compiled compiled input in
  let? window := compile_window_spec (cp_scopes input) limits spec in
  let? fp := builder_fingerprint b (cp_id input) in
  push_compiled b (NWindow (cp_id input) window) (fingerprint_window_stage fp window) (cp_scopes input)
    (OProduct [cp_output input; OValue (ws_ty spec)]).

Definition compile_sort (compiled : CompiledNodes) (b : PlanBuilder) (limits : PipelineLimits) (input : nat)
  (e : ExpressionSpec) (d : SortDirection) : Result (Compiled * PlanBuilder) :=
  let? input := require_compiled compiled input in
  let? e := prepare_expression e (bind_context (cp_scopes input)) (pl_expression limits) in
  guard (ordering (ty_properties (pe_ty e))) "PIPELINE-TYPE-001" ;;?
  let keys := [mkSortExpr e d] in
  let? fp := builder_fingerprint b (cp_id input) in
  push_compiled b (NSort (cp_id input) keys) (fingerprint_sort_stage fp keys) (cp_scopes input) (cp_output input).

Definition compile_distinct (compiled : CompiledNodes) (b : PlanBuilder) (input : nat) : Result (Compiled * PlanBuilder) :=
  let? input := require_compiled compiled input in
  validate_equality (cp_output input) ;;?
  let? fp := builder_fingerprint b (cp_id input) in
  push_compiled b (NDistinct (cp_id input)) (fingerprint_unary_stage "pipeline/distinct/v1"%stdpp fp) (cp_scopes input) (cp_output input).

Definition compile_slice (compiled : CompiledNodes) (b : PlanBuilder) (input : nat) (offset : Z) (limit : option Z)
  : Result (Compiled * PlanBuilder) :=
  let? input := require_compiled compiled input in
  let? fp := builder_fingerprint b (cp_id input) in
  push_compiled b (NSlice (cp_id input) offset limit) (fingerprint_slice_stage fp offset limit) (cp_scopes input) (cp_output input).

Definition join_output (k : JoinKind) (l r : Output) : Output :=
  match k with
  | JInner | JCross => OProduct [l; r]
  | JLeft => OProduct [l; output_nullable r]
  | JRight => OProduct [output_nullable l; r]
  | JFull => OProduct [output_nullable l; output_nullable r]
  end.

Definition compile_join_condition (k : JoinKind) (condition : option ExpressionSpec) (scopes : list Scope)
  (limits : PipelineLimits) : Result (option LogicalExpr) :=
  match k, condition with
  | JCross, None => Ok None
  | JCross, Some _ => error "PIPELINE-PLAN-007"
  | _, Some condition => rmap Some (prepare_expression condition (bind_context scopes) (pl_expression limits))
  | _, None => error "PIPELINE-PLAN-006"
  end.

Definition compile_join (compiled : CompiledNodes) (b : PlanBuilder) (limits : PipelineLimits) (l r : nat) (k : JoinKind)
  (condition : option ExpressionSpec) : Result (Compiled * PlanBuilder) :=
  let? l := require_compiled compiled l in
  let? r := require_compiled compiled r in
  let? condition_scopes := combine_scopes (cp_scopes l) (cp_scopes r) in
  let? condition := compile_join_condition k condition condition_scopes limits in
  let? fl := builder_fingerprint b (cp_id l) in
  let? fr := builder_fingerprint b (cp_id r) in
  push_compiled b (NJoin (cp_id l) (cp_id r) k condition) (fingerprint_join_stage fl fr k condition)
    (lift_join_scopes condition_scopes (length (cp_scopes l)) k) (join_output k (cp_output l) (cp_output r)).

Definition compile_set (compiled : CompiledNodes) (b : PlanBuilder) (l r : nat) (operator : SetOperator)
  : Result (Compiled * PlanBuilder) :=
  let? l := require_compiled compiled l in
  let? r := require_compiled compiled r in
  guard (semantically_matches (cp_output l) (cp_output r)) "PIPELINE-TYPE-003" ;;?
  (if requires_equality operator then validate_equality (cp_output l) else Ok tt) ;;?
  let? fl := builder_fingerprint b (cp_id l) in
  let? fr := builder_fingerprint b (cp_id r) in
  push_compiled b (NSet (cp_id l) (cp_id r) operator) (fingerprint_set_stage fl fr operator)
    (compatible_set_scopes (cp_scopes l) (cp_scopes r) operator) (cp_output l).

(** [compile_existential], as the callback of expression preparation, in the
    scopes that enclose the subquery. *)
Notation Resolver := (list Scope -> Subquery -> PlanBuilder -> Result ((nat * Fingerprint) * PlanBuilder)).

Definition compile_filter (resolve : Resolver) (compiled : CompiledNodes) (b : PlanBuilder) (limits : PipelineLimits)
  (outer_scopes : list Scope) (input : nat) (condition : ExpressionSpec) : Result (Compiled * PlanBuilder) :=
  let? input := require_compiled compiled input in
  let? binding_scopes := combine_scopes outer_scopes (cp_scopes input) in
  let? r := prepare_expression_with_existentials (resolve binding_scopes) (bind_context binding_scopes) condition
              (pl_expression limits) (length outer_scopes) b in
  let '(condition, b) := r in
  let? fp := builder_fingerprint b (cp_id input) in
  push_compiled b (NFilter (cp_id input) condition) (fingerprint_expression_stage "pipeline/filter/v2"%stdpp fp condition)
    (cp_scopes input) (cp_output input).

Definition compile_node (resolve : Resolver) (compiled : CompiledNodes) (b : PlanBuilder) (limits : PipelineLimits)
  (outer_scopes : list Scope) (k : PipelineKind) : Result (Compiled * PlanBuilder) :=
  match k with
  | KSource source => compile_source source b
  | KFilter input condition => compile_filter resolve compiled b limits outer_scopes input condition
  | KProject input projection => compile_project compiled b limits input projection
  | KAggregate input groups aggregates => compile_aggregate_node compiled b limits input groups aggregates
  | KUnnest input => compile_unnest compiled b input
  | KWindow input window => compile_window compiled b limits input window
  | KSort input e d => compile_sort compiled b limits input e d
  | KDistinct input => compile_distinct compiled b input
  | KSlice input offset limit => compile_slice compiled b input offset limit
  | KJoin l r kind condition => compile_join compiled b limits l r kind condition
  | KSet l r operator => compile_set compiled b l r operator
  end.

(** ** Pipelines *)
Definition compile_step (ks : list PipelineKind) (resolve : Resolver) (limits : PipelineLimits) (outer_scopes : list Scope)
  (s : CompiledNodes * PlanBuilder) (node : nat) : Result (CompiledNodes * PlanBuilder) :=
  let? k := kind_of ks node in
  let? r := compile_node resolve (fst s) (snd s) limits outer_scopes k in
  Ok (<[node := fst r]> (fst s), snd r).

(** [fuel] bounds the nesting of existential subqueries. *)
Fixpoint compile_pipeline (ks : list PipelineKind) (limits : PipelineLimits) (fuel root : nat) (outer_scopes : list Scope)
  (b : PlanBuilder) : Result (Compiled * PlanBuilder) :=
  match fuel with
  | O => error "existential nesting out of fuel"
  | S fuel' =>
      let resolve outer_scopes q b :=
        let? r := compile_pipeline ks limits fuel' (fst q) outer_scopes b in
        let? fp := builder_fingerprint (snd r) (cp_id (fst r)) in
        Ok ((cp_id (fst r), fp), snd r) in
      let? nodes := collect_nodes ks root (pl_max_nodes limits) in
      let? s := foldR (compile_step ks resolve limits outer_scopes) nodes (∅, b) in
      let? result := ok_or (fst s !! root) "PIPELINE-PLAN-002" in
      Ok (result, snd s)
  end.

(** A subquery comes before the node that tests it, so nesting is at most the
    number of nodes up to the root. *)
Definition compile (ks : list PipelineKind) (root : nat) (limits : PipelineLimits) : Result LogicalPlan :=
  let? r := compile_pipeline ks limits (S root) root [] plan_builder_new in
  plan_finish (snd r) (cp_id (fst r)) (plan_output_of (cp_output (fst r))).

(** ** Plans of pipelines ([mod.rs]): the default plan is kept in its node *)
Definition cached_default_plan (p : Pool) (node : nat) : option LogicalPlan := 
  match p !! node with Some n => nd_default_plan n | None => None end.

(** [OnceLock::set] keeps a plan that is already there. *)
Definition cache_default_plan (node : nat) (plan : LogicalPlan) : Mut Pool LogicalPlan := fun p =>
  let p' := alter (fun n => mkPipelineNode (nd_kind n) (Some (default plan (nd_default_plan n)))) node p in
  (Ok (default plan (cached_default_plan p' node)), p').

Definition prepared_plan (node : nat) : Mut Pool LogicalPlan := fun p =>
  match cached_default_plan p node with
  | Some plan => (Ok plan, p)
  | None =>
      match compile (kinds p) node default_pipeline_limits with
      | Ok plan => cache_default_plan node plan p
      | Err d => (Err d, p)
      end
  end.

Definition logical_plan (node : nat) : Mut Pool LogicalPlan := prepared_plan node.
Definition logical_plan_with_limits (p : Pool) (node : nat) (limits : PipelineLimits) : Result LogicalPlan :=
  compile (kinds p) node limits.
Definition pipeline_fingerprint (node : nat) : Mut Pool Fingerprint :=
  let! plan := prepared_plan node in mret (plan_fingerprint plan).
End Compile.
