(* ===== verification/PipelineGraph.v ===== *)
(** * The graph of authored pipelines

    Traversals visit exactly the nodes below their root, inputs first; every
    pool that the public operations build is well founded, and its existential
    expressions carry the identity of their pipelines. *)
From Stdlib Require Import ZArith Lia.
From stdpp Require Import gmap sorting relations.
From S2P Require Import Prelude Mutation Foreign Truth BTree Types Values Fingerprint Model Expr ExprValidate ExprNormalize ExprTruth ExprPrepare Plan Pipeline PipelineCompile.

(** ** Reachability *)
Inductive reaches (inputs : nat -> list nat) (root : nat) : nat -> Prop :=
| reaches_root : reaches inputs root root
| reaches_input i x : reaches inputs root i -> x ∈ inputs i -> reaches inputs root x.

Lemma reaches_below inputs root i : (forall i x, x ∈ inputs i -> x < i) -> reaches inputs root i -> i <= root.
Proof. intros G. induction 1 as [|i x _ IH Hx]; [done|]. apply G in Hx. lia. Qed.

Lemma reaches_trans inputs a b c : reaches inputs a b -> reaches inputs b c -> reaches inputs a c.
Proof. intros Hab. induction 1 as [|i x _ IH Hx]; [done|]. by eapply reaches_input. Qed.

(** A set of nodes closed under inputs holds everything below its members. *)
Lemma reaches_closed inputs (P : nat -> Prop) root i :
  (forall i x, P i -> x ∈ inputs i -> P x) -> P root -> reaches inputs root i -> P i.
Proof. intros C Hr. induction 1; eauto. Qed.

Lemma reaches_ext inputs inputs' root i : (forall j, j <= root -> inputs j = inputs' j) ->
  (forall i x, x ∈ inputs i -> x < i) -> reaches inputs root i -> reaches inputs' root i.
Proof.
  intros E G. induction 1 as [|i x Hi IH Hx]; [constructor|]. eapply reaches_input; [done|].
  rewrite <- E; [done|]. by eapply reaches_below.
Qed.

(** ** Post-order collection *)
Section Collect.
Context {F : Foreign} (ks : list PipelineKind) (max_nodes root : nat).
Notation inputs := (structural_inputs ks).
Hypothesis grounded : forall i x, x ∈ inputs i -> x < i.
Hypothesis root_in : root < length ks.

Definition above (a b : nat * bool) : Prop := snd b = true -> fst a < fst b.

(** Nodes being expanded increase from the top of the stack down; a node is
    seen when it is being expanded or collected; inputs of a node being
    expanded are seen or above it; collected nodes come after their inputs. *)
Record collecting (stack : list (nat * bool)) (seen : gset nat) (order : list nat) : Prop := mkCollecting {
  co_sorted : StronglySorted above stack;
  co_seen : forall x, x ∈ seen <-> x ∈ order \/ (x, true) ∈ stack;
  co_nodup : NoDup order;
  co_disjoint : forall x, x ∈ order -> (x, true) ∉ stack;
  co_pushed : forall pre g post x, stack = pre ++ (g, true) :: post -> x ∈ inputs g -> x ∈ seen \/ (x, false) ∈ pre;
  co_order : forall k i x, order !! k = Some i -> x ∈ inputs i -> x ∈ take k order;
  co_reach : forall x b, (x, b) ∈ stack -> reaches inputs root x;
  co_reached : forall x, x ∈ order -> reaches inputs root x;
  co_root : root ∈ seen \/ (root, false) ∈ stack;
  co_size : size seen <= max_nodes
}.

Lemma collecting_start : collecting [(root, false)] ∅ [].
Proof.
  split; try (intros; set_solver).
  - repeat constructor.
  - constructor.
  - intros [|[] pre] g post x; intros [=]; by destruct pre.
  - intros x b [= -> ->]%list_elem_of_singleton. constructor.
  - rewrite size_empty. lia.
Qed.

(** A node whose inputs have been collected is collected. *)
Lemma collecting_emit node rest seen order :
  collecting ((node, true) :: rest) seen order -> collecting rest seen (order ++ [node]).
Proof.
  intros C. destruct C as [Cs Ce Cn Cd Cp Co Cr Cr' Crt Cz].
  apply StronglySorted_inv in Cs as [Cs Ca]. rewrite Forall_forall in Ca.
  assert (Hin : forall x, x ∈ inputs node -> x ∈ order).
  { intros x Hx. destruct (Cp [] node rest x eq_refl Hx) as [Hs|Hs]; [|by apply not_elem_of_nil in Hs].
    apply grounded in Hx. apply Ce in Hs as [?|[[= ->]|Hr]%elem_of_cons]; [done|lia|].
    specialize (Ca _ Hr eq_refl). simpl in Ca. lia. }
  assert (Hrest : (node, true) ∉ rest) by (intros H; specialize (Ca _ H eq_refl); simpl in Ca; lia).
  split; try done.
  - intros x. rewrite Ce, elem_of_app, elem_of_cons, list_elem_of_singleton. naive_solver.
  - apply NoDup_app. split_and!; [done| |by apply NoDup_singleton].
    intros x Hx ->%list_elem_of_singleton. eapply Cd; [exact Hx|left].
  - intros x [Hx| ->%list_elem_of_singleton]%elem_of_app Hr; [|done]. apply (Cd _ Hx). by right.
  - intros pre g post x -> Hx. destruct (Cp ((node, true) :: pre) g post x eq_refl Hx) as [?|[[=]|?]%elem_of_cons]; auto.
  - intros k i x [Hk|[-> <-]]%lookup_snoc_Some Hx.
    + rewrite take_app_le by lia. eapply Co; [by apply Hk|done].
    + rewrite take_app_length. by apply Hin.
  - intros x b Hx. eapply Cr. right. exact Hx.
  - intros x [?| ->%list_elem_of_singleton]%elem_of_app; [by apply Cr'|]. eapply (Cr _ true). left.
  - destruct Crt as [?|[[=]|?]%elem_of_cons]; auto.
Qed.

Lemma collecting_skip node rest seen order :
  node ∈ seen -> collecting ((node, false) :: rest) seen order -> collecting rest seen order.
Proof.
  intros Hn C. destruct C as [Cs Ce Cn Cd Cp Co Cr Cr' Crt Cz].
  apply StronglySorted_inv in Cs as [Cs _].
  split; try done.
  - intros x. rewrite Ce, elem_of_cons. naive_solver.
  - intros x Hx Hr. apply (Cd _ Hx). by right.
  - intros pre g post x -> Hx. destruct (Cp ((node, false) :: pre) g post x eq_refl Hx) as [?|[[= ->]|?]%elem_of_cons]; auto.
  - intros x b Hx. eapply Cr. right. exact Hx.
  - destruct Crt as [?|[[= <-]|?]%elem_of_cons]; auto.
Qed.

Lemma pushed_inputs_sorted node l rest :
  Forall (fun x => x < node) l -> StronglySorted above ((node, false) :: rest) ->
  StronglySorted above (map (fun i => (i, false)) l ++ (node, true) :: rest).
Proof.
  intros Hl [Hs Hn]%StronglySorted_inv.
  assert (Hnode : StronglySorted above ((node, true) :: rest)) by (constructor; [done|]; exact Hn).
  induction Hl as [|x l Hx _ IH]; [done|]. cbn [map app]. constructor; [done|].
  apply Forall_app. split.
  - apply Forall_forall. intros e (i & -> & _)%elem_of_map. by intros [=].
  - constructor; [by intros _|]. eapply Forall_impl; [exact Hn|]. intros e He Ht. specialize (He Ht). simpl in *. lia.
Qed.

Lemma collecting_expand node rest seen order :
  node ∉ seen -> size ({[node]} ∪ seen) <= max_nodes -> collecting ((node, false) :: rest) seen order ->
  collecting (map (fun i => (i, false)) (rev (inputs node)) ++ (node, true) :: rest) ({[node]} ∪ seen) order.
Proof.
  intros Hn Hz C. destruct C as [Cs Ce Cn Cd Cp Co Cr Cr' Crt Cz].
  assert (Hrev : forall x, (x, false) ∈ map (fun i => (i, false)) (rev (inputs node)) <-> x ∈ inputs node).
  { intros x. rewrite elem_of_map. setoid_rewrite list_elem_of_In. setoid_rewrite <- in_rev. naive_solver. }
  assert (Htrue : forall x, (x, true) ∉ map (fun i => (i, false)) (rev (inputs node)))
    by (intros x (i & [=] & _)%elem_of_map).
  split; try done.
  - apply pushed_inputs_sorted; [|done]. apply Forall_rev, Forall_forall. intros x Hx. by apply grounded.
  - intros x. rewrite elem_of_union, elem_of_singleton, elem_of_app, elem_of_cons, Ce, elem_of_cons. specialize (Htrue x). naive_solver.
  - intros x Hx [?|[[= ->]|Hr]%elem_of_cons]%elem_of_app; [by eapply Htrue| |].
    + apply Hn, Ce. auto.
    + apply (Cd _ Hx). by right.
  - intros pre g post x E Hx.
    apply app_eq_inv in E as [(k & Ep & E)|(k & Ep & E)].
    + destruct k as [|e k]; simpl in E.
      * injection E as <- <-. rewrite app_nil_r in Ep. subst pre. right. by apply Hrev.
      * exfalso. injection E as <- _. apply (Htrue g). rewrite Ep. apply elem_of_app. right. left.
    + destruct k as [|e k]; simpl in E.
      * injection E as -> ->. rewrite app_nil_r in Ep. subst pre. right. by apply Hrev.
      * injection E as <- ->. destruct (Cp ((node, false) :: k) g post x eq_refl Hx) as [?|[[= ->]|?]%elem_of_cons].
        -- left. set_solver.
        -- left. set_solver.
        -- right. rewrite Ep. apply elem_of_app. right. by right.
  - intros x b [(i & [= -> ->] & Hi)%elem_of_map|[[= -> ->]|Hr]%elem_of_cons]%elem_of_app.
    + eapply reaches_input; [eapply (Cr node); left|]. by rewrite list_elem_of_In, in_rev, <- list_elem_of_In.
    + eapply Cr. left.
    + eapply Cr. right. exact Hr.
  - destruct Crt as [?|[[= <-]|?]%elem_of_cons]; [set_solver|set_solver|].
    right. apply elem_of_app. right. by right.
Qed.

Definition unseen (seen : gset nat) : nat := size (set_seq (C:=gset nat) 0 (length ks) ∖ seen).

Lemma unseen_less node seen : node < length ks -> node ∉ seen -> unseen ({[node]} ∪ seen) < unseen seen.
Proof using Type.
  clear grounded root_in root. intros Hl Hn. unfold unseen. apply subset_size. split; [set_solver|]. intros H. specialize (H node).
  assert (node ∈ set_seq (C:=gset nat) 0 (length ks)) by (apply elem_of_set_seq; lia). set_solver.
Qed.

Lemma inputs_short node : length (inputs node) <= 2.
Proof using Type. clear grounded root_in root. unfold structural_inputs. destruct (ks !! node) as [[]|]; simpl; lia. Qed.

Lemma collect_loop_spec fuel stack seen order :
  collecting stack seen order -> length stack + 3 * unseen seen <= fuel ->
  match collect_loop ks max_nodes fuel stack seen order with
  | Ok order' => exists seen', collecting [] seen' order'
  | Err d => d = mkDiagnostic "PIPELINE-LIMIT-002" /\
      exists s : gset nat, max_nodes < size s /\ forall x, x ∈ s -> reaches inputs root x
  end.
Proof.
  revert stack seen order. induction fuel as [|fuel IH]; intros stack seen order C Hf.
  { destruct stack; [|simpl in Hf; lia]. by exists seen. }
  destruct stack as [|[node []] rest]; cbn [collect_loop]; [by exists seen| |].
  - apply IH; [by apply collecting_emit|simpl in Hf; lia].
  - destruct (decide (node ∈ seen)) as [Hin|Hin].
    { apply IH; [by eapply collecting_skip|simpl in Hf; lia]. }
    assert (Hreach : reaches inputs root node) by (eapply (co_reach _ _ _ C); left).
    apply (reaches_below _ _ _ grounded) in Hreach as Hb.
    pose proof (unseen_less node seen ltac:(lia) Hin) as Hu.
    destruct (Nat.leb_spec (size ({[node]} ∪ seen)) max_nodes) as [Hz|Hz]; cbn [guard rbind].
    + apply IH; [by apply collecting_expand|]. rewrite length_app, length_map, length_rev. simpl in *.
      pose proof (inputs_short node). lia.
    + split; [done|]. exists ({[node]} ∪ seen). split; [done|].
      intros x [->%elem_of_singleton|Hx]%elem_of_union; [done|].
      apply (co_seen _ _ _ C) in Hx as [?|?]; [by apply (co_reached _ _ _ C)|by eapply (co_reach _ _ _ C)].
Qed.

(** An order in which every input comes before its user. *)
Definition inputs_first (order : list nat) : Prop :=
  forall k i x, order !! k = Some i -> x ∈ inputs i -> x ∈ take k order.

Lemma collect_nodes_spec :
  match collect_nodes ks root max_nodes with
  | Ok order => NoDup order /\ inputs_first order /\ (forall x, x ∈ order <-> reaches inputs root x) /\
      length order <= max_nodes
  | Err d => d = mkDiagnostic "PIPELINE-LIMIT-002" /\
      exists s : gset nat, max_nodes < size s /\ forall x, x ∈ s -> reaches inputs root x
  end.
Proof.
  pose proof (collect_loop_spec (S (3 * length ks)) [(root, false)] ∅ [] collecting_start) as H.
  unfold collect_nodes. destruct (collect_loop _ _ _ _ _ _) as [order|d].
  - destruct H as (seen & [_ Ce Cn _ _ Co _ Cr Crt Cz]).
    { unfold unseen. rewrite difference_empty_L, size_set_seq. simpl. lia. }
    assert (Hs : forall x, x ∈ seen <-> x ∈ order)
      by (intros x; rewrite Ce; split; [intros [?|H%not_elem_of_nil]; done|auto]).
    split_and!; [done|done| |].
    + intros x. split; [apply Cr|]. apply (reaches_closed inputs (fun i => i ∈ order)).
      * intros i y (k & Hk)%list_elem_of_lookup Hy. apply (subseteq_take k). exact (Co _ _ _ Hk Hy).
      * destruct Crt as [?|?%not_elem_of_nil]; [by apply Hs|done].
    + replace (length order) with (size seen); [done|].
      assert (E : seen = list_to_set order) by (apply set_eq; intros x; rewrite Hs, elem_of_list_to_set; done).
      rewrite E. by apply size_list_to_set.
  - apply H. unfold unseen. rewrite difference_empty_L, size_set_seq. simpl. lia.
Qed.
End Collect.

(** ** Subqueries of expressions *)
Section SubqueriesOf.
Context {F : Foreign}.

Definition node_exists (n : ExprNode) : list Subquery := match e_kind n with EExists q => [q] | _ => [] end.
Definition node_subqueries (n : ExprNode) : list Subquery := flat_map node_exists (subexprs n).

Lemma node_subqueries_eq n : node_subqueries n = node_exists n ++ flat_map node_subqueries (expr_children n).
Proof.
  unfold node_subqueries. rewrite subexprs_eq. cbn [flat_map]. f_equal.
  induction (expr_children n) as [|c l IH]; [done|]. cbn [flat_map]. by rewrite flat_map_app, IH.
Qed.

Lemma child_subqueries n c : c ∈ expr_children n -> node_subqueries c ⊆ node_subqueries n.
Proof. intros Hc q Hq. rewrite node_subqueries_eq. apply elem_of_app. right. apply elem_of_flat_map. eauto. Qed.

Lemma subquery_loop_eq fuel stack output :
  list_sum (map expr_size stack) <= fuel -> subquery_loop fuel stack output = output ++ flat_map node_subqueries stack.
Proof.
  revert stack output. induction fuel as [|fuel IH]; intros stack output Hf.
  { destruct stack as [|[k t] stack]; simpl in *; [by rewrite app_nil_r|lia]. }
  destruct stack as [|n stack]; cbn [subquery_loop flat_map]; [by rewrite app_nil_r|].
  cbn [map list_sum fold_right] in Hf. rewrite expr_size_eq in Hf. rewrite node_subqueries_eq. unfold node_exists.
  assert (Hrest : list_sum (map expr_size (expr_children n ++ stack)) <= fuel)
    by (rewrite map_app, list_sum_app; change (fold_right Nat.add 0 (map expr_size stack)) with (list_sum (map expr_size stack)) in Hf; lia).
  destruct n as [k t]; cbn [e_kind]. destruct k; try (rewrite IH by exact Hrest; by rewrite flat_map_app).
  rewrite IH; [|exact Hrest]. cbn. by rewrite <- app_assoc.
Qed.

Lemma spec_subqueries_eq e : spec_subqueries e = node_subqueries (spec_node e).
Proof. unfold spec_subqueries. rewrite subquery_loop_eq by (simpl; lia). simpl. by rewrite app_nil_r. Qed.

(** Rebalancing a conjunction keeps its subqueries. *)
Lemma leaves_subqueries n : flat_map node_subqueries (and_leaves n) = node_subqueries n.
Proof.
  induction n as [k t IH] using expr_ind'. destruct k; try (cbn; by rewrite ?app_nil_r).
  destruct op; try (cbn; by rewrite ?app_nil_r).
  cbn [kind_children] in IH. rewrite !Forall_cons in IH. destruct IH as (Hl & Hr & _).
  cbn [and_leaves]. rewrite flat_map_app, Hl, Hr, (node_subqueries_eq (mkExpr _ _)). cbn. by rewrite app_nil_r.
Qed.

Lemma canonical_subqueries e : spec_subqueries (canonical_truth e) = spec_subqueries e.
Proof.
  rewrite !spec_subqueries_eq. destruct (canonical_balance e) as (n & -> & E).
  pose proof (balance_leaves (length (and_leaves (spec_node e))) (and_leaves (spec_node e))) as H.
  rewrite E, and_leaves_idem in H. cbn [flat_map] in H. rewrite app_nil_r in H.
  by rewrite <- (leaves_subqueries n), H, leaves_subqueries.
Qed.

Lemma and_truth_subqueries a b : spec_subqueries (and_truth a b) = spec_subqueries a ++ spec_subqueries b.
Proof.
  unfold and_truth. rewrite canonical_subqueries, !spec_subqueries_eq, node_subqueries_eq. cbn. by rewrite app_nil_r.
Qed.

(** Normalization drops subqueries but introduces none. *)
Definition normal_subqueries (n : ExprNode) : Prop := forall n', normalize_node n = Ok n' -> node_subqueries n' ⊆ node_subqueries n.

Lemma literal_subqueries d t : node_subqueries (mkExpr (ELiteral d) t) = [].
Proof. done. Qed.

Lemma rebuilt_subqueries n n' : node_exists n' = [] ->
  (forall c', c' ∈ expr_children n' -> exists c, c ∈ expr_children n /\ node_subqueries c' ⊆ node_subqueries c) ->
  node_subqueries n' ⊆ node_subqueries n.
Proof.
  intros E H q. rewrite node_subqueries_eq, E. intros (c' & Hc' & Hq)%elem_of_flat_map.
  destruct (H c' Hc') as (c & Hc & Hs). apply (child_subqueries n c Hc), Hs, Hq.
Qed.

Lemma mapR_normal_subqueries l l' : Forall normal_subqueries l -> mapR normalize_node l = Ok l' ->
  forall c', c' ∈ l' -> exists c, c ∈ l /\ node_subqueries c' ⊆ node_subqueries c.
Proof.
  intros Hl H%mapR_ok. revert Hl. induction H as [|c c' l l' Hc _ IH]; intros Hl x Hx; [by apply not_elem_of_nil in Hx|].
  apply Forall_cons in Hl as [Hn Hl]. apply elem_of_cons in Hx as [->|Hx].
  - exists c. split; [left|by apply Hn].
  - destruct (IH Hl x Hx) as (y & ? & ?). exists y. split; [by right|done].
Qed.

Lemma normalize_subqueries n : normal_subqueries n.
Proof.
  induction n as [k t IH] using expr_ind'. intros n' Hn.
  destruct k; cbn [kind_children] in IH; cbn [normalize_node] in Hn; rewrite ?Forall_cons in IH;
    try (injection Hn as <-; done).
  - destruct IH as [Ha _]. apply rbind_ok in Hn as (a' & Hn' & Hn). specialize (Ha _ Hn').
    assert (Hre : node_subqueries (mkExpr (EUnary op a') t) ⊆ node_subqueries (mkExpr (EUnary op input) t)).
    { apply rebuilt_subqueries; [done|]. intros c' ->%list_elem_of_singleton. exists input. split; [left|done]. }
    destruct a' as [ka ta]; cbn [e_kind] in Hn.
    destruct op, ka; try (injection Hn as <-; exact Hre);
      try (apply rbind_ok in Hn as (? & _ & [= <-]); rewrite literal_subqueries; set_solver).
    match type of Hn with match ?o with _ => _ end = _ => destruct o end; injection Hn as <-; exact Hre.
  - destruct IH as (Ha & Hb & _). apply rbind_ok in Hn as (a' & Ea & Hn). specialize (Ha _ Ea).
    assert (Hfold : forall b', normalize_node r = Ok b' -> fold_binary op a' b' t = Ok n' ->
      node_subqueries n' ⊆ node_subqueries (mkExpr (EBinary op l r) t)).
    { intros b' Eb Hf. specialize (Hb _ Eb).
      assert (Hre : node_subqueries (mkExpr (EBinary op a' b') t) ⊆ node_subqueries (mkExpr (EBinary op l r) t)).
      { apply rebuilt_subqueries; [done|]. intros c' [->|[->|H%not_elem_of_nil]%elem_of_cons]%elem_of_cons; [| |done].
        - exists l. split; [left|done].
        - exists r. split; [right; left|done]. }
      unfold fold_binary in Hf. destruct (literal_value a'), (literal_value b'); try (injection Hf as <-; exact Hre).
      apply rbind_ok in Hf as (? & _ & [= <-]). rewrite literal_subqueries. set_solver. }
    assert (Hplain : rbind (normalize_node r) (fun b' => fold_binary op a' b' t) = Ok n' ->
      node_subqueries n' ⊆ node_subqueries (mkExpr (EBinary op l r) t)) by (intros (b' & Eb & Hf)%rbind_ok; by eapply Hfold).
    destruct op; try (by apply Hplain). destruct (literal_value a') as [[| |v]|]; try (by apply Hplain).
    + etransitivity; [by apply Hb|]. apply child_subqueries. right. left.
    + etransitivity; [by apply Hb|]. apply child_subqueries. right. left.
    + injection Hn as <-. rewrite literal_subqueries. set_solver.
  - destruct IH as [Ha Hl]. apply rbind_ok in Hn as (a' & Ea & (l' & El & (l2 & Es & Hn)%rbind_ok)%rbind_ok). specialize (Ha _ Ea).
    pose proof (mapR_normal_subqueries _ _ Hl El) as Hl'. apply sort_candidates_perm in Es.
    assert (Hre : node_subqueries (mkExpr (EMembership a' l2 negate) t) ⊆ node_subqueries (mkExpr (EMembership input candidates negate) t)).
    { apply rebuilt_subqueries; [done|]. cbn. intros c' [->|Hc]%elem_of_cons.
      - exists input. split; [left|done].
      - rewrite Es in Hc. destruct (Hl' _ Hc) as (c & ? & ?). exists c. split; [by right|done]. }
    destruct (literal_value a'); [|by injection Hn as <-]. destruct (forallb is_literal l2); [|by injection Hn as <-].
    apply rbind_ok in Hn as (? & _ & [= <-]). rewrite literal_subqueries. set_solver.
  - destruct IH as (Hc & Ha & Hb & _). apply rbind_ok in Hn as (c' & Ec & Hn). specialize (Hc _ Ec).
    assert (Hre : rbind (normalize_node when_true) (fun a' => rbind (normalize_node when_false) (fun b' =>
        Ok (mkExpr (EConditional c' a' b') t))) = Ok n' ->
      node_subqueries n' ⊆ node_subqueries (mkExpr (EConditional condition when_true when_false) t)).
    { intros (a' & Ea & (b' & Eb & [= <-])%rbind_ok)%rbind_ok. apply rebuilt_subqueries; [done|]. cbn.
      intros x [->|[->|[->|H%not_elem_of_nil]%elem_of_cons]%elem_of_cons]%elem_of_cons; [| | |done].
      - exists condition. split; [left|done].
      - exists when_true. split; [right; left|by apply Ha].
      - exists when_false. split; [right; right; left|by apply Hb]. }
    assert (Hone : forall x, x ∈ [when_true; when_false] -> normal_subqueries x -> normalize_node x = Ok n' ->
      node_subqueries n' ⊆ node_subqueries (mkExpr (EConditional condition when_true when_false) t)).
    { intros x Hx Hnx Ex. etransitivity; [by apply Hnx|]. apply child_subqueries. by right. }
    destruct (literal_value c') as [d|]; [|by apply Hre]. destruct d as [| |v]; try (by apply Hre).
    destruct v as [|tr| | | | | | | | | | | | | | | | | | ]; try (by apply Hre).
    destruct tr; [apply (Hone when_true)|apply (Hone when_false)|apply (Hone when_false)]; try done; set_solver.
  - apply rbind_ok in Hn as (l' & El & Hn). pose proof (mapR_normal_subqueries _ _ IH El) as Hl'.
    destruct (_ && _).
    + apply rbind_ok in Hn as (? & _ & [= <-]). rewrite literal_subqueries. set_solver.
    + injection Hn as <-. apply rebuilt_subqueries; [done|exact Hl'].
Qed.
End SubqueriesOf.

(** ** Growing the pool changes no pipeline *)
Section Extend.
Context {F : Foreign}.

(** Every node refers, structurally or through a subquery, to earlier ones. *)
Definition grounded (ks : list PipelineKind) : Prop := forall i x, x ∈ all_inputs ks i -> x < i.

Lemma structural_all ks i x : x ∈ structural_inputs ks i -> x ∈ all_inputs ks i.
Proof. unfold structural_inputs, all_inputs. destruct (ks !! i); [|done]. intros ?. apply elem_of_app. by left. Qed.

Lemma grounded_structural ks : grounded ks -> forall i x, x ∈ structural_inputs ks i -> x < i.
Proof. intros G i x H%structural_all. by apply G. Qed.

Lemma structural_extend ks l i : i < length ks -> structural_inputs (ks ++ l) i = structural_inputs ks i.
Proof. intros H. unfold structural_inputs. by rewrite lookup_app_l. Qed.

Lemma collect_loop_extend ks l max_nodes root f f' stack seen order :
  (forall i x, x ∈ structural_inputs ks i -> x < i) -> root < length ks ->
  collecting ks max_nodes root stack seen order ->
  length stack + 3 * unseen ks seen <= f -> length stack + 3 * unseen ks seen <= f' ->
  collect_loop (ks ++ l) max_nodes f' stack seen order = collect_loop ks max_nodes f stack seen order.
Proof.
  intros G Hr. revert f' stack seen order. induction f as [|f IH]; intros f' stack seen order C H1 H2.
  { destruct stack; [|simpl in H1; lia]. by destruct f'. }
  destruct stack as [|[node e] rest]; [by destruct f'|]. destruct f' as [|f']; [simpl in H2; lia|].
  destruct e; cbn [collect_loop].
  - apply IH; [by apply collecting_emit|simpl in *; lia..].
  - destruct (decide (node ∈ seen)) as [Hin|Hin].
    { apply IH; [by eapply collecting_skip|simpl in *; lia..]. }
    assert (Hreach : reaches (structural_inputs ks) root node) by (eapply (co_reach _ _ _ _ _ _ C); left).
    apply (reaches_below _ _ _ G) in Hreach as Hb. rewrite structural_extend by lia.
    pose proof (unseen_less ks node seen ltac:(lia) Hin) as Hu. pose proof (inputs_short ks node) as Hs.
    destruct (Nat.leb_spec (size ({[node]} ∪ seen)) max_nodes) as [Hz|Hz]; cbn [guard rbind]; [|done].
    apply IH; [by apply collecting_expand|rewrite length_app, length_map, length_rev; simpl in *; lia..].
Qed.

Lemma collect_nodes_extend ks l root max_nodes : grounded ks -> root < length ks ->
  collect_nodes (ks ++ l) root max_nodes = collect_nodes ks root max_nodes.
Proof.
  intros G Hr. unfold collect_nodes.
  assert (Hu : unseen ks ∅ = length ks) by (unfold unseen; by rewrite difference_empty_L, size_set_seq).
  apply collect_loop_extend with (root := root); try done.
  - by apply grounded_structural.
  - apply collecting_start; [by apply grounded_structural|done].
  - rewrite Hu. simpl. lia.
  - rewrite Hu, length_app. simpl. lia.
Qed.

(** What a successful collection says of its order. *)
Lemma collected ks root max_nodes order : grounded ks -> root < length ks ->
  collect_nodes ks root max_nodes = Ok order ->
  NoDup order /\ inputs_first ks order /\ (forall x, x ∈ order <-> reaches (structural_inputs ks) root x).
Proof.
  intros G Hr H. pose proof (collect_nodes_spec ks max_nodes root (grounded_structural _ G) Hr) as C.
  rewrite H in C. tauto.
Qed.

Lemma collected_range ks root max_nodes order x : grounded ks -> root < length ks ->
  collect_nodes ks root max_nodes = Ok order -> x ∈ order -> x <= root.
Proof.
  intros G Hr H Hx. destruct (collected _ _ _ _ G Hr H) as (_ & _ & Hin). apply Hin in Hx.
  eapply reaches_below; [|exact Hx]. by apply grounded_structural.
Qed.

Lemma fingerprint_extend ks l root : grounded ks -> root < length ks ->
  fingerprint_authoring_node (ks ++ l) root = fingerprint_authoring_node ks root.
Proof.
  intros G Hr. unfold fingerprint_authoring_node. rewrite collect_nodes_extend by done.
  destruct (collect_nodes ks root default_max_nodes) as [order|] eqn:E; cbn [rbind]; [|done].
  assert (Hs : forall fps, foldR (fingerprint_step (ks ++ l)) order fps = foldR (fingerprint_step ks) order fps).
  { intros fps. apply foldR_ext. intros x s Hx. apply (collected_range _ _ _ _ _ G Hr E) in Hx.
    unfold fingerprint_step, kind_of. by rewrite lookup_app_l by lia. }
  by rewrite Hs.
Qed.

(** Preparation consults the resolver on the subqueries of the expression only. *)
Lemma compile_node_mode_agree {St : Type} (r1 r2 : Subquery -> St -> Result ((nat * Fingerprint) * St)) bc n :
  (forall q st, q ∈ node_subqueries n -> r1 q st = r2 q st) ->
  forall allow s, compile_node_mode r1 bc n allow s = compile_node_mode r2 bc n allow s.
Proof.
  induction n as [k t IH] using expr_ind'. intros H allow s.
  assert (Hc : Forall (fun c => forall allow s, compile_node_mode r1 bc c allow s = compile_node_mode r2 bc c allow s) (kind_children k)).
  { apply Forall_forall. intros c Hc. rewrite Forall_forall in IH. apply IH; [done|]. intros q st Hq. apply H.
    by apply (child_subqueries (mkExpr k t) c Hc). }
  assert (Hl : forall l, Forall (fun c => forall allow s, compile_node_mode r1 bc c allow s = compile_node_mode r2 bc c allow s) l ->
    forall s, mapS (fun c => compile_node_mode r1 bc c false) l s = mapS (fun c => compile_node_mode r2 bc c false) l s).
  { clear. induction 1 as [|c l Hx _ IHl]; intros s; [done|]. cbn [mapS]. rewrite Hx.
    destruct (compile_node_mode r2 bc c false s); cbn [rbind]; [|done]. by rewrite IHl. }
  clear IH. destruct k; cbn [kind_children] in Hc; rewrite ?Forall_cons in Hc; cbn [compile_node_mode]; try done.
  - destruct Hc as [Ha _]. by rewrite Ha.
  - destruct Hc as (Ha & Hb & _). rewrite Ha. destruct (compile_node_mode r2 bc l false s); cbn [rbind]; [|done]. by rewrite Hb.
  - destruct Hc as (Ha & Hb). rewrite Ha. destruct (compile_node_mode r2 bc input false s); cbn [rbind]; [|done]. by rewrite (Hl _ Hb).
  - destruct Hc as (Ha & Hb & Hd & _). rewrite Ha. destruct (compile_node_mode r2 bc condition false s); cbn [rbind]; [|done].
    rewrite Hb. destruct (compile_node_mode r2 bc when_true false _); cbn [rbind]; [|done]. by rewrite Hd.
  - by rewrite (Hl _ Hc).
  - rewrite H; [done|]. left.
Qed.

Lemma prepare_agree {St : Type} (r1 r2 : Subquery -> St -> Result ((nat * Fingerprint) * St)) bc e limits outer st :
  (forall q st, q ∈ spec_subqueries e -> r1 q st = r2 q st) ->
  prepare_expression_with_existentials r1 bc e limits outer st = prepare_expression_with_existentials r2 bc e limits outer st.
Proof.
  intros H. unfold prepare_expression_with_existentials. destruct (guard _ "EXPR-SCOPE-007"); cbn [rbind]; [|done].
  destruct (check_expression_limits _ _); cbn [rbind]; [|done]. destruct (validate_expression_node (spec_node e) limits); cbn [rbind]; [|done].
  destruct (normalize_node (spec_node e)) as [n'|] eqn:En; cbn [rbind]; [|done].
  unfold ExprPrepare.compile_node. rewrite (compile_node_mode_agree r1 r2 bc n'); [done|]. intros q st' Hq. apply H.
  rewrite spec_subqueries_eq. by apply (normalize_subqueries _ _ En).
Qed.

Lemma compile_node_agree r1 r2 compiled b limits outer k :
  (forall scopes q b, q.1 ∈ push_all_inputs k -> r1 scopes q b = r2 scopes q b) ->
  PipelineCompile.compile_node r1 compiled b limits outer k = PipelineCompile.compile_node r2 compiled b limits outer k.
Proof.
  intros H. destruct k; try done. cbn [PipelineCompile.compile_node]. unfold compile_filter.
  destruct (require_compiled compiled input); cbn [rbind]; [|done]. destruct (combine_scopes _ _) as [scopes|]; cbn [rbind]; [|done].
  rewrite (prepare_agree (r1 scopes) (r2 scopes)); [done|]. intros q st Hq. apply H.
  apply elem_of_app. right. apply elem_of_map. by exists q.
Qed.

(** Neither later nodes nor more fuel than the root's index change what a
    pipeline compiles to. *)
Lemma compile_pipeline_extend ks l limits fuel fuel' root outer b :
  grounded ks -> root < length ks -> root < fuel -> root < fuel' ->
  compile_pipeline (ks ++ l) limits fuel' root outer b = compile_pipeline ks limits fuel root outer b.
Proof.
  intros G. revert fuel' root outer b. induction fuel as [|fuel IH]; intros fuel' root outer b Hr Hf Hf'; [lia|].
  destruct fuel' as [|fuel']; [lia|]. cbn [compile_pipeline]. rewrite collect_nodes_extend by done.
  destruct (collect_nodes ks root (pl_max_nodes limits)) as [order|] eqn:E; cbn [rbind]; [|done].
  match goal with |- rbind (foldR (compile_step _ ?r2 _ _) _ _) _ = rbind (foldR (compile_step _ ?r1 _ _) _ _) _ =>
    rewrite (foldR_ext (compile_step (ks ++ l) r2 limits outer) (compile_step ks r1 limits outer)) end; [done|].
  intros x s Hx. apply (collected_range _ _ _ _ _ G Hr E) in Hx. unfold compile_step, kind_of.
  rewrite lookup_app_l by lia. destruct (ks !! x) as [k|] eqn:Ek; cbn [ok_or rbind]; [|done].
  erewrite compile_node_agree; [done|]. intros scopes q b' Hq. cbn beta.
  assert (Hin : q.1 ∈ all_inputs ks x) by (unfold all_inputs; by rewrite Ek). apply G in Hin. rewrite (IH fuel') by lia. done.
Qed.

Lemma compile_extend ks l root limits : grounded ks -> root < length ks -> compile (ks ++ l) root limits = compile ks root limits.
Proof. intros G Hr. unfold compile. by rewrite (compile_pipeline_extend ks l limits (S root)) by (done || lia). Qed.
End Extend.

(** ** Pools that the public operations build *)
Section Authored.
Context {F : Foreign}.

(** An existential refers to a node of the pool and carries its identity. *)
Definition current (ks : list PipelineKind) (q : Subquery) : Prop :=
  fst q < length ks /\ snd q = fingerprint_authoring_node ks (fst q).
Definition authored (p : Pool) (e : ExpressionSpec) : Prop := Forall (current (kinds p)) (spec_subqueries e).

Definition selection_expressions (s : AggregateSelectionSpec) : list ExpressionSpec := omap ag_input (as_aggregates s).
Definition option_expressions (p : option ProjectionSpec) : list ExpressionSpec :=
  match p with Some p => ps_expressions p | None => [] end.
Definition window_expressions (w : WindowSpec) : list ExpressionSpec :=
  option_list (ws_input w) ++ option_expressions (ws_partition w) ++ map wo_expression (ws_order w).

(** The expressions of a node. *)
Definition kind_expressions (k : PipelineKind) : list ExpressionSpec :=
  match k with
  | KFilter _ condition => [condition]
  | KProject _ p => ps_expressions p
  | KAggregate _ groups s => option_expressions groups ++ selection_expressions s
  | KWindow _ w => window_expressions w
  | KSort _ e _ => [e]
  | KJoin _ _ _ condition => option_list condition
  | KSource _ | KUnnest _ | KDistinct _ | KSlice _ _ _ | KSet _ _ _ => []
  end.

Inductive authoring_step : Pool -> Pool -> Prop :=
| step_source p definition alias : authoring_step p (snd (from_source_alias p definition alias))
| step_filter p node condition : node < length p -> authored p condition ->
    authoring_step p (snd (pipeline_filter p node condition))
| step_select p node projection : node < length p -> Forall (authored p) (ps_expressions projection) ->
    authoring_step p (snd (pipeline_select p node projection))
| step_aggregate p node s : node < length p -> Forall (authored p) (selection_expressions s) ->
    authoring_step p (snd (pipeline_aggregate p node s))
| step_aggregate_by p node keys s : node < length p ->
    Forall (authored p) (ps_expressions keys) -> Forall (authored p) (selection_expressions s) ->
    authoring_step p (snd (pipeline_aggregate_by p node keys s))
| step_sort p node e d : node < length p -> authored p e -> authoring_step p (snd (pipeline_sort p node e d))
| step_distinct p node : node < length p -> authoring_step p (snd (pipeline_distinct p node))
| step_offset p node offset : node < length p -> authoring_step p (snd (pipeline_offset p node offset))
| step_limit p node limit : node < length p -> authoring_step p (snd (pipeline_limit p node limit))
| step_slice p node offset limit : node < length p -> authoring_step p (snd (pipeline_slice p node offset limit))
| step_join p node other condition join : node < length p -> other < length p -> authored p condition ->
    join ∈ [pipeline_join; pipeline_left_join; pipeline_right_join; pipeline_full_join] ->
    authoring_step p (snd (join p node other condition))
| step_cross_join p node other : node < length p -> other < length p ->
    authoring_step p (snd (pipeline_cross_join p node other))
| step_window p node w : node < length p -> Forall (authored p) (window_expressions w) ->
    authoring_step p (snd (pipeline_window p node w))
| step_set p node other operator : node < length p -> other < length p ->
    authoring_step p (snd (pipeline_set p node other operator))
| step_unnest p node : node < length p -> authoring_step p (snd (pipeline_unnest p node))
| step_prepare p node : node < length p -> authoring_step p (snd (prepared_plan node p)).

(** Handles point to earlier nodes, identities are current, and every kept
    plan is the one compilation would give. *)
Record pool_ok (p : Pool) : Prop := mkPoolOk {
  po_inputs : forall i k x, kinds p !! i = Some k -> x ∈ push_structural_inputs k -> x < i;
  po_subqueries : forall i k e q, kinds p !! i = Some k -> e ∈ kind_expressions k -> q ∈ spec_subqueries e ->
    fst q < i /\ current (kinds p) q;
  po_plans : forall i n plan, p !! i = Some n -> nd_default_plan n = Some plan ->
    compile (kinds p) i default_pipeline_limits = Ok plan
}.

Lemma pool_grounded p : pool_ok p -> grounded (kinds p).
Proof.
  intros O i x. unfold all_inputs. destruct (kinds p !! i) as [k|] eqn:E; [|by intros ?%not_elem_of_nil].
  intros [H|H]%elem_of_app; [by eapply po_inputs|]. destruct k; try by apply not_elem_of_nil in H.
  apply elem_of_map in H as (q & -> & Hq). by eapply (po_subqueries _ O _ _ condition q E); [left|].
Qed.

Lemma length_kinds p : length (kinds p) = length p.
Proof. apply length_map. Qed.

Lemma kinds_snoc p k plan : kinds (p ++ [mkPipelineNode k plan]) = kinds p ++ [k].
Proof. unfold kinds. by rewrite map_app. Qed.

Lemma current_extend ks l q : grounded ks -> current ks q -> current (ks ++ l) q.
Proof. intros G [H1 H2]. split; [rewrite length_app; lia|]. by rewrite fingerprint_extend. Qed.

(** A new node whose handles are in the pool keeps it well formed. *)
Lemma node_new_ok p k : pool_ok p -> (forall x, x ∈ push_structural_inputs k -> x < length p) ->
  Forall (authored p) (kind_expressions k) -> pool_ok (snd (node_new p k)).
Proof.
  intros O Hi He. pose proof (pool_grounded _ O) as G. unfold node_new. cbn [snd]. split; rewrite kinds_snoc.
  - intros i k' x [[_ Hk]|[-> <-]]%lookup_snoc_Some Hx; [by eapply po_inputs|]. rewrite length_kinds. by apply Hi.
  - intros i k' e q [[_ Hk]|[-> <-]]%lookup_snoc_Some Hin Hq.
    + destruct (po_subqueries _ O _ _ _ _ Hk Hin Hq). split; [done|]. by apply current_extend.
    + rewrite Forall_forall in He. specialize (He _ Hin). unfold authored in He. rewrite Forall_forall in He. specialize (He _ Hq).
      split; [by apply He|]. by apply current_extend.
  - intros i n plan [[Hl Hn]|[-> <-]]%lookup_snoc_Some Hp; [|done].
    rewrite compile_extend; [|done|by rewrite length_kinds]. by eapply po_plans.
Qed.

Lemma prepared_plan_ok p node : pool_ok p ->
  fst (prepared_plan node p) = match p !! node with Some _ => compile (kinds p) node default_pipeline_limits | None => fst (prepared_plan node p) end /\
  kinds (snd (prepared_plan node p)) = kinds p /\ pool_ok (snd (prepared_plan node p)).
Proof.
  intros O. unfold prepared_plan, cached_default_plan. destruct (p !! node) as [n|] eqn:En.
  - destruct (nd_default_plan n) as [plan|] eqn:Ep; cbn [fst snd].
    { split_and!; [|done|done]. symmetry. by eapply po_plans. }
    destruct (compile (kinds p) node default_pipeline_limits) as [plan|d] eqn:Ec; cbn [fst snd]; [|by split_and!].
    unfold cache_default_plan, cached_default_plan in *. cbn [fst snd].
    assert (Ek : kinds (alter (fun n => mkPipelineNode (nd_kind n) (Some (default plan (nd_default_plan n)))) node p) = kinds p).
    { unfold kinds. apply list_eq. intros i. rewrite !lookup_map. destruct (decide (i = node)) as [->|Hne].
      - rewrite list_lookup_alter_eq, En. done.
      - by rewrite list_lookup_alter_ne. }
    split_and!; [|done|].
    + rewrite list_lookup_alter_eq, En. cbn. by rewrite Ep.
    + split; rewrite Ek; [apply O..|]. intros i n' plan' Hn Hp.  destruct (decide (i = node)) as [->|Hne].
      * rewrite list_lookup_alter_eq, En in Hn. injection Hn as <-. cbn in Hp. rewrite Ep in Hp. cbn in Hp. by injection Hp as <-.
      * rewrite list_lookup_alter_ne in Hn by done. by eapply po_plans.
  - destruct (compile (kinds p) node default_pipeline_limits) as [plan|d]; cbn [fst snd]; [|by split_and!].
    unfold cache_default_plan, cached_default_plan in *. cbn [fst snd].
    assert (Ea : alter (fun n => mkPipelineNode (nd_kind n) (Some (default plan (nd_default_plan n)))) node p = p).
    { apply list_eq. intros i. destruct (decide (i = node)) as [->|Hne]; [by rewrite list_lookup_alter_eq, En|].
      by rewrite list_lookup_alter_ne. }
    by rewrite Ea.
Qed.

Lemma authored_canonical p e : authored p e -> authored p (canonical_truth e).
Proof. unfold authored. by rewrite canonical_subqueries. Qed.

Lemma authored_and p a b : authored p a -> authored p b -> authored p (and_truth a b).
Proof. unfold authored. rewrite and_truth_subqueries. intros. by apply Forall_app. Qed.

Lemma filter_ok p node condition : pool_ok p -> node < length p -> authored p condition ->
  pool_ok (snd (pipeline_filter p node condition)).
Proof.
  intros O Hn Hc%authored_canonical. unfold pipeline_filter.
  assert (Hplain : pool_ok (snd (node_new p (KFilter node (canonical_truth condition))))).
  { apply node_new_ok; [done|by intros x ->%list_elem_of_singleton|by constructor]. }
  destruct (p !! node) as [n|] eqn:En; cbn [fmap option_fmap option_map]; [|done].
  destruct (nd_kind n) eqn:Ek; try done.
  assert (E : kinds p !! node = Some (KFilter input condition0)) by (unfold kinds; by rewrite lookup_map, En, <- Ek).
  assert (Hin : input < node) by (eapply (po_inputs _ O _ _ input E); left).
  apply node_new_ok; [done| |].
  - intros x ->%list_elem_of_singleton. lia.
  - constructor; [|constructor]. apply authored_and; [|done]. apply Forall_forall. intros q Hq.
    by eapply (po_subqueries _ O _ _ condition0 q E); [left|].
Qed.

Lemma authoring_step_ok p p' : authoring_step p p' -> pool_ok p -> pool_ok p'.
Proof.
  assert (two : forall (a b x : nat) n, x ∈ [b; a] -> a < n -> b < n -> x < n)
    by (intros a b x n [->|[->|H%not_elem_of_nil]%elem_of_cons]%elem_of_cons; done).
  destruct 1; intros O; try (by apply filter_ok); try (by apply prepared_plan_ok);
    try (apply node_new_ok; [done|by intros x ->%list_elem_of_singleton|]; cbn [kind_expressions];
         try apply Forall_app; repeat constructor; done).
  - apply node_new_ok; [done|by intros x H%not_elem_of_nil|constructor].
  - repeat (apply elem_of_cons in H2 as [->|H2]; [apply node_new_ok; [done|intros x Hx; by eapply two|by repeat constructor]|]).
    by apply not_elem_of_nil in H2.
  - apply node_new_ok; [done|intros x Hx; by eapply two|constructor].
  - apply node_new_ok; [done|by intros x ->%list_elem_of_singleton|done].
  - apply node_new_ok; [done|intros x Hx; by eapply two|constructor].
Qed.

Lemma authored_pool_ok p p' : rtc authoring_step p p' -> pool_ok p -> pool_ok p'.
Proof. induction 1 as [|p1 p2 p3 Hs _ IH]; [done|]. intros O. apply IH. by eapply authoring_step_ok. Qed.

Lemma empty_pool_ok : pool_ok [].
Proof. split; by intros i. Qed.

(** Authoring only appends nodes. *)
Lemma authoring_step_extends p p' : authoring_step p p' -> pool_ok p -> exists l, kinds p' = kinds p ++ l.
Proof.
  destruct 1; intros O; try (eexists; unfold node_new; cbn [snd]; apply kinds_snoc).
  - unfold pipeline_filter. destruct (nd_kind <$> p !! node) as [[]|]; eexists; apply kinds_snoc.
  - repeat (apply elem_of_cons in H2 as [->|H2]; [eexists; apply kinds_snoc|]). by apply not_elem_of_nil in H2.
  - exists []. rewrite app_nil_r. by apply prepared_plan_ok.
Qed.

Lemma authoring_extends p p' : rtc authoring_step p p' -> pool_ok p -> exists l, kinds p' = kinds p ++ l.
Proof.
  induction 1 as [p|p1 p2 p3 Hs _ IH]; intros O; [exists []; by rewrite app_nil_r|].
  destruct (authoring_step_extends _ _ Hs O) as (l & E). destruct (IH (authoring_step_ok _ _ Hs O)) as (l' & E').
  exists (l ++ l'). by rewrite E', E, app_assoc.
Qed.

(** C10: on the graph that any sequence of public operations builds, collecting
    the nodes of a pipeline terminates with exactly the nodes its root
    reaches, each once and after its inputs, at most as many as the limit;
    it fails only with the limit's diagnostic, and only when the root
    reaches more nodes than that. *)
Theorem collect_nodes_exact p root max_nodes : rtc authoring_step [] p -> root < length p ->
  match collect_nodes (kinds p) root max_nodes with
  | Ok order => NoDup order /\ inputs_first (kinds p) order /\
      (forall x, x ∈ order <-> reaches (structural_inputs (kinds p)) root x) /\ length order <= max_nodes
  | Err d => d = mkDiagnostic "PIPELINE-LIMIT-002" /\
      exists s : gset nat, max_nodes < size s /\ forall x, x ∈ s -> reaches (structural_inputs (kinds p)) root x
  end.
Proof.
  intros A Hr. apply collect_nodes_spec; [|by rewrite length_kinds].
  apply grounded_structural, pool_grounded. exact (authored_pool_ok _ _ A empty_pool_ok).
Qed.

(** C9: the plan of a pipeline depends on nothing but the pipeline: however the
    graph has been built and grown since, and whichever plans its nodes have
    kept, asking for the plan returns what compiling the pipeline under
    default limits returned when it was made, its identity is the one it had
    then, and asking changes no node. *)
Theorem authored_plans_stable p p' node : rtc authoring_step [] p -> rtc authoring_step p p' -> node < length p ->
  fst (prepared_plan node p') = compile (kinds p) node default_pipeline_limits /\
  (forall limits, logical_plan_with_limits p' node limits = logical_plan_with_limits p node limits) /\
  fingerprint_authoring_node (kinds p') node = fingerprint_authoring_node (kinds p) node /\
  kinds (snd (prepared_plan node p')) = kinds p'.
Proof.
  intros A A' Hn. pose proof (authored_pool_ok _ _ A empty_pool_ok) as O. pose proof (authored_pool_ok _ _ A' O) as O'.
  destruct (authoring_extends _ _ A' O) as (l & E). pose proof (pool_grounded _ O) as G.
  assert (Hk : node < length (kinds p)) by (by rewrite length_kinds).
  destruct (prepared_plan_ok p' node O') as (H1 & H2 & _). split_and!; [| | |exact H2].
  - rewrite H1. assert (Hs : is_Some (p' !! node)).
    { apply lookup_lt_is_Some. rewrite <- length_kinds, E, length_app. lia. }
    destruct Hs as [n ->]. rewrite E. by apply compile_extend.
  - intros limits. unfold logical_plan_with_limits. rewrite E. by apply compile_extend.
  - rewrite E. by apply fingerprint_extend.
Qed.
End Authored.

(** ** A graph with a subquery *)
Definition sample_alias : list (PipelineNode (F:=sample_foreign)) :=
  snd (from_model_as (snd (from_model [] (Ok sample_model))) (Ok sample_model) "other").
Definition sample_exists : list (PipelineNode (F:=sample_foreign)) :=
  snd (pipeline_filter sample_alias 0 (pipeline_exists sample_alias 1)).
Definition sample_pool : list (PipelineNode (F:=sample_foreign)) := snd (pipeline_distinct sample_exists 2).

Lemma sample_pool_authored : rtc authoring_step [] sample_exists /\ rtc authoring_step sample_exists sample_pool.
Proof.
  assert (H1 : authoring_step (F:=sample_foreign) [] (snd (from_model [] (Ok sample_model)))) by apply step_source.
  assert (H2 : authoring_step (snd (from_model [] (Ok sample_model))) sample_alias) by apply step_source.
  assert (H3 : authoring_step sample_alias sample_exists).
  { apply step_filter; [simpl; lia|]. constructor; [|constructor]. split; [simpl; lia|reflexivity]. }
  split; [|apply rtc_once, step_distinct; simpl; lia]. eapply rtc_l; [exact H1|]. eapply rtc_l; [exact H2|]. by apply rtc_once.
Qed.

Lemma collect_nodes_exact_witness :
  collect_nodes (kinds sample_pool) 3 16 = Ok [0; 2; 3] /\
  (forall x, x ∈ [0; 2; 3] <-> reaches (structural_inputs (kinds sample_pool)) 3 x).
Proof.
  destruct sample_pool_authored as [A A']. split; [reflexivity|].
  apply (collect_nodes_exact sample_pool 3 16 (transitivity A A')). simpl. lia.
Defined.

Lemma authored_plans_stable_witness :
  fst (prepared_plan 2 (snd (prepared_plan 2 sample_pool))) = compile (kinds sample_exists) 2 default_pipeline_limits /\
  is_ok (compile (kinds sample_exists) 2 default_pipeline_limits) = true.
Proof.
  destruct sample_pool_authored as [A A']. split; [|reflexivity].
  apply (authored_plans_stable sample_exists (snd (prepared_plan 2 sample_pool)) 2 A); [|simpl; lia].
  eapply rtc_r; [exact A'|]. apply step_prepare. simpl. lia.
Defined.
