(* ===== verification/PipelineTyping.v ===== *)
(** * The static semantics of plans, and that compiled pipelines have it

    A typing judgement assigns to every node of a plan the sources its
    expressions can see and the shape of its rows.  Compilation produces
    typed, topologically ordered plans. *)
From Stdlib Require Import ZArith Lia.
From stdpp Require Import gmap sorting relations.
From S2P Require Import Prelude Mutation Foreign Truth BTree Text Types Values Fingerprint Model Expr ExprPrepare Plan Placement Executor Optimize Pipeline PipelineCompile PipelineGraph.

Local Open Scope Z_scope.

(** ** What preparation puts into an expression *)
Section Prepared.
Context {F : Foreign} {St : Type}.
Context (resolve : Subquery -> St -> Result ((nat * Fingerprint) * St)) (bc : BindContext).
Context (grow : relation St) (bound : St -> nat).
Hypothesis grow_order : PreOrder grow.
Hypothesis bound_mono : forall s s', grow s s' -> (bound s <= bound s')%nat.
Hypothesis resolved : forall q s id fp s', resolve q s = Ok ((id, fp), s') -> grow s s' /\ (id < bound s')%nat.

(** Compilation appends nodes whose subplans were resolved on the way. *)
Definition emits (s s' : list PreparedNode * St) : Prop :=
  grow (snd s) (snd s') /\ exists l, fst s' = fst s ++ l /\ Forall (fun q => q < bound (snd s'))%nat (flat_map node_existential l).

Lemma emits_refl s : emits s s.
Proof. split; [apply grow_order|]. exists []. split; [by rewrite app_nil_r|constructor]. Qed.

Lemma emits_trans s1 s2 s3 : emits s1 s2 -> emits s2 s3 -> emits s1 s3.
Proof.
  intros (G1 & l1 & E1 & F1) (G2 & l2 & E2 & F2). split; [by etransitivity|]. exists (l1 ++ l2).
  rewrite E2, E1, app_assoc. split; [done|]. rewrite flat_map_app. apply Forall_app. split; [|done].
  eapply Forall_impl; [exact F1|]. simpl. intros q Hq. apply bound_mono in G2. lia.
Qed.

Lemma emit_emits kind ty s r : emit kind ty s = Ok r ->
  (forall q, q ∈ node_existential (mkPreparedNode kind ty) -> (q < bound (snd s))%nat) -> emits s (snd r).
Proof.
  intros (id & _ & [= <-])%rbind_ok H. split; [done|]. exists [mkPreparedNode kind ty]. split; [done|].
  cbn [flat_map snd]. rewrite app_nil_r. apply Forall_forall. exact H.
Qed.

Lemma compile_node_emits n : forall allow s r, compile_node_mode resolve bc n allow s = Ok r -> emits s (snd r).
Proof.
  induction n as [k t IH] using expr_ind'.
  assert (Hl : forall l, Forall (fun n => forall allow s r, compile_node_mode resolve bc n allow s = Ok r -> emits s (snd r)) l ->
    forall s r, mapS (fun c => compile_node_mode resolve bc c false) l s = Ok r -> emits s (snd r)).
  { clear IH. induction 1 as [|c l Hc _ IH]; intros s r; [intros [= <-]; apply emits_refl|].
    intros (r1 & H1%Hc & (r2 & H2%IH & [= <-])%rbind_ok)%rbind_ok. by eapply emits_trans. }
  assert (He : forall kind s r, emit kind t s = Ok r -> (forall q fp, kind <> PExists q fp) -> emits s (snd r)).
  { intros kind s r E Hk. eapply emit_emits; [exact E|]. intros q Hq. unfold node_existential in Hq. cbn [pn_kind] in Hq.
    destruct kind; try by apply not_elem_of_nil in Hq. by destruct (Hk subquery fingerprint). }
  intros allow s r H. cbn [compile_node_mode] in H. apply rbind_ok in H as (r0 & Hk & H).
  destruct k; cbn [kind_children] in IH; rewrite ?Forall_cons in IH.
  - apply rbind_ok in Hk as (k & Hk & [= <-]). apply compile_field_kind in Hk as (a & b & c & ->). by eapply He.
  - injection Hk as <-. by eapply He.
  - injection Hk as <-. by eapply He.
  - destruct IH as [Ha _]. apply rbind_ok in Hk as (ra & H1%Ha & [= <-]). eapply emits_trans; [exact H1|by eapply He].
  - destruct IH as (Ha & Hb & _). apply rbind_ok in Hk as (ra & H1%Ha & (rb & H2%Hb & [= <-])%rbind_ok).
    eapply emits_trans; [exact H1|]. eapply emits_trans; [exact H2|by eapply He].
  - destruct IH as (Ha & Hb). apply rbind_ok in Hk as (ra & H1%Ha & (rb & H2%(Hl _ Hb) & [= <-])%rbind_ok).
    eapply emits_trans; [exact H1|]. eapply emits_trans; [exact H2|by eapply He].
  - destruct IH as (Ha & Hb & Hc & _).
    apply rbind_ok in Hk as (ra & H1%Ha & (rb & H2%Hb & (rc & H3%Hc & [= <-])%rbind_ok)%rbind_ok).
    eapply emits_trans; [exact H1|]. eapply emits_trans; [exact H2|]. eapply emits_trans; [exact H3|by eapply He].
  - apply rbind_ok in Hk as (ra & H1%(Hl _ IH) & [= <-]). eapply emits_trans; [exact H1|by eapply He].
  - apply rbind_ok in Hk as ([[id fp] s'] & Hq & [= <-]). apply resolved in Hq as [G Hid]. cbn [fst snd] in H.
    apply (emits_trans s (fst s, s')).
    + split; [done|]. exists []. split; [by rewrite app_nil_r|constructor].
    + eapply emit_emits; [exact H|]. intros q ->%list_elem_of_singleton. done.
Qed.

Lemma prepare_emits e limits outer s p s' :
  prepare_expression_with_existentials resolve bc e limits outer s = Ok (p, s') ->
  grow s s' /\ Forall (fun q => q < bound s')%nat (existential_dependencies p) /\
  pe_scopes p = map md_key (bc_models bc) /\ pe_outer_scope_count p = outer /\ pe_ty p = spec_ty e.
Proof.
  intros H. apply prepare_ok in H as Hp. destruct Hp as (n' & _ & _ & _ & Ht & Hc).
  unfold ExprPrepare.compile_node in Hc. apply compile_node_emits in Hc as (G & l & El & Fl). cbn [fst snd app] in *. subst l.
  split_and!; [done|exact Fl| | |done].
  - unfold prepare_expression_with_existentials in H. repeat (apply rbind_ok in H as (? & _ & H)). by injection H as <- _.
  - unfold prepare_expression_with_existentials in H. repeat (apply rbind_ok in H as (? & _ & H)). by injection H as <- _.
Qed.
End Prepared.

Section Typing.
Context {F : Foreign}.

(** ** Expressions *)
Definition scope_models (scopes : list Scope) : list ModelDef := map sc_model scopes.

(** An expression prepared in some sources, without subqueries. *)
Definition closed_expr (scopes : list Scope) (e : LogicalExpr) : Prop :=
  exists spec limits, prepare_expression spec (bind_context scopes) limits = Ok e.

Lemma bind_models scopes : bc_models (bind_context scopes) = scope_models scopes.
Proof.
  unfold bind_context. assert (G : forall c, bc_models (fold_left bind_scope_model scopes c) = bc_models c ++ scope_models scopes).
  { induction scopes as [|s scopes IH]; intros c; cbn [fold_left]; [by rewrite app_nil_r|]. rewrite IH. unfold scope_models. cbn [map].
    rewrite cons_middle, app_assoc. f_equal. unfold bind_scope_model. by destruct (sc_alias s), (sc_nullable s). }
  by rewrite G.
Qed.

Lemma closed_expr_facts scopes e : closed_expr scopes e ->
  existential_dependencies e = [] /\ pe_scopes e = map md_key (scope_models scopes) /\ pe_outer_scope_count e = 0%nat.
Proof.
  intros (spec & limits & ([p []] & H & ->)%rmap_ok). cbn [fst].
  destruct (prepare_emits reject_existential (bind_context scopes) (fun _ _ => True) (fun _ => 0%nat)
    ltac:(by split) ltac:(done) ltac:(done) _ _ _ _ _ _ H) as (_ & Hd & Hs & Ho & _).
  rewrite bind_models in Hs. split_and!; [|done|done].
  destruct (existential_dependencies p) as [|q l]; [done|]. apply Forall_cons in Hd as [Hq _]. lia.
Qed.

(** ** Operations *)
Record projection_typed (scopes : list Scope) (p : LogicalProjection) : Prop := mkProjectionTyped {
  pt_expressions : Forall (closed_expr scopes) (lp_expressions p);
  pt_type : validate_type (lp_ty p) default_definition_limits = Ok tt;
  pt_shape :
    match lp_kind p with
    | ProjectValue => map pe_ty (lp_expressions p) = [lp_ty p]
    | ProjectTuple => ty_shape (lp_ty p) = ShTuple (map pe_ty (lp_expressions p))
    | ProjectRecord => exists fields, ty_shape (lp_ty p) = ShRecord fields /\
        map field_name fields = lp_names p /\ map field_ty fields = map pe_ty (lp_expressions p)
    end
}.

Definition stable_key (ty : TypeDef) : Prop := equality (ty_properties ty) = true /\ keyable (ty_properties ty) = true.

Definition aggregate_typed (a : LogicalAggregate) : Prop :=
  match la_kind a, la_input a with
  | CountRows, None | CountPresent, Some _ => la_ty a = uint64_type
  | AggSum, Some e => exact_numeric (ty_properties (pe_ty e)) = true /\ la_ty a = nullable (pe_ty e)
  | (AggMin | AggMax), Some e =>
      ordering (ty_properties (pe_ty e)) = true /\ keyable (ty_properties (pe_ty e)) = true /\ la_ty a = nullable (pe_ty e)
  | _, _ => False
  end.

Record selection_typed (scopes : list Scope) (s : LogicalAggregateSelection) : Prop := mkSelectionTyped {
  st_inputs : Forall (closed_expr scopes) (omap la_input (ls_aggregates s));
  st_aggregates : Forall aggregate_typed (ls_aggregates s);
  st_shape :
    match ls_kind s with
    | SelectValue => map la_ty (ls_aggregates s) = [ls_ty s]
    | SelectTuple => ty_shape (ls_ty s) = ShTuple (map la_ty (ls_aggregates s))
    end
}.

(** The ordering keys include the identity of the only source, and rows still
    have distinct identities: no two rows tie. *)
Definition total_order (scopes : list Scope) (order : list SortExpr) : Prop :=
  exists s identity, scopes = [s] /\ md_identity (sc_model s) = Some identity /\ sc_identity_unique s = true /\
    forall key, key ∈ identity -> exists f k, model_field (sc_model s) key = Some f /\ k ∈ order /\
      direct_field (se_expression k) = Some (0%nat, fd_slot f).

Definition frame_proper (f : RowsFrame) : Prop :=
  rf_start f <> UnboundedFollowing /\ rf_end f <> UnboundedPreceding /\
  bound_position (rf_start f) <= bound_position (rf_end f).

Definition ranking_shape (w : LogicalWindow) : Prop :=
  lw_input w = None /\ lw_frame w = None /\ lw_ty w = uint64_type /\ lw_order w <> [].

Definition window_function_typed (scopes : list Scope) (w : LogicalWindow) : Prop :=
  match lw_kind w with
  | RowNumber => ranking_shape w /\ total_order scopes (lw_order w)
  | Rank | DenseRank => ranking_shape w
  | WindowSum => exists e f, lw_input w = Some e /\ lw_frame w = Some f /\
      exact_numeric (ty_properties (pe_ty e)) = true /\ lw_ty w = nullable (pe_ty e) /\ frame_proper f /\
      (f <> rows_frame_all -> lw_order w <> [] /\ total_order scopes (lw_order w))
  end.

Definition order_key_typed (scopes : list Scope) (k : SortExpr) : Prop :=
  closed_expr scopes (se_expression k) /\ ordering (ty_properties (pe_ty (se_expression k))) = true /\
  stable_key (pe_ty (se_expression k)).

Record window_typed (scopes : list Scope) (w : LogicalWindow) : Prop := mkWindowTyped {
  wt_scopes : scopes <> [];
  wt_partition : forall p, lw_partition w = Some p -> projection_typed scopes p /\ stable_key (lp_ty p);
  wt_order : Forall (order_key_typed scopes) (lw_order w);
  wt_input : forall e, lw_input w = Some e -> closed_expr scopes e;
  wt_function : window_function_typed scopes w
}.

(** ** Nodes: [st] describes the nodes before *)
Record Stage := mkStage { sg_scopes : list Scope; sg_output : Output }.

Inductive stage_typed (st : list Stage) : LogicalNode -> Stage -> Prop :=
| typed_source m alias :
    (forall a, alias = Some a -> validate_alias a = Ok tt) ->
    stage_typed st (NSource m alias) (mkStage [mkScope m alias false true] (OModel m))
| typed_filter i s outer binding c :
    st !! i = Some s -> combine_scopes outer (sg_scopes s) = Ok binding ->
    pe_scopes c = map md_key (scope_models binding) -> pe_outer_scope_count c = length outer ->
    Forall (fun q => q < length st)%nat (existential_dependencies c) ->
    stage_typed st (NFilter i c) s
| typed_project i s p :
    st !! i = Some s -> projection_typed (sg_scopes s) p -> stage_typed st (NProject i p) (mkStage [] (OValue (lp_ty p)))
| typed_reduce i s a :
    st !! i = Some s -> selection_typed (sg_scopes s) a -> stage_typed st (NAggregate i None a) (mkStage [] (OValue (ls_ty a)))
| typed_group i s g a :
    st !! i = Some s -> projection_typed (sg_scopes s) g -> stable_key (lp_ty g) -> selection_typed (sg_scopes s) a ->
    stage_typed st (NAggregate i (Some g) a) (mkStage [] (OValue (tuple [lp_ty g; ls_ty a])))
| typed_unnest i s ty element :
    st !! i = Some s -> sg_output s = OValue ty -> ty_shape ty = ShList element ->
    stage_typed st (NUnnest i element) (mkStage [] (OValue element))
| typed_window i s w :
    st !! i = Some s -> window_typed (sg_scopes s) w ->
    stage_typed st (NWindow i w) (mkStage (sg_scopes s) (OProduct [sg_output s; OValue (lw_ty w)]))
| typed_sort i s e d :
    st !! i = Some s -> closed_expr (sg_scopes s) e -> ordering (ty_properties (pe_ty e)) = true ->
    stage_typed st (NSort i [mkSortExpr e d]) s
| typed_distinct i s :
    st !! i = Some s -> validate_equality (sg_output s) = Ok tt -> stage_typed st (NDistinct i) s
| typed_slice i s offset limit :
    st !! i = Some s -> stage_typed st (NSlice i offset limit) s
| typed_join l r sl sr k c scopes :
    st !! l = Some sl -> st !! r = Some sr -> combine_scopes (sg_scopes sl) (sg_scopes sr) = Ok scopes ->
    (k = JCross <-> c = None) -> (forall e, c = Some e -> closed_expr scopes e) ->
    stage_typed st (NJoin l r k c)
      (mkStage (lift_join_scopes scopes (length (sg_scopes sl)) k) (join_output k (sg_output sl) (sg_output sr)))
| typed_set l r sl sr o :
    st !! l = Some sl -> st !! r = Some sr -> semantically_matches (sg_output sl) (sg_output sr) = true ->
    (requires_equality o = true -> validate_equality (sg_output sl) = Ok tt) ->
    stage_typed st (NSet l r o) (mkStage (compatible_set_scopes (sg_scopes sl) (sg_scopes sr) o) (sg_output sl)).

Inductive nodes_typed : list LogicalNode -> list Stage -> Prop :=
| typed_nil : nodes_typed [] []
| typed_snoc ns st n s : nodes_typed ns st -> stage_typed st n s -> nodes_typed (ns ++ [n]) (st ++ [s]).

Lemma nodes_typed_length ns st : nodes_typed ns st -> length st = length ns.
Proof. induction 1 as [|ns st n s _ IH]; [done|]. rewrite !length_app, IH. done. Qed.

(** A typed plan: its output is the output of its root. *)
Definition plan_typed (p : LogicalPlan) : Prop :=
  exists st s, nodes_typed (plan_nodes p) st /\ st !! plan_root p = Some s /\ plan_output p = plan_output_of (sg_output s).
End Typing.

(** ** What the checks of the compiler establish *)
Section Checks.
Context {F : Foreign}.

Lemma forallb2_types {A} (f : A -> TypeDef) l1 l2 : forallb2 (fun t a => type_eqb t (f a)) l1 l2 = true -> l1 = map f l2.
Proof.
  revert l2. induction l1 as [|t l1 IH]; intros [|a l2]; simpl; try done.
  rewrite andb_true_iff. intros [->%type_eqb_eq ->%IH]. done.
Qed.

Lemma record_components fields names (expressions : list LogicalExpr) :
  length names = length expressions -> length fields = length expressions ->
  forallb (fun c => String.eqb (field_name (fst c)) (fst (snd c)) && type_eqb (field_ty (fst c)) (pe_ty (snd (snd c))))
    (combine fields (combine names expressions)) = true ->
  map field_name fields = names /\ map field_ty fields = map pe_ty expressions.
Proof.
  revert names expressions. induction fields as [|f fields IH]; intros [|name names] [|e expressions]; simpl; try done.
  intros [= Hn] [= Hf]. rewrite !andb_true_iff. intros [[->%String.eqb_eq ->%type_eqb_eq] H].
  destruct (IH _ _ Hn Hf H) as [-> ->]. done.
Qed.

(** Every component of a record projection has a name. *)
Lemma projection_components_named p components : ps_kind p = ProjectRecord -> projection_components p = Ok components ->
  length (omap fst components) = length components.
Proof.
  intros Hk. unfold projection_components. rewrite Hk. intros [Hl%guard_ok%Nat.eqb_eq H]%check_then.
  apply check_then in H as [_ [= <-]].
  assert (Hall : Forall (fun c => is_Some (fst c)) (sort_by component_cmp (imap (fun i e => (ps_names p !! i, e)) (ps_expressions p)))).
  { apply Forall_forall. intros c Hc%sort_by_elem. apply elem_of_lookup_imap in Hc as (i & e & -> & He). cbn [fst].
    apply lookup_lt_is_Some. rewrite Hl. by eapply lookup_lt_Some. }
  induction Hall as [|c l [name Hc] _ IH]; [done|]. cbn. rewrite Hc. cbn. f_equal. exact IH.
Qed.

Lemma compile_projection_typed p scopes limits q :
  compile_projection p (bind_context scopes) limits = Ok q -> projection_typed scopes q /\ lp_ty q = ps_ty p.
Proof.
  unfold compile_projection. intros [Hv [_ (components & Hc & (expressions & He & [Hm [= <-]]%check_then)%rbind_ok)%rbind_ok]%check_then]%check_then.
  split; [|done]. split; [| exact Hv |].
  - apply mapR_ok in He. apply Forall_forall. intros e (i & Hi)%list_elem_of_lookup.
    destruct (Forall2_lookup_r _ _ _ _ _ He Hi) as (c & _ & Hp). by exists (snd c), (pl_expression limits).
  - cbn [lp_kind lp_names lp_expressions lp_ty]. unfold projection_matches in Hm. destruct (ps_kind p) eqn:Ek; apply guard_ok in Hm.
    + destruct expressions as [|e [|]]; try done. apply type_eqb_eq in Hm. cbn. by rewrite Hm.
    + destruct (ty_shape (ps_ty p)); try done. by apply forallb2_types in Hm as ->.
    + destruct (ty_shape (ps_ty p)) as [| | | |fields]; try done. apply andb_true_iff in Hm as [Hl%Nat.eqb_eq Hm].
      exists fields. split; [done|]. apply record_components; [|done|done].
      rewrite (projection_components_named p _ Ek Hc). apply mapR_length in He. done.
Qed.

Lemma transpose_ok {A B} (f : A -> Result B) o o' : transpose f o = Ok o' ->
  match o, o' with Some a, Some b => f a = Ok b | None, None => True | _, _ => False end.
Proof. destruct o as [a|]; cbn [transpose]; [|by intros [= <-]]. by intros (b & ? & ->)%rmap_ok. Qed.

Lemma compile_aggregate_typed scopes limits a q : compile_aggregate (bind_context scopes) limits a = Ok q ->
  aggregate_typed q /\ la_ty q = ag_ty a /\ (forall e, la_input q = Some e -> closed_expr scopes e).
Proof.
  unfold compile_aggregate. intros (input & Hi & [Hv [= <-]]%check_then)%rbind_ok. cbn [la_ty la_input].
  split_and!; [|done|].
  - unfold aggregate_typed. cbn [la_kind la_input la_ty]. unfold validate_aggregate in Hv. destruct (ag_kind a).
    + apply guard_ok in Hv. destruct input; [done|]. by apply type_eqb_eq.
    + apply guard_ok in Hv. destruct input; [|done]. by apply type_eqb_eq.
    + apply rbind_ok in Hv as (e & ->%ok_or_ok & Hv). apply check_then in Hv as [_ Hv].
      apply check_then in Hv as [Hx%guard_ok Hv]. split; [done|]. by apply guard_ok, type_eqb_eq in Hv.
    + unfold validate_extreme in Hv. apply rbind_ok in Hv as (e & ->%ok_or_ok & Hv). apply check_then in Hv as [_ Hv].
      apply check_then in Hv as [[Ho Hk]%guard_ok%andb_true_iff Hv]. by apply guard_ok, type_eqb_eq in Hv.
    + unfold validate_extreme in Hv. apply rbind_ok in Hv as (e & ->%ok_or_ok & Hv). apply check_then in Hv as [_ Hv].
      apply check_then in Hv as [[Ho Hk]%guard_ok%andb_true_iff Hv]. by apply guard_ok, type_eqb_eq in Hv.
  - intros e ->. apply transpose_ok in Hi. destruct (ag_input a) as [spec|]; [|done]. by exists spec, (pl_expression limits).
Qed.

Lemma compile_selection_typed s scopes limits q : compile_aggregate_selection s (bind_context scopes) limits = Ok q ->
  selection_typed scopes q.
Proof.
  unfold compile_aggregate_selection. intros (aggregates & Ha%mapR_ok & [Hm [= <-]]%check_then)%rbind_ok.
  assert (Hall : forall a, a ∈ aggregates -> aggregate_typed a /\ (forall e, la_input a = Some e -> closed_expr scopes e)).
  { intros a (i & Hi)%list_elem_of_lookup. destruct (Forall2_lookup_r _ _ _ _ _ Ha Hi) as (c & _ & Hp).
    apply compile_aggregate_typed in Hp. tauto. }
  split; cbn [ls_aggregates ls_kind ls_ty].
  - apply Forall_forall. intros e (a & Hin & He)%list_elem_of_omap. by apply (Hall a Hin).
  - apply Forall_forall. intros a Hin. by apply Hall.
  - unfold selection_matches in Hm. destruct (as_kind s); apply guard_ok in Hm.
    + destruct aggregates as [|a [|]]; try done. apply type_eqb_eq in Hm. cbn. by rewrite Hm.
    + destruct (ty_shape (as_ty s)); try done. by apply forallb2_types in Hm as ->.
Qed.

Lemma total_order_ok scopes order : require_total_model_order scopes order = Ok tt -> total_order scopes order.
Proof.
  unfold require_total_model_order. destruct scopes as [|s [|]]; try done.
  intros (identity & Hi%ok_or_ok & [Hu%guard_ok Hf]%check_then)%rbind_ok. exists s, identity. split_and!; [done..|].
  rewrite forR_ok, Forall_forall in Hf. intros key Hkey. apply Hf in Hkey as (f & Hm%ok_or_ok & Hk%guard_ok)%rbind_ok.
  exists f. unfold orders_slot in Hk. apply existsb_exists in Hk as (k & Hin%list_elem_of_In & Hk). exists k. split_and!; [done..|].
  destruct (direct_field (se_expression k)) as [[a b]|]; [|done]. apply andb_true_iff in Hk as [->%Nat.eqb_eq ->%Nat.eqb_eq]. done.
Qed.

Lemma bound_eqb_eq a b : bound_eqb a b = true -> a = b.
Proof. destruct a, b; simpl; try done; by intros ->%Z.eqb_eq. Qed.

Lemma frame_proper_ok f : validate_frame f = Ok tt -> frame_proper f.
Proof.
  unfold validate_frame, frame_proper. intros H%guard_ok. apply negb_true_iff in H.
  apply orb_false_iff in H as [[H1 H2]%orb_false_iff H3%Z.ltb_ge].
  split_and!; [by destruct (rf_start f)|by destruct (rf_end f)|done].
Qed.

Lemma ranking_ok spec partition order input :
  validate_ranking_shape spec input order = Ok tt ->
  ranking_shape (mkWindow (ws_kind spec) input partition order (ws_frame spec) (ws_ty spec)).
Proof.
  unfold validate_ranking_shape, ranking_shape. intros [H1%guard_ok [H2%guard_ok H3%guard_ok]%check_then]%check_then. cbn.
  destruct input; [done|]. apply type_eqb_eq in H1. destruct (ws_frame spec); [done|]. split_and!; [done..|]. by destruct order.
Qed.

Lemma validate_window_ok spec partition order input scopes :
  validate_window spec input order scopes = Ok tt ->
  window_function_typed scopes (mkWindow (ws_kind spec) input partition order (ws_frame spec) (ws_ty spec)).
Proof.
  unfold validate_window, window_function_typed. cbn [lw_kind]. destruct (ws_kind spec) eqn:Ek.
  - intros [H1 H2]%check_then. rewrite <- Ek. split; [by apply ranking_ok|by apply total_order_ok].
  - intros H. rewrite <- Ek. by apply ranking_ok.
  - intros H. rewrite <- Ek. by apply ranking_ok.
  - unfold validate_window_sum. intros (e & ->%ok_or_ok & [_ [Hx%guard_ok [Ht%guard_ok%type_eqb_eq H]%check_then]%check_then]%check_then)%rbind_ok.
    apply rbind_ok in H as (f & Hf%ok_or_ok & [Hp%frame_proper_ok H]%check_then). exists e, f. cbn [lw_input lw_frame lw_ty lw_order].
    split_and!; [done..|]. intros Hne. destruct (frame_eqb f rows_frame_all) eqn:E.
    + exfalso. apply Hne. unfold frame_eqb in E. apply andb_true_iff in E as [E1%bound_eqb_eq E2%bound_eqb_eq]. destruct f. cbn in *. by subst.
    + cbn [negb] in H. apply check_then in H as [H1%guard_ok H2%total_order_ok]. split; [by destruct order|done].
Qed.

Lemma compile_window_typed scopes limits spec w : compile_window_spec scopes limits spec = Ok w ->
  window_typed scopes w /\ lw_ty w = ws_ty spec.
Proof.
  unfold compile_window_spec. intros [Hs%guard_ok (partition & Hp & (u & Hk & (order & Ho & (input & Hi & [Hw [= <-]]%check_then)%rbind_ok)%rbind_ok)%rbind_ok)%rbind_ok]%check_then.
  split; [|done]. split; cbn [lw_partition lw_order lw_input].
  - by destruct scopes.
  - intros p ->. apply transpose_ok in Hp, Hk. destruct (ws_partition spec) as [pspec|]; [|done].
    destruct u; [|done]. apply compile_projection_typed in Hp as [Hp _]. split; [done|].
    unfold validate_partition in Hk. by apply guard_ok, andb_true_iff in Hk.
  - apply mapR_ok in Ho. apply Forall_forall. intros k (i & Hk')%list_elem_of_lookup.
    destruct (Forall2_lookup_r _ _ _ _ _ Ho Hk') as (kspec & _ & (e & He & [Hg%guard_ok [= <-]]%check_then)%rbind_ok).
    apply andb_true_iff in Hg as [[Hg1 Hg2]%andb_true_iff Hg3]. unfold order_key_typed, stable_key. cbn [se_expression].
    split_and!; [by exists (wo_expression kspec), (pl_expression limits)|done..].
  - intros e ->. apply transpose_ok in Hi. destruct (ws_input spec) as [ispec|]; [|done]. by exists ispec, (pl_expression limits).
  - by apply validate_window_ok.
Qed.
End Checks.

(** ** Compilation builds typed plans *)
Section CompileTyped.
Context {F : Foreign}.

Definition sized (b : PlanBuilder) : Prop := Z.of_nat (length (pb_nodes b)) <= u32_max + 1.

(** What compilation recorded of a node is its type. *)
Definition compiled_as (st : list Stage) (c : Compiled) : Prop :=
  st !! cp_id c = Some (mkStage (cp_scopes c) (cp_output c)).

(** A builder that only grows keeps the types of its nodes. *)
Record grows (b b' : PlanBuilder) : Prop := mkGrows {
  gr_length : (length (pb_nodes b) <= length (pb_nodes b'))%nat;
  gr_sized : sized b -> sized b';
  gr_typed : forall st, nodes_typed (pb_nodes b) st -> exists l, nodes_typed (pb_nodes b') (st ++ l)
}.

#[local] Instance grows_order : PreOrder grows.
Proof.
  split.
  - intros b. split; [done|done|]. intros st H. exists []. by rewrite app_nil_r.
  - intros b1 b2 b3 [L1 S1 T1] [L2 S2 T2]. split; [lia|auto|]. intros st H.
    destruct (T1 st H) as (l1 & H1). destruct (T2 _ H1) as (l2 & H2). exists (l1 ++ l2). by rewrite app_assoc.
Qed.

(** The state of the compilation loop, relative to the builder it started with. *)
Record tracked (b0 : PlanBuilder) (m : CompiledNodes) (b : PlanBuilder) : Prop := mkTracked {
  tk_length : (length (pb_nodes b0) <= length (pb_nodes b))%nat;
  tk_sized : sized b0 -> sized b;
  tk_ids : forall i c, m !! i = Some c -> (cp_id c < length (pb_nodes b))%nat;
  tk_typed : forall st, nodes_typed (pb_nodes b0) st -> exists l, nodes_typed (pb_nodes b) (st ++ l) /\
    forall i c, m !! i = Some c -> compiled_as (st ++ l) c
}.

Lemma tracked_start b : tracked b ∅ b.
Proof.
  split; [done|done|by intros i c|]. intros st H. exists []. rewrite app_nil_r. split; [done|by intros i c].
Qed.

Lemma tracked_grow b0 m b b' : tracked b0 m b -> grows b b' -> tracked b0 m b'.
Proof.
  intros [L S I T] [L' S' T']. split; [lia|auto| |].
  - intros i c H%I. lia.
  - intros st H. destruct (T st H) as (l & H1 & H2). destruct (T' _ H1) as (l' & H3). exists (l ++ l'). rewrite app_assoc.
    split; [done|]. intros i c Hc. apply lookup_app_l_Some. by apply (H2 i).
Qed.

(** Pushing a node that is typed over the nodes so far. *)
Lemma push_tracked b0 m b n fp scopes output c b' node :
  tracked b0 m b ->
  (forall st, nodes_typed (pb_nodes b) st -> (forall i c, m !! i = Some c -> compiled_as st c) ->
     stage_typed st n (mkStage scopes output)) ->
  push_compiled b n fp scopes output = Ok (c, b') -> tracked b0 (<[node := c]> m) b'.
Proof.
  intros [L S I T] Hn. unfold push_compiled, plan_push. intros ([id b1] & (id' & Hid & [= <- <-])%rbind_ok & [= <- <-])%rbind_ok.
  cbn [fst snd]. apply check_then in Hid as [Hz%guard_ok%Z.leb_le [= <-]].
  split; cbn [pb_nodes].
  - rewrite length_app. simpl. lia.
  - intros _. unfold sized. cbn [pb_nodes]. rewrite length_app. simpl. lia.
  - intros i c. rewrite length_app. cbn [length]. intros [[<- <-]|[_ H%I]]%lookup_insert_Some; simpl; lia.
  - intros st H. destruct (T st H) as (l & H1 & H2). exists (l ++ [mkStage scopes output]). rewrite app_assoc. split.
    + constructor; [done|]. by apply Hn.
    + intros i c [[<- <-]|[_ Hc]]%lookup_insert_Some.
      * unfold compiled_as. cbn [cp_id cp_scopes cp_output]. apply nodes_typed_length in H1 as Hl.
        rewrite <- Hl. by apply list_lookup_middle.
      * apply lookup_app_l_Some. by apply (H2 i).
Qed.

(** Subqueries are compiled into the same plan. *)
Definition resolves (resolve : list Scope -> Subquery -> PlanBuilder -> Result ((nat * Fingerprint) * PlanBuilder)) : Prop :=
  forall scopes q b id fp b', resolve scopes q b = Ok ((id, fp), b') -> grows b b' /\ (id < length (pb_nodes b'))%nat.

Lemma compile_filter_tracked resolve m b limits outer input condition c b' b0 node :
  resolves resolve -> tracked b0 m b ->
  compile_filter resolve m b limits outer input condition = Ok (c, b') -> tracked b0 (<[node := c]> m) b'.
Proof.
  intros R T. unfold compile_filter.
  intros (ci & Hi%ok_or_ok & (binding & Hb & ([e b1] & He & (fp & _ & Hp)%rbind_ok)%rbind_ok)%rbind_ok)%rbind_ok.
  destruct (prepare_emits (resolve binding) (bind_context binding) grows (fun b => length (pb_nodes b)) _
    ltac:(by intros ? ? []) ltac:(intros; by eapply R) _ _ _ _ _ _ He) as (G & Hd & Hs & Ho & _).
  apply (tracked_grow _ _ _ _ T) in G. eapply push_tracked; [exact G| |exact Hp].
  intros st Hst Hm. eapply (typed_filter st (cp_id ci) (mkStage (cp_scopes ci) (cp_output ci)) outer binding).
  - by apply (Hm input).
  - done.
  - by rewrite Hs, bind_models.
  - done.
  - by rewrite (nodes_typed_length _ _ Hst).
Qed.

Lemma compile_node_tracked resolve m b limits outer k c b' b0 node :
  resolves resolve -> tracked b0 m b ->
  compile_node resolve m b limits outer k = Ok (c, b') -> tracked b0 (<[node := c]> m) b'.
Proof.
  intros R T. destruct k; cbn [compile_node].
  - unfold compile_source. intros (model & _ & [Ha Hp]%check_then)%rbind_ok. eapply push_tracked; [exact T| |exact Hp].
    intros st _ _. constructor. intros a E. by rewrite E in Ha.
  - by apply compile_filter_tracked.
  - unfold compile_project. intros (ci & Hi%ok_or_ok & (q & Hq & (fp & _ & Hp)%rbind_ok)%rbind_ok)%rbind_ok.
    eapply push_tracked; [exact T| |exact Hp]. intros st _ Hm. apply Hm in Hi. apply compile_projection_typed in Hq as [Hq _].
    by econstructor.
  - unfold compile_aggregate_node.
    intros (ci & Hi%ok_or_ok & (g & Hg%transpose_ok & (u & Hu%transpose_ok & (a & Ha%compile_selection_typed & (fp & _ & Hp)%rbind_ok)%rbind_ok)%rbind_ok)%rbind_ok)%rbind_ok.
    eapply push_tracked; [exact T| |exact Hp]. intros st _ Hm. apply Hm in Hi.
    destruct groups as [gspec|], g as [g|]; try done; [|by econstructor].
    destruct u; [|done]. apply compile_projection_typed in Hg as [Hg _]. econstructor; [exact Hi|done| |done].
    unfold validate_group_projection in Hu. by apply guard_ok, andb_true_iff in Hu.
  - unfold compile_unnest. intros (ci & Hi%ok_or_ok & (element & He%ok_or_ok & (fp & _ & Hp)%rbind_ok)%rbind_ok)%rbind_ok.
    eapply push_tracked; [exact T| |exact Hp]. intros st _ Hm. apply Hm in Hi.
    destruct (cp_output ci) as [|ty| |] eqn:Eo; try done. destruct (ty_shape ty) eqn:Et; try done. injection He as ->.
    econstructor; [exact Hi|cbn; exact Eo|exact Et].
  - unfold compile_window. intros (ci & Hi%ok_or_ok & (w & Hw & (fp & _ & Hp)%rbind_ok)%rbind_ok)%rbind_ok.
    eapply push_tracked; [exact T| |exact Hp]. intros st _ Hm. apply Hm in Hi. apply compile_window_typed in Hw as [Hw <-].
    by apply (typed_window st (cp_id ci) (mkStage (cp_scopes ci) (cp_output ci))).
  - unfold compile_sort. intros (ci & Hi%ok_or_ok & (e & He & [Ho%guard_ok (fp & _ & Hp)%rbind_ok]%check_then)%rbind_ok)%rbind_ok.
    eapply push_tracked; [exact T| |exact Hp]. intros st _ Hm. apply Hm in Hi.
    apply typed_sort; [exact Hi| |done]. by exists expression, (pl_expression limits).
  - unfold compile_distinct. intros (ci & Hi%ok_or_ok & [He (fp & _ & Hp)%rbind_ok]%check_then)%rbind_ok.
    eapply push_tracked; [exact T| |exact Hp]. intros st _ Hm. apply Hm in Hi. by apply typed_distinct.
  - unfold compile_slice. intros (ci & Hi%ok_or_ok & (fp & _ & Hp)%rbind_ok)%rbind_ok.
    eapply push_tracked; [exact T| |exact Hp]. intros st _ Hm. apply Hm in Hi. by apply typed_slice.
  - unfold compile_join.
    intros (cl & Hl%ok_or_ok & (cr & Hr%ok_or_ok & (scopes & Hs & (e & He & (fl & _ & (fr & _ & Hp)%rbind_ok)%rbind_ok)%rbind_ok)%rbind_ok)%rbind_ok)%rbind_ok.
    eapply push_tracked; [exact T| |exact Hp]. intros st _ Hm. apply Hm in Hl, Hr.
    apply (typed_join st _ _ (mkStage (cp_scopes cl) (cp_output cl)) (mkStage (cp_scopes cr) (cp_output cr))); try done.
    + unfold compile_join_condition in He. destruct kind, condition; try done;
        try (apply rmap_ok in He as (? & _ & ->); done). by injection He as <-.
    + intros e' ->. unfold compile_join_condition in He. destruct kind, condition as [spec|]; try done;
        apply rmap_ok in He as (? & He & [= ->]); by exists spec, (pl_expression limits).
  - unfold compile_set.
    intros (cl & Hl%ok_or_ok & (cr & Hr%ok_or_ok & [Hs%guard_ok [He (fl & _ & (fr & _ & Hp)%rbind_ok)%rbind_ok]%check_then]%check_then)%rbind_ok)%rbind_ok.
    eapply push_tracked; [exact T| |exact Hp]. intros st _ Hm. apply Hm in Hl, Hr.
    apply (typed_set st _ _ (mkStage (cp_scopes cl) (cp_output cl)) (mkStage (cp_scopes cr) (cp_output cr))); try done.
    intros Hq. by rewrite Hq in He.
Qed.

Lemma compile_steps_tracked ks resolve limits outer nodes b0 s s' :
  resolves resolve -> tracked b0 (fst s) (snd s) ->
  foldR (compile_step ks resolve limits outer) nodes s = Ok s' -> tracked b0 (fst s') (snd s').
Proof.
  intros R. revert s. induction nodes as [|node nodes IH]; intros s T; [by intros [= <-]|].
  cbn [foldR]. intros (s1 & (k & _ & ([c b] & Hc & [= <-])%rbind_ok)%rbind_ok & H)%rbind_ok. 
  exact (IH (<[node := c]> (fst s), b) (compile_node_tracked _ _ _ _ _ _ _ _ _ node R T Hc) H).
Qed.

Lemma compile_pipeline_tracked ks limits fuel root outer b c b' :
  compile_pipeline ks limits fuel root outer b = Ok (c, b') -> exists m, m !! root = Some c /\ tracked b m b'.
Proof.
  revert root outer b c b'. induction fuel as [|fuel IH]; intros root outer b c b'; [done|]. cbn [compile_pipeline].
  intros (nodes & _ & ([m b1] & Hs & (result & Hr%ok_or_ok & [= <- <-])%rbind_ok)%rbind_ok)%rbind_ok. exists m. split; [done|].
  eapply (compile_steps_tracked _ _ _ _ _ _ (∅, b) (m, b1)); [|by apply tracked_start|exact Hs].
  intros scopes q b2 id fp b3 ([c4 b4] & (m' & Hm & [L S I T])%IH & (fp' & _ & [= <- _ <-])%rbind_ok)%rbind_ok.
  split; [|by eapply I]. split; [done|done|]. intros st H. destruct (T st H) as (l & ? & _). by exists l.
Qed.

Lemma compile_nodes_typed ks root limits p : compile ks root limits = Ok p ->
  plan_typed p /\ Z.of_nat (length (plan_nodes p)) <= u32_max + 1.
Proof.
  unfold compile. intros ([c b] & (m & Hm & T)%compile_pipeline_tracked & Hf)%rbind_ok. cbn [fst snd] in Hf.
  unfold plan_finish in Hf. apply rbind_ok in Hf as (fp & _ & [= <-]). unfold plan_typed, logical_plan_new. cbn [plan_nodes plan_root plan_output].
  destruct (tk_typed _ _ _ T [] typed_nil) as (l & Hl & Hc). split; [|by apply (tk_sized _ _ _ T)].
  exists l, (mkStage (cp_scopes c) (cp_output c)). split_and!; [done|by apply (Hc root)|done].
Qed.

(** ** Typed plans are well formed *)
Lemma stage_typed_inputs st n s : stage_typed st n s -> Forall (fun x => x < length st)%nat (node_inputs n).
Proof. destruct 1; cbn [node_inputs]; repeat constructor; by eapply lookup_lt_Some. Qed.

Lemma closed_exprs scopes l : Forall (closed_expr scopes) l -> Forall (fun e => existential_dependencies e = []) l.
Proof. intros H. eapply Forall_impl; [exact H|]. intros e He. by apply closed_expr_facts in He as [? _]. Qed.

(** The optimizer's and the placement's view of a node's expressions agree. *)
Lemma omap_flat {A B} (f : A -> option B) l : flat_map (fun x => Optimize.option_list (f x)) l = omap f l.
Proof. induction l as [|x l IH]; [done|]. cbn. rewrite IH. by destruct (f x). Qed.

Lemma node_expressions_eq n : Optimize.node_expressions n = Placement.node_expressions n.
Proof.
  destruct n; cbn; try done.
  - rewrite omap_flat. destruct groups; cbn; by rewrite ?app_nil_r.
  - destruct (lw_input window), (lw_partition window); cbn; by rewrite ?app_nil_r.
Qed.

Lemma stage_typed_scoped st n s : stage_typed st n s -> well_scoped (length st) n.
Proof.
  destruct 1; cbn [well_scoped]; try rewrite node_expressions_eq; cbn [Placement.node_expressions]; try done.
  - by eapply closed_exprs, pt_expressions.
  - by eapply closed_exprs, st_inputs.
  - apply Forall_app. split; [by eapply closed_exprs, pt_expressions|by eapply closed_exprs, st_inputs].
  - destruct H0 as [_ Hp Ho Hi _]. rewrite !Forall_app. split_and!.
    + destruct (lw_input w) as [e|]; [|constructor]. constructor; [|constructor]. by apply (closed_expr_facts (sg_scopes s)), Hi.
    + destruct (lw_partition w) as [p|]; [|constructor]. destruct (Hp p eq_refl) as [Hp' _]. by eapply closed_exprs, pt_expressions.
    + rewrite Forall_map. eapply Forall_impl; [exact Ho|]. intros k [Hk _]. by apply closed_expr_facts in Hk as [? _].
  - constructor; [|constructor]. by apply closed_expr_facts in H0 as [? _].
  - destruct c as [e|]; [|constructor]. constructor; [|constructor]. by apply (closed_expr_facts scopes), H3.
Qed.

Lemma nodes_typed_lookup ns st i n : nodes_typed ns st -> ns !! i = Some n ->
  exists s, st !! i = Some s /\ stage_typed (take i st) n s.
Proof.
  induction 1 as [|ns st m s Ht IH Hm]; [done|]. pose proof (nodes_typed_length _ _ Ht) as Hl.
  intros [[Hi Hn]|[-> <-]]%lookup_snoc_Some.
  - destruct (IH Hn) as (s' & Hs & Hty). exists s'. split; [by apply lookup_app_l_Some|]. by rewrite take_app_le by lia.
  - exists s. rewrite <- Hl, list_lookup_middle by done. split; [done|]. by rewrite take_app_length.
Qed.

Lemma typed_node_at ns st i n : nodes_typed ns st -> ns !! i = Some n ->
  Forall (fun x => x < i)%nat (node_inputs n) /\ well_scoped i n.
Proof.
  intros Ht Hn. destruct (nodes_typed_lookup _ _ _ _ Ht Hn) as (s & Hs & Hty).
  assert (Hl : length (take i st) = i) by (apply lookup_lt_Some in Hs; rewrite length_take; lia).
  apply stage_typed_inputs in Hty as H1. apply stage_typed_scoped in Hty as H2. by rewrite Hl in H1, H2.
Qed.

Lemma plan_typed_well_formed p : plan_typed p -> well_formed p.
Proof.
  intros (st & s & Ht & Hr & _). split_and!.
  - intros i n Hn. by apply (typed_node_at _ _ _ _ Ht Hn).
  - rewrite <- (nodes_typed_length _ _ Ht). by eapply lookup_lt_Some.
  - intros i n Hn. by apply (typed_node_at _ _ _ _ Ht Hn).
Qed.

Lemma well_scoped_dependencies i n : well_scoped i n -> Forall (fun q => q < i)%nat (node_existential_dependencies n).
Proof.
  intros H. apply Forall_forall. intros q Hq. unfold node_existential_dependencies in Hq.
  apply dedup_incl, sort_by_elem, elem_of_flat_map in Hq as (e & He & Hq).
  assert (G : Forall (fun e => existential_dependencies e = []) (Placement.node_expressions n) -> (q < i)%nat).
  { intros G. rewrite Forall_forall in G. rewrite (G e He) in Hq. by apply not_elem_of_nil in Hq. }
  destruct n; try (apply G; cbn [well_scoped] in H; rewrite node_expressions_eq in H; exact H). cbn in He. apply list_elem_of_singleton in He as ->.
  cbn [well_scoped] in H. rewrite Forall_forall in H. by apply H.
Qed.

Lemma well_formed_backward p : well_formed p -> backward (plan_nodes p).
Proof.
  intros (T & _ & Hs) i n j Hn [Hj|Hj]%elem_of_app.
  - specialize (T i n Hn). rewrite Forall_forall in T. by apply T.
  - specialize (Hs i n Hn). apply well_scoped_dependencies in Hs. rewrite Forall_forall in Hs. by apply Hs.
Qed.

(** C8: whatever graph is compiled, a plan that compilation returns is typed:
    every stage reads earlier stages, its expressions are prepared in the
    sources of its input, projections, groupings, aggregates and windows
    match their declared types, keys can be compared, both sides of a set
    operation match, and the plan's output is its root's; so the plan is well
    formed for the optimizer and the placement analysis, and its nodes have
    32-bit identifiers. *)
Theorem compile_typed ks root limits p : compile ks root limits = Ok p ->
  plan_typed p /\ well_formed p /\ backward (plan_nodes p) /\ Z.of_nat (length (plan_nodes p)) <= u32_max + 1.
Proof.
  intros [T S]%compile_nodes_typed. pose proof (plan_typed_well_formed _ T) as W.
  split_and!; [done|done|by apply well_formed_backward|done].
Qed.
End CompileTyped.

Lemma sample_compiles : is_ok (compile (kinds sample_pool) 3 default_pipeline_limits) = true.
Proof. vm_compute. reflexivity. Qed.

Lemma compile_typed_witness :
  exists p, compile (kinds sample_pool) 3 default_pipeline_limits = Ok p /\ plan_typed p /\ well_formed p.
Proof.
  destruct (compile (kinds sample_pool) 3 default_pipeline_limits) as [p|d] eqn:E;
    [|pose proof sample_compiles as H; by rewrite E in H].
  exists p. split; [done|]. destruct (compile_typed _ _ _ _ E) as (T & W & _). by split.
Defined.
