(* ===== verification/PipelineSound.v ===== *)
(** * Typed plans execute to rows of their declared output

    What the memory executor returns for a typed plan conforms to the plan's
    output, and pipelines authored, compiled and executed through the public
    operations return what they declare. *)
From Stdlib Require Import ZArith Lia.
From stdpp Require Import gmap sorting relations.
From S2P Require Import Prelude Mutation Foreign Truth BTree Text Types Values Fingerprint Model Row Expr ExprPrepare Plan Placement DataSet Executor Optimize ExecutorSpec Windows Stream Writes MemoryStore MemoryEngine Pipeline PipelineCompile PipelineGraph PipelineTyping.

Local Open Scope Z_scope.

(** ** Conformance of rows *)
Section Conforms.
Context {F : Foreign}.

(** A row of a model conforms to a definition with the declared identity. *)
Inductive has_output : PlanOutput -> ExecutionRow -> Prop :=
| has_model m m' r :
    md_fingerprint m' = md_fingerprint m -> record_conforms m' (row_view r) -> has_output (OutModel m) (RModel r)
| has_value ty d : validate_datum ty Required d = Ok tt -> has_output (OutValue ty) (RValue d)
| has_product os rs : Forall2 has_output os rs -> has_output (OutProduct os) (RProduct rs)
| has_null o : has_output (OutNullable o) (RNullable None)
| has_present o r : has_output o r -> has_output (OutNullable o) (RNullable (Some r)).

Fixpoint output_ind' (P : Output -> Prop) (HM : forall m, P (OModel m)) (HV : forall ty, P (OValue ty))
  (HP : forall os, Forall P os -> P (OProduct os)) (HN : forall o, P o -> P (ONullable o)) (o : Output) {struct o} : P o :=
  let fix go l : Forall P l :=
    match l with [] => Forall_nil_2 _ | x :: l' => Forall_cons_2 _ x l' (output_ind' P HM HV HP HN x) (go l') end in
  match o with
  | OModel m => HM m
  | OValue ty => HV ty
  | OProduct os => HP os (go os)
  | ONullable o => HN o (output_ind' P HM HV HP HN o)
  end.

(** Rows of one side of a set operation conform to the other side's output. *)
Lemma matches_conforms a b row : semantically_matches a b = true ->
  has_output (plan_output_of b) row -> has_output (plan_output_of a) row.
Proof.
  revert b row. induction a as [m|ty|os IH|o IH] using output_ind'; intros b row Hm Hc; destruct b as [m2|ty2|os2|o2]; try done;
    cbn [semantically_matches plan_output_of] in *.
  - apply bool_decide_eq_true in Hm. inversion Hc as [? m' r He Hr| | | |]; subst. apply (has_model m m'); [congruence|done].
  - apply type_eqb_eq in Hm as ->. done.
  - inversion Hc as [| |? rs Hrs| |]; subst. constructor. clear Hc. revert os2 rs Hm Hrs.
    induction IH as [|o os Ho _ IHos]; intros [|o2 os2] rs Hm Hrs; try done.
    cbn [forallb2] in Hm. apply andb_true_iff in Hm as [Ha Hb]. cbn [map] in *.
    inversion Hrs as [|? r ? rs' Hr Hrest]; subst. constructor; [by eapply Ho|by eapply IHos].
  - inversion Hc; subst; constructor. by eapply IH.
Qed.

Definition row_conforms (o : Output) (row : WorkingRow) : Prop := has_output (plan_output_of o) (wr_output row).
Definition rows_conform (o : Output) (rows : list WorkingRow) : Prop := Forall (row_conforms o) rows.

(** A stage's own output is never nullable: only sides of a product are. *)
Definition plain (o : Output) : Prop := match o with ONullable _ => False | _ => True end.

Lemma wrap_conforms o row (wrap : bool) : plain o -> has_output (plan_output_of o) row ->
  has_output (plan_output_of (if wrap then output_nullable o else o)) (wrap_present row wrap).
Proof. intros Hp Hc. destruct wrap; [|done]. destruct o; try done; by constructor. Qed.

Lemma absent_conforms o : plain o -> has_output (plan_output_of (output_nullable o)) (RNullable None).
Proof. destruct o; intros Hp; [constructor..|done]. Qed.

(** ** Values in tuples *)
Lemma canonical_nested e : (forall v, conforms e v -> conforms (canonicalize e) v) ->
  forall d, nested_conforms e d -> nested_conforms (canonicalize e) d.
Proof.
  intros H d Hd. destruct Hd as [t Hn|t v Hv]; [apply nested_null; by destruct t|apply nested_value; by apply H].
Qed.

Lemma canonical_conforms ty (v : Value) : conforms ty v -> conforms (canonicalize ty) v.
Proof.
  revert v. induction ty as [k ver s n p ps IH] using type_ind'.
  assert (IH' : Forall (fun e => forall d, nested_conforms e d -> nested_conforms (canonicalize e) d) (shape_children s))
    by (eapply Forall_impl; [exact IH|]; exact canonical_nested).
  clear IH. intros v Hv. inversion Hv as [? r ? Es|? e l Es Hl|? kt vt l Es Hl Hd|? es l Es Hl|? fs m Es Hn Hf]; subst; cbn [ty_shape] in Es; subst s;
    cbn [shape_children] in IH'.
  - by eapply conforms_scalar.
  - apply Forall_cons_1 in IH' as [IH' _]. eapply conforms_list; [done|]. eapply Forall_impl; [exact Hl|]. exact IH'.
  - rewrite Forall_cons, Forall_singleton in IH'. destruct IH' as [Hk Hv']. eapply conforms_map; [done| |done].
    eapply Forall_impl; [exact Hl|]. intros e [? ?]. split; auto.
  - eapply conforms_tuple; [done|]. clear -Hl IH'. induction Hl as [|e d es l Hd _ IHl]; [constructor|].
    apply Forall_cons_1 in IH' as [He IH']. cbn [map]. constructor; auto.
  - eapply conforms_record; [done| |].
    + eapply Forall_impl; [exact Hn|]. intros name (f & -> & Hin)%elem_of_map. apply elem_of_map.
      exists (canonicalize_field f). split; [by rewrite canonicalize_field_name|]. apply sort_by_elem, elem_of_map. eauto.
    + apply Forall_forall. intros f (g & -> & Hin)%sort_by_elem%elem_of_map. rewrite Forall_forall in Hf. rewrite Forall_forall in IH'.
      specialize (IH' (field_ty g) ltac:(apply elem_of_map; eauto)). rewrite canonicalize_field_name.
      destruct (Hf g Hin) as [(d & ? & ?)|[? ?]]; destruct g; [left; exists d; split; [done|by apply IH']|by right].
Qed.

Lemma required_nested ty (d : Datum) : validate_datum ty Required d = Ok tt <-> nested_conforms ty d.
Proof.
  destruct d; cbn [validate_datum].
  - split; [done|by inversion 1].
  - rewrite check_ok, is_nullable_true. split; [by constructor|by inversion 1].
  - rewrite (validate_value_conforms ty v). split; [by constructor|by inversion 1].
Qed.

(** A tuple of valid components is valid for the tuple type. *)
Lemma tuple_valid tys (ds : list Datum) : Forall2 (fun ty d => validate_datum ty Required d = Ok tt) tys ds ->
  validate_datum (tuple tys) Required (DValue (VTuple ds)) = Ok tt.
Proof.
  intros H. cbn [validate_datum]. apply validate_value_conforms. unfold tuple, shaped. apply canonical_conforms.
  eapply conforms_tuple; [done|]. eapply Forall2_impl; [exact H|]. intros ty d. apply required_nested.
Qed.
End Conforms.

(** ** Stages keep what holds of rows *)
Section StageRows.
Context {F : Foreign} (limits : ExecutionLimits) (eval : LogicalExpr -> WorkingRow -> Result Datum).
Context (P : WorkingRow -> Prop).

Lemma push_all s row s' : push_stage_row limits s row = Ok s' -> Forall P (fst s) -> P row -> Forall P (fst s').
Proof. intros ->%push_ok Hs Hr. apply Forall_app. split; [done|by constructor]. Qed.

(** A loop that only pushes good rows produces good rows. *)
Lemma loop_all {A} (f : StageRows -> A -> Result StageRows) l rows :
  (forall x s s', x ∈ l -> Forall P (fst s) -> f s x = Ok s' -> Forall P (fst s')) ->
  rmap fst (foldR f l no_rows) = Ok rows -> Forall P rows.
Proof. intros H (s & Hs & ->)%rmap_ok. exact (foldR_keeps (fun s => Forall P (fst s)) f l no_rows s H (Forall_nil_2 _) Hs). Qed.

Lemma filter_all input c rows : execute_filter limits eval input c = Ok rows -> Forall P input -> Forall P rows.
Proof.
  intros H Hi. rewrite Forall_forall in Hi. eapply loop_all; [|exact H]. cbn beta.
  intros row s s' Hx Hs (d & _ & Hd)%rbind_ok. destruct d as [| |[| [] | | | | | | | | | | | | | | | | | |]]; try done; try by injection Hd as <-.
  eapply push_all; [exact Hd|done|by apply Hi].
Qed.

Lemma unique_all s row s' : push_unique limits s row = Ok s' -> Forall P (fst s) -> P row -> Forall P (fst s').
Proof. unfold push_unique. destruct (existsb _ _); [by intros [= <-]|apply push_all]. Qed.

Lemma distinct_all input rows : execute_distinct limits input = Ok rows -> Forall P input -> Forall P rows.
Proof.
  intros H Hi. rewrite Forall_forall in Hi. eapply loop_all; [|exact H]. intros row s s' Hx Hs Hp. eapply unique_all; [exact Hp|done|by apply Hi].
Qed.

Lemma sort_all input keys rows : execute_sort eval input keys = Ok rows -> Forall P input -> Forall P rows.
Proof.
  unfold execute_sort. intros (keyed & Hk%mapR_ok & [= <-])%rbind_ok Hi. rewrite Forall_forall in Hi. apply Forall_forall.
  intros row (kr & -> & Hin%sort_by_elem)%elem_of_map. apply list_elem_of_lookup in Hin as (i & Hin).
  destruct (Forall2_lookup_r _ _ _ _ _ Hk Hin) as (e & He & (values & _ & [= <-])%rbind_ok). cbn [kr_row].
  apply Hi. apply list_elem_of_lookup_2 in He. apply elem_of_lookup_imap in He as (j & x & -> & Hx). by eapply list_elem_of_lookup_2.
Qed.

Lemma slice_all input offset limit : Forall P input -> Forall P (execute_slice input offset limit).
Proof. intros H. unfold execute_slice. destruct limit; [apply Forall_take|]; by apply Forall_drop. Qed.

Lemma set_all l r o rows : execute_set limits l r o = Ok rows -> Forall P l -> Forall P r -> Forall P rows.
Proof.
  intros H Hl Hr. assert (Hlr : forall row, row ∈ l ++ r -> P row) by (apply Forall_forall, Forall_app; done).
  rewrite Forall_forall in Hl. unfold execute_set in H. destruct o; (eapply loop_all; [|exact H]); cbn beta; intros row s s' Hx Hs Hp.
  - eapply unique_all; eauto.
  - eapply push_all; eauto.
  - destruct (existsb _ r); [eapply unique_all; eauto|by injection Hp as <-].
  - destruct (negb _); [eapply unique_all; eauto|by injection Hp as <-].
Qed.
End StageRows.

(** ** Stages of typed nodes *)
Section StageSound.
Context {F : Foreign} (limits : ExecutionLimits) (eval : LogicalExpr -> WorkingRow -> Result Datum).

Lemma value_conforms ty d : validate_datum ty Required d = Ok tt -> row_conforms (OValue ty) (value_row d).
Proof. by constructor. Qed.

Lemma evaluate_projection_valid p row d : evaluate_projection eval p row = Ok d -> validate_datum (lp_ty p) Required d = Ok tt.
Proof. unfold evaluate_projection. by intros (values & _ & (d' & _ & [Hv [= <-]]%check_then)%rbind_ok)%rbind_ok. Qed.

Lemma evaluate_selection_valid rows s d : evaluate_selection eval rows s = Ok d -> validate_datum (ls_ty s) Required d = Ok tt.
Proof. unfold evaluate_selection. by intros (values & _ & (d' & _ & [Hv [= <-]]%check_then)%rbind_ok)%rbind_ok. Qed.

Lemma project_conforms input p rows : execute_project limits eval input p = Ok rows -> rows_conform (OValue (lp_ty p)) rows.
Proof.
  intros H. eapply loop_all; [|exact H]. cbn beta. intros row s s' _ Hs (d & Hd & Hp)%rbind_ok.
  eapply push_all; [exact Hp|done|]. by eapply value_conforms, evaluate_projection_valid.
Qed.

Lemma add_to_group_keys {A} (Q : Datum -> Prop) key (x : A) groups :
  Q key -> Forall (fun g => Q (fst g)) groups -> Forall (fun g => Q (fst g)) (add_to_group key x groups).
Proof.
  intros Hk. induction 1 as [|[k xs] groups Hg Hgs IH]; cbn [add_to_group]; [by repeat constructor|].
  destruct (datum_eqb k key); by constructor.
Qed.

Lemma groups_valid input g grouped : build_groups eval input g = Ok grouped ->
  Forall (fun e => match g, fst e with
                   | Some p, Some key => validate_datum (lp_ty p) Required key = Ok tt
                   | None, None => True
                   | _, _ => False
                   end) grouped.
Proof.
  unfold build_groups. destruct g as [p|]; [|intros [= <-]; by repeat constructor].
  intros (groups & Hg & ->)%rmap_ok. rewrite Forall_map. cbn [fst].
  refine (foldR_keeps (fun groups => Forall (fun e : Datum * list WorkingRow => validate_datum (lp_ty p) Required (fst e) = Ok tt) groups) _ _ _ _ _ _ Hg); [|constructor].
  intros x gs gs' _ Hgs (key & Hk & [= <-])%rbind_ok.
  apply (add_to_group_keys (fun key => validate_datum (lp_ty p) Required key = Ok tt)); [by eapply evaluate_projection_valid|done].
Qed.

Lemma aggregate_conforms input g a rows : execute_aggregate limits eval input g a = Ok rows ->
  rows_conform (OValue (match g with Some p => tuple [lp_ty p; ls_ty a] | None => ls_ty a end)) rows.
Proof.
  unfold execute_aggregate. intros (grouped & Hg%groups_valid & H)%rbind_ok. rewrite Forall_forall in Hg.
  eapply loop_all; [|exact H]. cbn beta. intros e s s' He Hs (d & Hd%evaluate_selection_valid & Hp)%rbind_ok.
  eapply push_all; [exact Hp|done|]. apply value_conforms. specialize (Hg e He).
  destruct g as [p|], (fst e) as [key|]; try done. apply tuple_valid. by repeat constructor.
Qed.

Lemma unnest_conforms input element rows : execute_unnest limits input element = Ok rows -> rows_conform (OValue element) rows.
Proof.
  intros H. eapply loop_all; [|exact H]. cbn beta. intros row s s' _ Hs.
  destruct (wr_output row) as [| [| |v] | |]; try done; try by intros [= <-]. destruct v; try done.
  intros Hf. refine (foldR_keeps (fun s => rows_conform (OValue element) (fst s)) _ _ _ _ _ _ Hf); [|exact Hs].
  intros d t t' _ Ht [Hv Hp]%check_then. eapply push_all; [exact Hp|done|]. by apply value_conforms.
Qed.

Lemma window_conforms o input w rows : execute_window limits eval input w = Ok rows -> rows_conform o input ->
  rows_conform (OProduct [o; OValue (lw_ty w)]) rows.
Proof.
  unfold execute_window. intros (partitions & _ & (values & _ & H)%rbind_ok)%rbind_ok Hi. unfold rows_conform in Hi. rewrite Forall_forall in Hi.
  eapply loop_all; [|exact H]. cbn beta. intros e s s' He Hs (d & _ & [Hv Hp]%check_then)%rbind_ok.
  eapply push_all; [exact Hp|done|]. apply elem_of_lookup_imap in He as (i & row & -> & Hrow).
  unfold row_conforms. cbn [wr_output plan_output_of map]. constructor. constructor; [|by repeat constructor].
  apply Hi. by eapply list_elem_of_lookup_2.
Qed.

Lemma join_row_conforms ol or k l r :
  plain ol -> plain or -> row_conforms ol l -> row_conforms or r -> row_conforms (join_output k ol or) (combined_row l r k).
Proof.
  intros Pl Pr Hl Hr. unfold row_conforms, combined_row. cbn [wr_output].
  pose proof (wrap_conforms ol (wr_output l) (left_nullable k) Pl Hl) as Wl.
  pose proof (wrap_conforms or (wr_output r) (right_nullable k) Pr Hr) as Wr.
  destruct k; cbn [join_output plan_output_of map]; constructor; repeat constructor; assumption.
Qed.

Lemma join_conforms ol or left right sl sr k c rows :
  plain ol -> plain or -> rows_conform ol left -> rows_conform or right ->
  execute_join limits eval left right sl sr k c = Ok rows -> rows_conform (join_output k ol or) rows.
Proof.
  intros Pl Pr Hl Hr H. unfold execute_join in H. unfold rows_conform in Hl, Hr. rewrite Forall_forall in Hl. rewrite Forall_forall in Hr.
  apply check_then in H as [_ [_ [_ ([out matched] & Hs & H)%rbind_ok]%check_then]%check_then].
  assert (Hright : forall e, e ∈ imap (fun i row => (i, row)) right -> row_conforms or (snd e))
    by (intros e (i & row & -> & Hrow)%elem_of_lookup_imap; apply Hr; by eapply list_elem_of_lookup_2).
  assert (Hout : rows_conform (join_output k ol or) (fst out)).
  { refine (foldR_keeps (fun s : StageRows * list bool => rows_conform (join_output k ol or) (fst (fst s))) _ _ _ _ _ _ Hs); [|constructor].
    intros l [out0 m0] s' Hin Hi. unfold join_left. cbn [fst snd]. intros ([[out1 lm] m1] & Hp & Hj)%rbind_ok.
    assert (H1 : rows_conform (join_output k ol or) (fst out1)).
    { refine (foldR_keeps (fun s : StageRows * bool * list bool => rows_conform (join_output k ol or) (fst (fst (fst s)))) _ _ _ _ _ _ Hp); [|exact Hi].
      intros e [[t lm0] m2] t' He Ht. unfold join_pair. intros (b & _ & Hb)%rbind_ok. destruct b; [|by injection Hb as <-].
      apply rbind_ok in Hb as (t1 & Ht1 & [= <-]). cbn [fst]. eapply push_all; [exact Ht1|exact Ht|]. apply join_row_conforms; auto. }
    destruct (negb lm && right_nullable k) eqn:E; [|by injection Hj as <-].
    apply rbind_ok in Hj as (t1 & Ht1 & [= <-]). cbn [fst]. eapply push_all; [exact Ht1|exact H1|].
    apply andb_true_iff in E as [_ E]. unfold row_conforms, unmatched_left. cbn [wr_output].
    pose proof (wrap_conforms ol (wr_output l) (left_nullable k) Pl (Hl l Hin)) as Wl. pose proof (absent_conforms or Pr) as Wr.
    destruct k; try done; cbn [join_output plan_output_of map]; constructor; repeat constructor; assumption. }
  destruct (left_nullable k) eqn:E; [|by injection H as <-].
  apply rmap_ok in H as (s & H & ->).
  refine (foldR_keeps (fun s => rows_conform (join_output k ol or) (fst s)) _ _ _ _ _ _ H); [|exact Hout].
  intros e t t' He Ht. destruct (negb _); [|by intros [= <-]]. intros Hp. eapply push_all; [exact Hp|done|].
  unfold row_conforms, unmatched_right. cbn [wr_output].
  pose proof (wrap_conforms or (wr_output (snd e)) (right_nullable k) Pr (Hright e He)) as Wr. pose proof (absent_conforms ol Pl) as Wl.
  destruct k; try done; cbn [join_output plan_output_of map]; constructor; repeat constructor; assumption.
Qed.
End StageSound.

(** ** Plans *)
Section PlanSound.
Context {F : Foreign} (tables : Tables) (plan : LogicalPlan) (ps : Parameters) (limits : ExecutionLimits).

(** Every stored row conforms to the model of its table. *)
Definition tables_conform : Prop :=
  forall key t, bt_get key tables = Some t -> Forall (fun r => record_conforms (mt_model t) (row_view r)) (mt_rows t).

Hypothesis conforming : tables_conform.
Context (st : list Stage).
Hypothesis typed : nodes_typed (plan_nodes plan) st.

Lemma stages_plain i s : st !! i = Some s -> plain (sg_output s).
Proof.
  clear conforming. revert i s. induction typed as [|ns st n s Ht IH Hs]; intros i s' Hi; [done|].
  apply lookup_snoc_Some in Hi as [[_ Hi]|[-> <-]]; [by eapply IH|].
  destruct Hs; cbn [sg_output]; first [by eapply IH|done|by destruct k].
Qed.

Lemma source_conforms m rows : execute_source tables limits m = Ok rows -> rows_conform (OModel m) rows.
Proof.
  clear typed. unfold execute_source. intros (t & Ht%ok_or_ok & [Hf%guard_ok%bool_decide_eq_true [_ [_ [= <-]]%check_then]%check_then]%check_then)%rbind_ok.
  apply conforming in Ht. unfold rows_conform. rewrite Forall_map. eapply Forall_impl; [exact Ht|].
  intros r Hr. by apply (has_model m (mt_model t)).
Qed.

(** Results so far conform to the stages that produced them. *)
Definition results_conform (results : StageResults) : Prop :=
  forall i rows, results !! i = Some (Some rows) -> exists s, st !! i = Some s /\ rows_conform (sg_output s) rows.

Lemma input_conforms results i rows s : results_conform results -> input_rows results i = Ok rows -> st !! i = Some s ->
  rows_conform (sg_output s) rows.
Proof.
  intros R H%ok_or_ok Hs. destruct (results !! i) as [[r|]|] eqn:E; try done. injection H as ->.
  destruct (R _ _ E) as (s' & Hs' & Hc). by simplify_eq.
Qed.

Lemma stage_conforms shapes exists_in results outer i n s rows :
  results_conform results -> stage_typed (take i st) n s ->
  execute_stage tables ps limits shapes exists_in results outer n = Ok rows -> rows_conform (sg_output s) rows.
Proof.
  intros R Hn.
  assert (In : forall x s0 rows, take i st !! x = Some s0 -> input_rows results x = Ok rows -> rows_conform (sg_output s0) rows)
    by (intros x s0 rows0 [Hx _]%lookup_take_Some H0; by eapply input_conforms).
  assert (Pl : forall x s0, take i st !! x = Some s0 -> plain (sg_output s0))
    by (intros x s0 [Hx _]%lookup_take_Some; by eapply stages_plain).
  destruct Hn; cbn [execute_stage sg_output];
    first [by apply source_conforms|intros (input & Hi & H')%rbind_ok].
  - eapply filter_all; [exact H'|by eapply In].
  - by eapply project_conforms.
  - by apply (aggregate_conforms _ _ _ None) in H'.
  - by apply (aggregate_conforms _ _ _ (Some g)) in H'.
  - by eapply unnest_conforms.
  - eapply window_conforms; [exact H'|by eapply In].
  - eapply sort_all; [exact H'|by eapply In].
  - eapply distinct_all; [exact H'|by eapply In].
  - injection H' as <-. apply slice_all. by eapply In.
  - apply rbind_ok in H' as (right & Hr & (lshape & _ & (rshape & _ & H')%rbind_ok)%rbind_ok).
    eapply join_conforms; [by eapply Pl|by eapply Pl|by eapply In|by eapply In|exact H'].
  - apply rbind_ok in H' as (right & Hr & H'). eapply set_all; [exact H'|by eapply In|].
    eapply Forall_impl; [eapply In; [exact H0|exact Hr]|]. intros row. by apply matches_conforms.
Qed.

Lemma run_index_conforms shapes exists_in needed outer results index results' :
  results_conform results -> run_index tables plan ps limits shapes exists_in needed outer results index = Ok results' ->
  results_conform results'.
Proof.
  intros R. unfold run_index. destruct (default false (needed !! index)); [|by intros [= <-]].
  intros (n & Hn%ok_or_ok & (rows & Hr & [_ [_ (old & _ & [= <-])%rbind_ok]%check_then]%check_then)%rbind_ok)%rbind_ok.
  destruct (nodes_typed_lookup _ _ _ _ typed Hn) as (s & Hs & Hty).
  intros i r Hi. destruct (decide (i = index)) as [->|Hne].
  - apply list_lookup_insert_Some in Hi as [(_ & [= <-] & _)|(? & _)]; [|done]. exists s. split; [done|]. by eapply stage_conforms.
  - rewrite list_lookup_insert_ne in Hi by done. by apply R.
Qed.

Lemma subplan_conforms shapes depth root outer rows :
  execute_subplan tables plan ps limits shapes depth root outer = Ok rows ->
  exists s, st !! root = Some s /\ rows_conform (sg_output s) rows.
Proof.
  assert (G : forall exists_in, run_subplan tables plan ps limits shapes exists_in root outer = Ok rows ->
    exists s, st !! root = Some s /\ rows_conform (sg_output s) rows).
  { intros exists_in. unfold run_subplan. intros (needed & _ & (results & Hr & Hd%ok_or_ok)%rbind_ok)%rbind_ok.
    assert (R : results_conform results).
    { refine (foldR_keeps results_conform _ _ _ _ _ _ Hr).
      - intros index r r' _ R. by apply run_index_conforms.
      - intros i r [H _]%lookup_replicate. done. }
    destruct (results !! root) as [[r|]|] eqn:E; try done. injection Hd as ->. by apply R. }
  destruct depth; cbn [execute_subplan]; apply G.
Qed.
End PlanSound.

Section Sound.
Context {F : Foreign}.

Lemma execute_conforms tables plan ps limits batch_rows stream : tables_conform tables -> plan_typed plan ->
  execute tables plan ps limits batch_rows = Ok stream ->
  ms_output stream = plan_output plan /\ Forall (has_output (plan_output plan)) (ms_rows stream).
Proof.
  intros C (st & s & Ht & Hs & Ho). unfold execute.
  intros [_ [_ (shapes & _ & (rows & Hr & [_ [= <-]]%check_then)%rbind_ok)%rbind_ok]%check_then]%check_then.
  cbn [ms_output ms_rows]. split; [done|]. destruct (subplan_conforms _ _ _ _ C _ Ht _ _ _ _ _ Hr) as (s' & Hs' & Hc).
  simplify_eq. rewrite Ho, Forall_map. exact Hc.
Qed.

Lemma validated_conform tables : validate_tables tables = Ok tt -> tables_conform tables.
Proof.
  unfold validate_tables. intros (set & _ & [Hd _]%check_then)%rbind_ok. rewrite forR_ok, Forall_forall in Hd.
  intros key t Ht%bt_get_elem. specialize (Hd _ Ht). unfold validate_dynamic_dataset, validate_dataset in Hd.
  apply check_then in Hd as [Hd _]. rewrite forR_ok, Forall_map in Hd. eapply Forall_impl; [exact Hd|].
  intros r. apply validate_record_against_ok.
Qed.

(** A typed plan executes to rows of its declared output: on tables whose
    rows conform to their models, under any parameters and limits, the stream
    declares the plan's output, every model row it holds conforms to a model
    of the declared identity, every value is valid at the declared type, and
    rows are absent only on the sides a join may leave unmatched. *)
Theorem execute_typed_plan tables plan ps limits batch_rows stream : tables_conform tables -> plan_typed plan ->
  execute tables plan ps limits batch_rows = Ok stream ->
  ms_output stream = plan_output plan /\ Forall (has_output (plan_output plan)) (ms_rows stream).
Proof. apply execute_conforms. Qed.

(** ** The engine's entry points for pipelines ([engines/memory/src/lib.rs]):
    the pool of nodes keeps plans, the engine keeps its validation *)
Definition memory_execute (node : nat) (parameters : Parameters) (options : ExecutionOptions)
  : Mut (Pool * MemoryEngine) MemoryStream := fun s =>
  let '(plan, p) := prepared_plan node (fst s) in
  match plan with
  | Ok plan => let '(r, e) := memory_execute_plan plan parameters options (snd s) in (r, (p, e))
  | Err d => (Err d, (p, snd s))
  end.

Definition memory_explain (node : nat) (policy : PlacementPolicy) (e : MemoryEngine) : Mut Pool ExplainPlan :=
  let! plan := prepared_plan node in
  let! placement := mlift (analyze_engine_placement plan e policy) in
  mret (explain_plan_new (me_info e) plan placement).

(** What asking a node of an authored pool for its plan does. *)
Lemma authored_prepared p node : rtc authoring_step [] p -> (node < length p)%nat -> exists p',
  prepared_plan node p = (compile (kinds p) node default_pipeline_limits, p') /\ kinds p' = kinds p /\ pool_ok p'.
Proof.
  intros A Hn. destruct (prepared_plan_ok p node (authored_pool_ok _ _ A empty_pool_ok)) as (E & Hk & O).
  destruct (lookup_lt_is_Some_2 p node Hn) as [n Hl]. rewrite Hl in E. exists (snd (prepared_plan node p)).
  split; [|done]. rewrite <- E. apply surjective_pairing.
Qed.

(** C3: what authoring, compiling and running a pipeline give together: in a
    graph built by the public operations, on any reachable engine and under
    any valid placement policy, executing a pipeline changes neither the graph
    nor the tables; when it returns rows, the tables are valid, the rows
    conform to the output of the compiled plan, and the optimized plan returns
    the same rows; otherwise it fails with the diagnostic of the compilation,
    of the tables' validation or of the execution, never because the engine
    refuses the plan. *)
Theorem pipeline_run_sound version p node e parameters options :
  rtc authoring_step [] p -> (node < length p)%nat -> reachable version e -> policy_valid (eo_placement options) ->
  match memory_execute node parameters options (p, e) with
  | (outcome, (p', e')) => kinds p' = kinds p /\ me_tables e' = me_tables e /\
    match outcome with
    | Ok stream => exists plan, compile (kinds p) node default_pipeline_limits = Ok plan /\
        validate_tables (me_tables e) = Ok tt /\
        ms_output stream = plan_output plan /\ Forall (has_output (plan_output plan)) (ms_rows stream) /\
        (forall plan', plan' = plan \/ optimize plan = Ok plan' ->
           execute (me_tables e) plan' parameters (eo_limits options) (eo_batch_rows options) = Ok stream)
    | Err d =>
        compile (kinds p) node default_pipeline_limits = Err d \/ validate_tables (me_tables e) = Err d \/
        exists plan, compile (kinds p) node default_pipeline_limits = Ok plan /\
          execute (me_tables e) plan parameters (eo_limits options) (eo_batch_rows options) = Err d
    end
  end.
Proof.
  intros A Hn He Hy. destruct (authored_prepared p node A Hn) as (p' & Hp & Hk & _).
  unfold memory_execute. cbn [fst snd]. rewrite Hp. destruct (compile (kinds p) node _) as [plan|d] eqn:E; [|by auto].
  destruct (compile_nodes_typed _ _ _ _ E) as [T S]. pose proof (plan_typed_well_formed _ T) as W.
  rewrite (execute_plan_outcome version) by (try done; by apply well_formed_backward).
  destruct (validate_tables (me_tables e)) as [[]|d] eqn:V; [|by auto].
  destruct (execute _ plan _ _ _) as [stream|d] eqn:R; cbn beta iota zeta; split_and!; try done; [|by right; right; exists plan].
  destruct (execute_conforms _ _ _ _ _ _ (validated_conform _ V) T R) as [Ho Hr].
  exists plan. split_and!; [done..|]. intros plan' [->|Hp']; [done|]. rewrite <- R. apply optimize_execute_eq; [done|done|].
  unfold execute in R. by apply check_then in R as [[] _].
Qed.

(** A reachable engine explains every compiled plan as its own work. *)
Lemma memory_explain_native version p node policy e plan :
  rtc authoring_step [] p -> (node < length p)%nat -> reachable version e -> policy_valid policy ->
  compile (kinds p) node default_pipeline_limits = Ok plan ->
  exists explained, fst (memory_explain node policy e p) = Ok explained /\ ep_fingerprint explained = plan_fingerprint plan /\
    length (ep_steps explained) = length (plan_nodes plan) /\ Forall (fun s => ex_site s = SiteEngine) (ep_steps explained).
Proof.
  intros A Hn He Hy E. destruct (authored_prepared p node A Hn) as (p' & Hp & _). rewrite E in Hp.
  destruct (compile_nodes_typed _ _ _ _ E) as [T S]. pose proof (well_formed_backward _ (plan_typed_well_formed _ T)) as B.
  destruct (supported_placement plan policy (support_for_node e) B S) as (pl & Ha & Hl & Hf); [|done|].
  { apply Forall_forall. intros n _. rewrite memory_support; [done|]. by apply (reachable_ok version). }
  unfold memory_explain, mbind, mlift, analyze_engine_placement. rewrite Hp, Ha. cbn [fst mret].
  eexists. split; [done|]. split; [done|]. cbn [ep_steps explain_plan_new]. split; [rewrite length_zip_with; lia|].
  apply Forall_zip_with_fst with (P := fun _ => True); [by apply Forall_forall; intros; exact I|].
  apply Forall_forall. intros q Hq n _. unfold is_fully_engine in Hf. rewrite forallb_forall in Hf.
  specialize (Hf q (proj1 (list_elem_of_In _ _) Hq)). cbn. by destruct (np_site q).
Qed.
End Sound.

(** ** The sample pipeline on the sample engine *)
Definition sample_run (plan : LogicalPlan (F:=sample_foreign)) : Result MemoryStream :=
  fst (memory_execute_plan plan parameters_new sample_options sample_filled).

Lemma sample_plan_runs :
  (let? plan := fst (prepared_plan 3 sample_pool) in rmap (fun stream => length (ms_rows stream)) (sample_run plan)) = Ok 1%nat.
Proof. vm_compute. reflexivity. Qed.

Lemma sample_run_inv : exists plan stream, compile (kinds sample_pool) 3 default_pipeline_limits = Ok plan /\
  fst (prepared_plan 3 sample_pool) = Ok plan /\ sample_run plan = Ok stream /\ length (ms_rows stream) = 1%nat.
Proof.
  destruct sample_pool_authored as [A A']. pose proof (authored_pool_ok _ _ (transitivity A A') empty_pool_ok) as O.
  destruct (prepared_plan_ok sample_pool 3 O) as (E & _ & _). change (sample_pool !! 3%nat) with (Some (mkPipelineNode (KDistinct (F:=sample_foreign) 2) None)) in E.
  pose proof sample_plan_runs as R. apply rbind_ok in R as (plan & Hp & (stream & Hs & Hl)%rmap_ok). exists plan, stream.
  rewrite Hp in E. by split_and!.
Qed.

Lemma execute_typed_plan_witness : exists plan stream,
  execute (me_tables sample_filled) plan parameters_new (eo_limits sample_options) (eo_batch_rows sample_options) = Ok stream /\
  Forall (has_output (plan_output plan)) (ms_rows stream) /\ length (ms_rows stream) = 1%nat.
Proof.
  destruct sample_run_inv as (plan & stream & Hc & Hp & Hs & Hl). exists plan, stream. destruct (compile_nodes_typed _ _ _ _ Hc) as [T S].
  assert (V : validate_tables (me_tables sample_filled) = Ok tt) by (vm_compute; reflexivity).
  pose proof (execute_plan_outcome "0.1.0" plan parameters_new sample_options sample_filled sample_filled_reachable
    (well_formed_backward _ (plan_typed_well_formed _ T)) S I) as H.
  unfold sample_run in Hs. rewrite H, V in Hs. cbn [fst] in Hs. split; [exact Hs|]. split; [|exact Hl].
  apply (execute_typed_plan _ _ _ _ _ _ (validated_conform _ V) T Hs).
Defined.

Lemma pipeline_run_sound_witness : exists plan stream,
  compile (kinds sample_pool) 3 default_pipeline_limits = Ok plan /\
  fst (memory_execute 3 parameters_new sample_options (sample_pool, sample_filled)) = Ok stream /\
  Forall (has_output (plan_output plan)) (ms_rows stream) /\ length (ms_rows stream) = 1%nat.
Proof.
  destruct sample_run_inv as (plan & stream & Hc & Hp & Hs & Hl). exists plan, stream. split; [exact Hc|].
  destruct sample_pool_authored as [A A'].
  pose proof (pipeline_run_sound "0.1.0" sample_pool 3 sample_filled parameters_new sample_options
    (transitivity A A') ltac:(simpl; lia) sample_filled_reachable I) as H.
  assert (E : fst (memory_execute 3 parameters_new sample_options (sample_pool, sample_filled)) = Ok stream).
  { unfold memory_execute. cbn [fst snd]. destruct (prepared_plan 3 sample_pool) as [r q]. cbn [fst] in Hp. subst r.
    unfold sample_run in Hs. by destruct (memory_execute_plan _ _ _ _) as [r e]. }
  split; [exact E|]. destruct (memory_execute _ _ _ _) as [r [q e]]. cbn [fst] in E. subst r.
  destruct H as (_ & _ & plan' & Hc' & _ & _ & Hr & _). rewrite Hc in Hc'. injection Hc' as <-. by split.
Defined.

(** ** Set operations over several sources lose their sources

    [compatible_set_scopes] gives the result no sources unless both sides have
    one, whereas its rows keep those of the side they come from: the plan of a
    filter on a union of joins compiles, and running it fails as soon as there
    is a row. *)
Definition always (t : Truth) : ExpressionSpec (F:=sample_foreign) :=
  mkExpressionSpec (mkExpr (ELiteral (DValue (VTruth t))) truth_type) truth_type.
Definition sample_cross : list (PipelineNode (F:=sample_foreign)) := 
  snd (pipeline_cross_join (snd (from_model_as sample_alias (Ok sample_model) "one"%stdpp)) 2 1).
Definition filter_join := snd (pipeline_filter sample_cross 3 (always TTrue)).
Definition filter_union := snd (pipeline_filter (snd (pipeline_union sample_cross 3 3)) 4 (always TTrue)).
Definition run_rows (pool : list PipelineNode) (node : nat) : Result nat :=
  let? plan := fst (prepared_plan node pool) in rmap (fun stream => length (ms_rows stream)) (sample_run plan).

Example filter_join_runs : run_rows filter_join 4 = Ok 1%nat.
Proof. vm_compute. reflexivity. Qed.

Example filter_union_fails :
  is_ok (fst (prepared_plan 5 filter_union)) = true /\ run_rows filter_union 5 = error "EXPR-EVAL-109".
Proof. split; vm_compute; reflexivity. Qed.
