(* ===== verification/Wire.v ===== *)
(** * The wire boundary ([crates/dol-wire/src]): frames

    Errors ([error.rs]), limits ([budget/mod.rs]), the frame around a payload
    ([envelope/mod.rs], [encode_envelope], [decode_envelope]), big-endian
    integers and UTF-8. *)
From Stdlib Require Import ZArith Lia.
From S2P Require Import Prelude Text Types Fingerprint.

Local Open Scope Z_scope.

(** ** Errors ([error.rs])

    [WireNew] and [WireAt] are [WireError::new] and [WireError::at]; messages
    are not modelled.  [core_error] chooses between the kinds of a limit and
    of a value by the words of the core's message, so [WireCore] keeps the
    core's diagnostic instead. *)
Inductive WireErrorKind :=
| LimitExceeded | InvalidMagic | UnsupportedVersion | UnsupportedPayload | InvalidHeader | LengthMismatch
| UnexpectedEof | InvalidTag | InvalidUtf8 | InvalidValue | NonCanonical | UnsupportedValue.

Inductive WireError := WireNew (kind : WireErrorKind) | WireAt (kind : WireErrorKind) (offset : Z) | WireCore (d : Diagnostic).

Inductive WResult (A : Type) := WOk (a : A) | WErr (e : WireError).
Arguments WOk {A} a.
Arguments WErr {A} e.

Definition wbind {A B} (m : WResult A) (f : A -> WResult B) : WResult B :=
  match m with WOk a => f a | WErr e => WErr e end.

Definition wguard (b : bool) (e : WireError) : WResult unit := if b then WOk tt else WErr e.

(** [.map_err(core_error)] *)
Definition core {A} (m : Result A) : WResult A := match m with Ok a => WOk a | Err d => WErr (WireCore d) end.

Declare Scope wire_scope.
Delimit Scope wire_scope with wire.
Open Scope wire_scope.
Notation "'let%' x := m 'in' k" := (wbind m (fun x => k)) (at level 200, x pattern, k at level 200) : wire_scope.
Notation "m ;;% k" := (wbind m (fun _ => k)) (at level 100, right associativity) : wire_scope.

Definition limit_error : WireError := WireNew LimitExceeded.
Definition limit_at (offset : Z) : WireError := WireAt LimitExceeded offset.
Definition invalid_tag (offset : Z) : WireError := WireAt InvalidTag offset.

Definition is_wok {A} (m : WResult A) : bool := match m with WOk _ => true | WErr _ => false end.

(** ** Limits ([budget/mod.rs]) *)
Record DecodeLimits := mkDecodeLimits {
  dl_total_bytes : Z;
  dl_nodes : Z;
  dl_depth : Z;
  dl_string_bytes : Z;
  dl_literal_bytes : Z;
  dl_list_items : Z
}.

Definition default_decode_limits : DecodeLimits :=
  mkDecodeLimits (8 * 1024 * 1024) 65536 128 (1024 * 1024) (4 * 1024 * 1024) 65536.
Definition deny_all : DecodeLimits := mkDecodeLimits 0 0 0 0 0 0.

(** [definition_limits] ([validate/mod.rs]) *)
Definition definition_limits (limits : DecodeLimits) : DefinitionLimits :=
  mkDefinitionLimits (dl_list_items limits) (dl_list_items limits) (dl_list_items limits)
    (dl_depth limits) (dl_nodes limits) (dl_string_bytes limits).

(** ** Integers and text *)
Definition be_bytes (n : nat) (z : Z) : list Z := rev (le_bytes n z).
Definition of_be (bytes : list Z) : Z := fold_left (fun z b => z * 256 + b) bytes 0.

(** [iN::from_be_bytes] *)
Definition to_signed (bits : Z) (z : Z) : Z := if z <? 2 ^ (bits - 1) then z else z - 2 ^ bits.

Definition byte_in (lo hi b : Z) : bool := (lo <=? b) && (b <=? hi).
Definition continuation : Z -> bool := byte_in 128 191.

(** [str::from_utf8]: the well-formed sequences of the Unicode standard. *)
Fixpoint utf8_valid (l : list Z) : bool :=
  match l with
  | [] => true
  | b :: l1 =>
      if b <? 128 then utf8_valid l1
      else match l1 with
      | [] => false
      | c1 :: l2 =>
          if byte_in 194 223 b then continuation c1 && utf8_valid l2
          else match l2 with
          | [] => false
          | c2 :: l3 =>
              if b =? 224 then byte_in 160 191 c1 && continuation c2 && utf8_valid l3
              else if byte_in 225 236 b || byte_in 238 239 b then continuation c1 && continuation c2 && utf8_valid l3
              else if b =? 237 then byte_in 128 159 c1 && continuation c2 && utf8_valid l3
              else match l3 with
              | [] => false
              | c3 :: l4 =>
                  (if b =? 240 then byte_in 144 191 c1
                   else if byte_in 241 243 b then continuation c1
                   else if b =? 244 then byte_in 128 143 c1 else false) &&
                  continuation c2 && continuation c3 && utf8_valid l4
              end
          end
      end
  end.

Fixpoint string_of (bytes : list Z) : string :=
  match bytes with [] => EmptyString | b :: l => String (Ascii.ascii_of_N (Z.to_N b)) (string_of l) end.

(** ** Envelopes ([envelope/mod.rs]) *)
Definition MAGIC : list Z := [68; 79; 76; 87].
Definition MAJOR_VERSION : Z := 1.
Definition MINOR_VERSION : Z := 0.
Definition HEADER_LEN : Z := 20.

Inductive PayloadKind := PayloadTypeDef | PayloadTypedDatum | PayloadModelDef | PayloadModelSet.

#[export] Instance PayloadKind_eq_dec : EqDecision PayloadKind.
Proof. solve_decision. Defined.

Definition payload_tag (k : PayloadKind) : Z :=
  match k with PayloadTypeDef => 1 | PayloadTypedDatum => 2 | PayloadModelDef => 3 | PayloadModelSet => 4 end.

Definition payload_from_tag (tag offset : Z) : WResult PayloadKind :=
  if tag =? 1 then WOk PayloadTypeDef else if tag =? 2 then WOk PayloadTypedDatum
  else if tag =? 3 then WOk PayloadModelDef else if tag =? 4 then WOk PayloadModelSet
  else WErr (WireAt UnsupportedPayload offset).

Record Envelope := mkEnvelope {
  env_major : Z; env_minor : Z; env_kind : PayloadKind; env_payload : list Z
}.

Definition envelope_new (kind : PayloadKind) (payload : list Z) : Envelope :=
  mkEnvelope MAJOR_VERSION MINOR_VERSION kind payload.

Definition encode_envelope (e : Envelope) (limits : DecodeLimits) : WResult (list Z) :=
  wguard (negb (negb (env_major e =? MAJOR_VERSION) || (MINOR_VERSION <? env_minor e))) (WireNew UnsupportedVersion) ;;%
  let total := HEADER_LEN + zlen (env_payload e) in
  wguard (total <=? dl_total_bytes limits) limit_error ;;%
  WOk (MAGIC ++ be_bytes 2 (env_major e) ++ be_bytes 2 (env_minor e) ++ [payload_tag (env_kind e)] ++ [0] ++
       be_bytes 2 0 ++ be_bytes 8 (zlen (env_payload e)) ++ env_payload e).

(** [input[from..to]] *)
Definition bytes_at (input : list Z) (from to : nat) : list Z := take (to - from) (drop from input).
Definition byte_at (input : list Z) (i : nat) : Z := nth i input 0.

Definition decode_envelope (input : list Z) (limits : DecodeLimits) : WResult Envelope :=
  wguard (zlen input <=? dl_total_bytes limits) (limit_at 0) ;;%
  wguard (negb (zlen input <? HEADER_LEN)) (WireAt UnexpectedEof (zlen input)) ;;%
  wguard (bool_decide (bytes_at input 0 4 = MAGIC)) (WireAt InvalidMagic 0) ;;%
  let major := of_be (bytes_at input 4 6) in
  let minor := of_be (bytes_at input 6 8) in
  wguard (negb (negb (major =? MAJOR_VERSION) || (MINOR_VERSION <? minor))) (WireAt UnsupportedVersion 4) ;;%
  let% kind := payload_from_tag (byte_at input 8) 8 in
  wguard ((byte_at input 9 =? 0) && (byte_at input 10 =? 0) && (byte_at input 11 =? 0)) (WireAt InvalidHeader 9) ;;%
  let expected := HEADER_LEN + of_be (bytes_at input 12 20) in
  wguard (expected <=? u64_max) (WireAt LengthMismatch 12) ;;%
  wguard (expected =? zlen input) (WireAt LengthMismatch 12) ;;%
  WOk (mkEnvelope major minor kind (drop 20 input)).
