(* ===== verification/WireEncode.v ===== *)
(** * Canonical encoding ([crates/dol-wire/src/encode/mod.rs])

    The encoder of type definitions, typed datums, models and model sets; it
    threads its output and node count and stops at the first error. *)
From Stdlib Require Import ZArith Lia.
From S2P Require Import Prelude Foreign Truth BTree Text Types Values Fingerprint Model Wire.

Local Open Scope Z_scope.

(** [properties_to_bits] ([validate/mod.rs]) *)
Definition bit (b : bool) (i : Z) : Z := Z.shiftl (if b then 1 else 0) i.
Definition properties_to_bits (p : TypeProperties) : Z :=
  Z.lor (bit (equality p) 0) (Z.lor (bit (ordering p) 1) (Z.lor (bit (keyable p) 2) (Z.lor (bit (numeric p) 3)
    (Z.lor (bit (integral p) 4) (Z.lor (bit (exact_numeric p) 5) (Z.lor (bit (temporal p) 6) (bit (collection p) 7))))))).

Section Encode.
Context (limits : DecodeLimits).

(** ** The encoder.  Limits and the payload bound they give are fixed. *)
Record Encoder := mkEncoder { en_nodes : Z; en_output : list Z }.
Definition Enc := Encoder -> WResult Encoder.
Definition max_payload_bytes : Z := dl_total_bytes limits - HEADER_LEN.

Definition encoder_new : WResult Encoder :=
  wguard (HEADER_LEN <=? dl_total_bytes limits) limit_error ;;% WOk (mkEncoder 0 []).

Definition enc_ok : Enc := fun s => WOk s.
Definition enc_seq (a b : Enc) : Enc := fun s => let% s := a s in b s.
Notation "a ;;> b" := (enc_seq a b) (at level 62, right associativity).
Definition enc_check (m : WResult unit) : Enc := fun s => m ;;% WOk s.

(** [for item in items { f(item)?; }] *)
Definition enc_each {A} (f : A -> Enc) : list A -> Enc :=
  fix go l := match l with [] => enc_ok | x :: l' => f x ;;> go l' end.

Definition enc_write (bytes : list Z) : Enc := fun s =>
  wguard (zlen (en_output s) + zlen bytes <=? max_payload_bytes) limit_error ;;%
  WOk (mkEncoder (en_nodes s) (en_output s ++ bytes)).

Definition enc_u8 (v : Z) : Enc := enc_write [v].
Definition enc_bool (b : bool) : Enc := enc_u8 (if b then 1 else 0).
Definition enc_u32 (v : Z) : Enc := enc_write (be_bytes 4 v).
Definition enc_u64 (v : Z) : Enc := enc_write (be_bytes 8 v).
Definition enc_i64 (v : Z) : Enc := enc_write (be_bytes 8 v).
Definition enc_u128 (v : Z) : Enc := enc_write (be_bytes 16 v).
Definition enc_i128 (v : Z) : Enc := enc_write (be_bytes 16 v).

Definition enc_count (n : nat) : Enc :=
  enc_check (wguard (Z.of_nat n <=? dl_list_items limits) limit_error) ;;>
  enc_check (wguard (Z.of_nat n <=? u32_max) limit_error) ;;>
  enc_u32 (Z.of_nat n).

Definition enc_string (s : string) : Enc :=
  enc_check (wguard (zstrlen s <=? dl_string_bytes limits) limit_error) ;;>
  enc_check (wguard (zstrlen s <=? u32_max) limit_error) ;;>
  enc_u32 (zstrlen s) ;;> enc_write (bytes_of s).

Definition enc_literal (bytes : list Z) : Enc :=
  enc_check (wguard (zlen bytes <=? dl_literal_bytes limits) limit_error) ;;>
  enc_check (wguard (zlen bytes <=? u32_max) limit_error) ;;>
  enc_u32 (zlen bytes) ;;> enc_write bytes.

Definition enc_node (depth : Z) : Enc := fun s =>
  wguard (depth <=? dl_depth limits) limit_error ;;%
  let nodes := en_nodes s + 1 in
  wguard (nodes <=? dl_nodes limits) limit_error ;;%
  WOk (mkEncoder nodes (en_output s)).

Definition enc_capacity (additional : nat) : Enc := fun s =>
  wguard (en_nodes s + Z.of_nat additional <=? dl_nodes limits) limit_error ;;% WOk s.

(** ** Types *)
Definition enc_parameter (depth : Z) (p : string * TypeParameter) : Enc :=
  enc_node (depth + 1) ;;> enc_string (fst p) ;;>
  match snd p with
  | TPBool b => enc_u8 0 ;;> enc_bool b
  | TPInt i => enc_u8 1 ;;> enc_i64 i
  | TPUInt u => enc_u8 2 ;;> enc_u64 u
  | TPString s => enc_u8 3 ;;> enc_string s
  end.

Definition scalar_tag (r : ScalarRepr) : Z :=
  match r with
  | RBool => 0 | RTruth => 1 | RInt _ => 2 | RUInt _ => 3 | RFloat32 => 4 | RFloat64 => 5 | RDecimal => 6 | RChar => 7
  | RString => 8 | RBytes => 9 | RUuid => 10 | RDate => 11 | RTime => 12 | RLocalDateTime => 13 | RInstant => 14
  | RDuration => 15
  end.

Definition enc_scalar (r : ScalarRepr) : Enc :=
  enc_u8 (scalar_tag r) ;;> match r with RInt bits | RUInt bits => enc_u8 bits | _ => enc_ok end.

Fixpoint enc_type (t : TypeDef) (depth : Z) : Enc :=
  let '(mkTypeDef key version shape nullability properties parameters) := t in
  enc_node depth ;;> enc_string key ;;> enc_u32 version ;;>
  enc_bool (match nullability with Nullable => true | NonNull => false end) ;;>
  enc_u8 (properties_to_bits properties) ;;>
  enc_count (length parameters) ;;> enc_capacity (length parameters) ;;>
  enc_each (enc_parameter depth) parameters ;;>
  match shape with
  | ShScalar r => enc_u8 0 ;;> enc_scalar r
  | ShList e => enc_u8 1 ;;> enc_type e (depth + 1)
  | ShMap k v => enc_u8 2 ;;> enc_type k (depth + 1) ;;> enc_type v (depth + 1)
  | ShTuple es =>
      enc_u8 3 ;;> enc_count (length es) ;;> enc_capacity (length es) ;;>
      enc_each (fun e => enc_type e (depth + 1)) es
  | ShRecord fs =>
      enc_u8 4 ;;> enc_count (length fs) ;;> enc_capacity (length fs) ;;>
      enc_each (fun f => let '(mkRecordField name ty presence) := f in
        enc_node (depth + 1) ;;> enc_string name ;;>
        enc_bool (match presence with Optional => true | Required => false end) ;;> enc_type ty (depth + 1)) fs
  end.

(** ** Values *)
Context {F : Foreign}.

Definition truth_tag (t : Truth) : Z := match t with TFalse => 0 | TTrue => 1 | TUnknown => 2 end.

Definition enc_time (t : TimeOfDay) : Enc :=
  enc_u8 (time_hour t) ;;> enc_u8 (time_minute t) ;;> enc_u8 (time_second t) ;;> enc_u32 (time_nanosecond t).

Definition bytes_cmp : list Z -> list Z -> comparison := list_cmp Z.compare.

(** The key of an entry is first encoded on its own, to sort the entries; the
    total of these encodings is bounded.  An entry is given by the encoders of
    its key and value. *)
Fixpoint map_keys (entries : list (Enc * Enc)) (temporary : Z) (ordered : list (list Z * (Enc * Enc)))
  : WResult (list (list Z * (Enc * Enc))) :=
  match entries with
  | [] => WOk ordered
  | e :: rest =>
      let% key := encoder_new in
      let% key := fst e key in
      let temporary := temporary + zlen (en_output key) in
      wguard (temporary <=? max_payload_bytes) limit_error ;;%
      map_keys rest temporary (ordered ++ [(en_output key, e)])
  end.

Definition key_order {A} (a b : list Z * A) : comparison := bytes_cmp (fst a) (fst b).

Definition enc_map (entries : list (Enc * Enc)) : Enc :=
  enc_count (length entries) ;;> enc_capacity (length entries * 2) ;;>
  fun s =>
    let% ordered := map_keys entries 0 [] in
    enc_each (fun e => fst (snd e) ;;> snd (snd e)) (sort_by key_order ordered) s.

Fixpoint enc_value (v : Value) (depth : Z) : Enc :=
  let child d := enc_node (depth + 1) ;;>
                 match d with
                 | Missing => enc_u8 0
                 | Null => enc_u8 1
                 | DValue w => enc_u8 2 ;;> enc_value w (depth + 1)
                 end in
  let datum_list l := enc_count (length l) ;;> enc_capacity (length l) ;;> enc_each child l in
  match v with
  | VBool b => enc_u8 0 ;;> enc_bool b
  | VTruth t => enc_u8 1 ;;> enc_u8 (truth_tag t)
  | VInt i => enc_u8 2 ;;> enc_i128 i
  | VUInt u => enc_u8 3 ;;> enc_u128 u
  | VFloat32 bits => enc_u8 4 ;;> enc_u32 bits
  | VFloat64 bits => enc_u8 5 ;;> enc_u64 bits
  | VDecimal d =>
      let normalized := dec_normalize d in
      enc_u8 6 ;;> enc_i128 (dec_mantissa normalized) ;;> enc_u32 (dec_scale normalized)
  | VChar c => enc_u8 7 ;;> enc_u32 c
  | VString s => enc_u8 8 ;;> enc_string s
  | VBytes b => enc_u8 9 ;;> enc_literal b
  | VUuid u => enc_u8 10 ;;> enc_write (uuid_bytes u)
  | VDate d => enc_u8 15 ;;> enc_i64 (date_julian_day d)
  | VTime t => enc_u8 16 ;;> enc_time t
  | VLocalDateTime l => enc_u8 17 ;;> enc_i64 (date_julian_day (ldt_date l)) ;;> enc_time (ldt_time l)
  | VInstant i => enc_u8 18 ;;> enc_i128 (instant_nanos i)
  | VDuration d => enc_u8 19 ;;> enc_i128 (duration_nanos d)
  | VList l => enc_u8 11 ;;> datum_list l
  | VMap l => enc_u8 12 ;;> enc_map (map (fun e => (child (fst e), child (snd e))) l)
  | VTuple l => enc_u8 13 ;;> datum_list l
  | VRecord fields =>
      enc_u8 14 ;;> enc_count (length fields) ;;> enc_capacity (length fields) ;;>
      enc_each (fun f => enc_string (fst f) ;;> child (snd f)) fields
  end.

Definition enc_datum (d : Datum) (depth : Z) : Enc :=
  enc_node depth ;;>
  match d with
  | Missing => enc_u8 0
  | Null => enc_u8 1
  | DValue v => enc_u8 2 ;;> enc_value v depth
  end.

(** ** Models *)
Definition enc_string_keys (keys : list string) (depth : Z) : Enc :=
  enc_count (length keys) ;;> enc_capacity (length keys) ;;>
  enc_each (fun key => enc_node (depth + 2) ;;> enc_string key) keys.

(** [validate_type_for_encode] ([validate/mod.rs]) *)
Definition validate_type_for_encode (t : TypeDef) : WResult unit := core (validate_type t (definition_limits limits)).
Definition validate_datum_for_encode (t : TypeDef) (p : Presence) (d : Datum) : WResult unit := core (validate_datum t p d).

Definition enc_field (depth : Z) (f : FieldDef) : Enc :=
  enc_node (depth + 1) ;;> enc_string (fd_key f) ;;> enc_string (fd_name f) ;;>
  enc_bool (match fd_presence f with Optional => true | Required => false end) ;;>
  enc_check (validate_type_for_encode (fd_ty f)) ;;> enc_type (fd_ty f) (depth + 1).

Definition cardinality_tag (c : Cardinality) : Z := match c with COne => 0 | COptionalOne => 1 | CMany => 2 end.

Definition enc_relation (depth : Z) (r : RelationDef) : Enc :=
  enc_node (depth + 1) ;;> enc_string (rel_key r) ;;> enc_string (rel_name r) ;;> enc_string (rel_target_model r) ;;>
  enc_u8 (cardinality_tag (rel_cardinality r)) ;;>
  enc_count (length (rel_fields r)) ;;> enc_capacity (length (rel_fields r)) ;;>
  enc_each (fun pair => enc_node (depth + 2) ;;> enc_string (fst pair) ;;> enc_string (snd pair)) (rel_fields r).

Definition enc_reference (depth : Z) (r : ReferenceDef) : Enc :=
  enc_node (depth + 1) ;;> enc_string_keys (ref_source_fields r) depth ;;> enc_string (ref_target_model r) ;;>
  enc_string_keys (ref_target_fields r) depth.

Definition enc_model (m : ModelDef) (depth : Z) : Enc :=
  enc_node depth ;;> enc_string (md_key m) ;;> enc_string (md_name m) ;;>
  enc_count (length (md_fields m)) ;;> enc_capacity (length (md_fields m)) ;;> enc_each (enc_field depth) (md_fields m) ;;>
  match md_identity m with
  | None => enc_u8 0
  | Some identity => enc_u8 1 ;;> enc_string_keys identity depth
  end ;;>
  enc_count (length (md_unique m)) ;;> enc_capacity (length (md_unique m)) ;;>
  enc_each (fun unique => enc_node (depth + 1) ;;> enc_string_keys unique depth) (md_unique m) ;;>
  enc_count (length (md_relations m)) ;;> enc_capacity (length (md_relations m)) ;;> enc_each (enc_relation depth) (md_relations m) ;;>
  enc_count (length (md_references m)) ;;> enc_capacity (length (md_references m)) ;;>
  enc_each (enc_reference depth) (md_references m).

(** ** Frames *)
Definition finish_frame (kind : PayloadKind) (e : Encoder) : WResult (list Z) :=
  encode_envelope (envelope_new kind (en_output e)) limits.

(** [let mut encoder = Encoder::new(limits)?; ..; finish(kind, encoder, limits)] *)
Definition encode_with (kind : PayloadKind) (body : Enc) : WResult (list Z) :=
  let% encoder := encoder_new in
  let% encoder := body encoder in
  finish_frame kind encoder.

Definition encode_type_def_with_limits (t : TypeDef) : WResult (list Z) :=
  validate_type_for_encode t ;;% encode_with PayloadTypeDef (enc_type t 0).

Definition encode_typed_datum_with_limits (t : TypeDef) (p : Presence) (d : Datum) : WResult (list Z) :=
  validate_type_for_encode t ;;%
  validate_datum_for_encode t p d ;;%
  encode_with PayloadTypedDatum
    (enc_type t 0 ;;> enc_bool (match p with Optional => true | Required => false end) ;;> enc_datum d 0).

Definition encode_model_def_with_limits (m : ModelDef) : WResult (list Z) := encode_with PayloadModelDef (enc_model m 0).

Definition encode_model_set_with_limits (models : ModelSet) : WResult (list Z) :=
  encode_with PayloadModelSet
    (enc_count (length models) ;;> enc_capacity (length models) ;;> enc_each (fun e => enc_model (snd e) 0) models).
End Encode.

Notation "a ;;> b" := (enc_seq a b) (at level 62, right associativity) : wire_scope.

(** The entry points under default limits. *)
Definition encode_type_def := encode_type_def_with_limits default_decode_limits.
Definition encode_typed_datum {F : Foreign} := encode_typed_datum_with_limits default_decode_limits.
Definition encode_model_def := encode_model_def_with_limits default_decode_limits.
Definition encode_model_set := encode_model_set_with_limits default_decode_limits.
