(* ===== verification/WireDecode.v ===== *)
(** * Bounded decoding ([crates/dol-wire/src/decode], [dto.rs], [validate])

    Untrusted bytes are parsed into private DTOs under hard limits, lowered
    and validated into core values, and accepted only when encoding the value
    again gives the same bytes. *)
From Stdlib Require Import ZArith Lia DecimalString.
From S2P Require Import Prelude Foreign Truth BTree Text Types Values Fingerprint Model Wire WireEncode.

Local Open Scope Z_scope.

(** ** Data transfer objects ([dto.rs]) *)
Inductive ScalarDto :=
| DtoBool | DtoTruth | DtoInt (bits : Z) | DtoUInt (bits : Z) | DtoFloat32 | DtoFloat64 | DtoDecimal | DtoChar
| DtoString | DtoBytes | DtoUuid | DtoDate | DtoTime | DtoLocalDateTime | DtoInstant | DtoDuration.

Inductive ParameterDto := DtoPBool (b : bool) | DtoPInt (i : Z) | DtoPUInt (u : Z) | DtoPString (s : string).

Inductive TypeDto :=
| mkTypeDto (key : string) (version : Z) (is_null : bool) (property_bits : Z) (parameters : list (string * ParameterDto))
    (shape : ShapeDto)
with ShapeDto :=
| DtoScalar (r : ScalarDto)
| DtoList (element : TypeDto)
| DtoMap (key value : TypeDto)
| DtoTuple (elements : list TypeDto)
| DtoRecord (fields : list RecordFieldDto)
with RecordFieldDto :=
| mkRecordFieldDto (name : string) (optional : bool) (ty : TypeDto).

Inductive ValueDto :=
| DtoVBool (b : bool) | DtoVTruth (tag : Z) | DtoVInt (i : Z) | DtoVUInt (u : Z) | DtoVFloat32 (bits : Z)
| DtoVFloat64 (bits : Z) | DtoVDecimal (mantissa scale : Z) | DtoVChar (c : Z) | DtoVString (s : string)
| DtoVBytes (b : list Z) | DtoVUuid (b : list Z) | DtoVDate (julian_day : Z)
| DtoVTime (hour minute second nanosecond : Z)
| DtoVLocalDateTime (julian_day hour minute second nanosecond : Z)
| DtoVInstant (nanos : Z) | DtoVDuration (nanos : Z)
| DtoVList (l : list DatumDto) | DtoVMap (l : list (DatumDto * DatumDto)) | DtoVTuple (l : list DatumDto)
| DtoVRecord (l : list (string * DatumDto))
with DatumDto := DtoMissing | DtoNull | DtoValue (v : ValueDto).

Record FieldDto := mkFieldDto { fdto_key : string; fdto_name : string; fdto_optional : bool; fdto_ty : TypeDto }.
Record RelationDto := mkRelationDto {
  rdto_key : string; rdto_name : string; rdto_target_model : string; rdto_cardinality : Z;
  rdto_fields : list (string * string)
}.
Record ReferenceDto := mkReferenceDto {
  fdto_source_fields : list string; fdto_target_model : string; fdto_target_fields : list string
}.
Record ModelDto := mkModelDto {
  mdto_key : string; mdto_name : string; mdto_fields : list FieldDto; mdto_identity : option (list string);
  mdto_unique : list (list string); mdto_relations : list RelationDto; mdto_references : list ReferenceDto
}.

(** ** The decoder: the rest of the input, its offset, and the node count *)
Record Decoder := mkDecoder { de_rest : list Z; de_offset : Z; de_nodes : Z }.
Definition Dec (A : Type) := Decoder -> WResult (A * Decoder).

Definition dret {A} (a : A) : Dec A := fun s => WOk (a, s).
Definition dfail {A} (e : WireError) : Dec A := fun _ => WErr e.
Definition dbind {A B} (m : Dec A) (f : A -> Dec B) : Dec B := fun s => let% r := m s in f (fst r) (snd r).
Definition doffset : Dec Z := fun s => WOk (de_offset s, s).
Definition dcheck (b : bool) (e : WireError) : Dec unit := fun s => wguard b e ;;% WOk (tt, s).

Notation "'let^' x := m 'in' k" := (dbind m (fun x => k)) (at level 200, x pattern, k at level 200) : wire_scope.
Notation "m ;;^ k" := (dbind m (fun _ => k)) (at level 100, right associativity) : wire_scope.

(** [for _ in 0..count { items.push(f()?); }] *)
Fixpoint dtimes {A} (n : nat) (f : Dec A) : Dec (list A) :=
  match n with O => dret [] | S n' => let^ x := f in let^ xs := dtimes n' f in dret (x :: xs) end.

Section Decode.
Context (limits : DecodeLimits).

Definition decoder_new (input : list Z) : Decoder := mkDecoder input 0 0.

(** [Decoder::finish] *)
Definition dec_finish (s : Decoder) : WResult unit :=
  match de_rest s with [] => WOk tt | _ => WErr (WireAt InvalidValue (de_offset s)) end.

Definition dec_take (n : nat) : Dec (list Z) := fun s =>
  wguard (Nat.leb n (length (de_rest s))) (WireAt UnexpectedEof (de_offset s)) ;;%
  WOk (take n (de_rest s), mkDecoder (drop n (de_rest s)) (de_offset s + Z.of_nat n) (de_nodes s)).

Definition dec_u8 : Dec Z := let^ b := dec_take 1 in dret (nth 0 b 0).
Definition dec_bool : Dec bool :=
  let^ offset := doffset in
  let^ b := dec_u8 in
  if b =? 0 then dret false else if b =? 1 then dret true else dfail (invalid_tag offset).
Definition dec_u32 : Dec Z := let^ b := dec_take 4 in dret (of_be b).
Definition dec_u64 : Dec Z := let^ b := dec_take 8 in dret (of_be b).
Definition dec_i64 : Dec Z := let^ b := dec_take 8 in dret (to_signed 64 (of_be b)).
Definition dec_u128 : Dec Z := let^ b := dec_take 16 in dret (of_be b).
Definition dec_i128 : Dec Z := let^ b := dec_take 16 in dret (to_signed 128 (of_be b)).

Definition dec_remaining : Dec Z := fun s => WOk (zlen (de_rest s), s).

Definition dec_count (minimum_item_bytes : Z) : Dec nat :=
  let^ offset := doffset in
  let^ count := dec_u32 in
  dcheck (count <=? dl_list_items limits) (limit_at offset) ;;^
  let^ remaining := dec_remaining in
  dcheck (count * minimum_item_bytes <=? remaining) (WireAt UnexpectedEof offset) ;;^
  dret (Z.to_nat count).

Definition dec_string : Dec string :=
  let^ offset := doffset in
  let^ length := dec_u32 in
  dcheck (length <=? dl_string_bytes limits) (limit_at offset) ;;^
  let^ bytes := dec_take (Z.to_nat length) in
  dcheck (utf8_valid bytes) (WireAt InvalidUtf8 (offset + 4)) ;;^
  dret (string_of bytes).

Definition dec_literal : Dec (list Z) :=
  let^ offset := doffset in
  let^ length := dec_u32 in
  dcheck (length <=? dl_literal_bytes limits) (limit_at offset) ;;^
  dec_take (Z.to_nat length).

Definition dec_node (depth : Z) : Dec unit := fun s =>
  wguard (depth <=? dl_depth limits) (limit_at (de_offset s)) ;;%
  let nodes := de_nodes s + 1 in
  wguard (nodes <=? dl_nodes limits) (limit_at (de_offset s)) ;;%
  WOk (tt, mkDecoder (de_rest s) (de_offset s) nodes).

Definition dec_capacity (additional : nat) : Dec unit := fun s =>
  wguard (de_nodes s + Z.of_nat additional <=? dl_nodes limits) (limit_at (de_offset s)) ;;% WOk (tt, s).

(** ** Types.  Each nested type passes the depth check first, so the depth
    limit bounds the recursion: [fuel] counts the levels that are left. *)
Definition dec_parameter (depth : Z) : Dec (string * ParameterDto) :=
  dec_node (depth + 1) ;;^
  let^ name := dec_string in
  let^ offset := doffset in
  let^ tag := dec_u8 in
  let^ p :=
    if tag =? 0 then let^ b := dec_bool in dret (DtoPBool b)
    else if tag =? 1 then let^ i := dec_i64 in dret (DtoPInt i)
    else if tag =? 2 then let^ u := dec_u64 in dret (DtoPUInt u)
    else if tag =? 3 then let^ s := dec_string in dret (DtoPString s)
    else dfail (invalid_tag offset) in
  dret (name, p).

Definition dec_scalar : Dec ScalarDto :=
  let^ offset := doffset in
  let^ tag := dec_u8 in
  if tag =? 0 then dret DtoBool else if tag =? 1 then dret DtoTruth
  else if tag =? 2 then let^ bits := dec_u8 in dret (DtoInt bits)
  else if tag =? 3 then let^ bits := dec_u8 in dret (DtoUInt bits)
  else if tag =? 4 then dret DtoFloat32 else if tag =? 5 then dret DtoFloat64
  else if tag =? 6 then dret DtoDecimal else if tag =? 7 then dret DtoChar
  else if tag =? 8 then dret DtoString else if tag =? 9 then dret DtoBytes
  else if tag =? 10 then dret DtoUuid else if tag =? 11 then dret DtoDate
  else if tag =? 12 then dret DtoTime else if tag =? 13 then dret DtoLocalDateTime
  else if tag =? 14 then dret DtoInstant else if tag =? 15 then dret DtoDuration
  else dfail (invalid_tag offset).

Definition dec_shape (dec_type : Z -> Dec TypeDto) (depth : Z) : Dec ShapeDto :=
  let^ offset := doffset in
  let^ tag := dec_u8 in
  if tag =? 0 then let^ r := dec_scalar in dret (DtoScalar r)
  else if tag =? 1 then let^ e := dec_type (depth + 1) in dret (DtoList e)
  else if tag =? 2 then let^ k := dec_type (depth + 1) in let^ v := dec_type (depth + 1) in dret (DtoMap k v)
  else if tag =? 3 then
    let^ count := dec_count 1 in
    dec_capacity count ;;^
    let^ es := dtimes count (dec_type (depth + 1)) in dret (DtoTuple es)
  else if tag =? 4 then
    let^ count := dec_count 6 in
    dec_capacity count ;;^
    let^ fs := dtimes count
      (dec_node (depth + 1) ;;^
       let^ name := dec_string in
       let^ optional := dec_bool in
       let^ ty := dec_type (depth + 1) in
       dret (mkRecordFieldDto name optional ty)) in
    dret (DtoRecord fs)
  else dfail (invalid_tag offset).

Definition out_of_fuel : WireError := WireCore (mkDiagnostic "out of fuel").

Fixpoint dec_type (fuel : nat) (depth : Z) : Dec TypeDto :=
  dec_node depth ;;^
  match fuel with
  | O => dfail out_of_fuel
  | S fuel' =>
      let^ key := dec_string in
      let^ version := dec_u32 in
      let^ is_null := dec_bool in
      let^ property_bits := dec_u8 in
      let^ count := dec_count 6 in
      dec_capacity count ;;^
      let^ parameters := dtimes count (dec_parameter depth) in
      let^ shape := dec_shape (dec_type fuel') depth in
      dret (mkTypeDto key version is_null property_bits parameters shape)
  end.

(** ** Values *)
Definition dec_time_parts : Dec (Z * Z * Z * Z) :=
  let^ hour := dec_u8 in
  let^ minute := dec_u8 in
  let^ second := dec_u8 in
  let^ nanosecond := dec_u32 in
  dret (hour, minute, second, nanosecond).

Definition dec_datum_list (dec_datum : Z -> Dec DatumDto) (depth : Z) : Dec (list DatumDto) :=
  let^ count := dec_count 1 in
  dec_capacity count ;;^ dtimes count (dec_datum depth).

Definition dec_map (dec_datum : Z -> Dec DatumDto) (depth : Z) : Dec (list (DatumDto * DatumDto)) :=
  let^ count := dec_count 2 in
  dec_capacity (count * 2) ;;^
  dtimes count (let^ k := dec_datum depth in let^ v := dec_datum depth in dret (k, v)).

Definition dec_value (dec_datum : Z -> Dec DatumDto) (depth : Z) : Dec ValueDto :=
  let^ offset := doffset in
  let^ tag := dec_u8 in
  if tag =? 0 then let^ b := dec_bool in dret (DtoVBool b)
  else if tag =? 1 then let^ t := dec_u8 in dret (DtoVTruth t)
  else if tag =? 2 then let^ i := dec_i128 in dret (DtoVInt i)
  else if tag =? 3 then let^ u := dec_u128 in dret (DtoVUInt u)
  else if tag =? 4 then let^ bits := dec_u32 in dret (DtoVFloat32 bits)
  else if tag =? 5 then let^ bits := dec_u64 in dret (DtoVFloat64 bits)
  else if tag =? 6 then let^ m := dec_i128 in let^ s := dec_u32 in dret (DtoVDecimal m s)
  else if tag =? 7 then let^ c := dec_u32 in dret (DtoVChar c)
  else if tag =? 8 then let^ s := dec_string in dret (DtoVString s)
  else if tag =? 9 then let^ b := dec_literal in dret (DtoVBytes b)
  else if tag =? 10 then let^ b := dec_take 16 in dret (DtoVUuid b)
  else if tag =? 15 then let^ d := dec_i64 in dret (DtoVDate d)
  else if tag =? 16 then let^ t := dec_time_parts in let '(h, m, s, n) := t in dret (DtoVTime h m s n)
  else if tag =? 17 then
    let^ d := dec_i64 in let^ t := dec_time_parts in let '(h, m, s, n) := t in dret (DtoVLocalDateTime d h m s n)
  else if tag =? 18 then let^ i := dec_i128 in dret (DtoVInstant i)
  else if tag =? 19 then let^ d := dec_i128 in dret (DtoVDuration d)
  else if tag =? 11 then let^ l := dec_datum_list dec_datum (depth + 1) in dret (DtoVList l)
  else if tag =? 12 then let^ l := dec_map dec_datum (depth + 1) in dret (DtoVMap l)
  else if tag =? 13 then let^ l := dec_datum_list dec_datum (depth + 1) in dret (DtoVTuple l)
  else if tag =? 14 then
    let^ count := dec_count 5 in
    dec_capacity count ;;^
    let^ fields := dtimes count (let^ name := dec_string in let^ d := dec_datum (depth + 1) in dret (name, d)) in
    dret (DtoVRecord fields)
  else dfail (invalid_tag offset).

Fixpoint dec_datum (fuel : nat) (depth : Z) : Dec DatumDto :=
  dec_node depth ;;^
  match fuel with
  | O => dfail out_of_fuel
  | S fuel' =>
      let^ offset := doffset in
      let^ tag := dec_u8 in
      if tag =? 0 then dret DtoMissing
      else if tag =? 1 then dret DtoNull
      else if tag =? 2 then let^ v := dec_value (dec_datum fuel') depth in dret (DtoValue v)
      else dfail (invalid_tag offset)
  end.

(** ** Models *)
Definition dec_string_keys (depth : Z) : Dec (list string) :=
  let^ count := dec_count 4 in
  dec_capacity count ;;^ dtimes count (dec_node (depth + 2) ;;^ dec_string).

Definition levels : nat := S (Z.to_nat (dl_depth limits)).

Definition dec_field (depth : Z) : Dec FieldDto :=
  dec_node (depth + 1) ;;^
  let^ key := dec_string in
  let^ name := dec_string in
  let^ optional := dec_bool in
  let^ ty := dec_type levels (depth + 1) in
  dret (mkFieldDto key name optional ty).

Definition dec_relation (depth : Z) : Dec RelationDto :=
  dec_node (depth + 1) ;;^
  let^ key := dec_string in
  let^ name := dec_string in
  let^ target_model := dec_string in
  let^ cardinality := dec_u8 in
  let^ count := dec_count 8 in
  dec_capacity count ;;^
  let^ pairs := dtimes count
    (dec_node (depth + 2) ;;^ let^ source := dec_string in let^ target := dec_string in dret (source, target)) in
  dret (mkRelationDto key name target_model cardinality pairs).

Definition dec_reference (depth : Z) : Dec ReferenceDto :=
  dec_node (depth + 1) ;;^
  let^ source_fields := dec_string_keys depth in
  let^ target_model := dec_string in
  let^ target_fields := dec_string_keys depth in
  dret (mkReferenceDto source_fields target_model target_fields).

Definition dec_identity (depth : Z) : Dec (option (list string)) :=
  let^ offset := doffset in
  let^ tag := dec_u8 in
  if tag =? 0 then dret None
  else if tag =? 1 then let^ keys := dec_string_keys depth in dret (Some keys)
  else dfail (invalid_tag offset).

Definition dec_model (depth : Z) : Dec ModelDto :=
  dec_node depth ;;^
  let^ key := dec_string in
  let^ name := dec_string in
  let^ count := dec_count 11 in
  dec_capacity count ;;^
  let^ fields := dtimes count (dec_field depth) in
  let^ identity := dec_identity depth in
  let^ count := dec_count 4 in
  dec_capacity count ;;^
  let^ unique := dtimes count (dec_node (depth + 1) ;;^ dec_string_keys depth) in
  let^ count := dec_count 16 in
  dec_capacity count ;;^
  let^ relations := dtimes count (dec_relation depth) in
  let^ count := dec_count 12 in
  dec_capacity count ;;^
  let^ references := dtimes count (dec_reference depth) in
  dret (mkModelDto key name fields identity unique relations references).
End Decode.

(** ** Lowering ([validate/mod.rs]) *)
Definition lower_scalar (d : ScalarDto) : ScalarRepr :=
  match d with
  | DtoBool => RBool | DtoTruth => RTruth | DtoInt bits => RInt bits | DtoUInt bits => RUInt bits
  | DtoFloat32 => RFloat32 | DtoFloat64 => RFloat64 | DtoDecimal => RDecimal | DtoChar => RChar
  | DtoString => RString | DtoBytes => RBytes | DtoUuid => RUuid | DtoDate => RDate | DtoTime => RTime
  | DtoLocalDateTime => RLocalDateTime | DtoInstant => RInstant | DtoDuration => RDuration
  end.

Definition lower_parameter (d : ParameterDto) : TypeParameter :=
  match d with DtoPBool b => TPBool b | DtoPInt i => TPInt i | DtoPUInt u => TPUInt u | DtoPString s => TPString s end.

Definition properties_from_bits (bits : Z) : TypeProperties :=
  mkTypeProperties (Z.testbit bits 0) (Z.testbit bits 1) (Z.testbit bits 2) (Z.testbit bits 3)
    (Z.testbit bits 4) (Z.testbit bits 5) (Z.testbit bits 6) (Z.testbit bits 7).

(** No step of it fails. *)
Fixpoint lower_type_unchecked (d : TypeDto) : TypeDef :=
  let '(mkTypeDto key version is_null property_bits parameters shape) := d in
  let shape :=
    match shape with
    | DtoScalar r => ShScalar (lower_scalar r)
    | DtoList e => ShList (lower_type_unchecked e)
    | DtoMap k v => ShMap (lower_type_unchecked k) (lower_type_unchecked v)
    | DtoTuple es => ShTuple (map lower_type_unchecked es)
    | DtoRecord fs =>
        ShRecord (map (fun f => let '(mkRecordFieldDto name optional ty) := f in
                        if optional then record_optional name (lower_type_unchecked ty)
                        else record_required name (lower_type_unchecked ty)) fs)
    end in
  let ty := with_properties (shaped key version shape) (properties_from_bits property_bits) in
  let ty := if is_null then nullable ty else ty in
  fold_left (fun ty p => parameter ty (fst p) (lower_parameter (snd p))) parameters ty.

Definition presence_of (optional : bool) : Presence := if optional then Optional else Required.

(** The crates behind decimals, identifiers and the calendar, as decoding
    calls them. *)
Class WireForeign (F : Foreign) := {
  dec_from_str : string -> option Decimal;
  uuid_from_str : string -> option Uuid;
  date_from_julian_day : Z -> option Date;
  time_from_hms_nano : Z -> Z -> Z -> Z -> option TimeOfDay;
  ldt_new : Date -> TimeOfDay -> LocalDateTime;
  instant_from_nanos : Z -> option Instant;
  duration_new : Z -> Z -> Duration
}.

Section Lower.
Context (limits : DecodeLimits).

Definition lower_type (d : TypeDto) : WResult TypeDef :=
  let ty := lower_type_unchecked d in
  core (validate_type ty (definition_limits limits)) ;;% WOk ty.

Context {F : Foreign}.

Definition mapW {A B} (f : A -> WResult B) : list A -> WResult (list B) :=
  fix go l := match l with [] => WOk [] | x :: l' => let% y := f x in let% ys := go l' in WOk (y :: ys) end.

Definition foldW {A S} (f : S -> A -> WResult S) : list A -> S -> WResult S :=
  fix go l s := match l with [] => WOk s | x :: l' => let% s := f s x in go l' s end.

(** *** Models *)
Definition lower_cardinality (tag : Z) : WResult Cardinality :=
  if tag =? 0 then WOk COne else if tag =? 1 then WOk COptionalOne else if tag =? 2 then WOk CMany
  else WErr (WireNew InvalidTag).

Definition lower_field (b : ModelBuilder) (f : FieldDto) : WResult ModelBuilder :=
  let% ty := lower_type (fdto_ty f) in
  WOk (builder_field_def b (fdto_key f) (fdto_name f) ty (presence_of (fdto_optional f))).

Definition lower_relation (b : ModelBuilder) (r : RelationDto) : WResult ModelBuilder :=
  let% cardinality := lower_cardinality (rdto_cardinality r) in
  WOk (builder_relation b (relation_new (rdto_key r) (rdto_name r) (rdto_target_model r) cardinality (rdto_fields r))).

Definition lower_model (d : ModelDto) : WResult ModelDef :=
  let builder := builder_limits (builder_with_key (mdto_key d) (mdto_name d)) (definition_limits limits) in
  let% builder := foldW lower_field (mdto_fields d) builder in
  let builder := match mdto_identity d with Some identity => builder_identity builder identity | None => builder end in
  let builder := fold_left builder_unique (mdto_unique d) builder in
  let% builder := foldW lower_relation (mdto_relations d) builder in
  let builder := fold_left (fun b r => builder_reference b (fdto_source_fields r) (fdto_target_model r) (fdto_target_fields r))
                   (mdto_references d) builder in
  core (freeze builder).

Definition lower_model_set (models : list ModelDto) : WResult ModelSet :=
  let% models := mapW lower_model models in core (model_set_new models).

(** *** Values *)
Context {W : WireForeign F}.

Definition invalid_temporal : WireError := WireNew InvalidValue.
Definition wok_or {A} (o : option A) (e : WireError) : WResult A := match o with Some a => WOk a | None => WErr e end.

Definition to_string (n : Z) : string := NilZero.string_of_uint (N.to_uint (Z.to_N n)).
Fixpoint zeros (n : nat) : string := match n with O => EmptyString | S n' => String (ascii_nat 48) (zeros n') end.
Fixpoint insert_str (s : string) (i : nat) (t : string) : string :=
  match i, s with
  | S i', String a s' => String a (insert_str s' i' t)
  | _, _ => String.append t s
  end.

(** The plain decimal notation of a mantissa at a scale. *)
Definition decimal_text (mantissa scale : Z) : string :=
  let digits := to_string (Z.abs mantissa) in
  let digits :=
    if 0 <? scale then
      let scale := Z.to_nat scale in
      let digits := if Nat.leb (String.length digits) scale
                    then String.append (zeros (scale + 1 - String.length digits)) digits else digits in
      insert_str digits (String.length digits - scale) "."
    else digits in
  if mantissa <? 0 then String (ascii_nat 45) digits else digits.

Definition lower_decimal (mantissa scale : Z) : WResult Value :=
  wguard (scale <=? 28) (WireNew InvalidValue) ;;%
  let% d := wok_or (dec_from_str (decimal_text mantissa scale)) (WireNew InvalidValue) in
  WOk (VDecimal d).

(** The hyphenated hexadecimal text of sixteen bytes. *)
Fixpoint uuid_text_from (index : nat) (bytes : list Z) : string :=
  match bytes with
  | [] => EmptyString
  | b :: rest =>
      let pair := String (hex_digit (Z.shiftr b 4)) (String (hex_digit (Z.land b 15)) (uuid_text_from (S index) rest)) in
      if bool_decide (index ∈ [4; 6; 8; 10]%nat) then String (ascii_nat 45) pair else pair
  end.
Definition uuid_text (bytes : list Z) : string := uuid_text_from 0 bytes.

Definition lower_uuid (bytes : list Z) : WResult Value :=
  let% u := wok_or (uuid_from_str (uuid_text bytes)) (WireNew InvalidValue) in WOk (VUuid u).

Definition lower_date (julian_day : Z) : WResult Date :=
  wguard ((- 2 ^ 31 <=? julian_day) && (julian_day <? 2 ^ 31)) invalid_temporal ;;%
  wok_or (date_from_julian_day julian_day) invalid_temporal.

Definition lower_time (h m s n : Z) : WResult TimeOfDay := wok_or (time_from_hms_nano h m s n) invalid_temporal.

(** Division truncates. *)
Definition lower_duration (nanos : Z) : WResult Value :=
  let seconds := Z.quot nanos 1000000000 in
  wguard ((- 2 ^ 63 <=? seconds) && (seconds <? 2 ^ 63)) invalid_temporal ;;%
  WOk (VDuration (duration_new seconds (Z.rem nanos 1000000000))).

(** [char::from_u32] *)
Definition is_char (c : Z) : bool := (0 <=? c) && (c <=? 1114111) && negb ((55296 <=? c) && (c <=? 57343)).

Fixpoint lower_value (d : ValueDto) : WResult Value :=
  let lower_datum d := match d with
                       | DtoMissing => WOk Missing
                       | DtoNull => WOk Null
                       | DtoValue v => let% v := lower_value v in WOk (DValue v)
                       end in
  match d with
  | DtoVBool b => WOk (VBool b)
  | DtoVTruth tag =>
      if tag =? 0 then WOk (VTruth TFalse) else if tag =? 1 then WOk (VTruth TTrue)
      else if tag =? 2 then WOk (VTruth TUnknown) else WErr (WireNew InvalidTag)
  | DtoVInt i => WOk (VInt i)
  | DtoVUInt u => WOk (VUInt u)
  | DtoVFloat32 bits => WOk (VFloat32 bits)
  | DtoVFloat64 bits => WOk (VFloat64 bits)
  | DtoVDecimal mantissa scale => lower_decimal mantissa scale
  | DtoVChar c => wguard (is_char c) (WireNew InvalidValue) ;;% WOk (VChar c)
  | DtoVString s => WOk (VString s)
  | DtoVBytes b => WOk (VBytes b)
  | DtoVUuid b => lower_uuid b
  | DtoVDate julian_day => let% date := lower_date julian_day in WOk (VDate date)
  | DtoVTime h m s n => let% t := lower_time h m s n in WOk (VTime t)
  | DtoVLocalDateTime julian_day h m s n =>
      let% date := lower_date julian_day in let% t := lower_time h m s n in WOk (VLocalDateTime (ldt_new date t))
  | DtoVInstant nanos => let% i := wok_or (instant_from_nanos nanos) invalid_temporal in WOk (VInstant i)
  | DtoVDuration nanos => lower_duration nanos
  | DtoVList l => let% l := mapW lower_datum l in WOk (VList l)
  | DtoVMap l =>
      let% l := mapW (fun e => let% k := lower_datum (fst e) in let% v := lower_datum (snd e) in WOk (k, v)) l in
      WOk (VMap l)
  | DtoVTuple l => let% l := mapW lower_datum l in WOk (VTuple l)
  | DtoVRecord fields =>
      let% record := foldW (fun record f =>
          let% d := lower_datum (snd f) in
          wguard (match bt_get (fst f) record with Some _ => false | None => true end) (WireNew InvalidValue) ;;%
          WOk (bt_insert (fst f) d record)) fields [] in
      WOk (VRecord record)
  end.

Definition lower_datum (d : DatumDto) : WResult Datum :=
  match d with
  | DtoMissing => WOk Missing
  | DtoNull => WOk Null
  | DtoValue v => let% v := lower_value v in WOk (DValue v)
  end.

Definition lower_typed_datum (ty : TypeDto) (optional : bool) (d : DatumDto) : WResult (TypeDef * Presence * Datum) :=
  let% ty := lower_type ty in
  let presence := presence_of optional in
  let% datum := lower_datum d in
  core (validate_datum ty presence datum) ;;% WOk (ty, presence, datum).

(** ** Frames ([decode/mod.rs]) *)
Record TypedDatum := mkTypedDatum { td_ty : TypeDef; td_presence : Presence; td_datum : Datum }.

Definition typed_datum_try_new (ty : TypeDef) (p : Presence) (d : Datum) : WResult TypedDatum :=
  validate_type_for_encode default_decode_limits ty ;;% validate_datum_for_encode ty p d ;;% WOk (mkTypedDatum ty p d).

Definition expected_envelope (input : list Z) (expected : PayloadKind) : WResult Envelope :=
  let% e := decode_envelope input limits in
  wguard (bool_decide (env_kind e = expected)) (WireAt UnsupportedPayload 8) ;;% WOk e.

Definition require_canonical (input canonical : list Z) : WResult unit :=
  wguard (bool_decide (input = canonical)) (WireNew NonCanonical).

(** Parse a payload to its end. *)
Definition decode_payload {A} (input : list Z) (kind : PayloadKind) (d : Dec A) : WResult A :=
  let% e := expected_envelope input kind in
  let% r := d (decoder_new (env_payload e)) in
  dec_finish (snd r) ;;% WOk (fst r).

Definition decode_type_def (input : list Z) : WResult TypeDef :=
  let% dto := decode_payload input PayloadTypeDef (dec_type limits (levels limits) 0) in
  let% value := lower_type dto in
  let% canonical := encode_type_def_with_limits limits value in
  require_canonical input canonical ;;% WOk value.

Definition decode_typed_datum (input : list Z) : WResult TypedDatum :=
  let% dto := decode_payload input PayloadTypedDatum
    (let^ ty := dec_type limits (levels limits) 0 in
     let^ optional := dec_bool in
     let^ d := dec_datum limits (levels limits) 0 in
     dret (ty, optional, d)) in
  let '(ty, optional, d) := dto in
  let% value := lower_typed_datum ty optional d in
  let '(ty, presence, datum) := value in
  let% canonical := encode_typed_datum_with_limits limits ty presence datum in
  require_canonical input canonical ;;% WOk (mkTypedDatum ty presence datum).

Definition decode_model_def (input : list Z) : WResult ModelDef :=
  let% dto := decode_payload input PayloadModelDef (dec_model limits 0) in
  let% value := lower_model dto in
  let% canonical := encode_model_def_with_limits limits value in
  require_canonical input canonical ;;% WOk value.

Definition decode_model_set (input : list Z) : WResult ModelSet :=
  let% dto := decode_payload input PayloadModelSet
    (let^ count := dec_count limits 1 in dec_capacity limits count ;;^ dtimes count (dec_model limits 0)) in
  let% value := lower_model_set dto in
  let% canonical := encode_model_set_with_limits limits value in
  require_canonical input canonical ;;% WOk value.
End Lower.
