(* ===== verification/WireCodec.v ===== *)
(** * Encoders and the decoders that invert them

    [codes m e d v]: whatever [e] writes, at least [m] bytes, [d] reads back
    as [v] in front of any other input, counting the same nodes.  The lemmas
    compose it along the sequences of the encoder and the decoder. *)
From Stdlib Require Import ZArith Lia.
From S2P Require Import Prelude Text Types Fingerprint Wire WireEncode WireDecode.

Local Open Scope Z_scope.

(** ** Success of the wire monad *)
Lemma wbind_ok {A B} (m : WResult A) (f : A -> WResult B) b :
  wbind m f = WOk b <-> exists a, m = WOk a /\ f a = WOk b.
Proof. destruct m; simpl; split; [eauto|intros (? & [= <-] & ?); done|done|by intros (? & ? & ?)]. Qed.

Lemma wguard_ok b e u : wguard b e = WOk u <-> b = true.
Proof. destruct b, u; done. Qed.

Lemma wok_inj {A} (a b : A) : WOk a = WOk b -> a = b.
Proof. by injection 1. Qed.

Lemma wcheck {A} (m : WResult unit) (k : WResult A) a : (m ;;% k) = WOk a <-> m = WOk tt /\ k = WOk a.
Proof. rewrite wbind_ok. split; [by intros ([] & ? & ?)|intros [? ?]; by exists tt]. Qed.

Lemma core_ok {A} (m : Result A) a : core m = WOk a <-> m = Ok a.
Proof. destruct m; simpl; split; intros [=]; by subst. Qed.

(** ** Integers and text *)
Lemma of_be_app l b : of_be (l ++ [b]) = of_be l * 256 + b.
Proof. unfold of_be. by rewrite fold_left_app. Qed.

Lemma be_bytes_length n z : length (be_bytes n z) = n.
Proof. unfold be_bytes. by rewrite length_rev, le_bytes_length. Qed.

Lemma of_be_bytes n z : of_be (be_bytes n z) = z mod 256 ^ Z.of_nat n.
Proof.
  unfold be_bytes. revert z. induction n as [|n IH]; intros z; [by rewrite Z.mod_1_r|].
  cbn [le_bytes rev]. rewrite of_be_app, IH, Nat2Z.inj_succ, Z.pow_succ_r by lia.
  rewrite Z.rem_mul_r; [lia|lia|apply Z.pow_pos_nonneg; lia].
Qed.

Lemma of_be_unsigned n z : 0 <= z < 256 ^ Z.of_nat n -> of_be (be_bytes n z) = z.
Proof. intros H. by rewrite of_be_bytes, Z.mod_small. Qed.

Lemma of_be_signed n bits z : 256 ^ Z.of_nat n = 2 ^ bits -> 1 <= bits -> - 2 ^ (bits - 1) <= z < 2 ^ (bits - 1) ->
  to_signed bits (of_be (be_bytes n z)) = z.
Proof.
  intros E Hb Hz. rewrite of_be_bytes, E. unfold to_signed.
  assert (H2 : 2 ^ bits = 2 * 2 ^ (bits - 1)) by (rewrite <- Z.pow_succ_r by lia; f_equal; lia).
  destruct (Z.ltb_spec z 0).
  - replace (z mod 2 ^ bits) with (z + 2 ^ bits); [destruct (Z.ltb_spec (z + 2 ^ bits) (2 ^ (bits - 1))); lia|].
    rewrite <- (Z.mod_small (z + 2 ^ bits) (2 ^ bits)) by lia. by rewrite <- Z.add_mod_idemp_r, Z.mod_same, Z.add_0_r by lia.
  - rewrite Z.mod_small by lia. destruct (Z.ltb_spec z (2 ^ (bits - 1))); lia.
Qed.

Lemma string_of_bytes s : string_of (bytes_of s) = s.
Proof.
  induction s as [|a s IH]; simpl; [done|]. rewrite IH. f_equal. unfold byte_of. by rewrite N2Z.id, Ascii.ascii_N_embedding.
Qed.

Lemma zlen_bytes_of s : zlen (bytes_of s) = zstrlen s.
Proof. unfold zlen, zstrlen. by rewrite bytes_of_length. Qed.

Lemma zlen_app {A} (l k : list A) : zlen (l ++ k) = zlen l + zlen k.
Proof. unfold zlen. rewrite length_app. lia. Qed.

(** A [str] is valid UTF-8. *)
Definition str_ok (s : string) : Prop := utf8_valid (bytes_of s) = true.

Section Codec.
Context (limits : DecodeLimits).

(** ** The relation *)
Definition writes (m : Z) (e : Enc) (s s' : Encoder) (bs : list Z) : Prop :=
  e s = WOk s' /\ en_output s' = en_output s ++ bs /\ m <= zlen bs.

Definition codes {A} (m : Z) (e : Enc) (d : Dec A) (v : A) : Prop :=
  forall s s', e s = WOk s' -> exists bs, en_output s' = en_output s ++ bs /\ m <= zlen bs /\
    forall rest off, d (mkDecoder (bs ++ rest) off (en_nodes s)) = WOk (v, mkDecoder rest (off + zlen bs) (en_nodes s')).

Lemma codes_ret {A} (v : A) : codes 0 enc_ok (dret v) v.
Proof.
  intros s s' [= <-]. exists []. rewrite app_nil_r. split_and!; [done|done|]. intros rest off. unfold dret. cbn. by rewrite Z.add_0_r.
Qed.

Lemma codes_weaken {A} m m' e (d : Dec A) v : m' <= m -> codes m e d v -> codes m' e d v.
Proof. intros Hm H s s' (bs & ? & ? & ?)%H. exists bs. split_and!; [done|lia|done]. Qed.

Lemma codes_enc {A} m e e' (d : Dec A) v : (forall s, e s = e' s) -> codes m e d v -> codes m e' d v.
Proof. intros E H s s' He. apply H. by rewrite E. Qed.

Lemma codes_dec {A} m e (d d' : Dec A) v : (forall s, d s = d' s) -> codes m e d v -> codes m e d' v.
Proof. intros E H s s' (bs & ? & ? & Hd)%H. exists bs. split_and!; [done..|]. intros. by rewrite <- E. Qed.

Lemma codes_bind {A B} m1 m2 e1 e2 (d1 : Dec A) (f : A -> Dec B) v1 v2 :
  codes m1 e1 d1 v1 -> codes m2 e2 (f v1) v2 -> codes (m1 + m2) (e1 ;;> e2) (dbind d1 f) v2.
Proof.
  intros H1 H2 s s' (s1 & E1 & E2)%wbind_ok. destruct (H1 _ _ E1) as (b1 & O1 & L1 & D1). destruct (H2 _ _ E2) as (b2 & O2 & L2 & D2).
  exists (b1 ++ b2). rewrite O2, O1, app_assoc, zlen_app. split_and!; [done|lia|]. intros rest off.
  unfold dbind. rewrite <- app_assoc, D1. cbn [wbind fst snd]. rewrite D2. by rewrite Z.add_assoc.
Qed.

Lemma enc_seq_ok e s : (e ;;> enc_ok) s = e s.
Proof. unfold enc_seq. by destruct (e s). Qed.

(** The decoder does one more thing, on its own. *)
Lemma codes_then {A B} m e (d : Dec A) (f : A -> Dec B) v w :
  codes m e d v -> codes 0 enc_ok (f v) w -> codes m e (dbind d f) w.
Proof.
  intros H1 H2. eapply codes_enc; [apply enc_seq_ok|]. eapply codes_weaken; [|by eapply codes_bind]. lia.
Qed.

Lemma codes_map {A B} m e (d : Dec A) (f : A -> B) v : codes m e d v -> codes m e (let^ x := d in dret (f x)) (f v).
Proof. intros H. eapply codes_then; [exact H|apply codes_ret]. Qed.

Lemma codes_offset {A} m e (f : Z -> Dec A) v : (forall off, codes m e (f off) v) -> codes m e (dbind doffset f) v.
Proof.
  intros H s s' He. destruct (H 0 _ _ He) as (bs & O & L & _). exists bs. split_and!; [done..|]. intros rest off.
  unfold dbind, doffset. cbn [wbind fst snd de_offset]. destruct (H off _ _ He) as (bs' & O' & _ & D).
  assert (bs' = bs) as -> by (rewrite O in O'; by apply app_inv_head in O'). apply D.
Qed.

Lemma codes_enc_check {A} n m e (d : Dec A) v : (m = WOk tt -> codes n e d v) -> codes n (enc_check m ;;> e) d v.
Proof. intros H s s' (s1 & [Hm [= <-]]%wcheck & He)%wbind_ok. by apply (H Hm). Qed.

Lemma codes_dcheck {A} m e b err (d : Dec A) v : b = true -> codes m e d v -> codes m e (dcheck b err ;;^ d) v.
Proof. intros ->. apply codes_dec. done. Qed.

(** ** Primitives *)
Lemma codes_take bytes : codes (zlen bytes) (enc_write limits bytes) (dec_take (length bytes)) bytes.
Proof.
  intros s s' [_ [= <-]]%wcheck. exists bytes. split_and!; [done|lia|]. intros rest off. unfold dec_take. cbn.
  rewrite length_app, (proj2 (Nat.leb_le _ _)) by lia. cbn. by rewrite take_app_length, drop_app_length.
Qed.

Lemma codes_fixed {A} bytes n (f : list Z -> A) v : length bytes = n -> f bytes = v ->
  codes (Z.of_nat n) (enc_write limits bytes) (let^ b := dec_take n in dret (f b)) v.
Proof. intros <- <-. apply codes_map. exact (codes_take bytes). Qed.

Lemma codes_u8 v : codes 1 (enc_u8 limits v) dec_u8 v.
Proof. by apply (codes_fixed [v] 1). Qed.

Lemma codes_u32 v : 0 <= v < 2 ^ 32 -> codes 4 (enc_u32 limits v) dec_u32 v.
Proof. intros H. apply (codes_fixed _ 4); [apply be_bytes_length|]. by apply of_be_unsigned. Qed.

Lemma codes_u64 v : 0 <= v < 2 ^ 64 -> codes 8 (enc_u64 limits v) dec_u64 v.
Proof. intros H. apply (codes_fixed _ 8); [apply be_bytes_length|]. by apply of_be_unsigned. Qed.

Lemma codes_u128 v : 0 <= v < 2 ^ 128 -> codes 16 (enc_u128 limits v) dec_u128 v.
Proof. intros H. apply (codes_fixed _ 16); [apply be_bytes_length|]. by apply of_be_unsigned. Qed.

Lemma codes_i64 v : - 2 ^ 63 <= v < 2 ^ 63 -> codes 8 (enc_i64 limits v) dec_i64 v.
Proof. intros H. apply (codes_fixed _ 8); [apply be_bytes_length|]. by apply of_be_signed. Qed.

Lemma codes_i128 v : - 2 ^ 127 <= v < 2 ^ 127 -> codes 16 (enc_i128 limits v) dec_i128 v.
Proof. intros H. apply (codes_fixed _ 16); [apply be_bytes_length|]. by apply of_be_signed. Qed.

Lemma codes_bool b : codes 1 (enc_bool limits b) dec_bool b.
Proof. apply codes_offset. intros off. eapply codes_then; [apply codes_u8|]. destruct b; apply codes_ret. Qed.

Lemma codes_string s : str_ok s -> codes 4 (enc_string limits s) (dec_string limits) s.
Proof.
  intros Hs. unfold enc_string, dec_string. apply codes_offset. intros off.
  apply codes_enc_check. intros H1%wguard_ok%Z.leb_le. apply codes_enc_check. intros H2%wguard_ok%Z.leb_le.
  assert (0 <= zstrlen s) by (unfold zstrlen; lia).
  eapply (codes_weaken (4 + zlen (bytes_of s))); [unfold zlen; lia|]. eapply codes_bind; [apply codes_u32; unfold u32_max in H2; lia|].
  apply codes_dcheck; [by apply Z.leb_le|].
  assert (El : Z.to_nat (zstrlen s) = length (bytes_of s)) by (unfold zstrlen; by rewrite Nat2Z.id, bytes_of_length). rewrite El.
  eapply codes_then; [apply codes_take|]. apply codes_dcheck; [done|]. rewrite string_of_bytes. apply codes_ret.
Qed.

Lemma codes_literal bytes : codes 4 (enc_literal limits bytes) (dec_literal limits) bytes.
Proof.
  unfold enc_literal, dec_literal. apply codes_offset. intros off.
  apply codes_enc_check. intros H1%wguard_ok%Z.leb_le. apply codes_enc_check. intros H2%wguard_ok%Z.leb_le.
  eapply (codes_weaken (4 + zlen bytes)); [unfold zlen; lia|].
  eapply codes_bind; [apply codes_u32; unfold u32_max in H2; unfold zlen in *; lia|].
  apply codes_dcheck; [by apply Z.leb_le|]. unfold zlen at 2. rewrite Nat2Z.id. apply codes_take.
Qed.

Lemma codes_node depth : codes 0 (enc_node limits depth) (dec_node limits depth) tt.
Proof.
  intros s s' [Hd [Hn [= <-]]%wcheck]%wcheck. apply wguard_ok in Hd, Hn. exists []. rewrite app_nil_r. split_and!; [done|done|].
  intros rest off. unfold dec_node. cbn. rewrite Hd, Hn. cbn. by rewrite Z.add_0_r.
Qed.

Lemma codes_capacity n : codes 0 (enc_capacity limits n) (dec_capacity limits n) tt.
Proof.
  intros s s' [Hn [= <-]]%wcheck. apply wguard_ok in Hn. exists []. rewrite app_nil_r. split_and!; [done|done|].
  intros rest off. unfold dec_capacity. cbn. rewrite Hn. cbn. by rewrite Z.add_0_r.
Qed.

(** ** Counted items *)
Lemma codes_each {A B} k (f : A -> Enc) (d : Dec B) (g : A -> B) l :
  0 <= k -> Forall (fun x => codes k (f x) d (g x)) l -> codes (k * zlen l) (enc_each f l) (dtimes (length l) d) (map g l).
Proof.
  intros Hk. induction 1 as [|x l Hx _ IH]; [apply (codes_weaken 0); [unfold zlen; simpl; lia|apply codes_ret]|].
  eapply (codes_weaken (k + k * zlen l)); [unfold zlen; cbn [length]; lia|]. cbn [enc_each length dtimes map].
  eapply codes_bind; [exact Hx|]. eapply codes_then; [exact IH|apply codes_ret].
Qed.

(** A count is checked against the bytes that are left, which hold at least
    the items that follow it. *)
Lemma codes_count {A} n minimum m e (f : nat -> Dec A) v : 0 <= minimum ->
  minimum * Z.of_nat n <= m -> codes m e (f n) v ->
  codes (4 + m) (enc_count limits n ;;> e) (dbind (dec_count limits minimum) f) v.
Proof.
  intros Hmin Hm H s s' He.
  apply wbind_ok in He as (s1 & (s2 & [H1%wguard_ok%Z.leb_le [= <-]]%wcheck & (s3 & [H2%wguard_ok%Z.leb_le [= <-]]%wcheck & Hu)%wbind_ok)%wbind_ok & He).
  destruct (codes_u32 (Z.of_nat n) ltac:(unfold u32_max in H2; lia) _ _ Hu) as (b1 & O1 & L1 & D1).
  destruct (H _ _ He) as (b2 & O2 & L2 & D2). exists (b1 ++ b2). rewrite O2, O1, app_assoc, zlen_app. split_and!; [done|lia|].
  intros rest off. unfold dec_count, dbind, doffset, dec_remaining. cbn [wbind fst snd de_offset].
  rewrite <- app_assoc, D1. cbn [wbind fst snd de_rest]. unfold dcheck.
  rewrite (proj2 (Z.leb_le _ _)) by done. cbn [wguard wbind fst snd de_rest].
  rewrite (proj2 (Z.leb_le (Z.of_nat n * minimum) _)) by (rewrite zlen_app; unfold zlen at 2; lia).
  cbn [wguard wbind fst snd]. unfold dret. cbn [wbind fst snd]. rewrite Nat2Z.id, D2. by rewrite Z.add_assoc.
Qed.

Lemma codes_items {A B C} minimum k (h : nat -> nat) (f : A -> Enc) (d : Dec B) (g : A -> B) l m e (kont : list B -> Dec C) v :
  0 <= minimum <= k -> 0 <= m -> Forall (fun x => codes k (f x) d (g x)) l -> codes m e (kont (map g l)) v ->
  codes (4 + m) (enc_count limits (length l) ;;> enc_capacity limits (h (length l)) ;;> enc_each f l ;;> e)
    (let^ n := dec_count limits minimum in dec_capacity limits (h n) ;;^ let^ xs := dtimes n d in kont xs) v.
Proof.
  intros Hk Hm Hl He. eapply (codes_weaken (4 + (0 + (k * zlen l + m)))); [unfold zlen; nia|].
  apply codes_count; [lia|unfold zlen; nia|].
  eapply codes_bind; [apply codes_capacity|]. eapply codes_bind; [apply codes_each; [lia|exact Hl]|exact He].
Qed.

(** The items are the last part of what is written. *)
Lemma codes_last_items {A B C} minimum k (h : nat -> nat) (f : A -> Enc) (d : Dec B) (g : A -> B) l (kont : list B -> Dec C) v :
  0 <= minimum <= k -> Forall (fun x => codes k (f x) d (g x)) l -> codes 0 enc_ok (kont (map g l)) v ->
  codes 4 (enc_count limits (length l) ;;> enc_capacity limits (h (length l)) ;;> enc_each f l)
    (let^ n := dec_count limits minimum in dec_capacity limits (h n) ;;^ let^ xs := dtimes n d in kont xs) v.
Proof.
  intros Hk Hl He. eapply codes_enc; [|eapply (codes_items minimum k h f d g l 0 enc_ok kont); done].
  intros s. unfold enc_seq. destruct (enc_count limits (length l) s); cbn [wbind]; [|done].
  destruct (enc_capacity limits (h (length l)) a); cbn [wbind]; [|done]. by destruct (enc_each f l a0).
Qed.

Lemma codes_all_items {A B} minimum k (h : nat -> nat) (f : A -> Enc) (d : Dec B) (g : A -> B) l :
  0 <= minimum <= k -> Forall (fun x => codes k (f x) d (g x)) l ->
  codes 4 (enc_count limits (length l) ;;> enc_capacity limits (h (length l)) ;;> enc_each f l)
    (let^ n := dec_count limits minimum in dec_capacity limits (h n) ;;^ dtimes n d) (map g l).
Proof.
  intros Hk Hl. eapply codes_dec; [|eapply (codes_last_items minimum k h f d g l dret); [done..|apply codes_ret]].
  intros s. unfold dbind. destruct (dec_count limits minimum s) as [[n s1]|]; cbn [wbind fst snd]; [|done].
  destruct (dec_capacity limits (h n) s1) as [[[] s2]|]; cbn [wbind fst snd]; [|done].
  by destruct (dtimes n d s2) as [[xs s3]|].
Qed.

(** ** Frames *)
Lemma take_of {A} (l k : list A) : take (length l) (l ++ k) = l.
Proof. apply take_app_length. Qed.

Lemma encode_envelope_ok e bytes : encode_envelope e limits = WOk bytes ->
  env_major e = MAJOR_VERSION -> env_minor e = MINOR_VERSION -> dl_total_bytes limits <= u64_max ->
  decode_envelope bytes limits = WOk e.
Proof.
  intros [_ [Ht%wguard_ok%Z.leb_le <-%wok_inj]%wcheck]%wcheck Hj Hm Hu. destruct e as [major minor kind payload]. cbn in Hj, Hm, Ht. subst major minor.
  cbn [env_major env_minor env_kind env_payload].
  set (len := be_bytes 8 (zlen payload)).
  assert (El : of_be len = zlen payload) by (apply of_be_unsigned; unfold zlen, HEADER_LEN, u64_max in *; lia).
  assert (Hl : length len = 8%nat) by apply be_bytes_length. clearbody len.
  do 9 (destruct len as [|? len]; [try discriminate Hl|]); [|discriminate Hl].
  change (be_bytes 2 MAJOR_VERSION) with [0; 1]. change (be_bytes 2 MINOR_VERSION) with [0; 0]. change (be_bytes 2 0) with [0; 0].
  cbn [MAGIC app].
  unfold decode_envelope, bytes_at, byte_at.
  cbn [firstn skipn nth Nat.sub]. change (firstn 0 payload) with (@nil Z). rewrite El. unfold zlen in *. cbn [length]. unfold HEADER_LEN, MAGIC, MAJOR_VERSION, MINOR_VERSION, u64_max in *.
  rewrite (proj2 (Z.leb_le _ _)) by lia. cbn [wguard wbind]. rewrite (proj2 (Z.ltb_ge _ _)) by lia. cbn [negb wguard wbind].
  rewrite bool_decide_true by done. cbn [wguard wbind].
  change (of_be [0; 1]) with 1. change (of_be [0; 0]) with 0. cbn [Z.eqb Z.ltb Z.compare negb orb Pos.eqb wguard wbind].
  replace (payload_from_tag (payload_tag kind) 8) with (@WOk _ kind) by (by destruct kind). cbn [wbind andb Z.eqb wguard].
  rewrite (proj2 (Z.leb_le _ _)) by lia. cbn [wguard wbind]. rewrite (proj2 (Z.eqb_eq _ _)) by lia. cbn [wguard wbind]. done.
Qed.

(** Encoding a payload and framing it; parsing the frame gives it back. *)
Lemma decode_encoded {A} kind m e (d : Dec A) v bytes : codes m e d v -> dl_total_bytes limits <= u64_max ->
  encode_with limits kind e = WOk bytes -> decode_payload limits bytes kind d = WOk v.
Proof.
  intros H Hu (s0 & [_ [= <-]]%wcheck & (s & He & Hf)%wbind_ok)%wbind_ok.
  destruct (H _ _ He) as (bs & O & _ & D). cbn [en_output en_nodes app] in O, D.
  apply encode_envelope_ok in Hf; [|done..]. unfold decode_payload, expected_envelope. rewrite Hf. cbn [wbind envelope_new env_kind env_payload].
  rewrite bool_decide_true by done. cbn [wguard wbind]. specialize (D [] 0). rewrite app_nil_r in D.
  unfold decoder_new, envelope_new. cbn [env_payload]. rewrite O, D. done.
Qed.
End Codec.
