(* ===== verification/WireTypes.v ===== *)
(** * Type definitions over the wire

    What is encoded decodes to the same definition, and only canonical frames
    decode; the depth limit bounds the recursion of the decoder. *)
From Stdlib Require Import ZArith Lia.
From S2P Require Import Prelude Foreign BTree Text Types Values Fingerprint Model Wire WireEncode WireDecode WireCodec.

Local Open Scope Z_scope.

(** ** What Rust's types say of a definition *)
Definition wire_parameter (p : string * TypeParameter) : Prop :=
  str_ok (fst p) /\
  match snd p with
  | TPBool _ => True
  | TPInt i => - 2 ^ 63 <= i < 2 ^ 63
  | TPUInt u => 0 <= u < 2 ^ 64
  | TPString s => str_ok s
  end.

(** Text is UTF-8, integers have their width. *)
Definition wire_node (t : TypeDef) : Prop :=
  str_ok (ty_key t) /\ 0 <= ty_version t < 2 ^ 32 /\ Forall wire_parameter (ty_parameters t) /\
  match ty_shape t with ShRecord fs => Forall (fun f => str_ok (field_name f)) fs | _ => True end.

Definition wire_type (t : TypeDef) : Prop := Forall wire_node (subtypes t).

Lemma wire_type_eq t : wire_type t <-> wire_node t /\ Forall wire_type (type_children t).
Proof. unfold wire_type. by rewrite subtypes_eq, Forall_cons, Forall_flat_map. Qed.

(** Parameters are a map; every public way to build a definition leaves it in
    canonical form. *)
Definition sorted_parameters (t : TypeDef) : Prop := bt_sorted (ty_parameters t) = true.
Definition built (t : TypeDef) : Prop := canonicalize t = t /\ Forall sorted_parameters (subtypes t).

(** ** DTOs of definitions *)
Definition dto_scalar (r : ScalarRepr) : ScalarDto :=
  match r with
  | RBool => DtoBool | RTruth => DtoTruth | RInt bits => DtoInt bits | RUInt bits => DtoUInt bits
  | RFloat32 => DtoFloat32 | RFloat64 => DtoFloat64 | RDecimal => DtoDecimal | RChar => DtoChar
  | RString => DtoString | RBytes => DtoBytes | RUuid => DtoUuid | RDate => DtoDate | RTime => DtoTime
  | RLocalDateTime => DtoLocalDateTime | RInstant => DtoInstant | RDuration => DtoDuration
  end.

Definition dto_parameter (p : string * TypeParameter) : string * ParameterDto :=
  (fst p, match snd p with
          | TPBool b => DtoPBool b | TPInt i => DtoPInt i | TPUInt u => DtoPUInt u | TPString s => DtoPString s
          end).

Definition is_optional (p : Presence) : bool := match p with Optional => true | Required => false end.

Fixpoint dto_type (t : TypeDef) : TypeDto :=
  let '(mkTypeDef key version shape nullability properties parameters) := t in
  mkTypeDto key version (match nullability with Nullable => true | NonNull => false end) (properties_to_bits properties)
    (map dto_parameter parameters)
    match shape with
    | ShScalar r => DtoScalar (dto_scalar r)
    | ShList e => DtoList (dto_type e)
    | ShMap k v => DtoMap (dto_type k) (dto_type v)
    | ShTuple es => DtoTuple (map dto_type es)
    | ShRecord fs =>
        DtoRecord (map (fun f => let '(mkRecordField name ty presence) := f in
                        mkRecordFieldDto name (is_optional presence) (dto_type ty)) fs)
    end.

Section Types.
Context (limits : DecodeLimits).

(** ** Encoded definitions are read back *)
Ltac tag := cbv beta; cbn [Z.eqb Pos.eqb].

Lemma codes_parameter depth p : wire_parameter p ->
  codes 6 (enc_parameter limits depth p) (dec_parameter limits depth) (dto_parameter p).
Proof.
  intros [Hn Hv]. unfold enc_parameter, dec_parameter. eapply (codes_weaken (0 + (4 + 2))); [lia|].
  eapply codes_bind; [apply codes_node|]. eapply codes_bind; [by apply codes_string|]. apply codes_offset. intros off.
  destruct p as [name [b|i|u|s]]; cbn [fst snd] in *; (eapply codes_weaken; [|eapply codes_bind; [apply codes_u8|tag]]).
  2,4,6,8: eapply codes_then; [|apply codes_ret]; eapply codes_then; [|apply codes_ret].
  all: try first [by apply codes_bool|by apply codes_i64|by apply codes_u64|by apply codes_string].
  all: lia.
Qed.

Lemma codes_scalar r : codes 1 (enc_scalar limits r) (dec_scalar) (dto_scalar r).
Proof.
  unfold enc_scalar, dec_scalar. apply codes_offset. intros off.
  destruct r; cbn [scalar_tag]; try (eapply (codes_weaken (1 + 0)); [lia|]; eapply codes_bind; [apply codes_u8|tag; apply codes_ret]).
  all: eapply (codes_weaken (1 + 1)); [lia|]; (eapply codes_bind; [apply codes_u8|tag]); eapply codes_then; [apply codes_u8|apply codes_ret].
Qed.

(** One level of fuel for every level of depth that is left. *)
Definition fueled (depth : Z) (fuel : nat) : Prop := dl_depth limits < depth + Z.of_nat fuel.

Definition codes_type_at (t : TypeDef) : Prop := forall depth fuel, fueled depth fuel -> wire_type t ->
  codes 15 (enc_type limits t depth) (dec_type limits fuel depth) (dto_type t).

Lemma codes_shape shape depth fuel : Forall codes_type_at (shape_children shape) -> Forall wire_type (shape_children shape) ->
  (match shape with ShRecord fs => Forall (fun f => str_ok (field_name f)) fs | _ => True end) -> fueled (depth + 1) fuel ->
  codes 1
    (match shape with
     | ShScalar r => enc_u8 limits 0 ;;> enc_scalar limits r
     | ShList e => enc_u8 limits 1 ;;> enc_type limits e (depth + 1)
     | ShMap k v => enc_u8 limits 2 ;;> enc_type limits k (depth + 1) ;;> enc_type limits v (depth + 1)
     | ShTuple es =>
         enc_u8 limits 3 ;;> enc_count limits (length es) ;;> enc_capacity limits (length es) ;;>
         enc_each (fun e => enc_type limits e (depth + 1)) es
     | ShRecord fs =>
         enc_u8 limits 4 ;;> enc_count limits (length fs) ;;> enc_capacity limits (length fs) ;;>
         enc_each (fun f => let '(mkRecordField name ty presence) := f in
           enc_node limits (depth + 1) ;;> enc_string limits name ;;>
           enc_bool limits (match presence with Optional => true | Required => false end) ;;> enc_type limits ty (depth + 1)) fs
     end)
    (dec_shape limits (dec_type limits fuel) depth)
    (match shape with
     | ShScalar r => DtoScalar (dto_scalar r)
     | ShList e => DtoList (dto_type e)
     | ShMap k v => DtoMap (dto_type k) (dto_type v)
     | ShTuple es => DtoTuple (map dto_type es)
     | ShRecord fs =>
         DtoRecord (map (fun f => let '(mkRecordField name ty presence) := f in
                         mkRecordFieldDto name (is_optional presence) (dto_type ty)) fs)
     end).
Proof.
  intros IH W N Hf. unfold dec_shape. apply codes_offset. intros off.
  destruct shape as [r|e|k v|es|fs]; cbn [shape_children] in *; rewrite ?Forall_cons in *.
  - eapply (codes_weaken (1 + 1)); [lia|]. eapply codes_bind; [apply codes_u8|tag]. eapply codes_then; [apply codes_scalar|apply codes_ret].
  - destruct IH as [IH _], W as [W _].
    eapply (codes_weaken (1 + 15)); [lia|]. eapply codes_bind; [apply codes_u8|tag]. eapply codes_then; [by apply IH|apply codes_ret].
  - destruct IH as (IHk & IHv & _), W as (Wk & Wv & _).
    eapply (codes_weaken (1 + (15 + 15))); [lia|]. eapply codes_bind; [apply codes_u8|tag].
    eapply codes_bind; [by apply IHk|]. eapply codes_then; [by apply IHv|apply codes_ret].
  - eapply (codes_weaken (1 + 4)); [lia|]. eapply codes_bind; [apply codes_u8|tag].
    eapply (codes_last_items limits 1 15 (fun n => n)); [lia| |apply codes_ret].
    rewrite Forall_forall in *. intros e He. by apply IH, W.
  - eapply (codes_weaken (1 + 4)); [lia|]. eapply codes_bind; [apply codes_u8|tag].
    eapply (codes_last_items limits 6 20 (fun n => n)); [lia| |apply codes_ret].
    rewrite Forall_map in IH, W. rewrite Forall_forall in *. intros f Hin. specialize (IH f Hin). specialize (W f Hin). specialize (N f Hin).
    destruct f as [name ty presence]. cbn [field_ty field_name] in *. eapply (codes_weaken (0 + (4 + (1 + 15)))); [lia|].
    eapply codes_bind; [apply codes_node|]. eapply codes_bind; [by apply codes_string|]. eapply codes_bind; [apply codes_bool|].
    eapply codes_then; [by apply IH|]. destruct presence; apply codes_ret.
Qed.

Lemma codes_type t : codes_type_at t.
Proof.
  induction t as [key version shape nullability properties parameters IH] using type_ind'.
  intros depth fuel Hf [(Hk & Hv & Hp & Hs) Hc]%wire_type_eq. cbn [ty_key ty_version ty_parameters ty_shape type_children] in *.
  destruct fuel as [|fuel].
  { intros s s' (s1 & [Hd%wguard_ok%Z.leb_le _]%wcheck & _)%wbind_ok. unfold fueled in Hf. lia. }
  cbn [enc_type dec_type dto_type]. eapply (codes_weaken (0 + (4 + (4 + (1 + (1 + (4 + 1))))))); [lia|].
  eapply codes_bind; [apply codes_node|]. eapply codes_bind; [by apply codes_string|]. eapply codes_bind; [by apply codes_u32|].
  eapply codes_bind; [apply codes_bool|]. eapply codes_bind; [apply codes_u8|].
  eapply (codes_items limits 6 6 (fun n => n)); [lia|lia| |].
  - eapply Forall_impl; [exact Hp|]. intros p. apply codes_parameter.
  - eapply codes_then; [apply codes_shape; [done|exact Hc|exact Hs|unfold fueled in *; lia]|apply codes_ret].
Qed.
End Types.

(** ** Lowering inverts *)
Lemma properties_bits p : properties_from_bits (properties_to_bits p) = p.
Proof. destruct p as [[] [] [] [] [] [] [] []]; reflexivity. Qed.

Lemma lower_scalar_dto r : lower_scalar (dto_scalar r) = r.
Proof. by destruct r. Qed.

Lemma lower_parameter_dto p : lower_parameter (snd (dto_parameter p)) = snd p.
Proof. by destruct p as [n []]. Qed.

Lemma built_children s : canonicalize_shape s = s -> Forall (fun c => canonicalize c = c) (shape_children s).
Proof.
  destruct s as [r|e|k v|es|fs]; cbn [canonicalize_shape shape_children]; [constructor|intros [=]|intros [=]| |].
  - by constructor.
  - by repeat constructor.
  - intros [= E]. apply Forall_forall. intros e (i & Hi)%list_elem_of_lookup. rewrite <- E in Hi. rewrite lookup_map in Hi.
    destruct (es !! i) as [e'|] eqn:Ei; [|done]. injection Hi as <-. apply canonicalize_idem_aux.
  - intros [= E]. apply Forall_map, Forall_forall. intros f Hf. rewrite <- E in Hf.
    apply sort_by_elem, elem_of_map in Hf as ([n t p] & -> & _). apply canonicalize_idem_aux.
Qed.

Lemma built_eq key version shape nullability properties parameters :
  built (mkTypeDef key version shape nullability properties parameters) <->
  canonicalize_shape shape = shape /\ bt_sorted parameters = true /\ Forall built (shape_children shape).
Proof.
  unfold built. rewrite subtypes_eq, Forall_cons, Forall_flat_map. cbn [canonicalize type_children ty_shape].
  split.
  - intros [[= Hs] [Hp Hc]]. split_and!; [done|done|]. apply Forall_and. split; [by apply built_children|exact Hc].
  - intros (Hs & Hp & [_ Hc]%Forall_and). split; [by rewrite Hs|]. by split.
Qed.

Lemma fold_parameters ps key version shape nullability properties acc :
  fold_left (fun ty p => parameter ty (fst p) (lower_parameter (snd p))) (map dto_parameter ps)
    (mkTypeDef key version shape nullability properties acc) =
  mkTypeDef key version shape nullability properties (fold_left (fun m e => bt_insert (fst e) (snd e) m) ps acc).
Proof.
  revert acc. induction ps as [|p ps IH]; intros acc; [done|]. cbn [map fold_left]. unfold parameter at 2.
  rewrite lower_parameter_dto. apply IH.
Qed.

Lemma lower_dto_type t : built t -> lower_type_unchecked (dto_type t) = t.
Proof.
  induction t as [key version shape nullability properties parameters IH] using type_ind'.
  intros (Hs & Hp & Hb)%built_eq. cbn [dto_type lower_type_unchecked].
  match goal with |- context [shaped key version ?x] => assert (E : x = shape) end.
  { clear Hs Hp. destruct shape as [r|e|k v|es|fs]; cbn [shape_children] in *; rewrite ?Forall_cons in *.
    - by rewrite lower_scalar_dto.
    - destruct IH as [IH _], Hb as [Hb _]. by rewrite IH.
    - destruct IH as (IHk & IHv & _), Hb as (Hk & Hv & _). by rewrite IHk, IHv.
    - f_equal. rewrite map_map. rewrite Forall_forall in *. rewrite <- (map_id es) at 2. apply map_ext_in. intros e He%list_elem_of_In. auto.
    - f_equal. rewrite map_map. rewrite Forall_map in IH, Hb. rewrite Forall_forall in *. rewrite <- (map_id fs) at 2. apply map_ext_in.
      intros f Hf%list_elem_of_In. specialize (IH f Hf). specialize (Hb f Hf). destruct f as [n t []]; cbn [field_ty is_optional] in *;
        unfold record_optional, record_required; by rewrite IH. }
  rewrite E. unfold shaped. cbn [canonicalize with_properties]. rewrite Hs, properties_bits.
  destruct nullability; cbn [nullable with_nullability]; rewrite fold_parameters; f_equal; exact (bt_collect_sorted _ Hp).
Qed.

(** ** The depth limit bounds the recursion *)
Lemma dbind_ext {A B} (d d' : Dec A) (f f' : A -> Dec B) s : (forall s, d s = d' s) -> (forall a s, f a s = f' a s) ->
  dbind d f s = dbind d' f' s.
Proof. intros E1 E2. unfold dbind. rewrite E1. destruct (d' s) as [[a s']|]; [|done]. apply E2. Qed.

Lemma dtimes_ext {A} n (d d' : Dec A) s : (forall s, d s = d' s) -> dtimes n d s = dtimes n d' s.
Proof. intros E. revert s. induction n as [|n IH]; intros s; [done|]. cbn [dtimes]. apply dbind_ext; [done|]. intros a s1. by apply dbind_ext. Qed.

Section Levels.
Context (limits : DecodeLimits).

Lemma dec_shape_ext (f g : Z -> Dec TypeDto) depth s : (forall s, f (depth + 1) s = g (depth + 1) s) ->
  dec_shape limits f depth s = dec_shape limits g depth s.
Proof.
  intros E. unfold dec_shape. apply dbind_ext; [done|]. intros off s1. apply dbind_ext; [done|]. intros tag s2.
  destruct (tag =? 0); [done|]. destruct (tag =? 1); [by apply dbind_ext|]. destruct (tag =? 2).
  { apply dbind_ext; [done|]. intros k s3. by apply dbind_ext. }
  destruct (tag =? 3).
  { apply dbind_ext; [done|]. intros n s3. apply dbind_ext; [done|]. intros u s4. apply dbind_ext; [|done]. intros s5. by apply dtimes_ext. }
  destruct (tag =? 4); [|done].
  apply dbind_ext; [done|]. intros n s3. apply dbind_ext; [done|]. intros u s4. apply dbind_ext; [|done]. intros s5. apply dtimes_ext.
  intros s6. apply dbind_ext; [done|]. intros u1 s7. apply dbind_ext; [done|]. intros name s8. apply dbind_ext; [done|]. intros o s9. by apply dbind_ext.
Qed.

Lemma dec_type_fuel fuel fuel' depth s : fueled limits depth fuel -> fueled limits depth fuel' ->
  dec_type limits fuel depth s = dec_type limits fuel' depth s.
Proof.
  unfold fueled. revert fuel' depth s. induction fuel as [|fuel IH]; intros [|fuel'] depth s H1 H2; [done| | |].
  1,2: cbn [dec_type]; unfold dbind, dec_node; rewrite (proj2 (Z.leb_gt _ _)) by lia; done.
  cbn [dec_type]. do 6 (apply dbind_ext; [done|]; intros ? ?). apply dbind_ext; [done|]. intros ? ?. apply dbind_ext; [done|]. intros ? ?.
  apply dbind_ext; [|done]. intros s9. apply dec_shape_ext. intros s10. apply IH; lia.
Qed.

Lemma levels_fueled : fueled limits 0 (levels limits).
Proof. unfold fueled, levels. lia. Qed.

Lemma levels_fueled_deeper depth : 0 <= depth -> fueled limits depth (levels limits).
Proof. unfold fueled, levels. lia. Qed.
End Levels.

(** ** Definitions over the wire *)
Lemma require_canonical_ok input canonical u : require_canonical input canonical = WOk u <-> input = canonical.
Proof. unfold require_canonical. by rewrite wguard_ok, bool_decide_eq_true. Qed.

Lemma lower_type_dto limits t : built t -> validate_type t (definition_limits limits) = Ok tt ->
  lower_type limits (dto_type t) = WOk t.
Proof. intros Hb Hv. unfold lower_type. rewrite lower_dto_type by done. by rewrite Hv. Qed.

(** For every definition as Rust's types and the public constructors give
    it, a frame decodes to it exactly when encoding it gives that frame: the
    two directions are inverse, so that encodings are unique and everything
    that is not a canonical encoding is refused.  Decoding recurses at most
    one level more than the depth limit. *)
Theorem type_def_roundtrip limits t bytes : dl_total_bytes limits <= u64_max -> built t -> wire_type t ->
  (decode_type_def limits bytes = WOk t <-> encode_type_def_with_limits limits t = WOk bytes) /\
  (forall fuel depth s, dl_depth limits < depth + Z.of_nat fuel -> 0 <= depth ->
     dec_type limits fuel depth s = dec_type limits (levels limits) depth s).
Proof.
  intros Hu Hb Hw. split.
  - split.
    + intros (dto & _ & (value & _ & (canonical & Hc & H)%wbind_ok)%wbind_ok)%wbind_ok.
      apply wcheck in H as [->%require_canonical_ok [= ->]]. done.
    + intros H. pose proof H as [Hv%core_ok He]%wcheck. unfold decode_type_def.
      rewrite (decode_encoded limits _ _ _ _ _ _ (codes_type limits t 0 (levels limits) (levels_fueled limits) Hw) Hu He).
      cbn [wbind]. rewrite lower_type_dto by done. cbn [wbind]. rewrite H. cbn [wbind].
      by rewrite (proj2 (require_canonical_ok bytes bytes tt) eq_refl).
  - intros fuel depth s Hf Hd. apply dec_type_fuel; [done|by apply levels_fueled_deeper].
Qed.

Definition sample_wire_type : TypeDef :=
  parameter (shaped "app/pair" 1 (ShRecord [record_optional "b" (scalar "dol/int64" 1 (RInt 64)); record_required "a" sample_list]))
    "unit" (TPInt (-5)).

Lemma type_def_roundtrip_witness : exists bytes,
  encode_type_def_with_limits default_decode_limits sample_wire_type = WOk bytes /\
  decode_type_def default_decode_limits bytes = WOk sample_wire_type /\ zlen bytes = 150.
Proof.
  destruct (encode_type_def_with_limits default_decode_limits sample_wire_type) as [bytes|] eqn:E; [|vm_compute in E; discriminate E].
  exists bytes. split; [done|]. split.
  - apply type_def_roundtrip; [vm_compute; discriminate| |  |exact E].
    + split; [reflexivity|]. repeat constructor.
    + repeat constructor; cbn; lia.
  - vm_compute in E. injection E as <-. reflexivity.
Defined.
