(* ===== verification/WireDatums.v ===== *)
(** * What the codecs of values and datums read back ([dol-wire/src])

    The scalar payloads and the containers of the wire format: a decoder reads
    back what the encoder wrote, and whatever it reads is what the encoder
    writes for the result. *)
From Stdlib Require Import ZArith Lia.
From S2P Require Import Prelude Foreign Truth BTree Text Types Values Fingerprint Model Wire WireEncode WireDecode WireCodec WireTypes.

Local Open Scope Z_scope.

Section Bytes.
Context {F : Foreign}.

(** ** The canonical bytes of a datum *)
Definition string_bytes (s : string) : list Z := be_bytes 4 (zstrlen s) ++ bytes_of s.
Definition time_bytes (t : TimeOfDay) : list Z := [time_hour t; time_minute t; time_second t] ++ be_bytes 4 (time_nanosecond t).
Definition count_bytes {A} (l : list A) : list Z := be_bytes 4 (zlen l).

Fixpoint value_bytes (v : Value) : list Z :=
  let child d := match d with Missing => [0] | Null => [1] | DValue w => 2 :: value_bytes w end in
  match v with
  | VBool b => [0; if b then 1 else 0]
  | VTruth t => [1; truth_tag t]
  | VInt i => 2 :: be_bytes 16 i
  | VUInt u => 3 :: be_bytes 16 u
  | VFloat32 bits => 4 :: be_bytes 4 bits
  | VFloat64 bits => 5 :: be_bytes 8 bits
  | VDecimal d => 6 :: be_bytes 16 (dec_mantissa (dec_normalize d)) ++ be_bytes 4 (dec_scale (dec_normalize d))
  | VChar c => 7 :: be_bytes 4 c
  | VString s => 8 :: string_bytes s
  | VBytes b => 9 :: be_bytes 4 (zlen b) ++ b
  | VUuid u => 10 :: uuid_bytes u
  | VDate d => 15 :: be_bytes 8 (date_julian_day d)
  | VTime t => 16 :: time_bytes t
  | VLocalDateTime l => 17 :: be_bytes 8 (date_julian_day (ldt_date l)) ++ time_bytes (ldt_time l)
  | VInstant i => 18 :: be_bytes 16 (instant_nanos i)
  | VDuration d => 19 :: be_bytes 16 (duration_nanos d)
  | VList l => 11 :: count_bytes l ++ flat_map child l
  | VMap l =>
      12 :: count_bytes l ++
      concat (map snd (sort_by key_order (map (fun e => (child (fst e), child (fst e) ++ child (snd e))) l)))
  | VTuple l => 13 :: count_bytes l ++ flat_map child l
  | VRecord fields => 14 :: count_bytes fields ++ flat_map (fun f => string_bytes (fst f) ++ child (snd f)) fields
  end.

Definition datum_bytes (d : Datum) : list Z := match d with Missing => [0] | Null => [1] | DValue v => 2 :: value_bytes v end.

(** Map entries in the order of their encoded keys. *)
Definition entry_order (a b : Datum * Datum) : comparison := bytes_cmp (datum_bytes (fst a)) (datum_bytes (fst b)).
Definition sorted_entries (l : list (Datum * Datum)) : list (Datum * Datum) := sort_by entry_order l.

Lemma sorted_with {A} (g : Datum * Datum -> A) l :
  sort_by key_order (map (fun e => (datum_bytes (fst e), g e)) l) = map (fun e => (datum_bytes (fst e), g e)) (sorted_entries l).
Proof. symmetry. apply (sort_by_map (fun e => (datum_bytes (fst e), g e))). done. Qed.

Lemma map_bytes_eq l : value_bytes (VMap l) =
  12 :: count_bytes l ++ flat_map (fun e => datum_bytes (fst e) ++ datum_bytes (snd e)) (sorted_entries l).
Proof.
  cbn [value_bytes]. do 2 f_equal.
  change (concat (map snd (sort_by key_order (map (fun e => (datum_bytes (fst e), datum_bytes (fst e) ++ datum_bytes (snd e))) l))) =
    flat_map (fun e => datum_bytes (fst e) ++ datum_bytes (snd e)) (sorted_entries l)).
  rewrite (sorted_with (fun e => datum_bytes (fst e) ++ datum_bytes (snd e))), map_map. cbn [snd]. by rewrite flat_map_concat_map.
Qed.

(** ** The encoder writes them *)
Definition puts (e : Enc) (bs : list Z) : Prop := forall s s', e s = WOk s' -> en_output s' = en_output s ++ bs.

Lemma puts_ok : puts enc_ok [].
Proof. intros s s' [= <-]. by rewrite app_nil_r. Qed.

Lemma puts_seq e1 e2 b1 b2 : puts e1 b1 -> puts e2 b2 -> puts (e1 ;;> e2) (b1 ++ b2).
Proof. intros H1 H2 s s' (s1 & E1%H1 & E2%H2)%wbind_ok. by rewrite E2, E1, app_assoc. Qed.

Lemma puts_check m e b : puts e b -> puts (enc_check m ;;> e) b.
Proof. intros H s s' (s1 & [_ [= <-]]%wcheck & E%H)%wbind_ok. done. Qed.

Lemma puts_each {A} (f : A -> Enc) (b : A -> list Z) l : Forall (fun x => puts (f x) (b x)) l -> puts (enc_each f l) (flat_map b l).
Proof. induction 1 as [|x l Hx _ IH]; [apply puts_ok|]. by apply puts_seq. Qed.

Context (limits : DecodeLimits).

Lemma puts_write b : puts (enc_write limits b) b.
Proof. intros s s' [_ [= <-]]%wcheck. done. Qed.

Lemma puts_node d e b : puts e b -> puts (enc_node limits d ;;> e) b.
Proof. intros H s s' (s1 & [_ [_ [= <-]]%wcheck]%wcheck & E%H)%wbind_ok. done. Qed.

Lemma puts_capacity n e b : puts e b -> puts (enc_capacity limits n ;;> e) b.
Proof. intros H s s' (s1 & [_ [= <-]]%wcheck & E%H)%wbind_ok. done. Qed.

Lemma puts_count n e b : puts e b -> puts (enc_count limits n ;;> e) (be_bytes 4 (Z.of_nat n) ++ b).
Proof. intros H. apply puts_seq; [|done]. apply puts_check, puts_check, puts_write. Qed.

Lemma puts_string s : puts (enc_string limits s) (string_bytes s).
Proof. apply puts_check, puts_check. apply puts_seq; apply puts_write. Qed.

Lemma puts_items {A} h (f : A -> Enc) (b : A -> list Z) l : Forall (fun x => puts (f x) (b x)) l ->
  puts (enc_count limits (length l) ;;> enc_capacity limits h ;;> enc_each f l) (count_bytes l ++ flat_map b l).
Proof. intros H. apply puts_count, puts_capacity. by apply puts_each. Qed.

(** *** Maps *)
Definition key_encoders (depth : Z) (e : Datum * Datum) : Enc * Enc :=
  (enc_datum limits (fst e) depth, enc_datum limits (snd e) depth).
Definition enc_entry (depth : Z) (e : Datum * Datum) : Enc := enc_datum limits (fst e) depth ;;> enc_datum limits (snd e) depth.

(** Every key encodes on its own, and their bytes together fit. *)
Definition keys_total (l : list (Datum * Datum)) : Z := zlen (flat_map (fun e => datum_bytes (fst e)) l).
Definition keys_fit (depth : Z) (l : list (Datum * Datum)) : Prop :=
  (l <> [] -> HEADER_LEN <= dl_total_bytes limits /\ keys_total l <= max_payload_bytes limits) /\
  Forall (fun e => exists s, enc_datum limits (fst e) depth (mkEncoder 0 []) = WOk s) l.

Lemma map_keys_spec depth l t ordered : 0 <= t -> Forall (fun e => puts (enc_datum limits (fst e) depth) (datum_bytes (fst e))) l ->
  (exists r, map_keys limits (map (key_encoders depth) l) t ordered = WOk r) <->
  (l <> [] -> HEADER_LEN <= dl_total_bytes limits /\ t + keys_total l <= max_payload_bytes limits) /\
  Forall (fun e => exists s, enc_datum limits (fst e) depth (mkEncoder 0 []) = WOk s) l.
Proof.
  intros Ht Hp. revert t ordered Ht. induction Hp as [|e l He _ IH]; intros t ordered Ht.
  { split; [intros _; split; [done|constructor]|by eexists]. }
  assert (Z1 : forall k : list (Datum * Datum), 0 <= keys_total k) by (intros k; unfold keys_total, zlen; lia).
  assert (Z2 : keys_total (e :: l) = zlen (datum_bytes (fst e)) + keys_total l) by (unfold keys_total; cbn [flat_map]; apply zlen_app).
  cbn [map map_keys key_encoders fst]. rewrite Forall_cons. unfold encoder_new. split.
  - intros (r & (s0 & [Hh%wguard_ok%Z.leb_le [= <-]]%wcheck & (s & Hs & [Hw%wguard_ok%Z.leb_le Hr]%wcheck)%wbind_ok)%wbind_ok).
    pose proof (He _ _ Hs) as E. cbn [en_output app] in E. rewrite E in Hw, Hr.
    destruct (proj1 (IH (t + zlen (datum_bytes (fst e))) (ordered ++ [(datum_bytes (fst e), key_encoders depth e)]) ltac:(unfold zlen; lia)) (ex_intro _ r Hr)) as [Hl Hf].
    split; [|split; [by exists s|done]]. intros _. split; [done|]. rewrite Z2. destruct l; [change (keys_total []) with 0; lia|].
    destruct Hl as [_ Hl]; [done|]. lia.
  - intros [Hh [[s Hs] Hf]]. destruct Hh as [Hh Hw]; [done|]. rewrite Z2 in Hw. rewrite (proj2 (Z.leb_le _ _)) by done. cbn [wguard wbind].
    rewrite Hs. cbn [wbind]. pose proof (He _ _ Hs) as E. cbn [en_output app] in E. rewrite E.
    rewrite (proj2 (Z.leb_le _ _)) by (specialize (Z1 l); lia). cbn [wguard wbind]. apply IH; [unfold zlen; lia|].
    split; [|done]. intros _. split; [done|lia].
Qed.

Lemma map_keys_result depth l t ordered r : Forall (fun e => puts (enc_datum limits (fst e) depth) (datum_bytes (fst e))) l ->
  map_keys limits (map (key_encoders depth) l) t ordered = WOk r ->
  r = ordered ++ map (fun e => (datum_bytes (fst e), key_encoders depth e)) l.
Proof.
  intros Hp. revert t ordered. induction Hp as [|e l He _ IH]; intros t ordered; cbn [map map_keys key_encoders fst].
  { intros [= ->]. by rewrite app_nil_r. }
  intros (s0 & [_ [= <-]]%wcheck & (s & Hs & [_ Hr]%wcheck)%wbind_ok)%wbind_ok.
  pose proof (He _ _ Hs) as E. cbn [en_output app] in E. rewrite E in Hr. apply IH in Hr as ->. by rewrite <- app_assoc.
Qed.

Lemma enc_each_map {A B} (f : B -> Enc) (g : A -> B) l s : enc_each f (map g l) s = enc_each (fun x => f (g x)) l s.
Proof. revert s. induction l as [|x l IH]; intros s; [done|]. cbn [map enc_each]. unfold enc_seq. destruct (f (g x) s); [apply IH|done]. Qed.

(** Encoding a map: its keys fit, and its entries go in their order. *)
Lemma enc_map_spec depth l s s' : Forall (fun e => puts (enc_datum limits (fst e) depth) (datum_bytes (fst e))) l ->
  enc_map limits (map (key_encoders depth) l) s = WOk s' <->
  keys_fit depth l /\
  (enc_count limits (length l) ;;> enc_capacity limits (length l * 2) ;;> enc_each (enc_entry depth) (sorted_entries l)) s = WOk s'.
Proof.
  intros Hp. unfold enc_map. rewrite length_map.
  assert (split_seq : forall a b s, (a ;;> b) s = let% s := a s in b s) by done. rewrite !split_seq.
  destruct (enc_count limits (length l) s) as [s1|]; cbn [wbind]; [|split; [discriminate|intros [_ H]; discriminate H]].
  rewrite !split_seq.
  destruct (enc_capacity limits (length l * 2) s1) as [s2|]; cbn [wbind]; [|split; [discriminate|intros [_ H]; discriminate H]].
  pose proof (map_keys_spec depth l 0 [] ltac:(lia) Hp) as K. fold (keys_fit depth l) in K.
  destruct (map_keys limits (map (key_encoders depth) l) 0 []) as [r|e] eqn:E; cbn [wbind].
  - apply map_keys_result in E as ->; [|done]. cbn [app]. rewrite (sorted_with (key_encoders depth)), enc_each_map. cbn [fst snd key_encoders].
    assert (keys_fit depth l) by (apply K; by eexists). unfold enc_entry. tauto.
  - split; [discriminate|]. intros [Hk _]. by apply K in Hk as [r ?].
Qed.

(** *** Every value *)
Definition puts_value_at (v : Value) : Prop := forall depth, puts (enc_value limits v depth) (value_bytes v).

Lemma puts_datum d depth : on_datum puts_value_at d -> puts (enc_datum limits d depth) (datum_bytes d).
Proof.
  intros H. apply puts_node. destruct d as [| |v]; [apply (puts_write [0])|apply (puts_write [1])|].
  apply (puts_seq _ _ [2]); [apply puts_write|apply H].
Qed.

Lemma puts_tagged tag e b : puts e b -> puts (enc_u8 limits tag ;;> e) (tag :: b).
Proof. apply (puts_seq _ _ [tag]), puts_write. Qed.

Lemma puts_time t : puts (enc_time limits t) (time_bytes t).
Proof. apply (puts_tagged (time_hour t)), (puts_tagged (time_minute t)), (puts_tagged (time_second t)), puts_write. Qed.

Lemma puts_literal b : puts (enc_literal limits b) (be_bytes 4 (zlen b) ++ b).
Proof. apply puts_check, puts_check. apply puts_seq; apply puts_write. Qed.

Lemma entries_puts depth l : Forall (on_datum puts_value_at) (value_children (VMap l)) ->
  Forall (fun e => puts (enc_datum limits (fst e) depth) (datum_bytes (fst e)) /\ puts (enc_datum limits (snd e) depth) (datum_bytes (snd e))) l.
Proof.
  cbn [value_children]. rewrite Forall_flat_map. intros H. eapply Forall_impl; [exact H|].
  intros [k d] [Hk [Hd _]%Forall_cons_1]%Forall_cons_1. split; by apply puts_datum.
Qed.

Lemma puts_value v : puts_value_at v.
Proof.
  induction v as [v IH] using value_ind'. intros depth.
  destruct v as [b|t|i|u|b|b|d|c|s|b|u|d|t|l|i|d|l|l|l|m]; cbn [enc_value value_bytes]; apply puts_tagged.
  all: try first [apply puts_write|apply puts_string|apply puts_literal|apply puts_time].
  - apply puts_seq; apply puts_write.
  - apply puts_seq; [apply puts_write|apply puts_time].
  - apply (puts_items _ (fun d => enc_datum limits d (depth + 1)) datum_bytes). eapply Forall_impl; [exact IH|]. intros d. apply puts_datum.
  - intros s s' H. apply (entries_puts (depth + 1)) in IH. apply enc_map_spec in H as [_ H]; [|by apply Forall_and in IH as [? _]].
    revert s s' H. change (puts (enc_count limits (length l) ;;> enc_capacity limits (length l * 2) ;;> enc_each (enc_entry (depth + 1)) (sorted_entries l)) (tl (value_bytes (VMap l)))).
    rewrite map_bytes_eq. cbn [tl]. apply puts_count, puts_capacity, puts_each, Forall_forall. intros e He%sort_by_elem.
    rewrite Forall_forall in IH. by apply puts_seq; apply IH.
  - apply (puts_items _ (fun d => enc_datum limits d (depth + 1)) datum_bytes). eapply Forall_impl; [exact IH|]. intros d. apply puts_datum.
  - apply (puts_items _ (fun f => enc_string limits (fst f) ;;> enc_datum limits (snd f) (depth + 1)) (fun f => string_bytes (fst f) ++ datum_bytes (snd f))).
    cbn [value_children] in IH. rewrite Forall_map in IH. eapply Forall_impl; [exact IH|]. intros f Hf.
    apply puts_seq; [apply puts_string|by apply puts_datum].
Qed.

Lemma datum_puts d depth : puts (enc_datum limits d depth) (datum_bytes d).
Proof. apply puts_datum. destruct d; [done..|]. exact (puts_value v). Qed.
End Bytes.

Section Datums.
Context {F : Foreign}.

(** ** What Rust's types say of a value: text is UTF-8, integers and the
    parts of foreign values have the width of their types *)
Definition in_range (lo hi z : Z) : bool := (lo <=? z) && (z <? hi).

Definition time_ok (t : TimeOfDay) : bool :=
  in_range 0 24 (time_hour t) && in_range 0 60 (time_minute t) && in_range 0 60 (time_second t) &&
  in_range 0 1000000000 (time_nanosecond t).
Definition date_ok (d : Date) : bool := in_range (- 2 ^ 31) (2 ^ 31) (date_julian_day d).
Definition decimal_ok (d : Decimal) : bool :=
  in_range (- 2 ^ 96 + 1) (2 ^ 96) (dec_mantissa (dec_normalize d)) && in_range 0 29 (dec_scale (dec_normalize d)).
Definition uuid_ok (u : Uuid) : bool := Nat.eqb (length (uuid_bytes u)) 16 && forallb (in_range 0 256) (uuid_bytes u).

Definition wire_node_value (v : Value) : bool :=
  rust_node v &&
  match v with
  | VString s => utf8_valid (bytes_of s)
  | VRecord m => forallb (fun f => utf8_valid (bytes_of (fst f))) m
  | VDecimal d => decimal_ok d
  | VUuid u => uuid_ok u
  | VDate d => date_ok d
  | VTime t => time_ok t
  | VLocalDateTime l => date_ok (ldt_date l) && time_ok (ldt_time l)
  | VInstant i => in_i128 (instant_nanos i)
  | VDuration d => in_i128 (duration_nanos d) && in_range (- 2 ^ 63) (2 ^ 63) (Z.quot (duration_nanos d) 1000000000)
  | _ => true
  end.

Definition wire_value (v : Value) : bool := everywhere wire_node_value v.
Definition wire_datum : Datum -> Prop := holds_at wire_node_value.

Lemma in_range_spec lo hi z : in_range lo hi z = true <-> lo <= z < hi.
Proof. unfold in_range. rewrite andb_true_iff, Z.leb_le, Z.ltb_lt. done. Qed.

(** ** DTOs of values *)
Fixpoint dto_value (v : Value) : ValueDto :=
  let child d := match d with Missing => DtoMissing | Null => DtoNull | DValue w => DtoValue (dto_value w) end in
  match v with
  | VBool b => DtoVBool b
  | VTruth t => DtoVTruth (truth_tag t)
  | VInt i => DtoVInt i
  | VUInt u => DtoVUInt u
  | VFloat32 bits => DtoVFloat32 bits
  | VFloat64 bits => DtoVFloat64 bits
  | VDecimal d => DtoVDecimal (dec_mantissa (dec_normalize d)) (dec_scale (dec_normalize d))
  | VChar c => DtoVChar c
  | VString s => DtoVString s
  | VBytes b => DtoVBytes b
  | VUuid u => DtoVUuid (uuid_bytes u)
  | VDate d => DtoVDate (date_julian_day d)
  | VTime t => DtoVTime (time_hour t) (time_minute t) (time_second t) (time_nanosecond t)
  | VLocalDateTime l =>
      DtoVLocalDateTime (date_julian_day (ldt_date l)) (time_hour (ldt_time l)) (time_minute (ldt_time l))
        (time_second (ldt_time l)) (time_nanosecond (ldt_time l))
  | VInstant i => DtoVInstant (instant_nanos i)
  | VDuration d => DtoVDuration (duration_nanos d)
  | VList l => DtoVList (map child l)
  | VMap l =>
      DtoVMap (map snd (sort_by key_order (map (fun e => (datum_bytes (fst e), (child (fst e), child (snd e)))) l)))
  | VTuple l => DtoVTuple (map child l)
  | VRecord fields => DtoVRecord (map (fun f => (fst f, child (snd f))) fields)
  end.

Definition dto_datum (d : Datum) : DatumDto :=
  match d with Missing => DtoMissing | Null => DtoNull | DValue v => DtoValue (dto_value v) end.
Definition dto_entry (e : Datum * Datum) : DatumDto * DatumDto := (dto_datum (fst e), dto_datum (snd e)).

Lemma map_sorted_with {A} (g : Datum * Datum -> A) l :
  map snd (sort_by key_order (map (fun e => (datum_bytes (fst e), g e)) l)) = map g (sorted_entries l).
Proof. by rewrite (sorted_with g), map_map. Qed.

Lemma dto_map_eq l : dto_value (VMap l) = DtoVMap (map dto_entry (sorted_entries l)).
Proof. cbn [dto_value]. f_equal. exact (map_sorted_with dto_entry l). Qed.

(** ** Encoded datums are read back *)
Context (limits : DecodeLimits).
Ltac tag := cbv beta; cbn [Z.eqb Pos.eqb].

Lemma codes_single {A B} m e (d : Dec A) (f : A -> B) v : codes m e d v -> 0 <= m -> codes 0 e (let^ x := d in dret (f x)) (f v).
Proof. intros H Hm. by apply (codes_weaken m), codes_map. Qed.

Definition codes_datum_at (d : Datum) : Prop := forall depth fuel, fueled limits depth fuel -> wire_datum d ->
  codes 1 (enc_datum limits d depth) (dec_datum limits fuel depth) (dto_datum d).

Lemma codes_datum_list l depth fuel : Forall codes_datum_at l -> Forall wire_datum l -> fueled limits depth fuel ->
  codes 4 (enc_count limits (length l) ;;> enc_capacity limits (length l) ;;> enc_each (fun d => enc_datum limits d depth) l)
    (dec_datum_list limits (dec_datum limits fuel) depth) (map dto_datum l).
Proof.
  intros H W Hf. apply (codes_all_items limits 1 1 (fun n => n)); [lia|]. rewrite Forall_forall in *. intros d Hd. by apply H, W.
Qed.

Lemma wire_children v : wire_value v = true -> Forall wire_datum (value_children v).
Proof. by intros [_ H]%everywhere_eq. Qed.

Lemma codes_entries l depth fuel : Forall codes_datum_at (value_children (VMap l)) -> wire_value (VMap l) = true -> fueled limits depth fuel ->
  codes 4 (enc_map limits (map (key_encoders limits depth) l)) (dec_map limits (dec_datum limits fuel) depth)
    (map dto_entry (sorted_entries l)).
Proof.
  intros H W%wire_children Hf s s' He. apply enc_map_spec in He as [_ He]; [|apply Forall_forall; intros e _; apply datum_puts].
  revert s s' He. change (codes 4 (enc_count limits (length l) ;;> enc_capacity limits (length l * 2) ;;>
    enc_each (enc_entry limits depth) (sorted_entries l)) (dec_map limits (dec_datum limits fuel) depth) (map dto_entry (sorted_entries l))).
  replace (length l) with (length (sorted_entries l)) by apply sort_by_length.
  apply (codes_all_items limits 2 2 (fun n => (n * 2)%nat)); [lia|].
  cbn [value_children] in H, W. rewrite Forall_flat_map in H, W. rewrite Forall_forall in *. intros e He%sort_by_elem.
  specialize (H e He) as [Hk [Hv _]%Forall_cons_1]%Forall_cons_1. specialize (W e He) as [Wk [Wv _]%Forall_cons_1]%Forall_cons_1.
  apply (codes_weaken (1 + 1)); [lia|]. eapply codes_bind; [by apply Hk|]. eapply codes_then; [by apply Hv|apply codes_ret].
Qed.

Lemma codes_time t : time_ok t = true ->
  codes 7 (enc_time limits t) (dec_time_parts) (time_hour t, time_minute t, time_second t, time_nanosecond t).
Proof.
  unfold time_ok. rewrite !andb_true_iff, !in_range_spec. intros (((H1 & H2) & H3) & H4).
  apply (codes_weaken (1 + (1 + (1 + 4)))); [lia|].
  do 3 (eapply codes_bind; [apply codes_u8|]). eapply codes_then; [apply codes_u32; lia|apply codes_ret].
Qed.

Lemma codes_value v depth fuel : Forall codes_datum_at (value_children v) -> wire_value v = true -> fueled limits (depth + 1) fuel ->
  codes 1 (enc_value limits v depth) (dec_value limits (dec_datum limits fuel) depth) (dto_value v).
Proof.
  intros IH W Hf. unfold dec_value. apply codes_offset. intros off. pose proof W as [N C]%everywhere_eq. fold wire_datum in C.
  apply andb_true_iff in N as [Nr Nw].
  destruct v as [b|t|i|u|b|b|d|c|s|b|u|d|t|l|i|d|l|l|l|m]; cbn [enc_value dto_value rust_node wire_node_value] in *;
    (eapply (codes_weaken (1 + 0)); [lia|eapply codes_bind; [apply codes_u8|tag]]).
  all: rewrite ?andb_true_iff in Nr; rewrite ?andb_true_iff in Nw.
  - eapply codes_single; [apply codes_bool|lia].
  - eapply codes_single; [apply codes_u8|lia].
  - eapply codes_single; [apply codes_i128; unfold in_i128, i128_min, i128_max in Nr; lia|lia].
  - eapply codes_single; [apply codes_u128; unfold in_u128, u128_max in Nr; lia|lia].
  - eapply codes_single; [apply codes_u32; lia|lia].
  - eapply codes_single; [apply codes_u64; lia|lia].
  - unfold decimal_ok in Nw. rewrite andb_true_iff, !in_range_spec in Nw. apply (codes_weaken (16 + 4)); [lia|].
    eapply codes_bind; [apply codes_i128; lia|]. apply codes_map, codes_u32. lia.
  - eapply codes_single; [apply codes_u32; lia|lia].
  - by eapply codes_single; [apply codes_string|].
  - by eapply codes_single; [apply codes_literal|].
  - unfold uuid_ok in Nw. apply andb_true_iff in Nw as [Nw%Nat.eqb_eq _]. rewrite <- Nw.
    eapply codes_single; [apply codes_take|]. unfold zlen. lia.
  - apply in_range_spec in Nw. eapply codes_single; [apply codes_i64; lia|lia].
  - eapply codes_weaken; [|eapply codes_then; [by apply codes_time|apply codes_ret]]. lia.
  - destruct Nw as [Nd Nt]. unfold date_ok in Nd; rewrite in_range_spec in Nd. apply (codes_weaken (8 + 7)); [lia|].
    eapply codes_bind; [apply codes_i64; lia|]. eapply codes_then; [by apply codes_time|apply codes_ret].
  - eapply codes_single; [apply codes_i128; unfold in_i128, i128_min, i128_max in Nw; lia|lia].
  - eapply codes_single; [apply codes_i128; unfold in_i128, i128_min, i128_max in Nw; lia|lia].
  - apply (codes_single 4); [|lia]. by apply (codes_datum_list l (depth + 1)).
  - match goal with |- codes _ _ _ ?v => change v with (dto_value (VMap l)) end. rewrite dto_map_eq. apply (codes_single 4); [|lia]. by apply (codes_entries l (depth + 1)).
  - apply (codes_single 4); [|lia]. by apply (codes_datum_list l (depth + 1)).
  - apply (codes_weaken 4); [lia|].
    apply (codes_last_items limits 5 5 (fun n => n) (fun f => enc_string limits (fst f) ;;> enc_datum limits (snd f) (depth + 1))
      (let^ name := dec_string limits in let^ d := dec_datum limits fuel (depth + 1) in dret (name, d))
      (fun f => (fst f, dto_datum (snd f)))); [lia| |apply codes_ret].
    cbn [value_children] in IH, C. rewrite Forall_map in IH, C. rewrite forallb_forall in Nw. rewrite Forall_forall in *.
    intros f Hin. apply (codes_weaken (4 + 1)); [lia|]. eapply codes_bind; [by apply codes_string, Nw, list_elem_of_In|].
    apply codes_map. by apply IH, C.
Qed.

Lemma codes_datum d : codes_datum_at d.
Proof.
  assert (S : forall d, on_datum (fun v => Forall codes_datum_at (value_children v)) d -> codes_datum_at d).
  { clear d. intros d Hd depth fuel Hf W. destruct fuel as [|fuel].
    { intros s s' (s1 & [Hl%wguard_ok%Z.leb_le _]%wcheck & _)%wbind_ok. unfold fueled in Hf. lia. }
    unfold enc_datum. cbn [dec_datum]. eapply (codes_weaken (0 + 1)); [lia|]. eapply codes_bind; [apply codes_node|].
    apply codes_offset. intros off. destruct d as [| |v]; cbn [dto_datum].
    1,2: eapply codes_then; [apply codes_u8|tag; apply codes_ret].
    apply (codes_weaken (1 + 1)); [lia|]. eapply codes_bind; [apply codes_u8|tag]. apply codes_map.
    apply codes_value; [done|done|unfold fueled in *; lia]. }
  apply S. destruct d as [| |v]; [done..|]. cbn [on_datum]. induction v as [v IH] using value_ind'.
  eapply Forall_impl; [exact IH|]. intros d Hd. apply S. by destruct d.
Qed.
End Datums.
