(* ===== verification/WireText.v ===== *)
(** * Numbers and identifiers as text

    Decoding builds decimals and UUIDs from text.  This file says what the
    text it builds denotes, and what the crates that parse it are relied on
    for; [sample_wire_foreign] is a concrete instance. *)
From Stdlib Require Import ZArith Lia DecimalString DecimalN.
From S2P Require Import Prelude Foreign Text Types Values Fingerprint Wire WireEncode WireDecode WireCodec WireDatums.

Local Open Scope Z_scope.

(** ** Digits *)
Definition digit_of (a : Ascii.ascii) : Z := byte_of a - 48.
Definition is_digit (a : Ascii.ascii) : bool := in_range 48 58 (byte_of a).
Fixpoint all_digits (s : string) : bool := match s with EmptyString => true | String a s' => is_digit a && all_digits s' end.

(** The number a string of digits denotes, after [z]. *)
Fixpoint digits_from (z : Z) (s : string) : Z :=
  match s with EmptyString => z | String a s' => digits_from (z * 10 + digit_of a) s' end.
Definition digits_value : string -> Z := digits_from 0.

Lemma digits_from_app z a b : digits_from z (a +:+ b) = digits_from (digits_from z a) b.
Proof. revert z. induction a as [|c a IH]; intros z; [done|apply IH]. Qed.

Lemma all_digits_app a b : all_digits (a +:+ b) = all_digits a && all_digits b.
Proof. induction a as [|c a IH]; [done|]. change (is_digit c && all_digits (a +:+ b) = is_digit c && all_digits a && all_digits b). by rewrite IH, andb_assoc. Qed.

Lemma uint_digits u : all_digits (NilEmpty.string_of_uint u) = true.
Proof. by induction u. Qed.

Lemma uint_from_acc u p : digits_from (Zpos p) (NilEmpty.string_of_uint u) = Zpos (Pos.of_uint_acc u p).
Proof.
  revert p. induction u as [|u IH|u IH|u IH|u IH|u IH|u IH|u IH|u IH|u IH|u IH]; intros p; [done|..];
    cbn [NilEmpty.string_of_uint digits_from Pos.of_uint_acc]; rewrite <- IH; f_equal;
    (match goal with |- context [digit_of ?a] => let v := eval vm_compute in (digit_of a) in change (digit_of a) with v end); lia.
Qed.

Lemma uint_value u : digits_value (NilEmpty.string_of_uint u) = Z.of_N (Pos.of_uint u).
Proof.
  unfold digits_value. induction u as [|u IH|u _|u _|u _|u _|u _|u _|u _|u _|u _]; [done| |..];
    cbn [NilEmpty.string_of_uint digits_from Pos.of_uint Z.of_N]; [exact IH|..]; apply uint_from_acc.
Qed.

Lemma to_string_spec n : 0 <= n -> all_digits (to_string n) = true /\ digits_value (to_string n) = n /\ to_string n <> "".
Proof.
  intros H. unfold to_string. set (u := N.to_uint (Z.to_N n)).
  assert (Hv : Z.of_N (Pos.of_uint u) = n) by (change (Z.of_N (N.of_uint u) = n); subst u; rewrite Unsigned.of_to; lia).
  assert (E : NilZero.string_of_uint u = NilEmpty.string_of_uint u \/ u = Decimal.Nil) by (destruct u; auto).
  clearbody u. destruct E as [E|E].
  - rewrite E. split_and!; [apply uint_digits|by rewrite uint_value|]. rewrite <- E. by destruct u.
  - rewrite E in Hv |- *. by subst n.
Qed.

Lemma zeros_spec n s : all_digits (zeros n +:+ s) = all_digits s /\ digits_value (zeros n +:+ s) = digits_value s.
Proof. induction n as [|n [IH1 IH2]]; [done|]. split; [exact IH1|exact IH2]. Qed.

Lemma string_length_app a b : String.length (a +:+ b) = (String.length a + String.length b)%nat.
Proof. induction a as [|c a IH]; [done|]. exact (f_equal S IH). Qed.

Lemma string_app_nil a : a +:+ "" = a.
Proof. induction a as [|c a IH]; [done|]. exact (f_equal (String c) IH). Qed.

Lemma zeros_length n : String.length (zeros n) = n.
Proof. induction n as [|n IH]; [done|]. cbn. by f_equal. Qed.

Lemma insert_str_spec s i t : (i <= String.length s)%nat ->
  exists a b, s = a +:+ b /\ String.length a = i /\ insert_str s i t = a +:+ t +:+ b.
Proof.
  revert i. induction s as [|c s IH]; intros [|i] H; cbn in *; try lia.
  - by exists "", "".
  - exists "", (String c s). split_and!; [done|done|]. by destruct t.
  - destruct (IH i ltac:(lia)) as (a & b & -> & <- & ->). by exists (String c a), b.
Qed.

(** ** Decimals *)

(** Plain notation: a sign, the whole digits, and the fraction. *)
Definition plain (negative : bool) (whole fraction : string) : string :=
  (if negative then "-" else "") +:+ whole +:+ (if bool_decide (fraction = "") then "" else "." +:+ fraction).
Definition plain_value (negative : bool) (whole fraction : string) : Z :=
  (if negative then -1 else 1) * digits_value (whole +:+ fraction).

Lemma decimal_text_plain mantissa scale : 0 <= scale -> exists whole fraction,
  decimal_text mantissa scale = plain (mantissa <? 0) whole fraction /\ plain_value (mantissa <? 0) whole fraction = mantissa /\
  all_digits (whole +:+ fraction) = true /\ whole <> "" /\ Z.of_nat (String.length fraction) = scale.
Proof.
  intros Hs. unfold decimal_text. destruct (to_string_spec (Z.abs mantissa) ltac:(lia)) as (D & V & N).
  set (digits := to_string (Z.abs mantissa)) in *.
  assert (Sg : (if mantissa <? 0 then -1 else 1) * Z.abs mantissa = mantissa) by (destruct (Z.ltb_spec mantissa 0); lia).
  assert (Pl : forall t : string, (if mantissa <? 0 then String (ascii_nat 45) t else t) = (if mantissa <? 0 then "-" else "") +:+ t)
    by (by intros t; destruct (mantissa <? 0)).
  rewrite Pl. clearbody digits. destruct (Z.ltb_spec 0 scale) as [Hp|Hp].
  - set (padded := if Nat.leb (String.length digits) (Z.to_nat scale)
                   then String.append (zeros (Z.to_nat scale + 1 - String.length digits)) digits else digits).
    assert (P : all_digits padded = true /\ digits_value padded = Z.abs mantissa /\ (Z.to_nat scale < String.length padded)%nat).
    { unfold padded. destruct (Nat.leb_spec (String.length digits) (Z.to_nat scale)) as [Hl|Hl]; [|done].
      destruct (zeros_spec (Z.to_nat scale + 1 - String.length digits) digits) as [-> ->].
      split_and!; [done|done|]. rewrite string_length_app, zeros_length. lia. }
    clearbody padded. destruct P as (PD & PV & PL).
    destruct (insert_str_spec padded (String.length padded - Z.to_nat scale) "." ltac:(lia)) as (a & b & -> & La & Ei).
    rewrite string_length_app in PL, La. rewrite Ei. exists a, b. unfold plain, plain_value. rewrite PV, bool_decide_false by (intros ->; cbn in *; lia).
    split_and!; [done|done|done| |lia]. intros ->. cbn in *. lia.
  - exists digits, "". pose proof (string_app_nil digits) as Er.
    unfold plain, plain_value. rewrite bool_decide_true, Er, V by done. split_and!; [done|done|done|done|cbn; lia].
Qed.

(** ** UUIDs: five hyphenated groups of hexadecimal digits *)
Definition uuid_hyphenated (bytes : list Z) : string :=
  hex (take 4 bytes) +:+ "-" +:+ hex (take 2 (drop 4 bytes)) +:+ "-" +:+ hex (take 2 (drop 6 bytes)) +:+ "-" +:+
  hex (take 2 (drop 8 bytes)) +:+ "-" +:+ hex (drop 10 bytes).

Lemma uuid_text_hyphenated bytes : length bytes = 16%nat -> uuid_text bytes = uuid_hyphenated bytes.
Proof. intros H. do 16 (destruct bytes as [|? bytes]; [done|]). by destruct bytes. Qed.

(** ** What parsing and the constructors of the crates are relied on for *)
Class WireForeignLaws {F : Foreign} (W : WireForeign F) : Prop := {
  (** A decimal in plain notation, with at most 28 fractional digits and 96
      bits, is parsed as the number it denotes. *)
  dec_parses : forall negative whole fraction d,
    all_digits (whole +:+ fraction) = true -> whole <> "" -> (String.length fraction <= 28)%nat ->
    Z.abs (plain_value negative whole fraction) < 2 ^ 96 ->
    dec_mantissa (dec_normalize d) = plain_value negative whole fraction ->
    dec_scale (dec_normalize d) = Z.of_nat (String.length fraction) ->
    exists d', dec_from_str (plain negative whole fraction) = Some d' /\ dec_eqb d' d = true;
  uuid_parses : forall u, uuid_ok u = true -> uuid_from_str (uuid_hyphenated (uuid_bytes u)) = Some u;
  julian_inverse : forall d, date_ok d = true -> date_from_julian_day (date_julian_day d) = Some d;
  hms_inverse : forall t, time_ok t = true ->
    time_from_hms_nano (time_hour t) (time_minute t) (time_second t) (time_nanosecond t) = Some t;
  ldt_inverse : forall l, ldt_new (ldt_date l) (ldt_time l) = l;
  (** A timestamp is read back as the same instant, when it is in the range of
      UTC dates the crate accepts; a local date and time near the limits is
      not, once its offset is taken off. *)
  instant_inverse : forall i i', instant_from_nanos (instant_nanos i) = Some i' -> instant_eqb i' i = true;
  duration_inverse : forall d,
    duration_new (Z.quot (duration_nanos d) 1000000000) (Z.rem (duration_nanos d) 1000000000) = d
}.

(** ** A concrete instance over [sample_foreign] *)
Module WireSample.
Fixpoint parse_from (m : Z) (scale : option Z) (s : string) : option (Z * Z) :=
  match s with
  | EmptyString => Some (m, default 0 scale)
  | String a s' =>
      if is_digit a then parse_from (m * 10 + digit_of a) (option_map (Z.add 1) scale) s'
      else match scale with
           | None => if bool_decide (a = ascii_nat 46) then parse_from m (Some 0) s' else None
           | Some _ => None
           end
  end.

Definition parse (s : string) : option Sample.dec :=
  let '(sign, digits) := match s with
                         | String a s' => if bool_decide (a = ascii_nat 45) then (-1, s') else (1, s)
                         | _ => (1, s)
                         end in
  match parse_from 0 None digits with Some (m, scale) => Sample.dec96 (sign * m) scale | None => None end.

Definition hex_value (a : Ascii.ascii) : Z := if is_digit a then digit_of a else byte_of a - 87.
Fixpoint unhex (s : string) : option (list Z) :=
  match s with
  | EmptyString => Some []
  | String a s' =>
      if bool_decide (a = ascii_nat 45) then unhex s'
      else match s' with
           | EmptyString => None
           | String b s'' => option_map (cons (hex_value a * 16 + hex_value b)) (unhex s'')
           end
  end.

Lemma parse_digits a rest m scale : all_digits a = true ->
  parse_from m scale (a +:+ rest) = parse_from (digits_from m a) (option_map (Z.add (Z.of_nat (String.length a))) scale) rest.
Proof.
  revert m scale. induction a as [|c a IH]; intros m scale; [intros _; by destruct scale|].
  intros [Hc Ha]%andb_true_iff. change (String c a +:+ rest) with (String c (a +:+ rest)). cbn [parse_from digits_from].
  rewrite Hc, IH by done. f_equal. destruct scale as [k|]; [|done]. cbn [option_map String.length]. f_equal. lia.
Qed.

Lemma parse_plain negative whole fraction : all_digits (whole +:+ fraction) = true -> whole <> "" ->
  parse (plain negative whole fraction) = Sample.dec96 (plain_value negative whole fraction) (Z.of_nat (String.length fraction)).
Proof.
  intros D Hw. assert (Hd : all_digits whole = true /\ all_digits fraction = true) by (by rewrite all_digits_app, andb_true_iff in D).
  destruct Hd as [Dw Df]. set (tail := if bool_decide (fraction = "") then "" else "." +:+ fraction).
  assert (E : parse (plain negative whole fraction) =
              match parse_from 0 None (whole +:+ tail) with
              | Some (m, scale) => Sample.dec96 ((if negative then -1 else 1) * m) scale
              | None => None
              end).
  { unfold parse, plain. fold tail. destruct negative; [done|]. destruct whole as [|c w]; [done|].
    cbn [all_digits] in Dw. apply andb_true_iff in Dw as [Hc _].
    change ("" +:+ String c w +:+ tail) with (String c (w +:+ tail)). cbv beta iota. rewrite bool_decide_false; [done|]. by intros ->. }
  rewrite E, parse_digits by done. unfold plain_value, digits_value. rewrite digits_from_app. unfold tail. case_bool_decide as Hf.
  - by subst fraction.
  - change ("." +:+ fraction) with (String (ascii_nat 46) fraction). cbn [option_map parse_from].
    change (is_digit (ascii_nat 46)) with false. rewrite bool_decide_true by done. cbv iota.
    rewrite <- (string_app_nil fraction) at 1. rewrite parse_digits by done. cbn [option_map parse_from default]. by rewrite Z.add_0_r.
Qed.

Lemma hex_digit_value d : 0 <= d < 16 -> hex_value (hex_digit d) = d /\ hex_digit d <> ascii_nat 45.
Proof.
  intros H. assert (Hd : d ∈ map Z.of_nat (seq 0 16)).
  { apply list_elem_of_In, in_map_iff. exists (Z.to_nat d). split; [lia|]. apply in_seq. lia. }
  revert Hd. cbn [map seq]. rewrite !elem_of_cons. intros Hd.
  repeat (destruct Hd as [->|Hd]; [split; [reflexivity|intros E; vm_compute in E; discriminate E]|]). by apply elem_of_nil in Hd.
Qed.

Lemma unhex_hex bytes rest : forallb (in_range 0 256) bytes = true -> unhex (hex bytes +:+ rest) = option_map (app bytes) (unhex rest).
Proof.
  induction bytes as [|b bytes IH]; [intros _; change (hex [] +:+ rest) with rest; by destruct (unhex rest)|]. intros [Hb%in_range_spec H]%andb_true_iff. specialize (IH H).
  assert (E1 : Z.shiftr b 4 = b / 16) by (rewrite Z.shiftr_div_pow2; [reflexivity|lia]). assert (E2 : Z.land b 15 = b mod 16) by (apply (Z.land_ones b 4); lia).
  change (hex (b :: bytes) +:+ rest) with
    (String (hex_digit (Z.shiftr b 4)) (String (hex_digit (Z.land b 15)) (hex bytes +:+ rest))).
  destruct (hex_digit_value (Z.shiftr b 4)) as [V1 N1]; [rewrite E1; split; [apply Z.div_pos; lia|apply Z.div_lt_upper_bound; lia]|].
  destruct (hex_digit_value (Z.land b 15)) as [V2 N2]; [rewrite E2; apply Z.mod_pos_bound; lia|].
  cbn [unhex]. rewrite bool_decide_false by done. rewrite IH, V1, V2, E1, E2. pose proof (Z.div_mod b 16 ltac:(lia)) as Hdm.
  replace (b / 16 * 16 + b mod 16) with b by lia. by destruct (unhex rest).
Qed.

Lemma append_assoc a b c : (a +:+ b) +:+ c = a +:+ b +:+ c.
Proof. induction a as [|x a IH]; [done|]. exact (f_equal (String x) IH). Qed.

Lemma forallb_take {A} (p : A -> bool) n l : forallb p l = true -> forallb p (take n l) = true.
Proof. rewrite <- (take_drop n l) at 1. rewrite forallb_app, andb_true_iff. by intros [? _]. Qed.

Lemma forallb_drop {A} (p : A -> bool) n l : forallb p l = true -> forallb p (drop n l) = true.
Proof. rewrite <- (take_drop n l) at 1. rewrite forallb_app, andb_true_iff. by intros [_ ?]. Qed.

Lemma unhex_dash rest : unhex ("-" +:+ rest) = unhex rest.
Proof. done. Qed.
End WireSample.

Definition sample_wire_foreign : WireForeign sample_foreign := {|
  dec_from_str := WireSample.parse : string -> option (@Decimal sample_foreign);
  uuid_from_str := WireSample.unhex : string -> option (@Uuid sample_foreign);
  date_from_julian_day := fun d => Some d : option (@Date sample_foreign);
  time_from_hms_nano := fun h m s n =>
    if (h <? 24) && (m <? 60) && (s <? 60) && (n <? 1000000000)
    then Some (h * 3600000000000 + m * 60000000000 + s * 1000000000 + n) : option (@TimeOfDay sample_foreign) else None;
  ldt_new := fun d t => (d, t);
  instant_from_nanos := fun i =>
    if (-377705116800000000000 <=? i) && (i <=? 253402300799999999999) then Some i : option (@Instant sample_foreign) else None;
  duration_new := fun s n => s * 1000000000 + n
|}.
#[export] Existing Instance sample_wire_foreign.

#[export] Instance sample_wire_laws : WireForeignLaws sample_wire_foreign.
Proof.
  split.
  - intros negative whole fraction d D Hw Hf Hv Em Es. exists (Sample.mkDec (plain_value negative whole fraction) 28).
    cbn in Em, Es. split.
    + change (WireSample.parse (plain negative whole fraction) = Some (Sample.mkDec (plain_value negative whole fraction) 28)).
      rewrite WireSample.parse_plain by done. unfold Sample.dec96. rewrite <- Es.
      rewrite (proj2 (Z.ltb_lt _ _)) by done. done.
    + cbn. unfold Sample.eqb_on. apply Z.eqb_eq. rewrite <- Em. unfold Sample.dec_key at 1. cbn [Sample.d_num Sample.d_scale]. lia.
  - intros u H. change (WireSample.unhex (uuid_hyphenated u) = Some u). unfold uuid_ok in H.
    apply andb_true_iff in H as [Hl%Nat.eqb_eq H]. cbn [uuid_bytes sample_foreign] in Hl, H.
    rewrite <- (string_app_nil (uuid_hyphenated u)). unfold uuid_hyphenated. rewrite !WireSample.append_assoc.
    do 4 (rewrite WireSample.unhex_hex by eauto using WireSample.forallb_take, WireSample.forallb_drop; rewrite WireSample.unhex_dash).
    rewrite WireSample.unhex_hex by eauto using WireSample.forallb_drop.
    do 16 (destruct u as [|? u]; [done|]). by destruct u.
  - done.
  - intros t H. unfold time_ok in H. rewrite !andb_true_iff, !in_range_spec in H. destruct H as (((H1 & H2) & H3) & H4).
    cbn [time_from_hms_nano sample_wire_foreign]. rewrite !(proj2 (Z.ltb_lt _ _)) by lia. cbn [andb]. f_equal. revert H1 H2 H3 H4.
    cbn [time_hour time_minute time_second time_nanosecond sample_foreign]. intros.
    pose proof (Z.div_mod t 1000000000 ltac:(lia)). pose proof (Z.div_mod (t / 1000000000) 60 ltac:(lia)).
    pose proof (Z.div_mod (t / 60000000000) 60 ltac:(lia)).
    replace (t / 60000000000) with (t / 1000000000 / 60) in * by (rewrite Z.div_div by lia; f_equal; lia).
    replace (t / 3600000000000) with (t / 1000000000 / 60 / 60) in * by (rewrite !Z.div_div by lia; f_equal; lia). lia.
  - by intros [].
  - intros i i'. cbn. destruct (_ && _); [intros [= <-]; apply Z.eqb_refl|done].
  - intros d. cbn. pose proof (Z.quot_rem d 1000000000 ltac:(lia)). lia.
Qed.
