(* ===== verification/WireCanon.v ===== *)
(** * Canonical datums

    Decoding an encoded datum gives its canonical form: decimals in normal
    form, instants in UTC, map entries in the order of their keys, unless the
    crate does not accept the timestamp of one of its instants, which is then
    the error.  The canonical form is an equal datum, valid for the same types,
    and encodes to the same bytes. *)
From Stdlib Require Import ZArith Lia.
From stdpp Require Import list.
From S2P Require Import Prelude Foreign Truth BTree Text Types Values Fingerprint Model Wire WireEncode WireDecode WireCodec WireTypes WireDatums WireText.

Local Open Scope Z_scope.

Section Canon.
Context {F : Foreign} {W : WireForeign F}.

Definition canon_decimal (d : Decimal) : Decimal :=
  default d (dec_from_str (decimal_text (dec_mantissa (dec_normalize d)) (dec_scale (dec_normalize d)))).
Definition canon_instant (i : Instant) : Instant := default i (instant_from_nanos (instant_nanos i)).

(** The timestamps that reading accepts. *)
Definition instant_readable (v : Value) : bool :=
  match v with
  | VInstant i => match instant_from_nanos (instant_nanos i) with Some _ => true | None => false end
  | _ => true
  end.

(** Every instant within the datum has such a timestamp. *)
Definition readable_datum (d : Datum) : bool :=
  match d with DValue v => everywhere instant_readable v | _ => true end.

Fixpoint canon_value (v : Value) : Value :=
  let child d := match d with DValue w => DValue (canon_value w) | _ => d end in
  match v with
  | VDecimal d => VDecimal (canon_decimal d)
  | VInstant i => VInstant (canon_instant i)
  | VList l => VList (map child l)
  | VMap l => VMap (map snd (sort_by key_order (map (fun e => (datum_bytes (fst e), (child (fst e), child (snd e)))) l)))
  | VTuple l => VTuple (map child l)
  | VRecord m => VRecord (map (fun f => (fst f, child (snd f))) m)
  | _ => v
  end.

Definition canon_datum (d : Datum) : Datum := match d with DValue v => DValue (canon_value v) | _ => d end.
Definition canon_entry (e : Datum * Datum) : Datum * Datum := (canon_datum (fst e), canon_datum (snd e)).
Definition canon_field (f : string * Datum) : string * Datum := (fst f, canon_datum (snd f)).

Lemma canon_list_eq l : canon_value (VList l) = VList (map canon_datum l).
Proof. done. Qed.
Lemma canon_tuple_eq l : canon_value (VTuple l) = VTuple (map canon_datum l).
Proof. done. Qed.
Lemma canon_record_eq m : canon_value (VRecord m) = VRecord (map canon_field m).
Proof. done. Qed.
Lemma canon_map_eq l : canon_value (VMap l) = VMap (map canon_entry (sorted_entries l)).
Proof. cbn [canon_value]. f_equal. exact (map_sorted_with canon_entry l). Qed.

Lemma lower_datum_eq d : lower_datum (dto_datum d) =
  match d with DValue v => let% v := lower_value (dto_value v) in WOk (DValue v) | d => WOk d end.
Proof. by destruct d. Qed.

(** ** Lowering *)
Context {L : ForeignLaws F} {WL : WireForeignLaws W}.

Lemma canon_decimal_spec d : decimal_ok d = true ->
  dec_from_str (decimal_text (dec_mantissa (dec_normalize d)) (dec_scale (dec_normalize d))) = Some (canon_decimal d) /\
  dec_eqb (canon_decimal d) d = true.
Proof.
  unfold decimal_ok. rewrite andb_true_iff, !in_range_spec. intros [Hm Hs].
  destruct (decimal_text_plain (dec_mantissa (dec_normalize d)) (dec_scale (dec_normalize d)) ltac:(lia)) as (whole & fraction & E & V & D & N & Ls).
  destruct (dec_parses (dec_mantissa (dec_normalize d) <? 0) whole fraction d) as (d' & Hd & Hq); [done|done|lia|rewrite V; lia|done|done|].
  unfold canon_decimal. by rewrite E, Hd.
Qed.

Lemma canon_instant_spec i : instant_eqb (canon_instant i) i = true.
Proof.
  unfold canon_instant. destruct (instant_from_nanos (instant_nanos i)) as [i'|] eqn:E; [by apply instant_inverse|apply instant_eq].
Qed.

(** A result that is there when all timestamps are accepted. *)
Definition when_readable {A} (readable : bool) (a : A) : WResult A := if readable then WOk a else WErr invalid_temporal.

Definition lowers_at (d : Datum) : Prop :=
  wire_datum d -> lower_datum (dto_datum d) = when_readable (readable_datum d) (canon_datum d).

Lemma mapW_map {A B C} (f : B -> WResult C) (g : A -> B) (p : A -> bool) (h : A -> C) l :
  Forall (fun x => f (g x) = when_readable (p x) (h x)) l -> mapW f (map g l) = when_readable (forallb p l) (map h l).
Proof.
  induction 1 as [|x l Hx _ IH]; [done|]. cbn [map mapW forallb]. rewrite Hx. unfold when_readable in *.
  destruct (p x); cbn [wbind andb]; [|done]. rewrite IH. by destruct (forallb p l).
Qed.

Definition readable_entry (e : Datum * Datum) : bool := readable_datum (fst e) && readable_datum (snd e).

Lemma readable_map l : everywhere instant_readable (VMap l) = forallb readable_entry l.
Proof. cbn. induction l as [|[a b] l IH]; [done|]. cbn [forallb]. by rewrite IH. Qed.

Lemma readable_record m : everywhere instant_readable (VRecord m) = forallb (fun f => readable_datum (snd f)) m.
Proof. cbn. induction m as [|[n d] m IH]; [done|]. cbn [forallb snd]. by rewrite IH. Qed.

Lemma forallb_sorted {A} (p : A -> bool) cmp l : forallb p (sort_by cmp l) = forallb p l.
Proof.
  apply eq_true_iff_eq. rewrite !forallb_forall. setoid_rewrite <- list_elem_of_In. by setoid_rewrite sort_by_elem.
Qed.

Lemma lower_fields m acc : Forall (fun f => lower_datum (dto_datum (snd f)) = when_readable (readable_datum (snd f)) (canon_datum (snd f))) m ->
  NoDup (map fst acc ++ map fst m) ->
  foldW (fun record f =>
    let% d := lower_datum (snd f) in
    wguard (match bt_get (fst f) record with Some _ => false | None => true end) (WireNew InvalidValue) ;;%
    WOk (bt_insert (fst f) d record)) (map (fun f => (fst f, dto_datum (snd f))) m) (bt_collect acc) =
  when_readable (forallb (fun f => readable_datum (snd f)) m) (bt_collect (acc ++ map canon_field m)).
Proof.
  intros H. revert acc. induction H as [|[n d] m Hd _ IH]; intros acc Hn; cbn [map foldW fst snd forallb]; [by rewrite app_nil_r|].
  cbn [snd] in Hd. rewrite Hd. unfold when_readable at 1. destruct (readable_datum d); cbn [wbind andb]; [|done].
  destruct (bt_get n (bt_collect acc)) as [v|] eqn:E.
  - exfalso. apply bt_get_collect in E; [|by apply NoDup_app in Hn as [? _]]. apply NoDup_app in Hn as (_ & Hx & _).
    apply (Hx n); [by apply (list_elem_of_fmap_2 fst _ (n, v))|left].
  - cbn [wguard wbind]. rewrite <- bt_collect_snoc, IH; [by rewrite <- app_assoc|]. rewrite map_app, <- app_assoc. done.
Qed.

Lemma lower_dto_value v : Forall lowers_at (value_children v) -> wire_value v = true ->
  lower_value (dto_value v) = when_readable (everywhere instant_readable v) (canon_value v).
Proof.
  intros IH Hw. pose proof (wire_children v Hw) as C. apply everywhere_eq in Hw as [[Nr Nw]%andb_true_iff _].
  assert (IH' : Forall (fun d => lower_datum (dto_datum d) = when_readable (readable_datum d) (canon_datum d)) (value_children v)).
  { rewrite Forall_forall in *. intros d Hd. by apply IH, C. }
  clear IH C. destruct v as [b|t|i|u|b|b|d|c|s|b|u|d|t|l|i|d|l|l|l|m]; cbn [wire_node_value rust_node value_children] in *; try done.
  - by destruct t.
  - cbn [dto_value lower_value]. unfold lower_decimal. destruct (canon_decimal_spec d Nw) as [-> _].
    unfold decimal_ok in Nw. rewrite andb_true_iff, !in_range_spec in Nw. rewrite (proj2 (Z.leb_le _ _)) by lia. done.
  - cbn [dto_value lower_value]. unfold is_char. by rewrite Nr.
  - cbn [dto_value lower_value]. unfold lower_uuid. rewrite uuid_text_hyphenated by (by unfold uuid_ok in Nw; apply andb_true_iff in Nw as [?%Nat.eqb_eq _]).
    by rewrite uuid_parses.
  - cbn [dto_value lower_value]. unfold lower_date. unfold date_ok, in_range in Nw. rewrite Nw. cbn [wguard wbind]. by rewrite julian_inverse.
  - cbn [dto_value lower_value]. unfold lower_time. by rewrite hms_inverse.
  - apply andb_true_iff in Nw as [Nd Nt]. cbn [dto_value lower_value]. unfold lower_date, lower_time. pose proof Nd as Nd'.
    unfold date_ok, in_range in Nd'. rewrite Nd'. cbn [wguard wbind]. rewrite julian_inverse, hms_inverse by done. cbn [wok_or wbind]. by rewrite ldt_inverse.
  - cbn. unfold canon_instant. by destruct (instant_from_nanos (instant_nanos i)).
  - apply andb_true_iff in Nw as [_ Nw]. cbn [dto_value lower_value]. unfold lower_duration. unfold in_range in Nw. rewrite Nw. cbn [wguard wbind].
    by rewrite duration_inverse.
  - rewrite canon_list_eq. cbn [dto_value lower_value].
    change (wbind (mapW lower_datum (map dto_datum l)) (fun l => WOk (VList l)) = when_readable (forallb readable_datum l) (VList (map canon_datum l))).
    erewrite mapW_map by exact IH'. by destruct (forallb readable_datum l).
  - rewrite canon_map_eq, dto_map_eq, readable_map. cbn [lower_value].
    change (wbind (mapW (fun e => let% k := lower_datum (fst e) in let% v := lower_datum (snd e) in WOk (k, v)) (map dto_entry (sorted_entries l)))
      (fun l => WOk (VMap l)) = when_readable (forallb readable_entry l) (VMap (map canon_entry (sorted_entries l)))).
    rewrite <- (forallb_sorted readable_entry entry_order l).
    erewrite (mapW_map _ _ readable_entry); [by destruct (forallb _ _)|].
    rewrite Forall_flat_map in IH'. rewrite Forall_forall in *. intros e He%sort_by_elem.
    specialize (IH' e He) as [Hk [Hv _]%Forall_cons_1]%Forall_cons_1. cbn [dto_entry fst snd]. rewrite Hk, Hv. unfold readable_entry, canon_entry.
    by destruct (readable_datum (fst e)), (readable_datum (snd e)).
  - rewrite canon_tuple_eq. cbn [dto_value lower_value].
    change (wbind (mapW lower_datum (map dto_datum l)) (fun l => WOk (VTuple l)) = when_readable (forallb readable_datum l) (VTuple (map canon_datum l))).
    erewrite mapW_map by exact IH'. by destruct (forallb readable_datum l).
  - rewrite canon_record_eq, readable_record. cbn [dto_value lower_value]. rewrite Forall_map in IH'.
    assert (Es : bt_sorted (map canon_field m) = true) by (rewrite <- Nr; clear; induction m as [|[k v] [|[k' v'] m] IH]; [done..|]; cbn [map canon_field fst snd bt_sorted] in *; by rewrite IH).
    pose proof (lower_fields m [] IH' ltac:(by apply bt_sorted_nodup)) as E. change (bt_collect []) with (@nil (string * Datum)) in E.
    cbn [app] in E. rewrite (bt_collect_sorted _ Es) in E.
    match goal with |- wbind ?x _ = _ => replace x with (when_readable (forallb (fun f => readable_datum (snd f)) m) (map canon_field m)) by (symmetry; exact E) end.
    by destruct (forallb (fun f => readable_datum (snd f)) m).
Qed.

Lemma lower_dto_datum d : lowers_at d.
Proof.
  assert (G : forall v, wire_value v = true -> lower_value (dto_value v) = when_readable (everywhere instant_readable v) (canon_value v)).
  { intros v. induction v as [v IH] using value_ind'. intros Hw. apply lower_dto_value; [|done].
    eapply Forall_impl; [exact IH|]. intros [| |w] Hd; [done..|]. intros Hw'. cbn [dto_datum lower_datum canon_datum readable_datum]. rewrite (Hd Hw').
    by destruct (everywhere instant_readable w). }
  destruct d as [| |v]; [done..|]. intros Hw. cbn [dto_datum lower_datum canon_datum readable_datum]. rewrite (G v Hw).
  by destruct (everywhere instant_readable v).
Qed.

(** ** The canonical form is an equal datum *)
Definition eqb_kept (a : Value) : Prop := forall b, wire_value a = true -> wire_value b = true ->
  value_eqb (canon_value a) (canon_value b) = value_eqb a b.

Lemma eqb_kept_datum a b : on_datum eqb_kept a -> wire_datum a -> wire_datum b -> datum_eqb (canon_datum a) (canon_datum b) = datum_eqb a b.
Proof. destruct a, b; try done. intros H Ha Hb. by apply H. Qed.

Lemma eqb_swap {A} (eqb : A -> A -> bool) a a' b b' : EqbLaws eqb -> eqb a' a = true -> eqb b' b = true -> eqb a' b' = eqb a b.
Proof.
  intros [_ S T] Ha Hb. apply eq_true_iff_eq. split; intros H.
  - eapply T; [|exact Hb]. eapply T; [|exact H]. by apply S.
  - eapply T; [exact Ha|]. eapply T; [exact H|]. by apply S.
Qed.

Lemma forallb2_map {A} (f : A -> A -> bool) (g : A -> A) l1 l2 :
  Forall (fun x => Forall (fun y => f (g x) (g y) = f x y) l2) l1 -> forallb2 f (map g l1) (map g l2) = forallb2 f l1 l2.
Proof.
  intros H. revert l2 H. induction l1 as [|x l1 IH]; intros [|y l2]; cbn [map forallb2]; try done.
  intros [[Hx _]%Forall_cons_1 H]%Forall_cons_1. rewrite Hx. f_equal. apply IH. eapply Forall_impl; [exact H|].
  by intros z [_ Hz]%Forall_cons_1.
Qed.

Lemma maps_equal_kept l r : Forall (fun x => Forall (fun y => entry_eqb (canon_entry x) (canon_entry y) = entry_eqb x y) r) l ->
  maps_equal (map canon_entry (sorted_entries l)) (map canon_entry (sorted_entries r)) = maps_equal l r.
Proof.
  intros H. apply eq_true_iff_eq. rewrite !maps_equal_spec, !length_map. unfold sorted_entries. rewrite !sort_by_length.
  apply and_iff_compat_l. rewrite Forall_map, !Forall_forall. setoid_rewrite sort_by_elem. rewrite Forall_forall in H.
  apply forall_proper. intros x. split; intros Hx Hin; specialize (Hx Hin); specialize (H x Hin); rewrite Forall_forall in H.
  - apply Exists_exists in Hx as (y' & (y & -> & Hy%sort_by_elem)%elem_of_map & He). apply Exists_exists. exists y. split; [done|]. by rewrite <- H.
  - apply Exists_exists in Hx as (y & Hy & He). apply Exists_exists. exists (canon_entry y). split; [|by rewrite H].
    by apply (list_elem_of_fmap_2 canon_entry), sort_by_elem.
Qed.

Lemma canon_eqb a : eqb_kept a.
Proof.
  induction a as [a IH] using value_ind'. intros b Wa Wb. pose proof (wire_children a Wa) as Ca. pose proof (wire_children b Wb) as Cb.
  apply everywhere_eq in Wa as [[_ Na]%andb_true_iff _]. apply everywhere_eq in Wb as [[_ Nb]%andb_true_iff _].
  assert (P : Forall (fun x => Forall (fun y => datum_eqb (canon_datum x) (canon_datum y) = datum_eqb x y) (value_children b)) (value_children a)).
  { rewrite Forall_forall in *. intros x Hx. apply Forall_forall. intros y Hy. by apply eqb_kept_datum; auto. }
  clear IH Ca Cb. destruct a, b; try done; cbn [value_children wire_node_value] in *.
  - apply (eqb_swap dec_eqb); [apply decimal_eq|by apply canon_decimal_spec..].
  - apply (eqb_swap instant_eqb); [apply instant_eq|apply canon_instant_spec..].
  - by apply (forallb2_map datum_eqb).
  - rewrite !canon_map_eq, !value_eqb_map. apply maps_equal_kept. rewrite Forall_flat_map in P. rewrite Forall_forall in *.
    intros x Hx. specialize (P x Hx). rewrite !Forall_cons in P. destruct P as (P1 & P2 & _). rewrite Forall_flat_map in P1, P2.
    rewrite Forall_forall in *. intros y Hy. specialize (P1 y Hy). specialize (P2 y Hy). rewrite !Forall_cons in P1, P2.
    destruct P1 as (P1 & _), P2 as (_ & P2 & _). unfold entry_eqb. cbn [canon_entry fst snd]. by rewrite P1, P2.
  - by apply (forallb2_map datum_eqb).
  - rewrite !canon_record_eq, !value_eqb_record. apply forallb2_map. rewrite Forall_map in P. eapply Forall_impl; [exact P|].
    intros x Hx. rewrite Forall_map in Hx. eapply Forall_impl; [exact Hx|]. intros y E. unfold field_datum_eqb. cbn [canon_field fst snd]. by rewrite E.
Qed.

Lemma canon_datum_eqb a b : wire_datum a -> wire_datum b -> datum_eqb (canon_datum a) (canon_datum b) = datum_eqb a b.
Proof. apply eqb_kept_datum. destruct a; [done..|]. apply canon_eqb. Qed.

(** ** The canonical form is valid for the same types *)
Lemma pairs_perm {A} (R : A -> A -> Prop) l l' : (forall x y, x ∈ l -> y ∈ l -> R x y -> R y x) -> l ≡ₚ l' ->
  ForallOrdPairs R l -> ForallOrdPairs R l'.
Proof.
  intros S P. revert S. induction P as [|x l l' P IH|x y l|l1 l2 l3 P1 IH1 P2 IH2]; intros S H.
  - constructor.
  - inversion_clear H as [|? ? Hx Hl]. constructor; [by rewrite <- P|]. apply IH; [|done]. intros a b Ha Hb. apply S; by right.
  - inversion_clear H as [|? ? Hx Hl]. inversion_clear Hl as [|? ? Hy Hl']. apply Forall_cons in Hx as [Hyx Hx].
    constructor; [|by constructor]. constructor; [|done]. apply S; [left|right; left|done].
  - apply IH2; [|by apply IH1]. intros a b Ha Hb. apply S; by rewrite P1.
Qed.

Definition conforms_kept (ty : TypeDef) : Prop := forall v, conforms ty v -> wire_value v = true -> conforms ty (canon_value v).

Lemma nested_kept ty d : conforms_kept ty -> nested_conforms ty d -> wire_datum d -> nested_conforms ty (canon_datum d).
Proof. intros H. inversion 1; subst; intros Hw; [by constructor|]. apply nested_value. by apply H. Qed.

Lemma wire_rust v : wire_value v = true -> rust_value v = true.
Proof.
  induction v as [v IH] using value_ind'. intros [N C]%everywhere_eq. apply everywhere_eq. split; [by apply andb_true_iff in N as [? _]|].
  rewrite Forall_forall in *. intros [| |w] Hd; [done..|]. exact (IH (DValue w) Hd (C (DValue w) Hd)).
Qed.

Lemma get_canon n m : bt_get n (map canon_field m) = option_map canon_datum (bt_get n m).
Proof. induction m as [|[k d] m IH]; [done|]. cbn [map canon_field fst snd bt_get]. rewrite IH. by destruct (kcmp n k). Qed.

Lemma canon_conforms ty : conforms_kept ty.
Proof.
  induction ty as [k v s n p ps IH] using type_ind'. intros w Hw Ww. pose proof (wire_children w Ww) as C.
  inversion Hw as [? r|? e l E H|? kt vt l E H Hd|? es l E H|? fs m E H Hf];
    subst; cbn [ty_shape] in *; simplify_eq; cbn [shape_children value_children] in *.
  - apply (conforms_scalar _ r); [done|]. by destruct r, w.
  - rewrite Forall_singleton in IH. rewrite canon_list_eq. apply (conforms_list _ e); [done|]. apply Forall_map. rewrite Forall_forall in *.
    intros d Hin. apply nested_kept; auto.
  - rewrite Forall_cons, Forall_singleton in IH. destruct IH as [IHk IHv]. rewrite canon_map_eq. rewrite Forall_flat_map in C.
    assert (Ce : forall e, e ∈ l -> wire_datum (fst e) /\ wire_datum (snd e)).
    { rewrite Forall_forall in C. intros e He. specialize (C e He). rewrite !Forall_cons in C. tauto. }
    apply (conforms_map _ kt vt); [done| |].
    + apply Forall_map. rewrite Forall_forall in *. intros e He%sort_by_elem. specialize (H e He) as [? ?]. destruct (Ce e He).
      split; by apply nested_kept.
    + assert (Sy : forall x y : Datum * Datum, x ∈ l -> y ∈ l -> datum_eqb (fst x) (fst y) = false -> datum_eqb (fst y) (fst x) = false).
      { intros x y Hx Hy E2. apply not_true_iff_false. intros E3. apply not_true_iff_false in E2. apply E2.
        assert (Hs : Forall datum_sym_at [fst y]); [|rewrite Forall_singleton in Hs; by apply Hs].
        apply children_sym; rewrite Forall_singleton; [destruct (fst y); [done..|]; apply value_eqb_sym|].
        rewrite Forall_forall in H. apply (nested_keys_unique kt); [apply conforms_keys_unique|by apply H|].
        destruct (Ce y Hy) as [Cy _]. destruct (fst y); [done..|]. by apply wire_rust. }
      apply (pairs_perm _ l (sorted_entries l)) in Hd; [|exact Sy|symmetry; apply sort_by_perm].
      assert (Hin : forall e, e ∈ sorted_entries l -> e ∈ l) by (by intros e He%sort_by_elem).
      revert Hd Hin. generalize (sorted_entries l). clear -Ce L WL. intros r. induction 1 as [|x r Hx _ IH]; intros Hin; [constructor|].
      cbn [map]. constructor; [|apply IH; intros e He; apply Hin; by right]. apply Forall_map. rewrite Forall_forall in *. intros y Hy.
      cbn [canon_entry fst]. rewrite canon_datum_eqb; [by apply Hx|apply Ce, Hin; left|apply Ce, Hin; by right].
  - rewrite canon_tuple_eq. apply (conforms_tuple _ es); [done|]. clear -C IH H L WL. cbn [value_children] in C.
    induction H as [|e d es l Hed _ IHl]; [constructor|]. cbn [map]. rewrite !Forall_cons in *. destruct C, IH. constructor; [by apply nested_kept|auto].
  - rewrite canon_record_eq. apply (conforms_record _ fs); [done|by rewrite map_map|]. rewrite Forall_map in IH, C. rewrite Forall_forall in C. rewrite Forall_forall in Hf, IH |- *.
    intros f Hin. specialize (Hf f Hin) as [(d & Hg & Hd)|[Hg Ho]]; rewrite get_canon, Hg; [left|by right].
    exists (canon_datum d). split; [done|]. apply nested_kept; [by apply IH|done|]. apply bt_get_elem in Hg. exact (C _ Hg).
Qed.

Lemma canon_validates ty p d : wire_datum d -> validate_datum ty p d = Ok tt -> validate_datum ty p (canon_datum d) = Ok tt.
Proof.
  destruct d as [| |v]; [done..|]. cbn [validate_datum canon_datum]. intros Hw H. apply (validate_value_conforms ty).
  apply (validate_value_conforms ty) in H. by apply canon_conforms.
Qed.

(** ** The canonical form encodes to the same bytes *)
Definition bytes_kept (d : Datum) : Prop := datum_bytes (canon_datum d) = datum_bytes d.

Lemma entry_order_laws : CmpLaws entry_order.
Proof.
  assert (B : CmpLaws bytes_cmp) by (apply list_cmp_laws, (Sample.cmp_on_laws (fun z : Z => z))).
  split; unfold entry_order; intros; [apply B|apply B|by eapply (cmp_trans _ B)].
Qed.

Lemma sorted_canon l : Forall (fun e => bytes_kept (fst e)) l ->
  sorted_entries (map canon_entry (sorted_entries l)) = map canon_entry (sorted_entries l).
Proof.
  intros H. unfold sorted_entries at 1. rewrite <- (sort_by_map canon_entry entry_order entry_order).
  - f_equal. apply sort_by_idemp, entry_order_laws.
  - rewrite Forall_forall in H. intros a b Ha%sort_by_elem%H Hb%sort_by_elem%H. unfold entry_order. cbn [canon_entry fst]. by rewrite Ha, Hb.
Qed.

Lemma canon_entries_children (P : Datum -> Prop) l : Forall P (value_children (VMap l)) <-> Forall (fun e => P (fst e) /\ P (snd e)) l.
Proof.
  cbn [value_children]. rewrite Forall_flat_map. split; intros H; (eapply Forall_impl; [exact H|]); intros e; rewrite !Forall_cons; [tauto|].
  intros [? ?]. by split_and!; [| |constructor].
Qed.

Lemma canon_bytes_at v : Forall (fun d => wire_datum d -> bytes_kept d) (value_children v) ->
  wire_value v = true -> value_bytes (canon_value v) = value_bytes v.
Proof.
  intros IH Ww. pose proof (wire_children v Ww) as C. apply everywhere_eq in Ww as [[_ N]%andb_true_iff _].
  assert (P : Forall bytes_kept (value_children v)) by (rewrite Forall_forall in *; auto).
  assert (Pl : forall l, Forall bytes_kept l -> flat_map datum_bytes (map canon_datum l) = flat_map datum_bytes l).
  { induction 1 as [|d l E _ IHl]; [done|]. cbn [map flat_map]. by rewrite E, IHl. }
  clear IH C. destruct v; try done; cbn [value_children wire_node_value] in *.
  - destruct (canon_decimal_spec d N) as [_ [E1 E2]%normalize_eq]. cbn [canon_value value_bytes]. by rewrite E1, E2.
  - pose proof (instant_nanos_eq _ _ (canon_instant_spec i)) as E. cbn [canon_value value_bytes]. by rewrite E.
  - rewrite canon_list_eq. cbn [value_bytes]. unfold count_bytes, zlen. rewrite length_map. do 2 f_equal. exact (Pl l P).
  - rewrite canon_map_eq, !map_bytes_eq. unfold count_bytes, zlen. rewrite length_map. unfold sorted_entries at 1. rewrite sort_by_length. do 2 f_equal.
    apply canon_entries_children in P. rewrite sorted_canon by (eapply Forall_impl; [exact P|by intros e []]).
    assert (P' : Forall (fun e => bytes_kept (fst e) /\ bytes_kept (snd e)) (sorted_entries l)).
    { rewrite Forall_forall in P |- *. intros e He%sort_by_elem. by apply P. }
    clear P. induction P' as [|e r [E1 E2] _ IH]; [done|]. cbn [map flat_map canon_entry fst snd]. by rewrite E1, E2, IH.
  - rewrite canon_tuple_eq. cbn [value_bytes]. unfold count_bytes, zlen. rewrite length_map. do 2 f_equal. exact (Pl l P).
  - rewrite canon_record_eq. cbn [value_bytes]. unfold count_bytes, zlen. rewrite length_map. do 2 f_equal. rewrite Forall_map in P.
    change (flat_map (fun f => string_bytes (fst f) ++ datum_bytes (snd f)) (map canon_field m) = flat_map (fun f => string_bytes (fst f) ++ datum_bytes (snd f)) m).
    clear N. induction P as [|f m E _ IHm]; [done|]. cbn [map flat_map canon_field fst snd]. by rewrite E, IHm.
Qed.

Lemma canon_bytes d : wire_datum d -> bytes_kept d.
Proof.
  destruct d as [| |v]; [done..|]. intros Hw. unfold bytes_kept. cbn [canon_datum datum_bytes]. f_equal. revert Hw.
  induction v as [v IH] using value_ind'. apply canon_bytes_at. eapply Forall_impl; [exact IH|].
  intros [| |w] Hd; [done..|]. intros Hw. unfold bytes_kept. cbn [canon_datum datum_bytes]. f_equal. by apply Hd.
Qed.

(** *** Encoding it succeeds as well *)
Context (limits : DecodeLimits).
Definition enc_kept (e e' : Enc) : Prop := forall s s', e s = WOk s' -> e' s = WOk s'.

Lemma kept_refl e : enc_kept e e.
Proof. by intros s s'. Qed.

Lemma kept_seq a a' b b' : enc_kept a a' -> enc_kept b b' -> enc_kept (a ;;> b) (a' ;;> b').
Proof. intros Ha Hb s s' (s1 & E1%Ha & E2%Hb)%wbind_ok. apply wbind_ok. by exists s1. Qed.

Lemma kept_each {A} (f : A -> Enc) (g : A -> A) l : Forall (fun x => enc_kept (f x) (f (g x))) l -> enc_kept (enc_each f l) (enc_each f (map g l)).
Proof. induction 1 as [|x l Hx _ IH]; [apply kept_refl|]. cbn [map enc_each]. by apply kept_seq. Qed.

Definition datum_kept (d : Datum) : Prop := forall depth, enc_kept (enc_datum limits d depth) (enc_datum limits (canon_datum d) depth).

Lemma keys_kept depth l : Forall (fun e => bytes_kept (fst e) /\ datum_kept (fst e)) l -> keys_fit limits depth l ->
  keys_fit limits depth (map canon_entry (sorted_entries l)).
Proof.
  intros H [Hf Hk]. split.
  - intros Hne. destruct Hf as [Hh Ht]; [intros ->; by apply Hne|]. split; [done|].
    assert (E : keys_total (map canon_entry (sorted_entries l)) = keys_total l); [|lia]. unfold keys_total, zlen.
    transitivity (Z.of_nat (length (flat_map (fun e : Datum * Datum => datum_bytes (fst e)) (sorted_entries l)))).
    + do 2 f_equal. assert (H' : Forall (fun e : Datum * Datum => bytes_kept (fst e)) (sorted_entries l)).
      { rewrite Forall_forall in H |- *. intros e He%sort_by_elem. by apply H. }
      clear -H'. induction H' as [|e r E _ IH]; [done|]. cbn [map flat_map canon_entry fst]. by rewrite E, IH.
    + f_equal. rewrite !flat_map_concat_map. apply Permutation_length. unfold sorted_entries. by rewrite sort_by_perm.
  - apply Forall_map. rewrite Forall_forall in *. intros e He%sort_by_elem. destruct (Hk e He) as [s Hs]. exists s. destruct (H e He) as [_ K]. by apply K.
Qed.

Lemma canon_encodes_at v depth : Forall (fun d => wire_datum d -> datum_kept d) (value_children v) -> wire_value v = true ->
  enc_kept (enc_value limits v depth) (enc_value limits (canon_value v) depth).
Proof.
  intros IH Ww. pose proof (wire_children v Ww) as C. apply everywhere_eq in Ww as [[_ N]%andb_true_iff _].
  assert (P : Forall datum_kept (value_children v)) by (rewrite Forall_forall in *; auto).
  assert (Pl : forall l, Forall datum_kept l -> enc_kept (enc_count limits (length l) ;;> enc_capacity limits (length l) ;;>
      enc_each (fun d => enc_datum limits d (depth + 1)) l)
    (enc_count limits (length (map canon_datum l)) ;;> enc_capacity limits (length (map canon_datum l)) ;;>
      enc_each (fun d => enc_datum limits d (depth + 1)) (map canon_datum l))).
  { intros l Hl. rewrite length_map. do 2 (apply kept_seq; [apply kept_refl|]). apply kept_each. eapply Forall_impl; [exact Hl|]. intros d Hd. apply Hd. }
  clear IH. destruct v; try apply kept_refl; cbn [value_children wire_node_value] in *.
  - destruct (canon_decimal_spec d N) as [_ [E1 E2]%normalize_eq]. cbn [canon_value enc_value]. rewrite E1, E2. apply kept_refl.
  - pose proof (instant_nanos_eq _ _ (canon_instant_spec i)) as E. cbn [canon_value enc_value]. rewrite E. apply kept_refl.
  - rewrite canon_list_eq. apply kept_seq; [apply kept_refl|]. exact (Pl l P).
  - rewrite canon_map_eq. apply kept_seq; [apply kept_refl|]. apply canon_entries_children in P. apply canon_entries_children in C.
    change (enc_kept (enc_map limits (map (key_encoders limits (depth + 1)) l))
      (enc_map limits (map (key_encoders limits (depth + 1)) (map canon_entry (sorted_entries l))))).
    intros s s' [Hf He]%enc_map_spec; [|apply Forall_forall; intros e _; apply datum_puts].
    apply enc_map_spec; [apply Forall_forall; intros e _; apply datum_puts|].
    assert (B : Forall (fun e => bytes_kept (fst e)) l) by (rewrite Forall_forall in *; intros e Hin; by apply canon_bytes, C).
    split; [apply keys_kept; [|done]; rewrite Forall_forall in *; intros e Hin; split; [by apply B|by apply P]|].
    rewrite sorted_canon by done. rewrite length_map. unfold sorted_entries at 1 2. rewrite sort_by_length. revert s s' He.
    change (enc_kept (enc_count limits (length l) ;;> enc_capacity limits (length l * 2) ;;> enc_each (enc_entry limits (depth + 1)) (sorted_entries l))
      (enc_count limits (length l) ;;> enc_capacity limits (length l * 2) ;;> enc_each (enc_entry limits (depth + 1)) (map canon_entry (sorted_entries l)))).
    do 2 (apply kept_seq; [apply kept_refl|]). apply kept_each. rewrite Forall_forall in *. intros e Hin%sort_by_elem. apply kept_seq; by apply P.
  - rewrite canon_tuple_eq. apply kept_seq; [apply kept_refl|]. exact (Pl l P).
  - rewrite canon_record_eq. apply kept_seq; [apply kept_refl|]. rewrite length_map. do 2 (apply kept_seq; [apply kept_refl|]). rewrite Forall_map in P.
    apply (kept_each (fun f => enc_string limits (fst f) ;;> enc_datum limits (snd f) (depth + 1))). eapply Forall_impl; [exact P|].
    intros f Hf. apply kept_seq; [apply kept_refl|]. apply Hf.
Qed.

Lemma canon_encodes d : wire_datum d -> datum_kept d.
Proof.
  destruct d as [| |v]; [intros _ ?; apply kept_refl..|]. intros Hw depth. unfold enc_datum. cbn [canon_datum]. do 2 (apply kept_seq; [apply kept_refl|]). revert depth Hw.
  induction v as [v IH] using value_ind'. intros depth. apply canon_encodes_at. eapply Forall_impl; [exact IH|].
  intros [| |w] Hd; [intros _ ?; apply kept_refl..|]. intros Hw depth'. unfold enc_datum. cbn [canon_datum]. do 2 (apply kept_seq; [apply kept_refl|]). by apply Hd.
Qed.
End Canon.

(** ** Typed datums over the wire *)

(** C24: an encoded typed datum decodes to the same type and presence and to
    the canonical form of the datum when the timestamps of its instants are
    those the crate accepts, and is refused as an invalid value when one is
    not; the canonical form is valid, encodes to the same bytes and compares
    with every other datum like the original; and whatever decodes is the
    canonical encoding of the result. *)
Theorem typed_datum_roundtrip {F : Foreign} {W : WireForeign F} (L : ForeignLaws F) (WL : WireForeignLaws W) limits ty p d bytes :
  dl_total_bytes limits <= u64_max -> built ty -> wire_type ty -> wire_datum d ->
  encode_typed_datum_with_limits limits ty p d = WOk bytes ->
  decode_typed_datum limits bytes =
    (if readable_datum d then WOk (mkTypedDatum ty p (canon_datum d)) else WErr (WireNew InvalidValue)) /\
  encode_typed_datum_with_limits limits ty p (canon_datum d) = WOk bytes /\
  validate_datum ty p (canon_datum d) = Ok tt /\
  (forall d', wire_datum d' -> datum_eqb (canon_datum d) (canon_datum d') = datum_eqb d d') /\
  (forall bytes' value, decode_typed_datum limits bytes' = WOk value ->
     encode_typed_datum_with_limits limits (td_ty value) (td_presence value) (td_datum value) = WOk bytes').
Proof.
  intros Hu Hb Hw Hd He. pose proof He as [Ht [Hv Hf]%wcheck]%wcheck. apply core_ok in Ht, Hv.
  assert (Hc : encode_typed_datum_with_limits limits ty p (canon_datum d) = WOk bytes).
  { unfold encode_typed_datum_with_limits. apply wcheck. split; [by apply core_ok|]. apply wcheck. split; [by apply core_ok, canon_validates|].
    apply wbind_ok in Hf as (s0 & H0 & (s & Hs & Hf)%wbind_ok). apply wbind_ok. exists s0. split; [done|]. apply wbind_ok. exists s. split; [|done].
    revert Hs. apply kept_seq; [apply kept_refl|]. apply kept_seq; [apply kept_refl|]. by apply canon_encodes. }
  split; [|split; [done|split; [by apply canon_validates|split; [by intros d' Hd'; apply canon_datum_eqb|]]]].
  - unfold decode_typed_datum. erewrite (decode_encoded limits); [|eapply codes_bind; [apply codes_type; [apply levels_fueled|done]|
      eapply codes_bind; [apply codes_bool|apply codes_map, codes_datum; [apply levels_fueled|done]]]|done|exact Hf].
    cbn [wbind]. unfold lower_typed_datum. rewrite lower_type_dto by done. cbn [wbind]. rewrite lower_dto_datum by done.
    unfold when_readable. destruct (readable_datum d); [|done]. cbn [wbind].
    replace (presence_of (match p with Optional => true | Required => false end)) with p by (by destruct p).
    rewrite (canon_validates ty p d) by done. cbn [core wbind]. rewrite Hc. cbn [wbind].
    by rewrite (proj2 (require_canonical_ok bytes bytes tt) eq_refl).
  - intros bytes' value (dto & _ & H)%wbind_ok. destruct dto as [[ty' optional] d']. apply wbind_ok in H as ([[ty2 p2] d2] & _ & H).
    apply wbind_ok in H as (canonical & Hcan & [->%require_canonical_ok <-%wok_inj]%wcheck). done.
Qed.

Definition sample_wire_datum : @Datum sample_foreign :=
  DValue (VMap [(DValue (VString "b"), DValue (@VDecimal sample_foreign (Sample.mkDec (-150) 2))); (DValue (VString "a"), Null)]).
Definition sample_wire_map : TypeDef :=
  shaped "app/prices" 1 (ShMap (scalar "dol/string" 1 RString) (nullable (scalar "dol/decimal" 1 RDecimal))).

(** The instant 9999-12-31T23:59:59-01:00, which is in the year 10000 of UTC. *)
Definition late_instant : @Datum sample_foreign := DValue (@VInstant sample_foreign 253402304399000000000).
Definition late_type : TypeDef := scalar "dol/instant" 1 RInstant.

Lemma typed_datum_roundtrip_witness :
  (exists bytes,
     encode_typed_datum_with_limits default_decode_limits sample_wire_map Required sample_wire_datum = WOk bytes /\
     decode_typed_datum default_decode_limits bytes =
       WOk (mkTypedDatum sample_wire_map Required (canon_datum sample_wire_datum))) /\
  exists bytes,
    encode_typed_datum_with_limits default_decode_limits late_type Required late_instant = WOk bytes /\
    decode_typed_datum (F:=sample_foreign) (W:=sample_wire_foreign) default_decode_limits bytes = WErr (WireNew InvalidValue).
Proof.
  split.
  - destruct (encode_typed_datum_with_limits default_decode_limits sample_wire_map Required sample_wire_datum) as [bytes|] eqn:E;
      [|vm_compute in E; discriminate E].
    exists bytes. split; [done|].
    apply (typed_datum_roundtrip sample_laws sample_wire_laws default_decode_limits sample_wire_map Required sample_wire_datum bytes).
    + vm_compute. discriminate.
    + split; [reflexivity|]. repeat constructor.
    + repeat constructor; cbn; lia.
    + reflexivity.
    + exact E.
  - destruct (encode_typed_datum_with_limits default_decode_limits late_type Required late_instant) as [bytes|] eqn:E;
      [|vm_compute in E; discriminate E].
    exists bytes. split; [done|].
    apply (typed_datum_roundtrip sample_laws sample_wire_laws default_decode_limits late_type Required late_instant bytes).
    + vm_compute. discriminate.
    + split; [reflexivity|]. repeat constructor.
    + repeat constructor; cbn; lia.
    + reflexivity.
    + exact E.
Defined.
