(* ===== verification/WireModels.v ===== *)
(** * Models over the wire

    Decoding an encoded model declares it again: the outcome is the model
    itself exactly when it freezes under the wire limits. *)
From Stdlib Require Import ZArith Lia.
From stdpp Require Import list.
From S2P Require Import Prelude Foreign BTree Text Types Values Fingerprint Model Wire WireEncode WireDecode WireCodec WireTypes.

Local Open Scope Z_scope.

(** ** What Rust's types and the builder say of a model *)
Definition wire_field (f : FieldDef) : Prop := str_ok (fd_key f) /\ str_ok (fd_name f) /\ wire_type (fd_ty f) /\ built (fd_ty f).
Definition wire_relation (r : RelationDef) : Prop :=
  str_ok (rel_key r) /\ str_ok (rel_name r) /\ str_ok (rel_target_model r) /\
  Forall (fun p => str_ok (fst p) /\ str_ok (snd p)) (rel_fields r) /\
  relation_new (rel_key r) (rel_name r) (rel_target_model r) (rel_cardinality r) (rel_fields r) = r.
Definition wire_reference (r : ReferenceDef) : Prop :=
  Forall str_ok (ref_source_fields r) /\ str_ok (ref_target_model r) /\ Forall str_ok (ref_target_fields r) /\
  reference_new (ref_source_fields r) (ref_target_model r) (ref_target_fields r) = r.

Definition wire_model (m : ModelDef) : Prop :=
  str_ok (md_key m) /\ str_ok (md_name m) /\ Forall wire_field (md_fields m) /\
  Forall str_ok (default [] (md_identity m)) /\ Forall (Forall str_ok) (md_unique m) /\
  Forall wire_relation (md_relations m) /\ Forall wire_reference (md_references m).

(** ** DTOs of models *)
Definition dto_field (f : FieldDef) : FieldDto := mkFieldDto (fd_key f) (fd_name f) (is_optional (fd_presence f)) (dto_type (fd_ty f)).
Definition dto_relation (r : RelationDef) : RelationDto :=
  mkRelationDto (rel_key r) (rel_name r) (rel_target_model r) (cardinality_tag (rel_cardinality r)) (rel_fields r).
Definition dto_reference (r : ReferenceDef) : ReferenceDto :=
  mkReferenceDto (ref_source_fields r) (ref_target_model r) (ref_target_fields r).
Definition dto_model (m : ModelDef) : ModelDto :=
  mkModelDto (md_key m) (md_name m) (map dto_field (md_fields m)) (md_identity m) (md_unique m)
    (map dto_relation (md_relations m)) (map dto_reference (md_references m)).

Section Codec.
Context (limits : DecodeLimits).
Ltac tag := cbv beta; cbn [Z.eqb Pos.eqb].

Lemma codes_string_keys keys depth : Forall str_ok keys ->
  codes 4 (enc_string_keys limits keys depth) (dec_string_keys limits depth) keys.
Proof.
  intros H. rewrite <- (map_id keys) at 2.
  apply (codes_all_items limits 4 4 (fun n => n) (fun key => enc_node limits (depth + 2) ;;> enc_string limits key)); [lia|].
  eapply Forall_impl; [exact H|]. intros key Hk. eapply (codes_weaken (0 + 4)); [lia|]. eapply codes_bind; [apply codes_node|by apply codes_string].
Qed.

Lemma codes_field depth f : 0 <= depth -> wire_field f -> codes 24 (enc_field limits depth f) (dec_field limits depth) (dto_field f).
Proof.
  intros Hd (Hk & Hn & Ht & _). unfold enc_field, dec_field. eapply (codes_weaken (0 + (4 + (4 + (1 + 15))))); [lia|].
  eapply codes_bind; [apply codes_node|]. eapply codes_bind; [by apply codes_string|]. eapply codes_bind; [by apply codes_string|].
  eapply codes_bind; [apply codes_bool|]. apply codes_enc_check. intros _.
  eapply codes_then; [apply codes_type; [apply levels_fueled_deeper; lia|done]|]. apply codes_ret.
Qed.

Lemma codes_relation depth r : wire_relation r -> codes 17 (enc_relation limits depth r) (dec_relation limits depth) (dto_relation r).
Proof.
  intros (Hk & Hn & Ht & Hf & _). unfold enc_relation, dec_relation. eapply (codes_weaken (0 + (4 + (4 + (4 + (1 + 4)))))); [lia|].
  eapply codes_bind; [apply codes_node|]. do 3 (eapply codes_bind; [by apply codes_string|]). eapply codes_bind; [apply codes_u8|].
  apply (codes_last_items limits 8 8 (fun n => n) (fun pair => enc_node limits (depth + 2) ;;> enc_string limits (fst pair) ;;> enc_string limits (snd pair))
    (dec_node limits (depth + 2) ;;^ let^ source := dec_string limits in let^ target := dec_string limits in dret (source, target))
    (fun p => p)); [lia| |rewrite map_id; apply codes_ret].
  eapply Forall_impl; [exact Hf|]. intros [s t] [Hs Ht']. eapply (codes_weaken (0 + (4 + 4))); [lia|].
  eapply codes_bind; [apply codes_node|]. eapply codes_bind; [by apply codes_string|]. eapply codes_then; [by apply codes_string|apply codes_ret].
Qed.

Lemma codes_reference depth r : wire_reference r -> codes 12 (enc_reference limits depth r) (dec_reference limits depth) (dto_reference r).
Proof.
  intros (Hs & Hm & Ht & _). unfold enc_reference, dec_reference. eapply (codes_weaken (0 + (4 + (4 + 4)))); [lia|].
  eapply codes_bind; [apply codes_node|]. eapply codes_bind; [by apply codes_string_keys|]. eapply codes_bind; [by apply codes_string|].
  eapply codes_then; [by apply codes_string_keys|apply codes_ret].
Qed.

Lemma codes_identity depth identity : Forall str_ok (default [] identity) ->
  codes 1 (match identity with None => enc_u8 limits 0 | Some keys => enc_u8 limits 1 ;;> enc_string_keys limits keys depth end)
    (dec_identity limits depth) identity.
Proof.
  intros H. unfold dec_identity. apply codes_offset. intros off. destruct identity as [keys|].
  - apply (codes_weaken (1 + 4)); [lia|]. eapply codes_bind; [apply codes_u8|tag]. eapply codes_then; [by apply codes_string_keys|apply codes_ret].
  - eapply codes_then; [apply codes_u8|tag; apply codes_ret].
Qed.

Lemma codes_unique depth unique : Forall str_ok unique ->
  codes 4 (enc_node limits (depth + 1) ;;> enc_string_keys limits unique depth) (dec_node limits (depth + 1) ;;^ dec_string_keys limits depth) unique.
Proof. intros H. eapply (codes_weaken (0 + 4)); [lia|]. eapply codes_bind; [apply codes_node|by apply codes_string_keys]. Qed.

Lemma codes_model m depth : 0 <= depth -> wire_model m -> codes 8 (enc_model limits m depth) (dec_model limits depth) (dto_model m).
Proof.
  intros Hd (Hk & Hn & Hf & Hi & Hu & Hr & He). unfold enc_model, dec_model.
  eapply (codes_weaken (0 + (4 + (4 + (4 + (1 + (4 + (4 + 4)))))))); [lia|].
  eapply codes_bind; [apply codes_node|]. do 2 (eapply codes_bind; [by apply codes_string|]).
  apply (codes_items limits 11 24 (fun n => n) (enc_field limits depth) (dec_field limits depth) dto_field); [lia|lia| |].
  { eapply Forall_impl; [exact Hf|]. intros f. by apply codes_field. }
  eapply codes_bind; [by apply codes_identity|].
  apply (codes_items limits 4 4 (fun n => n) _ _ (fun u => u)); [lia|lia| |].
  { eapply Forall_impl; [exact Hu|]. intros u. apply codes_unique. }
  rewrite map_id.
  apply (codes_items limits 16 17 (fun n => n) _ _ dto_relation); [lia|lia| |].
  { eapply Forall_impl; [exact Hr|]. intros r. apply codes_relation. }
  apply (codes_last_items limits 12 12 (fun n => n) _ _ dto_reference); [lia| |apply codes_ret].
  eapply Forall_impl; [exact He|]. intros r. apply codes_reference.
Qed.

(** ** Lowering declares the model again *)
Definition spec_of (f : FieldDef) : FieldSpec := mkFieldSpec (fd_key f) (fd_name f) (fd_ty f) (fd_presence f).
Definition redeclared (m : ModelDef) : ModelBuilder :=
  mkModelBuilder (md_key m) (md_name m) (map spec_of (md_fields m)) (md_identity m) false (md_unique m) (md_relations m)
    (md_references m) (definition_limits limits).

Lemma lower_fields_dto fs b : Forall wire_field fs -> Forall (fun f => validate_type (fd_ty f) (definition_limits limits) = Ok tt) fs ->
  foldW (lower_field limits) (map dto_field fs) b =
  WOk (mkModelBuilder (mb_key b) (mb_name b) (mb_fields b ++ map spec_of fs) (mb_identity b) (mb_identity_redeclared b)
         (mb_unique b) (mb_relations b) (mb_references b) (mb_limits b)).
Proof.
  intros H. revert b. induction H as [|f fs (Hk & Hn & Ht & Hb) _ IH]; intros b; [intros _; rewrite app_nil_r; by destruct b|].
  intros [Hv Hvs]%Forall_cons. cbn [map foldW]. unfold lower_field at 1. cbn [dto_field fdto_ty fdto_key fdto_name fdto_optional].
  rewrite lower_type_dto by done. cbn [wbind]. rewrite IH by done. cbn [builder_field_def mb_key mb_name mb_fields mb_identity
    mb_identity_redeclared mb_unique mb_relations mb_references mb_limits]. rewrite <- app_assoc. cbn [app].
  replace (mkFieldSpec (fd_key f) (fd_name f) (canonicalize (fd_ty f)) (presence_of (is_optional (fd_presence f)))) with (spec_of f); [done|].
  unfold spec_of. destruct Hb as [-> _]. by destruct (fd_presence f).
Qed.

Lemma lower_relations_dto rs b : Forall wire_relation rs -> foldW lower_relation (map dto_relation rs) b =
  WOk (mkModelBuilder (mb_key b) (mb_name b) (mb_fields b) (mb_identity b) (mb_identity_redeclared b)
         (mb_unique b) (mb_relations b ++ rs) (mb_references b) (mb_limits b)).
Proof.
  intros H. revert b. induction H as [|r rs (_ & _ & _ & _ & E) _ IH]; intros b; [rewrite app_nil_r; by destruct b|].
  cbn [map foldW]. unfold lower_relation at 1. cbn [dto_relation rdto_key rdto_name rdto_target_model rdto_cardinality rdto_fields].
  replace (lower_cardinality (cardinality_tag (rel_cardinality r))) with (WOk (rel_cardinality r)) by (by destruct (rel_cardinality r)).
  cbn [wbind]. rewrite E, IH. cbn [builder_relation mb_key mb_name mb_fields mb_identity
    mb_identity_redeclared mb_unique mb_relations mb_references mb_limits]. by rewrite <- app_assoc.
Qed.

Lemma lower_unique us b : fold_left builder_unique us b =
  mkModelBuilder (mb_key b) (mb_name b) (mb_fields b) (mb_identity b) (mb_identity_redeclared b)
    (mb_unique b ++ us) (mb_relations b) (mb_references b) (mb_limits b).
Proof.
  revert b. induction us as [|u us IH]; intros b; [rewrite app_nil_r; by destruct b|]. cbn [fold_left]. rewrite IH.
  cbn [builder_unique mb_key mb_name mb_fields mb_identity mb_identity_redeclared mb_unique mb_relations mb_references mb_limits].
  by rewrite <- app_assoc.
Qed.

Lemma lower_references rs b : Forall wire_reference rs ->
  fold_left (fun b r => builder_reference b (fdto_source_fields r) (fdto_target_model r) (fdto_target_fields r)) (map dto_reference rs) b =
  mkModelBuilder (mb_key b) (mb_name b) (mb_fields b) (mb_identity b) (mb_identity_redeclared b)
    (mb_unique b) (mb_relations b) (mb_references b ++ rs) (mb_limits b).
Proof.
  intros H. revert b. induction H as [|r rs (_ & _ & _ & E) _ IH]; intros b; [rewrite app_nil_r; by destruct b|]. cbn [map fold_left]. rewrite IH.
  unfold builder_reference. cbn [dto_reference fdto_source_fields fdto_target_model fdto_target_fields
    mb_key mb_name mb_fields mb_identity mb_identity_redeclared mb_unique mb_relations mb_references mb_limits].
  by rewrite E, <- app_assoc.
Qed.

Context {F : Foreign}.

Lemma lower_dto_model m : wire_model m -> Forall (fun f => validate_type (fd_ty f) (definition_limits limits) = Ok tt) (md_fields m) ->
  lower_model limits (dto_model m) = core (freeze (redeclared m)).
Proof.
  intros (_ & _ & Hf & _ & _ & Hr & He) Hv. unfold lower_model. cbn [dto_model mdto_key mdto_name mdto_fields mdto_identity mdto_unique
    mdto_relations mdto_references]. rewrite lower_fields_dto by done. cbn [wbind]. rewrite lower_unique, lower_relations_dto by done. cbn [wbind].
  rewrite lower_references by done. do 2 f_equal. unfold redeclared. by destruct (md_identity m).
Qed.
End Codec.

(** ** Declaring a frozen model again changes nothing *)
Section Dedup.
Context {A : Type} `{EqDecision A}.
Local Notation dd := (dedup (fun a b : A => bool_decide (a = b))).

Lemma dedup_cons x y l : dd (x :: y :: l) = if decide (x = y) then dd (y :: l) else x :: dd (y :: l).
Proof. cbn [dedup]. case_bool_decide; by destruct (decide (x = y)). Qed.

Lemma dedup_head x l : exists r, dd (x :: l) = x :: r.
Proof.
  revert x. induction l as [|y l IH]; intros x; [by exists []|]. rewrite dedup_cons. destruct (decide (x = y)) as [->|]; [apply IH|by eexists].
Qed.

Lemma dedup_idemp l : dd (dd l) = dd l.
Proof.
  destruct l as [|x l]; [done|]. revert x. induction l as [|y l IH]; intros x; [done|]. rewrite dedup_cons. destruct (decide (x = y)) as [|Hne]; [done|].
  destruct (dedup_head y l) as [r E]. pose proof (IH y) as H. rewrite E in H |- *. rewrite dedup_cons. destruct (decide (x = y)); [done|]. by rewrite H.
Qed.

Lemma dedup_elem l z : z ∈ dd l -> z ∈ l.
Proof. apply dedup_incl. Qed.

Lemma dedup_sorted R l : StronglySorted R l -> StronglySorted R (dd l).
Proof.
  induction 1 as [|x l Hs IH Hx]; [constructor|]. destruct l as [|y l]; [repeat constructor|]. rewrite dedup_cons.
  destruct (decide (x = y)); [done|]. constructor; [done|]. rewrite Forall_forall in *. intros z Hz%dedup_elem. by apply Hx.
Qed.
End Dedup.

Lemma sort_keys_idemp l : sort_keys (sort_keys l) = sort_keys l.
Proof. apply sort_by_idemp, str_cmp_laws. Qed.

Section Redeclared.
Context {F : Foreign} (limits : DecodeLimits).

Lemma frozen_specs fs : map spec_of (imap frozen_field fs) = fs.
Proof. transitivity (map (fun f : FieldSpec => f) fs); [|apply map_id]. apply map_imap_frozen. by intros i []. Qed.

Lemma redeclared_parts b m : freeze b = Ok m -> from_parts (frozen_parts (redeclared limits m)) = m.
Proof.
  intros (-> & _)%freeze_ok. f_equal. unfold frozen_parts, redeclared.
  cbn [builder_canonicalize mb_key mb_name mb_fields mb_identity mb_unique mb_relations mb_references from_parts
    md_key md_name md_fields md_identity md_unique md_relations md_references mp_key mp_name mp_fields mp_identity mp_unique mp_relations mp_references].
  rewrite frozen_specs, (sort_by_idemp spec_cmp) by apply spec_cmp_laws. f_equal.
  - destruct (mb_identity b); [|done]. cbn [option_map]. f_equal. apply sort_keys_idemp.
  - set (us := dedup (fun a b => bool_decide (a = b)) (sort_by keys_cmp (map sort_keys (mb_unique b)))).
    assert (Hu : forall u, u ∈ us -> sort_keys u = u).
    { intros u (v & -> & _)%dedup_elem%sort_by_elem%elem_of_map. apply sort_keys_idemp. }
    assert (Ei : forall l : list (list string), (forall u, u ∈ l -> sort_keys u = u) -> map sort_keys l = l).
    { intros l Hl. rewrite <- (map_id l) at 2. apply map_ext_in. intros u Hin%list_elem_of_In. by apply Hl. }
    change unique_new with sort_keys. rewrite (Ei us Hu), (Ei us Hu).
    rewrite (sort_by_id keys_cmp us) by (apply dedup_sorted, sort_by_sorted, keys_cmp_laws). subst us. by rewrite dedup_idemp, (Ei _ Hu).
  - apply sort_by_idemp, relation_cmp_laws.
  - rewrite (sort_by_id reference_cmp) by (apply dedup_sorted, sort_by_sorted, reference_cmp_laws). apply dedup_idemp.
Qed.

Lemma refrozen b m m' : freeze b = Ok m -> freeze (redeclared limits m) = Ok m' -> m' = m.
Proof. intros Hb [-> _]%freeze_ok. by apply (redeclared_parts b). Qed.

Lemma enc_each_ok {A} (f : A -> Enc) l s s' : enc_each f l s = WOk s' -> Forall (fun x => exists t t', f x t = WOk t') l.
Proof.
  revert s. induction l as [|x l IH]; intros s; [constructor|]. intros (s1 & E & H)%wbind_ok. constructor; [by exists s, s1|by eapply IH].
Qed.

Lemma encoded_fields_valid m s s' : enc_model limits m 0 s = WOk s' ->
  Forall (fun f => validate_type (fd_ty f) (definition_limits limits) = Ok tt) (md_fields m).
Proof.
  unfold enc_model. intros H. do 5 (apply wbind_ok in H as (? & _ & H)). apply wbind_ok in H as (s1 & He & _).
  apply enc_each_ok in He. eapply Forall_impl; [exact He|]. intros f (t & t' & Hf). unfold enc_field in Hf.
  do 4 (apply wbind_ok in Hf as (? & _ & Hf)). apply wbind_ok in Hf as (? & [Hv%core_ok _]%wcheck & _). done.
Qed.
End Redeclared.

(** C25: decoding the encoding of a frozen model gives exactly that model,
    unless it does not freeze under the wire limits, and then its diagnostic;
    and whatever decodes is the canonical encoding of the result. *)
Theorem model_def_roundtrip {F : Foreign} limits b m bytes : dl_total_bytes limits <= u64_max -> freeze b = Ok m -> wire_model m ->
  encode_model_def_with_limits limits m = WOk bytes ->
  decode_model_def limits bytes = match freeze (redeclared limits m) with Ok _ => WOk m | Err d => WErr (WireCore d) end /\
  (forall bytes' value, decode_model_def limits bytes' = WOk value -> encode_model_def_with_limits limits value = WOk bytes').
Proof.
  intros Hu Hb Hw He. split.
  - pose proof He as (s0 & [_ <-%wok_inj]%wcheck & (s & Hs%encoded_fields_valid & _)%wbind_ok)%wbind_ok.
    unfold decode_model_def. rewrite (decode_encoded limits _ _ _ _ _ _ (codes_model limits m 0 ltac:(lia) Hw) Hu He). cbn [wbind].
    rewrite lower_dto_model by done. destruct (freeze (redeclared limits m)) as [m'|d] eqn:E; [|done]. cbn [core wbind].
    rewrite (refrozen limits b m m' Hb E), He. cbn [wbind]. by rewrite (proj2 (require_canonical_ok bytes bytes tt) eq_refl).
  - intros bytes' value (dto & _ & (v & _ & (canonical & Hc & [->%require_canonical_ok <-%wok_inj]%wcheck)%wbind_ok)%wbind_ok)%wbind_ok. done.
Qed.

(** Limits under which every list of a model fits on its own but its
    identity and constraints together do not. *)
Definition one_item_limits : DecodeLimits := mkDecodeLimits 4096 64 16 64 64 1.
Definition sample_keyed : ModelBuilder :=
  builder_unique (builder_identity (builder_field_def (builder_new "user") "id" "id" (scalar "dol/uint64" 1 (RUInt 64)) Required) ["id"]) ["id"].
Definition sample_keyed_model : ModelDef := from_parts (F:=sample_foreign) (frozen_parts sample_keyed).

Lemma sample_keyed_frozen : freeze (F:=sample_foreign) sample_keyed = Ok sample_keyed_model.
Proof. vm_compute. reflexivity. Qed.

Lemma sample_keyed_wire : wire_model sample_keyed_model.
Proof. repeat constructor; cbn; lia. Qed.

(** Such a model is encoded, and what was encoded is refused. *)
Example encoded_not_decoded : exists bytes,
  encode_model_def_with_limits one_item_limits sample_keyed_model = WOk bytes /\
  decode_model_def (F:=sample_foreign) one_item_limits bytes = WErr (WireCore (mkDiagnostic "LIMIT-003")).
Proof.
  destruct (encode_model_def_with_limits one_item_limits sample_keyed_model) as [bytes|] eqn:E; [|vm_compute in E; discriminate E].
  exists bytes. split; [done|]. vm_compute in E. injection E as <-. vm_compute. reflexivity.
Qed.

Lemma model_def_roundtrip_witness : exists bytes,
  encode_model_def_with_limits default_decode_limits sample_keyed_model = WOk bytes /\
  decode_model_def (F:=sample_foreign) default_decode_limits bytes = WOk sample_keyed_model.
Proof.
  destruct (encode_model_def_with_limits default_decode_limits sample_keyed_model) as [bytes|] eqn:E; [|vm_compute in E; discriminate E].
  exists bytes. split; [done|].
  destruct (model_def_roundtrip (F:=sample_foreign) default_decode_limits sample_keyed sample_keyed_model bytes) as [H _].
  - vm_compute. discriminate.
  - exact sample_keyed_frozen.
  - exact sample_keyed_wire.
  - exact E.
  - rewrite H. assert (K : is_ok (freeze (F:=sample_foreign) (redeclared default_decode_limits sample_keyed_model)) = true) by reflexivity.
    destruct (freeze (redeclared default_decode_limits sample_keyed_model)); [done|discriminate K].
Defined.
