(* ===== verification/Catalog.v ===== *)
(** * Catalogs and their differences ([dol-migrate/src/catalog/mod.rs],
    [diff/mod.rs])

    Validated snapshots of a backend's entities, and the operations that turn
    one snapshot into another under declared renames. *)
From Stdlib Require Import ZArith Lia.
From stdpp Require Import list.
From S2P Require Import Prelude BTree Text Types Values Fingerprint Model.

Local Open Scope Z_scope.

Definition MAX_CATALOG_TEXT_BYTES : Z := 1024.

Record CatalogLimits := mkCatalogLimits {
  max_entities : Z;
  max_fields_per_entity : Z;
  max_indexes_per_entity : Z;
  max_index_fields : Z
}.

Definition default_catalog_limits : CatalogLimits := mkCatalogLimits 4096 4096 1024 64.

Definition catalog_limits_validate (l : CatalogLimits) : Result unit :=
  guard (negb ((max_entities l =? 0) || (max_fields_per_entity l =? 0) ||
               (max_indexes_per_entity l =? 0) || (max_index_fields l =? 0))) "MIGRATE-CATALOG-001".

Definition validate_text (value : string) : Result unit :=
  guard (negb (is_empty_str value || negb (String.eqb (str_trim value) value))) "MIGRATE-CATALOG-005" ;;?
  guard (negb ((MAX_CATALOG_TEXT_BYTES <? zstrlen value) || existsb is_control (chars value))) "MIGRATE-CATALOG-006".

(** ** Scopes and revisions *)
Record CatalogScope := mkCatalogScope { backend : string; namespace : string }.

Definition scope_try_new (backend namespace : string) : Result CatalogScope :=
  validate_text backend ;;? validate_text namespace ;;? Ok (mkCatalogScope backend namespace).

Definition CatalogRevision := string.
Definition revision_try_new (value : string) : Result CatalogRevision := validate_text value ;;? Ok value.

(** ** Fields and indexes *)
Record CatalogField := mkCatalogField {
  cf_key : string;
  cf_name : string;
  cf_data_type : string;
  cf_required : bool;
  cf_nullable : bool
}.

Definition field_try_new (key name data_type : string) (required is_null : bool) : Result CatalogField :=
  validate_text key ;;? validate_text name ;;? validate_text data_type ;;?
  Ok (mkCatalogField key name data_type required is_null).

Record CatalogIndex := mkCatalogIndex {
  ci_key : string;
  ci_name : string;
  ci_fields : list string;
  ci_unique : bool
}.

Definition index_try_new (key name : string) (fields : list string) (unique : bool) : Result CatalogIndex :=
  validate_text key ;;? validate_text name ;;?
  guard (negb (match fields with [] => true | _ => false end)) "MIGRATE-CATALOG-002" ;;?
  foldR (fun seen field => validate_text field ;;? insert_new field seen "MIGRATE-CATALOG-003") fields [] ;;?
  Ok (mkCatalogIndex key name fields unique).

(** ** Entities *)
Record CatalogEntity := mkCatalogEntity {
  ce_key : string;
  ce_name : string;
  ce_fields : list CatalogField;
  ce_indexes : list CatalogIndex
}.

#[export] Instance CatalogScope_eq_dec : EqDecision CatalogScope.
Proof. solve_decision. Defined.
#[export] Instance CatalogField_eq_dec : EqDecision CatalogField.
Proof. solve_decision. Defined.
#[export] Instance CatalogIndex_eq_dec : EqDecision CatalogIndex.
Proof. solve_decision. Defined.
#[export] Instance CatalogEntity_eq_dec : EqDecision CatalogEntity.
Proof. solve_decision. Defined.

(** A set of the keys and a map from the names seen so far. *)
Definition validate_unique {A} (key name : A -> string) (values : list A) : Result unit :=
  foldR (fun '(keys, names) value =>
    let? keys := insert_new (key value) keys "MIGRATE-CATALOG-007" in
    let? names := insert_new (name value) names "MIGRATE-CATALOG-008" in
    Ok (keys, names)) values ([], []) ;;? Ok tt.

Definition by_key {A} (key : A -> string) (a b : A) : comparison := str_cmp (key a) (key b).

Definition entity_try_new_with_limits (key name : string) (fields : list CatalogField) (indexes : list CatalogIndex)
  (limits : CatalogLimits) : Result CatalogEntity :=
  catalog_limits_validate limits ;;?
  validate_text key ;;? validate_text name ;;?
  guard (negb (max_fields_per_entity limits <? zlen fields)) "MIGRATE-CATALOG-009" ;;?
  guard (negb (max_indexes_per_entity limits <? zlen indexes)) "MIGRATE-CATALOG-009" ;;?
  let fields := sort_by (by_key cf_key) fields in
  let indexes := sort_by (by_key ci_key) indexes in
  validate_unique cf_key cf_name fields ;;?
  validate_unique ci_key ci_name indexes ;;?
  let field_keys := map cf_key fields in
  forR (fun index =>
    guard (negb (max_index_fields limits <? zlen (ci_fields index))) "MIGRATE-CATALOG-009" ;;?
    forR (fun field => guard (str_mem field field_keys) "MIGRATE-CATALOG-004") (ci_fields index)) indexes ;;?
  Ok (mkCatalogEntity key name fields indexes).

Definition entity_try_new (key name : string) (fields : list CatalogField) (indexes : list CatalogIndex) : Result CatalogEntity :=
  entity_try_new_with_limits key name fields indexes default_catalog_limits.

(** A binary search on sorted, unique keys finds the only element with the
    key. *)
Definition find_by {A} (key : A -> string) (k : string) (l : list A) : option A := List.find (fun x => String.eqb k (key x)) l.
Definition entity_field (e : CatalogEntity) (key : string) : option CatalogField := find_by cf_key key (ce_fields e).
Definition entity_index (e : CatalogEntity) (key : string) : option CatalogIndex := find_by ci_key key (ce_indexes e).

(** ** Snapshots *)
Record CatalogSnapshot := mkCatalogSnapshot {
  cs_scope : CatalogScope;
  cs_revision : CatalogRevision;
  cs_entities : list CatalogEntity
}.

Definition snapshot_try_new_with_limits (scope : CatalogScope) (revision : CatalogRevision) (entities : list CatalogEntity)
  (limits : CatalogLimits) : Result CatalogSnapshot :=
  catalog_limits_validate limits ;;?
  guard (negb (max_entities limits <? zlen entities)) "MIGRATE-CATALOG-009" ;;?
  let entities := sort_by (by_key ce_key) entities in
  validate_unique ce_key ce_name entities ;;?
  Ok (mkCatalogSnapshot scope revision entities).

Definition snapshot_try_new (scope : CatalogScope) (revision : CatalogRevision) (entities : list CatalogEntity) : Result CatalogSnapshot :=
  snapshot_try_new_with_limits scope revision entities default_catalog_limits.

Definition snapshot_entity (s : CatalogSnapshot) (key : string) : option CatalogEntity := find_by ce_key key (cs_entities s).

Definition equivalent_catalog (a b : CatalogSnapshot) : bool :=
  bool_decide (cs_scope a = cs_scope b) && bool_decide (cs_entities a = cs_entities b).

Record DiffLimits := mkDiffLimits { max_operations : Z; max_rename_intents : Z }.
Definition default_diff_limits : DiffLimits := mkDiffLimits 16384 4096.

Definition diff_limits_validate (l : DiffLimits) : Result unit :=
  guard (negb ((max_operations l =? 0) || (max_rename_intents l =? 0))) "MIGRATE-DIFF-001".

(** ** Rename intents *)
Inductive RenameIntent :=
| RIEntity (key from to : string)
| RIField (entity_key key from to : string)
| RIIndex (entity_key key from to : string).

#[export] Instance RenameIntent_eq_dec : EqDecision RenameIntent.
Proof. solve_decision. Defined.

Definition rename_values (r : RenameIntent) : list string :=
  match r with
  | RIEntity key from to => [key; from; to]
  | RIField entity_key key from to | RIIndex entity_key key from to => [entity_key; key; from; to]
  end.
Definition rename_names (r : RenameIntent) : string * string :=
  match r with RIEntity _ from to | RIField _ _ from to | RIIndex _ _ from to => (from, to) end.

Definition rename_validate (r : RenameIntent) : Result unit :=
  guard (negb (existsb (fun value => is_empty_str value || negb (String.eqb (str_trim value) value)) (rename_values r))) "MIGRATE-DIFF-002" ;;?
  guard (negb (String.eqb (fst (rename_names r)) (snd (rename_names r)))) "MIGRATE-DIFF-003".

(** The derived order: variants first, then the fields. *)
Definition rename_tag (r : RenameIntent) : Z := match r with RIEntity _ _ _ => 0 | RIField _ _ _ _ => 1 | RIIndex _ _ _ _ => 2 end.
Definition rename_cmp (a b : RenameIntent) : comparison :=
  match rename_tag a ?= rename_tag b with Eq => keys_cmp (rename_values a) (rename_values b) | c => c end.

(** [renames.windows(2).any(|pair| pair[0] == pair[1])] *)
Fixpoint adjacent_equal {A} `{EqDecision A} (l : list A) : bool :=
  match l with x :: ((y :: _) as l') => bool_decide (x = y) || adjacent_equal l' | _ => false end.

(** [MigrationIntent]: the declared renames. *)
Definition MigrationIntent := list RenameIntent.
Definition intent_try_new (renames : list RenameIntent) : Result MigrationIntent :=
  forR rename_validate renames ;;?
  let renames := sort_by rename_cmp renames in
  guard (negb (adjacent_equal renames)) "MIGRATE-DIFF-004" ;;? Ok renames.

(** ** Operations *)
Inductive MigrationOperation :=
| CreateEntity (entity : CatalogEntity)
| DropEntity (entity : CatalogEntity)
| RenameEntity (entity_key from to : string)
| AddField (entity_key : string) (field : CatalogField)
| DropField (entity_key : string) (field : CatalogField)
| RenameField (entity_key field_key from to : string)
| AlterField (entity_key : string) (before after : CatalogField)
| CreateIndex (entity_key : string) (index : CatalogIndex)
| DropIndex (entity_key : string) (index : CatalogIndex)
| RenameIndex (entity_key index_key from to : string).

#[export] Instance MigrationOperation_eq_dec : EqDecision MigrationOperation.
Proof. solve_decision. Defined.

Record CatalogDiff := mkCatalogDiff {
  df_source : CatalogSnapshot;
  df_target : CatalogSnapshot;
  df_operations : list MigrationOperation
}.

(** ** The state of a diff: one vector of operations per kind, and the renames
    that were used *)
Inductive Bucket :=
| DropIndexes | DropFields | DropEntities | RenameEntities | CreateEntities
| RenameFields | AddFields | AlterFields | RenameIndexes | CreateIndexes.

#[export] Instance Bucket_eq_dec : EqDecision Bucket.
Proof. solve_decision. Defined.

Record DiffState := mkDiffState { buckets : Bucket -> list MigrationOperation; used : list RenameIntent }.
Definition diff_start : DiffState := mkDiffState (fun _ => []) [].

Section Diff.
Context (limits : DiffLimits) (declared : list RenameIntent).

Definition push_checked (s : DiffState) (b : Bucket) (op : MigrationOperation) : Result DiffState :=
  guard (negb (max_operations limits <=? zlen (buckets s b))) "MIGRATE-DIFF-009" ;;?
  Ok (mkDiffState (fun b' => if decide (b' = b) then buckets s b ++ [op] else buckets s b') (used s)).

Definition require_declared (s : DiffState) (r : RenameIntent) : Result DiffState :=
  guard (bool_decide (r ∈ declared)) "MIGRATE-DIFF-008" ;;?
  Ok (mkDiffState (buckets s) (if decide (r ∈ used s) then used s else r :: used s)).

(** Iterating over the entries of a map built from keyed elements. *)
Definition keyed {A} (key : A -> string) (l : list A) : list (string * A) := bt_collect (map (fun x => (key x, x)) l).

Definition push_if (c : bool) (s : DiffState) (b : Bucket) (op : MigrationOperation) : Result DiffState :=
  if c then push_checked s b op else Ok s.

Definition absent {A} (o : option A) : bool := match o with Some _ => false | None => true end.

Definition index_changed (old new : CatalogIndex) : bool :=
  negb (bool_decide (ci_fields old = ci_fields new)) || negb (Bool.eqb (ci_unique old) (ci_unique new)).

Definition diff_indexes (before after : CatalogEntity) (s : DiffState) : Result DiffState :=
  let old_indexes := keyed ci_key (ce_indexes before) in
  let new_indexes := keyed ci_key (ce_indexes after) in
  let? s := foldR (fun s '(key, old) =>
    let new := bt_get key new_indexes in
    let definition_changed := match new with Some new => index_changed old new | None => false end in
    push_if (absent new || definition_changed) s DropIndexes (DropIndex (ce_key before) old)) old_indexes s in
  foldR (fun s '(key, new) =>
    let old := bt_get key old_indexes in
    let definition_changed := match old with Some old => index_changed old new | None => false end in
    let? s := push_if (absent old || definition_changed) s CreateIndexes (CreateIndex (ce_key after) new) in
    match old with
    | Some old =>
        if negb (String.eqb (ci_name old) (ci_name new)) then
          let? s := require_declared s (RIIndex (ce_key before) key (ci_name old) (ci_name new)) in
          push_if (negb definition_changed) s RenameIndexes (RenameIndex (ce_key before) key (ci_name old) (ci_name new))
        else Ok s
    | None => Ok s
    end) new_indexes s.

Definition field_altered (old new : CatalogField) : bool :=
  negb (String.eqb (cf_data_type old) (cf_data_type new)) || negb (Bool.eqb (cf_required old) (cf_required new)) ||
  negb (Bool.eqb (cf_nullable old) (cf_nullable new)).

Definition diff_entity (before after : CatalogEntity) (s : DiffState) : Result DiffState :=
  let before_fields := keyed cf_key (ce_fields before) in
  let after_fields := keyed cf_key (ce_fields after) in
  let? s := foldR (fun s '(key, field) =>
    push_if (absent (bt_get key after_fields)) s DropFields (DropField (ce_key before) field)) before_fields s in
  let? s := foldR (fun s '(key, field) =>
    push_if (absent (bt_get key before_fields)) s AddFields (AddField (ce_key after) field)) after_fields s in
  let? s := foldR (fun s '(key, old) =>
    match bt_get key after_fields with
    | None => Ok s
    | Some new =>
        let? s :=
          if negb (String.eqb (cf_name old) (cf_name new)) then
            let? s := require_declared s (RIField (ce_key before) key (cf_name old) (cf_name new)) in
            push_checked s RenameFields (RenameField (ce_key before) key (cf_name old) (cf_name new))
          else Ok s in
        push_if (field_altered old new) s AlterFields (AlterField (ce_key before) old new)
    end) before_fields s in
  diff_indexes before after s.

Definition append_checked (operations bucket : list MigrationOperation) : Result (list MigrationOperation) :=
  guard (negb (max_operations limits <? zlen operations + zlen bucket)) "MIGRATE-DIFF-009" ;;? Ok (operations ++ bucket).
End Diff.

(** The buckets in the order of application. *)
Definition bucket_order : list Bucket :=
  [DropIndexes; DropFields; DropEntities; RenameEntities; CreateEntities; RenameFields; AddFields; AlterFields;
   RenameIndexes; CreateIndexes].

Definition diff_catalog (source target : CatalogSnapshot) (intent : MigrationIntent) (limits : DiffLimits) : Result CatalogDiff :=
  diff_limits_validate limits ;;?
  guard (bool_decide (cs_scope source = cs_scope target)) "MIGRATE-DIFF-005" ;;?
  guard (negb (max_rename_intents limits <? zlen intent)) "MIGRATE-DIFF-006" ;;?
  let declared := intent in
  let source_entities := keyed ce_key (cs_entities source) in
  let target_entities := keyed ce_key (cs_entities target) in
  let? s := foldR (fun s '(key, entity) =>
    push_if limits (absent (bt_get key target_entities)) s DropEntities (DropEntity entity)) source_entities diff_start in
  let? s := foldR (fun s '(key, entity) =>
    push_if limits (absent (bt_get key source_entities)) s CreateEntities (CreateEntity entity)) target_entities s in
  let? s := foldR (fun s '(key, before) =>
    match bt_get key target_entities with
    | None => Ok s
    | Some after =>
        let? s :=
          if negb (String.eqb (ce_name before) (ce_name after)) then
            let? s := require_declared declared s (RIEntity key (ce_name before) (ce_name after)) in
            push_checked limits s RenameEntities (RenameEntity key (ce_name before) (ce_name after))
          else Ok s in
        diff_entity limits declared before after s
    end) source_entities s in
  guard (forallb (fun r => bool_decide (r ∈ used s)) declared && forallb (fun r => bool_decide (r ∈ declared)) (used s))
    "MIGRATE-DIFF-007" ;;?
  let? operations := foldR (fun operations b => append_checked limits operations (buckets s b)) bucket_order [] in
  Ok (mkCatalogDiff source target operations).
