(* ===== verification/Migration.v ===== *)
(** * Migrations ([crates/dol-migrate/src/plan], [policy], [apply])

    Ordered steps with risks on three axes, bound to the revisions they start
    from and reach; the policy that authorises a plan; the generic applier over
    the primitives of a backend, with inspection under the lock before and
    after the steps and a commit only once the catalog has converged; and
    [FakeBackend], the in-memory backend of the tests. *)
From Stdlib Require Import ZArith Lia DecimalString.
From stdpp Require Import list.
From S2P Require Import Prelude Mutation Text BTree Types Values Fingerprint Model Catalog.

Local Open Scope Z_scope.

(** ** Risks ([plan/mod.rs]) *)
Inductive DataSafety := Safe | RequiresDataRewrite | Destructive.
Inductive OperationalImpact := MetadataOnly | Locking | DataRewrite | ExternalRebuild.
Inductive AutomationLevel := Automatic | RequiresApproval | Manual | Unsupported.

Record MigrationRisk := mkMigrationRisk {
  risk_data : DataSafety;
  risk_operation : OperationalImpact;
  risk_automation : AutomationLevel
}.

#[export] Instance DataSafety_eq_dec : EqDecision DataSafety.
Proof. solve_decision. Defined.
#[export] Instance OperationalImpact_eq_dec : EqDecision OperationalImpact.
Proof. solve_decision. Defined.
#[export] Instance AutomationLevel_eq_dec : EqDecision AutomationLevel.
Proof. solve_decision. Defined.
#[export] Instance MigrationRisk_eq_dec : EqDecision MigrationRisk.
Proof. solve_decision. Defined.

Definition for_operation (op : MigrationOperation) : MigrationRisk :=
  match op with
  | CreateEntity _ => mkMigrationRisk Safe Locking Automatic
  | DropEntity _ | DropField _ _ => mkMigrationRisk Destructive Locking RequiresApproval
  | RenameEntity _ _ _ | RenameField _ _ _ _ | RenameIndex _ _ _ _ => mkMigrationRisk Safe MetadataOnly RequiresApproval
  | AddField _ field =>
      if negb (cf_required field) then mkMigrationRisk Safe MetadataOnly Automatic
      else mkMigrationRisk RequiresDataRewrite DataRewrite RequiresApproval
  | AlterField _ _ _ => mkMigrationRisk RequiresDataRewrite DataRewrite RequiresApproval
  | CreateIndex _ _ => mkMigrationRisk Safe ExternalRebuild RequiresApproval
  | DropIndex _ _ => mkMigrationRisk Safe Locking RequiresApproval
  end.

(** The derived orders of the first and last axes; the second has its own
    ranks. *)
Definition data_rank (d : DataSafety) : Z := match d with Safe => 0 | RequiresDataRewrite => 1 | Destructive => 2 end.
Definition automation_rank (a : AutomationLevel) : Z :=
  match a with Automatic => 0 | RequiresApproval => 1 | Manual => 2 | Unsupported => 3 end.
Definition operational_rank (o : OperationalImpact) : Z :=
  match o with MetadataOnly => 0 | Locking => 1 | ExternalRebuild => 2 | DataRewrite => 3 end.

Definition covers (r minimum : MigrationRisk) : bool :=
  (data_rank (risk_data minimum) <=? data_rank (risk_data r)) &&
  (operational_rank (risk_operation minimum) <=? operational_rank (risk_operation r)) &&
  (automation_rank (risk_automation minimum) <=? automation_rank (risk_automation r)).

(** ** Steps and plans *)
Record MigrationStep := mkMigrationStep {
  ms_id : Z;
  ms_operation : MigrationOperation;
  ms_risk : MigrationRisk
}.

#[export] Instance MigrationStep_eq_dec : EqDecision MigrationStep.
Proof. solve_decision. Defined.

Record MigrationPlanIdentity := mkMigrationPlanIdentity {
  id_scope : CatalogScope;
  id_source_revision : CatalogRevision;
  id_target_revision : CatalogRevision;
  id_steps : list MigrationStep
}.

#[export] Instance MigrationPlanIdentity_eq_dec : EqDecision MigrationPlanIdentity.
Proof. unfold CatalogRevision. solve_decision. Defined.

Record MigrationPlan := mkMigrationPlan {
  plan_identity : MigrationPlanIdentity;
  plan_source : CatalogSnapshot;
  plan_target : CatalogSnapshot
}.

Definition plan_steps (p : MigrationPlan) : list MigrationStep := id_steps (plan_identity p).

(** [iter().enumerate()] *)
Definition numbered {A} (l : list A) : list (Z * A) := imap (fun i x => (Z.of_nat i, x)) l.

Definition plan_try_new (source target : CatalogSnapshot) (steps : list MigrationStep) : Result MigrationPlan :=
  guard (bool_decide (cs_scope source = cs_scope target)) "MIGRATE-PLAN-002" ;;?
  forR (fun '(index, step) =>
    guard (index + 1 <=? u32_max) "MIGRATE-PLAN-001" ;;?
    guard (ms_id step =? index + 1) "MIGRATE-PLAN-003" ;;?
    guard (covers (ms_risk step) (for_operation (ms_operation step))) "MIGRATE-PLAN-004") (numbered steps) ;;?
  Ok (mkMigrationPlan (mkMigrationPlanIdentity (cs_scope source) (cs_revision source) (cs_revision target) steps) source target).

Definition from_diff (diff : CatalogDiff) : Result MigrationPlan :=
  let? steps := mapR (fun '(index, operation) =>
      guard (index + 1 <=? u32_max) "MIGRATE-PLAN-001" ;;?
      Ok (mkMigrationStep (index + 1) operation (for_operation operation))) (numbered (df_operations diff)) in
  plan_try_new (df_source diff) (df_target diff) steps.

(** [DefaultMigrationPlanner] *)
Definition planner_try_new (limits : DiffLimits) : Result DiffLimits :=
  guard (negb ((max_operations limits =? 0) || (max_rename_intents limits =? 0))) "MIGRATE-PLAN-005" ;;? Ok limits.

Definition planner_plan (limits : DiffLimits) (source target : CatalogSnapshot) (intent : MigrationIntent) : Result MigrationPlan :=
  let? diff := diff_catalog source target intent limits in from_diff diff.

(** ** Policies and approvals ([policy/mod.rs]) *)
Record MigrationPolicy := mkMigrationPolicy {
  allow_data_rewrite : bool;
  allow_destructive : bool;
  allow_locking : bool;
  allow_external_rebuild : bool
}.

Definition conservative : MigrationPolicy := mkMigrationPolicy false false true false.
Definition with_data_rewrite (p : MigrationPolicy) : MigrationPolicy :=
  mkMigrationPolicy true (allow_destructive p) (allow_locking p) (allow_external_rebuild p).
Definition with_destructive (p : MigrationPolicy) : MigrationPolicy :=
  mkMigrationPolicy true true (allow_locking p) (allow_external_rebuild p).
Definition with_locking (p : MigrationPolicy) (allowed : bool) : MigrationPolicy :=
  mkMigrationPolicy (allow_data_rewrite p) (allow_destructive p) allowed (allow_external_rebuild p).
Definition with_external_rebuild (p : MigrationPolicy) : MigrationPolicy :=
  mkMigrationPolicy (allow_data_rewrite p) (allow_destructive p) (allow_locking p) true.

Record MigrationApproval := mkMigrationApproval {
  ap_plan_identity : MigrationPlanIdentity;
  ap_approved_steps : list Z;
  ap_actor : string;
  ap_rationale : string
}.

(** The approved steps are a set. *)
Definition approval_try_new (plan : MigrationPlan) (steps : list Z) (actor rationale : string) : Result MigrationApproval :=
  guard (negb (is_empty_str (str_trim actor) || is_empty_str (str_trim rationale))) "MIGRATE-POLICY-002" ;;?
  guard (forallb (fun s => bool_decide (s ∈ map ms_id (plan_steps plan))) steps) "MIGRATE-POLICY-003" ;;?
  Ok (mkMigrationApproval (plan_identity plan) steps actor rationale).

Definition approve_all (plan : MigrationPlan) (actor rationale : string) : Result MigrationApproval :=
  approval_try_new plan (map ms_id (plan_steps plan)) actor rationale.

Definition approved (approval : option MigrationApproval) (id : Z) : bool :=
  match approval with Some a => bool_decide (id ∈ ap_approved_steps a) | None => false end.

Definition authorize_step (p : MigrationPolicy) (approval : option MigrationApproval) (step : MigrationStep) : Result unit :=
  let risk := ms_risk step in
  match risk_data risk with
  | Safe => Ok tt
  | RequiresDataRewrite => guard (allow_data_rewrite p) "MIGRATE-POLICY-004"
  | Destructive => guard (allow_destructive p) "MIGRATE-POLICY-004"
  end ;;?
  match risk_operation risk with
  | MetadataOnly => Ok tt
  | Locking => guard (allow_locking p) "MIGRATE-POLICY-004"
  | ExternalRebuild => guard (allow_external_rebuild p) "MIGRATE-POLICY-004"
  | DataRewrite => guard (allow_data_rewrite p) "MIGRATE-POLICY-004"
  end ;;?
  match risk_automation risk with
  | Automatic => Ok tt
  | RequiresApproval => guard (approved approval (ms_id step)) "MIGRATE-POLICY-004"
  | Manual | Unsupported => error "MIGRATE-POLICY-004"
  end.

Definition authorize (p : MigrationPolicy) (plan : MigrationPlan) (approval : option MigrationApproval) : Result unit :=
  match approval with
  | Some a => guard (bool_decide (ap_plan_identity a = plan_identity plan)) "MIGRATE-POLICY-001"
  | None => Ok tt
  end ;;?
  forR (authorize_step p approval) (plan_steps plan).

Record ApplyLimits := mkApplyLimits { al_catalog : CatalogLimits; max_steps : Z }.
Definition default_apply_limits : ApplyLimits := mkApplyLimits default_catalog_limits 16384.

Definition apply_limits_validate (l : ApplyLimits) : Result unit :=
  guard (negb (max_steps l =? 0)) "MIGRATE-APPLY-001" ;;? catalog_limits_validate (al_catalog l).

Inductive MigrationFinish := Commit | Abort.

(** ** Backends ([CatalogInspector], [CatalogMutator]) *)
Class CatalogMutator (B : Type) := {
  inspect : CatalogScope -> CatalogLimits -> Mut B CatalogSnapshot;
  begin_migration : MigrationPlan -> Mut B unit;
  apply_step : MigrationStep -> Mut B unit;
  finish_migration : MigrationFinish -> Mut B unit
}.

(** Summaries of applied steps are not modelled. *)
Record MigrationReport := mkMigrationReport {
  rp_plan_identity : MigrationPlanIdentity;
  rp_initial_revision : CatalogRevision;
  rp_final_revision : CatalogRevision;
  rp_applied_steps : list Z;
  rp_inspections : Z
}.

Section Apply.
Context {B : Type} `{CatalogMutator B}.

(** [.map_err(|error| Diagnostic::error(..))] *)
Definition map_err_mut {A} (m : Mut B A) (c : string) : Mut B A := fun b => let '(r, b') := m b in (map_err r c, b').

Fixpoint apply_steps (steps : list MigrationStep) (applied_steps : list Z) : Mut B (list Z) :=
  match steps with
  | [] => mret applied_steps
  | step :: rest =>
      map_err_mut (apply_step step) "MIGRATE-APPLY-005" ;;!
      apply_steps rest (applied_steps ++ [ms_id step])
  end.

Definition convergence_limits (limits : ApplyLimits) : DiffLimits := mkDiffLimits (max_steps limits) 1.

Definition apply_while_locked (plan : MigrationPlan) (limits : ApplyLimits) : Mut B MigrationReport :=
  let! observed := inspect (id_scope (plan_identity plan)) (al_catalog limits) in
  mlift (guard (String.eqb (cs_revision observed) (id_source_revision (plan_identity plan))) "MIGRATE-APPLY-STALE") ;;!
  mlift (guard (equivalent_catalog observed (plan_source plan)) "MIGRATE-APPLY-004") ;;!
  let! applied_steps := apply_steps (plan_steps plan) [] in
  let! final_snapshot := inspect (id_scope (plan_identity plan)) (al_catalog limits) in
  mlift (guard (String.eqb (cs_revision final_snapshot) (id_target_revision (plan_identity plan))) "MIGRATE-APPLY-006") ;;!
  let! convergence := mlift (diff_catalog final_snapshot (plan_target plan) [] (convergence_limits limits)) in
  mlift (guard (match df_operations convergence with [] => true | _ => false end) "MIGRATE-APPLY-007") ;;!
  mret (mkMigrationReport (plan_identity plan) (cs_revision observed) (cs_revision final_snapshot) applied_steps 2).

Definition apply_checked (plan : MigrationPlan) (policy : MigrationPolicy) (approval : option MigrationApproval)
  (limits : ApplyLimits) : Mut B MigrationReport :=
  mlift (apply_limits_validate limits) ;;!
  mlift (guard (negb (max_steps limits <? zlen (plan_steps plan))) "MIGRATE-APPLY-002") ;;!
  mlift (authorize policy plan approval) ;;!
  begin_migration plan ;;!
  fun b =>
    match apply_while_locked plan limits b with
    | (Ok report, b') => (finish_migration Commit ;;! mret report) b'
    | (Err primary, b') =>
        match finish_migration Abort b' with
        | (Ok _, b'') => (Err primary, b'')
        | (Err _, b'') => (error "MIGRATE-APPLY-003", b'')
        end
    end.
End Apply.

(** [MigrationApplier::apply_migration], for every backend. *)
Definition apply_migration {B} `{CatalogMutator B} := apply_checked (B:=B).

(** ** The in-memory backend of the tests *)
Record FakeBackend := mkFakeBackend {
  fb_current : CatalogSnapshot;
  fb_working : option CatalogSnapshot;
  fb_target_revision : option CatalogRevision;
  fb_expected_steps : nat;
  fb_completed_steps : nat;
  fb_begin_count : nat;
  fb_abort_count : nat
}.

Definition fake_new (current : CatalogSnapshot) : FakeBackend := mkFakeBackend current None None 0 0 0 0.
Definition visible (b : FakeBackend) : CatalogSnapshot := default (fb_current b) (fb_working b).

(** [format!("working-{}", n)]; a missing target revision panics. *)
Definition working_revision (n : nat) : string := String.append "working-" (NilZero.string_of_uint (Nat.to_uint n)).

Definition replace_visible_entities (entities : list CatalogEntity) : Mut FakeBackend unit := fun b =>
  let completed := S (fb_completed_steps b) in
  let b := mkFakeBackend (fb_current b) (fb_working b) (fb_target_revision b) (fb_expected_steps b) completed
             (fb_begin_count b) (fb_abort_count b) in
  (let! revision :=
     if Nat.eqb completed (fb_expected_steps b) then mlift (ok_or (fb_target_revision b) "panic: target revision is set while locked")
     else mlift (revision_try_new (working_revision completed)) in
   mtry (fun b =>
     let? s := snapshot_try_new (cs_scope (fb_current b)) revision entities in
     Ok (mkFakeBackend (fb_current b) (Some s) (fb_target_revision b) (fb_expected_steps b) (fb_completed_steps b)
           (fb_begin_count b) (fb_abort_count b)))) b.

(** The first entity with the key is replaced. *)
Fixpoint replace_first (key : string) (update : CatalogEntity -> Result CatalogEntity) (l : list CatalogEntity)
  : Result (list CatalogEntity) :=
  match l with
  | [] => error "FAKE-MIGRATE-001"
  | e :: l' => if String.eqb (ce_key e) key then let? e' := update e in Ok (e' :: l')
               else let? l'' := replace_first key update l' in Ok (e :: l'')
  end.

Definition replace_entity (key : string) (update : CatalogEntity -> Result CatalogEntity) : Mut FakeBackend unit :=
  let! b := mget in
  let! entities := mlift (replace_first key update (cs_entities (visible b))) in
  replace_visible_entities entities.

Definition with_fields (e : CatalogEntity) (fields : list CatalogField) : Result CatalogEntity :=
  entity_try_new (ce_key e) (ce_name e) fields (ce_indexes e).
Definition with_indexes (e : CatalogEntity) (indexes : list CatalogIndex) : Result CatalogEntity :=
  entity_try_new (ce_key e) (ce_name e) (ce_fields e) indexes.

(** [entities.retain(|candidate| candidate.key() != key)] *)
Definition without {A} (key : A -> string) (k : string) (l : list A) : list A :=
  List.filter (fun x => negb (String.eqb (key x) k)) l.

Definition fake_apply_step (step : MigrationStep) : Mut FakeBackend unit :=
  let! b := mget in
  match ms_operation step with
  | CreateEntity entity => replace_visible_entities (cs_entities (visible b) ++ [entity])
  | DropEntity entity => replace_visible_entities (without ce_key (ce_key entity) (cs_entities (visible b)))
  | RenameEntity entity_key _ to =>
      replace_entity entity_key (fun e => entity_try_new (ce_key e) to (ce_fields e) (ce_indexes e))
  | AddField entity_key field => replace_entity entity_key (fun e => with_fields e (ce_fields e ++ [field]))
  | DropField entity_key field => replace_entity entity_key (fun e => with_fields e (without cf_key (cf_key field) (ce_fields e)))
  | RenameField entity_key field_key _ to =>
      replace_entity entity_key (fun e =>
        let? fields := mapR (fun f =>
          if String.eqb (cf_key f) field_key then field_try_new (cf_key f) to (cf_data_type f) (cf_required f) (cf_nullable f)
          else Ok f) (ce_fields e) in
        with_fields e fields)
  | AlterField entity_key _ after =>
      replace_entity entity_key (fun e =>
        with_fields e (map (fun f => if String.eqb (cf_key f) (cf_key after) then after else f) (ce_fields e)))
  | CreateIndex entity_key index => replace_entity entity_key (fun e => with_indexes e (ce_indexes e ++ [index]))
  | DropIndex entity_key index => replace_entity entity_key (fun e => with_indexes e (without ci_key (ci_key index) (ce_indexes e)))
  | RenameIndex entity_key index_key _ to =>
      replace_entity entity_key (fun e =>
        let? indexes := mapR (fun i =>
          if String.eqb (ci_key i) index_key then index_try_new (ci_key i) to (ci_fields i) (ci_unique i)
          else Ok i) (ce_indexes e) in
        with_indexes e indexes)
  end.

Definition fake_begin (plan : MigrationPlan) : Mut FakeBackend unit := mtry (fun b =>
  match fb_working b with
  | Some _ => error "FAKE-MIGRATE-003"
  | None => Ok (mkFakeBackend (fb_current b) (Some (fb_current b)) (Some (id_target_revision (plan_identity plan)))
                  (length (plan_steps plan)) 0 (S (fb_begin_count b)) (fb_abort_count b))
  end).

Definition fake_finish (finish : MigrationFinish) : Mut FakeBackend unit := mtry (fun b =>
  match fb_working b with
  | None => error "FAKE-MIGRATE-004"
  | Some working =>
      let '(current, aborts) := match finish with
                                | Commit => (working, fb_abort_count b)
                                | Abort => (fb_current b, S (fb_abort_count b))
                                end in
      Ok (mkFakeBackend current None None (fb_expected_steps b) (fb_completed_steps b) (fb_begin_count b) aborts)
  end).

Definition fake_inspect (scope : CatalogScope) (limits : CatalogLimits) : Mut FakeBackend CatalogSnapshot :=
  let! b := mget in
  mlift (guard (bool_decide (cs_scope (visible b) = scope)) "FAKE-MIGRATE-002" ;;?
         snapshot_try_new_with_limits (cs_scope (visible b)) (cs_revision (visible b)) (cs_entities (visible b)) limits).

#[export] Instance FakeBackend_mutator : CatalogMutator FakeBackend := {|
  inspect := fake_inspect;
  begin_migration := fake_begin;
  apply_step := fake_apply_step;
  finish_migration := fake_finish
|}.
