(* ===== verification/CatalogSpec.v ===== *)
(** * What a catalog diff is

    Validated catalogs are sorted by unique keys, so that lookups determine
    them; a diff succeeds exactly when the declared renames are the observed
    name changes and the operations fit the limit. *)
From Stdlib Require Import ZArith Lia.
From stdpp Require Import list.
From S2P Require Import Prelude BTree Text Types Values Fingerprint Model Catalog.

Local Open Scope Z_scope.

(** ** Canonical lists: strictly increasing keys *)
Section Canonical.
Context {A : Type} (key : A -> string).

Definition entries (l : list A) : list (string * A) := map (fun x => (key x, x)) l.
Definition canonical (l : list A) : Prop := bt_sorted (entries l) = true.

Lemma keyed_canonical l : canonical l -> keyed key l = entries l.
Proof. apply bt_collect_sorted. Qed.

Lemma elem_entries k x l : (k, x) ∈ entries l <-> x ∈ l /\ key x = k.
Proof. unfold entries. rewrite elem_of_map. naive_solver. Qed.

Lemma get_entries_some k l x : canonical l -> bt_get k (entries l) = Some x <-> x ∈ l /\ key x = k.
Proof. intros H. rewrite <- elem_entries. split; [apply bt_get_elem|by apply bt_elem_get]. Qed.

Lemma canonical_nodup l : canonical l -> NoDup (map key l).
Proof. intros H%bt_sorted_nodup. unfold entries in H. by rewrite map_map in H. Qed.

Lemma canonical_same l x y : canonical l -> x ∈ l -> y ∈ l -> key x = key y -> x = y.
Proof.
  intros H Hx Hy E. assert (G : bt_get (key x) (entries l) = Some x) by (by apply get_entries_some).
  assert (G' : bt_get (key x) (entries l) = Some y) by (by apply get_entries_some). congruence.
Qed.

Lemma find_by_some k l x : canonical l -> find_by key k l = Some x <-> x ∈ l /\ key x = k.
Proof.
  intros H. unfold find_by. split; [by intros [Hx%list_elem_of_In ->%String.eqb_eq]%find_some|].
  intros [Hx <-]. destruct (List.find (fun y => String.eqb (key x) (key y)) l) as [y|] eqn:E.
  - apply find_some in E as [Hy%list_elem_of_In E%String.eqb_eq]. f_equal. symmetry. by apply (canonical_same l).
  - apply list_elem_of_In in Hx. pose proof (find_none _ _ E x Hx) as Hn. cbn in Hn. by rewrite String.eqb_refl in Hn.
Qed.

Lemma get_entries k l : canonical l -> bt_get k (entries l) = find_by key k l.
Proof. intros H. apply option_eq. intros x. by rewrite get_entries_some, find_by_some. Qed.

Lemma find_by_none k l : canonical l -> find_by key k l = None <-> forall x, x ∈ l -> key x <> k.
Proof.
  intros H. split.
  - intros E x Hx Hk. assert (find_by key k l = Some x) by (by apply find_by_some). congruence.
  - intros Hn. destruct (find_by key k l) as [x|] eqn:E; [|done]. apply find_by_some in E as [? ?]; [|done]. by destruct (Hn x).
Qed.

(** Lookups determine a canonical list. *)
Lemma canonical_ext l l' : canonical l -> canonical l' -> (forall k, find_by key k l = find_by key k l') -> l = l'.
Proof.
  intros H H' E. assert (Ee : entries l = entries l').
  { apply bt_ext; [done|done|]. intros k. by rewrite !get_entries. }
  apply (f_equal (map snd)) in Ee. unfold entries in Ee. rewrite !map_map in Ee. cbn [snd] in Ee. by rewrite !map_id in Ee.
Qed.

Lemma sort_canonical l : NoDup (map key l) -> canonical (sort_by (by_key key) l).
Proof.
  intros Hd. assert (Hs : StronglySorted (le_by (by_key key)) (sort_by (by_key key) l)) by (exact (sort_by_sorted _ (on_laws key _ str_cmp_laws) l)).
  assert (Hn : NoDup (map key (sort_by (by_key key) l))) by (by rewrite sort_by_perm).
  revert Hs Hn. generalize (sort_by (by_key key) l). clear l Hd. intros l. induction 1 as [|x l Hs IH Hx]; [done|].
  cbn [map]. intros [Hni Hn]%NoDup_cons. apply bt_sorted_cons; [by apply IH|]. intros [k y] [Hy <-]%elem_entries. cbn [fst].
  rewrite Forall_forall in Hx. specialize (Hx y Hy). unfold le_by, by_key in Hx. change kcmp with str_cmp.
  destruct (str_cmp (key x) (key y)) eqn:E; [|done|done]. apply str_cmp_eq in E. exfalso. apply Hni. rewrite E. by apply (list_elem_of_fmap_2 key).
Qed.
End Canonical.

(** ** What the constructors establish *)
Lemma validate_unique_ok {A} (key name : A -> string) values :
  validate_unique key name values = Ok tt <-> NoDup (map key values) /\ NoDup (map name values).
Proof.
  unfold validate_unique.
  assert (G : forall keys names, (exists r, foldR (fun '(keys, names) value =>
      let? keys := insert_new (key value) keys "MIGRATE-CATALOG-007" in
      let? names := insert_new (name value) names "MIGRATE-CATALOG-008" in Ok (keys, names)) values (keys, names) = Ok r) <->
    (NoDup (map key values) /\ (forall k, k ∈ map key values -> k ∉ keys)) /\
    (NoDup (map name values) /\ (forall k, k ∈ map name values -> k ∉ names))).
  { induction values as [|x l IH]; intros keys names; cbn [foldR map].
    { split; [|by eexists]. intros _. split; (split; [constructor|by intros k ?%elem_of_nil]). }
    rewrite !NoDup_cons. setoid_rewrite elem_of_cons. split.
    - intros (r & ([keys' names'] & (k' & (Hk & ->)%insert_new_ok & (n' & (Hn & ->)%insert_new_ok & [= <- <-])%rbind_ok)%rbind_ok & Hr)%rbind_ok).
      destruct (proj1 (IH _ _) (ex_intro _ r Hr)) as [[Dk Sk] [Dn Sn]]. setoid_rewrite not_elem_of_cons in Sk. setoid_rewrite not_elem_of_cons in Sn.
      split_and!; [intros Hin; by destruct (Sk _ Hin)|done|intros k [->|Hin]; [done|by apply Sk]
                  |intros Hin; by destruct (Sn _ Hin)|done|intros k [->|Hin]; [done|by apply Sn]].
    - intros [[[Hkn Dk] Sk] [[Hnn Dn] Sn]].
      assert (K : forall seen s c, s ∉ seen -> insert_new s seen c = Ok (s :: seen)) by (intros; by apply insert_new_ok).
      rewrite K by (apply Sk; by left). cbn [rbind]. rewrite K by (apply Sn; by left). cbn [rbind].
      apply IH. split; (split; [done|]); intros k Hin; apply not_elem_of_cons; (split; [by intros ->|]); [apply Sk|apply Sn]; by right. }
  specialize (G [] []). split.
  - intros (r & Hr & _)%rbind_ok. destruct (proj1 G (ex_intro _ r Hr)) as [[? _] [? _]]. done.
  - intros [Hk Hn]. destruct (proj2 G) as [r Hr]; [split; (split; [done|by intros ? _ ?%elem_of_nil])|]. apply rbind_ok. by exists r.
Qed.

Record valid_entity (e : CatalogEntity) : Prop := {
  fields_canonical : canonical cf_key (ce_fields e);
  indexes_canonical : canonical ci_key (ce_indexes e);
  field_names_unique : NoDup (map cf_name (ce_fields e));
  index_names_unique : NoDup (map ci_name (ce_indexes e));
  index_fields_known : forall i f, i ∈ ce_indexes e -> f ∈ ci_fields i -> f ∈ map cf_key (ce_fields e)
}.

Lemma entity_try_new_valid key name fields indexes limits e :
  entity_try_new_with_limits key name fields indexes limits = Ok e ->
  e = mkCatalogEntity key name (sort_by (by_key cf_key) fields) (sort_by (by_key ci_key) indexes) /\ valid_entity e.
Proof.
  unfold entity_try_new_with_limits. intros H. do 5 (apply check_then in H as [_ H]).
  apply check_then in H as [[Hfk Hfn]%validate_unique_ok H]. apply check_then in H as [[Hik Hin]%validate_unique_ok H].
  apply check_then in H as [Hr [= <-]]. split; [done|]. rewrite forR_ok, Forall_forall in Hr.
  rewrite (sort_by_perm (by_key cf_key)) in Hfk. rewrite (sort_by_perm (by_key ci_key)) in Hik. split; cbn [ce_fields ce_indexes].
  - by apply sort_canonical.
  - by apply sort_canonical.
  - done.
  - done.
  - intros i f Hi Hf. specialize (Hr i Hi). apply check_then in Hr as [_ Hr]. rewrite forR_ok, Forall_forall in Hr.
    specialize (Hr f Hf). apply check_ok in Hr. by apply str_mem_elem in Hr.
Qed.

Record valid_catalog (es : list CatalogEntity) : Prop := {
  entities_canonical : canonical ce_key es;
  entity_names_unique : NoDup (map ce_name es);
  entities_valid : Forall valid_entity es
}.

Lemma snapshot_try_new_valid scope revision es limits s : snapshot_try_new_with_limits scope revision es limits = Ok s ->
  s = mkCatalogSnapshot scope revision (sort_by (by_key ce_key) es) /\ (Forall valid_entity es -> valid_catalog (cs_entities s)).
Proof.
  unfold snapshot_try_new_with_limits. intros H. do 2 (apply check_then in H as [_ H]).
  apply check_then in H as [[Hk Hn]%validate_unique_ok [= <-]]. split; [done|]. intros Hv.
  rewrite (sort_by_perm (by_key ce_key)) in Hk. split; cbn [cs_entities]; [by apply sort_canonical|done|by rewrite sort_by_perm].
Qed.

(** A valid list is its own canonical order. *)
Lemma canonical_sorted {A} (key : A -> string) l : canonical key l -> sort_by (by_key key) l = l.
Proof.
  intros H. apply (canonical_ext key); [apply sort_canonical, canonical_nodup, H|done|]. intros k. apply option_eq. intros x.
  rewrite !find_by_some, sort_by_elem; [done|done|]. apply sort_canonical, canonical_nodup, H.
Qed.

(** ** The loops of a diff *)
Definition event : Type := Bucket * MigrationOperation.
Definition select (b : Bucket) (evs : list event) : list MigrationOperation :=
  flat_map (fun e => if decide (fst e = b) then [snd e] else []) evs.

Lemma select_app b e1 e2 : select b (e1 ++ e2) = select b e1 ++ select b e2.
Proof. apply flat_map_app. Qed.

Lemma elem_select b evs op : op ∈ select b evs <-> (b, op) ∈ evs.
Proof.
  unfold select. rewrite elem_of_flat_map. split.
  - intros ([b' op'] & Hin & H). cbn in H. destruct (decide (b' = b)) as [->|]; [|by apply elem_of_nil in H]. by apply list_elem_of_singleton in H as ->.
  - intros H. exists (b, op). split; [done|]. cbn. destruct (decide (b = b)); [by apply list_elem_of_singleton|done].
Qed.

Section Performs.
Context (limits : DiffLimits) (declared : list RenameIntent).
Notation DState := DiffState.

Definition bounded (s : DState) : Prop := forall b, zlen (buckets s b) <= max_operations limits.
Definition fits (s : DState) (evs : list event) : Prop := forall b, zlen (buckets s b) + zlen (select b evs) <= max_operations limits.
Definition grows (s s' : DState) (evs : list event) (rs : list RenameIntent) : Prop :=
  (forall b, buckets s' b = buckets s b ++ select b evs) /\ (forall r, r ∈ used s' <-> r ∈ used s \/ r ∈ rs).

(** [f] emits these operations and uses these renames, or fails because a
    rename is not declared or a vector is full. *)
Definition performs (f : DState -> Result DState) (evs : list event) (rs : list RenameIntent) : Prop :=
  forall s, bounded s ->
  match f s with
  | Ok s' => grows s s' evs rs /\ Forall (fun r => r ∈ declared) rs /\ fits s evs
  | Err _ => ~ (Forall (fun r => r ∈ declared) rs /\ fits s evs)
  end.

Lemma zlen_app' {A} (l k : list A) : zlen (l ++ k) = zlen l + zlen k.
Proof. unfold zlen. rewrite length_app. lia. Qed.

Lemma grows_bounded s s' evs rs : grows s s' evs rs -> fits s evs -> bounded s'.
Proof. intros [Hb _] Hf b. rewrite Hb, zlen_app'. apply Hf. Qed.

Lemma fits_nil s : bounded s -> fits s [].
Proof. intros H b. specialize (H b). cbn. change (zlen []) with 0. lia. Qed.

Lemma fits_app s s' e1 e2 rs : grows s s' e1 rs -> fits s (e1 ++ e2) <-> fits s e1 /\ fits s' e2.
Proof.
  intros [Hb _]. split.
  - intros H. split; intros b; specialize (H b); rewrite select_app, zlen_app' in H; pose proof (zlen_nonneg (select b e2)).
    + lia.
    + rewrite Hb, zlen_app'. lia.
  - intros [_ H] b. specialize (H b). rewrite Hb, zlen_app' in H. rewrite select_app, zlen_app'. lia.
Qed.

Lemma fits_left s e1 e2 : fits s (e1 ++ e2) -> fits s e1.
Proof. intros H b. specialize (H b). rewrite select_app, zlen_app' in H. pose proof (zlen_nonneg (select b e2)). lia. Qed.

Lemma performs_ret : performs Ok [] [].
Proof.
  intros s Hs. split_and!; [|constructor|by apply fits_nil]. split; [intros b; by rewrite app_nil_r|]. intros r.
  split; [by left|]. by intros [?|?%elem_of_nil].
Qed.

Lemma performs_seq f g e1 r1 e2 r2 : performs f e1 r1 -> performs g e2 r2 -> performs (fun s => let? s' := f s in g s') (e1 ++ e2) (r1 ++ r2).
Proof.
  intros Hf Hg s Hs. specialize (Hf s Hs). destruct (f s) as [s1|d]; cbn [rbind].
  - destruct Hf as (G1 & D1 & F1). specialize (Hg s1 (grows_bounded _ _ _ _ G1 F1)). pose proof (fits_app s s1 e1 e2 r1 G1) as Ff.
    destruct (g s1) as [s2|d]; rewrite Forall_app; [|tauto]. destruct Hg as (G2 & D2 & F2). split; [|tauto]. destruct G1 as [B1 U1], G2 as [B2 U2]. split.
    + intros b. by rewrite B2, B1, select_app, app_assoc.
    + intros r. rewrite U2, U1, elem_of_app. tauto.
  - rewrite Forall_app. intros [[D1 _] F1]. apply Hf. split; [done|by eapply fits_left].
Qed.

Lemma performs_ext f g e r : (forall s, f s = g s) -> performs f e r -> performs g e r.
Proof. intros E H s Hs. rewrite <- E. by apply H. Qed.

Lemma performs_events f e r e' r' : e = e' -> r = r' -> performs f e r -> performs f e' r'.
Proof. by intros -> ->. Qed.

Lemma performs_push b op : performs (fun s => push_checked limits s b op) [(b, op)] [].
Proof.
  intros s Hs. unfold push_checked.
  assert (Fx : fits s [(b, op)] <-> zlen (buckets s b) < max_operations limits).
  { split.
    - intros H. specialize (H b). cbn in H. destruct (decide (b = b)); [|done]. unfold zlen in *. cbn in H. lia.
    - intros H b'. cbn. destruct (decide (b = b')) as [<-|]; [unfold zlen in *; cbn; lia|]. specialize (Hs b'). unfold zlen in *. cbn. lia. }
  destruct (Z.leb_spec (max_operations limits) (zlen (buckets s b))) as [Hl|Hl]; cbn [negb guard error rbind].
  - intros [_ H%Fx]. lia.
  - split_and!; [|constructor|by apply Fx]. split.
    + intros b'. cbn. destruct (decide (b' = b)) as [->|Hne]; [by destruct (decide (b = b))|]. destruct (decide (b = b')) as [->|]; [done|]. by rewrite app_nil_r.
    + intros r. cbn. split; [by left|]. by intros [?|?%elem_of_nil].
Qed.

Lemma performs_push_if c b op : performs (fun s => push_if limits c s b op) (if c then [(b, op)] else []) [].
Proof. destruct c; [apply performs_push|apply performs_ret]. Qed.

Lemma performs_require r : performs (fun s => require_declared declared s r) [] [r].
Proof.
  intros s Hs. unfold require_declared. case_bool_decide as Hr; cbn [guard error rbind].
  - split_and!; [|by constructor|by apply fits_nil]. split; [intros b; by rewrite app_nil_r|]. intros q. cbn [used]. rewrite list_elem_of_singleton.
    destruct (decide (r ∈ used s)) as [Hu|]; [|rewrite elem_of_cons; tauto]. split; [by left|]. by intros [?| ->].
  - by intros [[? _]%Forall_cons _].
Qed.

Lemma performs_fold {A} (f : DState -> A -> Result DState) (E : A -> list event) (R : A -> list RenameIntent) l :
  Forall (fun x => performs (fun s => f s x) (E x) (R x)) l -> performs (foldR f l) (flat_map E l) (flat_map R l).
Proof.
  induction 1 as [|x l Hx _ IH]; [apply performs_ret|]. cbn [flat_map].
  apply (performs_ext (fun s => let? s' := f s x in foldR f l s')); [done|]. by apply performs_seq.
Qed.
End Performs.

(** ** The operations and renames of a diff, declaratively *)
Definition emit (c : bool) (b : Bucket) (op : MigrationOperation) : list event := if c then [(b, op)] else [].
Definition renamed (old new : string) (r : RenameIntent) : list RenameIntent := if negb (String.eqb old new) then [r] else [].

Definition field_events (before after : CatalogEntity) : list event :=
  flat_map (fun f => emit (absent (entity_field after (cf_key f))) DropFields (DropField (ce_key before) f)) (ce_fields before) ++
  flat_map (fun f => emit (absent (entity_field before (cf_key f))) AddFields (AddField (ce_key after) f)) (ce_fields after) ++
  flat_map (fun old =>
    match entity_field after (cf_key old) with
    | None => []
    | Some new =>
        emit (negb (String.eqb (cf_name old) (cf_name new))) RenameFields (RenameField (ce_key before) (cf_key old) (cf_name old) (cf_name new)) ++
        emit (field_altered old new) AlterFields (AlterField (ce_key before) old new)
    end) (ce_fields before).
Definition field_renames (before after : CatalogEntity) : list RenameIntent :=
  flat_map (fun old =>
    match entity_field after (cf_key old) with
    | None => []
    | Some new => renamed (cf_name old) (cf_name new) (RIField (ce_key before) (cf_key old) (cf_name old) (cf_name new))
    end) (ce_fields before).

Definition index_events (before after : CatalogEntity) : list event :=
  flat_map (fun old =>
    emit (match entity_index after (ci_key old) with Some new => index_changed old new | None => true end)
      DropIndexes (DropIndex (ce_key before) old)) (ce_indexes before) ++
  flat_map (fun new =>
    match entity_index before (ci_key new) with
    | None => emit true CreateIndexes (CreateIndex (ce_key after) new)
    | Some old =>
        emit (index_changed old new) CreateIndexes (CreateIndex (ce_key after) new) ++
        emit (negb (String.eqb (ci_name old) (ci_name new)) && negb (index_changed old new))
          RenameIndexes (RenameIndex (ce_key before) (ci_key new) (ci_name old) (ci_name new))
    end) (ce_indexes after).
Definition index_renames (before after : CatalogEntity) : list RenameIntent :=
  flat_map (fun new =>
    match entity_index before (ci_key new) with
    | None => []
    | Some old => renamed (ci_name old) (ci_name new) (RIIndex (ce_key before) (ci_key new) (ci_name old) (ci_name new))
    end) (ce_indexes after).

Definition catalog_events (source target : list CatalogEntity) : list event :=
  flat_map (fun e => emit (absent (find_by ce_key (ce_key e) target)) DropEntities (DropEntity e)) source ++
  flat_map (fun e => emit (absent (find_by ce_key (ce_key e) source)) CreateEntities (CreateEntity e)) target ++
  flat_map (fun before =>
    match find_by ce_key (ce_key before) target with
    | None => []
    | Some after =>
        emit (negb (String.eqb (ce_name before) (ce_name after))) RenameEntities (RenameEntity (ce_key before) (ce_name before) (ce_name after)) ++
        field_events before after ++ index_events before after
    end) source.

(** The observed name changes. *)
Definition catalog_renames (source target : list CatalogEntity) : list RenameIntent :=
  flat_map (fun before =>
    match find_by ce_key (ce_key before) target with
    | None => []
    | Some after =>
        renamed (ce_name before) (ce_name after) (RIEntity (ce_key before) (ce_name before) (ce_name after)) ++
        field_renames before after ++ index_renames before after
    end) source.

Definition catalog_operations (source target : list CatalogEntity) : list MigrationOperation :=
  flat_map (fun b => select b (catalog_events source target)) bucket_order.

Section Exact.
Context (limits : DiffLimits) (declared : list RenameIntent).
Notation performs := (performs limits declared).

Lemma performs_entries {A} (key : A -> string) (f : DiffState -> string * A -> Result DiffState) (E : A -> list event)
  (R : A -> list RenameIntent) l : canonical key l -> (forall x, x ∈ l -> performs (fun s => f s (key x, x)) (E x) (R x)) ->
  performs (foldR f (keyed key l)) (flat_map E l) (flat_map R l).
Proof.
  intros Hc H. rewrite keyed_canonical by done. unfold entries. apply (performs_ext limits declared (foldR (fun s x => f s (key x, x)) l)).
  { intros s. by rewrite foldR_map. }
  apply performs_fold, Forall_forall. exact H.
Qed.

Lemma performs_rename old new r : performs (fun s => if negb (String.eqb old new) then require_declared declared s r else Ok s) [] (renamed old new r).
Proof. unfold renamed. destruct (negb (String.eqb old new)); [apply performs_require|apply performs_ret]. Qed.

Lemma flat_map_nil {A B} (l : list A) : flat_map (fun _ : A => @nil B) l = [].
Proof. by induction l. Qed.

Lemma performs_pure {A} (key : A -> string) (f : DiffState -> string * A -> Result DiffState) (E : A -> list event) l :
  canonical key l -> (forall x, x ∈ l -> performs (fun s => f s (key x, x)) (E x) []) -> performs (foldR f (keyed key l)) (flat_map E l) [].
Proof. intros Hc H. eapply performs_events; [reflexivity| |by apply (performs_entries key f E (fun _ => []))]. apply flat_map_nil. Qed.

Lemma diff_indexes_performs before after : valid_entity before -> valid_entity after ->
  performs (diff_indexes limits declared before after) (index_events before after) (index_renames before after).
Proof.
  intros Vb Va. unfold diff_indexes, index_events.
  assert (Eb : forall k, bt_get k (keyed ci_key (ce_indexes before)) = entity_index before k).
  { intros k. rewrite keyed_canonical, get_entries by apply Vb. done. }
  assert (Ea : forall k, bt_get k (keyed ci_key (ce_indexes after)) = entity_index after k).
  { intros k. rewrite keyed_canonical, get_entries by apply Va. done. }
  apply (performs_seq limits declared _ _ _ []).
  - apply performs_pure; [apply Vb|]. intros old _. rewrite Ea. unfold absent. destruct (entity_index after (ci_key old)); apply performs_push_if.
  - apply performs_entries; [apply Va|]. intros new _. rewrite Eb. destruct (entity_index before (ci_key new)) as [old|]; cbn [absent orb].
    + apply (performs_seq limits declared _ _ _ []); [apply performs_push_if|]. unfold renamed. destruct (negb (String.eqb _ _)); cbn [andb]; [|apply performs_ret].
      apply (performs_seq limits declared _ _ [] [_] _ []); [apply performs_require|apply performs_push_if].
    + apply (performs_seq limits declared _ _ [_] [] [] []); [apply performs_push|apply performs_ret].
Qed.

Lemma diff_entity_performs before after : valid_entity before -> valid_entity after ->
  performs (diff_entity limits declared before after) (field_events before after ++ index_events before after)
    (field_renames before after ++ index_renames before after).
Proof.
  intros Vb Va. unfold diff_entity, field_events.
  assert (Eb : forall k, bt_get k (keyed cf_key (ce_fields before)) = entity_field before k).
  { intros k. rewrite keyed_canonical, get_entries by apply Vb. done. }
  assert (Ea : forall k, bt_get k (keyed cf_key (ce_fields after)) = entity_field after k).
  { intros k. rewrite keyed_canonical, get_entries by apply Va. done. }
  rewrite <- !app_assoc. apply (performs_seq limits declared _ _ _ []).
  { apply performs_pure; [apply Vb|]. intros f _. rewrite Ea. apply performs_push_if. }
  apply (performs_seq limits declared _ _ _ []).
  { apply performs_pure; [apply Va|]. intros f _. rewrite Eb. apply performs_push_if. }
  apply performs_seq; [|by apply diff_indexes_performs].
  apply performs_entries; [apply Vb|]. intros old _. rewrite Ea. destruct (entity_field after (cf_key old)) as [new|]; [|apply performs_ret].
  eapply performs_events; [reflexivity|apply app_nil_r|]. apply performs_seq; [|apply performs_push_if].
  unfold renamed, emit. destruct (negb (String.eqb _ _)); [|apply performs_ret].
  apply (performs_seq limits declared _ _ [] [_] _ []); [apply performs_require|apply performs_push].
Qed.

Lemma diff_loops_perform source target : valid_catalog source -> valid_catalog target ->
  performs (fun s =>
    let source_entities := keyed ce_key source in
    let target_entities := keyed ce_key target in
    let? s := foldR (fun s '(key, entity) =>
      push_if limits (absent (bt_get key target_entities)) s DropEntities (DropEntity entity)) source_entities s in
    let? s := foldR (fun s '(key, entity) =>
      push_if limits (absent (bt_get key source_entities)) s CreateEntities (CreateEntity entity)) target_entities s in
    foldR (fun s '(key, before) =>
      match bt_get key target_entities with
      | None => Ok s
      | Some after =>
          let? s :=
            if negb (String.eqb (ce_name before) (ce_name after)) then
              let? s := require_declared declared s (RIEntity key (ce_name before) (ce_name after)) in
              push_checked limits s RenameEntities (RenameEntity key (ce_name before) (ce_name after))
            else Ok s in
          diff_entity limits declared before after s
      end) source_entities s) (catalog_events source target) (catalog_renames source target).
Proof.
  intros Vs Vt. cbv zeta. unfold catalog_events.
  assert (Es : forall k, bt_get k (keyed ce_key source) = find_by ce_key k source).
  { intros k. by rewrite keyed_canonical, get_entries by apply Vs. }
  assert (Et : forall k, bt_get k (keyed ce_key target) = find_by ce_key k target).
  { intros k. by rewrite keyed_canonical, get_entries by apply Vt. }
  apply (performs_seq limits declared _ _ _ []).
  { apply performs_pure; [apply Vs|]. intros e _. rewrite Et. apply performs_push_if. }
  apply (performs_seq limits declared _ _ _ []).
  { apply performs_pure; [apply Vt|]. intros e _. rewrite Es. apply performs_push_if. }
  apply performs_entries; [apply Vs|]. intros before Hb. rewrite Et. destruct (find_by ce_key (ce_key before) target) as [after|] eqn:Ea; [|apply performs_ret].
  apply performs_seq.
  - unfold renamed, emit. destruct (negb (String.eqb _ _)); [|apply performs_ret].
    apply (performs_seq limits declared _ _ [] [_] _ []); [apply performs_require|apply performs_push].
  - destruct Vs as [_ _ Fs], Vt as [Ct _ Ft]. rewrite Forall_forall in Fs, Ft. apply diff_entity_performs; [by apply Fs|].
    apply find_by_some in Ea as [? _]; [|done]. by apply Ft.
Qed.

Lemma append_all (bs : list Bucket) (v : Bucket -> list MigrationOperation) ops r : zlen ops <= max_operations limits ->
  foldR (fun ops b => append_checked limits ops (v b)) bs ops = Ok r <->
  zlen (ops ++ flat_map v bs) <= max_operations limits /\ r = ops ++ flat_map v bs.
Proof.
  revert ops. induction bs as [|b bs IH]; intros ops Ho; cbn [foldR flat_map].
  { rewrite app_nil_r. split; [by intros [= ->]|by intros [_ ->]]. }
  unfold append_checked at 1. destruct (Z.ltb_spec (max_operations limits) (zlen ops + zlen (v b))) as [Hl|Hl]; cbn [negb guard error rbind].
  - split; [done|]. rewrite app_assoc, !zlen_app'. pose proof (zlen_nonneg (flat_map v bs)). lia.
  - rewrite IH by (rewrite zlen_app'; lia). by rewrite <- app_assoc.
Qed.
End Exact.

(** Three loops in a row are one computation. *)
Lemma rbind_loops {A B C D} (m : Result A) (f : A -> Result B) (g : B -> Result C) (h : C -> Result D) :
  rbind m (fun x => rbind (f x) (fun y => rbind (g y) h)) = rbind (rbind m (fun x => rbind (f x) g)) h.
Proof. destruct m as [a|]; [|done]. cbn [rbind]. by destruct (f a). Qed.

Lemma select_le b evs : zlen (select b evs) <= zlen (flat_map (fun b => select b evs) bucket_order).
Proof.
  assert (Hb : b ∈ bucket_order) by (destruct b; unfold bucket_order; set_solver).
  apply list_elem_of_split in Hb as (l1 & l2 & ->). rewrite flat_map_app. cbn [flat_map]. rewrite !zlen_app'.
  pose proof (zlen_nonneg (flat_map (fun b => select b evs) l1)). pose proof (zlen_nonneg (flat_map (fun b => select b evs) l2)). lia.
Qed.

Lemma forallb_subset {A} `{EqDecision A} (l k : list A) : forallb (fun r => bool_decide (r ∈ k)) l = true <-> forall r, r ∈ l -> r ∈ k.
Proof. rewrite forallb_forall. setoid_rewrite bool_decide_eq_true. by setoid_rewrite list_elem_of_In. Qed.

Lemma diff_exact source target intent limits d : 0 <= max_operations limits ->
  valid_catalog (cs_entities source) -> valid_catalog (cs_entities target) ->
  diff_catalog source target intent limits = Ok d <->
  (max_operations limits <> 0 /\ max_rename_intents limits <> 0 /\ cs_scope source = cs_scope target /\
   zlen intent <= max_rename_intents limits /\
   (forall r, r ∈ intent <-> r ∈ catalog_renames (cs_entities source) (cs_entities target)) /\
   zlen (catalog_operations (cs_entities source) (cs_entities target)) <= max_operations limits) /\
  d = mkCatalogDiff source target (catalog_operations (cs_entities source) (cs_entities target)).
Proof.
  intros Hm Vs Vt. unfold diff_catalog, diff_limits_validate. rewrite !check_then, !check_ok, negb_true_iff, orb_false_iff, !Z.eqb_neq, bool_decide_eq_true, negb_true_iff, Z.ltb_ge.
  pose proof (diff_loops_perform limits intent _ _ Vs Vt diff_start) as P. specialize (P ltac:(intros b; cbn; unfold zlen; cbn; lia)).
  cbv zeta in P. rewrite rbind_loops.
  set (evs := catalog_events (cs_entities source) (cs_entities target)) in *. set (rs := catalog_renames (cs_entities source) (cs_entities target)) in *.
  match type of P with match ?m with _ => _ end => set (loops := m) in * end.
  match goal with |- context [rbind ?m _] => change m with loops end.
  clearbody loops. unfold catalog_operations. fold evs.
  assert (Hall : Forall (fun r => r ∈ intent) rs <-> forall r, r ∈ rs -> r ∈ intent) by apply Forall_forall.
  assert (Hfit : zlen (flat_map (fun b => select b evs) bucket_order) <= max_operations limits -> fits limits diff_start evs).
  { intros H b. pose proof (select_le b evs). unfold zlen in *. cbn. lia. }
  destruct loops as [s'|e]; cbn [rbind].
  - destruct P as ([Gb Gu] & Gd & Gf). rewrite Hall in Gd.
    assert (Eb : flat_map (buckets s') bucket_order = flat_map (fun b => select b evs) bucket_order) by (cbn; by rewrite !Gb).
    rewrite check_then, check_ok, andb_true_iff, !forallb_subset.
    assert (Eu : forall r, r ∈ used s' <-> r ∈ rs) by (intros r; rewrite Gu; cbn; set_solver).
    rewrite rbind_ok. setoid_rewrite (append_all limits bucket_order (buckets s') []); [|done]. rewrite app_nil_l, Eb. setoid_rewrite Eu.
    split.
    + intros ([? ?] & ? & ? & [? ?] & ? & [? ->] & [= <-]). split; [|done]. split_and!; try done. intros r. split; auto.
    + intros [(? & ? & ? & ? & Hr & ?) ->]. split_and!; try done; [intros r; apply Hr|eexists; split; [split; [eassumption|reflexivity]|reflexivity]].
  - split; [by intros (_ & _ & _ & ?)|]. intros [(_ & _ & _ & _ & Hr & Hz) _]. exfalso. apply P. rewrite Hall. split; [intros r; apply Hr|auto].
Qed.

(** ** Diffs without operations *)
Lemma flat_map_empty {A B} (f : A -> list B) l : flat_map f l = [] <-> forall x, x ∈ l -> f x = [].
Proof.
  rewrite <- Forall_forall. induction l as [|x l IH]; cbn; [done|]. rewrite Forall_cons, <- IH. split.
  - by intros [? ?]%app_eq_nil.
  - by intros [-> ->].
Qed.

Lemma operations_nil source target : catalog_operations source target = [] <-> catalog_events source target = [].
Proof.
  unfold catalog_operations. rewrite flat_map_empty. split.
  - intros H. destruct (catalog_events source target) as [|[b op] evs]; [done|]. exfalso.
    assert (Hb : b ∈ bucket_order) by (destruct b; unfold bucket_order; set_solver).
    specialize (H b Hb). cbn in H. by destruct (decide (b = b)).
  - by intros ->.
Qed.

Lemma emit_nil c b op : emit c b op = [] <-> c = false.
Proof. by destruct c. Qed.

Lemma app_nil {A} (l k : list A) : l ++ k = [] <-> l = [] /\ k = [].
Proof. split; [apply app_eq_nil|by intros [-> ->]]. Qed.

Lemma absent_false {A} (o : option A) : absent o = false <-> exists x, o = Some x.
Proof. destruct o; cbn; naive_solver. Qed.

(** Two keyed lists with the same keys and the same element under each key. *)
Lemma canonical_agree {A} (key : A -> string) l k : canonical key l -> canonical key k ->
  (forall x, x ∈ l -> absent (find_by key (key x) k) = false) ->
  (forall y, y ∈ k -> absent (find_by key (key y) l) = false) ->
  (forall x y, x ∈ l -> y ∈ k -> key x = key y -> x = y) -> l = k.
Proof.
  intros Hl Hk Hlk Hkl He. apply (canonical_ext key); [done|done|]. intros s. apply option_eq. intros x. rewrite !find_by_some by done. split.
  - intros [Hx <-]. destruct (proj1 (absent_false _) (Hlk x Hx)) as [y [Hy Ey]%find_by_some]; [|done]. by rewrite (He x y).
  - intros [Hx <-]. destruct (proj1 (absent_false _) (Hkl x Hx)) as [y [Hy Ey]%find_by_some]; [|done]. by rewrite <- (He y x).
Qed.

Lemma find_by_self {A} (key : A -> string) l x : canonical key l -> x ∈ l -> find_by key (key x) l = Some x.
Proof. intros Hc Hx. by apply find_by_some. Qed.

Lemma field_altered_false old new : cf_key old = cf_key new -> cf_name old = cf_name new -> field_altered old new = false -> old = new.
Proof.
  destruct old, new. unfold field_altered. cbn. rewrite !orb_false_iff, !negb_false_iff, String.eqb_eq, !eqb_true_iff. by intros -> -> [[-> ->] ->].
Qed.

Lemma field_altered_refl f : field_altered f f = false.
Proof. unfold field_altered. by rewrite String.eqb_refl, !eqb_reflx. Qed.

Lemma index_changed_false old new : ci_key old = ci_key new -> ci_name old = ci_name new -> index_changed old new = false -> old = new.
Proof.
  destruct old, new. unfold index_changed. cbn. rewrite orb_false_iff, !negb_false_iff, bool_decide_eq_true, eqb_true_iff. by intros -> -> [-> ->].
Qed.

Lemma index_changed_refl i : index_changed i i = false.
Proof. unfold index_changed. by rewrite bool_decide_eq_true_2, eqb_reflx. Qed.

Lemma field_events_nil before after : valid_entity before -> valid_entity after ->
  field_events before after = [] <-> ce_fields before = ce_fields after.
Proof.
  intros [Cb _ _ _ _] [Ca _ _ _ _]. unfold field_events. rewrite !app_nil, !flat_map_empty. split.
  - intros (Hd & Ha & Hs). apply (canonical_agree cf_key); [done|done| | |].
    + intros f Hf. by apply (emit_nil _ DropFields (DropField (ce_key before) f)), Hd.
    + intros f Hf. by apply (emit_nil _ AddFields (AddField (ce_key after) f)), Ha.
    + intros f g Hf Hg E. specialize (Hs f Hf). unfold entity_field in Hs. rewrite E, (find_by_self _ _ g Ca Hg) in Hs.
      apply app_nil in Hs as [Hn%emit_nil Hs%emit_nil]. apply negb_false_iff, String.eqb_eq in Hn. by apply field_altered_false.
  - unfold entity_field. intros E. split_and!; intros f Hf.
    + rewrite <- E, find_by_self by done. done.
    + rewrite E, find_by_self by done. done.
    + rewrite <- E, find_by_self by done. by rewrite String.eqb_refl, field_altered_refl.
Qed.

Lemma index_events_nil before after : valid_entity before -> valid_entity after ->
  index_events before after = [] <-> ce_indexes before = ce_indexes after.
Proof.
  intros [_ Cb _ _ _] [_ Ca _ _ _]. unfold index_events. rewrite !app_nil, !flat_map_empty. split.
  - intros (Hd & Hc). apply (canonical_agree ci_key); [done|done| | |].
    + intros i Hi. specialize (Hd i Hi). apply emit_nil in Hd. unfold entity_index in Hd. by destruct (find_by ci_key (ci_key i) (ce_indexes after)).
    + intros i Hi. specialize (Hc i Hi). unfold entity_index in Hc. by destruct (find_by ci_key (ci_key i) (ce_indexes before)).
    + intros i j Hi Hj E. specialize (Hc j Hj). unfold entity_index in Hc. rewrite <- E, (find_by_self _ _ i Cb Hi) in Hc.
      apply app_nil in Hc as [Hch%emit_nil Hn%emit_nil]. rewrite Hch, andb_true_r in Hn. apply negb_false_iff, String.eqb_eq in Hn. by apply index_changed_false.
  - unfold entity_index. intros E. split; intros i Hi.
    + rewrite <- E, find_by_self by done. by rewrite index_changed_refl.
    + rewrite E, find_by_self by done. by rewrite index_changed_refl, String.eqb_refl.
Qed.

Lemma catalog_events_nil source target : valid_catalog source -> valid_catalog target ->
  catalog_events source target = [] <-> source = target.
Proof.
  intros [Cs _ Vs] [Ct _ Vt]. unfold catalog_events. rewrite Forall_forall in Vs, Vt. rewrite !app_nil, !flat_map_empty. split.
  - intros (Hd & Hc & Hs). apply (canonical_agree ce_key); [done|done| | |].
    + intros e He. by apply (emit_nil _ DropEntities (DropEntity e)), Hd.
    + intros e He. by apply (emit_nil _ CreateEntities (CreateEntity e)), Hc.
    + intros e f He Hf E. specialize (Hs e He). rewrite E, (find_by_self _ _ f Ct Hf) in Hs.
      apply app_nil in Hs as [Hn%emit_nil [Hfd Hix]%app_nil]. apply negb_false_iff, String.eqb_eq in Hn.
      apply field_events_nil in Hfd; [|auto|auto]. apply index_events_nil in Hix; [|auto|auto]. destruct e, f; cbn in *; by subst.
  - intros ->. split_and!; intros e He; rewrite find_by_self by done; [done|done|]. rewrite String.eqb_refl. cbn [negb emit app].
    apply app_nil. split; [by apply field_events_nil; auto|by apply index_events_nil; auto].
Qed.

Lemma catalog_operations_nil source target : valid_catalog source -> valid_catalog target ->
  catalog_operations source target = [] <-> source = target.
Proof. intros Vs Vt. rewrite operations_nil. by apply catalog_events_nil. Qed.

Lemma catalog_renames_refl es : valid_catalog es -> catalog_renames es es = [].
Proof.
  intros [Ce _ Ve]. rewrite Forall_forall in Ve. unfold catalog_renames. apply flat_map_empty. intros e He. rewrite find_by_self by done. unfold renamed at 1.
  rewrite String.eqb_refl. destruct (Ve e He) as [Cf Ci _ _ _]. apply app_nil. split; [done|]. apply app_nil.
  split; apply flat_map_empty; intros x Hx; unfold entity_field, entity_index; (rewrite find_by_self; [|done|done]); unfold renamed; by rewrite String.eqb_refl.
Qed.

(** The convergence check of an applier: no operation remains exactly when
    the entities agree. *)
Lemma diff_empty_ok source target limits : 0 <= max_operations limits ->
  valid_catalog (cs_entities source) -> valid_catalog (cs_entities target) ->
  (exists d, diff_catalog source target [] limits = Ok d /\ df_operations d = []) <->
  0 < max_operations limits /\ max_rename_intents limits <> 0 /\ 0 <= max_rename_intents limits /\
  cs_scope source = cs_scope target /\ cs_entities source = cs_entities target.
Proof.
  intros Hm Vs Vt. setoid_rewrite diff_exact; [|done..]. split.
  - intros (d & [(? & ? & ? & ? & _ & _) ->] & E). apply catalog_operations_nil in E; [|done|done]. unfold zlen in *. cbn in *. split_and!; [lia|done|lia|done|done].
  - intros (? & ? & ? & ? & E). rewrite E. eexists. split; [split; [|reflexivity]|by apply catalog_operations_nil]. rewrite catalog_renames_refl by done.
    split_and!; [lia|done|done|unfold zlen; cbn; lia|done|]. rewrite (proj2 (catalog_operations_nil _ _ Vt Vt) eq_refl). unfold zlen. cbn. lia.
Qed.

(** ** A migration *)
Definition sample_scope : CatalogScope := mkCatalogScope "fake" "test".
Definition sample_id : CatalogField := mkCatalogField "id" "id" "u64" true false.
Definition sample_email : CatalogField := mkCatalogField "email" "email" "text" false true.
Definition sample_source : CatalogSnapshot := mkCatalogSnapshot sample_scope "revision-one"
  [mkCatalogEntity "log" "logs" [sample_id] []; mkCatalogEntity "user" "users" [sample_id] []].
Definition sample_target : CatalogSnapshot := mkCatalogSnapshot sample_scope "revision-two"
  [mkCatalogEntity "user" "people" [sample_email; sample_id] [mkCatalogIndex "by_email" "by_email" ["email"] true]].
Definition sample_intent : MigrationIntent := [RIEntity "user" "users" "people"].

Ltac no_dup := apply (bool_decide_unpack _); by vm_compute.
Ltac valid_sample := split; [reflexivity|no_dup|];
  repeat apply Forall_cons_2; [..|apply Forall_nil_2]; (split; [reflexivity|reflexivity|no_dup|no_dup|]);
  cbn; intros i f Hi Hf; repeat (apply elem_of_cons in Hi as [->|Hi]; [apply list_elem_of_singleton in Hf as ->; left|]); by apply elem_of_nil in Hi.

Lemma sample_source_valid : valid_catalog (cs_entities sample_source).
Proof. valid_sample. Qed.

Lemma sample_target_valid : valid_catalog (cs_entities sample_target).
Proof. valid_sample. Qed.

(** C26: two catalogs have a diff exactly when they share their scope, the
    declared renames are the name changes of the entities, fields and indexes
    that both contain, and renames and operations are within their limits; the
    diff then consists of the drops, creations, renames and alterations between
    the two, grouped by kind in the order of application. *)
Theorem diff_catalog_exact source target intent limits d : 0 <= max_operations limits ->
  valid_catalog (cs_entities source) -> valid_catalog (cs_entities target) ->
  diff_catalog source target intent limits = Ok d <->
  (max_operations limits <> 0 /\ max_rename_intents limits <> 0 /\ cs_scope source = cs_scope target /\
   zlen intent <= max_rename_intents limits /\
   (forall r, r ∈ intent <-> r ∈ catalog_renames (cs_entities source) (cs_entities target)) /\
   zlen (catalog_operations (cs_entities source) (cs_entities target)) <= max_operations limits) /\
  d = mkCatalogDiff source target (catalog_operations (cs_entities source) (cs_entities target)).
Proof. apply diff_exact. Qed.

Lemma diff_catalog_exact_witness : diff_catalog sample_source sample_target sample_intent default_diff_limits =
  Ok (mkCatalogDiff sample_source sample_target
    [DropEntity (mkCatalogEntity "log" "logs" [sample_id] []); RenameEntity "user" "users" "people"; AddField "user" sample_email;
     CreateIndex "user" (mkCatalogIndex "by_email" "by_email" ["email"] true)]).
Proof.
  apply (diff_catalog_exact sample_source sample_target sample_intent default_diff_limits); [by vm_compute|apply sample_source_valid|apply sample_target_valid|].
  split; [|reflexivity]. split_and!; try by vm_compute.
Defined.
