(* ===== verification/CatalogMaps.v ===== *)
(** * Migrations on finite maps

    A catalog as a map from entity keys to names, fields and indexes, every
    operation as a map update, and the effect of a sequence of operations
    computed pointwise: the operations of a diff turn the source into the
    target. *)
From Stdlib Require Import ZArith Lia.
From stdpp Require Import list gmap strings.
From S2P Require Import Prelude BTree Text Types Values Fingerprint Model Catalog CatalogSpec.

Local Open Scope Z_scope.

(** ** Catalogs as maps *)
Record MEntity := mkMEntity {
  me_name : string;
  me_fields : gmap string CatalogField;
  me_indexes : gmap string CatalogIndex
}.

Definition keymap {A} (key : A -> string) (l : list A) : gmap string A := list_to_map (entries key l).
Definition map_entity (e : CatalogEntity) : MEntity :=
  mkMEntity (ce_name e) (keymap cf_key (ce_fields e)) (keymap ci_key (ce_indexes e)).
Definition map_catalog (es : list CatalogEntity) : gmap string MEntity := map_entity <$> keymap ce_key es.

Lemma keymap_some {A} (key : A -> string) l k x : NoDup (map key l) -> keymap key l !! k = Some x <-> x ∈ l /\ key x = k.
Proof.
  intros Hd. unfold keymap. rewrite <- elem_entries. symmetry. apply elem_of_list_to_map. unfold entries.
  change ((fst <$> map (fun x => (key x, x)) l)) with (map fst (map (fun x => (key x, x)) l)). by rewrite map_map.
Qed.

Lemma keymap_find {A} (key : A -> string) l k : canonical key l -> keymap key l !! k = find_by key k l.
Proof. intros H. apply option_eq. intros x. rewrite keymap_some, find_by_some; [done|done|by apply canonical_nodup]. Qed.

Lemma map_catalog_find es k : canonical ce_key es -> map_catalog es !! k = map_entity <$> find_by ce_key k es.
Proof. intros H. unfold map_catalog. by rewrite lookup_fmap, keymap_find. Qed.

(** ** Operations as updates *)
Definition set_name (n : string) (e : MEntity) : MEntity := mkMEntity n (me_fields e) (me_indexes e).
Definition set_fields (f : gmap string CatalogField -> gmap string CatalogField) (e : MEntity) : MEntity :=
  mkMEntity (me_name e) (f (me_fields e)) (me_indexes e).
Definition set_indexes (f : gmap string CatalogIndex -> gmap string CatalogIndex) (e : MEntity) : MEntity :=
  mkMEntity (me_name e) (me_fields e) (f (me_indexes e)).
Definition field_named (n : string) (f : CatalogField) : CatalogField :=
  mkCatalogField (cf_key f) n (cf_data_type f) (cf_required f) (cf_nullable f).
Definition index_named (n : string) (i : CatalogIndex) : CatalogIndex :=
  mkCatalogIndex (ci_key i) n (ci_fields i) (ci_unique i).

(** Inside the entity an operation names. *)
Definition inner_step (op : MigrationOperation) (e : MEntity) : MEntity :=
  match op with
  | CreateEntity _ | DropEntity _ => e
  | RenameEntity _ _ to => set_name to e
  | AddField _ f => set_fields (insert (cf_key f) f) e
  | DropField _ f => set_fields (delete (cf_key f)) e
  | RenameField _ k _ to => set_fields (alter (field_named to) k) e
  | AlterField _ _ f => set_fields (alter (fun _ => f) (cf_key f)) e
  | CreateIndex _ i => set_indexes (insert (ci_key i) i) e
  | DropIndex _ i => set_indexes (delete (ci_key i)) e
  | RenameIndex _ k _ to => set_indexes (alter (index_named to) k) e
  end.

Definition op_entity (op : MigrationOperation) : string :=
  match op with
  | CreateEntity e | DropEntity e => ce_key e
  | RenameEntity k _ _ | AddField k _ | DropField k _ | RenameField k _ _ _ | AlterField k _ _
  | CreateIndex k _ | DropIndex k _ | RenameIndex k _ _ _ => k
  end.

Definition map_step (m : gmap string MEntity) (op : MigrationOperation) : gmap string MEntity :=
  match op with
  | CreateEntity e => <[ce_key e := map_entity e]> m
  | DropEntity e => delete (ce_key e) m
  | _ => alter (inner_step op) (op_entity op) m
  end.

Definition map_run (m : gmap string MEntity) (ops : list MigrationOperation) : gmap string MEntity := fold_left map_step ops m.

(** ** Pointwise effects *)
Definition entity_step (o : option MEntity) (op : MigrationOperation) : option MEntity :=
  match op with
  | CreateEntity e => Some (map_entity e)
  | DropEntity _ => None
  | _ => inner_step op <$> o
  end.

Definition about_entity (k : string) (op : MigrationOperation) : bool := bool_decide (op_entity op = k).

Lemma map_step_lookup m op k : map_step m op !! k = if about_entity k op then entity_step (m !! k) op else m !! k.
Proof.
  unfold about_entity. case_bool_decide as E.
  - destruct op; cbn [op_entity map_step entity_step] in *; subst k; rewrite ?lookup_insert_eq, ?lookup_delete_eq, ?lookup_alter_eq; done.
  - destruct op; cbn [op_entity map_step] in *; rewrite ?lookup_insert_ne, ?lookup_delete_ne, ?lookup_alter_ne by done; done.
Qed.

(** A part of the state that only some operations touch depends on those
    operations alone. *)
Lemma fold_view {S O V} (step : S -> O -> S) (view : S -> V) (touches : O -> bool) (vstep : V -> O -> V) :
  (forall s op, view (step s op) = if touches op then vstep (view s) op else view s) ->
  forall ops s, view (fold_left step ops s) = fold_left vstep (List.filter touches ops) (view s).
Proof.
  intros H ops. induction ops as [|op ops IH]; intros s; cbn [fold_left List.filter]; [done|].
  rewrite IH, H. by destruct (touches op).
Qed.

Lemma map_run_lookup ops m k : map_run m ops !! k = fold_left entity_step (List.filter (about_entity k) ops) (m !! k).
Proof. apply (fold_view map_step (fun m => m !! k)). intros s op. apply map_step_lookup. Qed.

Definition about_name (op : MigrationOperation) : bool := match op with RenameEntity _ _ _ => true | _ => false end.
Definition about_field (k : string) (op : MigrationOperation) : bool :=
  match op with
  | AddField _ f | DropField _ f | AlterField _ _ f => bool_decide (cf_key f = k)
  | RenameField _ k' _ _ => bool_decide (k' = k)
  | _ => false
  end.
Definition about_index (k : string) (op : MigrationOperation) : bool :=
  match op with
  | CreateIndex _ i | DropIndex _ i => bool_decide (ci_key i = k)
  | RenameIndex _ k' _ _ => bool_decide (k' = k)
  | _ => false
  end.

Definition name_step (n : string) (op : MigrationOperation) : string := match op with RenameEntity _ _ to => to | _ => n end.
Definition field_step (o : option CatalogField) (op : MigrationOperation) : option CatalogField :=
  match op with
  | AddField _ f => Some f
  | DropField _ _ => None
  | RenameField _ _ _ to => field_named to <$> o
  | AlterField _ _ f => (fun _ => f) <$> o
  | _ => o
  end.
Definition index_step (o : option CatalogIndex) (op : MigrationOperation) : option CatalogIndex :=
  match op with
  | CreateIndex _ i => Some i
  | DropIndex _ _ => None
  | RenameIndex _ _ _ to => index_named to <$> o
  | _ => o
  end.

Definition inner_run (e : MEntity) (ops : list MigrationOperation) : MEntity := fold_left (fun e op => inner_step op e) ops e.

Lemma inner_run_name ops e : me_name (inner_run e ops) = fold_left name_step (List.filter about_name ops) (me_name e).
Proof. apply (fold_view (fun e op => inner_step op e) me_name). intros s op. by destruct op. Qed.

Ltac pointwise := repeat case_bool_decide; subst; rewrite ?lookup_insert_eq, ?lookup_delete_eq, ?lookup_alter_eq; try done;
  rewrite ?lookup_insert_ne, ?lookup_delete_ne, ?lookup_alter_ne by done; done.

Lemma inner_run_field ops e k : me_fields (inner_run e ops) !! k = fold_left field_step (List.filter (about_field k) ops) (me_fields e !! k).
Proof. apply (fold_view (fun e op => inner_step op e) (fun e => me_fields e !! k)). intros s op. destruct op; cbn; pointwise. Qed.

Lemma inner_run_index ops e k : me_indexes (inner_run e ops) !! k = fold_left index_step (List.filter (about_index k) ops) (me_indexes e !! k).
Proof. apply (fold_view (fun e op => inner_step op e) (fun e => me_indexes e !! k)). intros s op. destruct op; cbn; pointwise. Qed.

(** Operations inside an entity keep it. *)
Definition is_inner (op : MigrationOperation) : bool := match op with CreateEntity _ | DropEntity _ => false | _ => true end.

Lemma inner_ops ops o : Forall (fun op => is_inner op = true) ops -> fold_left entity_step ops o = (fun e => inner_run e ops) <$> o.
Proof.
  intros H. revert o. induction H as [|op ops Hop _ IH]; intros o; cbn [fold_left]; [by destruct o|]. rewrite IH. destruct op; try done; by destruct o.
Qed.

(** ** The operations of a diff at a point *)
Definition ops_of (evs : list event) : list MigrationOperation := flat_map (fun b => select b evs) bucket_order.

Lemma filter_flat_map {A B} (P : B -> bool) (f : A -> list B) l :
  List.filter P (flat_map f l) = flat_map (fun x => List.filter P (f x)) l.
Proof. induction l as [|x l IH]; cbn; [done|]. by rewrite List.filter_app, IH. Qed.

Lemma filter_select P b evs : List.filter P (select b evs) = select b (List.filter (fun e => P (snd e)) evs).
Proof.
  unfold select. rewrite filter_flat_map. induction evs as [|[b' op] evs IH]; cbn; [done|]. rewrite IH.
  destruct (P op) eqn:E; cbn; destruct (decide (b' = b)); cbn; by rewrite ?E.
Qed.

Lemma filter_ops_of P evs : List.filter P (ops_of evs) = ops_of (List.filter (fun e => P (snd e)) evs).
Proof. unfold ops_of. rewrite filter_flat_map. apply flat_map_ext. intros b. apply filter_select. Qed.

(** Only the element with the key contributes. *)
Lemma flat_map_at {A B} (key : A -> string) (f : A -> list B) l k : canonical key l ->
  (forall x, x ∈ l -> key x <> k -> f x = []) -> flat_map f l = match find_by key k l with Some x => f x | None => [] end.
Proof.
  intros Hc Hf. destruct (find_by key k l) as [x|] eqn:E.
  - apply find_by_some in E as [Hx Ek]; [|done]. apply canonical_nodup in Hc. apply list_elem_of_split in Hx as (l1 & l2 & ->).
    rewrite map_app in Hc. cbn [map] in Hc. apply NoDup_app in Hc as (_ & H1 & [H2 _]%NoDup_cons).
    rewrite flat_map_app. cbn [flat_map]. rewrite !(proj2 (flat_map_empty f _)); [by rewrite app_nil_r| |].
    + intros y Hy. apply Hf; [set_solver|]. intros E. apply H2. rewrite Ek, <- E. by apply (list_elem_of_fmap_2 key).
    + intros y Hy. apply Hf; [set_solver|]. intros E. apply (H1 (key y)); [by apply (list_elem_of_fmap_2 key)|]. rewrite E, Ek. by left.
  - apply flat_map_empty. intros x Hx. apply Hf; [done|]. by apply (proj1 (find_by_none _ k l Hc) E).
Qed.

Definition touching (P : MigrationOperation -> bool) (evs : list event) : list event := List.filter (fun e => P (snd e)) evs.

Lemma touching_app P e1 e2 : touching P (e1 ++ e2) = touching P e1 ++ touching P e2.
Proof. apply List.filter_app. Qed.

Lemma touching_flat_map {A} P (f : A -> list event) l : touching P (flat_map f l) = flat_map (fun x => touching P (f x)) l.
Proof. apply filter_flat_map. Qed.

Lemma touching_emit P c b op : touching P (emit c b op) = if P op then emit c b op else [].
Proof. unfold touching, emit. destruct c; cbn; by destruct (P op). Qed.

Lemma touching_all P evs : Forall (fun e => P (snd e) = true) evs -> touching P evs = evs.
Proof. induction 1 as [|x l Hx _ IH]; [done|]. unfold touching in *. cbn. by rewrite Hx, IH. Qed.

Lemma touching_none P evs : Forall (fun e => P (snd e) = false) evs -> touching P evs = [].
Proof. induction 1 as [|x l Hx _ IH]; [done|]. unfold touching in *. cbn. by rewrite Hx. Qed.

Lemma Forall_emit (Q : event -> Prop) c b op : (c = true -> Q (b, op)) -> Forall Q (emit c b op).
Proof. intros H. destruct c; constructor; auto. Qed.

(** The operations between two versions of an entity. *)
Definition entity_events (before after : CatalogEntity) : list event :=
  emit (negb (String.eqb (ce_name before) (ce_name after))) RenameEntities (RenameEntity (ce_key before) (ce_name before) (ce_name after)) ++
  field_events before after ++ index_events before after.

Ltac every_event := repeat first
  [ apply Forall_app; split | apply Forall_emit; intros _ | apply Forall_flat_map, Forall_forall; intros ? _
  | match goal with |- Forall _ (match ?o with Some _ => _ | None => _ end) => destruct o end | apply Forall_nil ].

Lemma entity_events_inner before after : ce_key after = ce_key before ->
  Forall (fun e : event => is_inner (snd e) = true /\ op_entity (snd e) = ce_key before) (entity_events before after).
Proof. intros E. unfold entity_events, field_events, index_events. every_event; cbn [snd is_inner op_entity]; done. Qed.

Lemma catalog_events_at source target k : valid_catalog source -> valid_catalog target ->
  touching (about_entity k) (catalog_events source target) =
  match find_by ce_key k source, find_by ce_key k target with
  | Some e, None => [(DropEntities, DropEntity e)]
  | None, Some e => [(CreateEntities, CreateEntity e)]
  | Some before, Some after => entity_events before after
  | None, None => []
  end.
Proof.
  intros [Cs _ _] [Ct _ _]. unfold catalog_events. rewrite !touching_app, !touching_flat_map.
  assert (D : forall f c b op, ce_key f <> k -> op_entity op = ce_key f -> touching (about_entity k) (emit c b op) = []).
  { intros f c b op Hne E. rewrite touching_emit. unfold about_entity. by rewrite E, bool_decide_eq_false_2. }
  assert (K : forall c b op, op_entity op = k -> touching (about_entity k) (emit c b op) = emit c b op).
  { intros c b op E. rewrite touching_emit. unfold about_entity. by rewrite bool_decide_eq_true_2. }
  rewrite (flat_map_at ce_key _ source k) by (try done; intros e _ Hne; by apply (D e)).
  rewrite (flat_map_at ce_key _ target k) by (try done; intros e _ Hne; by apply (D e)).
  rewrite (flat_map_at ce_key _ source k); [|done|].
  - destruct (find_by ce_key k source) as [x|] eqn:Ex; destruct (find_by ce_key k target) as [y|] eqn:Ey;
      try (pose proof (proj1 (find_by_some ce_key k source x Cs) Ex) as [_ Kx]); try (pose proof (proj1 (find_by_some ce_key k target y Ct) Ey) as [_ Ky]);
      rewrite ?Kx, ?Ky, ?Ex, ?Ey, ?K by done; cbn [absent emit app]; try done.
    rewrite <- Kx. apply touching_all. eapply Forall_impl; [apply (entity_events_inner x y); congruence|]. intros ev [_ E]. cbn. unfold about_entity. rewrite E. by apply bool_decide_eq_true_2.
  - intros e He Hne. destruct (find_by ce_key (ce_key e) target) as [f|] eqn:Ef; [|done]. apply find_by_some in Ef as [_ Ef]; [|done].
    apply touching_none. eapply Forall_impl; [exact (entity_events_inner e f Ef)|]. intros ev [_ E]. cbn. unfold about_entity. rewrite E. by apply bool_decide_eq_false_2.
Qed.

(** At a field and at an index. *)
Lemma entity_events_field before after k : valid_entity before -> valid_entity after ->
  touching (about_field k) (entity_events before after) =
  match entity_field before k, entity_field after k with
  | Some f, None => [(DropFields, DropField (ce_key before) f)]
  | None, Some f => [(AddFields, AddField (ce_key after) f)]
  | Some old, Some new =>
      emit (negb (String.eqb (cf_name old) (cf_name new))) RenameFields (RenameField (ce_key before) k (cf_name old) (cf_name new)) ++
      emit (field_altered old new) AlterFields (AlterField (ce_key before) old new)
  | None, None => []
  end.
Proof.
  intros [Cb _ _ _ _] [Ca _ _ _ _]. unfold entity_events, field_events. rewrite !touching_app.
  assert (Ei : touching (about_field k) (index_events before after) = []).
  { apply touching_none. unfold index_events. every_event; done. }
  rewrite Ei, touching_emit, !app_nil_r, !touching_flat_map. cbn [about_field app]. unfold entity_field.
  assert (D : forall f c b op, cf_key f <> k -> about_field k op = bool_decide (cf_key f = k) -> touching (about_field k) (emit c b op) = []).
  { intros f c b op Hne E. rewrite touching_emit, E. by rewrite bool_decide_eq_false_2. }
  rewrite (flat_map_at cf_key _ (ce_fields before) k); [|done|by intros f _ Hne; apply (D f)].
  rewrite (flat_map_at cf_key _ (ce_fields after) k); [|done|by intros f _ Hne; apply (D f)].
  rewrite (flat_map_at cf_key _ (ce_fields before) k); [|done|].
  - destruct (find_by cf_key k (ce_fields before)) as [x|] eqn:Ex; destruct (find_by cf_key k (ce_fields after)) as [y|] eqn:Ey;
      try (pose proof (proj1 (find_by_some cf_key k _ x Cb) Ex) as [_ Kx]); try (pose proof (proj1 (find_by_some cf_key k _ y Ca) Ey) as [_ Ky]);
      rewrite ?Kx, ?Ky, ?Ex, ?Ey, ?touching_app, ?touching_emit; cbn [about_field absent emit app]; rewrite ?Kx, ?Ky, ?bool_decide_eq_true_2 by done; done.
  - intros f Hf Hne. destruct (find_by cf_key (cf_key f) (ce_fields after)) as [g|] eqn:Eg; [|done]. apply find_by_some in Eg as [_ Eg]; [|done].
    rewrite touching_app, !(D f); [done|done| |done|done]. cbn. by rewrite Eg.
Qed.

Lemma entity_events_index before after k : valid_entity before -> valid_entity after ->
  touching (about_index k) (entity_events before after) =
  match entity_index before k, entity_index after k with
  | Some i, None => [(DropIndexes, DropIndex (ce_key before) i)]
  | None, Some i => [(CreateIndexes, CreateIndex (ce_key after) i)]
  | Some old, Some new =>
      emit (index_changed old new) DropIndexes (DropIndex (ce_key before) old) ++
      emit (index_changed old new) CreateIndexes (CreateIndex (ce_key after) new) ++
      emit (negb (String.eqb (ci_name old) (ci_name new)) && negb (index_changed old new))
        RenameIndexes (RenameIndex (ce_key before) k (ci_name old) (ci_name new))
  | None, None => []
  end.
Proof.
  intros [_ Cb _ _ _] [_ Ca _ _ _]. unfold entity_events, index_events. rewrite !touching_app.
  assert (Ef : touching (about_index k) (field_events before after) = []).
  { apply touching_none. unfold field_events. every_event; done. }
  rewrite Ef, touching_emit, !touching_flat_map. cbn [about_index app]. unfold entity_index.
  assert (D : forall f c b op, ci_key f <> k -> about_index k op = bool_decide (ci_key f = k) -> touching (about_index k) (emit c b op) = []).
  { intros f c b op Hne E. rewrite touching_emit, E. by rewrite bool_decide_eq_false_2. }
  rewrite (flat_map_at ci_key _ (ce_indexes before) k); [|done|by intros i _ Hne; apply (D i)].
  rewrite (flat_map_at ci_key _ (ce_indexes after) k); [|done|].
  - destruct (find_by ci_key k (ce_indexes before)) as [x|] eqn:Ex; destruct (find_by ci_key k (ce_indexes after)) as [y|] eqn:Ey;
      try (pose proof (proj1 (find_by_some ci_key k _ x Cb) Ex) as [_ Kx]); try (pose proof (proj1 (find_by_some ci_key k _ y Ca) Ey) as [_ Ky]);
      rewrite ?Kx, ?Ky, ?Ex, ?Ey, ?touching_app, ?touching_emit; cbn [about_index absent emit app]; rewrite ?Kx, ?Ky, ?bool_decide_eq_true_2 by done; done.
  - intros i Hi Hne. destruct (find_by ci_key (ci_key i) (ce_indexes before)) as [j|] eqn:Ej.
    + rewrite touching_app, !(D i); done.
    + by apply (D i).
Qed.

Lemma entity_events_name before after :
  touching about_name (entity_events before after) =
  emit (negb (String.eqb (ce_name before) (ce_name after))) RenameEntities (RenameEntity (ce_key before) (ce_name before) (ce_name after)).
Proof.
  unfold entity_events. rewrite !touching_app, touching_emit. cbn [about_name]. rewrite !touching_none, !app_nil_r; [done| |].
  - unfold index_events. every_event; done.
  - unfold field_events. every_event; done.
Qed.

(** ** What a diff reaches *)
Lemma ops_of_touching P evs : List.filter P (ops_of evs) = ops_of (touching P evs).
Proof. apply filter_ops_of. Qed.

Lemma field_kept old new : cf_key old = cf_key new -> field_altered old new = false -> field_named (cf_name new) old = new.
Proof.
  destruct old, new. unfold field_altered, field_named. cbn. rewrite !orb_false_iff, !negb_false_iff, String.eqb_eq, !eqb_true_iff. by intros -> [[-> ->] ->].
Qed.

Lemma index_kept old new : ci_key old = ci_key new -> index_changed old new = false -> index_named (ci_name new) old = new.
Proof.
  destruct old, new. unfold index_changed, index_named. cbn. rewrite !orb_false_iff, !negb_false_iff, bool_decide_eq_true, eqb_true_iff. by intros -> [-> ->].
Qed.

Lemma map_entity_field e k : valid_entity e -> me_fields (map_entity e) !! k = entity_field e k.
Proof. intros [H _ _ _ _]. by apply keymap_find. Qed.

Lemma map_entity_index e k : valid_entity e -> me_indexes (map_entity e) !! k = entity_index e k.
Proof. intros [_ H _ _ _]. by apply keymap_find. Qed.

Lemma mentity_ext a b : me_name a = me_name b -> (forall k, me_fields a !! k = me_fields b !! k) ->
  (forall k, me_indexes a !! k = me_indexes b !! k) -> a = b.
Proof. intros En Ef Ei. apply map_eq in Ef, Ei. destruct a, b. cbn in *. by subst. Qed.

Lemma entity_events_run before after : valid_entity before -> valid_entity after ->
  inner_run (map_entity before) (ops_of (entity_events before after)) = map_entity after.
Proof.
  intros Vb Va. apply mentity_ext.
  - rewrite inner_run_name, ops_of_touching, entity_events_name. unfold emit, map_entity. cbn [me_name].
    destruct (String.eqb_spec (ce_name before) (ce_name after)); done.
  - intros k. rewrite inner_run_field, ops_of_touching, entity_events_field, !map_entity_field by done. unfold entity_field.
    destruct (find_by cf_key k (ce_fields before)) as [old|] eqn:Eo; destruct (find_by cf_key k (ce_fields after)) as [new|] eqn:En; try done.
    apply find_by_some in Eo as [_ Ko]; [|apply Vb]. apply find_by_some in En as [_ Kn]; [|apply Va].
    destruct (String.eqb_spec (cf_name old) (cf_name new)) as [Hn|Hn], (field_altered old new) eqn:Ha; try reflexivity.
    + change (Some old = Some new). f_equal. rewrite <- (field_kept old new), <- Hn by congruence. by destruct old.
    + change (Some (field_named (cf_name new) old) = Some new). f_equal. apply field_kept; congruence.
  - intros k. rewrite inner_run_index, ops_of_touching, entity_events_index, !map_entity_index by done. unfold entity_index.
    destruct (find_by ci_key k (ce_indexes before)) as [old|] eqn:Eo; destruct (find_by ci_key k (ce_indexes after)) as [new|] eqn:En; try done.
    apply find_by_some in Eo as [_ Ko]; [|apply Vb]. apply find_by_some in En as [_ Kn]; [|apply Va].
    destruct (String.eqb_spec (ci_name old) (ci_name new)) as [Hn|Hn], (index_changed old new) eqn:Hc; try reflexivity.
    + change (Some old = Some new). f_equal. rewrite <- (index_kept old new), <- Hn by congruence. by destruct old.
    + change (Some (index_named (ci_name new) old) = Some new). f_equal. apply index_kept; congruence.
Qed.

Lemma Forall_ops_of (Q : MigrationOperation -> Prop) evs : Forall (fun e => Q (snd e)) evs -> Forall Q (ops_of evs).
Proof.
  intros H. unfold ops_of. apply Forall_flat_map, Forall_forall. intros b _. apply Forall_forall. intros op Hop%elem_select.
  rewrite Forall_forall in H. exact (H _ Hop).
Qed.

Lemma operations_run source target : valid_catalog source -> valid_catalog target ->
  map_run (map_catalog source) (catalog_operations source target) = map_catalog target.
Proof.
  intros Vs Vt. pose proof Vs as [Cs _ Fs]. pose proof Vt as [Ct _ Ft]. rewrite Forall_forall in Fs, Ft. apply map_eq. intros k.
  change (catalog_operations source target) with (ops_of (catalog_events source target)).
  rewrite map_run_lookup, ops_of_touching, catalog_events_at, !map_catalog_find by done.
  destruct (find_by ce_key k source) as [x|] eqn:Ex; destruct (find_by ce_key k target) as [y|] eqn:Ey; try done.
  apply find_by_some in Ex as [Hx Kx]; [|done]. apply find_by_some in Ey as [Hy Ky]; [|done]. rewrite inner_ops.
  - cbn. f_equal. apply entity_events_run; auto.
  - apply Forall_ops_of. eapply Forall_impl; [apply (entity_events_inner x y); congruence|]. by intros ev [? _].
Qed.

(** Catalogs with the same maps are the same. *)
Lemma keymap_inj {A} (key : A -> string) l k : canonical key l -> canonical key k -> keymap key l = keymap key k -> l = k.
Proof. intros Hl Hk E. apply (canonical_ext key); [done..|]. intros s. by rewrite <- !keymap_find, E. Qed.

Lemma map_entity_inj a b : valid_entity a -> valid_entity b -> ce_key a = ce_key b -> map_entity a = map_entity b -> a = b.
Proof.
  intros [Fa Ia _ _ _] [Fb Ib _ _ _] Ek [= En Ef Ei]. destruct a, b. cbn in *. f_equal; [done|done|by eapply keymap_inj|by eapply keymap_inj].
Qed.

Lemma map_catalog_inj a b : valid_catalog a -> valid_catalog b -> map_catalog a = map_catalog b -> a = b.
Proof.
  intros [Ca _ Fa] [Cb _ Fb] E. rewrite Forall_forall in Fa, Fb. apply (canonical_ext ce_key); [done..|]. intros k.
  assert (Ek : map_entity <$> find_by ce_key k a = map_entity <$> find_by ce_key k b) by (by rewrite <- !map_catalog_find, E).
  destruct (find_by ce_key k a) as [x|] eqn:Ex, (find_by ce_key k b) as [y|] eqn:Ey; try done. f_equal.
  apply find_by_some in Ex as [Hx Kx]; [|done]. apply find_by_some in Ey as [Hy Ky]; [|done].
  apply map_entity_inj; [by apply Fa|by apply Fb|congruence|by apply Some_inj in Ek].
Qed.

(** C27: the operations of a diff, applied in their order as map updates to
    the source catalog, give exactly the target catalog: every entity, name,
    field and index, and nothing else. *)
Theorem diff_reaches_target source target intent limits d : 0 <= max_operations limits ->
  valid_catalog (cs_entities source) -> valid_catalog (cs_entities target) -> diff_catalog source target intent limits = Ok d ->
  map_run (map_catalog (cs_entities source)) (df_operations d) = map_catalog (cs_entities target).
Proof. intros Hm Vs Vt [_ ->]%diff_exact; [|done..]. by apply operations_run. Qed.

Lemma diff_reaches_target_witness : exists d, diff_catalog sample_source sample_target sample_intent default_diff_limits = Ok d /\
  map_run (map_catalog (cs_entities sample_source)) (df_operations d) = map_catalog (cs_entities sample_target).
Proof.
  destruct (diff_catalog sample_source sample_target sample_intent default_diff_limits) as [d|] eqn:E; [|vm_compute in E; discriminate E].
  exists d. split; [done|]. apply (diff_reaches_target sample_source sample_target sample_intent default_diff_limits);
    [by vm_compute|apply sample_source_valid|apply sample_target_valid|exact E].
Defined.
