(* ===== verification/MigrateSpec.v ===== *)
(** * Applying migrations, as map updates

    Every accepted step of the in-memory backend is the map update of its
    operation. *)
From Stdlib Require Import ZArith Lia.
From stdpp Require Import list gmap strings.
From S2P Require Import Prelude BTree Text Types Values Fingerprint Model Mutation.
From S2P Require Import Catalog CatalogSpec CatalogMaps Migration.

Local Open Scope Z_scope.

(** ** Lists as maps *)
Section Keymaps.
Context {A : Type} (key : A -> string).

Lemma keymap_sort l : NoDup (map key l) -> keymap key (sort_by (by_key key) l) = keymap key l.
Proof.
  intros H. apply map_eq. intros k. apply option_eq. intros x. rewrite !keymap_some, sort_by_elem; [done|done|]. by rewrite sort_by_perm.
Qed.

Lemma keymap_snoc l x : NoDup (map key (l ++ [x])) -> keymap key (l ++ [x]) = <[key x := x]> (keymap key l).
Proof.
  intros H. assert (Hl : NoDup (map key l)) by (rewrite map_app in H; by apply NoDup_app in H as [? _]).
  assert (Hx : forall y, y ∈ l -> key y <> key x).
  { intros y Hy E. rewrite map_app in H. apply NoDup_app in H as (_ & H & _). apply (H (key y)); [by apply (list_elem_of_fmap_2 key)|]. rewrite E. by left. }
  apply map_eq. intros k. apply option_eq. intros y. rewrite keymap_some, elem_of_app, list_elem_of_singleton by done. destruct (decide (k = key x)) as [->|Hne].
  - rewrite lookup_insert_eq. split; [|by intros [= ->]; auto]. intros [[Hy| ->] E]; [by destruct (Hx y)|done].
  - rewrite lookup_insert_ne by done. rewrite keymap_some by done. split; [|by intros [? ?]; auto]. by intros [[Hy| ->] E]; [|destruct Hne].
Qed.

Lemma keymap_without l k : NoDup (map key l) -> keymap key (without key k l) = delete k (keymap key l).
Proof.
  intros H. assert (Hw : forall x, x ∈ without key k l <-> x ∈ l /\ key x <> k).
  { intros x. unfold without. rewrite !list_elem_of_In, List.filter_In, negb_true_iff, String.eqb_neq. done. }
  assert (Hn : NoDup (map key (without key k l))).
  { unfold without. clear Hw. induction l as [|x l IH]; cbn; [constructor|]. cbn in H. apply NoDup_cons in H as [Hx H]. destruct (negb _); [|by apply IH].
    cbn. apply NoDup_cons. split; [|by apply IH]. intros (y & E & Hy)%elem_of_map. apply Hx. rewrite E. apply (list_elem_of_fmap_2 key).
    apply list_elem_of_In. apply list_elem_of_In, List.filter_In in Hy. by destruct Hy. }
  apply map_eq. intros j. apply option_eq. intros y. rewrite keymap_some, Hw by done. destruct (decide (j = k)) as [->|Hne].
  - rewrite lookup_delete_eq. split; [|done]. by intros [[_ ?] ?].
  - rewrite lookup_delete_ne by done. rewrite keymap_some by done. split; [by intros [[? ?] ?]|]. intros [? <-]. done.
Qed.

Lemma keymap_update (g : A -> A) l k : (forall x, x ∈ l -> key x = k -> key (g x) = k) -> NoDup (map key l) ->
  keymap key (map (fun x => if String.eqb (key x) k then g x else x) l) = alter g k (keymap key l).
Proof.
  intros Hg H. assert (Ek : map key (map (fun x => if String.eqb (key x) k then g x else x) l) = map key l).
  { rewrite map_map. apply map_ext_in. intros x Hx%list_elem_of_In. destruct (String.eqb_spec (key x) k); [|done]. rewrite Hg; done. }
  apply map_eq. intros j. apply option_eq. intros y. rewrite keymap_some by (by rewrite Ek). rewrite elem_of_map. destruct (decide (j = k)) as [->|Hne].
  - rewrite lookup_alter_eq, fmap_Some. split.
    + intros [(x & -> & Hx) E]. exists x. destruct (String.eqb_spec (key x) k) as [Hk|Hk]; [|done]. split; [by apply keymap_some|done].
    + intros (x & [Hx Hk]%keymap_some & ->); [|done]. split; [|by apply Hg]. exists x. by rewrite Hk, String.eqb_refl.
  - rewrite lookup_alter_ne, keymap_some by done. split.
    + intros [(x & -> & Hx) E]. destruct (String.eqb_spec (key x) k) as [Hk|Hk]; [|done]. by rewrite Hg in E.
    + intros [Hy E]. split; [|done]. exists y. destruct (String.eqb_spec (key y) k); [congruence|done].
Qed.

Lemma keymap_replace l1 x x' l2 : key x' = key x -> NoDup (map key (l1 ++ x :: l2)) ->
  keymap key (l1 ++ x' :: l2) = <[key x := x']> (keymap key (l1 ++ x :: l2)) /\ keymap key (l1 ++ x :: l2) !! key x = Some x.
Proof.
  intros E H. assert (Ek : map key (l1 ++ x' :: l2) = map key (l1 ++ x :: l2)) by (rewrite !map_app; cbn [map]; by rewrite E).
  split; [|apply keymap_some; [done|]; split; [|done]; apply elem_of_app; right; left].
  assert (Hne : forall y, y ∈ l1 \/ y ∈ l2 -> key y <> key x).
  { rewrite map_app in H. apply NoDup_app in H as (_ & H1 & [H2 _]%NoDup_cons). intros y [Hy|Hy] Ey.
    - apply (H1 (key y)); [by apply (list_elem_of_fmap_2 key)|]. rewrite Ey. by left.
    - apply H2. rewrite <- Ey. by apply (list_elem_of_fmap_2 key). }
  apply map_eq. intros k. apply option_eq. intros y. rewrite keymap_some by (by rewrite Ek). destruct (decide (k = key x)) as [->|Hk].
  - rewrite lookup_insert_eq, elem_of_app, elem_of_cons. split.
    + intros [[Hy|[->|Hy]] Ey]; [|done|]; by destruct (Hne y); auto.
    + intros [= ->]. auto.
  - rewrite lookup_insert_ne, keymap_some, !elem_of_app, !elem_of_cons by done. split; intros [[Hy|[->|Hy]] Ey]; auto; congruence.
Qed.
End Keymaps.

Lemma map_catalog_sort es : NoDup (map ce_key es) -> map_catalog (sort_by (by_key ce_key) es) = map_entity <$> keymap ce_key es.
Proof. intros H. unfold map_catalog. by rewrite keymap_sort. Qed.

(** ** Accepted steps *)
Definition with_working (b : FakeBackend) (w : CatalogSnapshot) : FakeBackend :=
  mkFakeBackend (fb_current b) (Some w) (fb_target_revision b) (fb_expected_steps b) (S (fb_completed_steps b))
    (fb_begin_count b) (fb_abort_count b).

Lemma snapshot_maps scope revision es limits s : snapshot_try_new_with_limits scope revision es limits = Ok s -> Forall valid_entity es ->
  valid_catalog (cs_entities s) /\ NoDup (map ce_key es) /\ map_catalog (cs_entities s) = map_entity <$> keymap ce_key es.
Proof.
  intros H Hv. apply snapshot_try_new_valid in H as [-> Hs]. specialize (Hs Hv). split; [done|]. cbn [cs_entities] in *.
  assert (Hn : NoDup (map ce_key es)) by (rewrite <- (sort_by_perm (by_key ce_key)); apply canonical_nodup, Hs). split; [done|by apply map_catalog_sort].
Qed.

Lemma replace_visible_ok es b b' : replace_visible_entities es b = (Ok tt, b') -> Forall valid_entity es ->
  exists w, b' = with_working b w /\ cs_scope w = cs_scope (fb_current b) /\ valid_catalog (cs_entities w) /\
    NoDup (map ce_key es) /\ map_catalog (cs_entities w) = map_entity <$> keymap ce_key es.
Proof.
  intros H Hv. unfold replace_visible_entities in H. apply mbind_ok in H as (rev & b1 & H1 & H2).
  assert (E : b1 = mkFakeBackend (fb_current b) (fb_working b) (fb_target_revision b) (fb_expected_steps b) (S (fb_completed_steps b)) (fb_begin_count b) (fb_abort_count b)).
  { destruct (Nat.eqb _ _); by apply mlift_ok in H1 as [_ ->]. }
  subst b1. unfold mtry in H2. cbn [fb_current fb_target_revision fb_expected_steps fb_completed_steps fb_begin_count fb_abort_count] in H2.
  destruct (snapshot_try_new _ _ _) as [w|] eqn:Ew; cbn [rbind] in H2; [|done]. injection H2 as <-. exists w.
  split; [done|]. split; [by apply snapshot_try_new_valid in Ew as [-> _]|]. by apply snapshot_maps in Ew.
Qed.

Lemma replace_first_ok key update l l' : replace_first key update l = Ok l' ->
  exists l1 e l2 e', l = l1 ++ e :: l2 /\ ce_key e = key /\ update e = Ok e' /\ l' = l1 ++ e' :: l2.
Proof.
  revert l'. induction l as [|x l IH]; intros l'; cbn [replace_first]; [done|]. destruct (String.eqb_spec (ce_key x) key) as [E|E].
  - intros (e' & He & [= <-])%rbind_ok. by exists [], x, l, e'.
  - intros (l'' & (l1 & e & l2 & e' & -> & ? & ? & ->)%IH & [= <-])%rbind_ok. by exists (x :: l1), e, l2, e'.
Qed.

Section Working.
Context (b : FakeBackend) (w : CatalogSnapshot).
Hypothesis locked : fb_working b = Some w.
Hypothesis valid : valid_catalog (cs_entities w).

Lemma visible_working : visible b = w.
Proof using locked. unfold visible. by rewrite locked. Qed.

(** What an accepted step establishes. *)
Definition steps_to (b' : FakeBackend) (m : gmap string MEntity) : Prop :=
  exists w', b' = with_working b w' /\ cs_scope w' = cs_scope (fb_current b) /\ valid_catalog (cs_entities w') /\ map_catalog (cs_entities w') = m.

Lemma replace_entity_ok key update (f : MEntity -> MEntity) b' :
  (forall e e', update e = Ok e' -> valid_entity e -> valid_entity e' /\ ce_key e' = ce_key e /\ map_entity e' = f (map_entity e)) ->
  replace_entity key update b = (Ok tt, b') -> steps_to b' (alter f key (map_catalog (cs_entities w))).
Proof using locked valid.
  intros Hu H. unfold replace_entity in H. rewrite mget_then, visible_working in H. apply mlift_then in H as (es & Hes & H).
  apply replace_first_ok in Hes as (l1 & e & l2 & e' & El & Ek & He & ->). pose proof valid as [Cw _ Vw]. rewrite El in Cw, Vw.
  apply Forall_app in Vw as [V1 [Ve V2]%Forall_cons_1]. destruct (Hu e e' He Ve) as (Ve' & Ek' & Em).
  apply replace_visible_ok in H as (w' & -> & Hs & Hv & Hn & Hm); [|apply Forall_app; split; [done|by constructor]]. exists w'. split_and!; try done.
  destruct (keymap_replace ce_key l1 e e' l2 Ek') as [Er Eg]; [by apply canonical_nodup|]. rewrite Hm, Er, fmap_insert. unfold map_catalog. rewrite El.
  apply map_eq. intros k. destruct (decide (k = key)) as [->|Hne].
  - rewrite Ek, lookup_insert_eq, lookup_alter_eq, lookup_fmap. rewrite Ek in Eg. rewrite Eg. cbn. by rewrite Em.
  - rewrite lookup_insert_ne, lookup_alter_ne by congruence. done.
Qed.

End Working.

(** Rebuilding an entity with other fields or other indexes. *)
Lemma with_fields_ok e fields e' : with_fields e fields = Ok e' ->
  valid_entity e' /\ ce_key e' = ce_key e /\
  (valid_entity e -> NoDup (map cf_key fields) /\ map_entity e' = set_fields (fun _ => keymap cf_key fields) (map_entity e)).
Proof.
  unfold with_fields, entity_try_new. intros [-> Hv]%entity_try_new_valid. split; [done|]. split; [done|]. intros [_ Ci _ _ _].
  assert (Hn : NoDup (map cf_key fields)) by (rewrite <- (sort_by_perm (by_key cf_key)); apply canonical_nodup, Hv).
  split; [done|]. unfold map_entity, set_fields. cbn [ce_name ce_fields ce_indexes me_name me_fields me_indexes]. rewrite keymap_sort by done. by rewrite canonical_sorted.
Qed.

Lemma with_indexes_ok e indexes e' : with_indexes e indexes = Ok e' ->
  valid_entity e' /\ ce_key e' = ce_key e /\
  (valid_entity e -> NoDup (map ci_key indexes) /\ map_entity e' = set_indexes (fun _ => keymap ci_key indexes) (map_entity e)).
Proof.
  unfold with_indexes, entity_try_new. intros [-> Hv]%entity_try_new_valid. split; [done|]. split; [done|]. intros [Cf _ _ _ _].
  assert (Hn : NoDup (map ci_key indexes)) by (rewrite <- (sort_by_perm (by_key ci_key)); apply canonical_nodup, Hv).
  split; [done|]. unfold map_entity, set_indexes. cbn [ce_name ce_fields ce_indexes me_name me_fields me_indexes]. rewrite (keymap_sort ci_key) by done. by rewrite canonical_sorted.
Qed.

Lemma mapR_named {A} (key : A -> string) (rebuild : A -> Result A) (named : A -> A) k l l' :
  (forall x y, rebuild x = Ok y -> y = named x) ->
  mapR (fun x => if String.eqb (key x) k then rebuild x else Ok x) l = Ok l' -> l' = map (fun x => if String.eqb (key x) k then named x else x) l.
Proof.
  intros Hr H%mapR_ok. induction H as [|x y l l' Hxy _ IH]; [done|]. cbn [map]. rewrite <- IH. f_equal.
  destruct (String.eqb (key x) k); [by apply Hr|by injection Hxy].
Qed.

Lemma field_try_new_ok key name ty r n f : field_try_new key name ty r n = Ok f -> f = mkCatalogField key name ty r n.
Proof. unfold field_try_new. intros H. do 3 (apply check_then in H as [_ H]). by injection H. Qed.

Lemma index_try_new_ok key name fields u i : index_try_new key name fields u = Ok i -> i = mkCatalogIndex key name fields u.
Proof. unfold index_try_new. intros H. do 3 (apply check_then in H as [_ H]). apply rbind_ok in H as (_ & _ & H). by injection H. Qed.

Definition introduces_valid (op : MigrationOperation) : Prop := match op with CreateEntity e => valid_entity e | _ => True end.

(** One lemma per shape of update. *)
Ltac fields_step He Hv := apply with_fields_ok in He as (? & ? & He); destruct (He Hv) as [Hn ->]; split_and!; [done|done|];
  cbn [inner_step]; unfold set_fields; cbn [me_name me_fields me_indexes map_entity]; f_equal.
Ltac indexes_step He Hv := apply with_indexes_ok in He as (? & ? & He); destruct (He Hv) as [Hn ->]; split_and!; [done|done|];
  cbn [inner_step]; unfold set_indexes; cbn [me_name me_fields me_indexes map_entity]; f_equal.

Lemma fake_step_ok step b b' w : fb_working b = Some w -> valid_catalog (cs_entities w) -> introduces_valid (ms_operation step) ->
  fake_apply_step step b = (Ok tt, b') -> steps_to b b' (map_step (map_catalog (cs_entities w)) (ms_operation step)).
Proof.
  intros Hl Hw Hi H. unfold fake_apply_step in H. rewrite mget_then, (visible_working b w) in H by done. pose proof Hw as [Cw _ Vw]. pose proof (canonical_nodup _ _ Cw) as Dw.
  destruct (ms_operation step) as [e|e|k from to|k f|k f|k fk from to|k before f|k i|k i|k ik from to]; cbn [map_step op_entity].
  - apply replace_visible_ok in H as (w' & -> & ? & ? & Hn & Hm); [|apply Forall_app; split; [done|by constructor]]. exists w'. split_and!; try done.
    by rewrite Hm, keymap_snoc, fmap_insert by done.
  - apply replace_visible_ok in H as (w' & -> & ? & ? & Hn & Hm).
    + exists w'. split_and!; try done. by rewrite Hm, keymap_without, fmap_delete by done.
    + rewrite Forall_forall in *. intros x Hx. apply Vw. unfold without in Hx. by apply list_elem_of_In, List.filter_In in Hx as [?%list_elem_of_In _].
  - eapply replace_entity_ok; [done|done| |exact H]. intros e e' He [Cf Ci _ _ _]. unfold entity_try_new in He. apply entity_try_new_valid in He as [-> ?].
    split_and!; [done|done|]. unfold map_entity. cbn. by rewrite !canonical_sorted.
  - eapply replace_entity_ok; [done|done| |exact H]. intros e e' He Hv. fields_step He Hv. by apply keymap_snoc.
  - eapply replace_entity_ok; [done|done| |exact H]. intros e e' He Hv. fields_step He Hv. apply keymap_without, canonical_nodup, Hv.
  - eapply replace_entity_ok; [done|done| |exact H]. intros e e' (l & Hl' & He)%rbind_ok Hv.
    apply (mapR_named cf_key _ (field_named to)) in Hl'; [|by intros x y ->%field_try_new_ok].
    subst l. fields_step He Hv. apply (keymap_update cf_key (field_named to)); [done|apply canonical_nodup, Hv].
  - eapply replace_entity_ok; [done|done| |exact H]. intros e e' He Hv. fields_step He Hv.
    apply (keymap_update cf_key (fun _ => f)); [done|apply canonical_nodup, Hv].
  - eapply replace_entity_ok; [done|done| |exact H]. intros e e' He Hv. indexes_step He Hv. by apply keymap_snoc.
  - eapply replace_entity_ok; [done|done| |exact H]. intros e e' He Hv. indexes_step He Hv. apply keymap_without, canonical_nodup, Hv.
  - eapply replace_entity_ok; [done|done| |exact H]. intros e e' (l & Hl' & He)%rbind_ok Hv.
    apply (mapR_named ci_key _ (index_named to)) in Hl'; [|by intros x y ->%index_try_new_ok].
    subst l. indexes_step He Hv. apply (keymap_update ci_key (index_named to)); [done|apply canonical_nodup, Hv].
Qed.

(** ** Plans *)
Definition planned_step (index : Z) (op : MigrationOperation) : MigrationStep := mkMigrationStep (index + 1) op (for_operation op).
Definition planned_steps (ops : list MigrationOperation) : list MigrationStep := imap (fun i => planned_step (Z.of_nat i)) ops.

Lemma covers_refl r : covers r r = true.
Proof. unfold covers. by rewrite !Z.leb_refl. Qed.

Lemma elem_numbered {A} (l : list A) i x : (i, x) ∈ numbered l <-> exists n, i = Z.of_nat n /\ l !! n = Some x.
Proof.
  unfold numbered. rewrite list_elem_of_lookup. setoid_rewrite list_lookup_imap. split.
  - intros (n & (y & Hy & [= -> ->])%fmap_Some). exists n. by rewrite Hy.
  - intros (n & -> & Hn). exists n. by rewrite Hn.
Qed.

Lemma numbered_map {A B} (f : Z -> A -> B) l : map (fun p => f (fst p) (snd p)) (numbered l) = imap (fun i => f (Z.of_nat i)) l.
Proof. unfold numbered. apply list_eq. intros i. rewrite lookup_map, !list_lookup_imap. by destruct (l !! i). Qed.

Lemma numbered_bound {A} (l : list A) i x : (i, x) ∈ numbered l -> i + 1 <= zlen l.
Proof. rewrite elem_numbered. intros (n & -> & Hn%lookup_lt_Some). unfold zlen. lia. Qed.

Lemma numbered_steps ops : numbered (planned_steps ops) = map (fun p => (fst p, planned_step (fst p) (snd p))) (numbered ops).
Proof. unfold planned_steps, numbered. apply list_eq. intros i. rewrite lookup_map, !list_lookup_imap. by destruct (ops !! i). Qed.

Lemma from_diff_ok d p : from_diff d = Ok p <->
  zlen (df_operations d) <= u32_max /\ cs_scope (df_source d) = cs_scope (df_target d) /\
  p = mkMigrationPlan (mkMigrationPlanIdentity (cs_scope (df_source d)) (cs_revision (df_source d)) (cs_revision (df_target d))
        (planned_steps (df_operations d))) (df_source d) (df_target d).
Proof.
  unfold from_diff. set (ops := df_operations d).
  assert (M : forall steps, mapR (fun '(index, op) => guard (index + 1 <=? u32_max) "MIGRATE-PLAN-001" ;;? Ok (mkMigrationStep (index + 1) op (for_operation op))) (numbered ops) = Ok steps <->
    zlen ops <= u32_max /\ steps = planned_steps ops).
  { intros steps. rewrite mapR_ok. unfold planned_steps. rewrite <- (numbered_map planned_step). split.
    - intros H. assert (G : zlen ops <= u32_max).
      { destruct (decide (ops = [])) as [->|Hne]; [done|]. destruct (last ops) as [x|] eqn:El; [|by apply last_None in El].
        rewrite last_lookup in El. assert (Hi : (Z.of_nat (pred (length ops)), x) ∈ numbered ops) by (apply elem_numbered; by exists (pred (length ops))).
        apply list_elem_of_lookup in Hi as [n Hn]. destruct (Forall2_lookup_l _ _ _ _ _ H Hn) as (y & _ & [Hb%check_ok%Z.leb_le _]%check_then).
        apply lookup_lt_Some in El. unfold zlen. lia. }
      split; [done|]. clear G. induction H as [|[i x] y l l' Hxy _ IH]; [done|]. cbn. rewrite <- IH. apply check_then in Hxy as [_ [= <-]]. done.
    - intros [Hb ->]. assert (G : forall i x, (i, x) ∈ numbered ops -> i + 1 <= u32_max) by (intros i x ?%numbered_bound; lia).
      induction (numbered ops) as [|[i x] l IH]; [constructor|]. cbn. constructor; [|apply IH; intros; apply (G i0 x0); by right].
      apply check_then. split; [|done]. apply check_ok, Z.leb_le. apply (G i x). by left. }
  assert (V : zlen ops <= u32_max -> forR (fun '(index, step) =>
    guard (index + 1 <=? u32_max) "MIGRATE-PLAN-001" ;;?
    guard (ms_id step =? index + 1) "MIGRATE-PLAN-003" ;;?
    guard (covers (ms_risk step) (for_operation (ms_operation step))) "MIGRATE-PLAN-004") (numbered (planned_steps ops)) = Ok tt).
  { intros Hb. apply forR_ok. rewrite numbered_steps. apply Forall_map, Forall_forall. intros [i x] Hi%numbered_bound. cbn.
    autorewrite with dol. rewrite covers_refl, Z.eqb_refl, Z.leb_le. split_and!; [lia|done|done]. }
  rewrite rbind_ok. setoid_rewrite M. unfold plan_try_new. split.
  - intros (steps & [Hb ->] & [Hs%check_ok%bool_decide_eq_true [_ [= <-]]%check_then]%check_then). done.
  - intros (Hb & Hs & ->). exists (planned_steps ops). split; [done|]. rewrite !check_then, check_ok, V by done. split; [by apply bool_decide_eq_true|done].
Qed.

Lemma planner_plan_ok limits source target intent p : 0 <= max_operations limits ->
  valid_catalog (cs_entities source) -> valid_catalog (cs_entities target) -> planner_plan limits source target intent = Ok p ->
  plan_source p = source /\ plan_target p = target /\ cs_scope source = cs_scope target /\
  plan_identity p = mkMigrationPlanIdentity (cs_scope source) (cs_revision source) (cs_revision target)
    (planned_steps (catalog_operations (cs_entities source) (cs_entities target))).
Proof.
  intros Hm Vs Vt. unfold planner_plan. intros (d & Hd%diff_exact & Hp)%rbind_ok; [|done..]. destruct Hd as [(_ & _ & Hs & _) ->].
  by apply from_diff_ok in Hp as (_ & _ & ->).
Qed.

Lemma map_imap_op ops : map ms_operation (planned_steps ops) = ops.
Proof. unfold planned_steps. apply list_eq. intros i. rewrite lookup_map, list_lookup_imap. by destruct (ops !! i). Qed.

Lemma operations_introduce_valid source target : valid_catalog target ->
  Forall introduces_valid (catalog_operations source target).
Proof.
  intros [_ _ Vt]. rewrite Forall_forall in Vt. apply (Forall_ops_of introduces_valid). unfold catalog_events. apply Forall_app. split; [every_event; done|].
  apply Forall_app. split; [|every_event; done]. apply Forall_flat_map, Forall_forall. intros e He. apply Forall_emit. intros _. by apply Vt.
Qed.

(** ** Runs of the in-memory backend *)
Lemma apply_steps_ok steps applied b b' ids w : fb_working b = Some w -> valid_catalog (cs_entities w) ->
  Forall introduces_valid (map ms_operation steps) -> apply_steps steps applied b = (Ok ids, b') ->
  ids = applied ++ map ms_id steps /\ fb_current b' = fb_current b /\
  exists w', fb_working b' = Some w' /\ valid_catalog (cs_entities w') /\
    map_catalog (cs_entities w') = map_run (map_catalog (cs_entities w)) (map ms_operation steps).
Proof.
  revert applied b w. induction steps as [|step steps IH]; intros applied b w Hl Hw Hi H; cbn [apply_steps map] in *.
  { apply mret_ok in H as [-> ->]. rewrite app_nil_r. split_and!; [done|done|]. by exists w. }
  apply Forall_cons in Hi as [Hi Hrest]. apply mbind_ok in H as ([] & b1 & H1 & H2). unfold map_err_mut in H1. change (apply_step step) with (fake_apply_step step) in H1.
  destruct (fake_apply_step step b) as [r b1'] eqn:E. destruct r as [[]|]; [|done]. injection H1 as ->.
  apply (fake_step_ok step b b1 w) in E as (w1 & -> & _ & Hv1 & Hm1); [|done..]. apply (IH _ _ w1) in H2 as (-> & Hc & w' & Hl' & Hv' & Hm'); [|done..].
  split_and!; [by rewrite <- app_assoc|done|]. exists w'. split_and!; [done|done|]. by rewrite Hm', Hm1.
Qed.

Lemma inspect_working scope limits b b' s w : fb_working b = Some w -> valid_catalog (cs_entities w) ->
  fake_inspect scope limits b = (Ok s, b') -> s = w /\ b' = b.
Proof.
  intros Hl [Cw Nw Vw] H. unfold fake_inspect in H. rewrite mget_then, (visible_working b w Hl) in H.
  apply mlift_ok in H as [[_ H]%check_then ->]. split; [|done]. apply snapshot_try_new_valid in H as [-> _]. rewrite canonical_sorted by done. by destruct w.
Qed.

(** Between [begin] and [finish] the committed catalog stays. *)
Definition locked_over (c : CatalogSnapshot) (b : FakeBackend) : Prop := fb_current b = c /\ exists w, fb_working b = Some w.

Lemma keeps_replace_visible c es : keeps (locked_over c) (replace_visible_entities es).
Proof.
  intros b Hb. unfold replace_visible_entities.
  match goal with |- locked_over c (snd (?m ?b1)) => enough (K : keeps (locked_over c) m) by (by apply K) end.
  apply keeps_mbind; [destruct (Nat.eqb _ _); auto with dol|]. intros rev b1 [Hc Hw]. unfold mtry. destruct (snapshot_try_new _ _ _); cbn; [|done].
  split; [done|by eexists].
Qed.

Lemma keeps_replace_entity c k update : keeps (locked_over c) (replace_entity k update).
Proof. apply keeps_mbind; [auto with dol|]. intros b. apply keeps_mbind; [auto with dol|]. intros es. apply keeps_replace_visible. Qed.

Lemma keeps_apply_step c step : keeps (locked_over c) (fake_apply_step step).
Proof.
  apply keeps_mbind; [auto with dol|]. intros b. destruct (ms_operation step); first [apply keeps_replace_visible|apply keeps_replace_entity].
Qed.

Lemma keeps_map_err c {A} (m : Mut FakeBackend A) e : keeps (locked_over c) m -> keeps (locked_over c) (map_err_mut m e).
Proof. intros Hm b Hb. unfold map_err_mut. specialize (Hm b Hb). by destruct (m b). Qed.

Lemma keeps_apply_steps c steps applied : keeps (locked_over c) (apply_steps steps applied).
Proof.
  revert applied. induction steps as [|step steps IH]; intros applied; cbn [apply_steps]; [auto with dol|].
  apply keeps_mbind; [apply keeps_map_err, keeps_apply_step|]. intros _. apply IH.
Qed.

Lemma keeps_inspect c scope limits : keeps (locked_over c) (fake_inspect scope limits).
Proof. apply keeps_mbind; [auto with dol|]. intros b. auto with dol. Qed.

Lemma keeps_while_locked c plan limits : keeps (locked_over c) (apply_while_locked plan limits).
Proof.
  unfold apply_while_locked. repeat first
    [ apply keeps_mbind; [first [apply keeps_inspect|apply keeps_apply_steps|auto with dol]|intros ?] | apply keeps_mret ].
Qed.

Lemma snapshot_eq a b : cs_scope a = cs_scope b -> cs_revision a = cs_revision b -> cs_entities a = cs_entities b -> a = b.
Proof. destruct a, b. cbn. by intros -> -> ->. Qed.

Section Planned.
Context (dl : DiffLimits) (source target : CatalogSnapshot) (intent : MigrationIntent) (plan : MigrationPlan).
Hypothesis dl_nonneg : 0 <= max_operations dl.
Hypothesis source_valid : valid_catalog (cs_entities source).
Hypothesis target_valid : valid_catalog (cs_entities target).
Hypothesis planned : planner_plan dl source target intent = Ok plan.

Lemma planned_parts : plan_source plan = source /\ plan_target plan = target /\ cs_scope source = cs_scope target /\
  plan_identity plan = mkMigrationPlanIdentity (cs_scope source) (cs_revision source) (cs_revision target)
    (planned_steps (catalog_operations (cs_entities source) (cs_entities target))).
Proof using All. by eapply planner_plan_ok. Qed.

Lemma planned_operations : map ms_operation (plan_steps plan) = catalog_operations (cs_entities source) (cs_entities target).
Proof using All. unfold plan_steps. destruct planned_parts as (_ & _ & _ & ->). apply map_imap_op. Qed.

(** Accepting every step reaches the target. *)
Lemma accepted_steps_reach b b' ids w : fb_working b = Some w -> cs_entities w = cs_entities source ->
  apply_steps (plan_steps plan) [] b = (Ok ids, b') ->
  ids = map ms_id (plan_steps plan) /\ fb_current b' = fb_current b /\ exists w', fb_working b' = Some w' /\ cs_entities w' = cs_entities target.
Proof using All.
  intros Hl Hw H. apply (apply_steps_ok _ _ _ _ _ w) in H as (-> & Hc & w' & Hl' & Hv & Hm); [|done|by rewrite Hw|].
  - split_and!; [done|done|]. exists w'. split; [done|]. apply map_catalog_inj; [done|done|]. by rewrite Hm, Hw, planned_operations, operations_run.
  - rewrite planned_operations. by apply operations_introduce_valid.
Qed.

Lemma while_locked_ok limits b b' report w : 0 <= max_steps limits -> fb_working b = Some w -> valid_catalog (cs_entities w) ->
  apply_while_locked plan limits b = (Ok report, b') ->
  w = source /\ fb_working b' = Some target /\ fb_current b' = fb_current b /\
  report = mkMigrationReport (plan_identity plan) (cs_revision source) (cs_revision target) (map ms_id (plan_steps plan)) 2.
Proof using All.
  intros Hm Hl Hw H. destruct planned_parts as (Es & Et & Esc & Eid). unfold apply_while_locked in H. rewrite Es, Et, Eid in H. cbn [id_scope id_source_revision id_target_revision] in H.
  apply mbind_ok in H as (s & b1 & Hs & H). apply (inspect_working _ _ _ _ _ w) in Hs as [-> ->]; [|done..].
  apply check_lift_then in H as [Hrev%check_ok%String.eqb_eq H]. apply check_lift_then in H as [Heq%check_ok H].
  unfold equivalent_catalog in Heq. apply andb_true_iff in Heq as [Hsc%bool_decide_eq_true Hen%bool_decide_eq_true].
  assert (w = source) by (by apply snapshot_eq). subst w. split; [done|].
  apply mbind_ok in H as (ids & b2 & Hsteps & H). apply (accepted_steps_reach _ _ _ source) in Hsteps as (-> & Hc & w' & Hl' & Hw'); [|done..].
  apply mbind_ok in H as (s & b3 & Hs & H). apply (inspect_working _ _ _ _ _ w') in Hs as [-> ->]; [|done|by rewrite Hw'].
  apply check_lift_then in H as [Hrev'%check_ok%String.eqb_eq H]. apply mlift_then in H as (d & Hd & H). apply check_lift_then in H as [_ H].
  apply mret_ok in H as [-> ->]. apply diff_exact in Hd as [(_ & _ & Hsc' & _) _]; [|done|by rewrite Hw'|done].
  assert (w' = target) by (by apply snapshot_eq). subst w'. split_and!; [done|done|by rewrite Eid].
Qed.
End Planned.

(** ** What an application leaves *)
Lemma fake_begin_ok plan b b' : fake_begin plan b = (Ok tt, b') ->
  fb_working b = None /\ fb_current b' = fb_current b /\ fb_working b' = Some (fb_current b).
Proof. unfold fake_begin, mtry. destruct (fb_working b); [done|]. by intros [= <-]. Qed.

Lemma fake_begin_err plan b b' e : fake_begin plan b = (Err e, b') -> b' = b.
Proof. unfold fake_begin, mtry. destruct (fb_working b); [by intros [= _ <-]|done]. Qed.

Lemma fake_finish_locked f b w : fb_working b = Some w -> exists b', fake_finish f b = (Ok tt, b') /\ fb_working b' = None /\
  fb_current b' = match f with Commit => w | Abort => fb_current b end.
Proof. intros Hl. unfold fake_finish, mtry. rewrite Hl. destruct f; by eexists. Qed.

(** C28: applying a planned migration to the in-memory backend is all or
    nothing.  A report means that the committed catalog was the plan's source
    and now is the plan's target, by exactly the plan's steps in order; after
    an error the committed catalog is the one from before.  The lock is
    released either way. *)
Theorem apply_all_or_nothing dl source target intent plan policy approval limits b r b' :
  0 <= max_operations dl -> 0 <= max_steps limits ->
  valid_catalog (cs_entities source) -> valid_catalog (cs_entities target) -> valid_catalog (cs_entities (fb_current b)) ->
  planner_plan dl source target intent = Ok plan -> fb_working b = None ->
  apply_migration plan policy approval limits b = (r, b') ->
  fb_working b' = None /\
  match r with
  | Ok report => fb_current b = source /\ fb_current b' = target /\ rp_applied_steps report = map ms_id (plan_steps plan)
  | Err _ => fb_current b' = fb_current b
  end.
Proof.
  intros Hd Hm Vs Vt Vb Hp Hl H. unfold apply_migration, apply_checked in H.
  do 3 (unfold mbind at 1 in H; unfold mlift at 1 in H; match type of H with (match ?c with _ => _ end) = _ => destruct c; [|by injection H as <- <-] end).
  unfold mbind at 1 in H. change (begin_migration plan) with (fake_begin plan) in H. destruct (fake_begin plan b) as [[[]|e] b1] eqn:Eb; [|apply fake_begin_err in Eb as ->; by injection H as <- <-].
  apply fake_begin_ok in Eb as (_ & Hc & Hl1). pose proof (keeps_while_locked (fb_current b) plan limits b1 (conj Hc (ex_intro _ _ Hl1))) as [Hc' [w' Hw']].
  destruct (apply_while_locked plan limits b1) as [[report|e] b2] eqn:Ew; cbn [snd] in Hc', Hw'.
  - eapply (while_locked_ok dl source target intent plan) in Ew; [|done..]. destruct Ew as (Es & Hl2 & _ & Er). destruct (fake_finish_locked Commit b2 target Hl2) as (b3 & E3 & Hn & Hcur).
    unfold mbind in H. change (finish_migration Commit) with (fake_finish Commit) in H. rewrite E3 in H. unfold mret in H. injection H as <- <-. split; [done|]. rewrite Hcur, Er. done.
  - destruct (fake_finish_locked Abort b2 w' Hw') as (b3 & E3 & Hn & Hcur). change (finish_migration Abort) with (fake_finish Abort) in H. rewrite E3 in H.
    injection H as <- <-. by rewrite Hcur.
Qed.

Definition sample_policy : MigrationPolicy := with_external_rebuild (with_destructive conservative).

Lemma apply_all_or_nothing_witness : exists plan approval report b',
  planner_plan default_diff_limits sample_source sample_target sample_intent = Ok plan /\
  approve_all plan "operator" "reviewed" = Ok approval /\
  apply_migration plan sample_policy (Some approval) default_apply_limits (fake_new sample_source) = (Ok report, b') /\
  fb_working b' = None /\ fb_current b' = sample_target.
Proof.
  destruct (planner_plan default_diff_limits sample_source sample_target sample_intent) as [plan|] eqn:E; [|vm_compute in E; discriminate E].
  destruct (approve_all plan "operator" "reviewed") as [approval|] eqn:Ea; [|vm_compute in E; injection E as <-; vm_compute in Ea; discriminate Ea].
  destruct (apply_migration plan sample_policy (Some approval) default_apply_limits (fake_new sample_source)) as [[report|d] b'] eqn:Er.
  2: { vm_compute in E. injection E as <-. vm_compute in Ea. injection Ea as <-. vm_compute in Er. discriminate Er. }
  exists plan, approval, report, b'. split_and!; try done;
    destruct (apply_all_or_nothing default_diff_limits sample_source sample_target sample_intent plan sample_policy (Some approval) default_apply_limits
      (fake_new sample_source) (Ok report) b' ltac:(by vm_compute) ltac:(by vm_compute) sample_source_valid sample_target_valid sample_source_valid E eq_refl Er)
      as (? & ? & ? & ?); done.
Defined.

(** A step the in-memory backend accepts is exactly the map update of its
    operation, on a working catalog that stays valid; the committed catalog and
    its scope stay. *)
Theorem accepted_step_refines step b b' w : fb_working b = Some w -> valid_catalog (cs_entities w) -> introduces_valid (ms_operation step) ->
  fake_apply_step step b = (Ok tt, b') ->
  fb_current b' = fb_current b /\
  exists w', fb_working b' = Some w' /\ valid_catalog (cs_entities w') /\
    map_catalog (cs_entities w') = map_step (map_catalog (cs_entities w)) (ms_operation step).
Proof. intros Hl Hw Hi H. apply (fake_step_ok step b b' w) in H as (w' & -> & _ & Hv & Hm); [|done..]. split; [done|]. by exists w'. Qed.

Lemma accepted_step_refines_witness : exists b' w',
  fake_apply_step (planned_step 0 (AddField "user" sample_email)) (with_working (fake_new sample_source) sample_source) = (Ok tt, b') /\
  fb_working b' = Some w' /\ map_catalog (cs_entities w') = map_step (map_catalog (cs_entities sample_source)) (AddField "user" sample_email).
Proof.
  destruct (fake_apply_step (planned_step 0 (AddField "user" sample_email)) (with_working (fake_new sample_source) sample_source)) as [[[]|d] b'] eqn:E;
    [|vm_compute in E; discriminate E].
  destruct (accepted_step_refines (planned_step 0 (AddField "user" sample_email)) (with_working (fake_new sample_source) sample_source) b' sample_source eq_refl sample_source_valid I E) as (_ & w' & ? & _ & ?). by exists b', w'.
Defined.

(** Exchanging two names is planned, but no order of renames passes a catalog
    with both names, so its application fails and changes nothing. *)
Definition swap_source : CatalogSnapshot := mkCatalogSnapshot sample_scope "one"
  [mkCatalogEntity "user" "users" [mkCatalogField "a" "first" "text" true false; mkCatalogField "b" "last" "text" true false] []].
Definition swap_target : CatalogSnapshot := mkCatalogSnapshot sample_scope "two"
  [mkCatalogEntity "user" "users" [mkCatalogField "a" "last" "text" true false; mkCatalogField "b" "first" "text" true false] []].
Definition swap_intent : MigrationIntent := [RIField "user" "a" "first" "last"; RIField "user" "b" "last" "first"].

Example swap_refused : exists plan approval d,
  planner_plan default_diff_limits swap_source swap_target swap_intent = Ok plan /\
  approve_all plan "operator" "reviewed" = Ok approval /\
  fst (apply_migration plan sample_policy (Some approval) default_apply_limits (fake_new swap_source)) = Err d.
Proof. do 3 eexists. split; [vm_compute; reflexivity|]. split; [vm_compute; reflexivity|]. vm_compute. reflexivity. Qed.
