(* ===== verification/MigrateProtocol.v ===== *)
(** * The calls of a migration

    Over any backend, with every call recorded: a plan that is not authorised
    makes no call, and an application begins once, inspects, steps in order,
    inspects again and finishes exactly once; it commits only after it has
    converged. *)
From Stdlib Require Import ZArith Lia.
From stdpp Require Import list.
From S2P Require Import Prelude BTree Text Types Values Fingerprint Model Mutation.
From S2P Require Import Catalog CatalogSpec Migration.

Local Open Scope Z_scope.

Inductive BackendCall := CallInspect | CallBegin | CallStep (id : Z) | CallFinish (finish : MigrationFinish).

#[export] Instance BackendCall_eq_dec : EqDecision BackendCall.
Proof. unfold EqDecision, Decision. decide equality; [apply Z.eq_dec|decide equality]. Defined.

Definition admitted (plan : MigrationPlan) (policy : MigrationPolicy) (approval : option MigrationApproval) (limits : ApplyLimits) : Prop :=
  apply_limits_validate limits = Ok tt /\ zlen (plan_steps plan) <= max_steps limits /\ authorize policy plan approval = Ok tt.

(** The checks before the lock. *)
Section Checks.
Context {B : Type} `{CatalogMutator B} (plan : MigrationPlan) (policy : MigrationPolicy)
  (approval : option MigrationApproval) (limits : ApplyLimits).

Definition locked_run : Mut B MigrationReport :=
  begin_migration plan ;;!
  fun b =>
    match apply_while_locked plan limits b with
    | (Ok report, b') => (finish_migration Commit ;;! mret report) b'
    | (Err primary, b') =>
        match finish_migration Abort b' with
        | (Ok _, b'') => (Err primary, b'')
        | (Err _, b'') => (error "MIGRATE-APPLY-003", b'')
        end
    end.

Lemma checks_first b :
  (admitted plan policy approval limits /\ apply_checked plan policy approval limits b = locked_run b) \/
  (~ admitted plan policy approval limits /\ exists d, forall {C} `{CatalogMutator C} (c : C), apply_checked plan policy approval limits c = (Err d, c)).
Proof.
  unfold admitted, apply_checked. unfold mbind at 1 2 3 5 6 7. unfold mlift.
  destruct (apply_limits_validate limits) as [[]|d]; [|right; split; [by intros [? _]|by exists d]].
  destruct (Z.ltb_spec (max_steps limits) (zlen (plan_steps plan))) as [Hl|Hl]; cbn [negb guard error]; [right; split; [lia|by eexists]|].
  destruct (authorize policy plan approval) as [[]|d]; [by left|]. right. split; [by intros (_ & _ & ?)|by exists d].
Qed.
End Checks.

Section Logged.
Context {B : Type} `{CatalogMutator B}.

Definition Logged : Type := B * list BackendCall.

Definition logged {A} (call : BackendCall) (m : Mut B A) : Mut Logged A := fun '(b, log) =>
  let '(r, b') := m b in (r, (b', log ++ [call])).

(** The backend with a record of the calls it receives. *)
#[export] Instance Logged_mutator : CatalogMutator Logged := {|
  inspect := fun scope limits => logged CallInspect (inspect scope limits);
  begin_migration := fun plan => logged CallBegin (begin_migration plan);
  apply_step := fun step => logged (CallStep (ms_id step)) (apply_step step);
  finish_migration := fun finish => logged (CallFinish finish) (finish_migration finish)
|}.

(** [m] does what [m'] does and makes these calls, or stops early with an
    error. *)
Definition makes {A} (m : Mut Logged A) (m' : Mut B A) (calls : list BackendCall) : Prop :=
  forall b log, exists made, m (b, log) = (fst (m' b), (snd (m' b), log ++ made)) /\
    match fst (m' b) with Ok _ => made = calls | Err _ => made `prefix_of` calls end.

Lemma makes_lift {A} (r : Result A) : makes (mlift r) (mlift r) [].
Proof. intros b log. exists []. cbn. rewrite app_nil_r. split; [done|]. by destruct r. Qed.

Lemma makes_call {A} call (m : Mut B A) : makes (logged call m) m [call].
Proof. intros b log. exists [call]. unfold logged. destruct (m b) as [r b']. cbn. split; [done|]. by destruct r. Qed.

Lemma makes_bind {A C} (m : Mut Logged A) m' (f : A -> Mut Logged C) f' c1 c2 :
  makes m m' c1 -> (forall a, makes (f a) (f' a) c2) -> makes (let! a := m in f a) (let! a := m' in f' a) (c1 ++ c2).
Proof.
  intros Hm Hf b log. destruct (Hm b log) as (made & E & P). unfold mbind. rewrite E. destruct (m' b) as [[a|e] b1]; cbn [fst snd] in *.
  - subst made. destruct (Hf a b1 (log ++ c1)) as (made & E' & P'). rewrite E'. exists (c1 ++ made). rewrite app_assoc. split; [by destruct (f' a b1)|].
    destruct (f' a b1) as [[x|e] b2]; cbn [fst] in *; [by subst|]. by apply prefix_app.
  - exists made. split; [done|]. by apply prefix_app_r.
Qed.

Lemma makes_map_err {A} (m : Mut Logged A) m' calls e : makes m m' calls -> makes (map_err_mut m e) (map_err_mut m' e) calls.
Proof.
  intros Hm b log. destruct (Hm b log) as (made & E & P). unfold map_err_mut. rewrite E. exists made. destruct (m' b) as [[a|d] b']; cbn in *; done.
Qed.

Lemma makes_steps steps applied : makes (apply_steps steps applied) (apply_steps steps applied) (map (fun s => CallStep (ms_id s)) steps).
Proof.
  revert applied. induction steps as [|step steps IH]; intros applied; cbn [apply_steps map]; [apply (makes_lift (Ok applied))|].
  apply (makes_bind _ _ _ _ [_]); [|intros _; apply IH]. apply makes_map_err. apply (makes_call (CallStep (ms_id step))).
Qed.

(** The calls of a complete application between [begin] and [finish]. *)
Definition locked_calls (plan : MigrationPlan) : list BackendCall :=
  CallInspect :: map (fun s => CallStep (ms_id s)) (plan_steps plan) ++ [CallInspect].

Lemma makes_while_locked plan limits : makes (apply_while_locked plan limits) (apply_while_locked plan limits) (locked_calls plan).
Proof.
  unfold apply_while_locked, locked_calls. apply (makes_bind _ _ _ _ [_]); [apply (makes_call CallInspect)|intros observed].
  apply (makes_bind _ _ _ _ []); [apply makes_lift|intros _]. apply (makes_bind _ _ _ _ []); [apply makes_lift|intros _].
  apply makes_bind; [apply makes_steps|intros ids]. apply (makes_bind _ _ _ _ [_] []); [apply (makes_call CallInspect)|intros final].
  apply (makes_bind _ _ _ _ [] []); [apply makes_lift|intros _]. apply (makes_bind _ _ _ _ [] []); [apply makes_lift|intros d].
  apply (makes_bind _ _ _ _ [] []); [apply makes_lift|intros _]. apply (makes_lift (Ok _)).
Qed.

(** The calls of an admitted application, given what taking the lock gave: its
    error, after which nothing is called, or the lock, which is then finished
    by the last call, whatever happens in between. *)
Definition protocol {A} (plan : MigrationPlan) (begun : Result unit) (r : Result A) (log : list BackendCall) : Prop :=
  match begun with
  | Err d => r = Err d /\ log = [CallBegin]
  | Ok _ =>
      match r with
      | Ok _ => log = CallBegin :: locked_calls plan ++ [CallFinish Commit]
      | Err _ => log = CallBegin :: locked_calls plan ++ [CallFinish Commit] \/
                 exists made, made `prefix_of` locked_calls plan /\ log = CallBegin :: made ++ [CallFinish Abort]
      end
  end.

(** C29: over every backend, an application is observable only through its
    calls: a plan over the limits or without authorisation makes none and
    leaves the backend as it is; otherwise the lock is taken first.  When that
    fails its error is returned and nothing else is called; when it succeeds,
    the steps run in order between two inspections, and the lock is finished
    exactly once, by the last call, which is a commit only after the whole
    sequence.  Recording the calls does not change the outcome. *)
Theorem apply_protocol plan policy approval limits b :
  let '(r, b') := apply_migration plan policy approval limits b in
  exists log, apply_migration (B:=Logged) plan policy approval limits (b, []) = (r, (b', log)) /\
    ((log = [] /\ b' = b /\ ~ admitted plan policy approval limits /\ exists d, r = Err d) \/
     (admitted plan policy approval limits /\ protocol plan (fst (begin_migration plan b)) r log)).
Proof.
  unfold apply_migration. destruct (checks_first plan policy approval limits b) as [[Ha E]|[Hn [d E]]]; rewrite E.
  2: { exists []. rewrite E. split; [done|]. left. split_and!; eauto. }
  destruct (checks_first (B:=Logged) plan policy approval limits (b, [])) as [[_ E']|[Hn _]]; [|done]. rewrite E'. clear E E'. unfold locked_run.
  unfold mbind at 1 3. cbn [begin_migration Logged_mutator]. unfold logged at 1. destruct (begin_migration plan b) as [[[]|d] b1].
  2: { exists [CallBegin]. split; [done|]. right. split; [done|]. done. }
  cbn [app]. destruct (makes_while_locked plan limits b1 [CallBegin]) as (made & -> & P). destruct (apply_while_locked plan limits b1) as [[report|d] b2]; cbn [fst snd] in *.
  - subst made. unfold mbind. cbn [finish_migration Logged_mutator logged]. destruct (finish_migration Commit b2) as [[[]|d] b3]; (eexists; split; [reflexivity|]; right; split; [done|]); cbn.
    + done.
    + by left.
  - cbn [finish_migration Logged_mutator logged]. destruct (finish_migration Abort b2) as [[[]|d'] b3]; (eexists; split; [reflexivity|]; right; split; [done|]); cbn; right; by exists made.
Qed.
End Logged.

(** ** Authorisation *)
Definition rewrites_data (op : MigrationOperation) : bool :=
  match op with AddField _ f => cf_required f | AlterField _ _ _ => true | _ => false end.
Definition destroys_data (op : MigrationOperation) : bool :=
  match op with DropEntity _ | DropField _ _ => true | _ => false end.
Definition additive (op : MigrationOperation) : bool :=
  match op with CreateEntity _ => true | AddField _ f => negb (cf_required f) | _ => false end.

(** A risk at least as high on every axis needs at least the same
    permissions. *)
Lemma covers_data r m : covers r m = true -> data_rank (risk_data m) <= data_rank (risk_data r) /\
  operational_rank (risk_operation m) <= operational_rank (risk_operation r) /\ automation_rank (risk_automation m) <= automation_rank (risk_automation r).
Proof. unfold covers. rewrite !andb_true_iff, !Z.leb_le. tauto. Qed.

(** In a plan that was accepted, with whatever risks it states for its
    steps, an authorised policy allows data rewrites for every step that
    rewrites data and destruction for every step that drops an entity or a
    field, and every step that is not purely additive is named in an approval
    made for exactly this plan. *)
Theorem authorized_steps_allowed source target steps plan policy approval step :
  plan_try_new source target steps = Ok plan -> authorize policy plan approval = Ok tt -> step ∈ plan_steps plan ->
  (destroys_data (ms_operation step) = true -> allow_destructive policy = true) /\
  (rewrites_data (ms_operation step) = true -> allow_data_rewrite policy = true) /\
  (additive (ms_operation step) = false ->
   exists a, approval = Some a /\ ap_plan_identity a = plan_identity plan /\ ms_id step ∈ ap_approved_steps a).
Proof.
  intros Hp Ha Hs. unfold plan_try_new in Hp. apply check_then in Hp as [_ Hp]. apply check_then in Hp as [Hf [= <-]]. unfold plan_steps in Hs. cbn [plan_identity id_steps] in *.
  assert (Hc : covers (ms_risk step) (for_operation (ms_operation step)) = true).
  { rewrite forR_ok, Forall_forall in Hf. apply list_elem_of_lookup in Hs as [n Hn].
    specialize (Hf (Z.of_nat n, step)). cbn in Hf. assert (Hin : (Z.of_nat n, step) ∈ numbered steps).
    { unfold numbered. apply list_elem_of_lookup. exists n. by rewrite list_lookup_imap, Hn. }
    specialize (Hf Hin). apply check_then in Hf as [_ Hf]. apply check_then in Hf as [_ Hf]. by apply check_ok in Hf. }
  apply covers_data in Hc as (Hd & Ho & Hu). unfold authorize in Ha. apply check_then in Ha as [Hi Ha]. rewrite forR_ok, Forall_forall in Ha.
  specialize (Ha step Hs). unfold authorize_step in Ha. apply check_then in Ha as [Hsafe Ha]. apply check_then in Ha as [Hop Hauto].
  split_and!.
  - intros H. destruct (ms_operation step); try done; cbn in Hd; destruct (risk_data (ms_risk step)); cbn in Hd; try lia; by apply check_ok in Hsafe.
  - intros H. destruct (ms_operation step) as [| | |? f| | | | | |]; try done; cbn in H, Ho; rewrite ?H in Ho; cbn in Ho;
      destruct (risk_operation (ms_risk step)); cbn in Ho; try lia; by apply check_ok in Hop.
  - intros H. assert (Hr : 1 <= automation_rank (risk_automation (ms_risk step))).
    { destruct (ms_operation step) as [| | |? f| | | | | |]; try done; cbn in H, Hu; rewrite ?H in Hu; cbn in Hu; lia. }
    destruct (risk_automation (ms_risk step)); cbn in Hr; [lia| |done|done]. apply check_ok in Hauto. unfold approved in Hauto.
    destruct approval as [a|]; [|done]. exists a. apply check_ok, bool_decide_eq_true in Hi. apply bool_decide_eq_true in Hauto. done.
Qed.

Lemma authorized_steps_allowed_witness : exists plan approval,
  planner_plan default_diff_limits sample_source sample_target sample_intent = Ok plan /\
  authorize (with_external_rebuild (with_destructive conservative)) plan (Some approval) = Ok tt /\
  forall step, step ∈ plan_steps plan -> additive (ms_operation step) = false -> ms_id step ∈ ap_approved_steps approval.
Proof.
  destruct (planner_plan default_diff_limits sample_source sample_target sample_intent) as [plan|] eqn:E; [|vm_compute in E; discriminate E].
  assert (Ep : plan_try_new sample_source sample_target (plan_steps plan) = Ok plan) by (vm_compute in E; injection E as <-; reflexivity).
  destruct (approve_all plan "operator" "reviewed") as [a|] eqn:Ea; [|vm_compute in E; injection E as <-; vm_compute in Ea; discriminate Ea].
  assert (Eo : authorize (with_external_rebuild (with_destructive conservative)) plan (Some a) = Ok tt).
  { vm_compute in E. injection E as <-. vm_compute in Ea. injection Ea as <-. reflexivity. }
  exists plan, a. split_and!; [done|done|]. intros step Hs Hn.
  destruct (authorized_steps_allowed _ _ _ _ _ _ step Ep Eo Hs) as (_ & _ & H). destruct (H Hn) as (a' & [= <-] & _ & ?). done.
Defined.
