(* ===== verification/PushDown.v ===== *)
(** * What the compilers of engines share

    Comparisons of datums and the datums of prepared nodes, as the soundness
    of every compiler of plans for a database uses them: the evaluator's
    comparison operators in one form, the types of evaluated nodes, the scopes
    of a row's context, the rows of a projection. *)
From Stdlib Require Import ZArith Lia.
From stdpp Require Import list.
From S2P Require Import Prelude Floats Foreign Truth BTree Text Types Values Fingerprint Model Expr Semantic ExprNormalize ExprValidate Row ExprPrepare Plan Executor ExecutorSpec Stream PipelineCompile PipelineTyping.

Local Open Scope Z_scope.

(** ** Lists *)
Definition enumerate {A} (l : list A) : list (nat * A) := imap (fun i x => (i, x)) l.

(** A list of the witnesses. *)
Lemma Forall2_witnesses {A B C} (R : A -> B -> C -> Prop) l k : Forall2 (fun x y => exists z, R x y z) l k -> exists m, Forall3 R l k m.
Proof.
  induction 1 as [|x y l k (z & Hz) _ (m & Hm)]; [exists []; constructor|]. exists (z :: m). by constructor.
Qed.

(** ** Comparisons and equality agree *)
Lemma compare_eqb a b : comparison_eqb (a ?= b) Eq = (a =? b).
Proof. rewrite Z.eqb_compare. by destruct (a ?= b). Qed.

Lemma string_compare_refl a : String.compare a a = Eq.
Proof. induction a as [|c a IH]; [done|]. cbn. by rewrite ascii_compare_refl. Qed.

Lemma string_compare_eqb a b : comparison_eqb (String.compare a b) Eq = String.eqb a b.
Proof.
  destruct (String.eqb_spec a b) as [->|Hn].
  - by rewrite string_compare_refl.
  - destruct (String.compare a b) eqn:E; [|done|done]. by apply String.compare_eq_iff in E.
Qed.

Lemma bytes_compare_eqb a b : comparison_eqb (list_cmp Z.compare a b) Eq = bytes_eqb a b.
Proof.
  unfold bytes_eqb. revert b. induction a as [|x a IH]; intros [|y b]; cbn; try done.
  rewrite Z.eqb_compare. destruct (x ?= y) eqn:E; [exact (IH b)|done|done].
Qed.

Lemma byte_char_compare a b : 0 <= a < 256 -> 0 <= b < 256 -> Ascii.compare (byte_char a) (byte_char b) = (a ?= b).
Proof.
  intros Ha Hb. unfold Ascii.compare, byte_char. rewrite !Ascii.N_ascii_embedding by lia. by rewrite <- Z2N.inj_compare by lia.
Qed.

Lemma text_of_bytes_compare l k : Forall (fun b => 0 <= b < 256) l -> Forall (fun b => 0 <= b < 256) k ->
  String.compare (text_of_bytes l) (text_of_bytes k) = list_cmp Z.compare l k.
Proof.
  intros Hl. revert k. induction Hl as [|a l Ha _ IH]; intros k [|b k' Hb Hk]; [done..|].
  change (match Ascii.compare (byte_char a) (byte_char b) with Eq => String.compare (text_of_bytes l) (text_of_bytes k') | c => c end = list_cmp Z.compare (a :: l) (b :: k')).
  rewrite byte_char_compare, IH by done. cbn. by destruct (a ?= b).
Qed.

(** UTF-8 keeps the order of scalar values. *)
Lemma char_text_compare a b : 0 <= a < 1114112 -> 0 <= b < 1114112 -> String.compare (char_text a) (char_text b) = (a ?= b).
Proof.
  intros Ha Hb.
  assert (D : forall c, 0 <= c < 1114112 -> exists x0 x1 x2 x3, 0 <= x0 < 64 /\ 0 <= x1 < 64 /\ 0 <= x2 < 64 /\ 0 <= x3 < 5 /\
    c mod 64 = x0 /\ c / 64 mod 64 = x1 /\ c / 4096 mod 64 = x2 /\ c / 262144 = x3 /\ c / 64 = 4096 * x3 + 64 * x2 + x1 /\ c / 4096 = 64 * x3 + x2 /\ c = 262144 * x3 + 4096 * x2 + 64 * x1 + x0).
  { intros c Hc. exists (c mod 64), (c / 64 mod 64), (c / 4096 mod 64), (c / 262144).
    pose proof (Z.mod_pos_bound c 64 ltac:(lia)). pose proof (Z.mod_pos_bound (c / 64) 64 ltac:(lia)). pose proof (Z.mod_pos_bound (c / 4096) 64 ltac:(lia)).
    pose proof (Z.div_mod c 64 ltac:(lia)) as E1. pose proof (Z.div_mod (c / 64) 64 ltac:(lia)) as E2. pose proof (Z.div_mod (c / 4096) 64 ltac:(lia)) as E3.
    rewrite Z.div_div in E2 by lia. rewrite Z.div_div in E3 by lia. change (64 * 64) with 4096 in E2. change (4096 * 64) with 262144 in E3.
    assert (0 <= c / 262144 < 5) by (split; [apply Z.div_pos; lia|apply Z.div_lt_upper_bound; lia]). lia. }
  destruct (D a Ha) as (a0 & a1 & a2 & a3 & ? & ? & ? & ? & A0 & A1 & A2 & A3 & A4 & A5 & Ea), (D b Hb) as (b0 & b1 & b2 & b3 & ? & ? & ? & ? & B0 & B1 & B2 & B3 & B4 & B5 & Eb).
  unfold char_text. rewrite A0, A1, A2, A3, A4, A5, B0, B1, B2, B3, B4, B5.
  clear D A0 A1 A2 A3 A4 A5 B0 B1 B2 B3 B4 B5.
  rewrite text_of_bytes_compare by (repeat case_match; repeat constructor; lia).
  destruct (Z.ltb_spec a 128), (Z.ltb_spec b 128), (Z.ltb_spec a 2048), (Z.ltb_spec b 2048), (Z.ltb_spec a 65536), (Z.ltb_spec b 65536); try lia; cbn [list_cmp];
    repeat match goal with |- context [?x ?= ?y] => destruct (Z.compare_spec x y) end; done || lia.
Qed.

Section PushDown.
Context {F : Foreign} {Q : Subqueries}.

(** ** Outputs *)
(** [PartialEq for ModelDef] and [PlanOutput]. *)
Definition model_eqb (a b : ModelDef) : bool :=
  String.eqb (md_key a) (md_key b) && String.eqb (md_name a) (md_name b) &&
  forallb2 (fun x y => String.eqb (fd_key x) (fd_key y) && String.eqb (fd_name x) (fd_name y) && Nat.eqb (fd_slot x) (fd_slot y) &&
                       type_eqb (fd_ty x) (fd_ty y) && bool_decide (fd_presence x = fd_presence y)) (md_fields a) (md_fields b) &&
  bool_decide (md_identity a = md_identity b) && bool_decide (md_unique a = md_unique b) &&
  bool_decide (md_relations a = md_relations b) && bool_decide (md_references a = md_references b).

Fixpoint plan_output_eqb (a b : PlanOutput) : bool :=
  match a, b with
  | OutModel m, OutModel n => model_eqb m n
  | OutValue s, OutValue t => type_eqb s t
  | OutProduct l, OutProduct k => forallb2 plan_output_eqb l k
  | OutNullable s, OutNullable t => plan_output_eqb s t
  | _, _ => false
  end.

(** ** Values of scalar types *)
Definition typed_value (ty : TypeDef) (v : Value) : Prop := forall r, ty_shape ty = ShScalar r -> scalar_matches r v = true.
Definition scalar_typed (ty : TypeDef) : Prop := exists r, ty_shape ty = ShScalar r.

Definition is_nan_value (v : Value) : bool :=
  match v with VFloat32 b => is_nan binary32 b | VFloat64 b => is_nan binary64 b | _ => false end.

Definition is_value (d : Datum) : bool := match d with DValue _ => true | _ => false end.

(** ** Comparisons of datums *)
Definition is_ordering (op : BinaryOp) : bool := match op with OpLt | OpLe | OpGt | OpGe => true | _ => false end.

(** The result of comparing two values, for equality and for an order. *)
Definition compare_result (op : BinaryOp) (v w : Value) : bool :=
  if is_ordering op then match value_partial_cmp v w with Some o => order_holds op o | None => false end else value_eqb v w.

Lemma compared_nan op r v w : scalar_matches r v = true -> scalar_matches r w = true -> is_nan_value v || is_nan_value w = true ->
  compare_result op v w = false.
Proof.
  intros Mv Mw N. unfold compare_result. destruct r, v; try discriminate Mv; destruct w; try discriminate Mw; try discriminate N.
  all: cbn [is_nan_value value_eqb value_partial_cmp] in *; unfold float_eqb, float_partial_cmp; rewrite N; by destruct (is_ordering op).
Qed.

Definition compare_with (b : Value -> Value -> bool) (l r : Datum) : Datum :=
  DValue (VTruth (match l, r with DValue v, DValue w => if b v w then TTrue else TFalse | _, _ => TUnknown end)).

Lemma compare_order_with op l r : is_ordering op = true -> compare_order op l r = Ok (compare_with (compare_result op) l r).
Proof.
  intros Ho. destruct l as [| |v], r as [| |w]; try done. unfold compare_order, compare_with, compare_result, truth. rewrite Ho.
  by destruct (value_partial_cmp v w).
Qed.

Lemma compare_equality_with l r negate :
  compare_equality l r negate = Ok (compare_with (fun v w => if negate then negb (value_eqb v w) else value_eqb v w) l r).
Proof. destruct l, r; done. Qed.

Lemma any_truth_cases ts :
  any_truth ts = if existsb (fun t => bool_decide (t = TTrue)) ts then TTrue
                 else if existsb (fun t => bool_decide (t = TUnknown)) ts then TUnknown else TFalse.
Proof.
  induction ts as [|t ts IH]; [done|]. cbn [any_truth foldr existsb]. change (foldr Truth.or TFalse ts) with (any_truth ts). rewrite IH.
  by destruct t, (existsb (fun t => bool_decide (t = TTrue)) ts), (existsb (fun t => bool_decide (t = TUnknown)) ts).
Qed.

(** ** Datums of nodes *)
(** Whether the datum has the type, as the evaluator checks it. *)
Definition checked_as (ty : TypeDef) (d : Datum) : Prop := forall v, d = DValue v -> conforms ty v.

Lemma checked_typed ty d v : checked_as ty d -> d = DValue v -> typed_value ty v.
Proof. intros C E r Hr. apply (conforms_scalar_inv ty r v Hr). by apply C. Qed.

Lemma validated_as ty d : validate_datum ty Optional d = Ok tt -> checked_as ty d.
Proof. intros H v ->. by apply validate_value_conforms. Qed.

Section Nodes.
Context {e : LogicalExpr} {context : EvalContext} {resolve : nat -> Result Truth}.

Lemma checked_kind_as k ty v d : checked_kind context k ty v = Ok d -> d = v /\ checked_as ty d.
Proof.
  unfold checked_kind. destruct (null_extended_field context k v) eqn:E; [|intros [-> ?]%checked_ok; split; [done|by apply validated_as]].
  intros [= <-]. split; [done|]. intros w ->. by destruct k as [? ? []| | | | | | | |].
Qed.

Lemma evaluated_as fuel i n d : evaluate_node resolve (pe_nodes e) context fuel i = Ok d -> pe_nodes e !! i = Some n -> checked_as (pn_ty n) d.
Proof.
  intros H Hn. destruct fuel as [|fuel]; [done|]. cbn [evaluate_node] in H. rewrite Hn in H. cbn [ok_or rbind] in H. apply rbind_ok in H as (v & _ & H).
  by apply checked_kind_as in H as [_ H].
Qed.
End Nodes.

(** ** Rows *)
Lemma bind_scopes scopes : forall c, ec_records (fold_left bind_scope scopes c) = ec_records c ++ map scope_view scopes /\
  ec_parameters (fold_left bind_scope scopes c) = ec_parameters c.
Proof.
  induction scopes as [|s scopes IH]; intros c; cbn [fold_left map]; [by rewrite app_nil_r|].
  destruct (IH (bind_scope c s)) as [-> ->]. unfold bind_scope. destruct (is_null_extended s); cbn; by rewrite <- app_assoc.
Qed.

Lemma closed_root scopes e : closed_expr scopes e -> exists n, pe_nodes e !! pe_root e = Some n /\ pn_ty n = pe_ty e.
Proof.
  intros (spec & limits' & ([p []] & H & ->)%rmap_ok). cbn [fst]. apply prepare_ok in H as (n' & _ & _ & Et & Ep & Hc).
  destruct n' as [k t]. unfold compile_node in Hc. cbn [compile_node_mode] in Hc. apply rbind_ok in Hc as ([kind st] & _ & He).
  cbn [fst snd] in He. unfold emit in He. apply rbind_ok in He as (id & [_ [= <-]]%check_then & [= <- <- _]). eexists. split; [by apply list_lookup_middle|].
  cbn in *. congruence.
Qed.

Section Projections.
Context (parameters : Parameters) (limits : ExecutionLimits) (exists_in : nat -> list ScopeRecord -> Result Truth).
Notation eval := (evaluate_expr parameters exists_in []).

Lemma project_rows input p rows : execute_project limits eval input p = Ok rows ->
  Forall2 (fun row out => exists d, evaluate_projection eval p row = Ok d /\ out = value_row d) input rows.
Proof.
  intros (s & Hs & ->)%rmap_ok.
  destruct (foldR_emits_each fst _ (fun row out => exists d, evaluate_projection eval p row = Ok d /\ out = value_row d) _ _ _
    (fun row s0 s1 _ H => let '(ex_intro _ d (conj Hd Hp)) := proj1 (rbind_ok _ _ _) H in ex_intro _ (value_row d) (conj (push_ok _ _ _ _ Hp) (ex_intro _ d (conj Hd eq_refl)))) Hs)
    as (out & E & H). by rewrite E.
Qed.
End Projections.
End PushDown.

(** ** Rows under a limit on bytes *)
(** [limits.max_materialized_bytes.is_some_and(|limit| bytes > limit)] *)
Definition over_byte_limit (limits : ExecutionLimits) (bytes : Z) : bool :=
  match max_materialized_bytes limits with Some limit => limit <? bytes | None => false end.

(** Rows that fit into a batch on their own. *)
Definition row_fits {F : Foreign} (limits : ExecutionLimits) (row : ExecutionRow) : Prop :=
  forall max, max_materialized_bytes limits = Some max -> execution_row_bytes row <= max.

Lemma fits_not_over {F : Foreign} limits row : row_fits limits row -> over_byte_limit limits (execution_row_bytes row) = false.
Proof. unfold row_fits, over_byte_limit. intros H. destruct (max_materialized_bytes limits) as [max|]; [|done]. specialize (H max eq_refl). lia. Qed.

Lemma enforced_bytes {F : Foreign} limits rows row max : enforce_byte_limit limits rows = Ok tt -> row ∈ rows -> max_materialized_bytes limits = Some max -> max < u64_max ->
  execution_row_bytes row <= max.
Proof.
  unfold enforce_byte_limit, enforce_bytes. intros H (a & b & ->)%list_elem_of_split E Hm. rewrite E in H. apply guard_ok, negb_true_iff, Z.ltb_ge in H.
  change (rows_bytes 0 (a ++ row :: b) <= max) in H. rewrite rows_bytes_app in H. cbn [rows_bytes fold_left] in H.
  pose proof (rows_bytes_grow 0 a (all_sized a) ltac:(unfold u64_max; lia) ltac:(lia)) as Ga. pose proof (execution_row_bytes_nonneg row).
  pose proof (rows_bytes_grow (sat_add (rows_bytes 0 a) (execution_row_bytes row)) b (all_sized b)) as Gb. unfold rows_bytes in *. unfold sat_add in *. lia.
Qed.

(** The rows that the memory executor returns under a limit each fit. *)
Lemma executed_rows_fit {F : Foreign} {Q : Subqueries} tables plan parameters limits batch_rows stream :
  execute tables plan parameters limits batch_rows = Ok stream -> (forall max, max_materialized_bytes limits = Some max -> max < u64_max) ->
  Forall (row_fits limits) (ms_rows stream).
Proof.
  intros Hx Hmax. apply Forall_forall. intros row Hrow max E. unfold execute in Hx. apply check_then in Hx as [_ Hx]. apply check_then in Hx as [_ Hx].
  apply rbind_ok in Hx as (shapes & _ & (rows & _ & [Hb [= <-]]%check_then)%rbind_ok). by eapply enforced_bytes; [exact Hb|exact Hrow|exact E|apply Hmax].
Qed.
