(* ===== verification/PgSql.v ===== *)
(** * Tables and SQL text ([engines/postgres/src/mapping.rs], [sql.rs],
    [compiler.rs])

    The mapping of models to tables and the catalog of mappings; then the
    statements the compiler builds, as trees that print to the text it
    formats. *)
From Stdlib Require Import ZArith Lia DecimalString.
From stdpp Require Import list.
From S2P Require Import Prelude Foreign BTree Text Types Values Fingerprint Model Plan.

Local Open Scope Z_scope.

(** The double quote. *)
Definition quote_char : Ascii.ascii := ascii_nat 34.

(** A NUL character is a NUL byte. *)
Definition validate_identifier (value : string) : Result unit :=
  guard (negb (is_empty_str value || existsb (Z.eqb 0) (bytes_of value))) "POSTGRES-MAP-008" ;;?
  guard (negb (63 <? zstrlen value)) "POSTGRES-MAP-010".

(** [value.replace]: every double quote twice. *)
Fixpoint double_quotes (s : string) : string :=
  match s with
  | EmptyString => EmptyString
  | String c s' => if Ascii.eqb c quote_char then String c (String c (double_quotes s')) else String c (double_quotes s')
  end.

Definition quote_identifier (value : string) : Result string :=
  validate_identifier value ;;?
  Ok (String quote_char (String.append (double_quotes value) (String quote_char EmptyString))).

Record ColumnMapping := mkColumnMapping { cm_value : string; cm_presence : option string }.

Definition column_required (value : string) : ColumnMapping := mkColumnMapping value None.
Definition column_optional (value presence : string) : ColumnMapping := mkColumnMapping value (Some presence).

Record TableMapping := mkTableMapping { tm_schema : string; tm_table : string; tm_fields : list (string * ColumnMapping) }.

Definition table_new (schema table : string) : TableMapping := mkTableMapping schema table [].
Definition table_field (m : TableMapping) (key : string) (column : ColumnMapping) : TableMapping :=
  mkTableMapping (tm_schema m) (tm_table m) (bt_insert key column (tm_fields m)).
Definition field_mapping (m : TableMapping) (key : string) : option ColumnMapping := bt_get key (tm_fields m).

(** One field: its column and, for an optional field only, its presence
    column; [physical] are the columns taken so far. *)
Definition validate_column (m : TableMapping) (physical : list string) (field : FieldDef) : Result (list string) :=
  let? mapping := ok_or (field_mapping m (fd_key field)) "POSTGRES-MAP-002" in
  validate_identifier (cm_value mapping) ;;?
  let? physical := insert_new (cm_value mapping) physical "POSTGRES-MAP-003" in
  match fd_presence field, cm_presence mapping with
  | Optional, None => error "POSTGRES-MAP-004"
  | Required, Some _ => error "POSTGRES-MAP-005"
  | _, Some presence => validate_identifier presence ;;? insert_new presence physical "POSTGRES-MAP-003"
  | _, None => Ok physical
  end.

Definition validate_mapping (m : TableMapping) (model : ModelDef) : Result unit :=
  validate_identifier (tm_schema m) ;;?
  validate_identifier (tm_table m) ;;?
  guard (Nat.eqb (length (tm_fields m)) (length (md_fields model))) "POSTGRES-MAP-001" ;;?
  foldR (validate_column m) (md_fields model) [] ;;?
  forR (fun entry => guard (match model_field model (fst entry) with Some _ => true | None => false end) "POSTGRES-MAP-006") (tm_fields m).

(** ** The catalog *)
Record CatalogEntry := mkCatalogEntry { ent_fingerprint : Fingerprint; ent_table : TableMapping }.
Definition PostgresCatalog := list (string * CatalogEntry).

Definition postgres_catalog_new : PostgresCatalog := [].

Definition postgres_register (c : PostgresCatalog) (model : ModelDef) (mapping : TableMapping) : Result PostgresCatalog :=
  validate_mapping mapping model ;;?
  match bt_get (md_key model) c with
  | Some existing => guard (bool_decide (ent_fingerprint existing = md_fingerprint model)) "POSTGRES-MAP-009"
  | None => Ok tt
  end ;;?
  Ok (bt_insert (md_key model) (mkCatalogEntry (md_fingerprint model) mapping) c).

Definition postgres_table (c : PostgresCatalog) (model : ModelDef) : Result TableMapping :=
  let? entry := ok_or (bt_get (md_key model) c) "POSTGRES-MAP-007" in
  guard (bool_decide (ent_fingerprint entry = md_fingerprint model)) "POSTGRES-MAP-009" ;;?
  validate_mapping (ent_table entry) model ;;?
  Ok (ent_table entry).

(** ** Expressions *)
Inductive SqlOp := SqlEq | SqlNe | SqlLt | SqlLe | SqlGt | SqlGe.

Inductive Sql :=
| SqlInt (n : Z)
| SqlBool (b : bool)
| SqlNull
| SqlNanText
| SqlColumn (qualifier column : string)
| SqlPlaceholder (index : Z)
| SqlParen (a : Sql)
| SqlCast (a : Sql) (ty : string)
| SqlCollate (a : Sql)
| SqlCompare (op : SqlOp) (a b : Sql)
| SqlNot (a : Sql)
| SqlAll (l : list Sql)
| SqlAny (l : list Sql)
| SqlIsNull (a : Sql)
| SqlCase (branches : list (Sql * Sql)) (otherwise : Sql)
| SqlSwitch (a : Sql) (branches : list (Z * Z)) (otherwise : Sql).

Definition quoted (s : string) : string := cat [String quote_char EmptyString; s; String quote_char EmptyString].

(** [parts.join(separator)] *)
Fixpoint join (separator : string) (parts : list string) : string :=
  match parts with
  | [] => EmptyString
  | [p] => p
  | p :: rest => cat [p; separator; join separator rest]
  end.

Definition op_text (op : SqlOp) : string :=
  match op with SqlEq => "=" | SqlNe => "<>" | SqlLt => "<" | SqlLe => "<=" | SqlGt => ">" | SqlGe => ">=" end.

(** The text of an expression; columns and qualifiers are quoted already. *)
Fixpoint render (s : Sql) : string :=
  match s with
  | SqlInt n => int_text n
  | SqlBool b => if b then "TRUE" else "FALSE"
  | SqlNull => "NULL"
  | SqlNanText => "'NaN'"
  | SqlColumn qualifier column => cat [qualifier; "."; column]
  | SqlPlaceholder index => cat ["$"; int_text index]
  | SqlParen a => cat ["("; render a; ")"]
  | SqlCast a ty => cat [render a; "::"; ty]
  | SqlCollate a => cat [render a; " COLLATE "; quoted "C"]
  | SqlCompare op a b => cat [render a; " "; op_text op; " "; render b]
  | SqlNot a => cat ["NOT "; render a]
  | SqlAll l => join " AND " (map render l)
  | SqlAny l => join " OR " (map render l)
  | SqlIsNull a => cat [render a; " IS NULL"]
  | SqlCase branches otherwise =>
      cat ["CASE"; cat (map (fun b => cat [" WHEN "; render (fst b); " THEN "; render (snd b)]) branches);
           " ELSE "; render otherwise; " END"]
  | SqlSwitch a branches otherwise =>
      cat ["CASE "; render a; cat (map (fun b => cat [" WHEN "; int_text (fst b); " THEN "; int_text (snd b)]) branches);
           " ELSE "; render otherwise; " END"]
  end.

(** ** Statements *)
Inductive Query :=
| QSource (selects : list (Sql * string)) (schema table alias : string)
| QSelect (selects : list (Sql * string)) (from : Query) (alias : string)
| QFilter (from : Query) (alias : string) (condition : Sql)
| QSlice (from : Query) (alias : string) (limit : option Z) (offset : Z).

Definition render_selects (l : list (Sql * string)) : string :=
  join ", " (map (fun s => cat [render (fst s); " AS "; snd s]) l).

Fixpoint render_query (q : Query) : string :=
  match q with
  | QSource selects schema table alias =>
      cat ["SELECT "; render_selects selects; " FROM "; schema; "."; table; " AS "; alias]
  | QSelect selects from alias => cat ["SELECT "; render_selects selects; " FROM ("; render_query from; ") AS "; alias]
  | QFilter from alias condition => cat ["SELECT * FROM ("; render_query from; ") AS "; alias; " WHERE "; render condition]
  | QSlice from alias limit offset =>
      cat ["SELECT * FROM ("; render_query from; ") AS "; alias;
           match limit with Some n => cat [" LIMIT "; int_text n] | None => EmptyString end;
           if negb (offset =? 0) then cat [" OFFSET "; int_text offset] else EmptyString]
  end.

Section Sql.
Context {F : Foreign}.

(** ** Binds and results *)
Inductive SqlBind :=
| BindState (value : Z)
| BindDatum (ty : TypeDef) (datum : Datum).

Record SqlOutputColumn := mkSqlOutputColumn { oc_state_alias : string; oc_value_alias : string; oc_ty : TypeDef }.

Record CompiledQuery := mkCompiledQuery {
  cq_sql : string;
  cq_binds : list SqlBind;
  cq_columns : list SqlOutputColumn;
  cq_output : PlanOutput
}.
End Sql.
