(* ===== verification/PgExpr.v ===== *)
(** * Expressions in PostgreSQL ([engines/postgres/src/compiler/expression.rs],
    [compiler.rs])

    Every datum is a pair of SQL expressions, its state (missing, null or
    value) and its value; literals and parameters only appear as binds. *)
From Stdlib Require Import ZArith Lia.
From stdpp Require Import list.
From S2P Require Import Prelude Foreign Truth BTree Text Types Values Fingerprint Model Expr Semantic ExprPrepare Plan PushDown PgSql.

Local Open Scope Z_scope.

Definition STATE_MISSING : Z := 0.
Definition STATE_NULL : Z := 1.
Definition STATE_VALUE : Z := 2.
Definition TRUTH_FALSE : Z := 0.
Definition TRUTH_TRUE : Z := 1.
Definition TRUTH_UNKNOWN : Z := 2.

(** ** Types *)
Definition scalar_repr (ty : TypeDef) : Result ScalarRepr :=
  match ty_shape ty with ShScalar r => Ok r | _ => error "POSTGRES-TYPE-001" end.

Definition postgres_type (ty : TypeDef) : Result string :=
  let? r := scalar_repr ty in
  match r with
  | RBool => Ok "boolean"
  | RTruth => Ok "smallint"
  | RInt bits => Ok (if bits <=? 16 then "smallint" else if bits <=? 32 then "integer" else if bits <=? 64 then "bigint" else "numeric")
  | RUInt _ | RDecimal => Ok "numeric"
  | RFloat32 => Ok "real"
  | RFloat64 => Ok "double precision"
  | RChar | RString => Ok "text"
  | RBytes => Ok "bytea"
  | RUuid => Ok "uuid"
  | RDate => Ok "date"
  | RTime | RLocalDateTime | RInstant => error "POSTGRES-TYPE-002"
  | RDuration => error "POSTGRES-TYPE-004"
  end%stdpp.

Definition text_as_numeric (index : Z) : Sql := SqlCast (SqlParen (SqlCast (SqlPlaceholder index) "text")) "numeric".
Definition postgres_bind_placeholder (ty : TypeDef) (index : Z) : Result Sql :=
  let? r := scalar_repr ty in
  let native := let? t := postgres_type ty in Ok (SqlCast (SqlPlaceholder index) t) in
  match r with
  | RInt bits => if 64 <? bits then Ok (text_as_numeric index) else native
  | RUInt _ | RDecimal => Ok (text_as_numeric index)
  | _ => native
  end.

Section Expr.
Context {F : Foreign} {Q : Subqueries}.

Record SqlDatum := mkSqlDatum { sd_state : Sql; sd_value : Sql; sd_ty : TypeDef; sd_always_value : bool }.

Definition truth_datum (value : Sql) : SqlDatum := mkSqlDatum (SqlInt STATE_VALUE) value (scalar "dol/truth" 1 RTruth) true.

Definition ensure_truth_type (ty : TypeDef) : Result unit :=
  guard (match ty_shape ty with ShScalar RTruth => true | _ => false end) "POSTGRES-COMPILE-015".

Definition require_total_truth (d : SqlDatum) : Result unit :=
  ensure_truth_type (sd_ty d) ;;? guard (sd_always_value d) "POSTGRES-COMPILE-014".

Definition ensure_same_scalar_shape (l r : TypeDef) : Result unit :=
  let? l := scalar_repr l in let? r := scalar_repr r in
  guard (bool_decide (l = r)) "POSTGRES-COMPILE-016".

(** ** Templates *)
(** [({a}) op constant] and [({a}) op ({b})] *)
Definition is_tag (a : Sql) (tag : Z) : Sql := SqlCompare SqlEq (SqlParen a) (SqlInt tag).
Definition is_not_tag (a : Sql) (tag : Z) : Sql := SqlCompare SqlNe (SqlParen a) (SqlInt tag).
Definition compare_parens (op : SqlOp) (a b : Sql) : Sql := SqlCompare op (SqlParen a) (SqlParen b).
Definition collated (op : SqlOp) (a b : Sql) : Sql :=
  SqlCompare op (SqlParen (SqlCollate (SqlParen a))) (SqlParen (SqlCollate (SqlParen b))).
Definition is_nan_of (ty : string) (a : Sql) : Sql := SqlCompare SqlEq (SqlParen a) (SqlCast SqlNanText ty).
Definition not_nan (ty : string) (a b comparison : Sql) : Sql :=
  SqlCase [(SqlAny [is_nan_of ty a; is_nan_of ty b], SqlBool false)] comparison.

(** The comparison of two values of one representation. *)
Definition compare_repr (op : SqlOp) (r : ScalarRepr) (a b : Sql) : Sql :=
  match r with
  | RFloat32 => not_nan "real" a b (compare_parens op a b)
  | RFloat64 => not_nan "double precision" a b (compare_parens op a b)
  | RString | RChar => collated op a b
  | _ => compare_parens op a b
  end.

Definition value_equal_sql (l r : SqlDatum) : Result Sql :=
  ensure_same_scalar_shape (sd_ty l) (sd_ty r) ;;?
  let? repr := scalar_repr (sd_ty l) in
  Ok (compare_repr SqlEq repr (sd_value l) (sd_value r)).

Definition value_order_sql (op : BinaryOp) (l r : SqlDatum) : Result Sql :=
  ensure_same_scalar_shape (sd_ty l) (sd_ty r) ;;?
  let? operator := match op with
                   | OpLt => Ok SqlLt | OpLe => Ok SqlLe | OpGt => Ok SqlGt | OpGe => Ok SqlGe
                   | _ => error "POSTGRES-COMPILE-019"
                   end in
  let? repr := scalar_repr (sd_ty l) in
  Ok (compare_repr operator repr (sd_value l) (sd_value r)).

Definition comparison_truth (l r : SqlDatum) (comparison : Sql) : SqlDatum :=
  truth_datum (SqlCase [(SqlAny [is_not_tag (sd_state l) STATE_VALUE; is_not_tag (sd_state r) STATE_VALUE], SqlInt TRUTH_UNKNOWN);
                        (SqlParen comparison, SqlInt TRUTH_TRUE)] (SqlInt TRUTH_FALSE)).

(** ** Operators ([expression.rs]) *)
Definition compile_unary (op : UnaryOp) (input : SqlDatum) (output : TypeDef) : Result SqlDatum :=
  match op with
  | IsNull => Ok (truth_datum (SqlCase [(is_tag (sd_state input) STATE_NULL, SqlInt TRUTH_TRUE)] (SqlInt TRUTH_FALSE)))
  | IsMissing => Ok (truth_datum (SqlCase [(is_tag (sd_state input) STATE_MISSING, SqlInt TRUTH_TRUE)] (SqlInt TRUTH_FALSE)))
  | IsPresent => Ok (truth_datum (SqlCase [(is_tag (sd_state input) STATE_MISSING, SqlInt TRUTH_FALSE)] (SqlInt TRUTH_TRUE)))
  | NullableLift => Ok (mkSqlDatum (sd_state input) (sd_value input) output (sd_always_value input))
  | Not =>
      require_total_truth input ;;?
      Ok (truth_datum (SqlSwitch (SqlParen (sd_value input))
            [(TRUTH_TRUE, TRUTH_FALSE); (TRUTH_FALSE, TRUTH_TRUE); (TRUTH_UNKNOWN, TRUTH_UNKNOWN)] (SqlCast SqlNull "smallint")))
  | LosslessCast | Negate | Abs => error "POSTGRES-COMPILE-012"
  end.

Definition compile_binary (op : BinaryOp) (l r : SqlDatum) (output : TypeDef) : Result SqlDatum :=
  match op with
  | OpEq | OpNe =>
      let? equal := value_equal_sql l r in
      let value := if bool_decide (op = OpEq) then equal else SqlNot (SqlParen equal) in
      Ok (comparison_truth l r value)
  | OpLt | OpLe | OpGt | OpGe =>
      let? value := value_order_sql op l r in
      Ok (comparison_truth l r value)
  | IsDistinctFrom | IsNotDistinctFrom =>
      let? value_equal := value_equal_sql l r in
      let equal :=
        SqlCase [(SqlAll [is_tag (sd_state l) STATE_MISSING; is_tag (sd_state r) STATE_MISSING], SqlBool true);
                 (SqlAll [is_tag (sd_state l) STATE_NULL; is_tag (sd_state r) STATE_NULL], SqlBool true);
                 (SqlAny [is_not_tag (sd_state l) STATE_VALUE; is_not_tag (sd_state r) STATE_VALUE], SqlBool false)]
                (SqlParen value_equal) in
      let result := if bool_decide (op = IsNotDistinctFrom) then equal else SqlNot (SqlParen equal) in
      Ok (truth_datum (SqlCase [(result, SqlInt TRUTH_TRUE)] (SqlInt TRUTH_FALSE)))
  | OpAnd | OpOr =>
      require_total_truth l ;;? require_total_truth r ;;?
      let '(absorbing, neutral) := if bool_decide (op = OpAnd) then (TRUTH_FALSE, TRUTH_TRUE) else (TRUTH_TRUE, TRUTH_FALSE) in
      Ok (truth_datum (SqlCase [(SqlAny [is_tag (sd_value l) absorbing; is_tag (sd_value r) absorbing], SqlInt absorbing);
                                (SqlAll [is_tag (sd_value l) neutral; is_tag (sd_value r) neutral], SqlInt neutral)]
                               (SqlInt TRUTH_UNKNOWN)))
  | Coalesce =>
      Ok (mkSqlDatum (SqlCase [(is_tag (sd_state l) STATE_VALUE, SqlParen (sd_state l))] (SqlParen (sd_state r)))
                     (SqlCase [(is_tag (sd_state l) STATE_VALUE, SqlParen (sd_value l))] (SqlParen (sd_value r)))
                     output (sd_always_value l || sd_always_value r))
  | OpAdd | OpSub | OpMul | OpDiv | OpRem => error "POSTGRES-COMPILE-013"
  end.

Definition compile_membership (input : SqlDatum) (candidates : list SqlDatum) (negate : bool) : Result SqlDatum :=
  let? comparisons := mapR (fun c => let? equal := value_equal_sql input c in Ok (comparison_truth input c equal)) candidates in
  let saw_true := map (fun v => is_tag (sd_value v) TRUTH_TRUE) comparisons in
  let saw_unknown := map (fun v => is_tag (sd_value v) TRUTH_UNKNOWN) comparisons in
  let true_value := if negate then TRUTH_FALSE else TRUTH_TRUE in
  let false_value := if negate then TRUTH_TRUE else TRUTH_FALSE in
  Ok (truth_datum
        (match comparisons with
         | [] => SqlInt false_value
         | _ => SqlCase [(SqlAny saw_true, SqlInt true_value); (SqlAny saw_unknown, SqlInt TRUTH_UNKNOWN)] (SqlInt false_value)
         end)).

Definition compile_conditional (condition when_true when_false : SqlDatum) (output : TypeDef) : Result SqlDatum :=
  require_total_truth condition ;;?
  Ok (mkSqlDatum
        (SqlCase [(is_tag (sd_value condition) TRUTH_TRUE, SqlParen (sd_state when_true))] (SqlParen (sd_state when_false)))
        (SqlCase [(is_tag (sd_value condition) TRUTH_TRUE, SqlParen (sd_value when_true))] (SqlParen (sd_value when_false)))
        output (sd_always_value when_true && sd_always_value when_false)).

(** ** Relations ([compiler.rs]) *)
Record ColumnRef := mkColumnRef { cr_state_alias : string; cr_value_alias : string; cr_ty : TypeDef; cr_always_value : bool }.
Record ScopeLayout := mkScopeLayout { sl_model_key : string; sl_fields : list ColumnRef }.
Record Relation := mkRelation {
  rel_sql : Query;
  rel_scopes : list ScopeLayout;
  rel_output_columns : list ColumnRef;
  rel_output : PlanOutput
}.

(** [CompileContext]: the catalog and the parameters stay, the binds grow and
    relations are numbered. *)
Record CompileContext := mkCompileContext { cc_binds : list SqlBind; cc_next_relation : Z }.

Definition qualify (qualifier alias : string) : Result Sql :=
  let? q := quote_identifier alias in Ok (SqlColumn qualifier q).

Definition get_expr (values : list SqlDatum) (index : nat) : Result SqlDatum := ok_or (values !! index) "POSTGRES-COMPILE-017".

Definition state_of (d : Datum) : Z := match d with Missing => STATE_MISSING | Null => STATE_NULL | DValue _ => STATE_VALUE end.

(** Placeholders count from one. *)
Definition compile_bound_datum (ty : TypeDef) (d : Datum) (c : CompileContext) : Result (SqlDatum * CompileContext) :=
  map_err (validate_datum ty Optional d) "POSTGRES-PARAM-003" ;;?
  let binds := cc_binds c ++ [BindState (state_of d)] in
  let state_placeholder := SqlCast (SqlPlaceholder (zlen binds)) "smallint" in
  let binds := binds ++ [BindDatum ty d] in
  let? value_placeholder := postgres_bind_placeholder ty (zlen binds) in
  Ok (mkSqlDatum state_placeholder value_placeholder ty (is_value d), mkCompileContext binds (cc_next_relation c)).

Section Nodes.
Context (parameters : Parameters) (e : LogicalExpr) (relation : Relation) (qualifier : string).

Definition compile_field_sql (scope slot : nat) (allow_null_extension : bool) (ty : TypeDef) : Result SqlDatum :=
  guard (negb allow_null_extension) "POSTGRES-COMPILE-007" ;;?
  let? expected := ok_or (pe_scopes e !! scope) "POSTGRES-COMPILE-017" in
  let? scope_layout := ok_or (rel_scopes relation !! scope) "POSTGRES-COMPILE-008" in
  guard (String.eqb expected (sl_model_key scope_layout)) "POSTGRES-COMPILE-009" ;;?
  let? field := ok_or (sl_fields scope_layout !! slot) "POSTGRES-COMPILE-017" in
  let? state := qualify qualifier (cr_state_alias field) in
  let? value := qualify qualifier (cr_value_alias field) in
  Ok (mkSqlDatum state value ty (cr_always_value field)).

Definition compile_node_sql (values : list SqlDatum) (node : PreparedNode) (c : CompileContext) : Result (SqlDatum * CompileContext) :=
  let pure r := let? d := r in Ok (d, c) in
  match pn_kind node with
  | PField scope slot allow_null_extension => pure (compile_field_sql scope slot allow_null_extension (pn_ty node))
  | PLiteral d => compile_bound_datum (pn_ty node) d c
  | PParameter name =>
      let? parameter := ok_or (parameters_get parameters name) "POSTGRES-PARAM-001" in
      guard (type_eqb (bp_ty parameter) (pn_ty node)) "POSTGRES-PARAM-002" ;;?
      compile_bound_datum (pn_ty node) (bp_datum parameter) c
  | PUnary op input => pure (let? input := get_expr values input in compile_unary op input (pn_ty node))
  | PBinary op l r =>
      pure (let? l := get_expr values l in let? r := get_expr values r in compile_binary op l r (pn_ty node))
  | PMembership input candidates negate =>
      pure (let? input := get_expr values input in
            let? candidates := mapR (get_expr values) candidates in
            compile_membership input candidates negate)
  | PConditional condition when_true when_false =>
      pure (let? condition := get_expr values condition in
            let? when_true := get_expr values when_true in
            let? when_false := get_expr values when_false in
            compile_conditional condition when_true when_false (pn_ty node))
  | PCall _ _ => error "POSTGRES-COMPILE-010"
  | PExists _ _ => error "POSTGRES-COMPILE-011"
  end.

Definition compile_nodes_sql (nodes : list PreparedNode) (s : list SqlDatum * CompileContext) : Result (list SqlDatum * CompileContext) :=
  foldR (fun '(values, c) node =>
    let? r := compile_node_sql values node c in Ok (values ++ [fst r], snd r)) nodes s.

Definition compile_expr (c : CompileContext) : Result (SqlDatum * CompileContext) :=
  guard (Nat.eqb (pe_outer_scope_count e) 0) "POSTGRES-COMPILE-006" ;;?
  let? r := compile_nodes_sql (pe_nodes e) ([], c) in
  let? d := get_expr (fst r) (pe_root e) in
  Ok (d, snd r).
End Nodes.
End Expr.
