(* ===== verification/PgCompile.v ===== *)
(** * Plans in PostgreSQL ([engines/postgres/src/compiler.rs])

    Sources, filters, projections and slices as nested selects, the statement
    that transports the result, and the support that placement asks for;
    quoted identifiers read back as the names they quote, and the columns of a
    select are pairwise different. *)
From Stdlib Require Import ZArith Lia DecimalString DecimalZ.
From stdpp Require Import list.
From S2P Require Import Prelude Foreign Truth Text BTree Types Values Fingerprint Model Expr Semantic ExprPrepare Plan PushDown PgSql PgExpr.

Local Open Scope Z_scope.

Section Compile.
Context {F : Foreign} {Q : Subqueries}.

(** The error is also the one for a plan whose nodes do not come first. *)
Definition compiled_relation (relations : list Relation) (id : nat) : Result Relation :=
  ok_or (relations !! id) "POSTGRES-COMPILE-002".

Definition next_alias (prefix : string) (c : CompileContext) : string * CompileContext :=
  (cat ["__dol_"; prefix; int_text (cc_next_relation c)], mkCompileContext (cc_binds c) (cc_next_relation c + 1)).

(** The aliases of the columns of a source and of a projection. *)
Definition source_state_alias (index : nat) : string := cat ["__dol_s0_f"; int_text (Z.of_nat index); "_state"].
Definition source_value_alias (index : nat) : string := cat ["__dol_s0_f"; int_text (Z.of_nat index); "_value"].
Definition project_state_alias (index : nat) : string := cat ["__dol_v"; int_text (Z.of_nat index); "_state"].
Definition project_value_alias (index : nat) : string := cat ["__dol_v"; int_text (Z.of_nat index); "_value"].

Definition source_state_sql (presence : Presence) (ty : TypeDef) (presence_column : option string) (qualifier : string)
  (value_sql : Sql) : Result Sql :=
  match presence with
  | Required =>
      Ok (match ty_nullability ty with
          | NonNull => SqlInt STATE_VALUE
          | Nullable => SqlCase [(SqlIsNull value_sql, SqlInt STATE_NULL)] (SqlInt STATE_VALUE)
          end)
  | Optional =>
      let? presence := ok_or presence_column "POSTGRES-MAP-004" in
      let? present_sql := qualify qualifier presence in
      let absent := (SqlCompare SqlEq present_sql (SqlBool false), SqlInt STATE_MISSING) in
      Ok (match ty_nullability ty with
          | NonNull => SqlCase [absent] (SqlInt STATE_VALUE)
          | Nullable => SqlCase [absent; (SqlIsNull value_sql, SqlInt STATE_NULL)] (SqlInt STATE_VALUE)
          end)
  end.

Definition source_always_value (field : FieldDef) : bool :=
  bool_decide (fd_presence field = Required) && bool_decide (ty_nullability (fd_ty field) = NonNull).

(** The two select items of one field and its column. *)
Definition compile_source_field (mapping : TableMapping) (qtable : string) (index : nat) (field : FieldDef)
  : Result (list (Sql * string) * ColumnRef) :=
  postgres_type (fd_ty field) ;;?
  let? column := ok_or (field_mapping mapping (fd_key field)) "POSTGRES-MAP-002" in
  let? value_column := qualify qtable (cm_value column) in
  let? state_sql := source_state_sql (fd_presence field) (fd_ty field) (cm_presence column) qtable value_column in
  let? state_alias := quote_identifier (source_state_alias index) in
  let? value_alias := quote_identifier (source_value_alias index) in
  Ok ([(state_sql, state_alias); (value_column, value_alias)],
      mkColumnRef (source_state_alias index) (source_value_alias index) (fd_ty field) (source_always_value field)).

Definition compile_source (catalog : PostgresCatalog) (model : ModelDef) (c : CompileContext) : Result (Relation * CompileContext) :=
  let? mapping := postgres_table catalog model in
  let '(table_alias, c) := next_alias "t" c in
  let? schema := quote_identifier (tm_schema mapping) in
  let? table := quote_identifier (tm_table mapping) in
  let? qtable := quote_identifier table_alias in
  let? fields := mapR (fun f => compile_source_field mapping qtable (fst f) (snd f)) (enumerate (md_fields model)) in
  let columns := map snd fields in
  Ok (mkRelation (QSource (flat_map fst fields) schema table qtable) [mkScopeLayout (md_key model) columns] columns (OutModel model), c).

Definition compile_filter (parameters : Parameters) (relation : Relation) (condition : LogicalExpr) (c : CompileContext)
  : Result (Relation * CompileContext) :=
  let '(alias, c) := next_alias "q" c in
  let? qal := quote_identifier alias in
  let? r := compile_expr parameters condition relation qal c in
  let '(truth, c) := r in
  ensure_truth_type (pe_ty condition) ;;?
  guard (sd_always_value truth) "POSTGRES-COMPILE-004" ;;?
  Ok (mkRelation (QFilter (rel_sql relation) qal (SqlAll [is_tag (sd_state truth) STATE_VALUE; is_tag (sd_value truth) TRUTH_TRUE]))
        (rel_scopes relation) (rel_output_columns relation) (rel_output relation), c).

Definition compile_projection (parameters : Parameters) (relation : Relation) (qal : string)
  (acc : (list (Sql * string) * list ColumnRef) * CompileContext) (entry : nat * LogicalExpr)
  : Result ((list (Sql * string) * list ColumnRef) * CompileContext) :=
  let '((selects, columns), c) := acc in
  let '(index, expression) := entry in
  let? r := compile_expr parameters expression relation qal c in
  let '(datum, c) := r in
  let? state_alias := quote_identifier (project_state_alias index) in
  let? value_alias := quote_identifier (project_value_alias index) in
  Ok ((selects ++ [(sd_state datum, state_alias); (sd_value datum, value_alias)],
       columns ++ [mkColumnRef (project_state_alias index) (project_value_alias index) (pe_ty expression) (sd_always_value datum)]), c).

Definition compile_project (parameters : Parameters) (relation : Relation) (projection : LogicalProjection) (c : CompileContext)
  : Result (Relation * CompileContext) :=
  let '(alias, c) := next_alias "q" c in
  let? qal := quote_identifier alias in
  let? r := foldR (compile_projection parameters relation qal) (enumerate (lp_expressions projection)) (([], []), c) in
  let '((selects, output_columns), c) := r in
  let expected := match lp_kind projection with ProjectValue => 1%nat | _ => length (lp_expressions projection) end in
  guard (Nat.eqb (length output_columns) expected) "POSTGRES-COMPILE-005" ;;?
  Ok (mkRelation (QSelect selects (rel_sql relation) qal) [] output_columns (OutValue (lp_ty projection)), c).

(** [i64::try_from] of a [u64]. *)
Definition to_i64 (n : Z) : Result Z := guard (n <=? 2 ^ 63 - 1) "POSTGRES-COMPILE-018" ;;? Ok n.

Definition compile_slice (relation : Relation) (offset : Z) (limit : option Z) (c : CompileContext) : Result (Relation * CompileContext) :=
  let? offset := to_i64 offset in
  let? limit := match limit with Some n => let? n := to_i64 n in Ok (Some n) | None => Ok None end in
  let '(alias, c) := next_alias "q" c in
  let? qal := quote_identifier alias in
  Ok (mkRelation (QSlice (rel_sql relation) qal limit offset) (rel_scopes relation) (rel_output_columns relation) (rel_output relation), c).

(** ** The statement that carries the result *)
Definition transport_value_sql (ty : TypeDef) (value : Sql) : Result Sql :=
  let? r := scalar_repr ty in
  let cast t := Ok (SqlCast (SqlParen value) t) in
  match r with
  | RBool => cast "boolean"
  | RTruth => cast "smallint"
  | RInt bits => cast (if bits <=? 16 then "smallint" else if bits <=? 32 then "integer" else if bits <=? 64 then "bigint" else "text")
  | RUInt _ | RDecimal => cast "text"
  | RFloat32 => cast "real"
  | RFloat64 => cast "double precision"
  | RChar | RString => cast "text"
  | RBytes => cast "bytea"
  | RUuid => cast "uuid"
  | RDate => cast "date"
  | RTime | RLocalDateTime | RInstant | RDuration => error "POSTGRES-TYPE-003"
  end%stdpp.

Definition transport_column (alias : string) (column : ColumnRef) : Result (list (Sql * string)) :=
  let? state := qualify alias (cr_state_alias column) in
  let? value := qualify alias (cr_value_alias column) in
  let? state_alias := quote_identifier (cr_state_alias column) in
  let? value_sql := transport_value_sql (cr_ty column) value in
  let? value_alias := quote_identifier (cr_value_alias column) in
  Ok [(SqlCast (SqlParen state) "smallint", state_alias); (value_sql, value_alias)].

Definition transport_output_sql (relation : Relation) : Result Query :=
  let? alias := quote_identifier "__dol_out" in
  let? selects := mapR (transport_column alias) (rel_output_columns relation) in
  Ok (QSelect (concat selects) (rel_sql relation) alias).

(** ** Compilation of a plan *)
Definition compile_logical_node (catalog : PostgresCatalog) (parameters : Parameters) (relations : list Relation) (node : LogicalNode)
  (c : CompileContext) : Result (Relation * CompileContext) :=
  match node with
  | NSource model _ => compile_source catalog model c
  | NFilter input condition =>
      let? relation := compiled_relation relations input in compile_filter parameters relation condition c
  | NProject input projection =>
      let? relation := compiled_relation relations input in compile_project parameters relation projection c
  | NSlice input offset limit =>
      let? relation := compiled_relation relations input in compile_slice relation offset limit c
  | _ => error "POSTGRES-COMPILE-003"
  end.

Definition compile_relations (catalog : PostgresCatalog) (parameters : Parameters) (nodes : list LogicalNode)
  (s : list Relation * CompileContext) : Result (list Relation * CompileContext) :=
  foldR (fun '(relations, c) node =>
    let? r := compile_logical_node catalog parameters relations node c in Ok (relations ++ [fst r], snd r)) nodes s.

Definition output_column (c : ColumnRef) : SqlOutputColumn := mkSqlOutputColumn (cr_state_alias c) (cr_value_alias c) (cr_ty c).

Definition postgres_compile (catalog : PostgresCatalog) (plan : LogicalPlan) (parameters : Parameters) : Result CompiledQuery :=
  let? r := compile_relations catalog parameters (plan_nodes plan) ([], mkCompileContext [] 0) in
  let '(relations, c) := r in
  let? relation := compiled_relation relations (plan_root plan) in
  guard (plan_output_eqb (rel_output relation) (plan_output plan)) "POSTGRES-COMPILE-001" ;;?
  let? sql := transport_output_sql relation in
  Ok (mkCompiledQuery (render_query sql) (cc_binds c) (map output_column (rel_output_columns relation)) (rel_output relation)).

(** ** Support *)
(** Whether the value of one node is always a value, if the node is
    supported. *)
Definition node_support (always_values : list bool) (node : PreparedNode) : option bool :=
  let truth_typed := match ty_shape (pn_ty node) with ShScalar RTruth => true | _ => false end in
  if negb (is_ok (postgres_type (pn_ty node))) && negb truth_typed then None
  else
    match pn_kind node with
    | PField _ _ allow_null_extension => if allow_null_extension then None else Some false
    | PLiteral d => Some (is_value d)
    | PParameter _ => Some false
    | PUnary op input =>
        match op with
        | IsNull | IsMissing | IsPresent => Some true
        | NullableLift => always_values !! input
        | Not => always ← always_values !! input; if (always : bool) then Some true else None
        | _ => None
        end
    | PBinary op l r =>
        left ← always_values !! l;
        right ← always_values !! r;
        match op with
        | OpEq | OpNe | OpLt | OpLe | OpGt | OpGe | IsDistinctFrom | IsNotDistinctFrom => Some true
        | OpAnd | OpOr => if left && right then Some true else None
        | Coalesce => Some (left || right)
        | _ => None
        end
    | PMembership input candidates _ =>
        _ ← always_values !! input;
        _ ← mapM (fun c => always_values !! c) candidates;
        Some true
    | PConditional condition when_true when_false =>
        always ← always_values !! condition;
        if (always : bool) then
          t ← always_values !! when_true;
          if (t : bool) then always_values !! when_false else Some false
        else None
    | PCall _ _ | PExists _ _ => None
    end.

Fixpoint nodes_support (nodes : list PreparedNode) (always_values : list bool) : option (list bool) :=
  match nodes with
  | [] => Some always_values
  | node :: rest => always ← node_support always_values node; nodes_support rest (always_values ++ [always])
  end.

Definition expression_support (e : LogicalExpr) : option bool :=
  if negb (Nat.eqb (pe_outer_scope_count e) 0) then None
  else always_values ← nodes_support (pe_nodes e) []; always_values !! pe_root e.

Definition supports_node (catalog : PostgresCatalog) (node : LogicalNode) : bool :=
  match node with
  | NSource model _ =>
      is_ok (postgres_table catalog model) && forallb (fun field => is_ok (postgres_type (fd_ty field))) (md_fields model)
  | NFilter _ condition =>
      match ty_shape (pe_ty condition) with ShScalar RTruth => true | _ => false end &&
      match expression_support condition with Some always => always | None => false end
  | NProject _ projection =>
      forallb (fun e => match expression_support e with Some _ => true | None => false end) (lp_expressions projection)
  | NSlice _ offset limit => is_ok (to_i64 offset) && match limit with Some n => is_ok (to_i64 n) | None => true end
  | _ => false
  end.
End Compile.

(** ** Identifiers *)

(** How a quoted identifier ends, by PostgreSQL's lexical rules: at the first
    double quote that is not doubled. *)
Fixpoint read_quoted (s : string) : option (string * string) :=
  match s with
  | EmptyString => None
  | String c s' =>
      if Ascii.eqb c quote_char then
        match s' with
        | String c' s'' =>
            if Ascii.eqb c' quote_char then r ← read_quoted s''; Some (String c (fst r), snd r) else Some (EmptyString, s')
        | EmptyString => Some (EmptyString, s')
        end
      else r ← read_quoted s'; Some (String c (fst r), snd r)
  end.

Definition starts_with_quote (s : string) : bool :=
  match s with String c _ => Ascii.eqb c quote_char | EmptyString => false end.

Lemma read_plain c s : Ascii.eqb c quote_char = false -> read_quoted (String c s) = (r ← read_quoted s; Some (String c (fst r), snd r)).
Proof. intros E. cbn -[Ascii.eqb quote_char]. by rewrite E. Qed.

Lemma read_twice s : read_quoted (String quote_char (String quote_char s)) = (r ← read_quoted s; Some (String quote_char (fst r), snd r)).
Proof. reflexivity. Qed.

Lemma read_end rest : starts_with_quote rest = false -> read_quoted (String quote_char rest) = Some (EmptyString, rest).
Proof.
  intros Hr. destruct rest as [|c rest]; [done|].
  change (read_quoted (String quote_char (String c rest))) with
    (if Ascii.eqb c quote_char then (r ← read_quoted rest; Some (String quote_char (fst r), snd r)) else Some (EmptyString, String c rest)).
  unfold starts_with_quote in Hr. by rewrite Hr.
Qed.

Lemma append_cons c a b : String.append (String c a) b = String c (String.append a b).
Proof. done. Qed.

Lemma read_doubled value rest : starts_with_quote rest = false ->
  read_quoted (String.append (double_quotes value) (String quote_char rest)) = Some (value, rest).
Proof.
  intros Hr. induction value as [|c value IH]; [by apply read_end|].
  change (double_quotes (String c value)) with
    (if Ascii.eqb c quote_char then String c (String c (double_quotes value)) else String c (double_quotes value)).
  destruct (Ascii.eqb_spec c quote_char) as [->|E]; rewrite !append_cons.
  - by rewrite read_twice, IH.
  - rewrite read_plain, IH; [done|]. by apply Ascii.eqb_neq.
Qed.

Lemma append_assoc' a b c : String.append (String.append a b) c = String.append a (String.append b c).
Proof. induction a as [|x a IH]; [done|]. change (String x (String.append (String.append a b) c) = String x (String.append a (String.append b c))). by rewrite IH. Qed.

(** The text of a quoted identifier, in front of any text that does not
    continue it, is one double quote and what PostgreSQL reads back as exactly
    the quoted name: no name can end its quotes early. *)
Theorem quoted_identifier_reads_back value q rest : quote_identifier value = Ok q -> starts_with_quote rest = false ->
  exists inner, String.append q rest = String quote_char inner /\ read_quoted inner = Some (value, rest).
Proof.
  intros [_ [= <-]]%check_then Hr. eexists. split; [reflexivity|]. rewrite append_assoc'. by apply read_doubled.
Qed.

(** ** Different names *)
Lemma quote_injective a b q : quote_identifier a = Ok q -> quote_identifier b = Ok q -> a = b.
Proof.
  intros [_ [= <-]]%check_then [_ [= E]]%check_then.
  pose proof (read_doubled a EmptyString eq_refl) as Ha. pose proof (read_doubled b EmptyString eq_refl) as Hb.
  change (String (Ascii.Ascii false true false false false true false false) EmptyString) with (String quote_char EmptyString) in E.
  congruence.
Qed.

Lemma source_aliases_distinct :
  Inj (=) (=) source_state_alias /\ Inj (=) (=) source_value_alias /\ forall i j, source_state_alias i <> source_value_alias j.
Proof.
  split_and!.
  - intros i j E. apply (numbered_distinct "__dol_s0_f" _ _ "state" "state") in E as [E _]. lia.
  - intros i j E. apply (numbered_distinct "__dol_s0_f" _ _ "value" "value") in E as [E _]. lia.
  - intros i j E. by apply (numbered_distinct "__dol_s0_f" _ _ "state" "value") in E as [_ E].
Qed.

Lemma project_aliases_distinct :
  Inj (=) (=) project_state_alias /\ Inj (=) (=) project_value_alias /\ forall i j, project_state_alias i <> project_value_alias j.
Proof.
  split_and!.
  - intros i j E. apply (numbered_distinct "__dol_v" _ _ "state" "state") in E as [E _]. lia.
  - intros i j E. apply (numbered_distinct "__dol_v" _ _ "value" "value") in E as [E _]. lia.
  - intros i j E. by apply (numbered_distinct "__dol_v" _ _ "state" "value") in E as [_ E].
Qed.

(** ** The columns of a select *)
(** The two items of a column: their expressions, their quoted aliases. *)
Record Item {F : Foreign} := mkItem { it_state : Sql; it_value : Sql; it_state_name : string; it_value_name : string }.
Arguments mkItem {F}.

Section Items.
Context {F : Foreign}.

Definition item_selects (it : Item) : list (Sql * string) := [(it_state it, it_state_name it); (it_value it, it_value_name it)].

Definition items_named (f g : nat -> string) (items : list Item) : Prop :=
  forall i it, items !! i = Some it -> quote_identifier (f i) = Ok (it_state_name it) /\ quote_identifier (g i) = Ok (it_value_name it).

Lemma flat_map_nodup {A B} (h : A -> list B) l : (forall i x, l !! i = Some x -> NoDup (h x)) ->
  (forall i j x y b, l !! i = Some x -> l !! j = Some y -> b ∈ h x -> b ∈ h y -> i = j) -> NoDup (flat_map h l).
Proof.
  induction l as [|x l IH]; intros Hn Hd; [constructor|]. cbn [flat_map]. apply NoDup_app. split_and!.
  - by apply (Hn 0%nat).
  - intros b Hb Hin. apply list_elem_of_In, in_flat_map in Hin as (y & Hy%list_elem_of_In & Hby%list_elem_of_In).
    apply list_elem_of_lookup in Hy as [j Hy]. by specialize (Hd 0%nat (S j) x y b eq_refl Hy Hb Hby).
  - apply IH; [intros i y Hy; by apply (Hn (S i))|]. intros i j y z b Hy Hz Hby Hbz.
    specialize (Hd (S i) (S j) y z b Hy Hz Hby Hbz). congruence.
Qed.

Lemma items_nodup f g items : Inj (=) (=) f /\ Inj (=) (=) g /\ (forall i j, f i <> g j) -> items_named f g items ->
  NoDup (map snd (flat_map item_selects items)).
Proof.
  intros (Hf & Hg & Hfg) Hn. assert (E : map snd (flat_map item_selects items) = flat_map (fun it => [it_state_name it; it_value_name it]) items).
  { clear. induction items as [|it items IH]; [done|]. cbn. by rewrite IH. }
  rewrite E. apply flat_map_nodup.
  - intros i it Hi. destruct (Hn i it Hi) as [Hs Hv]. apply NoDup_cons. split; [|apply NoDup_singleton]. intros E2%list_elem_of_singleton.
    rewrite E2 in Hs. by destruct (Hfg i i (quote_injective _ _ _ Hs Hv)).
  - intros i j x y b Hx Hy Hb1 Hb2. destruct (Hn i x Hx) as [Hs1 Hv1], (Hn j y Hy) as [Hs2 Hv2].
    rewrite !elem_of_cons, elem_of_nil in Hb1, Hb2. destruct Hb1 as [->|[->|[]]], Hb2 as [Eb|[Eb|[]]].
    + rewrite Eb in Hs1. by apply Hf, (quote_injective _ _ _ Hs1 Hs2).
    + rewrite Eb in Hs1. by destruct (Hfg i j (quote_injective _ _ _ Hs1 Hv2)).
    + rewrite Eb in Hv1. by destruct (Hfg j i (quote_injective _ _ _ Hs2 Hv1)).
    + rewrite Eb in Hv1. by apply Hg, (quote_injective _ _ _ Hv1 Hv2).
Qed.

Lemma find_select (selects : list (Sql * string)) s : NoDup (map snd selects) -> s ∈ selects ->
  List.find (fun x => String.eqb (snd x) (snd s)) selects = Some s.
Proof.
  induction selects as [|x selects IH]; [by intros _ ?%not_elem_of_nil|]. cbn [map]. intros [Hx Hn]%NoDup_cons [->|Hin]%elem_of_cons; cbn [List.find].
  - by rewrite String.eqb_refl.
  - destruct (String.eqb_spec (snd x) (snd s)) as [E|_]; [|by apply IH]. destruct Hx. rewrite E. apply list_elem_of_fmap. eauto.
Qed.
End Items.

Definition quoted_name : string := String underscore (String quote_char (String underscore EmptyString)).

Lemma quoted_identifier_reads_back_witness :
  exists q inner, quote_identifier quoted_name = Ok q /\ String.append q " AS x" = String quote_char inner /\
    read_quoted inner = Some (quoted_name, " AS x"%stdpp).
Proof.
  destruct (quote_identifier quoted_name) as [q|] eqn:E; [|vm_compute in E; discriminate E].
  destruct (quoted_identifier_reads_back quoted_name q " AS x" E eq_refl) as (inner & H1 & H2). exists q, inner. done.
Defined.
