(* ===== verification/PgCodec.v ===== *)
(** * Binds and rows of PostgreSQL ([engines/postgres/src/codec.rs])

    The values and types sent for the bind slots, and the decoding of result
    rows of state and value columns. *)
From Stdlib Require Import ZArith Lia DecimalString DecimalZ.
From stdpp Require Import list.
From S2P Require Import Prelude Foreign Truth BTree Text Types Values Fingerprint Model Row Plan Executor PushDown PgSql PgExpr PgCompile.

Local Open Scope Z_scope.

(** The driver crate and [rust_decimal]'s text: parameters of the model. *)
Class PgDriver (F : Foreign) := {
  (** One column of a row; [row.try_get], with [None] for its error. *)
  Cell : Type;
  get_bool : Cell -> option (option bool);
  get_i16 : Cell -> option (option Z);
  get_i32 : Cell -> option (option Z);
  get_i64 : Cell -> option (option Z);
  get_f32 : Cell -> option (option Z);
  get_f64 : Cell -> option (option Z);
  get_string : Cell -> option (option string);
  get_bytes : Cell -> option (option (list Z));
  get_uuid : Cell -> option (option Uuid);
  get_date : Cell -> option (option Date);
  decimal_to_string : Decimal -> string;
  decimal_from_str : string -> option Decimal
}.

Section Codec.
Context {F : Foreign}.

(** ** Binds *)
Inductive PgType := TyBool | TyInt2 | TyInt4 | TyInt8 | TyText | TyFloat4 | TyFloat8 | TyBytea | TyUuid | TyDate.
#[export] Instance PgType_eq_dec : EqDecision PgType.
Proof. solve_decision. Defined.

(** The boxed value; an absent one is [None]. *)
Inductive ToSql :=
| SqlBoolValue (v : option bool)
| SqlI16 (v : option Z)
| SqlI32 (v : option Z)
| SqlI64 (v : option Z)
| SqlF32 (v : option Z)
| SqlF64 (v : option Z)
| SqlString (v : option string)
| SqlBytes (v : option (list Z))
| SqlUuid (v : option Uuid)
| SqlDate (v : option Date).

Record EncodedBind := mkEncodedBind { eb_value : ToSql; eb_ty : PgType }.

Definition driver_bind_type (ty : TypeDef) : Result PgType :=
  let? r := scalar_repr ty in
  match r with
  | RBool => Ok TyBool
  | RTruth => Ok TyInt2
  | RInt bits => Ok (if bits <=? 16 then TyInt2 else if bits <=? 32 then TyInt4 else if bits <=? 64 then TyInt8 else TyText)
  | RUInt _ | RDecimal => Ok TyText
  | RFloat32 => Ok TyFloat4
  | RFloat64 => Ok TyFloat8
  | RChar | RString => Ok TyText
  | RBytes => Ok TyBytea
  | RUuid => Ok TyUuid
  | RDate => Ok TyDate
  | _ => error "POSTGRES-BIND-002"
  end.

Definition encode_null (ty : TypeDef) : Result ToSql :=
  let? r := scalar_repr ty in
  match r with
  | RBool => Ok (SqlBoolValue None)
  | RTruth => Ok (SqlI16 None)
  | RInt bits =>
      Ok (if bits <=? 16 then SqlI16 None else if bits <=? 32 then SqlI32 None else if bits <=? 64 then SqlI64 None else SqlString None)
  | RUInt _ | RDecimal => Ok (SqlString None)
  | RFloat32 => Ok (SqlF32 None)
  | RFloat64 => Ok (SqlF64 None)
  | RChar | RString => Ok (SqlString None)
  | RBytes => Ok (SqlBytes None)
  | RUuid => Ok (SqlUuid None)
  | RDate => Ok (SqlDate None)
  | _ => error "POSTGRES-BIND-002"
  end.

Definition encode_truth_tag (t : Truth) : Z := match t with TFalse => 0 | TTrue => 1 | TUnknown => 2 end.

(** [iN::try_from] of an [i128]. *)
Definition narrow (bits n : Z) : Result Z := guard (signed_fits bits n) "POSTGRES-BIND-001" ;;? Ok n.

Context {D : PgDriver F}.

Definition encode_value (ty : TypeDef) (v : Value) : Result ToSql :=
  let? r := scalar_repr ty in
  match r, v with
  | RBool, VBool b => Ok (SqlBoolValue (Some b))
  | RTruth, VTruth t => Ok (SqlI16 (Some (encode_truth_tag t)))
  | RInt bits, VInt n =>
      if bits <=? 16 then rmap (fun n => SqlI16 (Some n)) (narrow 16 n)
      else if bits <=? 32 then rmap (fun n => SqlI32 (Some n)) (narrow 32 n)
      else if bits <=? 64 then rmap (fun n => SqlI64 (Some n)) (narrow 64 n)
      else Ok (SqlString (Some (int_text n)))
  | RUInt _, VUInt n => Ok (SqlString (Some (int_text n)))
  | RDecimal, VDecimal d => Ok (SqlString (Some (decimal_to_string d)))
  | RFloat32, VFloat32 b => Ok (SqlF32 (Some b))
  | RFloat64, VFloat64 b => Ok (SqlF64 (Some b))
  | RChar, VChar c => Ok (SqlString (Some (char_text c)))
  | RString, VString s => Ok (SqlString (Some s))
  | RBytes, VBytes b => Ok (SqlBytes (Some b))
  | RUuid, VUuid u => Ok (SqlUuid (Some u))
  | RDate, VDate d => Ok (SqlDate (Some d))
  | _, _ => error "POSTGRES-BIND-001"
  end.

Definition encode_datum (ty : TypeDef) (d : Datum) : Result EncodedBind :=
  let? postgres_type := driver_bind_type ty in
  let? value := match d with Missing | Null => encode_null ty | DValue v => encode_value ty v end in
  Ok (mkEncodedBind value postgres_type).

Definition encode_bind (b : SqlBind) : Result EncodedBind :=
  match b with
  | BindState value => Ok (mkEncodedBind (SqlI16 (Some value)) TyInt2)
  | BindDatum ty d => encode_datum ty d
  end.

Definition encode_binds (binds : list SqlBind) : Result (list EncodedBind) := mapR encode_bind binds.

(** ** Rows *)
Definition PgRow := list Cell.

Definition get_optional {T} (get : Cell -> option (option T)) (row : PgRow) (index : nat) : Result (option T) :=
  ok_or (cell ← row !! index; get cell) "POSTGRES-DECODE-005".
Definition required {T} (get : Cell -> option (option T)) (row : PgRow) (index : nat) : Result T :=
  let? o := get_optional get row index in ok_or o "POSTGRES-DECODE-008".
Definition parse_text {T} (parse : string -> option T) (row : PgRow) (index : nat) : Result T :=
  let? s := required get_string row index in ok_or (parse s) "POSTGRES-DECODE-008".

Definition decode_truth (value : Z) : Result Truth :=
  if value =? 0 then Ok TFalse else if value =? 1 then Ok TTrue else if value =? 2 then Ok TUnknown
  else error "POSTGRES-DECODE-008".

Definition decode_value (row : PgRow) (index : nat) (ty : TypeDef) : Result Value :=
  let? r := scalar_repr ty in
  match r with
  | RBool => rmap VBool (required get_bool row index)
  | RTruth => let? n := required get_i16 row index in rmap VTruth (decode_truth n)
  | RInt bits =>
      rmap VInt (if bits <=? 16 then required get_i16 row index
                 else if bits <=? 32 then required get_i32 row index
                 else if bits <=? 64 then required get_i64 row index
                 else parse_text parse_i128 row index)
  | RUInt _ => rmap VUInt (parse_text parse_u128 row index)
  | RDecimal => rmap VDecimal (parse_text decimal_from_str row index)
  | RFloat32 => rmap VFloat32 (required get_f32 row index)
  | RFloat64 => rmap VFloat64 (required get_f64 row index)
  | RChar =>
      let? text := required get_string row index in
      match chars text with [c] => Ok (VChar c) | _ => error "POSTGRES-DECODE-008" end
  | RString => rmap VString (required get_string row index)
  | RBytes => rmap VBytes (required get_bytes row index)
  | RUuid => rmap VUuid (required get_uuid row index)
  | RDate => rmap VDate (required get_date row index)
  | _ => error "POSTGRES-BIND-002"
  end.

Definition decode_datum (row : PgRow) (state_index : nat) (ty : TypeDef) : Result Datum :=
  let? state := get_optional get_i16 row state_index in
  let? state := ok_or state "POSTGRES-DECODE-002" in
  if state =? 0 then Ok Missing
  else if state =? 1 then Ok Null
  else if state =? 2 then rmap DValue (decode_value row (S state_index) ty)
  else error "POSTGRES-DECODE-003".

Definition assemble_value_output (ty : TypeDef) (datums : list Datum) : Result Datum :=
  match ty_shape ty with
  | ShScalar _ => match datums with [d] => Ok d | _ => error "POSTGRES-DECODE-009" end
  | ShTuple elements =>
      guard (Nat.eqb (length elements) (length datums)) "POSTGRES-DECODE-009" ;;? Ok (DValue (VTuple datums))
  | ShRecord fields =>
      guard (Nat.eqb (length fields) (length datums)) "POSTGRES-DECODE-009" ;;?
      Ok (DValue (VRecord (bt_collect (combine (map field_name fields) datums))))
  | _ => error "POSTGRES-DECODE-009"
  end.

Definition decode_output (output : PlanOutput) (datums : list Datum) (model : option ModelDef) : Result ExecutionRow :=
  match output with
  | OutModel expected =>
      guard (Nat.eqb (length datums) (length (md_fields expected))) "POSTGRES-DECODE-009" ;;?
      let? model := ok_or model "POSTGRES-DECODE-009" in
      rmap RModel (row_from_dense model datums)
  | OutValue ty =>
      let? datum := assemble_value_output ty datums in
      map_err (validate_datum ty Required datum) "POSTGRES-DECODE-006" ;;?
      Ok (RValue datum)
  | OutProduct _ | OutNullable _ => error "POSTGRES-DECODE-007"
  end.

Definition decode_execution_row (compiled : CompiledQuery) (row : PgRow) (model : option ModelDef) : Result ExecutionRow :=
  guard (Nat.eqb (length row) (2 * length (cq_columns compiled))) "POSTGRES-DECODE-001" ;;?
  let? datums := mapR (fun e => decode_datum row (fst e * 2) (oc_ty (snd e))) (enumerate (cq_columns compiled)) in
  decode_output (cq_output compiled) datums model.

(** [RowDecoder]. *)
Definition row_decoder_new (compiled : CompiledQuery) : option ModelDef :=
  match cq_output compiled with OutModel m => Some m | _ => None end.

Definition decode_row (compiled : CompiledQuery) (row : PgRow) : Result ExecutionRow :=
  decode_execution_row compiled row (row_decoder_new compiled).
End Codec.
