(* ===== verification/PgSemantics.v ===== *)
(** * What PostgreSQL's expressions and statements mean

    The documented behaviour of the SQL fragment the compiler emits, as the
    laws of an evaluator that is a parameter: comparisons are strict in NULL,
    [CASE] takes the first branch whose condition is true, equality and order
    of stored values are those of the values.  Nested selects return rows up
    to their order, and the driver hands out cells that the codec reads.  An
    evaluator and a server with these laws exist. *)
From Stdlib Require Import ZArith Lia DecimalString DecimalZ DecimalPos.
From stdpp Require Import list.
From S2P Require Import Prelude Floats Foreign Truth Text BTree Types Values Fingerprint Model Row Expr Semantic ExprPrepare Plan Executor PushDown PgSql PgExpr PgCompile PgCodec.

Local Open Scope Z_scope.

Section Semantics.
Context {F : Foreign}.

(** ** Values of columns and expressions; [None] is NULL *)
Inductive Scalar := STag (n : Z) | SLogic (b : bool) | SData (v : Value).
Definition SqlValue := option Scalar.

Definition truth_tag (t : Truth) : Z := match t with TFalse => TRUTH_FALSE | TTrue => TRUTH_TRUE | TUnknown => TRUTH_UNKNOWN end.

(** How a value is stored and bound ([codec.rs]). *)
Definition encode_scalar (v : Value) : Scalar :=
  match v with VTruth t => STag (truth_tag t) | VBool b => SLogic b | v => SData v end.

Definition is_text (v : Value) : bool := match v with VString _ | VChar _ => true | _ => false end.
Definition bound_value (b : SqlBind) : SqlValue :=
  match b with
  | BindState n => Some (STag n)
  | BindDatum _ (DValue v) => Some (encode_scalar v)
  | BindDatum _ _ => None
  end.

Definition op_holds (op : SqlOp) (c : comparison) : bool :=
  match op with
  | SqlEq => comparison_eqb c Eq
  | SqlNe => negb (comparison_eqb c Eq)
  | SqlLt => comparison_eqb c Lt
  | SqlLe => negb (comparison_eqb c Gt)
  | SqlGt => comparison_eqb c Gt
  | SqlGe => negb (comparison_eqb c Lt)
  end.

(** One row of the input, by qualifier and quoted column. *)
Definition RowEnv := string -> string -> SqlValue.

(** ** The evaluator *)
Class Postgres := {
  pg_eval : RowEnv -> list SqlBind -> Sql -> SqlValue;
  (** the order of stored values, in the C collation or the default one *)
  pg_compare : bool -> Value -> Value -> comparison;
  (** the values a column can hold: text without NUL, dates and numbers in range *)
  pg_storable : Value -> bool
}.

Definition compare_scalars {P : Postgres} (collated : bool) (a b : Scalar) : option comparison :=
  match a, b with
  | STag x, STag y => Some (x ?= y)
  | SLogic x, SLogic y => Some (bool_cmp x y)
  | SData x, SData y => Some (pg_compare collated x y)
  | _, _ => None
  end.

Definition compare_values_sql {P : Postgres} (collated : bool) (op : SqlOp) (a b : SqlValue) : SqlValue :=
  match a, b with
  | Some x, Some y => (fun c => SLogic (op_holds op c)) <$> compare_scalars collated x y
  | _, _ => None
  end.

Definition is_true (v : SqlValue) : bool := match v with Some (SLogic true) => true | _ => false end.

Class PostgresLaws (P : Postgres) : Prop := {
  pg_int : forall env binds n, pg_eval env binds (SqlInt n) = Some (STag n);
  pg_bool : forall env binds b, pg_eval env binds (SqlBool b) = Some (SLogic b);
  pg_column : forall env binds q c, pg_eval env binds (SqlColumn q c) = env q c;
  pg_state_bind : forall env binds n s, 0 < n -> binds !! Z.to_nat (n - 1) = Some (BindState s) ->
    pg_eval env binds (SqlCast (SqlPlaceholder n) "smallint") = Some (STag s);
  pg_datum_bind : forall env binds n ty d p, 0 < n -> binds !! Z.to_nat (n - 1) = Some (BindDatum ty d) ->
    validate_datum ty Optional d = Ok tt -> match d with DValue v => pg_storable v = true | _ => True end ->
    postgres_bind_placeholder ty n = Ok p -> pg_eval env binds p = bound_value (BindDatum ty d);
  pg_paren : forall env binds a, pg_eval env binds (SqlParen a) = pg_eval env binds a;
  pg_comparison : forall env binds op a b x y, pg_eval env binds a = Some x -> pg_eval env binds b = Some y ->
    pg_eval env binds (SqlCompare op (SqlParen a) (SqlParen b)) = compare_values_sql false op (Some x) (Some y);
  pg_constant : forall env binds op a x n, pg_eval env binds a = Some x ->
    pg_eval env binds (SqlCompare op (SqlParen a) (SqlInt n)) = compare_values_sql false op (Some x) (Some (STag n));
  pg_collated : forall env binds op a b x y, pg_eval env binds a = Some x -> pg_eval env binds b = Some y ->
    pg_eval env binds (SqlCompare op (SqlParen (SqlCollate (SqlParen a))) (SqlParen (SqlCollate (SqlParen b)))) =
    compare_values_sql true op (Some x) (Some y);
  pg_real_nan : forall env binds a b, pg_eval env binds a = Some (SData (VFloat32 b)) ->
    pg_eval env binds (SqlCompare SqlEq (SqlParen a) (SqlCast SqlNanText "real")) = Some (SLogic (is_nan binary32 b));
  pg_double_nan : forall env binds a b, pg_eval env binds a = Some (SData (VFloat64 b)) ->
    pg_eval env binds (SqlCompare SqlEq (SqlParen a) (SqlCast SqlNanText "double precision")) = Some (SLogic (is_nan binary64 b));
  pg_not : forall env binds a b, pg_eval env binds a = Some (SLogic b) -> pg_eval env binds (SqlNot (SqlParen a)) = Some (SLogic (negb b));
  pg_any : forall env binds l bs, map (pg_eval env binds) l = map (fun b => Some (SLogic b)) bs ->
    pg_eval env binds (SqlAny l) = Some (SLogic (existsb id bs));
  pg_all : forall env binds l bs, map (pg_eval env binds) l = map (fun b => Some (SLogic b)) bs ->
    pg_eval env binds (SqlAll l) = Some (SLogic (forallb id bs));
  pg_case_else : forall env binds e, pg_eval env binds (SqlCase [] e) = pg_eval env binds e;
  pg_case_when : forall env binds c r l e,
    pg_eval env binds (SqlCase ((c, r) :: l) e) = if is_true (pg_eval env binds c) then pg_eval env binds r else pg_eval env binds (SqlCase l e);
  pg_switch : forall env binds a n l e, pg_eval env binds a = Some (STag n) ->
    pg_eval env binds (SqlSwitch a l e) =
    match List.find (fun b => fst b =? n) l with Some b => Some (STag (snd b)) | None => pg_eval env binds e end;
  pg_is_null : forall env binds a, pg_eval env binds (SqlIsNull a) = Some (SLogic (match pg_eval env binds a with None => true | Some _ => false end));
  pg_absent : forall env binds a b, pg_eval env binds a = Some (SLogic b) ->
    pg_eval env binds (SqlCompare SqlEq a (SqlBool false)) = Some (SLogic (negb b));
  (** Booleans and the tags of [Truth] always fit *)
  pg_truth_storable : forall t, pg_storable (VTruth t) = true;
  (** equality and order of stored values *)
  pg_equal_values : forall r v w, scalar_matches r v = true -> scalar_matches r w = true -> pg_storable v = true -> pg_storable w = true ->
    is_nan_value v = false -> is_nan_value w = false ->
    comparison_eqb (pg_compare (is_text v) v w) Eq = value_eqb v w;
  pg_order_values : forall r v w o, scalar_matches r v = true -> scalar_matches r w = true -> pg_storable v = true -> pg_storable w = true ->
    value_partial_cmp v w = Some o -> pg_compare (is_text v) v w = o
}.
End Semantics.

Lemma scalar_repr_ok ty r : scalar_repr ty = Ok r <-> ty_shape ty = ShScalar r.
Proof. unfold scalar_repr. destruct (ty_shape ty); split; try done; naive_solver. Qed.

(** ** An evaluator with these laws *)
Module FragmentSemantics.
Existing Instance sample_foreign.

(** The values that have a column type; of the decimals, the whole ones. *)
Definition storable (v : Value) : bool :=
  match v with
  | VInt n => in_i128 n
  | VUInt n => in_u128 n
  | VChar c => (0 <? c) && (c <? 1114112)
  | VDecimal d => Sample.d_scale d =? 0
  | VTime _ | VLocalDateTime _ | VInstant _ | VDuration _ | VList _ | VMap _ | VTuple _ | VRecord _ => false
  | _ => true
  end.

Definition compare_stored (_ : bool) (v w : Value) : comparison :=
  match value_partial_cmp v w with
  | Some o => o
  | None => if is_nan_value v then (if is_nan_value w then Eq else Gt) else Lt
  end.

Definition kleene_any (l : list SqlValue) : SqlValue :=
  if existsb is_true l then Some (SLogic true)
  else if forallb (fun v => match v with Some (SLogic false) => true | _ => false end) l then Some (SLogic false) else None.
Definition kleene_all (l : list SqlValue) : SqlValue :=
  if forallb is_true l then Some (SLogic true)
  else if existsb (fun v => match v with Some (SLogic false) => true | _ => false end) l then Some (SLogic false) else None.

Definition real_nan : Z := 2143289344.
Definition double_nan : Z := 9221120237041090560.

Definition compare_fragment (op : SqlOp) (x y : SqlValue) : SqlValue :=
  match x, y with
  | Some (STag a), Some (STag b) => Some (SLogic (op_holds op (a ?= b)))
  | Some (SLogic a), Some (SLogic b) => Some (SLogic (op_holds op (bool_cmp a b)))
  | Some (SData a), Some (SData b) => Some (SLogic (op_holds op (compare_stored false a b)))
  | _, _ => None
  end.

Fixpoint sql_eval (env : RowEnv) (binds : list SqlBind) (s : Sql) : SqlValue :=
  match s with
  | SqlInt n => Some (STag n)
  | SqlBool b => Some (SLogic b)
  | SqlNull | SqlNanText => None
  | SqlColumn q c => env q c
  | SqlPlaceholder n => match binds !! Z.to_nat (n - 1) with Some b => bound_value b | None => None end
  | SqlParen a | SqlCollate a => sql_eval env binds a
  | SqlCast SqlNanText ty => Some (SData (if String.eqb ty "real" then VFloat32 real_nan else VFloat64 double_nan))
  | SqlCast a _ => sql_eval env binds a
  | SqlCompare op a b => compare_fragment op (sql_eval env binds a) (sql_eval env binds b)
  | SqlNot a => match sql_eval env binds a with Some (SLogic b) => Some (SLogic (negb b)) | _ => None end
  | SqlAll l => kleene_all (map (sql_eval env binds) l)
  | SqlAny l => kleene_any (map (sql_eval env binds) l)
  | SqlIsNull a => Some (SLogic (match sql_eval env binds a with None => true | Some _ => false end))
  | SqlCase l e =>
      (fix go l := match l with
                   | [] => sql_eval env binds e
                   | (c, r) :: l' => if is_true (sql_eval env binds c) then sql_eval env binds r else go l'
                   end) l
  | SqlSwitch a l e =>
      match sql_eval env binds a with
      | Some (STag n) => match List.find (fun b => fst b =? n) l with Some b => Some (STag (snd b)) | None => sql_eval env binds e end
      | _ => sql_eval env binds e
      end
  end.

#[export] Instance fragment_postgres : Postgres := {| pg_eval := sql_eval; pg_compare := compare_stored; pg_storable := storable |}.

Lemma kleene_any_logic bs : kleene_any (map (fun b => Some (SLogic b)) bs) = Some (SLogic (existsb id bs)).
Proof.
  unfold kleene_any. assert (E : existsb is_true (map (fun b => Some (SLogic b)) bs) = existsb id bs).
  { induction bs as [|b bs IH]; [done|]. cbn. rewrite IH. by destruct b. }
  rewrite E. destruct (existsb id bs) eqn:Eb; [done|].
  assert (G : forallb (fun v => match v with Some (SLogic false) => true | _ => false end) (map (fun b => Some (SLogic b)) bs) = true); [|by rewrite G].
  clear E. induction bs as [|[] bs IH]; [done|done|]. cbn in *. by apply IH.
Qed.

Lemma kleene_all_logic bs : kleene_all (map (fun b => Some (SLogic b)) bs) = Some (SLogic (forallb id bs)).
Proof.
  unfold kleene_all. assert (E : forallb is_true (map (fun b => Some (SLogic b)) bs) = forallb id bs).
  { induction bs as [|b bs IH]; [done|]. cbn. rewrite IH. by destruct b. }
  rewrite E. destruct (forallb id bs) eqn:Eb; [done|].
  assert (G : existsb (fun v => match v with Some (SLogic false) => true | _ => false end) (map (fun b => Some (SLogic b)) bs) = true); [|by rewrite G].
  clear E. induction bs as [|[] bs IH]; [done| |done]. cbn in *. by apply IH.
Qed.

Lemma placeholder_value env binds n ty p b : binds !! Z.to_nat (n - 1) = Some b -> postgres_bind_placeholder ty n = Ok p -> sql_eval env binds p = bound_value b.
Proof.
  intros Hb H. unfold postgres_bind_placeholder in H. apply rbind_ok in H as (r & _ & H).
  assert (G : (let? t := postgres_type ty in Ok (SqlCast (SqlPlaceholder n) t)) = Ok p -> sql_eval env binds p = bound_value b).
  { intros (t & _ & [= <-])%rbind_ok. cbn. by rewrite Hb. }
  assert (G' : Ok (text_as_numeric n) = Ok p -> sql_eval env binds p = bound_value b).
  { intros [= <-]. cbn. by rewrite Hb. }
  destruct r; auto. by destruct (64 <? bits); auto.
Qed.

Lemma fragment_laws : PostgresLaws fragment_postgres.
Proof.
  split; try done; cbn [pg_eval pg_compare fragment_postgres].
  - intros env binds n s _ H. cbn [sql_eval]. by rewrite H.
  - intros env binds n ty d p _ Hb _ _ Hp. by apply (placeholder_value env binds n ty p (BindDatum ty d)).
  - intros env binds op a b x y Ha Hb. cbn [sql_eval]. rewrite Ha, Hb. by destruct x, y.
  - intros env binds op a x n Ha. cbn [sql_eval]. rewrite Ha. by destruct x.
  - intros env binds op a b x y Ha Hb. cbn [sql_eval]. rewrite Ha, Hb. by destruct x, y.
  - intros env binds a b Ha. cbn [sql_eval]. rewrite Ha. cbn -[is_nan real_nan]. unfold compare_stored. cbn [value_partial_cmp]. unfold float_partial_cmp.
    change (is_nan binary32 real_nan) with true. rewrite orb_true_r. cbn [is_nan_value]. change (is_nan binary32 real_nan) with true. by destruct (is_nan binary32 b).
  - intros env binds a b Ha. cbn [sql_eval]. rewrite Ha. cbn -[is_nan double_nan]. unfold compare_stored. cbn [value_partial_cmp]. unfold float_partial_cmp.
    change (is_nan binary64 double_nan) with true. rewrite orb_true_r. cbn [is_nan_value]. change (is_nan binary64 double_nan) with true. by destruct (is_nan binary64 b).
  - intros env binds a b Ha. cbn [sql_eval]. by rewrite Ha.
  - intros env binds l bs H. cbn [sql_eval]. rewrite H. apply kleene_any_logic.
  - intros env binds l bs H. cbn [sql_eval]. rewrite H. apply kleene_all_logic.
  - intros env binds a n l e Ha. cbn [sql_eval]. by rewrite Ha.
  - intros env binds a b Ha. cbn [sql_eval]. rewrite Ha. by destruct b.
  - intros r v w Hv Hw Hs _ Nv Nw. unfold compare_stored.
    destruct r, v; try discriminate Hv; destruct w; try discriminate Hw; try discriminate Hs; cbn [value_partial_cmp value_eqb is_nan_value] in *.
    all: try (unfold float_eqb, float_partial_cmp; rewrite Nv, Nw; cbn).
    + by destruct b, b0.
    + by destruct t, t0.
    + apply compare_eqb.
    + apply compare_eqb.
    + by destruct (float_key _ _ ?= _).
    + by destruct (float_key _ _ ?= _).
    + apply compare_eqb.
    + apply compare_eqb.
    + apply string_compare_eqb.
    + apply bytes_compare_eqb.
    + change (comparison_eqb (list_cmp Z.compare u u0) Eq = bool_decide (u = u0)). rewrite bytes_compare_eqb.
      apply Bool.eq_iff_eq_true. rewrite bytes_eqb_eq. by rewrite bool_decide_eq_true.
    + apply compare_eqb.
  - intros r v w o _ _ _ _ H. unfold compare_stored. by rewrite H.
Qed.
End FragmentSemantics.

(** ** Rows of tables and of selects, by quoted column *)
Section Rows.
Context {F : Foreign} {P : Postgres} {D : PgDriver F}.

Definition SqlRow := string -> SqlValue.
(** Tables by quoted schema and name. *)
Definition Database := string -> string -> list SqlRow.

Definition on_alias (alias : string) (row : SqlRow) : RowEnv := fun q c => if String.eqb q alias then row c else None.

Definition select_row (binds : list SqlBind) (alias : string) (selects : list (Sql * string)) (row : SqlRow) : SqlRow := fun c =>
  match List.find (fun s => String.eqb (snd s) c) selects with
  | Some s => pg_eval (on_alias alias row) binds (fst s)
  | None => None
  end.

Definition cells_of (cell : RowEnv -> list SqlBind -> Sql -> Cell) (binds : list SqlBind) (alias : string) (selects : list (Sql * string))
  (row : SqlRow) : PgRow := map (fun s => cell (on_alias alias row) binds (fst s)) selects.

(** What the driver reads from the cell of a value. *)
Definition cell_reads (r : ScalarRepr) (v : Value) (c : Cell) : Prop :=
  match r, v with
  | RBool, VBool b => get_bool c = Some (Some b)
  | RTruth, VTruth t => get_i16 c = Some (Some (truth_tag t))
  | RInt bits, VInt n =>
      if bits <=? 16 then get_i16 c = Some (Some n)
      else if bits <=? 32 then get_i32 c = Some (Some n)
      else if bits <=? 64 then get_i64 c = Some (Some n)
      else get_string c = Some (Some (int_text n)) /\ in_i128 n = true
  | RUInt _, VUInt n => get_string c = Some (Some (int_text n)) /\ in_u128 n = true
  | RDecimal, VDecimal d => exists s, get_string c = Some (Some s) /\ decimal_from_str s = Some d
  | RFloat32, VFloat32 b => get_f32 c = Some (Some b)
  | RFloat64, VFloat64 b => get_f64 c = Some (Some b)
  | RChar, VChar n => get_string c = Some (Some (char_text n)) /\ 0 < n < 1114112
  | RString, VString s => get_string c = Some (Some s)
  | RBytes, VBytes b => get_bytes c = Some (Some b)
  | RUuid, VUuid u => get_uuid c = Some (Some u)
  | RDate, VDate d => get_date c = Some (Some d)
  | _, _ => False
  end.

Class PostgresQueries := {
  pg_rows : Database -> list SqlBind -> Query -> list SqlRow;
  pg_cell : RowEnv -> list SqlBind -> Sql -> Cell;
  pg_result : Database -> list SqlBind -> Query -> list PgRow
}.

Class QueryLaws {PQ : PostgresQueries} : Prop := {
  pg_source : forall db binds selects schema table alias, NoDup (map snd selects) ->
    pg_rows db binds (QSource selects schema table alias) ≡ₚ map (select_row binds alias selects) (db schema table);
  pg_filter : forall db binds from alias condition,
    pg_rows db binds (QFilter from alias condition) ≡ₚ
    List.filter (fun row => is_true (pg_eval (on_alias alias row) binds condition)) (pg_rows db binds from);
  pg_select : forall db binds selects from alias, NoDup (map snd selects) ->
    pg_rows db binds (QSelect selects from alias) ≡ₚ map (select_row binds alias selects) (pg_rows db binds from);
  pg_output : forall db binds selects from alias,
    pg_result db binds (QSelect selects from alias) ≡ₚ map (cells_of pg_cell binds alias selects) (pg_rows db binds from);
  pg_tag_cell : forall env binds a n, -2 ^ 15 <= n < 2 ^ 15 -> pg_eval env binds a = Some (STag n) ->
    get_i16 (pg_cell env binds (SqlCast (SqlParen a) "smallint")) = Some (Some n);
  pg_value_cell : forall env binds ty r a s v, ty_shape ty = ShScalar r -> transport_value_sql ty a = Ok s ->
    scalar_matches r v = true -> pg_storable v = true -> pg_eval env binds a = Some (encode_scalar v) ->
    cell_reads r v (pg_cell env binds s)
}.
End Rows.

(** ** What the codec reads *)
Section Reading.
Context {F : Foreign} {D : PgDriver F}.

Lemma required_cell {T} (get : Cell -> option (option T)) (row : PgRow) i c x : row !! i = Some c -> get c = Some (Some x) -> required get row i = Ok x.
Proof. intros Hc Hg. unfold required, get_optional. rewrite Hc. cbn. by rewrite Hg. Qed.

(** The codec reads a value of the type from its cell. *)
Lemma decode_value_reads row i ty r v c : ty_shape ty = ShScalar r -> row !! i = Some c -> cell_reads r v c -> decode_value row i ty = Ok v.
Proof.
  intros Ht Hc H. unfold decode_value. rewrite (proj2 (scalar_repr_ok ty r) Ht). cbn [rbind].
  destruct r, v; try done; cbn [cell_reads] in H; unfold parse_text; try (by rewrite (required_cell _ _ _ _ _ Hc H)).
  - rewrite (required_cell _ _ _ _ _ Hc H). by destruct t.
  - repeat case_match; try (by rewrite (required_cell _ _ _ _ _ Hc H)). destruct H as [H Hr].
    rewrite (required_cell _ _ _ _ _ Hc H). cbn [rbind]. by rewrite parse_i128_text.
  - destruct H as [H Hr]. rewrite (required_cell _ _ _ _ _ Hc H). cbn [rbind]. by rewrite parse_u128_text.
  - destruct H as (s & H & Hs). rewrite (required_cell _ _ _ _ _ Hc H). cbn [rbind]. by rewrite Hs.
  - destruct H as [H Hr]. rewrite (required_cell _ _ _ _ _ Hc H). cbn [rbind]. by rewrite chars_of_char.
Qed.

Lemma decode_datum_reads row i ty d c : row !! i = Some c -> get_i16 c = Some (Some (state_of d)) ->
  (forall v, d = DValue v -> exists r c', ty_shape ty = ShScalar r /\ row !! S i = Some c' /\ cell_reads r v c') ->
  decode_datum row i ty = Ok d.
Proof.
  intros Hc Hs Hv. unfold decode_datum, get_optional. rewrite Hc. cbn [mbind option_bind]. rewrite Hs. cbn [ok_or rbind].
  destruct d as [| |v]; [done..|]. destruct (Hv v eq_refl) as (r & c' & Ht & Hc' & Hr). cbn. by rewrite (decode_value_reads _ _ _ _ _ _ Ht Hc' Hr).
Qed.
End Reading.

(** ** Statements and cells with these laws *)
Module FragmentQueries.
Import FragmentSemantics.
Existing Instance sample_foreign.
Existing Instance fragment_postgres.

(** A cell: whether it was cast to text, and its value. *)
Definition TextCell : Type := bool * SqlValue.

Definition read {T} (pick : Scalar -> option T) (c : TextCell) : option (option T) :=
  match snd c with None => Some None | Some s => Some <$> pick s end.
Definition read_int (c : TextCell) : option (option Z) :=
  read (fun s => match s with STag n | SData (VInt n) => Some n | _ => None end) c.
Definition decimal_text (d : Sample.dec) : string := int_text (Sample.d_num d).
Definition read_text (c : TextCell) : option (option string) :=
  if fst c then
    read (fun s => match s with
                   | SData (VString s) => Some s
                   | SData (VChar c) => Some (char_text c)
                   | SData (VInt n) | SData (VUInt n) => Some (int_text n)
                   | SData (VDecimal d) => Some (decimal_text d)
                   | _ => None
                   end) c
  else None.

#[export] Instance fragment_driver : PgDriver sample_foreign := {|
  Cell := TextCell;
  get_bool := read (fun s => match s with SLogic b => Some b | _ => None end);
  get_i16 := read_int;
  get_i32 := read_int;
  get_i64 := read_int;
  get_f32 := read (fun s => match s with SData (VFloat32 b) => Some b | _ => None end);
  get_f64 := read (fun s => match s with SData (VFloat64 b) => Some b | _ => None end);
  get_string := read_text;
  get_bytes := read (fun s => match s with SData (VBytes b) => Some b | _ => None end);
  get_uuid := read (fun s => match s with SData (VUuid u) => Some u | _ => None end);
  get_date := read (fun s => match s with SData (VDate d) => Some d | _ => None end);
  decimal_to_string := decimal_text : @Decimal sample_foreign -> string;
  decimal_from_str := fun s => (fun n => Sample.mkDec n 0 : @Decimal sample_foreign) <$> (Z.of_int <$> NilZero.int_of_string s)
|}.

Fixpoint query_rows (db : Database) (binds : list SqlBind) (q : Query) : list SqlRow :=
  match q with
  | QSource selects schema table alias => map (select_row binds alias selects) (db schema table)
  | QSelect selects from alias => map (select_row binds alias selects) (query_rows db binds from)
  | QFilter from alias condition =>
      List.filter (fun row => is_true (pg_eval (on_alias alias row) binds condition)) (query_rows db binds from)
  | QSlice from _ limit offset =>
      let rest := drop (Z.to_nat offset) (query_rows db binds from) in
      match limit with Some n => take (Z.to_nat n) rest | None => rest end
  end.

Definition is_text_cast (s : Sql) : bool := match s with SqlCast _ ty => String.eqb ty "text" | _ => false end.
Definition text_cell (env : RowEnv) (binds : list SqlBind) (s : Sql) : TextCell := (is_text_cast s, sql_eval env binds s).

#[export] Instance fragment_queries : PostgresQueries := {|
  pg_rows := query_rows;
  pg_cell := text_cell : RowEnv -> list SqlBind -> Sql -> Cell;
  pg_result := fun db binds q =>
    match q with QSelect selects from alias => map (cells_of (D:=fragment_driver) text_cell binds alias selects) (query_rows db binds from) | _ => [] end
|}.

Lemma decimal_reads d : Sample.d_scale d = 0 -> decimal_from_str (F:=sample_foreign) (decimal_text d) = Some (d : @Decimal sample_foreign).
Proof.
  intros H. destruct d as [n s]. cbn [Sample.d_scale] in H. subst s. unfold decimal_text, int_text. cbn [decimal_from_str fragment_driver Sample.d_num].
  rewrite NilZero.isi; [|by destruct n; intros [= ?%Unsigned.to_uint_nonnil]..]. cbn [fmap option_fmap option_map]. by rewrite DecimalZ.of_to.
Qed.

Lemma fragment_value_cell env binds ty r a s v : ty_shape ty = ShScalar r -> transport_value_sql ty a = Ok s -> scalar_matches r v = true ->
  pg_storable v = true -> pg_eval env binds a = Some (encode_scalar v) -> cell_reads r v (pg_cell env binds s).
Proof.
  intros Ht H Hm Hs Ha. unfold transport_value_sql in H. rewrite (proj2 (scalar_repr_ok ty r) Ht) in H. cbn [rbind] in H.
  assert (G : forall t, s = SqlCast (SqlParen a) t -> text_cell env binds s = (String.eqb t "text", Some (encode_scalar v))).
  { intros t ->. unfold text_cell. cbn [is_text_cast]. f_equal. destruct a; exact Ha. }
  destruct r, v; try discriminate Hm; try discriminate H; injection H as H; symmetry in H; cbn [cell_reads]; cbn [pg_storable fragment_postgres storable] in Hs.
  all: cbn [pg_cell fragment_queries get_bool get_i16 get_i32 get_i64 get_f32 get_f64 get_string get_bytes get_uuid get_date fragment_driver].
  all: try (rewrite (G _ H); done).
  - repeat case_match; rewrite (G _ H); done.
  - rewrite (G _ H). exists (decimal_text d). split; [done|]. apply decimal_reads. by apply Z.eqb_eq.
  - rewrite (G _ H). apply andb_true_iff in Hs as [?%Z.ltb_lt ?%Z.ltb_lt]. done.
Qed.

#[export] Instance fragment_query_laws : QueryLaws.
Proof.
  split; try done.
  - intros env binds a n _ Ha. change (read_int (false, sql_eval env binds (SqlCast (SqlParen a) "smallint")) = Some (Some n)).
    assert (E : sql_eval env binds (SqlCast (SqlParen a) "smallint") = Some (STag n)) by (destruct a; exact Ha). by rewrite E.
  - intros. by eapply fragment_value_cell.
Qed.
End FragmentQueries.
