(* ===== verification/PgSound.v ===== *)
(** * Compiled expressions mean what they say

    Over any PostgreSQL with the laws of [PgSemantics], the SQL pair of an
    expression evaluates to the datum the normative evaluator computes, so the
    condition of a compiled filter keeps exactly the rows for which the
    predicate is true. *)
From Stdlib Require Import ZArith Lia.
From stdpp Require Import list.
From S2P Require Import Prelude Floats Foreign Truth BTree Text Types Values Fingerprint Model Expr Semantic ExprNormalize ExprValidate Row ExprPrepare Plan PushDown PgSql PgExpr PgCompile PgSemantics.

Local Open Scope Z_scope.

Section Sound.
Context {F : Foreign} {Q : Subqueries} {P : Postgres} {L : PostgresLaws P}.
Context (env : RowEnv) (binds : list SqlBind).

Notation eval := (pg_eval env binds).
Notation logic b := (Some (SLogic b)).
Notation tag n := (Some (STag n)).

(** ** What a SQL pair stands for *)
Definition represents (sd : SqlDatum) (d : Datum) : Prop :=
  eval (sd_state sd) = tag (state_of d) /\
  (sd_always_value sd = true -> is_value d = true) /\
  forall v, d = DValue v -> eval (sd_value sd) = Some (encode_scalar v) /\ typed_value (sd_ty sd) v /\ pg_storable v = true.

Lemma represents_truth value t : eval value = tag (truth_tag t) -> represents (truth_datum value) (DValue (VTruth t)).
Proof using L.
  intros H. split_and!; [apply pg_int|done|]. intros v [= <-]. split_and!; [done| |apply pg_truth_storable].
  by intros r [= <-].
Qed.

Lemma truth_value_of sd t : represents sd (DValue (VTruth t)) -> eval (sd_value sd) = tag (truth_tag t).
Proof. intros (_ & _ & H). by destruct (H _ eq_refl). Qed.

(** ** The templates *)
Lemma eval_is_tag a n m : eval a = tag n -> eval (is_tag a m) = logic (n =? m).
Proof using L. intros H. unfold is_tag. rewrite (pg_constant _ _ _ _ _ _ H). cbn. by rewrite compare_eqb. Qed.

Lemma eval_is_not_tag a n m : eval a = tag n -> eval (is_not_tag a m) = logic (negb (n =? m)).
Proof using L. intros H. unfold is_not_tag. rewrite (pg_constant _ _ _ _ _ _ H). cbn. by rewrite compare_eqb. Qed.

Lemma eval_any2 a b x y : eval a = logic x -> eval b = logic y -> eval (SqlAny [a; b]) = logic (x || y).
Proof using L. intros Ha Hb. rewrite (pg_any _ _ _ [x; y]); cbn; [by rewrite orb_false_r|]. by rewrite Ha, Hb. Qed.

Lemma eval_all2 a b x y : eval a = logic x -> eval b = logic y -> eval (SqlAll [a; b]) = logic (x && y).
Proof using L. intros Ha Hb. rewrite (pg_all _ _ _ [x; y]); cbn; [by rewrite andb_true_r|]. by rewrite Ha, Hb. Qed.

Lemma eval_when c b r l e : eval c = logic b -> eval (SqlCase ((c, r) :: l) e) = if b then eval r else eval (SqlCase l e).
Proof using L. intros H. rewrite pg_case_when, H. by destruct b. Qed.

(** ** Comparison of values *)
Definition sql_op (op : BinaryOp) : SqlOp :=
  match op with OpLt => SqlLt | OpLe => SqlLe | OpGt => SqlGt | OpGe => SqlGe | _ => SqlEq end.
Lemma order_op op o : is_ordering op = true -> op_holds (sql_op op) o = order_holds op o.
Proof. by destruct op. Qed.

Lemma eval_nan_guard r ty a b x y cmp n m : (r = RFloat32 /\ ty = "real" \/ r = RFloat64 /\ ty = "double precision")%stdpp ->
  scalar_matches r x = true -> scalar_matches r y = true -> eval a = Some (encode_scalar x) -> eval b = Some (encode_scalar y) ->
  is_nan_value x = n -> is_nan_value y = m ->
  eval (not_nan ty a b cmp) = if n || m then logic false else eval cmp.
Proof using L.
  intros Hr Mx My Ha Hb En Em. unfold not_nan.
  assert (G : forall c z, scalar_matches r z = true -> eval c = Some (encode_scalar z) -> eval (is_nan_of ty c) = logic (is_nan_value z)).
  { intros c z Mz Hc. unfold is_nan_of. destruct Hr as [[-> ->]|[-> ->]]; destruct z; try discriminate Mz; cbn [encode_scalar is_nan_value] in *;
      [by apply pg_real_nan|by apply pg_double_nan]. }
  rewrite (eval_when _ (n || m)); [by destruct (n || m); rewrite ?pg_bool, ?pg_case_else|]. apply eval_any2; rewrite <- ?En, <- ?Em; by apply G.
Qed.

Lemma matched_encode r v : scalar_matches r v = true -> r <> RBool -> r <> RTruth -> encode_scalar v = SData v.
Proof. destruct r, v; done. Qed.

(** Values stored as data, without NaN. *)
Lemma compared_data op r v w : scalar_matches r v = true -> scalar_matches r w = true -> pg_storable v = true -> pg_storable w = true ->
  is_nan_value v = false -> is_nan_value w = false -> r <> RBool -> r <> RTruth ->
  op_holds (sql_op op) (pg_compare (is_text v) v w) = compare_result op v w.
Proof using L.
  intros Mv Mw Sv Sw Nv Nw Hb Ht. unfold compare_result. destruct (is_ordering op) eqn:Eo.
  - assert (G : exists o, value_partial_cmp v w = Some o).
    { destruct r, v; try discriminate Mv; destruct w; try discriminate Mw; cbn [value_partial_cmp is_nan_value] in *; eauto;
        unfold float_partial_cmp; rewrite Nv, Nw; cbn; eauto. }
    destruct G as [o Ho]. rewrite Ho, (pg_order_values r v w o) by done. by apply order_op.
  - rewrite <- (pg_equal_values r v w) by done. by destruct op.
Qed.

Lemma compared_bools op x y : op_holds (sql_op op) (bool_cmp x y) = compare_result op (VBool x) (VBool y).
Proof. by destruct op, x, y. Qed.

(** The comparison of two values as the code writes it; the tags of [Truth]
    are compared for equality only. *)
Lemma eval_compare op r a b v w : scalar_matches r v = true -> scalar_matches r w = true -> pg_storable v = true -> pg_storable w = true ->
  (is_ordering op = true -> r <> RTruth) -> eval a = Some (encode_scalar v) -> eval b = Some (encode_scalar w) ->
  eval (compare_repr (sql_op op) r a b) = logic (compare_result op v w).
Proof using L.
  intros Mv Mw Sv Sw Ht Ha Hb.
  assert (Plain : eval (compare_parens (sql_op op) a b) = compare_values_sql false (sql_op op) (Some (encode_scalar v)) (Some (encode_scalar w))).
  { unfold compare_parens. by apply pg_comparison. }
  assert (Data : r <> RBool -> r <> RTruth -> is_text v = false -> is_nan_value v = false -> is_nan_value w = false ->
            eval (compare_parens (sql_op op) a b) = logic (compare_result op v w)).
  { intros Hb1 Ht1 Tv Nv Nw. rewrite Plain, (matched_encode r v), (matched_encode r w) by done. cbn. by rewrite <- Tv, (compared_data op r). }
  assert (Float : forall ty, (r = RFloat32 /\ ty = "real" \/ r = RFloat64 /\ ty = "double precision")%stdpp ->
            eval (not_nan ty a b (compare_parens (sql_op op) a b)) = logic (compare_result op v w)).
  { intros ty Hr. rewrite (eval_nan_guard r ty a b v w _ _ _ Hr) by done. destruct (is_nan_value v || is_nan_value w) eqn:N.
    - by rewrite (compared_nan op r v w).
    - apply orb_false_iff in N as [Nv Nw]. apply Data; try done; destruct Hr as [[-> _]|[-> _]]; try done; by destruct v. }
  assert (Text : r <> RBool -> r <> RTruth -> is_text v = true -> is_nan_value v = false -> is_nan_value w = false ->
            eval (collated (sql_op op) a b) = logic (compare_result op v w)).
  { intros Hb1 Ht1 Tv Nv Nw. unfold collated. rewrite (pg_collated _ _ _ _ _ _ _ Ha Hb), (matched_encode r v), (matched_encode r w) by done.
    cbn. by rewrite <- Tv, (compared_data op r). }
  destruct r; cbn [compare_repr].
  all: try (destruct v; try discriminate Mv; destruct w; try discriminate Mw; by apply Data).
  - rewrite Plain. destruct v; try discriminate Mv. destruct w; try discriminate Mw. cbn. f_equal. f_equal. by apply compared_bools.
  - destruct (is_ordering op) eqn:Eo; [by destruct (Ht eq_refl)|]. rewrite Plain. destruct v; try discriminate Mv. destruct w; try discriminate Mw.
    unfold compare_result. rewrite Eo. destruct op; try discriminate Eo; cbn; by destruct t, t0.
  - apply Float. by left.
  - apply Float. by right.
  - destruct v; try discriminate Mv; destruct w; try discriminate Mw; by apply Text.
  - destruct v; try discriminate Mv; destruct w; try discriminate Mw; by apply Text.
Qed.

(** ** Comparisons of pairs *)
Definition no_truth (d : Datum) : Prop := forall t, d <> DValue (VTruth t).

Lemma same_shape_ok l r u : ensure_same_scalar_shape l r = Ok u -> ty_shape l = ty_shape r.
Proof.
  intros (a & Ha%scalar_repr_ok & (b & Hb%scalar_repr_ok & E%guard_ok)%rbind_ok)%rbind_ok. apply bool_decide_eq_true in E. congruence.
Qed.

Lemma value_equal_eval l r dl dr s v w : represents l dl -> represents r dr -> value_equal_sql l r = Ok s -> dl = DValue v -> dr = DValue w ->
  eval s = logic (value_eqb v w).
Proof using L.
  intros (_ & _ & Rl) (_ & _ & Rr) (Hs%same_shape_ok & (t & Ht%scalar_repr_ok & [= <-])%rbind_ok)%check_then Ev Ew.
  destruct (Rl v Ev) as (El & Tl & Sl), (Rr w Ew) as (Er & Tr & Sr).
  exact (eval_compare OpEq t _ _ v w (Tl t Ht) (Tr t (eq_trans (eq_sym Hs) Ht)) Sl Sr ltac:(done) El Er).
Qed.

Lemma value_order_eval op l r dl dr s v w : represents l dl -> represents r dr -> value_order_sql op l r = Ok s -> no_truth dl ->
  dl = DValue v -> dr = DValue w -> eval s = logic (compare_result op v w).
Proof using L.
  intros (_ & _ & Rl) (_ & _ & Rr) (Hs%same_shape_ok & (o & Ho & (t & Ht%scalar_repr_ok & [= <-])%rbind_ok)%rbind_ok)%check_then Hn Ev Ew.
  destruct (Rl v Ev) as (El & Tl & Sl), (Rr w Ew) as (Er & Tr & Sr).
  assert (o = sql_op op) as -> by (destruct op; try discriminate Ho; by injection Ho as <-).
  apply eval_compare; try done; [by apply Tl|apply Tr; congruence|]. intros _ ->. specialize (Tl _ Ht). subst dl.
  destruct v; try discriminate Tl. by destruct (Hn t).
Qed.

Lemma eval_state_guard sd d : represents sd d -> eval (is_not_tag (sd_state sd) STATE_VALUE) = logic (negb (is_value d)).
Proof using L. intros (H & _). rewrite (eval_is_not_tag _ _ _ H). by destruct d. Qed.

Lemma represents_comparison l r dl dr cmp b : represents l dl -> represents r dr ->
  (forall v w, dl = DValue v -> dr = DValue w -> eval cmp = logic (b v w)) ->
  represents (comparison_truth l r cmp) (compare_with b dl dr).
Proof using L.
  intros Rl Rr H. unfold comparison_truth, compare_with. apply represents_truth.
  rewrite (eval_when _ _ _ _ _ (eval_any2 _ _ _ _ (eval_state_guard l dl Rl) (eval_state_guard r dr Rr))).
  destruct dl as [| |v], dr as [| |w]; cbn [is_value negb orb]; try apply pg_int.
  rewrite (eval_when _ (b v w)) by (rewrite pg_paren; by apply H). rewrite pg_case_else, !pg_int. by destruct (b v w).
Qed.

(** ** Unary operators *)
Lemma truth_typed sd t : represents sd t -> require_total_truth sd = Ok tt -> exists x, t = DValue (VTruth x).
Proof.
  intros (_ & Hv & H) [Ht%guard_ok Ha%guard_ok]%check_then. specialize (Hv Ha). destruct t as [| |v]; try discriminate Hv.
  destruct (H v eq_refl) as (_ & T & _). unfold typed_value in T. destruct (ty_shape (sd_ty sd)) as [[]| | | |]; try discriminate Ht.
  specialize (T _ eq_refl). destruct v; try discriminate T. eauto.
Qed.

Lemma represents_tag_test sd d m (a b : Truth) : represents sd d ->
  represents (truth_datum (SqlCase [(is_tag (sd_state sd) m, SqlInt (truth_tag a))] (SqlInt (truth_tag b))))
    (DValue (VTruth (if state_of d =? m then a else b))).
Proof using L.
  intros (H & _). apply represents_truth. rewrite (eval_when _ _ _ _ _ (eval_is_tag _ _ m H)), pg_case_else, !pg_int. by destruct (_ =? _).
Qed.

Lemma unary_represents op input output sd di d : represents input di -> compile_unary op input output = Ok sd -> eval_unary op di output = Ok d ->
  checked_as output d -> represents sd d.
Proof using L.
  intros R H E C. destruct op; cbn [compile_unary] in H; try discriminate H; cbn [eval_unary] in E.
  - apply check_then in H as [Ht [= <-]]. destruct (truth_typed _ _ R Ht) as [t ->]. injection E as <-. apply represents_truth.
    rewrite (pg_switch _ _ _ (truth_tag t)) by (rewrite pg_paren; by apply truth_value_of). by destruct t.
  - injection H as <-. injection E as <-. pose proof (represents_tag_test input di STATE_NULL TTrue TFalse R) as G. by destruct di.
  - injection H as <-. injection E as <-. pose proof (represents_tag_test input di STATE_MISSING TTrue TFalse R) as G. by destruct di.
  - injection H as <-. injection E as <-. pose proof (represents_tag_test input di STATE_MISSING TFalse TTrue R) as G. by destruct di.
  - injection H as <-. injection E as <-. destruct R as (Rs & Ra & Rv). split_and!; [done|done|]. intros v Ev.
    destruct (Rv v Ev) as (? & _ & ?). split_and!; [done|by apply (checked_typed _ _ _ C)|done].
Qed.

(** ** Binary operators *)
Lemma distinct_represents (negate : bool) l r dl dr s d : represents l dl -> represents r dr -> value_equal_sql l r = Ok s ->
  distinct_equality dl dr negate = Ok d ->
  let equal :=
    SqlCase [(SqlAll [is_tag (sd_state l) STATE_MISSING; is_tag (sd_state r) STATE_MISSING], SqlBool true);
             (SqlAll [is_tag (sd_state l) STATE_NULL; is_tag (sd_state r) STATE_NULL], SqlBool true);
             (SqlAny [is_not_tag (sd_state l) STATE_VALUE; is_not_tag (sd_state r) STATE_VALUE], SqlBool false)] (SqlParen s) in
  represents (truth_datum (SqlCase [(if negate then SqlNot (SqlParen equal) else equal, SqlInt TRUTH_TRUE)] (SqlInt TRUTH_FALSE))) d.
Proof using L.
  intros Rl Rr Hs [= <-]. cbv zeta. apply represents_truth.
  set (same := match dl, dr with Missing, Missing | Null, Null => true | DValue v, DValue w => value_eqb v w | _, _ => false end).
  set (equal := SqlCase [_; _; _] _).
  assert (He : eval equal = logic same).
  { unfold equal. pose proof Rl as (Sl & _). pose proof Rr as (Sr & _).
    rewrite (eval_when _ _ _ _ _ (eval_all2 _ _ _ _ (eval_is_tag _ _ STATE_MISSING Sl) (eval_is_tag _ _ STATE_MISSING Sr))).
    rewrite (eval_when _ _ _ _ _ (eval_all2 _ _ _ _ (eval_is_tag _ _ STATE_NULL Sl) (eval_is_tag _ _ STATE_NULL Sr))).
    rewrite (eval_when _ _ _ _ _ (eval_any2 _ _ _ _ (eval_state_guard l dl Rl) (eval_state_guard r dr Rr))), pg_case_else, pg_paren, !pg_bool.
    unfold same. destruct dl as [| |v], dr as [| |w]; try done. cbn. by apply (value_equal_eval l r (DValue v) (DValue w)). }
  rewrite (eval_when _ (if negate then negb same else same)).
  - rewrite pg_case_else, !pg_int. unfold same, truth. by destruct negate, dl, dr; cbn; try done; destruct (value_eqb _ _).
  - destruct negate; [|done]. apply pg_not. exact He.
Qed.

Lemma kleene_represents (op : BinaryOp) l r t u absorbing neutral : represents l (DValue (VTruth t)) -> represents r (DValue (VTruth u)) ->
  absorbing <> TUnknown -> neutral <> TUnknown -> absorbing <> neutral ->
  represents (truth_datum (SqlCase [(SqlAny [is_tag (sd_value l) (truth_tag absorbing); is_tag (sd_value r) (truth_tag absorbing)], SqlInt (truth_tag absorbing));
                                    (SqlAll [is_tag (sd_value l) (truth_tag neutral); is_tag (sd_value r) (truth_tag neutral)], SqlInt (truth_tag neutral))]
                                   (SqlInt TRUTH_UNKNOWN)))
    (DValue (VTruth (if bool_decide (t = absorbing) || bool_decide (u = absorbing) then absorbing
                     else if bool_decide (t = neutral) && bool_decide (u = neutral) then neutral else TUnknown))).
Proof using L.
  intros Rl%truth_value_of Rr%truth_value_of Ha Hn Han. apply represents_truth.
  rewrite (eval_when _ _ _ _ _ (eval_any2 _ _ _ _ (eval_is_tag _ _ (truth_tag absorbing) Rl) (eval_is_tag _ _ (truth_tag absorbing) Rr))).
  rewrite (eval_when _ _ _ _ _ (eval_all2 _ _ _ _ (eval_is_tag _ _ (truth_tag neutral) Rl) (eval_is_tag _ _ (truth_tag neutral) Rr))).
  rewrite pg_case_else, !pg_int. by destruct t, u, absorbing, neutral.
Qed.

Lemma coalesce_represents l r dl dr output : represents l dl -> (is_absent dl = true -> represents r dr) -> checked_as output (coalesce dl dr) ->
  represents (mkSqlDatum (SqlCase [(is_tag (sd_state l) STATE_VALUE, SqlParen (sd_state l))] (SqlParen (sd_state r)))
                         (SqlCase [(is_tag (sd_state l) STATE_VALUE, SqlParen (sd_value l))] (SqlParen (sd_value r)))
                         output (sd_always_value l || sd_always_value r)) (coalesce dl dr).
Proof using L.
  intros (Sl & Al & Vl) Hr C. unfold represents. cbn [sd_state sd_value sd_ty sd_always_value].
  rewrite !(eval_when _ _ _ _ _ (eval_is_tag _ _ STATE_VALUE Sl)), !pg_case_else, !pg_paren.
  destruct dl as [| |v]; cbn [state_of coalesce is_absent] in *.
  1, 2: destruct (Hr eq_refl) as (Sr & Ar & Vr); cbn; split_and!; [done| |];
    [intros [H|H]%orb_true_iff; [by discriminate (Al H)|by apply Ar]|intros w Ew; destruct (Vr w Ew) as (? & _ & ?); split_and!; [done|by apply (checked_typed _ _ _ C)|done]].
  cbn. split_and!; [done..|]. intros w Ew. destruct (Vl w Ew) as (? & _ & ?). split_and!; [done|by apply (checked_typed _ _ _ C)|done].
Qed.

Lemma binary_represents op l r sd dl dr d output : represents l dl -> represents r dr -> compile_binary op l r output = Ok sd ->
  eval_binary op dl dr = Ok d -> (is_ordering op = true -> no_truth dl) -> checked_as output d -> represents sd d.
Proof using L.
  intros Rl Rr H E Ho C. destruct op; cbn [compile_binary eval_binary] in H, E; try discriminate H.
  3-6: (apply rbind_ok in H as (s & Hs & [= <-]); rewrite compare_order_with in E by done; injection E as <-; apply represents_comparison; [done..|];
    intros v w; apply (value_order_eval _ l r dl dr); [done..|by apply Ho]).
  - apply rbind_ok in H as (s & Hs & [= <-]). rewrite compare_equality_with in E. injection E as <-. apply represents_comparison; [done..|].
    intros v w. by apply (value_equal_eval l r).
  - apply rbind_ok in H as (s & Hs & [= <-]). rewrite compare_equality_with in E. injection E as <-. apply represents_comparison; [done..|].
    intros v w Ev Ew. apply pg_not. by apply (value_equal_eval l r dl dr).
  - apply check_then in H as [Hl H]. apply check_then in H as [Hr [= <-]].
    destruct (truth_typed _ _ Rl Hl) as [t ->], (truth_typed _ _ Rr Hr) as [u ->]. injection E as <-.
    pose proof (kleene_represents OpAnd l r t u TFalse TTrue Rl Rr ltac:(done) ltac:(done) ltac:(done)) as G. by destruct t, u.
  - apply check_then in H as [Hl H]. apply check_then in H as [Hr [= <-]].
    destruct (truth_typed _ _ Rl Hl) as [t ->], (truth_typed _ _ Rr Hr) as [u ->]. injection E as <-.
    pose proof (kleene_represents OpOr l r t u TTrue TFalse Rl Rr ltac:(done) ltac:(done) ltac:(done)) as G. by destruct t, u.
  - apply rbind_ok in H as (s & Hs & [= <-]). by apply (distinct_represents true l r dl dr s).
  - apply rbind_ok in H as (s & Hs & [= <-]). by apply (distinct_represents false l r dl dr s).
  - injection H as <-. injection E as <-. by apply coalesce_represents.
Qed.

(** ** Membership and conditionals *)
Lemma membership_comparisons input candidates cs di ds : represents input di -> Forall2 represents candidates ds ->
  mapR (fun c => let? equal := value_equal_sql input c in Ok (comparison_truth input c equal)) candidates = Ok cs ->
  Forall2 (fun c t => eval (sd_value c) = tag (truth_tag t)) cs (map (eq_truth di) ds).
Proof using L.
  intros Ri Rs H%mapR_ok. revert cs H. induction Rs as [|c d candidates ds Rc _ IH]; intros cs H; [apply Forall2_nil_inv_l in H as ->; constructor|].
  apply Forall2_cons_inv_l in H as (y & cs' & (s & Hs & [= <-])%rbind_ok & H & ->). cbn [map]. constructor; [|by apply IH].
  apply truth_value_of. pose proof (represents_comparison input c di d s value_eqb Ri Rc (fun v w => value_equal_eval input c di d s v w Ri Rc Hs)) as G.
  by destruct di, d.
Qed.

Lemma eval_saw cs ts m : Forall2 (fun c t => eval (sd_value c) = tag (truth_tag t)) cs ts ->
  eval (SqlAny (map (fun c => is_tag (sd_value c) (truth_tag m)) cs)) = logic (existsb (fun t => bool_decide (t = m)) ts).
Proof using L.
  intros H. rewrite (pg_any _ _ _ (map (fun t => bool_decide (t = m)) ts)).
  - f_equal. f_equal. clear H. induction ts as [|t ts IH]; [done|]. cbn. by rewrite IH.
  - induction H as [|c t cs ts Hc _ IH]; [done|]. cbn [map]. rewrite IH. f_equal. rewrite (eval_is_tag _ _ _ Hc). by destruct t, m.
Qed.

Lemma membership_represents input candidates negate sd di ds d : represents input di -> Forall2 represents candidates ds ->
  compile_membership input candidates negate = Ok sd -> eval_membership di ds negate = Ok d -> represents sd d.
Proof using L.
  intros Ri Rs (cs & Hcs & [= <-])%rbind_ok. rewrite eval_membership_eq. intros [= <-]. apply represents_truth.
  pose proof (membership_comparisons _ _ _ _ _ Ri Rs Hcs) as H.
  pose proof (eval_saw cs _ TTrue H) as HT. pose proof (eval_saw cs _ TUnknown H) as HU. rewrite any_truth_cases.
  destruct cs as [|c cs]; [apply Forall2_nil_inv_l in H as ->; rewrite pg_int; by destruct negate|].
  rewrite (eval_when _ _ _ _ _ HT), (eval_when _ _ _ _ _ HU), pg_case_else, !pg_int.
  by repeat case_match; destruct negate.
Qed.

Lemma conditional_represents condition t f output sd x d : represents condition (DValue (VTruth x)) ->
  compile_conditional condition t f output = Ok sd -> represents (match x with TTrue => t | _ => f end) d -> checked_as output d -> represents sd d.
Proof using L.
  intros Hc%truth_value_of [_ [= <-]]%check_then (S & A & V) C. unfold represents. cbn [sd_state sd_value sd_ty sd_always_value].
  rewrite !(eval_when _ _ _ _ _ (eval_is_tag _ _ TRUTH_TRUE Hc)), !pg_case_else, !pg_paren.
  assert (G : forall v, d = DValue v -> typed_value output v /\ pg_storable v = true) by (intros v Ev; destruct (V v Ev) as (_ & _ & ?); split; [by apply (checked_typed _ _ _ C)|done]).
  destruct x; cbn; (split_and!; [done|intros [? ?]%andb_true_iff; by apply A|intros v Ev; destruct (V v Ev) as (? & _), (G v Ev); done]).
Qed.

(** ** Literals, parameters and fields *)
Definition bind_storable (b : SqlBind) : Prop := match b with BindDatum _ (DValue v) => pg_storable v = true | _ => True end.

Lemma bound_represents ty d c sd c' : compile_bound_datum ty d c = Ok (sd, c') -> cc_binds c' `prefix_of` binds -> Forall bind_storable binds ->
  represents sd d.
Proof using L.
  intros [Hv%map_err_ok (p & Hp & [= <- <-])%rbind_ok]%check_then [rest Hb] Hs. cbn [cc_binds] in Hb.
  set (n := length (cc_binds c)) in *.
  assert (H1 : binds !! n = Some (BindState (state_of d))).
  { rewrite Hb, <- !app_assoc. by apply list_lookup_middle. }
  assert (H2 : binds !! S n = Some (BindDatum ty d)).
  { rewrite Hb, <- !app_assoc. rewrite lookup_app_r by (unfold n; lia). unfold n. by replace (S (length (cc_binds c)) - length (cc_binds c))%nat with 1%nat by lia. }
  assert (E1 : zlen (cc_binds c ++ [BindState (state_of d)]) = Z.of_nat (S n)) by (unfold zlen; rewrite length_app; cbn; unfold n; lia).
  assert (E2 : zlen ((cc_binds c ++ [BindState (state_of d)]) ++ [BindDatum ty d]) = Z.of_nat (S (S n))) by (unfold zlen; rewrite !length_app; cbn; unfold n; lia).
  rewrite E1. rewrite E2 in Hp. unfold represents. cbn [sd_state sd_value sd_ty sd_always_value].
  replace n with (Z.to_nat (Z.of_nat (S n) - 1)) in H1 by lia. replace (S n) with (Z.to_nat (Z.of_nat (S (S n)) - 1)) in H2 by lia.
  rewrite (pg_state_bind _ _ _ (state_of d)) by (done || lia). split_and!; [done..|].
  pose proof (proj1 (Forall_lookup _ _) Hs _ _ H2) as Hst.
  intros v ->. rewrite (pg_datum_bind _ _ (Z.of_nat (S (S n))) ty (DValue v) p) by (done || lia).
  split_and!; [done| |done]. by apply (checked_typed _ _ _ (validated_as ty (DValue v) Hv)).
Qed.

(** The row of a relation: the state and value columns of every field hold the
    datum that the evaluation context has. *)
Definition row_matches (relation : Relation) (qualifier : string) (context : EvalContext) : Prop :=
  forall scope slot layout column d, rel_scopes relation !! scope = Some layout -> sl_fields layout !! slot = Some column ->
    read_field context scope slot = Ok d ->
    (forall q, quote_identifier (cr_state_alias column) = Ok q -> env qualifier q = tag (state_of d)) /\
    (cr_always_value column = true -> is_value d = true) /\
    (forall v, d = DValue v -> pg_storable v = true /\
       forall q, quote_identifier (cr_value_alias column) = Ok q -> env qualifier q = Some (encode_scalar v)).

Lemma field_represents e relation qualifier context scope slot allow ty sd d : row_matches relation qualifier context ->
  compile_field_sql e relation qualifier scope slot allow ty = Ok sd -> read_field context scope slot = Ok d -> checked_as ty d -> represents sd d.
Proof using L.
  intros Hm H Hr C. unfold compile_field_sql in H. apply check_then in H as [_ H]. apply rbind_ok in H as (k & _ & H).
  apply rbind_ok in H as (layout & Hl%ok_or_ok & H). apply check_then in H as [_ H]. apply rbind_ok in H as (column & Hc%ok_or_ok & H).
  apply rbind_ok in H as (s & (qs & Hqs & [= <-])%rbind_ok & H). apply rbind_ok in H as (v & (qv & Hqv & [= <-])%rbind_ok & [= <-]).
  destruct (Hm scope slot layout column d Hl Hc Hr) as (Hs & Ha & Hv). unfold represents. cbn [sd_state sd_value sd_ty sd_always_value].
  rewrite !pg_column. split_and!; [by apply Hs|done|]. intros v Ev. destruct (Hv v Ev) as [Sv Vv]. split_and!; [by apply Vv|by apply (checked_typed _ _ _ C)|done].
Qed.

(** ** Nodes *)
Definition truth_typed_node (n : PreparedNode) : bool := match ty_shape (pn_ty n) with ShScalar RTruth => true | _ => false end.

(** No order comparison of truth values. *)
Definition orders_no_truth (nodes : list PreparedNode) : bool :=
  forallb (fun n => match pn_kind n with
                    | PBinary op l _ => negb (is_ordering op && match nodes !! l with Some m => truth_typed_node m | None => false end)
                    | _ => true
                    end) nodes.

Section Nodes.
Context (parameters : Parameters) (e : LogicalExpr) (relation : Relation) (qualifier : string) (context : EvalContext)
  (resolve : nat -> Result Truth).
Hypothesis same_parameter_values : ec_parameters context = parameters.
Hypothesis row_ok : row_matches relation qualifier context.
Hypothesis storable_binds : Forall bind_storable binds.
Hypothesis no_truth_orders : orders_no_truth (pe_nodes e) = true.

Notation ev := (evaluate_node resolve (pe_nodes e) context).

Lemma operand_no_truth fuel op l r ty d : mkPreparedNode (PBinary op l r) ty ∈ pe_nodes e -> is_ordering op = true -> ev fuel l = Ok d -> no_truth d.
Proof using no_truth_orders.
  intros Hin Ho Hd t ->. unfold orders_no_truth in no_truth_orders. rewrite forallb_forall in no_truth_orders.
  specialize (no_truth_orders _ (proj1 (list_elem_of_In _ _) Hin)). cbn [pn_kind] in no_truth_orders. rewrite Ho in no_truth_orders.
  destruct fuel as [|fuel]; [done|]. destruct (pe_nodes e !! l) as [n|] eqn:En; [|cbn [evaluate_node] in Hd; by rewrite En in Hd].
  pose proof (evaluated_as _ _ _ _ Hd En _ eq_refl) as T. inversion T as [? k ? Hk Mk| | | |]; subst. unfold truth_typed_node in no_truth_orders.
  rewrite Hk in no_truth_orders. by destruct k.
Qed.

Lemma represented_list values ids cs ds fuel :
  (forall i s d, values !! i = Some s -> ev fuel i = Ok d -> represents s d) ->
  mapR (get_expr values) ids = Ok cs -> mapR (ev fuel) ids = Ok ds -> Forall2 represents cs ds.
Proof.
  intros IH Hc%mapR_ok Hd%mapR_ok. revert ds Hd. induction Hc as [|i c ids cs Hi%ok_or_ok _ IHc]; intros ds Hd.
  - apply Forall2_nil_inv_l in Hd as ->. constructor.
  - apply Forall2_cons_inv_l in Hd as (d & ds' & Hd & Hds & ->). constructor; [by eapply IH|by apply IHc].
Qed.

Lemma node_represents values node c sd c' fuel d : node ∈ pe_nodes e ->
  compile_node_sql parameters e relation qualifier values node c = Ok (sd, c') -> cc_binds c' `prefix_of` binds ->
  (forall i s d, values !! i = Some s -> ev fuel i = Ok d -> represents s d) ->
  (let? value := evaluate_kind resolve context (ev fuel) (pn_kind node) (pn_ty node) in checked_kind context (pn_kind node) (pn_ty node) value) = Ok d ->
  represents sd d.
Proof using All.
  destruct node as [kind ty]. intros Hin H Hb IH (v & Hv & Hk)%rbind_ok. cbn [pn_kind pn_ty] in *. apply checked_kind_as in Hk as [-> C].
  unfold compile_node_sql in H. cbn [pn_kind pn_ty] in H. destruct kind; cbn [evaluate_kind] in Hv.
  - apply rbind_ok in H as (s & H & [= <- <-]). by eapply field_represents.
  - injection Hv as <-. by eapply bound_represents.
  - apply rbind_ok in H as (p & Hp%ok_or_ok & H). apply check_then in H as [_ H]. unfold read_parameter in Hv. rewrite same_parameter_values, Hp in Hv.
    apply check_then in Hv as [_ [= <-]]. by eapply bound_represents.
  - apply rbind_ok in H as (s & H & [= <- <-]). apply rbind_ok in H as (i & Hi%ok_or_ok & H). apply rbind_ok in Hv as (a & Ha & Hv).
    eapply unary_represents; [by eapply IH|done..].
  - apply rbind_ok in H as (s & H & [= <- <-]). apply rbind_ok in H as (x & Hx%ok_or_ok & H). apply rbind_ok in H as (y & Hy%ok_or_ok & H).
    apply rbind_ok in Hv as (a & Ha & Hv). destruct (bool_decide (op = Coalesce) && negb (is_absent a)) eqn:E.
    + apply andb_true_iff in E as [->%bool_decide_eq_true Hn]. injection Hv as <-. injection H as <-.
      assert (Ea : coalesce a Missing = a) by (by destruct a). rewrite <- Ea. apply coalesce_represents; [by eapply IH| |by rewrite Ea].
      intros Hab. by rewrite Hab in Hn.
    + apply rbind_ok in Hv as (b & Hb' & Hv). apply (binary_represents op x y s a b v ty); [by eapply IH|by eapply IH|done|done| |done].
      intros Ho. by eapply operand_no_truth.
  - apply rbind_ok in H as (s & H & [= <- <-]). apply rbind_ok in H as (x & Hx%ok_or_ok & H). apply rbind_ok in H as (cs & Hcs & H).
    apply rbind_ok in Hv as (a & Ha & Hv). apply rbind_ok in Hv as (ds & Hds & Hv).
    eapply membership_represents; [by eapply IH|by eapply represented_list|done..].
  - apply rbind_ok in H as (s & H & [= <- <-]). apply rbind_ok in H as (x & Hx%ok_or_ok & H). apply rbind_ok in H as (y & Hy%ok_or_ok & H).
    apply rbind_ok in H as (z & Hz%ok_or_ok & H). apply rbind_ok in Hv as (a & Ha & Hv).
    destruct a as [| |[]]; cbn in Hv; try discriminate Hv.
    eapply (conditional_represents x y z ty s t); [by eapply IH|done| |done]. destruct t; by eapply IH.
  - done.
  - done.
Qed.

(** ** Expressions *)
Lemma pure_step (m : Result SqlDatum) (c : CompileContext) sd c' : (let? d := m in Ok (d, c)) = Ok (sd, c') -> c' = c.
Proof. by intros (s & _ & [= _ ->])%rbind_ok. Qed.

Lemma bound_binds ty d c sd c' : compile_bound_datum ty d c = Ok (sd, c') -> cc_binds c `prefix_of` cc_binds c'.
Proof.
  intros [_ (p & _ & [= _ <-])%rbind_ok]%check_then. cbn [cc_binds]. rewrite <- app_assoc. by apply prefix_app_r.
Qed.

Lemma node_binds values node c sd c' : compile_node_sql parameters e relation qualifier values node c = Ok (sd, c') -> cc_binds c `prefix_of` cc_binds c'.
Proof.
  unfold compile_node_sql. destruct (pn_kind node); try done; try (by intros ->%pure_step); [by intros H%bound_binds|].
  intros (p & _ & [_ H%bound_binds]%check_then)%rbind_ok. done.
Qed.

Lemma nodes_binds nodes s s' : compile_nodes_sql parameters e relation qualifier nodes s = Ok s' -> cc_binds (snd s) `prefix_of` cc_binds (snd s').
Proof.
  intros H. apply (foldR_keeps (fun t => cc_binds (snd s) `prefix_of` cc_binds (snd t)) _ _ _ _) in H; [done| |done].
  intros n [vs c] t _ Hp ([sd c'] & Hn%node_binds & [= <-])%rbind_ok. cbn [snd] in *. by etrans.
Qed.

(** What the values compiled so far stand for. *)
Definition values_represent (values : list SqlDatum) : Prop :=
  forall i s fuel d, values !! i = Some s -> ev fuel i = Ok d -> represents s d.

Lemma nodes_represent rest pre values c s' : pe_nodes e = pre ++ rest -> length values = length pre -> values_represent values ->
  compile_nodes_sql parameters e relation qualifier rest (values, c) = Ok s' -> cc_binds (snd s') `prefix_of` binds -> values_represent (fst s').
Proof using All.
  revert pre values c. induction rest as [|n rest IH]; intros pre values c He Hlen Hv; [by intros [= <-]|].
  unfold compile_nodes_sql. cbn [foldR]. intros (t & ([sd c'] & Hn & [= <-])%rbind_ok & H)%rbind_ok Hb. cbn [fst snd] in *.
  assert (Hc : cc_binds c' `prefix_of` binds) by (etrans; [exact (nodes_binds _ _ _ H)|exact Hb]).
  apply (IH (pre ++ [n]) (values ++ [sd]) c'); [by rewrite He, <- app_assoc|by rewrite !length_app, Hlen| |exact H|exact Hb].
  intros i s fuel d Hi Hd. apply lookup_app_Some in Hi as [Hi|[Hle Hi]]; [by eapply Hv|].
  apply list_lookup_singleton_Some in Hi as [Hi <-]. assert (i = length pre) as -> by lia. destruct fuel as [|fuel]; [done|].
  assert (En : pe_nodes e !! length pre = Some n) by (rewrite He; by apply list_lookup_middle). cbn [evaluate_node] in Hd. rewrite En in Hd.
  cbn [ok_or rbind] in Hd. apply (node_represents values n c sd c' fuel d); [|done|done|intros j u x; by apply Hv|exact Hd].
  by apply (list_elem_of_lookup_2 _ (length pre)).
Qed.

Lemma expr_represents c sd c' d : compile_expr parameters e relation qualifier c = Ok (sd, c') -> cc_binds c' `prefix_of` binds ->
  evaluate_datum_with_exists resolve e context = Ok d -> represents sd d.
Proof using All.
  intros [_ ([values c1] & Hn & (s & Hs%ok_or_ok & [= -> <-])%rbind_ok)%rbind_ok]%check_then Hb [_ Hd]%check_then. cbn [fst snd] in *.
  pose proof (nodes_represent (pe_nodes e) [] [] c _ eq_refl eq_refl ltac:(by intros i s1 f d1 H1) Hn Hb) as G. by eapply G.
Qed.
End Nodes.


(** A compiled filter keeps exactly the rows that the predicate retains: its
    condition is true when the predicate evaluates to true and is not when it
    evaluates to false or unknown. *)
Lemma compiled_filter_retains parameters e relation c relation' c' resolve context t from alias condition :
  compile_filter parameters relation e c = Ok (relation', c') -> rel_sql relation' = QFilter from alias condition ->
  cc_binds c' `prefix_of` binds -> Forall bind_storable binds -> row_matches relation alias context ->
  ec_parameters context = parameters -> orders_no_truth (pe_nodes e) = true ->
  evaluate_datum_with_exists resolve e context = Ok (DValue (VTruth t)) ->
  is_true (eval condition) = Truth.retains_row t.
Proof using All.
  intros H E Hb Hs Hr Hp Ho Hd. unfold compile_filter in H. destruct (next_alias "q" c) as [a c1].
  apply rbind_ok in H as (q & _ & H). apply rbind_ok in H as ([sd c2] & Hc & H). apply check_then in H as [_ H]. apply check_then in H as [_ [= <- <-]].
  injection E as _ -> <-.
  assert (R : represents sd (DValue (VTruth t))) by (by eapply (expr_represents parameters e relation alias context)).
  pose proof R as (S & _). apply truth_value_of in R.
  rewrite (eval_all2 _ _ _ _ (eval_is_tag _ _ STATE_VALUE S) (eval_is_tag _ _ TRUTH_TRUE R)). by destruct t.
Qed.
End Sound.
