(* ===== verification/PgRows.v ===== *)
(** * Compiled stages and their rows

    When the tables of PostgreSQL store the rows of the memory engine's
    tables, the relation of every compiled source, filter and projection has
    the rows that the memory executor computes for the stage. *)
From Stdlib Require Import ZArith Lia.
From stdpp Require Import list.
From S2P Require Import Prelude Foreign Truth BTree Text Types Values Fingerprint Model Row Expr Semantic ExprNormalize ExprValidate ExprPrepare Plan Executor ExecutorSpec PipelineCompile PipelineTyping PushDown PgSql PgExpr PgCompile PgCodec PgSemantics PgSound.

Local Open Scope Z_scope.

#[export] Instance filter_permutation {A} (f : A -> bool) : Proper ((≡ₚ) ==> (≡ₚ)) (List.filter f).
Proof.
  intros l1 l2 H. induction H as [|x l1 l2 _ IH|x y l|l1 l2 l3 _ IH1 _ IH2]; cbn [List.filter]; [done| | |by rewrite IH1].
  - destruct (f x); [by constructor|done].
  - destruct (f x), (f y); done || apply Permutation_swap.
Qed.

Section Rows.
Context {F : Foreign} {Q : Subqueries} {P : Postgres} {L : PostgresLaws P} {D : PgDriver F} {PQ : PostgresQueries} {QL : QueryLaws}.
Context (db : Database) (binds : list SqlBind).

(** ** Rows of relations *)
(** A column of a row holds a datum. *)
Definition column_holds (column : ColumnRef) (r : SqlRow) (d : Datum) : Prop :=
  (forall q, quote_identifier (cr_state_alias column) = Ok q -> r q = Some (STag (state_of d))) /\
  (cr_always_value column = true -> is_value d = true) /\
  (forall v, d = DValue v -> typed_value (cr_ty column) v /\ pg_storable v = true /\
     forall q, quote_identifier (cr_value_alias column) = Ok q -> r q = Some (encode_scalar v)).

(** A row of a relation stands for a row of the executor: the columns of its
    scopes hold the fields of the row's scopes, and the output columns hold
    datums that decode to the row's output. *)
Definition row_holds (relation : Relation) (r : SqlRow) (row : WorkingRow) : Prop :=
  (forall scope slot layout column s d, rel_scopes relation !! scope = Some layout -> sl_fields layout !! slot = Some column ->
     wr_scopes row !! scope = Some s -> rv_field (scope_view s) slot = Ok (Some d) -> column_holds column r d) /\
  exists ds, Forall2 (fun column d => column_holds column r d) (rel_output_columns relation) ds /\
    (Forall (fun column => scalar_typed (cr_ty column)) (rel_output_columns relation) ->
     decode_output (rel_output relation) ds (match rel_output relation with OutModel m => Some m | _ => None end) = Ok (wr_output row)).

(** The rows of a relation, in some order, stand for the rows of a stage. *)
Definition relation_holds (relation : Relation) (rows : list WorkingRow) : Prop :=
  exists l, l ≡ₚ pg_rows db binds (rel_sql relation) /\ Forall2 (row_holds relation) l rows.

(** ** The context of a row *)
Lemma row_context_matches relation alias r row n ps : row_holds relation r row ->
  row_matches (on_alias alias r) relation alias (evaluation_context [] row n ps) /\
  ec_parameters (evaluation_context [] row n ps) = ps.
Proof.
  intros [Hs _]. unfold evaluation_context. rewrite take_nil. cbn [fold_left]. destruct (bind_scopes (wr_scopes row) (with_parameters eval_context_new ps)) as [Er Ep].
  split; [|by rewrite Ep]. intros scope slot layout column d Hl Hc. unfold read_field. rewrite Er. cbn [ec_records with_parameters eval_context_new app].
  rewrite lookup_map. intros (v & Hv%ok_or_ok & (o & Ho & ->%ok_or_ok)%rbind_ok)%rbind_ok.
  destruct (wr_scopes row !! scope) as [s|] eqn:E; [|done]. injection Hv as <-.
  destruct (Hs scope slot layout column s d Hl Hc E Ho) as (H1 & H2 & H3). unfold on_alias. rewrite String.eqb_refl. split_and!; [done|done|].
  intros v Ev. destruct (H3 v Ev) as (_ & ? & ?). done.
Qed.

(** ** Columns of a select *)
Lemma select_item alias items f g i it (r : SqlRow) : Inj (=) (=) f /\ Inj (=) (=) g /\ (forall i j, f i <> g j) -> items_named f g items ->
  items !! i = Some it ->
  select_row binds alias (flat_map item_selects items) r (it_state_name it) = pg_eval (on_alias alias r) binds (it_state it) /\
  select_row binds alias (flat_map item_selects items) r (it_value_name it) = pg_eval (on_alias alias r) binds (it_value it).
Proof.
  intros Hd Hn Hi. pose proof (items_nodup f g items Hd Hn) as N.
  assert (In : forall s, s ∈ item_selects it -> s ∈ flat_map item_selects items).
  { intros s Hs. apply list_elem_of_In, in_flat_map. exists it. split; [apply list_elem_of_In; by eapply list_elem_of_lookup_2|by apply list_elem_of_In]. }
  unfold select_row.
  rewrite (find_select _ (it_state it, it_state_name it)) by (done || (apply In; left)).
  rewrite (find_select _ (it_value it, it_value_name it)) by (done || (apply In; right; left)). done.
Qed.

(** ** Filters *)
Context (parameters : Parameters) (limits : ExecutionLimits) (exists_in : nat -> list ScopeRecord -> Result Truth).
Notation eval := (evaluate_expr parameters exists_in []).
Hypothesis storable_binds : Forall bind_storable binds.

Lemma filter_shape relation e c relation' c' : compile_filter parameters relation e c = Ok (relation', c') ->
  (exists alias condition, rel_sql relation' = QFilter (rel_sql relation) alias condition) /\
  rel_scopes relation' = rel_scopes relation /\ rel_output_columns relation' = rel_output_columns relation /\ rel_output relation' = rel_output relation.
Proof.
  unfold compile_filter. destruct (next_alias "q" c) as [a c1]. intros (q & _ & ([sd c2] & _ & [_ [_ [= <- _]]%check_then]%check_then)%rbind_ok)%rbind_ok.
  cbn. split_and!; [eauto|done..].
Qed.

Lemma filter_holds relation e c relation' c' input rows : relation_holds relation input ->
  compile_filter parameters relation e c = Ok (relation', c') -> cc_binds c' `prefix_of` binds -> orders_no_truth (pe_nodes e) = true ->
  execute_filter limits eval input e = Ok rows -> relation_holds relation' rows.
Proof using All.
  intros (l & Hl & Hr) Hc Hb Ho. destruct (filter_shape _ _ _ _ _ Hc) as ((alias & condition & Eq) & Es & Ec & Eo).
  intros (s & Hs & ->)%rmap_ok. exists (List.filter (fun r => is_true (pg_eval (on_alias alias r) binds condition)) l). split.
  { rewrite Eq, pg_filter. by rewrite Hl. }
  assert (G : forall s0, foldR (fun s row => let? d := eval e row in
                match d with DValue (VTruth TTrue) => push_stage_row limits s row | DValue (VTruth _) => Ok s | _ => error "MEMORY-FILTER-001" end) input s0 = Ok s ->
    exists kept, fst s = fst s0 ++ kept /\ Forall2 (row_holds relation') (List.filter (fun r => is_true (pg_eval (on_alias alias r) binds condition)) l) kept).
  { clear Hs Hl. induction Hr as [|r row l input Hrow _ IH]; intros s0; cbn [foldR].
    - intros [= <-]. exists []. rewrite app_nil_r. split; [done|constructor].
    - intros (s1 & (d & Hd & H1)%rbind_ok & H2)%rbind_ok.
      destruct d as [| |[| t | | | | | | | | | | | | | | | | | |]]; try discriminate H1.
      destruct (row_context_matches relation alias r row (pe_outer_scope_count e) parameters Hrow) as [Hm Hp].
      pose proof (compiled_filter_retains _ binds parameters e relation c relation' c' _ _ t _ alias condition Hc Eq Hb storable_binds Hm Hp Ho Hd) as Ht.
      cbn [List.filter]. rewrite Ht. destruct t; cbn [Truth.retains_row].
      + apply push_ok in H1. destruct (IH s1 H2) as (kept & E & Hk). exists (row :: kept). rewrite E, H1, <- app_assoc. split; [done|].
        constructor; [|done]. destruct Hrow as [Hrs Hro]. unfold row_holds. by rewrite Es, Ec, Eo.
      + injection H1 as <-. by apply IH.
      + injection H1 as <-. by apply IH. }
  destruct (G no_rows Hs) as (kept & -> & Hk). done.
Qed.

(** ** Sources *)
(** How a column stores a field: NULL for missing and null, a presence column
    that tells them apart, and the encoded value. *)
Definition stored_field (mapping : TableMapping) (sr : SqlRow) (field : FieldDef) (d : Datum) : Prop :=
  forall column, field_mapping mapping (fd_key field) = Some column ->
    (forall q, quote_identifier (cm_value column) = Ok q -> sr q = match d with DValue v => Some (encode_scalar v) | _ => None end) /\
    (forall presence q, cm_presence column = Some presence -> quote_identifier presence = Ok q ->
       sr q = Some (SLogic (match d with Missing => false | _ => true end))) /\
    match d with DValue v => pg_storable v = true | _ => True end.

Definition stored_row (mapping : TableMapping) (model : ModelDef) (sr : SqlRow) (r : DynRow) : Prop :=
  Forall2 (stored_field mapping sr) (md_fields model) (row_values r) /\ row_from_dense model (row_values r) = Ok r.

Lemma eval_on_alias alias r q : pg_eval (on_alias alias r) binds (SqlColumn alias q) = r q.
Proof using L. rewrite pg_column. unfold on_alias. by rewrite String.eqb_refl. Qed.

Lemma source_state presence ty column qtable value s (sr : SqlRow) d :
  source_state_sql presence ty column qtable value = Ok s ->
  pg_eval (on_alias qtable sr) binds value = match d with DValue v => Some (encode_scalar v) | _ => None end ->
  (forall p q, column = Some p -> quote_identifier p = Ok q -> sr q = Some (SLogic (match d with Missing => false | _ => true end))) ->
  validate_datum ty presence d = Ok tt ->
  pg_eval (on_alias qtable sr) binds s = Some (STag (state_of d)) /\
  (presence = Required -> ty_nullability ty = NonNull -> is_value d = true).
Proof using L.
  intros H Hv Hp Hd.
  assert (Null : forall otherwise, pg_eval (on_alias qtable sr) binds (SqlCase [(SqlIsNull value, SqlInt STATE_NULL)] otherwise) =
            if is_value d then pg_eval (on_alias qtable sr) binds otherwise else Some (STag STATE_NULL)).
  { intros otherwise. rewrite (eval_when _ _ _ _ _ _ _ (pg_is_null _ _ _)), pg_case_else, Hv, pg_int. by destruct d. }
  unfold source_state_sql in H. destruct presence.
  - assert (Hm : d <> Missing) by (by intros ->). destruct (ty_nullability ty) eqn:En; injection H as <-.
    + rewrite pg_int. destruct d as [| |v]; [done| |done]. cbn in Hd. apply check_ok, is_nullable_true in Hd. congruence.
    + rewrite Null, pg_int. split; [by destruct d|done].
  - split; [|done]. apply rbind_ok in H as (p & Hc%ok_or_ok & (c & (q & Hq & [= <-])%rbind_ok & H)%rbind_ok). specialize (Hp p q Hc Hq).
    assert (Ha : pg_eval (on_alias qtable sr) binds (SqlCompare SqlEq (SqlColumn qtable q) (SqlBool false)) = Some (SLogic (match d with Missing => true | _ => false end))).
    { rewrite (pg_absent _ _ _ (match d with Missing => false | _ => true end)) by (by rewrite eval_on_alias). by destruct d. }
    destruct (ty_nullability ty) eqn:En; injection H as <-; rewrite (eval_when _ _ _ _ _ _ _ Ha).
    + rewrite pg_case_else, !pg_int. destruct d as [| |v]; [done| |done]. cbn in Hd. apply check_ok, is_nullable_true in Hd. congruence.
    + rewrite Null, !pg_int. by destruct d.
Qed.

(** What one field of a source contributes. *)
Definition source_item_of (it : Item) (f : FieldDef) (i : nat) : ColumnRef :=
  mkColumnRef (source_state_alias i) (source_value_alias i) (fd_ty f) (source_always_value f).

Lemma source_field_item mapping qtable i field selects column : compile_source_field mapping qtable i field = Ok (selects, column) ->
  exists it, selects = item_selects it /\ quote_identifier (source_state_alias i) = Ok (it_state_name it) /\
    quote_identifier (source_value_alias i) = Ok (it_value_name it) /\ column = source_item_of it field i /\
    forall sr d, stored_field mapping sr field d -> validate_datum (fd_ty field) (fd_presence field) d = Ok tt ->
      pg_eval (on_alias qtable sr) binds (it_state it) = Some (STag (state_of d)) /\
      (source_always_value field = true -> is_value d = true) /\
      (forall v, d = DValue v -> typed_value (fd_ty field) v /\ pg_storable v = true /\ pg_eval (on_alias qtable sr) binds (it_value it) = Some (encode_scalar v)).
Proof using L.
  unfold compile_source_field. intros (t & _ & (cm & Hm%ok_or_ok & (value & (qv & Hqv & [= <-])%rbind_ok & H)%rbind_ok)%rbind_ok)%rbind_ok.
  apply rbind_ok in H as (state & Hs & (qs & Hqs & (qv' & Hqv' & [= <- <-])%rbind_ok)%rbind_ok).
  exists (mkItem state (SqlColumn qtable qv) qs qv'). split_and!; [done..|]. intros sr d Hst Hd. destruct (Hst cm Hm) as (H1 & H2 & H3).
  cbn [it_state it_value]. specialize (H1 _ Hqv).
  destruct (source_state _ _ _ _ _ _ sr d Hs ltac:(by rewrite eval_on_alias) H2 Hd) as [E1 E2]. split_and!; [done| |].
  - intros [?%bool_decide_eq_true ?%bool_decide_eq_true]%andb_true_iff. by apply E2.
  - intros v ->. rewrite eval_on_alias, H1. split_and!; [|done..]. eapply checked_typed; [|reflexivity]. by apply validated_as.
Qed.

Definition source_reading (mapping : TableMapping) (qtable : string) (f : FieldDef) (it : Item) : Prop :=
  forall sr d, stored_field mapping sr f d -> validate_datum (fd_ty f) (fd_presence f) d = Ok tt ->
    pg_eval (on_alias qtable sr) binds (it_state it) = Some (STag (state_of d)) /\
    (source_always_value f = true -> is_value d = true) /\
    (forall v, d = DValue v -> typed_value (fd_ty f) v /\ pg_storable v = true /\ pg_eval (on_alias qtable sr) binds (it_value it) = Some (encode_scalar v)).

Lemma source_items mapping qtable fs results :
  mapR (fun f => compile_source_field mapping qtable (fst f) (snd f)) (enumerate fs) = Ok results ->
  exists items, flat_map fst results = flat_map item_selects items /\ items_named source_state_alias source_value_alias items /\
    length results = length fs /\
    forall i column, map snd results !! i = Some column -> exists f it, fs !! i = Some f /\ items !! i = Some it /\
      column = source_item_of it f i /\ source_reading mapping qtable f it.
Proof using L.
  intros H%mapR_ok. assert (Hlen : length results = length fs) by (rewrite <- (Forall2_length _ _ _ H); unfold enumerate; by rewrite length_imap).
  destruct (Forall2_witnesses (fun (x : nat * FieldDef) (y : list (Sql * string) * ColumnRef) it =>
    fst y = item_selects it /\ quote_identifier (source_state_alias (fst x)) = Ok (it_state_name it) /\
    quote_identifier (source_value_alias (fst x)) = Ok (it_value_name it) /\ snd y = source_item_of it (snd x) (fst x) /\
    source_reading mapping qtable (snd x) it) (enumerate fs) results) as [items H3].
  { eapply Forall2_impl; [exact H|]. intros [i f] [selects column] Hf. by apply source_field_item in Hf. }
  assert (Lk : forall i it, items !! i = Some it -> exists f y, fs !! i = Some f /\ results !! i = Some y /\
    fst y = item_selects it /\ quote_identifier (source_state_alias i) = Ok (it_state_name it) /\
    quote_identifier (source_value_alias i) = Ok (it_value_name it) /\ snd y = source_item_of it f i /\ source_reading mapping qtable f it).
  { intros i it Hi. destruct (Forall3_lookup_r _ _ _ _ _ _ H3 Hi) as ([j f] & y & Hx & Hy & Hr). unfold enumerate in Hx.
    rewrite list_lookup_imap in Hx. apply fmap_Some in Hx as (f' & Hf & [= -> ->]). exists f', y. done. }
  exists items. split_and!; [|intros i it Hi; by destruct (Lk i it Hi) as (f & y & _ & _ & _ & ? & ? & _)|done|].
  - clear -H3. induction H3 as [|x y it l k items (E & _) _ IH]; [done|]. cbn [flat_map]. by rewrite E, IH.
  - intros i column Hc. rewrite lookup_map in Hc. destruct (results !! i) as [y|] eqn:Ey; [|done]. injection Hc as <-.
    destruct (Forall3_lookup_m _ _ _ _ _ _ H3 Ey) as (x & it & Hx & Hi & _). destruct (Lk i it Hi) as (f & y' & Hf & Hy & _ & _ & _ & Es & Hrd).
    rewrite Ey in Hy. injection Hy as <-. eauto 8.
Qed.

(** The table of PostgreSQL stores the model's table of the memory engine, in
    any order, under the mapping of the catalog. *)
Definition model_stored (catalog : PostgresCatalog) (tables : Tables) (model : ModelDef) : Prop :=
  forall mapping table qs qt, postgres_table catalog model = Ok mapping -> bt_get (md_key model) tables = Some table ->
    quote_identifier (tm_schema mapping) = Ok qs -> quote_identifier (tm_table mapping) = Ok qt ->
    exists l, l ≡ₚ db qs qt /\ Forall2 (stored_row mapping model) l (mt_rows table).

Lemma source_holds catalog tables model c relation c' rows : model_stored catalog tables model -> dense model ->
  compile_source catalog model c = Ok (relation, c') -> execute_source tables limits model = Ok rows -> relation_holds relation rows.
Proof using L QL.
  intros Hdb Hdense Hc (table & Ht%ok_or_ok & [_ [_ [_ [= <-]]%check_then]%check_then]%check_then)%rbind_ok.
  unfold compile_source in Hc. apply rbind_ok in Hc as (mapping & Hm & Hc). destruct (next_alias "t" c) as [alias c1].
  apply rbind_ok in Hc as (qs & Hqs & (qt & Hqt & (qtable & _ & (results & Hr & [= <- <-])%rbind_ok)%rbind_ok)%rbind_ok).
  destruct (Hdb _ _ _ _ Hm Ht Hqs Hqt) as (l & Hl & Hst). destruct (source_items _ _ _ _ Hr) as (items & Ei & Hn & Hlen & Hcols).
  exists (map (select_row binds qtable (flat_map fst results)) l). cbn [rel_sql]. split.
  { rewrite pg_source by (rewrite Ei; by apply (items_nodup source_state_alias source_value_alias), Hn; apply source_aliases_distinct). by rewrite Hl. }
  rewrite Forall2_fmap. eapply Forall2_impl; [exact Hst|]. intros sr r [Hf Hd]. pose proof Hd as Hdense'. apply row_from_dense_ok in Hd as [Er Ha]; [|done].
  assert (Hold : forall i column d, map snd results !! i = Some column -> row_values r !! i = Some d ->
    column_holds column (select_row binds qtable (flat_map fst results) sr) d).
  { intros i column d Hcol Hdat. destruct (Hcols i column Hcol) as (f & it & Hfi & Hit & -> & Hrd).
    pose proof (Forall2_lookup_lr _ _ _ _ _ _ Hf Hfi Hdat) as Hstored. pose proof (Forall2_lookup_lr _ _ _ _ _ _ Ha Hfi Hdat) as Hval.
    destruct (Hrd sr d Hstored Hval) as (H1 & H2 & H3). destruct (Hn i it Hit) as [Hs Hv].
    destruct (select_item qtable items _ _ i it sr source_aliases_distinct Hn Hit) as [S1 S2]. rewrite Ei.
    split_and!; cbn [cr_state_alias cr_value_alias cr_always_value cr_ty source_item_of].
    - intros q Hq. rewrite Hs in Hq. injection Hq as <-. by rewrite S1.
    - done.
    - intros v Ev. destruct (H3 v Ev) as (? & ? & ?). split_and!; [done..|]. intros q Hq. rewrite Hv in Hq. injection Hq as <-. by rewrite S2. }
  split; cbn [rel_scopes rel_output_columns rel_output wr_scopes wr_output].
  - intros scope slot layout column s d [-> <-]%list_lookup_singleton_Some Hcol [_ <-]%list_lookup_singleton_Some. cbn [scope_view rv_field row_view]. intros [= Hd].
    by eapply Hold.
  - exists (row_values r). split.
    + apply Forall2_same_length_lookup. split; [rewrite length_map, Hlen; by eapply Forall2_length|]. intros i column d. by apply Hold.
    + intros _. unfold decode_output. rewrite (proj2 (guard_ok _ _ tt)). { cbn [rbind ok_or]. by rewrite Hdense'. }
      apply Nat.eqb_eq. symmetry. by eapply Forall2_length.
Qed.

(** ** Projections *)
Lemma expr_binds e relation qualifier c sd c' : compile_expr parameters e relation qualifier c = Ok (sd, c') -> cc_binds c `prefix_of` cc_binds c'.
Proof. by intros [_ (s & Hn%nodes_binds & (d & _ & [= _ <-])%rbind_ok)%rbind_ok]%check_then. Qed.

(** What one expression of a projection contributes. *)
Definition projected (relation : Relation) (qal : string) (c' : CompileContext) (entry : nat * LogicalExpr) (it : Item) (column : ColumnRef) : Prop :=
  exists sd c1 c2, compile_expr parameters (snd entry) relation qal c1 = Ok (sd, c2) /\ cc_binds c2 `prefix_of` cc_binds c' /\
    it_state it = sd_state sd /\ it_value it = sd_value sd /\
    quote_identifier (project_state_alias (fst entry)) = Ok (it_state_name it) /\
    quote_identifier (project_value_alias (fst entry)) = Ok (it_value_name it) /\
    column = mkColumnRef (project_state_alias (fst entry)) (project_value_alias (fst entry)) (pe_ty (snd entry)) (sd_always_value sd).

Lemma projection_items relation qal entries : forall selects columns c selects' columns' c',
  foldR (compile_projection parameters relation qal) entries ((selects, columns), c) = Ok ((selects', columns'), c') ->
  cc_binds c `prefix_of` cc_binds c' /\ exists items cols, selects' = selects ++ flat_map item_selects items /\ columns' = columns ++ cols /\
    Forall3 (projected relation qal c') entries items cols.
Proof.
  induction entries as [|[i e] entries IH]; intros selects columns c selects' columns' c'; cbn [foldR].
  - intros [= <- <- <-]. split; [done|]. exists [], []. cbn. rewrite !app_nil_r. split_and!; [done..|constructor].
  - intros ([[s1 k1] c1] & H & Hr)%rbind_ok. unfold compile_projection in H. apply rbind_ok in H as ([sd c2] & Hc & H).
    apply rbind_ok in H as (qs & Hqs & (qv & Hqv & [= <- <- <-])%rbind_ok). destruct (IH _ _ _ _ _ _ Hr) as (Hp & items & cols & -> & -> & H3).
    split; [etrans; [by eapply expr_binds|done]|].
    exists (mkItem (sd_state sd) (sd_value sd) qs qv :: items), (mkColumnRef (project_state_alias i) (project_value_alias i) (pe_ty e) (sd_always_value sd) :: cols).
    cbn [flat_map]. rewrite <- !app_assoc. split_and!; [done..|]. constructor; [|done]. exists sd, c, c2. done.
Qed.

Lemma projection_decodes scopes p row d values : projection_typed scopes p -> mapR (fun e => eval e row) (lp_expressions p) = Ok values ->
  evaluate_projection eval p row = Ok d -> Forall (fun e => scalar_typed (pe_ty e)) (lp_expressions p) ->
  decode_output (OutValue (lp_ty p)) values None = Ok (RValue d).
Proof.
  intros T Hv H Hs. unfold evaluate_projection in H. rewrite Hv in H. cbn [rbind] in H. apply rbind_ok in H as (d' & Hd & [Hval [= ->]]%check_then).
  unfold decode_output. pose proof (pt_shape _ _ T) as Sh. pose proof (mapR_length _ _ _ Hv) as Hl. unfold assemble_value_output.
  destruct (lp_kind p).
  - destruct (lp_expressions p) as [|e [|]]; try discriminate Sh. injection Sh as Sh. destruct values as [|v [|]]; try discriminate Hl. injection Hd as ->.
    apply Forall_cons in Hs as [(r & Hr) _]. rewrite <- Sh, Hr. cbn [rbind]. by rewrite Sh, Hval.
  - injection Hd as <-. rewrite Sh.
    assert (El : Nat.eqb (length (map pe_ty (lp_expressions p))) (length values) = true) by (apply Nat.eqb_eq; by rewrite length_map).
    rewrite El. cbn [guard rbind]. by rewrite Hval.
  - apply check_then in Hd as [_ [= <-]]. destruct Sh as (fields & -> & En & Et).
    assert (El : Nat.eqb (length fields) (length values) = true) by (apply Nat.eqb_eq; apply (f_equal length) in Et; rewrite !length_map in Et; exact (eq_trans Et (eq_sym Hl))).
    rewrite El. cbn [guard rbind]. by rewrite En, Hval.
Qed.

(** One row of a compiled projection. *)
Lemma projected_row relation qal c' items cols scopes p r row d selects :
  row_holds relation r row -> projection_typed scopes p -> cc_binds c' `prefix_of` binds ->
  Forall (fun e => orders_no_truth (pe_nodes e) = true) (lp_expressions p) ->
  Forall3 (projected relation qal c') (enumerate (lp_expressions p)) items cols -> selects = flat_map item_selects items ->
  evaluate_projection eval p row = Ok d ->
  row_holds (mkRelation (QSelect selects (rel_sql relation) qal) [] cols (OutValue (lp_ty p))) (select_row binds qal selects r) (value_row d).
Proof using All.
  intros Hrow T Hb Ho H3 -> Hd. pose proof Hd as Hd'. unfold evaluate_projection in Hd'. apply rbind_ok in Hd' as (values & Hv & _).
  assert (Lk : forall i e it column, enumerate (lp_expressions p) !! i = Some (i, e) -> items !! i = Some it -> cols !! i = Some column -> projected relation qal c' (i, e) it column)
    by (intros; by eapply (Forall3_lookup_lmr _ _ _ _ _ _ _ _ H3)).
  assert (En : forall i e, lp_expressions p !! i = Some e -> enumerate (lp_expressions p) !! i = Some (i, e)).
  { intros i e He. unfold enumerate. rewrite list_lookup_imap. apply fmap_Some. by exists e. }
  assert (Ei : forall i it, items !! i = Some it -> exists e column, lp_expressions p !! i = Some e /\ cols !! i = Some column /\ projected relation qal c' (i, e) it column).
  { intros i it Hi. destruct (Forall3_lookup_m _ _ _ _ _ _ H3 Hi) as ([j e] & column & He & Hc & Hp). unfold enumerate in He. rewrite list_lookup_imap in He.
    apply fmap_Some in He as (e' & He' & [= -> ->]). eauto. }
  assert (Hn : items_named project_state_alias project_value_alias items).
  { intros i it Hi. by destruct (Ei i it Hi) as (e & column & _ & _ & sd & c1 & c2 & _ & _ & _ & _ & ? & ? & _). }
  split; [intros scope slot layout column s x H; cbn [rel_scopes] in H; by rewrite lookup_nil in H|]. exists values. cbn [rel_output_columns rel_output wr_output value_row].
  pose proof (Forall3_length_lm _ _ _ _ H3) as Lm. pose proof (Forall3_length_lr _ _ _ _ H3) as Lr.
  unfold enumerate in Lm, Lr. rewrite length_imap in Lm, Lr. pose proof (mapR_length _ _ _ Hv) as Lv.
  assert (Hcol : forall i column v, cols !! i = Some column -> values !! i = Some v ->
    exists e, lp_expressions p !! i = Some e /\ cr_ty column = pe_ty e /\ column_holds column (select_row binds qal (flat_map item_selects items) r) v).
  { intros i column v Hc Hvi. destruct (lookup_lt_is_Some_2 items i) as [it Hit]; [apply lookup_lt_Some in Hc; lia|].
    destruct (Ei i it Hit) as (e & column' & He & Hc' & Hp). rewrite Hc in Hc'. injection Hc' as <-. exists e.
    destruct Hp as (sd & c1 & c2 & Hsd & Hpre & Es & Ev & Qs & Qv & ->). cbn [fst snd] in *. split_and!; [done..|].
    apply mapR_ok in Hv. pose proof (Forall2_lookup_lr _ _ _ _ _ _ Hv He Hvi) as Hev. cbn beta in Hev.
    destruct (row_context_matches relation qal r row (pe_outer_scope_count e) parameters Hrow) as [Hm Hps]. unfold evaluate_expr in Hev.
    assert (R : represents (on_alias qal r) binds sd v).
    { eapply (expr_represents (on_alias qal r) binds parameters e relation qal); [done|done|done| |exact Hsd| |exact Hev].
      - rewrite Forall_forall in Ho. apply Ho. by eapply list_elem_of_lookup_2.
      - by etrans. }
    destruct R as (R1 & R2 & R3). destruct (select_item qal items _ _ i it r project_aliases_distinct Hn Hit) as [S1 S2].
    assert (Hty : forall w, v = DValue w -> typed_value (pe_ty e) w).
    { pose proof (pt_expressions _ _ T) as Hce. rewrite Forall_forall in Hce.
      destruct (closed_root scopes e (Hce e (list_elem_of_lookup_2 _ _ _ He))) as (n & Hroot & <-). intros w Ew. eapply checked_typed; [|exact Ew].
      unfold evaluate_datum_with_exists in Hev. apply check_then in Hev as [_ Hev]. by eapply evaluated_as. }
    split_and!; cbn [cr_state_alias cr_value_alias cr_always_value cr_ty].
    - intros q Hq. rewrite Qs in Hq. injection Hq as <-. by rewrite S1, Es.
    - done.
    - intros w Ew. destruct (R3 w Ew) as (? & _ & ?). split_and!; [by apply Hty|done|]. intros q Hq. rewrite Qv in Hq. injection Hq as <-. by rewrite S2, Ev. }
  split.
  - apply Forall2_same_length_lookup. split; [lia|]. intros i column v Hc Hvi. by destruct (Hcol i column v Hc Hvi) as (e & _ & _ & ?).
  - intros Hs. apply (projection_decodes scopes p row); [done|done|done|]. apply Forall_lookup. intros i e He.
    destruct (lookup_lt_is_Some_2 cols i) as [column Hc]; [apply lookup_lt_Some in He; change (i < length (lp_expressions p))%nat in He; lia|].
    destruct (lookup_lt_is_Some_2 values i) as [v Hvi]; [apply lookup_lt_Some in He; change (i < length (lp_expressions p))%nat in He; lia|].
    destruct (Hcol i column v Hc Hvi) as (e' & He' & Et & _).
    assert (E : Some e' = Some e) by (rewrite <- He'; exact He). injection E as ->. rewrite <- Et. exact (proj1 (Forall_lookup _ _) Hs i column Hc).
Qed.
End Rows.
