(* ===== verification/PgRefines.v ===== *)
(** * Compiled plans return the rows of the memory executor

    Whatever the executor returns for a typed plan of sources, filters and
    projections, the compiled statement returns, and the codec decodes, the
    same rows in some order. *)
From Stdlib Require Import ZArith Lia.
From stdpp Require Import list.
From S2P Require Import Prelude Foreign Truth BTree Text Types Values Fingerprint Model Row Expr ExprValidate ExprPrepare Plan Placement Executor ExecutorSpec Pipeline PipelineGraph PipelineCompile PipelineTyping PipelineSound PushDown PgSql PgExpr PgCompile PgCodec PgSemantics PgSound PgRows.

Local Open Scope Z_scope.

Section Refines.
Context {F : Foreign} {Q : Subqueries} {P : Postgres} {L : PostgresLaws P} {D : PgDriver F} {PQ : PostgresQueries} {QL : QueryLaws}.
Context (db : Database) (binds : list SqlBind).
Context (parameters : Parameters) (limits : ExecutionLimits).
Hypothesis storable_binds : Forall bind_storable binds.

Section Stages.
Context (exists_in : nat -> list ScopeRecord -> Result Truth).
Notation eval := (evaluate_expr parameters exists_in []).

Lemma project_holds relation p c relation' c' scopes input rows : relation_holds db binds relation input -> projection_typed scopes p ->
  compile_project parameters relation p c = Ok (relation', c') -> cc_binds c' `prefix_of` binds ->
  Forall (fun e => orders_no_truth (pe_nodes e) = true) (lp_expressions p) ->
  execute_project limits eval input p = Ok rows -> relation_holds db binds relation' rows.
Proof using All.
  intros (l & Hl & Hr) T Hc Hb Ho Hp%project_rows. unfold compile_project in Hc. destruct (next_alias "q" c) as [alias c1].
  apply rbind_ok in Hc as (qal & _ & ([[selects cols] c2] & Hf & [_ [= <- <-]]%check_then)%rbind_ok).
  destruct (projection_items _ _ _ _ _ _ _ _ _ _ Hf) as (_ & items & cols' & -> & -> & H3).
  exists (map (select_row binds qal (flat_map item_selects items)) l). cbn [app rel_sql]. split.
  { rewrite pg_select; [by rewrite Hl|]. apply (items_nodup project_state_alias project_value_alias); [apply project_aliases_distinct|].
    intros i it Hi. destruct (Forall3_lookup_m _ _ _ _ _ _ H3 Hi) as ([j e] & column & He & _ & sd & k1 & k2 & _ & _ & _ & _ & Qs & Qv & _).
    unfold enumerate in He. rewrite list_lookup_imap in He. apply fmap_Some in He as (e' & _ & [= -> _]). done. }
  rewrite Forall2_fmap_l. apply Forall2_same_length_lookup. split; [by rewrite (Forall2_length _ _ _ Hr), (Forall2_length _ _ _ Hp)|].
  intros i r out Hi Ho'. destruct (Forall2_lookup_l _ _ _ _ _ Hr Hi) as (row & Hrow & Hh).
  destruct (Forall2_lookup_lr _ _ _ _ _ _ Hp Hrow Ho') as (d & Hd & ->). by eapply projected_row.
Qed.

(** ** The compiled relations of a plan *)
Lemma step_binds catalog relations n c relation c' : compile_logical_node catalog parameters relations n c = Ok (relation, c') ->
  cc_binds c `prefix_of` cc_binds c'.
Proof.
  destruct n; cbn [compile_logical_node]; try done.
  - unfold compile_source. intros (mapping & _ & H)%rbind_ok. unfold next_alias in H.
    apply rbind_ok in H as (? & _ & (? & _ & (? & _ & (? & _ & [= _ <-])%rbind_ok)%rbind_ok)%rbind_ok). done.
  - intros (rel & _ & H)%rbind_ok. unfold compile_filter, next_alias in H.
    apply rbind_ok in H as (q & _ & ([sd c2] & Hc%expr_binds & [_ [_ [= _ <-]]%check_then]%check_then)%rbind_ok). done.
  - intros (rel & _ & H)%rbind_ok. unfold compile_project, next_alias in H.
    apply rbind_ok in H as (q & _ & ([[sel cols] c2] & Hf & [_ [= _ <-]]%check_then)%rbind_ok). by apply projection_items in Hf as [Hf _].
  - intros (rel & _ & H)%rbind_ok. unfold compile_slice, next_alias in H.
    apply rbind_ok in H as (o & _ & (l & _ & (q & _ & [= _ <-])%rbind_ok)%rbind_ok). done.
Qed.

Definition compiled_at (catalog : PostgresCatalog) (relations : list Relation) (c' : CompileContext) (i : nat) (n : LogicalNode) : Prop :=
  exists relation c1 c2, relations !! i = Some relation /\
    compile_logical_node catalog parameters (take i relations) n c1 = Ok (relation, c2) /\ cc_binds c2 `prefix_of` cc_binds c'.

Lemma relations_compiled catalog rest : forall pre relations c relations' c', length relations = length pre ->
  (forall i n, pre !! i = Some n -> compiled_at catalog relations c i n) ->
  compile_relations catalog parameters rest (relations, c) = Ok (relations', c') ->
  forall i n, (pre ++ rest) !! i = Some n -> compiled_at catalog relations' c' i n.
Proof.
  induction rest as [|m rest IH]; intros pre relations c relations' c' Hl Hpre; unfold compile_relations; cbn [foldR].
  { intros [= <- <-]. by rewrite app_nil_r. }
  intros ([rs k] & ([rel k'] & Hn & [= <- <-])%rbind_ok & H)%rbind_ok. cbn [fst snd] in *.
  intros i n Hi. rewrite cons_middle, app_assoc in Hi. refine (IH (pre ++ [m]) (relations ++ [rel]) k' relations' c' _ _ H i n Hi).
  { by rewrite !length_app, Hl. }
  clear i n Hi. intros i n Hi. apply lookup_app_Some in Hi as [Hi|[Hge Hi]].
  - destruct (Hpre i n Hi) as (r & c1 & c2 & Hr & Hc & Hb). exists r, c1, c2. split; [by apply lookup_app_l_Some|].
    rewrite take_app_le by (apply lookup_lt_Some in Hr; lia). split; [done|]. etrans; [exact Hb|by eapply step_binds].
  - apply list_lookup_singleton_Some in Hi as [Hi <-]. assert (i = length relations) as -> by lia.
    exists rel, c, k'. split; [by apply list_lookup_middle|]. by rewrite take_app_length.
Qed.

Definition slice_free (n : LogicalNode) : bool := match n with NSlice _ _ _ => false | _ => true end.
Definition orders_values (n : LogicalNode) : bool := forallb (fun e => orders_no_truth (pe_nodes e)) (node_expressions n).
Definition source_stored (catalog : PostgresCatalog) (tables : Tables) (n : LogicalNode) : Prop :=
  match n with NSource m _ => dense m /\ model_stored db catalog tables m | _ => True end.

Section Plan.
Context (catalog : PostgresCatalog) (tables : Tables) (plan : LogicalPlan) (relations : list Relation) (c' : CompileContext) (st : list Stage).
Hypothesis compiled_nodes : forall i n, plan_nodes plan !! i = Some n -> compiled_at catalog relations c' i n.
Hypothesis typed : nodes_typed (plan_nodes plan) st.
Hypothesis all_binds : cc_binds c' `prefix_of` binds.
Hypothesis no_slices : forallb slice_free (plan_nodes plan) = true.
Hypothesis value_orders : forallb orders_values (plan_nodes plan) = true.
Hypothesis stored : Forall (source_stored catalog tables) (plan_nodes plan).

Definition results_hold (results : StageResults) : Prop :=
  forall i rows, results !! i = Some (Some rows) -> exists relation, relations !! i = Some relation /\ relation_holds db binds relation rows.

Lemma input_holds results i input rows relation : results_hold results -> input_rows results input = Ok rows ->
  compiled_relation (take i relations) input = Ok relation -> relation_holds db binds relation rows.
Proof.
  intros R H%ok_or_ok Hr%ok_or_ok. destruct (results !! input) as [[r|]|] eqn:E; try done. injection H as ->.
  destruct (R _ _ E) as (relation' & Hr' & Hh). apply lookup_take_Some in Hr as [Hr _]. rewrite Hr in Hr'. by injection Hr' as <-.
Qed.

Lemma stage_holds shapes results i n rows : results_hold results -> plan_nodes plan !! i = Some n ->
  execute_stage tables parameters limits shapes exists_in results [] n = Ok rows ->
  exists relation, relations !! i = Some relation /\ relation_holds db binds relation rows.
Proof using All.
  intros R Hn Hx. destruct (compiled_nodes i n Hn) as (relation & c1 & c2 & Hr & Hc & Hb). exists relation. split; [done|].
  assert (Hb' : cc_binds c2 `prefix_of` binds) by (by etrans).
  assert (Hord : orders_values n = true).
  { rewrite forallb_forall in value_orders. apply value_orders, list_elem_of_In. by eapply list_elem_of_lookup_2. }
  unfold orders_values in Hord. destruct n; cbn [compile_logical_node execute_stage] in Hc, Hx; try discriminate Hc.
  - rewrite Forall_forall in stored. destruct (stored _ (list_elem_of_lookup_2 _ _ _ Hn)) as [Hd Hst].
    eapply source_holds; [exact Hst|exact Hd|exact Hc|exact Hx].
  - apply rbind_ok in Hc as (rel & Hrel & Hc). apply rbind_ok in Hx as (rows0 & Hin & Hx). cbn in Hord. rewrite andb_true_r in Hord.
    eapply filter_holds; [done|by eapply input_holds|exact Hc|done|done|exact Hx].
  - apply rbind_ok in Hc as (rel & Hrel & Hc). apply rbind_ok in Hx as (rows0 & Hin & Hx).
    destruct (nodes_typed_lookup _ _ _ _ typed Hn) as (s & _ & Ht). inversion Ht as [| |? s0 ? Hs0 Hp| | | | | | | | |]; subst.
    eapply project_holds; [by eapply input_holds|exact Hp|exact Hc|done| |exact Hx].
    rewrite forallb_forall in Hord. apply Forall_forall. intros e He. apply Hord. by apply list_elem_of_In.
  - rewrite forallb_forall in no_slices. pose proof (list_elem_of_lookup_2 _ _ _ Hn) as Hin. apply list_elem_of_In in Hin. by apply no_slices in Hin.
Qed.

Lemma run_index_holds shapes needed results index results' : results_hold results ->
  run_index tables plan parameters limits shapes exists_in needed [] results index = Ok results' -> results_hold results'.
Proof using All.
  intros R. unfold run_index. destruct (default false (needed !! index)); [|by intros [= <-]].
  intros (n & Hn%ok_or_ok & (rows & Hr & [_ [_ (old & _ & [= <-])%rbind_ok]%check_then]%check_then)%rbind_ok)%rbind_ok.
  intros i r Hi. destruct (decide (i = index)) as [->|Hne].
  - apply list_lookup_insert_Some in Hi as [(_ & [= <-] & _)|(? & _)]; [|done]. by eapply stage_holds.
  - rewrite list_lookup_insert_ne in Hi by done. by apply R.
Qed.

Lemma run_subplan_holds shapes root rows : run_subplan tables plan parameters limits shapes exists_in root [] = Ok rows ->
  exists relation, relations !! root = Some relation /\ relation_holds db binds relation rows.
Proof using All.
  unfold run_subplan. intros (needed & _ & (results & Hr & Hd%ok_or_ok)%rbind_ok)%rbind_ok.
  assert (R : results_hold results).
  { refine (foldR_keeps results_hold _ _ _ _ _ _ Hr); [intros index r r' _ R; by apply run_index_holds|].
    intros i r [H _]%lookup_replicate. done. }
  destruct (results !! root) as [[r|]|] eqn:E; try done. injection Hd as ->. by apply R.
Qed.
End Plan.
End Stages.

(** ** The transported rows decode to the executor's rows *)
Lemma lookup_pairs {A} (pairs : list (list A)) i a b : Forall (fun l => length l = 2%nat) pairs -> pairs !! i = Some [a; b] ->
  concat pairs !! (i * 2)%nat = Some a /\ concat pairs !! S (i * 2) = Some b.
Proof.
  intros H. revert i. induction H as [|l pairs Hl _ IH]; intros i; [by rewrite lookup_nil|].
  destruct i as [|i]; cbn [lookup list_lookup]; [by intros [= ->]|]. intros [H1 H2]%IH. destruct l as [|x [|y []]]; try discriminate Hl. done.
Qed.

Lemma transport_pair alias column l : transport_column alias column = Ok l -> exists s v qs qv e,
  l = [(SqlCast (SqlParen (SqlColumn alias s)) "smallint"%stdpp, qs); (e, qv)] /\
  quote_identifier (cr_state_alias column) = Ok s /\ quote_identifier (cr_value_alias column) = Ok v /\
  transport_value_sql (cr_ty column) (SqlColumn alias v) = Ok e.
Proof.
  unfold transport_column, qualify. intros (a & (s & Hs & [= <-])%rbind_ok & (b & (v & Hv & [= <-])%rbind_ok & (qs & Hqs & (e & He & (qv & Hqv & [= <-])%rbind_ok)%rbind_ok)%rbind_ok)%rbind_ok)%rbind_ok.
  exists s, v, qs, qv, e. done.
Qed.

Lemma decoded_datum (alias : string) (columns : list ColumnRef) selects r (ds : list Datum) i column d :
  mapR (transport_column alias) columns = Ok selects -> columns !! i = Some column -> ds !! i = Some d ->
  column_holds column r d ->
  decode_datum (cells_of pg_cell binds alias (concat selects) r) (i * 2) (cr_ty column) = Ok d.
Proof using L QL.
  intros H%mapR_ok Hc Hd (H1 & _ & H3). destruct (Forall2_lookup_l _ _ _ _ _ H Hc) as (l & Hl & (s & v & qs & qv & e & -> & Hs & Hv & He)%transport_pair).
  assert (H2 : Forall (fun l => length l = 2%nat) selects).
  { apply Forall_lookup. intros j l Hj. destruct (Forall2_lookup_r _ _ _ _ _ H Hj) as (x & _ & (? & ? & ? & ? & ? & -> & _)%transport_pair). done. }
  destruct (lookup_pairs selects i _ _ H2 Hl) as [L1 L2]. unfold cells_of.
  eapply decode_datum_reads.
  - refine (eq_trans (lookup_map _ _ _) _). rewrite L1. reflexivity.
  - cbn [fst]. apply pg_tag_cell; [destruct d; cbn; unfold STATE_MISSING, STATE_NULL, STATE_VALUE; lia|]. rewrite eval_on_alias. by apply H1.
  - intros w ->. destruct (H3 w eq_refl) as (Ht & Hst & Hval). assert (Hsc : exists k, ty_shape (cr_ty column) = ShScalar k).
    { unfold transport_value_sql in He. apply rbind_ok in He as (k & Hk%scalar_repr_ok & _). eauto. }
    destruct Hsc as [k Hk]. exists k. eexists. split; [done|]. split; [refine (eq_trans (lookup_map _ _ _) _); rewrite L2; reflexivity|]. cbn [fst].
    eapply pg_value_cell; [exact Hk|exact He|by apply Ht|done|]. rewrite eval_on_alias. by apply Hval.
Qed.

Lemma decoded_row alias relation selects r row compiled : mapR (transport_column alias) (rel_output_columns relation) = Ok selects ->
  cq_columns compiled = map output_column (rel_output_columns relation) -> cq_output compiled = rel_output relation ->
  row_holds relation r row -> decode_row compiled (cells_of pg_cell binds alias (concat selects) r) = Ok (wr_output row).
Proof using L QL.
  intros H Ec Eo [_ (ds & Hds & Hout)]. unfold decode_row, decode_execution_row, row_decoder_new. rewrite Ec, Eo.
  pose proof (mapR_length _ _ _ H) as Hlen. pose proof H as H'. apply mapR_ok in H'.
  assert (L2 : length (concat selects) = (2 * length selects)%nat).
  { clear -H'. induction H' as [|column l columns selects (? & ? & ? & ? & ? & -> & _)%transport_pair _ IH]; [done|]. cbn [concat length app]. rewrite IH. cbn. lia. }
  assert (El : Nat.eqb (length (cells_of pg_cell binds alias (concat selects) r)) (2 * length (map output_column (rel_output_columns relation))) = true).
  { apply Nat.eqb_eq. unfold cells_of. rewrite !length_map, L2. lia. }
  rewrite El. cbn [guard rbind].
  assert (Ed : mapR (fun e => decode_datum (cells_of pg_cell binds alias (concat selects) r) (fst e * 2) (oc_ty (snd e)))
                 (enumerate (map output_column (rel_output_columns relation))) = Ok ds).
  { apply mapR_ok, Forall2_same_length_lookup. unfold enumerate. split; [rewrite length_imap, length_map; by eapply Forall2_length|].
    intros i [j o] d Hi Hd. rewrite list_lookup_imap, lookup_map in Hi. destruct (rel_output_columns relation !! i) as [column|] eqn:Ecol; [|done].
    injection Hi as <- <-. cbn [fst snd output_column oc_ty]. eapply decoded_datum; [exact H|exact Ecol|exact Hd|].
    exact (Forall2_lookup_lr _ _ _ _ _ _ Hds Ecol Hd). }
  rewrite Ed. cbn [rbind]. apply Hout. apply Forall_lookup. intros i column Hi.
  destruct (Forall2_lookup_l _ _ _ _ _ H' Hi) as (l & _ & (? & v & ? & ? & e & _ & _ & _ & He)%transport_pair).
  unfold transport_value_sql in He. apply rbind_ok in He as (k & Hk%scalar_repr_ok & _). by exists k.
Qed.
End Refines.

(** The tree of the statement that a plan compiles to. *)
Definition postgres_statement {F : Foreign} {Q : Subqueries} (catalog : PostgresCatalog) (plan : LogicalPlan) (parameters : Parameters) : Result Query :=
  let? r := compile_relations catalog parameters (plan_nodes plan) ([], mkCompileContext [] 0) in
  let? relation := compiled_relation (fst r) (plan_root plan) in
  transport_output_sql relation.

Lemma statement_refines_memory {F : Foreign} {Q : Subqueries} {P : Postgres} {L : PostgresLaws P} {D : PgDriver F} {PQ : PostgresQueries} {QL : QueryLaws}
  db catalog tables plan parameters limits batch_rows compiled stream :
  plan_typed plan -> Forall (source_stored db catalog tables) (plan_nodes plan) -> forallb slice_free (plan_nodes plan) = true ->
  forallb orders_values (plan_nodes plan) = true ->
  postgres_compile catalog plan parameters = Ok compiled -> Forall bind_storable (cq_binds compiled) ->
  execute tables plan parameters limits batch_rows = Ok stream ->
  exists statement rows, postgres_statement catalog plan parameters = Ok statement /\ cq_sql compiled = render_query statement /\
    rows ≡ₚ pg_result db (cq_binds compiled) statement /\
    Forall2 (fun row out => decode_row compiled row = Ok out) rows (ms_rows stream).
Proof.
  intros (st & s & T & _ & _) Hst Hs Ho Hc Hb Hx. unfold postgres_compile in Hc.
  apply rbind_ok in Hc as ([relations c'] & Hr & (relation & Hroot%ok_or_ok & [_ (statement & Htr & Hq)%rbind_ok]%check_then)%rbind_ok).
  assert (Ebinds : cq_binds compiled = cc_binds c') by (by injection Hq as <-). rewrite Ebinds in *.
  unfold execute in Hx. apply check_then in Hx as [_ Hx]. apply check_then in Hx as [_ Hx].
  apply rbind_ok in Hx as (shapes & _ & (rows & Hrows & [_ [= <-]]%check_then)%rbind_ok).
  assert (Hcomp : forall i n, plan_nodes plan !! i = Some n -> compiled_at parameters catalog relations c' i n).
  { intros i n Hi. apply (relations_compiled parameters catalog (plan_nodes plan) [] [] (mkCompileContext [] 0) relations c'); done. }
  unfold max_existential_depth in Hrows. cbn [execute_subplan] in Hrows.
  eapply run_subplan_holds in Hrows as (relation' & Hrel & l & Hl & Hh); [|exact Hb|exact Hcomp|exact T|done|done|done|exact Hst].
  rewrite Hroot in Hrel. injection Hrel as <-.
  unfold transport_output_sql in Htr. apply rbind_ok in Htr as (alias & Halias & (selects & Hsel & [= <-])%rbind_ok). injection Hq as Hq.
  exists (QSelect (concat selects) (rel_sql relation) alias), (map (cells_of pg_cell (cc_binds c') alias (concat selects)) l).
  split_and!; [|by rewrite <- Hq| |].
  { unfold postgres_statement. rewrite Hr. cbn [rbind fst]. unfold compiled_relation. rewrite Hroot. cbn [ok_or rbind]. unfold transport_output_sql.
    rewrite Halias. cbn [rbind]. by rewrite Hsel. }
  - by rewrite pg_output, Hl.
  - cbn [ms_rows]. rewrite Forall2_fmap. eapply Forall2_impl; [exact Hh|]. intros r row Hrow. eapply decoded_row; [exact Hsel|by rewrite <- Hq|by rewrite <- Hq|done].
Qed.

(** Pushing a plan down to PostgreSQL does not change its rows: for a
    typed plan without slices whose order comparisons are not of truth values,
    over a PostgreSQL with the laws whose tables store the tables of the
    memory engine, when the plan compiles and the memory executor returns
    rows, every row the compiled statement returns decodes, and the decoded
    rows are the executor's rows in some order. *)
Theorem postgres_refines_memory {F : Foreign} {Q : Subqueries} {P : Postgres} {L : PostgresLaws P} {D : PgDriver F} {PQ : PostgresQueries} {QL : QueryLaws}
  db catalog tables plan parameters limits batch_rows compiled stream :
  plan_typed plan -> Forall (source_stored db catalog tables) (plan_nodes plan) -> forallb slice_free (plan_nodes plan) = true ->
  forallb orders_values (plan_nodes plan) = true ->
  postgres_compile catalog plan parameters = Ok compiled -> Forall bind_storable (cq_binds compiled) ->
  execute tables plan parameters limits batch_rows = Ok stream ->
  exists statement rows, cq_sql compiled = render_query statement /\
    rows ≡ₚ pg_result db (cq_binds compiled) statement /\
    Forall2 (fun row out => decode_row compiled row = Ok out) rows (ms_rows stream).
Proof.
  intros Ht Hst Hs Ho Hc Hb Hx. destruct (statement_refines_memory db catalog tables plan parameters limits batch_rows compiled stream Ht Hst Hs Ho Hc Hb Hx)
    as (statement & rows & _ & H). by exists statement, rows.
Qed.

(** ** A filter and a projection of the sample model *)
#[local] Existing Instances FragmentSemantics.fragment_postgres FragmentSemantics.fragment_laws.
#[local] Existing Instances FragmentQueries.fragment_driver FragmentQueries.fragment_queries FragmentQueries.fragment_query_laws.

Module PostgresSample.
Import FragmentSemantics FragmentQueries.

Definition int64 : TypeDef := scalar "dol/int64" 1 (RInt 64).
Definition mail : ExprNode (F:=sample_foreign) := mkExpr (EField (mkFieldRef "user" "email" "mail" None)) (nullable string_type).
Definition id_is (e : ExprNode (F:=sample_foreign)) : ExprNode (F:=sample_foreign) :=
  mkExpr (EBinary OpEq (mkExpr (EField (mkFieldRef "user" "id" "id" None)) int64) e) truth_type.

(** [id = wanted and not (mail is null)], then the pair of both fields. *)
Definition condition : ExpressionSpec (F:=sample_foreign) :=
  mkExpressionSpec
    (and_node (id_is (mkExpr (EParameter "wanted") int64))
       (mkExpr (EUnary Not (mkExpr (EUnary IsNull mail) truth_type)) truth_type)) truth_type.
Definition both : ProjectionSpec :=
  projection_tuple [mkExpressionSpec (mkExpr (EField (mkFieldRef "user" "id" "id" None)) int64) int64;
                    mkExpressionSpec mail (nullable string_type)].

Definition pool : list (PipelineNode (F:=sample_foreign)) :=
  snd (pipeline_select (snd (pipeline_filter (snd (from_model [] (Ok sample_model))) 0 condition)) 1 both).
Definition plan : LogicalPlan :=
  match compile (kinds pool) 2 default_pipeline_limits with Ok p => p | Err _ => mkLogicalPlan [] 0 (OutModel sample_model) [] end.

Definition email_row (email : Datum) (id : Z) : DynRow (F:=sample_foreign) := mkDynRow sample_model [email; DValue (VInt id)].
Definition rows : list DynRow := [email_row Missing 8; email_row (DValue (VString "a")) 7; email_row Null 7; email_row (DValue (VString "b")) 7].
Definition tables : Tables := [("user"%stdpp, mkMemoryTable sample_model rows)].
Definition wanted : Parameters := parameters_insert parameters_new "wanted" int64 (DValue (VInt 7)).
Definition limits : ExecutionLimits := mkExecutionLimits (Some 10) None 16 64 1.

Definition mapping : TableMapping :=
  table_field (table_field (table_new "public" "users") "id" (column_required "id")) "email" (column_optional "mail" "has mail").
Definition catalog : PostgresCatalog := match postgres_register [] sample_model mapping with Ok c => c | Err _ => [] end.

(** The stored row, in the reverse order of the table. *)
Definition stored_email (r : DynRow (F:=sample_foreign)) : SqlRow := fun c =>
  let value d := match d with DValue v => Some (encode_scalar v) | _ => None end in
  match row_values r with
  | [email; id] =>
      if String.eqb c (quoted "id") then value id
      else if String.eqb c (quoted "mail") then value email
      else if String.eqb c (quoted "has mail") then Some (SLogic (match email with Missing => false | _ => true end))
      else None
  | _ => None
  end.
Definition db : Database := fun schema table =>
  if String.eqb schema (quoted "public") && String.eqb table (quoted "users") then map stored_email (rev rows) else [].

Lemma email_row_stored email id : row_from_dense sample_model [email; DValue (VInt id)] = Ok (email_row email id) ->
  match email with DValue v => storable v = true | _ => True end -> in_i128 id = true ->
  stored_row mapping sample_model (stored_email (email_row email id)) (email_row email id).
Proof.
  intros Hd He Hi. split; [|exact Hd]. let l := eval vm_compute in (md_fields sample_model) in change (md_fields sample_model) with l.
  constructor; [|constructor; [|constructor]]; intros column Hc; vm_compute in Hc; injection Hc as <-.
  - split_and!; [intros q Hq|intros presence q Hp Hq|exact He]; [|injection Hp as <-]; vm_compute in Hq; injection Hq as <-; reflexivity.
  - split_and!; [intros q Hq; vm_compute in Hq; injection Hq as <-; reflexivity|intros presence q Hp; discriminate Hp|exact Hi].
Qed.

Lemma rows_stored : Forall (fun r => stored_row mapping sample_model (stored_email r) r) rows.
Proof.
  constructor; [|constructor; [|constructor; [|constructor; [|constructor]]]].
  - exact (email_row_stored Missing 8 eq_refl I eq_refl).
  - exact (email_row_stored (DValue (VString "a")) 7 eq_refl eq_refl eq_refl).
  - exact (email_row_stored Null 7 eq_refl I eq_refl).
  - exact (email_row_stored (DValue (VString "b")) 7 eq_refl eq_refl eq_refl).
Qed.

Lemma model_is_stored : model_stored db catalog tables sample_model.
Proof.
  intros m table qs qt Hm Ht Hqs Hqt.
  assert (E : postgres_table catalog sample_model = Ok mapping) by (vm_compute; reflexivity). rewrite E in Hm. injection Hm as <-.
  assert (Et : bt_get (md_key sample_model) tables = Some (mkMemoryTable sample_model rows)) by reflexivity. rewrite Et in Ht. injection Ht as <-.
  vm_compute in Hqs. injection Hqs as <-. vm_compute in Hqt. injection Hqt as <-.
  exists (map stored_email rows). split; [apply Permutation_map, Permutation_rev|].
  rewrite Forall2_fmap_l. apply Forall_Forall2_diag. exact rows_stored.
Qed.

Lemma compiles : rmap (fun c => forallb (fun b => match b with BindDatum _ (DValue v) => storable v | _ => true end) (cq_binds c)) (postgres_compile catalog plan wanted) = Ok true.
Proof. vm_compute. reflexivity. Qed.

Lemma executes : rmap (fun s => length (ms_rows s)) (execute tables plan wanted limits 8) = Ok 2%nat.
Proof. vm_compute. reflexivity. Qed.

Lemma plan_is_typed : plan_typed plan.
Proof.
  assert (H : is_ok (compile (kinds pool) 2 default_pipeline_limits) = true) by (vm_compute; reflexivity). unfold plan.
  destruct (compile (kinds pool) 2 default_pipeline_limits) as [p|] eqn:E; [|done]. by apply compile_nodes_typed in E as [E _].
Qed.

Lemma sources_stored : Forall (source_stored db catalog tables) (plan_nodes plan).
Proof.
  assert (H : omap (fun n => match n with NSource m _ => Some m | _ => None end) (plan_nodes plan) = [sample_model]) by (vm_compute; reflexivity).
  apply Forall_forall. intros n Hn. destruct n; [|exact I..]. assert (m = sample_model) as ->.
  { apply list_elem_of_singleton. rewrite <- H. apply list_elem_of_omap. exists (NSource m alias). split; [exact Hn|reflexivity]. }
  split; [|apply model_is_stored].
  intros [|[|i]] f Hf; [by injection Hf as <-..|done].
Qed.

Lemma binds_storable compiled : postgres_compile catalog plan wanted = Ok compiled -> Forall bind_storable (cq_binds compiled).
Proof.
  intros E. pose proof compiles as H. rewrite E in H. injection H as H. rewrite forallb_forall in H. apply Forall_forall. intros b Hb%list_elem_of_In%H.
  by destruct b as [|? []].
Qed.
End PostgresSample.

Lemma postgres_refines_memory_witness :
  exists compiled stream statement result, postgres_compile PostgresSample.catalog PostgresSample.plan PostgresSample.wanted = Ok compiled /\
    execute PostgresSample.tables PostgresSample.plan PostgresSample.wanted PostgresSample.limits 8 = Ok stream /\ length (ms_rows stream) = 2%nat /\
    cq_sql compiled = render_query statement /\ result ≡ₚ pg_result PostgresSample.db (cq_binds compiled) statement /\
    Forall2 (fun row out => decode_row compiled row = Ok out) result (ms_rows stream).
Proof.
  destruct (postgres_compile PostgresSample.catalog PostgresSample.plan PostgresSample.wanted) as [compiled|] eqn:E; [|pose proof PostgresSample.compiles as H; by rewrite E in H].
  destruct (execute PostgresSample.tables PostgresSample.plan PostgresSample.wanted PostgresSample.limits 8) as [stream|] eqn:X; [|pose proof PostgresSample.executes as H; by rewrite X in H].
  destruct (postgres_refines_memory PostgresSample.db PostgresSample.catalog PostgresSample.tables PostgresSample.plan PostgresSample.wanted
    PostgresSample.limits 8 compiled stream) as (statement & result & H1 & H2 & H3).
  - exact PostgresSample.plan_is_typed.
  - exact PostgresSample.sources_stored.
  - reflexivity.
  - reflexivity.
  - exact E.
  - by apply PostgresSample.binds_storable.
  - exact X.
  - exists compiled, stream, statement, result. split_and!; [done..| |done|done|done]. pose proof PostgresSample.executes as H. rewrite X in H. by injection H.
Defined.

(** ** Truth values in an order

    The tags that carry truth values are ordered false, true, unknown; the
    values are ordered true, false, unknown.  A type of truth values declared
    with an order is valid, its comparisons are prepared and supported, and
    PostgreSQL answers them differently. *)
Definition ordered_truth : TypeDef :=
  mkTypeDef "app/level" 1 (ShScalar RTruth) NonNull (mkTypeProperties true true true false false false false false) [].
Definition truth_below : ExpressionSpec (F:=sample_foreign) (Q:=no_subqueries) :=
  mkExpressionSpec (mkExpr (EBinary OpLt (mkExpr (EParameter "a") ordered_truth) (mkExpr (EParameter "b") ordered_truth)) truth_type) truth_type.
Definition truth_values : Parameters (F:=sample_foreign) :=
  parameters_insert (parameters_insert parameters_new "a" ordered_truth (DValue (VTruth TTrue))) "b" ordered_truth (DValue (VTruth TFalse)).
Definition no_relation : Relation := mkRelation (QSource [] EmptyString EmptyString EmptyString) [] [] (OutValue truth_type).

Example truth_orders_differ :
  (let? e := prepare_expression truth_below (mkBindContext [] [] []) default_expression_limits in
   let? d := evaluate_datum e (with_parameters eval_context_new truth_values) in
   let? r := compile_expr truth_values e no_relation EmptyString (mkCompileContext [] 0) in
   Ok (supports_node [] (NFilter 0 e), datum_eqb d (DValue (VTruth TTrue)),
       match pg_eval (fun _ _ => None) (cc_binds (snd r)) (sd_value (fst r)) with Some (STag n) => Some n | _ => None end)) =
  Ok (true, true, Some TRUTH_FALSE).
Proof. vm_compute. reflexivity. Qed.
