(* ===== verification/PgSafety.v ===== *)
(** * The text and the binds of PostgreSQL statements

    Values never reach the text: statements for plans that differ only in
    literals and bound parameters have the same text, columns and bind
    types; and every bind of a compiled statement can be sent. *)
From Stdlib Require Import ZArith Lia.
From stdpp Require Import list.
From S2P Require Import Prelude Foreign Truth BTree Text Types Values Fingerprint Model Expr Semantic ExprPrepare Plan PushDown PgSql PgExpr PgCompile PgCodec PgSemantics PgSound PgRows PgRefines.

Local Open Scope Z_scope.

(** ** Values stay out of the text *)
Section Values.
Context {F : Foreign} {Q : Subqueries}.

(** Up to whether the datum is known to be a value. *)
Definition shape_datum (d : SqlDatum) : Sql * Sql * TypeDef := (sd_state d, sd_value d, sd_ty d).
Definition shape_column (c : ColumnRef) : string * string * TypeDef := (cr_state_alias c, cr_value_alias c, cr_ty c).
Definition shape_bind (b : SqlBind) : option TypeDef := match b with BindState _ => None | BindDatum ty _ => Some ty end.
Definition shape_layout (l : ScopeLayout) := (sl_model_key l, map shape_column (sl_fields l)).
Definition shape_relation (r : Relation) := (rel_sql r, map shape_layout (rel_scopes r), map shape_column (rel_output_columns r), rel_output r).
Definition shape_context (c : CompileContext) := (map shape_bind (cc_binds c), cc_next_relation c).

(** Two computations agree when both succeed. *)
Definition agree {A B} (shape : A -> B) (r1 r2 : Result A) : Prop :=
  forall a1 a2, r1 = Ok a1 -> r2 = Ok a2 -> shape a1 = shape a2.

Lemma agree_bind {A B C D} (f : A -> C) (g : B -> D) (m1 m2 : Result A) (k1 k2 : A -> Result B) :
  agree f m1 m2 -> (forall a1 a2, f a1 = f a2 -> agree g (k1 a1) (k2 a2)) -> agree g (rbind m1 k1) (rbind m2 k2).
Proof. intros Hm Hk b1 b2 (a1 & E1 & H1)%rbind_ok (a2 & E2 & H2)%rbind_ok. eapply Hk; [by eapply Hm|done|done]. Qed.

Lemma agree_then {B D} (g : B -> D) (m1 m2 : Result unit) (k1 k2 : Result B) : agree g k1 k2 -> agree g (m1 ;;? k1) (m2 ;;? k2).
Proof. intros Hk b1 b2 [_ H1]%check_then [_ H2]%check_then. by apply Hk. Qed.

Lemma agree_ok {A B} (f : A -> B) a1 a2 : f a1 = f a2 -> agree f (Ok a1) (Ok a2).
Proof. by intros E ? ? [= <-] [= <-]. Qed.

Lemma agree_same {A B} (f : A -> B) r : agree f r r.
Proof. intros a1 a2 E1 E2. congruence. Qed.

Lemma agree_err {A B} (f : A -> B) e r : agree f (Err e) r.
Proof. done. Qed.

Lemma agree_lookup {A B} (f : A -> B) (l1 l2 : list A) i e : map f l1 = map f l2 -> agree f (ok_or (l1 !! i) e) (ok_or (l2 !! i) e).
Proof.
  intros E a1 a2 H1%ok_or_ok H2%ok_or_ok. assert (G : (map f l1) !! i = (map f l2) !! i) by (by rewrite E).
  rewrite !lookup_map, H1, H2 in G. by injection G.
Qed.

Ltac shapes := repeat match goal with
  | H : shape_datum ?a = shape_datum ?b |- _ => destruct a, b; unfold shape_datum in H; cbn [sd_state sd_value sd_ty] in H; injection H as -> -> ->
  end.

Lemma agree_equal l1 l2 r1 r2 : shape_datum l1 = shape_datum l2 -> shape_datum r1 = shape_datum r2 ->
  value_equal_sql l1 r1 = value_equal_sql l2 r2.
Proof. intros. by shapes. Qed.

Lemma agree_order op l1 l2 r1 r2 : shape_datum l1 = shape_datum l2 -> shape_datum r1 = shape_datum r2 ->
  value_order_sql op l1 r1 = value_order_sql op l2 r2.
Proof. intros. by shapes. Qed.

Lemma agree_comparison l1 l2 r1 r2 v : shape_datum l1 = shape_datum l2 -> shape_datum r1 = shape_datum r2 ->
  comparison_truth l1 r1 v = comparison_truth l2 r2 v.
Proof. intros. by shapes. Qed.

Lemma agree_unary op i1 i2 ty : shape_datum i1 = shape_datum i2 -> agree shape_datum (compile_unary op i1 ty) (compile_unary op i2 ty).
Proof.
  intros E. destruct op; cbn [compile_unary]; shapes; try apply agree_err; try by apply agree_ok. apply agree_then. by apply agree_ok.
Qed.

Lemma agree_binary op l1 l2 r1 r2 ty : shape_datum l1 = shape_datum l2 -> shape_datum r1 = shape_datum r2 ->
  agree shape_datum (compile_binary op l1 r1 ty) (compile_binary op l2 r2 ty).
Proof.
  intros El Er. destruct op; cbn [compile_binary]; try apply agree_err;
    try (rewrite (agree_equal l1 l2 r1 r2) by done); try (rewrite (agree_order _ l1 l2 r1 r2) by done);
    try (apply (agree_bind id); [apply agree_same|]; intros v1 v2 [= ->]; apply agree_ok; by shapes);
    shapes; try (do 2 apply agree_then); by apply agree_ok.
Qed.

Lemma agree_mapR {A B C D} (f : A -> C) (g : B -> D) (k1 k2 : A -> Result B) l1 l2 : map f l1 = map f l2 ->
  (forall a1 a2, f a1 = f a2 -> agree g (k1 a1) (k2 a2)) -> agree (map g) (mapR k1 l1) (mapR k2 l2).
Proof.
  intros E Hk. revert l2 E. induction l1 as [|a1 l1 IH]; intros [|a2 l2]; cbn [map]; try done; [intros _; by apply agree_ok|].
  intros [= Ea E] b1 b2 H1%mapR_ok H2%mapR_ok. apply Forall2_cons_inv_l in H1 as (x1 & t1 & H1 & T1 & ->). apply Forall2_cons_inv_l in H2 as (x2 & t2 & H2 & T2 & ->).
  cbn [map]. f_equal; [by eapply Hk|]. eapply IH; [done|by apply mapR_ok|by apply mapR_ok].
Qed.

Lemma agree_membership i1 i2 c1 c2 n : shape_datum i1 = shape_datum i2 -> map shape_datum c1 = map shape_datum c2 ->
  agree shape_datum (compile_membership i1 c1 n) (compile_membership i2 c2 n).
Proof.
  intros Ei Ec. unfold compile_membership. apply (agree_bind (map shape_datum)).
  - apply (agree_mapR shape_datum); [done|]. intros a1 a2 Ea. rewrite (agree_equal i1 i2 a1 a2) by done. apply (agree_bind id); [apply agree_same|].
    intros v1 v2 [= ->]. apply agree_ok. by rewrite (agree_comparison i1 i2 a1 a2).
  - intros l1 l2 El. apply agree_ok.
    assert (Ev : forall t, map (fun v => is_tag (sd_value v) t) l1 = map (fun v => is_tag (sd_value v) t) l2).
    { intros t. revert l2 El. induction l1 as [|x l1 IH]; intros [|y l2]; cbn [map]; try done. intros [= E1 E2 E3 El]. rewrite E2. f_equal. by apply IH. }
    rewrite !Ev. destruct l1, l2; done.
Qed.

Lemma agree_conditional c1 c2 t1 t2 f1 f2 ty : shape_datum c1 = shape_datum c2 -> shape_datum t1 = shape_datum t2 -> shape_datum f1 = shape_datum f2 ->
  agree shape_datum (compile_conditional c1 t1 f1 ty) (compile_conditional c2 t2 f2 ty).
Proof. intros. unfold compile_conditional. shapes. apply agree_then. by apply agree_ok. Qed.

(** *** Expressions *)
Definition same_kind (k1 k2 : PreparedKind) : Prop :=
  match k1, k2 with PLiteral _, PLiteral _ => True | _, _ => k1 = k2 end.
Definition same_node (n1 n2 : PreparedNode) : Prop := pn_ty n1 = pn_ty n2 /\ same_kind (pn_kind n1) (pn_kind n2).

(** Expressions that differ only in their literals. *)
Definition same_expr (e1 e2 : LogicalExpr) : Prop :=
  Forall2 same_node (pe_nodes e1) (pe_nodes e2) /\ pe_root e1 = pe_root e2 /\ pe_ty e1 = pe_ty e2 /\ pe_scopes e1 = pe_scopes e2 /\
  pe_outer_scope_count e1 = pe_outer_scope_count e2.

(** Parameters that differ only in their values. *)
Definition same_parameters (p1 p2 : Parameters) : Prop :=
  forall name, bp_ty <$> parameters_get p1 name = bp_ty <$> parameters_get p2 name.

Definition shape_step {A B} (f : A -> B) (r : A * CompileContext) := (f (fst r), shape_context (snd r)).

Lemma agree_bound ty d1 d2 c1 c2 : shape_context c1 = shape_context c2 ->
  agree (shape_step shape_datum) (compile_bound_datum ty d1 c1) (compile_bound_datum ty d2 c2).
Proof.
  intros [= Eb En]. unfold compile_bound_datum. apply agree_then.
  assert (El : length (cc_binds c1) = length (cc_binds c2)) by (apply (f_equal length) in Eb; by rewrite !length_map in Eb).
  unfold zlen. rewrite !length_app, El. apply (agree_bind id); [apply agree_same|]. intros v1 v2 [= ->]. apply agree_ok.
  unfold shape_step, shape_context, shape_datum. cbn [fst snd sd_state sd_value sd_ty cc_binds cc_next_relation]. by rewrite !map_app, Eb, En.
Qed.

Section SameNodes.
Context (p1 p2 : Parameters) (e1 e2 : LogicalExpr) (r1 r2 : Relation) (qualifier : string).
Hypothesis parameters_same : same_parameters p1 p2.
Hypothesis expr_same : same_expr e1 e2.
Hypothesis relation_same : shape_relation r1 = shape_relation r2.

Lemma agree_field scope slot n ty :
  agree shape_datum (compile_field_sql e1 r1 qualifier scope slot n ty) (compile_field_sql e2 r2 qualifier scope slot n ty).
Proof using All.
  unfold compile_field_sql. destruct expr_same as (_ & _ & _ & -> & _). apply agree_then. apply (agree_bind id); [apply agree_same|].
  intros k1 k2 [= ->]. injection relation_same as _ El _ _. apply (agree_bind shape_layout); [by apply agree_lookup|].
  intros l1 l2 [= E1 E2]. apply agree_then. apply (agree_bind shape_column); [by apply agree_lookup|]. intros f1 f2 [= -> -> _].
  apply (agree_bind id); [apply agree_same|]. intros s1 s2 [= ->]. apply (agree_bind id); [apply agree_same|]. intros v1 v2 [= ->]. by apply agree_ok.
Qed.

Lemma agree_get vs1 vs2 i : map shape_datum vs1 = map shape_datum vs2 -> agree shape_datum (get_expr vs1 i) (get_expr vs2 i).
Proof. apply agree_lookup. Qed.

Lemma agree_pure (m1 m2 : Result SqlDatum) c1 c2 : agree shape_datum m1 m2 -> shape_context c1 = shape_context c2 ->
  agree (shape_step shape_datum) (let? d := m1 in Ok (d, c1)) (let? d := m2 in Ok (d, c2)).
Proof. intros Hm Hc. apply (agree_bind shape_datum); [done|]. intros d1 d2 E. apply agree_ok. unfold shape_step. cbn. by rewrite E, Hc. Qed.

Lemma agree_node vs1 vs2 n1 n2 c1 c2 : map shape_datum vs1 = map shape_datum vs2 -> same_node n1 n2 -> shape_context c1 = shape_context c2 ->
  agree (shape_step shape_datum) (compile_node_sql p1 e1 r1 qualifier vs1 n1 c1) (compile_node_sql p2 e2 r2 qualifier vs2 n2 c2).
Proof using All.
  intros Ev [Et Ek] Ec. destruct n1 as [k1 ty], n2 as [k2 ty']. cbn [pn_ty pn_kind] in *. subst ty'. unfold compile_node_sql. cbn [pn_ty pn_kind].
  destruct k1; destruct k2; cbn [same_kind] in Ek; try discriminate Ek; try (injection Ek as; subst).
  - apply agree_pure; [apply agree_field|done].
  - by apply agree_bound.
  - apply (agree_bind bp_ty).
    + intros a1 a2 H1%ok_or_ok H2%ok_or_ok. specialize (parameters_same name0). rewrite H1, H2 in parameters_same. by injection parameters_same.
    + intros b1 b2 _. apply agree_then. by apply agree_bound.
  - apply agree_pure; [|done]. apply (agree_bind shape_datum); [by apply agree_get|]. intros. by apply agree_unary.
  - apply agree_pure; [|done]. apply (agree_bind shape_datum); [by apply agree_get|]. intros. apply (agree_bind shape_datum); [by apply agree_get|].
    intros. by apply agree_binary.
  - apply agree_pure; [|done]. apply (agree_bind shape_datum); [by apply agree_get|]. intros. apply (agree_bind (map shape_datum)).
    + apply (agree_mapR id); [done|]. intros i1 i2 [= ->]. by apply agree_get.
    + intros. by apply agree_membership.
  - apply agree_pure; [|done]. apply (agree_bind shape_datum); [by apply agree_get|]. intros. apply (agree_bind shape_datum); [by apply agree_get|].
    intros. apply (agree_bind shape_datum); [by apply agree_get|]. intros. by apply agree_conditional.
  - apply agree_err.
  - apply agree_err.
Qed.

Definition shape_values (s : list SqlDatum * CompileContext) := (map shape_datum (fst s), shape_context (snd s)).

Lemma agree_nodes ns1 ns2 s1 s2 : Forall2 same_node ns1 ns2 -> shape_values s1 = shape_values s2 ->
  agree shape_values (compile_nodes_sql p1 e1 r1 qualifier ns1 s1) (compile_nodes_sql p2 e2 r2 qualifier ns2 s2).
Proof using All.
  intros H. revert s1 s2. induction H as [|n1 n2 ns1 ns2 Hn _ IH]; intros [vs1 c1] [vs2 c2] E; [by apply agree_ok|].
  assert (Ev : map shape_datum vs1 = map shape_datum vs2) by exact (f_equal fst E).
  assert (Ec : shape_context c1 = shape_context c2) by exact (f_equal snd E).
  unfold compile_nodes_sql. cbn [foldR]. eapply (agree_bind shape_values); [|intros; by apply IH].
  eapply (agree_bind (shape_step shape_datum)); [by apply agree_node|]. intros [d1 c1'] [d2 c2'] Es. apply agree_ok.
  unfold shape_values. cbn [fst snd]. rewrite !map_app, Ev. cbn [map].
  assert (Ed : shape_datum d1 = shape_datum d2) by exact (f_equal fst Es). assert (Ex : shape_context c1' = shape_context c2') by exact (f_equal snd Es).
  by rewrite Ed, Ex.
Qed.

Lemma agree_expr c1 c2 : shape_context c1 = shape_context c2 ->
  agree (shape_step shape_datum) (compile_expr p1 e1 r1 qualifier c1) (compile_expr p2 e2 r2 qualifier c2).
Proof using All.
  intros Ec. unfold compile_expr. apply agree_then. apply (agree_bind shape_values).
  - apply agree_nodes; [apply expr_same|]. unfold shape_values. cbn [fst snd]. by rewrite Ec.
  - intros s1 s2 E. destruct expr_same as (_ & -> & _). apply (agree_bind shape_datum); [apply agree_get; exact (f_equal fst E)|].
    intros d1 d2 Ed. apply agree_ok. unfold shape_step. cbn [fst snd]. rewrite Ed. f_equal. exact (f_equal snd E).
Qed.
End SameNodes.

(** *** Plans *)
Definition same_projection (p1 p2 : LogicalProjection) : Prop :=
  lp_kind p1 = lp_kind p2 /\ Forall2 same_expr (lp_expressions p1) (lp_expressions p2) /\ lp_ty p1 = lp_ty p2.

Definition same_logical (n1 n2 : LogicalNode) : Prop :=
  match n1, n2 with
  | NFilter i1 c1, NFilter i2 c2 => i1 = i2 /\ same_expr c1 c2
  | NProject i1 p1, NProject i2 p2 => i1 = i2 /\ same_projection p1 p2
  | _, _ => n1 = n2
  end.

Definition same_plan (p1 p2 : LogicalPlan) : Prop :=
  Forall2 same_logical (plan_nodes p1) (plan_nodes p2) /\ plan_root p1 = plan_root p2.

Section SamePlans.
Context (catalog : PostgresCatalog) (p1 p2 : Parameters).
Hypothesis parameters_same : same_parameters p1 p2.

Notation shaped := (shape_step shape_relation).

Lemma shape_alias prefix c1 c2 : shape_context c1 = shape_context c2 ->
  fst (next_alias prefix c1) = fst (next_alias prefix c2) /\ shape_context (snd (next_alias prefix c1)) = shape_context (snd (next_alias prefix c2)).
Proof.
  intros E. assert (En : cc_next_relation c1 = cc_next_relation c2) by exact (f_equal snd E).
  assert (Eb : map shape_bind (cc_binds c1) = map shape_bind (cc_binds c2)) by exact (f_equal fst E).
  unfold next_alias, shape_context. cbn [fst snd cc_binds cc_next_relation]. by rewrite En, Eb.
Qed.

(** Taking an alias and quoting it. *)
Lemma agree_alias {B D} (g : B -> D) prefix c1 c2 (k1 k2 : string -> CompileContext -> Result B) : shape_context c1 = shape_context c2 ->
  (forall q c1 c2, shape_context c1 = shape_context c2 -> agree g (k1 q c1) (k2 q c2)) ->
  agree g (let '(alias, c) := next_alias prefix c1 in let? q := quote_identifier alias in k1 q c)
          (let '(alias, c) := next_alias prefix c2 in let? q := quote_identifier alias in k2 q c).
Proof.
  intros E Hk. destruct (shape_alias prefix c1 c2 E) as [Ea Ec]. destruct (next_alias prefix c1) as [a1 c1'], (next_alias prefix c2) as [a2 c2'].
  cbn [fst snd] in *. subst a2. apply (agree_bind id); [apply agree_same|]. intros q1 q2 [= ->]. by apply Hk.
Qed.

Lemma agree_source m c1 c2 : shape_context c1 = shape_context c2 -> agree shaped (compile_source catalog m c1) (compile_source catalog m c2).
Proof.
  intros E. unfold compile_source. apply (agree_bind id); [apply agree_same|]. intros t1 t2 [= ->].
  destruct (shape_alias "t" c1 c2 E) as [Ea Ec]. destruct (next_alias "t" c1) as [a1 c1'], (next_alias "t" c2) as [a2 c2']. cbn [fst snd] in *. subst a2.
  do 4 (apply (agree_bind id); [apply agree_same|]; intros ? ? [= ->]). apply agree_ok. unfold shape_step. cbn [fst snd]. by rewrite Ec.
Qed.

Lemma agree_filter r1 r2 e1 e2 c1 c2 : shape_relation r1 = shape_relation r2 -> same_expr e1 e2 -> shape_context c1 = shape_context c2 ->
  agree shaped (compile_filter p1 r1 e1 c1) (compile_filter p2 r2 e2 c2).
Proof using All.
  intros Er Ee Ec. unfold compile_filter. apply agree_alias; [done|]. clear c1 c2 Ec. intros q c1 c2 Ec.
  apply (agree_bind (shape_step shape_datum)); [by apply agree_expr|]. intros [d1 c1'] [d2 c2'] Es. do 2 apply agree_then. apply agree_ok.
  assert (Ed : shape_datum d1 = shape_datum d2) by exact (f_equal fst Es). assert (Ex : shape_context c1' = shape_context c2') by exact (f_equal snd Es).
  unfold shape_step. cbn [fst snd]. rewrite Ex. f_equal. injection Er as E1 E2 E3 E4. unfold shape_relation. cbn [rel_sql rel_scopes rel_output_columns rel_output].
  rewrite E1, E2, E3, E4. by shapes.
Qed.

Definition shape_projected (s : (list (Sql * string) * list ColumnRef) * CompileContext) :=
  (fst (fst s), map shape_column (snd (fst s)), shape_context (snd s)).

Lemma agree_projection r1 r2 q s1 s2 i e1 e2 : shape_relation r1 = shape_relation r2 -> same_expr e1 e2 -> shape_projected s1 = shape_projected s2 ->
  agree shape_projected (compile_projection p1 r1 q s1 (i, e1)) (compile_projection p2 r2 q s2 (i, e2)).
Proof using All.
  destruct s1 as [[l1 o1] c1], s2 as [[l2 o2] c2]. intros Er Ee E. unfold shape_projected in E. cbn [fst snd] in E. injection E as -> Eo Eb En.
  unfold compile_projection. apply (agree_bind (shape_step shape_datum)); [apply agree_expr; try done; unfold shape_context; congruence|].
  intros [d1 c1'] [d2 c2'] Es. do 2 (apply (agree_bind id); [apply agree_same|]; intros ? ? [= ->]). apply agree_ok.
  assert (Ed : shape_datum d1 = shape_datum d2) by exact (f_equal fst Es). assert (Ex : shape_context c1' = shape_context c2') by exact (f_equal snd Es).
  unfold shape_projected. cbn [fst snd]. rewrite !map_app, Eo, Ex. destruct Ee as (_ & _ & Et & _). unfold shape_column at 2 4. cbn [map cr_state_alias cr_value_alias cr_ty].
  rewrite Et. by shapes.
Qed.

Lemma agree_foldR {A B S T} (f : S -> T) (g1 : S -> A -> Result S) (g2 : S -> B -> Result S) (R : A -> B -> Prop) l1 l2 : Forall2 R l1 l2 ->
  (forall s1 s2 a b, f s1 = f s2 -> R a b -> agree f (g1 s1 a) (g2 s2 b)) ->
  forall s1 s2, f s1 = f s2 -> agree f (foldR g1 l1 s1) (foldR g2 l2 s2).
Proof.
  intros H Hg. induction H as [|a b l1 l2 Hab _ IH]; intros s1 s2 E; cbn [foldR]; [by apply agree_ok|].
  apply (agree_bind f); [by apply Hg|]. intros. by apply IH.
Qed.

Lemma enumerate_related {A B} (R : A -> B -> Prop) l1 l2 : Forall2 R l1 l2 ->
  Forall2 (fun x y => fst x = fst y /\ R (snd x) (snd y)) (enumerate l1) (enumerate l2).
Proof.
  intros H. apply Forall2_same_length_lookup. unfold enumerate. split; [rewrite !length_imap; by eapply Forall2_length|].
  intros i [j x] [k y]. rewrite !list_lookup_imap. intros (x' & Hx & [= -> ->])%fmap_Some (y' & Hy & [= -> ->])%fmap_Some.
  split; [done|]. cbn [snd]. by eapply Forall2_lookup_lr.
Qed.

Lemma agree_project r1 r2 j1 j2 c1 c2 : shape_relation r1 = shape_relation r2 -> same_projection j1 j2 -> shape_context c1 = shape_context c2 ->
  agree shaped (compile_project p1 r1 j1 c1) (compile_project p2 r2 j2 c2).
Proof using All.
  intros Er (Ek & Ee & Et) Ec. unfold compile_project. apply agree_alias; [done|]. clear c1 c2 Ec. intros q c1 c2 Ec.
  apply (agree_bind shape_projected).
  - eapply agree_foldR; [by apply enumerate_related| |].
    + intros s1 s2 [i e1] [i' e2] Es [Ei He]. cbn [fst snd] in *. subst i'. by apply agree_projection.
    + unfold shape_projected. cbn [fst snd]. by rewrite Ec.
  - intros [[l1 o1] c1'] [[l2 o2] c2'] E. unfold shape_projected in E. cbn [fst snd] in E. injection E as -> Eo Eb En. apply agree_then. apply agree_ok.
    unfold shape_step, shape_relation, shape_context. cbn [fst snd rel_sql rel_scopes rel_output_columns rel_output map].
    assert (Eq : rel_sql r1 = rel_sql r2) by (by injection Er). by rewrite Eq, Eo, Eb, En, Et.
Qed.

Lemma agree_slice r1 r2 o l c1 c2 : shape_relation r1 = shape_relation r2 -> shape_context c1 = shape_context c2 ->
  agree shaped (compile_slice r1 o l c1) (compile_slice r2 o l c2).
Proof.
  intros Er Ec. unfold compile_slice. do 2 (apply (agree_bind id); [apply agree_same|]; intros ? ? [= ->]). apply agree_alias; [done|].
  intros q c1' c2' Ex. apply agree_ok. unfold shape_step, shape_relation. cbn [fst snd rel_sql rel_scopes rel_output_columns rel_output].
  injection Er as -> -> -> ->. by rewrite Ex.
Qed.

Lemma agree_logical rs1 rs2 n1 n2 c1 c2 : map shape_relation rs1 = map shape_relation rs2 -> same_logical n1 n2 -> shape_context c1 = shape_context c2 ->
  agree shaped (compile_logical_node catalog p1 rs1 n1 c1) (compile_logical_node catalog p2 rs2 n2 c2).
Proof using All.
  intros Er En Ec. destruct n1, n2; cbn [same_logical] in En; try discriminate En; cbn [compile_logical_node]; try apply agree_err.
  - injection En as -> _. by apply agree_source.
  - destruct En as [-> En]. apply (agree_bind shape_relation); [by apply agree_lookup|]. intros. by apply agree_filter.
  - destruct En as [-> En]. apply (agree_bind shape_relation); [by apply agree_lookup|]. intros. by apply agree_project.
  - injection En as -> -> ->. apply (agree_bind shape_relation); [by apply agree_lookup|]. intros. by apply agree_slice.
Qed.

Definition shape_relations (s : list Relation * CompileContext) := (map shape_relation (fst s), shape_context (snd s)).

Lemma agree_relations ns1 ns2 s1 s2 : Forall2 same_logical ns1 ns2 -> shape_relations s1 = shape_relations s2 ->
  agree shape_relations (compile_relations catalog p1 ns1 s1) (compile_relations catalog p2 ns2 s2).
Proof using All.
  intros H. eapply agree_foldR; [exact H|]. intros [rs1 c1] [rs2 c2] n1 n2 E Hn.
  assert (Er : map shape_relation rs1 = map shape_relation rs2) by exact (f_equal fst E). assert (Ec : shape_context c1 = shape_context c2) by exact (f_equal snd E).
  apply (agree_bind shaped); [by apply agree_logical|]. intros [r1 c1'] [r2 c2'] Es. apply agree_ok.
  assert (Ed : shape_relation r1 = shape_relation r2) by exact (f_equal fst Es). assert (Ex : shape_context c1' = shape_context c2') by exact (f_equal snd Es).
  unfold shape_relations. cbn [fst snd]. rewrite !map_app, Er, Ex. cbn [map]. by rewrite Ed.
Qed.

Lemma agree_transport r1 r2 : shape_relation r1 = shape_relation r2 -> transport_output_sql r1 = transport_output_sql r2.
Proof.
  intros [= Eq _ Ec _]. unfold transport_output_sql. destruct (quote_identifier "__dol_out") as [q|]; [|done]. cbn [rbind]. rewrite Eq.
  assert (Em : mapR (transport_column q) (rel_output_columns r1) = mapR (transport_column q) (rel_output_columns r2)); [|by rewrite Em].
  revert Ec. generalize (rel_output_columns r1), (rel_output_columns r2). intros l1. induction l1 as [|a l1 IH]; intros [|b l2]; cbn [map]; try done.
  intros [= E1 E2 E3 El]. unfold mapR. cbn. specialize (IH l2 El). unfold mapR in IH.
  unfold transport_column at 1 3. by rewrite E1, E2, E3, IH.
Qed.
End SamePlans.

(** C31: values stay out of the statement.  Compiling two plans that differ
    only in their literals, under parameters that differ only in their values,
    gives the same text, the same columns and output, and binds of the same
    kinds and types in the same order. *)
Theorem statement_independent_of_values catalog plan1 plan2 p1 p2 q1 q2 : same_plan plan1 plan2 -> same_parameters p1 p2 ->
  postgres_compile catalog plan1 p1 = Ok q1 -> postgres_compile catalog plan2 p2 = Ok q2 ->
  cq_sql q1 = cq_sql q2 /\ map shape_bind (cq_binds q1) = map shape_bind (cq_binds q2) /\
  cq_columns q1 = cq_columns q2 /\ cq_output q1 = cq_output q2.
Proof.
  intros [Hn Hr] Hp H1 H2. unfold postgres_compile in H1, H2. rewrite Hr in H1.
  apply rbind_ok in H1 as ([rs1 c1] & R1 & H1). apply rbind_ok in H2 as ([rs2 c2] & R2 & H2).
  pose proof (agree_relations catalog p1 p2 Hp _ _ _ _ Hn eq_refl _ _ R1 R2) as E. unfold shape_relations in E. cbn [fst snd] in E.
  assert (Er : map shape_relation rs1 = map shape_relation rs2) by exact (f_equal fst E). assert (Ec : shape_context c1 = shape_context c2) by exact (f_equal snd E).
  apply rbind_ok in H1 as (r1 & L1 & H1). apply rbind_ok in H2 as (r2 & L2 & H2). pose proof (agree_lookup shape_relation _ _ _ _ Er _ _ L1 L2) as Es.
  apply check_then in H1 as [_ H1]. apply check_then in H2 as [_ H2]. rewrite (agree_transport r1 r2 Es) in H1.
  apply rbind_ok in H1 as (sql & T & [= <-]). rewrite T in H2. cbn [rbind] in H2. injection H2 as <-. cbn [cq_sql cq_binds cq_columns cq_output].
  injection Es as _ _ Eo Ex. split_and!; [done|exact (f_equal fst Ec)| |done].
  revert Eo. generalize (rel_output_columns r1), (rel_output_columns r2). intros l1. induction l1 as [|a l1 IH]; intros [|b l2]; cbn [map]; try done.
  intros [= E1 E2 E3 El]. unfold output_column at 1 3. rewrite E1, E2, E3. f_equal. by apply IH.
Qed.
End Values.

(** ** Every bind can be sent *)
Section Binds.
Context {F : Foreign} {Q : Subqueries} {D : PgDriver F}.

(** What compilation knows of a bind. *)
Definition bind_checked (b : SqlBind) : Prop :=
  match b with
  | BindState _ => True
  | BindDatum ty d => validate_datum ty Optional d = Ok tt /\ exists n p, postgres_bind_placeholder ty n = Ok p
  end.
Definition binds_checked (c : CompileContext) : Prop := Forall bind_checked (cc_binds c).

Lemma bound_checked ty d c sd c' : compile_bound_datum ty d c = Ok (sd, c') -> binds_checked c -> binds_checked c'.
Proof.
  intros [Hv%map_err_ok (p & Hp & [= _ <-])%rbind_ok]%check_then H. unfold binds_checked. cbn [cc_binds].
  rewrite !Forall_app. split_and!; [done|by constructor|]. constructor; [|done]. split; [done|]. by eexists _, p.
Qed.

Lemma node_checked ps e relation q values node c sd c' : compile_node_sql ps e relation q values node c = Ok (sd, c') -> binds_checked c -> binds_checked c'.
Proof.
  unfold compile_node_sql. destruct (pn_kind node); try done; try (by intros ->%pure_step); [by apply bound_checked|].
  intros (p & _ & [_ H]%check_then)%rbind_ok. by eapply bound_checked.
Qed.

Lemma expr_checked ps e relation q c sd c' : compile_expr ps e relation q c = Ok (sd, c') -> binds_checked c -> binds_checked c'.
Proof.
  intros [_ (s & Hn & (d & _ & [= _ <-])%rbind_ok)%rbind_ok]%check_then H.
  refine (foldR_keeps (fun t => binds_checked (snd t)) _ _ ([], c) _ _ _ Hn); [|exact H].
  intros n [vs k] t _ Hk ([sd' k'] & Hs & [= <-])%rbind_ok. cbn [snd] in *. by eapply node_checked.
Qed.

Lemma logical_checked catalog ps relations n c relation c' : compile_logical_node catalog ps relations n c = Ok (relation, c') ->
  binds_checked c -> binds_checked c'.
Proof.
  destruct n; cbn [compile_logical_node]; try done.
  - unfold compile_source, next_alias. by intros (? & _ & (? & _ & (? & _ & (? & _ & (? & _ & [= _ <-])%rbind_ok)%rbind_ok)%rbind_ok)%rbind_ok)%rbind_ok.
  - intros (rel & _ & H)%rbind_ok. unfold compile_filter, next_alias in H.
    apply rbind_ok in H as (q & _ & ([sd c2] & Hc & [_ [_ [= _ <-]]%check_then]%check_then)%rbind_ok). intros H. by eapply expr_checked.
  - intros (rel & _ & H)%rbind_ok. unfold compile_project, next_alias in H.
    apply rbind_ok in H as (q & _ & ([[sel cols] c2] & Hf & [_ [= _ <-]]%check_then)%rbind_ok). intros H.
    refine (foldR_keeps (fun t => binds_checked (snd t)) _ _ _ _ _ _ Hf); [|exact H].
    intros [i e] [[s1 k1] x] t _ Hx He. unfold compile_projection in He. apply rbind_ok in He as ([sd x'] & He & (? & _ & (? & _ & [= <-])%rbind_ok)%rbind_ok).
    cbn [snd] in *. by eapply expr_checked.
  - intros (rel & _ & H)%rbind_ok. unfold compile_slice, next_alias in H. by apply rbind_ok in H as (? & _ & (? & _ & (? & _ & [= _ <-])%rbind_ok)%rbind_ok).
Qed.

Lemma compiled_checked catalog plan ps q : postgres_compile catalog plan ps = Ok q -> Forall bind_checked (cq_binds q).
Proof.
  unfold postgres_compile. intros ([rs c] & Hr & (r & _ & [_ (sql & _ & [= <-])%rbind_ok]%check_then)%rbind_ok)%rbind_ok. cbn [cq_binds].
  refine (foldR_keeps (fun t => binds_checked (snd t)) _ _ _ _ _ _ Hr); [|by constructor].
  intros n [rs' k] t _ Hk ([rel k'] & Hn & [= <-])%rbind_ok. cbn [snd] in *. by eapply logical_checked.
Qed.

(** The type a placeholder is cast to first, and the names of the types. *)
Definition placeholder_cast (p : Sql) : option string :=
  match p with
  | SqlCast (SqlPlaceholder _) t | SqlCast (SqlParen (SqlCast (SqlPlaceholder _) t)) _ => Some t
  | _ => None
  end.

Definition pg_type_name (t : PgType) : string :=
  match t with
  | TyBool => "boolean" | TyInt2 => "smallint" | TyInt4 => "integer" | TyInt8 => "bigint" | TyText => "text" | TyFloat4 => "real"
  | TyFloat8 => "double precision" | TyBytea => "bytea" | TyUuid => "uuid" | TyDate => "date"
  end%stdpp.

(** The placeholder of a bind names the type of its encoding. *)
Definition placeholder_agrees (b : SqlBind) (e : EncodedBind) : Prop :=
  match b with
  | BindState _ => eb_ty e = TyInt2
  | BindDatum ty _ => forall n p, postgres_bind_placeholder ty n = Ok p -> placeholder_cast p = Some (pg_type_name (eb_ty e))
  end.

(** The type of a driver's value. *)
Definition value_type (v : ToSql) : PgType :=
  match v with
  | SqlBoolValue _ => TyBool | SqlI16 _ => TyInt2 | SqlI32 _ => TyInt4 | SqlI64 _ => TyInt8 | SqlF32 _ => TyFloat4 | SqlF64 _ => TyFloat8
  | SqlString _ => TyText | SqlBytes _ => TyBytea | SqlUuid _ => TyUuid | SqlDate _ => TyDate
  end.

Lemma fits_narrow bits w n : bits <= w -> w ∈ [16; 32; 64] -> signed_fits bits n = true -> narrow w n = Ok n.
Proof.
  intros Hle Hw H. unfold narrow. rewrite (proj2 (check_ok _ _)); [done|]. rewrite !elem_of_cons, elem_of_nil in Hw. revert H. unfold signed_fits.
  destruct Hw as [->|[->|[->|[]]]]; cbn [Z.eqb Pos.eqb]; destruct (Z.eqb_spec bits 8) as [->|]; try (intros; lia);
    destruct (Z.eqb_spec bits 16) as [->|]; try (intros; lia); destruct (Z.eqb_spec bits 32) as [->|]; try (intros; lia);
    destruct (Z.eqb_spec bits 64) as [->|]; intros; try lia.
Qed.

Ltac sent Agree Hr :=
  solve [eexists; split; [reflexivity|split; [cbn; by repeat case_match|
    apply Agree; unfold driver_bind_type; rewrite Hr; cbn [rbind eb_ty]; repeat case_match; first [done|lia]]]].

Lemma encode_checked b : bind_checked b -> exists e, encode_bind b = Ok e /\ value_type (eb_value e) = eb_ty e /\ placeholder_agrees b e.
Proof.
  destruct b as [n|ty d]; [intros _; eexists; done|]. intros [Hd (n & p & Hp)]. unfold postgres_bind_placeholder in Hp.
  apply rbind_ok in Hp as (r & Hr & Hp). cbn [encode_bind placeholder_agrees].
  assert (Agree : forall e, driver_bind_type ty = Ok (eb_ty e) ->
    forall n p, postgres_bind_placeholder ty n = Ok p -> placeholder_cast p = Some (pg_type_name (eb_ty e))).
  { intros e He m s Hp'. unfold driver_bind_type in He. unfold postgres_bind_placeholder, postgres_type in Hp'. rewrite Hr in *. cbn [rbind] in *.
    clear Hp. destruct r; try discriminate He; injection He as <-; try (by injection Hp' as <-).
    destruct (Z.ltb_spec 64 bits), (Z.leb_spec bits 16), (Z.leb_spec bits 32), (Z.leb_spec bits 64); try lia; by injection Hp' as <-. }
  unfold postgres_type in Hp. rewrite Hr in Hp. cbn [rbind] in Hp.
  unfold encode_datum, driver_bind_type, encode_null, encode_value. rewrite Hr. cbn [rbind]. apply scalar_repr_ok in Hr as Hs.
  assert (Hm : forall v, d = DValue v -> scalar_matches r v = true) by (intros v ->; exact (checked_typed ty (DValue v) v (validated_as ty _ Hd) eq_refl r Hs)).
  assert (Small : forall bits v, d = DValue (VInt v) -> r = RInt bits -> forall w, w ∈ [16; 32; 64] -> bits <= w -> narrow w v = Ok v).
  { intros bits v Ed -> w Hw Hle. apply (fits_narrow bits); [done|done|]. by apply (Hm (VInt v)). }
  destruct r; try discriminate Hp; destruct d as [| |v]; try sent Agree Hr; specialize (Hm v eq_refl); destruct v; try discriminate Hm; try sent Agree Hr.
  specialize (Small bits i eq_refl eq_refl).
  destruct (Z.leb_spec bits 16); [rewrite (Small 16) by (done || (rewrite !elem_of_cons; tauto)); sent Agree Hr|].
  destruct (Z.leb_spec bits 32); [rewrite (Small 32) by (done || (rewrite !elem_of_cons; tauto)); sent Agree Hr|].
  destruct (Z.leb_spec bits 64); [rewrite (Small 64) by (done || (rewrite !elem_of_cons; tauto)); sent Agree Hr|]. sent Agree Hr.
Qed.

(** A compiled statement can always be sent: every bind of it encodes, to
    a driver value of the type the driver is told, which is the type that the
    bind's placeholder is cast from, so neither a narrowing of an integer nor
    an unsupported type can fail after compilation. *)
Theorem compiled_binds_encode catalog plan ps q : postgres_compile catalog plan ps = Ok q ->
  exists encoded, encode_binds (cq_binds q) = Ok encoded /\
    Forall2 (fun b e => value_type (eb_value e) = eb_ty e /\ placeholder_agrees b e) (cq_binds q) encoded.
Proof.
  intros H%compiled_checked. unfold encode_binds. induction H as [|b l Hb _ (encoded & He & H2)]; [exists []; split; [done|constructor]|].
  destruct (encode_checked b Hb) as (e & Ee & Hv & Ht). exists (e :: encoded). split; [|by constructor].
  apply mapR_ok. constructor; [done|by apply mapR_ok].
Qed.
End Binds.

(** ** Witnesses *)
Lemma compiled_binds_encode_witness :
  exists q encoded, postgres_compile PostgresSample.catalog PostgresSample.plan PostgresSample.wanted = Ok q /\ length (cq_binds q) = 2%nat /\
    encode_binds (D:=FragmentQueries.fragment_driver) (cq_binds q) = Ok encoded.
Proof.
  destruct (postgres_compile PostgresSample.catalog PostgresSample.plan PostgresSample.wanted) as [q|] eqn:E; [|pose proof PostgresSample.compiles as H; by rewrite E in H].
  destruct (compiled_binds_encode (D:=FragmentQueries.fragment_driver) _ _ _ q E) as (encoded & He & _). exists q, encoded. split_and!; [reflexivity| |exact He].
  assert (H : rmap (fun c => length (cq_binds c)) (postgres_compile PostgresSample.catalog PostgresSample.plan PostgresSample.wanted) = Ok 2%nat)
    by (vm_compute; reflexivity). rewrite E in H. by injection H.
Defined.

(** Two plans that compare the identity with different numbers. *)
Definition id_filter (n : Z) : LogicalPlan (F:=sample_foreign) :=
  mkLogicalPlan
    [NSource sample_model None;
     NFilter 0 (mkPreparedExpression
       [mkPreparedNode (PField 0 1 false) PostgresSample.int64; mkPreparedNode (PLiteral (DValue (VInt n))) PostgresSample.int64;
        mkPreparedNode (PBinary OpEq 0 1) truth_type] 2 truth_type [] [] ["user"%stdpp] 0)] 1 (OutModel sample_model) [].

Lemma statement_independent_of_values_witness :
  exists q1 q2, postgres_compile PostgresSample.catalog (id_filter 7) parameters_new = Ok q1 /\
    postgres_compile PostgresSample.catalog (id_filter 8) parameters_new = Ok q2 /\ cq_sql q1 = cq_sql q2.
Proof.
  assert (H1 : is_ok (postgres_compile PostgresSample.catalog (id_filter 7) parameters_new) = true) by (vm_compute; reflexivity).
  assert (H2 : is_ok (postgres_compile PostgresSample.catalog (id_filter 8) parameters_new) = true) by (vm_compute; reflexivity).
  destruct (postgres_compile PostgresSample.catalog (id_filter 7) parameters_new) as [q1|] eqn:E1; [|discriminate H1].
  destruct (postgres_compile PostgresSample.catalog (id_filter 8) parameters_new) as [q2|] eqn:E2; [|discriminate H2].
  exists q1, q2. split_and!; [reflexivity..|].
  refine (proj1 (statement_independent_of_values PostgresSample.catalog (id_filter 7) (id_filter 8) parameters_new parameters_new q1 q2 _ _ E1 E2)); [|done].
  split; [|done]. repeat constructor.
Defined.
