(* ===== verification/PgRuntime.v ===== *)
(** * The runtime of PostgreSQL ([engines/postgres/src/runtime.rs], [inspect.rs], [lib.rs])

    Connections that require TLS, the contract that a live database must meet
    before anything is read, the worker that owns the connection and pulls
    pages of a portal, and the client side of the stream, which talks to the
    worker over bounded channels.  The server, the driver and the clock are
    parameters; every call to one of them happens at its own time. *)
From Stdlib Require Import ZArith Lia.
From stdpp Require Import list.
From S2P Require Import Prelude Mutation Foreign Truth Text BTree Types Values Fingerprint Model Row Expr ExprPrepare Plan Placement Executor Stream MemoryEngine PushDown PgSql PgExpr PgCompile PgCodec.

Local Open Scope Z_scope.

Inductive SslMode := SslDisable | SslPrefer | SslRequire.
Inductive SslNegotiation := SslPostgres | SslDirect.
#[export] Instance SslMode_eq_dec : EqDecision SslMode.
Proof. solve_decision. Defined.

(** What a call of the driver returns; an error is a cancellation by the
    server or another one. *)
Inductive Driven (A : Type) := Done (a : A) | Failed (canceled : bool).
Arguments Done {A} a.
Arguments Failed {A} canceled.

Class PgServer {F : Foreign} (D : PgDriver F) := {
  (** [postgres::Config] and [native_tls] *)
  PgConfig : Type;
  config_from_str : string -> option PgConfig;
  config_ssl_mode : PgConfig -> SslMode;
  config_ssl_negotiation : PgConfig -> SslNegotiation;
  config_connect_timeout : PgConfig -> option Z;
  Certificate : Type;
  certificates_from_pem : list Z -> option (list Certificate);
  TlsConnector : Type;
  build_tls : list Certificate -> bool -> option TlsConnector;
  read_file : nat -> string -> option (list Z);
  (** connections, statements and portals; a portal has its position *)
  PgClient : Type;
  PgStatement : Type;
  PgPortal : Type;
  pg_connect : nat -> PgConfig -> Z -> TlsConnector -> option PgClient;
  pg_query : nat -> PgClient -> string -> list ToSql -> Driven (list PgRow);
  pg_query_one : nat -> PgClient -> string -> list ToSql -> Driven PgRow;
  pg_begin : nat -> PgClient -> Driven unit;
  pg_prepare : nat -> PgClient -> string -> list PgType -> Driven PgStatement;
  statement_params : PgStatement -> nat;
  pg_bind : nat -> PgClient -> PgStatement -> list ToSql -> Driven PgPortal;
  query_portal : nat -> PgPortal -> Z -> Driven (list PgRow * PgPortal);
  (** nanoseconds since the execution started *)
  elapsed : nat -> Z;
  spawn_worker : bool
}.

(** ** Options *)
(** [usize::MAX] stands for no limit on rows. *)
Definition materialized_row_target (options : ExecutionOptions) : nat :=
  match max_materialized_rows (eo_limits options) with
  | Some limit => Nat.min (eo_batch_rows options) (Z.to_nat limit)
  | None => eo_batch_rows options
  end.

Definition MAX_PORTAL_FETCH_ROWS : nat := 1024.

Definition portal_fetch_rows (rows : nat) (byte_bounded : bool) : Z :=
  if byte_bounded then 1 else Z.of_nat (Nat.max 1 (Nat.min rows MAX_PORTAL_FETCH_ROWS)).

Definition is_some {A} (o : option A) : bool := match o with Some _ => true | None => false end.

Definition enforce_single_row_byte_limit (limits : ExecutionLimits) (bytes : Z) : Result unit :=
  guard (negb (over_byte_limit limits bytes)) "POSTGRES-LIMIT-002".

Definition DEFAULT_CONNECT_TIMEOUT : Z := 10 * 10 ^ 9.

Definition effective_connect_timeout (configured execution : option Z) : Z :=
  match configured, execution with
  | Some configured, Some execution => Z.min configured execution
  | Some configured, None => configured
  | None, Some execution => Z.min execution DEFAULT_CONNECT_TIMEOUT
  | None, None => DEFAULT_CONNECT_TIMEOUT
  end.

Definition duration_millis (timeout : Z) : Result Z :=
  let millis := Z.max (timeout / 10 ^ 6) 1 in
  guard (millis <? 2 ^ 64) "POSTGRES-EXEC-003" ;;? Ok millis.

Definition runtime_capabilities : Capabilities :=
  let writes := Unsupported "PostgreSQL Stage H read runtime does not advertise writes yet" in
  mkCapabilities
    (mkPipelineCapabilities ExactNative ExactEmulated ExactEmulated
       (Unsupported "PostgreSQL aggregate lowering is deferred beyond the current Stage H read runtime")
       (Unsupported "PostgreSQL unnest lowering is deferred beyond the current Stage H read runtime")
       (Unsupported "PostgreSQL window lowering is deferred beyond the current Stage H read runtime")
       (Unsupported "PostgreSQL sort lowering is deferred beyond the current Stage H read runtime")
       (Unsupported "PostgreSQL distinct lowering is deferred beyond the current Stage H read runtime")
       ExactNative
       (Unsupported "PostgreSQL join lowering is deferred beyond the current Stage H read runtime")
       (Unsupported "PostgreSQL set lowering is deferred beyond the current Stage H read runtime")
       (Unsupported "PostgreSQL correlation lowering is deferred beyond the current Stage H read runtime"))
    (mkWriteCapabilities writes writes writes writes)
    (mkTransactionCapabilities writes writes writes).

Section Runtime.
Context {F : Foreign} {Q : Subqueries} {D : PgDriver F} {G : PgServer D}.

Definition execution_driver_error (canceled : bool) : Diagnostic :=
  mkDiagnostic (if canceled then "POSTGRES-LIMIT-003" else "POSTGRES-EXEC-005").
Definition schema_driver_error (canceled : bool) : Diagnostic := mkDiagnostic "POSTGRES-SCHEMA-011".
Definition worker_stopped : Diagnostic := mkDiagnostic "POSTGRES-EXEC-006".
Definition zero_row_limit : Diagnostic := mkDiagnostic "POSTGRES-LIMIT-001".

(** A call of the driver, at the present time. *)
Definition driven {A} (call : nat -> Driven A) (failure : bool -> Diagnostic) : Mut nat A := fun now =>
  (match call now with Done a => Ok a | Failed canceled => Err (failure canceled) end, (now + 1)%nat).

(** [row.try_get] of a type that has no null. *)
Definition try_get {T} (get : Cell -> option (option T)) (row : PgRow) (index : nat) (failure : bool -> Diagnostic) : Result T :=
  match (cell ← row !! index; value ← get cell; value) with Some value => Ok value | None => Err (failure false) end.

(** ** Configuration *)
Record PostgresRuntimeConfig := mkPostgresRuntimeConfig { prc_config : PgConfig; prc_trusted_ca : option (list Certificate) }.

Definition runtime_parse (value : string) : Result PostgresRuntimeConfig :=
  let? config := ok_or (config_from_str value) "POSTGRES-CONNECT-001" in
  guard (bool_decide (config_ssl_mode config = SslRequire)) "POSTGRES-CONNECT-002" ;;?
  Ok (mkPostgresRuntimeConfig config None).

Definition with_trusted_ca_pem (runtime : PostgresRuntimeConfig) (pem : list Z) : Result PostgresRuntimeConfig :=
  let? certificates := ok_or (certificates_from_pem pem) "POSTGRES-CONNECT-005" in
  guard (match certificates with [] => false | _ => true end) "POSTGRES-CONNECT-005" ;;?
  Ok (mkPostgresRuntimeConfig (prc_config runtime) (Some certificates)).

Definition with_trusted_ca_file (now : nat) (runtime : PostgresRuntimeConfig) (path : string) : Result PostgresRuntimeConfig :=
  let? pem := ok_or (read_file now path) "POSTGRES-CONNECT-006" in
  with_trusted_ca_pem runtime pem.

(** The last argument of [build_tls] is whether the protocol is announced by
    ALPN. *)
Definition tls_connector (negotiation : SslNegotiation) (trusted_ca : option (list Certificate)) : Result TlsConnector :=
  ok_or (build_tls (default [] trusted_ca) (match negotiation with SslDirect => true | SslPostgres => false end)) "POSTGRES-CONNECT-004".

Definition runtime_connect (runtime : PostgresRuntimeConfig) (execution_timeout : option Z) : Mut nat PgClient :=
  let config := prc_config runtime in
  let! tls := mlift (tls_connector (config_ssl_negotiation config) (prc_trusted_ca runtime)) in
  let connect_timeout := effective_connect_timeout (config_connect_timeout config) execution_timeout in
  driven (fun now => match pg_connect now config connect_timeout tls with Some client => Done client | None => Failed false end)
    (fun _ => mkDiagnostic "POSTGRES-CONNECT-003").

(** ** Timeouts *)
Definition statement_timeout_query : string := "SELECT setting::bigint FROM pg_catalog.pg_settings WHERE name = 'statement_timeout'".
Definition set_timeout_query : string := "SELECT pg_catalog.set_config('statement_timeout', $1, false)".

Definition configure_timeout (client : PgClient) (timeout : option Z) : Mut nat unit :=
  match timeout with
  | None => mret tt
  | Some timeout =>
      let! requested := mlift (duration_millis timeout) in
      let! row := driven (fun now => pg_query_one now client statement_timeout_query []) execution_driver_error in
      let! current := mlift (try_get get_i64 row 0 execution_driver_error) in
      mlift (guard (0 <=? current) "POSTGRES-EXEC-003") ;;!
      let effective := if current =? 0 then requested else Z.min requested current in
      let! _ := driven (fun now => pg_query_one now client set_timeout_query [SqlString (Some (cat [int_text effective; "ms"]%stdpp))]) execution_driver_error in
      mret tt
  end.

Definition check_timeout (timeout : option Z) (now : nat) : Result unit :=
  guard (match timeout with Some timeout => elapsed now <=? timeout | None => true end) "POSTGRES-LIMIT-003".

(** ** The live contract ([inspect.rs]) *)
Record PhysicalColumn := mkPhysicalColumn { ph_type_name : string; ph_not_null : bool; ph_base_type : bool }.

Definition show_setting (client : PgClient) (setting : string) : Mut nat string :=
  let! sql := mlift (if String.eqb setting "server_encoding" then Ok "SHOW server_encoding"%stdpp
                     else if String.eqb setting "max_identifier_length" then Ok "SHOW max_identifier_length"%stdpp
                     else error "POSTGRES-SCHEMA-003") in
  let! row := driven (fun now => pg_query_one now client sql []) schema_driver_error in
  mlift (try_get get_string row 0 schema_driver_error).

Definition validate_session (client : PgClient) : Mut nat unit :=
  let! encoding := show_setting client "server_encoding" in
  mlift (guard (String.eqb encoding "UTF8") "POSTGRES-SCHEMA-001") ;;!
  let! max_identifier := show_setting client "max_identifier_length" in
  let! max_identifier := mlift (ok_or (parse_unsigned (fun n => (0 <=? n) && (n <? 2 ^ 64)) max_identifier) "POSTGRES-SCHEMA-002") in
  mlift (guard (negb (max_identifier <? 63)) "POSTGRES-SCHEMA-002").

Definition columns_query : string :=
  cat ["SELECT a.attname, t.typname, a.attnotnull, t.typtype::text ";
       "FROM pg_catalog.pg_attribute AS a ";
       "JOIN pg_catalog.pg_class AS c ON c.oid = a.attrelid ";
       "JOIN pg_catalog.pg_namespace AS n ON n.oid = c.relnamespace ";
       "JOIN pg_catalog.pg_type AS t ON t.oid = a.atttypid ";
       "WHERE n.nspname = $1 AND c.relname = $2 ";
       "AND c.relkind IN ('r', 'p') ";
       "AND a.attnum > 0 AND NOT a.attisdropped"]%stdpp.

Definition physical_column (columns : list (string * PhysicalColumn)) (row : PgRow) : Result (list (string * PhysicalColumn)) :=
  let? name := try_get get_string row 0 schema_driver_error in
  let? type_name := try_get get_string row 1 schema_driver_error in
  let? not_null := try_get get_bool row 2 schema_driver_error in
  let? typtype := try_get get_string row 3 schema_driver_error in
  Ok (bt_insert name (mkPhysicalColumn type_name not_null (String.eqb typtype "b")) columns).

Definition postgres_catalog_type (ty : TypeDef) : Result string :=
  let? r := scalar_repr ty in
  match r with
  | RBool => Ok "bool"%stdpp
  | RTruth => Ok "int2"%stdpp
  | RInt bits => Ok (if bits <=? 16 then "int2" else if bits <=? 32 then "int4" else if bits <=? 64 then "int8" else "numeric")%stdpp
  | RUInt _ | RDecimal => Ok "numeric"%stdpp
  | RFloat32 => Ok "float4"%stdpp
  | RFloat64 => Ok "float8"%stdpp
  | RChar | RString => Ok "text"%stdpp
  | RBytes => Ok "bytea"%stdpp
  | RUuid => Ok "uuid"%stdpp
  | RDate => Ok "date"%stdpp
  | _ => let? _ := postgres_type ty in error "POSTGRES-SCHEMA-010"
  end.

Definition validate_value_column (ty : TypeDef) (column : PhysicalColumn) : Result unit :=
  let? expected := postgres_catalog_type ty in
  guard (String.eqb (ph_type_name column) expected && ph_base_type column) "POSTGRES-SCHEMA-008" ;;?
  guard (negb (negb (is_nullable ty) && negb (ph_not_null column))) "POSTGRES-SCHEMA-009".

Definition validate_presence_column (column : PhysicalColumn) : Result unit :=
  guard (String.eqb (ph_type_name column) "bool" && ph_not_null column && ph_base_type column) "POSTGRES-SCHEMA-007".

Definition validate_field_columns (mapping : TableMapping) (columns : list (string * PhysicalColumn)) (field : FieldDef) : Result unit :=
  let? column := ok_or (field_mapping mapping (fd_key field)) "POSTGRES-MAP-002" in
  let? value := ok_or (bt_get (cm_value column) columns) "POSTGRES-SCHEMA-005" in
  validate_value_column (fd_ty field) value ;;?
  match cm_presence column with
  | None => Ok tt
  | Some presence_name =>
      let? presence := ok_or (bt_get presence_name columns) "POSTGRES-SCHEMA-006" in
      validate_presence_column presence
  end.

Definition validate_table (client : PgClient) (model : ModelDef) (mapping : TableMapping) : Mut nat unit :=
  let! rows := driven (fun now => pg_query now client columns_query [SqlString (Some (tm_schema mapping)); SqlString (Some (tm_table mapping))])
                 schema_driver_error in
  mlift (guard (match rows with [] => false | _ => true end) "POSTGRES-SCHEMA-004") ;;!
  let! columns := mlift (foldR physical_column rows []) in
  mlift (forR (validate_field_columns mapping columns) (md_fields model)).

(** [validated] are the keys of the models seen. *)
Fixpoint validate_sources (client : PgClient) (catalog : PostgresCatalog) (nodes : list LogicalNode) (validated : list string) : Mut nat unit :=
  match nodes with
  | [] => mret tt
  | NSource model _ :: rest =>
      if existsb (String.eqb (md_key model)) validated then validate_sources client catalog rest validated
      else
        let! mapping := mlift (postgres_table catalog model) in
        validate_table client model mapping ;;!
        validate_sources client catalog rest (md_key model :: validated)
  | _ :: rest => validate_sources client catalog rest validated
  end.

Definition validate_live_contract (client : PgClient) (catalog : PostgresCatalog) (plan : LogicalPlan) : Mut nat unit :=
  validate_session client ;;! validate_sources client catalog (plan_nodes plan) [].

(** ** The worker: opening the portal *)
Context (runtime : PostgresRuntimeConfig) (catalog : PostgresCatalog) (plan : LogicalPlan) (compiled : CompiledQuery)
  (options : ExecutionOptions) (timeout : option Z).

Definition check_now : Mut nat unit := fun now => (check_timeout timeout now, (now + 1)%nat).

Definition initialize : Mut nat (PgClient * list EncodedBind) :=
  let! client := runtime_connect runtime timeout in
  configure_timeout client timeout ;;!
  check_now ;;!
  validate_live_contract client catalog plan ;;!
  check_now ;;!
  let! binds := mlift (encode_binds (cq_binds compiled)) in
  mret (client, binds).

Definition open_portal : Mut nat PgPortal :=
  let! r := initialize in
  let '(client, binds) := r in
  driven (fun now => pg_begin now client) execution_driver_error ;;!
  let! statement := driven (fun now => pg_prepare now client (cq_sql compiled) (map eb_ty binds)) execution_driver_error in
  mlift (guard (Nat.eqb (statement_params statement) (length binds)) "POSTGRES-BIND-003") ;;!
  driven (fun now => pg_bind now client statement (map eb_value binds)) execution_driver_error.

(** ** The worker: pulling batches *)
Record PullState := mkPullState {
  ps_portal : PgPortal;
  ps_buffered_rows : list PgRow;
  ps_pending : option ExecutionRow;
  ps_now : nat
}.

Definition pull_state_new (portal : PgPortal) (now : nat) : PullState := mkPullState portal [] None now.

Definition set_buffered (s : PullState) (rows : list PgRow) : PullState := mkPullState (ps_portal s) rows (ps_pending s) (ps_now s).
Definition set_pg_pending (s : PullState) (pending : option ExecutionRow) : PullState :=
  mkPullState (ps_portal s) (ps_buffered_rows s) pending (ps_now s).

Definition check_pull : Mut PullState unit := fun s =>
  (check_timeout timeout (ps_now s), mkPullState (ps_portal s) (ps_buffered_rows s) (ps_pending s) (ps_now s + 1)).

Definition fetch_page (rows : Z) : Mut PullState (list PgRow) := fun s =>
  let s' portal := mkPullState portal (ps_buffered_rows s) (ps_pending s) (ps_now s + 1) in
  match query_portal (ps_now s) (ps_portal s) rows with
  | Done (page, portal) => (Ok page, s' portal)
  | Failed canceled => (Err (execution_driver_error canceled), s' (ps_portal s))
  end.

Definition pop_buffered : Mut PullState (option PgRow) := fun s =>
  match ps_buffered_rows s with
  | [] => (Ok None, s)
  | row :: rest => (Ok (Some row), set_buffered s rest)
  end.

Definition prove_empty_or_reject : Mut PullState (option ExecutionBatch) :=
  let! s := mget in
  mlift (if is_some (ps_pending s) then Err zero_row_limit else Ok tt) ;;!
  let! buffered := pop_buffered in
  let! row := match buffered with
              | Some row => mret (Some row)
              | None => let! page := fetch_page 1 in mret (head page)
              end in
  match row with
  | None => mret None
  | Some row => let! _ := mlift (decode_row compiled row) in mlift (Err zero_row_limit)
  end.

(** The pages that the buffer lacks, for a batch that has room. *)
Definition fill_buffer (room : nat) : Mut PullState unit :=
  let! s := mget in
  match ps_buffered_rows s with
  | [] =>
      let! page := fetch_page (portal_fetch_rows room (is_some (max_materialized_bytes (eo_limits options)))) in
      mtry (fun s => Ok (set_buffered s page))
  | _ => mret tt
  end.

Definition next_row (room : nat) : Mut PullState (option ExecutionRow) :=
  let! s := mget in
  match ps_pending s with
  | Some row => mput (set_pg_pending s None) ;;! mret (Some row)
  | None =>
      fill_buffer room ;;!
      let! row := pop_buffered in
      match row with
      | None => mret None
      | Some row => let! decoded := mlift (decode_row compiled row) in mret (Some decoded)
      end
  end.

(** [room] rows are missing in the batch. *)
Fixpoint pull_rows (room : nat) (batch : list ExecutionRow) (batch_bytes : Z) : Mut PullState (list ExecutionRow) :=
  match room with
  | O => mret batch
  | Datatypes.S room' =>
      check_pull ;;!
      let! next := next_row room in
      match next with
      | None => mret batch
      | Some decoded =>
          let row_bytes := execution_row_bytes decoded in
          mlift (enforce_single_row_byte_limit (eo_limits options) row_bytes) ;;!
          let total := sat_add batch_bytes row_bytes in
          if match batch with [] => false | _ => true end && over_byte_limit (eo_limits options) total then
            mtry (fun s => Ok (set_pg_pending s (Some decoded))) ;;! mret batch
          else pull_rows room' (batch ++ [decoded]) total
      end
  end.

Definition pull_batch : Mut PullState (option ExecutionBatch) :=
  check_pull ;;!
  let target_rows := materialized_row_target options in
  if Nat.eqb target_rows 0 then prove_empty_or_reject
  else
    let! batch := pull_rows target_rows [] 0 in
    match batch with
    | [] => mret None
    | _ => mret (Some (mkExecutionBatch (cq_output compiled) batch))
    end.

(** ** The worker and its client

    The two threads share a channel of commands and one of responses, of
    capacity one each, and the channel on which the worker reports that it
    has opened the portal.  Dropping one side's ends makes the other side's
    sends fail, and its receives once the channel is empty. *)
Inductive WorkerCommand := Pull | Cancel.

(** A worker that exits still holds its ends of the channels; one that has
    stopped has dropped them, and the connection. *)
Inductive WorkerPhase := WStarting (now : nat) | WReady (s : PullState) | WPulling (s : PullState) | WExiting | WStopped.

Inductive ClientPhase := COpening | CReady | CSending | CReceiving | CFailed (d : Diagnostic) | CDropped.

Definition Response := Result (option ExecutionBatch).

(** [PostgresStream] with the worker it talks to, and what its pulls have
    returned so far. *)
Record PostgresStream := mkPostgresStream {
  st_phase : ClientPhase;
  st_done : bool;
  st_cancelled : bool;
  st_init : list (Result unit);
  st_commands : list WorkerCommand;
  st_responses : list Response;
  st_worker : WorkerPhase;
  st_log : list Response
}.

Definition set_phase (s : PostgresStream) (phase : ClientPhase) : PostgresStream :=
  mkPostgresStream phase (st_done s) (st_cancelled s) (st_init s) (st_commands s) (st_responses s) (st_worker s) (st_log s).
Definition set_init (s : PostgresStream) (init : list (Result unit)) : PostgresStream :=
  mkPostgresStream (st_phase s) (st_done s) (st_cancelled s) init (st_commands s) (st_responses s) (st_worker s) (st_log s).
Definition set_commands (s : PostgresStream) (commands : list WorkerCommand) : PostgresStream :=
  mkPostgresStream (st_phase s) (st_done s) (st_cancelled s) (st_init s) commands (st_responses s) (st_worker s) (st_log s).
Definition set_responses (s : PostgresStream) (responses : list Response) : PostgresStream :=
  mkPostgresStream (st_phase s) (st_done s) (st_cancelled s) (st_init s) (st_commands s) responses (st_worker s) (st_log s).
Definition set_worker (s : PostgresStream) (worker : WorkerPhase) : PostgresStream :=
  mkPostgresStream (st_phase s) (st_done s) (st_cancelled s) (st_init s) (st_commands s) (st_responses s) worker (st_log s).
Definition set_cancelled (s : PostgresStream) : PostgresStream :=
  mkPostgresStream (st_phase s) (st_done s) true (st_init s) (st_commands s) (st_responses s) (st_worker s) (st_log s).

(** The call that is under way returns. *)
Definition return_pull (s : PostgresStream) (done : bool) (r : Response) : PostgresStream :=
  mkPostgresStream CReady done (st_cancelled s) (st_init s) (st_commands s) (st_responses s) (st_worker s) (st_log s ++ [r]).

Definition worker_holds_ends (s : PostgresStream) : bool := match st_worker s with WStopped => false | _ => true end.
Definition client_holds_ends (s : PostgresStream) : bool := match st_phase s with CFailed _ | CDropped => false | _ => true end.

(** [SyncSender::try_send]; a failure is ignored. *)
Definition try_send (s : PostgresStream) (command : WorkerCommand) : PostgresStream :=
  match st_commands s with
  | [] => if worker_holds_ends s then set_commands s [command] else s
  | _ => s
  end.

Definition terminal (r : Response) : bool := match r with Ok (Some _) => false | _ => true end.

(** One turn of the worker; [None] while it is blocked, or after its end. *)
Definition worker_turn (s : PostgresStream) : option PostgresStream :=
  match st_worker s with
  | WStarting now =>
      match open_portal now with
      | (Ok portal, now') =>
          match st_init s with
          | [] => Some (if client_holds_ends s then set_init (set_worker s (WReady (pull_state_new portal now'))) [Ok tt] else set_worker s WExiting)
          | _ => None
          end
      | (Err d, _) => Some (set_worker (set_init s (st_init s ++ [Err d])) WExiting)
      end
  | WReady state =>
      match st_commands s with
      | Pull :: rest => Some (set_worker (set_commands s rest) (WPulling state))
      | Cancel :: rest => Some (set_worker (set_commands s rest) WExiting)
      | [] => if client_holds_ends s then None else Some (set_worker s WExiting)
      end
  | WPulling state =>
      let '(r, state') := pull_batch state in
      if negb (client_holds_ends s) then Some (set_worker s WExiting)
      else
        match st_responses s with
        | [] => Some (set_worker (set_responses s [r]) (if terminal r then WExiting else WReady state'))
        | _ => None
        end
  | WExiting => Some (set_worker s WStopped)
  | WStopped => None
  end.

(** The worker may panic before it exits. *)
Definition worker_panic (s : PostgresStream) : option PostgresStream :=
  match st_worker s with
  | WExiting | WStopped => None
  | _ => Some (set_worker s WExiting)
  end.

(** One turn of the client in [open] or [next_batch]; [None] while it is
    blocked, or outside them. *)
Definition client_turn (s : PostgresStream) : option PostgresStream :=
  match st_phase s with
  | COpening =>
      match st_init s with
      | Ok _ :: rest => Some (set_phase (set_init s rest) CReady)
      | Err d :: rest => Some (set_phase (set_init s rest) (CFailed d))
      | [] => if worker_holds_ends s then None else Some (set_phase s (CFailed worker_stopped))
      end
  | CSending =>
      if negb (worker_holds_ends s) then Some (return_pull s (st_done s) (Err worker_stopped))
      else
        match st_commands s with
        | [] => Some (set_phase (set_commands s [Pull]) CReceiving)
        | _ => None
        end
  | CReceiving =>
      match st_responses s with
      | r :: rest => Some (return_pull (set_responses s rest) (st_done s || terminal r) r)
      | [] => if worker_holds_ends s then None else Some (return_pull s (st_done s) (Err worker_stopped))
      end
  | CReady | CFailed _ | CDropped => None
  end.

(** The calls of a program that owns the stream. *)
Inductive StreamCall := NextBatch | CancelStream | DropStream.

Definition start_call (call : StreamCall) (s : PostgresStream) : option PostgresStream :=
  match st_phase s with
  | CReady =>
      let ended := st_done s || st_cancelled s in
      Some match call with
           | NextBatch => if ended then return_pull s (st_done s) (Ok None) else set_phase s CSending
           | CancelStream => if ended then s else try_send (set_cancelled s) Cancel
           | DropStream => set_phase (if ended then s else try_send s Cancel) CDropped
           end
  | _ => None
  end.

Definition postgres_open : Result PostgresStream :=
  validate_plan plan (eo_limits options) ;;?
  guard (negb (Nat.eqb (eo_batch_rows options) 0)) "POSTGRES-EXEC-001" ;;?
  guard spawn_worker "POSTGRES-EXEC-002" ;;?
  Ok (mkPostgresStream COpening false false [] [] [] (WStarting 0) []).
End Runtime.

(** ** The engine ([lib.rs]) *)
Section Engine.
Context {F : Foreign} {Q : Subqueries} {D : PgDriver F} {G : PgServer D} (version : string).

Record PostgresEngine := mkPostgresEngine {
  pge_info : EngineInfo;
  pge_capabilities : Capabilities;
  pge_catalog : PostgresCatalog;
  pge_runtime : option PostgresRuntimeConfig
}.

Definition postgres_new (catalog : PostgresCatalog) : PostgresEngine :=
  mkPostgresEngine (mkEngineInfo "postgres" version) capabilities_default catalog None.
Definition postgres_with_runtime (catalog : PostgresCatalog) (runtime : PostgresRuntimeConfig) : PostgresEngine :=
  mkPostgresEngine (mkEngineInfo "postgres" version) runtime_capabilities catalog (Some runtime).

Definition postgres_support_for_node (e : PostgresEngine) (node : LogicalNode) : Support :=
  let base := capability_support_for_node node (pge_capabilities e) in
  if is_supported base && negb (supports_node (pge_catalog e) node) then
    Unsupported "concrete PostgreSQL node uses a mapping/type/expression outside the exact compiler surface"
  else base.

#[export] Instance postgres_engine : Engine PostgresEngine := {
  engine_info := pge_info;
  capabilities := pge_capabilities;
  support_for_node := postgres_support_for_node
}.

Definition postgres_explain_plan (e : PostgresEngine) (plan : LogicalPlan) (policy : PlacementPolicy) : Result ExplainPlan :=
  let? placement := analyze_engine_placement plan e policy in
  Ok (explain_plan_new (pge_info e) plan placement).

(** What a run of the engine is about: its parts, and the stream that has
    just been opened. *)
Record PostgresExecution := mkPostgresExecution { pgx_runtime : PostgresRuntimeConfig; pgx_compiled : CompiledQuery; pgx_stream : PostgresStream }.

Definition postgres_execute_plan (e : PostgresEngine) (plan : LogicalPlan) (parameters : Parameters) (options : ExecutionOptions)
  : Result PostgresExecution :=
  let? runtime := ok_or (pge_runtime e) "POSTGRES-EXEC-004" in
  validate_plan plan (eo_limits options) ;;?
  let? placement := analyze_engine_placement plan e (eo_placement options) in
  guard (is_fully_engine placement) "POSTGRES-PLACEMENT-001" ;;?
  let? compiled := postgres_compile (pge_catalog e) plan parameters in
  let? stream := postgres_open plan options in
  Ok (mkPostgresExecution runtime compiled stream).
End Engine.
