(* ===== verification/PgProtocol.v ===== *)
(** * The threads of a PostgreSQL stream

    The client and the worker take turns in any order, and the worker may
    panic at any time.  No call blocks forever and no worker is left behind;
    and without panics the stream is the sequential one, whatever the
    interleaving. *)
From Stdlib Require Import ZArith Lia.
From stdpp Require Import list relations.
From S2P Require Import Prelude Mutation Foreign Types Values Fingerprint Model Row Expr ExprPrepare Plan Placement Executor Stream MemoryEngine PgSql PgCompile PgCodec PgRuntime.

Section Protocol.
Context {F : Foreign} {Q : Subqueries} {D : PgDriver F} {G : PgServer D}.
Context (runtime : PostgresRuntimeConfig) (catalog : PostgresCatalog) (plan : LogicalPlan) (compiled : CompiledQuery)
  (options : ExecutionOptions) (timeout : option Z).
Notation open_portal := (open_portal runtime catalog plan compiled timeout).
Notation pull_batch := (pull_batch compiled options timeout).
Notation worker_turn := (worker_turn runtime catalog plan compiled options timeout).

#[local] Arguments PgRuntime.pull_batch : simpl never.
#[local] Arguments PgRuntime.open_portal : simpl never.

(** One of the threads takes a turn. *)
Definition turn (s s' : PostgresStream) : Prop := worker_turn s = Some s' \/ client_turn s = Some s'.
Definition step (s s' : PostgresStream) : Prop := turn s s' \/ worker_panic s = Some s'.

(** The streams of any program and any schedule, panics included. *)
Inductive reachable : PostgresStream -> Prop :=
| reachable_open s : postgres_open plan options = Ok s -> reachable s
| reachable_step s s' : reachable s -> step s s' -> reachable s'
| reachable_call call s s' : reachable s -> start_call call s = Some s' -> reachable s'.

(** ** Progress *)
Definition client_weight (phase : ClientPhase) : nat :=
  match phase with CSending => 4 | COpening | CReceiving => 1 | CReady | CFailed _ | CDropped => 0 end.
Definition worker_weight (worker : WorkerPhase) : nat :=
  match worker with WStarting _ | WPulling _ => 3 | WReady _ => 2 | WExiting => 1 | WStopped => 0 end.
Definition weight (s : PostgresStream) : nat := client_weight (st_phase s) + worker_weight (st_worker s) + 2 * length (st_commands s).

Lemma step_weight s s' : step s s' -> weight s' < weight s.
Proof.
  unfold weight. intros [[H|H]|H].
  - unfold worker_turn in H. destruct (st_worker s) as [now|state|state| |] eqn:E.
    + destruct (open_portal now) as [[portal|d] now'].
      * destruct (st_init s); [|done]. injection H as <-. destruct (client_holds_ends s); cbn; lia.
      * injection H as <-. cbn. lia.
    + destruct (st_commands s) as [|[] rest] eqn:Ec; [destruct (client_holds_ends s); [done|]|..]; injection H as <-; cbn; rewrite ?Ec; cbn; lia.
    + destruct (pull_batch state) as [r state']. destruct (negb _); [injection H as <-; cbn; lia|]. destruct (st_responses s); [|done].
      injection H as <-. cbn. destruct (terminal r); cbn; lia.
    + injection H as <-. cbn. lia.
    + done.
  - unfold client_turn in H. destruct (st_phase s) eqn:E; try done.
    + destruct (st_init s) as [|[] ?]; [destruct (worker_holds_ends s); [done|]|..]; injection H as <-; cbn; lia.
    + destruct (negb _); [injection H as <-; cbn; lia|]. destruct (st_commands s) eqn:Ec; [|done]. injection H as <-. cbn. lia.
    + destruct (st_responses s); [destruct (worker_holds_ends s); [done|]|]; injection H as <-; cbn; lia.
  - unfold worker_panic in H. destruct (st_worker s); try done; injection H as <-; cbn; lia.
Qed.

Lemma steps_end s : sn step s.
Proof.
  induction s as [s IH] using (well_founded_induction (well_founded_ltof _ weight)). constructor. intros s' H. apply IH. by apply step_weight.
Qed.

(** What the channels hold between two turns. *)
Definition ended (worker : WorkerPhase) : Prop := worker = WExiting \/ worker = WStopped.

Definition protocol (s : PostgresStream) : Prop :=
  match st_phase s with
  | COpening =>
      st_done s = false /\ st_cancelled s = false /\ st_responses s = [] /\
      match st_worker s with
      | WStarting _ => st_commands s = [] /\ st_init s = []
      | WReady _ => st_commands s = [] /\ st_init s = [Ok tt]
      | WPulling _ => False
      | WExiting | WStopped => True
      end
  | CReady =>
      st_responses s = [] /\
      match st_worker s with
      | WStarting _ | WPulling _ => False
      | WReady _ => st_done s = false /\ st_commands s = if st_cancelled s then [Cancel] else []
      | WExiting | WStopped => True
      end
  | CSending =>
      st_done s = false /\ st_cancelled s = false /\ st_responses s = [] /\
      match st_worker s with WStarting _ | WPulling _ => False | WReady _ => st_commands s = [] | WExiting | WStopped => True end
  | CReceiving =>
      st_done s = false /\ st_cancelled s = false /\
      match st_worker s with
      | WStarting _ => False
      | WReady _ => (st_commands s = [Pull] /\ st_responses s = []) \/ (st_commands s = [] /\ exists b, st_responses s = [Ok (Some b)])
      | WPulling _ => st_commands s = [] /\ st_responses s = []
      | WExiting | WStopped => (length (st_responses s) <= 1)%nat
      end
  | CFailed _ => ended (st_worker s)
  | CDropped => match st_worker s with WStarting _ | WPulling _ => False | WReady _ => st_commands s = [] \/ st_commands s = [Cancel] | _ => True end
  end.

(** The cases of a turn. *)
Ltac turn_cases H :=
  cbn in H;
  lazymatch type of H with
  | None = Some _ => discriminate H
  | Some _ = Some _ => injection H as <-
  | context [match ?x with _ => _ end] => destruct x eqn:?; turn_cases H
  end.

Lemma protocol_step s s' : protocol s -> step s s' -> protocol s'.
Proof.
  destruct s as [phase done cancelled init commands responses worker log]. unfold protocol. cbn. intros P [[H|H]|H].
  - unfold worker_turn in H. destruct phase, worker; cbn in P; try (by destruct P); turn_cases H; cbn; unfold ended; try (by naive_solver).
    + destruct P as (_ & _ & P). by destruct cancelled.
    + destruct P as (-> & -> & -> & _). split_and!; [done..|]. destruct r as [[b|]|d]; cbn; [right; eauto|lia..].
  - unfold client_turn in H. destruct phase, worker; cbn in P; try (by destruct P); turn_cases H; cbn; unfold ended; try (by naive_solver).
    all: destruct P as (_ & _ & P); by destruct l; cbn in P; [|lia].
  - unfold worker_panic in H. destruct phase, worker; cbn in P; try (by destruct P); turn_cases H; cbn; unfold ended; try (by naive_solver).
Qed.

Lemma protocol_call call s s' : protocol s -> start_call call s = Some s' -> protocol s'.
Proof.
  destruct s as [phase done cancelled init commands responses worker log]. unfold protocol, start_call. cbn. intros P H.
  destruct phase; try discriminate H. injection H as <-. cbn in P.
  destruct call, done, cancelled, worker; cbn in *; try (by naive_solver); destruct commands; cbn; naive_solver.
Qed.

Lemma reachable_protocol s : reachable s -> protocol s.
Proof.
  induction 1 as [s H|s s' _ IH H|call s s' _ IH H]; [|by eapply protocol_step|by eapply protocol_call].
  unfold postgres_open in H. do 3 apply check_then in H as [_ H]. by injection H as <-.
Qed.

(** Where both threads are blocked: the call that was under way has returned,
    and a stream that has ended, failed or been given up has no worker. *)
Definition settled (s : PostgresStream) : Prop :=
  match st_phase s with
  | CReady => st_done s = true \/ st_cancelled s = true -> st_worker s = WStopped
  | CFailed _ | CDropped => st_worker s = WStopped
  | COpening | CSending | CReceiving => False
  end.

Lemma blocked_settled s : protocol s -> nf turn s -> settled s.
Proof.
  intros P N. assert (Hw : worker_turn s = None) by (destruct (worker_turn s) as [s'|] eqn:E; [destruct N; exists s'; by left|done]).
  assert (Hc : client_turn s = None) by (destruct (client_turn s) as [s'|] eqn:E; [destruct N; exists s'; by right|done]). clear N. revert P Hw Hc.
  destruct s as [phase done cancelled init commands responses worker log]. unfold protocol, settled, worker_turn, client_turn. cbn.
  destruct phase, worker; cbn; intros P Hw Hc; try done; try (by naive_solver).
  all: unfold ended in P; clear - P Hw Hc; repeat case_match; naive_solver.
Qed.

Lemma reachable_steps s s' : reachable s -> rtc step s s' -> reachable s'.
Proof. intros R H. revert R. induction H as [|s s1 s' H _ IH]; [done|]. intros R. apply IH. by eapply reachable_step. Qed.

(** C5: no schedule blocks a call or keeps a connection: from every stream
    that a program, its worker and the panics of the worker can reach, the
    threads take finitely many turns, and where neither can go on, the call
    under way has returned and the worker of a stream that has ended, failed,
    been cancelled or dropped has stopped. *)
Theorem postgres_calls_return s : reachable s ->
  sn step s /\ forall s', rtc step s s' -> nf turn s' -> settled s'.
Proof.
  intros R. split; [apply steps_end|]. intros s' H N. apply blocked_settled; [|done]. apply reachable_protocol. by eapply reachable_steps.
Qed.

(** ** The sequential stream

    What the stream promises: each pull is one batch of the worker, after the
    end, an error or a cancellation there is nothing more. *)
Record SeqStream := mkSeqStream { sq_state : PullState; sq_done : bool; sq_cancelled : bool }.

Definition seq_new (portal : PgPortal) (now : nat) : SeqStream := mkSeqStream (pull_state_new portal now) false false.

Definition seq_next_batch (q : SeqStream) : Response * SeqStream :=
  if sq_done q || sq_cancelled q then (Ok None, q)
  else let '(r, state) := pull_batch (sq_state q) in (r, mkSeqStream state (terminal r) false).

Definition seq_cancel (q : SeqStream) : SeqStream :=
  if sq_done q || sq_cancelled q then q else mkSeqStream (sq_state q) false true.

Definition seq_data_stream : DataStream SeqStream := {| ds_next_batch := seq_next_batch; ds_cancel := seq_cancel |}.

Definition seq_call (q : SeqStream * list Response) (call : StreamCall) : SeqStream * list Response :=
  match call with
  | NextBatch => let '(r, q') := seq_next_batch (fst q) in (q', snd q ++ [r])
  | CancelStream => (seq_cancel (fst q), snd q)
  | DropStream => q
  end.

Definition seq_calls (q : SeqStream) (calls : list StreamCall) : SeqStream * list Response := fold_left seq_call calls (q, []).

Lemma seq_calls_snoc q calls call : seq_calls q (calls ++ [call]) = seq_call (seq_calls q calls) call.
Proof. unfold seq_calls. by rewrite fold_left_app. Qed.

(** Schedules without panics, with the calls made so far. *)
Inductive run : list StreamCall -> PostgresStream -> Prop :=
| run_open s : postgres_open plan options = Ok s -> run [] s
| run_turn calls s s' : run calls s -> turn s s' -> run calls s'
| run_call calls call s s' : run calls s -> start_call call s = Some s' -> run (calls ++ [call]) s'.

(** The stream [s] is between two calls where the sequential one is [q]. *)
Definition between (q : SeqStream * list Response) (s : PostgresStream) : Prop :=
  st_log s = snd q /\ st_done s = sq_done (fst q) /\ st_cancelled s = sq_cancelled (fst q) /\ st_responses s = [].

(** The worker is waiting in the state of [q]. *)
Definition waiting (q : SeqStream) (s : PostgresStream) : Prop := st_worker s = WReady (sq_state q) /\ st_commands s = [].

Definition simulates (q0 : SeqStream) (calls : list StreamCall) (s : PostgresStream) : Prop :=
  match st_phase s with
  | COpening =>
      calls = [] /\ st_log s = [] /\ st_done s = false /\ st_cancelled s = false /\ st_commands s = [] /\ st_responses s = [] /\
      (st_worker s = WStarting 0 /\ st_init s = [] \/ st_worker s = WReady (sq_state q0) /\ st_init s = [Ok tt])
  | CReady =>
      between (seq_calls q0 calls) s /\
      match st_worker s with
      | WStarting _ | WPulling _ => False
      | WReady state => st_done s = false /\ if st_cancelled s then st_commands s = [Cancel] else state = sq_state (fst (seq_calls q0 calls)) /\ st_commands s = []
      | WExiting | WStopped => st_done s || st_cancelled s = true
      end
  | CSending =>
      exists before, calls = before ++ [NextBatch] /\ between (seq_calls q0 before) s /\ st_done s = false /\ st_cancelled s = false /\
        waiting (fst (seq_calls q0 before)) s
  | CReceiving =>
      exists before, calls = before ++ [NextBatch] /\ st_done s = false /\ st_cancelled s = false /\
        let q := seq_calls q0 before in
        st_log s = snd q /\ sq_done (fst q) = false /\ sq_cancelled (fst q) = false /\
        (st_worker s = WReady (sq_state (fst q)) /\ st_commands s = [Pull] /\ st_responses s = [] \/
         st_worker s = WPulling (sq_state (fst q)) /\ st_commands s = [] /\ st_responses s = [] \/
         st_commands s = [] /\ st_responses s = [fst (pull_batch (sq_state (fst q)))] /\
         if terminal (fst (pull_batch (sq_state (fst q)))) then ended (st_worker s)
         else st_worker s = WReady (snd (pull_batch (sq_state (fst q)))))
  | CFailed _ => False
  | CDropped => st_log s = snd (seq_calls q0 calls)
  end.

Section Opened.
Context (portal : PgPortal) (now : nat) (Hopen : open_portal 0 = (Ok portal, now)).
Notation q0 := (seq_new portal now).

Lemma simulates_worker calls s s' : simulates q0 calls s -> worker_turn s = Some s' -> simulates q0 calls s'.
Proof.
  destruct s as [phase done cancelled init commands responses worker log]. unfold simulates, between, waiting, ended, worker_turn. cbn. intros P H.
  destruct phase; try done.
  - destruct P as (-> & -> & -> & -> & -> & -> & [[-> ->]|[-> ->]]); [|discriminate H].
    rewrite Hopen in H. injection H as <-. cbn. split_and!; [done..|]. by right.
  - destruct P as [P1 P2]. destruct worker as [|state|state| |]; try done.
    + destruct P2 as [-> P2]. destruct cancelled; [subst commands|destruct P2 as [-> ->]; discriminate H]. injection H as <-. by cbn.
    + by injection H as <-.
  - destruct P as (before & -> & P1 & -> & -> & -> & ->). discriminate H.
  - destruct P as (before & -> & -> & -> & P).
    destruct P as (-> & Hd & Hc & [(-> & -> & ->)|[(-> & -> & ->)|(-> & -> & P)]]).
    + injection H as <-. cbn. exists before. split_and!; try done. right. by left.
    + destruct (pull_batch (sq_state (fst (seq_calls q0 before)))) as [r state'] eqn:E. injection H as <-. cbn. exists before. rewrite E. split_and!; try done.
      right. right. cbn. split_and!; [done..|]. destruct (terminal r); [by left|done].
    + destruct (terminal _) eqn:Et; [destruct P as [-> | ->]|subst worker]; [|discriminate H..]. injection H as <-. cbn. exists before. rewrite Et.
      split_and!; try done. right. right. split_and!; try done. by right.
  - destruct worker; turn_cases H; done.
Qed.

Lemma simulates_client calls s s' : simulates q0 calls s -> client_turn s = Some s' -> simulates q0 calls s'.
Proof.
  destruct s as [phase done cancelled init commands responses worker log]. unfold simulates, between, waiting, ended, client_turn. cbn. intros P H.
  destruct phase; try done.
  - destruct P as (-> & -> & -> & -> & -> & -> & [[-> ->]|[-> ->]]); [discriminate H|]. injection H as <-. by cbn.
  - destruct P as (before & -> & (-> & Hd & Hc & ->) & -> & -> & -> & ->). injection H as <-. cbn. exists before. destruct (seq_calls q0 before) as [q l]. cbn in *.
    split_and!; try done. by left.
  - destruct P as (before & -> & -> & -> & P). rewrite seq_calls_snoc. destruct (seq_calls q0 before) as [q l]. cbn in *.
    destruct P as (-> & Hd & Hc & [(-> & -> & ->)|[(-> & -> & ->)|(-> & -> & P)]]); try discriminate H.
    injection H as <-. cbn. unfold seq_next_batch. rewrite Hd, Hc. cbn [orb fst]. destruct (pull_batch (sq_state q)) as [r state']. cbn in *.
    split_and!; [done..|]. destruct (terminal r); [by destruct P as [->| ->]|by subst worker].
Qed.

Lemma simulates_call calls call s s' : simulates q0 calls s -> start_call call s = Some s' -> simulates q0 (calls ++ [call]) s'.
Proof.
  destruct s as [phase done cancelled init commands responses worker log]. unfold simulates, start_call. cbn. intros P H.
  destruct phase; try discriminate H. injection H as <-. destruct P as [(Hl & Hd & Hc & Hr) P2]. cbn in Hl, Hd, Hc, Hr, P2.
  assert (E : seq_calls q0 (calls ++ [call]) = seq_call (seq_calls q0 calls) call) by apply seq_calls_snoc.
  subst log done cancelled responses. destruct call.
  - destruct (sq_done _ || sq_cancelled _) eqn:Ee.
    + cbn. rewrite E. cbn [seq_call]. unfold seq_next_batch. rewrite Ee. split; [by unfold between|exact P2].
    + cbn. exists calls. apply orb_false_iff in Ee as [Ed Ec]. rewrite Ed, Ec in *. unfold between, waiting. cbn. rewrite Ed, Ec.
      destruct worker as [|state|state| |]; try done. by destruct P2 as (_ & -> & ->).
  - destruct (sq_done _ || sq_cancelled _) eqn:Ee.
    + cbn. rewrite E. cbn [seq_call]. unfold seq_cancel. rewrite Ee. split; [by unfold between|exact P2].
    + apply orb_false_iff in Ee as [Ed Ec]. rewrite Ed, Ec in *. destruct worker as [|state|state| |]; try done. destruct P2 as (_ & -> & ->).
      cbn. rewrite E. cbn [seq_call]. unfold seq_cancel, between. rewrite Ed, Ec. by cbn.
  - assert (Eq : seq_calls q0 (calls ++ [DropStream]) = seq_calls q0 calls) by exact E. cbn. destruct (sq_done _ || sq_cancelled _); cbn; rewrite Eq; [done|].
    unfold try_send. cbn. destruct commands; [|done]. by destruct (worker_holds_ends _).
Qed.

Lemma run_simulates calls s : run calls s -> simulates q0 calls s.
Proof.
  induction 1 as [s H|calls s s' _ IH [H|H]|calls call s s' _ IH H];
    [|by eapply simulates_worker|by eapply simulates_client|by eapply simulates_call].
  unfold postgres_open in H. do 3 apply check_then in H as [_ H]. injection H as <-. cbn. split_and!; try done. by left.
Qed.
End Opened.

(** A portal that does not open is the error of [open]. *)
Lemma run_fails calls s d now : open_portal 0 = (Err d, now) -> run calls s ->
  calls = [] /\ st_log s = [] /\
  match st_phase s with
  | COpening => (st_worker s = WStarting 0 /\ st_init s = []) \/ (st_init s = [Err d] /\ ended (st_worker s))
  | CFailed d' => d' = d /\ ended (st_worker s)
  | _ => False
  end.
Proof.
  intros Hd R. induction R as [s H|calls s s' _ (-> & Hl & IH) H|calls call s s' _ (-> & Hl & IH) H].
  - unfold postgres_open in H. do 3 apply check_then in H as [_ H]. injection H as <-. cbn. split_and!; try done. by left.
  - split; [done|]. destruct s as [phase done cancelled init commands responses worker log]. cbn in Hl, IH. subst log. destruct H as [H|H].
    + unfold worker_turn in H. cbn in H. destruct phase; try done.
      * destruct IH as [[-> ->]|[-> [-> | ->]]]; [|injection H as <-|discriminate H].
        -- rewrite Hd in H. injection H as <-. cbn. split; [done|]. right. split; [done|]. by left.
        -- cbn. split; [done|]. right. split; [done|]. by right.
      * destruct IH as [-> [-> | ->]]; [|discriminate H]. injection H as <-. cbn. split_and!; try done. by right.
    + unfold client_turn in H. cbn in H. destruct phase; try done. destruct IH as [[-> ->]|[-> Hw]]; [discriminate H|]. injection H as <-. by cbn.
  - unfold start_call in H. destruct (st_phase s); try discriminate H. done.
Qed.

(** C6: whatever the interleaving of the threads, the stream is the sequential
    one: when the portal does not open, that error is what [open] returns and
    nothing else ever happens; when it opens, [open] succeeds, and between two
    calls the pulls have returned what the sequential stream returns for the
    calls made. *)
Theorem postgres_stream_sequential calls s : run calls s ->
  match open_portal 0 with
  | (Err d, _) => calls = [] /\ st_log s = [] /\ (st_phase s = COpening \/ st_phase s = CFailed d)
  | (Ok portal, now) =>
      match st_phase s with
      | COpening => calls = [] /\ st_log s = []
      | CReady | CDropped => st_log s = snd (seq_calls (seq_new portal now) calls)
      | CSending | CReceiving => exists r, snd (seq_calls (seq_new portal now) calls) = st_log s ++ [r]
      | CFailed _ => False
      end
  end.
Proof.
  intros R. destruct (open_portal 0) as [[portal|d] now] eqn:E.
  - pose proof (run_simulates portal now E calls s R) as P. unfold simulates, between in P. destruct (st_phase s); try (by naive_solver).
    + destruct P as (before & -> & (Hl & _) & _). rewrite seq_calls_snoc, Hl. unfold seq_call. destruct (seq_next_batch _) as [r q]. by exists r.
    + destruct P as (before & -> & _ & _ & Hl & _). rewrite seq_calls_snoc, Hl. unfold seq_call. destruct (seq_next_batch _) as [r q]. by exists r.
  - destruct (run_fails calls s d now E R) as (-> & -> & H). split_and!; [done..|]. destruct (st_phase s); try done; [by left|]. destruct H as [-> _]. by right.
Qed.
End Protocol.
