(* ===== verification/PgStream.v ===== *)
(** * What a PostgreSQL stream returns

    The pages of a portal add up to the rows of its statement; a stream gives
    their decoded rows, batch by batch, and so, with what the statement means,
    the rows of the memory executor; and nothing is read from a table that
    has not been checked. *)
From Stdlib Require Import ZArith Lia.
From stdpp Require Import list relations.
From S2P Require Import Prelude Mutation Foreign Truth Text BTree Types Values Fingerprint Model Row Expr ExprPrepare Plan Placement Executor Stream MemoryEngine PipelineTyping PushDown PgSql PgExpr PgCompile PgCodec PgSemantics PgSound PgRows PgRefines PgRuntime PgProtocol.

Local Open Scope Z_scope.

(** Portals hand out their rows in order: a page has at most as many as were
    asked for, and is empty only at the end. *)
Class PgServerLaws {F : Foreign} {D : PgDriver F} (G : PgServer D) := {
  portal_rows : PgPortal -> list PgRow;
  portal_page : forall t p n page p', query_portal t p n = Done (page, p') -> 0 < n ->
    portal_rows p = page ++ portal_rows p' /\ zlen page <= n /\ (page = [] -> portal_rows p = [])
}.

Section Pulling.
Context {F : Foreign} {Q : Subqueries} {D : PgDriver F} {G : PgServer D} {GL : PgServerLaws G}.
Context (compiled : CompiledQuery) (options : ExecutionOptions) (timeout : option Z).
Notation pull_rows := (pull_rows compiled options timeout).
Notation pull_batch := (pull_batch compiled options timeout).
Notation limits := (eo_limits options).

(** Neither the driver nor the clock fails. *)
Definition reliable : Prop :=
  (forall t p n, exists r, query_portal t p n = Done r) /\ (forall t, check_timeout timeout t = Ok tt) /\ materialized_row_target options <> O.

Definition held (s : PullState) : list ExecutionRow := match ps_pending s with Some row => [row] | None => [] end.

(** The rows that the worker still has to give. *)
Definition to_come (s : PullState) (rows : list ExecutionRow) : Prop :=
  exists rest, rows = held s ++ rest /\ Forall2 (fun row out => decode_row compiled row = Ok out) (ps_buffered_rows s ++ portal_rows (ps_portal s)) rest.

Lemma check_pull_cases s : check_pull timeout s = (check_timeout timeout (ps_now s), mkPullState (ps_portal s) (ps_buffered_rows s) (ps_pending s) (ps_now s + 1)).
Proof. done. Qed.

Lemma fetch_positive room b : 0 < portal_fetch_rows room b.
Proof. unfold portal_fetch_rows. destruct b; lia. Qed.

Lemma fetch_page_gives n s : 0 < n ->
  match fetch_page n s with
  | (Ok page, s') => portal_rows (ps_portal s) = page ++ portal_rows (ps_portal s') /\ (page = [] -> portal_rows (ps_portal s') = []) /\
      ps_buffered_rows s' = ps_buffered_rows s /\ ps_pending s' = ps_pending s
  | (Err _, _) => ~ reliable
  end.
Proof.
  intros Hn. unfold fetch_page. destruct (query_portal (ps_now s) (ps_portal s) n) as [[page portal]|canceled] eqn:E; cbn.
  - destruct (portal_page _ _ _ _ _ E Hn) as (Er & _ & Hend). split_and!; try done. intros ->. rewrite Er in Hend. by apply Hend.
  - intros (Hr & _). destruct (Hr (ps_now s) (ps_portal s) n) as [r Hr']. congruence.
Qed.

Lemma fill_buffer_gives room s :
  match fill_buffer options room s with
  | (Ok _, s') => ps_buffered_rows s ++ portal_rows (ps_portal s) = ps_buffered_rows s' ++ portal_rows (ps_portal s') /\
      ps_pending s' = ps_pending s /\ (ps_buffered_rows s' = [] -> portal_rows (ps_portal s') = [])
  | (Err _, _) => ~ reliable
  end.
Proof.
  unfold fill_buffer. rewrite mget_then. destruct (ps_buffered_rows s) as [|row buffered] eqn:Eb.
  2: { unfold mret. rewrite Eb. split_and!; [done|done|discriminate]. }
  pose proof (fetch_page_gives _ s (fetch_positive room (is_some (max_materialized_bytes limits)))) as H. unfold mbind.
  destruct (fetch_page _ s) as [[page|d] s']; [|done]. destruct H as (Er & He & _ & Hp). cbn. split_and!; done.
Qed.

(** The next row, if there is one. *)
Lemma next_row_gives room s rows : to_come s rows ->
  match next_row compiled options room s with
  | (Ok (Some row), s') => exists rows', rows = row :: rows' /\ to_come s' rows' /\ ps_pending s' = None
  | (Ok None, s') => rows = [] /\ to_come s' [] /\ ps_pending s' = None
  | (Err _, _) => ~ reliable
  end.
Proof.
  intros (rest & -> & H). unfold next_row, held. cbn [mget mbind]. destruct (ps_pending s) as [row|] eqn:Ep.
  { cbn. exists rest. split_and!; [done| |done]. by exists rest. }
  assert (K : forall s', ps_pending s' = None -> Forall2 (fun row out => decode_row compiled row = Ok out) (ps_buffered_rows s' ++ portal_rows (ps_portal s')) rest ->
    (ps_buffered_rows s' = [] -> portal_rows (ps_portal s') = []) ->
    match (let! row := pop_buffered in match row with None => mret None | Some row => let! decoded := mlift (decode_row compiled row) in mret (Some decoded) end) s' with
    | (Ok (Some row), s') => exists rows', rest = row :: rows' /\ to_come s' rows' /\ ps_pending s' = None
    | (Ok None, s') => rest = [] /\ to_come s' [] /\ ps_pending s' = None
    | (Err _, _) => ~ reliable
    end).
  { intros s' Hp H' He. unfold pop_buffered, mbind. destruct (ps_buffered_rows s') as [|row buffered] eqn:Eb; cbn [app] in H'.
    - rewrite (He eq_refl) in H'. apply Forall2_nil_inv_l in H' as ->. cbn. split_and!; [done| |done]. exists []. unfold held. rewrite Hp, Eb, (He eq_refl). by split.
    - apply Forall2_cons_inv_l in H' as (out & rest' & Hd & H' & ->). unfold mlift. rewrite Hd. cbn. exists rest'. split_and!; [done| |done].
      exists rest'. unfold held. cbn. by rewrite Hp. }
  pose proof (fill_buffer_gives room s) as Hb. unfold mbind at 1. destruct (fill_buffer options room s) as [[[]|d] s'].
  - destruct Hb as (Er & Hn & He). apply K; [by rewrite Hn|by rewrite <- Er|exact He].
  - exact Hb.
Qed.

Lemma check_pull_then {A} (m : Mut PullState A) s :
  exists s', ps_pending s' = ps_pending s /\ ps_buffered_rows s' = ps_buffered_rows s /\ ps_portal s' = ps_portal s /\
    (check_pull timeout ;;! m) s = match check_timeout timeout (ps_now s) with Ok _ => m s' | Err d => (Err d, s') end.
Proof.
  exists (mkPullState (ps_portal s) (ps_buffered_rows s) (ps_pending s) (ps_now s + 1)). unfold mbind, check_pull.
  destruct (check_timeout timeout (ps_now s)) as [[]|d]; by split_and!.
Qed.

Lemma check_reliable now d : check_timeout timeout now = Err d -> ~ reliable.
Proof. intros E (_ & Ht & _). specialize (Ht now). congruence. Qed.

Lemma to_come_same s s' rows : ps_pending s' = ps_pending s -> ps_buffered_rows s' = ps_buffered_rows s -> ps_portal s' = ps_portal s ->
  to_come s rows -> to_come s' rows.
Proof. intros Hp Hb Ho (rest & -> & H). exists rest. unfold held. by rewrite Hp, Hb, Ho. Qed.

Lemma pull_rows_gives room : forall batch bytes s rows, to_come s rows ->
  match pull_rows room batch bytes s with
  | (Ok batch', s') => exists added rows', batch' = batch ++ added /\ rows = added ++ rows' /\ to_come s' rows' /\ (batch' = [] -> room <> O -> rows = [])
  | (Err _, _) => ~ (reliable /\ Forall (row_fits limits) rows)
  end.
Proof.
  induction room as [|room IH]; intros batch bytes s rows H.
  { cbn. exists [], rows. rewrite app_nil_r. done. }
  cbn [PgRuntime.pull_rows]. destruct (check_pull_then (let! next := next_row compiled options (S room) in
      match next with
      | None => mret batch
      | Some decoded =>
          mlift (enforce_single_row_byte_limit limits (execution_row_bytes decoded)) ;;!
          if match batch with [] => false | _ => true end && over_byte_limit limits (sat_add bytes (execution_row_bytes decoded))
          then mtry (fun s => Ok (set_pg_pending s (Some decoded))) ;;! mret batch
          else pull_rows room (batch ++ [decoded]) (sat_add bytes (execution_row_bytes decoded))
      end) s) as (s1 & Hp & Hb & Ho & E).
  cbv zeta. rewrite E. destruct (check_timeout timeout (ps_now s)) as [[]|d] eqn:Et; [|intros [Hr _]; by apply (check_reliable _ _ Et)].
  apply (to_come_same s s1) in H; [|done..]. pose proof (next_row_gives (S room) s1 rows H) as Hn. unfold mbind at 1.
  destruct (next_row compiled options (S room) s1) as [[[row|]|d] s2]; [| |by intros [Hr _]].
  2: { destruct Hn as (-> & H2 & _). cbn. exists [], []. rewrite app_nil_r. done. }
  destruct Hn as (rows' & -> & H2 & Hp2). unfold mbind at 1, mlift. unfold enforce_single_row_byte_limit.
  destruct (over_byte_limit limits (execution_row_bytes row)) eqn:Eo; cbn [negb guard error].
  { intros [_ Hf]. apply Forall_cons in Hf as [Hf _]. apply fits_not_over in Hf. congruence. }
  destruct (_ && _) eqn:Eb.
  - unfold mbind, mtry, mret. exists [], (row :: rows'). rewrite app_nil_r. split_and!; [done|done| |by intros ->].
    destruct H2 as (rest & Er & H2). exists rest. unfold held in *. rewrite Hp2 in Er. cbn in Er |- *. by subst.
  - specialize (IH (batch ++ [row]) (sat_add bytes (execution_row_bytes row)) s2 rows' H2).
    destruct (pull_rows room _ _ s2) as [[batch'|d] s3].
    + destruct IH as (added & rest & -> & -> & H3 & _). exists (row :: added), rest. rewrite <- app_assoc. split_and!; [done..|]. by intros [_ ?]%app_nil.
    + intros [Hr Hf]. apply IH. by apply Forall_cons in Hf as [_ Hf].
Qed.

Lemma empty_or_rejected s rows : to_come s rows ->
  match prove_empty_or_reject compiled s with
  | (Ok o, s') => o = None /\ rows = []
  | (Err _, _) => ~ (reliable /\ rows = [])
  end.
Proof.
  intros (rest & -> & H). unfold prove_empty_or_reject, held. rewrite mget_then. destruct (ps_pending s) as [row|]; cbn [is_some].
  { cbn. by intros [_ ?]. }
  unfold mbind at 1, mlift at 1. unfold mbind at 1, pop_buffered. destruct (ps_buffered_rows s) as [|row buffered] eqn:Eb; cbn [app] in *.
  - pose proof (fetch_page_gives 1 s ltac:(lia)) as Hf. unfold mbind. destruct (fetch_page 1 s) as [[page|d] s']; [|by intros [Hr _]].
    destruct Hf as (Er & He & _). destruct page as [|row page]; cbn.
    + rewrite Er, (He eq_refl) in H. apply Forall2_nil_inv_l in H as ->. done.
    + rewrite Er in H. apply Forall2_cons_inv_l in H as (out & rest' & Hd & _ & ->). unfold mlift. rewrite Hd. by intros [_ ?].
  - apply Forall2_cons_inv_l in H as (out & rest' & Hd & _ & ->). unfold mbind, mret, mlift. rewrite Hd. by intros [_ ?].
Qed.

(** One pull. *)
Lemma pull_batch_gives s rows : to_come s rows ->
  match pull_batch s with
  | (Ok None, _) => rows = []
  | (Ok (Some b), s') => exists rows', rows = eb_rows b ++ rows' /\ eb_rows b <> [] /\ to_come s' rows'
  | (Err _, _) => ~ (reliable /\ Forall (row_fits limits) rows)
  end.
Proof.
  intros H. unfold PgRuntime.pull_batch. match goal with |- context [(check_pull timeout ;;! ?m) s] => destruct (check_pull_then m s) as (s1 & Hp & Hb & Ho & E) end.
  rewrite E. destruct (check_timeout timeout (ps_now s)) as [[]|d] eqn:Et; [|intros [Hr _]; by apply (check_reliable _ _ Et)].
  apply (to_come_same s s1) in H; [|done..]. destruct (Nat.eqb_spec (materialized_row_target options) 0) as [Ez|Ez].
  - pose proof (empty_or_rejected s1 rows H) as He. destruct (prove_empty_or_reject compiled s1) as [[[b|]|d] s2]; [by destruct He|by destruct He|].
    intros [(_ & _ & Hz) _]. done.
  - pose proof (pull_rows_gives (materialized_row_target options) [] 0 s1 rows H) as Hr. unfold mbind.
    destruct (pull_rows _ [] 0 s1) as [[batch|d] s2]; [|done]. destruct Hr as (added & rows' & -> & -> & H2 & He). cbn [app] in *.
    destruct added as [|row added]; cbn.
    + by apply He.
    + exists rows'. by split_and!.
Qed.

(** ** The pulls of a sequential stream *)
Definition batches_then (batches : list ExecutionBatch) (tail : list Response) : list Response := map (fun b => Ok (Some b)) batches ++ tail.

(** What a stream still has to give, or how it ended. *)
Definition seq_stands (q : SeqStream) (tail : list Response) (rows : list ExecutionRow) : Prop :=
  (sq_done q = false /\ tail = [] /\ to_come (sq_state q) rows) \/
  (sq_done q = true /\ rows = [] /\ exists k, tail = repeat (Ok None) (S k)) \/
  (sq_done q = true /\ ~ (reliable /\ Forall (row_fits limits) rows) /\ exists d k, tail = Err d :: repeat (Ok None) k).

Lemma repeat_snoc {A} (x : A) k : repeat x k ++ [x] = repeat x (S k).
Proof. induction k as [|k IH]; [done|]. cbn [repeat app]. by rewrite IH. Qed.

Lemma seq_pulls q0 rows calls : sq_done q0 = false -> sq_cancelled q0 = false -> to_come (sq_state q0) rows -> Forall (fun c => c = NextBatch) calls ->
  exists batches tail rows', snd (seq_calls compiled options timeout q0 calls) = batches_then batches tail /\
    rows = concat (map eb_rows batches) ++ rows' /\ Forall (fun b => eb_rows b <> []) batches /\
    sq_cancelled (fst (seq_calls compiled options timeout q0 calls)) = false /\ seq_stands (fst (seq_calls compiled options timeout q0 calls)) tail rows'.
Proof.
  intros Hd Hc H. induction calls as [|call calls IH] using rev_ind; intros Hn.
  { exists [], [], rows. cbn. split_and!; try done. by left. }
  apply Forall_app in Hn as [Hn [-> _]%Forall_cons]. destruct (IH Hn) as (batches & tail & rows' & El & Er & Hne & Hc' & Hs). clear IH.
  rewrite seq_calls_snoc. destruct (seq_calls compiled options timeout q0 calls) as [q log]. cbn [fst snd seq_call] in *. subst log. unfold seq_next_batch. rewrite Hc', orb_false_r.
  destruct Hs as [(Hq & -> & Ht)|[(Hq & -> & k & ->)|(Hq & Hnot & d & k & ->)]]; rewrite Hq.
  - pose proof (pull_batch_gives (sq_state q) rows' Ht) as Hp. destruct (pull_batch (sq_state q)) as [[[b|]|d] state']; cbn [fst snd terminal].
    + destruct Hp as (rest & -> & Hb & Ht'). exists (batches ++ [b]), [], rest. unfold batches_then. rewrite !map_app, concat_app, !app_nil_r, <- !app_assoc. cbn.
      rewrite app_nil_r. split_and!; try done; [by apply Forall_app; split; [|constructor]|]. by left.
    + subst rows'. exists batches, [Ok None], []. unfold batches_then. rewrite app_nil_r. split_and!; try done. right. left. split_and!; try done. by exists O.
    + exists batches, [Err d], rows'. unfold batches_then. rewrite app_nil_r. split_and!; try done. right. right. split_and!; try done. by exists d, O.
  - exists batches, (repeat (Ok None) (S (S k))), []. unfold batches_then. rewrite <- app_assoc, repeat_snoc. cbn [fst snd]. split_and!; try done.
    right. left. split_and!; try done. by exists (S k).
  - exists batches, (Err d :: repeat (Ok None) (S k)), rows'. unfold batches_then. rewrite <- app_assoc. cbn [fst snd app]. rewrite repeat_snoc. split_and!; try done.
    right. right. split_and!; try done. by exists d, (S k).
Qed.

Lemma seq_pulls_length q0 calls : Forall (fun c => c = NextBatch) calls -> length (snd (seq_calls compiled options timeout q0 calls)) = length calls.
Proof.
  induction calls as [|call calls IH] using rev_ind; [done|]. intros [Hn [-> _]%Forall_cons]%Forall_app. rewrite seq_calls_snoc.
  specialize (IH Hn). destruct (seq_calls compiled options timeout q0 calls) as [q log]. cbn [seq_call fst snd] in *. destruct (seq_next_batch _ _ _ q) as [r q'].
  cbn [snd]. by rewrite !length_app, IH.
Qed.

Lemma batches_end batches tail batches' : batches_then batches tail = batches_then batches' [Ok None] ->
  match tail with [] => False | r :: _ => terminal r = true end -> batches' = batches /\ tail = [Ok None].
Proof.
  revert batches'. induction batches as [|b batches IH]; intros [|b' batches'] H Ht; cbn in *.
  - done.
  - by destruct tail as [|r tail]; [|injection H as -> _].
  - done.
  - injection H as <- H. by destruct (IH batches' H Ht) as [-> ->].
Qed.
End Pulling.

(** ** The engine *)
Section Engine.
Context {F : Foreign} {Q : Subqueries} {P : Postgres} {L : PostgresLaws P} {D : PgDriver F} {PQ : PostgresQueries} {QL : QueryLaws}
  {G : PgServer D} {GL : PgServerLaws G}.
Context (db : Database).

(** The server answers a statement from these tables: a portal of its text and
    binds has the rows that it means. *)
Definition serves (query : Query) (binds : list SqlBind) : Prop := forall t t' client statement portal encoded,
  encode_binds binds = Ok encoded -> pg_prepare t client (render_query query) (map eb_ty encoded) = Done statement ->
  pg_bind t' client statement (map eb_value encoded) = Done portal -> portal_rows portal ≡ₚ pg_result db binds query.

(** A portal of the compiled statement on a client, from time [opened] on: a
    transaction, the statement prepared in it and bound to the encoded binds. *)
Definition opened_on (client : PgClient) (compiled : CompiledQuery) (opened : nat) (portal : PgPortal) : Prop :=
  exists prepared bound statement encoded, (opened < prepared < bound)%nat /\ encode_binds (cq_binds compiled) = Ok encoded /\
    pg_begin opened client = Done tt /\ pg_prepare prepared client (cq_sql compiled) (map eb_ty encoded) = Done statement /\
    statement_params statement = length encoded /\ pg_bind bound client statement (map eb_value encoded) = Done portal.

Lemma open_portal_steps runtime catalog plan compiled timeout now portal now' : open_portal runtime catalog plan compiled timeout now = (Ok portal, now') ->
  exists client encoded t, initialize runtime catalog plan compiled timeout now = (Ok (client, encoded), t) /\ opened_on client compiled t portal.
Proof.
  unfold open_portal. intros ([client encoded] & t1 & Hi & H)%mbind_ok. apply mbind_ok in H as ([] & t2 & Hb & H). apply mbind_ok in H as (statement & t3 & Hp & H).
  apply check_lift_then in H as [Hn%guard_ok%Nat.eqb_eq H]. unfold driven in Hb, Hp, H. destruct (pg_begin t1 client) as [[]|] eqn:Et; [|done]. injection Hb as <-.
  destruct (pg_prepare _ client _ _) as [st|] eqn:Ep; [|done]. injection Hp as -> <-. destruct (pg_bind _ client _ _) as [p|] eqn:Eb; [|done]. injection H as -> <-.
  exists client, encoded, t1. split; [done|]. exists (t1 + 1)%nat, (t1 + 1 + 1)%nat, statement, encoded. split; [lia|]. split; [|done].
  unfold initialize in Hi. apply mbind_ok in Hi as (client' & ? & _ & Hi). do 4 (apply mbind_ok in Hi as ([] & ? & _ & Hi)).
  apply mlift_then in Hi as (binds & Hb & Hi). apply mret_ok in Hi as [Hi _]. by injection Hi as _ <-.
Qed.

Lemma open_portal_ok runtime catalog plan compiled timeout now portal now' : open_portal runtime catalog plan compiled timeout now = (Ok portal, now') ->
  exists t t' client statement encoded, encode_binds (cq_binds compiled) = Ok encoded /\
    pg_prepare t client (cq_sql compiled) (map eb_ty encoded) = Done statement /\ pg_bind t' client statement (map eb_value encoded) = Done portal.
Proof. intros (client & _ & t & _ & prepared & bound & statement & encoded & _ & He & _ & Hp & _ & Hb)%open_portal_steps. eauto 10. Qed.

Lemma execute_plan_parts e plan parameters options x : postgres_execute_plan e plan parameters options = Ok x ->
  postgres_compile (pge_catalog e) plan parameters = Ok (pgx_compiled x) /\ pge_runtime e = Some (pgx_runtime x) /\ postgres_open plan options = Ok (pgx_stream x).
Proof.
  intros (runtime & Hr%ok_or_ok & He)%rbind_ok. apply check_then in He as [_ He]. apply rbind_ok in He as (placement & _ & He).
  by apply check_then in He as [_ (compiled & Hc & (st & Hs & [= <-])%rbind_ok)%rbind_ok].
Qed.

(** C4: PostgreSQL streams compute what the memory executor computes: over a
    server with the laws whose tables store the tables of the memory engine,
    when the engine runs a typed plan without slices whose order comparisons
    are not of truth values, and the memory executor returns rows for it, then
    in every schedule of the client and the worker, a client that pulls until
    the end has got the same rows, up to their order; and if neither the
    driver nor the clock fails and the rows fit the limits, every pull succeeds
    and one pull per row and a last one reach the end. *)
Theorem postgres_stream_refines_memory e plan parameters options timeout x tables batch_rows stream calls s :
  postgres_execute_plan e plan parameters options = Ok x ->
  (forall query, postgres_statement (pge_catalog e) plan parameters = Ok query -> serves query (cq_binds (pgx_compiled x))) ->
  plan_typed plan -> Forall (source_stored db (pge_catalog e) tables) (plan_nodes plan) -> forallb slice_free (plan_nodes plan) = true ->
  forallb orders_values (plan_nodes plan) = true -> Forall bind_storable (cq_binds (pgx_compiled x)) ->
  execute tables plan parameters (eo_limits options) batch_rows = Ok stream ->
  run (pgx_runtime x) (pge_catalog e) plan (pgx_compiled x) options timeout calls s -> Forall (fun c => c = NextBatch) calls -> st_phase s = CReady ->
  (forall batches, st_log s = batches_then batches [Ok None] -> concat (map eb_rows batches) ≡ₚ ms_rows stream) /\
  (reliable options timeout -> (forall max, max_materialized_bytes (eo_limits options) = Some max -> max < u64_max) ->
   Forall (fun r => is_ok r = true) (st_log s) /\ ((length (ms_rows stream) < length calls)%nat -> st_done s = true)).
Proof.
  intros He Hserve Ht Hst Hs Ho Hbinds Hx R Hn Hphase. destruct (open_portal (pgx_runtime x) (pge_catalog e) plan (pgx_compiled x) timeout 0%nat) as [[portal|d] now] eqn:Eo.
  2: { destruct (run_fails _ _ _ _ _ _ _ _ _ _ Eo R) as (_ & _ & H). by rewrite Hphase in H. }
  destruct (execute_plan_parts _ _ _ _ _ He) as (Hc & _ & _).
  destruct (statement_refines_memory db (pge_catalog e) tables plan parameters (eo_limits options) batch_rows (pgx_compiled x) stream Ht Hst Hs Ho Hc Hbinds Hx)
    as (query & rows & Hstm & Hq & Hr & H2).
  destruct (open_portal_ok _ _ _ _ _ _ _ _ Eo) as (t & t' & client & statement & encoded & Henc & Hprep & Hbind). rewrite Hq in Hprep.
  pose proof (Hserve query Hstm _ _ _ _ _ _ Henc Hprep Hbind) as Hportal. rewrite <- Hr in Hportal. symmetry in Hportal.
  destruct (Permutation_Forall2 Hportal H2) as (out & Hout & H2').
  pose proof (run_simulates _ _ _ _ _ _ _ _ Eo _ _ R) as Hsim. unfold simulates in Hsim. rewrite Hphase in Hsim. destruct Hsim as [(Hlog & Hdone & _ & _) _].
  destruct (seq_pulls (pgx_compiled x) options timeout (seq_new portal now) out calls eq_refl eq_refl) as (batches & tail & rows' & El & Er & Hne & _ & Hstands);
    [by exists out|done|].
  rewrite El in Hlog. rewrite Hlog. split.
  - intros batches' E. apply batches_end in E as [-> ->].
    + rewrite Hout, Er. destruct Hstands as [(_ & ? & _)|[(_ & -> & _)|(_ & _ & d & k & ?)]]; [done|by rewrite app_nil_r|done].
    + destruct Hstands as [(_ & -> & _)|[(_ & _ & k & ->)|(_ & _ & d & k & ->)]]; try done. exfalso. clear - E.
      assert (K : Forall (fun r => terminal r = false) (batches_then batches [])) by (unfold batches_then; rewrite app_nil_r; by apply Forall_fmap, Forall_true).
      rewrite E in K. apply Forall_app in K as [_ K]. by inversion K.
  - intros Hrel Hmax. assert (Hfit : Forall (row_fits (eo_limits options)) out) by (rewrite <- Hout; by eapply executed_rows_fit).
    rewrite Er in Hfit. apply Forall_app in Hfit as [_ Hfit].
    assert (Hb : Forall (fun r : Response => is_ok r = true) (map (fun b => Ok (Some b)) batches)) by (apply Forall_fmap; by apply Forall_true).
    destruct Hstands as [(Hq' & -> & _)|[(Hq' & -> & k & ->)|(_ & Hnot & _)]]; [..|by destruct Hnot].
    + split; [unfold batches_then; by rewrite app_nil_r|]. intros Hl. exfalso.
      pose proof (seq_pulls_length (pgx_compiled x) options timeout (seq_new portal now) calls Hn) as Elen. rewrite El in Elen. unfold batches_then in Elen.
      rewrite app_nil_r, length_map in Elen. rewrite Hout, Er, length_app in Hl.
      assert (length batches <= length (concat (map eb_rows batches)))%nat; [|lia]. clear - Hne. induction Hne as [|b bs Hb _ IH]; [done|]. cbn. rewrite length_app.
      destruct (eb_rows b); [done|]. cbn. lia.
    + split; [|by rewrite Hdone]. unfold batches_then. apply Forall_app. split; [done|]. apply Forall_forall. by intros r ->%list_elem_of_In%repeat_spec.
Qed.

(** ** What is checked before anything is read *)
(** Configurations as the public constructors build them. *)
Inductive built : PostgresRuntimeConfig -> Prop :=
| built_parse value runtime : runtime_parse value = Ok runtime -> built runtime
| built_pem runtime pem runtime' : built runtime -> with_trusted_ca_pem runtime pem = Ok runtime' -> built runtime'
| built_file now runtime path runtime' : built runtime -> with_trusted_ca_file now runtime path = Ok runtime' -> built runtime'.

Lemma built_tls runtime : built runtime -> config_ssl_mode (prc_config runtime) = SslRequire.
Proof.
  induction 1 as [value runtime (config & _ & [H [= <-]]%check_then)%rbind_ok|runtime pem runtime' _ IH (cs & _ & [_ [= <-]]%check_then)%rbind_ok
    |now runtime path runtime' _ IH (pem & _ & (cs & _ & [_ [= <-]]%check_then)%rbind_ok)%rbind_ok]; [|done..]. cbn. by apply guard_ok, bool_decide_eq_true in H.
Qed.

(** The base type of PostgreSQL for each representation: the smallest integer
    type that holds it, or a number of any size. *)
Inductive base_type : ScalarRepr -> string -> Prop :=
| base_bool : base_type RBool "bool"
| base_truth : base_type RTruth "int2"
| base_int2 bits : bits <= 16 -> base_type (RInt bits) "int2"
| base_int4 bits : 16 < bits <= 32 -> base_type (RInt bits) "int4"
| base_int8 bits : 32 < bits <= 64 -> base_type (RInt bits) "int8"
| base_wide bits : 64 < bits -> base_type (RInt bits) "numeric"
| base_unsigned bits : base_type (RUInt bits) "numeric"
| base_decimal : base_type RDecimal "numeric"
| base_float4 : base_type RFloat32 "float4"
| base_float8 : base_type RFloat64 "float8"
| base_char : base_type RChar "text"
| base_text : base_type RString "text"
| base_bytea : base_type RBytes "bytea"
| base_uuid : base_type RUuid "uuid"
| base_date : base_type RDate "date".

Lemma catalog_type_base ty expected : postgres_catalog_type ty = Ok expected -> exists r, ty_shape ty = ShScalar r /\ base_type r expected.
Proof.
  unfold postgres_catalog_type, scalar_repr. destruct (ty_shape ty) as [r| | | |]; try done. intros H. exists r. split; [done|].
  destruct r as [| |bits|bits| | | | | | | | | | | |]; cbn [rbind] in H; try (injection H as <-; by constructor);
    try (by apply rbind_ok in H as (? & _ & [=])).
  injection H as <-. destruct (Z.leb_spec bits 16); [by constructor|]. destruct (Z.leb_spec bits 32); [by constructor|].
  destruct (Z.leb_spec bits 64); by constructor.
Qed.

(** A field whose columns can hold exactly its datums. *)
Definition live_field (mapping : TableMapping) (columns : list (string * PhysicalColumn)) (field : FieldDef) : Prop :=
  exists column value r, field_mapping mapping (fd_key field) = Some column /\ bt_get (cm_value column) columns = Some value /\
    ty_shape (fd_ty field) = ShScalar r /\ base_type r (ph_type_name value) /\ ph_base_type value = true /\
    (is_nullable (fd_ty field) = false -> ph_not_null value = true) /\
    forall name, cm_presence column = Some name -> exists presence, bt_get name columns = Some presence /\
      ph_type_name presence = "bool"%stdpp /\ ph_not_null presence = true /\ ph_base_type presence = true.

Lemma field_columns_ok mapping columns field : validate_field_columns mapping columns field = Ok tt -> live_field mapping columns field.
Proof.
  intros (column & Hc%ok_or_ok & (value & Hv%ok_or_ok & [H Hp]%check_then)%rbind_ok)%rbind_ok.
  apply rbind_ok in H as (expected & He & [H1%guard_ok H2%guard_ok]%check_then). apply andb_true_iff in H1 as [H1%String.eqb_eq H3].
  destruct (catalog_type_base _ _ He) as (r & Hr & Hbase). exists column, value, r. split_and!; try done; [by rewrite H1|..].
  - intros Hn. rewrite Hn in H2. by destruct (ph_not_null value).
  - intros name E. rewrite E in Hp. apply rbind_ok in Hp as (presence & Hg%ok_or_ok & H%guard_ok). exists presence.
    apply andb_true_iff in H as [[H%String.eqb_eq Hn]%andb_true_iff Hb]. done.
Qed.

(** A table that the database had, with these columns, when it was asked
    between two times. *)
Definition live_table (client : PgClient) (catalog : PostgresCatalog) (after before : nat) (model : ModelDef) : Prop :=
  exists mapping t rows columns, postgres_table catalog model = Ok mapping /\ (after <= t < before)%nat /\
    pg_query t client columns_query [SqlString (Some (tm_schema mapping)); SqlString (Some (tm_table mapping))] = Done rows /\ rows <> [] /\
    foldR physical_column rows [] = Ok columns /\ Forall (live_field mapping columns) (md_fields model).

Lemma live_table_within client catalog after before after' before' model : (after' <= after)%nat -> (before <= before')%nat ->
  live_table client catalog after before model -> live_table client catalog after' before' model.
Proof. intros Ha Hb (mapping & t & rows & columns & Hm & Ht & H). exists mapping, t, rows, columns. split; [done|]. split; [lia|done]. Qed.

Lemma driven_ok {A} (call : nat -> Driven A) failure now a now' : driven call failure now = (Ok a, now') -> call now = Done a /\ now' = (now + 1)%nat.
Proof. unfold driven. destruct (call now); [by intros [= -> <-]|done]. Qed.

Lemma validate_table_ok client catalog model mapping now now' : postgres_table catalog model = Ok mapping ->
  validate_table client model mapping now = (Ok tt, now') -> live_table client catalog now now' model /\ now' = (now + 1)%nat.
Proof.
  intros Hm H. apply mbind_ok in H as (rows & t1 & [Hq ->]%driven_ok & H). apply check_lift_then in H as [Hr%guard_ok H]. apply mlift_then in H as (columns & Hc & H).
  apply mlift_ok in H as [H ->]. split; [|done].
  exists mapping, now, rows, columns. split_and!; try done; [lia..|by intros ->|]. apply forR_ok in H. eapply Forall_impl; [exact H|]. intros field. apply field_columns_ok.
Qed.

Lemma validate_sources_ok client catalog nodes : forall validated now now', validate_sources client catalog nodes validated now = (Ok tt, now') ->
  (now <= now')%nat /\ forall model alias, NSource model alias ∈ nodes ->
    md_key model ∈ validated \/ exists model' alias', NSource model' alias' ∈ nodes /\ md_key model' = md_key model /\ live_table client catalog now now' model'.
Proof.
  induction nodes as [|node nodes IH]; intros validated now now' H.
  { apply mret_ok in H as [_ ->]. split; [done|]. by intros model alias Hin%elem_of_nil. }
  assert (Hskip : validate_sources client catalog nodes validated now = (Ok tt, now') ->
    (forall model alias, node = NSource model alias -> md_key model ∈ validated) -> (now <= now')%nat /\ forall model alias, NSource model alias ∈ node :: nodes ->
    md_key model ∈ validated \/ exists model' alias', NSource model' alias' ∈ node :: nodes /\ md_key model' = md_key model /\ live_table client catalog now now' model').
  { intros [Hle Hn]%IH Hseen. split; [done|]. intros model alias [E|Hin]%elem_of_cons; [left; by eapply Hseen|].
    destruct (Hn model alias Hin) as [?|(m & al & Hm & Hk & Hl)]; [by left|]. right. exists m, al. split_and!; [by right|done..]. }
  destruct node as [m al| | | | | | | | | |]; cbn [validate_sources] in H; try (apply Hskip; [exact H|discriminate]).
  destruct (existsb _ validated) eqn:Ex.
  { apply Hskip; [exact H|]. intros model alias [= <- <-]. apply existsb_exists in Ex as (k & Hk & ->%String.eqb_eq). by apply list_elem_of_In. }
  clear Hskip. apply mlift_then in H as (mapping & Hm & H). apply mbind_ok in H as ([] & t1 & [Ht ->]%(validate_table_ok _ _ _ _ _ _ Hm) & [Hle Hrest]%IH).
  split; [lia|]. intros model alias Hin. assert (Hself : md_key model = md_key m -> exists model' alias', NSource model' alias' ∈ NSource m al :: nodes /\
    md_key model' = md_key model /\ live_table client catalog now now' model').
  { intros Ek. exists m, al. split_and!; [by left|done|]. revert Ht. apply live_table_within; lia. }
  apply elem_of_cons in Hin as [E|Hin]; [right; apply Hself; by injection E as -> _|].
  destruct (Hrest _ _ Hin) as [[Hk|Hk]%elem_of_cons|(m' & al' & Hm' & Hk & Hl)]; [by right; apply Hself|by left|]. right.
  exists m', al'. split_and!; [by right|done|]. revert Hl. apply live_table_within; lia.
Qed.

Lemma show_setting_ok client setting now value now' : show_setting client setting now = (Ok value, now') -> now' = (now + 1)%nat /\
  exists sql row, pg_query_one now client sql [] = Done row /\ try_get get_string row 0 schema_driver_error = Ok value /\
    (setting = "server_encoding"%stdpp -> sql = "SHOW server_encoding"%stdpp).
Proof.
  intros (sql & Hs & H)%mlift_then. apply mbind_ok in H as (row & t & [Hq ->]%driven_ok & H). apply mlift_ok in H as [Hr ->]. split; [done|].
  exists sql, row. split_and!; [done..|]. intros ->. by injection Hs as <-.
Qed.

Lemma validate_session_ok client now now' : validate_session client now = (Ok tt, now') -> now' = (now + 1 + 1)%nat /\
  exists row, pg_query_one now client "SHOW server_encoding" [] = Done row /\ try_get get_string row 0 schema_driver_error = Ok "UTF8"%stdpp.
Proof.
  intros (encoding & t1 & [-> (sql & row & Hq & Hr & Es)]%show_setting_ok & H)%mbind_ok. apply check_lift_then in H as [->%guard_ok%String.eqb_eq H].
  apply mbind_ok in H as (identifier & t2 & [-> _]%show_setting_ok & H). apply mlift_then in H as (n & _ & H). apply mlift_ok in H as [_ ->].
  split; [done|]. exists row. by rewrite <- Es.
Qed.

Lemma configure_timeout_later client timeout now now' : configure_timeout client timeout now = (Ok tt, now') -> (now <= now')%nat.
Proof.
  unfold configure_timeout. destruct timeout as [timeout|]; [|by intros [_ ->]%mret_ok]. intros (requested & _ & H)%mlift_then.
  apply mbind_ok in H as (row & t1 & [_ ->]%driven_ok & H). apply mlift_then in H as (current & _ & H). apply check_lift_then in H as [_ H].
  apply mbind_ok in H as (row' & t2 & [_ ->]%driven_ok & H). apply mret_ok in H as [_ ->]. lia.
Qed.

Lemma check_now_later timeout now now' : check_now timeout now = (Ok tt, now') -> now' = (now + 1)%nat.
Proof. unfold check_now. by intros [= _ <-]. Qed.

(** C30: a stream reads only over TLS and from tables that were checked, on one
    connection: for a configuration made by the constructors, an open portal is
    a bound statement of the compiled text on a client that was connected
    before by a configuration that requires TLS with the trusted certificates;
    between its connection and its transaction this client was told by the
    server that it is encoded in UTF-8, and for every source of the plan it
    was told the columns of the mapped table, which fit the fields of the
    model: each has the type's own base type, is never null for a type without
    null, and the presence column, where the mapping has one, is a boolean
    that is never null. *)
Theorem postgres_reads_validated runtime catalog plan compiled timeout now portal now' :
  built runtime -> open_portal runtime catalog plan compiled timeout now = (Ok portal, now') ->
  config_ssl_mode (prc_config runtime) = SslRequire /\
  exists client connected opened,
    (exists connect_timeout tls, pg_connect connected (prc_config runtime) connect_timeout tls = Some client /\
       tls_connector (config_ssl_negotiation (prc_config runtime)) (prc_trusted_ca runtime) = Ok tls) /\
    (exists t row, (connected < t < opened)%nat /\ pg_query_one t client "SHOW server_encoding" [] = Done row /\
       try_get get_string row 0 schema_driver_error = Ok "UTF8"%stdpp) /\
    (forall model alias, NSource model alias ∈ plan_nodes plan ->
       exists model' alias', NSource model' alias' ∈ plan_nodes plan /\ md_key model' = md_key model /\
         live_table client catalog (S connected) opened model') /\
    opened_on client compiled opened portal.
Proof.
  intros Hb (client & encoded & opened & Hi & Hopen)%open_portal_steps. split; [by apply built_tls|].
  unfold initialize in Hi. apply mbind_ok in Hi as (client' & t2 & Hconn & Hi). apply mbind_ok in Hi as ([] & t3 & L3%configure_timeout_later & Hi).
  apply mbind_ok in Hi as ([] & t4 & L4%check_now_later & Hi). apply mbind_ok in Hi as ([] & t5 & Hlive & Hi). apply mbind_ok in Hi as ([] & t6 & L6%check_now_later & Hi).
  apply mlift_then in Hi as (binds & _ & Hi). apply mret_ok in Hi as [Hi ->]. injection Hi as -> _.
  apply mlift_then in Hconn as (tls & Htls & [Hconn ->]%driven_ok).
  apply mbind_ok in Hlive as ([] & t7 & [L7 (row & Hq & Hr)]%validate_session_ok & [L5 Hs]%validate_sources_ok).
  exists client', now, t6. split_and!; [|exists t4, row; split; [lia|done]| |done].
  - destruct (pg_connect now _ _ tls) as [c|] eqn:E; [|done]. injection Hconn as ->. eauto.
  - intros model alias Hin. destruct (Hs model alias Hin) as [Hn|(m & al & Hm & Hk & Hl)]; [by apply elem_of_nil in Hn|].
    exists m, al. split_and!; [done..|]. revert Hl. apply live_table_within; lia.
Qed.
End Engine.

(** ** A run of the sample plan *)
#[local] Existing Instances sample_foreign FragmentSemantics.fragment_postgres FragmentSemantics.fragment_laws.
#[local] Existing Instances FragmentQueries.fragment_driver FragmentQueries.fragment_queries FragmentQueries.fragment_query_laws.

Module ServerSample.
Import FragmentQueries PostgresSample.

Definition query : Query := match postgres_statement catalog plan wanted with Ok q => q | Err _ => QSource [] EmptyString EmptyString EmptyString end.
Definition binds : list SqlBind := match postgres_compile catalog plan wanted with Ok c => cq_binds c | Err _ => [] end.

Definition text (s : string) : TextCell := (true, Some (SData (VString s))).
Definition logic (b : bool) : TextCell := (false, Some (SLogic b)).

(** The rows of [pg_attribute] for the table. *)
Definition attributes : list (list TextCell) :=
  [[text "id"; text "int8"; logic true; text "b"];
   [text "mail"; text "text"; logic false; text "b"];
   [text "has mail"; text "bool"; logic true; text "b"]].

(** A server for the statement of the sample plan: connections and
    configurations hold nothing, a portal is the list of its rows. *)
#[global] Instance server : PgServer fragment_driver := {|
  PgConfig := unit;
  config_from_str := fun _ => Some tt;
  config_ssl_mode := fun _ => SslRequire;
  config_ssl_negotiation := fun _ => SslPostgres;
  config_connect_timeout := fun _ => None;
  Certificate := unit;
  certificates_from_pem := fun _ => None;
  TlsConnector := unit;
  build_tls := fun _ _ => Some tt;
  read_file := fun _ _ => None;
  PgClient := unit;
  PgStatement := nat;
  PgPortal := list (PgRow (D:=fragment_driver));
  pg_connect := fun _ _ _ _ => Some tt;
  pg_query := fun _ _ _ _ => Done attributes;
  pg_query_one := fun _ _ sql _ => if String.eqb sql "SHOW server_encoding" then Done [text "UTF8"] else Done [text "63"];
  pg_begin := fun _ _ => Done tt;
  pg_prepare := fun _ _ _ types => Done (length types);
  statement_params := id;
  pg_bind := fun _ _ _ _ => Done (pg_result db binds query);
  query_portal := fun _ rows n => Done (take (Z.to_nat n) rows, drop (Z.to_nat n) rows);
  elapsed := fun _ => 0;
  spawn_worker := true
|}.

#[global] Instance server_laws : PgServerLaws server.
Proof.
  refine {| portal_rows := id : @PgPortal _ _ server -> list (PgRow (D:=fragment_driver)) |}. intros t p n page p' [= <- <-] Hn. unfold id. split_and!.
  - by rewrite take_drop.
  - unfold zlen. rewrite length_take. lia.
  - intros H. apply (f_equal length) in H. rewrite length_take in H. destruct p; [done|]. cbn in H. lia.
Defined.

Definition runtime : PostgresRuntimeConfig := mkPostgresRuntimeConfig (tt : PgConfig) None.
Definition options : ExecutionOptions := mkExecutionOptions limits RemoteOnly 8.
Definition engine : PostgresEngine := postgres_with_runtime "1" catalog runtime.
Definition execution : Result PostgresExecution := postgres_execute_plan engine plan wanted options.

(** The worker goes first. *)
Fixpoint drive (x : PostgresExecution) (fuel : nat) (s : PostgresStream) : PostgresStream :=
  match fuel with
  | O => s
  | S fuel =>
      match worker_turn (pgx_runtime x) catalog plan (pgx_compiled x) options None s with
      | Some s' => drive x fuel s'
      | None => match client_turn s with Some s' => drive x fuel s' | None => s end
      end
  end.

Definition pull (x : PostgresExecution) (s : PostgresStream) : PostgresStream :=
  match start_call NextBatch s with Some s' => drive x 5 s' | None => s end.

Definition opened (x : PostgresExecution) : PostgresStream := drive x 2 (pgx_stream x).
Definition pulled (x : PostgresExecution) : PostgresStream := pull x (pull x (opened x)).

(** The number of rows that each pull has returned. *)
Definition sizes (s : PostgresStream) : list (option nat) :=
  map (fun r : Response => match r with Ok (Some b) => Some (length (eb_rows b)) | _ => None end) (st_log s).
Definition ready (s : PostgresStream) : bool := match st_phase s with CReady => true | _ => false end.

Lemma run_result : (let? x := execution in Ok (ready (opened x), ready (pull x (opened x)), ready (pulled x), sizes (pulled x), forallb is_ok (st_log (pulled x)))) =
  Ok (true, true, true, [Some 2%nat; None], true).
Proof. vm_compute. reflexivity. Qed.

Lemma execution_ok : is_ok execution = true.
Proof. vm_compute. reflexivity. Qed.

Lemma execution_parts x : execution = Ok x -> postgres_compile catalog plan wanted = Ok (pgx_compiled x) /\ pgx_runtime x = runtime /\ postgres_open plan options = Ok (pgx_stream x).
Proof.
  intros (Hc & Hr & Ho)%execute_plan_parts. split_and!; [exact Hc| |exact Ho]. assert (E : pge_runtime engine = Some runtime) by reflexivity. congruence.
Qed.

Lemma drive_run x fuel : forall calls s, run (pgx_runtime x) catalog plan (pgx_compiled x) options None calls s ->
  run (pgx_runtime x) catalog plan (pgx_compiled x) options None calls (drive x fuel s).
Proof.
  induction fuel as [|fuel IH]; [done|]. intros calls s R. cbn [drive]. destruct (worker_turn _ _ _ _ _ _ s) as [s'|] eqn:E.
  - apply IH. eapply run_turn; [exact R|by left].
  - destruct (client_turn s) as [s'|] eqn:E'; [|done]. apply IH. eapply run_turn; [exact R|by right].
Qed.

Lemma pull_run x calls s : run (pgx_runtime x) catalog plan (pgx_compiled x) options None calls s -> ready s = true ->
  run (pgx_runtime x) catalog plan (pgx_compiled x) options None (calls ++ [NextBatch]) (pull x s).
Proof.
  intros R H. unfold pull. destruct (start_call NextBatch s) as [s'|] eqn:E; [|unfold start_call in E; unfold ready in H; by destruct (st_phase s)].
  apply drive_run. by eapply run_call.
Qed.

Lemma opened_run x : execution = Ok x -> run (pgx_runtime x) catalog plan (pgx_compiled x) options None [] (opened x).
Proof. intros (_ & _ & Ho)%execution_parts. by apply drive_run, run_open. Qed.

Lemma quintuple_inv {A B C D E} (a a' : A) (b b' : B) (c c' : C) (d d' : D) (e e' : E) : Ok (a, b, c, d, e) = Ok (a', b', c', d', e') ->
  a = a' /\ b = b' /\ c = c' /\ d = d' /\ e = e'.
Proof. by intros [= -> -> -> -> ->]. Qed.

(** Everything about the run at once. *)
Lemma pulled_run x : execution = Ok x ->
  run (pgx_runtime x) catalog plan (pgx_compiled x) options None [NextBatch; NextBatch] (pulled x) /\ st_phase (pulled x) = CReady /\
  sizes (pulled x) = [Some 2%nat; None] /\ forallb is_ok (st_log (pulled x)) = true.
Proof.
  intros E. pose proof run_result as H. rewrite E in H. cbn [rbind] in H. apply quintuple_inv in H as (H1 & H2 & H3 & H4 & H5).
  split; [|split; [|split; [exact H4|exact H5]]]; [|unfold ready in H3; destruct (st_phase (pulled x)); [discriminate H3|reflexivity|discriminate H3..]].
  apply (pull_run x [NextBatch] (pull x (opened x))); [|exact H2]. apply (pull_run x [] (opened x)); [|exact H1]. exact (opened_run x E).
Qed.

Lemma done_inj {A} (a b : A) : Done a = Done b -> a = b.
Proof. by intros [= ->]. Qed.

Lemma query_serves x q : execution = Ok x -> postgres_statement catalog plan wanted = Ok q -> serves (G:=server) db q (cq_binds (pgx_compiled x)).
Proof.
  intros E Hq t t' client statement portal encoded _ _ Hb. apply execution_parts in E as (Hc & _ & _).
  assert (Eb : binds = cq_binds (pgx_compiled x)) by (unfold binds; rewrite Hc; exact eq_refl).
  assert (Eq : query = q) by (unfold query; rewrite Hq; exact eq_refl).
  change (Done (pg_result db binds query) = Done portal) in Hb. apply done_inj in Hb. rewrite <- Hb, Eb, Eq. exact (Permutation_refl _).
Qed.
End ServerSample.

Lemma postgres_stream_refines_memory_witness :
  exists x s stream batch, ServerSample.execution = Ok x /\
    run (pgx_runtime x) PostgresSample.catalog PostgresSample.plan (pgx_compiled x) ServerSample.options None [NextBatch; NextBatch] s /\
    execute PostgresSample.tables PostgresSample.plan PostgresSample.wanted PostgresSample.limits 8 = Ok stream /\ length (ms_rows stream) = 2%nat /\
    st_log s = [Ok (Some batch); Ok None] /\ eb_rows batch ≡ₚ ms_rows stream.
Proof.
  pose proof ServerSample.execution_ok as O. destruct ServerSample.execution as [x|] eqn:E; [|discriminate O]. clear O.
  destruct (ServerSample.pulled_run x E) as (R & Hphase & Hsizes & Hok).
  destruct (execute PostgresSample.tables PostgresSample.plan PostgresSample.wanted PostgresSample.limits 8) as [stream|] eqn:X; [|pose proof PostgresSample.executes as H; by rewrite X in H].
  destruct (ServerSample.execution_parts x E) as (Hc & _ & _).
  destruct (postgres_stream_refines_memory PostgresSample.db ServerSample.engine PostgresSample.plan PostgresSample.wanted ServerSample.options None x
    PostgresSample.tables 8 stream [NextBatch; NextBatch] (ServerSample.pulled x)) as [Hrows _].
  - exact E.
  - intros q Hq. by apply ServerSample.query_serves.
  - exact PostgresSample.plan_is_typed.
  - exact PostgresSample.sources_stored.
  - reflexivity.
  - reflexivity.
  - by apply PostgresSample.binds_storable.
  - exact X.
  - exact R.
  - repeat constructor.
  - exact Hphase.
  - unfold ServerSample.sizes in Hsizes. destruct (st_log (ServerSample.pulled x)) as [|[[batch|]|d] [|[[b|]|d'] [|]]] eqn:El; try discriminate Hsizes; [|discriminate Hok].
    exists x, (ServerSample.pulled x), stream, batch. split_and!; [done|exact R|done| |exact El|].
    + pose proof PostgresSample.executes as H. rewrite X in H. by injection H.
    + specialize (Hrows [batch] eq_refl). cbn [map concat] in Hrows. by rewrite app_nil_r in Hrows.
Defined.

Lemma postgres_reads_validated_witness :
  exists x portal now, ServerSample.execution = Ok x /\ built (pgx_runtime x) /\
    open_portal (pgx_runtime x) PostgresSample.catalog PostgresSample.plan (pgx_compiled x) None 0%nat = (Ok portal, now) /\
    exists connected opened, opened_on tt (pgx_compiled x) opened portal /\
    forall model alias, NSource model alias ∈ plan_nodes PostgresSample.plan ->
      exists model' alias', NSource model' alias' ∈ plan_nodes PostgresSample.plan /\ md_key model' = md_key model /\
        live_table tt PostgresSample.catalog (S connected) opened model'.
Proof.
  pose proof ServerSample.execution_ok as O. destruct ServerSample.execution as [x|] eqn:E; [|discriminate O]. clear O.
  destruct (ServerSample.execution_parts x E) as (_ & Hr & _).
  assert (Hb : built (pgx_runtime x)) by (apply (built_parse EmptyString); by rewrite Hr).
  destruct (open_portal (pgx_runtime x) PostgresSample.catalog PostgresSample.plan (pgx_compiled x) None 0%nat) as [[portal|d] now] eqn:Eo.
  - destruct (postgres_reads_validated (pgx_runtime x) PostgresSample.catalog PostgresSample.plan (pgx_compiled x) None 0%nat portal now Hb Eo) as (_ & [] & connected & opened & _ & _ & H & Hopen).
    exists x, portal, now. split_and!; [done..|]. exists connected, opened. split; [exact Hopen|exact H].
  - destruct (ServerSample.pulled_run x E) as (R & Hphase & _). destruct (run_fails _ _ _ _ _ _ _ _ _ _ Eo R) as (Hc & _). discriminate Hc.
Defined.

Lemma postgres_calls_return_witness :
  exists x, ServerSample.execution = Ok x /\
    forall s', rtc (step (pgx_runtime x) PostgresSample.catalog PostgresSample.plan (pgx_compiled x) ServerSample.options None) (pgx_stream x) s' ->
      nf (turn (pgx_runtime x) PostgresSample.catalog PostgresSample.plan (pgx_compiled x) ServerSample.options None) s' -> settled s'.
Proof.
  pose proof ServerSample.execution_ok as O. destruct ServerSample.execution as [x|] eqn:E; [|discriminate O]. clear O. exists x. split; [done|].
  apply (postgres_calls_return (pgx_runtime x) PostgresSample.catalog PostgresSample.plan (pgx_compiled x) ServerSample.options None (pgx_stream x)).
  apply reachable_open. exact (proj2 (proj2 (ServerSample.execution_parts x E))).
Defined.

Lemma postgres_stream_sequential_witness :
  exists x portal now, ServerSample.execution = Ok x /\ open_portal (pgx_runtime x) PostgresSample.catalog PostgresSample.plan (pgx_compiled x) None 0%nat = (Ok portal, now) /\
    st_log (ServerSample.pulled x) = snd (seq_calls (pgx_compiled x) ServerSample.options None (seq_new portal now) [NextBatch; NextBatch]).
Proof.
  pose proof ServerSample.execution_ok as O. destruct ServerSample.execution as [x|] eqn:E; [|discriminate O]. clear O.
  destruct (ServerSample.pulled_run x E) as (R & Hphase & _).
  pose proof (postgres_stream_sequential (pgx_runtime x) PostgresSample.catalog PostgresSample.plan (pgx_compiled x) ServerSample.options None _ _ R) as H.
  destruct (open_portal (pgx_runtime x) PostgresSample.catalog PostgresSample.plan (pgx_compiled x) None 0%nat) as [[portal|d] now] eqn:Eo.
  - exists x, portal, now. rewrite Hphase in H. by split_and!.
  - destruct H as (Hc & _). discriminate Hc.
Defined.
