(* ===== verification/JsonlDecode.v ===== *)
(** * JSON lines ([engines/jsonl/src/decode.rs])

    One line is one JSON object, read into a row of the model under a nesting
    limit.  The JSON parser, and the parsers of decimals, identifiers and
    calendar values, are third-party. *)
From Stdlib Require Import ZArith Lia.
From stdpp Require Import list.
From S2P Require Import Prelude Floats Foreign Truth BTree Text Types Values Fingerprint Model Row WireDecode.

Local Open Scope Z_scope.

(** ** JSON *)
(** What the parser drives the visitor with: floats are their bits, object
    keys come in the order of the text and may repeat. *)
Inductive JsonDoc :=
| DocUnit
| DocBool (b : bool)
| DocI64 (n : Z)
| DocU64 (n : Z)
| DocF64 (bits : Z)
| DocStr (s : string)
| DocSeq (l : list JsonDoc)
| DocMap (l : list (string * JsonDoc)).

Inductive JsonValue :=
| JNull
| JBool (b : bool)
| JI64 (n : Z)
| JU64 (n : Z)
| JF64 (bits : Z)
| JString (s : string)
| JArray (l : list JsonValue)
| JObject (l : list (string * JsonValue)).

(** [serde_json], [time]'s remaining constructors and parsers; [None] is an
    error, for [duration_nanoseconds_i128] the panic on an overflow. *)
Class JsonForeign (F : Foreign) := {
  json_document : string -> option JsonDoc;
  date_from_calendar_date : Z -> Z -> Z -> option Date;
  instant_parse_rfc3339 : string -> option Instant;
  duration_nanoseconds_i128 : Z -> option Duration
}.

(** [JsonVisitor]: an object with a repeated key is refused. *)
Definition visit_entries (visit : JsonDoc -> option JsonValue) : list (string * JsonDoc) -> list (string * JsonValue) ->
  option (list (string * JsonValue)) :=
  fix go l values := match l with
                     | [] => Some values
                     | (key, d) :: l' =>
                         value ← visit d;
                         match bt_get key values with
                         | Some _ => None
                         | None => go l' (bt_insert key value values)
                         end
                     end.

Definition visit_elements (visit : JsonDoc -> option JsonValue) : list JsonDoc -> option (list JsonValue) :=
  fix go l := match l with [] => Some [] | d :: l' => v ← visit d; vs ← go l'; Some (v :: vs) end.

Fixpoint json_visit (d : JsonDoc) : option JsonValue :=
  match d with
  | DocUnit => Some JNull
  | DocBool b => Some (JBool b)
  | DocI64 n => Some (JI64 n)
  | DocU64 n => Some (JU64 n)
  | DocF64 b => Some (JF64 b)
  | DocStr s => Some (JString s)
  | DocSeq l => JArray <$> visit_elements json_visit l
  | DocMap l => JObject <$> visit_entries json_visit l []
  end.

(** ** Limits ([lib.rs]) *)
Definition MAX_JSON_NESTING_DEPTH : nat := 64.

Record JsonlLimits := mkJsonlLimits {
  jl_max_source_bytes : Z;
  jl_max_line_bytes : nat;
  jl_max_scanned_rows : Z;
  jl_max_nesting_depth : nat
}.

Definition jsonl_limits_validate (l : JsonlLimits) : Result unit :=
  guard (negb ((jl_max_source_bytes l =? 0) || Nat.eqb (jl_max_line_bytes l) 0 || (jl_max_scanned_rows l =? 0)
               || Nat.eqb (jl_max_nesting_depth l) 0)) "JSONL-LIMIT-000" ;;?
  guard (Nat.leb (jl_max_nesting_depth l) MAX_JSON_NESTING_DEPTH) "JSONL-LIMIT-000".

Definition default_jsonl_limits : JsonlLimits :=
  mkJsonlLimits (1024 * 1024 * 1024) (Z.to_nat (8 * 1024 * 1024)) 10000000 64.

(** ** Scalars *)
Definition scalar_error {A} : Result A := error "JSONL-DECODE-005".
Definition parsed {A} (o : option A) : Result A := ok_or o "JSONL-DECODE-005".

Definition string_value (value : JsonValue) : Result string :=
  match value with JString s => Ok s | _ => scalar_error end.

Fixpoint split_once (c : Ascii.ascii) (s : string) : option (string * string) :=
  match s with
  | EmptyString => None
  | String a s' =>
      if Ascii.eqb a c then Some (EmptyString, s')
      else p ← split_once c s'; Some (String a (fst p), snd p)
  end.

(** The pieces around the last occurrence. *)
Fixpoint rsplit_once (c : Ascii.ascii) (s : string) : option (string * string) :=
  match s with
  | EmptyString => None
  | String a s' =>
      match rsplit_once c s' with
      | Some (l, r) => Some (String a l, r)
      | None => if Ascii.eqb a c then Some (EmptyString, s') else None
      end
  end.

Definition hex_digit (b : Z) : option Z :=
  if (48 <=? b) && (b <=? 57) then Some (b - 48)
  else if (97 <=? b) && (b <=? 102) then Some (b - 97 + 10)
  else if (65 <=? b) && (b <=? 70) then Some (b - 65 + 10) else None.

Fixpoint hex_pairs (l : list Z) : Result (list Z) :=
  match l with
  | high :: low :: rest =>
      let? high := parsed (hex_digit high) in
      let? low := parsed (hex_digit low) in
      let? bytes := hex_pairs rest in
      Ok (Z.lor (Z.shiftl high 4) low :: bytes)
  | _ => Ok []
  end.

Definition strip_prefix (p s : string) : option string :=
  if str_starts_with s p then Some (String.substring (String.length p) (String.length s - String.length p) s) else None.

Definition decode_bytes (value : JsonValue) : Result (list Z) :=
  let? value := string_value value in
  let? hex := parsed (strip_prefix "hex:" value) in
  guard (Nat.even (String.length hex)) "JSONL-DECODE-005" ;;?
  hex_pairs (bytes_of hex).

Definition decode_char (value : JsonValue) : Result Z :=
  let? value := string_value value in
  match chars value with [c] => Ok c | _ => scalar_error end.

Definition decode_truth (value : JsonValue) : Result Truth :=
  match value with
  | JBool true => Ok TTrue
  | JBool false => Ok TFalse
  | JString s =>
      if String.eqb s "true" then Ok TTrue else if String.eqb s "false" then Ok TFalse
      else if String.eqb s "unknown" then Ok TUnknown else scalar_error
  | _ => scalar_error
  end.

Definition decode_int (value : JsonValue) : Result Z :=
  match value with
  | JI64 n | JU64 n => Ok n
  | JString s => parsed (parse_i128 s)
  | _ => scalar_error
  end.

Definition decode_uint (value : JsonValue) : Result Z :=
  match value with
  | JU64 n => Ok n
  | JI64 n => if 0 <=? n then Ok n else scalar_error
  | JString s => parsed (parse_u128 s)
  | _ => scalar_error
  end.

Definition parse_float_text (fmt : FloatFormat) (s : string) : Result Z :=
  let normalized :=
    if String.eqb s "+Infinity" || String.eqb s "Infinity" then "inf"%stdpp
    else if String.eqb s "-Infinity" then "-inf"%stdpp else s in
  parsed (parse_float fmt normalized).

Definition decode_float32 (value : JsonValue) : Result Z :=
  match value with JString s => parse_float_text binary32 s | _ => scalar_error end.

Definition decode_float64 (value : JsonValue) : Result Z :=
  match value with
  | JI64 n | JU64 n => Ok (float_of_Z binary64 n)
  | JF64 b => Ok b
  | JString s => parse_float_text binary64 s
  | _ => scalar_error
  end.

Definition parse_fraction (value : option string) : Result Z :=
  match value with
  | None => Ok 0
  | Some s =>
      guard (negb (is_empty_str s || Nat.ltb 9 (String.length s) || negb (forallb (fun b => (48 <=? b) && (b <=? 57)) (bytes_of s))))
        "JSONL-DECODE-005" ;;?
      let? n := parsed (parse_u32 s) in
      Ok (Z.min u32_max (n * 10 ^ (9 - zstrlen s)))
  end.

Section Decode.
Context {F : Foreign} {W : WireForeign F} {J : JsonForeign F}.

(** Year, month and day around the last two dashes; [Month::try_from]. *)
Definition parse_date (s : string) : Result Date :=
  let? p := parsed (rsplit_once (ascii_nat 45) s) in
  let? day := parsed (parse_u8 (snd p)) in
  let? q := parsed (rsplit_once (ascii_nat 45) (fst p)) in
  let? month := parsed (parse_u8 (snd q)) in
  let? year := parsed (parse_i32 (fst q)) in
  guard ((1 <=? month) && (month <=? 12)) "JSONL-DECODE-005" ;;?
  parsed (date_from_calendar_date year month day).

Definition parse_time (s : string) : Result TimeOfDay :=
  match str_split (ascii_nat 58) s with
  | [hour; minute; second_fraction] =>
      let? hour := parsed (parse_u8 hour) in
      let? minute := parsed (parse_u8 minute) in
      let '(second_text, fraction) :=
        match split_once (ascii_nat 46) second_fraction with
        | Some (second, fraction) => (second, Some fraction)
        | None => (second_fraction, None)
        end in
      let? second := parsed (parse_u8 second_text) in
      let? nanosecond := parse_fraction fraction in
      parsed (time_from_hms_nano hour minute second nanosecond)
  | _ => scalar_error
  end.

Definition parse_local_datetime (s : string) : Result LocalDateTime :=
  let? p := parsed (split_once (ascii_nat 84) s) in
  let? date := parse_date (fst p) in
  let? time := parse_time (snd p) in
  Ok (ldt_new date time).

Definition parse_duration (s : string) : Result Duration :=
  let? n := parsed (parse_i128 s) in
  match duration_nanoseconds_i128 n with Some d => Ok d | None => panic end.

Definition decode_scalar (r : ScalarRepr) (value : JsonValue) : Result Value :=
  let text {A} (parse : string -> Result A) : Result A := let? s := string_value value in parse s in
  match r with
  | RBool => match value with JBool b => Ok (VBool b) | _ => scalar_error end
  | RTruth => rmap VTruth (decode_truth value)
  | RInt _ => rmap VInt (decode_int value)
  | RUInt _ => rmap VUInt (decode_uint value)
  | RFloat32 => rmap VFloat32 (decode_float32 value)
  | RFloat64 => rmap VFloat64 (decode_float64 value)
  | RDecimal => rmap VDecimal (text (fun s => parsed (dec_from_str s)))
  | RChar => rmap VChar (decode_char value)
  | RString => rmap VString (string_value value)
  | RBytes => rmap VBytes (decode_bytes value)
  | RUuid => rmap VUuid (text (fun s => parsed (uuid_from_str s)))
  | RDate => rmap VDate (text parse_date)
  | RTime => rmap VTime (text parse_time)
  | RLocalDateTime => rmap VLocalDateTime (text parse_local_datetime)
  | RInstant => rmap VInstant (text (fun s => parsed (instant_parse_rfc3339 s)))
  | RDuration => rmap VDuration (text parse_duration)
  end.

(** ** Structured values: the depth counts containers *)
Section Decoder.
Context (limits : JsonlLimits).

Definition check_depth (depth : nat) : Result unit :=
  guard (Nat.leb depth (jl_max_nesting_depth limits)) "JSONL-LIMIT-004".

(** [decode_datum], over the value decoder of the same type. *)
Definition decode_datum_with (decode : JsonValue -> nat -> Result Value) (ty : TypeDef) (value : JsonValue) (depth : nat)
  : Result Datum :=
  check_depth depth ;;?
  let? datum := match value with JNull => Ok Null | _ => rmap DValue (decode value depth) end in
  map_err (validate_datum ty Optional datum) "JSONL-DECODE-005" ;;?
  Ok datum.

Definition decode_map (key item : JsonValue -> nat -> Result Datum) (value : JsonValue) (depth : nat) : Result Value :=
  match value with
  | JArray entries =>
      rmap VMap (mapR (fun entry =>
        match entry with
        | JArray [k; v] => let? k := key k depth in let? v := item v depth in Ok (k, v)
        | JArray _ => error "JSONL-DECODE-006"
        | _ => error "JSONL-DECODE-005"
        end) entries)
  | _ => error "JSONL-DECODE-005"
  end.

(** [elements.iter().zip(values)] of equal lengths. *)
Definition zip_decode {A} (f : A -> JsonValue -> Result Datum) : list A -> list JsonValue -> Result (list Datum) :=
  fix go l values := match l, values with
                     | x :: l', v :: values' => let? d := f x v in let? ds := go l' values' in Ok (d :: ds)
                     | _, _ => Ok []
                     end.

Fixpoint decode_value (ty : TypeDef) (value : JsonValue) (depth : nat) {struct ty} : Result Value :=
  let '(mkTypeDef _ _ shape _ _ _) := ty in
  match shape with
  | ShScalar r => decode_scalar r value
  | ShList e =>
      match value with
      | JArray values => rmap VList (mapR (fun v => decode_datum_with (decode_value e) e v (S depth)) values)
      | _ => error "JSONL-DECODE-005"
      end
  | ShMap k v => decode_map (decode_datum_with (decode_value k) k) (decode_datum_with (decode_value v) v) value (S depth)
  | ShTuple es =>
      match value with
      | JArray values =>
          if Nat.eqb (length values) (length es) then
            rmap VTuple (zip_decode (fun e v => decode_datum_with (decode_value e) e v (S depth)) es values)
          else error "JSONL-DECODE-006"
      | _ => error "JSONL-DECODE-005"
      end
  | ShRecord fs =>
      (* decode_record *)
      match value with
      | JObject values =>
          if forallb (fun entry => known_field fs (fst entry)) values then
            rmap VRecord (foldR (fun decoded f =>
              let '(mkRecordField name e presence) := f in
              match bt_get name values with
              | Some v => let? d := decode_datum_with (decode_value e) e v (S depth) in Ok (bt_insert name d decoded)
              | None => match presence with Optional => Ok decoded | Required => error "JSONL-DECODE-004" end
              end) fs [])
          else error "JSONL-DECODE-003"
      | _ => error "JSONL-DECODE-005"
      end
  end.

Definition decode_datum (ty : TypeDef) (value : JsonValue) (depth : nat) : Result Datum :=
  decode_datum_with (decode_value ty) ty value depth.

(** ** Lines *)
Definition decode_field (model : ModelDef) (row : DynRowBuilder) (entry : string * JsonValue) : Result DynRowBuilder :=
  let '(name, value) := entry in
  let? field := ok_or (model_field_named model name) "JSONL-DECODE-003" in
  let? datum := decode_datum (fd_ty field) value 0 in
  row_set_named row name datum.

Definition decode_model_line (model : ModelDef) (line : string) : Result DynRow :=
  let? value := ok_or (d ← json_document line; json_visit d) "JSONL-DECODE-001" in
  match value with
  | JObject fields =>
      let? row := foldR (decode_field model) fields (row_builder model) in
      map_err (row_freeze row) "JSONL-DECODE-004"
  | _ => error "JSONL-DECODE-002"
  end.
End Decoder.
End Decode.
