(* ===== verification/JsonlRows.v ===== *)
(** * The rows of JSON lines

    Which lines decode, and to which rows: one datum for every field of the
    model, decoded from the entry of the object that has its name. *)
From Stdlib Require Import ZArith Lia.
From stdpp Require Import list.
From S2P Require Import Prelude Foreign Truth BTree Types Values Fingerprint Model Row Wire WireDecode WireText JsonlDecode.

Local Open Scope Z_scope.

(** ** Objects have distinct keys *)
Lemma visit_entries_sorted visit l : forall values fields, bt_sorted values = true -> visit_entries visit l values = Some fields -> bt_sorted fields = true.
Proof.
  induction l as [|[key d] l IH]; intros values fields Hs; cbn [visit_entries]; [by intros [= <-]|].
  intros (value & _ & H)%bind_Some. destruct (bt_get key values); [done|]. by eapply IH; [apply bt_sorted_insert|].
Qed.

Lemma json_object_sorted doc fields : json_visit doc = Some (JObject fields) -> bt_sorted fields = true.
Proof.
  destruct doc; try done; cbn [json_visit].
  - intros (l' & _ & [=])%fmap_Some.
  - intros (l' & H & [= <-])%fmap_Some. by eapply visit_entries_sorted; [|exact H].
Qed.

(** ** What a document reads as *)

(** Scalars and arrays as they are; an object when its keys are distinct, as
    the map of its entries, in the order of the keys. *)
Inductive reads : JsonDoc -> JsonValue -> Prop :=
| reads_null : reads DocUnit JNull
| reads_bool b : reads (DocBool b) (JBool b)
| reads_i64 n : reads (DocI64 n) (JI64 n)
| reads_u64 n : reads (DocU64 n) (JU64 n)
| reads_f64 bits : reads (DocF64 bits) (JF64 bits)
| reads_string s : reads (DocStr s) (JString s)
| reads_array l values : Forall2 reads l values -> reads (DocSeq l) (JArray values)
| reads_object l entries fields :
    NoDup (map fst l) -> Forall2 (fun e f => fst f = fst e /\ reads (snd e) (snd f)) l entries ->
    fields ≡ₚ entries -> bt_sorted fields = true -> reads (DocMap l) (JObject fields).

Definition reads_entry (e : string * JsonDoc) (f : string * JsonValue) : Prop := fst f = fst e /\ reads (snd e) (snd f).

Definition doc_children (d : JsonDoc) : list JsonDoc := match d with DocSeq l => l | DocMap l => map snd l | _ => [] end.

Fixpoint json_doc_ind' (P : JsonDoc -> Prop) (step : forall d, Forall P (doc_children d) -> P d) (d : JsonDoc) : P d :=
  step d match d with
         | DocSeq l => (fix go l : Forall P l := match l with [] => Forall_nil_2 P | x :: l' => Forall_cons_2 P x l' (json_doc_ind' P step x) (go l') end) l
         | DocMap l =>
             (fix go l : Forall P (map snd l) :=
                match l with [] => Forall_nil_2 P | (_, x) as e :: l' => Forall_cons_2 P x (map snd l') (json_doc_ind' P step x) (go l') end) l
         | _ => Forall_nil_2 P
         end.

Lemma collect_spec {V} (l fields : list (string * V)) : NoDup (map fst l) ->
  fields = bt_collect l <-> bt_sorted fields = true /\ fields ≡ₚ l.
Proof.
  intros Hd. split.
  - intros ->. split; [apply bt_sorted_collect|]. apply NoDup_Permutation.
    + apply (NoDup_fmap_1 fst). apply bt_sorted_nodup, bt_sorted_collect.
    + by apply (NoDup_fmap_1 fst).
    + intros [k v]. rewrite <- (bt_get_collect l k v Hd). split; [apply bt_elem_get, bt_sorted_collect|apply bt_get_elem].
  - intros [Hs Hp]. apply bt_ext; [done|apply bt_sorted_collect|]. intros k. apply option_eq. intros v.
    rewrite (bt_get_collect l k v Hd), <- Hp. split; [apply bt_get_elem|by apply bt_elem_get].
Qed.

Lemma entries_keys l entries : Forall2 reads_entry l entries -> map fst entries = map fst l.
Proof. induction 1 as [|e f l entries [E _] _ IH]; [done|]. cbn [map]. by rewrite E, IH. Qed.

Lemma visit_elements_reads l : Forall (fun d => forall v, json_visit d = Some v <-> reads d v) l -> forall values,
  visit_elements json_visit l = Some values <-> Forall2 reads l values.
Proof.
  induction 1 as [|d l Hd _ IH]; intros values; cbn [visit_elements].
  - split; [by intros [= <-]|by intros ->%Forall2_nil_inv_l].
  - rewrite bind_Some. setoid_rewrite bind_Some. setoid_rewrite Hd. split.
    + intros (v & Hv & vs & Hvs%IH & [= <-]). by constructor.
    + intros (v & vs & Hv & Hvs%IH & ->)%Forall2_cons_inv_l. eauto.
Qed.

Lemma visit_entries_reads l : Forall (fun d => forall v, json_visit d = Some v <-> reads d v) (map snd l) -> forall before fields,
  NoDup (map fst before) ->
  visit_entries json_visit l (bt_collect before) = Some fields <->
  exists entries, Forall2 reads_entry l entries /\ NoDup (map fst before ++ map fst l) /\ fields = bt_collect (before ++ entries).
Proof.
  induction l as [|[key d] l IH]; intros H before fields Hb; cbn [visit_entries map fst snd] in *.
  { split; [intros [= <-]; exists []; by rewrite !app_nil_r|]. intros (entries & ->%Forall2_nil_inv_l & _ & ->). by rewrite app_nil_r. }
  apply Forall_cons in H as [Hd H]. rewrite bind_Some. setoid_rewrite Hd.
  assert (Hget : bt_get key (bt_collect before) = None <-> key ∉ map fst before).
  { split.
    - intros E ([k v] & -> & Hin)%list_elem_of_fmap_1. apply (bt_get_collect _ _ _ Hb) in Hin. cbn [fst] in E. congruence.
    - intros Hk. apply eq_None_not_Some. intros [v Hv%(bt_get_collect _ _ _ Hb)]. apply Hk. by apply (list_elem_of_fmap_2 fst _ (key, v)). }
  assert (Hnd : forall v : JsonValue, key ∉ map fst before -> NoDup (map fst (before ++ [(key, v)]))).
  { intros v Hk. rewrite map_app. apply NoDup_app. split_and!; [done| |apply NoDup_singleton]. by intros k Hin ->%list_elem_of_singleton. }
  assert (Happ : forall v : JsonValue, map fst (before ++ [(key, v)]) ++ map fst l = map fst before ++ key :: map fst l)
    by (intros v; by rewrite map_app, <- app_assoc).
  split.
  - intros (v & Hv & Hf). destruct (bt_get key (bt_collect before)); [done|]. pose proof (proj1 Hget eq_refl) as E.
    rewrite <- bt_collect_snoc in Hf. apply (IH H) in Hf as (entries & He & Hn & ->); [|by apply Hnd]. rewrite Happ in Hn.
    exists ((key, v) :: entries). split_and!; [by constructor|done|by rewrite <- app_assoc].
  - intros (entries & He & Hn & ->). apply Forall2_cons_inv_l in He as ([k v] & entries' & [Ek Hv] & He & ->). cbn [fst snd] in *. subst k.
    exists v. split; [done|]. assert (Hk : key ∉ map fst before).
    { apply NoDup_app in Hn as (_ & Hx & _). intros Hin. by apply (Hx key Hin); left. }
    rewrite (proj2 Hget Hk), <- bt_collect_snoc. apply (IH H); [by apply Hnd|]. exists entries'. by rewrite Happ, <- app_assoc.
Qed.

(** The visitor computes it. *)
Lemma visit_reads d : forall v, json_visit d = Some v <-> reads d v.
Proof.
  induction d as [d IH] using json_doc_ind'. intros v.
  destruct d as [|b|n|n|b|s|l|l]; cbn [json_visit doc_children] in *;
    try (split; [intros [= <-]; constructor|by inversion_clear 1]).
  - rewrite fmap_Some. setoid_rewrite (visit_elements_reads l IH). split; [intros (values & Hv & ->); by constructor|].
    inversion_clear 1. eauto.
  - rewrite fmap_Some. change [] with (bt_collect (@nil (string * JsonValue))). setoid_rewrite (visit_entries_reads l IH []); [|constructor].
    cbn [map app]. split.
    + intros (fields & (entries & He & Hn & [Hs Hp]%collect_spec) & ->); [by apply (reads_object _ entries)|by rewrite (entries_keys _ _ He)].
    + inversion_clear 1 as [| | | | | | |? entries fields Hn He Hp Hs]. exists fields. split; [|done]. exists entries. split_and!; [done..|].
      apply collect_spec; [by rewrite (entries_keys _ _ He)|done].
Qed.

Section Rows.
Context {F : Foreign} {W : WireForeign F} {J : JsonForeign F}.
Context (limits : JsonlLimits) (model : ModelDef).
Hypothesis slots : dense model.
Hypothesis names : forall n f, model_field_named model n = Some f <-> f ∈ md_fields model /\ fd_name f = n.

Lemma decode_field_ok values name v b' : length values = length (md_fields model) ->
  decode_field limits model (mkRowBuilder model values) (name, v) = Ok b' <->
  exists f d, f ∈ md_fields model /\ fd_name f = name /\ decode_datum limits (fd_ty f) v 0 = Ok d /\ field_accepts f d /\
    b' = mkRowBuilder model (<[fd_slot f := d]> values).
Proof using slots names.
  intros Hl. unfold decode_field, row_set_named. cbn [rb_model]. split.
  - intros (f & Hf%ok_or_ok & (d & Hd & (f' & Hf'%ok_or_ok & [Ha H]%check_then)%rbind_ok)%rbind_ok)%rbind_ok.
    rewrite Hf in Hf'. injection Hf' as <-. apply names in Hf as [Hf Hn]. cbn [rb_values rb_model] in H.
    destruct (values !! fd_slot f); [|done]. injection H as <-. by exists f, d.
  - intros (f & d & Hf & Hn & Hd & Ha & ->). rewrite (proj2 (names name f)) by done. cbn [ok_or rbind]. rewrite Hd. cbn [rbind].
    unfold row_assign. unfold field_accepts in Ha. rewrite Ha. cbn [rbind rb_values rb_model].
    apply list_elem_of_lookup in Hf as [i Hi]. rewrite (slots i f Hi). apply lookup_lt_Some in Hi. rewrite <- Hl in Hi.
    by apply lookup_lt_is_Some in Hi as [x ->].
Qed.

(** A field after the entries [l]: the entry of its name, or what it was. *)
Definition field_after (l : list (string * JsonValue)) (before : option Datum) (f : FieldDef) (d : Datum) : Prop :=
  (forall v, (fd_name f, v) ∈ l -> decode_datum limits (fd_ty f) v 0 = Ok d /\ field_accepts f d) /\
  ((forall v, (fd_name f, v) ∉ l) -> before = Some d).

Definition known (l : list (string * JsonValue)) : Prop := forall e, e ∈ l -> exists f, f ∈ md_fields model /\ fd_name f = fst e.

Lemma decode_fields_ok l : NoDup (map fst l) -> forall values b', length values = length (md_fields model) ->
  foldR (decode_field limits model) l (mkRowBuilder model values) = Ok b' <->
  rb_model b' = model /\ length (rb_values b') = length values /\ known l /\
  forall i f, md_fields model !! i = Some f -> exists d, rb_values b' !! i = Some d /\ field_after l (values !! i) f d.
Proof using slots names.
  induction l as [|[name v] l IH]; intros Hd values b' Hl; cbn [foldR map fst] in *.
  { split.
    - intros [= <-]. split_and!; [done|done|by intros e He%not_elem_of_nil|]. intros i f Hi. apply lookup_lt_Some in Hi. rewrite <- Hl in Hi.
      apply lookup_lt_is_Some in Hi as [d Hdi]. exists d. split; [done|]. split; [by intros x Hx%not_elem_of_nil|done].
    - intros (Hm & Hlen & _ & H). destruct b' as [m vs]. cbn in *. subst m. do 2 f_equal. apply list_eq_same_length with (n := length values); [done..|].
      intros i x y Hi Hx Hy. rewrite Hl in Hi. apply lookup_lt_is_Some in Hi as [f Hf]. destruct (H i f Hf) as (d & Hdi & _ & Hb).
      rewrite Hb in Hx by (intros z Hz; by apply not_elem_of_nil in Hz). congruence. }
  apply NoDup_cons in Hd as [Hnew Hd]. rewrite rbind_ok. setoid_rewrite decode_field_ok; [|done].
  assert (Hin : forall x v', (x, v') ∈ l -> x ∈ map fst l) by (intros x v' H; apply elem_of_map; by exists (x, v')).
  split.
  - intros (b1 & (f0 & d0 & Hf0 & Hn & Hdec & Ha & ->) & H). apply IH in H as (Hm & Hlen & Hk & H); [|done|by rewrite length_insert].
    rewrite length_insert in Hlen. split_and!; [done|done| |].
    + intros e [->|He]%elem_of_cons; [by exists f0|by apply Hk].
    + intros i f Hf. destruct (H i f Hf) as (d & Hdi & H1 & H2). exists d. split; [done|]. split.
      * intros v' [[= E ->]|Hv']%elem_of_cons; [|by apply H1]. apply list_elem_of_lookup in Hf0 as [i0 Hi0].
        assert (f0 = f) as ->.
        { assert (model_field_named model name = Some f0) as E0 by (apply names; split; [by eapply list_elem_of_lookup_2|done]).
          assert (model_field_named model name = Some f) as E1 by (apply names; split; [by eapply list_elem_of_lookup_2|done]). congruence. }
        rewrite (slots i f Hf), list_lookup_insert_eq in H2 by (apply lookup_lt_Some in Hf; lia).
        assert (d0 = d) as -> by (assert (Some d0 = Some d) by (apply H2; intros z Hz%Hin; by rewrite E in Hz); congruence). done.
      * intros Hno. rewrite <- H2 by (intros z Hz; apply (Hno z); by right). symmetry. apply list_lookup_insert_ne.
        intros E. apply list_elem_of_lookup in Hf0 as [i0 Hi0]. rewrite (slots i0 f0 Hi0) in E. subst i0. assert (f0 = f) as -> by congruence.
        apply (Hno v). rewrite Hn. by left.
  - intros (Hm & Hlen & Hk & H). destruct (Hk (name, v) ltac:(by left)) as (f0 & Hf0 & Hn). cbn [fst] in Hn.
    pose proof Hf0 as Hi0. apply list_elem_of_lookup in Hi0 as [i0 Hi0]. destruct (H i0 f0 Hi0) as (d0 & Hd0 & H1 & _).
    destruct (H1 v ltac:(rewrite Hn; by left)) as [Hdec Ha]. eexists. split; [by exists f0, d0|].
    apply IH; [done|by rewrite length_insert|]. rewrite length_insert. split_and!; [done|done|intros e He; apply Hk; by right|].
    intros i f Hf. destruct (H i f Hf) as (d & Hdi & G1 & G2). exists d. split; [done|]. split; [intros v' Hv'; apply G1; by right|].
    intros Hno. rewrite (slots i0 f0 Hi0). destruct (decide (i0 = i)) as [->|Hne].
    + rewrite list_lookup_insert_eq by (apply lookup_lt_Some in Hf; lia). congruence.
    + rewrite list_lookup_insert_ne by done. apply G2. intros v' [[= E ->]|Hv']%elem_of_cons; [|by apply (Hno v')]. apply Hne.
      assert (model_field_named model name = Some f0) as E0 by (by apply names).
      assert (model_field_named model name = Some f) as E1 by (apply names; split; [by eapply list_elem_of_lookup_2|done]).
      rewrite E0 in E1. injection E1 as ->. rewrite <- (slots i0 f Hi0). by apply slots.
Qed.
End Rows.

Section Lines.
Context {F : Foreign} {W : WireForeign F} {J : JsonForeign F}.

(** What a line gives a field. *)
Definition field_of_line (limits : JsonlLimits) (fields : list (string * JsonValue)) (f : FieldDef) (d : Datum) : Prop :=
  match bt_get (fd_name f) fields with Some v => decode_datum limits (fd_ty f) v 0 = Ok d | None => d = Missing end.

Lemma field_after_line limits fields f d : bt_sorted fields = true ->
  field_after limits fields (Some Missing) f d /\ field_accepts f d <-> field_of_line limits fields f d /\ field_accepts f d.
Proof.
  intros Hs. unfold field_after, field_of_line. destruct (bt_get (fd_name f) fields) as [v|] eqn:E.
  - pose proof (bt_get_elem _ _ _ E) as Hin. split; [intros [[H _] Ha]; split; [by apply H|done]|]. intros [H Ha]. split; [|done]. split.
    + intros v' Hv'%bt_elem_get; [|done]. rewrite E in Hv'. by injection Hv' as <-.
    + intros Hno. by apply Hno in Hin.
  - assert (Hno : forall v, (fd_name f, v) ∉ fields) by (intros v Hv%bt_elem_get; congruence).
    split; [intros [[_ H] Ha]; split; [|done]; specialize (H Hno); congruence|].
    intros [-> Ha]. split; [|done]. split; [intros v Hv; by apply Hno in Hv|done].
Qed.

(** The lines that the decoder accepts, by what the visitor returns. *)
Lemma decoded_lines builder model limits line row : freeze builder = Ok model ->
  decode_model_line limits model line = Ok row <->
  exists doc fields, json_document line = Some doc /\ json_visit doc = Some (JObject fields) /\
    (forall e, e ∈ fields -> exists f, f ∈ md_fields model /\ fd_name f = fst e) /\ row_model row = model /\
    Forall2 (fun f d => field_of_line limits fields f d /\ field_accepts f d) (md_fields model) (row_values row).
Proof.
  intros Hm. pose proof (frozen_dense _ _ Hm) as Hd. destruct (frozen_lookups _ _ Hm) as (_ & Hn & _).
  assert (Hl : length (replicate (length (md_fields model)) Missing) = length (md_fields model)) by apply length_replicate.
  unfold decode_model_line, row_builder. split.
  - intros (value & Hv%ok_or_ok & H)%rbind_ok. apply bind_Some in Hv as (doc & Hdoc & Hv).
    destruct value; try discriminate H. apply rbind_ok in H as (b & Hb & Hr%map_err_ok). exists doc, l.
    pose proof (json_object_sorted _ _ Hv) as Hs. apply decode_fields_ok in Hb as (Em & El & Hk & H); [|done|done|by apply bt_sorted_nodup|done].
    apply check_then in Hr as [Hf [= <-]]. rewrite forR_ok, Forall_forall in Hf. cbn [row_model row_values].
    split_and!; [done|done|exact Hk|done|]. apply Forall2_slots; [by rewrite El|]. intros i f Hi.
    destruct (H i f Hi) as (d & Hdi & Ha). exists d. split; [done|]. apply field_after_line; [done|]. split.
    + rewrite lookup_replicate_2 in Ha; [done|]. by eapply lookup_lt_Some.
    + rewrite Em in Hf. specialize (Hf f (list_elem_of_lookup_2 _ _ _ Hi)). by rewrite (Hd i f Hi), Hdi in Hf.
  - intros (doc & fields & Hdoc & Hv & Hk & Em & H). pose proof (json_object_sorted _ _ Hv) as Hs.
    apply rbind_ok. exists (JObject fields). split; [apply ok_or_ok, bind_Some; by exists doc|].
    apply rbind_ok. exists (mkRowBuilder model (row_values row)). split.
    + apply decode_fields_ok; [done|done|by apply bt_sorted_nodup|done|]. cbn [rb_model rb_values]. rewrite Hl.
      split_and!; [done|by rewrite (Forall2_length _ _ _ H)|exact Hk|]. intros i f Hi.
      destruct (Forall2_lookup_l _ _ _ _ _ H Hi) as (d & Hdi & Hfd). exists d. split; [done|].
      rewrite lookup_replicate_2 by (by eapply lookup_lt_Some). by apply field_after_line in Hfd as [? _].
    + apply map_err_ok, check_then. cbn [rb_model rb_values]. split; [|destruct row; cbn in *; by subst].
      apply forR_ok, Forall_forall. intros f [i Hi]%list_elem_of_lookup. rewrite (Hd i f Hi).
      destruct (Forall2_lookup_l _ _ _ _ _ H Hi) as (d & -> & _ & Ha). done.
Qed.
(** C39: a line decodes to a row exactly when it is a JSON object whose keys
    are distinct, at every depth, and names of fields of the model; the row is
    of that model and has, for every field, the datum its entry decodes to, or
    nothing where the object has no entry, and every datum is valid for its
    field. *)
Theorem jsonl_lines_exact builder model limits line row : freeze builder = Ok model ->
  decode_model_line limits model line = Ok row <->
  exists entries fields, json_document line = Some (DocMap entries) /\ NoDup (map fst entries) /\
    reads (DocMap entries) (JObject fields) /\
    (forall e, e ∈ entries -> exists f, f ∈ md_fields model /\ fd_name f = fst e) /\ row_model row = model /\
    Forall2 (fun f d => field_of_line limits fields f d /\ field_accepts f d) (md_fields model) (row_values row).
Proof.
  intros Hm. rewrite (decoded_lines _ _ _ _ _ Hm).
  assert (Hkeys : forall entries fields, reads (DocMap entries) (JObject fields) -> NoDup (map fst entries) /\ map fst fields ≡ₚ map fst entries).
  { intros entries fields H. inversion_clear H as [| | | | | | |? read ? Hn He Hp _]. split; [done|]. rewrite Hp. by rewrite (entries_keys _ _ He). }
  assert (Hnames : forall (P : string -> Prop) entries fields, reads (DocMap entries) (JObject fields) ->
    (forall e, e ∈ entries -> P (fst e)) <-> (forall e, e ∈ fields -> P (fst e))).
  { intros P entries fields [_ Hp]%Hkeys. rewrite <- !Forall_forall. rewrite <- !(Forall_map fst P). by rewrite Hp. }
  split.
  - intros (doc & fields & Hdoc & Hv%visit_reads & Hk & H). assert (exists entries, doc = DocMap entries) as [entries ->] by (inversion_clear Hv; eauto).
    exists entries, fields. split_and!; [done|by apply (Hkeys _ fields)|done| |apply H..].
    by apply (Hnames (fun name => exists f, f ∈ md_fields model /\ fd_name f = name) _ _ Hv).
  - intros (entries & fields & Hdoc & _ & Hv & Hk & H). exists (DocMap entries), fields. split_and!; [done|by apply visit_reads| |apply H..].
    by apply (Hnames (fun name => exists f, f ∈ md_fields model /\ fd_name f = name) _ _ Hv).
Qed.
End Lines.

(** ** Three lines of a concrete file: [{"id":7}], [{"id":8,"mail":null}] and
    [{"id":7,"id":8}] *)
Module JsonSample.
Definition seven : string := string_of [123; 34; 105; 100; 34; 58; 55; 125].
Definition eight : string := string_of [123; 34; 105; 100; 34; 58; 56; 44; 34; 109; 97; 105; 108; 34; 58; 110; 117; 108; 108; 125].
Definition twice : string := string_of [123; 34; 105; 100; 34; 58; 55; 44; 34; 105; 100; 34; 58; 56; 125].

Definition json : JsonForeign sample_foreign := {|
  json_document := fun s =>
    if String.eqb s seven then Some (DocMap [("id"%stdpp, DocU64 7)])
    else if String.eqb s eight then Some (DocMap [("id"%stdpp, DocU64 8); ("mail"%stdpp, DocUnit)])
    else if String.eqb s twice then Some (DocMap [("id"%stdpp, DocU64 7); ("id"%stdpp, DocU64 8)]) else None;
  date_from_calendar_date := fun _ _ _ => None : option (@Date sample_foreign);
  instant_parse_rfc3339 := fun _ => None : option (@Instant sample_foreign);
  duration_nanoseconds_i128 := fun n => Some n : option (@Duration sample_foreign)
|}.

Definition limits : JsonlLimits := mkJsonlLimits 1000 64 10 8.
Definition user (mail : Datum) (id : Z) : DynRow (F:=sample_foreign) := mkDynRow sample_model [mail; DValue (VInt id)].
End JsonSample.
#[export] Existing Instance JsonSample.json.

(** Every entry has a field, and every field the datum of its entry. *)
Ltac sample_model_fields := let fs := eval vm_compute in (md_fields sample_model) in change (md_fields sample_model) with fs.
Ltac sample_known :=
  let e := fresh in let He := fresh in intros e He; sample_model_fields;
  repeat (apply elem_of_cons in He as [->|He];
    [solve [eexists; split; [right; left|reflexivity] | eexists; split; [left|reflexivity]]|]);
  by apply not_elem_of_nil in He.
Ltac sample_fields entries fields :=
  exists entries, fields; split; [reflexivity|]; split; [apply (bool_decide_unpack _); vm_compute; exact I|];
  split; [apply visit_reads; vm_compute; reflexivity|]; split; [sample_known|split; [reflexivity|]];
  sample_model_fields; repeat (constructor; [split; reflexivity|]); constructor.

Lemma jsonl_lines_exact_witness :
  decode_model_line JsonSample.limits sample_model JsonSample.seven = Ok (JsonSample.user Missing 7) /\
  decode_model_line JsonSample.limits sample_model JsonSample.eight = Ok (JsonSample.user Null 8) /\
  forall row, decode_model_line JsonSample.limits sample_model JsonSample.twice <> Ok row.
Proof.
  split; [|split].
  - apply (proj2 (jsonl_lines_exact sample_builder sample_model JsonSample.limits _ _ sample_freeze)).
    sample_fields [("id"%stdpp, DocU64 7)] [("id"%stdpp, JU64 7)].
  - apply (proj2 (jsonl_lines_exact sample_builder sample_model JsonSample.limits _ _ sample_freeze)).
    sample_fields [("id"%stdpp, DocU64 8); ("mail"%stdpp, DocUnit)] [("id"%stdpp, JU64 8); ("mail"%stdpp, JNull)].
  - intros row H. destruct (proj1 (jsonl_lines_exact sample_builder sample_model JsonSample.limits _ row sample_freeze) H) as (entries & fields & Hdoc & Hn & _).
    assert (E : @json_document _ JsonSample.json JsonSample.twice = Some (DocMap [("id"%stdpp, DocU64 7); ("id"%stdpp, DocU64 8)])) by reflexivity.
    rewrite E in Hdoc. injection Hdoc as <-. apply NoDup_cons in Hn as [Hn _]. apply Hn. left.
Defined.
