(* ===== verification/JsonlEngine.v ===== *)
(** * The JSON-lines engine ([engines/jsonl/src/source.rs], [stream.rs],
    [lib.rs])

    Models are bound to files below a root directory; a bound file is pinned
    by an open handle and opened again, checked against the handle, for every
    execution.  Every call to the file system happens at its own time, so the
    files may change between any two of them.  A plan of sources, filters,
    projections, unnests and slices becomes a chain of operators that every
    line runs through on its own; batches are pulled from the lines as
    needed. *)
From Stdlib Require Import ZArith Lia.
From stdpp Require Import list.
From S2P Require Import Prelude Mutation Foreign Truth BTree Types Values Fingerprint Model Row Expr ExprPrepare Plan Placement DataSet Executor Stream Writes MemoryStore MemoryEngine Pipeline PipelineCompile Wire WireDecode JsonlDecode.

Local Open Scope Z_scope.

(** ** Paths: the components of [std::path::Path] *)
Record Path := mkPath { p_absolute : bool; p_components : list string }.

#[export] Instance Path_eq_dec : EqDecision Path.
Proof. solve_decision. Defined.

Definition path_is_empty (p : Path) : bool := negb (p_absolute p) && match p_components p with [] => true | _ => false end.

Definition path_join (p q : Path) : Path :=
  if p_absolute q then q else mkPath (p_absolute p) (p_components p ++ p_components q).

Fixpoint is_prefix (l k : list string) : bool :=
  match l, k with
  | [], _ => true
  | x :: l', y :: k' => String.eqb x y && is_prefix l' k'
  | _, [] => false
  end.
Definition path_starts_with (p base : Path) : bool :=
  Bool.eqb (p_absolute p) (p_absolute base) && is_prefix (p_components base) (p_components p).

(** ** The file system at a time; [None] is an I/O error *)
Record Metadata := mkMetadata { meta_is_file : bool; meta_is_dir : bool; meta_dev : Z; meta_ino : Z; meta_len : Z }.

Class FileSystem := {
  File : Type;
  fs_canonicalize : nat -> Path -> option Path;
  fs_metadata : nat -> Path -> option Metadata;
  fs_open : nat -> Path -> option File;
  file_metadata : nat -> File -> option Metadata;
  (** What successive reads of a file just opened return. *)
  file_reads : File -> list (option (list Z))
}.

(** Unix: device and inode. *)
Definition same_file (l r : Metadata) : bool := (meta_dev l =? meta_dev r) && (meta_ino l =? meta_ino r).

Section Source.
Context {F : Foreign} {FS : FileSystem}.

Record JsonlSource := mkJsonlSource { src_model : ModelDef; src_path : Path; src_root : Path; src_file : File }.
Definition Sources := list (string * JsonlSource).

(** The calls start at time [t], one after the other. *)
Definition open_file (t : nat) (s : JsonlSource) : Result File :=
  let? canonical := ok_or (fs_canonicalize t (src_path s)) "JSONL-SOURCE-005" in
  guard (path_starts_with canonical (src_root s)) "JSONL-SOURCE-002" ;;?
  let? metadata := ok_or (fs_metadata (t + 1) canonical) "JSONL-SOURCE-005" in
  guard (meta_is_file metadata) "JSONL-SOURCE-003" ;;?
  let? file := ok_or (fs_open (t + 2) canonical) "JSONL-SOURCE-005" in
  let? opened := ok_or (file_metadata (t + 3) file) "JSONL-SOURCE-005" in
  let? pinned := ok_or (file_metadata (t + 4) (src_file s)) "JSONL-SOURCE-005" in
  guard (same_file pinned metadata && same_file pinned opened) "JSONL-SOURCE-005" ;;?
  Ok file.

Definition canonical_root (t : nat) (root : Path) : Result Path :=
  let? root := ok_or (fs_canonicalize t root) "JSONL-SOURCE-001" in
  let? metadata := ok_or (fs_metadata (t + 1) root) "JSONL-SOURCE-001" in
  guard (meta_is_dir metadata) "JSONL-SOURCE-001" ;;?
  Ok root.

Definition resolve_source_path (t : nat) (root relative : Path) : Result Path :=
  guard (negb (path_is_empty relative || p_absolute relative)) "JSONL-SOURCE-002" ;;?
  let? canonical := ok_or (fs_canonicalize t (path_join root relative)) "JSONL-SOURCE-003" in
  guard (path_starts_with canonical root) "JSONL-SOURCE-002" ;;?
  let? metadata := ok_or (fs_metadata (t + 1) canonical) "JSONL-SOURCE-003" in
  guard (meta_is_file metadata) "JSONL-SOURCE-003" ;;?
  Ok canonical.

Definition bind_definition (t : nat) (sources : Sources) (root : Path) (model : ModelDef) (relative : Path) : Result Sources :=
  let? path := resolve_source_path t root relative in
  let key := md_key model in
  guard (match bt_get key sources with Some _ => false | None => true end) "JSONL-SOURCE-004" ;;?
  let? file := ok_or (fs_open (t + 2) path) "JSONL-SOURCE-003" in
  let? opened := ok_or (file_metadata (t + 3) file) "JSONL-SOURCE-003" in
  let? current := ok_or (fs_metadata (t + 4) path) "JSONL-SOURCE-003" in
  guard (same_file opened current) "JSONL-SOURCE-005" ;;?
  Ok (bt_insert key (mkJsonlSource model path root file) sources).

(** [bind_model]: the definition of the model may fail. *)
Definition bind_model (t : nat) (sources : Sources) (root : Path) (model : Result ModelDef) (relative : Path) : Result Sources :=
  let? model := model in bind_definition t sources root model relative.
End Source.

(** ** Reading lines: a [BufReader] of a [Take] of a file

    The bytes of the buffer that are not consumed, and what the reads to come
    return ([None] an error, no bytes the end of the file). *)
Record LineReader := mkLineReader { rd_buffer : list Z; rd_reads : list (option (list Z)) }.

Definition fill_buf : Mut LineReader (list Z) := fun r =>
  match rd_buffer r with
  | [] =>
      match rd_reads r with
      | [] => (Ok [], r)
      | None :: reads => (error "JSONL-SOURCE-005", mkLineReader [] reads)
      | Some chunk :: reads => (Ok chunk, mkLineReader chunk reads)
      end
  | available => (Ok available, r)
  end.

Definition consume (n : nat) (r : LineReader) : LineReader := mkLineReader (drop n (rd_buffer r)) (rd_reads r).

(** [Read::take]: the buffer of a read is no longer than the bytes left. *)
Fixpoint take_reads (limit : Z) (reads : list (option (list Z))) : list (option (list Z)) :=
  match reads with
  | [] => []
  | r :: rest =>
      if limit <=? 0 then []
      else
        match r with
        | None => None :: take_reads limit rest
        | Some chunk =>
            let chunk := take (Z.to_nat limit) chunk in
            Some chunk :: take_reads (limit - zlen chunk) rest
        end
  end.

Definition newline : Z := 10.

Fixpoint position (b : Z) (l : list Z) : option nat :=
  match l with
  | [] => None
  | x :: l' => if x =? b then Some O else S <$> position b l'
  end.

(** The loop of [read_bounded_line]: the state is the reader and the line so
    far.  Every turn but the first takes one read. *)
Fixpoint read_line_loop (fuel : nat) (max_line_bytes : nat) (s : LineReader * list Z) : Result bool * (LineReader * list Z) :=
  match fuel with
  | O => (error "fuel", s)
  | S fuel' =>
      let '(reader, buffer) := s in
      match fill_buf reader with
      | (Err d, reader) => (Err d, (reader, buffer))
      | (Ok [], reader) => (Ok (match buffer with [] => false | _ => true end), (reader, buffer))
      | (Ok available, reader) =>
          let found := position newline available in
          let content_len := default (length available) found in
          if Nat.ltb max_line_bytes (length buffer + content_len) then (error "JSONL-LIMIT-002", (reader, buffer))
          else
            let buffer := buffer ++ take content_len available in
            match found with
            | Some _ => (Ok true, (consume (content_len + 1) reader, buffer))
            | None => read_line_loop fuel' max_line_bytes (consume content_len reader, buffer)
            end
      end
  end.

Definition read_bounded_line (max_line_bytes : nat) (s : LineReader * list Z) : Result bool * (LineReader * list Z) :=
  read_line_loop (S (S (length (rd_reads (fst s))))) max_line_bytes (fst s, []).

(** ** Operators *)
Section Stream.
Context {F : Foreign} {W : WireForeign F} {J : JsonForeign F} {FS : FileSystem}.

Inductive StreamOp :=
| OpFilter (condition : LogicalExpr)
| OpProject (projection : LogicalProjection)
| OpUnnest (element : TypeDef)
| OpSlice (offset_remaining : Z) (limit_remaining : option Z).

Definition exhausted (op : StreamOp) : bool := match op with OpSlice _ (Some n) => n =? 0 | _ => false end.

Record CompiledPlan := mkCompiledPlan { cp_source : JsonlSource; cp_ops : list StreamOp; cp_output : PlanOutput }.

(** [StreamRow]: its output. *)
Definition record_of (row : ExecutionRow) : option DynRow := match row with RModel r => Some r | _ => None end.

Definition enforce_rows (limits : ExecutionLimits) (rows : list ExecutionRow) : Result unit :=
  enforce_row_limit limits (length rows) ;;? enforce_byte_limit limits rows.

Definition stream_eval_context (e : LogicalExpr) (row : ExecutionRow) (parameters : Parameters) : Result EvalContext :=
  match pe_scopes e with
  | [] => Ok (with_parameters eval_context_new parameters)
  | [_] =>
      let? record := ok_or (record_of row) "JSONL-EXPR-001" in
      Ok (with_parameters (eval_context_single (row_view record)) parameters)
  | _ => error "JSONL-EXPR-002"
  end.

Definition stream_evaluate_expr (parameters : Parameters) (e : LogicalExpr) (row : ExecutionRow) : Result Datum :=
  let? context := stream_eval_context e row parameters in evaluate_datum e context.

Definition stream_evaluate_projection (parameters : Parameters) (p : LogicalProjection) (row : ExecutionRow) : Result Datum :=
  let? values := mapR (fun e => stream_evaluate_expr parameters e row) (lp_expressions p) in
  let? datum :=
    match lp_kind p with
    | ProjectValue => ok_or (head values) "JSONL-PROJECT-001"
    | ProjectTuple => Ok (DValue (VTuple values))
    | ProjectRecord =>
        guard (Nat.eqb (length (lp_names p)) (length values)) "JSONL-PROJECT-002" ;;?
        Ok (DValue (VRecord (bt_collect (combine (lp_names p) values))))
    end in
  validate_datum (lp_ty p) Required datum ;;? Ok datum.

(** One row through one operator, after the rows it has put out already. *)
Definition apply_op (parameters : Parameters) (limits : ExecutionLimits) (row : ExecutionRow) (output : list ExecutionRow)
  : Mut StreamOp (list ExecutionRow) := fun op =>
  match op with
  | OpFilter condition =>
      (let? d := stream_evaluate_expr parameters condition row in
       match d with
       | DValue (VTruth TTrue) => Ok (output ++ [row])
       | DValue (VTruth _) => Ok output
       | _ => error "JSONL-FILTER-001"
       end, op)
  | OpProject p => (let? d := stream_evaluate_projection parameters p row in Ok (output ++ [RValue d]), op)
  | OpUnnest element =>
      (match row with
       | RValue Missing | RValue Null => Ok output
       | RValue (DValue (VList values)) =>
           foldR (fun output v =>
             validate_datum element Required v ;;?
             let output := output ++ [RValue v] in
             enforce_rows limits output ;;? Ok output) values output
       | RValue (DValue _) => error "JSONL-UNNEST-002"
       | _ => error "JSONL-UNNEST-001"
       end, op)
  | OpSlice offset limit =>
      if 0 <? offset then (Ok output, OpSlice (offset - 1) limit)
      else
        match limit with
        | Some n => if n =? 0 then (Ok output, op) else (Ok (output ++ [row]), OpSlice offset (Some (n - 1)))
        | None => (Ok (output ++ [row]), op)
        end
  end.

Fixpoint apply_rows (parameters : Parameters) (limits : ExecutionLimits) (rows : list ExecutionRow) (output : list ExecutionRow)
  : Mut StreamOp (list ExecutionRow) :=
  match rows with
  | [] => mret output
  | row :: rest => let! output := apply_op parameters limits row output in apply_rows parameters limits rest output
  end.

Fixpoint apply_chain (parameters : Parameters) (limits : ExecutionLimits) (ops : list StreamOp) (rows : list ExecutionRow)
  : Result (list ExecutionRow) * list StreamOp :=
  match ops with
  | [] => (Ok rows, [])
  | op :: rest =>
      let '(r, op) := apply_rows parameters limits rows [] op in
      match (let? next := r in enforce_rows limits next ;;? Ok next) with
      | Err d => (Err d, op :: rest)
      | Ok [] => (Ok [], op :: rest)
      | Ok next => let '(r, rest) := apply_chain parameters limits rest next in (r, op :: rest)
      end
  end.

Definition apply_ops (parameters : Parameters) (limits : ExecutionLimits) (initial : ExecutionRow)
  : Mut (list StreamOp) (list ExecutionRow) := fun ops =>
  match enforce_rows limits [initial] with
  | Err d => (Err d, ops)
  | Ok _ => apply_chain parameters limits ops [initial]
  end.

(** ** The stream *)
Record JsonlStream := mkJsonlStream {
  js_reader : LineReader;
  js_model : ModelDef;
  js_ops : list StreamOp;
  js_parameters : Parameters;
  js_output : PlanOutput;
  js_execution_limits : ExecutionLimits;
  js_jsonl_limits : JsonlLimits;
  js_batch_rows : nat;
  js_pending : list ExecutionRow;
  js_line_buffer : list Z;
  js_line_number : Z;
  js_scanned_rows : Z;
  js_done : bool;
  js_cancelled : bool
}.

(** What a pull changes. *)
Definition set_read (s : JsonlStream) (r : LineReader * list Z) : JsonlStream :=
  mkJsonlStream (fst r) (js_model s) (js_ops s) (js_parameters s) (js_output s) (js_execution_limits s) (js_jsonl_limits s)
    (js_batch_rows s) (js_pending s) (snd r) (js_line_number s) (js_scanned_rows s) (js_done s) (js_cancelled s).
Definition set_done (s : JsonlStream) : JsonlStream :=
  mkJsonlStream (js_reader s) (js_model s) (js_ops s) (js_parameters s) (js_output s) (js_execution_limits s) (js_jsonl_limits s)
    (js_batch_rows s) (js_pending s) (js_line_buffer s) (js_line_number s) (js_scanned_rows s) true (js_cancelled s).
Definition count_line (s : JsonlStream) : JsonlStream :=
  mkJsonlStream (js_reader s) (js_model s) (js_ops s) (js_parameters s) (js_output s) (js_execution_limits s) (js_jsonl_limits s)
    (js_batch_rows s) (js_pending s) (js_line_buffer s) (sat_add (js_line_number s) 1) (sat_add (js_scanned_rows s) 1) (js_done s) (js_cancelled s).
Definition set_ops (s : JsonlStream) (ops : list StreamOp) : JsonlStream :=
  mkJsonlStream (js_reader s) (js_model s) ops (js_parameters s) (js_output s) (js_execution_limits s) (js_jsonl_limits s)
    (js_batch_rows s) (js_pending s) (js_line_buffer s) (js_line_number s) (js_scanned_rows s) (js_done s) (js_cancelled s).
Definition set_pending (s : JsonlStream) (pending : list ExecutionRow) : JsonlStream :=
  mkJsonlStream (js_reader s) (js_model s) (js_ops s) (js_parameters s) (js_output s) (js_execution_limits s) (js_jsonl_limits s)
    (js_batch_rows s) pending (js_line_buffer s) (js_line_number s) (js_scanned_rows s) (js_done s) (js_cancelled s).

(** [line.strip_suffix('\r').unwrap_or(line)], on the bytes. *)
Definition strip_carriage_return (line : list Z) : list Z :=
  match rev line with 13 :: l => rev l | _ => line end.

Definition decode_line (limits : JsonlLimits) (model : ModelDef) (bytes : list Z) : Result DynRow :=
  guard (utf8_valid bytes) "JSONL-DECODE-007" ;;?
  let line := strip_carriage_return bytes in
  guard (match line with [] => false | _ => true end) "JSONL-DECODE-002" ;;?
  decode_model_line limits model (string_of line).

(** A line that was read, up to the rows it puts out. *)
Definition process_line : Mut JsonlStream unit := fun s =>
  let s := count_line s in
  match (guard (js_scanned_rows s <=? jl_max_scanned_rows (js_jsonl_limits s)) "JSONL-LIMIT-003" ;;?
         let? row := decode_line (js_jsonl_limits s) (js_model s) (js_line_buffer s) in
         enforce_rows (js_execution_limits s) [RModel row] ;;? Ok row) with
  | Err d => (Err d, s)
  | Ok row =>
      match apply_ops (js_parameters s) (js_execution_limits s) (RModel row) (js_ops s) with
      | (Err d, ops) => (Err d, set_ops s ops)
      | (Ok produced, ops) => (Ok tt, set_pending (set_ops s ops) (js_pending s ++ produced))
      end
  end.

(** One turn of the loop of [fill_pending]. *)
Definition fill_turn : Mut JsonlStream unit := fun s =>
  if existsb exhausted (js_ops s) then (Ok tt, set_done s)
  else
    match read_bounded_line (jl_max_line_bytes (js_jsonl_limits s)) (js_reader s, js_line_buffer s) with
    | (Err d, r) => (Err d, set_read s r)
    | (Ok false, r) => (Ok tt, set_done (set_read s r))
    | (Ok true, r) => process_line (set_read s r)
    end.

Fixpoint fill_pending (fuel : nat) : Mut JsonlStream unit := fun s =>
  match fuel with
  | O => (error "fuel", s)
  | S fuel' =>
      match js_pending s with
      | [] => if js_done s then (Ok tt, s) else (fill_turn ;;! fill_pending fuel') s
      | _ => (Ok tt, s)
      end
  end.

(** Every line takes at least one byte or one read. *)
Definition reads_size (reads : list (option (list Z))) : nat := list_sum (map (fun c => S (length (default [] c))) reads).
Definition reader_size (r : LineReader) : nat := length (rd_buffer r) + reads_size (rd_reads r).
Definition fill_fuel (s : JsonlStream) : nat := reader_size (js_reader s) + 3.

(** [room] rows are still missing in the batch. *)
Fixpoint batch_loop (room : nat) (rows : list ExecutionRow) (bytes : Z) (s : JsonlStream) : Result (list ExecutionRow) * JsonlStream :=
  match room with
  | O => (Ok rows, s)
  | S room' =>
      match fill_pending (fill_fuel s) s with
      | (Err d, s) => (Err d, s)
      | (Ok _, s) =>
          match js_pending s with
          | [] => (Ok rows, s)
          | next :: rest =>
              let row_bytes := execution_row_bytes next in
              let over n := match max_materialized_bytes (js_execution_limits s) with Some max => max <? n | None => false end in
              if over row_bytes then (error "ENGINE-LIMIT-005", s)
              else if match rows with [] => false | _ => true end && over (sat_add bytes row_bytes) then (Ok rows, s)
              else batch_loop room' (rows ++ [next]) (sat_add bytes row_bytes) (set_pending s rest)
          end
      end
  end.

Definition target_rows (s : JsonlStream) : nat :=
  match max_materialized_rows (js_execution_limits s) with
  | Some max => Nat.min (js_batch_rows s) (Nat.max 1 (Z.to_nat max))
  | None => js_batch_rows s
  end.

Definition jsonl_next_batch (s : JsonlStream) : Result (option ExecutionBatch) * JsonlStream :=
  if js_cancelled s || (js_done s && match js_pending s with [] => true | _ => false end) then (Ok None, s)
  else
    match batch_loop (target_rows s) [] 0 s with
    | (Err d, s) => (Err d, s)
    | (Ok [], s) => (Ok None, s)
    | (Ok rows, s) => (Ok (Some (mkExecutionBatch (js_output s) rows)), s)
    end.

Definition jsonl_cancel (s : JsonlStream) : JsonlStream :=
  mkJsonlStream (js_reader s) (js_model s) (js_ops s) (js_parameters s) (js_output s) (js_execution_limits s) (js_jsonl_limits s)
    (js_batch_rows s) [] (js_line_buffer s) (js_line_number s) (js_scanned_rows s) (js_done s) true.

#[export] Instance jsonl_data_stream : DataStream JsonlStream := {
  ds_next_batch := jsonl_next_batch;
  ds_cancel := jsonl_cancel
}.

(** ** Compilation of a plan: from its root to its source *)
Definition unsupported {A} : Result A := error "JSONL-UNSUPPORTED-001".
Definition free_of_subqueries (e : LogicalExpr) : bool := match existential_dependencies e with [] => true | _ => false end.

(** A plan refers backwards, so its nodes bound the walk. *)
Fixpoint compile_walk (fuel : nat) (plan : LogicalPlan) (current : nat) (reversed : list StreamOp) : Result (ModelDef * list StreamOp) :=
  match fuel with
  | O => error "fuel"
  | S fuel' =>
      let? node := ok_or (plan_nodes plan !! current) "JSONL-EXEC-002" in
      match node with
      | NSource model _ => Ok (model, reversed)
      | NFilter input condition =>
          if free_of_subqueries condition then compile_walk fuel' plan input (reversed ++ [OpFilter condition]) else unsupported
      | NProject input projection =>
          if forallb free_of_subqueries (lp_expressions projection) then compile_walk fuel' plan input (reversed ++ [OpProject projection])
          else unsupported
      | NUnnest input element => compile_walk fuel' plan input (reversed ++ [OpUnnest element])
      | NSlice input offset limit => compile_walk fuel' plan input (reversed ++ [OpSlice offset limit])
      | _ => unsupported
      end
  end.

Definition compile_plan (sources : Sources) (plan : LogicalPlan) : Result CompiledPlan :=
  let? r := compile_walk (S (length (plan_nodes plan))) plan (plan_root plan) [] in
  let '(source_model, reversed) := r in
  let? source := ok_or (bt_get (md_key source_model) sources) "JSONL-SOURCE-006" in
  guard (bool_decide (md_fingerprint (src_model source) = md_fingerprint source_model)) "JSONL-SOURCE-007" ;;?
  Ok (mkCompiledPlan source (rev reversed) (plan_output plan)).

(** [JsonlStream::open], from time [t]. *)
Definition jsonl_open (t : nat) (sources : Sources) (plan : LogicalPlan) (parameters : Parameters) (options : ExecutionOptions)
  (jsonl_limits : JsonlLimits) : Result JsonlStream :=
  validate_plan plan (eo_limits options) ;;?
  jsonl_limits_validate jsonl_limits ;;?
  guard (negb (Nat.eqb (eo_batch_rows options) 0)) "JSONL-EXEC-001" ;;?
  let? compiled := compile_plan sources plan in
  let? file := open_file t (cp_source compiled) in
  let? metadata := ok_or (file_metadata (t + 5) file) "JSONL-SOURCE-005" in
  guard (meta_len metadata <=? jl_max_source_bytes jsonl_limits) "JSONL-LIMIT-001" ;;?
  Ok (mkJsonlStream (mkLineReader [] (take_reads (meta_len metadata) (file_reads file))) (src_model (cp_source compiled)) (cp_ops compiled)
        parameters (cp_output compiled) (eo_limits options) jsonl_limits (eo_batch_rows options) [] [] 0 0 false false).
End Stream.

Definition jsonl_capabilities : Capabilities :=
  let materializing := Unsupported "bounded incremental JSONL execution does not yet implement this materializing operator" in
  let multi_source := Unsupported "bounded incremental JSONL execution does not yet implement multi-source execution" in
  let writes := Unsupported "Stage G JSONL execution is read-only" in
  mkCapabilities
    (mkPipelineCapabilities ExactNative ExactNative ExactNative materializing ExactNative materializing materializing materializing
       ExactNative multi_source multi_source multi_source)
    (mkWriteCapabilities writes writes writes writes)
    (mkTransactionCapabilities writes writes
       (Unsupported "read-only JSONL execution does not own a multi-model transactional store")).

Section Engine.
Context {F : Foreign} {W : WireForeign F} {J : JsonForeign F} {FS : FileSystem}.
Context (version : string).

Record JsonlEngine := mkJsonlEngine {
  je_info : EngineInfo;
  je_capabilities : Capabilities;
  je_root : Path;
  je_sources : Sources;
  je_limits : JsonlLimits
}.

Definition jsonl_with_limits (t : nat) (root : Path) (limits : JsonlLimits) : Result JsonlEngine :=
  jsonl_limits_validate limits ;;?
  let? root := canonical_root t root in
  Ok (mkJsonlEngine (mkEngineInfo "jsonl" version) jsonl_capabilities root [] limits).

Definition jsonl_new (t : nat) (root : Path) : Result JsonlEngine := jsonl_with_limits t root default_jsonl_limits.

Definition jsonl_bind_dynamic (t : nat) (e : JsonlEngine) (model : ModelDef) (relative : Path) : Result JsonlEngine :=
  let? sources := bind_definition t (je_sources e) (je_root e) model relative in
  Ok (mkJsonlEngine (je_info e) (je_capabilities e) (je_root e) sources (je_limits e)).

Definition jsonl_bind (t : nat) (e : JsonlEngine) (model : Result ModelDef) (relative : Path) : Result JsonlEngine :=
  let? sources := bind_model t (je_sources e) (je_root e) model relative in
  Ok (mkJsonlEngine (je_info e) (je_capabilities e) (je_root e) sources (je_limits e)).

#[export] Instance jsonl_engine : Engine JsonlEngine := {
  engine_info := je_info;
  capabilities := je_capabilities;
  support_for_node := default_support_for_node je_capabilities
}.

Definition jsonl_execute_plan (t : nat) (e : JsonlEngine) (plan : LogicalPlan) (parameters : Parameters) (options : ExecutionOptions)
  : Result JsonlStream :=
  let? placement := analyze_engine_placement plan e (eo_placement options) in
  guard (is_fully_engine placement) "JSONL-PLACEMENT-001" ;;?
  jsonl_open t (je_sources e) plan parameters options (je_limits e).

(** Pipelines: asking a node for its plan may keep it in the pool. *)
Definition jsonl_execute (t node : nat) (e : JsonlEngine) (parameters : Parameters) (options : ExecutionOptions) : Mut Pool JsonlStream :=
  let! plan := prepared_plan node in
  mlift (jsonl_execute_plan t e plan parameters options).

Definition jsonl_explain (node : nat) (e : JsonlEngine) (policy : PlacementPolicy) : Mut Pool ExplainPlan :=
  let! plan := prepared_plan node in
  let! placement := mlift (analyze_engine_placement plan e policy) in
  mret (explain_plan_new (je_info e) plan placement).
End Engine.
