(* ===== verification/JsonlChain.v ===== *)
(** * Lines and chains

    What [read_bounded_line] returns for readers of every kind, and, for a
    reader without errors, that it returns the lines of the file whatever the
    chunks it comes in.  Then the chain of operators against the stages of the
    memory executor: an operator turns every row into rows of its own and may
    count; running the rows one by one through a chain of operators gives the
    same rows, in the same order, as running all rows through one operator
    after the other, which is what the memory executor does. *)
From Stdlib Require Import ZArith Lia.
From stdpp Require Import list.
From S2P Require Import Prelude Mutation Foreign Truth BTree Types Values Fingerprint Model Row Expr ExprPrepare Plan Executor Optimize ExecutorSpec Stream Wire WireDecode JsonlDecode JsonlEngine.

Local Open Scope Z_scope.

(** ** Lines *)
Fixpoint lines_from (current bytes : list Z) : list (list Z) :=
  match bytes with
  | [] => match current with [] => [] | _ => [current] end
  | b :: rest => if b =? newline then current :: lines_from [] rest else lines_from (current ++ [b]) rest
  end.
Definition file_lines : list Z -> list (list Z) := lines_from [].

Lemma lines_from_plain l : forall current rest, position newline l = None -> lines_from current (l ++ rest) = lines_from (current ++ l) rest.
Proof.
  induction l as [|b l IH]; intros current rest; [by rewrite app_nil_r|]. cbn [position app lines_from].
  destruct (b =? newline); [done|]. destruct (position newline l) eqn:E; [done|]. intros _.
  by rewrite IH, <- app_assoc by done.
Qed.

Lemma lines_from_newline l : forall k current rest, position newline l = Some k ->
  lines_from current (l ++ rest) = (current ++ take k l) :: lines_from [] (drop (k + 1) l ++ rest).
Proof.
  induction l as [|b l IH]; intros k current rest; [done|]. cbn [position app lines_from].
  destruct (b =? newline); [intros [= <-]; by rewrite app_nil_r|].
  destruct (position newline l) as [j|] eqn:E; [|done]. intros [= <-]. rewrite (IH j) by done. by rewrite <- app_assoc.
Qed.

Lemma position_bound b l k : position b l = Some k -> (k < length l)%nat.
Proof.
  revert k. induction l as [|x l IH]; intros k; [done|]. cbn [position length]. destruct (x =? b); [intros [= <-]; lia|].
  destruct (position b l) as [j|]; [|done]. intros [= <-]. specialize (IH j eq_refl). lia.
Qed.

Lemma lines_from_grows bytes : forall current line rest, lines_from current bytes = line :: rest -> (length current <= length line)%nat.
Proof.
  induction bytes as [|b bytes IH]; intros current line rest; cbn [lines_from].
  { destruct current; [done|]. by intros [= <- _]. }
  destruct (b =? newline); [by intros [= <- _]|]. intros H%IH. rewrite length_app in H. cbn in H. lia.
Qed.

(** ** Every reader *)
Definition buffered (r : LineReader) : nat := match rd_buffer r with [] => 0 | _ => 1 end.
Definition line_fuel (r : LineReader) : nat := length (rd_reads r) + buffered r + 1.

Lemma fill_buf_cases r : exists outcome r', fill_buf r = (outcome, r') /\ (reader_size r' <= reader_size r)%nat /\
  match outcome with
  | Err _ => True
  | Ok [] => True
  | Ok available => rd_buffer r' = available /\ (S (length (rd_reads r')) + 1 <= line_fuel r)%nat
  end.
Proof.
  destruct r as [buffer reads]. unfold fill_buf, line_fuel, reader_size, buffered. cbn [rd_buffer rd_reads].
  destruct buffer as [|b buffer]; [|eexists _, _; split; [reflexivity|]; cbn; split_and!; done || lia].
  destruct reads as [|[[|b chunk]|] reads]; eexists _, _; (split; [reflexivity|]); cbn; split_and!; done || lia.
Qed.

Lemma consume_size n r : (n <= length (rd_buffer r))%nat -> (reader_size (consume n r) + n = reader_size r)%nat.
Proof. intros H. unfold reader_size, consume. cbn [rd_buffer rd_reads]. rewrite length_drop. lia. Qed.

(** More fuel changes nothing, the line keeps its bound, and a line costs
    bytes. *)
Lemma read_line_progress max fuel : forall r buffer, (line_fuel r <= fuel)%nat -> (length buffer <= max)%nat ->
  (forall fuel', (fuel <= fuel')%nat -> read_line_loop fuel' max (r, buffer) = read_line_loop fuel max (r, buffer)) /\
  forall outcome r' buffer', read_line_loop fuel max (r, buffer) = (outcome, (r', buffer')) ->
    (length buffer' <= max)%nat /\ (reader_size r' <= reader_size r)%nat /\
    (outcome = Ok true -> (reader_size r' < reader_size r + length buffer)%nat) /\
    (outcome = Ok false -> buffer' = []).
Proof.
  induction fuel as [|fuel IH]; intros r buffer Hf Hb; [unfold line_fuel in Hf; lia|].
  destruct (fill_buf_cases r) as (o & r1 & E & Hs & Ho).
  assert (G : forall fuel, read_line_loop (S fuel) max (r, buffer) =
    match o with
    | Err d => (Err d, (r1, buffer))
    | Ok [] => (Ok (match buffer with [] => false | _ => true end), (r1, buffer))
    | Ok available =>
        let found := position newline available in
        let content_len := default (length available) found in
        if Nat.ltb max (length buffer + content_len) then (error "JSONL-LIMIT-002", (r1, buffer))
        else match found with
             | Some _ => (Ok true, (consume (content_len + 1) r1, buffer ++ take content_len available))
             | None => read_line_loop fuel max (consume content_len r1, buffer ++ take content_len available)
             end
    end) by (intros n; cbn [read_line_loop]; by rewrite E). clear E.
  destruct o as [[|a available]|d]; [| |].
  1: { split; [intros [|f] ?; [lia|by rewrite !G]|]. rewrite G. intros outcome r' buffer' [= <- <- <-].
       split_and!; [done|done| |]; destruct buffer; try done; cbn; lia. }
  2: { split; [intros [|f] ?; [lia|by rewrite !G]|]. rewrite G. intros outcome r' buffer' [= <- <- <-]. done. }
  destruct Ho as [Hr1 Hfuel]. remember (a :: available) as avail eqn:Ha. cbv zeta in G.
  assert (Gl : forall fuel, read_line_loop (S fuel) max (r, buffer) =
    if Nat.ltb max (length buffer + default (length avail) (position newline avail)) then (error "JSONL-LIMIT-002", (r1, buffer))
    else match position newline avail with
         | Some _ => (Ok true, (consume (default (length avail) (position newline avail) + 1) r1,
                        buffer ++ take (default (length avail) (position newline avail)) avail))
         | None => read_line_loop fuel max (consume (default (length avail) (position newline avail)) r1,
                     buffer ++ take (default (length avail) (position newline avail)) avail)
         end) by (intros n; rewrite G; subst avail; done). clear G.
  destruct (Nat.ltb_spec max (length buffer + default (length avail) (position newline avail))) as [Hl|Hl].
  { split; [intros [|f] ?; [lia|by rewrite !Gl]|]. rewrite Gl. intros outcome r' buffer' [= <- <- <-]. done. }
  destruct (position newline avail) as [k|] eqn:Ek; cbn [from_option id] in *.
  { split; [intros [|f] ?; [lia|by rewrite !Gl]|]. rewrite Gl. intros outcome r' buffer' [= <- <- <-].
    pose proof (position_bound _ _ _ Ek). pose proof (consume_size (k + 1) r1 ltac:(rewrite Hr1; lia)) as Hc. rewrite length_app, length_take.
    split_and!; [lia|lia|lia|done]. }
  rewrite take_ge in Gl by done. pose proof (consume_size (length avail) r1 ltac:(rewrite Hr1; lia)) as Hc.
  assert (Hlf : (line_fuel (consume (length avail) r1) <= fuel)%nat).
  { unfold line_fuel, buffered, consume. cbn [rd_buffer rd_reads]. rewrite Hr1, drop_all. lia. }
  destruct (IH (consume (length avail) r1) (buffer ++ avail) Hlf ltac:(rewrite length_app; lia)) as [H1 H2].
  split; [intros [|f] ?; [lia|]; rewrite !Gl; apply H1; lia|]. rewrite Gl. intros outcome r' buffer' (B1 & B2 & B3 & B4)%H2.
  rewrite length_app in B3. split_and!; [done|lia| |done]. intros Ht. specialize (B3 Ht). lia.
Qed.

Lemma read_bounded_line_progress max r buffer outcome r' buffer' : read_bounded_line max (r, buffer) = (outcome, (r', buffer')) ->
  (length buffer' <= max)%nat /\ (reader_size r' <= reader_size r)%nat /\
  (outcome = Ok true -> (reader_size r' < reader_size r)%nat) /\ (outcome = Ok false -> buffer' = []).
Proof.
  unfold read_bounded_line. cbn [fst]. intros H.
  destruct (read_line_progress max (S (S (length (rd_reads r)))) r []) as [_ G]; [|cbn; lia|].
  { unfold line_fuel, buffered. destruct (rd_buffer r); lia. }
  destruct (G _ _ _ H) as (H1 & H2 & H3 & H4). split_and!; [done|done| |done]. intros Ht. specialize (H3 Ht). cbn in H3. lia.
Qed.

(** ** Readers without errors *)
Definition clean (r : LineReader) : Prop := Forall (fun c => exists b chunk, c = Some (b :: chunk)) (rd_reads r).
Definition reader_bytes (r : LineReader) : list Z := rd_buffer r ++ concat (map (default []) (rd_reads r)).

Lemma clean_fill r : clean r -> exists r', fill_buf r = (Ok (rd_buffer r'), r') /\ clean r' /\ reader_bytes r' = reader_bytes r /\
  (rd_buffer r' = [] -> reader_bytes r = []).
Proof.
  intros H. destruct r as [[|b buffer] reads]; unfold fill_buf, clean, reader_bytes in *; cbn [rd_buffer rd_reads] in *.
  - destruct H as [|c reads (b & chunk & ->) H]; [by exists (mkLineReader [] [])|].
    exists (mkLineReader (b :: chunk) reads). done.
  - exists (mkLineReader (b :: buffer) reads). done.
Qed.

Lemma clean_consume n r : clean r -> clean (consume n r).
Proof. done. Qed.

Lemma consume_bytes n r : (n <= length (rd_buffer r))%nat -> reader_bytes (consume n r) = drop n (reader_bytes r).
Proof. intros H. unfold reader_bytes, consume. cbn [rd_buffer rd_reads]. by rewrite drop_app_le. Qed.

(** The next line, or the end, or the limit on lines. *)
Lemma read_line_exact max fuel : forall r buffer, clean r -> (line_fuel r <= fuel)%nat -> (length buffer <= max)%nat ->
  exists outcome r' buffer', read_line_loop fuel max (r, buffer) = (outcome, (r', buffer')) /\ clean r' /\
    match lines_from buffer (reader_bytes r) with
    | [] => outcome = Ok false
    | line :: rest =>
        if (length line <=? max)%nat then outcome = Ok true /\ buffer' = line /\ file_lines (reader_bytes r') = rest
        else outcome = error "JSONL-LIMIT-002"
    end.
Proof.
  induction fuel as [|fuel IH]; intros r buffer Hc Hf Hb; [unfold line_fuel in Hf; lia|].
  destruct (clean_fill r Hc) as (r1 & E & Hc1 & Hbytes & Hend). destruct (fill_buf_cases r) as (o & r1' & E' & _ & Ho).
  rewrite E in E'. injection E' as <- <-. cbn [read_line_loop]. rewrite E, <- Hbytes.
  destruct (rd_buffer r1) as [|a available] eqn:Ea.
  { exists (Ok (match buffer with [] => false | _ => true end)), r1, buffer. split; [done|]. split; [done|]. rewrite Hbytes, Hend by done. cbn [lines_from].
    destruct buffer as [|x buffer]; [done|]. rewrite (proj2 (Nat.leb_le _ _)) by done.
    done. }
  rewrite <- Ea in *. destruct Ho as [_ Hfuel]. clear E Ea. set (avail := rd_buffer r1) in *.
  assert (Er : reader_bytes r1 = avail ++ concat (map (default []) (rd_reads r1))) by done.
  destruct (position newline avail) as [k|] eqn:Ek; cbn [from_option id].
  - pose proof (position_bound _ _ _ Ek) as Hk. rewrite Er, (lines_from_newline _ k) by done. rewrite length_app, length_take.
    destruct (Nat.ltb_spec max (length buffer + k)) as [Hl|Hl].
    + eexists _, _, _. split; [reflexivity|]. split; [done|]. by rewrite (proj2 (Nat.leb_gt _ _)) by lia.
    + eexists _, _, _. split; [reflexivity|]. split; [done|]. rewrite (proj2 (Nat.leb_le _ _)) by lia. split_and!; [done|done|].
      rewrite consume_bytes by (fold avail; lia). by rewrite Er, drop_app_le by lia.
  - rewrite Er, lines_from_plain by done. rewrite take_ge by done.
    destruct (Nat.ltb_spec max (length buffer + length avail)) as [Hl|Hl].
    + eexists _, _, _. split; [reflexivity|]. split; [done|].
      destruct (lines_from (buffer ++ avail) _) as [|line rest] eqn:El.
      { exfalso. clear -El Hl Hb. assert (G : forall bytes current, current <> [] -> lines_from current bytes <> []).
        { intros bytes. induction bytes as [|b bytes IH]; intros current H; cbn [lines_from]; [by destruct current|].
          destruct (b =? newline); [done|]. apply IH. by destruct current. }
        apply (G _ _) in El; [done|]. intros Hn. apply (f_equal length) in Hn. rewrite length_app in Hn. cbn in Hn. lia. }
      apply lines_from_grows in El. rewrite length_app in El. by rewrite (proj2 (Nat.leb_gt _ _)) by lia.
    + assert (Hlf : (line_fuel (consume (length avail) r1) <= fuel)%nat).
      { unfold line_fuel, buffered, consume. cbn [rd_buffer rd_reads]. fold avail. rewrite drop_all. lia. }
      destruct (IH (consume (length avail) r1) (buffer ++ avail) ltac:(done) Hlf ltac:(rewrite length_app; lia)) as (o & r' & b' & E & Hc' & Ho').
      exists o, r', b'. split; [done|]. split; [done|]. rewrite consume_bytes, Er, drop_app_length in Ho' by done. exact Ho'.
Qed.

(** Reading a line from a clean reader. *)
Lemma read_bounded_line_exact max r buffer : clean r -> exists outcome r' buffer',
  read_bounded_line max (r, buffer) = (outcome, (r', buffer')) /\ clean r' /\
  match file_lines (reader_bytes r) with
  | [] => outcome = Ok false
  | line :: rest =>
      if (length line <=? max)%nat then outcome = Ok true /\ buffer' = line /\ file_lines (reader_bytes r') = rest
      else outcome = error "JSONL-LIMIT-002"
  end.
Proof.
  intros Hc. apply read_line_exact; [done| |cbn; lia]. unfold line_fuel, buffered. cbn [fst]. destruct (rd_buffer r); lia.
Qed.

(** ** Limits *)
Section Limits.
Context {F : Foreign} (limits : ExecutionLimits).

Lemma rows_bytes_mono x y (l : list ExecutionRow) : x <= y -> rows_bytes x l <= rows_bytes y l.
Proof.
  revert x y. induction l as [|r l IH]; intros x y H; cbn [rows_bytes fold_left]; [done|]. apply IH. unfold sat_add. lia.
Qed.

Lemma enforce_rows_ok rows : enforce_rows limits rows = Ok tt <->
  (forall max, max_materialized_rows limits = Some max -> zlen rows <= max) /\
  (forall max, max_materialized_bytes limits = Some max -> rows_bytes 0 rows <= max).
Proof.
  unfold enforce_rows, enforce_row_limit, enforce_byte_limit, enforce_bytes. rewrite check_then.
  fold (rows_bytes 0 rows). unfold zlen. split.
  - intros [H1 H2]. split; intros max E; rewrite E in *; [apply guard_ok in H1|apply guard_ok in H2]; lia.
  - intros [H1 H2]. split; [destruct (max_materialized_rows limits) as [m|]|destruct (max_materialized_bytes limits) as [m|]]; try done;
      apply guard_ok; [specialize (H1 m eq_refl)|specialize (H2 m eq_refl)]; lia.
Qed.

Lemma enforce_rows_app a b : enforce_rows limits (a ++ b) = Ok tt -> enforce_rows limits a = Ok tt /\ enforce_rows limits b = Ok tt.
Proof.
  rewrite !enforce_rows_ok. unfold zlen. rewrite length_app, rows_bytes_app.
  pose proof (rows_bytes_grow 0 a (all_sized a) ltac:(unfold u64_max; lia) ltac:(lia)) as Ga.
  pose proof (rows_bytes_grow (rows_bytes 0 a) b (all_sized b) ltac:(lia) ltac:(lia)) as Gb.
  pose proof (rows_bytes_mono 0 (rows_bytes 0 a) b ltac:(lia)) as Gm.
  intros [H1 H2]. split; split; intros max E; [specialize (H1 max E)|specialize (H2 max E)|specialize (H1 max E)|specialize (H2 max E)]; lia.
Qed.

Lemma enforced_row rows row : enforce_rows limits rows = Ok tt -> row ∈ rows ->
  forall max, max_materialized_bytes limits = Some max -> execution_row_bytes row <= max \/ u64_max <= max.
Proof.
  intros H (a & b & ->)%list_elem_of_split max E. apply enforce_rows_app in H as [_ H]. change (row :: b) with ([row] ++ b) in H.
  apply enforce_rows_app in H as [[_ H]%enforce_rows_ok _]. specialize (H max E). cbn [rows_bytes fold_left] in H. unfold sat_add in H. lia.
Qed.
End Limits.

(** ** One operator *)
Section Ops.
Context {F : Foreign} (parameters : Parameters) (limits : ExecutionLimits).
Notation eval := (stream_evaluate_expr parameters).

Inductive op_step : StreamOp -> ExecutionRow -> list ExecutionRow -> StreamOp -> Prop :=
| step_keep c row : eval c row = Ok (DValue (VTruth TTrue)) -> op_step (OpFilter c) row [row] (OpFilter c)
| step_drop c row t : eval c row = Ok (DValue (VTruth t)) -> t <> TTrue -> op_step (OpFilter c) row [] (OpFilter c)
| step_project p row d : stream_evaluate_projection parameters p row = Ok d -> op_step (OpProject p) row [RValue d] (OpProject p)
| step_unnest_absent e d : is_absent d = true -> op_step (OpUnnest e) (RValue d) [] (OpUnnest e)
| step_unnest e l : Forall (fun v => validate_datum e Required v = Ok tt) l ->
    op_step (OpUnnest e) (RValue (DValue (VList l))) (map RValue l) (OpUnnest e)
| step_skip o l row : 0 < o -> op_step (OpSlice o l) row [] (OpSlice (o - 1) l)
| step_stop o row : o <= 0 -> op_step (OpSlice o (Some 0)) row [] (OpSlice o (Some 0))
| step_take o n row : o <= 0 -> n <> 0 -> op_step (OpSlice o (Some n)) row [row] (OpSlice o (Some (n - 1)))
| step_all o row : o <= 0 -> op_step (OpSlice o None) row [row] (OpSlice o None).

Inductive op_steps : StreamOp -> list ExecutionRow -> list ExecutionRow -> StreamOp -> Prop :=
| steps_nil op : op_steps op [] [] op
| steps_cons op row out op1 rows outs op2 :
    op_step op row out op1 -> op_steps op1 rows outs op2 -> op_steps op (row :: rows) (out ++ outs) op2.

Lemma op_steps_app op a b out op2 : op_steps op (a ++ b) out op2 ->
  exists oa ob op1, op_steps op a oa op1 /\ op_steps op1 b ob op2 /\ out = oa ++ ob.
Proof.
  revert op out. induction a as [|row a IH]; intros op out H; [exists [], out, op; split_and!; [constructor|done|done]|].
  inversion H as [|? ? o ? ? os ? Hs Hr]; subst. destruct (IH _ _ Hr) as (oa & ob & opm & Ha & Hb & ->).
  exists (o ++ oa), ob, opm. split_and!; [by econstructor|done|by rewrite app_assoc].
Qed.

Lemma op_steps_join op a b oa ob op1 op2 : op_steps op a oa op1 -> op_steps op1 b ob op2 -> op_steps op (a ++ b) (oa ++ ob) op2.
Proof. induction 1 as [|op row out op' rows outs op1 Hs Hr IH]; intros Hb; [done|]. rewrite <- app_assoc. econstructor; [done|by apply IH]. Qed.

(** The code takes the step. *)
Lemma unnest_values e l : forall output, Forall (fun v => validate_datum e Required v = Ok tt) l ->
  enforce_rows limits (output ++ map RValue l) = Ok tt ->
  foldR (fun output v => validate_datum e Required v ;;? let output := output ++ [RValue v] in enforce_rows limits output ;;? Ok output) l output =
  Ok (output ++ map RValue l).
Proof.
  induction l as [|v l IH]; intros output H Hl; [by rewrite app_nil_r|]. apply Forall_cons_1 in H as [Hv H]. cbn [foldR map] in *.
  rewrite cons_middle, app_assoc in Hl. pose proof (enforce_rows_app _ _ _ Hl) as [Hs _]. rewrite Hv. cbn [rbind]. rewrite Hs. cbn [rbind].
  rewrite IH by done. by rewrite <- app_assoc.
Qed.

Lemma apply_op_step op row out op' output : op_step op row out op' -> enforce_rows limits (output ++ out) = Ok tt ->
  apply_op parameters limits row output op = (Ok (output ++ out), op').
Proof.
  intros H Hl. destruct H as [c row E|c row t E Ht|p row d E|e d Hd|e l H|o l row Ho|o row Ho|o n row Ho Hn|o row Ho]; cbn [apply_op].
  - by rewrite E.
  - rewrite E, app_nil_r. by destruct t.
  - by rewrite E.
  - rewrite app_nil_r. by destruct d.
  - by rewrite unnest_values.
  - by rewrite (proj2 (Z.ltb_lt _ _)), app_nil_r by done.
  - by rewrite (proj2 (Z.ltb_ge _ _)), app_nil_r by done.
  - by rewrite (proj2 (Z.ltb_ge _ _)), (proj2 (Z.eqb_neq _ _)) by done.
  - by rewrite (proj2 (Z.ltb_ge _ _)) by done.
Qed.

Lemma apply_rows_steps op rows outs op' : op_steps op rows outs op' -> forall output, enforce_rows limits (output ++ outs) = Ok tt ->
  apply_rows parameters limits rows output op = (Ok (output ++ outs), op').
Proof.
  induction 1 as [op|op row out op1 rows outs op2 Hs _ IH]; intros output Hl; cbn [apply_rows]; [by rewrite app_nil_r|].
  rewrite app_assoc in Hl. pose proof (enforce_rows_app _ _ _ Hl) as [Ho _].
  unfold mbind. rewrite (apply_op_step op row out op1) by done. rewrite IH by done. by rewrite app_assoc.
Qed.

(** ** A chain of operators, within the limits *)
Inductive chain : list StreamOp -> list ExecutionRow -> list ExecutionRow -> list StreamOp -> Prop :=
| chain_nil rows : enforce_rows limits rows = Ok tt -> chain [] rows rows []
| chain_cons op rest rows next op' out rest' :
    enforce_rows limits rows = Ok tt -> op_steps op rows next op' -> chain rest next out rest' ->
    chain (op :: rest) rows out (op' :: rest').

Lemma chain_limits ops rows out ops' : chain ops rows out ops' -> enforce_rows limits rows = Ok tt /\ enforce_rows limits out = Ok tt.
Proof. induction 1 as [rows H|op rest rows next op' out rest' H _ _ [_ IH]]; done. Qed.

Lemma chain_empty ops out ops' : chain ops [] out ops' -> out = [] /\ ops' = ops.
Proof.
  revert out ops'. induction ops as [|op rest IH]; intros out ops' H; inversion H as [|? ? ? next ? ? ? _ Hs Hc]; subst; [done|].
  inversion Hs; subst. destruct (IH _ _ Hc) as [-> ->]. done.
Qed.

Lemma chain_split ops a b out ops2 : chain ops (a ++ b) out ops2 ->
  exists oa ob ops1, chain ops a oa ops1 /\ chain ops1 b ob ops2 /\ out = oa ++ ob.
Proof.
  revert a b out ops2. induction ops as [|op rest IH]; intros a b out ops2 H.
  - inversion H as [? Hl|]; subst. apply enforce_rows_app in Hl as [Ha Hb]. exists a, b, []. split_and!; [by constructor|by constructor|done].
  - inversion H as [|? ? ? next ? ? ? Hl Hs Hc]; subst. apply enforce_rows_app in Hl as [Ha Hb].
    destruct (op_steps_app _ _ _ _ _ Hs) as (na & nb & opm & Sa & Sb & ->). destruct (IH _ _ _ _ Hc) as (oa & ob & opsm & Ca & Cb & ->).
    exists oa, ob, (opm :: opsm). split_and!; [by econstructor|by econstructor|done].
Qed.

Lemma chain_snoc ops rows out ops' op next op' : chain ops rows out ops' -> op_steps op out next op' -> enforce_rows limits next = Ok tt ->
  chain (ops ++ [op]) rows next (ops' ++ [op']).
Proof.
  induction 1 as [rows H|o rest rows n o' out rest' H Hs Hc IH]; intros Ho Hl; cbn [app].
  - econstructor; [done|done|by constructor].
  - econstructor; [done|done|by apply IH].
Qed.

(** The code runs the chain. *)
Lemma apply_chain_ok ops rows out ops' : chain ops rows out ops' -> apply_chain parameters limits ops rows = (Ok out, ops').
Proof.
  induction 1 as [rows H|op rest rows next op' out rest' H Hs Hc IH]; cbn [apply_chain]; [done|].
  rewrite (apply_rows_steps _ _ _ _ Hs) by apply (chain_limits _ _ _ _ Hc). cbn [app rbind].
  destruct (chain_limits _ _ _ _ Hc) as [-> _]. cbn [rbind].
  destruct next as [|r next]; [|by rewrite IH]. by destruct (chain_empty _ _ _ Hc) as [-> ->].
Qed.

Lemma apply_ops_ok ops row out ops' : chain ops [row] out ops' -> apply_ops parameters limits row ops = (Ok out, ops').
Proof. intros H. unfold apply_ops. destruct (chain_limits _ _ _ _ H) as [-> _]. by apply apply_chain_ok. Qed.

(** An exhausted operator lets nothing through any more. *)
Lemma exhausted_steps op rows out op' : exhausted op = true -> op_steps op rows out op' -> out = [].
Proof.
  intros He H. induction H as [|op row out op1 rows outs op2 Hs _ IH]; [done|].
  destruct op as [| | |o [n|]]; try done. apply Z.eqb_eq in He as ->. inversion Hs; subst; (by apply IH) || done.
Qed.

Lemma exhausted_chain ops rows out ops' : existsb exhausted ops = true -> chain ops rows out ops' -> out = [].
Proof.
  intros He H. induction H as [|op rest rows next op' out rest' _ Hs Hc IH]; [done|]. cbn [existsb] in He.
  destruct (exhausted op) eqn:E; [|by apply IH]. apply (exhausted_steps _ _ _ _ E) in Hs as ->. by apply chain_empty in Hc as [-> _].
Qed.
End Ops.

(** ** The stages of the memory executor *)
Section Stages.
Context {F : Foreign} {W : WireForeign F} {J : JsonForeign F} {FS : FileSystem}.
Context (tables : Tables) (plan : LogicalPlan) (parameters : Parameters) (limits : ExecutionLimits).
Context (exists_in : nat -> list ScopeRecord -> Result Truth).

(** The rows of stages over one source: a record in scope, or a value alone. *)
Definition shaped (row : WorkingRow) : Prop :=
  match wr_output row with
  | RModel r => wr_scopes row = [ScopePresent r]
  | RValue _ => wr_scopes row = []
  | _ => False
  end.

Lemma evaluated_scopes resolve e context d : evaluate_datum_with_exists resolve e context = Ok d ->
  length (ec_records context) = length (pe_scopes e).
Proof. intros [[H _]%check_then _]%check_then. apply guard_ok, andb_true_iff in H as [H _]. by apply Nat.eqb_eq. Qed.

Lemma eval_stream e row d : free_of_subqueries e = true -> shaped row ->
  evaluate_expr parameters exists_in [] e row = Ok d -> stream_evaluate_expr parameters e (wr_output row) = Ok d.
Proof.
  intros Hf Hs. rewrite (evaluate_expr_free _ _ (fun _ _ => error "EXPR-EVAL-112")).
  2: { unfold free_of_subqueries in Hf. by destruct (existential_dependencies e). }
  unfold evaluate_expr, evaluation_context, stream_evaluate_expr, stream_eval_context, evaluate_datum. rewrite take_nil. cbn [fold_left].
  unfold shaped in Hs. destruct (wr_output row) as [r|v| |]; try done; rewrite Hs; cbn [fold_left bind_scope is_null_extended scope_view].
  - intros H. pose proof (evaluated_scopes _ _ _ _ H) as Hl. destruct (pe_scopes e) as [|k [|]]; try discriminate Hl. exact H.
  - intros H. pose proof (evaluated_scopes _ _ _ _ H) as Hl. destruct (pe_scopes e) as [|k]; [|discriminate Hl]. exact H.
Qed.

Lemma projection_stream p row d : forallb free_of_subqueries (lp_expressions p) = true -> shaped row ->
  evaluate_projection (evaluate_expr parameters exists_in []) p row = Ok d ->
  stream_evaluate_projection parameters p (wr_output row) = Ok d.
Proof.
  intros Hf Hs (values & Hv & (datum & Hd & H)%rbind_ok)%rbind_ok. unfold stream_evaluate_projection.
  assert (E : mapR (fun e => stream_evaluate_expr parameters e (wr_output row)) (lp_expressions p) = Ok values).
  { apply mapR_ok. apply mapR_ok in Hv. revert Hf. clear -Hv Hs. induction Hv as [|e v es vs He _ IH]; [constructor|].
    cbn [forallb]. intros [H1 H2]%andb_true_iff. constructor; [by apply eval_stream|by apply IH]. }
  rewrite E. cbn [rbind]. destruct (lp_kind p).
  - apply ok_or_ok in Hd. rewrite Hd. exact H.
  - injection Hd as <-. exact H.
  - apply check_then in Hd as [Hn [= <-]]. apply guard_ok in Hn. rewrite Hn. exact H.
Qed.

(** A loop of a stage whose iterations step the operator. *)
Lemma foldR_steps (op : StreamOp) (f : StageRows -> WorkingRow -> Result StageRows) input : forall s s', Forall shaped input ->
  (forall row s s', shaped row -> f s row = Ok s' -> exists out : list WorkingRow, fst s' = fst s ++ out /\ Forall shaped out /\ op_step parameters op (wr_output row) (map wr_output out) op) ->
  foldR f input s = Ok s' -> exists out : list WorkingRow, fst s' = fst s ++ out /\ Forall shaped out /\ op_steps parameters op (map wr_output input) (map wr_output out) op.
Proof.
  induction input as [|row input IH]; intros s s' Hi Hf; cbn [foldR].
  { intros [= <-]. exists []. split_and!; [by rewrite app_nil_r|constructor|constructor]. }
  apply Forall_cons_1 in Hi as [Hr Hi]. intros (s1 & H1 & H2)%rbind_ok.
  destruct (Hf _ _ _ Hr H1) as (o1 & E1 & S1 & T1). destruct (IH _ _ Hi Hf H2) as (o2 & E2 & S2 & T2).
  exists (o1 ++ o2). split_and!; [by rewrite E2, E1, app_assoc|by apply Forall_app|]. rewrite map_app. by econstructor.
Qed.

Lemma pushed_rows s rows s' : foldR (push_stage_row limits) rows s = Ok s' -> fst s' = fst s ++ rows.
Proof.
  revert s. induction rows as [|r rows IH]; intros s; cbn [foldR]; [intros [= <-]; by rewrite app_nil_r|].
  intros (s1 & H1%push_ok & H2%IH)%rbind_ok. by rewrite H2, H1, <- app_assoc.
Qed.

Lemma slice_steps rows : forall o l, (forall n, l = Some n -> 0 <= n) ->
  exists op', op_steps parameters (OpSlice o l) rows
    (match l with Some n => take (Z.to_nat n) (drop (Z.to_nat o) rows) | None => drop (Z.to_nat o) rows end) op'.
Proof.
  induction rows as [|row rows IH]; intros o l Hl.
  { exists (OpSlice o l). rewrite drop_nil. destruct l; rewrite ?take_nil; constructor. }
  destruct (Z.ltb_spec 0 o) as [Ho|Ho].
  { destruct (IH (o - 1) l Hl) as (op' & H). exists op'. replace (Z.to_nat o) with (S (Z.to_nat (o - 1))) by lia.
    cbn [drop]. change (match l with Some n => take (Z.to_nat n) (drop (Z.to_nat (o - 1)) rows) | None => drop (Z.to_nat (o - 1)) rows end) with
      ([] ++ match l with Some n => take (Z.to_nat n) (drop (Z.to_nat (o - 1)) rows) | None => drop (Z.to_nat (o - 1)) rows end).
    econstructor; [by constructor|exact H]. }
  replace (Z.to_nat o) with 0%nat by lia. destruct l as [n|]; cbn [drop].
  - destruct (Z.eq_dec n 0) as [->|Hn].
    + destruct (IH o (Some 0) Hl) as (op' & H). change (op_steps parameters (OpSlice o (Some 0)) rows [] op') in H. exists op'.
      change (op_steps parameters (OpSlice o (Some 0)) (row :: rows) ([] ++ []) op'). econstructor; [by constructor|exact H].
    + destruct (IH o (Some (n - 1))) as (op' & H); [intros m [= <-]; specialize (Hl n eq_refl); lia|].
      replace (Z.to_nat o) with 0%nat in H by lia. specialize (Hl n eq_refl). replace (Z.to_nat n) with (S (Z.to_nat (n - 1))) by lia.
      exists op'. cbn [take]. change (row :: take (Z.to_nat (n - 1)) rows) with ([row] ++ take (Z.to_nat (n - 1)) rows).
      econstructor; [by constructor|exact H].
  - destruct (IH o None Hl) as (op' & H). replace (Z.to_nat o) with 0%nat in H by lia. exists op'.
    change (row :: rows) with ([row] ++ rows) at 2. econstructor; [by constructor|exact H].
Qed.

(** The operator of a node, and its input. *)
Definition node_op (n : LogicalNode) : option (nat * StreamOp) :=
  match n with
  | NFilter i c => if free_of_subqueries c then Some (i, OpFilter c) else None
  | NProject i p => if forallb free_of_subqueries (lp_expressions p) then Some (i, OpProject p) else None
  | NUnnest i e => Some (i, OpUnnest e)
  | NSlice i o l => Some (i, OpSlice o l)
  | _ => None
  end.

(** Limits of slices are [u64]. *)
Definition machine_slice (n : LogicalNode) : bool := match n with NSlice _ _ (Some l) => 0 <=? l | _ => true end.

Lemma stage_steps shapes results n i op input rows : node_op n = Some (i, op) -> machine_slice n = true ->
  input_rows results i = Ok input -> Forall shaped input ->
  execute_stage tables parameters limits shapes exists_in results [] n = Ok rows ->
  Forall shaped rows /\ exists op', op_steps parameters op (map wr_output input) (map wr_output rows) op'.
Proof.
  intros Hn Hm Hi Hs H. destruct n; try discriminate Hn; cbn [node_op execute_stage] in Hn, H; apply rbind_ok in H as (input' & Hi' & H).
  - destruct (free_of_subqueries condition) eqn:Hf; [|discriminate]. injection Hn as <- <-. rewrite Hi in Hi'. injection Hi' as <-.
    apply rmap_ok in H as (s & H & ->). eapply (foldR_steps (OpFilter condition)) in H as (out & -> & S & T); [by eauto|done|].
    intros row s0 s1 Hr (d & He & Hd)%rbind_ok. apply eval_stream in He; [|done..]. destruct d as [| |[]]; try discriminate Hd. destruct t.
    + apply push_ok in Hd. exists [row]. split_and!; [done|by constructor|by constructor].
    + injection Hd as <-. exists []. split_and!; [by rewrite app_nil_r|constructor|by econstructor].
    + injection Hd as <-. exists []. split_and!; [by rewrite app_nil_r|constructor|by econstructor].
  - destruct (forallb free_of_subqueries (lp_expressions projection)) eqn:Hf; [|discriminate]. injection Hn as <- <-. rewrite Hi in Hi'. injection Hi' as <-.
    apply rmap_ok in H as (s & H & ->). eapply (foldR_steps (OpProject projection)) in H as (out & -> & S & T); [by eauto|done|].
    intros row s0 s1 Hr (d & He & Hd%push_ok)%rbind_ok. apply projection_stream in He; [|done..].
    exists [value_row d]. split_and!; [done|by constructor|by constructor].
  - injection Hn as <- <-. rewrite Hi in Hi'. injection Hi' as <-.
    apply rmap_ok in H as (s & H & ->). eapply (foldR_steps (OpUnnest element)) in H as (out & -> & S & T); [by eauto|done|].
    intros row s0 s1 Hr Hx. destruct (wr_output row) as [|d| |]; try discriminate Hx. destruct d as [| |v].
    1-2: (injection Hx as <-; exists []; split_and!; [by rewrite app_nil_r|constructor|by constructor]).
    destruct v as [| | | | | | | | | | | | | | | |l| | |]; try discriminate Hx. exists (map value_row l). rewrite map_map. cbn [value_row wr_output].
    apply (foldR_check (fun v => validate_datum element Required v)) in Hx as [Hv Hx].
    assert (Hp : foldR (push_stage_row limits) (map value_row l) s0 = Ok s1) by (rewrite foldR_map; exact Hx). apply pushed_rows in Hp. split_and!; [done| |by constructor].
    apply Forall_map, Forall_forall. by intros v _.
  - injection Hn as <- <-. rewrite Hi in Hi'. injection Hi' as <-. injection H as <-. unfold execute_slice. split.
    + destruct limit; [apply Forall_take|]; by apply Forall_drop.
    + destruct (slice_steps (map wr_output input) offset limit) as (op' & H).
      { intros n ->. cbn in Hm. lia. }
      exists op'. destruct limit; rewrite <- ?firstn_map, <- skipn_map; exact H.
Qed.
End Stages.
