(* ===== verification/JsonlRefines.v ===== *)
(** * The JSON-lines engine against the memory executor

    A plan that compiles to a chain of operators returns, line by line and
    batch by batch, exactly the rows the memory executor returns on the table
    of the decoded lines, in the same order. *)
From Stdlib Require Import ZArith Lia.
From stdpp Require Import list.
From S2P Require Import Prelude Mutation Foreign Truth BTree Types Values Fingerprint Model Row Expr ExprPrepare Plan Executor ExecutorSpec Optimize Stream Wire WireDecode PushDown JsonlDecode JsonlEngine JsonlChain.

Local Open Scope Z_scope.

(** ** The chain of a plan *)
Section Walk.
Context {F : Foreign} {W : WireForeign F} {J : JsonForeign F} {FS : FileSystem}.
Context (plan : LogicalPlan).

(** The operators from the source to a node, in the order they run. *)
Inductive walks : nat -> ModelDef -> list StreamOp -> Prop :=
| walk_source i m alias : plan_nodes plan !! i = Some (NSource m alias) -> walks i m []
| walk_op i n j op m ops : plan_nodes plan !! i = Some n -> node_op n = Some (j, op) -> walks j m ops -> walks i m (ops ++ [op]).

Lemma walks_deterministic i m ops m' ops' : walks i m ops -> walks i m' ops' -> m = m' /\ ops = ops'.
Proof.
  intros H. revert m' ops'. induction H as [i m alias Hi|i n j op m ops Hi Ho Hw IH]; intros m' ops' H';
    inversion H' as [? ? a Hi'|? n' j' op' ? ? Hi' Ho' Hw']; simplify_eq; try done.
  by destruct (IH _ _ Hw') as [-> ->].
Qed.

Lemma compile_walk_ok fuel : forall current reversed m ops, compile_walk fuel plan current reversed = Ok (m, ops) ->
  exists chain, walks current m chain /\ ops = reversed ++ rev chain.
Proof.
  induction fuel as [|fuel IH]; intros current reversed m ops; [done|]. cbn [compile_walk]. intros (n & Hn%ok_or_ok & H)%rbind_ok.
  assert (G : forall j op, node_op n = Some (j, op) -> compile_walk fuel plan j (reversed ++ [op]) = Ok (m, ops) ->
    exists chain, walks current m chain /\ ops = reversed ++ rev chain).
  { intros j op Ho (c & Hw & ->)%IH. exists (c ++ [op]). split; [by eapply walk_op|]. rewrite rev_app_distr, <- app_assoc. done. }
  destruct n; try discriminate H.
  - injection H as <- <-. exists []. split; [by eapply walk_source|by rewrite app_nil_r].
  - destruct (free_of_subqueries condition) eqn:E; [|discriminate]. eapply G; [|exact H]. cbn. by rewrite E.
  - destruct (forallb free_of_subqueries (lp_expressions projection)) eqn:E; [|discriminate]. eapply G; [|exact H]. cbn. by rewrite E.
  - eapply G; [|exact H]. done.
  - eapply G; [|exact H]. done.
Qed.
End Walk.

(** ** The memory executor runs the chain *)
Section Memory.
Context {F : Foreign} {W : WireForeign F} {J : JsonForeign F} {FS : FileSystem}.
Context (tables : Tables) (plan : LogicalPlan) (parameters : Parameters) (limits : ExecutionLimits).
Context (exists_in : nat -> list ScopeRecord -> Result Truth).
Hypothesis slices : forallb machine_slice (plan_nodes plan) = true.

(** The rows of a node are those of its chain over the rows of its table. *)
Definition chained (i : nat) (rows : list WorkingRow) : Prop := forall m ops, walks plan i m ops ->
  Forall shaped rows /\ exists table ops', bt_get (md_key m) tables = Some table /\
    chain parameters limits ops (map RModel (mt_rows table)) (map wr_output rows) ops'.

Definition results_chained (results : StageResults) : Prop :=
  forall i rows, results !! i = Some (Some rows) -> chained i rows.

Lemma enforced_stage rows : enforce_row_limit limits (length rows) = Ok tt -> enforce_working_byte_limit limits rows = Ok tt ->
  enforce_rows limits (map wr_output rows) = Ok tt.
Proof.
  intros H1 H2. unfold enforce_rows. rewrite length_map, H1. cbn [rbind].
  unfold enforce_working_byte_limit, enforce_byte_limit, enforce_bytes in *. destruct (max_materialized_bytes limits) as [max|]; [|done].
  assert (E : forall z, fold_left (fun total r => sat_add total (execution_row_bytes r)) (map wr_output rows) z =
                        fold_left (fun total r => sat_add total (execution_row_bytes (wr_output r))) rows z).
  { clear. induction rows as [|r rows IH]; intros z; [done|]. cbn. apply IH. }
  by rewrite E.
Qed.

Lemma stage_chained shapes results i n rows : results_chained results -> plan_nodes plan !! i = Some n ->
  execute_stage tables parameters limits shapes exists_in results [] n = Ok rows ->
  enforce_rows limits (map wr_output rows) = Ok tt -> chained i rows.
Proof using slices.
  intros R Hn Hx Hl m ops H. inversion H as [? ? a Hi|? n' j op ? ops' Hi Ho Hw]; simplify_eq.
  - cbn [execute_stage] in Hx. unfold execute_source in Hx. apply rbind_ok in Hx as (table & Ht%ok_or_ok & Hx).
    apply check_then in Hx as [_ [_ [_ [= <-]]%check_then]%check_then]. split; [by apply Forall_map, Forall_forall|].
    exists table, []. split; [done|]. rewrite map_map in Hl |- *. by constructor.
  - assert (Hm : machine_slice n = true).
    { rewrite forallb_forall in slices. apply slices, list_elem_of_In. by eapply list_elem_of_lookup_2. }
    assert (Hin : exists input, input_rows results j = Ok input).
    { destruct n; try discriminate Ho; cbn [node_op execute_stage] in Ho, Hx; apply rbind_ok in Hx as (rs & Hi0 & _); exists rs;
        [destruct (free_of_subqueries condition)|destruct (forallb free_of_subqueries (lp_expressions projection))| |]; try discriminate Ho; by injection Ho as <- <-. }
    destruct Hin as [input Hin]. pose proof Hin as Hr. apply ok_or_ok in Hr. destruct (results !! j) as [[r|]|] eqn:E; try done. injection Hr as ->.
    destruct (R _ _ E _ _ Hw) as (S & table & os & Ht & C).
    destruct (stage_steps _ _ _ _ _ _ _ _ _ _ _ Ho Hm Hin S Hx) as (S' & op' & T).
    split; [done|]. exists table, (os ++ [op']). split; [done|]. by eapply chain_snoc.
Qed.

Lemma run_index_chained shapes needed results index results' : results_chained results ->
  run_index tables plan parameters limits shapes exists_in needed [] results index = Ok results' -> results_chained results'.
Proof using slices.
  intros R. unfold run_index. destruct (default false (needed !! index)); [|by intros [= <-]].
  intros (n & Hn%ok_or_ok & (rows & Hr & [H1 [H2 (old & _ & [= <-])%rbind_ok]%check_then]%check_then)%rbind_ok)%rbind_ok.
  intros i r Hi. destruct (decide (i = index)) as [->|Hne].
  - apply list_lookup_insert_Some in Hi as [(_ & [= <-] & _)|(? & _)]; [|done]. eapply stage_chained; [done..|by apply enforced_stage].
  - rewrite list_lookup_insert_ne in Hi by done. by apply R.
Qed.

Lemma run_subplan_chained shapes root rows : run_subplan tables plan parameters limits shapes exists_in root [] = Ok rows -> chained root rows.
Proof using slices.
  unfold run_subplan. intros (needed & _ & (results & Hr & Hd%ok_or_ok)%rbind_ok)%rbind_ok.
  assert (R : results_chained results).
  { refine (foldR_keeps results_chained _ _ _ _ _ _ Hr); [intros index r r' _ R; by apply run_index_chained|].
    intros i r [H _]%lookup_replicate. done. }
  destruct (results !! root) as [[r|]|] eqn:E; try done. injection Hd as ->. by apply R.
Qed.
End Memory.

Lemma executed_chain {F : Foreign} {W : WireForeign F} {J : JsonForeign F} {FS : FileSystem} tables plan parameters limits batch_rows stream m ops :
  forallb machine_slice (plan_nodes plan) = true -> execute tables plan parameters limits batch_rows = Ok stream ->
  walks plan (plan_root plan) m ops -> exists table ops', bt_get (md_key m) tables = Some table /\
    chain parameters limits ops (map RModel (mt_rows table)) (ms_rows stream) ops'.
Proof.
  intros Hs H Hw. unfold execute in H. apply check_then in H as [_ [_ (shapes & _ & (root & Hr & [_ [= <-]]%check_then)%rbind_ok)%rbind_ok]%check_then].
  cbn [ms_rows]. unfold max_existential_depth in Hr. cbn [execute_subplan] in Hr.
  apply run_subplan_chained in Hr; [|done]. by destruct (Hr _ _ Hw) as (_ & table & ops' & Ht & C); eauto.
Qed.

(** ** Pulling the stream *)
Section Pull.
Context {F : Foreign} {W : WireForeign F} {J : JsonForeign F} {FS : FileSystem}.

(** A line within the limit that decodes. *)
Definition line_reads (limits : JsonlLimits) (model : ModelDef) (line : list Z) (row : DynRow) : Prop :=
  (length line <= jl_max_line_bytes limits)%nat /\ decode_line limits model line = Ok row.

(** What a pull leaves as it is. *)
Definition same_plan (s s' : JsonlStream) : Prop :=
  js_model s' = js_model s /\ js_parameters s' = js_parameters s /\ js_execution_limits s' = js_execution_limits s /\
  js_jsonl_limits s' = js_jsonl_limits s /\ js_batch_rows s' = js_batch_rows s /\ js_cancelled s' = js_cancelled s.

Lemma same_plan_trans a b c : same_plan a b -> same_plan b c -> same_plan a c.
Proof. unfold same_plan. intuition congruence. Qed.

(** The lines to come decode to [rows], which come out of the chain as [out]. *)
Definition ready (s : JsonlStream) (rows : list DynRow) (out : list ExecutionRow) : Prop :=
  js_cancelled s = false /\
  if js_done s then out = []
  else clean (js_reader s) /\ Forall2 (line_reads (js_jsonl_limits s) (js_model s)) (file_lines (reader_bytes (js_reader s))) rows /\
       js_scanned_rows s + zlen rows <= jl_max_scanned_rows (js_jsonl_limits s) /\
       exists ops', chain (js_parameters s) (js_execution_limits s) (js_ops s) (map RModel rows) out ops'.

Lemma process_line_ok s row rows out ops' : js_cancelled s = false -> js_done s = false -> js_pending s = [] -> clean (js_reader s) ->
  decode_line (js_jsonl_limits s) (js_model s) (js_line_buffer s) = Ok row ->
  Forall2 (line_reads (js_jsonl_limits s) (js_model s)) (file_lines (reader_bytes (js_reader s))) rows ->
  js_scanned_rows s + zlen (row :: rows) <= jl_max_scanned_rows (js_jsonl_limits s) ->
  chain (js_parameters s) (js_execution_limits s) (js_ops s) (map RModel (row :: rows)) out ops' ->
  exists s' out', process_line s = (Ok tt, s') /\ same_plan s s' /\ js_reader s' = js_reader s /\
    ready s' rows out' /\ out = js_pending s' ++ out'.
Proof.
  intros Hca Hd Hp Hc Hl H2 Hn C. change (map RModel (row :: rows)) with ([RModel row] ++ map RModel rows) in C.
  destruct (chain_split _ _ _ _ _ _ _ C) as (oa & ob & ops1 & Ca & Cb & ->). destruct (chain_limits _ _ _ _ _ _ Ca) as [Er _].
  unfold process_line. cbn [count_line js_scanned_rows js_jsonl_limits js_model js_line_buffer js_execution_limits js_parameters js_ops js_pending].
  unfold zlen in *. cbn [length] in Hn.
  assert (Hs : sat_add (js_scanned_rows s) 1 <= js_scanned_rows s + 1) by (unfold sat_add; lia).
  assert (Hg : (sat_add (js_scanned_rows s) 1 <=? jl_max_scanned_rows (js_jsonl_limits s)) = true) by (apply Z.leb_le; lia).
  rewrite Hg. cbn [guard rbind]. rewrite Hl. cbn [rbind]. rewrite Er. cbn [rbind]. rewrite (apply_ops_ok _ _ _ _ _ _ Ca), Hp.
  eexists _, ob. split; [reflexivity|]. split; [by split_and!|]. split; [done|]. split; [|done].
  unfold ready. cbn [set_pending set_ops count_line js_cancelled js_done js_reader js_jsonl_limits js_model js_scanned_rows js_parameters js_execution_limits js_ops].
  rewrite Hd. split_and!; [done..| |by exists ops']. unfold zlen. lia.
Qed.

Lemma fill_turn_ok s rows out : ready s rows out -> js_done s = false -> js_pending s = [] ->
  exists s' rows' out', fill_turn s = (Ok tt, s') /\ same_plan s s' /\ ready s' rows' out' /\ out = js_pending s' ++ out' /\
    (js_done s' = true \/ (reader_size (js_reader s') < reader_size (js_reader s))%nat).
Proof.
  unfold ready at 1. intros [Hca R] Hd Hp. rewrite Hd in R. destruct R as (Hc & H2 & Hn & ops' & C). unfold fill_turn.
  destruct (existsb exhausted (js_ops s)) eqn:Ex.
  { apply (exhausted_chain _ _ _ _ _ _ Ex) in C as ->. exists (set_done s), [], []. split_and!; try done; [by cbn; rewrite Hp|by left]. }
  destruct (read_bounded_line_exact (jl_max_line_bytes (js_jsonl_limits s)) (js_reader s) (js_line_buffer s) Hc) as (o & r' & b' & E & Hc' & Ho).
  rewrite E. pose proof (read_bounded_line_progress _ _ _ _ _ _ E) as (_ & _ & Hlt & _).
  destruct (file_lines (reader_bytes (js_reader s))) as [|line rest].
  { subst o. inversion H2; subst. apply chain_empty in C as [-> _].
    exists (set_done (set_read s (r', b'))), [], []. split_and!; try done; [by cbn; rewrite Hp|by left]. }
  inversion H2 as [|? row ? rows' [Hll Hl] H2']; subst. rewrite (proj2 (Nat.leb_le _ _) Hll) in Ho. destruct Ho as (-> & -> & Hrest).
  destruct (process_line_ok (set_read s (r', line)) row rows' out ops') as (s' & out' & E' & P & Er & R & ->); try done.
  { cbn. by rewrite Hrest. }
  exists s', rows', out'. split_and!; try done. right. rewrite Er. by apply Hlt.
Qed.

Lemma fill_pending_ok fuel : forall s rows out, ready s rows out -> (reader_size (js_reader s) + 2 <= fuel)%nat ->
  exists s' rows' out', fill_pending fuel s = (Ok tt, s') /\ same_plan s s' /\ ready s' rows' out' /\
    js_pending s ++ out = js_pending s' ++ out' /\ (js_pending s' = [] -> js_done s' = true).
Proof.
  induction fuel as [|fuel IH]; intros s rows out R Hf; [lia|]. cbn [fill_pending].
  destruct (js_pending s) as [|p ps] eqn:Hp; [|by exists s, rows, out; rewrite Hp].
  destruct (js_done s) eqn:Hd; [by exists s, rows, out; rewrite Hp|].
  destruct (fill_turn_ok s rows out R Hd Hp) as (s1 & rows1 & out1 & E & P & R1 & -> & Hlt). unfold mbind. rewrite E.
  destruct Hlt as [Hd1|Hlt].
  - destruct fuel as [|fuel]; [lia|]. exists s1, rows1, out1. cbn [fill_pending]. rewrite Hd1. by destruct (js_pending s1).
  - destruct (IH s1 rows1 out1 R1 ltac:(lia)) as (s2 & rows2 & out2 & E2 & P2 & R2 & Ho & Hd2).
    exists s2, rows2, out2. split_and!; try done. by eapply same_plan_trans.
Qed.

Lemma batch_loop_ok room : forall taken bytes s rows out, ready s rows out ->
  Forall (row_fits (js_execution_limits s)) (js_pending s ++ out) ->
  exists added s' rows' out', batch_loop room taken bytes s = (Ok (taken ++ added), s') /\ same_plan s s' /\ ready s' rows' out' /\
    js_pending s ++ out = added ++ js_pending s' ++ out' /\
    (taken ++ added = [] -> room <> O -> js_pending s' = [] /\ js_done s' = true).
Proof.
  induction room as [|room IH]; intros taken bytes s rows out R Hfit; cbn [batch_loop].
  { exists [], s, rows, out. rewrite app_nil_r. done. }
  destruct (fill_pending_ok (fill_fuel s) s rows out R ltac:(unfold fill_fuel; lia)) as (s1 & rows1 & out1 & E & P & R1 & Ho & Hd). rewrite E.
  rewrite Ho in Hfit |- *. destruct (js_pending s1) as [|next rest] eqn:Ep.
  { exists [], s1, rows1, out1. rewrite app_nil_r, Ep. split_and!; try done. intros _ _. by split; [|apply Hd]. }
  pose proof P as (_ & _ & Elim & _). rewrite <- Elim in Hfit.
  assert (Hnext : (match max_materialized_bytes (js_execution_limits s1) with Some max => max <? execution_row_bytes next | None => false end) = false).
  { cbn [app] in Hfit. apply Forall_cons_1 in Hfit as [Hfit _]. unfold row_fits in Hfit. destruct (max_materialized_bytes _) as [max|]; [|done].
    apply Z.ltb_ge. by apply Hfit. }
  rewrite Hnext. destruct (_ && _) eqn:Eb.
  { exists [], s1, rows1, out1. rewrite app_nil_r, Ep. split_and!; try done. intros ->. done. }
  destruct (IH (taken ++ [next]) (sat_add bytes (execution_row_bytes next)) (set_pending s1 rest) rows1 out1) as (added & s2 & rows2 & out2 & E2 & P2 & R2 & Ho2 & Hd2).
  { done. } { cbn [app] in Hfit. by apply Forall_cons_1 in Hfit as [_ Hfit]. }
  exists (next :: added), s2, rows2, out2. cbn [set_pending js_pending] in Ho2. rewrite <- app_assoc in E2, Hd2. cbn [app] in E2, Hd2 |- *. rewrite E2, Ho2.
  split_and!; try done; [by eapply same_plan_trans|]. intros H. by destruct taken.
Qed.

Lemma stream_pulls n : forall s rows out, (length (js_pending s ++ out) <= n)%nat -> ready s rows out -> js_batch_rows s <> O ->
  Forall (row_fits (js_execution_limits s)) (js_pending s ++ out) ->
  exists bs, pulls s bs /\ concat bs = js_pending s ++ out.
Proof.
  induction n as [|n IH]; intros s rows out Hn R Hb Hfit; pose proof R as [Hca R'].
  all: destruct (js_done s && match js_pending s with [] => true | _ => false end) eqn:Ed;
    [exists []; split; [apply (pulls_end s s); cbn; unfold jsonl_next_batch; by rewrite Hca, Ed|];
     apply andb_true_iff in Ed as [Ed Ep]; rewrite Ed in R'; subst out; by destruct (js_pending s)|].
  all: destruct (batch_loop_ok (target_rows s) [] 0 s rows out R Hfit) as (added & s' & rows' & out' & E & P & R2 & Ho & Hend).
  all: assert (Hstep : jsonl_next_batch s = match added with [] => (Ok None, s') | _ => (Ok (Some (mkExecutionBatch (js_output s') added)), s') end)
    by (unfold jsonl_next_batch; rewrite Hca, Ed, E; cbn [orb app]; by destruct added).
  all: assert (Ht : target_rows s <> O) by (unfold target_rows; destruct (max_materialized_rows _); lia).
  all: destruct added as [|r added].
  1, 3: destruct (Hend eq_refl Ht) as [Hp Hd]; exists []; (split; [by apply (pulls_end s s')|]); rewrite Ho, Hp;
    destruct R2 as [_ R2]; rewrite Hd in R2; by subst out'.
  - rewrite Ho in Hn. cbn in Hn. lia.
  - destruct (IH s' rows' out') as (bs & Hp & Hc).
    + rewrite Ho in Hn. cbn in Hn. rewrite length_app in Hn. lia.
    + done.
    + destruct P as (_ & _ & _ & _ & -> & _). done.
    + destruct P as (_ & _ & -> & _). rewrite Ho in Hfit. by apply Forall_app in Hfit as [_ Hfit].
    + exists ((r :: added) :: bs). split; [exact (pulls_batch s _ s' bs Hstep Hp)|]. cbn [concat]. rewrite Hc. by rewrite Ho.
Qed.
End Pull.
