(* ===== verification/JsonlReach.v ===== *)
(** * Streams of JSON lines: progress, bounds, reachability

    What holds of every stream, whatever its file contains and however it is
    read: a pull terminates, a client that keeps pulling comes to the end or
    to an error, and the stream never holds more than its limits allow.  Then
    what holds of every engine that can be built and of every stream it can
    open. *)
From Stdlib Require Import ZArith Lia.
From stdpp Require Import list relations.
From S2P Require Import Prelude Mutation Foreign Truth BTree Types Values Fingerprint Model Row Expr ExprPrepare Plan Placement Executor Optimize ExecutorSpec Stream MemoryEngine Wire WireDecode JsonlDecode JsonlEngine JsonlChain JsonlRefines.

Local Open Scope Z_scope.

Section Live.
Context {F : Foreign} {W : WireForeign F} {J : JsonForeign F} {FS : FileSystem}.

(** ** What a stream may hold: one line, and the rows of one line *)
Record bounded (s : JsonlStream) : Prop := mkBounded {
  bd_line : (length (js_line_buffer s) <= jl_max_line_bytes (js_jsonl_limits s))%nat;
  bd_pending : js_pending s = [] \/ enforce_rows (js_execution_limits s) (js_pending s) = Ok tt
}.

Lemma produced_within parameters limits ops : forall rows out ops', enforce_rows limits rows = Ok tt ->
  apply_chain parameters limits ops rows = (Ok out, ops') -> out = [] \/ enforce_rows limits out = Ok tt.
Proof.
  induction ops as [|op ops IH]; intros rows out ops' Hr; cbn [apply_chain]; [intros [= <- _]; by right|].
  destruct (apply_rows parameters limits rows [] op) as [[next|d] op']; cbn [rbind]; [|done].
  destruct (enforce_rows limits next) as [[]|d] eqn:E; cbn [rbind]; [|done].
  destruct next as [|r next]; [intros [= <- _]; by left|].
  destruct (apply_chain parameters limits ops (r :: next)) as [o rest] eqn:Ec. intros [= -> _]. by eapply IH.
Qed.

Lemma process_line_bounded s o s' : bounded s -> js_pending s = [] -> process_line s = (o, s') ->
  bounded s' /\ same_plan s s' /\ js_reader s' = js_reader s /\ js_done s' = js_done s.
Proof.
  intros [B1 B2] Hp. unfold process_line.
  destruct (guard _ _ ;;? _) as [row|d]; [|by intros [= <- <-]].
  destruct (apply_ops _ _ _ _) as [[out|d] ops] eqn:E; intros [= <- <-]; [|done]. split; [|done]. constructor; [done|].
  cbn [set_pending set_ops count_line js_pending js_execution_limits]. rewrite Hp. cbn [app].
  unfold apply_ops in E. destruct (enforce_rows _ [RModel row]) as [[]|] eqn:Er; [|done]. by eapply produced_within.
Qed.

(** One turn keeps the bounds and makes progress, unless it fails. *)
Lemma fill_turn_progress s o s' : bounded s -> js_pending s = [] -> fill_turn s = (o, s') ->
  bounded s' /\ same_plan s s' /\ (reader_size (js_reader s') <= reader_size (js_reader s))%nat /\
  (o = Ok tt -> js_pending s' = [] /\ js_done s' = true \/ (reader_size (js_reader s') < reader_size (js_reader s))%nat).
Proof.
  intros B Hp. unfold fill_turn. destruct (existsb exhausted (js_ops s)).
  { intros [= <- <-]. split_and!; [by destruct B|done|done|by left]. }
  destruct (read_bounded_line (jl_max_line_bytes (js_jsonl_limits s)) (js_reader s, js_line_buffer s)) as [r [reader buffer]] eqn:E.
  apply read_bounded_line_progress in E as (Hb & Hle & Hlt & _).
  assert (B' : bounded (set_read s (reader, buffer))) by (destruct B; constructor; done).
  destruct r as [[|]|d].
  - intros H. apply process_line_bounded in H as (B2 & P & Er & _); [|done..]. split_and!; [done|done|by rewrite Er|].
    intros _. right. rewrite Er. by apply Hlt.
  - intros [= <- <-]. split_and!; [by destruct B'|done|done|by left].
  - intros [= <- <-]. done.
Qed.

(** ** The loop of [fill_pending], without fuel *)
Inductive fills : JsonlStream -> Result unit -> JsonlStream -> Prop :=
| fills_pending s : js_pending s <> [] -> fills s (Ok tt) s
| fills_done s : js_pending s = [] -> js_done s = true -> fills s (Ok tt) s
| fills_error s d s' : js_pending s = [] -> js_done s = false -> fill_turn s = (Err d, s') -> fills s (Err d) s'
| fills_turn s s1 o s' : js_pending s = [] -> js_done s = false -> fill_turn s = (Ok tt, s1) -> fills s1 o s' -> fills s o s'.

Lemma fills_functional s o1 s1 : fills s o1 s1 -> forall o2 s2, fills s o2 s2 -> o1 = o2 /\ s1 = s2.
Proof.
  induction 1 as [s Hp|s Hp Hd|s d s1 Hp Hd Ht|s sm o1 s1 Hp Hd Ht _ IH]; intros o2 s2 H; inversion H; subst;
    try congruence; try (split; congruence).
  apply IH. congruence.
Qed.

(** Whatever the reader does, the fuel is enough. *)
Lemma fill_pending_fills fuel : forall s, bounded s -> (reader_size (js_reader s) + 2 <= fuel)%nat ->
  fills s (fst (fill_pending fuel s)) (snd (fill_pending fuel s)).
Proof.
  induction fuel as [|fuel IH]; intros s B Hf; [lia|]. cbn [fill_pending].
  destruct (js_pending s) as [|p ps] eqn:Hp; [|change (fills s (Ok tt) s); apply fills_pending; congruence].
  destruct (js_done s) eqn:Hd; [by apply fills_done|].
  destruct (fill_turn s) as [o s1] eqn:E. destruct (fill_turn_progress _ _ _ B Hp E) as (B1 & _ & _ & Hlt). unfold mbind. rewrite E.
  destruct o as [[]|d]; [|by apply fills_error]. eapply fills_turn; [done..|].
  destruct (Hlt eq_refl) as [[Hp1 Hd1]|Hlt']; [|by apply IH; [done|lia]].
  destruct fuel as [|fuel]; [lia|]. cbn [fill_pending]. rewrite Hp1, Hd1. by apply fills_done.
Qed.

Lemma fills_keeps s o s' : fills s o s' -> bounded s ->
  bounded s' /\ same_plan s s' /\ (reader_size (js_reader s') <= reader_size (js_reader s))%nat /\
  (o = Ok tt -> (js_pending s' = [] -> js_done s' = true) /\
    (s' = s \/ js_pending s = [] /\ (js_pending s' = [] \/ (reader_size (js_reader s') < reader_size (js_reader s))%nat))).
Proof.
  induction 1 as [s Hp|s Hp Hd|s d s1 Hp Hd Ht|s sm o s1 Hp Hd Ht _ IH]; intros B.
  - split_and!; [done..|]. intros _. split; [done|by left].
  - split_and!; [done..|]. intros _. split; [done|by left].
  - by destruct (fill_turn_progress _ _ _ B Hp Ht) as (B1 & P & L & _).
  - destruct (fill_turn_progress _ _ _ B Hp Ht) as (B1 & P & L & Hlt). destruct (IH B1) as (B2 & P2 & L2 & Hend).
    split_and!; [done|by eapply same_plan_trans|lia|]. intros Ho. destruct (Hend Ho) as [H1 H2]. split; [done|]. right. split; [done|].
    destruct H2 as [->|[Hpm [Hp1|Hl]]]; [|by left|by right; lia].
    destruct (Hlt eq_refl) as [[Hpe _]|Hl]; [by left|by right].
Qed.

(** ** One batch *)
Lemma taken_within s next taken : bounded s -> next ∈ js_pending s -> (length taken < target_rows s)%nat ->
  (forall max, max_materialized_bytes (js_execution_limits s) = Some max -> rows_bytes 0 (taken ++ [next]) <= max) ->
  enforce_rows (js_execution_limits s) (taken ++ [next]) = Ok tt.
Proof.
  intros [_ [Hp|Hp]] Hin Ht Hb; [by rewrite Hp, elem_of_nil in Hin|]. apply enforce_rows_ok. split; [|done]. intros max E.
  apply list_elem_of_split in Hin as (a & b & Hs). rewrite Hs in Hp. apply enforce_rows_ok in Hp as [Hp _]. specialize (Hp max E).
  unfold zlen in *. rewrite !length_app in *. cbn [length] in *. unfold target_rows in Ht. rewrite E in Ht. lia.
Qed.

Lemma bounded_pop s next rest : bounded s -> js_pending s = next :: rest -> bounded (set_pending s rest).
Proof.
  intros [B1 B2] Hp. constructor; [done|]. cbn [set_pending js_pending js_execution_limits]. destruct B2 as [B2|B2]; [by rewrite Hp in B2|].
  rewrite Hp in B2. change (next :: rest) with ([next] ++ rest) in B2. right. by apply enforce_rows_app in B2 as [_ B2].
Qed.

(** The state gets smaller: the reader, or else the pending rows. *)
Definition smaller_by (n : nat) (s' s : JsonlStream) : Prop :=
  (reader_size (js_reader s') < reader_size (js_reader s))%nat \/
  (reader_size (js_reader s') <= reader_size (js_reader s))%nat /\ (n + length (js_pending s') <= length (js_pending s))%nat.

Lemma smaller_by_trans a b s3 s2 s1 : smaller_by a s3 s2 -> smaller_by b s2 s1 -> smaller_by (a + b) s3 s1.
Proof. unfold smaller_by. lia. Qed.

Lemma fills_smaller s s' : fills s (Ok tt) s' -> bounded s -> smaller_by 0 s' s.
Proof.
  intros H B. destruct (fills_keeps _ _ _ H B) as (_ & _ & L & Hok). destruct (Hok eq_refl) as [_ [->|[Hp [Hp'|Hl]]]]; unfold smaller_by; [lia| |lia].
  rewrite Hp, Hp'. right. done.
Qed.

Definition well_taken (s : JsonlStream) (rows : list ExecutionRow) : Prop :=
  rows = [] \/ enforce_rows (js_execution_limits s) rows = Ok tt.

Lemma batch_loop_spec room : forall rows s o s', bounded s -> well_taken s rows -> (length rows + room = target_rows s)%nat ->
  batch_loop room rows (rows_bytes 0 rows) s = (o, s') ->
  bounded s' /\ same_plan s s' /\
  forall rows', o = Ok rows' -> exists added, rows' = rows ++ added /\ (length rows' <= target_rows s)%nat /\ well_taken s rows' /\
    smaller_by (length added) s' s /\ (rows' = [] -> room <> O -> js_pending s' = [] /\ js_done s' = true).
Proof.
  induction room as [|room IH]; intros rows s o s' B Hw Ht; cbn [batch_loop].
  { intros [= <- <-]. split_and!; [done..|]. intros ? [= <-]. exists []. rewrite app_nil_r. split_and!; try done; [lia|by right]. }
  pose proof (fill_pending_fills (fill_fuel s) s B ltac:(unfold fill_fuel; lia)) as Hf.
  destruct (fill_pending (fill_fuel s) s) as [filled s1]. cbn [fst snd] in Hf. destruct (fills_keeps _ _ _ Hf B) as (B1 & P1 & L1 & Hok).
  pose proof P1 as (_ & _ & El & _ & Er & _).
  destruct filled as [[]|d]; [|intros [= <- <-]; done]. destruct (Hok eq_refl) as [Hd _]. pose proof (fills_smaller _ _ Hf B) as Sm.
  destruct (js_pending s1) as [|next rest] eqn:Ep.
  { intros [= <- <-]. split_and!; [done..|]. intros ? [= <-]. exists []. rewrite app_nil_r. split_and!; try done; [lia|].
    intros _ _. by split; [|apply Hd]. }
  set (over n := match max_materialized_bytes (js_execution_limits s1) with Some max => max <? n | None => false end).
  fold (over (execution_row_bytes next)). fold (over (sat_add (rows_bytes 0 rows) (execution_row_bytes next))).
  destruct (over (execution_row_bytes next)) eqn:O1; [intros [= <- <-]; done|].
  destruct (_ && _) eqn:O2.
  { intros [= <- <-]. split_and!; [done..|]. intros ? [= <-]. exists []. rewrite app_nil_r. split_and!; try done; [lia|]. by intros ->. }
  assert (Hnb : sat_add (rows_bytes 0 rows) (execution_row_bytes next) = rows_bytes 0 (rows ++ [next])) by by rewrite rows_bytes_app.
  assert (Ets : target_rows s1 = target_rows s) by (unfold target_rows; by rewrite El, Er).
  assert (Hin : enforce_rows (js_execution_limits s1) (rows ++ [next]) = Ok tt).
  { apply taken_within; [done|rewrite Ep; by left|rewrite Ets; lia|]. intros max E. rewrite <- Hnb. unfold over in O1, O2. rewrite E in O1, O2.
    destruct rows; [|by apply Z.ltb_ge in O2]. apply Z.ltb_ge in O1. cbn [rows_bytes fold_left]. unfold sat_add. lia. }
  rewrite Hnb. intros H. apply IH in H as (B2 & P2 & Hrows).
  - split; [done|]. split; [by eapply same_plan_trans; [exact P1|]|]. intros rows' Ho. destruct (Hrows rows' Ho) as (added & -> & H1 & H2 & H3 & H4).
    exists (next :: added). rewrite <- app_assoc in *. cbn [app] in *. split_and!.
    + done.
    + by rewrite <- Ets.
    + unfold well_taken. rewrite <- El. exact H2.
    + cbn [length]. replace (S (length added)) with (length added + 1 + 0)%nat by lia. eapply smaller_by_trans; [|exact Sm].
      eapply smaller_by_trans; [exact H3|]. right. cbn [set_pending js_reader js_pending]. rewrite Ep. done.
    + by destruct rows.
  - by eapply bounded_pop.
  - by right.
  - rewrite length_app. cbn [length]. change (target_rows (set_pending s1 rest)) with (target_rows s1). lia.
Qed.
End Live.

(** Reads limited to a number of bytes. *)
Lemma take_reads_bytes reads : forall limit, zlen (concat (map (default []) (take_reads limit reads))) <= Z.max 0 limit.
Proof.
  induction reads as [|r reads IH]; intros limit; cbn [take_reads]; [unfold zlen; cbn; lia|]. destruct (Z.leb_spec limit 0) as [Hl|Hl]; [unfold zlen; cbn; lia|].
  destruct r as [chunk|]; [|apply IH]. set (c := take (Z.to_nat limit) chunk).
  assert (Hc : zlen c <= limit) by (unfold c, zlen; rewrite length_take; lia).
  change (zlen (c ++ concat (map (default []) (take_reads (limit - zlen c) reads))) <= Z.max 0 limit).
  specialize (IH (limit - zlen c)). unfold zlen at 1. rewrite length_app. unfold zlen in *. lia.
Qed.

Section Engines.
Context {F : Foreign} {W : WireForeign F} {J : JsonForeign F} {FS : FileSystem}.
Context (version : string).

(** ** Engines *)
Inductive jsonl_step : JsonlEngine -> JsonlEngine -> Prop :=
| step_jsonl_bind t e model relative e' : jsonl_bind t e model relative = Ok e' -> jsonl_step e e'
| step_jsonl_bind_dynamic t e model relative e' : jsonl_bind_dynamic t e model relative = Ok e' -> jsonl_step e e'.

Definition jsonl_reachable (e : JsonlEngine) : Prop :=
  exists t root limits e0, jsonl_with_limits version t root limits = Ok e0 /\ rtc jsonl_step e0 e.

(** A source is pinned by a handle of a file that was below the root. *)
Definition pinned (root : Path) (key : string) (s : JsonlSource) : Prop :=
  md_key (src_model s) = key /\ src_root s = root /\ path_starts_with (src_path s) root = true /\
  exists t opened, fs_open t (src_path s) = Some (src_file s) /\ file_metadata (t + 1) (src_file s) = Some opened.

Record jsonl_ok (e : JsonlEngine) : Prop := mkJsonlOk {
  jo_capabilities : je_capabilities e = jsonl_capabilities;
  jo_limits : jsonl_limits_validate (je_limits e) = Ok tt;
  jo_sources : forall key s, bt_get key (je_sources e) = Some s -> pinned (je_root e) key s
}.

Lemma bind_definition_pinned t sources root model relative sources' :
  (forall key s, bt_get key sources = Some s -> pinned root key s) ->
  bind_definition t sources root model relative = Ok sources' ->
  forall key s, bt_get key sources' = Some s -> pinned root key s.
Proof.
  intros H. unfold bind_definition. intros (path & Hp & Hx)%rbind_ok.
  apply check_then in Hx as [_ (file & Hf%ok_or_ok & (opened & Ho%ok_or_ok & (current & _ & [_ [= <-]]%check_then)%rbind_ok)%rbind_ok)%rbind_ok].
  intros key s. destruct (decide (key = md_key model)) as [->|Hne]; [|rewrite bt_get_insert_ne by done; apply H].
  rewrite bt_get_insert_eq. intros [= <-]. apply check_then in Hp as [_ (canonical & _ & Hp)%rbind_ok].
  apply check_then in Hp as [Hs%guard_ok (metadata & _ & [_ [= <-]]%check_then)%rbind_ok].
  split_and!; [done..|]. exists (t + 2)%nat, opened. split; [done|]. by replace (t + 2 + 1)%nat with (t + 3)%nat by lia.
Qed.

Lemma bind_ok t e model relative e' : jsonl_ok e -> jsonl_bind_dynamic t e model relative = Ok e' -> jsonl_ok e'.
Proof.
  intros [H1 H2 H3] (sources & Hs & [= <-])%rbind_ok. constructor; [done..|]. cbn [je_sources je_root]. by eapply bind_definition_pinned.
Qed.

Lemma jsonl_reachable_ok e : jsonl_reachable e -> jsonl_ok e.
Proof.
  intros (t & root & limits & e0 & H0 & Hr).
  assert (O : jsonl_ok e0).
  { unfold jsonl_with_limits in H0. apply check_then in H0 as [Hl (r & _ & [= <-])%rbind_ok]. by constructor. }
  clear H0. induction Hr as [e|e e1 e2 Hs _ IH]; [done|]. apply IH. destruct Hs as [t' e model relative e' H|t' e model relative e' H].
  - unfold jsonl_bind, bind_model in H. apply rbind_ok in H as (sources & (m & _ & Hb)%rbind_ok & [= <-]).
    eapply (bind_ok t' e m relative); [done|]. unfold jsonl_bind_dynamic. by rewrite Hb.
  - by eapply bind_ok.
Qed.

(** ** Opening a stream *)
Inductive opens (t : nat) (e : JsonlEngine) (plan : LogicalPlan) (parameters : Parameters) (options : ExecutionOptions) : JsonlStream -> Prop :=
| opens_stream model reversed source file metadata :
    compile_walk (S (length (plan_nodes plan))) plan (plan_root plan) [] = Ok (model, reversed) ->
    bt_get (md_key model) (je_sources e) = Some source -> md_fingerprint (src_model source) = md_fingerprint model ->
    open_file t source = Ok file -> file_metadata (t + 5) file = Some metadata -> meta_len metadata <= jl_max_source_bytes (je_limits e) ->
    eo_batch_rows options <> O ->
    opens t e plan parameters options
      (mkJsonlStream (mkLineReader [] (take_reads (meta_len metadata) (file_reads file))) (src_model source) (rev reversed)
         parameters (plan_output plan) (eo_limits options) (je_limits e) (eo_batch_rows options) [] [] 0 0 false false).

Lemma execute_plan_opens t e plan parameters options s : jsonl_execute_plan t e plan parameters options = Ok s ->
  opens t e plan parameters options s.
Proof.
  unfold jsonl_execute_plan, jsonl_open, compile_plan.
  intros (p & _ & [_ [_ [_ [Hb%guard_ok (compiled & Hc & Hs)%rbind_ok]%check_then]%check_then]%check_then]%check_then)%rbind_ok.
  apply rbind_ok in Hc as ([model reversed] & Hw & (source & Hg%ok_or_ok & [Hfp%guard_ok%bool_decide_eq_true [= <-]]%check_then)%rbind_ok).
  apply rbind_ok in Hs as (file & Hf & (metadata & Hm%ok_or_ok & [Hl%guard_ok [= <-]]%check_then)%rbind_ok).
  cbn [cp_source cp_ops cp_output] in *. econstructor; try done; [by apply Z.leb_le|]. intros E. by rewrite E in Hb.
Qed.

(** Streams a client can hold: opened, then pulled or cancelled. *)
Inductive stream_step : JsonlStream -> JsonlStream -> Prop :=
| step_pull s o s' : jsonl_next_batch s = (o, s') -> stream_step s s'
| step_cancel s : stream_step s (jsonl_cancel s).

Definition opened (s : JsonlStream) : Prop :=
  exists t e plan parameters options s0, jsonl_execute_plan t e plan parameters options = Ok s0 /\ rtc stream_step s0 s.

Definition stream_ok (s : JsonlStream) : Prop := bounded s /\ js_batch_rows s <> O.

Lemma next_batch_keeps s o s' : stream_ok s -> jsonl_next_batch s = (o, s') ->
  stream_ok s' /\
  match o with
  | Ok None => jsonl_next_batch s' = (Ok None, s')
  | Ok (Some b) => eb_rows b <> [] /\ (length (eb_rows b) <= js_batch_rows s)%nat /\
                   enforce_rows (js_execution_limits s) (eb_rows b) = Ok tt /\ smaller_by 1 s' s
  | Err _ => True
  end.
Proof.
  intros [B Hb]. unfold jsonl_next_batch. destruct (_ || _) eqn:E; [intros [= <- <-]; by rewrite E|].
  destruct (batch_loop (target_rows s) [] 0 s) as [r s1] eqn:El.
  destruct (batch_loop_spec (target_rows s) [] s r s1 B ltac:(by left) eq_refl El) as (B1 & P1 & Hr).
  pose proof P1 as (_ & _ & _ & _ & Eb & _).
  assert (O1 : stream_ok s1) by (split; [done|by rewrite Eb]).
  destruct r as [rows|d]; [|intros [= <- <-]; done]. destruct (Hr rows eq_refl) as (added & -> & Hlen & Hw & Hs & Hend). cbn [app] in *.
  destruct added as [|row added]; intros [= <- <-]; (split; [done|]).
  - assert (Ht : target_rows s <> O) by (unfold target_rows; destruct (max_materialized_rows _); lia).
    destruct (Hend eq_refl Ht) as [-> ->]. by rewrite orb_true_r.
  - cbn [eb_rows]. split_and!; [done| | |].
    + unfold target_rows in Hlen. destruct (max_materialized_rows _); lia.
    + by destruct Hw as [Hw|Hw].
    + unfold smaller_by in *. cbn [length] in Hs. lia.
Qed.

Lemma opened_ok s : opened s -> stream_ok s.
Proof.
  intros (t & e & plan & parameters & options & s0 & H%execute_plan_opens & Hr).
  assert (O : stream_ok s0) by (destruct H; split; [constructor; [cbn; lia|by left]|done]).
  clear H. induction Hr as [s|s s1 s2 Hs _ IH]; [done|]. apply IH. destruct Hs as [s o s' H|s]; [by apply next_batch_keeps in H as [? _]|].
  destruct O as [[H1 H2] H3]. split; [|done]. constructor; [done|by left].
Qed.

#[export] Instance jsonl_stream_laws : DataStreamLaws JsonlStream.
Proof. split. intros s. by apply (pulls_end _ (jsonl_cancel s)). Qed.

(** A client that keeps pulling until the end or an error comes to it, and
    after the end nothing follows. *)
Inductive drains : JsonlStream -> Prop :=
| drains_end s s' : jsonl_next_batch s = (Ok None, s') -> jsonl_next_batch s' = (Ok None, s') -> drains s
| drains_error s d s' : jsonl_next_batch s = (Err d, s') -> drains s
| drains_batch s b s' : jsonl_next_batch s = (Ok (Some b), s') -> eb_rows b <> [] -> drains s' -> drains s.

Lemma ok_drains reads : forall pending s, (reader_size (js_reader s) <= reads)%nat -> (length (js_pending s) <= pending)%nat ->
  stream_ok s -> drains s.
Proof.
  induction reads as [reads IHr] using lt_wf_ind. induction pending as [pending IHp] using lt_wf_ind. intros s Hr Hp O.
  destruct (jsonl_next_batch s) as [o s'] eqn:E. destruct (next_batch_keeps s o s' O E) as [O' H]. destruct o as [[b|]|d].
  - destruct H as (Hne & _ & _ & Hs). eapply drains_batch; [done..|]. destruct Hs as [Hs|[Hs1 Hs2]].
    + eapply (IHr (reader_size (js_reader s'))); [lia|done..].
    + eapply (IHp (length (js_pending s'))); [lia|lia|done..].
  - by eapply drains_end.
  - by eapply drains_error.
Qed.
End Engines.
