(* ===== verification/JsonlContract.v ===== *)
(** * The contract of the JSON-lines engine

    It accepts exactly the plans it can run, its streams return the rows of
    the memory executor, read the file that was bound and nothing else, hold
    no more than their limits and end. *)
From Stdlib Require Import ZArith Lia.
From stdpp Require Import list relations.
From S2P Require Import Prelude Mutation Foreign Truth BTree Text Types Values Fingerprint Model Row Semantic Expr ExprPrepare Plan Executor ExecutorSpec Optimize Stream Placement PipelineTyping MemoryEngine Wire WireDecode WireText JsonlDecode JsonlRows JsonlEngine JsonlChain JsonlRefines JsonlReach.

Local Open Scope Z_scope.

(** ** The nodes the engine runs *)
Section Accepts.
Context {F : Foreign} {W : WireForeign F} {J : JsonForeign F} {FS : FileSystem}.
Context (version : string).

Definition runs_node (n : LogicalNode) : bool :=
  match n with
  | NSource _ _ | NUnnest _ _ | NSlice _ _ _ => true
  | NFilter _ condition => negb (expression_requires condition)
  | NProject _ projection => forallb (fun e => negb (expression_requires e)) (lp_expressions projection)
  | _ => false
  end.

Lemma jsonl_supports e n : jsonl_ok e -> is_supported (support_for_node e n) = runs_node n.
Proof.
  intros O. cbn [support_for_node jsonl_engine]. unfold default_support_for_node. rewrite (jo_capabilities e O).
  unfold capability_support_for_node. destruct n; try done; unfold node_requires_existential_support; cbn [node_expressions runs_node existsb].
  - rewrite orb_false_r. by destruct (expression_requires condition).
  - induction (lp_expressions projection) as [|x l IH]; [done|]. cbn [existsb forallb]. by destruct (expression_requires x).
  - by destruct (existsb _ _).
  - by destruct (existsb _ _).
  - by destruct (existsb _ _).
  - by destruct (existsb _ _).
Qed.

Lemma free_expression e : expression_requires e = false -> free_of_subqueries e = true.
Proof. unfold expression_requires, free_of_subqueries. intros [_ H]%orb_false_iff. by destruct (existential_dependencies e). Qed.

Lemma compile_walk_runs plan : topological (plan_nodes plan) -> forallb runs_node (plan_nodes plan) = true ->
  forall fuel current reversed, (current < fuel)%nat -> (current < length (plan_nodes plan))%nat ->
  exists model ops, compile_walk fuel plan current reversed = Ok (model, ops).
Proof.
  intros T R. induction fuel as [|fuel IH]; intros current reversed Hf Hc; [lia|]. cbn [compile_walk].
  apply lookup_lt_is_Some in Hc as [n Hn]. rewrite Hn. cbn [ok_or rbind].
  rewrite forallb_forall in R. pose proof (R n (proj1 (list_elem_of_In _ _) (list_elem_of_lookup_2 _ _ _ Hn))) as Hr.
  assert (G : forall input reversed, input ∈ node_inputs n -> exists model ops, compile_walk fuel plan input reversed = Ok (model, ops)).
  { intros input r Hi. specialize (T current n Hn). rewrite Forall_forall in T. specialize (T input Hi).
    apply lookup_lt_Some in Hn. apply IH; lia. }
  destruct n; try discriminate Hr; cbn [runs_node] in Hr.
  - eauto.
  - rewrite free_expression by (by apply negb_true_iff). apply G. by left.
  - assert (forallb free_of_subqueries (lp_expressions projection) = true) as ->.
    { apply forallb_forall. intros x Hx. apply free_expression, negb_true_iff. rewrite forallb_forall in Hr. by apply Hr. }
    apply G. by left.
  - apply G. by left.
  - apply G. by left.
Qed.

(** A plan with a node beyond the engine is not placed, or not fully. *)
Lemma unsupported_placement plan policy support_for n : backward (plan_nodes plan) -> Z.of_nat (length (plan_nodes plan)) <= u32_max + 1 ->
  policy_valid policy -> n ∈ plan_nodes plan -> is_supported (support_for n) = false ->
  match policy with
  | RemoteOnly => analyze_placement_with plan policy support_for = error "ENGINE-PLACEMENT-001"
  | Hybrid _ => exists placement, analyze_placement_with plan policy support_for = Ok placement /\ is_fully_engine placement = false
  end.
Proof.
  intros B L Hy [i Hi]%list_elem_of_lookup Hn. assert (Hr : requires_local support_for (plan_nodes plan) i) by by eapply requires_unsupported.
  pose proof (placement_loop support_for policy _ B L (plan_nodes plan) [] [] eq_refl eq_refl (placed_nothing _ _)) as Hl.
  destruct policy as [|transfer]; unfold analyze_placement_with; [|cbn in Hy; rewrite Hy]; cbn [rbind].
  - destruct Hl as [(_ & _ & ->)|(Hz & _)]; [done|]. by destruct (Hz eq_refl i ltac:(cbn; lia)).
  - destruct Hl as [(? & _)|(_ & nodes & -> & Hlen & Hp)]; [done|]. cbn [rbind]. eexists. split; [done|].
    destruct (placed_at (plan_nodes plan) i nodes) as (m & p & Hm & Hpi); [apply lookup_lt_Some in Hi; lia|lia|].
    apply not_true_iff_false. unfold is_fully_engine. cbn [pp_nodes]. rewrite forallb_forall. intros Hf.
    specialize (Hf p (proj1 (list_elem_of_In _ _) (list_elem_of_lookup_2 _ _ _ Hpi))).
    destruct (Hp i m p Hm Hpi) as (_ & _ & Hs). by rewrite (proj2 Hs Hr) in Hf.
Qed.

(** The engine runs exactly the plans it claims to: a well-formed plan of
    sources, filters and projections without subqueries, unnests and slices
    compiles to a chain of operators and goes to the stream; any other plan
    is refused before anything is opened, under every policy. *)
Theorem jsonl_accepts_exactly t e plan parameters options : jsonl_reachable version e -> well_formed plan ->
  Z.of_nat (length (plan_nodes plan)) <= u32_max + 1 -> policy_valid (eo_placement options) ->
  if forallb runs_node (plan_nodes plan) then
    (exists model reversed, compile_walk (S (length (plan_nodes plan))) plan (plan_root plan) [] = Ok (model, reversed)) /\
    jsonl_execute_plan t e plan parameters options = jsonl_open t (je_sources e) plan parameters options (je_limits e)
  else
    jsonl_execute_plan t e plan parameters options =
      error (match eo_placement options with RemoteOnly => "ENGINE-PLACEMENT-001" | Hybrid _ => "JSONL-PLACEMENT-001" end).
Proof.
  intros O%jsonl_reachable_ok Hw L Hy. pose proof (well_formed_backward _ Hw) as B. destruct Hw as (T & Hroot & _).
  unfold jsonl_execute_plan, analyze_engine_placement. destruct (forallb runs_node (plan_nodes plan)) eqn:R.
  - split; [by apply compile_walk_runs; [..|lia|]|].
    destruct (supported_placement plan (eo_placement options) (support_for_node e) B L) as (placement & -> & _ & Hf); [|done|].
    + apply Forall_forall. intros n Hn. rewrite jsonl_supports by done. rewrite forallb_forall in R. by apply R, list_elem_of_In.
    + cbn [rbind]. by rewrite Hf.
  - assert (exists n, n ∈ plan_nodes plan /\ runs_node n = false) as (n & Hn & Hr).
    { clear -R. induction (plan_nodes plan) as [|n l IH]; [done|]. cbn [forallb] in R. apply andb_false_iff in R as [R|R]; [exists n; by split; [left|]|].
      destruct (IH R) as (m & Hm & Hr). exists m. by split; [right|]. }
    rewrite <- (jsonl_supports e n O) in Hr. pose proof (unsupported_placement plan _ _ n B L Hy Hn Hr) as H.
    destruct (eo_placement options); [by rewrite H|]. destruct H as (placement & -> & Hf). cbn [rbind]. by rewrite Hf.
Qed.
End Accepts.

(** ** Streams *)
Section Streams.
Context {F : Foreign} {W : WireForeign F} {J : JsonForeign F} {FS : FileSystem}.
Context (version : string).

(** C33: JSON-lines streams compute what the memory executor computes: when an
    engine opens a stream for a plan, its file reads without I/O errors and
    its lines decode to the rows of a table, then pulling the stream to its
    end returns the rows the memory executor returns for the plan on the
    table, in the same order, whatever the chunks the file is read in and the
    batches the rows come in. *)
Theorem jsonl_refines_memory t e plan parameters options s tables table batch_rows stream :
  jsonl_reachable version e -> jsonl_execute_plan t e plan parameters options = Ok s ->
  forallb machine_slice (plan_nodes plan) = true ->
  (forall max, max_materialized_bytes (eo_limits options) = Some max -> max < u64_max) ->
  clean (js_reader s) -> bt_get (md_key (js_model s)) tables = Some table ->
  Forall2 (line_reads (je_limits e) (js_model s)) (file_lines (reader_bytes (js_reader s))) (mt_rows table) ->
  zlen (mt_rows table) <= jl_max_scanned_rows (je_limits e) ->
  execute tables plan parameters (eo_limits options) batch_rows = Ok stream ->
  exists batches, pulls s batches /\ concat batches = ms_rows stream.
Proof.
  intros O%jsonl_reachable_ok Hs%execute_plan_opens Hm Hmax Hc Ht H2 Hn Hx.
  destruct Hs as [model reversed source file metadata Hw Hg _ Hf Hmeta Hl Hb]. cbn [js_reader js_model] in *.
  apply compile_walk_ok in Hw as (ops & Hw & ->). cbn [app]. rewrite rev_involutive.
  destruct (jo_sources e O _ _ Hg) as (Hk & _). rewrite Hk in Ht.
  destruct (executed_chain _ _ _ _ _ _ _ _ Hm Hx Hw) as (table' & ops' & Ht' & C). rewrite Ht in Ht'. injection Ht' as <-.
  destruct (chain_limits _ _ _ _ _ _ C) as [_ Ho].
  refine (stream_pulls (length (ms_rows stream)) _ (mt_rows table) (ms_rows stream) _ _ _ _); [done| |done|].
  - split; [done|]. cbn. split_and!; [done..|by exists ops'].
  - cbn [js_pending js_execution_limits app]. apply Forall_forall. intros row Hr max E.
    destruct (enforced_row _ _ _ Ho Hr max E) as [?|?]; [done|]. specialize (Hmax max E). lia.
Qed.

(** C34: a stream reads the file that was bound: the path its source was bound
    to leads, when the stream is opened, to a file below the root whose
    identity is that of the handle opened when the model was bound, and the
    stream reads that file and no more bytes than the limit. *)
Theorem jsonl_confined t e plan parameters options s :
  jsonl_reachable version e -> jsonl_execute_plan t e plan parameters options = Ok s ->
  exists source canonical file opened pin size,
    bt_get (md_key (js_model s)) (je_sources e) = Some source /\ js_model s = src_model source /\
    path_starts_with (src_path source) (je_root e) = true /\ (exists bound, fs_open bound (src_path source) = Some (src_file source)) /\
    fs_canonicalize t (src_path source) = Some canonical /\ path_starts_with canonical (je_root e) = true /\
    fs_open (t + 2) canonical = Some file /\ file_metadata (t + 3) file = Some opened /\
    file_metadata (t + 4) (src_file source) = Some pin /\ same_file pin opened = true /\
    js_reader s = mkLineReader [] (take_reads size (file_reads file)) /\
    zlen (reader_bytes (js_reader s)) <= Z.max 0 (jl_max_source_bytes (je_limits e)).
Proof.
  intros O%jsonl_reachable_ok Hs%execute_plan_opens. destruct Hs as [model reversed source file metadata Hw Hg _ Hf Hmeta Hl Hb].
  destruct (jo_sources e O _ _ Hg) as (Hk & Hr & Hp & bound & om & Hbound & _).
  apply rbind_ok in Hf as (canonical & Hc%ok_or_ok & [Hin%guard_ok (md & _ & [_ (f & Hfo%ok_or_ok & (opened & Ho%ok_or_ok & (pin & Hpin%ok_or_ok & [Hsame%guard_ok [= ->]]%check_then)%rbind_ok)%rbind_ok)%rbind_ok]%check_then)%rbind_ok]%check_then).
  apply andb_true_iff in Hsame as [_ Hsame]. rewrite Hr in Hin. cbn [js_model js_reader].
  exists source, canonical, file, opened, pin, (meta_len metadata). rewrite Hk. split_and!; try done; [by exists bound|].
  pose proof (take_reads_bytes (file_reads file) (meta_len metadata)). unfold reader_bytes. cbn [rd_buffer rd_reads app]. lia.
Qed.

(** C35: streams come to an end: whatever its file contains and however reads
    fail, a client that pulls a stream until the end or an error gets there
    after finitely many batches, none of them empty, and after the end
    nothing follows; and no single pull loops, because the loop that looks
    for rows always has an outcome, the one the definition computes. *)
Theorem jsonl_stream_drains s : opened s ->
  drains s /\ forall o s', fill_pending (fill_fuel s) s = (o, s') <-> fills s o s'.
Proof.
  intros O%opened_ok. split; [by eapply (ok_drains (reader_size (js_reader s)) (length (js_pending s)))|]. destruct O as [B _].
  pose proof (fill_pending_fills (fill_fuel s) s B ltac:(unfold fill_fuel; lia)) as Hf. intros o s'. split.
  - intros E. by rewrite E in Hf.
  - intros H. destruct (fills_functional _ _ _ Hf _ _ H) as [<- <-]. apply surjective_pairing.
Qed.

(** C36: streams work in bounded space: at any time a stream holds one line no
    longer than the limit on lines and the rows of one line within the limits
    of the execution, and every batch has rows, no more than asked for, and
    within those limits. *)
Theorem jsonl_stream_bounded s : opened s ->
  (length (js_line_buffer s) <= jl_max_line_bytes (js_jsonl_limits s))%nat /\
  (js_pending s = [] \/ enforce_rows (js_execution_limits s) (js_pending s) = Ok tt) /\
  forall b s', jsonl_next_batch s = (Ok (Some b), s') ->
    eb_rows b <> [] /\ (length (eb_rows b) <= js_batch_rows s)%nat /\ enforce_rows (js_execution_limits s) (eb_rows b) = Ok tt.
Proof.
  intros O%opened_ok. pose proof O as [[B1 B2] _]. split_and!; [done..|]. intros b s' E.
  by destruct (next_batch_keeps _ _ _ O E) as [_ (H1 & H2 & H3 & _)].
Qed.
End Streams.

(** ** A directory with one file of two lines, read in chunks of five bytes *)
Module JsonlSample.
Definition root : Path := mkPath true ["data"%stdpp].
Definition users : Path := mkPath true ["data"%stdpp; "users.jsonl"%stdpp].
Definition contents : list Z := bytes_of JsonSample.seven ++ [13; 10] ++ bytes_of JsonSample.eight.

Fixpoint in_fives (fuel : nat) (l : list Z) : list (option (list Z)) :=
  match fuel, l with
  | S fuel', _ :: _ => Some (take 5 l) :: in_fives fuel' (drop 5 l)
  | _, _ => []
  end.

Definition metadata (p : Path) : option Metadata :=
  if bool_decide (p = root) then Some (mkMetadata false true 1 1 0)
  else if bool_decide (p = users) then Some (mkMetadata true false 1 2 (zlen contents)) else None.

Definition disk : FileSystem := {|
  File := Path;
  fs_canonicalize := fun _ p => if metadata p then Some p else None;
  fs_metadata := fun _ => metadata;
  fs_open := fun _ p => if metadata p then Some p else None;
  file_metadata := fun _ => metadata;
  file_reads := fun p => if bool_decide (p = users) then in_fives (length contents) contents else []
|}.
#[local] Existing Instance disk.

Definition opened_engine : Result JsonlEngine :=
  let? e := jsonl_with_limits "0.1.0" 0 root JsonSample.limits in
  jsonl_bind_dynamic 2 e sample_model (mkPath false ["users.jsonl"%stdpp]).

(** The rows whose email is null, at most one. *)
Definition plan : LogicalPlan (F:=sample_foreign) :=
  mkLogicalPlan [NSource sample_model None; NFilter 0 sample_prepared; NSlice 1 0 (Some 1)] 2 (OutModel sample_model) [].
Definition options : ExecutionOptions := mkExecutionOptions (mkExecutionLimits (Some 10) (Some 4096) 16 16 1) RemoteOnly 8.
Definition tables : Tables (F:=sample_foreign) :=
  [("user"%stdpp, mkMemoryTable sample_model [JsonSample.user Missing 7; JsonSample.user Null 8])].

Definition running : Result JsonlStream := let? e := opened_engine in jsonl_execute_plan 7 e plan parameters_new options.

Lemma read_in_fives : rmap js_reader running = Ok (mkLineReader [] (in_fives (length contents) contents)).
Proof. vm_compute. reflexivity. Qed.

Lemma of_users : rmap js_model running = Ok sample_model.
Proof. reflexivity. Qed.

Lemma bound_engine e : opened_engine = Ok e -> jsonl_reachable "0.1.0" e /\ je_limits e = JsonSample.limits.
Proof.
  intros (e0 & H0 & H)%rbind_ok. split.
  - exists 0%nat, root, JsonSample.limits, e0. split; [exact H0|]. eapply rtc_once, step_jsonl_bind_dynamic, H.
  - apply rbind_ok in H as (sources & _ & [= <-]). apply check_then in H0 as [_ (r & _ & [= <-])%rbind_ok]. reflexivity.
Qed.

Lemma runs : exists e s, opened_engine = Ok e /\ jsonl_reachable "0.1.0" e /\ je_limits e = JsonSample.limits /\
  jsonl_execute_plan 7 e plan parameters_new options = Ok s /\ js_model s = sample_model /\
  js_reader s = mkLineReader [] (in_fives (length contents) contents).
Proof.
  pose proof read_in_fives as Hr. pose proof of_users as Hm. unfold running in *.
  destruct opened_engine as [e|] eqn:E; [|discriminate Hr]. destruct (bound_engine e E) as [R L]. cbn [rbind] in *.
  destruct (jsonl_execute_plan 7 e plan parameters_new options) as [s|] eqn:X; [|discriminate Hr]. exists e, s.
  injection Hr as Hr. injection Hm as Hm. split_and!; assumption || reflexivity.
Qed.

Lemma sample_executes : rmap (fun s => length (ms_rows s)) (execute tables plan parameters_new (eo_limits options) 8) = Ok 1%nat.
Proof. vm_compute. reflexivity. Qed.

Lemma lines_read : Forall2 (line_reads JsonSample.limits sample_model) (file_lines (reader_bytes (mkLineReader [] (in_fives (length contents) contents))))
  [JsonSample.user Missing 7; JsonSample.user Null 8].
Proof.
  let l := eval vm_compute in (file_lines (reader_bytes (mkLineReader [] (in_fives (length contents) contents)))) in
  change (Forall2 (line_reads JsonSample.limits sample_model) l [JsonSample.user Missing 7; JsonSample.user Null 8]).
  repeat (constructor; [split; [cbn; lia|reflexivity]|]). constructor.
Qed.

Lemma clean_reads : clean (mkLineReader [] (in_fives (length contents) contents)).
Proof.
  let l := eval vm_compute in (in_fives (length contents) contents) in change (in_fives (length contents) contents) with l.
  repeat (constructor; [by eexists _, _|]). constructor.
Qed.

Ltac sample_nodes := intros i n H; repeat (destruct i as [|i]; [injection H as <-; repeat constructor|]); discriminate H.

Lemma plan_well_formed : well_formed plan.
Proof. split; [|split; [cbn; lia|]]; sample_nodes. Qed.
Lemma other_well_formed : well_formed placement_sample.
Proof. split; [|split; [cbn; lia|]]; sample_nodes. Qed.
Lemma plan_small : Z.of_nat (length (plan_nodes plan)) <= u32_max + 1.
Proof. vm_compute. discriminate. Qed.
Lemma other_small : Z.of_nat (length (plan_nodes placement_sample)) <= u32_max + 1.
Proof. vm_compute. discriminate. Qed.
Lemma plan_runs : forallb runs_node (plan_nodes plan) = true.
Proof. reflexivity. Qed.
Lemma other_refused : forallb runs_node (plan_nodes placement_sample) = false.
Proof. reflexivity. Qed.
End JsonlSample.
#[export] Existing Instance JsonlSample.disk.

Lemma jsonl_refines_memory_witness : exists e s stream batches, JsonlSample.opened_engine = Ok e /\
  jsonl_execute_plan 7 e JsonlSample.plan parameters_new JsonlSample.options = Ok s /\
  execute JsonlSample.tables JsonlSample.plan parameters_new (eo_limits JsonlSample.options) 8 = Ok stream /\ length (ms_rows stream) = 1%nat /\
  pulls s batches /\ concat batches = ms_rows stream.
Proof.
  destruct JsonlSample.runs as (e & s & He & R & L & Hs & Hm & Hr).
  destruct (execute JsonlSample.tables JsonlSample.plan parameters_new (eo_limits JsonlSample.options) 8) as [stream|] eqn:X;
    [|pose proof JsonlSample.sample_executes as H; by rewrite X in H].
  destruct (jsonl_refines_memory "0.1.0" 7 e JsonlSample.plan parameters_new JsonlSample.options s JsonlSample.tables
    (mkMemoryTable sample_model [JsonSample.user Missing 7; JsonSample.user Null 8]) 8 stream) as (batches & H1 & H2).
  - exact R.
  - exact Hs.
  - reflexivity.
  - intros max [= <-]. reflexivity.
  - rewrite Hr. exact JsonlSample.clean_reads.
  - rewrite Hm. reflexivity.
  - rewrite Hr, Hm, L. exact JsonlSample.lines_read.
  - rewrite L. vm_compute. discriminate.
  - exact X.
  - exists e, s, stream, batches. pose proof JsonlSample.sample_executes as H. rewrite X in H. injection H as H. split_and!; assumption || reflexivity.
Defined.

Lemma jsonl_confined_witness : exists (e : JsonlEngine) (s : JsonlStream) (source : JsonlSource), jsonl_execute_plan 7 e JsonlSample.plan parameters_new JsonlSample.options = Ok s /\
  bt_get (md_key (js_model s)) (je_sources e) = Some source /\ path_starts_with (src_path source) (je_root e) = true.
Proof.
  destruct JsonlSample.runs as (e & s & _ & R & _ & Hs & _ & _). exists e, s.
  destruct (jsonl_confined "0.1.0" 7 e JsonlSample.plan parameters_new JsonlSample.options s R Hs) as (source & _ & _ & _ & _ & _ & H1 & _ & H2 & _).
  exists source. split_and!; assumption.
Defined.

Lemma jsonl_stream_drains_witness : exists s, JsonlSample.running = Ok s /\ drains s.
Proof.
  destruct JsonlSample.runs as (e & s & He & R & _ & Hs & _ & _). exists s. split; [unfold JsonlSample.running; rewrite He; exact Hs|].
  apply (jsonl_stream_drains s). exists 7%nat, e, JsonlSample.plan, parameters_new, JsonlSample.options, s. split; [exact Hs|apply rtc_refl].
Defined.

Lemma jsonl_stream_bounded_witness : exists s, JsonlSample.running = Ok s /\ (length (js_line_buffer s) <= jl_max_line_bytes (js_jsonl_limits s))%nat.
Proof.
  destruct JsonlSample.runs as (e & s & He & R & _ & Hs & _ & _). exists s. split; [unfold JsonlSample.running; rewrite He; exact Hs|].
  apply (jsonl_stream_bounded s). exists 7%nat, e, JsonlSample.plan, parameters_new, JsonlSample.options, s. split; [exact Hs|apply rtc_refl].
Defined.

Lemma jsonl_accepts_exactly_witness : exists e, JsonlSample.opened_engine = Ok e /\
  jsonl_execute_plan 7 e JsonlSample.plan parameters_new JsonlSample.options =
    jsonl_open 7 (je_sources e) JsonlSample.plan parameters_new JsonlSample.options (je_limits e) /\
  jsonl_execute_plan 7 e placement_sample parameters_new JsonlSample.options = error "ENGINE-PLACEMENT-001".
Proof.
  destruct JsonlSample.runs as (e & s & He & R & _). exists e. split; [exact He|]. split.
  - pose proof (jsonl_accepts_exactly "0.1.0" 7 e JsonlSample.plan parameters_new JsonlSample.options R JsonlSample.plan_well_formed
      JsonlSample.plan_small I) as H. rewrite JsonlSample.plan_runs in H. exact (proj2 H).
  - pose proof (jsonl_accepts_exactly "0.1.0" 7 e placement_sample parameters_new JsonlSample.options R JsonlSample.other_well_formed
      JsonlSample.other_small I) as H. rewrite JsonlSample.other_refused in H. exact H.
Defined.
