(* ===== verification/MgCodec.v ===== *)
(** * BSON, mappings and the codec of the MongoDB engine
    ([engines/mongodb/src/mapping.rs], [codec.rs], [compiled.rs])

    Collections and fields of models, the compiled aggregation, and how
    scalars travel as BSON.  Decimal128 and the text of decimals
    are third-party. *)
From Stdlib Require Import ZArith Lia SpecFloat.
From stdpp Require Import list.
From S2P Require Import Prelude Floats Foreign Truth BTree Text Types Values Fingerprint Model Row Plan Executor WireDecode WireText.

Local Open Scope Z_scope.

Class MongoForeign (F : Foreign) := {
  Decimal128 : Type;
  dec128_from_str : string -> option Decimal128;
  dec128_to_string : Decimal128 -> string;
  rust_decimal_to_string : Decimal -> string
}.

(** ** Mappings ([mapping.rs]) *)
Record CollectionMapping := mkCollectionMapping { cm_database : string; cm_collection : string; cm_fields : list (string * string) }.

Definition collection_new (database collection : string) : CollectionMapping := mkCollectionMapping database collection [].
Definition collection_field (m : CollectionMapping) (key name : string) : CollectionMapping :=
  mkCollectionMapping (cm_database m) (cm_collection m) (bt_insert key name (cm_fields m)).
Definition collection_field_mapping (m : CollectionMapping) (key : string) : option string := bt_get key (cm_fields m).

(** [value.contains([..])] of ASCII characters. *)
Definition contains_any (bytes : list Z) (s : string) : bool := existsb (fun b => existsb (Z.eqb b) bytes) (bytes_of s).

Definition validate_database_name (s : string) : Result unit :=
  guard (negb (is_empty_str s || (63 <? zstrlen s) || contains_any [0; 47; 92; 46; 32; 34; 36] s)) "MONGODB-MAP-007".
Definition validate_collection_name (s : string) : Result unit :=
  guard (negb (is_empty_str s || contains_any [0] s || str_starts_with s "system.")) "MONGODB-MAP-008".
Definition validate_field_name (s : string) : Result unit :=
  guard (negb (is_empty_str s || contains_any [0; 46] s || str_starts_with s "$" || str_starts_with s "__dol_")) "MONGODB-MAP-009".

Definition validate_collection (m : CollectionMapping) (model : ModelDef) : Result unit :=
  validate_database_name (cm_database m) ;;?
  validate_collection_name (cm_collection m) ;;?
  guard (Nat.eqb (length (cm_fields m)) (length (md_fields model))) "MONGODB-MAP-001" ;;?
  foldR (fun physical field =>
    let? name := ok_or (collection_field_mapping m (fd_key field)) "MONGODB-MAP-002" in
    validate_field_name name ;;?
    insert_new name physical "MONGODB-MAP-003") (md_fields model) [] ;;?
  forR (fun entry => guard (match model_field model (fst entry) with Some _ => true | None => false end) "MONGODB-MAP-004") (cm_fields m).

Record MongoEntry := mkMongoEntry { me_fingerprint : Fingerprint; me_mapping : CollectionMapping }.
Definition MongodbCatalog := list (string * MongoEntry).

Definition mongodb_register (c : MongodbCatalog) (model : ModelDef) (mapping : CollectionMapping) : Result MongodbCatalog :=
  validate_collection mapping model ;;?
  match bt_get (md_key model) c with
  | Some existing => guard (bool_decide (me_fingerprint existing = md_fingerprint model)) "MONGODB-MAP-005"
  | None => Ok tt
  end ;;?
  Ok (bt_insert (md_key model) (mkMongoEntry (md_fingerprint model) mapping) c).

Definition mongodb_collection (c : MongodbCatalog) (model : ModelDef) : Result CollectionMapping :=
  let? entry := ok_or (bt_get (md_key model) c) "MONGODB-MAP-006" in
  guard (bool_decide (me_fingerprint entry = md_fingerprint model)) "MONGODB-MAP-005" ;;?
  validate_collection (me_mapping entry) model ;;?
  Ok (me_mapping entry).

Section Codec.
Context {F : Foreign} {W : WireForeign F} {M : MongoForeign F}.

(** ** BSON: documents keep the order of insertion; of the binary subtypes
    only whether it is the generic one matters *)
Inductive Bson :=
| BNull
| BBoolean (b : bool)
| BInt32 (n : Z)
| BInt64 (n : Z)
| BDouble (bits : Z)
| BDecimal128 (d : Decimal128)
| BString (s : string)
| BBinary (generic : bool) (bytes : list Z)
| BArray (l : list Bson)
| BDocument (d : list (string * Bson)).
Definition Document := list (string * Bson).

Fixpoint doc_get (key : string) (d : Document) : option Bson :=
  match d with
  | [] => None
  | (k, v) :: rest => if String.eqb k key then Some v else doc_get key rest
  end.

(** [Document::insert]: a key that is there keeps its place. *)
Fixpoint doc_insert (key : string) (v : Bson) (d : Document) : Document :=
  match d with
  | [] => [(key, v)]
  | (k, w) :: rest => if String.eqb k key then (k, v) :: rest else (k, w) :: doc_insert key v rest
  end.

(** ** The compiled aggregation ([compiled.rs]) *)
Record BsonOutputField := mkBsonOutputField { of_state_field : string; of_value_field : string; of_ty : TypeDef }.
Record CompiledAggregation := mkCompiledAggregation {
  ca_database : string;
  ca_collection : string;
  ca_validation_pipeline : list Document;
  ca_pipeline : list Document;
  ca_fields : list BsonOutputField;
  ca_output : PlanOutput
}.

(** ** Encoding ([codec.rs]) *)
Definition ensure_supported_type (ty : TypeDef) : Result unit :=
  guard (match ty_shape ty with
         | ShScalar (RBool | RTruth | RFloat64 | RChar | RString | RBytes | RUuid) => true
         | ShScalar (RInt bits | RUInt bits) => bits <=? 64
         | _ => false
         end) "MONGODB-CODEC-001".

Definition invalid_value {A} : Result A := error "MONGODB-DECODE-002".
Definition mongo_truth_tag (t : Truth) : Z := match t with TFalse => 0 | TTrue => 1 | TUnknown => 2 end.
Definition in_i64 (n : Z) : bool := (- 2 ^ 63 <=? n) && (n <? 2 ^ 63).
Definition in_i32 (n : Z) : bool := (- 2 ^ 31 <=? n) && (n <? 2 ^ 31).

Definition decimal128_of (s : string) : Result Bson := rmap BDecimal128 (ok_or (dec128_from_str s) "MONGODB-DECODE-002").

Definition encode_value (ty : TypeDef) (v : Value) : Result Bson :=
  match ty_shape ty, v with
  | ShScalar RBool, VBool b => Ok (BBoolean b)
  | ShScalar RTruth, VTruth t => Ok (BInt32 (mongo_truth_tag t))
  | ShScalar (RInt bits), VInt n =>
      if bits <=? 64 then guard (in_i64 n) "MONGODB-DECODE-002" ;;? Ok (BInt64 n) else invalid_value
  | ShScalar (RUInt bits), VUInt n => if bits <=? 64 then decimal128_of (int_text n) else invalid_value
  | ShScalar RFloat32, VFloat32 b => Ok (BDouble (f64_of_f32 (widen_nan b) b))
  | ShScalar RFloat64, VFloat64 b => Ok (BDouble b)
  | ShScalar RDecimal, VDecimal d => decimal128_of (rust_decimal_to_string d)
  | ShScalar RChar, VChar c => Ok (BString (char_text c))
  | ShScalar RString, VString s => Ok (BString s)
  | ShScalar RBytes, VBytes b => Ok (BBinary true b)
  | ShScalar RUuid, VUuid u => Ok (BString (uuid_hyphenated (uuid_bytes u)))
  | _, _ => invalid_value
  end.

Definition encode_datum (ty : TypeDef) (d : Datum) : Result Bson :=
  ensure_supported_type ty ;;?
  map_err (validate_datum ty Optional d) "MONGODB-CODEC-002" ;;?
  match d with
  | Missing | Null => Ok BNull
  | DValue v => encode_value ty v
  end.

(** ** Decoding *)
Definition mongo_decode_truth (n : Z) : Result Truth :=
  if n =? 0 then Ok TFalse else if n =? 1 then Ok TTrue else if n =? 2 then Ok TUnknown else invalid_value.

(** [value as f32]: the nearest value, ties to even. *)
Definition f32_of_f64 (nan b : Z) : Z :=
  match to_spec binary64 b with
  | S754_finite s m e =>
      of_spec binary32 nan (binary_normalize (prec binary32) (emax binary32) (if s then Z.neg m else Z.pos m) e s)
  | f => of_spec binary32 nan f
  end.

Definition decode_value (ty : TypeDef) (v : Bson) : Result Value :=
  ensure_supported_type ty ;;?
  match ty_shape ty, v with
  | ShScalar RBool, BBoolean b => Ok (VBool b)
  | ShScalar RTruth, BInt32 n => rmap VTruth (mongo_decode_truth n)
  | ShScalar RTruth, BInt64 n => guard (in_i32 n) "MONGODB-DECODE-002" ;;? rmap VTruth (mongo_decode_truth n)
  | ShScalar (RInt bits), (BInt32 n | BInt64 n) => if bits <=? 64 then Ok (VInt n) else invalid_value
  | ShScalar (RUInt bits), BDecimal128 d =>
      if bits <=? 64 then rmap VUInt (ok_or (parse_u128 (dec128_to_string d)) "MONGODB-DECODE-002") else invalid_value
  | ShScalar RFloat32, BDouble b =>
      let narrowed := f32_of_f64 (quiet_nan binary32) b in
      guard (is_nan binary64 b || float_eqb binary64 (f64_of_f32 (widen_nan narrowed) narrowed) b) "MONGODB-DECODE-002" ;;?
      Ok (VFloat32 narrowed)
  | ShScalar RFloat64, BDouble b => Ok (VFloat64 b)
  | ShScalar RDecimal, BDecimal128 d => rmap VDecimal (ok_or (dec_from_str (dec128_to_string d)) "MONGODB-DECODE-002")
  | ShScalar RChar, BString s => match chars s with [c] => Ok (VChar c) | _ => invalid_value end
  | ShScalar RString, BString s => Ok (VString s)
  | ShScalar RBytes, BBinary true b => Ok (VBytes b)
  | ShScalar RUuid, BString s => rmap VUuid (ok_or (uuid_from_str s) "MONGODB-DECODE-002")
  | _, _ => invalid_value
  end.

Definition decode_state (v : option Bson) : Result Z :=
  match v with
  | Some (BInt32 n) => Ok n
  | Some (BInt64 n) => guard (in_i32 n) "MONGODB-DECODE-001" ;;? Ok n
  | _ => error "MONGODB-DECODE-001"
  end.

Definition assemble_value_output (ty : TypeDef) (datums : list Datum) : Result Datum :=
  match ty_shape ty with
  | ShScalar _ => match datums with [d] => Ok d | _ => error "MONGODB-DECODE-003" end
  | ShTuple elements => guard (Nat.eqb (length elements) (length datums)) "MONGODB-DECODE-003" ;;? Ok (DValue (VTuple datums))
  | ShRecord fields =>
      guard (Nat.eqb (length fields) (length datums)) "MONGODB-DECODE-003" ;;?
      Ok (DValue (VRecord (bt_collect (combine (map field_name fields) datums))))
  | _ => error "MONGODB-DECODE-003"
  end.

Definition decode_output (output : PlanOutput) (datums : list Datum) (model : option ModelDef) : Result ExecutionRow :=
  match output with
  | OutModel expected =>
      guard (Nat.eqb (length datums) (length (md_fields expected))) "MONGODB-DECODE-003" ;;?
      let? model := ok_or model "MONGODB-DECODE-003" in
      rmap RModel (row_from_dense model datums)
  | OutValue ty =>
      let? datum := assemble_value_output ty datums in
      map_err (validate_datum ty Required datum) "MONGODB-DECODE-004" ;;?
      Ok (RValue datum)
  | OutProduct _ | OutNullable _ => error "MONGODB-DECODE-005"
  end.

(** [RowDecoder]. *)
Definition row_decoder_new (compiled : CompiledAggregation) : option ModelDef :=
  match ca_output compiled with OutModel m => Some m | _ => None end.

Definition decode_field_datum (document : Document) (field : BsonOutputField) : Result Datum :=
  let? state := decode_state (doc_get (of_state_field field) document) in
  if state =? 0 then Ok Missing
  else if state =? 1 then Ok Null
  else if state =? 2 then
    let? value := ok_or (doc_get (of_value_field field) document) "MONGODB-DECODE-002" in
    rmap DValue (decode_value (of_ty field) value)
  else error "MONGODB-DECODE-001".

Definition row_decode (model : option ModelDef) (compiled : CompiledAggregation) (document : Document) : Result ExecutionRow :=
  let? datums := mapR (decode_field_datum document) (ca_fields compiled) in
  decode_output (ca_output compiled) datums model.
End Codec.
