(* ===== verification/MgCompile.v ===== *)
(** * The MongoDB engine ([engines/mongodb/src/compiler.rs], [runtime.rs],
    [lib.rs])

    A plan of a source, filters, projections and slices becomes an
    aggregation pipeline.  Every datum is a pair of aggregation expressions,
    its state (missing, null or value) and its value; literals and parameters
    are quoted BSON values. *)
From Stdlib Require Import ZArith Lia.
From stdpp Require Import list.
From S2P Require Import Prelude Mutation Foreign Truth BTree Text Types Values Fingerprint Model Row Expr Semantic ExprPrepare Plan Placement Executor Stream Writes MemoryStore MemoryEngine WireDecode PushDown MgCodec.

Local Open Scope Z_scope.

Definition STATE_MISSING : Z := 0.
Definition STATE_NULL : Z := 1.
Definition STATE_VALUE : Z := 2.
Definition TRUTH_FALSE : Z := 0.
Definition TRUTH_TRUE : Z := 1.
Definition TRUTH_UNKNOWN : Z := 2.

Section Compile.
Context {F : Foreign} {Q : Subqueries} {W : WireForeign F} {M : MongoForeign F}.

(** ** Aggregation expressions *)
Definition literal_bson (v : Bson) : Bson := BDocument [("$literal"%stdpp, v)].
Definition literal_int (n : Z) : Bson := literal_bson (BInt32 n).
Definition literal_long (n : Z) : Bson := literal_bson (BInt64 n).
Definition literal_bool (b : bool) : Bson := literal_bson (BBoolean b).
Definition literal_str (s : string) : Bson := literal_bson (BString s).

Definition field_path (field : string) : Bson := BString (String.append "$" field).
Definition mg_op (name : string) (arguments : list Bson) : Bson := BDocument [(name, BArray arguments)].
Definition unary_document (name : string) (argument : Bson) : Bson := BDocument [(name, argument)].
Definition mg_eq (l r : Bson) : Bson := mg_op "$eq" [l; r].
Definition mg_ne (l r : Bson) : Bson := mg_op "$ne" [l; r].
Definition mg_not (a : Bson) : Bson := mg_op "$not" [a].
Definition mg_and (arguments : list Bson) : Bson :=
  match arguments with [] => literal_bool true | [single] => single | _ => mg_op "$and" arguments end.
Definition mg_or (arguments : list Bson) : Bson :=
  match arguments with [] => literal_bool false | [single] => single | _ => mg_op "$or" arguments end.
Definition mg_cond (predicate when_true when_false : Bson) : Bson := mg_op "$cond" [predicate; when_true; when_false].

Record BsonDatum := mkBsonDatum { bd_state : Bson; bd_value : Bson; bd_ty : TypeDef; bd_always_value : bool }.

Definition truth_datum (value : Bson) : BsonDatum := mkBsonDatum (literal_int STATE_VALUE) value (scalar "dol/truth" 1 RTruth) true.

Definition ensure_truth_type (ty : TypeDef) : Result unit :=
  guard (match ty_shape ty with ShScalar RTruth => true | _ => false end) "MONGODB-COMPILE-015".
Definition require_total_truth (d : BsonDatum) : Result unit :=
  ensure_truth_type (bd_ty d) ;;? guard (bd_always_value d) "MONGODB-COMPILE-014".

(** ** Comparisons *)
Definition same_scalar_repr (l r : TypeDef) : Result ScalarRepr :=
  ensure_supported_type l ;;? ensure_supported_type r ;;?
  match ty_shape l, ty_shape r with
  | ShScalar a, ShScalar b => guard (bool_decide (a = b)) "MONGODB-COMPILE-013" ;;? Ok a
  | _, _ => error "MONGODB-COMPILE-013"
  end.

Definition not_nan (value : Bson) : Bson := mg_ne (unary_document "$toString" value) (literal_str "NaN").
Definition is_float_repr (r : ScalarRepr) : bool := match r with RFloat32 | RFloat64 => true | _ => false end.

(** A comparison that no NaN passes. *)
Definition guarded (r : ScalarRepr) (l rt comparison : Bson) : Bson :=
  if is_float_repr r then mg_and [not_nan l; not_nan rt; comparison] else comparison.

Definition value_equal (l r : BsonDatum) : Result Bson :=
  let? repr := same_scalar_repr (bd_ty l) (bd_ty r) in
  Ok (guarded repr (bd_value l) (bd_value r) (mg_eq (bd_value l) (bd_value r))).

Definition truth_order_rank (value : Bson) : Bson :=
  mg_cond (mg_eq value (literal_int TRUTH_TRUE)) (literal_int 0)
    (mg_cond (mg_eq value (literal_int TRUTH_FALSE)) (literal_int 1) (literal_int 2)).

Definition value_order (op : BinaryOp) (l r : BsonDatum) : Result Bson :=
  let? repr := same_scalar_repr (bd_ty l) (bd_ty r) in
  let? operator := match op with
                   | OpLt => Ok "$lt" | OpLe => Ok "$lte" | OpGt => Ok "$gt" | OpGe => Ok "$gte"
                   | _ => error "MONGODB-COMPILE-019"
                   end%stdpp in
  let? values := match repr with
                 | RTruth => Ok (truth_order_rank (bd_value l), truth_order_rank (bd_value r))
                 | RBool | RInt _ | RUInt _ | RFloat32 | RFloat64 | RChar | RString => Ok (bd_value l, bd_value r)
                 | _ => error "MONGODB-COMPILE-012"
                 end in
  Ok (guarded repr (bd_value l) (bd_value r) (mg_op operator [fst values; snd values])).

Definition comparison_truth (l r : BsonDatum) (comparison : Bson) : BsonDatum :=
  truth_datum (mg_cond (mg_or [mg_ne (bd_state l) (literal_int STATE_VALUE); mg_ne (bd_state r) (literal_int STATE_VALUE)])
                 (literal_int TRUTH_UNKNOWN)
                 (mg_cond comparison (literal_int TRUTH_TRUE) (literal_int TRUTH_FALSE))).

(** ** Operators *)
Definition compile_unary (op : UnaryOp) (input : BsonDatum) (output : TypeDef) : Result BsonDatum :=
  match op with
  | IsNull => Ok (truth_datum (mg_cond (mg_eq (bd_state input) (literal_int STATE_NULL)) (literal_int TRUTH_TRUE) (literal_int TRUTH_FALSE)))
  | IsMissing => Ok (truth_datum (mg_cond (mg_eq (bd_state input) (literal_int STATE_MISSING)) (literal_int TRUTH_TRUE) (literal_int TRUTH_FALSE)))
  | IsPresent => Ok (truth_datum (mg_cond (mg_eq (bd_state input) (literal_int STATE_MISSING)) (literal_int TRUTH_FALSE) (literal_int TRUTH_TRUE)))
  | NullableLift => Ok (mkBsonDatum (bd_state input) (bd_value input) output (bd_always_value input))
  | Not =>
      require_total_truth input ;;?
      Ok (truth_datum (mg_cond (mg_eq (bd_value input) (literal_int TRUTH_TRUE)) (literal_int TRUTH_FALSE)
            (mg_cond (mg_eq (bd_value input) (literal_int TRUTH_FALSE)) (literal_int TRUTH_TRUE) (literal_int TRUTH_UNKNOWN))))
  | LosslessCast | Negate | Abs => error "MONGODB-COMPILE-010"
  end.

Definition compile_binary (op : BinaryOp) (l r : BsonDatum) (output : TypeDef) : Result BsonDatum :=
  match op with
  | OpEq | OpNe =>
      let? equal := value_equal l r in
      let comparison := if bool_decide (op = OpEq) then equal else mg_not equal in
      Ok (comparison_truth l r comparison)
  | OpLt | OpLe | OpGt | OpGe =>
      let? comparison := value_order op l r in
      Ok (comparison_truth l r comparison)
  | IsDistinctFrom | IsNotDistinctFrom =>
      let same_state := mg_eq (bd_state l) (bd_state r) in
      let both_value := mg_and [mg_eq (bd_state l) (literal_int STATE_VALUE); mg_eq (bd_state r) (literal_int STATE_VALUE)] in
      let? equal := value_equal l r in
      let equal := mg_and [same_state; mg_cond both_value equal (literal_bool true)] in
      let result := if bool_decide (op = IsNotDistinctFrom) then equal else mg_not equal in
      Ok (truth_datum (mg_cond result (literal_int TRUTH_TRUE) (literal_int TRUTH_FALSE)))
  | OpAnd | OpOr =>
      require_total_truth l ;;? require_total_truth r ;;?
      let both tag := [mg_eq (bd_value l) (literal_int tag); mg_eq (bd_value r) (literal_int tag)] in
      let result absorbing neutral :=
        mg_cond (mg_or (both absorbing)) (literal_int absorbing)
          (mg_cond (mg_and (both neutral)) (literal_int neutral) (literal_int TRUTH_UNKNOWN)) in
      Ok (truth_datum (if bool_decide (op = OpAnd) then result TRUTH_FALSE TRUTH_TRUE else result TRUTH_TRUE TRUTH_FALSE))
  | Coalesce =>
      let choose_left := mg_eq (bd_state l) (literal_int STATE_VALUE) in
      Ok (mkBsonDatum (mg_cond choose_left (bd_state l) (bd_state r)) (mg_cond choose_left (bd_value l) (bd_value r))
            output (bd_always_value l || bd_always_value r))
  | OpAdd | OpSub | OpMul | OpDiv | OpRem => error "MONGODB-COMPILE-011"
  end.

Definition compile_membership (input : BsonDatum) (candidates : list BsonDatum) (negate : bool) : Result BsonDatum :=
  let? comparisons := mapR (fun c => let? equal := value_equal input c in Ok (comparison_truth input c equal)) candidates in
  match comparisons with
  | [] => Ok (truth_datum (literal_int (if negate then TRUTH_TRUE else TRUTH_FALSE)))
  | _ =>
      let saw tag := mg_or (map (fun v => mg_eq (bd_value v) (literal_int tag)) comparisons) in
      Ok (truth_datum (mg_cond (saw TRUTH_TRUE) (literal_int (if negate then TRUTH_FALSE else TRUTH_TRUE))
            (mg_cond (saw TRUTH_UNKNOWN) (literal_int TRUTH_UNKNOWN) (literal_int (if negate then TRUTH_TRUE else TRUTH_FALSE)))))
  end.

Definition compile_conditional (condition when_true when_false : BsonDatum) (output : TypeDef) : Result BsonDatum :=
  require_total_truth condition ;;?
  let predicate := mg_eq (bd_value condition) (literal_int TRUTH_TRUE) in
  Ok (mkBsonDatum (mg_cond predicate (bd_state when_true) (bd_state when_false)) (mg_cond predicate (bd_value when_true) (bd_value when_false))
        output (bd_always_value when_true && bd_always_value when_false)).

(** ** Relations *)
Record ColumnRef := mkColumnRef { cr_state_field : string; cr_value_field : string; cr_always_value : bool }.
Record ScopeLayout := mkScopeLayout { sl_model_key : string; sl_fields : list ColumnRef }.
Record Relation := mkRelation {
  rel_database : string;
  rel_collection : string;
  rel_validation_pipeline : list Document;
  rel_pipeline : list Document;
  rel_scopes : list ScopeLayout;
  rel_output_fields : list BsonOutputField;
  rel_output : PlanOutput
}.

Definition mongo_state_of (d : Datum) : Z := match d with Missing => STATE_MISSING | Null => STATE_NULL | DValue _ => STATE_VALUE end.

Definition bound_datum (ty : TypeDef) (d : Datum) : Result BsonDatum :=
  ensure_supported_type ty ;;?
  map_err (validate_datum ty Optional d) "MONGODB-PARAM-003" ;;?
  let? value := encode_datum ty d in
  Ok (mkBsonDatum (literal_int (mongo_state_of d)) (literal_bson value) ty (mongo_state_of d =? STATE_VALUE)).

(** ** Expressions *)
Section Nodes.
Context (parameters : Parameters) (e : LogicalExpr) (relation : Relation).

Definition get_value (values : list BsonDatum) (index : nat) : Result BsonDatum := ok_or (values !! index) "MONGODB-COMPILE-018".

Definition compile_field (scope slot : nat) (allow_null_extension : bool) (ty : TypeDef) : Result BsonDatum :=
  guard (negb allow_null_extension) "MONGODB-COMPILE-006" ;;?
  let? expected := ok_or (pe_scopes e !! scope) "MONGODB-COMPILE-018" in
  let? scope_layout := ok_or (rel_scopes relation !! scope) "MONGODB-COMPILE-018" in
  guard (String.eqb expected (sl_model_key scope_layout)) "MONGODB-COMPILE-007" ;;?
  let? column := ok_or (sl_fields scope_layout !! slot) "MONGODB-COMPILE-018" in
  Ok (mkBsonDatum (field_path (cr_state_field column)) (field_path (cr_value_field column)) ty (cr_always_value column)).

Definition compile_node (values : list BsonDatum) (node : PreparedNode) : Result BsonDatum :=
  match pn_kind node with
  | PField scope slot allow_null_extension => compile_field scope slot allow_null_extension (pn_ty node)
  | PLiteral d => bound_datum (pn_ty node) d
  | PParameter name =>
      let? parameter := ok_or (parameters_get parameters name) "MONGODB-PARAM-001" in
      guard (type_eqb (bp_ty parameter) (pn_ty node)) "MONGODB-PARAM-002" ;;?
      bound_datum (pn_ty node) (bp_datum parameter)
  | PUnary op input => let? input := get_value values input in compile_unary op input (pn_ty node)
  | PBinary op l r =>
      let? l := get_value values l in let? r := get_value values r in compile_binary op l r (pn_ty node)
  | PMembership input candidates negate =>
      let? input := get_value values input in
      let? candidates := mapR (get_value values) candidates in
      compile_membership input candidates negate
  | PConditional condition when_true when_false =>
      let? condition := get_value values condition in
      let? when_true := get_value values when_true in
      let? when_false := get_value values when_false in
      compile_conditional condition when_true when_false (pn_ty node)
  | PCall _ _ => error "MONGODB-COMPILE-008"
  | PExists _ _ => error "MONGODB-COMPILE-009"
  end.

Definition compile_nodes (nodes : list PreparedNode) (values : list BsonDatum) : Result (list BsonDatum) :=
  foldR (fun values node => let? d := compile_node values node in Ok (values ++ [d])) nodes values.

Definition compile_expr : Result BsonDatum :=
  guard (Nat.eqb (pe_outer_scope_count e) 0) "MONGODB-COMPILE-005" ;;?
  let? values := compile_nodes (pe_nodes e) [] in
  get_value values (pe_root e).
End Nodes.

(** ** Sources *)
Definition bson_type (value : Bson) : Bson := unary_document "$type" value.

Definition source_state (value : Bson) : Bson :=
  BDocument [("$switch"%stdpp, BDocument [
    ("branches"%stdpp, BArray [
      BDocument [("case"%stdpp, mg_eq (bson_type value) (literal_str "missing")); ("then"%stdpp, BInt32 STATE_MISSING)];
      BDocument [("case"%stdpp, mg_eq (bson_type value) (literal_str "null")); ("then"%stdpp, BInt32 STATE_NULL)]]);
    ("default"%stdpp, BInt32 STATE_VALUE)])].

Definition signed_range (bits : Z) : Result (Z * Z) :=
  guard (negb ((bits =? 0) || (64 <? bits))) "MONGODB-CODEC-003" ;;?
  Ok (- 2 ^ (bits - 1), 2 ^ (bits - 1) - 1).

Definition unsigned_max (bits : Z) : Result Z :=
  guard (negb ((bits =? 0) || (64 <? bits))) "MONGODB-CODEC-003" ;;?
  Ok (2 ^ bits - 1).

Definition decimal_literal (n : Z) : Result Bson :=
  let? d := ok_or (dec128_from_str (int_text n)) "MONGODB-CODEC-003" in Ok (literal_bson (BDecimal128 d)).

Definition is_integer_type (value : Bson) : Bson :=
  mg_or [mg_eq (bson_type value) (literal_str "int"); mg_eq (bson_type value) (literal_str "long")].

Definition uuid_pattern : string := "^[0-9a-f]{8}-[0-9a-f]{4}-[0-9a-f]{4}-[0-9a-f]{4}-[0-9a-f]{12}$".

Definition source_value_valid (ty : TypeDef) (value : Bson) : Result Bson :=
  ensure_supported_type ty ;;?
  match ty_shape ty with
  | ShScalar RBool => Ok (mg_eq (bson_type value) (literal_str "bool"))
  | ShScalar RTruth =>
      Ok (mg_cond (is_integer_type value)
            (mg_op "$in" [value; BArray [BInt32 TRUTH_FALSE; BInt32 TRUTH_TRUE; BInt32 TRUTH_UNKNOWN]])
            (literal_bool false))
  | ShScalar (RInt bits) =>
      if bits <=? 64 then
        let? range := signed_range bits in
        Ok (mg_cond (is_integer_type value)
              (mg_and [mg_op "$gte" [value; literal_long (fst range)]; mg_op "$lte" [value; literal_long (snd range)]])
              (literal_bool false))
      else error "MONGODB-CODEC-001"
  | ShScalar (RUInt bits) =>
      if bits <=? 64 then
        let? maximum := unsigned_max bits in
        let? zero := decimal_literal 0 in
        let? maximum := decimal_literal maximum in
        Ok (mg_cond (mg_eq (bson_type value) (literal_str "decimal"))
              (mg_and [mg_op "$gte" [value; zero]; mg_op "$lte" [value; maximum]])
              (literal_bool false))
      else error "MONGODB-CODEC-001"
  | ShScalar RFloat64 => Ok (mg_eq (bson_type value) (literal_str "double"))
  | ShScalar RChar =>
      Ok (mg_cond (mg_eq (bson_type value) (literal_str "string")) (mg_eq (unary_document "$strLenCP" value) (literal_int 1)) (literal_bool false))
  | ShScalar RString => Ok (mg_eq (bson_type value) (literal_str "string"))
  | ShScalar RBytes => Ok (mg_eq (bson_type value) (literal_str "binData"))
  | ShScalar RUuid =>
      Ok (mg_cond (mg_eq (bson_type value) (literal_str "string"))
            (BDocument [("$regexMatch"%stdpp, BDocument [("input"%stdpp, value); ("regex"%stdpp, BString uuid_pattern)])])
            (literal_bool false))
  | _ => error "MONGODB-CODEC-001"
  end.

Definition source_field_valid (presence : Presence) (ty : TypeDef) (state value : Bson) : Result Bson :=
  let presence_valid :=
    match presence, ty_nullability ty with
    | Required, NonNull => mg_eq state (literal_int STATE_VALUE)
    | Required, Nullable => mg_ne state (literal_int STATE_MISSING)
    | Optional, NonNull => mg_ne state (literal_int STATE_NULL)
    | Optional, Nullable => literal_bool true
    end in
  let? value_valid := source_value_valid ty value in
  Ok (mg_and [presence_valid; mg_cond (mg_eq state (literal_int STATE_VALUE)) value_valid (literal_bool true)]).

(** [format!("__dol_{prefix}{stage}_f{index}_{suffix}")] *)
Definition internal_field (prefix : string) (stage index : nat) (suffix : string) : string :=
  ("__dol_" +:+ prefix +:+ int_text (Z.of_nat stage) +:+ "_f" +:+ int_text (Z.of_nat index) +:+ "_" +:+ suffix)%stdpp.

(** One field: what is projected, whether it is valid, its column and its
    output field. *)
Record SourceField := mkSourceField { sf_projection : Document; sf_valid : Bson; sf_column : ColumnRef; sf_output : BsonOutputField }.

Definition compile_source_field (mapping : CollectionMapping) (stage : nat) (entry : nat * FieldDef) : Result SourceField :=
  let '(index, field) := entry in
  ensure_supported_type (fd_ty field) ;;?
  let? physical := ok_or (collection_field_mapping mapping (fd_key field)) "MONGODB-MAP-002" in
  let state_field := internal_field "s" stage index "state" in
  let value_field := internal_field "s" stage index "value" in
  let value := field_path physical in
  let state := source_state value in
  let? valid := source_field_valid (fd_presence field) (fd_ty field) state value in
  Ok (mkSourceField [(state_field, state); (value_field, value)] valid
        (mkColumnRef state_field value_field
           (bool_decide (fd_presence field = Required) && match ty_nullability (fd_ty field) with NonNull => true | Nullable => false end))
        (mkBsonOutputField state_field value_field (fd_ty field))).

Definition insert_all (entries : Document) (d : Document) : Document := fold_left (fun d e => doc_insert (fst e) (snd e) d) entries d.
Definition exclude_id : Document := [("_id"%stdpp, BInt32 0)].

Definition compile_source (catalog : MongodbCatalog) (model : ModelDef) (stage : nat) : Result Relation :=
  let? mapping := mongodb_collection catalog model in
  let? fields := mapR (compile_source_field mapping stage) (enumerate (md_fields model)) in
  let projection := insert_all (flat_map sf_projection fields) exclude_id in
  let valid := mg_and (map sf_valid fields) in
  Ok (mkRelation (cm_database mapping) (cm_collection mapping)
        [ [("$match"%stdpp, BDocument [("$expr"%stdpp, mg_not valid)])];
          [("$limit"%stdpp, BInt64 1)];
          [("$project"%stdpp, BDocument [("_id"%stdpp, BInt32 1)])] ]
        [ [("$project"%stdpp, BDocument projection)] ]
        [mkScopeLayout (md_key model) (map sf_column fields)]
        (map sf_output fields) (OutModel model)).

(** ** Filters, projections and slices *)
Definition with_stage (relation : Relation) (stage : Document) : Relation :=
  mkRelation (rel_database relation) (rel_collection relation) (rel_validation_pipeline relation) (rel_pipeline relation ++ [stage])
    (rel_scopes relation) (rel_output_fields relation) (rel_output relation).

Definition compile_filter (relation : Relation) (condition : LogicalExpr) (parameters : Parameters) : Result Relation :=
  ensure_truth_type (pe_ty condition) ;;?
  let? truth := compile_expr parameters condition relation in
  guard (bd_always_value truth) "MONGODB-COMPILE-003" ;;?
  Ok (with_stage relation [("$match"%stdpp, BDocument [("$expr"%stdpp,
        mg_and [mg_eq (bd_state truth) (literal_int STATE_VALUE); mg_eq (bd_value truth) (literal_int TRUTH_TRUE)])])]).

Definition compile_projected (relation : Relation) (parameters : Parameters) (stage : nat) (entry : nat * LogicalExpr)
  : Result (Document * BsonOutputField) :=
  let '(index, e) := entry in
  ensure_supported_type (pe_ty e) ;;?
  let? datum := compile_expr parameters e relation in
  let state_field := internal_field "p" stage index "state" in
  let value_field := internal_field "p" stage index "value" in
  Ok ([(state_field, bd_state datum); (value_field, bd_value datum)], mkBsonOutputField state_field value_field (pe_ty e)).

Definition compile_project (relation : Relation) (projection : LogicalProjection) (parameters : Parameters) (stage : nat) : Result Relation :=
  let? outputs := mapR (compile_projected relation parameters stage) (enumerate (lp_expressions projection)) in
  let document := insert_all (flat_map fst outputs) exclude_id in
  let output_fields := map snd outputs in
  let expected := match lp_kind projection with ProjectValue => 1%nat | ProjectTuple | ProjectRecord => length (lp_expressions projection) end in
  guard (Nat.eqb (length output_fields) expected) "MONGODB-COMPILE-004" ;;?
  Ok (mkRelation (rel_database relation) (rel_collection relation) (rel_validation_pipeline relation)
        (rel_pipeline relation ++ [ [("$project"%stdpp, BDocument document)] ])
        [] output_fields (OutValue (lp_ty projection))).

(** [i64::try_from] of a [u64]. *)
Definition slice_i64 (n : Z) : Result Z := guard (n <? 2 ^ 63) "MONGODB-COMPILE-017" ;;? Ok n.

Definition compile_slice (relation : Relation) (offset : Z) (limit : option Z) : Result Relation :=
  let? relation :=
    if offset =? 0 then Ok relation
    else let? n := slice_i64 offset in Ok (with_stage relation [("$skip"%stdpp, BInt64 n)]) in
  match limit with
  | None => Ok relation
  | Some limit => let? n := slice_i64 limit in Ok (with_stage relation [("$limit"%stdpp, BInt64 n)])
  end.

(** ** Plans *)
Definition input_relation (relations : list Relation) (id : nat) : Result Relation := ok_or (relations !! id) "MONGODB-COMPILE-016".

Definition compile_logical_node (catalog : MongodbCatalog) (parameters : Parameters) (relations : list Relation) (node : LogicalNode)
  : Result Relation :=
  let index := length relations in
  match node with
  | NSource model _ => compile_source catalog model index
  | NFilter input condition => let? relation := input_relation relations input in compile_filter relation condition parameters
  | NProject input projection => let? relation := input_relation relations input in compile_project relation projection parameters index
  | NSlice input offset limit => let? relation := input_relation relations input in compile_slice relation offset limit
  | _ => error "MONGODB-COMPILE-001"
  end.

Definition compile_relations (catalog : MongodbCatalog) (parameters : Parameters) (nodes : list LogicalNode) (relations : list Relation)
  : Result (list Relation) :=
  foldR (fun relations node => let? r := compile_logical_node catalog parameters relations node in Ok (relations ++ [r])) nodes relations.

Definition mongodb_compile (catalog : MongodbCatalog) (plan : LogicalPlan) (parameters : Parameters) : Result CompiledAggregation :=
  let? relations := compile_relations catalog parameters (plan_nodes plan) [] in
  let? relation := input_relation relations (plan_root plan) in
  guard (plan_output_eqb (rel_output relation) (plan_output plan)) "MONGODB-COMPILE-002" ;;?
  Ok (mkCompiledAggregation (rel_database relation) (rel_collection relation) (rel_validation_pipeline relation) (rel_pipeline relation)
        (rel_output_fields relation) (rel_output relation)).

(** ** Support *)
(** Whether the value of one node is always a value, if the node is
    supported. *)
Definition node_support (always_values : list bool) (node : PreparedNode) : option bool :=
  let truth_typed := match ty_shape (pn_ty node) with ShScalar RTruth => true | _ => false end in
  if negb (is_ok (ensure_supported_type (pn_ty node))) && negb truth_typed then None
  else
    match pn_kind node with
    | PField _ _ allow_null_extension => if allow_null_extension then None else Some false
    | PLiteral d => Some (match d with DValue _ => true | _ => false end)
    | PParameter _ => Some false
    | PUnary op input =>
        match op with
        | IsNull | IsMissing | IsPresent => Some true
        | NullableLift => always_values !! input
        | Not => always ← always_values !! input; if (always : bool) then Some true else None
        | _ => None
        end
    | PBinary op l r =>
        left ← always_values !! l;
        right ← always_values !! r;
        match op with
        | OpEq | OpNe | OpLt | OpLe | OpGt | OpGe | IsDistinctFrom | IsNotDistinctFrom => Some true
        | OpAnd | OpOr => if left && right then Some true else None
        | Coalesce => Some (left || right)
        | _ => None
        end
    | PMembership input candidates _ =>
        _ ← always_values !! input;
        _ ← mapM (fun c => always_values !! c) candidates;
        Some true
    | PConditional condition when_true when_false =>
        always ← always_values !! condition;
        if (always : bool) then
          t ← always_values !! when_true;
          if (t : bool) then always_values !! when_false else Some false
        else None
    | PCall _ _ | PExists _ _ => None
    end.

Fixpoint nodes_support (nodes : list PreparedNode) (always_values : list bool) : option (list bool) :=
  match nodes with
  | [] => Some always_values
  | node :: rest => always ← node_support always_values node; nodes_support rest (always_values ++ [always])
  end.

Definition expression_support (e : LogicalExpr) : option bool :=
  if negb (Nat.eqb (pe_outer_scope_count e) 0) then None
  else always_values ← nodes_support (pe_nodes e) []; always_values !! pe_root e.

Definition supports_node (catalog : MongodbCatalog) (node : LogicalNode) : bool :=
  match node with
  | NSource model _ =>
      is_ok (mongodb_collection catalog model) && forallb (fun field => is_ok (ensure_supported_type (fd_ty field))) (md_fields model)
  | NFilter _ condition =>
      match ty_shape (pe_ty condition) with ShScalar RTruth => true | _ => false end &&
      match expression_support condition with Some always => always | None => false end
  | NProject _ projection =>
      forallb (fun e => match expression_support e with Some _ => true | None => false end) (lp_expressions projection)
  | NSlice _ offset limit => is_ok (slice_i64 offset) && match limit with Some n => is_ok (slice_i64 n) | None => true end
  | _ => false
  end.
End Compile.

(** ** The runtime ([runtime.rs], [lib.rs]) *)
Record MongodbRuntimeConfig := mkMongodbRuntimeConfig { rc_uri : string; rc_application_name : option string }.
Definition runtime_config_new (uri : string) : MongodbRuntimeConfig := mkMongodbRuntimeConfig uri (Some "dol-mongodb"%stdpp).
Definition runtime_application_name (c : MongodbRuntimeConfig) (value : string) : MongodbRuntimeConfig :=
  mkMongodbRuntimeConfig (rc_uri c) (Some value).

Definition runtime_capabilities : Capabilities :=
  let write := Unsupported "MongoDB Stage I is a bounded read runtime" in
  mkCapabilities
    (mkPipelineCapabilities ExactEmulated ExactEmulated ExactEmulated
       (Unsupported "MongoDB exact aggregation lowering is not implemented")
       (Unsupported "MongoDB exact unnest lowering is not implemented")
       (Unsupported "MongoDB exact window lowering is not implemented")
       (Unsupported "MongoDB exact ordering lowering is not implemented")
       (Unsupported "MongoDB exact distinct lowering is not implemented")
       ExactNative
       (Unsupported "MongoDB exact join lowering is not implemented")
       (Unsupported "MongoDB exact set lowering is not implemented")
       (Unsupported "MongoDB exact correlated lowering is not implemented"))
    (mkWriteCapabilities write write write write)
    (mkTransactionCapabilities write write write).

(** ** Batches *)
Definition MAX_DRIVER_BATCH_ROWS : nat := 1024.

Definition materialized_row_target (options : ExecutionOptions) : Result nat :=
  let target := match max_materialized_rows (eo_limits options) with
                | Some limit => Nat.min (eo_batch_rows options) (Z.to_nat limit)
                | None => eo_batch_rows options
                end in
  guard (negb (Nat.eqb target 0)) "MONGODB-LIMIT-001" ;;? Ok target.

Definition driver_batch_rows (options : ExecutionOptions) : Result nat :=
  let? target := materialized_row_target options in Ok (Nat.max 1 (Nat.min target MAX_DRIVER_BATCH_ROWS)).

Definition enforce_single_row_byte_limit (limits : ExecutionLimits) (bytes : Z) : Result unit :=
  guard (negb (over_byte_limit limits bytes)) "MONGODB-LIMIT-002".

Section Runtime.
Context {F : Foreign} {Q : Subqueries} {W : WireForeign F} {M : MongoForeign F}.

(** What the driver does at a time: whether a client can be made, and the
    cursor of an aggregation over a collection, if it runs; a pull of the
    cursor may fail. *)
Class MongoDriver := {
  mg_client : nat -> MongodbRuntimeConfig -> bool;
  mg_aggregate : nat -> string -> string -> list Document -> option (list (option Document))
}.

Record MongodbStream := mkMongodbStream {
  mg_cursor : option (list (option Document));
  mg_compiled : CompiledAggregation;
  mg_decoder : option ModelDef;
  mg_options : ExecutionOptions;
  mg_pending : option ExecutionRow;
  mg_cancelled : bool
}.

Definition set_cursor (s : MongodbStream) (cursor : option (list (option Document))) : MongodbStream :=
  mkMongodbStream cursor (mg_compiled s) (mg_decoder s) (mg_options s) (mg_pending s) (mg_cancelled s).
Definition set_mg_pending (s : MongodbStream) (pending : option ExecutionRow) : MongodbStream :=
  mkMongodbStream (mg_cursor s) (mg_compiled s) (mg_decoder s) (mg_options s) pending (mg_cancelled s).

(** [room] rows are still missing in the batch. *)
Fixpoint pull_cursor (room : nat) (rows : list ExecutionRow) (bytes : Z) (s : MongodbStream) : Result (list ExecutionRow) * MongodbStream :=
  match room, mg_cursor s with
  | O, _ | _, None => (Ok rows, s)
  | _, Some [] => (Ok rows, set_cursor s None)
  | _, Some (None :: rest) => (error "MONGODB-EXEC-002", set_cursor s (Some rest))
  | S room', Some (Some document :: rest) =>
      let s := set_cursor s (Some rest) in
      match (let? row := row_decode (mg_decoder s) (mg_compiled s) document in
             enforce_single_row_byte_limit (eo_limits (mg_options s)) (execution_row_bytes row) ;;? Ok row) with
      | Err d => (Err d, s)
      | Ok row =>
          let total := sat_add bytes (execution_row_bytes row) in
          if match rows with [] => false | _ => true end && over_byte_limit (eo_limits (mg_options s)) total
          then (Ok rows, set_mg_pending s (Some row))
          else pull_cursor room' (rows ++ [row]) total s
      end
  end.

Definition mongodb_next_batch (s : MongodbStream) : Result (option ExecutionBatch) * MongodbStream :=
  if mg_cancelled s then (Ok None, s)
  else
    match materialized_row_target (mg_options s) with
    | Err d => (Err d, s)
    | Ok target =>
        let taken := set_mg_pending s None in
        match match mg_pending s with
              | Some row => enforce_single_row_byte_limit (eo_limits (mg_options s)) (execution_row_bytes row) ;;? Ok [row]
              | None => Ok []
              end with
        | Err d => (Err d, taken)
        | Ok rows =>
            match pull_cursor (target - length rows) rows (match rows with row :: _ => execution_row_bytes row | [] => 0 end) taken with
            | (Err d, s) => (Err d, s)
            | (Ok [], s) => (Ok None, s)
            | (Ok rows, s) => (Ok (Some (mkExecutionBatch (ca_output (mg_compiled s)) rows)), s)
            end
        end
    end.

Definition mongodb_cancel (s : MongodbStream) : MongodbStream :=
  mkMongodbStream None (mg_compiled s) (mg_decoder s) (mg_options s) None true.

#[export] Instance mongodb_data_stream : DataStream MongodbStream := {
  ds_next_batch := mongodb_next_batch;
  ds_cancel := mongodb_cancel
}.

(** ** The engine *)
Context {D : MongoDriver} (version : string).

(** [MongodbStream::open], from time [t]. *)
Definition mongodb_open (t : nat) (runtime : MongodbRuntimeConfig) (compiled : CompiledAggregation) (options : ExecutionOptions)
  : Result MongodbStream :=
  guard (mg_client t runtime) "MONGODB-EXEC-002" ;;?
  let? validation := ok_or (mg_aggregate (t + 1) (ca_database compiled) (ca_collection compiled) (ca_validation_pipeline compiled)) "MONGODB-EXEC-002" in
  match validation with
  | [] => Ok tt
  | None :: _ => error "MONGODB-EXEC-002"
  | Some _ :: _ => error "MONGODB-DECODE-006"
  end ;;?
  driver_batch_rows options ;;?
  let? cursor := ok_or (mg_aggregate (t + 2) (ca_database compiled) (ca_collection compiled) (ca_pipeline compiled)) "MONGODB-EXEC-002" in
  Ok (mkMongodbStream (Some cursor) compiled (row_decoder_new compiled) options None false).

Record MongodbEngine := mkMongodbEngine {
  mge_info : EngineInfo;
  mge_capabilities : Capabilities;
  mge_catalog : MongodbCatalog;
  mge_runtime : option MongodbRuntimeConfig
}.

Definition mongodb_new (catalog : MongodbCatalog) : MongodbEngine :=
  mkMongodbEngine (mkEngineInfo "mongodb" version) capabilities_default catalog None.
Definition mongodb_with_runtime (catalog : MongodbCatalog) (runtime : MongodbRuntimeConfig) : MongodbEngine :=
  mkMongodbEngine (mkEngineInfo "mongodb" version) runtime_capabilities catalog (Some runtime).

Definition mongodb_support_for_node (e : MongodbEngine) (node : LogicalNode) : Support :=
  let base := capability_support_for_node node (mge_capabilities e) in
  if is_supported base && negb (supports_node (mge_catalog e) node) then
    Unsupported "concrete MongoDB node uses a mapping/type/expression outside the exact compiler surface"
  else base.

#[export] Instance mongodb_engine : Engine MongodbEngine := {
  engine_info := mge_info;
  capabilities := mge_capabilities;
  support_for_node := mongodb_support_for_node
}.

Definition mongodb_execute_plan (t : nat) (e : MongodbEngine) (plan : LogicalPlan) (parameters : Parameters) (options : ExecutionOptions)
  : Result MongodbStream :=
  let? runtime := ok_or (mge_runtime e) "MONGODB-EXEC-001" in
  validate_plan plan (eo_limits options) ;;?
  let? placement := analyze_engine_placement plan e (eo_placement options) in
  guard (is_fully_engine placement) "MONGODB-PLACEMENT-001" ;;?
  let? compiled := mongodb_compile (mge_catalog e) plan parameters in
  mongodb_open t runtime compiled options.
End Runtime.
