(* ===== verification/MgSemantics.v ===== *)
(** * What MongoDB's aggregations mean

    The documented behaviour of the expressions and stages that the compiler
    emits, as the laws of an evaluator that is a parameter.  An expression
    fails, is missing or has a value; stages map the documents of the stage
    before, in their order.  An evaluator with these laws exists. *)
From Stdlib Require Import ZArith Lia DecimalString.
From stdpp Require Import list.
From S2P Require Import Prelude Floats Foreign Truth BTree Text Types Values Fingerprint Model Row Plan WireDecode WireDatums WireText PushDown MgCodec MgCompile.

Local Open Scope Z_scope.

Section Semantics.
Context {F : Foreign} {W : WireForeign F} {M : MongoForeign F}.

(** [None]: the expression fails; [Some None]: it has no value. *)
Definition MgResult := option (option Bson).
Notation value v := (Some (Some v)).
Notation boolean b := (Some (Some (BBoolean b))).

(** The operand of an order: [$eq] and the like compare by the BSON order. *)
Definition comparison_operator (name : string) : option (comparison -> bool) :=
  if String.eqb name "$eq" then Some (fun c => comparison_eqb c Eq)
  else if String.eqb name "$ne" then Some (fun c => negb (comparison_eqb c Eq))
  else if String.eqb name "$lt" then Some (fun c => comparison_eqb c Lt)
  else if String.eqb name "$lte" then Some (fun c => negb (comparison_eqb c Gt))
  else if String.eqb name "$gt" then Some (fun c => comparison_eqb c Gt)
  else if String.eqb name "$gte" then Some (fun c => negb (comparison_eqb c Lt))
  else None.

(** [$type] *)
Definition type_name (v : option Bson) : string :=
  match v with
  | None => "missing"
  | Some BNull => "null"
  | Some (BBoolean _) => "bool"
  | Some (BInt32 _) => "int"
  | Some (BInt64 _) => "long"
  | Some (BDouble _) => "double"
  | Some (BDecimal128 _) => "decimal"
  | Some (BString _) => "string"
  | Some (BBinary _ _) => "binData"
  | Some (BArray _) => "array"
  | Some (BDocument _) => "object"
  end.

(** Field names that a path reads as one top-level field. *)
Definition plain_field (f : string) : bool := negb (is_empty_str f || contains_any [0; 46] f || str_starts_with f "$").

Definition switch_document (branches : list (Bson * Bson)) (otherwise : Bson) : Bson :=
  BDocument [("$switch"%stdpp, BDocument [
    ("branches"%stdpp, BArray (map (fun b => BDocument [("case"%stdpp, fst b); ("then"%stdpp, snd b)]) branches));
    ("default"%stdpp, otherwise)])].

Definition integer_of (b : Bson) : option Z := match b with BInt32 n | BInt64 n => Some n | _ => None end.
Definition decimal_integer (d : Decimal128) : option Z := parse_u128 (dec128_to_string d).

(** What a projection computes, as opposed to the inclusion of a field. *)
Definition computed (e : Bson) : bool :=
  match e with BString s => str_starts_with s "$" | BDocument [(name, _)] => str_starts_with name "$" | _ => false end.

(** Not a list of arguments. *)
Definition single (e : Bson) : bool := match e with BArray _ => false | _ => true end.

(** ** The server *)
Class Mongo := {
  mg_eval : Document -> Bson -> MgResult;
  mg_order : Bson -> Bson -> comparison;
  mg_stage : list Document -> Document -> option (list Document)
}.

(** A pipeline runs its stages in sequence. *)
Fixpoint mg_run {G : Mongo} (documents : list Document) (pipeline : list Document) : option (list Document) :=
  match pipeline with
  | [] => Some documents
  | stage :: rest => documents ← mg_stage documents stage; mg_run documents rest
  end.

Class MongoLaws (G : Mongo) : Prop := {
  (** expressions *)
  mg_constant : forall d n, mg_eval d (BInt32 n) = value (BInt32 n);
  mg_literal : forall d v, mg_eval d (literal_bson v) = value v;
  mg_path : forall d f, plain_field f = true -> mg_eval d (field_path f) = Some (doc_get f d);
  mg_type : forall d a v, single a = true -> mg_eval d a = Some v -> mg_eval d (bson_type a) = value (BString (type_name v));
  mg_compare : forall d name holds a b x y, comparison_operator name = Some holds -> mg_eval d a = value x -> mg_eval d b = value y ->
    mg_eval d (mg_op name [a; b]) = boolean (holds (mg_order x y));
  mg_negation : forall d a b, mg_eval d a = boolean b -> mg_eval d (mg_not a) = boolean (negb b);
  mg_conjunction : forall d l bs, map (mg_eval d) l = map (fun b => boolean b) bs -> mg_eval d (mg_op "$and" l) = boolean (forallb id bs);
  mg_disjunction : forall d l bs, map (mg_eval d) l = map (fun b => boolean b) bs -> mg_eval d (mg_op "$or" l) = boolean (existsb id bs);
  mg_condition : forall d p b t f, mg_eval d p = boolean b -> mg_eval d (mg_cond p t f) = mg_eval d (if b then t else f);
  mg_switch : forall d c b r l e, mg_eval d c = boolean b ->
    mg_eval d (switch_document ((c, r) :: l) e) =
    if b then mg_eval d r else match l with [] => mg_eval d e | _ => mg_eval d (switch_document l e) end;
  mg_member : forall d a x ns, mg_eval d a = value x ->
    mg_eval d (mg_op "$in" [a; BArray (map BInt32 ns)]) = boolean (existsb (fun n => comparison_eqb (mg_order x (BInt32 n)) Eq) ns);
  mg_length : forall d a s, single a = true -> mg_eval d a = value (BString s) ->
    mg_eval d (unary_document "$strLenCP" a) = value (BInt32 (zlen (chars s)));
  mg_text_of_double : forall d a b, single a = true -> mg_eval d a = value (BDouble b) ->
    exists s, mg_eval d (unary_document "$toString" a) = value (BString s) /\ String.eqb s "NaN" = is_nan binary64 b;
  (** the order of values of one type *)
  mg_order_integers : forall a b n m, integer_of a = Some n -> integer_of b = Some m -> mg_order a b = (n ?= m);
  mg_order_booleans : forall a b, mg_order (BBoolean a) (BBoolean b) = bool_cmp a b;
  mg_order_doubles : forall a b o, float_partial_cmp binary64 a b = Some o -> mg_order (BDouble a) (BDouble b) = o;
  mg_order_strings : forall a b, mg_order (BString a) (BString b) = String.compare a b;
  mg_equal_bytes : forall a b, comparison_eqb (mg_order (BBinary true a) (BBinary true b)) Eq = bytes_eqb a b;
  mg_order_decimals : forall a b n m, decimal_integer a = Some n -> decimal_integer b = Some m -> mg_order (BDecimal128 a) (BDecimal128 b) = (n ?= m);
  (** integers have decimals *)
  mg_decimal_text : forall n, 0 <= n < 2 ^ 64 -> exists d, dec128_from_str (int_text n) = Some d /\ dec128_to_string d = int_text n;
  (** stages *)
  mg_match : forall l e p, (forall d, d ∈ l -> mg_eval d e = boolean (p d)) -> mg_stage l [("$match"%stdpp, BDocument [("$expr"%stdpp, e)])] = Some (List.filter p l);
  mg_project : forall l fields, NoDup (map fst fields) -> Forall (fun f => plain_field (fst f) = true /\ fst f <> "_id"%stdpp /\ computed (snd f) = true) fields ->
    (forall d f, d ∈ l -> f ∈ fields -> exists v, mg_eval d (snd f) = Some v) ->
    exists l', mg_stage l [("$project"%stdpp, BDocument (("_id"%stdpp, BInt32 0) :: fields))] = Some l' /\
      Forall2 (fun d d' => forall f, f ∈ fields -> mg_eval d (snd f) = Some (doc_get (fst f) d')) l l';
  mg_identities : forall l, exists l', mg_stage l [("$project"%stdpp, BDocument [("_id"%stdpp, BInt32 1)])] = Some l' /\ length l' = length l;
  mg_skip : forall l n, 0 <= n < 2 ^ 63 -> mg_stage l [("$skip"%stdpp, BInt64 n)] = Some (drop (Z.to_nat n) l);
  mg_limit : forall l n, 0 < n < 2 ^ 63 -> mg_stage l [("$limit"%stdpp, BInt64 n)] = Some (take (Z.to_nat n) l);
  (** a limit must be positive *)
  mg_no_limit : forall l, mg_stage l [("$limit"%stdpp, BInt64 0)] = None
}.
End Semantics.

(** ** An evaluator with these laws *)
Module FragmentMongo.
Existing Instance sample_foreign.
Existing Instance sample_wire_foreign.

(** Decimals are a coefficient and an exponent. *)
Definition decimal_text (d : Z * Z) : string :=
  if snd d =? 0 then int_text (fst d) else cat [int_text (fst d); "E"; int_text (snd d)].
#[export] Instance fragment_foreign : MongoForeign sample_foreign := {|
  Decimal128 := Z * Z;
  dec128_from_str := fun s => (fun n => (n, 0)) <$> parse_i128 s;
  dec128_to_string := decimal_text;
  rust_decimal_to_string := fun d => int_text (Sample.d_num d)
|}.

Definition compare_decimals (a b : Z * Z) : comparison :=
  let low := Z.min (snd a) (snd b) in fst a * 10 ^ (snd a - low) ?= fst b * 10 ^ (snd b - low).

Definition rank (b : Bson) : Z :=
  match b with
  | BNull => 0 | BInt32 _ | BInt64 _ => 1 | BDouble _ => 2 | BDecimal128 _ => 3 | BString _ => 4
  | BDocument _ => 5 | BArray _ => 6 | BBinary _ _ => 7 | BBoolean _ => 8
  end.
Definition order (a b : Bson) : comparison :=
  match a, b with
  | (BInt32 n | BInt64 n), (BInt32 m | BInt64 m) => n ?= m
  | BDouble x, BDouble y => default Eq (float_partial_cmp binary64 x y)
  | BDecimal128 x, BDecimal128 y => compare_decimals x y
  | BString s, BString t => String.compare s t
  | BBinary g l, BBinary h k => match bool_cmp g h with Eq => list_cmp Z.compare l k | c => c end
  | BBoolean x, BBoolean y => bool_cmp x y
  | _, _ => rank a ?= rank b
  end.

Definition as_bool (r : MgResult) : option bool := match r with Some (Some (BBoolean b)) => Some b | _ => None end.
Definition of_bool (o : option bool) : MgResult := (fun b => Some (BBoolean b)) <$> o.

Definition apply_unary (name : string) (r : MgResult) : MgResult :=
  if String.eqb name "$type" then (fun v => Some (BString (type_name v))) <$> r
  else if String.eqb name "$strLenCP" then
    match r with Some (Some (BString s)) => Some (Some (BInt32 (zlen (chars s)))) | _ => None end
  else if String.eqb name "$toString" then
    match r with Some (Some (BDouble b)) => Some (Some (BString (if is_nan binary64 b then "NaN" else "0"))) | _ => None end
  else None.

Definition apply_operator (name : string) (l : list MgResult) : MgResult :=
  if String.eqb name "$and" then of_bool (forallb id <$> mapM as_bool l)
  else if String.eqb name "$or" then of_bool (existsb id <$> mapM as_bool l)
  else match l with
       | [a] => if String.eqb name "$not" then of_bool (negb <$> as_bool a) else None
       | [a; b] =>
           match comparison_operator name, a, b with
           | Some holds, Some (Some x), Some (Some y) => Some (Some (BBoolean (holds (order x y))))
           | _, _, _ => None
           end
       | [p; t; f] => if String.eqb name "$cond" then b ← as_bool p; if (b : bool) then t else f else None
       | _ => None
       end.

Definition member (r : MgResult) (l : list Bson) : MgResult :=
  match r with Some (Some x) => Some (Some (BBoolean (existsb (fun y => comparison_eqb (order x y) Eq) l))) | _ => None end.

Definition path_of (s : string) : option string := match s with String c f => if Ascii.eqb c (ascii_nat 36) then Some f else None | EmptyString => None end.

Fixpoint eval (d : Document) (e : Bson) : MgResult :=
  match e with
  | BString s => match path_of s with Some f => Some (doc_get f d) | None => Some (Some e) end
  | BDocument [(name, argument)] =>
      if String.eqb name "$literal" then Some (Some argument)
      else match argument with
           | BArray [a; BArray l] =>
               if String.eqb name "$in" then member (eval d a) l else apply_operator name [eval d a; Some (Some (BArray l))]
           | BArray l => apply_operator name (map (eval d) l)
           | BDocument [(_, BArray branches); (_, otherwise)] =>
               if String.eqb name "$switch" then
                 (fix go l := match l with
                              | [] => eval d otherwise
                              | BDocument [(_, c); (_, r)] :: rest => b ← as_bool (eval d c); if (b : bool) then eval d r else go rest
                              | _ => None
                              end) branches
               else apply_unary name (eval d argument)
           | _ => apply_unary name (eval d argument)
           end
  | BDocument _ => None
  | _ => Some (Some e)
  end.

Definition project_field (d : Document) (field : string * Bson) : option Document :=
  if String.eqb (fst field) "_id" then
    match snd field with
    | BInt32 1 => Some (match doc_get "_id" d with Some v => [("_id"%stdpp, v)] | None => [] end)
    | _ => Some []
    end
  else v ← eval d (snd field); Some (match v with Some v => [(fst field, v)] | None => [] end).

Definition filter_result (e : Bson) (d : Document) : option (list Document) := b ← as_bool (eval d e); Some (if (b : bool) then [d] else []).

Definition stage (l : list Document) (s : Document) : option (list Document) :=
  match s with
  | [(name, argument)] =>
      if String.eqb name "$match" then match argument with BDocument [(_, e)] => (fun r => concat r) <$> mapM (filter_result e) l | _ => None end
      else if String.eqb name "$project" then
        match argument with BDocument fields => mapM (fun d => (fun r => concat r) <$> mapM (project_field d) fields) l | _ => None end
      else if String.eqb name "$skip" then match argument with BInt64 n => Some (drop (Z.to_nat n) l) | _ => None end
      else if String.eqb name "$limit" then match argument with BInt64 n => if 0 <? n then Some (take (Z.to_nat n) l) else None | _ => None end
      else None
  | _ => None
  end.

#[export] Instance fragment_mongo : Mongo := {| mg_eval := eval; mg_order := order; mg_stage := stage |}.
(** *** Decimals *)
Definition no_digit (c : Ascii.ascii) : Prop := forall o, NilEmpty.uint_of_string (String c o) = None.
Lemma digits_only a c t : no_digit c -> NilZero.uint_of_string (String.append a (String c t)) = None.
Proof.
  intros H. assert (G : forall b, NilEmpty.uint_of_string (String.append b (String c t)) = None).
  { induction b as [|x b IH]; [apply H|].
    change (uint_of_char x (NilEmpty.uint_of_string (String.append b (String c t))) = None). by rewrite IH. }
  destruct a as [|x a]; [exact (H t)|]. exact (G (String x a)).
Qed.

Lemma exponent_char : no_digit (ascii_nat 69).
Proof. intros o. cbn. by destruct (NilEmpty.uint_of_string o). Qed.
Lemma minus_no_digit : no_digit minus_char.
Proof. intros o. cbn. by destruct (NilEmpty.uint_of_string o). Qed.

Lemma parse_checked s n : parse_u128 s = Some n -> exists c s', s = String c s' /\ (if Ascii.eqb c plus_char then parse_digits s' else parse_digits s) = Some n.
Proof.
  unfold parse_u128, parse_unsigned, checked_in. destruct s as [|c s]; [done|]. intros H. exists c, s. split; [done|].
  destruct (if Ascii.eqb c plus_char then _ else _) as [m|]; [|done]. cbn in H. by case_match.
Qed.

Lemma int_text_start n : exists c s, int_text n = String c s /\ Ascii.eqb c plus_char = false.
Proof.
  destruct n as [|p|p]; [by eexists _, _| |by eexists _, _].
  destruct (unsigned_text_start (Pos.to_uint p)) as (c & s & E & Hc). exists c, s. split; [exact E|]. by apply orb_false_iff in Hc as [_ Hc].
Qed.

Lemma whole_decimal d n : decimal_integer (M:=fragment_foreign) d = Some n -> d = (n, 0).
Proof.
  destruct d as [m e]. unfold decimal_integer. cbn [dec128_to_string fragment_foreign]. unfold decimal_text. cbn [fst snd].
  destruct (int_text_start m) as (c & s & E & Hc). destruct (Z.eqb_spec e 0) as [->|He].
  - intros (c' & s' & E' & H)%parse_checked. rewrite E in E'. injection E' as <- <-. rewrite Hc in H. f_equal.
    destruct m as [|p|p]; [by injection H as <-| |].
    + unfold int_text in H. cbn [Z.to_int NilZero.string_of_int] in H. rewrite parse_digits_positive in H. by injection H as <-.
    + unfold parse_digits in H. change (int_text (Z.neg p)) with (String.append EmptyString (String minus_char (NilZero.string_of_uint (Pos.to_uint p)))) in H.
      by rewrite (digits_only _ _ _ minus_no_digit) in H.
  - intros (c' & s' & E' & H)%parse_checked. exfalso. unfold cat in *. cbn [fold_right] in *.
    change (String.append "E" _) with (String (ascii_nat 69) (String.append (int_text e) EmptyString)) in *.
    assert (Ec : c' = c) by (rewrite E in E'; by injection E'). subst c'. rewrite Hc in H. unfold parse_digits in H.
    by rewrite (digits_only _ _ _ exponent_char) in H.
Qed.

(** *** Operators *)
Lemma eval_operator d name l : String.eqb name "$literal" = false -> String.eqb name "$in" = false ->
  eval d (mg_op name l) = apply_operator name (map (eval d) l).
Proof.
  intros H1 H2. unfold mg_op. cbn [eval]. rewrite H1. destruct l as [|a [|b [|c l]]]; try done; [|by destruct b].
  destruct b; try done. by rewrite H2.
Qed.

Lemma booleans bs : mapM as_bool (map (fun b => Some (Some (BBoolean b))) bs) = Some bs.
Proof. induction bs as [|b bs IH]; [done|]. cbn [map mapM as_bool mbind option_bind]. by rewrite IH. Qed.

Lemma operator_not_literal name holds : comparison_operator name = Some holds -> 
  String.eqb name "$literal" = false /\ String.eqb name "$in" = false /\ String.eqb name "$and" = false /\ String.eqb name "$or" = false.
Proof.
  unfold comparison_operator. do 6 (match goal with |- context [String.eqb name ?s] => destruct (String.eqb_spec name s) as [->|_]; [done|] end). done.
Qed.

Lemma eval_unary d name a v : single a = true -> eval d a = Some v -> String.eqb name "$literal" = false -> String.eqb name "$switch" = false ->
  eval d (unary_document name a) = apply_unary name (Some v).
Proof.
  intros Hs Ha H1 H2. unfold unary_document. cbn [eval]. rewrite H1.
  destruct a as [| | | | | | | | |[|[n b] [|[m c] [|]]]]; try discriminate Hs; rewrite <- Ha; try done; cbn [eval] in Ha; discriminate Ha || idtac.
  all: by destruct b; rewrite ?H2.
Qed.

(** *** Stages *)
Lemma filtered e p l : (forall d, d ∈ l -> eval d e = Some (Some (BBoolean (p d)))) ->
  (fun r => concat r) <$> mapM (filter_result e) l = Some (List.filter p l).
Proof.
  induction l as [|d l IH]; intros H; [done|]. specialize (IH (fun x Hx => H x (list_elem_of_further _ _ _ Hx))).
  assert (E : filter_result e d = Some (if p d then [d] else [])) by (unfold filter_result; by rewrite (H d) by left).
  cbn [mapM mbind option_bind]. rewrite E. destruct (mapM (filter_result e) l) as [r|]; [|done]. injection IH as IH.
  cbn. by destruct (p d); cbn; rewrite IH.
Qed.

Lemma doc_get_app k a b : doc_get k (a ++ b) = match doc_get k a with Some v => Some v | None => doc_get (M:=fragment_foreign) k b end.
Proof. induction a as [|[n v] a IH]; [done|]. cbn. by destruct (String.eqb n k). Qed.

Lemma projected d fields : NoDup (map fst fields) -> (forall f, f ∈ fields -> fst f <> "_id"%stdpp) ->
  (forall f, f ∈ fields -> exists v, eval d (snd f) = Some v) ->
  exists parts, mapM (project_field d) fields = Some parts /\
    (forall k, k ∉ map fst fields -> doc_get k (concat parts) = None) /\
    forall f, f ∈ fields -> eval d (snd f) = Some (doc_get (fst f) (concat parts)).
Proof.
  induction fields as [|f fields IH]; intros N Hi He; [exists []; split_and!; [done|done|by intros f ?%not_elem_of_nil]|].
  cbn [map] in N. apply NoDup_cons in N as [Hf N].
  destruct (IH N (fun g Hg => Hi g (list_elem_of_further _ _ _ Hg)) (fun g Hg => He g (list_elem_of_further _ _ _ Hg))) as (parts & Hp & Hn & Hg).
  destruct (He f (list_elem_of_here _ _)) as [v Hv]. pose proof (Hi f (list_elem_of_here _ _)) as Hid.
  assert (E : project_field d f = Some (match v with Some v => [(fst f, v)] | None => [] end)).
  { unfold project_field. apply String.eqb_neq in Hid. rewrite Hid, Hv. done. }
  exists ((match v with Some v => [(fst f, v)] | None => [] end) :: parts). split_and!.
  - cbn [mapM mbind option_bind]. by rewrite E, Hp.
  - intros k [Hk Hk']%not_elem_of_cons. cbn [concat]. rewrite doc_get_app, (Hn k Hk').
    destruct v; [|done]. cbn. destruct (String.eqb_spec (fst f) k); [congruence|done].
  - intros g [->|Hin]%elem_of_cons; cbn [concat]; rewrite doc_get_app.
    + rewrite Hv. destruct v; cbn; [by rewrite String.eqb_refl|]. by rewrite Hn.
    + rewrite (Hg g Hin). f_equal. destruct v; [|done]. cbn. destruct (String.eqb_spec (fst f) (fst g)) as [Ef|]; [|done].
      destruct Hf. rewrite Ef. apply list_elem_of_In, in_map, list_elem_of_In. done.
Qed.

Lemma fragment_mongo_laws : MongoLaws fragment_mongo.
Proof.
  split; try done; cbn [mg_eval mg_order mg_stage fragment_mongo].
  - intros d a v Hs Ha. unfold bson_type. by rewrite (eval_unary d _ a v).
  - intros d name holds a b x y Hh Ha Hb. destruct (operator_not_literal _ _ Hh) as (H1 & H2 & H3 & H4).
    rewrite eval_operator by done. cbn [map]. rewrite Ha, Hb. unfold apply_operator. by rewrite H3, H4, Hh.
  - intros d a b Ha. unfold mg_not. rewrite eval_operator by done. cbn [map]. by rewrite Ha.
  - intros d l bs H. rewrite eval_operator by done. rewrite H. unfold apply_operator. cbn [String.eqb]. 
    change (of_bool (forallb id <$> mapM as_bool (map (fun b => Some (Some (BBoolean b))) bs)) = Some (Some (BBoolean (forallb id bs)))). by rewrite booleans.
  - intros d l bs H. rewrite eval_operator by done. rewrite H.
    change (of_bool (existsb id <$> mapM as_bool (map (fun b => Some (Some (BBoolean b))) bs)) = Some (Some (BBoolean (existsb id bs)))). by rewrite booleans.
  - intros d p b t f H. unfold mg_cond. rewrite eval_operator by done. cbn [map]. rewrite H. by destruct b.
  - intros d c b r l e H. unfold switch_document. cbn [eval String.eqb map fst snd]. rewrite H. cbn. destruct b; [done|]. by destruct l as [|[c' r'] l].
  - intros d a x ns H. unfold mg_op. cbn [eval]. rewrite H. cbn. f_equal. f_equal. f_equal. induction ns as [|n ns IH]; [done|]. cbn. by rewrite IH.
  - intros d a s Hs Ha. by rewrite (eval_unary d _ a _ Hs Ha).
  - intros d a b Hs Ha. rewrite (eval_unary d _ a _ Hs Ha) by done. eexists. split; [reflexivity|]. by destruct (is_nan binary64 b).
  - intros a b n m Ha Hb. destruct a; try discriminate Ha; destruct b; try discriminate Hb; injection Ha as ->; by injection Hb as ->.
  - intros a b o H. cbn. by rewrite H.
  - intros a b. apply bytes_compare_eqb.
  - intros a b n m ->%whole_decimal ->%whole_decimal. cbn. unfold compare_decimals. cbn. by rewrite !Z.mul_1_r.
  - intros n Hn. exists (n, 0). split; [|reflexivity]. cbn. rewrite parse_i128_text; [done|]. unfold in_i128, i128_min, i128_max. lia.
  - intros l e p H. apply filtered, H.
  - intros l fields N Hf He. rewrite Forall_forall in Hf. cbn [stage].
    set (project := fun d => (fun r => concat r) <$> mapM (project_field d) (("_id"%stdpp, BInt32 0) :: fields)).
    change (exists l', mapM project l = Some l' /\ Forall2 (fun d d' => forall f, f ∈ fields -> eval d (snd f) = Some (doc_get (fst f) d')) l l'). induction l as [|d l IH]; [exists []; by split|].
    destruct (projected d fields N (fun f Hin => proj1 (proj2 (Hf f Hin))) (fun f Hin => He d f (list_elem_of_here _ _) Hin)) as (parts & Hp & _ & Hg).
    destruct IH as (l' & El & Hl); [intros d' f Hd; apply He; by right|]. exists (concat ([] :: parts) :: l'). split.
    + assert (Ed : project d = Some (concat ([] :: parts))).
      { unfold project. cbn [mapM mbind option_bind]. cbn [mapM mbind option_bind] in Hp. rewrite Hp. done. }
      cbn [mapM mbind option_bind]. by rewrite Ed, El.
    + by constructor.
  - intros l. set (project := fun d => (fun r => concat r) <$> mapM (project_field d) [("_id"%stdpp, BInt32 1)]).
    change (exists l', mapM project l = Some l' /\ length l' = length l).
    induction l as [|d l (l' & E & El)]; [by exists []|]. eexists (_ :: l'). cbn [mapM mbind option_bind]. rewrite E. cbn. split; [done|]. by rewrite El.
  - intros l n Hn. cbn. by rewrite (proj2 (Z.ltb_lt 0 n)) by lia.
Qed.
End FragmentMongo.
