(* ===== verification/MgSound.v ===== *)
(** * Compiled aggregation expressions mean what they say

    Over any MongoDB with the laws of [MgSemantics], the state and the value
    of a compiled expression are those of the datum that the normative
    evaluator computes. *)
From Stdlib Require Import ZArith Lia.
From stdpp Require Import list.
From S2P Require Import Prelude Floats Foreign Truth BTree Text Types Values Fingerprint Model Expr Semantic ExprNormalize ExprValidate Row ExprPrepare Plan WireDecode WireDatums WireText PushDown MgCodec MgCompile MgSemantics.

Local Open Scope Z_scope.

(** ** How values are stored *)
Section Stored.
Context {F : Foreign} {FL : ForeignLaws F} {W : WireForeign F} {WL : WireForeignLaws W} {M : MongoForeign F}.

(** Values within their Rust types. *)
Definition rust_scalar (v : Value) : bool := match v with VChar c => in_range 0 1114112 c | VUuid u => uuid_ok u | _ => true end.

Definition stored_as (b : Bson) (v : Value) : Prop :=
  match v with
  | VBool x => b = BBoolean x
  | VTruth t => integer_of b = Some (mongo_truth_tag t)
  | VInt n => integer_of b = Some n
  | VUInt n => exists d, b = BDecimal128 d /\ decimal_integer d = Some n
  | VFloat64 x => b = BDouble x
  | VChar c => b = BString (char_text c)
  | VString s => b = BString s
  | VBytes l => b = BBinary true l
  | VUuid u => b = BString (uuid_hyphenated (uuid_bytes u))
  | _ => False
  end.

Lemma supported_ok ty u : ensure_supported_type ty = Ok u -> exists r, ty_shape ty = ShScalar r.
Proof. unfold ensure_supported_type. destruct (ty_shape ty); [eauto|done..]. Qed.

Lemma chars_of_scalar c : in_range 0 1114112 c = true -> chars (char_text c) = [c].
Proof. intros H%in_range_spec. destruct (Z.eqb_spec c 0) as [->|]; [reflexivity|]. apply chars_of_char. lia. Qed.

Lemma truth_tag_decodes t : mongo_decode_truth (mongo_truth_tag t) = Ok t.
Proof. by destruct t. Qed.

(** What is stored decodes, under any supported type of the value. *)
Lemma stored_decodes ty b v : ensure_supported_type ty = Ok tt -> typed_value ty v -> rust_scalar v = true -> stored_as b v -> decode_value ty b = Ok v.
Proof using WL.
  intros Hs T Hr H. unfold decode_value. rewrite Hs. cbn [rbind]. destruct (supported_ok ty tt Hs) as [r Er]. specialize (T r Er).
  unfold ensure_supported_type in Hs. rewrite Er in *. destruct r; try discriminate Hs; destruct v; try discriminate T; cbn [stored_as rust_scalar] in *; try (by rewrite H).
  - destruct b; try discriminate H; injection H as ->; cbn [guard rbind]; [by rewrite truth_tag_decodes|].
    rewrite (proj2 (guard_ok _ _ tt)) by (by destruct t). cbn [rbind]. by rewrite truth_tag_decodes.
  - destruct (bits <=? 64); [|done]. destruct b; try discriminate H; by injection H as ->.
  - destruct (bits <=? 64); [|done]. destruct H as (d & -> & Hd). unfold decimal_integer in Hd. by rewrite Hd.
  - rewrite H. by rewrite chars_of_scalar.
  - rewrite H. rewrite uuid_parses by done. done.
Qed.

Section Encoded.
Context {G : Mongo} {L : MongoLaws G}.

Lemma unsigned_fits_range bits n : unsigned_fits bits n = true -> bits <= 64 -> 0 <= n < 2 ^ 64.
Proof. unfold unsigned_fits. intros H Hb. repeat (case_match; [lia|]). lia. Qed.

(** What the compiler and the codec write for a value. *)
Lemma encoded_stored ty v b : ensure_supported_type ty = Ok tt -> typed_value ty v -> encode_value ty v = Ok b -> stored_as b v.
Proof using L.
  intros Hs T. destruct (supported_ok ty tt Hs) as [r Er]. specialize (T r Er). unfold encode_value, ensure_supported_type in *. rewrite Er in *.
  destruct r; try discriminate Hs; destruct v; try discriminate T; cbn [stored_as scalar_matches] in *; try (by intros [= <-]).
  - destruct (bits <=? 64); [|done]. by intros [_ [= <-]]%check_then.
  - destruct (Z.leb_spec bits 64); [|done]. intros (d & Hd%ok_or_ok & ->)%rmap_ok. exists d. split; [done|].
    pose proof (unsigned_fits_range _ _ T ltac:(done)) as Hn. destruct (mg_decimal_text _ Hn) as (d' & Hd' & Ht). rewrite Hd in Hd'. injection Hd' as <-.
    unfold decimal_integer. rewrite Ht. apply parse_u128_text. unfold in_u128, u128_max. lia.
Qed.

(** ** The BSON order is the order of values *)
Lemma hyphenated_eqb u w : uuid_ok u = true -> uuid_ok w = true ->
  String.eqb (uuid_hyphenated (uuid_bytes u)) (uuid_hyphenated (uuid_bytes w)) = uuid_eqb u w.
Proof using FL WL.
  intros Hu Hw. apply Bool.eq_iff_eq_true. rewrite String.eqb_eq. split.
  - intros E. pose proof (uuid_parses u Hu) as Pu. rewrite E, uuid_parses in Pu by done. injection Pu as ->. apply uuid_eq.
  - intros E%uuid_bytes_eq. by rewrite E.
Qed.

Lemma stored_equal b c v w r : stored_as b v -> stored_as c w -> scalar_matches r v = true -> scalar_matches r w = true ->
  rust_scalar v = true -> rust_scalar w = true -> is_nan_value v = false -> is_nan_value w = false ->
  comparison_eqb (mg_order b c) Eq = value_eqb v w.
Proof using FL WL L.
  intros Hb Hc Mv Mw Rv Rw Nv Nw.
  destruct r, v; try discriminate Mv; destruct w; try discriminate Mw; cbn [stored_as rust_scalar value_eqb is_nan_value] in *; try done.
  - subst. rewrite mg_order_booleans. by destruct b0, b1.
  - rewrite (mg_order_integers _ _ _ _ Hb Hc), compare_eqb. by destruct t, t0.
  - rewrite (mg_order_integers _ _ _ _ Hb Hc). apply compare_eqb.
  - destruct Hb as (d & -> & Hd), Hc as (e & -> & He). rewrite (mg_order_decimals _ _ _ _ Hd He). apply compare_eqb.
  - subst. unfold float_eqb. destruct (float_partial_cmp binary64 bits bits0) as [o|] eqn:E.
    + rewrite (mg_order_doubles _ _ _ E). by destruct o.
    + unfold float_partial_cmp in E. by rewrite Nv, Nw in E.
  - subst. apply in_range_spec in Rv, Rw. rewrite mg_order_strings, char_text_compare by done. apply compare_eqb.
  - subst. rewrite mg_order_strings. apply string_compare_eqb.
  - subst. apply mg_equal_bytes.
  - subst. rewrite mg_order_strings, string_compare_eqb. by apply hyphenated_eqb.
Qed.

(** The representations whose values are ordered by their own values. *)
Definition ordered_repr (r : ScalarRepr) : bool := match r with RBool | RInt _ | RUInt _ | RFloat32 | RFloat64 | RChar | RString => true | _ => false end.

Lemma stored_order b c v w r o : stored_as b v -> stored_as c w -> scalar_matches r v = true -> scalar_matches r w = true ->
  rust_scalar v = true -> rust_scalar w = true -> ordered_repr r = true -> value_partial_cmp v w = Some o -> mg_order b c = o.
Proof using L.
  intros Hb Hc Mv Mw Rv Rw Hr H.
  destruct r, v; try discriminate Mv; try discriminate Hr; destruct w; try discriminate Mw; cbn [stored_as rust_scalar value_partial_cmp] in *; try done.
  - subst. injection H as <-. apply mg_order_booleans.
  - injection H as <-. by apply mg_order_integers.
  - destruct Hb as (d & -> & Hd), Hc as (e & -> & He). injection H as <-. by apply mg_order_decimals.
  - subst. by apply mg_order_doubles.
  - subst. injection H as <-. apply in_range_spec in Rv, Rw. by rewrite mg_order_strings, char_text_compare.
  - subst. injection H as <-. apply mg_order_strings.
Qed.
End Encoded.
End Stored.

Section Sound.
Context {F : Foreign} {FL : ForeignLaws F} {Q : Subqueries} {W : WireForeign F} {WL : WireForeignLaws W} {M : MongoForeign F} {G : Mongo} {L : MongoLaws G}.
Context (document : Document).

Notation eval := (mg_eval document).
Notation boolean b := (Some (Some (BBoolean b))).
Notation tag n := (Some (Some (BInt32 n))).

(** ** What a pair of expressions stands for *)
(** Both expressions can always be evaluated. *)
Definition denotes (bd : BsonDatum) (d : Datum) : Prop :=
  eval (bd_state bd) = tag (mongo_state_of d) /\
  (computed (bd_state bd) && computed (bd_value bd)) = true /\ (exists v, eval (bd_value bd) = Some v) /\
  (bd_always_value bd = true -> is_value d = true) /\
  forall v, d = DValue v -> typed_value (bd_ty bd) v /\ rust_scalar v = true /\ exists b, eval (bd_value bd) = Some (Some b) /\ stored_as b v.

Lemma denotes_truth value t : computed value = true -> eval value = tag (mongo_truth_tag t) -> denotes (truth_datum value) (DValue (VTruth t)).
Proof using L.
  intros Hs H. split_and!; [apply mg_literal|done|by eexists|done|]. intros v [= <-]. split_and!; [by intros r [= <-]|done|]. eexists. split; [exact H|done].
Qed.

Lemma computed_single s v : (computed s && computed v) = true -> single v = true.
Proof. intros [_ H]%andb_true_iff. by destruct v. Qed.

Lemma computed_path f : computed (field_path f) = true.
Proof. change (String.prefix EmptyString f = true). by destruct f. Qed.

(** The tags of truth values may be wide integers. *)
Definition truth_valued (value : Bson) (t : Truth) : Prop := exists b, eval value = Some (Some b) /\ integer_of b = Some (mongo_truth_tag t).

Lemma truth_denoted bd t : denotes bd (DValue (VTruth t)) -> truth_valued (bd_value bd) t.
Proof. intros (_ & _ & _ & _ & H). by destruct (H _ eq_refl) as (_ & _ & b & ? & ?); exists b. Qed.

(** ** The templates *)
Lemma eval_eq a b x y : eval a = Some (Some x) -> eval b = Some (Some y) -> eval (mg_eq a b) = boolean (comparison_eqb (mg_order x y) Eq).
Proof using L. apply (mg_compare document "$eq" (fun c => comparison_eqb c Eq)). reflexivity. Qed.

Lemma eval_ne a b x y : eval a = Some (Some x) -> eval b = Some (Some y) -> eval (mg_ne a b) = boolean (negb (comparison_eqb (mg_order x y) Eq)).
Proof using L. apply (mg_compare document "$ne" (fun c => negb (comparison_eqb c Eq))). reflexivity. Qed.

Lemma eval_int n : eval (literal_int n) = tag n.
Proof using L. apply mg_literal. Qed.

Lemma eval_state_is a n m : eval a = tag n -> eval (mg_eq a (literal_int m)) = boolean (n =? m).
Proof using L. intros H. rewrite (eval_eq _ _ _ _ H (eval_int _)), (mg_order_integers _ _ n m) by done. by rewrite compare_eqb. Qed.

Lemma eval_state_is_not a n m : eval a = tag n -> eval (mg_ne a (literal_int m)) = boolean (negb (n =? m)).
Proof using L. intros H. rewrite (eval_ne _ _ _ _ H (eval_int _)), (mg_order_integers _ _ n m) by done. by rewrite compare_eqb. Qed.

Lemma eval_truth_is a t u : truth_valued a t -> eval (mg_eq a (literal_int (mongo_truth_tag u))) = boolean (bool_decide (t = u)).
Proof using L.
  intros (b & H & Hb). rewrite (eval_eq _ _ _ _ H (eval_int _)), (mg_order_integers _ _ _ (mongo_truth_tag u) Hb) by done. by destruct t, u.
Qed.

Lemma eval_and l bs : map eval l = map (fun b => boolean b) bs -> eval (mg_and l) = boolean (forallb id bs).
Proof using L.
  intros H. destruct l as [|a [|b l]]; [destruct bs; [apply mg_literal|done]| |by apply mg_conjunction].
  destruct bs as [|x [|]]; try discriminate H. injection H as H. cbn. by rewrite H, andb_true_r.
Qed.

Lemma eval_or l bs : map eval l = map (fun b => boolean b) bs -> eval (mg_or l) = boolean (existsb id bs).
Proof using L.
  intros H. destruct l as [|a [|b l]]; [destruct bs; [apply mg_literal|done]| |by apply mg_disjunction].
  destruct bs as [|x [|]]; try discriminate H. injection H as H. cbn. by rewrite H, orb_false_r.
Qed.

Lemma eval_and2 a b x y : eval a = boolean x -> eval b = boolean y -> eval (mg_and [a; b]) = boolean (x && y).
Proof using L. intros Ha Hb. rewrite (eval_and _ [x; y]); cbn; [by rewrite andb_true_r|by rewrite Ha, Hb]. Qed.

Lemma eval_or2 a b x y : eval a = boolean x -> eval b = boolean y -> eval (mg_or [a; b]) = boolean (x || y).
Proof using L. intros Ha Hb. rewrite (eval_or _ [x; y]); cbn; [by rewrite orb_false_r|by rewrite Ha, Hb]. Qed.

Lemma eval_cond p b t f : eval p = boolean b -> eval (mg_cond p t f) = if b then eval t else eval f.
Proof using L. intros H. rewrite (mg_condition _ _ _ _ _ H). by destruct b. Qed.

(** ** Comparisons of values *)
Lemma same_repr_ok l r k : same_scalar_repr l r = Ok k ->
  ty_shape l = ShScalar k /\ ty_shape r = ShScalar k /\ ensure_supported_type l = Ok tt /\ ensure_supported_type r = Ok tt.
Proof.
  intros [Hl [Hr H]%check_then]%check_then. destruct (ty_shape l) as [a| | | |]; try done. destruct (ty_shape r) as [b| | | |]; try done.
  apply check_then in H as [->%guard_ok%bool_decide_eq_true [= <-]]. done.
Qed.

Lemma eval_not_nan a b : single a = true -> eval a = Some (Some (BDouble b)) -> eval (not_nan a) = boolean (negb (is_nan binary64 b)).
Proof using L.
  intros Hs H. destruct (mg_text_of_double _ _ _ Hs H) as (s & Ht & Hn). unfold not_nan.
  rewrite (eval_ne _ _ _ _ Ht (mg_literal _ _ : eval (literal_str _) = _)), mg_order_strings, string_compare_eqb. by rewrite Hn.
Qed.

Lemma eval_guarded k l r b c v w cmp z res : single l = true -> single r = true -> eval l = Some (Some b) -> eval r = Some (Some c) ->
  stored_as b v -> stored_as c w -> scalar_matches k v = true -> scalar_matches k w = true -> eval cmp = boolean z ->
  (is_nan_value v || is_nan_value w = true -> res = false) -> (is_nan_value v || is_nan_value w = false -> res = z) ->
  eval (guarded k l r cmp) = boolean res.
Proof using L.
  intros Sl Sr Hl Hr Hb Hc Mv Mw Hz Hn Hy. unfold guarded. destruct (is_float_repr k) eqn:K.
  - destruct k, v; try discriminate K; try discriminate Mv; destruct w; try discriminate Mw; try done. cbn [stored_as is_nan_value] in *. subst b c.
    rewrite (eval_and _ [negb (is_nan binary64 bits); negb (is_nan binary64 bits0); z]).
    + destruct (is_nan binary64 bits), (is_nan binary64 bits0); cbn in *; rewrite ?Hn by done; rewrite ?Hy by done; by rewrite ?andb_true_r.
    + cbn [map]. by rewrite (eval_not_nan _ _ Sl Hl), (eval_not_nan _ _ Sr Hr), Hz.
  - rewrite Hz, Hy; [done|]. destruct k, v; try discriminate K; try discriminate Mv; by destruct w.
Qed.

Lemma equal_values_eval l r dl dr s v w : denotes l dl -> denotes r dr -> value_equal l r = Ok s -> dl = DValue v -> dr = DValue w ->
  eval s = boolean (value_eqb v w).
Proof using FL WL L.
  intros (_ & Sl & _ & _ & Rl) (_ & Sr & _ & _ & Rr) (k & (Kl & Kr & _ & _)%same_repr_ok & [= <-])%rbind_ok Ev Ew.
  apply computed_single in Sl, Sr. destruct (Rl v Ev) as (Tl & Vl & b & Hb & Sb), (Rr w Ew) as (Tr & Vr & c & Hc & Sc).
  eapply (eval_guarded k _ _ b c v w); [done..|by apply Tl|by apply Tr|by apply eval_eq| |].
  - intros N. exact (compared_nan OpEq k v w (Tl k Kl) (Tr k Kr) N).
  - intros [Nv Nw]%orb_false_iff. symmetry. eapply stored_equal; [done|done|by apply Tl|by apply Tr|done..].
Qed.

Definition mongo_operator (op : BinaryOp) : string := match op with OpLt => "$lt" | OpLe => "$lte" | OpGt => "$gt" | _ => "$gte" end.

Lemma operator_holds op : is_ordering op = true -> comparison_operator (mongo_operator op) = Some (order_holds op).
Proof. by destruct op. Qed.

(** True is before false, and false before unknown. *)
Definition truth_rank (t : Truth) : Z := match t with TTrue => 0 | TFalse => 1 | TUnknown => 2 end.

Lemma eval_rank a t : truth_valued a t -> eval (truth_order_rank a) = tag (truth_rank t).
Proof using L.
  intros H. unfold truth_order_rank. rewrite (eval_cond _ _ _ _ (eval_truth_is _ _ TTrue H)), (eval_cond _ _ _ _ (eval_truth_is _ _ TFalse H)), !eval_int.
  by destruct t.
Qed.

Lemma truth_rank_compare t u : (truth_rank t ?= truth_rank u) = Truth.cmp t u.
Proof. by destruct t, u. Qed.

Lemma order_values_eval op l r dl dr s v w : denotes l dl -> denotes r dr -> value_order op l r = Ok s -> dl = DValue v -> dr = DValue w ->
  is_ordering op = true -> eval s = boolean (compare_result op v w).
Proof using FL WL L.
  intros (_ & Sl & _ & _ & Rl) (_ & Sr & _ & _ & Rr) (k & (Kl & Kr & _ & _)%same_repr_ok & (o & Ho & (vs & Hvs & [= <-])%rbind_ok)%rbind_ok)%rbind_ok Ev Ew Hop.
  apply computed_single in Sl, Sr. destruct (Rl v Ev) as (Tl & Vl & b & Hb & Sb), (Rr w Ew) as (Tr & Vr & c & Hc & Sc). specialize (Tl k Kl). specialize (Tr k Kr).
  assert (o = mongo_operator op) as -> by (destruct op; try discriminate Hop; by injection Ho as <-).
  pose proof (operator_holds op Hop) as Hh.
  destruct (bool_decide (k = RTruth)) eqn:K.
  - apply bool_decide_eq_true in K as ->. injection Hvs as <-. destruct v; try discriminate Tl. destruct w; try discriminate Tr. unfold guarded. cbn [is_float_repr fst snd].
    rewrite (mg_compare _ _ _ _ _ _ _ Hh (eval_rank _ t ltac:(by exists b)) (eval_rank _ t0 ltac:(by exists c))).
    rewrite (mg_order_integers (BInt32 (truth_rank t)) (BInt32 (truth_rank t0)) _ _ eq_refl eq_refl), truth_rank_compare. unfold compare_result. by rewrite Hop.
  - assert (Hord : ordered_repr k = true /\ vs = (bd_value l, bd_value r)) by (destruct k; try discriminate Hvs; try discriminate K; by injection Hvs as <-).
    destruct Hord as [Hk ->]. cbn [fst snd].
    eapply (eval_guarded k _ _ b c v w); [done..|exact (mg_compare _ _ _ _ _ _ _ Hh Hb Hc)| |].
    + exact (compared_nan op k v w Tl Tr).
    + intros [Nv Nw]%orb_false_iff. unfold compare_result. rewrite Hop.
      destruct (value_partial_cmp v w) as [p|] eqn:Ep; [by rewrite (stored_order b c v w k p)|].
      exfalso. destruct k, v; try discriminate Tl; try discriminate Hk; destruct w; try discriminate Tr; try discriminate Ep; cbn [value_partial_cmp is_nan_value] in *;
        unfold float_partial_cmp in Ep; by rewrite Nv, Nw in Ep.
Qed.
(** ** Comparisons of pairs *)
Lemma state_guard_eval bd d : denotes bd d -> eval (mg_ne (bd_state bd) (literal_int STATE_VALUE)) = boolean (negb (is_value d)).
Proof using L. intros (H & _). rewrite (eval_state_is_not _ _ _ H). by destruct d. Qed.

Lemma denotes_comparison l r dl dr cmp b : denotes l dl -> denotes r dr ->
  (forall v w, dl = DValue v -> dr = DValue w -> eval cmp = boolean (b v w)) ->
  denotes (comparison_truth l r cmp) (compare_with b dl dr).
Proof using L.
  intros Rl Rr H. unfold comparison_truth, compare_with. apply denotes_truth; [done|].
  rewrite (eval_cond _ _ _ _ (eval_or2 _ _ _ _ (state_guard_eval l dl Rl) (state_guard_eval r dr Rr))).
  destruct dl as [| |v], dr as [| |w]; cbn [is_value negb orb]; try apply eval_int.
  rewrite (eval_cond _ (b v w)), !eval_int by by apply H. by destruct (b v w).
Qed.

(** ** Unary operators *)
Lemma truth_denotation_typed bd d : denotes bd d -> require_total_truth bd = Ok tt -> exists t, d = DValue (VTruth t).
Proof.
  intros (_ & _ & _ & Hv & H) [Ht%guard_ok Ha%guard_ok]%check_then. specialize (Hv Ha). destruct d as [| |v]; try discriminate Hv.
  destruct (H v eq_refl) as (T & _). unfold typed_value in T. destruct (ty_shape (bd_ty bd)) as [[]| | | |]; try discriminate Ht.
  specialize (T _ eq_refl). destruct v; try discriminate T. eauto.
Qed.

Lemma denotes_tag_test bd d m (a b : Truth) : denotes bd d ->
  denotes (truth_datum (mg_cond (mg_eq (bd_state bd) (literal_int m)) (literal_int (mongo_truth_tag a)) (literal_int (mongo_truth_tag b))))
    (DValue (VTruth (if mongo_state_of d =? m then a else b))).
Proof using L.
  intros (H & _). apply denotes_truth; [done|]. rewrite (eval_cond _ _ _ _ (eval_state_is _ _ m H)), !eval_int. by destruct (_ =? _).
Qed.

(** A pair under another type of the same values. *)
Lemma retyped bd d output : denotes bd d -> checked_as output d -> denotes (mkBsonDatum (bd_state bd) (bd_value bd) output (bd_always_value bd)) d.
Proof.
  intros (Rs & Rg & Rt & Ra & Rv) C. split_and!; [done..|]. intros v Ev. destruct (Rv v Ev) as (_ & ? & ?).
  split_and!; [by apply (checked_typed _ _ _ C)|done..].
Qed.

Lemma unary_denotes op input output bd di d : denotes input di -> compile_unary op input output = Ok bd -> eval_unary op di output = Ok d ->
  checked_as output d -> denotes bd d.
Proof using L.
  intros R H E C. destruct op; cbn [compile_unary] in H; try discriminate H; cbn [eval_unary] in E.
  - apply check_then in H as [Ht [= <-]]. destruct (truth_denotation_typed _ _ R Ht) as [t ->]. injection E as <-. apply denotes_truth; [done|].
    pose proof (truth_denoted _ _ R) as T.
    rewrite (eval_cond _ _ _ _ (eval_truth_is _ _ TTrue T)), (eval_cond _ _ _ _ (eval_truth_is _ _ TFalse T)), !eval_int. by destruct t.
  - injection H as <-. injection E as <-. pose proof (denotes_tag_test input di STATE_NULL TTrue TFalse R) as T. by destruct di.
  - injection H as <-. injection E as <-. pose proof (denotes_tag_test input di STATE_MISSING TTrue TFalse R) as T. by destruct di.
  - injection H as <-. injection E as <-. pose proof (denotes_tag_test input di STATE_MISSING TFalse TTrue R) as T. by destruct di.
  - injection H as <-. injection E as <-. by apply retyped.
Qed.

(** ** Binary operators *)
Lemma distinct_denotes (negate : bool) l r dl dr s d : denotes l dl -> denotes r dr -> value_equal l r = Ok s ->
  distinct_equality dl dr negate = Ok d ->
  let equal :=
    mg_and [mg_eq (bd_state l) (bd_state r);
            mg_cond (mg_and [mg_eq (bd_state l) (literal_int STATE_VALUE); mg_eq (bd_state r) (literal_int STATE_VALUE)]) s (literal_bool true)] in
  denotes (truth_datum (mg_cond (if negate then mg_not equal else equal) (literal_int TRUTH_TRUE) (literal_int TRUTH_FALSE))) d.
Proof using FL WL L.
  intros Rl Rr Hs [= <-]. cbv zeta. apply denotes_truth; [done|].
  set (same := match dl, dr with Missing, Missing | Null, Null => true | DValue v, DValue w => value_eqb v w | _, _ => false end).
  set (equal := mg_and [_; _]).
  assert (He : eval equal = boolean same).
  { unfold equal. pose proof Rl as (Sl & _). pose proof Rr as (Sr & _).
    rewrite (eval_and2 _ _ (mongo_state_of dl =? mongo_state_of dr) (match dl, dr with DValue v, DValue w => value_eqb v w | _, _ => true end)).
    - unfold same. by destruct dl, dr.
    - rewrite (eval_eq _ _ _ _ Sl Sr), (mg_order_integers (BInt32 (mongo_state_of dl)) (BInt32 (mongo_state_of dr)) _ _ eq_refl eq_refl). by rewrite compare_eqb.
    - rewrite (eval_cond _ _ _ _ (eval_and2 _ _ _ _ (eval_state_is _ _ STATE_VALUE Sl) (eval_state_is _ _ STATE_VALUE Sr))).
      destruct dl as [| |v], dr as [| |w]; cbn; try apply mg_literal. by apply (equal_values_eval l r (DValue v) (DValue w)). }
  rewrite (eval_cond _ (if negate then negb same else same)).
  - rewrite !eval_int. unfold same, truth. by destruct negate, dl, dr; cbn; try done; destruct (value_eqb _ _).
  - destruct negate; [|done]. apply mg_negation. exact He.
Qed.

Lemma kleene_denotes l r t u absorbing neutral : denotes l (DValue (VTruth t)) -> denotes r (DValue (VTruth u)) ->
  absorbing <> TUnknown -> neutral <> TUnknown -> absorbing <> neutral ->
  let both m := [mg_eq (bd_value l) (literal_int (mongo_truth_tag m)); mg_eq (bd_value r) (literal_int (mongo_truth_tag m))] in
  denotes (truth_datum (mg_cond (mg_or (both absorbing)) (literal_int (mongo_truth_tag absorbing))
                            (mg_cond (mg_and (both neutral)) (literal_int (mongo_truth_tag neutral)) (literal_int TRUTH_UNKNOWN))))
    (DValue (VTruth (if bool_decide (t = absorbing) || bool_decide (u = absorbing) then absorbing
                     else if bool_decide (t = neutral) && bool_decide (u = neutral) then neutral else TUnknown))).
Proof using L.
  intros Rl%truth_denoted Rr%truth_denoted Ha Hn Han. cbv zeta. apply denotes_truth; [done|].
  rewrite (eval_cond _ _ _ _ (eval_or2 _ _ _ _ (eval_truth_is _ _ absorbing Rl) (eval_truth_is _ _ absorbing Rr))).
  rewrite (eval_cond _ _ _ _ (eval_and2 _ _ _ _ (eval_truth_is _ _ neutral Rl) (eval_truth_is _ _ neutral Rr))), !eval_int.
  by destruct t, u, absorbing, neutral.
Qed.

Lemma coalesce_denotes l r dl dr output : denotes l dl -> (is_absent dl = true -> denotes r dr) -> checked_as output (coalesce dl dr) ->
  let choose_left := mg_eq (bd_state l) (literal_int STATE_VALUE) in
  denotes (mkBsonDatum (mg_cond choose_left (bd_state l) (bd_state r)) (mg_cond choose_left (bd_value l) (bd_value r)) output
                (bd_always_value l || bd_always_value r)) (coalesce dl dr).
Proof using L.
  intros (Sl & Gl & El & Al & Vl) Hr C. cbv zeta. unfold denotes. cbn [bd_state bd_value bd_ty bd_always_value].
  rewrite !(eval_cond _ _ _ _ (eval_state_is _ _ STATE_VALUE Sl)).
  assert (T : forall v, coalesce dl dr = DValue v -> typed_value output v) by (intros v; by apply checked_typed).
  destruct dl as [| |v]; cbn [mongo_state_of coalesce is_absent] in *.
  1, 2: destruct (Hr eq_refl) as (Sr & Gr & Er & Ar & Vr); cbn; split_and!; [done|done|done| |];
    [intros [H|H]%orb_true_iff; [by discriminate (Al H)|by apply Ar]|intros w Ew; destruct (Vr w Ew) as (_ & ? & ?); split_and!; [by apply T|done..]].
  cbn. split_and!; [done..|]. intros w Ew. destruct (Vl w Ew) as (_ & ? & ?). split_and!; [by apply T|done..].
Qed.

Lemma binary_denotes op l r bd dl dr d output : denotes l dl -> denotes r dr -> compile_binary op l r output = Ok bd ->
  eval_binary op dl dr = Ok d -> checked_as output d -> denotes bd d.
Proof using FL WL L.
  intros Rl Rr H E C. destruct op; cbn [compile_binary eval_binary] in H, E; try discriminate H.
  3-6: (apply rbind_ok in H as (s & Hs & [= <-]); rewrite compare_order_with in E by done; injection E as <-; apply denotes_comparison; [done..|];
    intros v w Ev Ew; by apply (order_values_eval _ l r dl dr)).
  - apply rbind_ok in H as (s & Hs & [= <-]). rewrite compare_equality_with in E. injection E as <-. apply denotes_comparison; [done..|].
    intros v w. by apply (equal_values_eval l r).
  - apply rbind_ok in H as (s & Hs & [= <-]). rewrite compare_equality_with in E. injection E as <-. apply denotes_comparison; [done..|].
    intros v w Ev Ew. apply mg_negation. by apply (equal_values_eval l r dl dr).
  - apply check_then in H as [Hl H]. apply check_then in H as [Hr [= <-]].
    destruct (truth_denotation_typed _ _ Rl Hl) as [t ->], (truth_denotation_typed _ _ Rr Hr) as [u ->]. injection E as <-.
    pose proof (kleene_denotes l r t u TFalse TTrue Rl Rr ltac:(done) ltac:(done) ltac:(done)) as K. by destruct t, u.
  - apply check_then in H as [Hl H]. apply check_then in H as [Hr [= <-]].
    destruct (truth_denotation_typed _ _ Rl Hl) as [t ->], (truth_denotation_typed _ _ Rr Hr) as [u ->]. injection E as <-.
    pose proof (kleene_denotes l r t u TTrue TFalse Rl Rr ltac:(done) ltac:(done) ltac:(done)) as K. by destruct t, u.
  - apply rbind_ok in H as (s & Hs & [= <-]). by apply (distinct_denotes true l r dl dr s).
  - apply rbind_ok in H as (s & Hs & [= <-]). by apply (distinct_denotes false l r dl dr s).
  - injection H as <-. injection E as <-. by apply coalesce_denotes.
Qed.
(** ** Membership and conditionals *)
Lemma membership_truths input candidates cs di ds : denotes input di -> Forall2 denotes candidates ds ->
  mapR (fun c => let? equal := value_equal input c in Ok (comparison_truth input c equal)) candidates = Ok cs ->
  Forall2 (fun c t => truth_valued (bd_value c) t) cs (map (eq_truth di) ds).
Proof using FL WL L.
  intros Ri Rs H%mapR_ok. revert cs H. induction Rs as [|c d candidates ds Rc _ IH]; intros cs H; [apply Forall2_nil_inv_l in H as ->; constructor|].
  apply Forall2_cons_inv_l in H as (y & cs' & (s & Hs & [= <-])%rbind_ok & H & ->). cbn [map]. constructor; [|by apply IH].
  apply truth_denoted. pose proof (denotes_comparison input c di d s value_eqb Ri Rc (fun v w => equal_values_eval input c di d s v w Ri Rc Hs)) as K.
  by destruct di, d.
Qed.

Lemma saw_eval cs ts m : Forall2 (fun c t => truth_valued (bd_value c) t) cs ts ->
  eval (mg_or (map (fun c => mg_eq (bd_value c) (literal_int (mongo_truth_tag m))) cs)) = boolean (existsb (fun t => bool_decide (t = m)) ts).
Proof using L.
  intros H. rewrite (eval_or _ (map (fun t => bool_decide (t = m)) ts)).
  - f_equal. f_equal. f_equal. clear H. induction ts as [|t ts IH]; [done|]. cbn. by rewrite IH.
  - induction H as [|c t cs ts Hc _ IH]; [done|]. cbn [map]. by rewrite IH, (eval_truth_is _ _ _ Hc).
Qed.

Lemma membership_denotes input candidates negate bd di ds d : denotes input di -> Forall2 denotes candidates ds ->
  compile_membership input candidates negate = Ok bd -> eval_membership di ds negate = Ok d -> denotes bd d.
Proof using FL WL L.
  intros Ri Rs (cs & Hcs & H)%rbind_ok. rewrite eval_membership_eq. intros [= <-].
  pose proof (membership_truths _ _ _ _ _ Ri Rs Hcs) as Hc.
  pose proof (saw_eval cs _ TTrue Hc) as HT. pose proof (saw_eval cs _ TUnknown Hc) as HU. rewrite any_truth_cases.
  destruct cs as [|c cs]; injection H as <-; (apply denotes_truth; [done|]).
  - apply Forall2_nil_inv_l in Hc as ->. rewrite eval_int. by destruct negate.
  - rewrite (eval_cond _ _ _ _ HT), (eval_cond _ _ _ _ HU), !eval_int. by repeat case_match; destruct negate.
Qed.

Lemma conditional_denotes condition t f output bd x d : denotes condition (DValue (VTruth x)) ->
  compile_conditional condition t f output = Ok bd -> denotes (match x with TTrue => t | _ => f end) d -> checked_as output d -> denotes bd d.
Proof using L.
  intros Hc%truth_denoted [_ [= <-]]%check_then (S & Gl & E & A & V) C. unfold denotes. cbn [bd_state bd_value bd_ty bd_always_value].
  rewrite !(eval_cond _ _ _ _ (eval_truth_is _ _ TTrue Hc)).
  assert (T : forall v, d = DValue v -> typed_value output v) by (intros v; by apply checked_typed).
  destruct x; cbn; (split_and!; [done|done|done|intros [? ?]%andb_true_iff; by apply A|intros v Ev; destruct (V v Ev) as (_ & ? & ?); split_and!; [by apply T|done..]]).
Qed.

(** ** Literals, parameters and fields *)
Definition rust_datum (d : Datum) : bool := match d with DValue v => rust_scalar v | _ => true end.

Lemma bound_denotes ty d bd : bound_datum ty d = Ok bd -> rust_datum d = true -> denotes bd d.
Proof using L.
  intros [Hs [Hv%map_err_ok (b & Hb & [= <-])%rbind_ok]%check_then]%check_then Hr. unfold denotes. cbn [bd_state bd_value bd_ty bd_always_value].
  pose proof (validated_as _ _ Hv) as C. split_and!; [apply mg_literal|done|eexists; apply mg_literal|by destruct d|].
  intros v ->. pose proof (checked_typed _ _ _ C eq_refl) as T. split_and!; [done|done|]. exists b. split; [apply mg_literal|].
  unfold encode_datum in Hb. apply check_then in Hb as [_ Hb]. apply check_then in Hb as [_ Hb]. by eapply encoded_stored.
Qed.

(** What a document holds for a column. *)
Definition column_holds (column : ColumnRef) (d : Datum) : Prop :=
  plain_field (cr_state_field column) = true /\ plain_field (cr_value_field column) = true /\
  doc_get (cr_state_field column) document = Some (BInt32 (mongo_state_of d)) /\
  (cr_always_value column = true -> is_value d = true) /\
  forall v, d = DValue v -> rust_scalar v = true /\ exists b, doc_get (cr_value_field column) document = Some b /\ stored_as b v.

(** The document of a row: the columns of every field hold the datum that the
    evaluation context has. *)
Definition row_matches (relation : Relation) (context : EvalContext) : Prop :=
  forall scope slot layout column d, rel_scopes relation !! scope = Some layout -> sl_fields layout !! slot = Some column ->
    read_field context scope slot = Ok d -> column_holds column d.

Lemma field_denotes e relation context scope slot allow ty bd d : row_matches relation context ->
  compile_field e relation scope slot allow ty = Ok bd -> read_field context scope slot = Ok d -> checked_as ty d -> denotes bd d.
Proof using L.
  intros Hm H Hr C. unfold compile_field in H. apply check_then in H as [_ H]. apply rbind_ok in H as (k & _ & H).
  apply rbind_ok in H as (layout & Hl%ok_or_ok & H). apply check_then in H as [_ H]. apply rbind_ok in H as (column & Hc%ok_or_ok & [= <-]).
  destruct (Hm scope slot layout column d Hl Hc Hr) as (Ps & Pv & Hs & Ha & Hv). unfold denotes. cbn [bd_state bd_value bd_ty bd_always_value].
  rewrite !mg_path by done. split_and!; [by rewrite Hs|by rewrite !computed_path|by eexists|done|].
  intros v Ev. destruct (Hv v Ev) as (? & b & Hb & ?). split_and!; [by apply (checked_typed _ _ _ C)|done|]. exists b. by rewrite Hb.
Qed.
(** ** Nodes *)
(** Literals and parameters are values of their Rust types. *)
Definition rust_operand (parameters : Parameters) (n : PreparedNode) : bool :=
  match pn_kind n with
  | PLiteral d => rust_datum d
  | PParameter name => match parameters_get parameters name with Some p => rust_datum (bp_datum p) | None => true end
  | _ => true
  end.
Definition rust_expr (parameters : Parameters) (e : LogicalExpr) : bool := forallb (rust_operand parameters) (pe_nodes e).

Section Nodes.
Context (parameters : Parameters) (e : LogicalExpr) (relation : Relation) (context : EvalContext) (resolve : nat -> Result Truth).
Hypothesis same_parameter_values : ec_parameters context = parameters.
Hypothesis row_ok : row_matches relation context.
Hypothesis rust_operands : rust_expr parameters e = true.

Notation ev := (evaluate_node resolve (pe_nodes e) context).

Lemma denoted_list values ids cs ds fuel :
  (forall i s d, values !! i = Some s -> ev fuel i = Ok d -> denotes s d) ->
  mapR (get_value values) ids = Ok cs -> mapR (ev fuel) ids = Ok ds -> Forall2 denotes cs ds.
Proof.
  intros IH Hc%mapR_ok Hd%mapR_ok. revert ds Hd. induction Hc as [|i c ids cs Hi%ok_or_ok _ IHc]; intros ds Hd.
  - apply Forall2_nil_inv_l in Hd as ->. constructor.
  - apply Forall2_cons_inv_l in Hd as (d & ds' & Hd & Hds & ->). constructor; [by eapply IH|by apply IHc].
Qed.

Lemma node_denotes values node bd fuel d : node ∈ pe_nodes e ->
  compile_node parameters e relation values node = Ok bd ->
  (forall i s d, values !! i = Some s -> ev fuel i = Ok d -> denotes s d) ->
  (let? value := evaluate_kind resolve context (ev fuel) (pn_kind node) (pn_ty node) in checked_kind context (pn_kind node) (pn_ty node) value) = Ok d ->
  denotes bd d.
Proof using All.
  destruct node as [kind ty]. intros Hin H IH (v & Hv & Hk)%rbind_ok. cbn [pn_kind pn_ty] in *. apply checked_kind_as in Hk as [-> C].
  assert (Hrust : rust_operand parameters (mkPreparedNode kind ty) = true).
  { unfold rust_expr in rust_operands. rewrite forallb_forall in rust_operands. by apply rust_operands, list_elem_of_In. }
  unfold compile_node in H. cbn [pn_kind pn_ty] in H. destruct kind; cbn [evaluate_kind rust_operand pn_kind] in Hv, Hrust.
  - by eapply field_denotes.
  - injection Hv as <-. by eapply bound_denotes.
  - apply rbind_ok in H as (p & Hp%ok_or_ok & H). apply check_then in H as [_ H]. unfold read_parameter in Hv. rewrite same_parameter_values, Hp in Hv.
    apply check_then in Hv as [_ [= <-]]. unfold rust_operand in Hrust. cbn [pn_kind] in Hrust. rewrite Hp in Hrust. by eapply bound_denotes.
  - apply rbind_ok in H as (i & Hi%ok_or_ok & H). apply rbind_ok in Hv as (a & Ha & Hv).
    eapply unary_denotes; [by eapply IH|done..].
  - apply rbind_ok in H as (x & Hx%ok_or_ok & H). apply rbind_ok in H as (y & Hy%ok_or_ok & H).
    apply rbind_ok in Hv as (a & Ha & Hv). destruct (bool_decide (op = Coalesce) && negb (is_absent a)) eqn:E.
    + apply andb_true_iff in E as [->%bool_decide_eq_true Hn]. injection Hv as <-. injection H as <-.
      assert (Ea : coalesce a Missing = a) by (by destruct a). rewrite <- Ea. apply coalesce_denotes; [by eapply IH| |by rewrite Ea].
      intros Hab. by rewrite Hab in Hn.
    + apply rbind_ok in Hv as (b & Hb' & Hv). by apply (binary_denotes op x y bd a b v ty); [eapply IH|eapply IH|..].
  - apply rbind_ok in H as (x & Hx%ok_or_ok & H). apply rbind_ok in H as (cs & Hcs & H).
    apply rbind_ok in Hv as (a & Ha & Hv). apply rbind_ok in Hv as (ds & Hds & Hv).
    eapply membership_denotes; [by eapply IH|by eapply denoted_list|done..].
  - apply rbind_ok in H as (x & Hx%ok_or_ok & H). apply rbind_ok in H as (y & Hy%ok_or_ok & H).
    apply rbind_ok in H as (z & Hz%ok_or_ok & H). apply rbind_ok in Hv as (a & Ha & Hv).
    destruct a as [| |[]]; cbn in Hv; try discriminate Hv.
    eapply (conditional_denotes x y z ty bd t); [by eapply IH|done| |done]. destruct t; by eapply IH.
  - done.
  - done.
Qed.

(** ** Expressions *)
Definition values_denote (values : list BsonDatum) : Prop :=
  forall i s fuel d, values !! i = Some s -> ev fuel i = Ok d -> denotes s d.

Lemma nodes_denote rest : forall pre values values', pe_nodes e = pre ++ rest -> length values = length pre -> values_denote values ->
  compile_nodes parameters e relation rest values = Ok values' -> values_denote values'.
Proof using All.
  induction rest as [|n rest IH]; intros pre values values' He Hlen Hv; [by intros [= <-]|].
  unfold compile_nodes. cbn [foldR]. intros (t & (bd & Hn & [= <-])%rbind_ok & H)%rbind_ok.
  apply (IH (pre ++ [n]) (values ++ [bd])); [by rewrite He, <- app_assoc|by rewrite !length_app, Hlen| |exact H].
  intros i s fuel d Hi Hd. apply lookup_app_Some in Hi as [Hi|[Hle Hi]]; [by eapply Hv|].
  apply list_lookup_singleton_Some in Hi as [Hi <-]. assert (i = length pre) as -> by lia. destruct fuel as [|fuel]; [done|].
  assert (En : pe_nodes e !! length pre = Some n) by (rewrite He; by apply list_lookup_middle). cbn [evaluate_node] in Hd. rewrite En in Hd.
  cbn [ok_or rbind] in Hd. apply (node_denotes values n bd fuel d); [|done|intros j u x; by apply Hv|exact Hd].
  by apply (list_elem_of_lookup_2 _ (length pre)).
Qed.

Lemma expr_denotes bd d : compile_expr parameters e relation = Ok bd -> evaluate_datum_with_exists resolve e context = Ok d -> denotes bd d.
Proof using All.
  intros [_ (values & Hn & Hs%ok_or_ok)%rbind_ok]%check_then [_ Hd]%check_then.
  pose proof (nodes_denote (pe_nodes e) [] [] _ eq_refl eq_refl ltac:(by intros i s1 f d1 H1) Hn) as K. by eapply K.
Qed.
End Nodes.
End Sound.
