(* ===== verification/MgRefines.v ===== *)
(** * Compiled aggregations return the rows of the memory executor

    Whatever the executor returns for a plan of sources, filters, projections
    and slices, the compiled pipeline returns, over documents that store the
    tables' rows in their order, and the stream decodes, the same rows in the
    same order. *)
From Stdlib Require Import ZArith Lia.
From stdpp Require Import list.
From S2P Require Import Prelude Foreign Truth BTree Text Types Values Fingerprint Model Row Expr ExprValidate ExprPrepare Plan Placement Executor ExecutorSpec Stream MemoryEngine Pipeline PipelineGraph PipelineCompile PipelineTyping PipelineSound WireDecode WireDatums WireText PushDown MgCodec MgCompile MgSemantics MgSound.

Local Open Scope Z_scope.

(** ** Names of internal fields *)
Lemma append_injective p a b : String.append p a = String.append p b -> a = b.
Proof.
  induction p as [|c p IH]; [done|]. intros E. apply IH. change (String c (String.append p a) = String c (String.append p b)) in E. by injection E.
Qed.

Lemma internal_field_injective prefix stage i j x y : internal_field prefix stage i x = internal_field prefix stage j y -> i = j /\ x = y.
Proof.
  unfold internal_field. intros E. do 4 apply append_injective in E.
  change (String.append (int_text (Z.of_nat i)) (String Text.underscore x) = String.append (int_text (Z.of_nat j)) (String Text.underscore y)) in E.
  apply underscore_split in E as [E ->]; [|apply int_text_no_underscore..]. apply int_text_injective in E. split; [lia|done].
Qed.

Lemma contains_any_append l a b : contains_any l (String.append a b) = contains_any l a || contains_any l b.
Proof.
  unfold contains_any. induction a as [|c a IH]; [done|].
  change (bytes_of (String.append (String c a) b)) with (byte_of c :: bytes_of (String.append a b)). cbn [existsb bytes_of]. by rewrite IH, orb_assoc.
Qed.

Lemma int_text_plain n : contains_any [0; 46] (int_text n) = false.
Proof.
  assert (D : forall u, contains_any [0; 46] (DecimalString.NilEmpty.string_of_uint u) = false) by (induction u; done).
  unfold int_text. destruct (Z.to_int n) as [d|d]; cbn; destruct d; try done; apply D.
Qed.

Lemma internal_field_plain prefix stage i suffix : contains_any [0; 46] prefix = false -> contains_any [0; 46] suffix = false ->
  plain_field (internal_field prefix stage i suffix) = true /\ internal_field prefix stage i suffix <> "_id"%stdpp.
Proof.
  intros Hp Hs. unfold internal_field. split; [|done]. unfold plain_field. rewrite !contains_any_append, Hp, Hs, !int_text_plain. done.
Qed.

(** ** Documents *)
Section Documents.
Context {F : Foreign} {M : MongoForeign F}.

Lemma doc_insert_new k v d : k ∉ map fst d -> doc_insert k v d = d ++ [(k, v)].
Proof.
  induction d as [|[n w] d IH]; [done|]. cbn [map fst doc_insert]. intros [Hn Hd]%not_elem_of_cons.
  destruct (String.eqb_spec n k); [congruence|]. by rewrite IH.
Qed.

Lemma insert_all_new entries : forall d, NoDup (map fst (d ++ entries)) -> insert_all entries d = d ++ entries.
Proof.
  induction entries as [|[k v] entries IH]; intros d H; cbn [insert_all fold_left]; [by rewrite app_nil_r|].
  unfold insert_all in IH. rewrite IH; cbn [fst snd].
  - rewrite doc_insert_new, <- app_assoc; [done|]. rewrite map_app in H. apply NoDup_app in H as (_ & H & _). intros Hk. by apply (H k Hk); left.
  - rewrite doc_insert_new, <- app_assoc; [done|]. rewrite map_app in H. apply NoDup_app in H as (_ & H & _). intros Hk. by apply (H k Hk); left.
Qed.
End Documents.

(** ** Numbered fields *)
Fixpoint number {A} (n : nat) (l : list A) : list (nat * A) := match l with [] => [] | x :: l => (n, x) :: number (S n) l end.

Lemma enumerate_number {A} (l : list A) : enumerate l = number 0 l.
Proof.
  unfold enumerate. assert (K : forall n, imap (fun i x => ((n + i)%nat, x)) l = number n l).
  { induction l as [|x l IH]; intros n; [done|]. rewrite imap_cons. cbn [number]. f_equal; [f_equal; lia|]. rewrite <- IH. apply imap_ext. intros i y _. cbn. f_equal. lia. }
  exact (K 0%nat).
Qed.

Lemma number_lookup {A} (l : list A) n i : number n l !! i = (fun x => ((n + i)%nat, x)) <$> l !! i.
Proof.
  revert n i. induction l as [|x l IH]; intros n [|i]; cbn; [done|done|f_equal; f_equal; lia|]. change (number (S n) l !! i = (fun x => ((n + S i)%nat, x)) <$> l !! i).
  rewrite IH. by replace (S n + i)%nat with (n + S i)%nat by lia.
Qed.

Section Pairs.
Context {F : Foreign} {M : MongoForeign F}.
Context (prefix : string) (stage : nat).
Hypothesis plain_prefix : contains_any [0; 46] prefix = false.

Notation state_name n := (internal_field prefix stage n "state").
Notation value_name n := (internal_field prefix stage n "value").

(** The states and values of items, under numbered names. *)
Fixpoint pairs (n : nat) (items : list (Bson * Bson)) : Document :=
  match items with
  | [] => []
  | (state, value) :: rest => (state_name n, state) :: (value_name n, value) :: pairs (S n) rest
  end.

Lemma pairs_elem items : forall n f, f ∈ pairs n items <->
  exists i it, items !! i = Some it /\ (f = (state_name (n + i)%nat, fst it) \/ f = (value_name (n + i)%nat, snd it)).
Proof.
  induction items as [|[a b] items IH]; intros n f; cbn [pairs].
  - split; [by intros ?%not_elem_of_nil|]. by intros (i & it & H & _).
  - rewrite !elem_of_cons, IH. split.
    + intros [->|[->|(i & it & Hi & H)]]; [exists 0%nat, (a, b); rewrite Nat.add_0_r; auto..|]. exists (S i), it. by rewrite Nat.add_succ_r.
    + intros ([|i] & it & Hi & H); [injection Hi as <-; rewrite Nat.add_0_r in H; tauto|]. right. right. exists i, it. by rewrite Nat.add_succ_r in H.
Qed.

Lemma pairs_names items : forall n, NoDup (map fst (pairs n items)).
Proof.
  induction items as [|[a b] items IH]; intros n; cbn [pairs map fst]; [constructor|].
  assert (K : forall x, (internal_field prefix stage n x) ∉ map fst (pairs (S n) items)).
  { intros x (f & E & H)%list_elem_of_In%in_map_iff. apply list_elem_of_In, pairs_elem in H as (i & it & _ & [->| ->]); cbn [fst] in E;
      apply internal_field_injective in E as [E _]; lia. }
  constructor; [|constructor; [apply K|apply IH]]. intros [E|H]%elem_of_cons; [by apply internal_field_injective in E as [_ E]|by apply (K "state"%stdpp)].
Qed.

Lemma pairs_plain items n f : f ∈ pairs n items -> plain_field (fst f) = true /\ fst f <> "_id"%stdpp.
Proof using plain_prefix. intros (i & it & _ & [->| ->])%pairs_elem; by apply internal_field_plain. Qed.

Lemma insert_pairs items : insert_all (pairs 0 items) exclude_id = ("_id"%stdpp, BInt32 0) :: pairs 0 items.
Proof using plain_prefix.
  rewrite insert_all_new; [done|]. cbn [app map fst exclude_id]. constructor; [|apply pairs_names].
  intros (f & E & H)%list_elem_of_In%in_map_iff. apply list_elem_of_In in H. by destruct (pairs_plain _ _ _ H).
Qed.

(** Projecting the pairs. *)
Lemma project_pairs {G : Mongo} {L : MongoLaws G} items l :
  (forall it, it ∈ items -> (computed (fst it) && computed (snd it)) = true) ->
  (forall d it, d ∈ l -> it ∈ items -> (exists v, mg_eval d (fst it) = Some v) /\ exists v, mg_eval d (snd it) = Some v) ->
  exists l', mg_stage l [("$project"%stdpp, BDocument (insert_all (pairs 0 items) exclude_id))] = Some l' /\
    Forall2 (fun d d' => forall i it, items !! i = Some it ->
      mg_eval d (fst it) = Some (doc_get (state_name i) d') /\ mg_eval d (snd it) = Some (doc_get (value_name i) d')) l l'.
Proof using plain_prefix.
  intros Hc He. rewrite insert_pairs. destruct (mg_project l (pairs 0 items)) as (l' & Hl & H).
  - apply pairs_names.
  - apply Forall_forall. intros f Hf. destruct (pairs_plain _ _ _ Hf). split_and!; [done..|].
    apply pairs_elem in Hf as (i & it & Hi%list_elem_of_lookup_2%Hc & Hf). apply andb_true_iff in Hi as [? ?]. by destruct Hf as [->| ->].
  - intros d f Hd (i & it & Hi%list_elem_of_lookup_2 & Hf)%pairs_elem. destruct (He d it Hd Hi). by destruct Hf as [->| ->].
  - exists l'. split; [done|]. eapply Forall2_impl; [exact H|]. intros d d' Hdd i it Hi. split; apply (Hdd (_, _)), pairs_elem; exists i, it; auto.
Qed.
End Pairs.

Section Rows.
Context {F : Foreign} {FL : ForeignLaws F} {Q : Subqueries} {W : WireForeign F} {WL : WireForeignLaws W} {M : MongoForeign F} {G : Mongo} {L : MongoLaws G}.
(** The collections of the databases. *)
Context (collections : string -> string -> list Document).

(** ** Rows of relations *)
Definition output_model (output : PlanOutput) : option ModelDef := match output with OutModel m => Some m | _ => None end.

(** A document of a relation stands for a row of the executor: the columns of
    its scopes hold the fields of the row's scopes, and its output fields
    decode to the row's output. *)
Definition row_holds (relation : Relation) (document : Document) (row : WorkingRow) : Prop :=
  (forall scope slot layout column s d, rel_scopes relation !! scope = Some layout -> sl_fields layout !! slot = Some column ->
     wr_scopes row !! scope = Some s -> rv_field (scope_view s) slot = Ok (Some d) -> column_holds document column d) /\
  exists ds, mapR (decode_field_datum document) (rel_output_fields relation) = Ok ds /\
    decode_output (rel_output relation) ds (output_model (rel_output relation)) = Ok (wr_output row).

Definition source_documents (relation : Relation) : list Document := collections (rel_database relation) (rel_collection relation).

(** The documents of a relation stand for the rows of a stage, in order. *)
Definition relation_holds (relation : Relation) (rows : list WorkingRow) : Prop :=
  exists l, mg_run (source_documents relation) (rel_pipeline relation) = Some l /\ Forall2 (row_holds relation) l rows.

Lemma run_snoc l pipeline stage : mg_run l (pipeline ++ [stage]) = (l ← mg_run l pipeline; mg_stage l stage).
Proof.
  revert l. induction pipeline as [|s pipeline IH]; intros l; cbn [app mg_run mbind option_bind].
  - by destruct (mg_stage l stage).
  - destruct (mg_stage l s); [apply IH|done].
Qed.

Lemma document_context_matches relation document row n ps : row_holds relation document row ->
  row_matches document relation (evaluation_context [] row n ps) /\ ec_parameters (evaluation_context [] row n ps) = ps.
Proof.
  intros [Hs _]. unfold evaluation_context. rewrite take_nil. cbn [fold_left]. destruct (bind_scopes (wr_scopes row) (with_parameters eval_context_new ps)) as [Er Ep].
  split; [|by rewrite Ep]. intros scope slot layout column d Hl Hc. unfold read_field. rewrite Er. cbn [ec_records with_parameters eval_context_new app].
  rewrite lookup_map. intros (v & Hv%ok_or_ok & (o & Ho & ->%ok_or_ok)%rbind_ok)%rbind_ok.
  destruct (wr_scopes row !! scope) as [s|] eqn:E; [|done]. injection Hv as <-. by apply (Hs scope slot layout column s d).
Qed.

Context (parameters : Parameters) (limits : ExecutionLimits) (exists_in : nat -> list ScopeRecord -> Result Truth).
Notation evaluated := (evaluate_expr parameters exists_in []).

Lemma row_denotes relation document row e bd d : row_holds relation document row -> rust_expr parameters e = true ->
  compile_expr parameters e relation = Ok bd -> evaluated e row = Ok d -> denotes document bd d.
Proof using FL Q WL L.
  intros H He Hc Hd. destruct (document_context_matches relation document row (pe_outer_scope_count e) parameters H) as [Hm Hp].
  by eapply (expr_denotes document parameters e relation).
Qed.

(** ** Filters *)
Definition holds_true (e : Bson) (document : Document) : bool := match mg_eval document e with Some (Some (BBoolean b)) => b | _ => false end.

Lemma filter_documents relation e relation' input rows : relation_holds relation input -> rust_expr parameters e = true ->
  compile_filter relation e parameters = Ok relation' -> execute_filter limits evaluated input e = Ok rows -> relation_holds relation' rows.
Proof using FL Q WL L.
  intros (l & Hl & Hr) He [_ (bd & Hc & [_ [= <-]]%check_then)%rbind_ok]%check_then (s & Hs & ->)%rmap_ok.
  set (condition := mg_and [mg_eq (bd_state bd) (literal_int STATE_VALUE); mg_eq (bd_value bd) (literal_int TRUTH_TRUE)]).
  assert (K : forall s0, foldR (fun s row => let? d := evaluated e row in
                match d with DValue (VTruth TTrue) => push_stage_row limits s row | DValue (VTruth _) => Ok s | _ => error "MEMORY-FILTER-001" end) input s0 = Ok s ->
    (forall d, d ∈ l -> mg_eval d condition = Some (Some (BBoolean (holds_true condition d)))) /\
    exists kept, fst s = fst s0 ++ kept /\ Forall2 (row_holds relation) (List.filter (holds_true condition) l) kept).
  { clear Hs Hl. induction Hr as [|document row l input Hrow _ IH]; intros s0; cbn [foldR].
    - intros [= <-]. split; [by intros d ?%not_elem_of_nil|]. exists []. rewrite app_nil_r. split; [done|constructor].
    - intros (s1 & (d & Hd & H1)%rbind_ok & H2)%rbind_ok. destruct d as [| |[| t | | | | | | | | | | | | | | | | | |]]; try discriminate H1.
      pose proof (row_denotes _ _ _ _ _ _ Hrow He Hc Hd) as R. pose proof R as (S & _). apply truth_denoted in R.
      assert (E : mg_eval document condition = Some (Some (BBoolean (bool_decide (t = TTrue)))))
        by exact (eval_and2 document _ _ _ _ (eval_state_is document _ _ STATE_VALUE S) (eval_truth_is document _ _ TTrue R)).
      assert (Eh : holds_true condition document = bool_decide (t = TTrue)) by (unfold holds_true; by rewrite E).
      destruct (IH s1 H2) as (Hall & kept & Ek & Hk). split.
      { intros x [->|Hx]%elem_of_cons; [by rewrite Eh|by apply Hall]. }
      cbn [List.filter]. rewrite Eh. destruct t; cbn [bool_decide decide_rel].
      + apply push_ok in H1. exists (row :: kept). rewrite Ek, H1, <- app_assoc. split; [done|by constructor].
      + injection H1 as <-. by exists kept.
      + injection H1 as <-. by exists kept. }
  destruct (K no_rows Hs) as (Hall & kept & -> & Hk).
  exists (List.filter (holds_true condition) l). unfold source_documents, with_stage. cbn [rel_pipeline rel_database rel_collection].
  rewrite run_snoc. change (mg_run (collections (rel_database relation) (rel_collection relation)) (rel_pipeline relation)) with (mg_run (source_documents relation) (rel_pipeline relation)).
  rewrite Hl. cbn [mbind option_bind]. split; [by apply mg_match|exact Hk].
Qed.

(** ** Slices *)
Definition servable_slice (n : LogicalNode) : bool :=
  match n with NSlice _ offset limit => (0 <=? offset) && match limit with Some limit => 0 <? limit | None => true end | _ => true end.

Lemma staged relation stage l l' : mg_run (source_documents relation) (rel_pipeline relation) = Some l -> mg_stage l stage = Some l' ->
  mg_run (source_documents (with_stage relation stage)) (rel_pipeline (with_stage relation stage)) = Some l'.
Proof.
  intros Hl Hs. unfold source_documents, with_stage in *. cbn [rel_pipeline rel_database rel_collection]. by rewrite run_snoc, Hl.
Qed.

Lemma slice_i64_ok n m : slice_i64 n = Ok m <-> m = n /\ n < 2 ^ 63.
Proof. unfold slice_i64. rewrite check_then, guard_ok, Z.ltb_lt. naive_solver. Qed.

Lemma slice_holds relation input offset limit relation' rows : relation_holds relation rows ->
  servable_slice (NSlice input offset limit) = true -> compile_slice relation offset limit = Ok relation' -> relation_holds relation' (execute_slice rows offset limit).
Proof using Q L.
  intros H [Ho%Z.leb_le Hn]%andb_true_iff (r & Hr & Hc)%rbind_ok.
  assert (K : relation_holds r (drop (Z.to_nat offset) rows)).
  { destruct (Z.eqb_spec offset 0) as [->|]; [by injection Hr as <-|]. apply rbind_ok in Hr as (k & [-> Hlt]%slice_i64_ok & [= <-]).
    destruct H as (l & Hl & Hh). exists (drop (Z.to_nat offset) l). split; [eapply staged; [exact Hl|by apply mg_skip]|by apply Forall2_drop]. }
  unfold execute_slice. destruct limit as [limit|]; [|by injection Hc as <-].
  apply rbind_ok in Hc as (k & [-> Hlt]%slice_i64_ok & [= <-]). apply Z.ltb_lt in Hn.
  destruct K as (l & Hl & Hh). exists (take (Z.to_nat limit) l). split; [eapply staged; [exact Hl|by apply mg_limit]|by apply Forall2_take].
Qed.

(** ** Sources *)
(** A document stores a row: an absent field is missing, [null] is null, and
    every value is stored as such. *)
Definition stored_field (mapping : CollectionMapping) (document : Document) (field : FieldDef) (d : Datum) : Prop :=
  forall physical, collection_field_mapping mapping (fd_key field) = Some physical ->
    match d with
    | Missing => doc_get physical document = None
    | Null => doc_get physical document = Some BNull
    | DValue v => rust_scalar v = true /\ exists b, doc_get physical document = Some b /\ stored_as b v
    end.

Definition stored_row (mapping : CollectionMapping) (model : ModelDef) (document : Document) (r : DynRow) : Prop :=
  Forall2 (stored_field mapping document) (md_fields model) (row_values r) /\ row_from_dense model (row_values r) = Ok r.

Lemma stored_type b v : stored_as b v -> String.eqb (type_name (Some b)) "missing" = false /\ String.eqb (type_name (Some b)) "null" = false.
Proof. destruct v; cbn [stored_as]; try done; try (by intros ->); [by destruct b|by destruct b|by intros (d & -> & _)]. Qed.

Lemma eval_type_is document value v name : single value = true -> mg_eval document value = Some v ->
  mg_eval document (mg_eq (bson_type value) (literal_str name)) = Some (Some (BBoolean (String.eqb (type_name v) name))).
Proof using L.
  intros Hs Hv. rewrite (eval_eq document _ _ _ _ (mg_type _ _ _ Hs Hv) (mg_literal _ _ : mg_eval document (literal_str name) = _)).
  by rewrite mg_order_strings, string_compare_eqb.
Qed.

Lemma eval_source_state document value v : single value = true -> mg_eval document value = Some v ->
  mg_eval document (source_state value) =
    Some (Some (BInt32 (if String.eqb (type_name v) "missing" then STATE_MISSING else if String.eqb (type_name v) "null" then STATE_NULL else STATE_VALUE))).
Proof using L.
  intros Hs Hv. change (source_state value) with (switch_document
    [(mg_eq (bson_type value) (literal_str "missing"), BInt32 STATE_MISSING); (mg_eq (bson_type value) (literal_str "null"), BInt32 STATE_NULL)] (BInt32 STATE_VALUE)).
  rewrite (mg_switch _ _ _ _ _ _ (eval_type_is _ _ _ "missing" Hs Hv)). destruct (String.eqb (type_name v) "missing"); [apply mg_constant|].
  rewrite (mg_switch _ _ _ _ _ _ (eval_type_is _ _ _ "null" Hs Hv)). destruct (String.eqb (type_name v) "null"); apply mg_constant.
Qed.

Lemma stored_state mapping document field d physical : stored_field mapping document field d ->
  collection_field_mapping mapping (fd_key field) = Some physical -> plain_field physical = true ->
  mg_eval document (source_state (field_path physical)) = Some (Some (BInt32 (mongo_state_of d))) /\
  mg_eval document (field_path physical) = Some (doc_get physical document).
Proof using L.
  intros H Hp Hf. specialize (H physical Hp). pose proof (mg_path document physical Hf) as Hv. split; [|done].
  rewrite (eval_source_state _ (field_path physical) _ eq_refl Hv). destruct d as [| |v]; [by rewrite H..|]. destruct H as (_ & b & -> & Hb). by destruct (stored_type _ _ Hb) as [-> ->].
Qed.

(** The names of a catalog's fields are plain. *)
Lemma mapped_plain catalog model mapping field : mongodb_collection catalog model = Ok mapping -> field ∈ md_fields model ->
  exists physical, collection_field_mapping mapping (fd_key field) = Some physical /\ plain_field physical = true.
Proof.
  intros (entry & _ & [_ [Hv [= <-]]%check_then]%check_then)%rbind_ok Hf. unfold validate_collection in Hv.
  apply check_then in Hv as [_ Hv]. apply check_then in Hv as [_ Hv]. apply check_then in Hv as [_ (seen & Hv & _)%rbind_ok].
  revert Hv Hf. generalize (@nil string). induction (md_fields model) as [|f fields IH]; intros l; [by intros _ ?%not_elem_of_nil|]. cbn [foldR].
  intros (t & (physical & Hp%ok_or_ok & [Hn%guard_ok _]%check_then)%rbind_ok & Hr)%rbind_ok [->|Hf]%elem_of_cons; [|by eapply IH].
  exists physical. split; [done|]. unfold plain_field. apply negb_true_iff. apply negb_true_iff in Hn. by apply orb_false_iff in Hn as [-> _].
Qed.

Definition physical_name (mapping : CollectionMapping) (f : FieldDef) : string := default EmptyString (collection_field_mapping mapping (fd_key f)).
Definition source_item (mapping : CollectionMapping) (f : FieldDef) : Bson * Bson :=
  (source_state (field_path (physical_name mapping f)), field_path (physical_name mapping f)).
Definition source_column (stage i : nat) (f : FieldDef) : ColumnRef :=
  mkColumnRef (internal_field "s" stage i "state") (internal_field "s" stage i "value")
    (bool_decide (fd_presence f = Required) && match ty_nullability (fd_ty f) with NonNull => true | Nullable => false end).
Definition source_output (stage i : nat) (f : FieldDef) : BsonOutputField :=
  mkBsonOutputField (internal_field "s" stage i "state") (internal_field "s" stage i "value") (fd_ty f).

Lemma source_field_ok mapping stage i f sf : compile_source_field mapping stage (i, f) = Ok sf ->
  ensure_supported_type (fd_ty f) = Ok tt /\ sf_column sf = source_column stage i f /\ sf_output sf = source_output stage i f /\
  sf_projection sf = [(internal_field "s" stage i "state", fst (source_item mapping f)); (internal_field "s" stage i "value", snd (source_item mapping f))].
Proof.
  intros [Hs (physical & Hp%ok_or_ok & (valid & _ & [= <-])%rbind_ok)%rbind_ok]%check_then. unfold source_item, physical_name. by rewrite Hp.
Qed.

Lemma source_fields_ok mapping stage fields : forall n sfs, Forall2 (fun e sf => compile_source_field mapping stage e = Ok sf) (number n fields) sfs ->
  flat_map sf_projection sfs = pairs "s" stage n (map (source_item mapping) fields) /\
  map sf_column sfs = imap (fun i => source_column stage (n + i)) fields /\ map sf_output sfs = imap (fun i => source_output stage (n + i)) fields /\
  Forall (fun f => ensure_supported_type (fd_ty f) = Ok tt) fields.
Proof.
  induction fields as [|f fields IH]; intros n sfs H; cbn [number] in H.
  - apply Forall2_nil_inv_l in H as ->. done.
  - apply Forall2_cons_inv_l in H as (sf & sfs' & Hf & H & ->). apply source_field_ok in Hf as (Hs & Ec & Eo & Ep). destruct (IH _ _ H) as (P1 & P2 & P3 & P4).
    cbn [flat_map map pairs]. rewrite !imap_cons, Nat.add_0_r, Ep, P1, P2, P3, Ec, Eo. split_and!; [done| | |by constructor].
    + f_equal. apply imap_ext. intros i x _. cbn. by rewrite Nat.add_succ_r.
    + f_equal. apply imap_ext. intros i x _. cbn. by rewrite Nat.add_succ_r.
Qed.

Lemma decodes_state document field d : doc_get (of_state_field field) document = Some (BInt32 (mongo_state_of d)) ->
  (forall v, d = DValue v -> exists b, doc_get (of_value_field field) document = Some b /\ decode_value (of_ty field) b = Ok v) ->
  decode_field_datum document field = Ok d.
Proof.
  intros Hs Hv. unfold decode_field_datum. rewrite Hs. cbn [decode_state rbind]. destruct d as [| |v]; [done..|].
  destruct (Hv v eq_refl) as (b & -> & Hb). cbn [mongo_state_of ok_or rbind]. rewrite Hb. done.
Qed.

(** What the projection of a source leaves of a stored row. *)
Lemma source_row mapping model stage document document' r :
  (forall f, f ∈ md_fields model -> exists physical, collection_field_mapping mapping (fd_key f) = Some physical /\ plain_field physical = true) ->
  Forall (fun f => ensure_supported_type (fd_ty f) = Ok tt) (md_fields model) -> dense model -> stored_row mapping model document r ->
  (forall i it, map (source_item mapping) (md_fields model) !! i = Some it ->
     mg_eval document (fst it) = Some (doc_get (internal_field "s" stage i "state") document') /\
     mg_eval document (snd it) = Some (doc_get (internal_field "s" stage i "value") document')) ->
  forall i f d, md_fields model !! i = Some f -> row_values r !! i = Some d ->
    column_holds document' (source_column stage i f) d /\ decode_field_datum document' (source_output stage i f) = Ok d.
Proof using WL L.
  intros Hm Hsup Hdense [Hst Hd] Hp i f d Hf Hdat. apply row_from_dense_ok in Hd as [_ Ha]; [|done].
  pose proof (Forall2_lookup_lr _ _ _ _ _ _ Hst Hf Hdat) as Hs. pose proof (Forall2_lookup_lr _ _ _ _ _ _ Ha Hf Hdat) as Hval. unfold field_accepts in Hval.
  destruct (Hm f (list_elem_of_lookup_2 _ _ _ Hf)) as (physical & Ep & Hplain). destruct (stored_state _ _ _ _ _ Hs Ep Hplain) as [Es Ev].
  destruct (Hp i (source_item mapping f)) as [Ps Pv]; [by rewrite lookup_map, Hf|]. unfold source_item, physical_name in Ps, Pv. rewrite Ep in Ps, Pv. cbn [from_option id fst snd] in Ps, Pv.
  rewrite Es in Ps. injection Ps as Ps. rewrite Ev in Pv. injection Pv as Pv. specialize (Hs physical Ep).
  assert (T : forall v, d = DValue v -> rust_scalar v = true /\ typed_value (fd_ty f) v /\ exists b, doc_get (internal_field "s" stage i "value") document' = Some b /\ stored_as b v).
  { intros v ->. destruct Hs as (Hr & b & Hb & Hsb). split_and!; [done| |exists b; by rewrite <- Pv]. eapply checked_typed; [|reflexivity]. by apply validated_as. }
  split.
  - split_and!; cbn [source_column cr_state_field cr_value_field cr_always_value]; [by apply internal_field_plain|by apply internal_field_plain|done| |].
    + intros [Hreq%bool_decide_eq_true Hnn]%andb_true_iff. rewrite Hreq in Hval. destruct d as [| |v]; [done| |done].
      cbn in Hval. apply check_ok, is_nullable_true in Hval. by rewrite Hval in Hnn.
    + intros v Ev'. destruct (T v Ev') as (? & _ & ?). done.
  - apply decodes_state; [done|]. intros v Ev'. destruct (T v Ev') as (Hr & Ht & b & Hb & Hsb). exists b. split; [done|]. apply stored_decodes; [|done..].
    rewrite Forall_forall in Hsup. by eapply Hsup, list_elem_of_lookup_2.
Qed.

(** The collections store the tables of the memory engine, in their order. *)
Definition model_stored (catalog : MongodbCatalog) (tables : Tables) (model : ModelDef) : Prop :=
  forall mapping table, mongodb_collection catalog model = Ok mapping -> bt_get (md_key model) tables = Some table ->
    Forall2 (stored_row mapping model) (collections (cm_database mapping) (cm_collection mapping)) (mt_rows table).

Lemma sourced_documents catalog tables model stage relation rows : model_stored catalog tables model -> dense model ->
  compile_source catalog model stage = Ok relation -> execute_source tables limits model = Ok rows -> relation_holds relation rows.
Proof using Q WL L.
  intros Hdb Hdense (mapping & Hm & (sfs & Hf%mapR_ok & [= <-])%rbind_ok)%rbind_ok (table & Ht%ok_or_ok & [_ [_ [_ [= <-]]%check_then]%check_then]%check_then)%rbind_ok.
  rewrite enumerate_number in Hf. destruct (source_fields_ok _ _ _ _ _ Hf) as (Ep & Ec & Eo & Hsup). specialize (Hdb _ _ Hm Ht).
  pose proof (fun f => mapped_plain catalog model mapping f Hm) as Hplain. unfold relation_holds, source_documents. cbn [rel_pipeline rel_database rel_collection mg_run].
  destruct (project_pairs "s" stage eq_refl (map (source_item mapping) (md_fields model)) (collections (cm_database mapping) (cm_collection mapping))) as (l & Hl & Hh).
  { intros it (f & <- & _)%list_elem_of_In%in_map_iff. unfold source_item. cbn [fst snd]. by rewrite computed_path. }
  { intros document it Hdoc (f & <- & Hin)%list_elem_of_In%in_map_iff. apply list_elem_of_In in Hin. destruct (Hplain f Hin) as (physical & Ep' & Hpl).
    unfold source_item, physical_name. rewrite Ep'. cbn [from_option id fst snd]. pose proof (mg_path document physical Hpl) as Hv. split; [|by eexists].
    eexists. by apply eval_source_state. }
  exists l. rewrite Ep, Hl. split; [done|]. rewrite Forall2_fmap_r. clear Hl. apply Forall2_same_length_lookup.
  split; [rewrite <- (Forall2_length _ _ _ Hh); by eapply Forall2_length|]. intros j document' r Hdoc' Hrow.
  destruct (Forall2_lookup_r _ _ _ _ _ Hh Hdoc') as (document & Hdoc & Hpr). pose proof (Forall2_lookup_lr _ _ _ _ _ _ Hdb Hdoc Hrow) as Hst.
  pose proof (source_row mapping model stage document document' r Hplain Hsup Hdense Hst Hpr) as K. destruct Hst as [Hfields Hdr].
  split; cbn [rel_scopes rel_output_fields rel_output wr_scopes wr_output].
  - intros scope slot layout column s d [-> <-]%list_lookup_singleton_Some Hcol [_ <-]%list_lookup_singleton_Some. cbn [scope_view rv_field row_view sl_fields] in *. intros [= Hd].
    rewrite Ec, list_lookup_imap in Hcol. apply fmap_Some in Hcol as (f & Hfi & ->). by apply (K slot f d).
  - exists (row_values r). rewrite Eo. split.
    + apply mapR_ok, Forall2_same_length_lookup. split; [rewrite length_imap; by eapply Forall2_length|]. intros i o d Ho Hd.
      rewrite list_lookup_imap in Ho. apply fmap_Some in Ho as (f & Hfi & ->). by apply (K i f d).
    + unfold decode_output. cbn [output_model ok_or rbind]. rewrite (proj2 (guard_ok _ _ tt)).
      { cbn [rbind]. by rewrite Hdr. }
      apply Nat.eqb_eq. symmetry. by eapply Forall2_length.
Qed.

(** ** Projections *)
Definition pair_computed (bd : BsonDatum) : Prop := (computed (bd_state bd) && computed (bd_value bd)) = true.

Lemma bound_computed ty d bd : bound_datum ty d = Ok bd -> pair_computed bd.
Proof. by intros [_ [_ (b & _ & [= <-])%rbind_ok]%check_then]%check_then. Qed.

Lemma node_computed e relation values n bd : Forall pair_computed values -> compile_node parameters e relation values n = Ok bd -> pair_computed bd.
Proof.
  intros Hv. assert (K : forall i v, get_value values i = Ok v -> pair_computed v) by (intros i v H%ok_or_ok; by eapply Forall_lookup_1).
  unfold compile_node. destruct (pn_kind n); try done.
  - intros [_ (k & _ & (layout & _ & [_ (column & _ & [= <-])%rbind_ok]%check_then)%rbind_ok)%rbind_ok]%check_then. unfold pair_computed. cbn [bd_state bd_value]. by rewrite !computed_path.
  - apply bound_computed.
  - intros (p & _ & [_ H]%check_then)%rbind_ok. by eapply bound_computed.
  - intros (i & Hi%K & H)%rbind_ok. destruct op; cbn [compile_unary] in H; try discriminate H; try (by injection H as <-). by apply check_then in H as [_ [= <-]].
  - intros (a & Ha & (b & Hb & H)%rbind_ok)%rbind_ok. destruct op; cbn [compile_binary] in H; try discriminate H.
    all: first [injection H as <-|apply rbind_ok in H as (s & _ & [= <-])|apply check_then in H as [_ [_ [= <-]]%check_then]]; done.
  - intros (a & _ & (cs & _ & (ts & _ & H)%rbind_ok)%rbind_ok)%rbind_ok. by destruct ts; injection H as <-.
  - intros (a & _ & (t & _ & (f & _ & [_ [= <-]]%check_then)%rbind_ok)%rbind_ok)%rbind_ok. done.
Qed.

Lemma expr_computed e relation bd : compile_expr parameters e relation = Ok bd -> pair_computed bd.
Proof.
  intros [_ (values & Hn & Hs%ok_or_ok)%rbind_ok]%check_then. assert (K : Forall pair_computed values); [|by eapply Forall_lookup_1].
  refine (foldR_keeps (Forall pair_computed) _ _ _ _ _ _ Hn); [|constructor].
  intros n vs vs' _ Hv (b & Hb & [= <-])%rbind_ok. apply Forall_app. split; [done|]. constructor; [by eapply node_computed|constructor].
Qed.

Definition projected_output (stage i : nat) (e : LogicalExpr) : BsonOutputField :=
  mkBsonOutputField (internal_field "p" stage i "state") (internal_field "p" stage i "value") (pe_ty e).
Definition pair_of (bd : BsonDatum) : Bson * Bson := (bd_state bd, bd_value bd).

Lemma projected_ok relation stage es : forall n outputs, Forall2 (fun e o => compile_projected relation parameters stage e = Ok o) (number n es) outputs ->
  exists bds, Forall2 (fun e bd => compile_expr parameters e relation = Ok bd /\ ensure_supported_type (pe_ty e) = Ok tt) es bds /\
    flat_map fst outputs = pairs "p" stage n (map pair_of bds) /\ map snd outputs = imap (fun i => projected_output stage (n + i)) es.
Proof.
  induction es as [|e es IH]; intros n outputs H; cbn [number] in H.
  - apply Forall2_nil_inv_l in H as ->. exists []. by repeat constructor.
  - apply Forall2_cons_inv_l in H as (o & os & [Hs (bd & Hc & [= <-])%rbind_ok]%check_then & H & ->). destruct (IH _ _ H) as (bds & H1 & H2 & H3).
    exists (bd :: bds). split_and!; [by constructor|cbn [flat_map map pairs fst app pair_of]; by rewrite H2|].
    cbn [map snd]. rewrite imap_cons, Nat.add_0_r, H3. f_equal. apply imap_ext. intros i x _. cbn. by rewrite Nat.add_succ_r.
Qed.

Lemma projection_document_decodes scopes p row d values : projection_typed scopes p -> mapR (fun e => evaluated e row) (lp_expressions p) = Ok values ->
  evaluate_projection evaluated p row = Ok d -> Forall (fun e => scalar_typed (pe_ty e)) (lp_expressions p) ->
  decode_output (OutValue (lp_ty p)) values None = Ok (RValue d).
Proof.
  intros T Hv H Hs. unfold evaluate_projection in H. rewrite Hv in H. cbn [rbind] in H. apply rbind_ok in H as (d' & Hd & [Hval [= ->]]%check_then).
  unfold decode_output. pose proof (pt_shape _ _ T) as Sh. pose proof (mapR_length _ _ _ Hv) as Hl. unfold assemble_value_output.
  destruct (lp_kind p).
  - destruct (lp_expressions p) as [|e [|]]; try discriminate Sh. injection Sh as Sh. destruct values as [|v [|]]; try discriminate Hl. injection Hd as ->.
    apply Forall_cons in Hs as [(r & Hr) _]. rewrite <- Sh, Hr. cbn [rbind]. by rewrite Sh, Hval.
  - injection Hd as <-. rewrite Sh.
    assert (El : Nat.eqb (length (map pe_ty (lp_expressions p))) (length values) = true) by (apply Nat.eqb_eq; by rewrite length_map).
    rewrite El. cbn [guard rbind]. by rewrite Hval.
  - apply check_then in Hd as [_ [= <-]]. destruct Sh as (fields & -> & En & Et).
    assert (El : Nat.eqb (length fields) (length values) = true) by (apply Nat.eqb_eq; apply (f_equal length) in Et; rewrite !length_map in Et; exact (eq_trans Et (eq_sym Hl))).
    rewrite El. cbn [guard rbind]. by rewrite En, Hval.
Qed.

Lemma evaluated_typed scopes e row d v : closed_expr scopes e -> evaluated e row = Ok d -> d = DValue v -> typed_value (pe_ty e) v.
Proof.
  intros He Hd Ev. destruct (closed_root scopes e He) as (n & Hroot & <-). eapply checked_typed; [|exact Ev].
  unfold evaluate_expr, evaluate_datum_with_exists in Hd. apply check_then in Hd as [_ Hd]. by eapply evaluated_as.
Qed.

Lemma projected_documents relation p stage relation' scopes input rows : relation_holds relation input -> projection_typed scopes p ->
  Forall (fun e => rust_expr parameters e = true) (lp_expressions p) ->
  compile_project relation p parameters stage = Ok relation' -> execute_project limits evaluated input p = Ok rows -> relation_holds relation' rows.
Proof using FL Q WL L.
  intros (l & Hl & Hr) T He (outputs & Ho%mapR_ok & [_ [= <-]]%check_then)%rbind_ok Hp%project_rows.
  rewrite enumerate_number in Ho. destruct (projected_ok _ _ _ _ _ Ho) as (bds & Hb & Ep & Eo).
  assert (Hrep : forall document row, row_holds relation document row -> forall values, mapR (fun e => evaluated e row) (lp_expressions p) = Ok values ->
    Forall2 (denotes document) bds values).
  { intros document row Hrow values Hv%mapR_ok. apply Forall2_same_length_lookup. split; [by rewrite <- (Forall2_length _ _ _ Hb), (Forall2_length _ _ _ Hv)|].
    intros i bd v Hbd Hvi. destruct (Forall2_lookup_r _ _ _ _ _ Hb Hbd) as (e & Hei & Hc & _). pose proof (Forall2_lookup_lr _ _ _ _ _ _ Hv Hei Hvi) as Hev.
    eapply row_denotes; [exact Hrow| |exact Hc|exact Hev]. rewrite Forall_forall in He. by eapply He, list_elem_of_lookup_2. }
  assert (Hval : Forall2 (fun row out => exists d values, mapR (fun e => evaluated e row) (lp_expressions p) = Ok values /\ evaluate_projection evaluated p row = Ok d /\ out = value_row d) input rows).
  { eapply Forall2_impl; [exact Hp|]. intros row out (d & Hd & ->). pose proof Hd as Hd'. unfold evaluate_projection in Hd'. apply rbind_ok in Hd' as (values & Hv & _). eauto. }
  destruct (project_pairs "p" stage eq_refl (map pair_of bds) l) as (l' & Hl' & Hh).
  { intros it (bd & <- & Hin)%list_elem_of_In%in_map_iff. apply list_elem_of_In, list_elem_of_lookup in Hin as [i Hi].
    destruct (Forall2_lookup_r _ _ _ _ _ Hb Hi) as (e & _ & Hc & _). by eapply expr_computed. }
  { intros document it Hdoc (bd & <- & Hin)%list_elem_of_In%in_map_iff. apply list_elem_of_In, list_elem_of_lookup in Hin as [i Hi]. apply list_elem_of_lookup in Hdoc as [j Hj].
    destruct (Forall2_lookup_l _ _ _ _ _ Hr Hj) as (row & Hrow & Hrh). destruct (Forall2_lookup_l _ _ _ _ _ Hval Hrow) as (out & _ & d & values & Hv & _).
    destruct (Forall2_lookup_l _ _ _ _ _ (Hrep document row Hrh values Hv) Hi) as (v & _ & Hs & _ & Hev & _). cbn [pair_of fst snd]. split; [by eexists|exact Hev]. }
  exists l'. unfold source_documents. cbn [rel_pipeline rel_database rel_collection]. split.
  { rewrite run_snoc. change (mg_run (collections (rel_database relation) (rel_collection relation)) (rel_pipeline relation)) with (mg_run (source_documents relation) (rel_pipeline relation)).
    rewrite Hl. cbn [mbind option_bind]. by rewrite Ep. }
  clear Hl Hl'. apply Forall2_same_length_lookup.
  split; [by rewrite <- (Forall2_length _ _ _ Hh), (Forall2_length _ _ _ Hr), (Forall2_length _ _ _ Hval)|]. intros j document' out Hdoc' Hout.
  destruct (Forall2_lookup_r _ _ _ _ _ Hh Hdoc') as (document & Hdoc & Hpr). destruct (Forall2_lookup_l _ _ _ _ _ Hr Hdoc) as (row & Hrow & Hrh).
  destruct (Forall2_lookup_lr _ _ _ _ _ _ Hval Hrow Hout) as (d & values & Hv & Hd & ->). pose proof (Hrep document row Hrh values Hv) as Hvs.
  split; cbn [rel_scopes rel_output_fields rel_output wr_scopes wr_output value_row]; [intros scope slot layout column s x H; by rewrite lookup_nil in H|].
  exists values. rewrite Eo. split.
  - apply mapR_ok, Forall2_same_length_lookup. pose proof Hv as Hv'. apply mapR_ok in Hv'. split; [rewrite length_imap; by eapply Forall2_length|].
    intros i o v Hoi Hvi. rewrite list_lookup_imap in Hoi. apply fmap_Some in Hoi as (e & Hei & ->). cbn [Nat.add].
    destruct (Forall2_lookup_r _ _ _ _ _ Hvs Hvi) as (bd & Hbd & Hs & _ & _ & _ & Hvv). pose proof (Forall2_lookup_lr _ _ _ _ _ _ Hv' Hei Hvi) as Hev.
    destruct (Forall2_lookup_lr _ _ _ _ _ _ Hb Hei Hbd) as [_ Hsup]. destruct (Hpr i (pair_of bd)) as [Ps Pv]; [by rewrite lookup_map, Hbd|]. cbn [pair_of fst snd] in Ps, Pv.
    apply decodes_state; cbn [projected_output of_state_field of_value_field of_ty]; [rewrite Hs in Ps; by injection Ps as Ps|]. intros w Ew.
    destruct (Hvv w Ew) as (_ & Hrw & b & Hb' & Hsb). rewrite Hb' in Pv. injection Pv as Pv. exists b. split; [done|]. apply stored_decodes; [done| |done..].
    pose proof (pt_expressions _ _ T) as Hce. rewrite Forall_forall in Hce. eapply evaluated_typed; [by eapply Hce, list_elem_of_lookup_2|exact Hev|exact Ew].
  - apply (projection_document_decodes scopes p row); [done..|]. apply Forall_lookup. intros i e Hei.
    destruct (Forall2_lookup_l _ _ _ _ _ Hb Hei) as (bd & _ & _ & Hsup). exact (supported_ok _ _ Hsup).
Qed.

(** ** Plans *)
Definition compiled_at (catalog : MongodbCatalog) (relations : list Relation) (i : nat) (n : LogicalNode) : Prop :=
  exists relation, relations !! i = Some relation /\ compile_logical_node catalog parameters (take i relations) n = Ok relation.

Lemma pipelines_compiled catalog rest : forall pre relations relations', length relations = length pre ->
  (forall i n, pre !! i = Some n -> compiled_at catalog relations i n) -> compile_relations catalog parameters rest relations = Ok relations' ->
  forall i n, (pre ++ rest) !! i = Some n -> compiled_at catalog relations' i n.
Proof.
  induction rest as [|m rest IH]; intros pre relations relations' Hl Hpre; unfold compile_relations; cbn [foldR].
  { intros [= <-]. by rewrite app_nil_r. }
  intros (rs & (rel & Hn & [= <-])%rbind_ok & H)%rbind_ok i n Hi. rewrite cons_middle, app_assoc in Hi.
  refine (IH (pre ++ [m]) (relations ++ [rel]) relations' _ _ H i n Hi); [by rewrite !length_app, Hl|]. clear i n Hi. intros i n Hi.
  apply lookup_app_Some in Hi as [Hi|[Hge Hi]].
  - destruct (Hpre i n Hi) as (r & Hr & Hc). exists r. split; [by apply lookup_app_l_Some|]. by rewrite take_app_le by (apply lookup_lt_Some in Hr; lia).
  - apply list_lookup_singleton_Some in Hi as [Hi <-]. assert (i = length relations) as -> by lia.
    exists rel. split; [by apply list_lookup_middle|]. by rewrite take_app_length.
Qed.

Definition rust_operands (n : LogicalNode) : bool := forallb (rust_expr parameters) (node_expressions n).
Definition source_stored (catalog : MongodbCatalog) (tables : Tables) (n : LogicalNode) : Prop :=
  match n with NSource m _ => dense m /\ model_stored catalog tables m | _ => True end.

Section Plan.
Context (catalog : MongodbCatalog) (tables : Tables) (plan : LogicalPlan) (relations : list Relation) (st : list Stage).
Hypothesis compiled_nodes : forall i n, plan_nodes plan !! i = Some n -> compiled_at catalog relations i n.
Hypothesis typed : nodes_typed (plan_nodes plan) st.
Hypothesis slices : forallb servable_slice (plan_nodes plan) = true.
Hypothesis operands : forallb rust_operands (plan_nodes plan) = true.
Hypothesis stored : Forall (source_stored catalog tables) (plan_nodes plan).

Definition results_hold (results : StageResults) : Prop :=
  forall i rows, results !! i = Some (Some rows) -> exists relation, relations !! i = Some relation /\ relation_holds relation rows.

Lemma input_documents results i input rows relation : results_hold results -> input_rows results input = Ok rows ->
  input_relation (take i relations) input = Ok relation -> relation_holds relation rows.
Proof.
  intros R H%ok_or_ok Hr%ok_or_ok. destruct (results !! input) as [[r|]|] eqn:E; try done. injection H as ->.
  destruct (R _ _ E) as (relation' & Hr' & Hh). apply lookup_take_Some in Hr as [Hr _]. rewrite Hr in Hr'. by injection Hr' as <-.
Qed.

Lemma stage_documents shapes results i n rows : results_hold results -> plan_nodes plan !! i = Some n ->
  execute_stage tables parameters limits shapes exists_in results [] n = Ok rows ->
  exists relation, relations !! i = Some relation /\ relation_holds relation rows.
Proof using All.
  intros R Hn Hx. destruct (compiled_nodes i n Hn) as (relation & Hr & Hc). exists relation. split; [done|].
  pose proof (list_elem_of_lookup_2 _ _ _ Hn) as Hin. pose proof Hin as Hin'. apply list_elem_of_In in Hin'.
  assert (Hop : rust_operands n = true) by (rewrite forallb_forall in operands; by apply operands).
  assert (Hsl : servable_slice n = true) by (rewrite forallb_forall in slices; by apply slices).
  unfold rust_operands in Hop. destruct n; cbn [compile_logical_node execute_stage] in Hc, Hx; try discriminate Hc.
  - rewrite Forall_forall in stored. destruct (stored _ Hin) as [Hd Hst]. eapply sourced_documents; [exact Hst|exact Hd|exact Hc|exact Hx].
  - apply rbind_ok in Hc as (rel & Hrel & Hc). apply rbind_ok in Hx as (rows0 & Hi & Hx). cbn in Hop. rewrite andb_true_r in Hop.
    eapply filter_documents; [by eapply input_documents|exact Hop|exact Hc|exact Hx].
  - apply rbind_ok in Hc as (rel & Hrel & Hc). apply rbind_ok in Hx as (rows0 & Hi & Hx).
    destruct (nodes_typed_lookup _ _ _ _ typed Hn) as (s & _ & Ht). inversion Ht as [| |? s0 ? Hs0 Hp| | | | | | | | |]; subst.
    eapply projected_documents; [by eapply input_documents|exact Hp| |exact Hc|exact Hx].
    rewrite forallb_forall in Hop. apply Forall_forall. intros e He. apply Hop. by apply list_elem_of_In.
  - apply rbind_ok in Hc as (rel & Hrel & Hc). apply rbind_ok in Hx as (rows0 & Hi & [= <-]). eapply slice_holds; [by eapply input_documents|exact Hsl|exact Hc].
Qed.

Lemma run_index_documents shapes needed results index results' : results_hold results ->
  run_index tables plan parameters limits shapes exists_in needed [] results index = Ok results' -> results_hold results'.
Proof using All.
  intros R. unfold run_index. destruct (default false (needed !! index)); [|by intros [= <-]].
  intros (n & Hn%ok_or_ok & (rows & Hr & [_ [_ (old & _ & [= <-])%rbind_ok]%check_then]%check_then)%rbind_ok)%rbind_ok.
  intros i r Hi. destruct (decide (i = index)) as [->|Hne].
  - apply list_lookup_insert_Some in Hi as [(_ & [= <-] & _)|(? & _)]; [|done]. by eapply stage_documents.
  - rewrite list_lookup_insert_ne in Hi by done. by apply R.
Qed.

Lemma run_subplan_documents shapes root rows : run_subplan tables plan parameters limits shapes exists_in root [] = Ok rows ->
  exists relation, relations !! root = Some relation /\ relation_holds relation rows.
Proof using All.
  unfold run_subplan. intros (needed & _ & (results & Hr & Hd%ok_or_ok)%rbind_ok)%rbind_ok.
  assert (R : results_hold results).
  { refine (foldR_keeps results_hold _ _ _ _ _ _ Hr); [intros index r r' _ R; by apply run_index_documents|].
    intros i r [H _]%lookup_replicate. done. }
  destruct (results !! root) as [[r|]|] eqn:E; try done. injection Hd as ->. by apply R.
Qed.
End Plan.
End Rows.

Section Refines.
Context {F : Foreign} {FL : ForeignLaws F} {Q : Subqueries} {W : WireForeign F} {WL : WireForeignLaws W} {M : MongoForeign F} {G : Mongo} {L : MongoLaws G}.
Context (collections : string -> string -> list Document).

(** The pipeline of a compiled plan returns documents that decode to the rows
    of the memory executor. *)
Lemma pipeline_rows catalog tables plan parameters limits batch_rows compiled stream :
  plan_typed plan -> Forall (source_stored collections catalog tables) (plan_nodes plan) ->
  forallb servable_slice (plan_nodes plan) = true -> forallb (rust_operands parameters) (plan_nodes plan) = true ->
  mongodb_compile catalog plan parameters = Ok compiled -> execute tables plan parameters limits batch_rows = Ok stream ->
  exists l, mg_run (collections (ca_database compiled) (ca_collection compiled)) (ca_pipeline compiled) = Some l /\
    Forall2 (fun document row => row_decode (row_decoder_new compiled) compiled document = Ok row) l (ms_rows stream).
Proof using FL Q WL L.
  intros (st & s & T & _ & _) Hst Hs Ho Hc Hx. unfold mongodb_compile in Hc.
  apply rbind_ok in Hc as (relations & Hr & (relation & Hroot%ok_or_ok & [_ [= <-]]%check_then)%rbind_ok).
  unfold execute in Hx. apply check_then in Hx as [_ Hx]. apply check_then in Hx as [_ Hx].
  apply rbind_ok in Hx as (shapes & _ & (rows & Hrows & [_ [= <-]]%check_then)%rbind_ok).
  assert (Hcomp : forall i n, plan_nodes plan !! i = Some n -> compiled_at parameters catalog relations i n).
  { intros i n Hi. by apply (pipelines_compiled parameters catalog (plan_nodes plan) [] [] relations). }
  unfold max_existential_depth in Hrows. cbn [execute_subplan] in Hrows.
  eapply run_subplan_documents in Hrows as (relation' & Hrel & l & Hl & Hh); [|exact Hcomp|exact T|done|done|exact Hst].
  rewrite Hroot in Hrel. injection Hrel as <-. exists l. split; [exact Hl|]. cbn [ms_rows]. rewrite Forall2_fmap_r.
  eapply Forall2_impl; [exact Hh|]. intros document row [_ (ds & Hds & Hout)]. unfold row_decode, row_decoder_new. cbn [ca_fields ca_output].
  rewrite Hds. exact Hout.
Qed.
End Refines.


(** ** The preflight *)
Section Preflight.
Context {F : Foreign} {FL : ForeignLaws F} {W : WireForeign F} {WL : WireForeignLaws W} {M : MongoForeign F} {G : Mongo} {L : MongoLaws G}.

Notation boolean b := (Some (Some (BBoolean b))).

(** Types for which the preflight tests all that the codec needs. *)
Definition exact_type (ty : TypeDef) : bool :=
  match ty_shape ty with
  | ShScalar (RBool | RTruth | RFloat64 | RChar | RString) => true
  | ShScalar (RInt bits) => (bits =? 8) || (bits =? 16) || (bits =? 32) || (bits =? 64)
  | _ => false
  end.

(** What the codec reads from a field, and from a document. *)
Definition field_datum (ty : TypeDef) (o : option Bson) : Result Datum :=
  match o with None => Ok Missing | Some BNull => Ok Null | Some b => rmap DValue (decode_value ty b) end.
Definition document_row (mapping : CollectionMapping) (model : ModelDef) (document : Document) : Result DynRow :=
  let? ds := mapR (fun f => field_datum (fd_ty f) (doc_get (physical_name mapping f) document)) (md_fields model) in row_from_dense model ds.

Definition value_reads (ty : TypeDef) (b : Bson) : bool := match decode_value ty b with Ok v => is_ok (validate_value ty v) | Err _ => false end.
Definition field_reads (f : FieldDef) (o : option Bson) : bool :=
  match field_datum (fd_ty f) o with Ok d => is_ok (validate_datum (fd_ty f) (fd_presence f) d) | Err _ => false end.

Lemma scalar_valid ty r v : ty_shape ty = ShScalar r -> is_ok (validate_value ty v) = scalar_matches r v.
Proof. destruct ty. cbn [ty_shape validate_value]. intros ->. by destruct (scalar_matches r v). Qed.

Lemma eval_is_integer document value b : single value = true -> mg_eval document value = Some (Some b) ->
  mg_eval document (is_integer_type value) = boolean (match integer_of b with Some _ => true | None => false end).
Proof using L.
  intros Hs Hv. unfold is_integer_type. rewrite (eval_or2 document _ _ _ _ (eval_type_is document value _ "int" Hs Hv) (eval_type_is document value _ "long" Hs Hv)).
  by destruct b.
Qed.

Lemma eval_bound document value b n m name holds : mg_eval document value = Some (Some b) -> integer_of b = Some n -> comparison_operator name = Some holds ->
  mg_eval document (mg_op name [value; literal_long m]) = boolean (holds (n ?= m)).
Proof using L.
  intros Hv Hb Hh. by rewrite (mg_compare _ _ _ _ _ _ _ Hh Hv (mg_literal _ _ : mg_eval document (literal_long m) = _)), (mg_order_integers _ _ n m).
Qed.

Lemma truth_reads n : is_ok (mongo_decode_truth n) = existsb (fun m => n =? m) [TRUTH_FALSE; TRUTH_TRUE; TRUTH_UNKNOWN].
Proof.
  unfold mongo_decode_truth, TRUTH_FALSE, TRUTH_TRUE, TRUTH_UNKNOWN. cbn [existsb]. by destruct (n =? 0), (n =? 1), (n =? 2).
Qed.

Lemma decoded_in_i32 n t : mongo_decode_truth n = Ok t -> in_i32 n = true.
Proof.
  unfold mongo_decode_truth. destruct (Z.eqb_spec n 0) as [->|]; [done|]. destruct (Z.eqb_spec n 1) as [->|]; [done|]. by destruct (Z.eqb_spec n 2) as [->|].
Qed.

Lemma range_fits bits n : (bits =? 8) || (bits =? 16) || (bits =? 32) || (bits =? 64) = true ->
  negb (comparison_eqb (n ?= - 2 ^ (bits - 1)) Lt) && negb (comparison_eqb (n ?= 2 ^ (bits - 1) - 1) Gt) = signed_fits bits n.
Proof.
  intros H. assert (E : signed_fits bits n = (- 2 ^ (bits - 1) <=? n) && (n <? 2 ^ (bits - 1))).
  { unfold signed_fits. destruct (Z.eqb_spec bits 8) as [->|]; [done|]. destruct (Z.eqb_spec bits 16) as [->|]; [done|].
    destruct (Z.eqb_spec bits 32) as [->|]; [done|]. by destruct (Z.eqb_spec bits 64) as [->|]. }
  rewrite E. destruct (Z.compare_spec n (- 2 ^ (bits - 1))), (Z.compare_spec n (2 ^ (bits - 1) - 1)); cbn [comparison_eqb negb andb]; lia.
Qed.

Lemma value_valid_eval document ty value b s : exact_type ty = true -> single value = true -> mg_eval document value = Some (Some b) ->
  source_value_valid ty value = Ok s -> mg_eval document s = boolean (value_reads ty b).
Proof using L.
  intros He Hs Hv [Hsup H]%check_then. unfold value_reads, decode_value. rewrite Hsup. cbn [rbind]. destruct (supported_ok ty _ Hsup) as [r Er].
  unfold exact_type in He. rewrite Er in *.
  assert (T : forall name, mg_eval document (mg_eq (bson_type value) (literal_str name)) = boolean (String.eqb (type_name (Some b)) name)) by (intros name; by apply eval_type_is).
  destruct r; try discriminate He.
  - injection H as <-. rewrite T. destruct b; try done. cbn [is_ok]. by rewrite (scalar_valid ty _ _ Er).
  - injection H as <-. rewrite (eval_cond document _ _ _ _ (eval_is_integer document value b Hs Hv)).
    destruct (integer_of b) as [n|] eqn:Eb; [|rewrite (mg_literal document (BBoolean false) : mg_eval document (literal_bool false) = _); by destruct b].
    pose proof (mg_member document value b [TRUTH_FALSE; TRUTH_TRUE; TRUTH_UNKNOWN] Hv) as Hm. cbn [map] in Hm. rewrite Hm. f_equal. f_equal. f_equal.
    assert (E : existsb (fun m => comparison_eqb (mg_order b (BInt32 m)) Eq) [TRUTH_FALSE; TRUTH_TRUE; TRUTH_UNKNOWN] = is_ok (mongo_decode_truth n)).
    { rewrite truth_reads. cbn [existsb]. by rewrite !(mg_order_integers b (BInt32 _) n _ Eb eq_refl), !compare_eqb. }
    rewrite E. destruct b; try discriminate Eb; injection Eb as ->.
    + destruct (mongo_decode_truth n); [|done]. cbn. by rewrite (scalar_valid ty _ _ Er).
    + destruct (mongo_decode_truth n) as [t|] eqn:Et.
      * rewrite (decoded_in_i32 n t Et). cbn. by rewrite (scalar_valid ty _ _ Er).
      * by destruct (in_i32 n).
  - destruct (bits <=? 64) eqn:Eb64; [|lia]. apply rbind_ok in H as ([lo hi] & Hr & [= <-]). apply check_then in Hr as [_ [= <- <-]].
    rewrite (eval_cond document _ _ _ _ (eval_is_integer document value b Hs Hv)). cbn [fst snd].
    destruct (integer_of b) as [n|] eqn:Eb; [|rewrite (mg_literal document (BBoolean false) : mg_eval document (literal_bool false) = _); by destruct b].
    refine (eq_trans (eval_and2 document _ _ _ _ (eval_bound document value b n (- 2 ^ (bits - 1)) "$gte" _ Hv Eb eq_refl)
      (eval_bound document value b n (2 ^ (bits - 1) - 1) "$lte" _ Hv Eb eq_refl)) _). f_equal. f_equal. f_equal.
    rewrite range_fits by done. destruct b; try discriminate Eb; injection Eb as ->; by rewrite (scalar_valid ty _ _ Er).
  - injection H as <-. rewrite T. destruct b; try done. by rewrite (scalar_valid ty _ _ Er).
  - injection H as <-. rewrite (eval_cond document _ _ _ _ (T "string"%stdpp)).
    destruct b as [| | | | | |text| | |]; try exact (mg_literal document (BBoolean false)).
    cbn [type_name]. change (String.eqb "string" "string") with true. cbv iota. rewrite (eval_eq document _ _ _ _ (mg_length document value text Hs Hv) (eval_int document 1)).
    rewrite (mg_order_integers (BInt32 _) (BInt32 1) _ _ eq_refl eq_refl), compare_eqb.
    f_equal. f_equal. f_equal.
    destruct (chars text) as [|c [|c' l]]; [done| |]; [by rewrite (scalar_valid ty _ _ Er)|]. apply Z.eqb_neq. unfold zlen. cbn [length]. lia.
  - injection H as <-. rewrite T. destruct b; try done. by rewrite (scalar_valid ty _ _ Er).
Qed.

(** The state of a field, and whether its presence is as the field says. *)
Definition source_tag (o : option Bson) : Z := match o with None => STATE_MISSING | Some BNull => STATE_NULL | Some _ => STATE_VALUE end.
Definition presence_holds (f : FieldDef) (o : option Bson) : bool :=
  match fd_presence f, ty_nullability (fd_ty f) with
  | Required, NonNull => source_tag o =? STATE_VALUE
  | Required, Nullable => negb (source_tag o =? STATE_MISSING)
  | Optional, NonNull => negb (source_tag o =? STATE_NULL)
  | Optional, Nullable => true
  end.

Lemma field_reads_cases f o : field_reads f o = presence_holds f o && (if source_tag o =? STATE_VALUE then match o with Some b => value_reads (fd_ty f) b | None => false end else true).
Proof.
  unfold field_reads, presence_holds, field_datum, value_reads, is_nullable. destruct o as [b|].
  - destruct b; cbn [source_tag]; [cbn; unfold is_nullable; by destruct (fd_presence f), (ty_nullability (fd_ty f))|..].
    all: destruct (decode_value _ _) as [v|]; cbn; destruct (fd_presence f), (ty_nullability (fd_ty f)); done.
  - by destruct (fd_presence f), (ty_nullability (fd_ty f)).
Qed.

Lemma field_valid_eval document f physical s : exact_type (fd_ty f) = true -> plain_field physical = true ->
  source_field_valid (fd_presence f) (fd_ty f) (source_state (field_path physical)) (field_path physical) = Ok s ->
  mg_eval document s = boolean (field_reads f (doc_get physical document)).
Proof using L.
  intros He Hp (valid & Hvalid & [= <-])%rbind_ok. set (value := field_path physical) in *. set (o := doc_get physical document).
  assert (Hv : mg_eval document value = Some o) by by apply mg_path.
  assert (Hs : mg_eval document (source_state value) = Some (Some (BInt32 (source_tag o)))).
  { rewrite (eval_source_state document value o eq_refl Hv). by destruct o as [[]|]. }
  rewrite field_reads_cases.
  refine (eval_and2 document _ _ (presence_holds f o) _ _ _).
  - unfold presence_holds. destruct (fd_presence f), (ty_nullability (fd_ty f)).
    + exact (eval_state_is document _ _ STATE_VALUE Hs).
    + exact (eval_state_is_not document _ _ STATE_MISSING Hs).
    + exact (eval_state_is_not document _ _ STATE_NULL Hs).
    + exact (mg_literal document (BBoolean true)).
  - rewrite (eval_cond document _ _ _ _ (eval_state_is document _ _ STATE_VALUE Hs)). destruct (source_tag o =? STATE_VALUE) eqn:E; [|exact (mg_literal document (BBoolean true))].
    destruct o as [b|]; [|done]. by apply (value_valid_eval document (fd_ty f) value b valid).
Qed.

Lemma source_valid_ok mapping stage fields : forall n sfs, Forall2 (fun e sf => compile_source_field mapping stage e = Ok sf) (number n fields) sfs ->
  Forall2 (fun f s => source_field_valid (fd_presence f) (fd_ty f) (source_state (field_path (physical_name mapping f))) (field_path (physical_name mapping f)) = Ok s)
    fields (map sf_valid sfs).
Proof.
  induction fields as [|f fields IH]; intros n sfs H; cbn [number] in H.
  - apply Forall2_nil_inv_l in H as ->. constructor.
  - apply Forall2_cons_inv_l in H as (sf & sfs' & Hf & H & ->). cbn [map]. constructor; [|by eapply IH]. clear H IH.
    apply check_then in Hf as [_ (physical & Hp%ok_or_ok & (valid & Hvalid & [= <-])%rbind_ok)%rbind_ok]. unfold physical_name. by rewrite Hp.
Qed.

Lemma fields_valid_eval mapping document fields ss :
  Forall2 (fun f s => source_field_valid (fd_presence f) (fd_ty f) (source_state (field_path (physical_name mapping f))) (field_path (physical_name mapping f)) = Ok s)
    fields ss ->
  Forall (fun f => exact_type (fd_ty f) = true /\ exists physical, collection_field_mapping mapping (fd_key f) = Some physical /\ plain_field physical = true) fields ->
  map (mg_eval document) ss = map (fun b => boolean b) (map (fun f => field_reads f (doc_get (physical_name mapping f) document)) fields).
Proof using L.
  induction 1 as [|f s fields ss Hs _ IH]; [done|]. intros [[He (physical & Ep & Hp)] H]%Forall_cons. cbn [map]. rewrite IH by done. f_equal.
  unfold physical_name in *. rewrite Ep in *. by apply field_valid_eval.
Qed.

Lemma document_row_reads mapping model document : dense model ->
  is_ok (document_row mapping model document) = forallb (fun f => field_reads f (doc_get (physical_name mapping f) document)) (md_fields model).
Proof.
  intros Hd. apply Bool.eq_iff_eq_true. rewrite forallb_forall. unfold document_row. split.
  - destruct (mapR _ _) as [ds|] eqn:E; [|done]. cbn [rbind]. intros H f Hf. destruct (row_from_dense model ds) as [r|] eqn:Er; [|done].
    apply row_from_dense_ok in Er as [_ Ha]; [|done]. apply mapR_ok in E. apply list_elem_of_In, list_elem_of_lookup in Hf as [i Hi].
    destruct (Forall2_lookup_l _ _ _ _ _ E Hi) as (d & Hdi & Hfd). unfold field_reads. rewrite Hfd.
    pose proof (Forall2_lookup_lr _ _ _ _ _ _ Ha Hi Hdi) as Hok. unfold field_accepts in Hok. by rewrite Hok.
  - intros H. assert (K : exists ds, mapR (fun f => field_datum (fd_ty f) (doc_get (physical_name mapping f) document)) (md_fields model) = Ok ds /\ Forall2 field_accepts (md_fields model) ds).
    { clear Hd. induction (md_fields model) as [|f fields IH]; [exists []; by split|]. destruct IH as (ds & E & Ha); [intros g Hg; apply H; by right|].
      specialize (H f (or_introl eq_refl)). unfold field_reads in H. destruct (field_datum _ _) as [d|] eqn:Ed; [|done].
      exists (d :: ds). cbn [mapR]. rewrite Ed. cbn [rbind]. rewrite E. split; [done|]. constructor; [|done]. unfold field_accepts.
      by destruct (validate_datum (fd_ty f) (fd_presence f) d) as [[]|]. }
    destruct K as (ds & -> & Ha). cbn [rbind]. by rewrite (proj2 (row_from_dense_ok model ds _ Hd) (conj eq_refl Ha)).
Qed.

(** C32: the preflight is exact: over any documents it succeeds, and for a model
    of booleans, truth values, signed integers, floats, characters and strings
    it finds nothing exactly when the codec reads a valid row of the model
    from every document, so no plan can hide a document that does not fit. *)
Theorem mongodb_preflight_exact catalog model mapping stage relation documents : dense model ->
  mongodb_collection catalog model = Ok mapping -> compile_source catalog model stage = Ok relation ->
  forallb (fun f => exact_type (fd_ty f)) (md_fields model) = true ->
  exists offenders, mg_run documents (rel_validation_pipeline relation) = Some offenders /\
    (offenders = [] <-> Forall (fun document => is_ok (document_row mapping model document) = true) documents).
Proof.
  intros Hdense Hm (mapping' & Hm' & (sfs & Hf%mapR_ok & [= <-])%rbind_ok)%rbind_ok He. rewrite Hm in Hm'. injection Hm' as <-.
  rewrite enumerate_number in Hf. pose proof (source_valid_ok _ _ _ _ _ Hf) as Hvalid. rewrite forallb_forall in He. cbn [rel_validation_pipeline].
  assert (Hall : forall document, mg_eval document (mg_and (map sf_valid sfs)) = boolean (is_ok (document_row mapping model document))).
  { intros document. rewrite document_row_reads by done. rewrite (eval_and document _ (map (fun f => field_reads f (doc_get (physical_name mapping f) document)) (md_fields model))).
    - f_equal. f_equal. f_equal. clear. induction (md_fields model) as [|f l IH]; [done|]. cbn. by rewrite IH.
    - apply fields_valid_eval; [exact Hvalid|]. apply Forall_forall. intros f Hin. split; [by apply He, list_elem_of_In|].
      by apply (mapped_plain catalog model mapping f Hm). }
  cbn [mg_run]. rewrite (mg_match documents _ (fun d => negb (is_ok (document_row mapping model d)))) by (intros d _; apply mg_negation, Hall).
  cbn [mbind option_bind]. set (refused := List.filter _ documents). rewrite mg_limit by lia. cbn [mbind option_bind].
  destruct (mg_identities (take (Z.to_nat 1) refused)) as (l & -> & Hlen). exists l. split; [done|].
  assert (E : l = [] <-> refused = []).
  { rewrite length_take in Hlen. split; [intros ->; destruct refused; [done|cbn in Hlen; lia]|]. intros Er. rewrite Er in Hlen. by destruct l. }
  rewrite E. clear. subst refused. induction documents as [|d documents IH]; [done|]. cbn [List.filter]. destruct (is_ok _) eqn:Ed; cbn [negb].
  - rewrite IH. by split; [intros H; constructor|intros [_ H]%Forall_cons].
  - split; [done|]. intros [H _]%Forall_cons. congruence.
Qed.
End Preflight.

(** ** The stream *)
Section Streams.
Context {F : Foreign} {FL : ForeignLaws F} {Q : Subqueries} {W : WireForeign F} {WL : WireForeignLaws W} {M : MongoForeign F}.

Lemma fits_enforced options row : row_fits (eo_limits options) row -> enforce_single_row_byte_limit (eo_limits options) (execution_row_bytes row) = Ok tt.
Proof. intros H. apply guard_ok. by rewrite fits_not_over. Qed.

Definition held (s : MongodbStream) : list ExecutionRow := match mg_pending s with Some row => [row] | None => [] end.

(** The rows that a stream still has to give: the row it holds back and the
    rows of the documents before the cursor. *)
Definition pending_rows (s : MongodbStream) (rest : list ExecutionRow) : Prop :=
  exists l, default [] (mg_cursor s) = map Some l /\ Forall2 (fun document row => row_decode (mg_decoder s) (mg_compiled s) document = Ok row) l rest /\
    Forall (row_fits (eo_limits (mg_options s))) rest.

Definition same_stream (s s' : MongodbStream) : Prop :=
  mg_compiled s' = mg_compiled s /\ mg_decoder s' = mg_decoder s /\ mg_options s' = mg_options s /\ mg_cancelled s' = mg_cancelled s.

Lemma pull_cursor_ok room : forall rows bytes s rest, mg_pending s = None -> pending_rows s rest ->
  exists added s' rest', pull_cursor room rows bytes s = (Ok (rows ++ added), s') /\ same_stream s s' /\ pending_rows s' rest' /\
    Forall (row_fits (eo_limits (mg_options s))) (held s') /\ added ++ held s' ++ rest' = rest /\
    (room <> O -> rows = [] -> added = [] -> held s' ++ rest' = []).
Proof.
  induction room as [|room IH]; intros rows bytes s rest Hp Hrest.
  { exists [], s, rest. cbn [pull_cursor]. unfold held. rewrite Hp, app_nil_r. done. }
  pose proof Hrest as (l & Hl & H2 & Hfit). cbn [pull_cursor]. destruct (mg_cursor s) as [cursor|] eqn:Ec; cbn [from_option id] in Hl.
  2: { destruct l; [|done]. apply Forall2_nil_inv_l in H2 as ->. exists [], s, []. unfold held. rewrite Hp, app_nil_r. done. }
  subst cursor. destruct l as [|document l]; cbn [map].
  { apply Forall2_nil_inv_l in H2 as ->. exists [], (set_cursor s None), []. unfold held. cbn [set_cursor mg_pending]. rewrite Hp, app_nil_r.
    split_and!; try done. by exists []. }
  apply Forall2_cons_inv_l in H2 as (row & rest' & Hrow & H2 & ->). apply Forall_cons in Hfit as [Hf Hfit].
  set (s1 := set_cursor s (Some (map Some l))).
  assert (Er : row_decode (mg_decoder s1) (mg_compiled s1) document = Ok row) by exact Hrow. rewrite Er. cbn [rbind].
  rewrite (fits_enforced (mg_options s1) row Hf). cbn [rbind].
  assert (Hs1 : pending_rows s1 rest') by (exists l; by split_and!).
  destruct (match rows with [] => false | _ => true end && over_byte_limit (eo_limits (mg_options s1)) (sat_add bytes (execution_row_bytes row))) eqn:Eo.
  - exists [], (set_mg_pending s1 (Some row)), rest'. rewrite app_nil_r. split_and!; try done; [by constructor|]. intros _ -> _. done.
  - destruct (IH (rows ++ [row]) (sat_add bytes (execution_row_bytes row)) s1 rest' Hp Hs1) as (added & s' & rest'' & E & Hsame & Hr & Hh & Ea & _).
    exists (row :: added), s', rest''. rewrite E, <- app_assoc. split_and!; try done. cbn [app]. by rewrite Ea.
Qed.

(** A stream that can be pulled. *)
Definition ready (s : MongodbStream) (rest : list ExecutionRow) : Prop :=
  mg_cancelled s = false /\ is_ok (materialized_row_target (mg_options s)) = true /\ pending_rows s rest /\ Forall (row_fits (eo_limits (mg_options s))) (held s).

Lemma next_batch_ok s rest : ready s rest -> exists added s' rest',
  mongodb_next_batch s = (match added with [] => Ok None | _ => Ok (Some (mkExecutionBatch (ca_output (mg_compiled s)) added)) end, s') /\
  ready s' rest' /\ added ++ held s' ++ rest' = held s ++ rest /\ (added = [] -> held s ++ rest = []).
Proof.
  intros (Hc & Ht & Hrest & Hheld). unfold mongodb_next_batch. rewrite Hc. destruct (materialized_row_target (mg_options s)) as [target|] eqn:Et; [|done].
  assert (Htarget : target <> O).
  { unfold materialized_row_target in Et. apply check_then in Et as [Et%guard_ok [= <-]]. by apply negb_true_iff, Nat.eqb_neq in Et. }
  assert (E0 : (match mg_pending s with
               | Some row => enforce_single_row_byte_limit (eo_limits (mg_options s)) (execution_row_bytes row) ;;? Ok [row]
               | None => Ok []
               end) = Ok (held s)).
  { unfold held in *. destruct (mg_pending s) as [row|]; [|done]. apply Forall_cons in Hheld as [Hf _]. by rewrite (fits_enforced _ _ Hf). }
  rewrite E0. set (bytes := match held s with row :: _ => execution_row_bytes row | [] => 0 end).
  destruct (pull_cursor_ok (target - length (held s)) (held s) bytes (set_mg_pending s None) rest eq_refl Hrest) as (added & s' & rest' & E & Hsame & Hr & Hh & Ea & Hend).
  rewrite E. destruct Hsame as (H1 & H2 & H3 & H4). cbn [set_mg_pending mg_compiled mg_decoder mg_options mg_cancelled] in H1, H2, H3, H4.
  exists (held s ++ added), s', rest'. split_and!.
  - destruct (held s ++ added) as [|r rs]; [done|]. by rewrite H1.
  - split_and!; [by rewrite H4|by rewrite H3, Et|done|by rewrite H3].
  - by rewrite <- app_assoc, Ea.
  - intros [Hn ->]%app_nil. rewrite Hn in *. cbn [app length] in *. rewrite <- Ea. apply Hend; [lia|done|done].
Qed.

Lemma cursor_pulls n : forall s rest, (length (held s ++ rest) <= n)%nat -> ready s rest -> exists batches, pulls s batches /\ concat batches = held s ++ rest.
Proof.
  induction n as [|n IH]; intros s rest Hn R; destruct (next_batch_ok s rest R) as (added & s' & rest' & E & R' & Ea & Hend); destruct added as [|r added].
  1, 3: exists []; rewrite (Hend eq_refl); (split; [by apply (pulls_end s s')|done]).
  - rewrite <- Ea in Hn. cbn in Hn. lia.
  - destruct (IH s' rest') as (batches & Hp & Hcat); [rewrite <- Ea in Hn; cbn in Hn; rewrite length_app in Hn; lia|done|].
    exists ((r :: added) :: batches). split; [exact (pulls_batch s _ s' batches E Hp)|]. cbn [concat]. by rewrite Hcat.
Qed.
End Streams.

#[export] Instance mongodb_stream_laws {F : Foreign} {W : WireForeign F} {M : MongoForeign F} : DataStreamLaws MongodbStream.
Proof. split. intros s. by apply (pulls_end (mongodb_cancel s) (mongodb_cancel s)). Qed.

(** ** The engine *)
Section Engine.
Context {F : Foreign} {FL : ForeignLaws F} {Q : Subqueries} {W : WireForeign F} {WL : WireForeignLaws W} {M : MongoForeign F} {G : Mongo} {L : MongoLaws G} {D : MongoDriver}.
Context (collections : string -> string -> list Document).

(** A cursor that the driver hands out gives the documents that the server
    computes, and no pull of it fails. *)
Definition serves : Prop := forall t database collection pipeline cursor, mg_aggregate t database collection pipeline = Some cursor ->
  exists l, mg_run (collections database collection) pipeline = Some l /\ cursor = map Some l.

Lemma open_ok t runtime compiled options s : mongodb_open t runtime compiled options = Ok s ->
  is_ok (materialized_row_target options) = true /\
  mg_aggregate (t + 1) (ca_database compiled) (ca_collection compiled) (ca_validation_pipeline compiled) = Some [] /\
  exists cursor, mg_aggregate (t + 2) (ca_database compiled) (ca_collection compiled) (ca_pipeline compiled) = Some cursor /\
    s = mkMongodbStream (Some cursor) compiled (row_decoder_new compiled) options None false.
Proof.
  intros [_ (validation & Hv%ok_or_ok & [Hc H]%check_then)%rbind_ok]%check_then. apply rbind_ok in H as (n & Hb & (cursor & Ha%ok_or_ok & [= <-])%rbind_ok).
  apply rbind_ok in Hb as (target & Ht & _). rewrite Ht. split; [done|]. split; [by destruct validation as [|[]]|eauto].
Qed.

(** C7: MongoDB streams compute what the memory executor computes: over a
    server with the laws, whose collections store the tables in their order,
    when the engine opens a stream for a typed plan of sources, filters,
    projections and slices with positive limits, and the memory executor
    returns rows for the plan, then pulling the stream to its end returns the
    same rows in the same order, whatever batches they come in. *)
Theorem mongodb_refines_memory t e plan parameters options s tables batch_rows stream :
  serves -> mongodb_execute_plan t e plan parameters options = Ok s ->
  plan_typed plan -> Forall (source_stored collections (mge_catalog e) tables) (plan_nodes plan) ->
  forallb servable_slice (plan_nodes plan) = true -> forallb (rust_operands parameters) (plan_nodes plan) = true ->
  (forall max, max_materialized_bytes (eo_limits options) = Some max -> max < u64_max) ->
  execute tables plan parameters (eo_limits options) batch_rows = Ok stream ->
  exists batches, pulls s batches /\ concat batches = ms_rows stream.
Proof.
  intros Hserve He Ht Hst Hs Ho Hmax Hx. unfold mongodb_execute_plan in He. apply rbind_ok in He as (runtime & _ & He). apply check_then in He as [_ He].
  apply rbind_ok in He as (placement & _ & He). apply check_then in He as [_ (compiled & Hc & Hopen%open_ok)%rbind_ok].
  destruct Hopen as (Htarget & _ & cursor & Ha & ->). apply Hserve in Ha as (l & Hl & ->).
  destruct (pipeline_rows collections _ _ _ _ _ _ _ _ Ht Hst Hs Ho Hc Hx) as (l' & Hl' & Hd). rewrite Hl in Hl'. injection Hl' as <-.
  pose proof (executed_rows_fit _ _ _ _ _ _ Hx Hmax) as Hfit.
  refine (cursor_pulls (length (ms_rows stream)) _ (ms_rows stream) _ _); [done|]. split_and!; [done..| |constructor]. by exists l.
Qed.
End Engine.

(** ** A filter, a slice and a projection of the sample model *)
#[local] Existing Instances sample_foreign sample_wire_foreign FragmentMongo.fragment_foreign FragmentMongo.fragment_mongo FragmentMongo.fragment_mongo_laws.

Module MongoSample.

Definition int64 : TypeDef := scalar "dol/int64" 1 (RInt 64).
Definition id_field : ExprNode (F:=sample_foreign) := mkExpr (EField (mkFieldRef "user" "id" "id" None)) int64.
Definition mail : ExprNode (F:=sample_foreign) := mkExpr (EField (mkFieldRef "user" "email" "mail" None)) (nullable string_type).

(** [id = wanted and not (mail is null)], then the second row, then the pair
    of both fields. *)
Definition condition : ExpressionSpec (F:=sample_foreign) :=
  mkExpressionSpec
    (and_node (mkExpr (EBinary OpEq id_field (mkExpr (EParameter "wanted") int64)) truth_type)
       (mkExpr (EUnary Not (mkExpr (EUnary IsNull mail) truth_type)) truth_type)) truth_type.
Definition both : ProjectionSpec := projection_tuple [mkExpressionSpec id_field int64; mkExpressionSpec mail (nullable string_type)].

Definition pool : list (PipelineNode (F:=sample_foreign)) :=
  snd (pipeline_select (snd (pipeline_slice (snd (pipeline_filter (snd (from_model [] (Ok sample_model))) 0 condition)) 1 1 1)) 2 both).
Definition plan : LogicalPlan :=
  match compile (kinds pool) 3 default_pipeline_limits with Ok p => p | Err _ => mkLogicalPlan [] 0 (OutModel sample_model) [] end.

Definition email_row (email : Datum) (id : Z) : DynRow (F:=sample_foreign) := mkDynRow sample_model [email; DValue (VInt id)].
Definition rows : list DynRow := [email_row Missing 8; email_row (DValue (VString "a")) 7; email_row Null 7; email_row (DValue (VString "b")) 7].
Definition tables : Tables := [("user"%stdpp, mkMemoryTable sample_model rows)].
Definition wanted : Parameters := parameters_insert parameters_new "wanted" int64 (DValue (VInt 7)).
Definition options : ExecutionOptions := mkExecutionOptions (mkExecutionLimits (Some 10) None 16 64 1) RemoteOnly 8.

Definition mapping : CollectionMapping := collection_field (collection_field (collection_new "app" "users") "id" "_key") "email" "mail".
Definition catalog : MongodbCatalog := match mongodb_register [] sample_model mapping with Ok c => c | Err _ => [] end.
Definition engine : MongodbEngine := mongodb_with_runtime "1" catalog (runtime_config_new "mongodb://localhost").

(** The documents of the rows; identifiers are stored in either width. *)
Definition documents : list Document :=
  [[("_key", BInt32 8)]; [("mail", BString "a"); ("_key", BInt64 7)]; [("_key", BInt32 7); ("mail", BNull)]; [("_key", BInt64 7); ("mail", BString "b")]]%stdpp.
Definition collections (database collection : string) : list Document :=
  if String.eqb database "app" && String.eqb collection "users" then documents else [].

#[global] Instance driver : MongoDriver := {|
  mg_client := fun _ _ => true;
  mg_aggregate := fun _ database collection pipeline => (fun l => map Some l) <$> mg_run (collections database collection) pipeline
|}.

Lemma driver_serves : serves collections.
Proof.
  intros t database collection pipeline cursor H. change ((fun l => map Some l) <$> mg_run (collections database collection) pipeline = Some cursor) in H.
  destruct (mg_run _ pipeline) as [l|]; [|done]. exists l. split; [done|]. by injection H as <-.
Qed.

Definition open : Result MongodbStream := mongodb_execute_plan 0 engine plan wanted options.
Lemma opens : is_ok open = true.
Proof. vm_compute. reflexivity. Qed.

Lemma plan_executes : rmap (fun s => length (ms_rows s)) (execute tables plan wanted (eo_limits options) 8) = Ok 1%nat.
Proof. vm_compute. reflexivity. Qed.

Lemma sample_plan_typed : plan_typed plan.
Proof.
  assert (H : is_ok (compile (kinds pool) 3 default_pipeline_limits) = true) by (vm_compute; reflexivity). unfold plan.
  destruct (compile (kinds pool) 3 default_pipeline_limits) as [p|] eqn:E; [|done]. by apply compile_nodes_typed in E as [E _].
Qed.

(** What a document holds for a datum. *)
Definition holds_datum (document : Document) (field : string) (d : Datum) : Prop :=
  match d with
  | Missing => doc_get field document = None
  | Null => doc_get field document = Some BNull
  | DValue v => rust_scalar v = true /\ exists b, doc_get field document = Some b /\ stored_as b v
  end.

Lemma document_stored email id document : row_from_dense sample_model [email; DValue (VInt id)] = Ok (email_row email id) ->
  holds_datum document "mail" email -> holds_datum document "_key" (DValue (VInt id)) -> stored_row mapping sample_model document (email_row email id).
Proof.
  intros Hd He Hi. split; [|exact Hd]. let l := eval vm_compute in (md_fields sample_model) in change (md_fields sample_model) with l.
  constructor; [|constructor; [|constructor]]; intros physical Hp; vm_compute in Hp; injection Hp as <-; [exact He|exact Hi].
Qed.

Lemma documents_stored : Forall2 (stored_row mapping sample_model) documents rows.
Proof.
  constructor; [|constructor; [|constructor; [|constructor; [|constructor]]]]; (apply document_stored; [reflexivity|..]).
  - reflexivity.
  - split; [done|]. by eexists.
  - split; [done|]. by eexists.
  - split; [done|]. by eexists.
  - reflexivity.
  - split; [done|]. by eexists.
  - split; [done|]. by eexists.
  - split; [done|]. by eexists.
Qed.

Lemma collections_stored : Forall (source_stored collections catalog tables) (plan_nodes plan).
Proof.
  assert (H : omap (fun n => match n with NSource m _ => Some m | _ => None end) (plan_nodes plan) = [sample_model]) by (vm_compute; reflexivity).
  apply Forall_forall. intros n Hn. destruct n; [|exact I..]. assert (m = sample_model) as ->.
  { apply list_elem_of_singleton. rewrite <- H. apply list_elem_of_omap. exists (NSource m alias). split; [exact Hn|reflexivity]. }
  split; [intros [|[|i]] f Hf; [by injection Hf as <-..|done]|]. intros m table Hm Ht.
  assert (E : mongodb_collection catalog sample_model = Ok mapping) by (vm_compute; reflexivity). rewrite E in Hm. injection Hm as <-.
  assert (Et : bt_get (md_key sample_model) tables = Some (mkMemoryTable sample_model rows)) by reflexivity. rewrite Et in Ht. injection Ht as <-.
  exact documents_stored.
Qed.
End MongoSample.

Lemma mongodb_refines_memory_witness :
  exists s stream batches, MongoSample.open = Ok s /\
    execute MongoSample.tables MongoSample.plan MongoSample.wanted (eo_limits MongoSample.options) 8 = Ok stream /\ length (ms_rows stream) = 1%nat /\
    pulls s batches /\ concat batches = ms_rows stream.
Proof.
  pose proof MongoSample.opens as O. destruct MongoSample.open as [s|] eqn:Es; [|discriminate O].
  pose proof MongoSample.plan_executes as X.
  destruct (execute MongoSample.tables MongoSample.plan MongoSample.wanted (eo_limits MongoSample.options) 8) as [stream|] eqn:Ex; [|discriminate X].
  destruct (mongodb_refines_memory MongoSample.collections 0 MongoSample.engine MongoSample.plan MongoSample.wanted MongoSample.options s
    MongoSample.tables 8 stream MongoSample.driver_serves Es MongoSample.sample_plan_typed MongoSample.collections_stored eq_refl) as (batches & Hp & Hc).
  - vm_compute. reflexivity.
  - intros max E. discriminate E.
  - exact Ex.
  - exists s, stream, batches. split_and!; [done..| |done|done]. by injection X.
Defined.

Lemma mongodb_preflight_exact_witness :
  exists relation offenders, compile_source MongoSample.catalog sample_model 0 = Ok relation /\
    mg_run (MongoSample.documents ++ [[("mail", BInt32 1); ("_key", BInt32 9)]%stdpp]) (rel_validation_pipeline relation) = Some offenders /\
    (offenders = [] <-> Forall (fun document => is_ok (document_row MongoSample.mapping sample_model document) = true)
       (MongoSample.documents ++ [[("mail", BInt32 1); ("_key", BInt32 9)]%stdpp])).
Proof.
  assert (H : is_ok (compile_source MongoSample.catalog sample_model 0) = true) by (vm_compute; reflexivity).
  destruct (compile_source MongoSample.catalog sample_model 0) as [relation|] eqn:E; [|discriminate H].
  destruct (mongodb_preflight_exact MongoSample.catalog sample_model MongoSample.mapping 0 relation
    (MongoSample.documents ++ [[("mail", BInt32 1); ("_key", BInt32 9)]%stdpp])) as (offenders & Ho & Hi).
  - intros [|[|i]] f Hf; [by injection Hf as <-..|done].
  - vm_compute. reflexivity.
  - exact E.
  - vm_compute. reflexivity.
  - exists relation, offenders. split; [reflexivity|]. split; [exact Ho|exact Hi].
Defined.

Example preflight_finds_the_offender :
  (let? relation := compile_source MongoSample.catalog sample_model 0 in
   let found documents := match mg_run documents (rel_validation_pipeline relation) with Some l => Some (length l) | None => None end in
   Ok (found MongoSample.documents, found (MongoSample.documents ++ [[("mail", BInt32 1); ("_key", BInt32 9)]%stdpp]))) = Ok (Some 0%nat, Some 1%nat).
Proof. vm_compute. reflexivity. Qed.

(** ** Where support and preflight promise more

    The preflight of an unsigned integer tests the range of a decimal and not
    that it is whole, so 1.5 passes and is refused only when it is decoded. *)
Definition uint32 : TypeDef := scalar "dol/uint32" 1 (RUInt 32).
Definition fraction : Document := [("n"%stdpp, BDecimal128 (M:=FragmentMongo.fragment_foreign) (15, -1))].

Example fraction_passes_the_preflight :
  (let? valid := source_value_valid uint32 (field_path "n") in Ok (FragmentMongo.as_bool (mg_eval fraction valid))) = Ok (Some true) /\
  is_ok (decode_value uint32 (BDecimal128 (M:=FragmentMongo.fragment_foreign) (15, -1))) = false.
Proof. split; vm_compute; reflexivity. Qed.

(** An order of UUIDs or bytes is supported, and refused by the compiler. *)
Definition uuid_type : TypeDef := scalar "dol/uuid" 1 RUuid.
Definition uuid_below : ExpressionSpec (F:=sample_foreign) (Q:=no_subqueries) :=
  mkExpressionSpec (mkExpr (EBinary OpLt (mkExpr (EParameter "a") uuid_type) (mkExpr (EParameter "b") uuid_type)) truth_type) truth_type.
Definition uuid_values : Parameters (F:=sample_foreign) :=
  parameters_insert (parameters_insert parameters_new "a" uuid_type (DValue (VUuid []))) "b" uuid_type (DValue (VUuid [])).
Definition no_relation : Relation := mkRelation EmptyString EmptyString [] [] [] [] (OutValue truth_type).

Example uuid_order_is_supported_and_refused :
  (let? e := prepare_expression uuid_below (mkBindContext [] [] []) default_expression_limits in
   Ok (supports_node [] (NFilter 0 e), match compile_expr uuid_values e no_relation with Err d => String.eqb (code d) "MONGODB-COMPILE-012" | Ok _ => false end)) =
  Ok (true, true).
Proof. vm_compute. reflexivity. Qed.

(** A slice of no rows is supported, and fails at the server. *)
Example empty_slice_is_supported_and_fails :
  supports_node [] (NSlice 0 0 (Some 0)) = true /\
  (let? r := compile_slice no_relation 0 (Some 0) in Ok (match mg_run MongoSample.documents (rel_pipeline r) with Some _ => true | None => false end)) = Ok false.
Proof. split; vm_compute; reflexivity. Qed.
