(* ===== verification/MlVector.v ===== *)
(** * Vectors and their search ([crates/dol-ml/src/limits], [vector], [capability])

    Finite dense vectors with their metrics, exhaustive search with its
    ranking, and where a search may run. *)
From Stdlib Require Import ZArith Lia SpecFloat.
From stdpp Require Import list.
From S2P Require Import Prelude Floats Text BTree Placement.

Local Open Scope Z_scope.

(** ** Limits ([limits/mod.rs]) *)
Definition require_non_zero (value : nat) : Result nat := guard (negb (Nat.eqb value 0)) "ML-LIMIT-001" ;;? Ok value.

Record VectorLimits := mkVectorLimits { max_dimensions : nat }.
Definition vector_limits_new (max_dimensions : nat) : Result VectorLimits :=
  let? n := require_non_zero max_dimensions in Ok (mkVectorLimits n).
Definition default_vector_limits : VectorLimits := mkVectorLimits (Z.to_nat 16384).

Record SearchLimits := mkSearchLimits { max_candidates : nat; max_results : nat }.
Definition search_limits_new (max_candidates max_results : nat) : Result SearchLimits :=
  let? candidates := require_non_zero max_candidates in
  let? results := require_non_zero max_results in
  Ok (mkSearchLimits candidates results).
Definition default_search_limits : SearchLimits := mkSearchLimits (Z.to_nat 1000000) (Z.to_nat 10000).

(** ** Vectors ([vector/mod.rs]) *)
Record VectorDefinition := mkVectorDefinition { vd_dimensions : nat }.

Definition vector_definition_new (dimensions : nat) (limits : VectorLimits) : Result VectorDefinition :=
  guard (negb (Nat.eqb dimensions 0)) "ML-VECTOR-001" ;;?
  guard (negb (max_dimensions limits <? dimensions)%nat) "ML-VECTOR-002" ;;?
  Ok (mkVectorDefinition dimensions).

Definition definition_eqb (a b : VectorDefinition) : bool := Nat.eqb (vd_dimensions a) (vd_dimensions b).

(** [is_finite] *)
Definition is_finite (fmt : FloatFormat) (b : Z) : bool := float_magnitude fmt b <? float_inf fmt.

(** The values are the bits of [f32]s. *)
Record Vector := mkVector { v_definition : VectorDefinition; v_values : list Z }.

Definition vector_with_limits (values : list Z) (limits : VectorLimits) : Result Vector :=
  let? definition := vector_definition_new (length values) limits in
  guard (negb (existsb (fun value => negb (is_finite binary32 value)) values)) "ML-VECTOR-003" ;;?
  Ok (mkVector definition values).

Definition vector_new (values : list Z) : Result Vector := vector_with_limits values default_vector_limits.
Definition dimensions (v : Vector) : nat := vd_dimensions (v_definition v).

(** [StaticVector], whose dimension is the length of its array. *)
Record StaticVector := mkStaticVector { sv_values : list Z }.
Definition static_vector_new (values : list Z) : Result StaticVector :=
  vector_definition_new (length values) default_vector_limits ;;?
  guard (negb (existsb (fun value => negb (is_finite binary32 value)) values)) "ML-VECTOR-003" ;;?
  Ok (mkStaticVector values).
Definition to_vector (v : StaticVector) : Result Vector := vector_new (sv_values v).

(** ** Metrics *)
Inductive Distance := Euclidean | Cosine | InnerProduct.
#[export] Instance Distance_eq_dec : EqDecision Distance.
Proof. solve_decision. Defined.

Inductive MetricPreference := Minimize | Maximize.
Definition preference (d : Distance) : MetricPreference := match d with Euclidean | Cosine => Minimize | InnerProduct => Maximize end.

(** Arithmetic of [f64]; a NaN result, which finite vectors do not give, is
    the quiet one. *)
Notation f64_add := (float_add binary64 (quiet_nan binary64)).
Notation f64_sub := (float_sub binary64 (quiet_nan binary64)).
Notation f64_mul := (float_mul binary64 (quiet_nan binary64)).
Notation f64_div := (float_div binary64 (quiet_nan binary64)).
Definition f64_sqrt (b : Z) : Z := of_spec binary64 (quiet_nan binary64) (SFsqrt (prec binary64) (emax binary64) (to_spec binary64 b)).
Definition f64_from (b : Z) : Z := f64_of_f32 (quiet_nan binary64) b.
Definition f64_one : Z := 0x3ff0000000000000.

(** [f64::clamp] *)
Definition f64_clamp (value low high : Z) : Z :=
  let below := match float_partial_cmp binary64 value low with Some Lt => true | _ => false end in
  let value := if below then low else value in
  match float_partial_cmp binary64 value high with Some Gt => high | _ => value end.

Definition require_same_definition (l r : Vector) : Result unit := guard (definition_eqb (v_definition l) (v_definition r)) "ML-VECTOR-006".

Definition dot_and_norms (l r : Vector) : Z * Z * Z :=
  fold_left (fun acc pair =>
    let '(dot, left_norm, right_norm) := acc in
    let l := f64_from (fst pair) in
    let r := f64_from (snd pair) in
    (f64_add dot (f64_mul l r), f64_add left_norm (f64_mul l l), f64_add right_norm (f64_mul r r)))
    (combine (v_values l) (v_values r)) (0, 0, 0).

(** The sum of squares starts at a zero; of which sign makes no difference,
    since vectors are not empty. *)
Definition metric_value (v other : Vector) (metric : Distance) : Result Z :=
  require_same_definition v other ;;?
  match metric with
  | Euclidean =>
      Ok (f64_sqrt (fold_left f64_add
        (map (fun pair => let difference := f64_sub (f64_from (fst pair)) (f64_from (snd pair)) in f64_mul difference difference)
           (combine (v_values v) (v_values other))) 0))
  | Cosine =>
      let '(dot, left_norm, right_norm) := dot_and_norms v other in
      guard (negb (float_eqb binary64 left_norm 0 || float_eqb binary64 right_norm 0)) "ML-VECTOR-004" ;;?
      let similarity := f64_clamp (f64_div dot (f64_mul (f64_sqrt left_norm) (f64_sqrt right_norm))) (float_neg binary64 f64_one) f64_one in
      Ok (f64_sub f64_one similarity)
  | InnerProduct => let '(dot, _, _) := dot_and_norms v other in Ok dot
  end.

(** ** Search *)
Definition VectorId := string.
Definition vector_id_new (value : string) : Result VectorId :=
  guard (negb (is_empty_str value || (1024 <? zstrlen value))) "ML-VECTOR-005" ;;? Ok value.

Record VectorCandidate := mkVectorCandidate { vc_id : VectorId; vc_vector : Vector }.

Definition validate_result_limit (limit : nat) (limits : SearchLimits) : Result unit :=
  guard (negb (Nat.eqb limit 0 || (max_results limits <? limit)%nat)) "ML-SEARCH-001".

Record ExactSearchRequest := mkExactSearchRequest { es_query : Vector; es_metric : Distance; es_limit : nat }.
Definition exact_request_new (query : Vector) (metric : Distance) (limit : nat) (limits : SearchLimits) : Result ExactSearchRequest :=
  validate_result_limit limit limits ;;? Ok (mkExactSearchRequest query metric limit).

Record ApproximationTarget := mkApproximationTarget { minimum_recall_basis_points : Z; probe_budget : nat }.
Definition approximation_target_new (recall : Z) (probes : nat) : Result ApproximationTarget :=
  guard (negb (negb ((1 <=? recall) && (recall <=? 10000)) || Nat.eqb probes 0)) "ML-SEARCH-002" ;;?
  Ok (mkApproximationTarget recall probes).

Record ApproximateSearchRequest := mkApproximateSearchRequest {
  as_query : Vector; as_metric : Distance; as_limit : nat; as_target : ApproximationTarget
}.
Definition approximate_request_new (query : Vector) (metric : Distance) (limit : nat) (target : ApproximationTarget) (limits : SearchLimits)
  : Result ApproximateSearchRequest :=
  validate_result_limit limit limits ;;?
  guard (negb (max_candidates limits <? probe_budget target)%nat) "ML-SEARCH-003" ;;?
  Ok (mkApproximateSearchRequest query metric limit target).

Inductive VectorSearchRequest := ExactRequest (r : ExactSearchRequest) | ApproximateRequest (r : ApproximateSearchRequest).

Record SearchMatch := mkSearchMatch { sm_id : VectorId; sm_metric_value : Z }.

Definition rank_cmp (p : MetricPreference) (l r : SearchMatch) : comparison :=
  let metric := match p with
                | Minimize => float_total_cmp binary64 (sm_metric_value l) (sm_metric_value r)
                | Maximize => float_total_cmp binary64 (sm_metric_value r) (sm_metric_value l)
                end in
  match metric with Eq => String.compare (sm_id l) (sm_id r) | c => c end.

Definition scan_candidate (request : ExactSearchRequest) (limits : SearchLimits) (matches : list SearchMatch) (candidate : VectorCandidate)
  : Result (list SearchMatch) :=
  guard (negb (max_candidates limits <=? length matches)%nat) "ML-SEARCH-004" ;;?
  let? value := metric_value (es_query request) (vc_vector candidate) (es_metric request) in
  Ok (matches ++ [mkSearchMatch (vc_id candidate) value]).

Definition exact_search (request : ExactSearchRequest) (candidates : list VectorCandidate) (limits : SearchLimits) : Result (list SearchMatch) :=
  validate_result_limit (es_limit request) limits ;;?
  let? matches := foldR (scan_candidate request limits) candidates [] in
  Ok (take (es_limit request) (sort_by (rank_cmp (preference (es_metric request))) matches)).

(** ** Capabilities ([capability/mod.rs]) *)
Record MlCapabilities := mkMlCapabilities {
  mc_exact : Support;
  mc_approximate : Support;
  mc_embedding : Support;
  mc_inference : Support;
  mc_max_vector_dimensions : nat;
  mc_vector_metrics : list Distance
}.

Definition ml_capabilities_none : MlCapabilities :=
  let unsupported := Unsupported "ML operation is not implemented" in
  mkMlCapabilities unsupported unsupported unsupported unsupported 0 [].

Definition metric_rank (d : Distance) : Z := match d with Euclidean => 0 | Cosine => 1 | InnerProduct => 2 end.
Definition metric_cmp (a b : Distance) : comparison := metric_rank a ?= metric_rank b.

(** [Vec::dedup]: of equal neighbours the first stays. *)
Fixpoint dedup (l : list Distance) : list Distance :=
  match l with
  | a :: ((b :: _) as rest) => if bool_decide (a = b) then dedup rest else a :: dedup rest
  | _ => l
  end.

Definition with_vector_support (c : MlCapabilities) (exact approximate : Support) (max_dimensions : nat) (metrics : list Distance) : MlCapabilities :=
  mkMlCapabilities exact approximate (mc_embedding c) (mc_inference c) max_dimensions (dedup (sort_by metric_cmp metrics)).

Inductive MlOperation :=
| ExactVectorSearch (dimensions : nat) (metric : Distance)
| ApproximateVectorSearch (dimensions : nat) (metric : Distance)
| EmbeddingOperation
| InferenceOperation.

Definition vector_support (c : MlCapabilities) (dimensions : nat) (metric : Distance) (approximate : bool) : Support :=
  let base := if approximate then mc_approximate c else mc_exact c in
  if negb (is_supported base) then base
  else if Nat.eqb dimensions 0 || (mc_max_vector_dimensions c <? dimensions)%nat then Unsupported "vector dimension is outside the capability contract"
  else if negb (existsb (fun m => bool_decide (m = metric)) (mc_vector_metrics c)) then Unsupported "vector metric is outside the capability contract"
  else base.

Definition support_for (c : MlCapabilities) (operation : MlOperation) : Support :=
  match operation with
  | ExactVectorSearch dimensions metric => vector_support c dimensions metric false
  | ApproximateVectorSearch dimensions metric => vector_support c dimensions metric true
  | EmbeddingOperation => mc_embedding c
  | InferenceOperation => mc_inference c
  end.

Inductive MlPlacement := MlEngine | MlLocalExact.

Definition analyze_ml_placement (operation : MlOperation) (c : MlCapabilities) (policy : PlacementPolicy) : Result MlPlacement :=
  if is_supported (support_for c operation) then Ok MlEngine
  else
    match policy with
    | RemoteOnly => error "ML-PLACEMENT-001"
    | Hybrid transfer =>
        map_err (transfer_validate transfer) "ML-PLACEMENT-002" ;;?
        match operation with ExactVectorSearch _ _ => Ok MlLocalExact | _ => error "ML-PLACEMENT-003" end
    end.

(** ** Where an operation runs *)
Lemma dedup_metrics_elem l m : m ∈ dedup l <-> m ∈ l.
Proof.
  induction l as [|a [|b l] IH]; [done..|]. change (dedup (a :: b :: l)) with (if bool_decide (a = b) then dedup (b :: l) else a :: dedup (b :: l)).
  case_bool_decide as E; [subst b|]; rewrite ?(elem_of_cons (dedup _)), IH, !elem_of_cons; tauto.
Qed.

Lemma metrics_declared c exact approximate dimensions metrics m :
  m ∈ mc_vector_metrics (with_vector_support c exact approximate dimensions metrics) <-> m ∈ metrics.
Proof. cbn. by rewrite dedup_metrics_elem, sort_by_elem. Qed.

Lemma vector_supported c dimensions metric approximate : is_supported (vector_support c dimensions metric approximate) = true <->
  is_supported (if approximate then mc_approximate c else mc_exact c) = true /\ (1 <= dimensions <= mc_max_vector_dimensions c)%nat /\
  metric ∈ mc_vector_metrics c.
Proof.
  unfold vector_support. set (base := if approximate then _ else _). destruct (is_supported base) eqn:E; cbn [negb]; [|by rewrite E; split; [|intros []]].
  assert (Hm : existsb (fun m => bool_decide (m = metric)) (mc_vector_metrics c) = true <-> metric ∈ mc_vector_metrics c).
  { rewrite existsb_exists, list_elem_of_In. split; [intros (m & Hm & ->%bool_decide_eq_true)|intros H; exists metric; rewrite bool_decide_eq_true]; done. }
  rewrite <- Hm. destruct (Nat.eqb_spec dimensions 0); cbn [orb].
  { split; [done|]. intros (_ & [? _] & _). lia. }
  destruct (Nat.ltb_spec (mc_max_vector_dimensions c) dimensions).
  { split; [done|]. intros (_ & [_ ?] & _). lia. }
  destruct (existsb _ _); cbn [negb]; [|split; [done|by intros (_ & _ & ?)]]. rewrite E. split; [|done]. intros _. split; [done|]. split; [lia|done].
Qed.

(** An operation runs in the engine whenever the engine supports it; only an
    exact search falls back, and only under a valid transfer budget. *)
Lemma ml_placement_exact operation c policy placement : analyze_ml_placement operation c policy = Ok placement <->
  match placement with
  | MlEngine => is_supported (support_for c operation) = true
  | MlLocalExact => is_supported (support_for c operation) = false /\
      (exists transfer, policy = Hybrid transfer /\ transfer_validate transfer = Ok tt) /\
      (exists dimensions metric, operation = ExactVectorSearch dimensions metric)
  end.
Proof.
  unfold analyze_ml_placement. destruct (is_supported _); [destruct placement; [done|split; [done|by intros [? _]]]|].
  destruct policy as [|transfer]; [destruct placement; [done|]; split; [done|by intros (_ & (t & ? & _) & _)]|].
  rewrite check_then, map_err_ok. destruct placement.
  - split; [|done]. intros [_ H]. by destruct operation.
  - split.
    + intros [Ht H]. split; [done|]. split; [by exists transfer|]. destruct operation; [eauto|done..].
    + intros (_ & (t & [= <-] & Ht) & (d & m & ->)). done.
Qed.

(** ** The ranking *)
Definition rank_key (p : MetricPreference) (m : SearchMatch) : Z * string :=
  (match p with
   | Minimize => total_key binary64 (sm_metric_value m)
   | Maximize => - total_key binary64 (sm_metric_value m)
   end, sm_id m).

Lemma rank_cmp_key p l r : rank_cmp p l r = kcmp (rank_key p l) (rank_key p r).
Proof.
  unfold rank_cmp, float_total_cmp. change (kcmp (rank_key p l) (rank_key p r)) with (pair_cmp (rank_key p l) (rank_key p r)).
  unfold pair_cmp, rank_key. change (kcmp (K:=Z)) with Z.compare. destruct p; cbn [fst snd]; [|rewrite Z.compare_opp]; by destruct (Z.compare _ _).
Qed.

Lemma rank_laws p : CmpLaws (rank_cmp p).
Proof.
  destruct (kcmp_laws (K:=Z * string)) as [H1 H2 H3]. split; intros *; rewrite !rank_cmp_key; eauto.
Qed.

(** A candidate and its match. *)
Definition scores (request : ExactSearchRequest) (c : VectorCandidate) (m : SearchMatch) : Prop :=
  sm_id m = vc_id c /\ metric_value (es_query request) (vc_vector c) (es_metric request) = Ok (sm_metric_value m).

Lemma scan_ok request limits candidates : forall matches out, foldR (scan_candidate request limits) candidates matches = Ok out <->
  exists scored, out = matches ++ scored /\ Forall2 (scores request) candidates scored /\
    (candidates = [] \/ (length matches + length candidates <= max_candidates limits)%nat).
Proof.
  induction candidates as [|c candidates IH]; intros matches out.
  - cbn. split; [intros [= ->]; exists []; rewrite app_nil_r; split_and!; [done|done|by left]|]. intros (scored & -> & H & _). apply Forall2_nil_inv_l in H as ->. by rewrite app_nil_r.
  - change (foldR (scan_candidate request limits) (c :: candidates) matches) with (let? s := scan_candidate request limits matches c in foldR (scan_candidate request limits) candidates s).
    rewrite rbind_ok. unfold scan_candidate at 1. setoid_rewrite check_then. setoid_rewrite rbind_ok. setoid_rewrite guard_ok. split.
    + intros (s & [Hl (value & Hv & [= <-])] & (scored & -> & H2 & Hn)%IH). exists (mkSearchMatch (vc_id c) value :: scored). rewrite <- app_assoc.
      split_and!; [done|by constructor|]. right. apply negb_true_iff, Nat.leb_gt in Hl. rewrite length_app in Hn. cbn in *. destruct Hn as [-> |Hn]; cbn; lia.
    + intros (scored & -> & H2 & [?|Hn]); [done|]. apply Forall2_cons_inv_l in H2 as (m & scored' & [Hid Hv] & H2 & ->). cbn in Hn.
      exists (matches ++ [m]). split; [split; [apply negb_true_iff, Nat.leb_gt; lia|]|].
      * exists (sm_metric_value m). split; [done|]. rewrite <- Hid. by destruct m.
      * apply IH. exists scored'. rewrite <- app_assoc. split_and!; [done..|]. right. rewrite length_app. cbn. lia.
Qed.

Lemma scored_exist request candidates : Forall (fun c => is_ok (metric_value (es_query request) (vc_vector c) (es_metric request)) = true) candidates <->
  exists scored, Forall2 (scores request) candidates scored.
Proof.
  induction candidates as [|c candidates IH]; [split; [by exists []|done]|]. rewrite Forall_cons, IH. split.
  - intros [Hc (scored & H)]. destruct (metric_value _ _ _) as [value|] eqn:E; [|done]. exists (mkSearchMatch (vc_id c) value :: scored). by constructor.
  - intros (scored & H). apply Forall2_cons_inv_l in H as (m & scored' & [_ Hv] & H & ->). rewrite Hv. split; [done|by exists scored'].
Qed.

Lemma sorted_take_drop {A} (R : A -> A -> Prop) n l : StronglySorted R l ->
  StronglySorted R (take n l) /\ forall x y, x ∈ take n l -> y ∈ drop n l -> R x y.
Proof.
  intros H. revert n. induction H as [|a l H IH Ha]; intros n; [rewrite take_nil, drop_nil; split; [constructor|by intros x y Hx%elem_of_nil]|].
  destruct n as [|n]; [split; [constructor|by intros x y Hx%elem_of_nil]|]. destruct (IH n) as [Hs Hr]. cbn. rewrite Forall_forall in Ha. split.
  - constructor; [done|]. apply Forall_forall. intros x Hx. apply Ha. by eapply elem_of_take in Hx as (i & ? & _); apply list_elem_of_lookup; exists i.
  - intros x y [->|Hx]%elem_of_cons Hy; [|by apply Hr]. apply Ha. apply list_elem_of_lookup in Hy as (i & Hy). rewrite lookup_drop in Hy. apply list_elem_of_lookup. eauto.
Qed.

(** What the code's ranking gives. *)
Lemma exact_search_ranked request candidates limits :
  (is_ok (exact_search request candidates limits) = true <->
    (0 < es_limit request <= max_results limits)%nat /\ (length candidates <= max_candidates limits)%nat /\
    Forall (fun c => is_ok (metric_value (es_query request) (vc_vector c) (es_metric request)) = true) candidates) /\
  forall matches, exact_search request candidates limits = Ok matches ->
    (exists scored left_out, Forall2 (scores request) candidates scored /\ scored ≡ₚ matches ++ left_out /\
      length matches = Nat.min (es_limit request) (length candidates) /\
      StronglySorted (le_by (rank_cmp (preference (es_metric request)))) matches /\
      forall m r, m ∈ matches -> r ∈ left_out -> rank_cmp (preference (es_metric request)) m r <> Gt) /\
    (NoDup (map vc_id candidates) -> forall candidates', candidates' ≡ₚ candidates -> exact_search request candidates' limits = Ok matches).
Proof.
  set (cmp := rank_cmp (preference (es_metric request))).
  assert (Hl : validate_result_limit (es_limit request) limits = Ok tt <-> (0 < es_limit request <= max_results limits)%nat).
  { unfold validate_result_limit. rewrite guard_ok, negb_true_iff, orb_false_iff, Nat.eqb_neq, Nat.ltb_ge. lia. }
  assert (Hs : forall candidates matches, exact_search request candidates limits = Ok matches <->
    (0 < es_limit request <= max_results limits)%nat /\ (length candidates <= max_candidates limits)%nat /\
    exists scored, Forall2 (scores request) candidates scored /\ matches = take (es_limit request) (sort_by cmp scored)).
  { intros l matches. unfold exact_search. rewrite check_then, Hl, rbind_ok. split.
    - intros [H (ms & (scored & -> & H2 & Hn)%scan_ok & [= <-])]. split_and!; [lia..| |exists scored; done]. destruct Hn as [-> |Hn]; cbn in *; lia.
    - intros (H1 & H2 & scored & H3 & ->). split; [done|]. exists scored. split; [|done]. apply scan_ok. exists scored. split_and!; [done..|]. by right. }
  split.
  - split.
    + destruct (exact_search request candidates limits) as [matches|] eqn:E; [|done]. intros _. apply Hs in E as (H1 & H2 & scored & H3 & _).
      split_and!; [lia..|]. apply scored_exist. by exists scored.
    + intros (H1 & H2 & (scored & H3)%scored_exist). assert (E : exact_search request candidates limits = Ok (take (es_limit request) (sort_by cmp scored))) by (apply Hs; eauto).
      by rewrite E.
  - intros matches (H1 & H2 & scored & H3 & ->)%Hs. pose proof (sort_by_sorted cmp (rank_laws _) scored) as Hsorted.
    destruct (sorted_take_drop _ (es_limit request) _ Hsorted) as [Ht Hd]. split.
    + exists scored, (drop (es_limit request) (sort_by cmp scored)). split_and!; [done| | |done|exact Hd].
      * by rewrite take_drop, sort_by_perm.
      * by rewrite length_take, sort_by_length, (Forall2_length _ _ _ H3).
    + intros Hnd candidates' Hp. apply Hs. destruct (Permutation_Forall2 (Permutation_sym Hp) H3) as (scored' & Hp' & H3').
      split; [done|]. split; [by rewrite Hp|]. exists scored'. split; [done|]. f_equal. apply (sort_by_unique cmp (rank_laws _)); [done|].
      assert (Hids : NoDup (map sm_id scored)).
      { replace (map sm_id scored) with (map vc_id candidates); [done|]. clear - H3. induction H3 as [|c m l k [E _] _ IH]; [done|]. cbn. by rewrite E, IH. }
      intros a b Ha Hb E. unfold cmp in E. rewrite rank_cmp_key in E. apply kcmp_eq in E. assert (Eid : sm_id a = sm_id b) by exact (f_equal snd E).
      apply list_elem_of_lookup in Ha as (i & Ha). apply list_elem_of_lookup in Hb as (j & Hb). assert (i = j) as ->; [|congruence].
      eapply (NoDup_lookup (map sm_id scored)); [done|by apply list_lookup_fmap_Some_2|]. rewrite Eid. by apply list_lookup_fmap_Some_2.
Qed.

(** ** What a search returns *)

(** Vectors as their constructor makes them. *)
Definition constructed (v : Vector) : Prop := exists values limits, vector_with_limits values limits = Ok v.

Definition f64_values (v : Vector) : list Z := map f64_from (v_values v).
Definition f64_sum (terms : list Z) : Z := fold_left f64_add terms 0.

(** The inner product, in double precision and in the order of the dimensions. *)
Definition inner_product (v w : Vector) : Z := f64_sum (zip_with f64_mul (f64_values v) (f64_values w)).
Definition squared_norm (v : Vector) : Z := inner_product v v.
Definition squared_difference (a b : Z) : Z := f64_mul (f64_sub a b) (f64_sub a b).
Definition is_zero (b : Z) : Prop := float_eqb binary64 b 0 = true.

(** The value of a metric on two vectors of one dimension: the root of the sum
    of the squared differences; one less the cosine of the angle, within its
    bounds, of vectors that have one; or the inner product. *)
Inductive measures (v w : Vector) : Distance -> Z -> Prop :=
| measures_euclidean : dimensions v = dimensions w ->
    measures v w Euclidean (f64_sqrt (f64_sum (zip_with squared_difference (f64_values v) (f64_values w))))
| measures_cosine : dimensions v = dimensions w -> ~ is_zero (squared_norm v) -> ~ is_zero (squared_norm w) ->
    measures v w Cosine (f64_sub f64_one
      (f64_clamp (f64_div (inner_product v w) (f64_mul (f64_sqrt (squared_norm v)) (f64_sqrt (squared_norm w)))) (float_neg binary64 f64_one) f64_one))
| measures_inner_product : dimensions v = dimensions w -> measures v w InnerProduct (inner_product v w).

(** A match comes before another when its distance is smaller or its inner
    product larger, in the total order of doubles, and by its identity between
    equal ones. *)
Definition ranks_before (metric : Distance) (a b : SearchMatch) : Prop :=
  let key m := total_key binary64 (sm_metric_value m) in
  match metric with
  | Euclidean | Cosine => key a < key b
  | InnerProduct => key b < key a
  end \/ (key a = key b /\ String.compare (sm_id a) (sm_id b) <> Gt).

(** A candidate and its match. *)
Definition measured (request : ExactSearchRequest) (c : VectorCandidate) (m : SearchMatch) : Prop :=
  sm_id m = vc_id c /\ measures (es_query request) (vc_vector c) (es_metric request) (sm_metric_value m).

Lemma constructed_length v : constructed v -> length (v_values v) = dimensions v.
Proof. intros (values & limits & (d & [_ [_ [= <-]]%check_then]%check_then & [_ [= <-]]%check_then)%rbind_ok). done. Qed.

Lemma dot_and_norms_loop l r dot left_norm right_norm : length l = length r ->
  fold_left (fun acc pair =>
    let '(dot, left_norm, right_norm) := acc in
    let l := f64_from (fst pair) in
    let r := f64_from (snd pair) in
    (f64_add dot (f64_mul l r), f64_add left_norm (f64_mul l l), f64_add right_norm (f64_mul r r))) (combine l r) (dot, left_norm, right_norm) =
  (fold_left f64_add (zip_with f64_mul (map f64_from l) (map f64_from r)) dot,
   fold_left f64_add (zip_with f64_mul (map f64_from l) (map f64_from l)) left_norm,
   fold_left f64_add (zip_with f64_mul (map f64_from r) (map f64_from r)) right_norm).
Proof.
  revert r dot left_norm right_norm. induction l as [|a l IH]; intros [|b r] dot left_norm right_norm H; try done.
  cbn [combine fold_left map zip_with fst snd]. apply IH. by injection H.
Qed.

Lemma dot_and_norms_separate v w : length (v_values v) = length (v_values w) ->
  dot_and_norms v w = (inner_product v w, squared_norm v, squared_norm w).
Proof. intros H. exact (dot_and_norms_loop _ _ 0 0 0 H). Qed.

Lemma squared_differences l r : map (fun pair => let difference := f64_sub (f64_from (fst pair)) (f64_from (snd pair)) in f64_mul difference difference) (combine l r) =
  zip_with squared_difference (map f64_from l) (map f64_from r).
Proof. revert r. induction l as [|a l IH]; intros [|b r]; try done. cbn [combine map zip_with fst snd]. by rewrite IH. Qed.

(** The code's loops compute the metrics. *)
Lemma metric_value_measures v w metric value : constructed v -> constructed w ->
  metric_value v w metric = Ok value <-> measures v w metric value.
Proof.
  intros Hv%constructed_length Hw%constructed_length. unfold metric_value. rewrite check_then. unfold require_same_definition.
  rewrite guard_ok. unfold definition_eqb. rewrite Nat.eqb_eq. change (vd_dimensions (v_definition v)) with (dimensions v).
  change (vd_dimensions (v_definition w)) with (dimensions w). split.
  - intros [Hd H]. destruct metric.
    + rewrite squared_differences in H. injection H as <-. by apply measures_euclidean.
    + rewrite dot_and_norms_separate in H by congruence. apply check_then in H as [[H1 H2]%guard_ok%negb_true_iff%orb_false_iff [= <-]].
      unfold is_zero. apply measures_cosine; [done|unfold is_zero; congruence..].
    + rewrite dot_and_norms_separate in H by congruence. injection H as <-. by apply measures_inner_product.
  - intros H. destruct H as [Hd|Hd H1 H2|Hd]; (split; [done|]).
    + by rewrite squared_differences.
    + rewrite dot_and_norms_separate by congruence. apply check_then. split; [|done].
      apply guard_ok, negb_true_iff, orb_false_iff. split; by apply not_true_is_false.
    + by rewrite dot_and_norms_separate by congruence.
Qed.

Lemma rank_cmp_before metric a b : rank_cmp (preference metric) a b <> Gt <-> ranks_before metric a b.
Proof.
  assert (G : forall x y (c : comparison), match (x ?= y) with Eq => c | _ => x ?= y end <> Gt <-> x < y \/ x = y /\ c <> Gt).
  { intros x y c. destruct (Z.compare_spec x y); [|split; [by left|done]|split; [done|intros [?|[? _]]; lia]].
    split; [by right|]. intros [?|[_ ?]]; [lia|done]. }
  unfold rank_cmp, ranks_before, float_total_cmp. destruct metric; cbv beta iota zeta delta [preference]; rewrite G; [done|done|].
  by rewrite (Z.eq_sym_iff (total_key binary64 (sm_metric_value b))).
Qed.

Lemma ranked_before metric l : StronglySorted (le_by (rank_cmp (preference metric))) l -> StronglySorted (ranks_before metric) l.
Proof.
  induction 1 as [|a l _ IH Ha]; constructor; [done|]. eapply Forall_impl; [exact Ha|]. intros b. apply rank_cmp_before.
Qed.

Lemma scores_measured request candidates scored : constructed (es_query request) -> Forall (fun c => constructed (vc_vector c)) candidates ->
  Forall2 (scores request) candidates scored <-> Forall2 (measured request) candidates scored.
Proof.
  intros Hq Hc. split; intros H; revert Hc; induction H as [|c m candidates scored [Hid Hm] H IH]; intros Hc; constructor;
    apply Forall_cons in Hc as [Hc1 Hc]; try by apply IH.
  all: split; [done|]; by apply (metric_value_measures _ _ _ _ Hq Hc1).
Qed.

(** C38: exhaustive search is exact.  It succeeds exactly when the number of
    results asked for and the number of candidates are within the limits and
    every candidate has a value of the metric: it has the dimension of the
    query, and for the cosine neither vector is zero.  Then the results are
    ranked by smaller distance or larger inner product and then by identity,
    each is a candidate with its value, there are as many as were asked for or
    as there are candidates, every result ranks before every candidate that is
    left out, and, when identities are distinct, the order of the candidates
    makes no difference. *)
Theorem exact_search_exact request candidates limits :
  constructed (es_query request) -> Forall (fun c => constructed (vc_vector c)) candidates ->
  (is_ok (exact_search request candidates limits) = true <->
    (0 < es_limit request <= max_results limits)%nat /\ (length candidates <= max_candidates limits)%nat /\
    Forall (fun c => exists value, measures (es_query request) (vc_vector c) (es_metric request) value) candidates) /\
  forall matches, exact_search request candidates limits = Ok matches ->
    (exists scored left_out, Forall2 (measured request) candidates scored /\ scored ≡ₚ matches ++ left_out /\
      length matches = Nat.min (es_limit request) (length candidates) /\
      StronglySorted (ranks_before (es_metric request)) matches /\
      forall m r, m ∈ matches -> r ∈ left_out -> ranks_before (es_metric request) m r) /\
    (NoDup (map vc_id candidates) -> forall candidates', candidates' ≡ₚ candidates -> exact_search request candidates' limits = Ok matches).
Proof.
  intros Hq Hc. destruct (exact_search_ranked request candidates limits) as [Hiff Hres]. split.
  - rewrite Hiff. do 2 apply and_iff_compat_l. rewrite !Forall_forall in *.
    apply forall_proper. intros c. apply forall_proper. intros Hin. setoid_rewrite <- (metric_value_measures _ _ _ _ Hq (Hc c Hin)).
    destruct (metric_value _ _ _) as [value|]; split; try done; [by exists value|by intros [? ?]].
  - intros matches H. destruct (Hres matches H) as [(scored & left_out & Hs & Hp & Hlen & Hsort & Hout) Hperm]. split; [|done].
    exists scored, left_out. split_and!; [by apply scores_measured|done|done|by apply ranked_before|]. intros m r Hm Hr. by apply rank_cmp_before, Hout.
Qed.

(** Two candidates at no distance, which their identities rank, and one that is
    left out; by the inner product the longest vector comes first. *)
Definition unit_x : Vector := mkVector (mkVectorDefinition 2) [0x3f800000; 0].
Definition unit_y : Vector := mkVector (mkVectorDefinition 2) [0; 0x3f800000].
Definition double_x : Vector := mkVector (mkVectorDefinition 2) [0x40000000; 0].
Definition nearest_two : ExactSearchRequest := mkExactSearchRequest unit_x Euclidean 2.
Definition largest_two : ExactSearchRequest := mkExactSearchRequest unit_x InnerProduct 2.
Definition sample_candidates : list VectorCandidate := [mkVectorCandidate "far" unit_y; mkVectorCandidate "b" unit_x; mkVectorCandidate "a" unit_x].
Definition long_candidates : list VectorCandidate := mkVectorCandidate "long" double_x :: sample_candidates.
Definition nearest_matches : list SearchMatch := [mkSearchMatch "a" 0; mkSearchMatch "b" 0].
Definition largest_matches : list SearchMatch := [mkSearchMatch "long" 0x4000000000000000; mkSearchMatch "a" f64_one].

Lemma exact_search_exact_witness :
  exact_search nearest_two sample_candidates (mkSearchLimits 3 2) = Ok nearest_matches /\
  exact_search nearest_two (rev sample_candidates) (mkSearchLimits 3 2) = Ok nearest_matches /\
  is_ok (exact_search nearest_two sample_candidates (mkSearchLimits 2 2)) = false /\
  exact_search largest_two long_candidates (mkSearchLimits 4 2) = Ok largest_matches /\
  StronglySorted (ranks_before InnerProduct) largest_matches.
Proof.
  assert (E : exact_search nearest_two sample_candidates (mkSearchLimits 3 2) = Ok nearest_matches) by (vm_compute; reflexivity).
  assert (E' : exact_search largest_two long_candidates (mkSearchLimits 4 2) = Ok largest_matches) by (vm_compute; reflexivity).
  assert (Hx : constructed unit_x) by (exists [0x3f800000; 0], default_vector_limits; vm_compute; reflexivity).
  assert (Hy : constructed unit_y) by (exists [0; 0x3f800000], default_vector_limits; vm_compute; reflexivity).
  assert (Hd : constructed double_x) by (exists [0x40000000; 0], default_vector_limits; vm_compute; reflexivity).
  assert (Hc : Forall (fun c => constructed (vc_vector c)) sample_candidates) by (repeat constructor; assumption).
  split; [exact E|split; [|split; [vm_compute; reflexivity|split; [exact E'|]]]].
  - apply (proj2 (exact_search_exact nearest_two sample_candidates (mkSearchLimits 3 2) Hx Hc) _ E).
    + by apply (bool_decide_unpack _).
    + by rewrite <- Permutation_rev.
  - destruct (proj2 (exact_search_exact largest_two long_candidates (mkSearchLimits 4 2) Hx (Forall_cons_2 (fun c => constructed (vc_vector c)) (mkVectorCandidate "long" double_x) _ Hd Hc)) _ E')
      as [(scored & left_out & _ & _ & _ & Hs & _) _]. exact Hs.
Defined.
