(* ===== verification/MlInference.v ===== *)
(** * Features, inference and evaluation ([crates/dol-ml/src/feature],
      [inference], [evaluation])

    Named features, requests to inference providers with the gates a request
    passes before and after the call, and the evaluation of predictions.  A
    provider is a parameter; so are the two readings of the clock. *)
From Stdlib Require Import ZArith Lia SpecFloat.
From stdpp Require Import list.
From S2P Require Import Prelude Floats Text BTree MlVector.

Local Open Scope Z_scope.

(** ** Limits ([limits/mod.rs]) *)
Record FeatureLimits := mkFeatureLimits { max_features : nat; max_name_bytes : nat; max_category_bytes : nat }.
Definition feature_limits_new (features names categories : nat) : Result FeatureLimits :=
  let? features := require_non_zero features in
  let? names := require_non_zero names in
  let? categories := require_non_zero categories in
  Ok (mkFeatureLimits features names categories).
Definition default_feature_limits : FeatureLimits := mkFeatureLimits (Z.to_nat 4096) 256 (Z.to_nat 4096).

(** The timeout is in nanoseconds. *)
Record InferenceLimits := mkInferenceLimits {
  max_batch_items : nat;
  max_output_items : nat;
  max_input_bytes : Z;
  max_cost_microunits : Z;
  inference_timeout : Z
}.
Definition inference_limits_new (batch output : nat) (bytes cost timeout : Z) : Result InferenceLimits :=
  guard (negb ((bytes =? 0) || (timeout =? 0))) "ML-LIMIT-002" ;;?
  let? batch := require_non_zero batch in
  let? output := require_non_zero output in
  Ok (mkInferenceLimits batch output bytes cost timeout).
Definition default_inference_limits : InferenceLimits := mkInferenceLimits (Z.to_nat 1024) (Z.to_nat 1024) (16 * 1024 * 1024) 1000000 30000000000.

Record EvaluationLimits := mkEvaluationLimits { max_cases : nat }.
Definition evaluation_limits_new (cases : nat) : Result EvaluationLimits := let? cases := require_non_zero cases in Ok (mkEvaluationLimits cases).
Definition default_evaluation_limits : EvaluationLimits := mkEvaluationLimits (Z.to_nat 100000).

(** ** Features ([feature/mod.rs]) *)
Definition FeatureName := string.
Definition feature_name_new (value : string) (limits : FeatureLimits) : Result FeatureName :=
  guard (negb (is_empty_str value || (max_name_bytes limits <? String.length value)%nat)) "ML-FEATURE-001" ;;? Ok value.

Inductive FeatureValue :=
| Numeric (value : Z)
| BooleanFeature (value : bool)
| Categorical (value : string)
| VectorFeature (value : Vector).

Definition feature_numeric (value : Z) : Result FeatureValue := guard (is_finite binary64 value) "ML-FEATURE-002" ;;? Ok (Numeric value).
Definition feature_categorical (value : string) (limits : FeatureLimits) : Result FeatureValue :=
  guard (negb (max_category_bytes limits <? String.length value)%nat) "ML-FEATURE-003" ;;? Ok (Categorical value).

Definition FeatureSet := list (FeatureName * FeatureValue).
Definition feature_set_new : FeatureSet := [].
Definition feature_insert (set : FeatureSet) (name : FeatureName) (value : FeatureValue) (limits : FeatureLimits) : Result FeatureSet :=
  guard (match bt_get name set with Some _ => false | None => true end) "ML-FEATURE-004" ;;?
  guard (negb (max_features limits <=? length set)%nat) "ML-FEATURE-005" ;;?
  Ok (bt_insert name value set).
Definition feature_get (set : FeatureSet) (name : string) : option FeatureValue := snd <$> List.find (fun e => String.eqb (fst e) name) set.

(** ** Inference ([inference/mod.rs]) *)
Inductive PrivacyClass := Public | Internal | Confidential | Restricted.
Definition privacy_rank (p : PrivacyClass) : Z := match p with Public => 0 | Internal => 1 | Confidential => 2 | Restricted => 3 end.
Definition privacy_gtb (a b : PrivacyClass) : bool := privacy_rank b <? privacy_rank a.

Record DataUsePolicy := mkDataUsePolicy { max_remote_privacy : PrivacyClass; allow_remote : bool; allow_provider_retention : bool }.
Definition local_only : DataUsePolicy := mkDataUsePolicy Public false false.

Record InferenceInput := mkInferenceInput { in_text : string; in_privacy : PrivacyClass }.
Definition encoded_bytes (input : InferenceInput) : nat := String.length (in_text input).

Inductive InferenceTask := EmbeddingTask (definition : VectorDefinition) | TextPrediction.

Record InferenceRequest := mkInferenceRequest { ir_model : string; ir_task : InferenceTask; ir_inputs : list InferenceInput }.

Definition add_input_bytes (total : Z) (input : InferenceInput) : Result Z :=
  let total := total + Z.of_nat (encoded_bytes input) in guard (in_u64 total) "ML-INFERENCE-003" ;;? Ok total.

Definition inference_request_new (model : string) (task : InferenceTask) (inputs : list InferenceInput) (limits : InferenceLimits)
  : Result InferenceRequest :=
  guard (negb (is_empty_str model || (512 <? zstrlen model))) "ML-INFERENCE-001" ;;?
  guard (negb (Nat.eqb (length inputs) 0 || (max_batch_items limits <? length inputs)%nat)) "ML-INFERENCE-002" ;;?
  let? bytes := foldR add_input_bytes inputs 0 in
  guard (negb (max_input_bytes limits <? bytes)) "ML-INFERENCE-003" ;;?
  Ok (mkInferenceRequest model task inputs).

(** [Iterator::max] keeps the last of equal elements, which are the same class. *)
Definition highest_privacy (request : InferenceRequest) : PrivacyClass :=
  match map in_privacy (ir_inputs request) with
  | [] => Public
  | p :: rest => fold_left (fun highest p => if privacy_gtb highest p then highest else p) rest p
  end.

Record ProviderCapabilities := mkProviderCapabilities {
  pc_remote : bool;
  pc_retains_inputs : bool;
  pc_max_privacy : PrivacyClass;
  pc_max_batch_items : nat;
  pc_max_output_items : nat;
  pc_cost_per_input : Z;
  pc_embedding_dimensions : list nat;
  pc_text_prediction : bool
}.
Definition provider_capabilities_new (remote : bool) : ProviderCapabilities := mkProviderCapabilities remote false Public 1 1 0 [] false.
Definition data_use (c : ProviderCapabilities) (privacy : PrivacyClass) (retains : bool) : ProviderCapabilities :=
  mkProviderCapabilities (pc_remote c) retains privacy (pc_max_batch_items c) (pc_max_output_items c) (pc_cost_per_input c)
    (pc_embedding_dimensions c) (pc_text_prediction c).
Definition capacity (c : ProviderCapabilities) (batch output : nat) : ProviderCapabilities :=
  mkProviderCapabilities (pc_remote c) (pc_retains_inputs c) (pc_max_privacy c) batch output (pc_cost_per_input c)
    (pc_embedding_dimensions c) (pc_text_prediction c).
Definition cost_per_input (c : ProviderCapabilities) (value : Z) : ProviderCapabilities :=
  mkProviderCapabilities (pc_remote c) (pc_retains_inputs c) (pc_max_privacy c) (pc_max_batch_items c) (pc_max_output_items c) value
    (pc_embedding_dimensions c) (pc_text_prediction c).
Definition with_embedding (c : ProviderCapabilities) (dimensions : nat) : ProviderCapabilities :=
  if existsb (Nat.eqb dimensions) (pc_embedding_dimensions c) then c
  else mkProviderCapabilities (pc_remote c) (pc_retains_inputs c) (pc_max_privacy c) (pc_max_batch_items c) (pc_max_output_items c)
    (pc_cost_per_input c) (sort_by Nat.compare (pc_embedding_dimensions c ++ [dimensions])) (pc_text_prediction c).
Definition with_text_prediction (c : ProviderCapabilities) : ProviderCapabilities :=
  mkProviderCapabilities (pc_remote c) (pc_retains_inputs c) (pc_max_privacy c) (pc_max_batch_items c) (pc_max_output_items c)
    (pc_cost_per_input c) (pc_embedding_dimensions c) true.

Definition supports (c : ProviderCapabilities) (task : InferenceTask) : bool :=
  match task with
  | EmbeddingTask definition => existsb (Nat.eqb (vd_dimensions definition)) (pc_embedding_dimensions c)
  | TextPrediction => pc_text_prediction c
  end.

Inductive InferenceOutput := EmbeddingOutput (v : Vector) | TextOutput (s : string).
Record InferenceResponse := mkInferenceResponse { rs_outputs : list InferenceOutput; rs_cost : Z }.

(** [trait InferenceProvider]; the deadline is an instant in nanoseconds. *)
Record InferenceProvider := mkInferenceProvider {
  provider_capabilities : ProviderCapabilities;
  infer : InferenceRequest -> Z -> Result InferenceResponse
}.

Definition authorize_provider (c : ProviderCapabilities) (request : InferenceRequest) (policy : DataUsePolicy) (limits : InferenceLimits) : Result unit :=
  let items := length (ir_inputs request) in
  let privacy := highest_privacy request in
  let estimated_cost := pc_cost_per_input c * Z.of_nat items in
  guard (supports c (ir_task request)) "ML-INFERENCE-004" ;;?
  guard (negb ((pc_max_batch_items c <? items)%nat || (pc_max_output_items c <? items)%nat || (max_output_items limits <? items)%nat)) "ML-INFERENCE-005" ;;?
  guard (negb (privacy_gtb privacy (pc_max_privacy c))) "ML-INFERENCE-006" ;;?
  guard (negb (pc_remote c && (negb (allow_remote policy) || privacy_gtb privacy (max_remote_privacy policy)))) "ML-INFERENCE-006" ;;?
  guard (negb (pc_retains_inputs c && negb (allow_provider_retention policy))) "ML-INFERENCE-007" ;;?
  guard (in_u64 estimated_cost) "ML-INFERENCE-008" ;;?
  guard (negb (max_cost_microunits limits <? estimated_cost)) "ML-INFERENCE-008".

Definition output_valid (task : InferenceTask) (output : InferenceOutput) : bool :=
  match task, output with
  | EmbeddingTask definition, EmbeddingOutput v => definition_eqb definition (v_definition v)
  | TextPrediction, TextOutput _ => true
  | _, _ => false
  end.

Definition validate_response (request : InferenceRequest) (response : InferenceResponse) (c : ProviderCapabilities) (limits : InferenceLimits) : Result unit :=
  let items := length (rs_outputs response) in
  guard (negb (negb (Nat.eqb items (length (ir_inputs request))) || (pc_max_output_items c <? items)%nat || (max_output_items limits <? items)%nat))
    "ML-INFERENCE-011" ;;?
  guard (negb (max_cost_microunits limits <? rs_cost response)) "ML-INFERENCE-012" ;;?
  forR (fun output => guard (output_valid (ir_task request) output) "ML-INFERENCE-013") (rs_outputs response).

(** [Instant::checked_add]: seconds are 64 bits signed. *)
Definition instant_checked_add (started timeout : Z) : option Z :=
  if started + timeout <? 2 ^ 63 * 1000000000 then Some (started + timeout) else None.

(** [started] and [elapsed] are what the clock says.  The requests the provider
    is given are part of the outcome. *)
Definition execute_inference (provider : InferenceProvider) (started elapsed : Z) (request : InferenceRequest) (policy : DataUsePolicy) (limits : InferenceLimits)
  : list (InferenceRequest * Z) * Result InferenceResponse :=
  let c := provider_capabilities provider in
  match authorize_provider c request policy limits ;;? ok_or (instant_checked_add started (inference_timeout limits)) "ML-INFERENCE-009" with
  | Err e => ([], Err e)
  | Ok deadline =>
      ([(request, deadline)],
       let? response := map_err (infer provider request deadline) "ML-INFERENCE-010" in
       guard (negb (inference_timeout limits <? elapsed)) "ML-INFERENCE-009" ;;?
       validate_response request response c limits ;;?
       Ok response)
  end.

(** ** Evaluation ([evaluation/mod.rs]) *)
Record BinaryCase := mkBinaryCase { bc_expected : bool; bc_predicted : bool }.
Record BinaryReport := mkBinaryReport { br_cases : nat; br_correct : nat }.

(** [usize as f64] *)
Definition f64_of_usize (n : nat) : Z := of_spec binary64 (quiet_nan binary64) (binary_normalize (prec binary64) (emax binary64) (Z.of_nat n) 0 false).
Definition accuracy (r : BinaryReport) : Z := f64_div (f64_of_usize (br_correct r)) (f64_of_usize (br_cases r)).

Definition count_case (limits : EvaluationLimits) (r : BinaryReport) (case : BinaryCase) : Result BinaryReport :=
  guard (negb (max_cases limits <=? br_cases r)%nat) "ML-EVAL-001" ;;?
  Ok (mkBinaryReport (S (br_cases r)) (br_correct r + if Bool.eqb (bc_expected case) (bc_predicted case) then 1 else 0)).

Definition evaluate_binary (cases : list BinaryCase) (limits : EvaluationLimits) : Result BinaryReport :=
  let? r := foldR (count_case limits) cases (mkBinaryReport 0 0) in
  guard (negb (Nat.eqb (br_cases r) 0)) "ML-EVAL-002" ;;? Ok r.

Record RegressionCase := mkRegressionCase { rc_expected : Z; rc_predicted : Z }.
Record RegressionReport := mkRegressionReport { rr_cases : nat; rr_mean_squared_error : Z; rr_mean_absolute_error : Z }.

Definition regression_case (limits : EvaluationLimits) (acc : nat * Z * Z) (case : RegressionCase) : Result (nat * Z * Z) :=
  let '(count, squared, absolute) := acc in
  guard (negb (max_cases limits <=? count)%nat) "ML-EVAL-001" ;;?
  guard (negb (negb (is_finite binary64 (rc_expected case)) || negb (is_finite binary64 (rc_predicted case)))) "ML-EVAL-003" ;;?
  let error := f64_sub (rc_predicted case) (rc_expected case) in
  Ok (S count, f64_add squared (f64_mul error error), f64_add absolute (float_abs binary64 error)).

Definition evaluate_regression (cases : list RegressionCase) (limits : EvaluationLimits) : Result RegressionReport :=
  let? acc := foldR (regression_case limits) cases (O, 0, 0) in
  let '(count, squared, absolute) := acc in
  guard (negb (Nat.eqb count 0)) "ML-EVAL-002" ;;?
  let divisor := f64_of_usize count in
  Ok (mkRegressionReport count (f64_div squared divisor) (f64_div absolute divisor)).

(** The cases of the crate's test: half of the classes right, an error of two. *)
Example reference_metrics :
  rmap accuracy (evaluate_binary [mkBinaryCase true true; mkBinaryCase false true] default_evaluation_limits) = Ok 0x3fe0000000000000 /\
  rmap rr_mean_squared_error (evaluate_regression [mkRegressionCase 0x3ff0000000000000 0x4008000000000000] default_evaluation_limits)
    = Ok 0x4010000000000000.
Proof. vm_compute. done. Qed.

(** ** Requests and capabilities *)
Definition total_bytes (inputs : list InferenceInput) : Z := Z.of_nat (sum_list_with encoded_bytes inputs).

Lemma input_bytes_ok inputs : forall total bytes, 0 <= total <= u64_max ->
  foldR add_input_bytes inputs total = Ok bytes <-> bytes = total + total_bytes inputs /\ bytes <= u64_max.
Proof.
  unfold total_bytes. induction inputs as [|i inputs IH]; intros total bytes Ht; cbn [foldR sum_list_with].
  - split; [intros [= <-]; lia|]. intros [-> _]. f_equal. lia.
  - rewrite rbind_ok. unfold add_input_bytes at 1, in_u64. setoid_rewrite check_then. setoid_rewrite check_ok. setoid_rewrite andb_true_iff. split.
    + intros (t & [Hb Et] & Hf). injection Et as <-. apply IH in Hf; lia.
    + intros [-> Hb]. exists (total + Z.of_nat (encoded_bytes i)). split; [split; [lia|done]|]. apply IH; lia.
Qed.

Lemma request_accepted model task inputs limits request : max_input_bytes limits <= u64_max ->
  inference_request_new model task inputs limits = Ok request <->
  request = mkInferenceRequest model task inputs /\ 1 <= zstrlen model <= 512 /\
  (1 <= length inputs <= max_batch_items limits)%nat /\ total_bytes inputs <= max_input_bytes limits.
Proof.
  intros Hm. unfold inference_request_new. rewrite !check_then, !check_ok, !negb_true_iff, !orb_false_iff, rbind_ok. setoid_rewrite check_then.
  setoid_rewrite check_ok. setoid_rewrite input_bytes_ok; [|done].
  assert (E : is_empty_str model = false <-> 1 <= zstrlen model) by (destruct model; unfold zstrlen; cbn [String.length is_empty_str]; [lia|split; [lia|done]]).
  rewrite E, Z.ltb_ge, Nat.eqb_neq, Nat.ltb_ge. setoid_rewrite negb_true_iff. setoid_rewrite Z.ltb_ge. split.
  - intros ([H1 H2] & [H3 H4] & bytes & [-> H5] & H6 & [= <-]). split_and!; [done|lia..].
  - intros (-> & H1 & H2 & H3). split_and!; [lia..|]. exists (0 + total_bytes inputs). split_and!; [done|lia..|done].
Qed.

Lemma embedding_dimensions_grow c dimensions d :
  d ∈ pc_embedding_dimensions (with_embedding c dimensions) <-> d = dimensions \/ d ∈ pc_embedding_dimensions c.
Proof.
  unfold with_embedding. destruct (existsb _ _) eqn:E.
  - split; [by right|]. intros [->|H]; [|done]. apply existsb_exists in E as (x & Hx & <-%Nat.eqb_eq). by apply list_elem_of_In.
  - cbn. rewrite sort_by_elem, elem_of_app, list_elem_of_singleton. tauto.
Qed.

Lemma feature_get_bt set name : bt_sorted set = true -> feature_get set name = bt_get name set.
Proof.
  intros Hs. unfold feature_get. destruct (List.find (fun e => String.eqb (fst e) name) set) as [[k v]|] eqn:E.
  - apply find_some in E as [Hin He]. apply String.eqb_eq in He. cbn in *. subst k. symmetry. by apply bt_elem_get; [|apply list_elem_of_In].
  - destruct (bt_get name set) as [v|] eqn:G; [|done]. apply bt_get_elem, list_elem_of_In in G. apply (find_none _ _ E) in G. cbn in G. by rewrite String.eqb_refl in G.
Qed.

(** ** The gates *)
Notation below p q := (privacy_rank p <= privacy_rank q).

Lemma privacy_gtb_spec p q : privacy_gtb p q = false <-> below p q.
Proof. unfold privacy_gtb. apply Z.ltb_ge. Qed.

Lemma highest_below request bound : below (highest_privacy request) bound <-> Forall (fun i => below (in_privacy i) bound) (ir_inputs request).
Proof.
  unfold highest_privacy. rewrite <- (Forall_map in_privacy (fun p => below p bound)). destruct (map _ _) as [|p l].
  { split; [constructor|]. intros _. destruct bound; cbn; lia. }
  rewrite Forall_cons. revert p. induction l as [|q l IH]; intros p; cbn [fold_left]; [split; [done|by intros [? _]]|].
  rewrite IH, Forall_cons. unfold privacy_gtb. destruct (Z.ltb_spec (privacy_rank q) (privacy_rank p)); split; intros; split_and?; try tauto; lia.
Qed.

(** What a request needs to be sent to a provider: vectors of a dimension the
    provider declares, or text prediction that it declares, and the rest. *)
Record Authorized (c : ProviderCapabilities) (request : InferenceRequest) (policy : DataUsePolicy) (limits : InferenceLimits) : Prop := {
  auth_task : match ir_task request with
              | EmbeddingTask definition => vd_dimensions definition ∈ pc_embedding_dimensions c
              | TextPrediction => pc_text_prediction c = true
              end;
  auth_items : (length (ir_inputs request) <= pc_max_batch_items c /\ length (ir_inputs request) <= pc_max_output_items c /\
                length (ir_inputs request) <= max_output_items limits)%nat;
  auth_privacy : Forall (fun i => below (in_privacy i) (pc_max_privacy c)) (ir_inputs request);
  auth_remote : pc_remote c = true -> allow_remote policy = true /\ Forall (fun i => below (in_privacy i) (max_remote_privacy policy)) (ir_inputs request);
  auth_retention : pc_retains_inputs c = true -> allow_provider_retention policy = true;
  auth_cost : pc_cost_per_input c * Z.of_nat (length (ir_inputs request)) <= max_cost_microunits limits
}.

Lemma supports_spec c task : supports c task = true <->
  match task with
  | EmbeddingTask definition => vd_dimensions definition ∈ pc_embedding_dimensions c
  | TextPrediction => pc_text_prediction c = true
  end.
Proof.
  destruct task as [definition|]; [|done]. cbn. rewrite existsb_exists. split.
  - intros (n & Hn & ->%Nat.eqb_eq). by apply list_elem_of_In.
  - intros H%list_elem_of_In. exists (vd_dimensions definition). by rewrite Nat.eqb_refl.
Qed.

Lemma authorize_spec c request policy limits : 0 <= pc_cost_per_input c -> max_cost_microunits limits <= u64_max ->
  authorize_provider c request policy limits = Ok tt <-> Authorized c request policy limits.
Proof.
  intros Hc Hm. unfold authorize_provider, in_u64. rewrite !check_then, !check_ok, !negb_true_iff, !orb_false_iff, !Nat.ltb_ge, privacy_gtb_spec, highest_below.
  rewrite andb_true_iff, Z.ltb_ge, !andb_false_iff, orb_false_iff, !negb_false_iff, privacy_gtb_spec, highest_below, supports_spec. split.
  - intros (H1 & H2 & H3 & H4 & H5 & H6 & H7). split; [done|tauto|done| | |done]; intros E; rewrite E in *; [by destruct H4 as [?|?]|by destruct H5].
  - intros [H1 H2 H3 H4 H5 H6]. split_and!; [done|tauto..|done| | |lia|lia|done].
    + destruct (pc_remote c); [right; by apply H4|by left].
    + destruct (pc_retains_inputs c); [right; by apply H5|by left].
Qed.

(** What a response needs to be returned. *)
Record Acceptable (request : InferenceRequest) (response : InferenceResponse) (limits : InferenceLimits) : Prop := {
  acc_outputs : length (rs_outputs response) = length (ir_inputs request);
  acc_cost : rs_cost response <= max_cost_microunits limits;
  acc_shape : Forall (fun output => match ir_task request, output with
                                    | EmbeddingTask d, EmbeddingOutput v => v_definition v = d
                                    | TextPrediction, TextOutput _ => True
                                    | _, _ => False
                                    end) (rs_outputs response)
}.

Lemma definition_eqb_eq a b : definition_eqb a b = true <-> b = a.
Proof. destruct a, b. unfold definition_eqb. cbn. rewrite Nat.eqb_eq. split; congruence. Qed.

Lemma validate_spec request response c limits policy : Authorized c request policy limits ->
  validate_response request response c limits = Ok tt <-> Acceptable request response limits.
Proof.
  intros A. destruct (auth_items _ _ _ _ A) as (_ & A1 & A2). unfold validate_response.
  rewrite !check_then, !check_ok, !negb_true_iff, !orb_false_iff, negb_false_iff, Nat.eqb_eq, !Nat.ltb_ge, Z.ltb_ge, forR_ok.
  assert (E : Forall (fun output => guard (output_valid (ir_task request) output) "ML-INFERENCE-013" = Ok tt) (rs_outputs response) <->
    Forall (fun output => match ir_task request, output with
                          | EmbeddingTask d, EmbeddingOutput v => v_definition v = d
                          | TextPrediction, TextOutput _ => True
                          | _, _ => False
                          end) (rs_outputs response)).
  { apply Forall_iff. intros o. rewrite check_ok. unfold output_valid. destruct (ir_task request), o; rewrite ?definition_eqb_eq; done. }
  rewrite E. split; [intros (((H1 & H2) & H3) & H4 & H5); by split|]. intros [H1 H2 H3]. split_and!; [done|lia|lia|done|done].
Qed.

(** C37: an inference request is gated before and after the call.  The provider
    is given nothing, or the request once, with the deadline.  It is given the
    request exactly when it declares the task, for an embedding with the same
    dimension, has the capacity, may see every
    input by its own class and, when it is remote, by the caller's policy, does
    not retain inputs against the policy, costs at most the budget, and the
    deadline can be represented.  A response is returned exactly when the
    provider gave it in time with one output per input, each of the shape asked
    for, at a cost within the budget. *)
Theorem inference_gated provider started elapsed request policy limits :
  0 <= pc_cost_per_input (provider_capabilities provider) -> max_cost_microunits limits <= u64_max ->
  let '(sent, result) := execute_inference provider started elapsed request policy limits in
  let deadline := started + inference_timeout limits in
  (sent = [] \/ sent = [(request, deadline)]) /\
  (sent <> [] <-> Authorized (provider_capabilities provider) request policy limits /\ deadline < 2 ^ 63 * 1000000000) /\
  forall response, result = Ok response <->
    sent <> [] /\ infer provider request deadline = Ok response /\ elapsed <= inference_timeout limits /\ Acceptable request response limits.
Proof.
  intros Hc Hm. set (c := provider_capabilities provider) in *. set (deadline := started + inference_timeout limits).
  assert (Hgate : forall d, (authorize_provider c request policy limits ;;? ok_or (instant_checked_add started (inference_timeout limits)) "ML-INFERENCE-009") = Ok d <->
    d = deadline /\ Authorized c request policy limits /\ deadline < 2 ^ 63 * 1000000000).
  { intros d. rewrite check_then, authorize_spec, ok_or_ok by done. unfold instant_checked_add. fold deadline.
    destruct (Z.ltb_spec deadline (2 ^ 63 * 1000000000)); split; [intros [? [= <-]]|intros (-> & ? & _)|intros [_ ?]|intros (_ & _ & ?); lia]; done. }
  unfold execute_inference. fold c. destruct (_ ;;? _) as [d|e] eqn:E.
  - destruct (proj1 (Hgate d) eq_refl) as (-> & A & Hd). split; [by right|]. split; [done|]. intros response.
    rewrite rbind_ok. setoid_rewrite map_err_ok. setoid_rewrite check_then. setoid_rewrite check_ok. setoid_rewrite check_then.
    setoid_rewrite validate_spec; [|exact A]. setoid_rewrite negb_true_iff. setoid_rewrite Z.ltb_ge. split.
    + intros (r & Hr & He & Ha & [= <-]). done.
    + intros (_ & Hr & He & Ha). by exists response.
  - split; [by left|]. split; [|intros response; split; [done|by intros [? _]]]. split; [done|]. intros [A Hd]. discriminate (proj2 (Hgate deadline) (conj eq_refl (conj A Hd))).
Qed.

(** The default policy keeps every request from a remote provider. *)
Lemma local_only_is_local provider started elapsed request limits : pc_remote (provider_capabilities provider) = true ->
  0 <= pc_cost_per_input (provider_capabilities provider) -> max_cost_microunits limits <= u64_max ->
  fst (execute_inference provider started elapsed request local_only limits) = [].
Proof.
  intros Hr Hc Hm. unfold execute_inference. destruct (_ ;;? _) as [d|] eqn:E; [|done]. apply check_then in E as [A _].
  apply authorize_spec in A; [|done..]. by destruct (auth_remote _ _ _ _ A Hr).
Qed.

(** The provider of the crate's test: it embeds in two dimensions, remotely. *)
Definition test_provider : InferenceProvider :=
  mkInferenceProvider
    (with_embedding (cost_per_input (capacity (data_use (provider_capabilities_new true) Confidential false) 8 8) 2) 2)
    (fun request _ => Ok (mkInferenceResponse (map (fun _ => EmbeddingOutput (mkVector (mkVectorDefinition 2) [0; 0])) (ir_inputs request)) 2)).
Definition sensitive_request : InferenceRequest :=
  mkInferenceRequest "embed-v1" (EmbeddingTask (mkVectorDefinition 2)) [mkInferenceInput "sensitive value" Confidential].

Lemma inference_gated_witness :
  execute_inference test_provider 0 1 sensitive_request local_only default_inference_limits = ([], error "ML-INFERENCE-006") /\
  execute_inference test_provider 0 1 sensitive_request (mkDataUsePolicy Confidential true false) default_inference_limits =
    ([(sensitive_request, 30000000000)], infer test_provider sensitive_request 0) /\
  Authorized (provider_capabilities test_provider) sensitive_request (mkDataUsePolicy Confidential true false) default_inference_limits.
Proof.
  split; [vm_compute; reflexivity|split; [vm_compute; reflexivity|]].
  refine (proj1 (proj1 (proj1 (proj2 (inference_gated test_provider 0 1 sensitive_request (mkDataUsePolicy Confidential true false)
    default_inference_limits _ _))) _)); [vm_compute; discriminate..|discriminate].
Defined.

(** ** Evaluations *)
Definition agrees (case : BinaryCase) : bool := Bool.eqb (bc_expected case) (bc_predicted case).

Lemma count_cases limits cases : forall r out, foldR (count_case limits) cases r = Ok out <->
  out = mkBinaryReport (br_cases r + length cases) (br_correct r + length (List.filter agrees cases)) /\
  (cases = [] \/ (br_cases r + length cases <= max_cases limits)%nat).
Proof.
  induction cases as [|case cases IH]; intros r out; cbn [foldR length List.filter].
  - rewrite !Nat.add_0_r. destruct r. split; [intros [= <-]; split; [done|by left]|by intros [-> _]].
  - rewrite rbind_ok. unfold count_case at 1. fold (agrees case). setoid_rewrite check_then. setoid_rewrite check_ok.
    setoid_rewrite negb_true_iff. setoid_rewrite Nat.leb_gt. setoid_rewrite IH. split.
    + intros (s & [Hl Es] & -> & Hn). injection Es as <-. cbn in *. split; [f_equal; [lia|]; destruct (agrees case); cbn; lia|]. right.
      destruct Hn as [-> |?]; cbn; lia.
    + intros [-> [?|Hn]]; [done|]. eexists. split; [split; [lia|done]|]. cbn. split; [f_equal; [lia|]; destruct (agrees case); cbn; lia|]. right. lia.
Qed.

(** Binary evaluation is bounded and exact: it succeeds exactly on one case
    up to the limit, and reports how many cases there are and in how many the
    prediction is the expectation. *)
Theorem binary_evaluation_exact cases limits report :
  evaluate_binary cases limits = Ok report <->
  (1 <= length cases <= max_cases limits)%nat /\ report = mkBinaryReport (length cases) (length (List.filter agrees cases)).
Proof.
  unfold evaluate_binary. rewrite rbind_ok. setoid_rewrite check_then. setoid_rewrite check_ok. setoid_rewrite count_cases.
  setoid_rewrite negb_true_iff. setoid_rewrite Nat.eqb_neq. cbn. split.
  - intros (r & [-> Hn] & Hz & [= <-]). cbn in Hz. split; [|done]. destruct Hn as [-> |?]; cbn in *; lia.
  - intros [Hn ->]. eexists. split; [split; [done|right; lia]|]. cbn. split; [lia|done].
Qed.

Lemma regression_counts limits cases : forall count squared absolute out, foldR (regression_case limits) cases (count, squared, absolute) = Ok out ->
  fst (fst out) = (count + length cases)%nat /\ (cases = [] \/ (count + length cases <= max_cases limits)%nat) /\
  Forall (fun case => is_finite binary64 (rc_expected case) = true /\ is_finite binary64 (rc_predicted case) = true) cases.
Proof.
  induction cases as [|case cases IH]; intros count squared absolute out; cbn [foldR length].
  - intros [= <-]. split_and!; [cbn; lia|by left|constructor].
  - rewrite rbind_ok. unfold regression_case at 1. rewrite Nat.add_succ_r. intros (s & Hs & Hr).
    apply check_then in Hs as [Hl Hs]. apply check_then in Hs as [Hf Hs]. injection Hs as <-. apply IH in Hr as (-> & Hn & Hr).
    apply check_ok, negb_true_iff, Nat.leb_gt in Hl. apply check_ok, negb_true_iff, orb_false_iff in Hf. rewrite !negb_false_iff in Hf.
    split_and!; [lia| |by constructor]. right. destruct Hn as [-> |?]; cbn; lia.
Qed.

(** A regression report is of finite cases, within the limit. *)
Lemma regression_accepts cases limits report : evaluate_regression cases limits = Ok report ->
  rr_cases report = length cases /\ (1 <= length cases <= max_cases limits)%nat /\
  Forall (fun case => is_finite binary64 (rc_expected case) = true /\ is_finite binary64 (rc_predicted case) = true) cases.
Proof.
  unfold evaluate_regression. rewrite rbind_ok. intros ([[count squared] absolute] & (E & Hn & Hf)%regression_counts & H). cbn in E. subst count.
  apply check_then in H as [Hz H]. injection H as <-. apply check_ok, negb_true_iff, Nat.eqb_neq in Hz. split; [done|]. split; [|done].
  destruct Hn as [-> |?]; cbn in *; lia.
Qed.
